(* ===== verification/_CoqProject ===== *)
-Q . S2P
Prelude.v
Ids.v
Qos.v
EcLayout.v
Bitrot.v
Erasure.v
EcPipeline.v
Crc.v
RpcFrame.v
RpcCodec.v
RpcServer.v
Record.v
ExtentFile.v
DiskLayout.v
Rocks.v
MetaMerge.v
StoreIndex.v
IndexRefine.v
StoreOps.v
StoreProps.v
GroupCommit.v
Compaction.v
PdDb.v
LogStore.v
PdCluster.v
PdChunk.v
PdChunkInv.v
PdPlacement.v
PdJob.v
PdHeartbeat.v
PdMeta.v
PdMetaInv.v
PdState.v
PdInv.v
PdRaft.v
PdSnapshot.v
PdRebind.v
PdLife.v
PdRoute.v
Client.v
PdJournal.v
PdService.v
PdServiceProps.v
PdDriver.v
DataNode.v
PdSched.v
Worker.v
EngineRepair.v
Maintenance.v
RepairNode.v
RepairNodeProps.v
RpcNode.v
WriterSession.v
GcRound.v
GcEngine.v
GcSystem.v
Gateway.v
GatewayProps.v
MetaStore.v
MetaKeys.v
MetaNs.v
MetaRefs.v
MetaFlat.v
MetaFlatProps.v
GwList.v
MetaHier.v
MetaHierProps.v
MetaSm.v
MetaSmProps.v
MetaGc.v
MetaGcProps.v
MetaNode.v
MetaClient.v
ObjectService.v
S3Compat.v
S3CompatProps.v
HttpS3.v
