(* ===== verification/Prelude.v ===== *)
(** * epochIO: a verification development

    epochIO is an erasure-coded object store. A gateway cuts objects into blobs,
    erasure-codes each blob into shards and sends every shard to a data node; a
    data node appends shards to extent files and indexes them in RocksDB; the
    placement driver (PD) decides which disks hold the shards of a chunk and
    has them repaired; the metadata service maps names to blobs; workers repair,
    inspect and collect garbage. This library models the code of these parts as
    executable definitions and proves what makes them correct, part by part and
    for the parts put together.

    ** Files

    Shared:
    - [Prelude]: results and their bind, machine integers, byte lists (slices,
      [copy_from_slice], little- and big-endian fields), lexicographic byte order;
      the tactics and the hint database the other files use.
    - [Ids] (epoch-proto: id.rs, error.rs, code_mode.rs, consts.rs): the
      bit-packed ids, wire error codes, code modes, inode numbers.

    Erasure coding and the wire:
    - [EcLayout], [Bitrot], [Erasure] (epoch-ec: layout.rs, frame.rs, erasure.rs,
      buffer.rs): striping arithmetic, BLAKE3-framed shard bodies, the
      Reed-Solomon wrapper.
    - [EcPipeline] (epoch-gateway: code.rs, pipeline.rs;
      epoch-worker: repair/rebuild.rs): blobs to shard bodies and back, and the
      rebuild of one body.
    - [Crc]: CRC-32C as the class the codecs are proved against.
    - [RpcFrame], [RpcCodec], [RpcServer], [RpcNode] (epoch-rpc:
      frame.rs, codec.rs, conn.rs, server.rs, transport.rs, pool.rs; epoch-store:
      handler.rs): frame header and control structs; a connection as a byte
      stream, the streams of a server and their dispatch to a handler; a storage
      engine as that handler.

    Data nodes:
    - [Record], [ExtentFile] (epoch-store: extent/record.rs, extent/state.rs,
      extent/file.rs): the record format and the append-only extent file. A file
      is its list of bytes; [write_all_at], [read_exact_at], [set_len] are the
      positioned operations of the standard library.
    - [DiskLayout] (superblock.rs, disk.rs): the superblock and its two copies.
      [Qos] (qos.rs): the rate limiters of background work.
    - [Rocks]: what the index needs of RocksDB, as the class [RocksDb] (point
      reads through the merge operator, atomic batches, ordered iteration), and
      an instance over finite maps of cells that shows the class can be met. The
      partial merges RocksDB may make between operations are steps of their own
      ([background] in [IndexRefine]); the theorems above the index are about
      databases in which none has replaced operands.
    - [MetaMerge], [StoreIndex], [IndexRefine] (meta_merge.rs, index.rs): the
      per-disk index. [AbsIndex] is its specification, three finite maps; [rep]
      relates a database to it.
    - [StoreOps], [StoreProps], [GroupCommit], [Compaction], [EngineRepair]
      (error.rs, write.rs, read.rs, writer.rs, compact.rs, scrub.rs, service.rs):
      the storage engine. [Engine] is its state (disk, index, open extents), [M] a
      state-and-error monad in which an error keeps the effects made before it, as
      in the source. [extent_ok] is the invariant between an extent file and its
      index entries.
    - [Maintenance] (service.rs, io_pool.rs;
      epoch-node: roles/maintenance.rs): the maintenance sweep of a disk, and runs
      of it and of a repair target across a restart.

    Placement driver (epoch-pd):
    - [PdDb], [PdCluster], [PdChunk], [PdChunkInv], [PdPlacement], [PdJob],
      [PdMeta], [PdMetaInv] (cluster/, chunk/, job/, writer/, shard_repair.rs,
      bucket.rs, config_mgr.rs, credential.rs, meta_mgr.rs): the managers. A
      manager's state is its cache; every command stages its durable writes in the
      batch of the raft entry; the [Inv] files hold the invariants between caches
      and column families.
    - [LogStore] (raft/log_store.rs of epoch-pd and epoch-meta):
      the durable logs under consensus.
    - [PdState], [PdInv], [PdRaft], [PdSnapshot], [PdRebind], [PdLife], [PdRoute]
      (journal/entry.rs, state.rs, raft/state_machine.rs, raft/snapshot.rs): the
      commands with their checks across managers, the batch that flushes once,
      restart and snapshots, and theorems about rebinding, job life cycles and
      routing of names.
    - [PdHeartbeat] (cluster/heartbeat.rs): the leader's volatile observations.
      [PdJournal], [PdDriver] (journal/client.rs,
      chunk/driver.rs, job/driver.rs): proposals and the background drivers.
      [DataNode]: the storage engines the drivers call, as an instance of
      [ExtentNodes]. [PdSched] (meta_sched/): the scheduler of
      metadata partitions. [PdService], [PdServiceProps] (service.rs):
      the handlers, and what a gateway resolves through them.

    Workers:
    - [Worker] (epoch-worker: coordinator.rs, subtask/mod.rs,
      repair/, inspect/mod.rs) over backend classes; [RepairNode],
      [RepairNodeProps] (epoch-node: roles/repair.rs): the backends
      over the placement driver and the engines.
    - [GcRound], [GcEngine], [GcSystem] (epoch-worker: gc/mod.rs; epoch-node:
      roles/gc.rs): a collection round over the class [GcBackend], the storage engine
      as that backend, and a transition system of gateways, placement driver, metadata
      and a round.

    Metadata service (epoch-meta):
    - [MetaStore], [MetaKeys] (store/, partition/mod.rs): the store trait as the
      class [MetaStore] with its in-memory and RocksDB engines as instances, paged
      scans and exports; key codecs and partition ranges.
    - [MetaNs], [MetaRefs], [MetaFlat], [MetaFlatProps], [MetaHier],
      [MetaHierProps] (ns_common/mod.rs, ref_extractor.rs, guard.rs, ns_flat/,
      ns_hier/mod.rs): the two namespaces. A handler reads the store and returns
      the batch it wants applied; [MetaRefs] counts the slices a store mentions as
      a multiset.
    - [MetaSm], [MetaSmProps] (raft/state_machine.rs): the state machine of a
      partition over any [MetaStore]. [MetaGc], [MetaGcProps] (deleter.rs,
      gc_export.rs): the delete sweep and the export of references.
    - [MetaNode] (raft/mod.rs, service.rs): a node with its groups
      and handlers.

    Clients and gateway:
    - [Client], [WriterSession] (epoch-client: pd.rs, topology.rs,
      chunk_map.rs, writable_set.rs, bucket_cache.rs, credential_cache.rs,
      writer_token.rs): leader discovery, caches, blob ids. [MetaClient]
      (meta.rs): routed metadata calls over a cluster of nodes.
    - [Gateway], [GatewayProps] (epoch-gateway: range.rs, slices.rs,
      put.rs, get.rs, gateway.rs, admission.rs): the data path. [ObjectService]
      (object.rs, etag.rs): objects. [GwList]
      (list.rs): listings.
    - [S3Compat], [S3CompatProps] (s3compat.rs): objects of a
      hierarchical bucket over the class [HierLaws], and a partition that meets it.
      [HttpS3] (http.rs, auth.rs, error.rs): the S3 operations.

    ** What the theorems show

    - The whole: an object put through one gateway is fetched through any other
      that resolves its chunks as they were written, although shards do not answer
      ([object_put_fetch]); paths of a hierarchical bucket read what was put, once the
      root's inode cannot be minted ([hier_put_get], [hier_delete_get]); no request
      gets anything its credential does not allow ([s3_authorized]); listings of a
      partition without a delimiter are complete ([listing_complete]).
    - Garbage collection: a round reclaims a blob in use only if its token was not
      live when the round began and its put overlaps the round ([gc_safe]); a round,
      whose calls may fail, keeps exactly what the exports and the watermarks name
      ([gc_round_exact], for a data node by [engine_gc_laws]); an export has what the
      leader can read, but for stranded segments ([gc_keeps_readable]).
    - Codecs: ids, frame headers, control structs, records, extent headers, index
      values, superblocks, upload ids and part tags decode back from their
      encodings and malformed input is told apart ([shard_id_lossless],
      [extent_id_order], [frame_header_roundtrip], [control_codecs_roundtrip],
      [upload_id_roundtrip], [part_tag_roundtrip]).
    - Erasure coding: the closed forms of the layout agree with cutting a blob
      stripe by stripe, the verifier accepts exactly what the write path produces,
      blobs decode from enough authentic frames ([layout_agrees_with_stripes],
      [verify_shard_body_exact], [reconstruct_restores], [blob_roundtrip]).
    - The data plane delivers a remote write stream as a writer in the process
      would, whatever shares its connection ([stream_delivery]).
    - Extent files, index and engine: append, crash recovery, exact scans
      ([extent_append_read], [extent_crash_recovery], [scan_exact]); the index
      implements three maps, up to partial merges ([index_refines]); writes and reads on every branch
      ([write_blob_correct]), group commit as single writes ([group_commit_equiv]),
      recovery with and without the index ([recover_committed],
      [recover_rebuilds]), compaction with concurrent deletes
      ([compaction_preserves]), whole maintenance sweeps ([sweep_keeps_reads],
      [scrub_covers]), a superblock update cut off anywhere ([superblock_update]),
      the bounds of the rate limiter ([limiter_bounds]).
    - The placement driver: batches are atomic and durable ([pd_apply_durable]); ids
      are never handed out twice ([pd_ids_never_reused]); snapshots transfer what
      they cover ([snapshot_transfer]); placement is admissible
      ([plan_placement_correct]) and published chunks are backed by extents
      ([placement_backed]); rebinding is fenced ([rebind_fenced]); jobs only go
      forward ([job_lifecycle]); heartbeat transitions apply ([sweep_applies]);
      partitions are granted exactly ([create_partition_exact]), scheduled soundly
      ([scheduler_sound]) and names keep their route across splits
      ([split_keeps_routes]); gateways resolve what the tables hold
      ([client_view_refines], [pick_exact]); the logs of groups that share a
      database are independent, but for one read ([meta_logs_refine]).
    - Repair puts back exactly the bodies the write path made ([repair_restores]).
    - The metadata service: no flat operation on parts from 1 loses or invents a slice
      ([flat_apply_conserves]); entry counts of directories that are minted are exact
      ([hier_counts_exact]); a client whose routes lead to nodes that answer reaches
      the leader ([routed_put_get]); restart and snapshot of a partition ([meta_restart],
      [meta_snapshot_transfer]); the delete sweep removes only expired entries whose
      blobs are gone and drains the queue ([sweep_safe], [sweep_drains]); blob ids
      of a session never repeat and its watermark is safe
      ([writer_session_sound]).
    - Behaviours the comments of the source do not intend, each with a run that
      shows it: [partial_merge_loses_updates], [batch_repeat_acked_unwritten],
      [rebuild_unaligned_cursor], [rebuild_stuck], [limiter_doubles],
      [reaped_end_unanswered], [neighbour_hides_log], [snapshot_loses_buckets],
      [create_retry_shadows], [creation_race_overlaps], [replay_reclaims_live],
      [delete_destroys_extension], [split_strands_suffix], [split_loses_queued],
      [snapshot_forgets_tag], [second_directory_is_root], [fresh_root_miscounts],
      [fresh_partition_aliases_root], [behind_split_clears_child], [rename_truncates],
      [complete_part_zero_fails], [part_zero_leaks], [repeated_part_doubles],
      [concurrent_mkdir_rejected], [lossy_token_skips], [listing_skips_upper_bound],
      [listing_repeats_group], [dead_route_fails], [unhealthy_disk_unreadable],
      [new_token_reclaimed], [retired_put_reclaimed].

    ** Parameters, fuel and bounds

    CRC-32C, BLAKE3, MD5, Reed-Solomon, RocksDB and the JSON serializer are not part
    of the source; they are classes whose fields state documented behaviour, each
    with a concrete instance. Log ids and memberships of the consensus library are
    opaque types, and what it answers (leadership, read index, the outcome of a
    proposal) is an argument: [RaftView] on a metadata node, the answers of the
    journal in the placement driver. The clock, the data nodes and the network of a
    delete sweep, a gateway or a repair are records the theorems quantify over
    ([World], [GwWorld]) or classes with an instance over storage engines
    ([ExtentNodes], [ShardHandler], the backends of [Worker]). Doubles of the
    scheduler are the binary64 of the Standard Library's specification.

    Loops that are not structural take fuel: [scan_loop] gets one step more than the
    number of 4 KiB blocks of the file, since every record takes at least one block;
    [verify_loop] one step per byte of the body; [read_frames] one per byte of the
    stream; a paged scan of a metadata family one more than the family has keys,
    since every page but the last has a key; the pages of an inspection as many as
    [inspect_expand_total] proves enough. [scan_exact], [verify_shard_body_exact] and
    [paged_scan_ok] prove the others enough. Where the source itself bounds a loop
    (attempts of a routed call, batches of a listing) the fuel is that bound.
    Integers are [Z] kept in the range of their machine type by the codecs and by
    saturating operations where the source saturates; theorems that need a sum to
    stay below [2^64] say so. Theorems over [HierLaws] need the inode counter of a
    partition to be past the root's inode, which a bootstrap partition does not
    ensure ([second_directory_is_root]).

    ** What is not modelled

    Threads, channels, async scheduling, sockets and the multiplexer of the client
    (mux.rs), so cancellation and timeouts other than the ones named above; the
    blocking I/O pool's handles; logging, metrics and telemetry; generated protobuf
    code; the adapters of the consensus library to gRPC; the web console and the
    object browser; process wiring and configuration files; HTTP, XML and signature
    verification, which are the s3s library; test helpers. Interleavings that matter
    are modelled as sequences of steps (deletes between the phases of a compaction,
    requests of one batch, frames of a connection, the steps of [GcSystem]).
    *)

From stdpp Require Export base numbers list gmap strings sorting.
From Stdlib Require Export ZArith Lia.

Open Scope Z_scope.

(** ** Results: the source's [Result<T, E>] *)

Inductive result (E A : Type) : Type :=
| Ok (a : A)
| Err (e : E).
Arguments Ok {E A} a.
Arguments Err {E A} e.

Declare Scope result_scope.
Delimit Scope result_scope with result.

(** The [?] operator: early return of the error. *)
Notation "x <-? e ;; k" :=
  (match e with Ok x => k | Err err => Err err end)
  (at level 100, e at next level, k at level 200, right associativity) : result_scope.
Open Scope result_scope.

(** [Result::ok] *)
Definition res_ok {E A} (r : result E A) : option A :=
  match r with Ok a => Some a | Err _ => None end.

(** [Option::filter] *)
Definition opt_filter {A} (p : A -> bool) (o : option A) : option A :=
  match o with Some a => if p a then Some a else None | None => None end.

(** [Option::ok_or] *)
Definition ok_or {E A} (o : option A) (e : E) : result E A :=
  match o with Some a => Ok a | None => Err e end.

(** ** Machine integers *)

Definition U8_MAX : Z := 2 ^ 8 - 1.
Definition U16_MAX : Z := 2 ^ 16 - 1.
Definition U32_MAX : Z := 2 ^ 32 - 1.
Definition U64_MAX : Z := 2 ^ 64 - 1.

(** A value of the unsigned type of [w] bits. *)
Definition uint (w x : Z) : Prop := 0 <= x < 2 ^ w.
Abbreviation is_u8 := (uint 8).
Abbreviation is_u16 := (uint 16).
Abbreviation is_u32 := (uint 32).
Abbreviation is_u64 := (uint 64).
Abbreviation is_u128 := (uint 128).
Definition is_i64 (x : Z) : Prop := - 2 ^ 63 <= x < 2 ^ 63.

(** [as] casts: truncation to [w] bits, and the two's complement views. *)
Definition wrap (w x : Z) : Z := x mod 2 ^ w.
Definition i64_to_u64 (x : Z) : Z := x mod 2 ^ 64.
Definition u64_to_i64 (x : Z) : Z := if x <? 2 ^ 63 then x else x - 2 ^ 64.

(** [checked_add], [saturating_add], [saturating_mul], [saturating_sub] on the
    unsigned type of [w] bits. *)
Definition checked_add (w x y : Z) : option Z :=
  if x + y <? 2 ^ w then Some (x + y) else None.
Definition saturating_add (w x y : Z) : Z := Z.min (x + y) (2 ^ w - 1).
Definition saturating_mul (w x y : Z) : Z := Z.min (x * y) (2 ^ w - 1).
Definition saturating_sub (x y : Z) : Z := Z.max (x - y) 0.

(** [div_ceil] and [next_multiple_of] on unsigned integers. *)
Definition div_ceil (x y : Z) : Z := (x + y - 1) / y.
Definition next_multiple_of (x m : Z) : Z := div_ceil x m * m.

Ltac Zify.zify_post_hook ::= Z.div_mod_to_equations.

Lemma u64_i64_roundtrip x : is_i64 x -> u64_to_i64 (i64_to_u64 x) = x.
Proof. unfold is_i64, u64_to_i64, i64_to_u64. intros H. case_match; lia. Qed.

Lemma i64_u64_roundtrip x : is_u64 x -> i64_to_u64 (u64_to_i64 x) = x.
Proof. unfold uint, u64_to_i64, i64_to_u64. intros H. case_match; lia. Qed.

Lemma i64_to_u64_range x : is_u64 (i64_to_u64 x).
Proof. unfold uint, i64_to_u64. lia. Qed.

Lemma u64_to_i64_range x : is_u64 x -> is_i64 (u64_to_i64 x).
Proof. unfold uint, is_i64, u64_to_i64. case_match; lia. Qed.

Lemma div_ceil_spec x y : 0 <= x -> 0 < y ->
  x <= div_ceil x y * y < x + y.
Proof. unfold div_ceil. intros. nia. Qed.

Lemma div_ceil_0 y : 0 < y -> div_ceil 0 y = 0.
Proof. unfold div_ceil. intros. rewrite Z.div_small; lia. Qed.

Lemma div_ceil_pos x y : 0 < x -> 0 < y -> 0 < div_ceil x y.
Proof. intros. pose proof (div_ceil_spec x y). nia. Qed.

Lemma div_ceil_unique x y q : 0 < y -> (q - 1) * y < x <= q * y -> div_ceil x y = q.
Proof.
  unfold div_ceil. intros. symmetry. apply Z.div_unique with (x + y - 1 - y * q); nia.
Qed.

Lemma next_multiple_of_spec x m : 0 <= x -> 0 < m ->
  x <= next_multiple_of x m < x + m /\ next_multiple_of x m mod m = 0.
Proof.
  unfold next_multiple_of. intros. split; [by apply div_ceil_spec|].
  by rewrite Z.mod_mul by lia.
Qed.

(** ** Bytes, buffers and slices

    A byte buffer is a list of [Z] in [0, 256); offsets and lengths are [Z], as
    the source's [usize]/[u64] are. *)

Definition is_byte (b : Z) : Prop := 0 <= b < 256.
Abbreviation is_bytes := (Forall is_byte).

Definition len {A} (l : list A) : Z := Z.of_nat (length l).
Definition zeros (n : Z) : list Z := replicate (Z.to_nat n) 0.
(** [&l[off .. off + n]] *)
Definition slice {A} (off n : Z) (l : list A) : list A :=
  take (Z.to_nat n) (drop (Z.to_nat off) l).
(** [buf[off ..].copy_from_slice(src)] *)
Definition copy_at {A} (off : Z) (src buf : list A) : list A :=
  take (Z.to_nat off) buf ++ src ++ drop (Z.to_nat (off + len src)) buf.
(** [buf.first_chunk::<N>()] *)
Definition first_chunk {A} (n : Z) (l : list A) : option (list A) :=
  if n <=? len l then Some (take (Z.to_nat n) l) else None.

Lemma len_nonneg {A} (l : list A) : 0 <= len l.
Proof. unfold len. lia. Qed.
Lemma len_nil {A} : len (@nil A) = 0.
Proof. done. Qed.
Lemma len_cons {A} (x : A) l : len (x :: l) = 1 + len l.
Proof. unfold len. rewrite length_cons. lia. Qed.
Lemma len_app {A} (l1 l2 : list A) : len (l1 ++ l2) = len l1 + len l2.
Proof. unfold len. rewrite length_app. lia. Qed.
Lemma len_zeros n : 0 <= n -> len (zeros n) = n.
Proof. unfold len, zeros. rewrite length_replicate. lia. Qed.
Lemma len_rev {A} (l : list A) : len (rev l) = len l.
Proof. unfold len. by rewrite length_rev. Qed.
Lemma len_slice {A} off n (l : list A) :
  0 <= off -> 0 <= n -> off + n <= len l -> len (slice off n l) = n.
Proof. unfold len, slice. intros. rewrite length_take, length_drop. lia. Qed.
Lemma len_copy_at {A} off (src buf : list A) :
  0 <= off -> off + len src <= len buf -> len (copy_at off src buf) = len buf.
Proof.
  unfold copy_at, len. intros. rewrite !length_app, length_take, length_drop. lia.
Qed.
Lemma len_0_nil {A} (l : list A) : len l = 0 -> l = [].
Proof. destruct l; [done|]. rewrite len_cons. pose proof (len_nonneg l). lia. Qed.

Lemma slice_app_l {A} off n (l1 l2 : list A) :
  0 <= off -> 0 <= n -> off + n <= len l1 -> slice off n (l1 ++ l2) = slice off n l1.
Proof.
  unfold slice, len. intros. rewrite drop_app_le by lia.
  rewrite take_app_le; [done|]. rewrite length_drop. lia.
Qed.
Lemma slice_app_r {A} off n (l1 l2 : list A) :
  len l1 <= off -> slice off n (l1 ++ l2) = slice (off - len l1) n l2.
Proof.
  unfold slice, len. intros. rewrite drop_app_ge by lia. do 2 f_equal. lia.
Qed.
Lemma slice_full {A} n (l : list A) : n = len l -> slice 0 n l = l.
Proof. unfold slice, len. intros ->. rewrite Nat2Z.id. simpl. apply take_ge. lia. Qed.
Lemma slice_app_eq {A} n (l1 l2 : list A) : n = len l1 -> slice 0 n (l1 ++ l2) = l1.
Proof.
  intros ->. pose proof (len_nonneg l1). rewrite slice_app_l by lia. by apply slice_full.
Qed.
Lemma slice_0 {A} off (l : list A) : slice off 0 l = [].
Proof. done. Qed.
Lemma slice_slice {A} o1 n1 o2 n2 (l : list A) :
  0 <= o1 -> 0 <= o2 -> 0 <= n2 -> o2 + n2 <= n1 ->
  slice o2 n2 (slice o1 n1 l) = slice (o1 + o2) n2 l.
Proof.
  unfold slice. intros.
  rewrite skipn_firstn_comm, take_take, drop_drop. f_equal; [lia|]. f_equal; lia.
Qed.
Lemma slice_split {A} off n1 n2 (l : list A) :
  0 <= off -> 0 <= n1 -> 0 <= n2 ->
  slice off (n1 + n2) l = slice off n1 l ++ slice (off + n1) n2 l.
Proof.
  unfold slice. intros.
  replace (Z.to_nat (off + n1)) with (Z.to_nat off + Z.to_nat n1)%nat by lia.
  rewrite <- drop_drop.
  replace (Z.to_nat (n1 + n2)) with (Z.to_nat n1 + Z.to_nat n2)%nat by lia.
  generalize (drop (Z.to_nat off) l) as k. generalize (Z.to_nat n2) as b.
  generalize (Z.to_nat n1) as a. clear.
  induction a as [|a IH]; intros b [|x k]; simpl; try done.
  - by rewrite !take_nil.
  - f_equal. apply IH.
Qed.

Lemma first_chunk_Some {A} n (l : list A) :
  n <= len l -> first_chunk n l = Some (slice 0 n l).
Proof. intros. unfold first_chunk, slice. by rewrite (proj2 (Z.leb_le _ _)). Qed.
Lemma first_chunk_None {A} n (l : list A) : len l < n -> first_chunk n l = None.
Proof. intros. unfold first_chunk. by rewrite (proj2 (Z.leb_gt _ _)). Qed.
Lemma first_chunk_inv {A} n (l b : list A) :
  first_chunk n l = Some b -> n <= len l /\ b = slice 0 n l.
Proof. unfold first_chunk, slice. destruct (Z.leb_spec n (len l)); [|done]. by intros [= <-]. Qed.

(** Writing fields left to right into a zeroed buffer builds the concatenation. *)
Lemma zeros_split n m : 0 <= m <= n -> zeros n = zeros m ++ zeros (n - m).
Proof.
  intros. unfold zeros. rewrite <- replicate_add. f_equal. lia.
Qed.
Lemma copy_at_zeros off l src n :
  off = len l -> len src <= n ->
  copy_at off src (l ++ zeros n) = (l ++ src) ++ zeros (n - len src).
Proof.
  intros -> Hn. rewrite <- app_assoc. unfold copy_at, len.
  pose proof (len_nonneg src). unfold len in *.
  rewrite Nat2Z.id, take_app_length.
  rewrite drop_app_ge by lia. do 2 f_equal.
  unfold zeros. rewrite drop_replicate. f_equal. lia.
Qed.
Lemma copy_at_replace {A} off (a b src c : list A) :
  off = len a -> len src = len b ->
  copy_at off src (a ++ b ++ c) = a ++ src ++ c.
Proof.
  intros -> Hb. unfold copy_at. rewrite Hb. unfold len.
  rewrite Nat2Z.id, take_app_length. do 2 f_equal.
  replace (Z.to_nat _) with (length a + length b)%nat by lia.
  rewrite <- drop_drop, drop_app_length. apply drop_app_length.
Qed.

(** ** Fixed-width integer encodings: [to_le_bytes] / [to_be_bytes] *)

Fixpoint le_bytes (n : nat) (x : Z) : list Z :=
  match n with
  | O => []
  | S n => x mod 256 :: le_bytes n (x / 256)
  end.
Fixpoint le_val (l : list Z) : Z :=
  match l with
  | [] => 0
  | b :: l => b + 256 * le_val l
  end.
Definition be_bytes (n : nat) (x : Z) : list Z := rev (le_bytes n x).
Definition be_val (l : list Z) : Z := le_val (rev l).

Lemma length_le_bytes n x : length (le_bytes n x) = n.
Proof. revert x. induction n; intros; simpl; auto. Qed.
Lemma len_le_bytes n x : len (le_bytes n x) = Z.of_nat n.
Proof. unfold len. by rewrite length_le_bytes. Qed.
Lemma len_be_bytes n x : len (be_bytes n x) = Z.of_nat n.
Proof. unfold be_bytes. by rewrite len_rev, len_le_bytes. Qed.

Lemma pow256_S n : 256 ^ Z.of_nat (S n) = 256 * 256 ^ Z.of_nat n.
Proof. rewrite Nat2Z.inj_succ, Z.pow_succ_r by lia. done. Qed.

Lemma le_val_le_bytes n x : 0 <= x < 256 ^ Z.of_nat n -> le_val (le_bytes n x) = x.
Proof.
  revert x. induction n as [|n IH]; intros x Hx.
  - simpl in *. lia.
  - rewrite pow256_S in Hx. cbn [le_bytes le_val]. rewrite IH; [lia|].
    split; [lia|]. apply Z.div_lt_upper_bound; lia.
Qed.
Lemma be_val_be_bytes n x : 0 <= x < 256 ^ Z.of_nat n -> be_val (be_bytes n x) = x.
Proof. intros. unfold be_val, be_bytes. rewrite rev_involutive. by apply le_val_le_bytes. Qed.

Lemma pow256_pow2 n : 256 ^ Z.of_nat n = 2 ^ (8 * Z.of_nat n).
Proof. rewrite Z.pow_mul_r by lia. done. Qed.
Lemma le_val_uint n w x : uint w x -> w = 8 * Z.of_nat n -> le_val (le_bytes n x) = x.
Proof. intros Hx ->. apply le_val_le_bytes. by rewrite pow256_pow2. Qed.
Lemma be_val_uint n w x : uint w x -> w = 8 * Z.of_nat n -> be_val (be_bytes n x) = x.
Proof. intros Hx ->. apply be_val_be_bytes. by rewrite pow256_pow2. Qed.

Lemma le_bytes_le_val l : is_bytes l -> le_bytes (length l) (le_val l) = l.
Proof.
  induction 1 as [|b l Hb Hl IH]; [done|]. unfold is_byte in Hb.
  cbn [length le_val le_bytes]. f_equal; [lia|].
  replace ((b + 256 * le_val l) / 256) with (le_val l) by lia. done.
Qed.
Lemma le_bytes_bytes n x : is_bytes (le_bytes n x).
Proof. revert x. induction n; intros; constructor; auto. unfold is_byte. lia. Qed.
Lemma be_bytes_bytes n x : is_bytes (be_bytes n x).
Proof. unfold be_bytes. apply Forall_rev, le_bytes_bytes. Qed.
Lemma be_bytes_be_val l : is_bytes l -> be_bytes (length l) (be_val l) = l.
Proof.
  intros H. unfold be_bytes, be_val. rewrite <- length_rev.
  rewrite le_bytes_le_val by by apply Forall_rev. apply rev_involutive.
Qed.
Lemma le_val_range l : is_bytes l -> 0 <= le_val l < 256 ^ len l.
Proof.
  induction 1 as [|b l Hb Hl IH]; [simpl; unfold len; simpl; lia|].
  unfold len in *. rewrite length_cons, pow256_S. unfold is_byte in Hb. simpl. nia.
Qed.
Lemma be_val_range l : is_bytes l -> 0 <= be_val l < 256 ^ len l.
Proof. intros. unfold be_val. rewrite <- len_rev. by apply le_val_range, Forall_rev. Qed.

Lemma le_bytes_inj n x y :
  0 <= x < 256 ^ Z.of_nat n -> 0 <= y < 256 ^ Z.of_nat n ->
  le_bytes n x = le_bytes n y -> x = y.
Proof.
  intros Hx Hy H. by rewrite <- (le_val_le_bytes n x), <- (le_val_le_bytes n y), H.
Qed.
Lemma be_bytes_inj n x y :
  0 <= x < 256 ^ Z.of_nat n -> 0 <= y < 256 ^ Z.of_nat n ->
  be_bytes n x = be_bytes n y -> x = y.
Proof.
  intros Hx Hy H. by rewrite <- (be_val_be_bytes n x), <- (be_val_be_bytes n y), H.
Qed.

(** ** Lexicographic order on byte strings (the order of [[u8]] and of RocksDB
    keys) *)

Fixpoint lex_ltb (a b : list Z) : bool :=
  match a, b with
  | [], [] => false
  | [], _ :: _ => true
  | _ :: _, [] => false
  | x :: a, y :: b => (x <? y) || ((x =? y) && lex_ltb a b)
  end.
Definition lex_leb (a b : list Z) : bool := negb (lex_ltb b a).

Lemma lex_ltb_irrefl a : lex_ltb a a = false.
Proof. induction a; simpl; [done|]. rewrite IHa, Z.ltb_irrefl. by destruct (_ =? _). Qed.
Lemma lex_ltb_trans a b c : lex_ltb a b = true -> lex_ltb b c = true -> lex_ltb a c = true.
Proof.
  revert b c. induction a as [|x a IH]; intros [|y b] [|z c]; simpl; try done.
  rewrite !orb_true_iff, !andb_true_iff, !Z.ltb_lt, !Z.eqb_eq.
  intros [?|[-> ?]] [?|[-> ?]]; [left; lia..|left; lia|right; eauto].
Qed.
Lemma lex_ltb_total a b : lex_ltb a b = true \/ a = b \/ lex_ltb b a = true.
Proof.
  revert b. induction a as [|x a IH]; intros [|y b]; simpl; auto.
  rewrite !orb_true_iff, !andb_true_iff, !Z.ltb_lt, !Z.eqb_eq.
  destruct (Z.lt_total x y) as [|[->|]]; auto.
  destruct (IH b) as [|[->|]]; auto.
Qed.
Lemma lex_leb_refl a : lex_leb a a = true.
Proof. unfold lex_leb. by rewrite lex_ltb_irrefl. Qed.
Lemma lex_leb_lt_or_eq a b : lex_leb a b = true <-> lex_ltb a b = true \/ a = b.
Proof.
  unfold lex_leb. rewrite negb_true_iff. split.
  - intros H. destruct (lex_ltb_total a b) as [|[|]]; auto. congruence.
  - intros [H| ->]; [|apply lex_ltb_irrefl].
    destruct (lex_ltb b a) eqn:E; [|done].
    pose proof (lex_ltb_trans _ _ _ H E). by rewrite lex_ltb_irrefl in H0.
Qed.
Lemma lex_leb_trans a b c : lex_leb a b = true -> lex_leb b c = true -> lex_leb a c = true.
Proof.
  rewrite !lex_leb_lt_or_eq. intros [?| ->] [?| ->]; eauto using lex_ltb_trans.
Qed.
Lemma lex_leb_total a b : lex_leb a b = true \/ lex_leb b a = true.
Proof. rewrite !lex_leb_lt_or_eq. destruct (lex_ltb_total a b) as [|[|]]; auto. Qed.
Lemma lex_leb_antisym a b : lex_leb a b = true -> lex_leb b a = true -> a = b.
Proof.
  rewrite !lex_leb_lt_or_eq. intros [H|?] [H'|?]; auto.
  pose proof (lex_ltb_trans _ _ _ H H') as Hc. by rewrite lex_ltb_irrefl in Hc.
Qed.
Lemma lex_ltb_app p a b : lex_ltb (p ++ a) (p ++ b) = lex_ltb a b.
Proof. induction p; simpl; [done|]. by rewrite IHp, Z.ltb_irrefl, Z.eqb_refl. Qed.
Lemma lex_leb_app p q : lex_leb p (p ++ q) = true.
Proof.
  unfold lex_leb. rewrite <- (app_nil_r p) at 2. rewrite lex_ltb_app. by destruct q.
Qed.
Lemma lex_ltb_app_eq_len p q a b : length p = length q ->
  lex_ltb (p ++ a) (q ++ b) = lex_ltb p q || (bool_decide (p = q) && lex_ltb a b).
Proof.
  revert q. induction p as [|x p IH]; intros [|y q] H; simpl in *; try done.
  injection H as H. rewrite (IH _ H).
  destruct (x <? y) eqn:E1; simpl; [done|].
  destruct (x =? y) eqn:E2; simpl.
  - apply Z.eqb_eq in E2 as ->. do 2 f_equal. apply bool_decide_ext. split; congruence.
  - apply Z.eqb_neq in E2. rewrite bool_decide_false by congruence. done.
Qed.

(** Big-endian encodings preserve the order of unsigned integers. *)
Lemma be_bytes_S n x : 0 <= x ->
  be_bytes (S n) x = (x / 256 ^ Z.of_nat n) mod 256 :: be_bytes n x.
Proof.
  intros Hx. unfold be_bytes.
  assert (forall n x, 0 <= x -> le_bytes (S n) x =
            le_bytes n x ++ [(x / 256 ^ Z.of_nat n) mod 256]) as H.
  { clear. induction n as [|n IH]; intros x Hx.
    - simpl. by rewrite Z.div_1_r.
    - change (le_bytes (S (S n)) x) with (x mod 256 :: le_bytes (S n) (x / 256)).
      rewrite IH by lia. cbn [le_bytes app]. do 3 f_equal.
      rewrite pow256_S, Z.div_div by lia. done. }
  rewrite H by done. by rewrite rev_app_distr.
Qed.
Lemma be_bytes_ltb n x y :
  0 <= x < 256 ^ Z.of_nat n -> 0 <= y < 256 ^ Z.of_nat n ->
  lex_ltb (be_bytes n x) (be_bytes n y) = (x <? y).
Proof.
  intros Hx Hy.
  assert (forall n x y, 0 <= x -> 0 <= y -> lex_ltb (be_bytes n x) (be_bytes n y) =
            (x mod 256 ^ Z.of_nat n <? y mod 256 ^ Z.of_nat n)) as H.
  2:{ rewrite H by lia. by rewrite !Z.mod_small. }
  clear. induction n as [|n IH]; intros x y Hx Hy.
  { simpl. by rewrite !Z.mod_1_r. }
  rewrite !be_bytes_S by done. cbn [lex_ltb]. rewrite (IH x y Hx Hy).
  rewrite pow256_S. set (p := 256 ^ Z.of_nat n).
  assert (0 < p) by (unfold p; lia).
  rewrite (Z.mul_comm 256 p), !Z.rem_mul_r by lia.
  pose proof (Z.mod_pos_bound x p) as Hxp. pose proof (Z.mod_pos_bound y p) as Hyp.
  set (a := (x / p) mod 256). set (b := (y / p) mod 256).
  set (u := x mod p) in *. set (v := y mod p) in *.
  destruct (Z.ltb_spec a b), (Z.eqb_spec a b), (Z.ltb_spec u v); simpl;
    symmetry; (apply Z.ltb_lt || apply Z.ltb_ge); nia.
Qed.

(** ** Bit fields *)

(** [!x] on [u64]. *)
Definition not_u64 (x : Z) : Z := U64_MAX - x.

Lemma uint_testbit_high w x i : uint w x -> w <= i -> Z.testbit x i = false.
Proof.
  intros [H0 H] Hi. destruct (Z.eq_dec x 0) as [->|]; [apply Z.bits_0|].
  apply Z.bits_above_log2; [done|].
  apply Z.log2_lt_pow2; [lia|]. eapply Z.lt_le_trans; [exact H|].
  destruct (Z.le_gt_cases 0 w); [apply Z.pow_le_mono_r; lia|].
  rewrite Z.pow_neg_r in H by lia. lia.
Qed.

(** Composing a high field and a low field by OR is exact. *)
Lemma lor_shiftl_add a b n : 0 <= n -> uint n b ->
  Z.lor (Z.shiftl a n) b = a * 2 ^ n + b.
Proof.
  intros Hn Hb.
  assert (Z.land (Z.shiftl a n) b = 0) as Hl.
  { apply Z.bits_inj'. intros i Hi. rewrite Z.land_spec, Z.bits_0.
    rewrite Z.shiftl_spec by lia. destruct (Z.lt_ge_cases i n).
    - by rewrite Z.testbit_neg_r by lia.
    - by rewrite (uint_testbit_high n b), andb_false_r. }
  rewrite <- Z.lxor_lor, <- Z.add_nocarry_lxor by done.
  by rewrite Z.shiftl_mul_pow2.
Qed.

Lemma lor_uint w a b : 0 <= w -> uint w a -> uint w b -> uint w (Z.lor a b).
Proof.
  intros Hw [Ha Ha'] [Hb Hb']. split; [by apply Z.lor_nonneg|].
  destruct (Z.eq_dec (Z.lor a b) 0) as [->|Hz]; [lia|].
  apply Z.log2_lt_pow2; [pose proof (proj2 (Z.lor_nonneg a b)); lia|].
  rewrite Z.log2_lor by done.
  apply Z.max_lub_lt.
  - destruct (Z.eq_dec a 0) as [->|]; [destruct (Z.eq_dec b 0) as [->|]; [done|]|apply Z.log2_lt_pow2; lia].
    destruct (Z.eq_dec w 0) as [->|]; [lia|]. simpl. lia.
  - destruct (Z.eq_dec b 0) as [->|]; [|apply Z.log2_lt_pow2; lia].
    destruct (Z.eq_dec w 0) as [->|]; [rewrite Z.lor_0_r in Hz; lia|]. simpl. lia.
Qed.

Lemma land_not_u64_ones x n : is_u64 x -> 0 <= n <= 64 ->
  Z.land x (not_u64 (Z.ones n)) = x - x mod 2 ^ n.
Proof.
  intros Hx Hn. unfold not_u64, U64_MAX.
  replace (2 ^ 64 - 1) with (Z.ones 64) by done.
  rewrite Z.sub_nocarry_ldiff.
  2:{ apply Z.bits_inj'. intros i Hi. rewrite Z.ldiff_spec, Z.bits_0.
      rewrite !Z.testbit_ones_nonneg by lia.
      destruct (Z.ltb_spec i n), (Z.ltb_spec i 64); simpl; auto; lia. }
  assert (Z.land x (Z.ldiff (Z.ones 64) (Z.ones n)) = Z.ldiff x (Z.ones n)) as ->.
  { apply Z.bits_inj'. intros i Hi. rewrite Z.land_spec, !Z.ldiff_spec.
    destruct (Z.lt_ge_cases i 64).
    - by rewrite (Z.ones_spec_low 64 i) by lia.
    - by rewrite (uint_testbit_high 64 x). }
  rewrite Z.ldiff_ones_r, Z.shiftl_mul_pow2, Z.shiftr_div_pow2 by lia.
  pose proof (Z.div_mod x (2 ^ n)). lia.
Qed.

(** ** Automation *)

Create Rewrite HintDb lens.
#[export] Hint Rewrite @len_nil @len_cons @len_app len_le_bytes len_be_bytes @len_rev : lens.
#[export] Hint Rewrite len_zeros using lia : lens.

(** Closes goals on lengths of concatenated fields. *)
Ltac lens := autorewrite with lens in *; try lia.

Lemma slice_app_here {A} off n (l1 l2 : list A) :
  off = 0 -> n = len l1 -> slice off n (l1 ++ l2) = l1.
Proof. intros ->. apply slice_app_eq. Qed.
Lemma slice_here {A} off n (l : list A) : off = 0 -> n = len l -> slice off n l = l.
Proof. intros ->. apply slice_full. Qed.

Lemma copy_at_zeros_start src n :
  len src <= n -> copy_at 0 src (zeros n) = src ++ zeros (n - len src).
Proof. apply (copy_at_zeros 0 []). done. Qed.
Lemma zeros_0 n : n = 0 -> zeros n = [].
Proof. by intros ->. Qed.

(** Computes the fields written left to right into a zeroed buffer. *)
Ltac fill :=
  repeat match goal with
  | |- context [copy_at 0 ?s (zeros ?n)] => rewrite (copy_at_zeros_start s n) by (lens; done)
  | |- context [copy_at ?o ?s (?l ++ zeros ?n)] => rewrite (copy_at_zeros o l s n) by (lens; done)
  end.

(** Reads fields out of a concatenation. *)
Ltac slices :=
  repeat match goal with
  | |- context [slice ?o ?n (?a ++ ?b)] =>
      first [ rewrite (slice_app_here o n a b) by (lens; done)
            | rewrite (slice_app_r o n a b) by (lens; done) ]
  | |- context [slice ?o ?n ?a] => rewrite (slice_here o n a) by (lens; done)
  end.

(** Decodes the little-endian fields whose width is known from the context. *)
Ltac le_vals :=
  repeat match goal with
  | Hx : uint ?w ?x |- context [le_val (le_bytes ?n ?x)] =>
      rewrite (le_val_uint n w x Hx) by done
  end.

#[global] Arguments copy_at : simpl never.
#[global] Arguments slice : simpl never.
#[global] Arguments zeros : simpl never.
#[global] Arguments le_bytes : simpl never.
#[global] Arguments be_bytes : simpl never.
#[global] Arguments first_chunk : simpl never.

(** ** [sort_by_key]: the stable sort of the standard library *)

Fixpoint insert_by_key {A} (f : A -> Z) (x : A) (l : list A) : list A :=
  match l with
  | [] => [x]
  | y :: l' => if f x <=? f y then x :: l else y :: insert_by_key f x l'
  end.
Definition sort_by_key {A} (f : A -> Z) (l : list A) : list A := foldr (insert_by_key f) [] l.

Lemma insert_by_key_Permutation {A} (f : A -> Z) x l : insert_by_key f x l ≡ₚ x :: l.
Proof.
  induction l as [|y l IH]; simpl; [done|]. case_match; [done|]. rewrite IH. apply Permutation_swap.
Qed.
Lemma sort_by_key_Permutation {A} (f : A -> Z) l : sort_by_key f l ≡ₚ l.
Proof. induction l as [|x l IH]; simpl; [done|]. by rewrite insert_by_key_Permutation, IH. Qed.
Lemma insert_by_key_sorted {A} (f : A -> Z) x l :
  StronglySorted (fun a b => f a <= f b) l -> StronglySorted (fun a b => f a <= f b) (insert_by_key f x l).
Proof.
  induction 1 as [|y l Hs IH Hf]; simpl; [by repeat constructor|].
  destruct (Z.leb_spec (f x) (f y)) as [Hle|Hlt]; constructor; auto using StronglySorted.
  - constructor; [done|]. eapply Forall_impl; [done|]. simpl. lia.
  - rewrite insert_by_key_Permutation. constructor; [lia|done].
Qed.
Lemma sort_by_key_sorted {A} (f : A -> Z) l : StronglySorted (fun a b => f a <= f b) (sort_by_key f l).
Proof. induction l; simpl; [constructor|]. by apply insert_by_key_sorted. Qed.
(** Sorted by the key, and the key distinct: the list is determined. *)
Lemma sort_by_key_unique {A} (f : A -> Z) l1 l2 :
  l1 ≡ₚ l2 -> (forall x y, x ∈ l1 -> y ∈ l1 -> f x = f y -> x = y) ->
  sort_by_key f l1 = sort_by_key f l2.
Proof.
  intros Hp Hf.
  assert (forall a b : list A, a ≡ₚ b -> (forall x y, x ∈ a -> y ∈ a -> f x = f y -> x = y) ->
    StronglySorted (fun x y => f x <= f y) a -> StronglySorted (fun x y => f x <= f y) b -> a = b) as Hu.
  { clear. induction a as [|x a IH]; intros [|y b] Hp Hf Ha Hb; [done| | |].
    - by apply Permutation_nil_cons in Hp.
    - by apply symmetry, Permutation_nil_cons in Hp.
    - inversion Ha as [|?? Ha' Hxa]; subst. inversion Hb as [|?? Hb' Hyb]; subst.
      assert (x = y) as <-.
      { assert (y ∈ x :: a) as Hy by (rewrite Hp; left).
        assert (x ∈ y :: b) as Hx by (rewrite <- Hp; left).
        apply Hf; [left|done|]. apply Z.le_antisymm.
        - apply elem_of_cons in Hy as [->|Hy]; [lia|]. by apply (proj1 (Forall_forall _ _) Hxa).
        - apply elem_of_cons in Hx as [->|Hx]; [lia|]. by apply (proj1 (Forall_forall _ _) Hyb). }
      f_equal. apply IH; [by apply Permutation_cons_inv in Hp| |done..].
      intros. apply Hf; [by right..|done]. }
  apply Hu; [by rewrite !sort_by_key_Permutation| |apply sort_by_key_sorted..].
  intros x y. rewrite !sort_by_key_Permutation. apply Hf.
Qed.

Lemma sorted_lt_NoDup (l : list Z) : StronglySorted Z.lt l -> NoDup l.
Proof.
  induction 1 as [|x l _ IH Hf]; constructor; [|done]. intros Hin.
  pose proof (proj1 (Forall_forall _ _) Hf x Hin). lia.
Qed.

(** ** Filters *)

Lemma filter_all_true {A} (P : A -> Prop) `{!forall x, Decision (P x)} (l : list A) :
  (forall x, x ∈ l -> P x) -> filter P l = l.
Proof.
  induction l as [|x l IH]; intros Hall; [done|]. rewrite filter_cons_True by (apply Hall; by left).
  f_equal. apply IH. intros y Hy. apply Hall. by right.
Qed.

Lemma filter_ext_in {A} (P Q : A -> Prop) `{!forall x, Decision (P x), !forall x, Decision (Q x)} (l : list A) :
  (forall x, x ∈ l -> (P x <-> Q x)) -> filter P l = filter Q l.
Proof.
  induction l as [|x l IH]; intros Hall; [done|]. specialize (Hall x ltac:(by left)) as Hx.
  assert (filter P l = filter Q l) as E by (apply IH; intros y Hy; apply Hall; by right).
  destruct (decide (P x)); [rewrite !filter_cons_True by tauto|rewrite !filter_cons_False by tauto]; by rewrite E.
Qed.
