(* ===== verification/Ids.v ===== *)
(** Identity vocabulary of the workspace (crates/epoch-proto): the bit layouts of
    [BlobId], [ShardId] and [ExtentId] (id.rs), the error wire codes (error.rs),
    the inode composition and bucket bit (consts.rs) and [CodeMode]
    (code_mode.rs). *)

From S2P Require Import Prelude.

(** The newtypes over [u32]/[u64] are transparent. *)
Abbreviation ChunkId := Z (only parsing).
Abbreviation WriterToken := Z (only parsing).
Abbreviation DiskId := Z (only parsing).
Abbreviation NodeId := Z (only parsing).
Abbreviation BucketId := Z (only parsing).
Abbreviation BlobId := Z (only parsing).
Abbreviation ShardId := Z (only parsing).
(** [ExtentId([u8; 16])] *)
Abbreviation ExtentId := (list Z) (only parsing).

(** ** Errors exchanged across components (error.rs) *)

Inductive EpochError : Set :=
| EE_Sealed | EE_ChunkFull | EE_DiskBroken | EE_ShardNotFound | EE_NotLeader
| EE_PartitionMoved | EE_Rebuilding | EE_AlreadyExists | EE_Busy | EE_OutOfSpace
| EE_Internal.
#[export] Instance EpochError_eq_dec : EqDecision EpochError.
Proof. solve_decision. Defined.

Definition wire_code (e : EpochError) : Z :=
  match e with
  | EE_Sealed => 1
  | EE_ChunkFull => 2
  | EE_DiskBroken => 3
  | EE_ShardNotFound => 4
  | EE_NotLeader => 5
  | EE_PartitionMoved => 6
  | EE_Rebuilding => 7
  | EE_AlreadyExists => 8
  | EE_Busy => 10
  | EE_OutOfSpace => 11
  | EE_Internal => 9
  end.

Definition from_wire_code (code : Z) : EpochError :=
  match code with
  | 1 => EE_Sealed
  | 2 => EE_ChunkFull
  | 3 => EE_DiskBroken
  | 4 => EE_ShardNotFound
  | 5 => EE_NotLeader
  | 6 => EE_PartitionMoved
  | 7 => EE_Rebuilding
  | 8 => EE_AlreadyExists
  | 10 => EE_Busy
  | 11 => EE_OutOfSpace
  | _ => EE_Internal
  end.

(** ** Code modes (code_mode.rs) *)

Record CodeMode : Set := {
  cm_id : Z;
  cm_data : Z;
  cm_parity : Z;
  cm_stripe_size : Z;
  cm_blob_size : Z
}.
#[export] Instance CodeMode_eq_dec : EqDecision CodeMode.
Proof. solve_decision. Defined.

Definition shards_total (m : CodeMode) : Z := cm_data m + cm_parity m.

(** ** Blob ids: [writer_token(32) | seq(32)] *)

Definition BlobId_new (token : WriterToken) (seq : Z) : BlobId :=
  Z.lor (Z.shiftl token 32) seq.
Definition BlobId_writer_token (b : BlobId) : WriterToken := wrap 32 (Z.shiftr b 32).
Definition BlobId_seq (b : BlobId) : Z := wrap 32 b.
Definition BlobId_to_be_bytes (b : BlobId) : list Z := be_bytes 8 b.

(** ** Shard ids: [chunk_id(32) | index(8) | epoch(24)] *)

Definition SHARD_INDEX_BITS : Z := 8.
Definition SHARD_EPOCH_BITS : Z := 24.
Definition MAX_SHARD_EPOCH : Z := Z.shiftl 1 SHARD_EPOCH_BITS - 1.

Definition ShardId_try_new (chunk_id : ChunkId) (index epoch : Z) : result EpochError ShardId :=
  if MAX_SHARD_EPOCH <? epoch then Err EE_Internal
  else Ok (Z.lor (Z.lor (Z.shiftl chunk_id 32) (Z.shiftl index SHARD_EPOCH_BITS)) epoch).

(** The panicking constructor; [None] is the panic. *)
Definition ShardId_new (chunk_id : ChunkId) (index epoch : Z) : option ShardId :=
  res_ok (ShardId_try_new chunk_id index epoch).

Definition ShardId_chunk_id (s : ShardId) : ChunkId := wrap 32 (Z.shiftr s 32).
Definition ShardId_index (s : ShardId) : Z :=
  wrap 8 (Z.land (Z.shiftr s SHARD_EPOCH_BITS) 255).
Definition ShardId_epoch (s : ShardId) : Z := wrap 32 (Z.land s MAX_SHARD_EPOCH).
Definition ShardId_shard_prefix (s : ShardId) : Z := Z.land s (not_u64 MAX_SHARD_EPOCH).
Definition ShardId_to_be_bytes (s : ShardId) : list Z := be_bytes 8 s.

(** ** Extent ids: [shard_id(8B BE) | create_ts(8B BE)] *)

Definition ExtentId_new (shard_id : ShardId) (create_ts : Z) : ExtentId :=
  let bytes := zeros 16 in
  let bytes := copy_at 0 (ShardId_to_be_bytes shard_id) bytes in
  copy_at 8 (be_bytes 8 (i64_to_u64 create_ts)) bytes.
Definition ExtentId_shard_id (e : ExtentId) : ShardId := be_val (slice 0 8 e).
Definition ExtentId_create_ts (e : ExtentId) : Z := u64_to_i64 (be_val (slice 8 8 e)).

(** ** Inodes and the bucket namespace bit (consts.rs) *)

Definition HIER_BUCKET_BIT : Z := Z.shiftl 1 63.
Definition ROOT_INO : Z := 1.
Definition INO_PARTITION_TAG_BITS : Z := 16.
Definition INO_COUNTER_BITS : Z := 64 - INO_PARTITION_TAG_BITS.

Definition compose_ino (partition_tag counter : Z) : option Z :=
  if (Z.shiftl 1 INO_PARTITION_TAG_BITS <=? partition_tag)
     || (Z.shiftl 1 INO_COUNTER_BITS <=? counter)
  then None
  else Some (Z.lor (Z.shiftl partition_tag INO_COUNTER_BITS) counter).
Definition ino_partition_tag (ino : Z) : Z := wrap 32 (Z.shiftr ino INO_COUNTER_BITS).

(** ** Arithmetic views of the bit fields *)

Lemma BlobId_new_val token seq : is_u32 seq -> BlobId_new token seq = token * 2 ^ 32 + seq.
Proof. intros. by apply lor_shiftl_add. Qed.

Lemma MAX_SHARD_EPOCH_val : MAX_SHARD_EPOCH = 2 ^ 24 - 1.
Proof. done. Qed.

Lemma ShardId_try_new_val chunk index epoch :
  is_u8 index -> 0 <= epoch <= MAX_SHARD_EPOCH ->
  ShardId_try_new chunk index epoch = Ok (chunk * 2 ^ 32 + index * 2 ^ 24 + epoch).
Proof.
  rewrite MAX_SHARD_EPOCH_val. unfold uint. intros Hi He. unfold ShardId_try_new.
  rewrite MAX_SHARD_EPOCH_val. destruct (Z.ltb_spec (2 ^ 24 - 1) epoch); [lia|]. f_equal.
  unfold SHARD_EPOCH_BITS.
  replace (Z.shiftl chunk 32) with (Z.shiftl (Z.shiftl chunk 8) 24)
    by by rewrite Z.shiftl_shiftl by lia.
  rewrite <- Z.shiftl_lor, !lor_shiftl_add by (unfold uint; lia). lia.
Qed.

Lemma ShardId_try_new_err chunk index epoch :
  MAX_SHARD_EPOCH < epoch -> ShardId_try_new chunk index epoch = Err EE_Internal.
Proof. intros. unfold ShardId_try_new. by rewrite (proj2 (Z.ltb_lt _ _)). Qed.

Lemma ShardId_epoch_val s : is_u64 s -> ShardId_epoch s = s mod 2 ^ 24.
Proof.
  intros Hs. unfold ShardId_epoch, wrap.
  replace MAX_SHARD_EPOCH with (Z.ones 24) by done.
  rewrite Z.land_ones by lia. unfold uint in *. lia.
Qed.
Lemma ShardId_index_val s : is_u64 s -> ShardId_index s = (s / 2 ^ 24) mod 2 ^ 8.
Proof.
  intros Hs. unfold ShardId_index, wrap. replace 255 with (Z.ones 8) by done.
  rewrite Z.land_ones, Z.mod_mod by lia. by rewrite Z.shiftr_div_pow2.
Qed.
Lemma ShardId_chunk_val s : is_u64 s -> ShardId_chunk_id s = s / 2 ^ 32.
Proof.
  intros Hs. unfold ShardId_chunk_id, wrap. rewrite Z.shiftr_div_pow2 by lia.
  unfold uint in *. rewrite Z.mod_small; lia.
Qed.
Lemma ShardId_prefix_val s : is_u64 s -> ShardId_shard_prefix s = s - s mod 2 ^ 24.
Proof.
  intros. unfold ShardId_shard_prefix. replace MAX_SHARD_EPOCH with (Z.ones 24) by done.
  by apply land_not_u64_ones.
Qed.

(** The value a successful [try_new] returns. *)
Lemma ShardId_try_new_Ok chunk index epoch s :
  is_u32 chunk -> is_u8 index -> 0 <= epoch ->
  ShardId_try_new chunk index epoch = Ok s ->
  epoch <= MAX_SHARD_EPOCH /\ s = chunk * 2 ^ 32 + index * 2 ^ 24 + epoch /\ is_u64 s.
Proof.
  intros Hc Hi He H. destruct (Z.le_gt_cases epoch MAX_SHARD_EPOCH).
  2:{ by rewrite ShardId_try_new_err in H. }
  rewrite ShardId_try_new_val in H by done. injection H as <-.
  rewrite MAX_SHARD_EPOCH_val in *. unfold uint in *. lia.
Qed.

Lemma ShardId_fields chunk index epoch s :
  is_u32 chunk -> is_u8 index -> 0 <= epoch ->
  ShardId_try_new chunk index epoch = Ok s ->
  ShardId_chunk_id s = chunk /\ ShardId_index s = index /\ ShardId_epoch s = epoch
  /\ ShardId_try_new chunk index 0 = Ok (ShardId_shard_prefix s).
Proof.
  intros Hc Hi He H. destruct (ShardId_try_new_Ok _ _ _ _ Hc Hi He H) as (Hm & -> & Hu).
  rewrite ShardId_chunk_val, ShardId_index_val, ShardId_epoch_val, ShardId_prefix_val by done.
  rewrite ShardId_try_new_val by (rewrite ?MAX_SHARD_EPOCH_val; try done; lia).
  rewrite MAX_SHARD_EPOCH_val in *. unfold uint in *.
  repeat split; try (f_equal; lia); lia.
Qed.

Lemma ExtentId_new_app shard ts :
  ExtentId_new shard ts = be_bytes 8 shard ++ be_bytes 8 (i64_to_u64 ts).
Proof.
  unfold ExtentId_new, ShardId_to_be_bytes. fill. rewrite zeros_0 by (lens; done).
  apply app_nil_r.
Qed.

Lemma ExtentId_new_len shard ts : len (ExtentId_new shard ts) = 16.
Proof. rewrite ExtentId_new_app. by lens. Qed.
Lemma ExtentId_new_bytes shard ts : is_bytes (ExtentId_new shard ts).
Proof. rewrite ExtentId_new_app. apply Forall_app; split; apply be_bytes_bytes. Qed.
Lemma ExtentId_shard_id_new shard ts : is_u64 shard ->
  ExtentId_shard_id (ExtentId_new shard ts) = shard.
Proof.
  intros. unfold ExtentId_shard_id. rewrite ExtentId_new_app. slices.
  by apply be_val_be_bytes.
Qed.
Lemma ExtentId_create_ts_new shard ts : is_i64 ts ->
  ExtentId_create_ts (ExtentId_new shard ts) = ts.
Proof.
  intros. unfold ExtentId_create_ts. rewrite ExtentId_new_app. slices.
  rewrite be_val_be_bytes by apply i64_to_u64_range. by apply u64_i64_roundtrip.
Qed.

#[export] Hint Rewrite ExtentId_new_len : lens.

Lemma compose_ino_spec tag counter :
  0 <= tag -> 0 <= counter ->
  compose_ino tag counter =
    if (tag <? 2 ^ 16) && (counter <? 2 ^ 48) then Some (tag * 2 ^ 48 + counter) else None.
Proof.
  intros Ht Hc. unfold compose_ino, INO_COUNTER_BITS, INO_PARTITION_TAG_BITS.
  change (Z.shiftl 1 16) with (2 ^ 16). change (Z.shiftl 1 (64 - 16)) with (2 ^ 48).
  destruct (Z.leb_spec (2 ^ 16) tag), (Z.leb_spec (2 ^ 48) counter),
    (Z.ltb_spec tag (2 ^ 16)), (Z.ltb_spec counter (2 ^ 48)); try lia; try done.
  simpl. f_equal. apply lor_shiftl_add; unfold uint; lia.
Qed.

Lemma ino_partition_tag_compose tag counter ino :
  0 <= tag -> 0 <= counter -> compose_ino tag counter = Some ino ->
  ino_partition_tag ino = tag /\ ino mod 2 ^ 48 = counter /\ is_u64 ino.
Proof.
  intros Ht Hc. rewrite compose_ino_spec by done.
  destruct (Z.ltb_spec tag (2 ^ 16)), (Z.ltb_spec counter (2 ^ 48)); try done.
  simpl. intros [= <-]. unfold ino_partition_tag, wrap, INO_COUNTER_BITS, INO_PARTITION_TAG_BITS.
  rewrite Z.shiftr_div_pow2 by lia. unfold uint.
  replace (tag * 2 ^ 48 + counter) with (counter + tag * 2 ^ 48) by lia.
  rewrite Z.div_add, Z.mod_add, (Z.div_small counter), (Z.mod_small counter) by lia.
  rewrite Z.mod_small; lia.
Qed.

(** ** Properties *)

(** A [ShardId] is a lossless encoding of [(chunk_id, index, epoch)]: for
    every [u32] chunk, [u8] index and [u32] epoch the constructor either returns
    the 64-bit id whose accessors give the three fields back and whose
    [shard_prefix] is the id of the same slot at epoch 0, or, exactly when the
    epoch does not fit 24 bits, returns [EpochError::Internal] (where the
    panicking constructor panics). *)
Theorem shard_id_lossless : forall chunk index epoch,
  is_u32 chunk -> is_u8 index -> is_u32 epoch ->
  match ShardId_try_new chunk index epoch with
  | Ok s =>
      epoch <= MAX_SHARD_EPOCH /\ is_u64 s
      /\ ShardId_new chunk index epoch = Some s
      /\ ShardId_chunk_id s = chunk /\ ShardId_index s = index /\ ShardId_epoch s = epoch
      /\ ShardId_try_new chunk index 0 = Ok (ShardId_shard_prefix s)
      /\ Z.lor (ShardId_shard_prefix s) epoch = s
  | Err e =>
      e = EE_Internal /\ MAX_SHARD_EPOCH < epoch /\ ShardId_new chunk index epoch = None
  end.
Proof.
  intros chunk index epoch Hc Hi He.
  destruct (Z.le_gt_cases epoch MAX_SHARD_EPOCH) as [Hm|Hm].
  - assert (0 <= epoch) as He0 by (unfold uint in He; lia).
    destruct (ShardId_try_new chunk index epoch) as [s|] eqn:E.
    2:{ by rewrite ShardId_try_new_val in E. }
    destruct (ShardId_try_new_Ok _ _ _ _ Hc Hi He0 E) as (_ & Hs & Hu).
    destruct (ShardId_fields _ _ _ _ Hc Hi He0 E) as (? & ? & ? & Hp).
    unfold ShardId_new. rewrite E. split_and!; try done.
    rewrite ShardId_prefix_val by done. subst s.
    replace (_ - _) with ((chunk * 2 ^ 8 + index) * 2 ^ 24).
    2:{ rewrite MAX_SHARD_EPOCH_val in Hm. lia. }
    rewrite <- Z.shiftl_mul_pow2 by lia. rewrite lor_shiftl_add; [lia|lia|].
    rewrite MAX_SHARD_EPOCH_val in Hm. unfold uint. lia.
  - unfold ShardId_new. by rewrite ShardId_try_new_err.
Qed.
Lemma shard_id_lossless_witness :
  ShardId_try_new 7 3 42 = Ok 30115102762 /\ ShardId_index 30115102762 = 3.
Proof.
  split; [reflexivity|].
  apply (shard_id_lossless 7 3 42); unfold uint; lia.
Defined.

(** Extent ids sort by shard and then by creation time: for [u64] shards and
    non-negative timestamps the byte order of two extent ids (the order of the
    [e]/[b] index keys and of the file names) is the lexicographic order of
    [(shard_id, create_ts)], and both fields are read back from the bytes. *)
Theorem extent_id_order : forall s1 t1 s2 t2,
  is_u64 s1 -> is_u64 s2 -> 0 <= t1 < 2 ^ 63 -> 0 <= t2 < 2 ^ 63 ->
  lex_ltb (ExtentId_new s1 t1) (ExtentId_new s2 t2)
    = (s1 <? s2) || ((s1 =? s2) && (t1 <? t2))
  /\ ExtentId_shard_id (ExtentId_new s1 t1) = s1
  /\ ExtentId_create_ts (ExtentId_new s1 t1) = t1.
Proof.
  intros s1 t1 s2 t2 H1 H2 Ht1 Ht2. unfold uint in *. split; [|split].
  - rewrite !ExtentId_new_app, lex_ltb_app_eq_len
      by by unfold be_bytes; rewrite !length_rev, !length_le_bytes.
    unfold i64_to_u64. rewrite !(Z.mod_small t1), !(Z.mod_small t2) by lia.
    rewrite !be_bytes_ltb by (simpl; lia). f_equal. f_equal.
    destruct (Z.eqb_spec s1 s2) as [->|Hne]; [by apply bool_decide_true|].
    apply bool_decide_false. intros Hb. apply Hne. apply (be_bytes_inj 8); simpl; try lia; done.
  - by apply ExtentId_shard_id_new.
  - apply ExtentId_create_ts_new. unfold is_i64. lia.
Qed.
Lemma extent_id_order_witness :
  lex_ltb (ExtentId_new 9 1000) (ExtentId_new 9 2000) = true.
Proof. apply (extent_id_order 9 1000 9 2000); unfold uint; lia. Defined.

(** Blob ids are unique by construction: [BlobId::new] maps a writer token
    and a 32-bit sequence number to a [u64] from which both are recovered, so
    two blob ids are equal only if token and sequence are. *)
Theorem blob_id_unique : forall t1 s1 t2 s2,
  is_u32 t1 -> is_u32 s1 -> is_u32 t2 -> is_u32 s2 ->
  is_u64 (BlobId_new t1 s1)
  /\ BlobId_writer_token (BlobId_new t1 s1) = t1 /\ BlobId_seq (BlobId_new t1 s1) = s1
  /\ (BlobId_new t1 s1 = BlobId_new t2 s2 <-> t1 = t2 /\ s1 = s2).
Proof.
  intros t1 s1 t2 s2 H1 H2 H3 H4.
  unfold BlobId_writer_token, BlobId_seq, wrap. rewrite !BlobId_new_val by done.
  rewrite Z.shiftr_div_pow2 by lia. unfold uint in *. repeat split; try lia.
Qed.
Lemma blob_id_unique_witness : BlobId_writer_token (BlobId_new 3735928559 16909060) = 3735928559.
Proof. apply (blob_id_unique 3735928559 16909060 0 0); unfold uint; lia. Defined.
