(* ===== verification/Qos.v ===== *)
(** The rate limiters of a disk's background work (epoch-store qos.rs): a token bucket
    per class, what it lets through over a run of calls, and how far that is from the
    configured rate. Time is in nanoseconds. *)

From S2P Require Import Prelude Ids.

Definition NANOS : Z := 1000000000.
Inductive IoClass : Set := Foreground | Background | Repair.
Record QosConfig : Set := { foreground_rate : Z; background_rate : Z; repair_rate : Z; burst : Z }.
Record RateLimiter : Set := { rate_per_sec : Z; rl_capacity : Z; rl_tokens : Z; rl_last : Z }.
Definition RateLimiter_new (rate capacity now : Z) : RateLimiter :=
  {| rate_per_sec := rate; rl_capacity := capacity; rl_tokens := capacity; rl_last := now |}.
(** [u64::try_from(x).unwrap_or(u64::MAX)] of an unsigned [x]. *)
Definition to_u64_or_max (x : Z) : Z := if x <=? U64_MAX then x else U64_MAX.
Definition refill (l : RateLimiter) (now : Z) : RateLimiter :=
  let elapsed := saturating_sub now (rl_last l) in
  if elapsed =? 0 then l
  else
    let added := to_u64_or_max (rate_per_sec l * elapsed / NANOS) in
    {| rate_per_sec := rate_per_sec l; rl_capacity := rl_capacity l;
       rl_tokens := Z.min (saturating_add 64 (rl_tokens l) added) (rl_capacity l); rl_last := now |}.
Definition with_tokens (l : RateLimiter) (tokens : Z) : RateLimiter :=
  {| rate_per_sec := rate_per_sec l; rl_capacity := rl_capacity l; rl_tokens := tokens; rl_last := rl_last l |}.
Definition reserve (l : RateLimiter) (cost now : Z) : RateLimiter * Z :=
  if rate_per_sec l =? 0 then (l, 0)
  else
    let l := refill l now in
    if cost <=? rl_tokens l then (with_tokens l (rl_tokens l - cost), 0)
    else
      let deficit := cost - rl_tokens l in
      (with_tokens l 0, to_u64_or_max (deficit * NANOS / rate_per_sec l)).
(** The limiter after a call, and when the call returns. *)
Definition throttle (l : RateLimiter) (cost now : Z) : RateLimiter * Z :=
  let '(l, wait) := reserve l cost now in (l, now + wait).

Record Qos : Set := { q_foreground : RateLimiter; q_background : RateLimiter; q_repair : RateLimiter }.
Definition Qos_new (config : QosConfig) (now : Z) : Qos := {|
  q_foreground := RateLimiter_new (foreground_rate config) (burst config) now;
  q_background := RateLimiter_new (background_rate config) (burst config) now;
  q_repair := RateLimiter_new (repair_rate config) (burst config) now |}.
Definition limiter (q : Qos) (class : IoClass) : RateLimiter :=
  match class with Foreground => q_foreground q | Background => q_background q | Repair => q_repair q end.

(** ** What a limiter lets through *)

Definition limiter_wf (l : RateLimiter) : Prop :=
  0 < rate_per_sec l /\ is_u64 (rate_per_sec l) /\ is_u64 (rl_capacity l) /\ 0 <= rl_tokens l <= rl_capacity l.
(** A run of calls one after the other: the idle time before each and its cost; and
    the time it ends. *)
Fixpoint throttle_run (l : RateLimiter) (now : Z) (calls : list (Z * Z)) : RateLimiter * Z :=
  match calls with
  | [] => (l, now)
  | (idle, cost) :: calls => let '(l, now) := throttle l cost (now + idle) in throttle_run l now calls
  end.
Definition granted (calls : list (Z * Z)) : Z := foldr (fun c acc => c.2 + acc) 0 calls.
(** Calls whose wait fits the 64-bit nanoseconds: about 18 seconds' worth of bytes for each
    byte per second of the rate. *)
Definition call_ok (l : RateLimiter) (c : Z * Z) : Prop := 0 <= c.1 /\ is_u64 c.2 /\ c.2 * NANOS / rate_per_sec l <= U64_MAX.

Lemma to_u64_or_max_le x : to_u64_or_max x <= x.
Proof. unfold to_u64_or_max. destruct (Z.leb_spec x U64_MAX); lia. Qed.
Lemma refill_spec l now : limiter_wf l -> rl_last l <= now ->
  limiter_wf (refill l now) /\ rate_per_sec (refill l now) = rate_per_sec l /\ rl_capacity (refill l now) = rl_capacity l /\ rl_last (refill l now) = now
  /\ rl_tokens l <= rl_tokens (refill l now) /\ rl_tokens (refill l now) * NANOS <= rl_tokens l * NANOS + rate_per_sec l * (now - rl_last l).
Proof.
  intros (Hr & Hr64 & Hc & Ht) Hn. unfold refill, saturating_sub, NANOS. destruct (Z.eqb_spec (Z.max (now - rl_last l) 0) 0) as [E|E].
  { split_and!; try done; lia. }
  rewrite Z.max_l by lia. set (x := rate_per_sec l * (now - rl_last l)). assert (0 <= x) by (unfold x; nia).
  assert (0 <= to_u64_or_max (x / 1000000000)) as H0 by (unfold to_u64_or_max, U64_MAX; destruct (Z.leb_spec (x / 1000000000) (2 ^ 64 - 1)); [apply Z.div_pos; lia|lia]).
  pose proof (to_u64_or_max_le (x / 1000000000)) as H1. pose proof (Z.mul_div_le x 1000000000 ltac:(lia)) as H2.
  set (a := to_u64_or_max _) in *. set (d := x / 1000000000) in *. clearbody a d x.
  unfold limiter_wf, saturating_add, uint in *. cbn [rate_per_sec rl_capacity rl_tokens rl_last]. split_and!; try done; lia.
Qed.
Lemma reserve_spec l cost now : limiter_wf l -> rl_last l <= now -> is_u64 cost -> cost * NANOS / rate_per_sec l <= U64_MAX ->
  let '(l', wait) := reserve l cost now in
  limiter_wf l' /\ rate_per_sec l' = rate_per_sec l /\ rl_capacity l' = rl_capacity l /\ rl_last l' = now /\ 0 <= wait
  /\ wait * rate_per_sec l <= Z.max 0 (cost - rl_tokens l) * NANOS
  /\ (cost + rl_tokens l') * NANOS <= rl_tokens l * NANOS + rate_per_sec l * ((now - rl_last l) + wait + 1).
Proof.
  intros Hwf Hn Hc Hw. destruct (refill_spec l now Hwf Hn) as (Hwf' & Er & Ec & El & Ht & Hb). unfold reserve.
  destruct (Z.eqb_spec (rate_per_sec l) 0) as [E|E]; [destruct Hwf; lia|]. set (r := refill l now) in *.
  destruct Hwf as (Hr & _), Hwf' as (Hr' & Hr64 & Hc64 & Ht'). unfold limiter_wf, with_tokens, uint, NANOS in *.
  destruct (Z.leb_spec cost (rl_tokens r)) as [Hle|Hgt]; cbn [rate_per_sec rl_capacity rl_tokens rl_last].
  { split_and!; try done; lia. }
  rewrite Er in *. set (x := (cost - rl_tokens r) * 1000000000).
  assert (0 <= x / rate_per_sec l <= U64_MAX) as [Hx0 Hx].
  { split; [apply Z.div_pos; unfold x; lia|]. transitivity (cost * 1000000000 / rate_per_sec l); [|done]. apply Z.div_le_mono; unfold x; lia. }
  unfold to_u64_or_max. rewrite (proj2 (Z.leb_le _ _)) by done.
  pose proof (Z.mul_div_le x (rate_per_sec l) ltac:(lia)) as H1. pose proof (Z.mul_succ_div_gt x (rate_per_sec l) ltac:(lia)) as H2.
  set (w := x / rate_per_sec l) in *. clearbody w. unfold x in *. split_and!; try done; try lia; nia.
Qed.
Lemma run_spec calls : forall l now, limiter_wf l -> rl_last l <= now -> Forall (call_ok l) calls ->
  let '(l', end_) := throttle_run l now calls in
  limiter_wf l' /\ rate_per_sec l' = rate_per_sec l /\ rl_capacity l' = rl_capacity l /\ now <= end_ /\ rl_last l' <= end_
  /\ (granted calls + rl_tokens l') * NANOS <= rl_tokens l * NANOS + rate_per_sec l * ((rl_last l' - rl_last l) + (end_ - now) + len calls).
Proof.
  induction calls as [|[idle cost] calls IH]; intros l now Hwf Hl Hok.
  { cbn [throttle_run granted foldr]. change (len []) with 0. split_and!; try done; lia. }
  apply Forall_cons in Hok as [(Hi & Hc & Hw) Hok]. cbn [fst snd] in *. cbn [throttle_run]. unfold throttle.
  pose proof (reserve_spec l cost (now + idle) Hwf ltac:(lia) Hc Hw) as Hs. destruct (reserve l cost (now + idle)) as [l1 wait].
  destruct Hs as (Hwf1 & Er & Ec & El & H0 & _ & Hb). specialize (IH l1 (now + idle + wait) Hwf1 ltac:(lia)).
  destruct (throttle_run l1 _ calls) as [l' end_]. destruct IH as (Hwf' & Hr' & Hc' & Hle & Hl' & Hb').
  { eapply Forall_impl; [exact Hok|]. intros c. unfold call_ok. by rewrite Er. }
  rewrite Er, El in *. rewrite len_cons. cbn [granted foldr snd]. fold (granted calls). split_and!; try done; try lia; try congruence.
  destruct Hwf as (Hr & _). nia.
Qed.

(** ** Twice the rate *)

Definition drained (rate now : Z) : RateLimiter := {| rate_per_sec := rate; rl_capacity := rate; rl_tokens := 0; rl_last := now |}.
Lemma drained_second rate now : 0 < rate -> is_u64 rate ->
  throttle_run (drained rate now) now [(0, rate); (0, rate)] = (drained rate (now + NANOS), now + NANOS).
Proof.
  intros Hr Hr64. cbn [throttle_run]. unfold throttle, reserve, refill, drained, with_tokens, saturating_sub, saturating_add, to_u64_or_max, uint, U64_MAX, NANOS in *.
  cbn [rate_per_sec rl_capacity rl_tokens rl_last]. rewrite (proj2 (Z.eqb_neq rate 0)) by lia. rewrite Z.add_0_r, Z.sub_diag. change (Z.max 0 0 =? 0) with true. cbn [rl_tokens rate_per_sec rl_capacity rl_last].
  rewrite (proj2 (Z.leb_gt rate 0)) by lia. rewrite Z.sub_0_r, (Z.mul_comm rate), Z.div_mul by lia. change (1000000000 <=? 2 ^ 64 - 1) with true. cbn [rl_tokens rate_per_sec rl_capacity rl_last].
  rewrite (proj2 (Z.eqb_neq rate 0)) by lia. rewrite Z.add_0_r. replace (now + 1000000000 - now) with 1000000000 by lia. change (Z.max 1000000000 0 =? 0) with false. cbn [rl_tokens rate_per_sec rl_capacity rl_last].
  rewrite Z.max_l by lia. rewrite Z.div_mul by lia. rewrite (proj2 (Z.leb_le rate (2 ^ 64 - 1))) by lia. rewrite Z.add_0_l, Z.min_l by lia. rewrite Z.min_l by lia.
  rewrite (proj2 (Z.leb_le rate rate)) by lia. cbn [rl_tokens rate_per_sec rl_capacity rl_last]. by rewrite Z.sub_diag, Z.add_0_r.
Qed.
Lemma throttle_run_app l now c1 c2 : throttle_run l now (c1 ++ c2) = let '(l, now) := throttle_run l now c1 in throttle_run l now c2.
Proof. revert l now. induction c1 as [|[idle cost] c1 IH]; intros l now; [done|]. cbn [app throttle_run]. destruct (throttle _ _ _). apply IH. Qed.
Lemma granted_app c1 c2 : granted (c1 ++ c2) = granted c1 + granted c2.
Proof. unfold granted. induction c1 as [|c c1 IH]; cbn [app foldr]; lia. Qed.
(** A call after the burst, then pairs of calls. *)
Definition back_to_back (rate : Z) (n : nat) : list (Z * Z) := (0, rate) :: concat (replicate n [(0, rate); (0, rate)]).
(** Back to back, such calls take [2 * n] seconds' worth of bytes in [n] seconds after the
    burst: a wait is paid for by the tokens that accrue during it, and these are kept. *)
Lemma limiter_doubles rate start n : 0 < rate -> is_u64 rate ->
  let calls := back_to_back rate n in
  (throttle_run (RateLimiter_new rate rate start) start calls).2 = start + Z.of_nat n * NANOS
  /\ granted calls = rate + Z.of_nat n * (2 * rate).
Proof.
  intros Hr Hr64 calls. unfold calls, back_to_back. split.
  - change (((0, rate) :: concat (replicate n [(0, rate); (0, rate)]))) with ([(0, rate)] ++ concat (replicate n [(0, rate); (0, rate)])).
    rewrite throttle_run_app. assert (throttle_run (RateLimiter_new rate rate start) start [(0, rate)] = (drained rate start, start)) as ->.
    { cbn [throttle_run]. unfold throttle, reserve, refill, RateLimiter_new, drained, with_tokens, saturating_sub. cbn [rate_per_sec rl_capacity rl_tokens rl_last].
      rewrite (proj2 (Z.eqb_neq rate 0)) by lia. rewrite Z.add_0_r, Z.sub_diag. change (Z.max 0 0 =? 0) with true. cbn [rl_tokens rate_per_sec rl_capacity rl_last].
      rewrite (proj2 (Z.leb_le rate rate)) by lia. by rewrite Z.sub_diag, Z.add_0_r. }
    cbn beta iota. revert start. induction n as [|n IH]; intros start; [cbn [replicate concat throttle_run snd]; lia|].
    cbn [replicate concat]. rewrite throttle_run_app, drained_second by done. cbn beta iota. rewrite IH. lia.
  - induction n as [|n IH]; [cbn; lia|]. cbn [replicate concat]. change ((0, rate) :: [(0, rate); (0, rate)] ++ ?x) with ([(0, rate); (0, rate)] ++ (0, rate) :: x).
    rewrite granted_app, IH. cbn [granted foldr snd]. lia.
Qed.
Lemma back_to_back_ok rate capacity start n : 0 < rate -> is_u64 rate -> Forall (call_ok (RateLimiter_new rate capacity start)) (back_to_back rate n).
Proof.
  intros Hr Hr64. assert (call_ok (RateLimiter_new rate capacity start) (0, rate)) as Hc.
  { unfold call_ok, U64_MAX, NANOS. cbn [fst snd RateLimiter_new rate_per_sec]. rewrite Z.mul_comm, Z.div_mul by lia. split_and!; [done..|lia]. }
  unfold back_to_back. constructor; [done|]. induction n as [|n IH]; [constructor|]. cbn [replicate concat app]. constructor; [done|]. by constructor.
Qed.

(** C40: what a limited bucket lets through in a run of calls, one after the other and from a
    full bucket, each call small enough for its wait to fit 64-bit nanoseconds ([call_ok]):
    the tokens stay within the capacity; no call waits longer than its cost takes at the
    rate, and none for which there are tokens; and the bytes granted by the time the run
    ends are at most the capacity, twice the rate over that time and a nanosecond's worth
    of the rate for each call (waits are rounded down). The factor two, which the
    configured rate does not allow for, is attained: with one second's worth as capacity
    there is for every number of seconds a run of such calls that ends after that time and
    is granted the capacity and exactly twice the rate over it. *)
Theorem limiter_bounds rate capacity start : 0 < rate -> is_u64 rate -> is_u64 capacity ->
  (forall calls, Forall (call_ok (RateLimiter_new rate capacity start)) calls ->
     let '(l', end_) := throttle_run (RateLimiter_new rate capacity start) start calls in
     start <= end_ /\ 0 <= rl_tokens l' <= capacity
     /\ granted calls * NANOS <= capacity * NANOS + rate * (2 * (end_ - start) + len calls)
     /\ forall idle cost, call_ok l' (idle, cost) ->
          let wait := (throttle l' cost (end_ + idle)).2 - (end_ + idle) in
          wait * rate <= cost * NANOS /\ (cost <= rl_tokens l' -> wait = 0))
  /\ (forall seconds : nat, capacity = rate -> exists calls, Forall (call_ok (RateLimiter_new rate capacity start)) calls
        /\ (throttle_run (RateLimiter_new rate capacity start) start calls).2 = start + Z.of_nat seconds * NANOS
        /\ granted calls = capacity + 2 * rate * Z.of_nat seconds).
Proof.
  intros Hr Hr64 Hc. split.
  2:{ intros n ->. exists (back_to_back rate n). split; [by apply back_to_back_ok|]. destruct (limiter_doubles rate start n Hr Hr64) as [He Hg]. split; [done|lia]. }
  intros calls Hok. set (l := RateLimiter_new rate capacity start) in *.
  assert (limiter_wf l) as Hwf by (unfold limiter_wf, l, uint in *; cbn; lia).
  pose proof (run_spec calls l start Hwf ltac:(done) Hok) as Hs. destruct (throttle_run l start calls) as [l' end_].
  destruct Hs as (Hwf' & Er & Ec & Hle & Hl & Hb). cbn [l RateLimiter_new rate_per_sec rl_capacity rl_tokens rl_last] in Er, Ec, Hb.
  pose proof Hwf' as (_ & _ & _ & Ht'). rewrite Ec in Ht'. unfold NANOS in *. split_and!; [done|lia|lia|nia|].
  intros idle cost (Hi & Hco & Hw). cbn [fst snd] in *. pose proof (reserve_spec l' cost (end_ + idle) Hwf' ltac:(lia) Hco Hw) as Hs.
  unfold throttle. destruct (reserve _ _ _) as [l1 wait]. destruct Hs as (_ & _ & _ & _ & H0 & Hwt & _). cbn [snd]. rewrite Er in Hwt. unfold uint, NANOS in *.
  replace (end_ + idle + wait - (end_ + idle)) with wait by lia. split; [lia|]. intros Hcov. nia.
Qed.
Lemma limiter_bounds_witness : granted [(0, 100); (0, 100); (5, 100)] * NANOS <= 100 * NANOS + 100 * (2 * ((throttle_run (RateLimiter_new 100 100 0) 0 [(0, 100); (0, 100); (5, 100)]).2 - 0) + 3).
Proof.
  destruct (limiter_bounds 100 100 0 ltac:(lia) ltac:(unfold uint; lia) ltac:(unfold uint; lia)) as [H _].
  specialize (H [(0, 100); (0, 100); (5, 100)]). destruct (throttle_run _ _ _) as [l' end_] eqn:E.
  apply H. repeat constructor; cbn; unfold U64_MAX, NANOS; try lia; vm_compute; discriminate.
Defined.
