(* ===== verification/EcLayout.v ===== *)
(** Erasure-coding layout and bitrot frames (crates/epoch-ec): the striping math
    of layout.rs and the BLAKE3 frames of frame.rs. BLAKE3 is a parameter. *)

From S2P Require Import Prelude.

(** ** Striping math (layout.rs)

    [debug_assert!]s are preconditions of the lemmas. *)

Definition HASH_LEN : Z := 32.
Definition SHARD_ALIGN : Z := 64.

Definition unit_size (stripe_len data_shards : Z) : Z :=
  next_multiple_of (div_ceil stripe_len data_shards) SHARD_ALIGN.

Definition stripe_count (blob_len stripe_size : Z) : Z := div_ceil blob_len stripe_size.

Definition last_stripe_len (blob_len stripe_size : Z) : Z :=
  if blob_len =? 0 then 0
  else match blob_len mod stripe_size with
       | 0 => stripe_size
       | rem => rem
       end.

Definition shard_physical_len (logical_len unit : Z) : Z :=
  if (unit =? 0) || (logical_len =? 0) then 0
  else div_ceil logical_len unit * HASH_LEN + logical_len.

Definition shard_logical_len (blob_len stripe_size data_shards : Z) : Z :=
  let stripes := stripe_count blob_len stripe_size in
  if stripes =? 0 then 0
  else
    let unit_full := unit_size stripe_size data_shards in
    let unit_last := unit_size (last_stripe_len blob_len stripe_size) data_shards in
    (stripes - 1) * unit_full + unit_last.

Definition shard_physical_blob_len (blob_len stripe_size data_shards : Z) : Z :=
  stripe_count blob_len stripe_size * HASH_LEN
  + shard_logical_len blob_len stripe_size data_shards.

Definition frame_offset (stripe_idx unit : Z) : Z := stripe_idx * (HASH_LEN + unit).

Definition offset_to_stripe (offset stripe_size : Z) : Z := offset / stripe_size.

(** *** Reference definition: the stripes a blob is cut into, one by one. *)

Fixpoint cut_stripes (fuel : nat) (blob_len stripe_size : Z) : list Z :=
  match fuel with
  | O => []
  | S fuel =>
      if blob_len <=? 0 then []
      else Z.min blob_len stripe_size :: cut_stripes fuel (blob_len - stripe_size) stripe_size
  end.
Definition stripes (blob_len stripe_size : Z) : list Z :=
  cut_stripes (Z.to_nat blob_len) blob_len stripe_size.

Definition sumZ (l : list Z) : Z := foldr Z.add 0 l.

Lemma sumZ_cons x l : sumZ (x :: l) = x + sumZ l.
Proof. done. Qed.
Lemma sumZ_app l1 l2 : sumZ (l1 ++ l2) = sumZ l1 + sumZ l2.
Proof. induction l1; simpl; [done|]. unfold sumZ in *. lia. Qed.
Lemma sumZ_replicate n x : sumZ (replicate n x) = Z.of_nat n * x.
Proof. induction n; simpl; [done|]. unfold sumZ in *. lia. Qed.

Lemma last_stripe_len_spec b s : 0 < b -> 0 < s ->
  last_stripe_len b s = b - (stripe_count b s - 1) * s /\ 0 < last_stripe_len b s <= s.
Proof.
  intros Hb Hs. unfold last_stripe_len, stripe_count.
  destruct (Z.eqb_spec b 0); [lia|].
  pose proof (Z.div_mod b s ltac:(lia)) as Hd.
  pose proof (Z.mod_pos_bound b s ltac:(lia)) as Hm.
  destruct (Z.eq_dec (b mod s) 0) as [E|E].
  - rewrite E. rewrite (div_ceil_unique b s (b / s)) by nia. nia.
  - rewrite (div_ceil_unique b s (b / s + 1)) by nia.
    destruct (b mod s) eqn:E'; [done| |lia]. rewrite <- E' in *. nia.
Qed.

(** The stripes are full ones followed by the last one. *)
Lemma cut_stripes_shape fuel b s : 0 < b -> 0 < s -> (Z.to_nat b <= fuel)%nat ->
  cut_stripes fuel b s =
    replicate (Z.to_nat (stripe_count b s - 1)) s ++ [last_stripe_len b s].
Proof.
  intros Hb Hs. revert b Hb. induction fuel as [|fuel IH]; intros b Hb Hf; [lia|].
  cbn [cut_stripes]. destruct (Z.leb_spec b 0); [lia|].
  destruct (Z.le_gt_cases b s) as [Hle|Hgt].
  - rewrite Z.min_l by done. unfold stripe_count.
    destruct (last_stripe_len_spec b s Hb Hs) as [-> _]. unfold stripe_count.
    rewrite (div_ceil_unique b s 1) by lia. simpl.
    destruct fuel; simpl; [do 2 f_equal; lia|].
    destruct (Z.leb_spec (b - s) 0); [do 2 f_equal; lia|lia].
  - rewrite Z.min_r by lia. rewrite IH by lia.
    assert (stripe_count b s = stripe_count (b - s) s + 1) as E.
    { unfold stripe_count. pose proof (div_ceil_spec (b - s) s ltac:(lia) Hs).
      apply div_ceil_unique; nia. }
    assert (0 < stripe_count (b - s) s) by (apply div_ceil_pos; lia).
    rewrite E. replace (Z.to_nat (stripe_count (b - s) s + 1 - 1)) with (S (Z.to_nat (stripe_count (b - s) s - 1))) by lia.
    simpl. do 3 f_equal.
    destruct (last_stripe_len_spec b s) as [-> _]; [lia..|].
    destruct (last_stripe_len_spec (b - s) s) as [-> _]; [lia..|]. lia.
Qed.

Lemma stripes_nil b s : b <= 0 -> stripes b s = [].
Proof. intros. unfold stripes. by replace (Z.to_nat b) with 0%nat by lia. Qed.

Lemma stripes_shape b s : 0 < b -> 0 < s ->
  stripes b s = replicate (Z.to_nat (stripe_count b s - 1)) s ++ [last_stripe_len b s].
Proof. intros. by apply cut_stripes_shape. Qed.

Lemma unit_size_spec l n : 0 <= l -> 0 < n ->
  l <= n * unit_size l n /\ unit_size l n mod SHARD_ALIGN = 0 /\ 0 <= unit_size l n
  /\ unit_size l n < div_ceil l n + SHARD_ALIGN.
Proof.
  intros Hl Hn. unfold unit_size, SHARD_ALIGN.
  pose proof (div_ceil_spec l n Hl Hn).
  assert (0 <= div_ceil l n) by nia.
  destruct (next_multiple_of_spec (div_ceil l n) 64) as [? ?]; [lia..|].
  repeat split; try nia.
Qed.
Lemma unit_size_pos l n : 0 < l -> 0 < n -> 0 < unit_size l n.
Proof. intros. destruct (unit_size_spec l n); [lia..|]. nia. Qed.

Lemma stripes_count b s : 0 <= b -> 0 < s -> len (stripes b s) = stripe_count b s.
Proof.
  intros Hb Hs. destruct (Z.eq_dec b 0) as [->|].
  { rewrite stripes_nil by lia. unfold stripe_count. by rewrite div_ceil_0. }
  assert (0 < stripe_count b s) by (apply div_ceil_pos; lia).
  rewrite stripes_shape by lia. lens. unfold len. rewrite length_replicate. lia.
Qed.

(** The closed-form striping math agrees with cutting the blob stripe by
    stripe: the stripes sum to the blob, there are [stripe_count] of them, every
    stripe fits the [data_shards] units of its [unit_size] (a 64-byte multiple),
    [shard_logical_len] and [shard_physical_blob_len] are the sums of the units and
    of the framed units over the stripes, the frame of stripe [i] starts at
    [frame_offset i], and the byte at [offset] lies in stripe [offset_to_stripe]. *)
Theorem layout_agrees_with_stripes : forall blob_len stripe_size n,
  0 <= blob_len -> 0 < stripe_size -> 0 < n ->
  let ss := stripes blob_len stripe_size in
  let unit := unit_size stripe_size n in
  sumZ ss = blob_len
  /\ len ss = stripe_count blob_len stripe_size
  /\ Forall (fun s => s <= n * unit_size s n /\ unit_size s n mod SHARD_ALIGN = 0
                      /\ 0 < unit_size s n) ss
  /\ sumZ ((fun s => unit_size s n) <$> ss) = shard_logical_len blob_len stripe_size n
  /\ sumZ ((fun s => HASH_LEN + unit_size s n) <$> ss)
       = shard_physical_blob_len blob_len stripe_size n
  /\ (forall i : nat, (i < length ss)%nat ->
        sumZ ((fun s => HASH_LEN + unit_size s n) <$> take i ss) = frame_offset (Z.of_nat i) unit)
  /\ (forall offset, 0 <= offset < blob_len ->
        0 <= offset_to_stripe offset stripe_size < stripe_count blob_len stripe_size).
Proof.
  intros b s n Hb Hs Hn ss unit.
  destruct (Z.eq_dec b 0) as [->|Hb0].
  { unfold ss. rewrite stripes_nil by lia.
    unfold shard_physical_blob_len, shard_logical_len, stripe_count. rewrite div_ceil_0 by done.
    split_and!; try done; try (intros; simpl in *; lia). }
  assert (0 < stripe_count b s) as Hc by (apply div_ceil_pos; lia).
  destruct (last_stripe_len_spec b s) as [Hlast Hlr]; [lia..|].
  assert (len ss = stripe_count b s) as Hlen by by apply stripes_count.
  unfold ss in *. rewrite stripes_shape in * by lia.
  assert (forall f : Z -> Z, sumZ (f <$> replicate (Z.to_nat (stripe_count b s - 1)) s
            ++ [last_stripe_len b s]) = (stripe_count b s - 1) * f s + f (last_stripe_len b s)) as Hsum.
  { intros f. rewrite fmap_app, fmap_replicate, sumZ_app, sumZ_replicate, Z2Nat.id by lia.
    simpl. lia. }
  assert (forall x, 0 < x <= s -> x <= n * unit_size x n
            /\ unit_size x n mod SHARD_ALIGN = 0 /\ 0 < unit_size x n) as Hu.
  { intros x Hx. destruct (unit_size_spec x n) as (? & ? & _); [lia..|].
    pose proof (unit_size_pos x n). repeat split; try done; lia. }
  split_and!.
  - rewrite <- (list_fmap_id (replicate _ _ ++ _)), Hsum. simpl. lia.
  - done.
  - apply Forall_app. split; [apply Forall_replicate|apply Forall_singleton]; apply Hu; lia.
  - rewrite (Hsum (fun x => unit_size x n)). unfold shard_logical_len.
    destruct (Z.eqb_spec (stripe_count b s) 0); [lia|done].
  - rewrite (Hsum (fun x => HASH_LEN + unit_size x n)). unfold shard_physical_blob_len, shard_logical_len.
    destruct (Z.eqb_spec (stripe_count b s) 0); [lia|]. lia.
  - intros i Hi. rewrite length_app, length_replicate in Hi. simpl in Hi.
    rewrite take_app_le by (rewrite length_replicate; lia).
    rewrite take_replicate, fmap_replicate, sumZ_replicate. unfold frame_offset, unit.
    f_equal. lia.
  - intros o Ho. unfold offset_to_stripe. unfold stripe_count in *.
    pose proof (div_ceil_spec b s ltac:(lia) Hs). split; [apply Z.div_pos; lia|].
    apply Z.div_lt_upper_bound; nia.
Qed.
Lemma layout_agrees_with_stripes_witness :
  sumZ (stripes 2500000 1048576) = 2500000
  /\ shard_physical_blob_len 2500000 1048576 12 = 3 * 32 + 2 * 87424 + 33600.
Proof.
  split; [|reflexivity].
  apply (layout_agrees_with_stripes 2500000 1048576 12); lia.
Defined.
