(* ===== verification/Bitrot.v ===== *)
(** Bitrot frames (crates/epoch-ec/src/frame.rs): [BLAKE3(data) || data] units of a
    shard body, and the verifier that walks them. *)

From S2P Require Import Prelude EcLayout.

(** The [blake3] crate: a 32-byte digest. *)
Class Blake3 := {
  blake3_hash : list Z -> list Z;
  blake3_hash_len : forall d, len (blake3_hash d) = HASH_LEN
}.

Inductive FrameError : Set :=
| FrameHashMismatch (index : Z)
| FrameTruncated (offset : Z).

Section Frames.
Context `{Blake3}.

Definition frame_len (data_len : Z) : Z := HASH_LEN + data_len.

(** Appends to [out]. *)
Definition write_frame (data out : list Z) : list Z :=
  (out ++ blake3_hash data) ++ data.

Definition frame_data (frame : list Z) : option (list Z) :=
  if HASH_LEN <=? len frame then
    let hash := take (Z.to_nat HASH_LEN) frame in
    let data := drop (Z.to_nat HASH_LEN) frame in
    if bool_decide (blake3_hash data = hash) then Some data else None
  else None.

Definition verify_frame (frame : list Z) : result FrameError (list Z) :=
  if len frame <? HASH_LEN then Err (FrameTruncated 0)
  else ok_or (frame_data frame) (FrameHashMismatch 0).

(** The loop of [verify_shard_body]; [None] is exhausted fuel, never reached
    from [verify_shard_body] ([verify_loop_total]). *)
Fixpoint verify_loop (fuel : nat) (body : list Z) (unit pos data_total index : Z)
    : option (result FrameError Z) :=
  if pos <? len body then
    match fuel with
    | O => None
    | S fuel =>
        let remaining := len body - pos in
        if remaining <=? HASH_LEN then Some (Err (FrameTruncated pos))
        else
          let data_len := Z.min unit (remaining - HASH_LEN) in
          let frame := slice pos (HASH_LEN + data_len) body in
          match frame_data frame with
          | None => Some (Err (FrameHashMismatch index))
          | Some _ =>
              verify_loop fuel body unit (pos + (HASH_LEN + data_len))
                (data_total + data_len) (index + 1)
          end
    end
  else Some (Ok data_total).

Definition verify_shard_body (body : list Z) (unit : Z) : option (result FrameError Z) :=
  match body with
  | [] => Some (Ok 0)
  | _ => verify_loop (length body) body unit 0 0 0
  end.

(** *** Reference: a body as the list of its frames *)

Definition frame (data : list Z) : list Z := blake3_hash data ++ data.
Definition framed (units : list (list Z)) : list Z := mjoin (frame <$> units).

(** Units are full up to the last one, which is not empty. *)
Inductive unit_shape (unit : Z) : list (list Z) -> Prop :=
| unit_shape_nil : unit_shape unit []
| unit_shape_last d : 0 < len d <= unit -> unit_shape unit [d]
| unit_shape_full d d' ds :
    len d = unit -> unit_shape unit (d' :: ds) -> unit_shape unit (d :: d' :: ds).

Lemma len_frame d : len (frame d) = HASH_LEN + len d.
Proof. unfold frame. rewrite len_app, blake3_hash_len. done. Qed.

Lemma frame_data_frame d : frame_data (frame d) = Some d.
Proof.
  unfold frame_data. rewrite len_frame.
  pose proof (len_nonneg d). destruct (Z.leb_spec HASH_LEN (HASH_LEN + len d)); [|lia].
  unfold frame. pose proof (blake3_hash_len d) as Hl. unfold len, HASH_LEN in Hl.
  unfold HASH_LEN.
  rewrite take_app_length' by lia. rewrite drop_app_length' by lia.
  by rewrite bool_decide_true.
Qed.

Lemma frame_data_Some f d : frame_data f = Some d -> f = frame d.
Proof.
  unfold frame_data, frame. destruct (Z.leb_spec HASH_LEN (len f)); [|done].
  case_bool_decide as E; [|done]. intros [= <-]. rewrite E. by rewrite take_drop.
Qed.

Lemma framed_cons d ds : framed (d :: ds) = frame d ++ framed ds.
Proof. done. Qed.
Lemma framed_app ds1 ds2 : framed (ds1 ++ ds2) = framed ds1 ++ framed ds2.
Proof. unfold framed. by rewrite fmap_app, join_app. Qed.
Lemma len_framed ds : len (framed ds) = len ds * HASH_LEN + sumZ (len <$> ds).
Proof.
  induction ds as [|d ds IH]; [done|].
  rewrite framed_cons, len_app, IH, len_frame, len_cons, fmap_cons, sumZ_cons. lia.
Qed.

Lemma unit_shape_cons_inv unit d ds : unit_shape unit (d :: ds) ->
  0 < unit -> 0 < len d <= unit /\ unit_shape unit ds /\ (ds <> [] -> len d = unit).
Proof. inversion 1; subst; intros; split_and!; try done; try lia. constructor. Qed.

(** The slice of the next frame. *)
Lemma slice_frame pre d rest :
  slice (len pre) (HASH_LEN + len d) (pre ++ frame d ++ rest) = frame d.
Proof.
  rewrite slice_app_r by lia. rewrite Z.sub_diag. apply slice_app_eq.
  by rewrite len_frame.
Qed.

Lemma verify_loop_valid unit : 0 < unit -> forall units fuel pre total index,
  unit_shape unit units -> (length units <= fuel)%nat ->
  verify_loop fuel (pre ++ framed units) unit (len pre) total index
    = Some (Ok (total + sumZ (len <$> units))).
Proof.
  intros Hu. induction units as [|d units IH]; intros fuel pre total index Hs Hf.
  - destruct fuel; cbn [verify_loop]; rewrite app_nil_r, Z.ltb_irrefl; do 2 f_equal; unfold sumZ; simpl; lia.
  - destruct fuel as [|fuel]; [simpl in Hf; lia|]. cbn [verify_loop].
    destruct (unit_shape_cons_inv _ _ _ Hs Hu) as (Hd & Hs' & Hfull).
    rewrite framed_cons, !len_app, len_frame. pose proof (len_nonneg (framed units)).
    unfold HASH_LEN in *.
    destruct (Z.ltb_spec (len pre) (len pre + (32 + len d + len (framed units)))); [|lia].
    destruct (Z.leb_spec (len pre + (32 + len d + len (framed units)) - len pre) 32); [lia|].
    assert (Z.min unit (len pre + (32 + len d + len (framed units)) - len pre - 32) = len d) as ->.
    { destruct units as [|d' units'].
      - change (framed []) with (@nil Z). rewrite len_nil. lia.
      - rewrite (Hfull ltac:(done)). lia. }
    rewrite (slice_frame pre d), frame_data_frame.
    replace (len pre + (32 + len d)) with (len (pre ++ frame d))
      by (rewrite len_app, len_frame; done).
    rewrite app_assoc, IH by (auto; simpl in Hf; lia).
    do 2 f_equal. rewrite fmap_cons, sumZ_cons. lia.
Qed.

Lemma verify_loop_sound fuel body unit : 0 < unit -> forall pos total index r,
  0 <= pos <= len body ->
  verify_loop fuel body unit pos total index = Some r ->
  exists units rest,
    drop (Z.to_nat pos) body = framed units ++ rest
    /\ match r with
       | Ok n => rest = [] /\ unit_shape unit units /\ n = total + sumZ (len <$> units)
       | Err (FrameHashMismatch i) =>
           i = index + len units /\ Forall (fun d => len d = unit) units
           /\ frame_data (slice 0 (HASH_LEN + Z.min unit (len rest - HASH_LEN)) rest) = None
           /\ HASH_LEN < len rest
       | Err (FrameTruncated o) =>
           o = pos + len (framed units) /\ Forall (fun d => len d = unit) units
           /\ 0 < len rest <= HASH_LEN
       end.
Proof.
  intros Hu. induction fuel as [|fuel IH]; intros pos total index r Hpos; cbn [verify_loop].
  - destruct (Z.ltb_spec pos (len body)); [done|]. intros [= <-].
    exists [], []. rewrite drop_ge by (unfold len in *; lia).
    split_and!; try done; [constructor|unfold sumZ; simpl; lia].
  - destruct (Z.ltb_spec pos (len body)) as [Hlt|Hge].
    2:{ intros [= <-]. exists [], []. rewrite drop_ge by (unfold len in *; lia).
        split_and!; try done; [constructor|unfold sumZ; simpl; lia]. }
    assert (len (drop (Z.to_nat pos) body) = len body - pos) as Hdl.
    { unfold len in *. rewrite length_drop. lia. }
    destruct (Z.leb_spec (len body - pos) HASH_LEN) as [Ht|Ht].
    { intros [= <-]. exists [], (drop (Z.to_nat pos) body).
      split_and!; try done; try lia; try (unfold framed; simpl; lens). }
    set (dl := Z.min unit (len body - pos - HASH_LEN)).
    assert (0 < dl /\ dl <= unit /\ pos + (HASH_LEN + dl) <= len body)
      as (Hdl0 & Hdlu & Hdlb) by (unfold dl, HASH_LEN in *; lia).
    assert (slice pos (HASH_LEN + dl) body
            = slice 0 (HASH_LEN + dl) (drop (Z.to_nat pos) body)) as Hsl by done.
    destruct (frame_data (slice pos (HASH_LEN + dl) body)) as [d|] eqn:Ef.
    2:{ intros [= <-]. exists [], (drop (Z.to_nat pos) body). rewrite Hdl.
        fold dl. rewrite <- Hsl. split_and!; try done; try lens. }
    intros Hr. apply IH in Hr as (units & rest & Hdrop & Hr); [|unfold HASH_LEN in *; lia].
    apply frame_data_Some in Ef.
    assert (len d = dl) as Hdlen.
    { pose proof (f_equal len Ef) as E. rewrite len_frame, len_slice in E;
        unfold HASH_LEN in *; lia. }
    assert (drop (Z.to_nat pos) body = framed (d :: units) ++ rest) as Hall.
    { rewrite framed_cons, <- app_assoc, <- Ef, <- Hdrop. unfold slice.
      replace (Z.to_nat (pos + (HASH_LEN + dl)))
        with (Z.to_nat pos + Z.to_nat (HASH_LEN + dl))%nat by (unfold HASH_LEN; lia).
      rewrite <- drop_drop. by rewrite take_drop. }
    exists (d :: units), rest. split; [exact Hall|].
    assert (len body - pos = HASH_LEN + dl + len (framed units) + len rest) as Htot.
    { rewrite <- Hdl, Hall, len_app, framed_cons, len_app, len_frame. lia. }
    pose proof (len_nonneg (framed units)). pose proof (len_nonneg rest).
    destruct r as [n|[i|o]].
    + destruct Hr as (-> & Hs & ->). split_and!; [done| |rewrite fmap_cons, sumZ_cons; lia].
      destruct units as [|d' units']; [constructor; lia|].
      constructor; [|done]. rewrite framed_cons, len_app, len_frame in Htot.
      pose proof (len_nonneg d'). pose proof (len_nonneg (framed units')).
      unfold dl, HASH_LEN in *. lia.
    + destruct Hr as (-> & Hs & Hb & Hr). split_and!; try done; try lens.
      constructor; [|done]. unfold dl, HASH_LEN in *. lia.
    + destruct Hr as (-> & Hs & Hr). split_and!; try lia.
      * rewrite framed_cons, len_app, len_frame. lia.
      * constructor; [|done]. unfold dl, HASH_LEN in *. lia.
Qed.

Lemma verify_loop_total fuel body unit pos total index :
  0 <= unit -> len body - pos <= Z.of_nat fuel ->
  is_Some (verify_loop fuel body unit pos total index).
Proof.
  intros Hu. revert pos total index.
  induction fuel as [|fuel IH]; intros pos total index Hf; cbn [verify_loop].
  - destruct (Z.ltb_spec pos (len body)); [lia|done].
  - destruct (Z.ltb_spec pos (len body)); [|done]. unfold HASH_LEN.
    destruct (Z.leb_spec (len body - pos) 32); [done|].
    destruct (frame_data _); [|done]. apply IH. lia.
Qed.
End Frames.

Section FrameTheorems.
Context `{Blake3}.

(** The write path: one [write_frame] per unit. *)
Lemma write_frames_framed units out :
  foldl (fun out d => write_frame d out) out units = out ++ framed units.
Proof.
  revert out. induction units as [|d units IH]; intros out; simpl.
  - by rewrite app_nil_r.
  - rewrite IH, framed_cons. unfold write_frame, frame. by rewrite <- !app_assoc.
Qed.

Lemma length_units_framed units : (length units <= length (framed units))%nat.
Proof.
  induction units as [|d units IH]; [done|].
  rewrite framed_cons, length_app. pose proof (len_frame d) as Hl.
  unfold len, HASH_LEN in Hl. simpl. lia.
Qed.

Lemma verify_shard_body_complete units unit : 0 < unit -> unit_shape unit units ->
  verify_shard_body (framed units) unit = Some (Ok (sumZ (len <$> units))).
Proof.
  intros Hu Hs. unfold verify_shard_body.
  pose proof (verify_loop_valid unit Hu units (length (framed units)) [] 0 0 Hs
                (length_units_framed units)) as E.
  change ([] ++ framed units) with (framed units) in E. rewrite Z.add_0_l in E.
  destruct units as [|d units]; [done|].
  destruct (framed (d :: units)) as [|b l] eqn:Ef; [|exact E].
  exfalso. pose proof (len_frame d) as Hl. rewrite framed_cons in Ef.
  apply app_nil in Ef as [Ef _]. rewrite Ef in Hl. pose proof (len_nonneg d).
  unfold HASH_LEN in Hl. rewrite len_nil in Hl. lia.
Qed.

(** A shaped body has the physical length layout.rs computes. *)
Lemma unit_shape_physical_len unit units : 0 < unit -> unit_shape unit units ->
  shard_physical_len (sumZ (len <$> units)) unit = len (framed units).
Proof.
  intros Hu Hs.
  assert (units = [] \/ (0 < sumZ (len <$> units)
           /\ (len units - 1) * unit < sumZ (len <$> units) <= len units * unit)) as Hb.
  { clear -Hu Hs. induction Hs as [|d Hd|d d' ds Hd Hs IH]; [by left|right..].
    - change (sumZ (len <$> [d])) with (len d + 0). change (len [d]) with 1. lia.
    - destruct IH as [IH|IH]; [done|].
      rewrite (fmap_cons len d), sumZ_cons, Hd.
      rewrite (len_cons d). nia. }
  rewrite len_framed. destruct Hb as [-> | [Hpos Hb]].
  { unfold shard_physical_len. by rewrite orb_true_r. }
  unfold shard_physical_len.
  destruct (Z.eqb_spec unit 0), (Z.eqb_spec (sumZ (len <$> units)) 0); try lia.
  simpl. rewrite (div_ceil_unique _ _ (len units)) by lia. lia.
Qed.

Lemma verify_shard_body_sound body unit r : 0 < unit ->
  verify_shard_body body unit = Some r ->
  exists units rest,
    body = framed units ++ rest
    /\ match r with
       | Ok n => rest = [] /\ unit_shape unit units /\ n = sumZ (len <$> units)
       | Err (FrameHashMismatch i) =>
           i = len units /\ Forall (fun d => len d = unit) units
           /\ frame_data (slice 0 (HASH_LEN + Z.min unit (len rest - HASH_LEN)) rest) = None
           /\ HASH_LEN < len rest
       | Err (FrameTruncated o) =>
           o = len (framed units) /\ Forall (fun d => len d = unit) units
           /\ 0 < len rest <= HASH_LEN
       end.
Proof.
  intros Hu Hr. destruct body as [|b body].
  { injection Hr as <-. exists [], []. split_and!; try done. constructor. }
  cbn [verify_shard_body] in Hr. apply verify_loop_sound in Hr as (units & rest & Hd & Hr);
    [|done|split; [lia|apply len_nonneg]].
  exists units, rest. split; [exact Hd|]. destruct r as [n|[i|o]]; rewrite ?Z.add_0_l in Hr; done.
Qed.

(** The shard-body verifier is exact and always terminates: for a positive
    unit it returns, and it returns [Ok n] exactly on the bodies the write path
    produces (one [write_frame] per unit, all units full but a shorter last one)
    with [n] their data length and [shard_physical_len n] their size; otherwise
    it names the first frame whose digest does not match its data, all earlier
    frames being intact, or the offset where the body ends inside a header. *)
Theorem verify_shard_body_exact : forall body unit, 0 < unit ->
  exists r, verify_shard_body body unit = Some r
  /\ (forall n, r = Ok n <->
        exists units, body = foldl (fun out d => write_frame d out) [] units
          /\ unit_shape unit units /\ n = sumZ (len <$> units))
  /\ (forall n, r = Ok n -> shard_physical_len n unit = len body)
  /\ (forall i, r = Err (FrameHashMismatch i) ->
        exists units rest, body = framed units ++ rest /\ len units = i
          /\ Forall (fun d => len d = unit) units
          /\ frame_data (slice 0 (HASH_LEN + Z.min unit (len rest - HASH_LEN)) rest) = None)
  /\ (forall o, r = Err (FrameTruncated o) ->
        exists units rest, body = framed units ++ rest /\ len (framed units) = o
          /\ Forall (fun d => len d = unit) units /\ 0 < len rest <= HASH_LEN).
Proof.
  intros body unit Hu.
  assert (exists r, verify_shard_body body unit = Some r) as [r Hr].
  { destruct body as [|b body]; [by eexists|].
    destruct (verify_loop_total (length (b :: body)) (b :: body) unit 0 0 0)
      as [r Hr]; [lia|unfold len; lia|]. by exists r. }
  exists r. destruct (verify_shard_body_sound _ _ _ Hu Hr) as (units & rest & -> & Hc).
  split; [done|]. split_and!.
  - intros n. split.
    + intros ->. destruct Hc as (-> & Hs & ->). exists units.
      by rewrite write_frames_framed, app_nil_r.
    + intros (units' & E & Hs & ->). rewrite write_frames_framed in E. simpl in E.
      rewrite E, verify_shard_body_complete in Hr by done. by injection Hr.
  - intros n ->. destruct Hc as (-> & Hs & ->). rewrite app_nil_r.
    by apply unit_shape_physical_len.
  - intros i ->. destruct Hc as (-> & ? & ? & ?). by exists units, rest.
  - intros o ->. destruct Hc as (-> & ? & ?). by exists units, rest.
Qed.

End FrameTheorems.

(** A concrete digest, used to evaluate the definitions on examples. *)
Definition toy_hash (d : list Z) : list Z :=
  be_bytes 32 (foldl (fun acc b => (acc * 257 + b + 1) mod 2 ^ 255) 0 d).
#[global] Instance toy_blake3 : Blake3 := {| blake3_hash := toy_hash; blake3_hash_len d := len_be_bytes 32 _ |}.

Lemma verify_shard_body_exact_witness :
  verify_shard_body (foldl (fun out d => write_frame d out) [] [[1;2;3;4];[5;6;7;8];[9]]) 4
    = Some (Ok 9).
Proof.
  destruct (verify_shard_body_exact
    (foldl (fun out d => write_frame d out) [] [[1;2;3;4];[5;6;7;8];[9]]) 4)
    as (r & -> & Hok & _); [lia|].
  rewrite (proj2 (Hok 9)); [done|].
  exists [[1;2;3;4];[5;6;7;8];[9]]. split_and!; [done| |done].
  repeat constructor; unfold len; simpl; lia.
Defined.
