(* ===== verification/Erasure.v ===== *)
(** The Reed-Solomon coder wrapper (crates/epoch-ec/src/erasure.rs) and the
    contiguous shard buffers (buffer.rs). The [reed-solomon-simd] crate is a
    parameter with its documented contract. *)

From S2P Require Import Prelude.

(** [&[Option<T>]] as indexed present entries:
    [.iter().enumerate().filter_map(|(i, s)| s.map(|d| (i, d)))]. *)
Definition present_entries {A} (l : list (option A)) : list (Z * A) :=
  omap (fun p => pair p.1 <$> p.2) (imap (fun i o => (Z.of_nat i, o)) l).

Definition uniform_even (n : Z) (shards : list (list Z)) : Prop :=
  0 < n /\ n mod 2 = 0 /\ Forall (fun s => len s = n) shards.

(** The crate: [encode], [decode] and [supports]. Encoding [k] equal, even,
    non-empty shards gives [m] shards of that length; decoding any [k] or more
    entries of such a codeword returns exactly the missing originals. *)
Class ReedSolomon := {
  rs_error : Set;
  rs_supports : Z -> Z -> bool;
  rs_encode : Z -> Z -> list (list Z) -> result rs_error (list (list Z));
  rs_decode : Z -> Z -> list (Z * list Z) -> list (Z * list Z)
              -> result rs_error (list (Z * list Z));
  rs_encode_ok k m data n :
    rs_supports k m = true -> len data = k -> uniform_even n data ->
    exists parity, rs_encode k m data = Ok parity /\ len parity = m
                   /\ Forall (fun s => len s = n) parity;
  rs_decode_ok k m data n parity (o r : list (option (list Z))) :
    rs_supports k m = true -> len data = k -> uniform_even n data ->
    rs_encode k m data = Ok parity ->
    (* [o] and [r] are the codeword with some entries erased *)
    Forall2 (fun e d => e = None \/ e = Some d) o data ->
    Forall2 (fun e d => e = None \/ e = Some d) r parity ->
    k <= len (present_entries o) + len (present_entries r) ->
    exists restored,
      rs_decode k m (present_entries o) (present_entries r) = Ok restored
      /\ forall i d, (i, d) ∈ restored <->
           exists j : nat, i = Z.of_nat j /\ data !! j = Some d /\ o !! j = Some None
}.

Inductive EcError {RS : ReedSolomon} : Set :=
| InvalidCodeMode (data parity : Z)
| ShardCount (expected got : Z)
| ShardLen (l : Z)
| InconsistentShardLen
| TooFewShards (have need : Z)
| Backend (e : rs_error).

Definition MAX_SHARDS : Z := 32768.

Record Erasure : Set := { ec_data : Z; ec_parity : Z }.

Section Coder.
Context `{RS : ReedSolomon}.

Definition Erasure_new (data parity : Z) : result EcError Erasure :=
  if (data =? 0) || (parity =? 0) || (MAX_SHARDS <? data) || (MAX_SHARDS <? parity)
  then Err (InvalidCodeMode data parity)
  else Ok {| ec_data := data; ec_parity := parity |}.

Definition total_shards (e : Erasure) : Z := ec_data e + ec_parity e.

Definition check_uniform_len (e : Erasure) (shards : list (list Z)) : result EcError Z :=
  match shards with
  | [] => Err (TooFewShards 0 (ec_data e))
  | first :: rest =>
      let l := len first in
      if (l =? 0) || negb (l mod 2 =? 0) then Err (ShardLen l)
      else if existsb (fun s => negb (len s =? l)) rest then Err InconsistentShardLen
      else Ok l
  end.

Definition encode (e : Erasure) (data : list (list Z)) : result EcError (list (list Z)) :=
  if negb (len data =? ec_data e) then Err (ShardCount (ec_data e) (len data))
  else
    _ <-? check_uniform_len e data ;;
    match rs_encode (ec_data e) (ec_parity e) data with
    | Ok parity => Ok parity
    | Err err => Err (Backend err)
    end.

(** [shards[idx] = Some(shard)] for every restored entry. *)
Definition store_restored (shards : list (option (list Z))) (restored : list (Z * list Z))
    : list (option (list Z)) :=
  foldl (fun acc p => <[Z.to_nat p.1 := Some p.2]> acc) shards restored.

(** In-place reconstruction: the updated slots, or the error with the slots
    left as they were. *)
Definition reconstruct (e : Erasure) (shards : list (option (list Z)))
    : result EcError (list (option (list Z))) :=
  if negb (len shards =? total_shards e) then Err (ShardCount (total_shards e) (len shards))
  else
    let present := len (filter is_Some shards) in
    if present <? ec_data e then Err (TooFewShards present (ec_data e))
    else
      let k := Z.to_nat (ec_data e) in
      if forallb (fun s => bool_decide (is_Some s)) (take k shards) then Ok shards
      else
        _ <-? check_uniform_len e (omap id shards) ;;
        match rs_decode (ec_data e) (ec_parity e)
                (present_entries (take k shards)) (present_entries (drop k shards)) with
        | Ok restored => Ok (store_restored shards restored)
        | Err err => Err (Backend err)
        end.

(** *** Lemmas *)

Lemma present_entries_elem {A} (l : list (option A)) i d :
  (i, d) ∈ present_entries l <-> exists j : nat, i = Z.of_nat j /\ l !! j = Some (Some d).
Proof.
  unfold present_entries. rewrite list_elem_of_omap. split.
  - intros ([i' o] & Hin & Ho). apply elem_of_lookup_imap in Hin as (j & o' & [= -> ->] & Hj).
    simpl in Ho. destruct o' as [d'|]; simplify_eq/=. eauto.
  - intros (j & -> & Hj). exists (Z.of_nat j, Some d). split; [|done].
    apply elem_of_lookup_imap. eauto.
Qed.

Lemma present_entries_len {A} (l : list (option A)) :
  len (present_entries l) = len (filter is_Some l).
Proof.
  unfold present_entries.
  assert (forall f : nat -> Z, length (omap (fun p : Z * option A => pair p.1 <$> p.2)
            (imap (fun i o => (f i, o)) l)) = length (filter is_Some l)) as H.
  { induction l as [|[a|] l IH]; intros f; [done|..].
    - rewrite filter_cons_True by done. simpl. f_equal. apply (IH (f ∘ S)).
    - rewrite filter_cons_False by by apply is_Some_None. simpl. apply (IH (f ∘ S)). }
  unfold len. by rewrite H.
Qed.

Lemma check_uniform_len_ok e n shards : shards <> [] -> uniform_even n shards ->
  check_uniform_len e shards = Ok n.
Proof.
  intros Hne (Hn & Heven & Hf). destruct shards as [|s shards]; [done|].
  apply Forall_cons in Hf as [Hs Hf]. simpl. rewrite Hs, Heven.
  destruct (Z.eqb_spec n 0); [lia|]. simpl.
  destruct (existsb _ shards) eqn:E; [|done].
  apply existsb_exists in E as (x & Hx & E). apply list_elem_of_In in Hx.
  rewrite Forall_forall in Hf. rewrite (Hf x Hx), Z.eqb_refl in E. done.
Qed.

Lemma check_uniform_len_inv e shards n :
  check_uniform_len e shards = Ok n -> 0 <= n -> uniform_even n shards.
Proof.
  destruct shards as [|s shards]; [done|]. simpl. intros H Hn.
  destruct (Z.eqb_spec (len s) 0); [done|]. destruct (Z.eqb_spec (len s mod 2) 0); [|done].
  simpl in H. destruct (existsb _ shards) eqn:E; [done|]. injection H as <-.
  split_and!; [pose proof (len_nonneg s); lia|done|]. constructor; [done|].
  apply Forall_forall. intros x Hx. apply dec_stable. intros Hne.
  assert (existsb (fun s0 => negb (len s0 =? len s)) shards = true); [|congruence].
  apply existsb_exists. exists x. split; [by apply list_elem_of_In|].
  by destruct (Z.eqb_spec (len x) (len s)).
Qed.

Lemma encode_Ok e data parity : encode e data = Ok parity ->
  len data = ec_data e /\ rs_encode (ec_data e) (ec_parity e) data = Ok parity
  /\ exists n, uniform_even n data.
Proof.
  unfold encode. destruct (Z.eqb_spec (len data) (ec_data e)); [|done]. simpl.
  destruct (check_uniform_len e data) as [n|] eqn:E; [|done].
  destruct (rs_encode _ _ data) eqn:Er; [|done]. intros [= <-].
  split_and!; try done. exists n. eapply check_uniform_len_inv; [done|].
  destruct data as [|s ?]; [done|]. simpl in E. destruct ((len s =? 0) || _); [done|].
  destruct (existsb _ _); [done|]. injection E as <-. apply len_nonneg.
Qed.

Lemma store_restored_length shards restored :
  length (store_restored shards restored) = length shards.
Proof.
  unfold store_restored. revert shards.
  induction restored as [|p restored IH]; intros shards; simpl; [done|].
  by rewrite IH, length_insert.
Qed.

Lemma store_restored_snoc shards l i d :
  store_restored shards (l ++ [(i, d)]) = <[Z.to_nat i := Some d]> (store_restored shards l).
Proof. unfold store_restored. by rewrite foldl_app. Qed.

Lemma store_restored_other shards restored (j : nat) :
  (forall i d, (i, d) ∈ restored -> Z.to_nat i <> j) ->
  store_restored shards restored !! j = shards !! j.
Proof.
  induction restored as [|[i d] l IH] using rev_ind; intros Hj; [done|].
  rewrite store_restored_snoc, list_lookup_insert_ne.
  - apply IH. intros i' d' ?. apply (Hj i' d'). set_solver.
  - apply (Hj i d). set_solver.
Qed.

Lemma store_restored_at shards restored (j : nat) d :
  (Z.of_nat j, d) ∈ restored -> (j < length shards)%nat ->
  (forall i d', (i, d') ∈ restored -> Z.to_nat i = j -> d' = d) ->
  store_restored shards restored !! j = Some (Some d).
Proof.
  induction restored as [|[i x] l IH] using rev_ind; intros Hin Hj Hun.
  { by apply not_elem_of_nil in Hin. }
  rewrite store_restored_snoc. destruct (decide (Z.to_nat i = j)) as [Hij|Hne].
  - rewrite (Hun i x) by (done || set_solver).
    rewrite Hij. apply list_lookup_insert_eq. by rewrite store_restored_length.
  - rewrite list_lookup_insert_ne by done. apply IH; [|done|].
    + apply elem_of_app in Hin as [?|Hin]; [done|].
      apply list_elem_of_singleton in Hin as [= <- <-]. by rewrite Nat2Z.id in Hne.
    + intros i' d' ?. apply Hun. set_solver.
Qed.

(** The codeword with some slots erased. *)
Definition erased (shards : list (option (list Z))) (codeword : list (list Z)) : Prop :=
  Forall2 (fun e d => e = None \/ e = Some d) shards codeword.

Lemma erased_omap_uniform n shards codeword :
  Forall (fun s => len s = n) codeword -> erased shards codeword ->
  Forall (fun s => len s = n) (omap id shards).
Proof.
  intros Hf Hs. induction Hs as [|e d es ds [->| ->] _ IH]; simpl; [constructor|..];
    apply Forall_cons in Hf as [? Hf]; auto.
Qed.

Lemma omap_id_nil_filter (l : list (option (list Z))) : omap id l = [] -> filter is_Some l = [].
Proof. induction l as [|[?|] l IH]; simpl; done. Qed.

Lemma erased_all_present o data :
  forallb (fun s => bool_decide (is_Some s)) o = true -> erased o data -> o = Some <$> data.
Proof.
  intros Hall Ho. induction Ho as [|x d o data [->| ->] _ IH]; simpl in *; [done|done|].
  f_equal. by apply IH.
Qed.

(** Writing the restored originals completes the data slots only. *)
Lemma store_restored_codeword o r data restored :
  erased o data ->
  (forall i d, (i, d) ∈ restored <->
     exists j : nat, i = Z.of_nat j /\ data !! j = Some d /\ o !! j = Some None) ->
  take (length data) (store_restored (o ++ r) restored) = Some <$> data
  /\ drop (length data) (store_restored (o ++ r) restored) = r.
Proof.
  intros Ho Hres. assert (length o = length data) as Hol by by apply Forall2_length in Ho.
  split; apply list_eq; intros j.
  - rewrite list_lookup_fmap. destruct (decide (j < length data)%nat) as [Hj|Hj].
    2:{ rewrite lookup_take_ge, lookup_ge_None_2 by lia. done. }
    rewrite lookup_take_lt by done.
    destruct (lookup_lt_is_Some_2 data j Hj) as [d Hd]. rewrite Hd. simpl.
    destruct (Forall2_lookup_r _ _ _ _ _ Ho Hd) as (x & Hx & [->| ->]).
    + apply store_restored_at; [apply Hres; eauto|rewrite length_app; lia|].
      intros i d' (j' & -> & Hd' & _)%Hres Hij.
      rewrite Nat2Z.id in Hij. subst j'. congruence.
    + rewrite store_restored_other; [by rewrite lookup_app_l by lia|].
      intros i d' (j' & -> & _ & Hn)%Hres Hij. rewrite Nat2Z.id in Hij. subst j'. congruence.
  - rewrite lookup_drop, store_restored_other; [rewrite lookup_app_r by lia; f_equal; lia|].
    intros i d' (j' & -> & Hd' & _)%Hres Hij.
    apply lookup_lt_Some in Hd'. rewrite Nat2Z.id in Hij. lia.
Qed.

(** The two branches of a reconstruction. *)
Lemma encode_shape e data parity : rs_supports (ec_data e) (ec_parity e) = true -> encode e data = Ok parity ->
  len data = ec_data e /\ len parity = ec_parity e
  /\ exists n, uniform_even n data /\ Forall (fun s => len s = n) parity.
Proof.
  intros Hsup Henc. destruct (encode_Ok _ _ _ Henc) as (Hlen & Hrs & n & Hun).
  destruct (rs_encode_ok _ _ _ _ Hsup Hlen Hun) as (p' & Hp' & Hpl & Hpf).
  assert (p' = parity) as -> by congruence. eauto.
Qed.
Lemma reconstruct_few e shards : len shards = total_shards e -> len (filter is_Some shards) < ec_data e ->
  reconstruct e shards = Err (TooFewShards (len (filter is_Some shards)) (ec_data e)).
Proof.
  intros Hl Hlt. unfold reconstruct. rewrite Hl, Z.eqb_refl. cbn [negb]. by destruct (Z.ltb_spec (len (filter is_Some shards)) (ec_data e)); [|lia].
Qed.
Lemma reconstruct_enough e data parity o r :
  rs_supports (ec_data e) (ec_parity e) = true -> 0 < ec_data e -> encode e data = Ok parity ->
  erased o data -> erased r parity -> ec_data e <= len (filter is_Some (o ++ r)) ->
  exists shards', reconstruct e (o ++ r) = Ok shards'
    /\ take (length data) shards' = Some <$> data /\ drop (length data) shards' = r.
Proof.
  intros Hsup Hk Henc Ho Hr Hge. destruct (encode_shape _ _ _ Hsup Henc) as (Hlen & Hpl & n & Hun & Hpf).
  destruct (encode_Ok _ _ _ Henc) as (_ & Hrs & _).
  assert (length o = length data) as Hol by by apply Forall2_length in Ho.
  assert (length r = length parity) as Hrl by by apply Forall2_length in Hr.
  unfold reconstruct, total_shards. rewrite len_app. replace (len o + len r) with (ec_data e + ec_parity e)
    by (unfold len in *; lia). rewrite Z.eqb_refl. cbn [negb].
  destruct (Z.ltb_spec (len (filter is_Some (o ++ r))) (ec_data e)); [lia|].
  replace (Z.to_nat (ec_data e)) with (length data) by (unfold len in Hlen; lia).
  rewrite take_app_length', drop_app_length' by done. destruct (forallb _ o) eqn:Hall.
  { exists (o ++ r). rewrite take_app_length', drop_app_length' by done.
    by rewrite (erased_all_present o data Hall Ho). }
  rewrite (check_uniform_len_ok e n).
  - destruct (rs_decode_ok _ _ _ _ _ o r Hsup Hlen Hun Hrs Ho Hr) as (restored & -> & Hres).
    { rewrite !present_entries_len. by rewrite filter_app, len_app in Hge. }
    exists (store_restored (o ++ r) restored). split; [done|]. by apply store_restored_codeword.
  - intros Hnil%omap_id_nil_filter. rewrite Hnil in Hge. unfold len in Hge. simpl in Hge. lia.
  - destruct Hun as (? & ? & Hun). split_and!; try done.
    eapply (erased_omap_uniform n _ (data ++ parity)); [by apply Forall_app|by apply Forall2_app].
Qed.

(** Reed-Solomon repair restores the stripe: whenever [encode] succeeded on
    [data], from any erasure pattern of the codeword that keeps at least [data]
    of the shards [reconstruct] succeeds, every data slot then holds the
    original shard and the parity slots are untouched; with fewer present shards
    it fails with [TooFewShards] carrying the counts. *)
Theorem reconstruct_restores : forall e data parity shards,
  rs_supports (ec_data e) (ec_parity e) = true -> 0 < ec_data e ->
  encode e data = Ok parity -> erased shards (data ++ parity) ->
  let present := len (filter is_Some shards) in
  if present <? ec_data e
  then reconstruct e shards = Err (TooFewShards present (ec_data e))
  else exists shards', reconstruct e shards = Ok shards'
       /\ take (length data) shards' = Some <$> data
       /\ drop (length data) shards' = drop (length data) shards.
Proof.
  intros e data parity shards Hsup Hk Henc Her present.
  destruct (encode_shape _ _ _ Hsup Henc) as (Hlen & Hpl & _).
  assert (len shards = total_shards e) as Hsl.
  { apply Forall2_length in Her. rewrite length_app in Her. unfold total_shards, len in *. lia. }
  destruct (Z.ltb_spec present (ec_data e)); [by apply reconstruct_few|].
  apply Forall2_app_inv_r in Her as (o & r & Ho & Hr & ->).
  destruct (reconstruct_enough e data parity o r) as (shards' & E & Ht & Hd); try done.
  exists shards'. split_and!; try done. rewrite Hd, drop_app_length' by (by apply Forall2_length in Ho). done.
Qed.
End Coder.

(** *** Three-way replication ([data = 1]) as an instance of the contract *)

Definition rep_encode (k m : Z) (data : list (list Z)) : result unit (list (list Z)) :=
  match data with [d] => Ok (replicate (Z.to_nat m) d) | _ => Err tt end.
Definition rep_decode (k m : Z) (o r : list (Z * list Z)) : result unit (list (Z * list Z)) :=
  match o, r with
  | _ :: _, _ => Ok []
  | [], (_, d) :: _ => Ok [(0, d)]
  | [], [] => Err tt
  end.

#[global] Program Instance replication : ReedSolomon := {|
  rs_error := unit;
  rs_supports k m := (k =? 1) && (0 <=? m);
  rs_encode := rep_encode;
  rs_decode := rep_decode
|}.
Next Obligation.
  intros k m data n Hs Hl (_ & _ & Hf). apply andb_true_iff in Hs as [->%Z.eqb_eq Hm%Z.leb_le].
  destruct data as [|d [|]]; [done| |exfalso; unfold len in Hl; simpl in Hl; lia].
  simpl. eexists. split_and!; [done|unfold len; rewrite length_replicate; lia|].
  apply Forall_cons in Hf as [Hf _]. by apply Forall_replicate.
Qed.
Next Obligation.
  intros k m data n parity o r Hs Hl _ Henc Ho Hr Hc.
  apply andb_true_iff in Hs as [->%Z.eqb_eq Hm%Z.leb_le].
  destruct data as [|d [|]]; [done| |exfalso; unfold len in Hl; simpl in Hl; lia].
  simpl in Henc. injection Henc as <-.
  apply Forall2_cons_inv_r in Ho as (x & o' & Hx & ->%Forall2_nil_inv_r & ->).
  destruct Hx as [->| ->].
  - destruct (present_entries r) as [|[i e] r'] eqn:Er; [done|]. exists [(0, e)]. split; [done|].
    assert ((i, e) ∈ present_entries r) as Hin by (rewrite Er; by left).
    apply present_entries_elem in Hin as (j & -> & Hj).
    destruct (Forall2_lookup_l _ _ _ _ _ Hr Hj) as (d' & Hd' & [|[= ->]]); [done|].
    apply lookup_replicate in Hd' as [-> _].
    intros i' e'. rewrite list_elem_of_singleton. split.
    + intros [= -> ->]. by exists 0%nat.
    + intros ([|j'] & -> & Hd & Ho); [by injection Hd as ->|done].
  - exists []. split; [done|]. intros i e. split; [by intros ?%not_elem_of_nil|].
    intros ([|j'] & -> & Hd & Ho); done.
Qed.

Lemma reconstruct_restores_witness :
  exists shards', reconstruct {| ec_data := 1; ec_parity := 2 |}
      [None; None; Some [1;2;3;4]] = Ok shards'
    /\ take 1 shards' = [Some [1;2;3;4]].
Proof.
  destruct (reconstruct_restores {| ec_data := 1; ec_parity := 2 |} [[1;2;3;4]]
              [[1;2;3;4];[1;2;3;4]] [None; None; Some [1;2;3;4]]) as (s & H1 & H2 & _).
  - reflexivity.
  - simpl. lia.
  - reflexivity.
  - constructor; [by left|constructor; [by left|constructor; [by right|constructor]]].
  - exists s. by split.
Defined.

(** ** Contiguous shard buffers (buffer.rs) *)

Record ShardBuffers : Set := { backing : list Z; shard_len : Z; buf_count : Z }.

Definition ShardBuffers_new (count shard_len : Z) : ShardBuffers :=
  {| backing := zeros (count * shard_len); shard_len := shard_len; buf_count := count |}.
Definition ShardBuffers_shard (b : ShardBuffers) (i : Z) : list Z :=
  let start := i * shard_len b in slice start (shard_len b) (backing b).
(** [shard_mut(i).copy_from_slice(data)] *)
Definition ShardBuffers_write (b : ShardBuffers) (i : Z) (data : list Z) : ShardBuffers :=
  {| backing := copy_at (i * shard_len b) data (backing b);
     shard_len := shard_len b; buf_count := buf_count b |}.
Definition ShardBuffers_clear (b : ShardBuffers) : ShardBuffers :=
  {| backing := zeros (len (backing b)); shard_len := shard_len b; buf_count := buf_count b |}.

(** A slot reads back what was written to it and the other slots are disjoint. *)
Lemma ShardBuffers_write_read b i j data :
  len (backing b) = buf_count b * shard_len b -> 0 < shard_len b ->
  0 <= i < buf_count b -> 0 <= j < buf_count b -> len data = shard_len b ->
  ShardBuffers_shard (ShardBuffers_write b i data) j
    = if decide (i = j) then data else ShardBuffers_shard b j.
Proof.
  intros Hlen Hpos Hi Hj Hd. unfold ShardBuffers_shard, ShardBuffers_write. simpl.
  unfold copy_at.
  assert (len (take (Z.to_nat (i * shard_len b)) (backing b)) = i * shard_len b) as Htk.
  { unfold len in *. rewrite length_take. nia. }
  assert (0 <= shard_len b * (buf_count b - i)) by nia.
  case_decide as E.
  - subst j. rewrite slice_app_r by lia. rewrite Htk, Z.sub_diag. by apply slice_app_eq.
  - destruct (Z.lt_ge_cases j i).
    + rewrite slice_app_l by nia. unfold slice.
      rewrite skipn_firstn_comm, take_take. f_equal. nia.
    + rewrite slice_app_r by nia. rewrite slice_app_r by nia.
      unfold slice. rewrite drop_drop. do 2 f_equal. nia.
Qed.
