(* ===== verification/EcPipeline.v ===== *)
(** Erasure-coded blobs: the code of a gateway and its encode and decode pipeline
    (epoch-gateway: code.rs, pipeline.rs, error.rs), and the rebuild of one shard
    body from the others (epoch-worker: repair/rebuild.rs, subtask/mod.rs). *)

From S2P Require Import Prelude Ids EcLayout Bitrot Erasure.

(** [slice.get(a..b)] *)
Definition get_range {A} (a b : Z) (l : list A) : option (list A) :=
  if (a <=? b) && (b <=? len l) then Some (slice a (b - a) l) else None.

Section Pipeline.
Context `{RS : ReedSolomon} `{B3 : Blake3}.

(** [GatewayError]; the messages carry no structure. [GE_Panic] stands for a panic. *)
Inductive GatewayError : Set :=
| GE_Ec (e : EcError)
| GE_InvalidSizing (stripe_size blob_size : Z)
| GE_ShardCount (need got : Z)
| GE_QuorumNotMet (need got : Z)
| GE_NoWritableChunk
| GE_Writer (reason : string)
| GE_Pd (reason : string)
| GE_Meta (reason : string)
| GE_DirFileConflict
| GE_AdmissionTooLarge (bytes pool_bytes : Z)
| GE_OutOfSpace
| GE_RangeNotSatisfiable (size : Z)
| GE_LengthMismatch (expected got : Z)
| GE_Panic.

Definition ec_err {A} (r : result EcError A) : result GatewayError A :=
  match r with Ok a => Ok a | Err e => Err (GE_Ec e) end.

(** ** The code mode of a gateway (code.rs) *)

Record GwCodeMode : Set := { gm_data : Z; gm_parity : Z; gm_stripe_size : Z; gm_blob_size : Z }.
Definition GwCodeMode_new (data parity stripe_size blob_size : Z) : result GatewayError GwCodeMode :=
  _ <-? ec_err (Erasure_new data parity) ;;
  if (stripe_size =? 0) || (blob_size <? stripe_size) then Err (GE_InvalidSizing stripe_size blob_size)
  else Ok {| gm_data := data; gm_parity := parity; gm_stripe_size := stripe_size; gm_blob_size := blob_size |}.
Definition gm_total (m : GwCodeMode) : Z := gm_data m + gm_parity m.
Definition gm_erasure (m : GwCodeMode) : result GatewayError Erasure := ec_err (Erasure_new (gm_data m) (gm_parity m)).
Definition write_quorum (m : GwCodeMode) : Z :=
  let tolerate := Z.max (gm_parity m / 2) 1 in
  gm_total m - tolerate.

(** ** Encoding (pipeline.rs) *)

Definition stripe_frame_lens (blob_len stripe_size data_shards : Z) : list Z :=
  let stripes := stripe_count blob_len stripe_size in
  if stripes =? 0 then []
  else
    let unit_full := unit_size stripe_size data_shards in
    (fun s => HASH_LEN + (if s =? stripes - 1 then unit_size (last_stripe_len blob_len stripe_size) data_shards else unit_full))
      <$> seqZ 0 stripes.

(** The stripe's bytes from [i * unit] on, zero-padded to a unit. *)
Definition data_unit (stripe : list Z) (unit i : Z) : list Z :=
  let u := zeros unit in
  let ds := i * unit in
  if ds <? len stripe then
    let de := Z.min (ds + unit) (len stripe) in
    copy_at 0 (slice ds (de - ds) stripe) u
  else u.
(** [write_frame(u, &mut bodies[first + i])] for every unit. *)
Fixpoint write_units (bodies : list (list Z)) (first : nat) (units : list (list Z)) : list (list Z) :=
  match units with
  | [] => bodies
  | u :: units => write_units (alter (write_frame u) first bodies) (S first) units
  end.
Definition encode_stripe (ec : Erasure) (stripe_size : Z) (blob : list Z) (bodies : list (list Z)) (s : Z)
    : result GatewayError (list (list Z)) :=
  let n := ec_data ec in
  let start := s * stripe_size in
  let end_ := Z.min (start + stripe_size) (len blob) in
  let stripe := slice start (end_ - start) blob in
  let unit := unit_size (len stripe) n in
  let data_units := data_unit stripe unit <$> seqZ 0 n in
  parity <-? ec_err (encode ec data_units) ;;
  Ok (write_units (write_units bodies 0 data_units) (Z.to_nat n) parity).
Fixpoint encode_stripes (ec : Erasure) (stripe_size : Z) (blob : list Z) (bodies : list (list Z)) (ss : list Z)
    : result GatewayError (list (list Z)) :=
  match ss with
  | [] => Ok bodies
  | s :: ss => bodies <-? encode_stripe ec stripe_size blob bodies s ;; encode_stripes ec stripe_size blob bodies ss
  end.
Definition encode_blob (ec : Erasure) (stripe_size : Z) (blob : list Z) : result GatewayError (list (list Z)) :=
  encode_stripes ec stripe_size blob (replicate (Z.to_nat (total_shards ec)) [])
    (seqZ 0 (stripe_count (len blob) stripe_size)).

(** ** Decoding (pipeline.rs) *)

Record DecodedBlob : Set := { db_bytes : list Z; db_healed : list Z }.

(** The unit of one shard, if its frame is there and verifies. *)
Definition read_unit (frame_off frame_len : Z) (body : option (list Z)) : option (list Z) :=
  b ← body; f ← get_range frame_off (frame_off + frame_len) b; res_ok (verify_frame f).
(** [u.as_deref().expect(..)] *)
Definition unit_or_panic (u : option (list Z)) : list Z := default [] u.
Definition decode_stripe (ec : Erasure) (stripe_size blob_len : Z) (bodies : list (option (list Z)))
    (acc : list Z * list bool) (s : Z) : result GatewayError (list Z * list bool) :=
  let '(out, bad) := acc in
  let n := ec_data ec in
  let is_last := s =? stripe_count blob_len stripe_size - 1 in
  let unit_full := unit_size stripe_size n in
  let this_len := if is_last then last_stripe_len blob_len stripe_size else stripe_size in
  let unit := if is_last then unit_size this_len n else unit_full in
  let frame_off := frame_offset s unit_full in
  let frame_len := HASH_LEN + unit in
  let units := read_unit frame_off frame_len <$> bodies in
  let bad := zip_with (fun b u => b || negb (bool_decide (is_Some u))) bad units in
  units <-? ec_err (reconstruct ec units) ;;
  let stripe_data := mjoin (unit_or_panic <$> take (Z.to_nat n) units) in
  Ok (out ++ take (Z.to_nat this_len) stripe_data, bad).
Fixpoint decode_stripes (ec : Erasure) (stripe_size blob_len : Z) (bodies : list (option (list Z)))
    (acc : list Z * list bool) (ss : list Z) : result GatewayError (list Z * list bool) :=
  match ss with
  | [] => Ok acc
  | s :: ss => acc <-? decode_stripe ec stripe_size blob_len bodies acc s ;; decode_stripes ec stripe_size blob_len bodies acc ss
  end.
Definition decode_blob (ec : Erasure) (stripe_size blob_len : Z) (bodies : list (option (list Z))) : result GatewayError DecodedBlob :=
  if negb (len bodies =? total_shards ec) then Err (GE_ShardCount (total_shards ec) (len bodies))
  else if blob_len =? 0 then Ok {| db_bytes := []; db_healed := [] |}
  else
    r <-? decode_stripes ec stripe_size blob_len bodies ([], replicate (Z.to_nat (total_shards ec)) false)
            (seqZ 0 (stripe_count blob_len stripe_size)) ;;
    let '(out, bad) := r in
    if negb (len out =? blob_len) then Err (GE_LengthMismatch blob_len (len out))
    else Ok {| db_bytes := out; db_healed := filter (fun j => nth (Z.to_nat j) bad false = true) (seqZ 0 (total_shards ec)) |}.

(** ** Rebuilding one shard body (rebuild.rs) *)

Inductive SubtaskError : Set := NotReady (reason : string) | Failed (reason : string).

(** [while remaining > full_frame]; a full frame is positive, so the body's length
    is fuel enough. *)
Fixpoint phys_frames (fuel : nat) (full_frame remaining : Z) : list Z * Z :=
  match fuel with
  | O => ([], remaining)
  | S fuel =>
      if full_frame <? remaining
      then let '(lens, rest) := phys_frames fuel full_frame (remaining - full_frame) in (full_frame :: lens, rest)
      else ([], remaining)
  end.
Definition stripe_frame_lens_from_phys (phys stripe_size data : Z) : result SubtaskError (list Z) :=
  let unit_full := unit_size stripe_size data in
  let full_frame := HASH_LEN + unit_full in
  let '(lens, remaining) := phys_frames (Z.to_nat phys) full_frame phys in
  let bad := Err (Failed "shard body length is not a valid framing") in
  if remaining <=? HASH_LEN then bad
  else
    let last_unit := remaining - HASH_LEN in
    if (last_unit =? 0) || (unit_full <? last_unit) || negb (last_unit mod SHARD_ALIGN =? 0) then bad
    else Ok (lens ++ [remaining]).

Definition rebuild_stripe_unit (ec : Erasure) (target : nat) (units : list (option (list Z))) : result SubtaskError (list Z) :=
  let n := ec_data ec in
  if len (filter is_Some units) <? n then Err (NotReady "stripe has too few clean shards")
  else
    match reconstruct ec units with
    | Err _ => Err (Failed "reconstruct")
    | Ok units =>
        if Z.of_nat target <? n then
          match units !! target with
          | Some (Some u) => Ok u
          | _ => Err (Failed "data unit missing after reconstruct")
          end
        else
          match mapM id (take (Z.to_nat n) units) with
          | None => Err (Failed "data unit missing after reconstruct")
          | Some data_units =>
              match encode ec data_units with
              | Err _ => Err (Failed "re-encode parity")
              | Ok parity => ok_or (parity !! (target - Z.to_nat n)%nat) (Failed "parity index out of range after encode")
              end
          end
    end.
(** The survivors' units of one stripe; the target's own slot is never read. *)
Definition survivor_units (target : nat) (frame_off frame_len : Z) (bodies : list (option (list Z))) : list (option (list Z)) :=
  imap (fun j body => if decide (j = target) then None else read_unit frame_off frame_len body) bodies.
Fixpoint rebuild_frames (ec : Erasure) (target : nat) (bodies : list (option (list Z))) (frame_off : Z) (frame_lens : list Z)
    (out : list Z) : result SubtaskError (list Z) :=
  match frame_lens with
  | [] => Ok out
  | frame_len :: frame_lens =>
      u <-? rebuild_stripe_unit ec target (survivor_units target frame_off frame_len bodies) ;;
      rebuild_frames ec target bodies (frame_off + frame_len) frame_lens (write_frame u out)
  end.
Definition rebuild_shard_body (ec : Erasure) (stripe_size : Z) (target : nat) (bodies : list (option (list Z)))
    : result SubtaskError (list Z) :=
  if negb (len bodies =? total_shards ec) then Err (Failed "shard count")
  else if total_shards ec <=? Z.of_nat target then Err (Failed "target index out of range")
  else
    match head (omap id (imap (fun j body => if decide (j = target) then None else len <$> body) bodies)) with
    | None => Err (NotReady "no surviving shard body to size framing")
    | Some phys =>
        if phys =? 0 then Ok []
        else
          frame_lens <-? stripe_frame_lens_from_phys phys stripe_size (ec_data ec) ;;
          rebuild_frames ec target bodies 0 frame_lens []
    end.
End Pipeline.

(** ** Proofs

    The erasure-coded pipeline: what a blob's shard bodies hold, the round trip of
    [encode_blob] and [decode_blob] over damaged bodies, and the exactness of
    [rebuild_shard_body]. *)

(** ** Units and stripes *)

Lemma len_data_unit stripe unit i : 0 <= unit -> 0 <= i -> len (data_unit stripe unit i) = unit.
Proof.
  intros Hu Hi. unfold data_unit. destruct (Z.ltb_spec (i * unit) (len stripe)); [|by apply len_zeros].
  rewrite len_copy_at; [by apply len_zeros|lia|]. rewrite len_slice, len_zeros by nia. lia.
Qed.

(** A unit is its part of the zero-padded stripe. *)
Lemma data_unit_slice stripe unit i n : 0 <= unit -> 0 <= i < n -> len stripe <= n * unit ->
  data_unit stripe unit i = slice (i * unit) unit (stripe ++ zeros (n * unit - len stripe)).
Proof.
  intros Hu Hi Hn. unfold data_unit. pose proof (len_nonneg stripe). destruct (Z.ltb_spec (i * unit) (len stripe)).
  - unfold copy_at. change (Z.to_nat 0) with 0%nat. rewrite take_0, app_nil_l. rewrite len_slice by nia.
    destruct (Z.le_gt_cases (i * unit + unit) (len stripe)).
    + rewrite Z.min_l, slice_app_l by nia. replace (i * unit + unit - i * unit) with unit by lia.
      rewrite drop_ge, app_nil_r; [done|]. unfold zeros. rewrite length_replicate. lia.
    + rewrite Z.min_r by lia. set (p := stripe ++ zeros _).
      assert (slice (i * unit) unit p = slice (i * unit) (len stripe - i * unit) p
                ++ slice (i * unit + (len stripe - i * unit)) (unit - (len stripe - i * unit)) p) as ->
        by (rewrite <- slice_split by lia; f_equal; lia).
      unfold p. rewrite slice_app_l by lia. rewrite slice_app_r by lia.
      replace (i * unit + (len stripe - i * unit) - len stripe) with 0 by lia. f_equal.
      unfold slice, zeros. rewrite drop_replicate. change (Z.to_nat 0) with 0%nat. rewrite drop_0, take_replicate. f_equal. nia.
  - rewrite slice_app_r by lia. unfold slice, zeros. rewrite drop_replicate, take_replicate. f_equal. nia.
Qed.

Lemma join_slices {A} unit (l : list A) (k : nat) : 0 <= unit -> forall a, 0 <= a ->
  mjoin ((fun i => slice (i * unit) unit l) <$> seqZ a (Z.of_nat k)) = slice (a * unit) (Z.of_nat k * unit) l.
Proof.
  intros Hu. induction k as [|k IH]; intros a Ha; [done|].
  rewrite seqZ_cons by lia. rewrite fmap_cons. cbn [mjoin list_join].
  replace (Z.pred (Z.of_nat (S k))) with (Z.of_nat k) by lia. change (mret ?x ++ ?y) with (x ++ y).
  replace (Z.of_nat (S k) * unit) with (unit + Z.of_nat k * unit) by lia. rewrite slice_split by nia. f_equal.
  change (list_join ?x) with (mjoin x). rewrite IH by lia. f_equal. lia.
Qed.

(** The units of a stripe hold it, zero-padded. *)
Lemma data_units_join stripe unit n : 0 <= unit -> 0 <= n -> len stripe <= n * unit ->
  mjoin (data_unit stripe unit <$> seqZ 0 n) = stripe ++ zeros (n * unit - len stripe).
Proof.
  intros Hu Hn Hl. rewrite (list_fmap_ext _ (fun i => slice (i * unit) unit (stripe ++ zeros (n * unit - len stripe)))).
  - rewrite <- (Z2Nat.id n) at 1 by done. rewrite join_slices by lia. rewrite Z2Nat.id by done. apply slice_full.
    rewrite len_app, len_zeros by lia. lia.
  - intros i x Hx. apply lookup_seqZ in Hx as [-> Hx]. apply data_unit_slice; lia.
Qed.

Section Pipeline.
Context `{RS : ReedSolomon} `{B3 : Blake3}.
Context (ec : Erasure) (stripe_size : Z).
Hypothesis Hsup : rs_supports (ec_data ec) (ec_parity ec) = true.
Hypothesis Hdata : 0 < ec_data ec.
Hypothesis Hparity : 0 < ec_parity ec.
Hypothesis Hss : 0 < stripe_size.

Section Blob.
Context (blob : list Z).
Let count := stripe_count (len blob) stripe_size.
Let n := ec_data ec.

Definition unit_of (s : Z) : Z :=
  if s =? count - 1 then unit_size (last_stripe_len (len blob) stripe_size) n else unit_size stripe_size n.
Definition len_of (s : Z) : Z := if s =? count - 1 then last_stripe_len (len blob) stripe_size else stripe_size.
Definition stripe_at (s : Z) : list Z :=
  let start := s * stripe_size in slice start (Z.min (start + stripe_size) (len blob) - start) blob.

Lemma count_bounds s : 0 <= s < count -> 0 < len blob /\ (count - 1) * stripe_size < len blob <= count * stripe_size.
Proof.
  intros Hs. unfold count, stripe_count in *. destruct (Z.eq_dec (len blob) 0) as [E|E].
  { rewrite E, div_ceil_0 in Hs by done. lia. }
  pose proof (len_nonneg blob). pose proof (div_ceil_spec (len blob) stripe_size). nia.
Qed.
Lemma len_of_spec s : 0 <= s < count -> len (stripe_at s) = len_of s /\ 0 < len_of s <= stripe_size
  /\ unit_of s = unit_size (len_of s) n.
Proof.
  intros Hs. destruct (count_bounds s Hs) as (Hb & Hl & Hu). unfold stripe_at, len_of, unit_of.
  destruct (last_stripe_len_spec (len blob) stripe_size) as (E & Hr); [lia..|]. fold count in E.
  rewrite len_slice by nia. destruct (Z.eqb_spec s (count - 1)).
  - split_and!; [nia|lia..|done].
  - split_and!; [|lia..|done]. rewrite Z.min_l by nia. lia.
Qed.
Lemma unit_of_pos s : 0 <= s < count -> 0 < unit_of s /\ unit_of s mod SHARD_ALIGN = 0 /\ len_of s <= n * unit_of s.
Proof.
  intros Hs. destruct (len_of_spec s Hs) as (_ & Hl & ->). destruct (unit_size_spec (len_of s) n) as (? & ? & _); [lia..|].
  pose proof (unit_size_pos (len_of s) n). split_and!; [lia|done..].
Qed.

(** The codeword of stripe [s]. *)
Definition stripe_codeword (s : Z) (cw : list (list Z)) : Prop :=
  exists parity, let data := data_unit (stripe_at s) (unit_of s) <$> seqZ 0 n in
    encode ec data = Ok parity /\ cw = data ++ parity.

Lemma stripe_codeword_exists s : 0 <= s < count -> exists cw, stripe_codeword s cw.
Proof.
  intros Hs. destruct (unit_of_pos s Hs) as (Hu & Ha & _). unfold stripe_codeword. cbn zeta.
  set (data := data_unit (stripe_at s) (unit_of s) <$> seqZ 0 n).
  assert (len data = n) as Hl by (unfold len, data; rewrite length_fmap, length_seqZ; unfold n; lia).
  assert (uniform_even (unit_of s) data) as Hun.
  { split_and!; [lia|unfold SHARD_ALIGN in Ha; lia|]. apply Forall_fmap, Forall_forall. intros i Hi%elem_of_seqZ.
    apply len_data_unit; lia. }
  destruct (rs_encode_ok _ _ _ _ Hsup Hl Hun) as (parity & E & _). exists (data ++ parity), parity. split; [|done].
  unfold encode. rewrite Hl, Z.eqb_refl. cbn [negb]. rewrite (check_uniform_len_ok _ (unit_of s)); [by rewrite E| |done].
  intros ->. unfold n in Hl. rewrite len_nil in Hl. lia.
Qed.
Lemma stripe_codeword_shape s cw : 0 <= s < count -> stripe_codeword s cw ->
  len cw = total_shards ec /\ Forall (fun u => len u = unit_of s) cw
  /\ take (Z.to_nat (len_of s)) (mjoin (take (Z.to_nat n) cw)) = stripe_at s.
Proof.
  intros Hs (parity & E & ->). destruct (unit_of_pos s Hs) as (Hu & _ & Hfit). destruct (len_of_spec s Hs) as (Hlen & Hl & _).
  destruct (encode_shape _ _ _ Hsup E) as (Hd & Hp & k & (Hk & _ & Hkd) & Hkp).
  assert (Forall (fun u => len u = unit_of s) (data_unit (stripe_at s) (unit_of s) <$> seqZ 0 n)) as Hf.
  { apply Forall_fmap, Forall_forall. intros i Hi%elem_of_seqZ. apply len_data_unit; lia. }
  assert (k = unit_of s) as ->.
  { rewrite seqZ_cons in Hf, Hkd by (unfold n; lia). apply Forall_cons in Hf as [Hf _]. apply Forall_cons in Hkd as [Hkd _]. congruence. }
  split_and!.
  - rewrite len_app. unfold total_shards. lia.
  - by apply Forall_app.
  - rewrite take_app_length' by (rewrite length_fmap, length_seqZ; done). rewrite data_units_join by lia.
    rewrite take_app_length'; [done|]. unfold len in Hlen. lia.
Qed.

(** ** What the bodies hold *)

Lemma write_units_app (units bs pre post : list (list Z)) : length bs = length units ->
  write_units (pre ++ bs ++ post) (length pre) units = pre ++ zip_with write_frame units bs ++ post.
Proof.
  revert bs pre. induction units as [|u units IH]; intros [|b bs] pre Hl; try done. simpl in *.
  replace (alter _ _ _) with ((pre ++ [write_frame u b]) ++ bs ++ post).
  - replace (S (length pre)) with (length (pre ++ [write_frame u b])) by (rewrite length_app; simpl; lia).
    rewrite IH by lia. by rewrite <- app_assoc.
  - rewrite <- app_assoc. rewrite <- (Nat.add_0_r (length pre)). by rewrite alter_app_r.
Qed.
Lemma encode_stripe_ok s cw bodies : 0 <= s < count -> stripe_codeword s cw -> len bodies = total_shards ec ->
  encode_stripe ec stripe_size blob bodies s = Ok (zip_with write_frame cw bodies).
Proof.
  intros Hs Hcw Hb. destruct (len_of_spec s Hs) as (Hlen & _ & Hu). destruct (stripe_codeword_shape s cw Hs Hcw) as (Hcl & _).
  destruct Hcw as (parity & E & ->). unfold encode_stripe. fold (stripe_at s). rewrite Hlen. fold n. rewrite <- Hu.
  rewrite E. cbn [ec_err]. f_equal. set (data := data_unit _ _ <$> _) in *.
  assert (length data = Z.to_nat n) as Hdl by (unfold data; by rewrite length_fmap, length_seqZ).
  rewrite len_app in Hcl. unfold len in Hcl, Hb.
  rewrite <- (take_drop (length data) bodies) at 1.
  pose proof (write_units_app data (take (length data) bodies) [] (drop (length data) bodies)) as E1. simpl in E1.
  assert (length (take (length data) bodies) = length data) as Ht by (rewrite length_take; lia).
  rewrite E1 by done.
  pose proof (write_units_app parity (drop (length data) bodies) (zip_with write_frame data (take (length data) bodies)) []) as E2.
  rewrite !app_nil_r in E2. rewrite length_zip_with_l_eq in E2 by done. rewrite <- Hdl, E2 by (rewrite length_drop; lia).
  by rewrite <- zip_with_app, take_drop.
Qed.

Lemma encode_stripes_ok (k : nat) : forall a bodies, 0 <= a -> a + Z.of_nat k <= count -> len bodies = total_shards ec ->
  exists cws, Forall2 stripe_codeword (seqZ a (Z.of_nat k)) cws
    /\ encode_stripes ec stripe_size blob bodies (seqZ a (Z.of_nat k)) = Ok (foldl (fun bs cw => zip_with write_frame cw bs) bodies cws).
Proof.
  induction k as [|k IH]; intros a bodies Ha Hk Hb; [by exists []|].
  rewrite seqZ_cons by lia. replace (Z.pred (Z.of_nat (S k))) with (Z.of_nat k) by lia.
  destruct (stripe_codeword_exists a) as [cw Hcw]; [lia|]. cbn [encode_stripes].
  rewrite (encode_stripe_ok a cw) by (done || lia).
  destruct (stripe_codeword_shape a cw) as (Hcl & _); [lia|done|].
  destruct (IH (Z.succ a) (zip_with write_frame cw bodies)) as (cws & Hf & E); [lia..| |].
  { unfold len in *. rewrite length_zip_with. lia. }
  exists (cw :: cws). split; [by constructor|]. by rewrite E.
Qed.

(** Shard [j]'s units. *)
Definition col (cws : list (list (list Z))) (j : nat) : list (list Z) := (fun cw => nth j cw []) <$> cws.

Lemma fold_bodies cws bodies : Forall (fun cw => length cw = length bodies) cws ->
  foldl (fun bs cw => zip_with write_frame cw bs) bodies cws = imap (fun j b => b ++ framed (col cws j)) bodies.
Proof.
  revert bodies. induction cws as [|cw cws IH]; intros bodies Hf.
  - simpl. apply list_eq. intros i. rewrite list_lookup_imap. destruct (bodies !! i); simpl; [|done]. by rewrite app_nil_r.
  - apply Forall_cons in Hf as [Hl Hf]. cbn [foldl]. rewrite IH.
    2:{ rewrite length_zip_with_l_eq by done. by rewrite Hl. }
    apply list_eq. intros i. rewrite !list_lookup_imap, lookup_zip_with. destruct (cw !! i) as [u|] eqn:Eu.
    + destruct (bodies !! i); simpl; [|done]. f_equal. change (col (cw :: cws) i) with (nth i cw [] :: col cws i).
      rewrite (nth_lookup_Some _ _ _ _ Eu), framed_cons. unfold write_frame, frame. by rewrite <- !app_assoc.
    + apply lookup_ge_None in Eu. by rewrite (proj2 (lookup_ge_None bodies i)) by lia.
Qed.

Lemma encode_blob_shape : exists cws, Forall2 stripe_codeword (seqZ 0 count) cws
  /\ encode_blob ec stripe_size blob = Ok ((fun j => framed (col cws j)) <$> seq 0 (Z.to_nat (total_shards ec))).
Proof.
  assert (0 <= count) as Hc by (unfold count, stripe_count, div_ceil; pose proof (len_nonneg blob); apply Z.div_pos; lia).
  destruct (encode_stripes_ok (Z.to_nat count) 0 (replicate (Z.to_nat (total_shards ec)) [])) as (cws & Hf & E); [lia..| |].
  { unfold len. rewrite length_replicate. unfold total_shards. lia. }
  rewrite Z2Nat.id in Hf, E by done. exists cws. split; [done|]. unfold encode_blob. fold count. rewrite E. f_equal.
  rewrite fold_bodies.
  - apply list_eq. intros i. rewrite list_lookup_imap, list_lookup_fmap.
    destruct (decide (i < Z.to_nat (total_shards ec))%nat).
    + by rewrite lookup_replicate_2, lookup_seq_lt by done.
    + rewrite !lookup_ge_None_2 by (rewrite ?length_replicate, ?length_seq; lia). done.
  - rewrite length_replicate. apply Forall_lookup_2. intros i cw Hcw.
    destruct (Forall2_lookup_r _ _ _ _ _ Hf Hcw) as (s & [-> Hs]%lookup_seqZ & Hw).
    destruct (stripe_codeword_shape (0 + Z.of_nat i) cw) as (Hl & _); [lia|done|]. unfold len in Hl. lia.
Qed.

(** ** Reading frames *)

(** The unit of stripe [s] in a stored body: [None] when the frame is missing or
    fails its digest. *)
Definition read_at (s : Z) (st : option (list Z)) : option (list Z) :=
  read_unit (frame_offset s (unit_size stripe_size n)) (HASH_LEN + unit_of s) st.
(** Every frame of a stored body is unreadable or holds what was written there. *)
Definition authentic (bodies : list (list Z)) (stored : list (option (list Z))) : Prop :=
  Forall2 (fun b st => forall s, 0 <= s < count -> read_at s st = None \/ read_at s st = read_at s (Some b)) bodies stored.
(** The shards with a readable frame in stripe [s]. *)
Definition clean (stored : list (option (list Z))) (s : Z) : Z := len (filter is_Some (read_at s <$> stored)).

Lemma sumZ_const {A} (f : A -> Z) u ds : Forall (fun d => f d = u) ds -> sumZ (f <$> ds) = len ds * u.
Proof. induction 1 as [|d ds Hd _ IH]; [done|]. rewrite fmap_cons, sumZ_cons, IH, len_cons. lia. Qed.

Lemma read_unit_framed l1 d l2 : read_unit (len (framed l1)) (HASH_LEN + len d) (Some (framed (l1 ++ d :: l2))) = Some d.
Proof.
  rewrite framed_app, framed_cons. unfold read_unit, get_range. cbn [mbind option_bind].
  rewrite !len_app, len_frame. pose proof (len_nonneg (framed l2)). pose proof (len_nonneg d). unfold HASH_LEN in *.
  rewrite (proj2 (Z.leb_le _ _)) by lia. rewrite (proj2 (Z.leb_le _ _)) by lia. cbn [andb].
  replace (_ + (32 + len d) - _) with (HASH_LEN + len d) by (unfold HASH_LEN; lia). rewrite slice_frame. cbn [mbind option_bind].
  unfold verify_frame. rewrite len_frame. rewrite (proj2 (Z.ltb_ge _ _)) by lia. by rewrite frame_data_frame.
Qed.

Section Codewords.
Context (cws : list (list (list Z))).
Hypothesis Hcws : Forall2 stripe_codeword (seqZ 0 count) cws.

Lemma codeword_at i cw : cws !! i = Some cw -> Z.of_nat i < count /\ stripe_codeword (Z.of_nat i) cw.
Proof. intros H. destruct (Forall2_lookup_r _ _ _ _ _ Hcws H) as (s & [-> Hs]%lookup_seqZ & Hw). split; [lia|done]. Qed.
Lemma codeword_of s : 0 <= s < count -> exists cw, cws !! Z.to_nat s = Some cw /\ stripe_codeword s cw.
Proof.
  intros Hs. destruct (lookup_lt_is_Some_2 cws (Z.to_nat s)) as [cw Hcw].
  { rewrite <- (Forall2_length _ _ _ Hcws), length_seqZ. lia. }
  exists cw. split; [done|]. apply codeword_at in Hcw as [_ Hw]. by rewrite Z2Nat.id in Hw by lia.
Qed.
Lemma col_len i cw j u : cws !! i = Some cw -> cw !! j = Some u -> len u = unit_of (Z.of_nat i).
Proof.
  intros Hcw Hu. apply codeword_at in Hcw as [Hi Hw]. destruct (stripe_codeword_shape (Z.of_nat i) cw) as (_ & Hf & _); [lia|done|].
  by eapply Forall_lookup_1 in Hf.
Qed.
Lemma codeword_entry i cw j : cws !! i = Some cw -> (j < Z.to_nat (total_shards ec))%nat -> exists u, cw !! j = Some u.
Proof.
  intros Hcw Hj. apply codeword_at in Hcw as [Hi Hw]. destruct (stripe_codeword_shape (Z.of_nat i) cw) as (Hl & _); [lia|done|].
  apply lookup_lt_is_Some_2. unfold len in Hl. lia.
Qed.
Lemma col_prefix_len j (s : nat) : Z.of_nat s < count -> (j < Z.to_nat (total_shards ec))%nat ->
  len (framed (take s (col cws j))) = frame_offset (Z.of_nat s) (unit_size stripe_size n).
Proof.
  intros Hs Hj. rewrite len_framed, (sumZ_const len (unit_size stripe_size n)).
  - unfold frame_offset, len. rewrite length_take. unfold col. rewrite length_fmap, <- (Forall2_length _ _ _ Hcws), length_seqZ. nia.
  - apply Forall_lookup_2. intros i u Hu. apply lookup_take_Some in Hu as [Hu Hi].
    unfold col in Hu. apply list_lookup_fmap_Some in Hu as (cw & -> & Hcw). destruct (codeword_entry i cw j Hcw Hj) as [u Hu].
    rewrite (nth_lookup_Some _ _ _ _ Hu), (col_len i cw j u Hcw Hu). unfold unit_of. destruct (Z.eqb_spec (Z.of_nat i) (count - 1)); [lia|done].
Qed.
Lemma read_at_body (s : Z) cw j : 0 <= s < count -> cws !! Z.to_nat s = Some cw -> (j < Z.to_nat (total_shards ec))%nat ->
  read_at s (Some (framed (col cws j))) = cw !! j.
Proof.
  intros Hs Hcw Hj. destruct (codeword_entry _ _ j Hcw Hj) as [u Hu]. rewrite Hu. unfold read_at.
  pose proof (col_prefix_len j (Z.to_nat s) ltac:(lia) Hj) as Hp. rewrite Z2Nat.id in Hp by lia. rewrite <- Hp.
  pose proof (col_len _ _ _ _ Hcw Hu) as Hl. rewrite Z2Nat.id in Hl by lia. rewrite <- Hl.
  assert (col cws j !! Z.to_nat s = Some u) as Hc.
  { unfold col. rewrite list_lookup_fmap, Hcw. simpl. f_equal. by apply nth_lookup_Some. }
  rewrite <- (take_drop_middle _ _ _ Hc) at 2. apply read_unit_framed.
Qed.

Context (stored : list (option (list Z))).
Let bodies := (fun j => framed (col cws j)) <$> seq 0 (Z.to_nat (total_shards ec)).
Hypothesis Hauth : authentic bodies stored.

Lemma stored_length : len stored = total_shards ec.
Proof.
  apply Forall2_length in Hauth. unfold bodies in Hauth. rewrite length_fmap, length_seq in Hauth. unfold len, total_shards in *. lia.
Qed.
(** What a stripe reads is its codeword with some entries erased. *)
Lemma stripe_erased s cw : 0 <= s < count -> cws !! Z.to_nat s = Some cw -> erased (read_at s <$> stored) cw.
Proof.
  intros Hs Hcw. unfold erased. apply Forall2_same_length_lookup_2.
  { pose proof stored_length as Hl. destruct (codeword_at _ _ Hcw) as [Hi Hw]. rewrite Z2Nat.id in Hw by lia.
    destruct (stripe_codeword_shape s cw) as (Hcl & _); [lia|done|]. rewrite length_fmap. unfold len in *. lia. }
  intros j e u He Hu. apply list_lookup_fmap_Some in He as (st & -> & Hst).
  destruct (Forall2_lookup_r _ _ _ _ _ Hauth Hst) as (b & Hb & Hr). unfold bodies in Hb.
  apply list_lookup_fmap_Some in Hb as (j' & -> & Hj). apply lookup_seq in Hj as [-> Hj]. specialize (Hr s Hs).
  rewrite Nat.add_0_l, (read_at_body s cw j Hs Hcw Hj), Hu in Hr. done.
Qed.

(** ** Decoding *)

Lemma decode_stripe_spec s out bad : 0 <= s < count ->
  decode_stripe ec stripe_size (len blob) stored (out, bad) s
  = if clean stored s <? n then Err (GE_Ec (TooFewShards (clean stored s) n))
    else Ok (out ++ stripe_at s, zip_with (fun b u => b || negb (bool_decide (is_Some u))) bad (read_at s <$> stored)).
Proof.
  intros Hs. destruct (codeword_of s Hs) as (cw & Hcw & Hw). pose proof (stripe_erased s cw Hs Hcw) as He.
  destruct (stripe_codeword_shape s cw Hs Hw) as (Hcl & _ & Hjoin). destruct Hw as (parity & E & ->).
  unfold decode_stripe. fold n count.
  destruct (len_of_spec s Hs) as (_ & _ & Hu). fold (len_of s).
  replace (if s =? count - 1 then unit_size (len_of s) n else unit_size stripe_size n) with (unit_of s)
    by (unfold unit_of, len_of; by destruct (s =? count - 1)).
  change (read_unit _ _ <$> stored) with (read_at s <$> stored).
  destruct (Z.ltb_spec (clean stored s) n).
  - rewrite reconstruct_few; [done| |done]. pose proof stored_length. unfold len in *. by rewrite length_fmap.
  - apply Forall2_app_inv_r in He as (o & r & Ho & Hr & Hor). unfold clean in *. rewrite Hor in *.
    destruct (reconstruct_enough ec _ _ o r Hsup Hdata E Ho Hr ltac:(unfold n in *; lia)) as (units & -> & Ht & _).
    cbn [ec_err]. do 3 f_equal. rewrite length_fmap, length_seqZ in Ht. rewrite Ht, <- list_fmap_compose.
    rewrite (list_fmap_ext (unit_or_panic ∘ Some) id) by done. rewrite list_fmap_id.
    rewrite take_app_length' in Hjoin by (rewrite length_fmap, length_seqZ; done). exact Hjoin.
Qed.

Definition bad_in (ss : list Z) (st : option (list Z)) : bool := existsb (fun s => negb (bool_decide (is_Some (read_at s st)))) ss.

Lemma decode_stripes_ok (k : nat) : forall a out bad, 0 <= a -> a + Z.of_nat k <= count -> length bad = length stored ->
  (forall s, a <= s < a + Z.of_nat k -> n <= clean stored s) ->
  decode_stripes ec stripe_size (len blob) stored (out, bad) (seqZ a (Z.of_nat k))
  = Ok (out ++ mjoin (stripe_at <$> seqZ a (Z.of_nat k)), zip_with orb bad (bad_in (seqZ a (Z.of_nat k)) <$> stored)).
Proof.
  induction k as [|k IH]; intros a out bad Ha Hk Hb Hc.
  - change (seqZ a (Z.of_nat 0)) with (@nil Z). cbn [decode_stripes]. change (mjoin (stripe_at <$> [])) with (@nil Z).
    rewrite app_nil_r. do 2 f_equal. apply list_eq. intros i. rewrite lookup_zip_with, list_lookup_fmap.
    destruct (bad !! i) as [b|] eqn:Eb; [|done]. apply lookup_lt_Some in Eb as Hi. rewrite Hb in Hi.
    destruct (lookup_lt_is_Some_2 _ _ Hi) as [st Hst]. rewrite Hst. cbn. by rewrite orb_false_r.
  - rewrite seqZ_cons by lia. replace (Z.pred (Z.of_nat (S k))) with (Z.of_nat k) by lia.
    cbn [decode_stripes]. rewrite decode_stripe_spec by lia. rewrite (proj2 (Z.ltb_ge _ _)) by (apply Hc; lia).
    rewrite IH; [|lia..| |].
    + rewrite <- app_assoc. do 2 f_equal. apply list_eq. intros i. rewrite !lookup_zip_with, !list_lookup_fmap.
      destruct (bad !! i), (stored !! i); try done. cbn. by rewrite orb_assoc.
    + rewrite length_zip_with, length_fmap. lia.
    + intros s Hs. apply Hc. lia.
Qed.
Lemma decode_stripes_few (k : nat) : forall a acc, 0 <= a -> a + Z.of_nat k <= count ->
  (exists s, a <= s < a + Z.of_nat k /\ clean stored s < n) ->
  exists s, a <= s < a + Z.of_nat k /\ clean stored s < n
    /\ decode_stripes ec stripe_size (len blob) stored acc (seqZ a (Z.of_nat k)) = Err (GE_Ec (TooFewShards (clean stored s) n)).
Proof.
  induction k as [|k IH]; intros a [out bad] Ha Hk (s & Hs & Hlt); [lia|].
  rewrite seqZ_cons by lia. replace (Z.pred (Z.of_nat (S k))) with (Z.of_nat k) by lia.
  cbn [decode_stripes]. rewrite decode_stripe_spec by lia. destruct (Z.ltb_spec (clean stored a) n).
  - exists a. split_and!; [lia..|done].
  - destruct (decide (s = a)) as [->|Hne]; [lia|].
    destruct (IH (Z.succ a) (out ++ stripe_at a, zip_with (fun b u => b || negb (bool_decide (is_Some u))) bad (read_at a <$> stored)))
      as (s' & Hs' & Hlt' & E); [lia..|exists s; split; [lia|done]|].
    exists s'. split_and!; [lia..|done|done].
Qed.
End Codewords.

(** The stripes are the blob. *)
Lemma stripes_join : mjoin (stripe_at <$> seqZ 0 count) = blob.
Proof.
  assert (0 <= count) as Hc by (unfold count, stripe_count, div_ceil; pose proof (len_nonneg blob); apply Z.div_pos; lia).
  rewrite (list_fmap_ext _ (fun s => slice (s * stripe_size) stripe_size blob)).
  - rewrite <- (Z2Nat.id count) by done. rewrite join_slices by lia. rewrite Z2Nat.id by done.
    unfold slice. change (Z.to_nat (0 * stripe_size)) with 0%nat. rewrite drop_0. apply take_ge.
    unfold count, stripe_count. pose proof (div_ceil_spec (len blob) stripe_size (len_nonneg blob) Hss). unfold len in *. lia.
  - intros i s [-> Hs]%lookup_seqZ. unfold stripe_at, slice. destruct (Z.le_gt_cases ((0 + Z.of_nat i) * stripe_size + stripe_size) (len blob)).
    + rewrite Z.min_l by done. do 2 f_equal. lia.
    + rewrite Z.min_r by lia. destruct (count_bounds (0 + Z.of_nat i)) as (? & ? & ?); [lia|].
      rewrite !take_ge; [done|..]; rewrite length_drop; unfold len in *; nia.
Qed.

Lemma body_len cws j : Forall2 stripe_codeword (seqZ 0 count) cws -> (j < Z.to_nat (total_shards ec))%nat ->
  len (framed (col cws j)) = shard_physical_blob_len (len blob) stripe_size n.
Proof.
  intros Hcws Hj. pose proof (len_nonneg blob). unfold shard_physical_blob_len, shard_logical_len. fold count.
  destruct (Z.eqb_spec count 0) as [E|E].
  { rewrite E in Hcws. apply Forall2_length in Hcws. rewrite length_seqZ in Hcws. destruct cws; [|done]. by rewrite E. }
  assert (0 < count) as Hc by (unfold count, stripe_count, div_ceil in *; pose proof (Z.div_pos (len blob + stripe_size - 1) stripe_size); lia).
  destruct (codeword_of cws Hcws (count - 1)) as (cw & Hcw & _); [lia|]. destruct (codeword_entry cws Hcws _ _ j Hcw Hj) as [u Hu].
  pose proof (col_len cws Hcws _ _ _ _ Hcw Hu) as Hl. pose proof (col_prefix_len cws Hcws j (Z.to_nat (count - 1)) ltac:(lia) Hj) as Hp.
  rewrite Z2Nat.id in Hp, Hl by lia. unfold unit_of in Hl. rewrite Z.eqb_refl in Hl.
  rewrite <- (take_drop (Z.to_nat (count - 1)) (col cws j)), framed_app, len_app, Hp.
  assert (col cws j !! Z.to_nat (count - 1) = Some u) as Hcu by (unfold col; rewrite list_lookup_fmap, Hcw; cbn; f_equal; by apply nth_lookup_Some).
  rewrite (drop_S _ _ _ Hcu), drop_ge.
  - rewrite framed_cons, len_app, len_frame, Hl. change (len (framed [])) with 0. unfold frame_offset, HASH_LEN. lia.
  - unfold col. rewrite length_fmap, <- (Forall2_length _ _ _ Hcws), length_seqZ. lia.
Qed.

(** ** Rebuilding *)

Lemma phys_frames_spec F r (k : nat) : 0 < r <= F -> forall fuel, (k <= fuel)%nat ->
  phys_frames (S fuel) F (Z.of_nat k * F + r) = (replicate k F, r).
Proof.
  intros Hr. induction k as [|k IH]; intros fuel Hf; cbn [phys_frames].
  - rewrite (proj2 (Z.ltb_ge _ _)) by lia. by rewrite Z.add_0_l.
  - rewrite (proj2 (Z.ltb_lt _ _)) by nia. destruct fuel as [|fuel]; [lia|].
    replace (Z.of_nat (S k) * F + r - F) with (Z.of_nat k * F + r) by lia. by rewrite IH by lia.
Qed.
(** All frames but the last are full. *)
Lemma frame_lens_list : 0 < count ->
  (fun s => HASH_LEN + unit_of s) <$> seqZ 0 count
  = replicate (Z.to_nat (count - 1)) (HASH_LEN + unit_size stripe_size n) ++ [HASH_LEN + unit_size (last_stripe_len (len blob) stripe_size) n].
Proof.
  intros Hc. replace (seqZ 0 count) with (seqZ 0 (Z.of_nat (Z.to_nat (count - 1))) ++ [count - 1]).
  - rewrite fmap_app. f_equal.
    + apply list_eq. intros i. rewrite list_lookup_fmap. destruct (decide (Z.of_nat i < count - 1)).
      * rewrite lookup_replicate_2 by lia. rewrite (lookup_seqZ_lt 0) by lia. cbn. unfold unit_of.
        by rewrite (proj2 (Z.eqb_neq _ _)) by lia.
      * rewrite (lookup_ge_None_2 (replicate _ _)) by (rewrite length_replicate; lia). by rewrite lookup_seqZ_ge by lia.
    + cbn. unfold unit_of. by rewrite Z.eqb_refl.
  - replace count with (Z.of_nat (Z.to_nat (count - 1)) + 1) at 3 by lia. rewrite seqZ_app by lia. f_equal.
    rewrite seqZ_cons by lia. f_equal. lia.
Qed.
Lemma stripe_frame_lens_eq : stripe_frame_lens (len blob) stripe_size n = (fun s => HASH_LEN + unit_of s) <$> seqZ 0 count.
Proof.
  unfold stripe_frame_lens. fold count. destruct (Z.eqb_spec count 0) as [->|]; [done|]. apply list_fmap_ext. intros i s _.
  unfold unit_of. by destruct (s =? count - 1).
Qed.
(** The frame lengths sum to the length of a body. *)
Lemma stripe_frame_lens_sum : sumZ (stripe_frame_lens (len blob) stripe_size n) = shard_physical_blob_len (len blob) stripe_size n.
Proof.
  rewrite stripe_frame_lens_eq. unfold shard_physical_blob_len, shard_logical_len. fold count.
  destruct (Z.eqb_spec count 0) as [->|Hc]; [done|].
  assert (0 < count) as Hp by (unfold count, stripe_count, div_ceil in *; pose proof (Z.div_pos (len blob + stripe_size - 1) stripe_size); pose proof (len_nonneg blob); lia).
  rewrite frame_lens_list by done. rewrite sumZ_app, sumZ_replicate, sumZ_cons. change (sumZ []) with 0. rewrite Z2Nat.id by lia.
  unfold HASH_LEN. lia.
Qed.
(** The framing of a body is found from its length alone. *)
Lemma frame_lens_from_phys : 0 < len blob ->
  stripe_frame_lens_from_phys (shard_physical_blob_len (len blob) stripe_size n) stripe_size n
  = Ok ((fun s => HASH_LEN + unit_of s) <$> seqZ 0 count).
Proof.
  intros Hb. assert (0 < count) as Hc by (apply div_ceil_pos; lia).
  destruct (unit_of_pos (count - 1)) as (Hu & Ha & _); [lia|]. unfold unit_of in Hu, Ha. rewrite Z.eqb_refl in Hu, Ha.
  set (U := unit_size stripe_size n) in *. set (L := unit_size (last_stripe_len (len blob) stripe_size) n) in *.
  assert (L <= U) as HLU.
  { unfold L, U, unit_size, next_multiple_of, SHARD_ALIGN. destruct (last_stripe_len_spec (len blob) stripe_size) as (_ & Hl); [lia..|].
    apply Z.mul_le_mono_nonneg_r; [lia|]. unfold div_ceil. apply Z.div_le_mono; [lia|].
    assert ((last_stripe_len (len blob) stripe_size + n - 1) / n <= (stripe_size + n - 1) / n) by (apply Z.div_le_mono; unfold n; lia). lia. }
  assert (shard_physical_blob_len (len blob) stripe_size n = Z.of_nat (Z.to_nat (count - 1)) * (HASH_LEN + U) + (HASH_LEN + L)) as Ep.
  { unfold shard_physical_blob_len, shard_logical_len. fold count. rewrite (proj2 (Z.eqb_neq count 0)) by lia. fold U L.
    rewrite Z2Nat.id by lia. unfold HASH_LEN. lia. }
  unfold stripe_frame_lens_from_phys. fold U. rewrite Ep.
  destruct (Z.to_nat (Z.of_nat (Z.to_nat (count - 1)) * (HASH_LEN + U) + (HASH_LEN + L))) as [|fuel] eqn:Ef; [unfold HASH_LEN in *; nia|].
  rewrite phys_frames_spec by (unfold HASH_LEN in *; nia). unfold HASH_LEN in *.
  rewrite (proj2 (Z.leb_gt _ _)) by lia. replace (32 + L - 32) with L by lia.
  rewrite (proj2 (Z.eqb_neq L 0)), (proj2 (Z.ltb_ge U L)), Ha by lia. cbn. f_equal.
  symmetry. by apply frame_lens_list.
Qed.

Lemma survivor_units_eq target off fl (stored : list (option (list Z))) : (target < length stored)%nat ->
  survivor_units target off fl stored = read_unit off fl <$> <[target := None]> stored.
Proof.
  intros Ht. apply list_eq. intros j. unfold survivor_units. rewrite list_lookup_imap, list_lookup_fmap.
  destruct (decide (j = target)) as [->|Hne].
  - rewrite list_lookup_insert_eq by done. destruct (lookup_lt_is_Some_2 _ _ Ht) as [st ->]. done.
  - rewrite list_lookup_insert_ne by done. done.
Qed.
Lemma rebuild_stripe_unit_spec target data parity units : encode ec data = Ok parity -> erased units (data ++ parity) ->
  (target < length (data ++ parity))%nat ->
  rebuild_stripe_unit ec target units
  = if len (filter is_Some units) <? n then Err (NotReady "stripe has too few clean shards")
    else Ok (nth target (data ++ parity) []).
Proof.
  intros E He Ht. unfold rebuild_stripe_unit. fold n. destruct (Z.ltb_spec (len (filter is_Some units)) n) as [|Hge]; [done|].
  destruct (encode_shape _ _ _ Hsup E) as (Hdl & Hpl & _). apply Forall2_app_inv_r in He as (o & r & Ho & Hr & ->).
  destruct (reconstruct_enough ec _ _ o r Hsup Hdata E Ho Hr Hge) as (units & -> & Htk & _).
  unfold len in Hdl. assert (Z.to_nat n = length data) as -> by (unfold n; lia).
  destruct (Z.ltb_spec (Z.of_nat target) n) as [Hlt|Hlt]; unfold n in Hlt.
  - destruct (lookup_lt_is_Some_2 data target ltac:(lia)) as [u Hu].
    assert (units !! target = Some (Some u)) as ->.
    { rewrite <- (lookup_take_lt _ (length data)) by lia. by rewrite Htk, list_lookup_fmap, Hu. }
    f_equal. symmetry. apply nth_lookup_Some. by rewrite lookup_app_l by lia.
  - rewrite Htk. assert (mapM id (Some <$> data) = Some data) as -> by (clear; induction data as [|d data IH]; [done|]; cbn; by rewrite IH).
    rewrite E. rewrite length_app in Ht. destruct (lookup_lt_is_Some_2 parity (target - length data) ltac:(lia)) as [u Hu]. rewrite Hu. cbn.
    f_equal. symmetry. apply nth_lookup_Some. by rewrite lookup_app_r by lia.
Qed.

Section Rebuild.
Context (cws : list (list (list Z))) (stored : list (option (list Z))) (target : nat).
Hypothesis Hcws : Forall2 stripe_codeword (seqZ 0 count) cws.
Let bodies := (fun j => framed (col cws j)) <$> seq 0 (Z.to_nat (total_shards ec)).
Let survivors := <[target := None]> stored.
Hypothesis Hauth : authentic bodies survivors.
Hypothesis Htarget : (target < Z.to_nat (total_shards ec))%nat.

Lemma rebuild_step s out rest : 0 <= s < count ->
  rebuild_frames ec target stored (frame_offset s (unit_size stripe_size n)) ((HASH_LEN + unit_of s) :: rest) out
  = if clean survivors s <? n then Err (NotReady "stripe has too few clean shards")
    else rebuild_frames ec target stored (frame_offset s (unit_size stripe_size n) + (HASH_LEN + unit_of s)) rest
           (out ++ frame (nth target (nth (Z.to_nat s) cws []) [])).
Proof.
  intros Hs. destruct (codeword_of cws Hcws s Hs) as (cw & Hcw & Hw). pose proof (stripe_erased cws Hcws survivors Hauth s cw Hs Hcw) as He.
  rewrite (nth_lookup_Some _ _ _ _ Hcw). pose proof (stored_length cws survivors Hauth) as Hsl. unfold len, survivors in Hsl. rewrite length_insert in Hsl.
  cbn [rebuild_frames]. rewrite survivor_units_eq by lia. fold survivors. change (read_unit _ _ <$> survivors) with (read_at s <$> survivors).
  destruct (stripe_codeword_shape s cw Hs Hw) as (Hcl & _). destruct Hw as (parity & E & ->). unfold len in Hcl.
  rewrite (rebuild_stripe_unit_spec target _ parity) by (done || lia). unfold clean. destruct (_ <? n); [done|]. cbn.
  unfold write_frame, frame. by rewrite <- app_assoc.
Qed.
Lemma frame_offset_next s : 0 <= s < count - 1 ->
  frame_offset s (unit_size stripe_size n) + (HASH_LEN + unit_of s) = frame_offset (Z.succ s) (unit_size stripe_size n).
Proof. intros Hs. unfold frame_offset, unit_of. rewrite (proj2 (Z.eqb_neq _ _)) by lia. lia. Qed.

Lemma rebuild_frames_spec (k : nat) : forall a off out, 0 <= a -> a + Z.of_nat k = count ->
  (k = 0%nat \/ off = frame_offset a (unit_size stripe_size n)) ->
  let lens := (fun s => HASH_LEN + unit_of s) <$> seqZ a (Z.of_nat k) in
  ((forall s, a <= s < count -> n <= clean survivors s) ->
     rebuild_frames ec target stored off lens out = Ok (out ++ framed (drop (Z.to_nat a) (col cws target))))
  /\ ((exists s, a <= s < count /\ clean survivors s < n) ->
     rebuild_frames ec target stored off lens out = Err (NotReady "stripe has too few clean shards")).
Proof.
  assert (length (col cws target) = Z.to_nat count) as Hcl.
  { unfold col. rewrite length_fmap, <- (Forall2_length _ _ _ Hcws). by rewrite length_seqZ. }
  induction k as [|k IH]; intros a off out Ha Hk Hoff lens.
  - split; [|intros (s & Hs & _); lia]. intros _. unfold lens. cbn. rewrite drop_ge by lia. by rewrite app_nil_r.
  - destruct Hoff as [?| ->]; [done|]. unfold lens. rewrite seqZ_cons by lia.
    replace (Z.pred (Z.of_nat (S k))) with (Z.of_nat k) by lia. rewrite fmap_cons, rebuild_step by lia.
    destruct (IH (Z.succ a) (frame_offset a (unit_size stripe_size n) + (HASH_LEN + unit_of a))
                 (out ++ frame (nth target (nth (Z.to_nat a) cws []) []))) as [IHok IHerr]; [lia..| |].
    { destruct k; [by left|right]. apply frame_offset_next. lia. }
    destruct (Z.ltb_spec (clean survivors a) n) as [Hlt|Hge].
    + split; [|done]. intros Hall. specialize (Hall a). lia.
    + split.
      * intros Hall. rewrite IHok by (intros s Hs; apply Hall; lia). rewrite <- app_assoc. do 2 f_equal.
        destruct (codeword_of cws Hcws a) as (cw & Hcw & _); [lia|]. rewrite (nth_lookup_Some _ _ _ _ Hcw).
        assert (col cws target !! Z.to_nat a = Some (nth target cw [])) as Hc by (unfold col; by rewrite list_lookup_fmap, Hcw).
        rewrite (drop_S _ _ _ Hc). rewrite framed_cons. do 3 f_equal. lia.
      * intros (s & Hs & Hlt). apply IHerr. exists s. split; [|done]. destruct (decide (s = a)) as [->|]; lia.
Qed.
End Rebuild.
End Blob.
End Pipeline.

Lemma stripe_count_nil ss : 0 < ss -> stripe_count (len (@nil Z)) ss = 0.
Proof. apply div_ceil_0. Qed.

Lemma survivor_lens target (stored : list (option (list Z))) : (target < length stored)%nat ->
  imap (fun j body => if decide (j = target) then None else len <$> body) stored = fmap (M := option) len <$> <[target := None]> stored.
Proof.
  intros Ht. apply list_eq. intros i. rewrite list_lookup_fmap, list_lookup_imap. destruct (decide (i = target)) as [->|].
  - rewrite list_lookup_insert_eq by done. destruct (lookup_lt_is_Some_2 stored target Ht) as [? ->]. done.
  - by rewrite list_lookup_insert_ne by done.
Qed.
Lemma head_len_survivors target stored (first : list Z) : (target < length stored)%nat ->
  head (omap id (<[target := None]> stored)) = Some first ->
  head (omap id (imap (fun j body => if decide (j = target) then None else len <$> body) stored)) = Some (len first).
Proof.
  intros Ht Hfirst. rewrite survivor_lens by done. generalize dependent (<[target := None]> stored). intros l Hfirst.
  induction l as [|[b|] l IH]; [done|by injection Hfirst as ->|by apply IH].
Qed.
Lemma head_none_survivors target (stored : list (option (list Z))) : (target < length stored)%nat ->
  head (omap id (<[target := None]> stored)) = None ->
  head (omap id (imap (fun j body => if decide (j = target) then None else len <$> body) stored)) = None.
Proof.
  intros Ht Hnone. rewrite survivor_lens by done. generalize dependent (<[target := None]> stored). intros l Hnone.
  induction l as [|[b|] l IH]; [done|done|by apply IH].
Qed.

Section Theorems.
Context `{RS : ReedSolomon} `{B3 : Blake3}.

(** A code the back end supports, with both kinds of shards. *)
Definition code_ok (ec : Erasure) : Prop :=
  rs_supports (ec_data ec) (ec_parity ec) = true /\ 0 < ec_data ec /\ 0 < ec_parity ec.

(** Decoding with enough readable frames in every stripe. *)
Definition healed_list (ec : Erasure) (ss : Z) (blob : list Z) (stored : list (option (list Z))) : list Z :=
  filter (fun j => nth (Z.to_nat j) (bad_in ec ss blob (seqZ 0 (stripe_count (len blob) ss)) <$> stored) false = true)
    (seqZ 0 (total_shards ec)).
Lemma elem_of_healed ec ss blob stored j : Z.of_nat (length stored) = total_shards ec -> j ∈ healed_list ec ss blob stored
  <-> exists st s, 0 <= j /\ stored !! Z.to_nat j = Some st
      /\ 0 <= s < stripe_count (len blob) ss /\ read_at ec ss blob s st = None.
Proof.
  intros Hsl. unfold healed_list. rewrite list_elem_of_filter, elem_of_seqZ, Z.add_0_l. split.
  - intros [Hn Hj]. destruct (lookup_lt_is_Some_2 stored (Z.to_nat j) ltac:(lia)) as [st Hst].
    erewrite nth_lookup_Some in Hn; [|rewrite list_lookup_fmap, Hst; reflexivity].
    apply existsb_exists in Hn as (s & Hs%list_elem_of_In%elem_of_seqZ & Hn).
    exists st, s. split_and!; try done; try lia. case_bool_decide as Hr; [done|]. by apply eq_None_not_Some.
  - intros (st & s & Hj & Hst & Hs & Hr). apply lookup_lt_Some in Hst as Hlt. split; [|lia].
    erewrite nth_lookup_Some; [|rewrite list_lookup_fmap, Hst; reflexivity].
    apply existsb_exists. exists s. split; [apply list_elem_of_In, elem_of_seqZ; lia|]. by rewrite Hr.
Qed.
Lemma decode_blob_ok ec ss blob bodies stored : code_ok ec -> 0 < ss -> encode_blob ec ss blob = Ok bodies ->
  authentic ec ss blob bodies stored ->
  (forall s, 0 <= s < stripe_count (len blob) ss -> ec_data ec <= clean ec ss blob stored s) ->
  decode_blob ec ss (len blob) stored = Ok {| db_bytes := blob; db_healed := healed_list ec ss blob stored |}.
Proof.
  intros (Hsup & Hd & Hp) Hss Henc Ha Hall. destruct (encode_blob_shape ec ss Hsup Hd Hp Hss blob) as (cws & Hcws & E).
  rewrite E in Henc. injection Henc as <-. pose proof (len_nonneg blob) as Hb.
  assert (0 <= stripe_count (len blob) ss) as Hc by (unfold stripe_count, div_ceil; apply Z.div_pos; lia).
  pose proof (stored_length ec ss Hd Hp blob cws stored Ha) as Hsl. unfold decode_blob, healed_list. rewrite Hsl, Z.eqb_refl. cbn [negb].
  destruct (Z.eqb_spec (len blob) 0) as [E0|E0].
  { apply len_0_nil in E0 as ->. rewrite (stripe_count_nil ss Hss). do 2 f_equal. symmetry.
    assert (forall k, nth k (bad_in ec ss [] (seqZ 0 0) <$> stored) false = false) as Hf
      by (clear; induction stored as [|x stored IH]; intros [|k]; cbn; try done; apply IH).
    induction (seqZ 0 (total_shards ec)) as [|j js IH]; [done|]. rewrite filter_cons, Hf. by destruct (decide _). }
  replace (seqZ 0 (stripe_count (len blob) ss)) with (seqZ 0 (Z.of_nat (Z.to_nat (stripe_count (len blob) ss)))) by (f_equal; lia).
  rewrite (decode_stripes_ok ec ss Hsup Hd Hp Hss blob cws Hcws stored Ha).
  2-3: lia. 2:{ rewrite length_replicate. unfold len in Hsl. lia. } 2:{ intros s Hs. apply Hall. lia. }
  rewrite Z2Nat.id, stripes_join by done. cbn [app]. rewrite Z.eqb_refl. cbn [negb]. do 3 f_equal.
  rewrite zip_with_replicate_l by (rewrite length_fmap; unfold len in Hsl; lia). by rewrite list_fmap_id.
Qed.

Lemma encoded_lengths ec ss blob bodies : code_ok ec -> 0 < ss -> encode_blob ec ss blob = Ok bodies ->
  len bodies = total_shards ec /\ Forall (fun b => len b = shard_physical_blob_len (len blob) ss (ec_data ec)) bodies.
Proof.
  intros (Hsup & Hd & Hp) Hss Henc. destruct (encode_blob_shape ec ss Hsup Hd Hp Hss blob) as (cws & Hcws & E).
  rewrite E in Henc. injection Henc as <-. split; [unfold len; rewrite length_fmap, length_seq; unfold total_shards; lia|].
  apply Forall_fmap, Forall_forall. intros j Hj%elem_of_seq. apply body_len; done || lia.
Qed.
(** Whole bodies, some of them missing. *)
Lemma present_bodies ec ss blob bodies stored : code_ok ec -> 0 < ss -> encode_blob ec ss blob = Ok bodies ->
  Forall2 (fun b st => st = None \/ st = Some b) bodies stored ->
  authentic ec ss blob bodies stored
  /\ forall s, 0 <= s < stripe_count (len blob) ss -> clean ec ss blob stored s = len (filter is_Some stored).
Proof.
  intros (Hsup & Hd & Hp) Hss Henc Hst. destruct (encode_blob_shape ec ss Hsup Hd Hp Hss blob) as (cws & Hcws & E).
  rewrite E in Henc. injection Henc as <-. split.
  { eapply Forall2_impl; [exact Hst|]. intros b st [->| ->] s Hs; [by left|by right]. }
  intros s Hs. destruct (codeword_of ec ss blob cws Hcws s Hs) as (cw & Hcw & _). unfold clean.
  assert (Forall (fun st => st = None \/ is_Some (read_at ec ss blob s st)) stored) as Hf.
  { apply Forall_lookup_2. intros j st Hj. destruct (Forall2_lookup_r _ _ _ _ _ Hst Hj) as (b & Hb & [->| ->]); [by left|right].
    apply list_lookup_fmap_Some in Hb as (j' & -> & Hj'). apply lookup_seq in Hj' as [-> Hlt].
    rewrite (read_at_body ec ss Hsup Hd Hss blob cws Hcws s cw _ Hs Hcw) by lia. by eapply codeword_entry. }
  clear -Hf. induction Hf as [|st stored H _ IH]; [done|]. rewrite fmap_cons, !filter_cons.
  destruct H as [->|[u Hu]]; [rewrite !decide_False by (apply is_Some_None); done|].
  rewrite Hu, decide_True by done. destruct st; [|done]. rewrite decide_True by done. by rewrite !len_cons, IH.
Qed.

(** C22: blobs round-trip through the erasure-coded pipeline: [encode_blob] succeeds
    with one body per shard, each of the physical length of the layout; and from
    any stored bodies (missing, truncated or damaged) in which every frame whose
    digest verifies is the one written, [decode_blob] returns exactly the blob and
    lists as healed exactly the shards with an unreadable frame, as long as every
    stripe keeps [data] readable frames; when some stripe keeps fewer, it fails
    with [TooFewShards] and that stripe's count. *)
Theorem blob_roundtrip : forall ec stripe_size blob, code_ok ec -> 0 < stripe_size ->
  exists bodies, encode_blob ec stripe_size blob = Ok bodies
  /\ len bodies = total_shards ec
  /\ Forall (fun b => len b = shard_physical_blob_len (len blob) stripe_size (ec_data ec)) bodies
  /\ forall stored, authentic ec stripe_size blob bodies stored ->
     ((forall s, 0 <= s < stripe_count (len blob) stripe_size -> ec_data ec <= clean ec stripe_size blob stored s) ->
        exists healed, decode_blob ec stripe_size (len blob) stored = Ok {| db_bytes := blob; db_healed := healed |}
        /\ forall j, j ∈ healed <-> exists st s, 0 <= j /\ stored !! Z.to_nat j = Some st
             /\ 0 <= s < stripe_count (len blob) stripe_size /\ read_at ec stripe_size blob s st = None)
     /\ ((exists s, 0 <= s < stripe_count (len blob) stripe_size /\ clean ec stripe_size blob stored s < ec_data ec) ->
        exists s, 0 <= s < stripe_count (len blob) stripe_size /\ clean ec stripe_size blob stored s < ec_data ec
        /\ decode_blob ec stripe_size (len blob) stored = Err (GE_Ec (TooFewShards (clean ec stripe_size blob stored s) (ec_data ec)))).
Proof.
  intros ec ss blob (Hsup & Hd & Hp) Hss. destruct (encode_blob_shape ec ss Hsup Hd Hp Hss blob) as (cws & Hcws & E).
  eexists. split; [exact E|]. pose proof (len_nonneg blob) as Hb.
  assert (0 <= stripe_count (len blob) ss) as Hc by (unfold stripe_count, div_ceil; apply Z.div_pos; lia).
  split_and!.
  1-2: by apply (encoded_lengths ec ss blob _ (conj Hsup (conj Hd Hp)) Hss E).
  intros stored Ha. pose proof (stored_length ec ss Hd Hp blob cws stored Ha) as Hsl. split; intros Hall.
  - exists (healed_list ec ss blob stored). split; [by apply (decode_blob_ok _ _ _ _ _ (conj Hsup (conj Hd Hp)) Hss E)|].
    intros j. apply elem_of_healed. unfold len in Hsl. lia.
  - unfold decode_blob. rewrite Hsl, Z.eqb_refl. cbn [negb]. destruct (Z.eqb_spec (len blob) 0) as [E0|E0].
    { apply len_0_nil in E0 as ->. rewrite (stripe_count_nil ss Hss) in Hall. destruct Hall as (s & Hs & _). lia. }
    destruct (decode_stripes_few ec ss Hsup Hd Hp Hss blob cws Hcws stored Ha (Z.to_nat (stripe_count (len blob) ss)) 0
        ([], replicate (Z.to_nat (total_shards ec)) false)) as (s & Hs & Hlt & Ed); [lia..| |].
    { destruct Hall as (s & Hs & Hlt). exists s. split; [lia|done]. }
    exists s. split_and!; [lia..|done|]. rewrite Z2Nat.id in Ed by done. by rewrite Ed.
Qed.

(** The repair worker rebuilds a shard exactly: from the other bodies of a
    blob (whose verifying frames are the ones written, the first of them of full
    length) [rebuild_shard_body] returns the very body [encode_blob] made for that
    shard, data or parity, if every stripe keeps [data] readable frames among
    them; if some stripe keeps fewer it reports [NotReady], so that a later sweep
    tries again, and never a wrong body. *)
Theorem rebuild_shard_exact : forall ec stripe_size blob bodies stored target body first,
  code_ok ec -> 0 < stripe_size -> encode_blob ec stripe_size blob = Ok bodies ->
  bodies !! target = Some body ->
  let survivors := <[target := None]> stored in
  authentic ec stripe_size blob bodies survivors ->
  head (omap id survivors) = Some first -> len first = len body ->
  rebuild_shard_body ec stripe_size target stored
  = if bool_decide (Forall (fun s => ec_data ec <= clean ec stripe_size blob survivors s) (seqZ 0 (stripe_count (len blob) stripe_size)))
    then Ok body else Err (NotReady "stripe has too few clean shards").
Proof.
  intros ec ss blob bodies stored target body first (Hsup & Hd & Hp) Hss Henc Hbody survivors Ha Hfirst Hlen.
  destruct (encode_blob_shape ec ss Hsup Hd Hp Hss blob) as (cws & Hcws & E). rewrite E in Henc. injection Henc as <-.
  apply list_lookup_fmap_Some in Hbody as (j & -> & Hj). apply lookup_seq in Hj as [-> Ht]. rewrite Nat.add_0_l in *.
  pose proof (stored_length ec ss Hd Hp blob cws survivors Ha) as Hsl. unfold survivors, len in Hsl. rewrite length_insert in Hsl.
  rewrite (body_len ec ss Hsup Hd Hss blob cws) in Hlen by done. pose proof (len_nonneg blob) as Hb.
  unfold rebuild_shard_body. unfold len at 1. rewrite Hsl, Z.eqb_refl. cbn [negb]. rewrite (proj2 (Z.leb_gt _ _)) by lia.
  rewrite (head_len_survivors target stored first) by (done || lia).
  rewrite Hlen. destruct (Z.eq_dec (len blob) 0) as [E0|E0].
  { apply len_0_nil in E0 as ->. unfold shard_physical_blob_len, shard_logical_len. rewrite (stripe_count_nil ss Hss) in *.
    apply Forall2_length in Hcws. by destruct cws. }
  assert (0 < stripe_count (len blob) ss) as Hc by (apply div_ceil_pos; lia).
  rewrite (proj2 (Z.eqb_neq _ _)).
  2:{ unfold shard_physical_blob_len, shard_logical_len. rewrite (proj2 (Z.eqb_neq _ 0)) by lia. destruct (last_stripe_len_spec (len blob) ss); [lia..|].
      pose proof (unit_size_pos ss (ec_data ec)). pose proof (unit_size_pos (last_stripe_len (len blob) ss) (ec_data ec)). unfold HASH_LEN. nia. }
  rewrite frame_lens_from_phys by (done || lia).
  destruct (rebuild_frames_spec ec ss Hsup Hd Hp Hss blob cws stored target Hcws Ha Ht (Z.to_nat (stripe_count (len blob) ss)) 0 0 [])
    as [Hok Herr]; [lia..|by right|]. rewrite Z2Nat.id in Hok, Herr by lia.
  case_bool_decide as Hall.
  - rewrite Forall_forall in Hall. apply Hok. intros s Hs. apply Hall. apply elem_of_seqZ. lia.
  - apply Herr. apply not_Forall_Exists in Hall; [|intros x; apply _]. apply Exists_exists in Hall as (s & Hs%elem_of_seqZ & Hlt).
    exists s. split; [lia|]. by apply Z.nle_gt.
Qed.
End Theorems.

(** *** Evaluation with three copies and the example digest *)

Definition copies : Erasure := {| ec_data := 1; ec_parity := 2 |}.
Definition tiny_blob : list Z := [1; 2; 3].
(** The bodies of [tiny_blob] with stripes of two bytes. *)
Definition tiny_body : list Z := framed [[1; 2] ++ zeros 62; [3] ++ zeros 63].
(** One copy is missing, one has a flipped byte in its second frame. *)
Definition tiny_stored : list (option (list Z)) := [None; Some (<[140%nat := 9]> tiny_body); Some tiny_body].

Lemma tiny_authentic target : authentic copies 2 tiny_blob (replicate 3 tiny_body) (<[target := None]> tiny_stored).
Proof.
  assert (forall s, 0 <= s < 2 -> s = 0 \/ s = 1) as H2 by lia.
  assert (forall st, In st (<[target := None]> tiny_stored) -> In st (None :: tiny_stored)) as Hin.
  { intros st. destruct target as [|[|[|target]]]; cbn; tauto. }
  apply Forall2_same_length_lookup_2; [by rewrite length_insert|].
  intros j b st [-> _]%lookup_replicate Hst%list_elem_of_lookup_2%list_elem_of_In%Hin s [->| ->]%H2;
    destruct Hst as [<-|[<-|[<-|[<-|[]]]]]; (by left) || (right; vm_compute; reflexivity) || (left; vm_compute; reflexivity).
Qed.

Lemma blob_roundtrip_witness : exists healed, decode_blob copies 2 3 tiny_stored = Ok {| db_bytes := tiny_blob; db_healed := healed |}.
Proof.
  destruct (blob_roundtrip copies 2 tiny_blob) as (bodies & E & _ & _ & H); [split_and!; [done|vm_compute; done..]|lia|].
  assert (bodies = replicate 3 tiny_body) as -> by (assert (encode_blob copies 2 tiny_blob = Ok (replicate 3 tiny_body)) as E'
    by (vm_compute; reflexivity); congruence).
  destruct (H tiny_stored) as [Hok _].
  - exact (tiny_authentic 3).
  - destruct Hok as (healed & Hd & _); [|by exists healed]. change (stripe_count _ _) with 2. intros s Hs.
    assert (s = 0 \/ s = 1) as [->| ->] by lia; vm_compute; discriminate.
Defined.
Lemma rebuild_shard_example : rebuild_shard_body copies 2 0 tiny_stored = Ok tiny_body.
Proof.
  rewrite (rebuild_shard_exact copies 2 tiny_blob (replicate 3 tiny_body) tiny_stored 0 tiny_body (<[140%nat := 9]> tiny_body)).
  - rewrite bool_decide_true; [done|]. apply (bool_decide_unpack _). vm_compute. exact I.
  - split_and!; [done|vm_compute; done..].
  - lia.
  - vm_compute. reflexivity.
  - reflexivity.
  - exact (tiny_authentic 0).
  - reflexivity.
  - reflexivity.
Defined.
