(* ===== verification/Crc.v ===== *)
(** The [crc32c] crate as a parameter (a 32-bit checksum), with the Castagnoli
    checksum as the instance examples are evaluated with. *)

From S2P Require Import Prelude.

Class Crc32c := {
  crc32c : list Z -> Z;
  crc32c_range : forall b, is_u32 (crc32c b)
}.

(** Bitwise CRC-32C: reflected polynomial 0x82F63B78, initial and final
    complement. *)
Fixpoint crc_bits (n : nat) (c : Z) : Z :=
  match n with
  | O => c
  | S n => crc_bits n (if Z.testbit c 0 then Z.lxor (Z.shiftr c 1) 2197175160 else Z.shiftr c 1)
  end.
Definition crc_step (c b : Z) : Z := crc_bits 8 (Z.lxor c b).
Definition castagnoli_crc (b : list Z) : Z :=
  wrap 32 (Z.lxor (foldl crc_step U32_MAX b) U32_MAX).

Lemma castagnoli_crc_range b : is_u32 (castagnoli_crc b).
Proof. unfold castagnoli_crc, wrap, uint. lia. Qed.
#[global] Instance castagnoli : Crc32c :=
  {| crc32c := castagnoli_crc; crc32c_range := castagnoli_crc_range |}.

(** The check value of the CRC catalogue for the string 123456789. *)
Example castagnoli_check : crc32c [49;50;51;52;53;54;55;56;57] = 3808858755.
Proof. vm_compute. reflexivity. Qed.
