(* ===== verification/RpcFrame.v ===== *)
(** The 50-byte data-plane frame header (crates/epoch-rpc/src/frame.rs). *)

From S2P Require Import Prelude Crc.

Definition FRAME_HEADER_LEN : Z := 50.
Definition FRAME_MAGIC : list Z := [69; 82].
Definition PROTOCOL_VERSION : Z := 1.
Definition O_MAGIC : Z := 0.
Definition O_VER : Z := 2.
Definition O_FLAGS : Z := 3.
Definition O_PCODE : Z := 4.
Definition O_STREAM : Z := 6.
Definition O_SEQ : Z := 10.
Definition O_SESSION : Z := 14.
Definition O_PAYLEN : Z := 22.
Definition O_TRACE : Z := 26.
Definition O_DEADLINE : Z := 34.
Definition O_CRC : Z := 38.
Definition O_RESERVED : Z := 42.

Inductive HeaderError : Set :=
| HTruncated (got need : Z)
| HBadMagic
| HVersion (got : Z)
| HChecksum (stored computed : Z).

Record FrameHeader : Set := {
  pcode : Z;
  flags : Z;
  stream_id : Z;
  seq_no : Z;
  session : Z;
  payload_len : Z;
  trace_id : Z;
  deadline_ms : Z
}.

(** The field types: [u16], [u8], [u32], [u32], [u64], [u32], [u64], [u32]. *)
Definition FrameHeader_wf (h : FrameHeader) : Prop :=
  is_u16 (pcode h) /\ is_u8 (flags h) /\ is_u32 (stream_id h) /\ is_u32 (seq_no h)
  /\ is_u64 (session h) /\ is_u32 (payload_len h) /\ is_u64 (trace_id h)
  /\ is_u32 (deadline_ms h).

Section Header.
Context `{Crc32c}.

Definition FrameHeader_encode (h : FrameHeader) : list Z :=
  let b := zeros FRAME_HEADER_LEN in
  let b := copy_at O_MAGIC FRAME_MAGIC b in
  let b := copy_at O_VER [PROTOCOL_VERSION] b in
  let b := copy_at O_FLAGS [flags h] b in
  let b := copy_at O_PCODE (le_bytes 2 (pcode h)) b in
  let b := copy_at O_STREAM (le_bytes 4 (stream_id h)) b in
  let b := copy_at O_SEQ (le_bytes 4 (seq_no h)) b in
  let b := copy_at O_SESSION (le_bytes 8 (session h)) b in
  let b := copy_at O_PAYLEN (le_bytes 4 (payload_len h)) b in
  let b := copy_at O_TRACE (le_bytes 8 (trace_id h)) b in
  let b := copy_at O_DEADLINE (le_bytes 4 (deadline_ms h)) b in
  let crc := crc32c b in
  copy_at O_CRC (le_bytes 4 crc) b.

Definition FrameHeader_decode (buf : list Z) : result HeaderError FrameHeader :=
  match first_chunk FRAME_HEADER_LEN buf with
  | None => Err (HTruncated (len buf) FRAME_HEADER_LEN)
  | Some buf =>
      if negb (bool_decide (slice O_MAGIC 2 buf = FRAME_MAGIC)) then Err HBadMagic
      else
        let ver := le_val (slice O_VER 1 buf) in
        if negb (ver =? PROTOCOL_VERSION) then Err (HVersion ver)
        else
          let stored := le_val (slice O_CRC 4 buf) in
          let zeroed := copy_at O_CRC (zeros 4) buf in
          let computed := crc32c zeroed in
          if negb (stored =? computed) then Err (HChecksum stored computed)
          else Ok {|
            pcode := le_val (slice O_PCODE 2 buf);
            flags := le_val (slice O_FLAGS 1 buf);
            stream_id := le_val (slice O_STREAM 4 buf);
            seq_no := le_val (slice O_SEQ 4 buf);
            session := le_val (slice O_SESSION 8 buf);
            payload_len := le_val (slice O_PAYLEN 4 buf);
            trace_id := le_val (slice O_TRACE 8 buf);
            deadline_ms := le_val (slice O_DEADLINE 4 buf) |}
  end.

(** The encoded header as the concatenation of its fields. *)
Definition header_fields (h : FrameHeader) : list Z :=
  FRAME_MAGIC ++ [PROTOCOL_VERSION] ++ [flags h] ++ le_bytes 2 (pcode h)
  ++ le_bytes 4 (stream_id h) ++ le_bytes 4 (seq_no h) ++ le_bytes 8 (session h)
  ++ le_bytes 4 (payload_len h) ++ le_bytes 8 (trace_id h) ++ le_bytes 4 (deadline_ms h).

Lemma header_fields_len h : len (header_fields h) = O_CRC.
Proof. unfold header_fields, FRAME_MAGIC. by lens. Qed.

Lemma FrameHeader_encode_fields h :
  FrameHeader_encode h =
    header_fields h ++ le_bytes 4 (crc32c (header_fields h ++ zeros 12)) ++ zeros 8.
Proof.
  unfold FrameHeader_encode, FRAME_HEADER_LEN, O_MAGIC, O_VER, O_FLAGS, O_PCODE, O_STREAM,
    O_SEQ, O_SESSION, O_PAYLEN, O_TRACE, O_DEADLINE, O_CRC, FRAME_MAGIC.
  unfold header_fields, FRAME_MAGIC. fill. by rewrite <- !app_assoc.
Qed.

Lemma FrameHeader_encode_len h : len (FrameHeader_encode h) = FRAME_HEADER_LEN.
Proof.
  rewrite FrameHeader_encode_fields, !len_app, header_fields_len, len_le_bytes, len_zeros by lia.
  done.
Qed.

(** Zeroing the checksum field gives back the checksummed bytes. *)
Lemma FrameHeader_zeroed h rest :
  copy_at O_CRC (zeros 4) (header_fields h ++ le_bytes 4 rest ++ zeros 8)
    = header_fields h ++ zeros 12.
Proof.
  rewrite copy_at_replace; [done|by rewrite header_fields_len|by lens].
Qed.

Lemma FrameHeader_decode_encode h rest : FrameHeader_wf h ->
  FrameHeader_decode (FrameHeader_encode h ++ rest) = Ok h.
Proof.
  intros (Hp & Hf & Hst & Hsq & Hse & Hpl & Htr & Hd). unfold FrameHeader_decode.
  pose proof (FrameHeader_encode_len h) as Hlen.
  rewrite first_chunk_Some by (rewrite len_app, Hlen; pose proof (len_nonneg rest); lia).
  rewrite slice_app_eq by done. rewrite FrameHeader_encode_fields. cbv zeta.
  rewrite FrameHeader_zeroed.
  assert (slice O_CRC 4 (header_fields h ++ le_bytes 4 (crc32c (header_fields h ++ zeros 12))
            ++ zeros 8) = le_bytes 4 (crc32c (header_fields h ++ zeros 12))) as ->.
  { rewrite slice_app_r by (rewrite header_fields_len; done).
    rewrite header_fields_len. apply slice_app_here; [done|by lens]. }
  rewrite (le_val_uint 4 32 (crc32c _)) by (done || apply crc32c_range).
  set (crc := crc32c _). rewrite (Z.eqb_refl crc).
  unfold header_fields, O_MAGIC, O_VER, O_FLAGS, O_PCODE, O_STREAM, O_SEQ, O_SESSION,
    O_PAYLEN, O_TRACE, O_DEADLINE, FRAME_MAGIC. rewrite <- !app_assoc.
  slices. rewrite bool_decide_true by done. cbn [negb le_val].
  change (PROTOCOL_VERSION + 256 * 0 =? PROTOCOL_VERSION) with true. cbn [negb].
  le_vals. f_equal. destruct h; simpl. f_equal. lia.
Qed.

(** The frame header round trips and malformed headers are told apart: every
    header of the field widths is decoded from its 50-byte encoding whatever
    follows it; a decode that succeeds saw the magic, the version and the CRC of
    the 50 bytes with the CRC field zeroed; the checks fail in the order
    length, magic, version, checksum. *)
Theorem frame_header_roundtrip :
  (forall h rest, FrameHeader_wf h ->
     len (FrameHeader_encode h) = FRAME_HEADER_LEN
     /\ FrameHeader_decode (FrameHeader_encode h ++ rest) = Ok h)
  /\ (forall buf, len buf < FRAME_HEADER_LEN ->
        FrameHeader_decode buf = Err (HTruncated (len buf) FRAME_HEADER_LEN))
  /\ (forall buf, FRAME_HEADER_LEN <= len buf ->
        let b := slice 0 FRAME_HEADER_LEN buf in
        match FrameHeader_decode buf with
        | Ok _ => slice O_MAGIC 2 b = FRAME_MAGIC /\ slice O_VER 1 b = [PROTOCOL_VERSION]
                  /\ le_val (slice O_CRC 4 b) = crc32c (copy_at O_CRC (zeros 4) b)
        | Err HBadMagic => slice O_MAGIC 2 b <> FRAME_MAGIC
        | Err (HVersion v) => slice O_MAGIC 2 b = FRAME_MAGIC /\ slice O_VER 1 b = [v]
                  /\ v <> PROTOCOL_VERSION
        | Err (HChecksum s c) => slice O_MAGIC 2 b = FRAME_MAGIC
                  /\ slice O_VER 1 b = [PROTOCOL_VERSION]
                  /\ s = le_val (slice O_CRC 4 b) /\ c = crc32c (copy_at O_CRC (zeros 4) b)
                  /\ s <> c
        | Err (HTruncated _ _) => False
        end).
Proof.
  split_and!.
  - intros h rest Hwf. split; [apply FrameHeader_encode_len|by apply FrameHeader_decode_encode].
  - intros buf Hl. unfold FrameHeader_decode. by rewrite first_chunk_None.
  - intros buf Hl b. unfold FrameHeader_decode. rewrite first_chunk_Some by done. fold b.
    assert (len b = 50) as Hb by (apply len_slice; unfold FRAME_HEADER_LEN in *; lia).
    assert (exists v, slice O_VER 1 b = [v]) as [v Hv].
    { assert (len (slice O_VER 1 b) = 1) as E by (apply len_slice; unfold O_VER; lia).
      destruct (slice O_VER 1 b) as [|v [|w l]]; [done|by eexists|].
      rewrite !len_cons in E. pose proof (len_nonneg l). lia. }
    rewrite Hv. cbn [le_val]. rewrite Z.mul_0_r, Z.add_0_r.
    case_bool_decide; [|done]. cbn [negb].
    destruct (Z.eqb_spec v PROTOCOL_VERSION) as [->|]; [|done]. cbn [negb].
    destruct (Z.eqb_spec (le_val (slice O_CRC 4 b)) (crc32c (copy_at O_CRC (zeros 4) b))); done.
Qed.
End Header.

(** Round trip of a concrete header under the Castagnoli checksum. *)
Lemma frame_header_roundtrip_witness :
  FrameHeader_decode (FrameHeader_encode
    {| pcode := 4; flags := 1; stream_id := 7; seq_no := 9; session := 12345678901;
       payload_len := 4096; trace_id := 77; deadline_ms := 1500 |} ++ [1;2;3])
  = Ok {| pcode := 4; flags := 1; stream_id := 7; seq_no := 9; session := 12345678901;
       payload_len := 4096; trace_id := 77; deadline_ms := 1500 |}.
Proof.
  apply (proj1 frame_header_roundtrip). unfold FrameHeader_wf, uint. simpl. lia.
Defined.
