(* ===== verification/RpcCodec.v ===== *)
(** Data-plane opcodes and control structs (crates/epoch-rpc/src/codec.rs). *)

From S2P Require Import Prelude Ids.

(** ** Opcodes *)

Inductive Pcode : Set :=
| PCreateExtent | PCreateExtentResp | POpen | PData | PEnd | PCommitAck | PReadShard
| PReadShardResp | PError | POpenAck | PSeal | PSealResp | PDeleteBlob | PDeleteBlobResp
| PAbort | PListBlobs | PListBlobsResp.

Definition Pcode_to_u16 (p : Pcode) : Z :=
  match p with
  | PCreateExtent => 1 | PCreateExtentResp => 2 | POpen => 3 | PData => 4 | PEnd => 5
  | PCommitAck => 6 | PReadShard => 7 | PReadShardResp => 8 | PError => 9 | POpenAck => 10
  | PSeal => 11 | PSealResp => 12 | PDeleteBlob => 13 | PDeleteBlobResp => 14
  | PAbort => 15 | PListBlobs => 16 | PListBlobsResp => 17
  end.

Definition Pcode_from_u16 (v : Z) : option Pcode :=
  match v with
  | 1 => Some PCreateExtent | 2 => Some PCreateExtentResp | 3 => Some POpen
  | 4 => Some PData | 5 => Some PEnd | 6 => Some PCommitAck | 7 => Some PReadShard
  | 8 => Some PReadShardResp | 9 => Some PError | 10 => Some POpenAck | 11 => Some PSeal
  | 12 => Some PSealResp | 13 => Some PDeleteBlob | 14 => Some PDeleteBlobResp
  | 15 => Some PAbort | 16 => Some PListBlobs | 17 => Some PListBlobsResp
  | _ => None
  end.

(** ** Shared field access *)

Inductive CodecError : Set := CTruncated (what : string) (got need : Z).

Definition take_chunk (n : Z) (buf : list Z) (what : string) : result CodecError (list Z) :=
  ok_or (first_chunk n buf) (CTruncated what (len buf) n).
Definition le_u64 (buf : list Z) (off : Z) : Z := le_val (slice off 8 buf).
Definition le_u32 (buf : list Z) (off : Z) : Z := le_val (slice off 4 buf).

(** ** Control structs *)

Record CreateExtentReq : Set := { cer_shard_id : ShardId; cer_create_ts : Z }.
Definition CreateExtentReq_encode (r : CreateExtentReq) : list Z :=
  let b := zeros 16 in
  let b := copy_at 0 (le_bytes 8 (cer_shard_id r)) b in
  copy_at 8 (le_bytes 8 (i64_to_u64 (cer_create_ts r))) b.
Definition CreateExtentReq_decode (buf : list Z) : result CodecError CreateExtentReq :=
  a <-? take_chunk 16 buf "CreateExtentReq" ;;
  Ok {| cer_shard_id := le_u64 a 0; cer_create_ts := u64_to_i64 (le_u64 a 8) |}.

(** [CreateExtentResp], [SealReq] and [ListBlobsReq] all carry one extent id. *)
Record CreateExtentResp : Set := { cers_extent_id : ExtentId }.
Definition CreateExtentResp_encode (r : CreateExtentResp) : list Z := cers_extent_id r.
Definition CreateExtentResp_decode (buf : list Z) : result CodecError CreateExtentResp :=
  a <-? take_chunk 16 buf "CreateExtentResp" ;; Ok {| cers_extent_id := a |}.

Record SealReq : Set := { sr_extent_id : ExtentId }.
Definition SealReq_encode (r : SealReq) : list Z := sr_extent_id r.
Definition SealReq_decode (buf : list Z) : result CodecError SealReq :=
  a <-? take_chunk 16 buf "SealReq" ;; Ok {| sr_extent_id := a |}.

Inductive SealResp : Set := SealRespAck.
Definition SealResp_encode (_ : SealResp) : list Z := [].
Definition SealResp_decode (_ : list Z) : result CodecError SealResp := Ok SealRespAck.

Record DeleteBlobReq : Set := { dbr_extent_id : ExtentId; dbr_blob_id : BlobId }.
Definition DeleteBlobReq_encode (r : DeleteBlobReq) : list Z :=
  let b := zeros 24 in
  let b := copy_at 0 (dbr_extent_id r) b in
  copy_at 16 (BlobId_to_be_bytes (dbr_blob_id r)) b.
Definition DeleteBlobReq_decode (buf : list Z) : result CodecError DeleteBlobReq :=
  a <-? take_chunk 24 buf "DeleteBlobReq" ;;
  Ok {| dbr_extent_id := slice 0 16 a; dbr_blob_id := be_val (slice 16 8 a) |}.

Inductive DeleteBlobResp : Set := DeleteBlobRespAck.
Definition DeleteBlobResp_encode (_ : DeleteBlobResp) : list Z := [].
Definition DeleteBlobResp_decode (_ : list Z) : result CodecError DeleteBlobResp :=
  Ok DeleteBlobRespAck.

Record OpenReq : Set := { or_blob_id : BlobId; or_shard_id : ShardId }.
Definition OpenReq_encode (r : OpenReq) : list Z :=
  let b := zeros 16 in
  let b := copy_at 0 (le_bytes 8 (or_blob_id r)) b in
  copy_at 8 (le_bytes 8 (or_shard_id r)) b.
Definition OpenReq_decode (buf : list Z) : result CodecError OpenReq :=
  a <-? take_chunk 16 buf "OpenReq" ;;
  Ok {| or_blob_id := le_u64 a 0; or_shard_id := le_u64 a 8 |}.

Record EndReq : Set := { er_frame_count : Z; er_blob_crc : Z }.
Definition EndReq_encode (r : EndReq) : list Z :=
  let b := zeros 8 in
  let b := copy_at 0 (le_bytes 4 (er_frame_count r)) b in
  copy_at 4 (le_bytes 4 (er_blob_crc r)) b.
Definition EndReq_decode (buf : list Z) : result CodecError EndReq :=
  a <-? take_chunk 8 buf "EndReq" ;;
  Ok {| er_frame_count := le_u32 a 0; er_blob_crc := le_u32 a 4 |}.

Record ReadShardReq : Set := { rsr_shard_id : ShardId; rsr_blob_id : BlobId }.
Definition ReadShardReq_encode (r : ReadShardReq) : list Z :=
  let b := zeros 16 in
  let b := copy_at 0 (le_bytes 8 (rsr_shard_id r)) b in
  copy_at 8 (le_bytes 8 (rsr_blob_id r)) b.
Definition ReadShardReq_decode (buf : list Z) : result CodecError ReadShardReq :=
  a <-? take_chunk 16 buf "ReadShardReq" ;;
  Ok {| rsr_shard_id := le_u64 a 0; rsr_blob_id := le_u64 a 8 |}.

Record ListBlobsReq : Set := { lbr_extent_id : ExtentId }.
Definition ListBlobsReq_encode (r : ListBlobsReq) : list Z := lbr_extent_id r.
Definition ListBlobsReq_decode (buf : list Z) : result CodecError ListBlobsReq :=
  a <-? take_chunk 16 buf "ListBlobsReq" ;; Ok {| lbr_extent_id := a |}.

Record ListBlobsResp : Set := { lbs_blob_ids : list BlobId }.
Definition ListBlobsResp_encode (r : ListBlobsResp) : list Z :=
  foldl (fun out id => out ++ le_bytes 8 id) [] (lbs_blob_ids r).
(** [chunks_exact(8).map(u64::from_le_bytes)]; one chunk per unit of fuel. *)
Fixpoint le_u64_chunks (n : nat) (buf : list Z) : list Z :=
  match n with
  | O => []
  | S n => le_val (slice 0 8 buf) :: le_u64_chunks n (drop 8 buf)
  end.
Definition ListBlobsResp_decode (buf : list Z) : result CodecError ListBlobsResp :=
  if negb (len buf mod 8 =? 0)
  then Err (CTruncated "ListBlobsResp" (len buf) (next_multiple_of (len buf) 8))
  else Ok {| lbs_blob_ids := le_u64_chunks (Z.to_nat (len buf / 8)) buf |}.

Record ErrorResp : Set := { ers_code : Z }.
Definition ErrorResp_from_error (e : EpochError) : ErrorResp := {| ers_code := wire_code e |}.
Definition ErrorResp_error (r : ErrorResp) : EpochError := from_wire_code (ers_code r).
Definition ErrorResp_encode (r : ErrorResp) : list Z := le_bytes 2 (ers_code r).
Definition ErrorResp_decode (buf : list Z) : result CodecError ErrorResp :=
  a <-? take_chunk 2 buf "ErrorResp" ;; Ok {| ers_code := le_val a |}.

(** ** The codec interface: what the dispatcher relies on *)

(** A fixed-size control struct: its values of the wire types decode back from
    their encoding, whatever bytes follow, and a short payload is [Truncated]. *)
Class FixedCodec (T : Type) := {
  fc_wf : T -> Prop;
  fc_name : string;
  fc_len : Z;
  fc_encode : T -> list Z;
  fc_decode : list Z -> result CodecError T;
  fc_encode_len x : fc_wf x -> len (fc_encode x) = fc_len;
  fc_roundtrip x rest : fc_wf x -> fc_decode (fc_encode x ++ rest) = Ok x;
  fc_short buf : len buf < fc_len -> fc_decode buf = Err (CTruncated fc_name (len buf) fc_len)
}.

Lemma take_chunk_app n (a rest : list Z) what :
  n = len a -> take_chunk n (a ++ rest) what = Ok a.
Proof.
  intros ->. unfold take_chunk. pose proof (len_nonneg rest).
  rewrite first_chunk_Some by (lens). by rewrite slice_app_eq.
Qed.
Lemma take_chunk_short n (buf : list Z) what :
  len buf < n -> take_chunk n buf what = Err (CTruncated what (len buf) n).
Proof. intros. unfold take_chunk. by rewrite first_chunk_None. Qed.

(** Two [n]-byte fields written into a zeroed buffer. *)
Lemma two_fields (n : nat) o m x y :
  o = Z.of_nat n -> m = o + o ->
  copy_at o (le_bytes n y) (copy_at 0 (le_bytes n x) (zeros m)) = le_bytes n x ++ le_bytes n y.
Proof. intros -> ->. fill. rewrite zeros_0 by lens. apply app_nil_r. Qed.

#[local] Obligation Tactic := idtac.

#[export] Program Instance CreateExtentReq_codec : FixedCodec CreateExtentReq := {|
  fc_wf r := is_u64 (cer_shard_id r) /\ is_i64 (cer_create_ts r);
  fc_name := "CreateExtentReq"; fc_len := 16;
  fc_encode := CreateExtentReq_encode; fc_decode := CreateExtentReq_decode |}.
Next Obligation. intros r _. unfold CreateExtentReq_encode. cbn [cer_shard_id cer_create_ts] in *. rewrite two_fields by done. by lens. Qed.
Next Obligation.
  intros [s ts] rest [Hs Ht]. unfold CreateExtentReq_decode, CreateExtentReq_encode. cbn [cer_shard_id cer_create_ts] in *.
  rewrite two_fields, take_chunk_app by by lens. unfold le_u64. slices.
  rewrite (le_val_uint 8 64 s), (le_val_uint 8 64 (i64_to_u64 ts)), u64_i64_roundtrip
    by (done || apply i64_to_u64_range). done.
Qed.
Next Obligation. intros buf H. unfold CreateExtentReq_decode. by rewrite take_chunk_short. Qed.

#[export] Program Instance OpenReq_codec : FixedCodec OpenReq := {|
  fc_wf r := is_u64 (or_blob_id r) /\ is_u64 (or_shard_id r);
  fc_name := "OpenReq"; fc_len := 16;
  fc_encode := OpenReq_encode; fc_decode := OpenReq_decode |}.
Next Obligation. intros r _. unfold OpenReq_encode. cbn [or_blob_id or_shard_id] in *. rewrite two_fields by done. by lens. Qed.
Next Obligation.
  intros [b s] rest [Hb Hs]. unfold OpenReq_decode, OpenReq_encode. cbn [or_blob_id or_shard_id] in *.
  rewrite two_fields, take_chunk_app by by lens. unfold le_u64. slices. by le_vals.
Qed.
Next Obligation. intros buf H. unfold OpenReq_decode. by rewrite take_chunk_short. Qed.

#[export] Program Instance EndReq_codec : FixedCodec EndReq := {|
  fc_wf r := is_u32 (er_frame_count r) /\ is_u32 (er_blob_crc r);
  fc_name := "EndReq"; fc_len := 8;
  fc_encode := EndReq_encode; fc_decode := EndReq_decode |}.
Next Obligation. intros r _. unfold EndReq_encode. cbn [er_frame_count er_blob_crc] in *. rewrite two_fields by done. by lens. Qed.
Next Obligation.
  intros [c k] rest [Hc Hk]. unfold EndReq_decode, EndReq_encode. cbn [er_frame_count er_blob_crc] in *.
  rewrite two_fields, take_chunk_app by by lens. unfold le_u32. slices. by le_vals.
Qed.
Next Obligation. intros buf H. unfold EndReq_decode. by rewrite take_chunk_short. Qed.

#[export] Program Instance ReadShardReq_codec : FixedCodec ReadShardReq := {|
  fc_wf r := is_u64 (rsr_shard_id r) /\ is_u64 (rsr_blob_id r);
  fc_name := "ReadShardReq"; fc_len := 16;
  fc_encode := ReadShardReq_encode; fc_decode := ReadShardReq_decode |}.
Next Obligation. intros r _. unfold ReadShardReq_encode. cbn [rsr_shard_id rsr_blob_id] in *. rewrite two_fields by done. by lens. Qed.
Next Obligation.
  intros [s b] rest [Hs Hb]. unfold ReadShardReq_decode, ReadShardReq_encode. cbn [rsr_shard_id rsr_blob_id] in *.
  rewrite two_fields, take_chunk_app by by lens. unfold le_u64. slices. by le_vals.
Qed.
Next Obligation. intros buf H. unfold ReadShardReq_decode. by rewrite take_chunk_short. Qed.

#[export] Program Instance DeleteBlobReq_codec : FixedCodec DeleteBlobReq := {|
  fc_wf r := len (dbr_extent_id r) = 16 /\ is_u64 (dbr_blob_id r);
  fc_name := "DeleteBlobReq"; fc_len := 24;
  fc_encode := DeleteBlobReq_encode; fc_decode := DeleteBlobReq_decode |}.
Next Obligation.
  intros [e b] [He Hb]. unfold DeleteBlobReq_encode, BlobId_to_be_bytes. cbn [dbr_extent_id dbr_blob_id] in *. fill. by lens.
Qed.
Next Obligation.
  intros [e b] rest [He Hb]. unfold DeleteBlobReq_decode, DeleteBlobReq_encode,
    BlobId_to_be_bytes. cbn [dbr_extent_id dbr_blob_id] in *. fill.
  rewrite take_chunk_app by by lens. rewrite <- app_assoc. slices.
  by rewrite (be_val_uint 8 64 b).
Qed.
Next Obligation. intros buf H. unfold DeleteBlobReq_decode. by rewrite take_chunk_short. Qed.

#[export] Program Instance CreateExtentResp_codec : FixedCodec CreateExtentResp := {|
  fc_wf r := len (cers_extent_id r) = 16; fc_name := "CreateExtentResp"; fc_len := 16;
  fc_encode := CreateExtentResp_encode; fc_decode := CreateExtentResp_decode |}.
Next Obligation. done. Qed.
Next Obligation.
  intros [e] rest He. unfold CreateExtentResp_decode. cbn [cers_extent_id] in *. by rewrite take_chunk_app.
Qed.
Next Obligation. intros buf H. unfold CreateExtentResp_decode. by rewrite take_chunk_short. Qed.

#[export] Program Instance SealReq_codec : FixedCodec SealReq := {|
  fc_wf r := len (sr_extent_id r) = 16; fc_name := "SealReq"; fc_len := 16;
  fc_encode := SealReq_encode; fc_decode := SealReq_decode |}.
Next Obligation. done. Qed.
Next Obligation. intros [e] rest He. unfold SealReq_decode. cbn [sr_extent_id] in *. by rewrite take_chunk_app. Qed.
Next Obligation. intros buf H. unfold SealReq_decode. by rewrite take_chunk_short. Qed.

#[export] Program Instance ListBlobsReq_codec : FixedCodec ListBlobsReq := {|
  fc_wf r := len (lbr_extent_id r) = 16; fc_name := "ListBlobsReq"; fc_len := 16;
  fc_encode := ListBlobsReq_encode; fc_decode := ListBlobsReq_decode |}.
Next Obligation. done. Qed.
Next Obligation.
  intros [e] rest He. unfold ListBlobsReq_decode. cbn [lbr_extent_id] in *. by rewrite take_chunk_app.
Qed.
Next Obligation. intros buf H. unfold ListBlobsReq_decode. by rewrite take_chunk_short. Qed.

#[export] Program Instance ErrorResp_codec : FixedCodec ErrorResp := {|
  fc_wf r := is_u16 (ers_code r); fc_name := "ErrorResp"; fc_len := 2;
  fc_encode := ErrorResp_encode; fc_decode := ErrorResp_decode |}.
Next Obligation. intros r _. unfold ErrorResp_encode. by lens. Qed.
Next Obligation.
  intros [c] rest Hc. unfold ErrorResp_decode, ErrorResp_encode. cbn [ers_code] in *.
  rewrite take_chunk_app by by lens. by rewrite (le_val_uint 2 16 c).
Qed.
Next Obligation. intros buf H. unfold ErrorResp_decode. by rewrite take_chunk_short. Qed.

(** ** The variable-length listing and the opcodes *)

Lemma ListBlobsResp_encode_cons id ids :
  ListBlobsResp_encode {| lbs_blob_ids := id :: ids |}
    = le_bytes 8 id ++ ListBlobsResp_encode {| lbs_blob_ids := ids |}.
Proof.
  unfold ListBlobsResp_encode. cbn [lbs_blob_ids foldl].
  assert (forall l acc, foldl (fun out i => out ++ le_bytes 8 i) acc l
            = acc ++ foldl (fun out i => out ++ le_bytes 8 i) [] l) as H.
  { clear. induction l as [|x l IH] using rev_ind; intros acc; [by rewrite app_nil_r|].
    rewrite !foldl_app. cbn [foldl]. by rewrite IH, app_assoc. }
  by rewrite H.
Qed.
Lemma ListBlobsResp_encode_len ids :
  len (ListBlobsResp_encode {| lbs_blob_ids := ids |}) = 8 * len ids.
Proof.
  induction ids as [|id ids IH]; [done|]. rewrite ListBlobsResp_encode_cons. lens.
Qed.
Lemma le_u64_chunks_encode ids : Forall is_u64 ids ->
  le_u64_chunks (length ids) (ListBlobsResp_encode {| lbs_blob_ids := ids |}) = ids.
Proof.
  induction 1 as [|id ids Hid _ IH]; [done|].
  rewrite ListBlobsResp_encode_cons. cbn [length le_u64_chunks]. slices.
  rewrite (le_val_uint 8 64 id) by done. f_equal.
  rewrite drop_app_length'; [done|by rewrite length_le_bytes].
Qed.
Lemma ListBlobsResp_roundtrip ids : Forall is_u64 ids ->
  ListBlobsResp_decode (ListBlobsResp_encode {| lbs_blob_ids := ids |})
    = Ok {| lbs_blob_ids := ids |}.
Proof.
  intros H. unfold ListBlobsResp_decode. rewrite ListBlobsResp_encode_len.
  replace (8 * len ids mod 8 =? 0) with true by (symmetry; apply Z.eqb_eq; lia).
  cbn [negb]. replace (8 * len ids / 8) with (len ids) by lia.
  unfold len. by rewrite Nat2Z.id, le_u64_chunks_encode.
Qed.

Lemma Pcode_roundtrip p : Pcode_from_u16 (Pcode_to_u16 p) = Some p.
Proof. by destruct p. Qed.
Lemma Pcode_from_u16_sound v p : Pcode_from_u16 v = Some p -> Pcode_to_u16 p = v.
Proof.
  destruct v as [|q|]; try done.
  do 5 (try destruct q as [q|q|]; try done); simpl; by intros [= <-].
Qed.
(** Every error survives the wire. *)
Lemma ErrorResp_error_roundtrip e : ErrorResp_error (ErrorResp_from_error e) = e.
Proof. by destruct e. Qed.
Lemma ErrorResp_wf e : fc_wf (ErrorResp_from_error e).
Proof. by destruct e. Qed.

(** What a peer expects of a struct of [n] bytes: the round trip whatever bytes
    follow, and the error on every proper prefix. *)
Definition codec_correct {T} (wf : T -> Prop) (enc : T -> list Z)
    (dec : list Z -> result CodecError T) (name : string) (n : Z) : Prop :=
  forall x, wf x ->
    (forall rest, dec (enc x ++ rest) = Ok x) /\
    (forall m, 0 <= m < n -> dec (take (Z.to_nat m) (enc x)) = Err (CTruncated name m n)).

Lemma FixedCodec_correct {T} (C : FixedCodec T) :
  codec_correct fc_wf fc_encode fc_decode fc_name fc_len.
Proof.
  intros x Hx. split; [intros; by apply fc_roundtrip|]. intros n Hn.
  assert (len (take (Z.to_nat n) (fc_encode x)) = n) as Hl.
  { pose proof (fc_encode_len x Hx). unfold len in *. rewrite length_take. lia. }
  rewrite fc_short by lia. by rewrite Hl.
Qed.

(** What the data-plane peers rely on when they exchange control payloads.
    Each of the nine fixed-size control structs decodes back from its encoding,
    whatever bytes follow it, and every proper prefix of an encoding is rejected
    as [Truncated] with the struct's name and the sizes; a listing of blob ids of
    any length round-trips; an opcode's number is recognised as exactly that
    opcode and no other number is; every error a node sends is the error its peer
    decodes. *)
Theorem control_codecs_roundtrip :
  codec_correct (fun r => is_u64 (cer_shard_id r) /\ is_i64 (cer_create_ts r))
    CreateExtentReq_encode CreateExtentReq_decode "CreateExtentReq" 16 /\
  codec_correct (fun r => len (cers_extent_id r) = 16)
    CreateExtentResp_encode CreateExtentResp_decode "CreateExtentResp" 16 /\
  codec_correct (fun r => len (sr_extent_id r) = 16) SealReq_encode SealReq_decode "SealReq" 16 /\
  codec_correct (fun r => len (dbr_extent_id r) = 16 /\ is_u64 (dbr_blob_id r))
    DeleteBlobReq_encode DeleteBlobReq_decode "DeleteBlobReq" 24 /\
  codec_correct (fun r => is_u64 (or_blob_id r) /\ is_u64 (or_shard_id r))
    OpenReq_encode OpenReq_decode "OpenReq" 16 /\
  codec_correct (fun r => is_u32 (er_frame_count r) /\ is_u32 (er_blob_crc r))
    EndReq_encode EndReq_decode "EndReq" 8 /\
  codec_correct (fun r => is_u64 (rsr_shard_id r) /\ is_u64 (rsr_blob_id r))
    ReadShardReq_encode ReadShardReq_decode "ReadShardReq" 16 /\
  codec_correct (fun r => len (lbr_extent_id r) = 16)
    ListBlobsReq_encode ListBlobsReq_decode "ListBlobsReq" 16 /\
  codec_correct (fun r => is_u16 (ers_code r)) ErrorResp_encode ErrorResp_decode "ErrorResp" 2 /\
  (forall ids, Forall is_u64 ids ->
     ListBlobsResp_decode (ListBlobsResp_encode {| lbs_blob_ids := ids |})
       = Ok {| lbs_blob_ids := ids |}) /\
  (forall v p, Pcode_from_u16 v = Some p <-> v = Pcode_to_u16 p) /\
  (forall e rest, res_ok (ErrorResp_decode (ErrorResp_encode (ErrorResp_from_error e) ++ rest))
     ≫= (fun r => Some (ErrorResp_error r)) = Some e).
Proof.
  split_and!.
  - exact (FixedCodec_correct CreateExtentReq_codec).
  - exact (FixedCodec_correct CreateExtentResp_codec).
  - exact (FixedCodec_correct SealReq_codec).
  - exact (FixedCodec_correct DeleteBlobReq_codec).
  - exact (FixedCodec_correct OpenReq_codec).
  - exact (FixedCodec_correct EndReq_codec).
  - exact (FixedCodec_correct ReadShardReq_codec).
  - exact (FixedCodec_correct ListBlobsReq_codec).
  - exact (FixedCodec_correct ErrorResp_codec).
  - apply ListBlobsResp_roundtrip.
  - intros v p. split; [intros H; symmetry; by apply Pcode_from_u16_sound|].
    intros ->. apply Pcode_roundtrip.
  - intros e rest.
    pose proof (fc_roundtrip (ErrorResp_from_error e) rest (ErrorResp_wf e)) as H.
    cbn in H. rewrite H. cbn. by rewrite ErrorResp_error_roundtrip.
Qed.
