(* ===== verification/RpcServer.v ===== *)
(** The data plane's connections (epoch-rpc: conn.rs, server.rs, transport.rs, pool.rs):
    frames on a byte stream, the server's streams and its dispatch to a handler, the
    in-process transport, and what a remote writer sends. *)

From S2P Require Import Prelude Ids Crc RpcFrame RpcCodec.

(** ** Handlers (transport.rs) *)

Class ShardHandler (H : Type) : Type := {
  sh_create_extent : CreateExtentReq -> H -> H * result EpochError ExtentId;
  sh_open_blob : OpenReq -> H -> H * result EpochError ExtentId;
  sh_commit_blob : ExtentId -> BlobId -> Z -> EndReq -> list Z -> H -> H * result EpochError unit;
  sh_read_shard : ReadShardReq -> H -> H * result EpochError (option (list Z));
  sh_seal_extent : SealReq -> H -> H * result EpochError unit;
  sh_delete_blob : DeleteBlobReq -> H -> H * result EpochError unit;
  sh_list_blobs : ListBlobsReq -> H -> H * result EpochError (list BlobId) }.

(** A write stream inside the process. *)
Record LocalWriteStream : Set := { lw_extent : ExtentId; lw_blob : BlobId; lw_buf : list Z; lw_frames : Z }.
Section Local.
Context {H : Type} `{!ShardHandler H}.
Definition local_open_write (req : OpenReq) (h : H) : H * result EpochError LocalWriteStream :=
  let '(h, r) := sh_open_blob req h in
  (h, extent <-? r ;; Ok {| lw_extent := extent; lw_blob := or_blob_id req; lw_buf := []; lw_frames := 0 |}).
Definition local_send_frame (s : LocalWriteStream) (frame : list Z) : LocalWriteStream :=
  {| lw_extent := lw_extent s; lw_blob := lw_blob s; lw_buf := lw_buf s ++ frame; lw_frames := wrap 32 (lw_frames s + 1) |}.
Definition local_finish (s : LocalWriteStream) (end_ : EndReq) (h : H) : H * result EpochError unit :=
  sh_commit_blob (lw_extent s) (lw_blob s) (lw_frames s) end_ (lw_buf s) h.
End Local.

(** ** Frames on a byte stream (conn.rs) *)

Definition MAX_FRAME_PAYLOAD : Z := 64 * 1024 * 1024.
Section Frames.
Context `{!Crc32c}.
(** What is written, however the socket splits it. *)
Definition send_frame (header : FrameHeader) (body : list Z) : list Z := FrameHeader_encode header ++ body.
(** The header or the body at the front of what is left to read; [None] ends the
    connection: the input ends, or is malformed. *)
Definition read_header (input : list Z) : option (FrameHeader * list Z) :=
  if len input <? FRAME_HEADER_LEN then None
  else match FrameHeader_decode (slice 0 FRAME_HEADER_LEN input) with
       | Ok header => Some (header, drop (Z.to_nat FRAME_HEADER_LEN) input)
       | Err _ => None
       end.
Definition read_body (input : list Z) (n : Z) : option (list Z * list Z) :=
  if MAX_FRAME_PAYLOAD <? n then None
  else if n =? 0 then Some ([], input)
  else if len input <? n then None
  else Some (slice 0 n input, drop (Z.to_nat n) input).
(** The frames of an input; a frame takes a byte at least. *)
Fixpoint read_frames (fuel : nat) (input : list Z) : list (FrameHeader * list Z) :=
  match fuel with
  | O => []
  | S fuel =>
      match read_header input with
      | None => []
      | Some (header, input) =>
          match read_body input (payload_len header) with
          | None => []
          | Some (body, input) => (header, body) :: read_frames fuel input
          end
      end
  end.
End Frames.

(** ** The server (server.rs) *)

Definition MAX_STREAM_BYTES : Z := 48 * 1024 * 1024.
Definition MAX_OPEN_STREAMS : nat := 128.
(** In milliseconds. *)
Definition STREAM_IDLE_TIMEOUT : Z := 60000.
Definition FLAG_READ_HIT : Z := 1.
Record WriteAccum : Set := { wa_extent : ExtentId; wa_blob : BlobId; wa_buf : list Z; wa_frames : Z; wa_last_activity : Z }.
Record ReplyFrame : Set := { rp_pcode : Pcode; rp_flags : Z; rp_stream : Z; rp_payload : list Z }.
Definition reply_header (r : ReplyFrame) : FrameHeader := {|
  pcode := Pcode_to_u16 (rp_pcode r); flags := rp_flags r; stream_id := rp_stream r; seq_no := 0; session := 0;
  payload_len := len (rp_payload r); trace_id := 0; deadline_ms := 0 |}.
Definition reply_bytes `{!Crc32c} (r : ReplyFrame) : list Z := send_frame (reply_header r) (rp_payload r).

Section Server.
Context {H : Type} `{!ShardHandler H}.
Abbreviation Streams := (gmap Z WriteAccum).
(** A connection: the handler it shares, its streams, and the last sweep of idle ones. *)
Record ConnState : Type := { cs_handler : H; cs_streams : Streams; cs_last_reap : Z }.
(** What a frame makes of the handler and the streams, what is answered, and whether
    the connection goes on. *)
Definition Outcome : Type := H * Streams * option ReplyFrame * bool.
Definition reply (h : H) (streams : Streams) (p : Pcode) (fl sid : Z) (payload : list Z) : Outcome :=
  if U32_MAX <? len payload then (h, streams, None, false)
  else (h, streams, Some {| rp_pcode := p; rp_flags := fl; rp_stream := sid; rp_payload := payload |}, true).
Definition reply_error (h : H) (streams : Streams) (sid : Z) (err : EpochError) : Outcome :=
  reply h streams PError 0 sid (ErrorResp_encode (ErrorResp_from_error err)).
Definition silent (h : H) (streams : Streams) : Outcome := (h, streams, None, true).
Definition commit_stream (h : H) (streams : Streams) (sid : Z) (acc : WriteAccum) (end_ : EndReq) : Outcome :=
  match sh_commit_blob (wa_extent acc) (wa_blob acc) (wa_frames acc) end_ (wa_buf acc) h with
  | (h, Ok _) => reply h streams PCommitAck 0 sid []
  | (h, Err err) => reply_error h streams sid err
  end.
(** A request that is decoded, handled and answered. *)
Definition serve {R A} (h : H) (streams : Streams) (sid : Z) (decoded : result CodecError R) (handle : R -> H -> H * result EpochError A)
    (answer : H -> A -> Outcome) : Outcome :=
  match decoded with
  | Err _ => reply_error h streams sid EE_Internal
  | Ok req => match handle req h with (h, Ok a) => answer h a | (h, Err err) => reply_error h streams sid err end
  end.
Definition dispatch (now : Z) (h : H) (streams : Streams) (header : FrameHeader) (body : list Z) : Outcome :=
  let sid := stream_id header in
  match Pcode_from_u16 (pcode header) with
  | Some PCreateExtent =>
      serve h streams sid (CreateExtentReq_decode body) sh_create_extent
        (fun h extent => reply h streams PCreateExtentResp 0 sid (CreateExtentResp_encode {| cers_extent_id := extent |}))
  | Some POpen =>
      match OpenReq_decode body with
      | Err _ => reply_error h streams sid EE_Internal
      | Ok req =>
          if (MAX_OPEN_STREAMS <=? size streams)%nat then reply_error h streams sid EE_Busy
          else
            match sh_open_blob req h with
            | (h, Ok extent) =>
                reply h (<[sid := {| wa_extent := extent; wa_blob := or_blob_id req; wa_buf := []; wa_frames := 0; wa_last_activity := now |}]> streams)
                  POpenAck 0 sid []
            | (h, Err err) => reply_error h streams sid err
            end
      end
  | Some PData =>
      match streams !! sid with
      | Some acc =>
          if MAX_STREAM_BYTES <? len (wa_buf acc) + len body then reply_error h (delete sid streams) sid EE_Internal
          else silent h (<[sid := {| wa_extent := wa_extent acc; wa_blob := wa_blob acc; wa_buf := wa_buf acc ++ body;
                                     wa_frames := wrap 32 (wa_frames acc + 1); wa_last_activity := now |}]> streams)
      | None => silent h streams
      end
  | Some PAbort => silent h (delete sid streams)
  | Some PEnd =>
      match EndReq_decode body with
      | Err _ => reply_error h streams sid EE_Internal
      | Ok end_ => match streams !! sid with
                   | Some acc => commit_stream h (delete sid streams) sid acc end_
                   | None => silent h streams
                   end
      end
  | Some PReadShard =>
      serve h streams sid (ReadShardReq_decode body) sh_read_shard
        (fun h r => match r with Some bytes => reply h streams PReadShardResp FLAG_READ_HIT sid bytes | None => reply h streams PReadShardResp 0 sid [] end)
  | Some PSeal => serve h streams sid (SealReq_decode body) sh_seal_extent (fun h _ => reply h streams PSealResp 0 sid (SealResp_encode SealRespAck))
  | Some PDeleteBlob =>
      serve h streams sid (DeleteBlobReq_decode body) sh_delete_blob (fun h _ => reply h streams PDeleteBlobResp 0 sid (DeleteBlobResp_encode DeleteBlobRespAck))
  | Some PListBlobs =>
      serve h streams sid (ListBlobsReq_decode body) sh_list_blobs (fun h ids => reply h streams PListBlobsResp 0 sid (ListBlobsResp_encode {| lbs_blob_ids := ids |}))
  | None => reply_error h streams sid EE_Internal
  | Some _ => silent h streams
  end.

Definition reap_idle (now : Z) (streams : Streams) : Streams := filter (fun kv => now - wa_last_activity kv.2 < STREAM_IDLE_TIMEOUT) streams.
(** A frame with the time it is handled at. *)
Record TimedFrame : Set := { tf_now : Z; tf_header : FrameHeader; tf_body : list Z }.
Definition conn_step (s : ConnState) (f : TimedFrame) : ConnState * option ReplyFrame * bool :=
  let '(h, streams, r, alive) := dispatch (tf_now f) (cs_handler s) (cs_streams s) (tf_header f) (tf_body f) in
  if alive && (STREAM_IDLE_TIMEOUT <=? tf_now f - cs_last_reap s)
  then ({| cs_handler := h; cs_streams := reap_idle (tf_now f) streams; cs_last_reap := tf_now f |}, r, alive)
  else ({| cs_handler := h; cs_streams := streams; cs_last_reap := cs_last_reap s |}, r, alive).
Fixpoint conn_run (s : ConnState) (frames : list TimedFrame) : ConnState * list ReplyFrame * bool :=
  match frames with
  | [] => (s, [], true)
  | f :: frames =>
      let '(s, r, alive) := conn_step s f in
      if alive then let '(s, rs, alive) := conn_run s frames in (s, option_list r ++ rs, alive)
      else (s, option_list r, false)
  end.
Fixpoint stamp (clock : nat -> Z) (n : nat) (frames : list (FrameHeader * list Z)) : list TimedFrame :=
  match frames with [] => [] | (header, body) :: frames => {| tf_now := clock n; tf_header := header; tf_body := body |} :: stamp clock (S n) frames end.
(** A connection from its start to its end: the bytes that arrive, and when. *)
Definition handle_conn `{!Crc32c} (clock : nat -> Z) (start : Z) (h : H) (input : list Z) : ConnState * list ReplyFrame * bool :=
  conn_run {| cs_handler := h; cs_streams := ∅; cs_last_reap := start |} (stamp clock 0 (read_frames (length input) input)).
End Server.
Arguments ConnState : clear implicits.

(** ** The remote writer (pool.rs, conn.rs) *)

Definition conn_header (p : Pcode) (sid seq : Z) (body : list Z) : FrameHeader := {|
  pcode := Pcode_to_u16 p; flags := 0; stream_id := sid; seq_no := seq; session := 0; payload_len := len body; trace_id := 0; deadline_ms := 0 |}.
Definition open_frame (sid : Z) (req : OpenReq) : FrameHeader * list Z := (conn_header POpen sid 0 (OpenReq_encode req), OpenReq_encode req).
Fixpoint data_frames (sid seq : Z) (frames : list (list Z)) : list (FrameHeader * list Z) :=
  match frames with [] => [] | frame :: frames => (conn_header PData sid seq frame, frame) :: data_frames sid (wrap 32 (seq + 1)) frames end.
Definition end_frame (sid seq : Z) (end_ : EndReq) : FrameHeader * list Z := (conn_header PEnd sid seq (EndReq_encode end_), EndReq_encode end_).
(** The answer to the commit. *)
Definition finish_answer (r : ReplyFrame) : result EpochError unit :=
  match rp_pcode r with
  | PCommitAck => Ok tt
  | PError => Err match ErrorResp_decode (rp_payload r) with Ok resp => ErrorResp_error resp | Err _ => EE_Internal end
  | _ => Err EE_Internal
  end.

(** ** Proofs

    What a stream of a connection delivers, whatever other streams share it. *)

(** ** Frames *)

Section Wire.
Context `{!Crc32c}.
Definition frame_wf (f : FrameHeader * list Z) : Prop := FrameHeader_wf f.1 /\ payload_len f.1 = len f.2 /\ len f.2 <= MAX_FRAME_PAYLOAD.
Definition wire (fs : list (FrameHeader * list Z)) : list Z := concat ((fun f => send_frame f.1 f.2) <$> fs).
Lemma drop_len_app (n : Z) (a b : list Z) : n = len a -> drop (Z.to_nat n) (a ++ b) = b.
Proof. intros ->. unfold len. rewrite Nat2Z.id. by rewrite drop_app_length. Qed.
Lemma read_one header body rest : frame_wf (header, body) ->
  read_header (send_frame header body ++ rest) = Some (header, body ++ rest) /\ read_body (body ++ rest) (payload_len header) = Some (body, rest).
Proof.
  intros (Hh & Hp & Hm). cbn [fst snd] in *. pose proof (len_nonneg rest) as Hr. pose proof (len_nonneg body) as Hb.
  destruct (proj1 frame_header_roundtrip header (body ++ rest) Hh) as [Hl Hd]. split.
  - unfold read_header, send_frame. rewrite <- app_assoc. rewrite (proj2 (Z.ltb_ge _ _)) by (rewrite !len_app; lia).
    rewrite slice_app_eq by done. pose proof (proj1 frame_header_roundtrip header [] Hh) as [_ Hd']. rewrite app_nil_r in Hd'. rewrite Hd'.
    by rewrite drop_len_app.
  - unfold read_body. rewrite Hp, (proj2 (Z.ltb_ge _ _)) by lia. destruct (Z.eqb_spec (len body) 0) as [E|E]; [apply len_0_nil in E as ->; done|].
    rewrite (proj2 (Z.ltb_ge _ _)) by (rewrite len_app; lia). by rewrite slice_app_eq, drop_len_app.
Qed.
Lemma read_frames_wire fs : Forall frame_wf fs -> forall fuel, (length fs <= fuel)%nat -> read_frames fuel (wire fs) = fs.
Proof.
  induction 1 as [|[header body] fs Hf Hfs IH]; intros fuel Hfuel; [by destruct fuel|]. destruct fuel as [|fuel]; [cbn in Hfuel; lia|].
  change (wire ((header, body) :: fs)) with (send_frame header body ++ wire fs). cbn [read_frames].
  destruct (read_one header body (wire fs) Hf) as [-> ->]. f_equal. apply IH. cbn in Hfuel. lia.
Qed.
(** The server reads the frames that were sent. *)
Lemma wire_frames fs : Forall frame_wf fs -> read_frames (length (wire fs)) (wire fs) = fs.
Proof.
  intros Hfs. apply read_frames_wire; [done|]. induction Hfs as [|[header body] fs (Hh & _) _ IH]; [done|].
  change (wire ((header, body) :: fs)) with (send_frame header body ++ wire fs). unfold send_frame. rewrite !length_app. cbn [length].
  destruct (proj1 frame_header_roundtrip header [] Hh) as [Hl _]. unfold len, FRAME_HEADER_LEN in Hl. lia.
Qed.
End Wire.

(** ** Streams *)

Section Streams.
Context {H : Type} `{!ShardHandler H} (sid : Z).
Implicit Types (s : ConnState H).

(** A frame of another stream leaves this one's state, and answers elsewhere. *)
Lemma dispatch_other now (h : H) streams header body : stream_id header <> sid ->
  let '(h', streams', r, alive) := dispatch now h streams header body in
  streams' !! sid = streams !! sid /\ forall rp, r = Some rp -> rp_stream rp = stream_id header.
Proof.
  intros Hne. unfold dispatch, serve, commit_stream, reply_error, reply, silent.
  repeat (case_match; simplify_eq/=); (split; [rewrite ?lookup_insert_ne, ?lookup_delete_ne by done; done|intros rp Hrp; by simplify_eq/=]).
Qed.
Lemma reap_keeps now (streams : gmap Z WriteAccum) acc : streams !! sid = Some acc -> now - wa_last_activity acc < STREAM_IDLE_TIMEOUT ->
  reap_idle now streams !! sid = Some acc.
Proof. intros Hs Hn. unfold reap_idle. by apply map_lookup_filter_Some_2. Qed.
Lemma step_other s f s' r alive : stream_id (tf_header f) <> sid -> conn_step s f = (s', r, alive) ->
  (forall acc, cs_streams s !! sid = Some acc -> tf_now f - wa_last_activity acc < STREAM_IDLE_TIMEOUT -> cs_streams s' !! sid = Some acc)
  /\ (cs_streams s !! sid = None -> cs_streams s' !! sid = None)
  /\ forall rp, r = Some rp -> rp_stream rp <> sid.
Proof.
  intros Hne. unfold conn_step. pose proof (dispatch_other (tf_now f) (cs_handler s) (cs_streams s) (tf_header f) (tf_body f) Hne) as Hd.
  destruct (dispatch _ _ _ _ _) as [[[h streams] r0] alive0]. destruct Hd as [Hs Hr].
  assert (forall rp, r0 = Some rp -> rp_stream rp <> sid) as Hr' by (intros rp E; rewrite (Hr rp E); done).
  destruct (_ && _); intros [= <- <- <-]; cbn [cs_streams]; rewrite <- Hs; split_and!; try done.
  - intros acc E Hn. by apply reap_keeps.
  - intros E. apply map_lookup_filter_None. by left.
Qed.

Definition of_stream (fs : list (FrameHeader * list Z)) : list (FrameHeader * list Z) := filter (fun f => stream_id f.1 = sid) fs.
Definition answers_on (rs : list ReplyFrame) : list ReplyFrame := filter (fun r => rp_stream r = sid) rs.
Lemma answers_other r rs : (forall rp, r = Some rp -> rp_stream rp <> sid) -> answers_on (option_list r ++ rs) = answers_on rs.
Proof. intros Hr. destruct r as [rp|]; [|done]. change (option_list (Some rp) ++ rs) with (rp :: rs). unfold answers_on. rewrite filter_cons, decide_False; [done|]. by apply Hr. Qed.
Lemma run_cons s f fs s' rs : conn_run s (f :: fs) = (s', rs, true) ->
  exists s1 r rs1, conn_step s f = (s1, r, true) /\ conn_run s1 fs = (s', rs1, true) /\ rs = option_list r ++ rs1.
Proof.
  cbn [conn_run]. destruct (conn_step s f) as [[s1 r] [|]]; [|done]. destruct (conn_run s1 fs) as [[s2 rs1] alive] eqn:E. intros [= <- <- ->].
  by exists s1, r, rs1.
Qed.
(** A stream that is not open and gets no frames stays so, and is not answered. *)
Lemma run_quiet clock fs : of_stream fs = [] -> forall n s s' rs, cs_streams s !! sid = None ->
  conn_run s (stamp clock n fs) = (s', rs, true) -> answers_on rs = [] /\ cs_streams s' !! sid = None.
Proof.
  induction fs as [|[header body] fs IH]; intros Hof n s s' rs Hs; [by intros [= <- <-]|]. cbn [stamp].
  unfold of_stream in Hof. rewrite filter_cons in Hof. cbn [fst] in Hof. destruct (decide (stream_id header = sid)) as [|Hne]; [done|].
  intros (s1 & r & rs1 & E1 & E2 & ->)%run_cons. apply step_other in E1 as (_ & Hn & Hr); [|done].
  destruct (IH Hof (S n) s1 s' rs1 (Hn Hs) E2) as [Ha Hs']. split; [|done]. by rewrite answers_other.
Qed.

(** *** A frame of the stream *)

Definition local_of (acc : WriteAccum) : LocalWriteStream :=
  {| lw_extent := wa_extent acc; lw_blob := wa_blob acc; lw_buf := wa_buf acc; lw_frames := wa_frames acc |}.
Lemma step_data s now seq d acc s' r alive : cs_streams s !! sid = Some acc -> len (wa_buf acc) + len d <= MAX_STREAM_BYTES ->
  conn_step s {| tf_now := now; tf_header := conn_header PData sid seq d; tf_body := d |} = (s', r, alive) ->
  r = None /\ exists acc', cs_streams s' !! sid = Some acc' /\ local_of acc' = local_send_frame (local_of acc) d /\ wa_last_activity acc' = now.
Proof.
  intros Hs Hl. unfold conn_step, dispatch. cbn [tf_header tf_body tf_now conn_header stream_id pcode]. rewrite Pcode_roundtrip, Hs.
  rewrite (proj2 (Z.ltb_ge _ _)) by done. unfold silent. set (acc' := {| wa_extent := wa_extent acc; wa_blob := _; wa_buf := _; wa_frames := _; wa_last_activity := _ |}).
  destruct (_ && _); intros [= <- <- <-]; cbn [cs_streams]; (split; [done|]); exists acc'; split_and!; try done.
  - apply reap_keeps; [apply lookup_insert_eq|]. cbn [acc' wa_last_activity]. unfold STREAM_IDLE_TIMEOUT. lia.
  - apply lookup_insert_eq.
Qed.
Lemma reap_none now (streams : gmap Z WriteAccum) : streams !! sid = None -> reap_idle now streams !! sid = None.
Proof. intros E. apply map_lookup_filter_None. by left. Qed.
Lemma step_end s now seq end_ acc s' r alive : cs_streams s !! sid = Some acc -> fc_wf end_ ->
  conn_step s {| tf_now := now; tf_header := conn_header PEnd sid seq (EndReq_encode end_); tf_body := EndReq_encode end_ |} = (s', r, alive) ->
  cs_streams s' !! sid = None /\ exists h2 res rp, local_finish (local_of acc) end_ (cs_handler s) = (h2, res) /\ cs_handler s' = h2
    /\ r = Some rp /\ rp_stream rp = sid /\ finish_answer rp = res.
Proof.
  intros Hs Hwf. unfold conn_step, dispatch. cbn [tf_header tf_body tf_now conn_header stream_id pcode]. rewrite Pcode_roundtrip.
  pose proof (fc_roundtrip end_ [] Hwf) as Hd. rewrite app_nil_r in Hd. cbn [fc_decode fc_encode EndReq_codec] in Hd. rewrite Hd, Hs.
  unfold commit_stream, local_finish, local_of. cbn [lw_extent lw_blob lw_frames lw_buf]. destruct (sh_commit_blob _ _ _ _ _ _) as [h2 res] eqn:Ec.
  assert (forall e, len (ErrorResp_encode (ErrorResp_from_error e)) <= U32_MAX) as Hle by (intros e; by destruct e).
  destruct res as [[]|e]; unfold reply_error, reply; rewrite (proj2 (Z.ltb_ge _ _)) by (done || apply Hle);
    destruct (_ && _); intros [= <- <- <-]; cbn [cs_streams cs_handler]; (split; [rewrite ?reap_none; rewrite ?lookup_delete_eq; done|]);
    do 3 eexists; split_and!; try done; cbn [finish_answer rp_pcode rp_payload].
  all: pose proof (fc_roundtrip (ErrorResp_from_error e) [] (ErrorResp_wf e)) as He; rewrite app_nil_r in He;
    change (ErrorResp_decode (ErrorResp_encode (ErrorResp_from_error e)) = Ok (ErrorResp_from_error e)) in He; by rewrite He, ErrorResp_error_roundtrip.
Qed.

(** *** A whole stream *)

(** The commit of the stream: of what was collected, at its [End], on the handler the
    frames before it left. *)
Definition committed_at clock n (stream : LocalWriteStream) end_ eseq fs s (res : result EpochError unit) : Prop :=
  exists pre post before after out rp, fs = pre ++ end_frame sid eseq end_ :: post
    /\ conn_run s (stamp clock n pre) = (before, out, true)
    /\ conn_step before {| tf_now := clock (n + length pre)%nat; tf_header := (end_frame sid eseq end_).1; tf_body := (end_frame sid eseq end_).2 |} = (after, Some rp, true)
    /\ local_finish stream end_ (cs_handler before) = (cs_handler after, res).
Lemma committed_later clock n stream end_ eseq fs s s1 r f res : conn_step s {| tf_now := clock n; tf_header := f.1; tf_body := f.2 |} = (s1, r, true) ->
  committed_at clock (S n) stream end_ eseq fs s1 res -> committed_at clock n stream end_ eseq (f :: fs) s res.
Proof.
  intros E (pre & post & before & after & out & rp & -> & Hrun & Hend & Hf). destruct f as [header body].
  exists ((header, body) :: pre), post, before, after, (option_list r ++ out), rp. cbn [stamp conn_run fst snd] in *. rewrite E, Hrun.
  split_and!; [done|done| |done]. cbn [length]. by rewrite <- Nat.add_succ_comm.
Qed.

Lemma run_stream clock start end_ eseq : fc_wf end_ -> forall fs ds seq acc n s s' rs,
  cs_streams s !! sid = Some acc -> start <= wa_last_activity acc ->
  (forall k, (n <= k < n + length fs)%nat -> start <= clock k < start + STREAM_IDLE_TIMEOUT) ->
  of_stream fs = data_frames sid seq ds ++ [end_frame sid eseq end_] -> len (wa_buf acc) + len (concat ds) <= MAX_STREAM_BYTES ->
  conn_run s (stamp clock n fs) = (s', rs, true) ->
  cs_streams s' !! sid = None /\ exists res rp, committed_at clock n (foldl local_send_frame (local_of acc) ds) end_ eseq fs s res
    /\ answers_on rs = [rp] /\ finish_answer rp = res.
Proof.
  intros Hwf. induction fs as [|[header body] fs IH]; intros ds seq acc n s s' rs Hs Ha Ht Hof Hl; [by destruct ds|]. cbn [stamp].
  intros (s1 & r & rs1 & E1 & E2 & ->)%run_cons.
  assert (start <= clock n < start + STREAM_IDLE_TIMEOUT) as Hn by (apply Ht; cbn; lia).
  assert (forall k, (S n <= k < S n + length fs)%nat -> start <= clock k < start + STREAM_IDLE_TIMEOUT) as Ht' by (intros k Hk; apply Ht; cbn; lia).
  unfold of_stream in Hof. rewrite filter_cons in Hof. cbn [fst] in Hof. destruct (decide (stream_id header = sid)) as [Hsid|Hne].
  2:{ destruct (step_other s {| tf_now := clock n; tf_header := header; tf_body := body |} _ _ _ Hne E1) as (Hk & _ & Hr). rewrite answers_other by done.
      edestruct IH as (Hs' & res & rp & Hc & Hr1); [apply Hk; [exact Hs|cbn [tf_now]; lia]|done|exact Ht'|exact Hof|done|exact E2|].
      split; [done|]. exists res, rp. split; [|done]. by eapply (committed_later _ _ _ _ _ _ _ _ _ (header, body)). }
  destruct ds as [|d ds]; cbn [data_frames app] in Hof.
  - injection Hof as -> -> Hof. destruct (step_end _ _ _ _ _ _ _ _ Hs Hwf E1) as (Hs1 & h2 & res & rp & Hf & Hh & -> & Hrp & Hans).
    destruct (run_quiet _ _ Hof _ _ _ _ Hs1 E2) as [Hq Hs']. split; [done|]. exists res, rp.
    split; [exists [], fs, s, s1, [], rp; rewrite Nat.add_0_r, Hh; by split_and!|]. split; [|done].
    change (option_list (Some rp) ++ rs1) with (rp :: rs1). unfold answers_on in *. rewrite filter_cons, decide_True by done. by rewrite Hq.
  - injection Hof as -> -> Hof. cbn [concat] in Hl. rewrite len_app in Hl. pose proof (len_nonneg (concat ds)) as Hc.
    destruct (step_data _ _ _ d acc _ _ _ Hs ltac:(lia) E1) as (-> & acc' & Hs1 & Hloc & Hact).
    change (option_list None ++ rs1) with rs1. cbn [foldl]. rewrite <- Hloc.
    edestruct IH as (Hs' & res & rp & Hcm & Hr1); [exact Hs1|lia|exact Ht'|exact Hof| |exact E2|].
    2:{ split; [done|]. exists res, rp. split; [|done]. by eapply (committed_later _ _ _ _ _ _ _ _ _ (conn_header PData sid seq d, d)). }
    apply (f_equal (fun l => len (lw_buf l))) in Hloc. cbn [local_of local_send_frame lw_buf] in Hloc. rewrite len_app in Hloc. lia.
Qed.
End Streams.

Section Delivery.
Context {H : Type} `{!ShardHandler H} `{!Crc32c}.

(** C24: a write stream of a connection, whatever frames of other streams it is mixed with on
    the wire. Once its [Open] was acknowledged, a remote writer that sends its frames
    and its [End] within the idle timeout and the stream's byte limit, on a connection
    that stays up, gets exactly one answer: that of the commit a writer inside the
    process would have made on the handler as the frames before the [End] left it, of
    the blob and the extent it opened, with the same bytes and the same number of
    frames, which leaves the handler that commit leaves; and the server forgets the
    stream. *)
Theorem stream_delivery sid req ds end_ eseq clock start n fs (s s1 s' : ConnState H) opened rs :
  fc_wf req -> fc_wf end_ -> Forall frame_wf fs ->
  conn_step s {| tf_now := start; tf_header := (open_frame sid req).1; tf_body := (open_frame sid req).2 |} = (s1, Some opened, true) ->
  rp_pcode opened = POpenAck ->
  (forall k, (n <= k < n + length fs)%nat -> start <= clock k < start + STREAM_IDLE_TIMEOUT) ->
  of_stream sid fs = data_frames sid 1 ds ++ [end_frame sid eseq end_] -> len (concat ds) <= MAX_STREAM_BYTES ->
  conn_run s1 (stamp clock n (read_frames (length (wire fs)) (wire fs))) = (s', rs, true) ->
  cs_streams s' !! sid = None
  /\ exists stream res rp, local_open_write req (cs_handler s) = (cs_handler s1, Ok stream)
       /\ committed_at sid clock n (foldl local_send_frame stream ds) end_ eseq fs s1 res /\ answers_on sid rs = [rp] /\ finish_answer rp = res.
Proof.
  intros Hreq Hend Hfs Hopen Hack Ht Hof Hl Hrun. rewrite wire_frames in Hrun by done.
  unfold conn_step, dispatch, open_frame in Hopen. cbn [fst snd tf_header tf_body tf_now conn_header stream_id pcode] in Hopen. rewrite Pcode_roundtrip in Hopen.
  pose proof (fc_roundtrip req [] Hreq) as Hd. rewrite app_nil_r in Hd. cbn [fc_decode fc_encode OpenReq_codec] in Hd. rewrite Hd in Hopen.
  assert (forall (h : H) (streams : gmap Z WriteAccum) e h' st rp al, reply_error h streams sid e = (h', st, Some rp, al) -> rp_pcode rp <> POpenAck) as Herr.
  { intros h streams e h' st rp al. unfold reply_error, reply. destruct (_ <? _); [done|]. by intros [= _ _ <- _]. }
  destruct (MAX_OPEN_STREAMS <=? _)%nat.
  { destruct (reply_error _ _ _ _) as [[[h' st] r0] al] eqn:E. exfalso. destruct (_ && _); injection Hopen as _ -> _; by eapply Herr. }
  destruct (sh_open_blob req (cs_handler s)) as [h' [extent|e]] eqn:Eo.
  2:{ destruct (reply_error _ _ _ _) as [[[h2 st] r0] al] eqn:E. exfalso. destruct (_ && _); injection Hopen as _ -> _; by eapply Herr. }
  unfold reply in Hopen. cbn in Hopen. set (acc := {| wa_extent := extent; wa_blob := or_blob_id req; wa_buf := []; wa_frames := 0; wa_last_activity := start |}) in *.
  assert (cs_handler s1 = h' /\ cs_streams s1 !! sid = Some acc) as [Hh Hacc].
  { destruct (STREAM_IDLE_TIMEOUT <=? _); injection Hopen as <- _; cbn [cs_handler cs_streams]; (split; [done|]); [apply reap_keeps|]; try apply lookup_insert_eq.
    cbn [acc wa_last_activity]. unfold STREAM_IDLE_TIMEOUT. lia. }
  destruct (run_stream sid clock start end_ eseq Hend fs ds 1 acc n s1 s' rs Hacc ltac:(done) Ht Hof Hl Hrun) as (Hs' & res & rp & Hf & Hans & Hfin).
  split; [done|]. exists (local_of acc), res, rp. split; [|done]. unfold local_open_write. by rewrite Eo, Hh.
Qed.
End Delivery.
