(* ===== verification/Record.v ===== *)
(** Blob record framing and extent status (crates/epoch-store/src/extent/record.rs
    and extent/state.rs). A record on disk is a 32-byte header, the body and an
    8-byte footer, padded with zeros to a multiple of 4096. *)

From S2P Require Import Prelude Ids Crc.

(** ** Extent status (state.rs) *)

Inductive ExtentStatus : Set := ES_Rebuilding | ES_Writable | ES_Full | ES_Sealed | ES_Dropped.
#[export] Instance ExtentStatus_eq_dec : EqDecision ExtentStatus.
Proof. solve_decision. Defined.

Definition ExtentStatus_to_u8 (s : ExtentStatus) : Z :=
  match s with
  | ES_Rebuilding => 0 | ES_Writable => 1 | ES_Full => 2 | ES_Sealed => 3 | ES_Dropped => 4
  end.
Definition ExtentStatus_from_u8 (value : Z) : option ExtentStatus :=
  match value with
  | 0 => Some ES_Rebuilding | 1 => Some ES_Writable | 2 => Some ES_Full
  | 3 => Some ES_Sealed | 4 => Some ES_Dropped
  | _ => None
  end.
Definition ExtentStatus_is_writable (s : ExtentStatus) : bool :=
  match s with ES_Writable => true | _ => false end.

Lemma ExtentStatus_roundtrip s : ExtentStatus_from_u8 (ExtentStatus_to_u8 s) = Some s.
Proof. by destruct s. Qed.

(** ** Record header and footer (record.rs) *)

Definition RECORD_HEADER_LEN : Z := 32.
Definition RECORD_FOOTER_LEN : Z := 8.
Definition RECORD_ALIGN : Z := 4096.
Definition HEADER_MAGIC : list Z := [69; 80; 82; 72].
Definition FOOTER_MAGIC : list Z := [69; 80; 82; 70].
Definition H_CRC : Z := 0.
Definition H_MAGIC : Z := 4.
Definition H_BLOB : Z := 8.
Definition H_SHARD : Z := 16.
Definition H_SIZE : Z := 24.
Definition H_PAD : Z := 28.

Inductive RecordError : Set :=
| RTruncated (got need : Z)
| RBadHeaderMagic
| RBadFooterMagic
| RHeaderChecksum (stored computed : Z)
| RBodyTooLarge (n : Z).

Record RecordHeader : Set := { rh_blob_id : BlobId; rh_shard_id : ShardId; rh_body_len : Z }.
#[export] Instance RecordHeader_eq_dec : EqDecision RecordHeader.
Proof. solve_decision. Defined.

Definition RecordHeader_wf (h : RecordHeader) : Prop :=
  is_u64 (rh_blob_id h) /\ is_u64 (rh_shard_id h) /\ is_u32 (rh_body_len h).

Definition RecordHeader_new (blob_id : BlobId) (shard_id : ShardId) (body_len : Z)
    : result RecordError RecordHeader :=
  if body_len <=? U32_MAX
  then Ok {| rh_blob_id := blob_id; rh_shard_id := shard_id; rh_body_len := body_len |}
  else Err (RBodyTooLarge body_len).

(** Bytes a record of [body_len] body bytes occupies. *)
Definition record_on_disk_len (body_len : Z) : Z :=
  next_multiple_of (RECORD_HEADER_LEN + body_len + RECORD_FOOTER_LEN) RECORD_ALIGN.
Definition RecordHeader_on_disk_len (h : RecordHeader) : Z := record_on_disk_len (rh_body_len h).

Section Record.
Context `{Crc32c}.

Definition RecordHeader_encode (h : RecordHeader) : list Z :=
  let buf := zeros RECORD_HEADER_LEN in
  let buf := copy_at H_MAGIC HEADER_MAGIC buf in
  let buf := copy_at H_BLOB (le_bytes 8 (rh_blob_id h)) buf in
  let buf := copy_at H_SHARD (le_bytes 8 (rh_shard_id h)) buf in
  let buf := copy_at H_SIZE (le_bytes 4 (rh_body_len h)) buf in
  let crc := crc32c (drop (Z.to_nat H_MAGIC) buf) in
  copy_at H_CRC (le_bytes 4 crc) buf.

Definition RecordHeader_decode (buf : list Z) : result RecordError RecordHeader :=
  match first_chunk RECORD_HEADER_LEN buf with
  | None => Err (RTruncated (len buf) RECORD_HEADER_LEN)
  | Some buf =>
      if negb (bool_decide (slice H_MAGIC 4 buf = HEADER_MAGIC)) then Err RBadHeaderMagic
      else
        let stored := le_val (slice H_CRC 4 buf) in
        let computed := crc32c (drop (Z.to_nat H_MAGIC) buf) in
        if negb (stored =? computed) then Err (RHeaderChecksum stored computed)
        else Ok {| rh_blob_id := le_val (slice H_BLOB 8 buf);
                   rh_shard_id := le_val (slice H_SHARD 8 buf);
                   rh_body_len := le_val (slice H_SIZE 4 buf) |}
  end.

Definition encode_footer (body_crc : Z) : list Z :=
  let buf := zeros RECORD_FOOTER_LEN in
  let buf := copy_at 0 FOOTER_MAGIC buf in
  copy_at 4 (le_bytes 4 body_crc) buf.

Definition decode_footer (buf : list Z) : result RecordError Z :=
  match first_chunk RECORD_FOOTER_LEN buf with
  | None => Err (RTruncated (len buf) RECORD_FOOTER_LEN)
  | Some buf =>
      if negb (bool_decide (slice 0 4 buf = FOOTER_MAGIC)) then Err RBadFooterMagic
      else Ok (le_val (slice 4 4 buf))
  end.

Definition body_crc (body : list Z) : Z := crc32c body.

(** ** Layout and round trips *)

(** The bytes the header checksum covers. *)
Definition record_fields (h : RecordHeader) : list Z :=
  HEADER_MAGIC ++ le_bytes 8 (rh_blob_id h) ++ le_bytes 8 (rh_shard_id h)
  ++ le_bytes 4 (rh_body_len h) ++ zeros 4.

Lemma copy_at_head (src z rest : list Z) :
  len src = len z -> copy_at 0 src (z ++ rest) = src ++ rest.
Proof. intros E. apply (copy_at_replace 0 [] z src rest); done. Qed.

Lemma RecordHeader_encode_fields h :
  RecordHeader_encode h = le_bytes 4 (crc32c (record_fields h)) ++ record_fields h.
Proof.
  unfold RecordHeader_encode, RECORD_HEADER_LEN, H_MAGIC, H_BLOB, H_SHARD, H_SIZE, H_CRC.
  rewrite (zeros_split 32 4) by lia. unfold HEADER_MAGIC. fill.
  rewrite <- !app_assoc. rewrite drop_app_length' by done.
  rewrite copy_at_head by (by lens). unfold record_fields, HEADER_MAGIC. done.
Qed.

Lemma len_record_fields h : len (record_fields h) = 28.
Proof. unfold record_fields, HEADER_MAGIC. by lens. Qed.
Lemma RecordHeader_encode_len h : len (RecordHeader_encode h) = RECORD_HEADER_LEN.
Proof. rewrite RecordHeader_encode_fields, len_app, len_record_fields, len_le_bytes. done. Qed.

Lemma RecordHeader_decode_encode h rest : RecordHeader_wf h ->
  RecordHeader_decode (RecordHeader_encode h ++ rest) = Ok h.
Proof.
  intros (Hb & Hs & Hl). unfold RecordHeader_decode.
  pose proof (RecordHeader_encode_len h) as Hlen.
  rewrite first_chunk_Some by (rewrite len_app, Hlen; pose proof (len_nonneg rest); lia).
  rewrite slice_app_eq by done. rewrite RecordHeader_encode_fields.
  pose proof (crc32c_range (record_fields h)) as Hc.
  remember (crc32c (record_fields h)) as c eqn:Ec.
  unfold H_MAGIC, H_CRC, H_BLOB, H_SHARD, H_SIZE. rewrite drop_app_length' by done.
  rewrite <- Ec. clear Ec. unfold record_fields, HEADER_MAGIC. slices. le_vals.
  rewrite bool_decide_true, Z.eqb_refl by done. by destruct h.
Qed.

Lemma encode_footer_app c : encode_footer c = FOOTER_MAGIC ++ le_bytes 4 c.
Proof.
  unfold encode_footer, RECORD_FOOTER_LEN, FOOTER_MAGIC. fill.
  by rewrite zeros_0, app_nil_r by by lens.
Qed.
Lemma encode_footer_len c : len (encode_footer c) = RECORD_FOOTER_LEN.
Proof. rewrite encode_footer_app. unfold FOOTER_MAGIC. by lens. Qed.

Lemma decode_encode_footer c rest : is_u32 c -> decode_footer (encode_footer c ++ rest) = Ok c.
Proof.
  intros Hc. unfold decode_footer. pose proof (encode_footer_len c) as Hl.
  rewrite first_chunk_Some by (rewrite len_app, Hl; pose proof (len_nonneg rest); lia).
  rewrite slice_app_eq by done. rewrite encode_footer_app. unfold FOOTER_MAGIC. slices.
  rewrite bool_decide_true by done. cbn [negb]. by rewrite (le_val_uint 4 32 c).
Qed.

Lemma record_on_disk_len_spec n : 0 <= n ->
  RECORD_HEADER_LEN + n + RECORD_FOOTER_LEN <= record_on_disk_len n
  /\ record_on_disk_len n < RECORD_HEADER_LEN + n + RECORD_FOOTER_LEN + RECORD_ALIGN
  /\ record_on_disk_len n mod RECORD_ALIGN = 0.
Proof.
  intros Hn. unfold record_on_disk_len.
  pose proof (next_multiple_of_spec (RECORD_HEADER_LEN + n + RECORD_FOOTER_LEN) RECORD_ALIGN).
  unfold RECORD_HEADER_LEN, RECORD_FOOTER_LEN, RECORD_ALIGN in *. lia.
Qed.
End Record.
