(* ===== verification/ExtentFile.v ===== *)
(** Extent files (crates/epoch-store/src/extent/file.rs): the 4 KiB header, record
    append, positioned reads and the tail-truncation recovery scan.

    A file is its bytes. [write_all_at], [read_exact_at] and [set_len] are the
    semantics of the positioned file operations of [std]; faults of the device
    (an I/O error on a healthy range) are not represented, a short read is. *)

From S2P Require Import Prelude Ids Crc Record.

(** ** Positioned file operations *)

(** The kind of an [io::Error]; [IoOther] carries its raw OS error, if any. *)
Inductive IoKind : Set :=
| IoNotFound | IoAlreadyExists | IoUnexpectedEof | IoInvalidInput | IoStorageFull
| IoOther (raw : option Z).

Definition write_all_at (src : list Z) (off : Z) (f : list Z) : list Z :=
  if len src =? 0 then f
  else take (Z.to_nat off) (f ++ zeros (off - len f)) ++ src ++ drop (Z.to_nat (off + len src)) f.
Definition read_exact_at (n off : Z) (f : list Z) : result IoKind (list Z) :=
  if (n =? 0) || (off + n <=? len f) then Ok (slice off n f) else Err IoUnexpectedEof.
Definition set_len (n : Z) (f : list Z) : list Z := take (Z.to_nat n) (f ++ zeros (n - len f)).

(** ** Extent header *)

Definition EXTENT_HEADER_LEN : Z := 4096.
Definition EXTENT_VERSION : Z := 1.
Definition EXTENT_MAGIC : list Z := [69; 80; 69; 88; 84; 69; 78; 84].
Definition EH_MAGIC : Z := 0.
Definition EH_VERSION : Z := 8.
Definition EH_EXTENT_ID : Z := 10.
Definition EH_CRC : Z := 26.
Definition EH_CRC_COVERAGE : Z := EH_CRC.

Inductive ExtentError : Set :=
| XIo (k : IoKind)
| XBadHeaderMagic
| XVersion (found expected : Z)
| XHeaderChecksum (stored computed : Z)
| XRecord (offset : Z) (source : RecordError)
| XBodyChecksum (offset : Z).

(** [.map_err(|e| ..)] *)
Definition map_err {E F A} (f : E -> F) (r : result E A) : result F A :=
  match r with Ok a => Ok a | Err e => Err (f e) end.

Record RecoveredRecord : Set := {
  rr_blob_id : BlobId; rr_shard_id : ShardId; rr_offset : Z; rr_body_len : Z; rr_crc : Z
}.
Record Recovery : Set := {
  rc_records : list RecoveredRecord; rc_valid_end : Z; rc_truncated : bool
}.
Record ExtentFile : Set := { xf_file : list Z; xf_extent_id : ExtentId; xf_write_offset : Z }.

Section Extent.
Context `{Crc32c}.

Definition ExtentHeader_encode (extent_id : ExtentId) : list Z :=
  let buf := zeros EXTENT_HEADER_LEN in
  let buf := copy_at EH_MAGIC EXTENT_MAGIC buf in
  let buf := copy_at EH_VERSION (le_bytes 2 EXTENT_VERSION) buf in
  let buf := copy_at EH_EXTENT_ID extent_id buf in
  let crc := crc32c (slice 0 EH_CRC_COVERAGE buf) in
  copy_at EH_CRC (le_bytes 4 crc) buf.

Definition ExtentHeader_decode (buf : list Z) : result ExtentError ExtentId :=
  if negb (bool_decide (slice EH_MAGIC 8 buf = EXTENT_MAGIC)) then Err XBadHeaderMagic
  else
    let found := le_val (slice EH_VERSION 2 buf) in
    if negb (found =? EXTENT_VERSION) then Err (XVersion found EXTENT_VERSION)
    else
      let stored := le_val (slice EH_CRC 4 buf) in
      let computed := crc32c (slice 0 EH_CRC_COVERAGE buf) in
      if negb (stored =? computed) then Err (XHeaderChecksum stored computed)
      else Ok (slice EH_EXTENT_ID 16 buf).

(** ** Operations; the first argument of [create] and [open] is the file the path
    names, if any. *)

Definition ExtentFile_create (path : option (list Z)) (extent_id : ExtentId)
    : result ExtentError ExtentFile :=
  match path with
  | Some _ => Err (XIo IoAlreadyExists)
  | None =>
      let header := ExtentHeader_encode extent_id in
      Ok {| xf_file := write_all_at header 0 []; xf_extent_id := extent_id;
            xf_write_offset := EXTENT_HEADER_LEN |}
  end.

Definition ExtentFile_open (path : option (list Z)) : result ExtentError ExtentFile :=
  match path with
  | None => Err (XIo IoNotFound)
  | Some file =>
      header_buf <-? map_err XIo (read_exact_at EXTENT_HEADER_LEN 0 file) ;;
      extent_id <-? ExtentHeader_decode header_buf ;;
      Ok {| xf_file := file; xf_extent_id := extent_id;
            xf_write_offset := Z.max (len file) EXTENT_HEADER_LEN |}
  end.

Definition append_record (x : ExtentFile) (blob_id : BlobId) (shard_id : ShardId) (body : list Z)
    : result ExtentError (ExtentFile * (Z * Z)) :=
  header <-? map_err (XRecord (xf_write_offset x)) (RecordHeader_new blob_id shard_id (len body)) ;;
  let start := xf_write_offset x in
  let crc := body_crc body in
  let footer := encode_footer crc in
  let pos := start in
  let f := write_all_at (RecordHeader_encode header) pos (xf_file x) in
  let pos := pos + RECORD_HEADER_LEN in
  let f := write_all_at body pos f in
  let pos := pos + len body in
  let f := write_all_at footer pos f in
  let pos := pos + RECORD_FOOTER_LEN in
  let on_disk := record_on_disk_len (rh_body_len header) in
  let pad := start + on_disk - pos in
  let f := if 0 <? pad then write_all_at (slice 0 pad (zeros RECORD_ALIGN)) pos f else f in
  Ok ({| xf_file := f; xf_extent_id := xf_extent_id x; xf_write_offset := start + on_disk |},
      (start, crc)).

Definition read_record (x : ExtentFile) (offset : Z) : result ExtentError (RecordHeader * list Z) :=
  header_buf <-? map_err XIo (read_exact_at RECORD_HEADER_LEN offset (xf_file x)) ;;
  header <-? map_err (XRecord offset) (RecordHeader_decode header_buf) ;;
  body <-? map_err XIo (read_exact_at (rh_body_len header) (offset + RECORD_HEADER_LEN) (xf_file x)) ;;
  footer_buf <-? map_err XIo (read_exact_at RECORD_FOOTER_LEN
                   (offset + RECORD_HEADER_LEN + rh_body_len header) (xf_file x)) ;;
  stored_crc <-? map_err (XRecord offset) (decode_footer footer_buf) ;;
  if negb (body_crc body =? stored_crc) then Err (XBodyChecksum offset)
  else Ok (header, body).

(** The loop of [scan]; [None] when the fuel runs out. *)
Fixpoint scan_loop (fuel : nat) (file : list Z) (offset : Z) (records : list RecoveredRecord)
    : option (result ExtentError (list RecoveredRecord * Z)) :=
  match fuel with
  | O => None
  | S fuel =>
      if len file <? offset + RECORD_HEADER_LEN then Some (Ok (records, offset))
      else
        match read_exact_at RECORD_HEADER_LEN offset file with
        | Err k => Some (Err (XIo k))
        | Ok header_buf =>
            match RecordHeader_decode header_buf with
            | Err _ => Some (Ok (records, offset))
            | Ok header =>
                let footer_off := offset + RECORD_HEADER_LEN + rh_body_len header in
                if len file <? footer_off + RECORD_FOOTER_LEN then Some (Ok (records, offset))
                else
                  match read_exact_at RECORD_FOOTER_LEN footer_off file with
                  | Err k => Some (Err (XIo k))
                  | Ok footer_buf =>
                      match decode_footer footer_buf with
                      | Err _ => Some (Ok (records, offset))
                      | Ok crc =>
                          scan_loop fuel file (offset + record_on_disk_len (rh_body_len header))
                            (records ++ [{| rr_blob_id := rh_blob_id header;
                                            rr_shard_id := rh_shard_id header;
                                            rr_offset := offset;
                                            rr_body_len := rh_body_len header;
                                            rr_crc := crc |}])
                      end
                  end
            end
        end
  end.

(** Every iteration advances by at least 4 KiB inside the file. *)
Definition scan_fuel (file : list Z) : nat := S (Z.to_nat (len file / RECORD_ALIGN)).

Definition scan (x : ExtentFile) : option (result ExtentError Recovery) :=
  let file_len := len (xf_file x) in
  match scan_loop (scan_fuel (xf_file x)) (xf_file x) EXTENT_HEADER_LEN [] with
  | None => None
  | Some (Err e) => Some (Err e)
  | Some (Ok (records, offset)) =>
      Some (Ok {| rc_records := records; rc_valid_end := offset;
                  rc_truncated := offset <? file_len |})
  end.

(** Block reservation: the byte contents are untouched, and a length beyond
    [off_t] is refused; the outcome of the system call itself is the device's. *)
Definition preallocate (x : ExtentFile) (n : Z) : result ExtentError unit :=
  if 2 ^ 63 <=? n then Err (XIo IoInvalidInput) else Ok tt.

Definition truncate_to (x : ExtentFile) (valid_end : Z) : ExtentFile :=
  {| xf_file := set_len valid_end (xf_file x); xf_extent_id := xf_extent_id x;
     xf_write_offset := valid_end |}.

(** ** Specification: the bytes of an extent holding a list of entries *)

Record entry : Set := { en_blob : BlobId; en_shard : ShardId; en_body : list Z }.
Definition entry_wf (e : entry) : Prop :=
  is_u64 (en_blob e) /\ is_u64 (en_shard e) /\ len (en_body e) <= U32_MAX.
Definition entry_header (e : entry) : RecordHeader :=
  {| rh_blob_id := en_blob e; rh_shard_id := en_shard e; rh_body_len := len (en_body e) |}.
Definition entry_raw (e : entry) : list Z :=
  RecordHeader_encode (entry_header e) ++ en_body e ++ encode_footer (body_crc (en_body e)).
Definition entry_len (e : entry) : Z := record_on_disk_len (len (en_body e)).
Definition entry_bytes (e : entry) : list Z :=
  entry_raw e ++ zeros (entry_len e - len (entry_raw e)).
Definition entries_bytes (es : list entry) : list Z := mjoin (entry_bytes <$> es).
Definition entries_len (es : list entry) : Z := foldr (fun e n => entry_len e + n) 0 es.
Definition image (id : ExtentId) (es : list entry) : list Z :=
  ExtentHeader_encode id ++ entries_bytes es.
Definition entry_recovered (off : Z) (e : entry) : RecoveredRecord :=
  {| rr_blob_id := en_blob e; rr_shard_id := en_shard e; rr_offset := off;
     rr_body_len := len (en_body e); rr_crc := body_crc (en_body e) |}.
Fixpoint recovered (off : Z) (es : list entry) : list RecoveredRecord :=
  match es with
  | [] => []
  | e :: es => entry_recovered off e :: recovered (off + entry_len e) es
  end.

(** The abstract state of an open extent: its identity and its entries. *)
Definition represents (x : ExtentFile) (id : ExtentId) (es : list entry) : Prop :=
  xf_extent_id x = id /\ xf_file x = image id es /\ xf_write_offset x = len (image id es).

(** *** Lengths *)

Lemma ExtentHeader_encode_app id : len id = 16 ->
  ExtentHeader_encode id =
    (EXTENT_MAGIC ++ le_bytes 2 EXTENT_VERSION ++ id)
    ++ le_bytes 4 (crc32c (EXTENT_MAGIC ++ le_bytes 2 EXTENT_VERSION ++ id)) ++ zeros 4066.
Proof.
  intros Hid. unfold ExtentHeader_encode, EXTENT_HEADER_LEN, EH_MAGIC, EH_VERSION, EH_EXTENT_ID,
    EH_CRC_COVERAGE, EH_CRC, EXTENT_MAGIC. fill.
  rewrite slice_app_eq by (by lens). rewrite <- !app_assoc. do 5 f_equal.
  rewrite !len_le_bytes, Hid. done.
Qed.
Lemma ExtentHeader_encode_len id : len id = 16 -> len (ExtentHeader_encode id) = EXTENT_HEADER_LEN.
Proof. intros. rewrite ExtentHeader_encode_app by done. unfold EXTENT_MAGIC, EXTENT_HEADER_LEN. by lens. Qed.

Lemma len_entry_raw e :
  len (entry_raw e) = RECORD_HEADER_LEN + len (en_body e) + RECORD_FOOTER_LEN.
Proof. unfold entry_raw. rewrite !len_app, RecordHeader_encode_len, encode_footer_len. lia. Qed.
Lemma entry_len_spec e :
  len (entry_raw e) <= entry_len e < len (entry_raw e) + RECORD_ALIGN
  /\ 0 < entry_len e /\ entry_len e mod RECORD_ALIGN = 0.
Proof.
  rewrite len_entry_raw. unfold entry_len. pose proof (len_nonneg (en_body e)) as Hn.
  pose proof (record_on_disk_len_spec (len (en_body e)) Hn).
  unfold RECORD_HEADER_LEN, RECORD_FOOTER_LEN in *. lia.
Qed.
Lemma len_entry_bytes e : len (entry_bytes e) = entry_len e.
Proof.
  unfold entry_bytes. pose proof (entry_len_spec e). rewrite len_app, len_zeros; lia.
Qed.
Lemma entries_bytes_cons e es : entries_bytes (e :: es) = entry_bytes e ++ entries_bytes es.
Proof. done. Qed.
Lemma entries_bytes_app es1 es2 :
  entries_bytes (es1 ++ es2) = entries_bytes es1 ++ entries_bytes es2.
Proof. unfold entries_bytes. by rewrite fmap_app, join_app. Qed.
Lemma len_entries_bytes es : len (entries_bytes es) = entries_len es.
Proof.
  induction es as [|e es IH]; [done|].
  rewrite entries_bytes_cons, len_app, len_entry_bytes, IH. done.
Qed.
Lemma entries_len_nonneg es : 0 <= entries_len es.
Proof. rewrite <- len_entries_bytes. apply len_nonneg. Qed.
Lemma entries_len_app es1 es2 : entries_len (es1 ++ es2) = entries_len es1 + entries_len es2.
Proof. by rewrite <- !len_entries_bytes, entries_bytes_app, len_app. Qed.
Lemma len_image id es : len id = 16 -> len (image id es) = EXTENT_HEADER_LEN + entries_len es.
Proof. intros. unfold image. by rewrite len_app, ExtentHeader_encode_len, len_entries_bytes. Qed.
Lemma recovered_app off es1 es2 :
  recovered off (es1 ++ es2) = recovered off es1 ++ recovered (off + entries_len es1) es2.
Proof.
  revert off. induction es1 as [|e es IH]; intros off; simpl.
  - by rewrite Z.add_0_r.
  - rewrite IH. do 3 f_equal. lia.
Qed.
Lemma length_recovered off es : length (recovered off es) = length es.
Proof. revert off. induction es; intros; simpl; auto. Qed.
Lemma entries_len_length es : RECORD_ALIGN * Z.of_nat (length es) <= entries_len es.
Proof.
  induction es as [|e es IH]; simpl; [lia|]. pose proof (entry_len_spec e).
  unfold RECORD_ALIGN in *. lia.
Qed.

(** *** Appending *)

Lemma write_all_at_end src off f : off = len f -> write_all_at src off f = f ++ src.
Proof.
  intros ->. unfold write_all_at. destruct (Z.eqb_spec (len src) 0) as [E|E].
  { by rewrite (len_0_nil src), app_nil_r by done. }
  rewrite zeros_0, app_nil_r by lia. unfold len. rewrite Nat2Z.id, take_ge by done.
  rewrite drop_ge by lia. by rewrite app_nil_r.
Qed.
Lemma slice_zeros n m : 0 <= n <= m -> slice 0 n (zeros m) = zeros n.
Proof. intros. unfold slice, zeros. rewrite drop_replicate, take_replicate. f_equal. lia. Qed.

Lemma append_record_spec x e :
  entry_wf e -> xf_write_offset x = len (xf_file x) ->
  append_record x (en_blob e) (en_shard e) (en_body e) =
    Ok ({| xf_file := xf_file x ++ entry_bytes e; xf_extent_id := xf_extent_id x;
           xf_write_offset := len (xf_file x) + entry_len e |},
        (len (xf_file x), body_crc (en_body e))).
Proof.
  intros (Hb & Hs & Hl) Ho. unfold append_record, RecordHeader_new.
  rewrite (proj2 (Z.leb_le _ _) Hl). cbn [map_err rh_body_len].
  change {| rh_blob_id := en_blob e; rh_shard_id := en_shard e; rh_body_len := len (en_body e) |}
    with (entry_header e).
  rewrite Ho. cbv zeta.
  rewrite (write_all_at_end _ (len (xf_file x)) (xf_file x)) by done.
  rewrite (write_all_at_end (en_body e)) by (rewrite len_app, RecordHeader_encode_len; lia).
  rewrite (write_all_at_end (encode_footer _)) by (rewrite !len_app, RecordHeader_encode_len; lia).
  pose proof (entry_len_spec e) as Hspec. unfold entry_bytes. rewrite len_entry_raw in *.
  fold (entry_len e). do 2 f_equal. f_equal.
  set (pad := len (xf_file x) + entry_len e - _).
  replace (entry_len e - _) with pad by lia.
  assert ((xf_file x ++ RecordHeader_encode (entry_header e)) ++ en_body e
          ++ encode_footer (body_crc (en_body e)) = xf_file x ++ entry_raw e) as E
    by (unfold entry_raw; by rewrite <- app_assoc).
  rewrite (app_assoc _ (en_body e)), E in *. rewrite app_assoc.
  destruct (Z.ltb_spec 0 pad) as [Hp|Hp].
  - rewrite slice_zeros by (unfold RECORD_ALIGN in *; lia).
    apply write_all_at_end. rewrite len_app, len_entry_raw. lia.
  - rewrite (zeros_0 pad) by lia. by rewrite app_nil_r.
Qed.

(** *** Reading *)

Lemma read_exact_at_mid n off p b q :
  off = len p -> n = len b -> read_exact_at n off (p ++ b ++ q) = Ok b.
Proof.
  intros -> ->. unfold read_exact_at. rewrite !len_app. pose proof (len_nonneg q).
  replace (len p + len b <=? _) with true by (symmetry; apply Z.leb_le; lia).
  rewrite orb_true_r. rewrite slice_app_r, Z.sub_diag by lia. by rewrite slice_app_eq.
Qed.
Lemma entry_header_wf e : entry_wf e -> RecordHeader_wf (entry_header e).
Proof.
  intros (Hb & Hs & Hl). unfold RecordHeader_wf, entry_header, uint, U32_MAX in *. simpl.
  pose proof (len_nonneg (en_body e)). lia.
Qed.

Lemma read_record_spec x p e q :
  entry_wf e -> xf_file x = p ++ entry_raw e ++ q ->
  read_record x (len p) = Ok (entry_header e, en_body e).
Proof.
  intros Hwf Hf. unfold read_record. rewrite Hf. unfold entry_raw. rewrite <- !app_assoc.
  rewrite read_exact_at_mid by (done || by rewrite RecordHeader_encode_len). cbn [map_err].
  rewrite <- (app_nil_r (RecordHeader_encode _)), RecordHeader_decode_encode, app_nil_r
    by by apply entry_header_wf.
  cbn [map_err entry_header rh_body_len].
  rewrite (app_assoc p), read_exact_at_mid by (done || by rewrite len_app, RecordHeader_encode_len).
  cbn [map_err]. rewrite (app_assoc (p ++ _)).
  rewrite read_exact_at_mid
    by (by rewrite ?encode_footer_len, ?len_app, ?RecordHeader_encode_len).
  cbn [map_err]. rewrite <- (app_nil_r (encode_footer _)), decode_encode_footer
    by apply crc32c_range.
  cbn [map_err]. by rewrite Z.eqb_refl.
Qed.

(** *** Scanning *)

Lemma scan_loop_record n p e q acc :
  entry_wf e ->
  scan_loop (S n) (p ++ entry_raw e ++ q) (len p) acc
  = scan_loop n (p ++ entry_raw e ++ q) (len p + entry_len e)
      (acc ++ [entry_recovered (len p) e]).
Proof.
  intros Hwf. cbn [scan_loop]. pose proof (len_nonneg q) as Hq.
  pose proof (len_entry_raw e) as Hraw. pose proof (len_nonneg (en_body e)) as Hb.
  assert (len (p ++ entry_raw e ++ q) = len p + len (entry_raw e) + len q) as Hl
    by (rewrite !len_app; lia).
  unfold RECORD_HEADER_LEN, RECORD_FOOTER_LEN in Hraw.
  rewrite (proj2 (Z.ltb_ge _ _)) by (unfold RECORD_HEADER_LEN; lia).
  unfold entry_raw at 1 3. rewrite <- !app_assoc.
  rewrite read_exact_at_mid by (done || by rewrite RecordHeader_encode_len).
  rewrite <- (app_nil_r (RecordHeader_encode _)), RecordHeader_decode_encode, app_nil_r
    by by apply entry_header_wf.
  cbn [entry_header rh_body_len rh_blob_id rh_shard_id].
  rewrite (proj2 (Z.ltb_ge _ _)) by (unfold RECORD_HEADER_LEN, RECORD_FOOTER_LEN; lia).
  rewrite (app_assoc p), (app_assoc (p ++ _)).
  rewrite read_exact_at_mid by (by rewrite ?encode_footer_len, ?len_app, ?RecordHeader_encode_len).
  rewrite <- (app_nil_r (encode_footer _)), decode_encode_footer by apply crc32c_range.
  done.
Qed.

Lemma scan_loop_entries es n p q acc :
  Forall entry_wf es ->
  scan_loop (length es + n) (p ++ entries_bytes es ++ q) (len p) acc
  = scan_loop n (p ++ entries_bytes es ++ q) (len p + entries_len es)
      (acc ++ recovered (len p) es).
Proof.
  intros Hes. revert p acc. induction Hes as [|e es He _ IH]; intros p acc.
  { cbn [length Nat.add recovered entries_len foldr].
    by rewrite app_nil_r, Z.add_0_r. }
  rewrite entries_bytes_cons. cbn [length Nat.add]. rewrite <- app_assoc.
  unfold entry_bytes at 1 2. rewrite <- app_assoc, scan_loop_record by done.
  rewrite (app_assoc (entry_raw e)). fold (entry_bytes e). rewrite (app_assoc p).
  rewrite <- (len_entry_bytes e), <- len_app, IH.
  rewrite len_app, len_entry_bytes, <- (app_assoc acc). cbn [entries_len foldr].
  by rewrite Z.add_assoc.
Qed.

(** A record cut short before the end of its footer stops the scan. *)
Lemma scan_loop_torn n p e k acc :
  entry_wf e -> 0 <= k < len (entry_raw e) ->
  scan_loop (S n) (p ++ take (Z.to_nat k) (entry_raw e)) (len p) acc = Some (Ok (acc, len p)).
Proof.
  intros Hwf Hk. pose proof (len_entry_raw e) as Hraw. cbn [scan_loop].
  assert (len (p ++ take (Z.to_nat k) (entry_raw e)) = len p + k) as Hl.
  { rewrite len_app. unfold len in *. rewrite length_take. lia. }
  rewrite Hl. destruct (Z.ltb_spec (len p + k) (len p + RECORD_HEADER_LEN)) as [|Hh]; [done|].
  assert (exists q, take (Z.to_nat k) (entry_raw e) = RecordHeader_encode (entry_header e) ++ q)
    as [q Hq].
  { unfold entry_raw. rewrite take_app_ge; [by eexists|].
    pose proof (RecordHeader_encode_len (entry_header e)). unfold len in *. lia. }
  rewrite Hq, read_exact_at_mid by (done || by rewrite RecordHeader_encode_len).
  rewrite <- (app_nil_r (RecordHeader_encode _)), RecordHeader_decode_encode
    by by apply entry_header_wf.
  cbn [entry_header rh_body_len]. by rewrite (proj2 (Z.ltb_lt _ _)) by lia.
Qed.

(** Enough fuel for any list of entries that fits the file. *)
Lemma scan_fuel_entries file es :
  EXTENT_HEADER_LEN + entries_len es <= len file ->
  exists n, scan_fuel file = (length es + S n)%nat.
Proof.
  intros Hl. pose proof (entries_len_length es). unfold scan_fuel, EXTENT_HEADER_LEN, RECORD_ALIGN in *.
  exists (Z.to_nat (len file / 4096) - length es)%nat. lia.
Qed.

Lemma scan_image_tail id es q :
  len id = 16 -> Forall entry_wf es ->
  exists n, scan_loop (scan_fuel (image id es ++ q)) (image id es ++ q) EXTENT_HEADER_LEN []
    = scan_loop (S n) (image id es ++ q) (len (image id es)) (recovered EXTENT_HEADER_LEN es).
Proof.
  intros Hid Hes. pose proof (len_nonneg q).
  destruct (scan_fuel_entries (image id es ++ q) es) as [n Hn].
  { rewrite len_app, len_image by done. lia. }
  exists n. rewrite Hn, len_image by done. unfold image. rewrite <- app_assoc.
  rewrite <- (ExtentHeader_encode_len id Hid). by rewrite scan_loop_entries.
Qed.

(** *** The scan of arbitrary bytes *)

(** An intact record: a valid header and footer, inside the file. *)
Definition record_at (file : list Z) (r : RecoveredRecord) : Prop :=
  rr_offset r + RECORD_HEADER_LEN + rr_body_len r + RECORD_FOOTER_LEN <= len file
  /\ RecordHeader_decode (slice (rr_offset r) RECORD_HEADER_LEN file)
     = Ok {| rh_blob_id := rr_blob_id r; rh_shard_id := rr_shard_id r; rh_body_len := rr_body_len r |}
  /\ decode_footer (slice (rr_offset r + RECORD_HEADER_LEN + rr_body_len r) RECORD_FOOTER_LEN file)
     = Ok (rr_crc r).

(** Back-to-back intact records from one offset to another. *)
Inductive chain (file : list Z) : Z -> list RecoveredRecord -> Z -> Prop :=
| chain_nil off : chain file off [] off
| chain_cons r rs fin :
    record_at file r ->
    chain file (rr_offset r + record_on_disk_len (rr_body_len r)) rs fin ->
    chain file (rr_offset r) (r :: rs) fin.

Lemma chain_snoc file off rs r :
  chain file off rs (rr_offset r) -> record_at file r ->
  chain file off (rs ++ [r]) (rr_offset r + record_on_disk_len (rr_body_len r)).
Proof.
  intros Hc Hr. remember (rr_offset r) as fin eqn:E.
  induction Hc as [|r' rs fin Hr' _ IH]; simpl; subst.
  - by constructor; [|constructor].
  - constructor; auto.
Qed.

Lemma decode_body_len_range buf h :
  is_bytes buf -> RecordHeader_decode buf = Ok h -> is_u32 (rh_body_len h).
Proof.
  intros Hb Hd. unfold RecordHeader_decode in Hd.
  destruct (first_chunk RECORD_HEADER_LEN buf) as [b|] eqn:Ef; [|done].
  apply first_chunk_inv in Ef as [El ->]. unfold RECORD_HEADER_LEN in *.
  set (b := slice 0 32 buf) in *.
  destruct (bool_decide _); [|done]. cbn [negb] in Hd. destruct (_ =? _); [|done].
  injection Hd as <-. simpl.
  assert (is_bytes (slice H_SIZE 4 b)) as Hs
    by (by apply Forall_take, Forall_drop, Forall_take, Forall_drop).
  pose proof (le_val_range _ Hs) as Hr. unfold H_SIZE in *.
  rewrite len_slice in Hr; [unfold uint; lia|lia..|]. unfold b. rewrite len_slice; lia.
Qed.

Lemma read_exact_at_Ok n off f :
  off + n <= len f -> read_exact_at n off f = Ok (slice off n f).
Proof. intros. unfold read_exact_at. by rewrite (proj2 (Z.leb_le _ _)), orb_true_r. Qed.

Lemma scan_loop_sound fuel file off0 off acc :
  is_bytes file -> 0 <= off ->
  len file < off + RECORD_HEADER_LEN + RECORD_ALIGN * (Z.of_nat fuel - 1) ->
  (1 <= fuel)%nat -> chain file off0 acc off ->
  exists rs fin, scan_loop fuel file off acc = Some (Ok (rs, fin)) /\ acc `prefix_of` rs
    /\ chain file off0 rs fin /\ (forall r, rr_offset r = fin -> ~ record_at file r).
Proof.
  intros Hb. revert off acc.
  induction fuel as [|fuel IH]; intros off acc Hoff Hf Hpos Hc; [lia|]. cbn [scan_loop].
  destruct (Z.ltb_spec (len file) (off + RECORD_HEADER_LEN)) as [Hs|Hs].
  { exists acc, off. split_and!; [done..|]. intros r <- (Hr & Hd & _).
    assert (is_bytes (slice (rr_offset r) RECORD_HEADER_LEN file)) as Hsb
      by by apply Forall_take, Forall_drop.
    pose proof (decode_body_len_range _ _ Hsb Hd) as Hbl. simpl in Hbl.
    unfold uint, RECORD_FOOTER_LEN in *. lia. }
  rewrite read_exact_at_Ok by done.
  assert (is_bytes (slice off RECORD_HEADER_LEN file)) as Hsb by by apply Forall_take, Forall_drop.
  destruct (RecordHeader_decode (slice off RECORD_HEADER_LEN file)) as [h|e] eqn:Ed.
  2:{ exists acc, off. split_and!; [done..|]. intros r <- (_ & Hd & _). congruence. }
  pose proof (decode_body_len_range _ _ Hsb Ed) as Hbl.
  destruct (Z.ltb_spec (len file) (off + RECORD_HEADER_LEN + rh_body_len h + RECORD_FOOTER_LEN))
    as [Hs2|Hs2].
  { exists acc, off. split_and!; [done..|]. intros r <- (Hr & Hd & _).
    rewrite Ed in Hd. injection Hd as ->. simpl in *. lia. }
  rewrite read_exact_at_Ok by done.
  destruct (decode_footer _) as [crc|e] eqn:Ef.
  2:{ exists acc, off. split_and!; [done..|]. intros r <- (_ & Hd & Hf').
      rewrite Ed in Hd. injection Hd as ->. simpl in *. congruence. }
  set (r := {| rr_blob_id := rh_blob_id h; rr_shard_id := rh_shard_id h; rr_offset := off;
               rr_body_len := rh_body_len h; rr_crc := crc |}).
  assert (record_at file r) as Hr by (unfold record_at, r; simpl; by destruct h).
  pose proof (record_on_disk_len_spec (rh_body_len h) (proj1 Hbl)) as Hod.
  assert (RECORD_ALIGN <= record_on_disk_len (rh_body_len h)) as Ha.
  { unfold RECORD_ALIGN, RECORD_HEADER_LEN, RECORD_FOOTER_LEN, uint in *. lia. }
  destruct (IH (off + record_on_disk_len (rh_body_len h)) (acc ++ [r])) as (rs & fin & E & Hp & ?).
  - unfold RECORD_ALIGN in *. lia.
  - unfold RECORD_ALIGN, RECORD_HEADER_LEN in *. lia.
  - destruct fuel; [|lia]. unfold RECORD_ALIGN, RECORD_HEADER_LEN, RECORD_FOOTER_LEN in *.
    unfold uint in *. lia.
  - by apply (chain_snoc file off0 acc r).
  - exists rs, fin. split_and!; [done| |tauto..]. etrans; [by apply prefix_app_r|done].
Qed.

(** *** Opening, and runs of appends *)

Lemma ExtentHeader_decode_encode id : len id = 16 ->
  ExtentHeader_decode (ExtentHeader_encode id) = Ok id.
Proof.
  intros Hid. rewrite ExtentHeader_encode_app by done.
  set (pre := EXTENT_MAGIC ++ le_bytes 2 EXTENT_VERSION ++ id).
  pose proof (crc32c_range pre) as Hc. remember (crc32c pre) as c eqn:Ec.
  assert (len pre = 26) as Hp by (unfold pre, EXTENT_MAGIC; by lens).
  unfold ExtentHeader_decode, EH_CRC_COVERAGE, EH_CRC.
  rewrite (slice_app_eq 26 pre), <- Ec by done.
  rewrite (slice_app_r 26 4 pre), Hp by lia. change (26 - 26) with 0.
  rewrite (slice_app_eq 4 (le_bytes 4 c)) by (by lens). rewrite (le_val_uint 4 32 c) by done.
  unfold EH_MAGIC, EH_VERSION, EH_EXTENT_ID, pre, EXTENT_MAGIC. rewrite <- !app_assoc. slices.
  change (le_val (le_bytes 2 EXTENT_VERSION) =? EXTENT_VERSION) with true.
  rewrite bool_decide_true, Z.eqb_refl by done. done.
Qed.

Lemma ExtentFile_open_image id es q : len id = 16 ->
  ExtentFile_open (Some (image id es ++ q))
  = Ok {| xf_file := image id es ++ q; xf_extent_id := id;
          xf_write_offset := len (image id es ++ q) |}.
Proof.
  intros Hid. unfold ExtentFile_open. pose proof (ExtentHeader_encode_len id Hid) as Hh.
  pose proof (entries_len_nonneg es). pose proof (len_nonneg q).
  assert (EXTENT_HEADER_LEN <= len (image id es ++ q)) as Hl
    by (rewrite len_app, len_image by done; lia).
  rewrite read_exact_at_Ok by lia. cbn [map_err].
  unfold image at 1. rewrite <- app_assoc, slice_app_eq by done.
  rewrite ExtentHeader_decode_encode by done. by rewrite Z.max_l by lia.
Qed.

Fixpoint append_all (x : ExtentFile) (es : list entry) : result ExtentError ExtentFile :=
  match es with
  | [] => Ok x
  | e :: es =>
      r <-? append_record x (en_blob e) (en_shard e) (en_body e) ;;
      append_all (fst r) es
  end.

Lemma append_represents x id es e :
  len id = 16 -> entry_wf e -> represents x id es ->
  exists x', append_record x (en_blob e) (en_shard e) (en_body e)
               = Ok (x', (len (image id es), body_crc (en_body e)))
             /\ represents x' id (es ++ [e]).
Proof.
  intros Hid He (Hi & Hf & Ho).
  rewrite append_record_spec by (done || congruence). rewrite Hf. eexists. split; [done|].
  assert (image id (es ++ [e]) = image id es ++ entry_bytes e) as E.
  { unfold image. rewrite entries_bytes_app. change (entries_bytes [e]) with (entry_bytes e ++ []).
    by rewrite app_nil_r, app_assoc. }
  unfold represents; simpl. by rewrite E, len_app, len_entry_bytes.
Qed.
Lemma append_all_represents x id es es' :
  len id = 16 -> Forall entry_wf es' -> represents x id es ->
  exists x', append_all x es' = Ok x' /\ represents x' id (es ++ es').
Proof.
  intros Hid Hes. revert x es. induction Hes as [|e es' He _ IH]; intros x es Hx.
  { exists x. by rewrite app_nil_r. }
  destruct (append_represents x id es e) as (x' & E & Hx'); [done..|].
  destruct (IH _ _ Hx') as (x'' & E' & Hx''). exists x''. cbn [append_all].
  rewrite E. cbn [fst]. split; [done|]. by rewrite <- app_assoc in Hx''.
Qed.
Lemma create_represents id : len id = 16 ->
  exists x, ExtentFile_create None id = Ok x /\ represents x id [].
Proof.
  intros Hid. eexists. split; [done|].
  unfold represents. cbn [xf_extent_id xf_file xf_write_offset].
  rewrite len_image, write_all_at_end by done. unfold image.
  split_and!; [done|by rewrite app_nil_r|done].
Qed.
Lemma read_record_image x id es i e q :
  len id = 16 -> Forall entry_wf es -> es !! i = Some e -> xf_file x = image id es ++ q ->
  read_record x (EXTENT_HEADER_LEN + entries_len (take i es)) = Ok (entry_header e, en_body e).
Proof.
  intros Hid Hes Hi Hf. rewrite <- (len_image id) by done.
  rewrite <- (take_drop_middle es i e) in Hf by done.
  unfold image in *. rewrite entries_bytes_app, entries_bytes_cons in Hf.
  unfold entry_bytes in Hf. rewrite <- !app_assoc in Hf. rewrite !app_assoc in Hf.
  eapply read_record_spec; [by eapply Forall_lookup_1|].
  rewrite Hf. by rewrite <- !app_assoc.
Qed.
Lemma scan_image x id es : len id = 16 -> Forall entry_wf es -> represents x id es ->
  scan x = Some (Ok {| rc_records := recovered EXTENT_HEADER_LEN es;
                       rc_valid_end := len (image id es); rc_truncated := false |}).
Proof.
  intros Hid Hes (_ & Hf & _). unfold scan. rewrite Hf.
  destruct (scan_image_tail id es [] Hid Hes) as [n Hn]. rewrite app_nil_r in Hn.
  rewrite Hn. cbn [scan_loop].
  rewrite (proj2 (Z.ltb_lt _ _)) by (unfold RECORD_HEADER_LEN; lia).
  by rewrite Z.ltb_irrefl.
Qed.

Lemma scan_total file : is_bytes file ->
  exists rs fin, scan_loop (scan_fuel file) file EXTENT_HEADER_LEN [] = Some (Ok (rs, fin))
    /\ chain file EXTENT_HEADER_LEN rs fin
    /\ (forall r, rr_offset r = fin -> ~ record_at file r).
Proof.
  intros Hb.
  destruct (scan_loop_sound (scan_fuel file) file EXTENT_HEADER_LEN EXTENT_HEADER_LEN [])
    as (rs & fin & E & _ & Hc & Hm); [done|done| | |constructor|by exists rs, fin].
  - unfold scan_fuel, EXTENT_HEADER_LEN, RECORD_HEADER_LEN, RECORD_ALIGN.
    pose proof (len_nonneg file). lia.
  - unfold scan_fuel. lia.
Qed.
Lemma scan_loop_prefix fuel file off acc rs fin :
  scan_loop fuel file off acc = Some (Ok (rs, fin)) -> acc `prefix_of` rs.
Proof.
  revert off acc. induction fuel as [|fuel IH]; intros off acc; [done|]. cbn [scan_loop].
  repeat case_match; try done; try (by intros [= <- <-]).
  intros E%IH. etrans; [by apply prefix_app_r|done].
Qed.

(** An extent file implements an append-only list of entries. Creating an
    extent and appending any entries (body up to [u32::MAX] bytes) always
    succeeds and leaves exactly the file image of the entries, 4 KiB aligned, with
    the cursor at its end; every record ever appended reads back with its header
    and body at the offset its append returned; the recovery scan lists all of
    them in order and finds no torn tail; reopening gives the same extent. *)
Theorem extent_append_read : forall id es,
  len id = 16 -> Forall entry_wf es ->
  exists x0 x, ExtentFile_create None id = Ok x0 /\ append_all x0 es = Ok x
    /\ represents x id es /\ xf_write_offset x mod RECORD_ALIGN = 0
    /\ (forall i e, es !! i = Some e ->
          (exists xi xi', append_all x0 (take i es) = Ok xi
             /\ append_record xi (en_blob e) (en_shard e) (en_body e)
                = Ok (xi', (EXTENT_HEADER_LEN + entries_len (take i es), body_crc (en_body e))))
          /\ read_record x (EXTENT_HEADER_LEN + entries_len (take i es))
             = Ok (entry_header e, en_body e))
    /\ scan x = Some (Ok {| rc_records := recovered EXTENT_HEADER_LEN es;
                            rc_valid_end := xf_write_offset x; rc_truncated := false |})
    /\ ExtentFile_open (Some (xf_file x)) = Ok x.
Proof.
  intros id es Hid Hes. destruct (create_represents id Hid) as (x0 & E0 & H0).
  destruct (append_all_represents x0 id [] es) as (x & E & Hx); [done..|].
  rewrite app_nil_l in Hx. exists x0, x. pose proof Hx as (Hi & Hf & Ho). split_and!; [done..| | | |].
  - rewrite Ho, len_image by done. clear -H. induction es as [|e es IH]; [done|].
    pose proof (entry_len_spec e) as (_ & _ & Hm). cbn [entries_len foldr].
    unfold EXTENT_HEADER_LEN, RECORD_ALIGN in *. fold (entries_len es). lia.
  - intros i e Hie. split.
    + destruct (append_all_represents x0 id [] (take i es)) as (xi & Ei & Hxi);
        [done|by apply Forall_take|done|].
      destruct (append_represents xi id (take i es) e) as (xi' & Ei' & _);
        [done|by eapply Forall_lookup_1|done|].
      exists xi, xi'. by rewrite Ei', len_image.
    + eapply (read_record_image x id es i e []); rewrite ?app_nil_r; done.
  - rewrite Ho. by apply scan_image.
  - rewrite Hf. rewrite <- (app_nil_r (image id es)), ExtentFile_open_image by done.
    rewrite app_nil_r, <- Hf. destruct x; simpl in *. congruence.
Qed.

(** Crash recovery of an extent. Whatever prefix of a record a crash leaves
    behind the committed entries (short of its footer), reopening and scanning
    reports exactly the committed records, flags the tail as torn when it is not
    empty, and truncating to [valid_end] restores the extent of the committed
    entries; and whatever bytes follow the committed entries, the scan still
    reports all of them, first and in order. *)
Theorem extent_crash_recovery : forall id es,
  len id = 16 -> Forall entry_wf es ->
  (forall e k, entry_wf e -> 0 <= k < len (entry_raw e) ->
     exists x r, ExtentFile_open (Some (image id es ++ take (Z.to_nat k) (entry_raw e))) = Ok x
       /\ scan x = Some (Ok r) /\ rc_records r = recovered EXTENT_HEADER_LEN es
       /\ rc_truncated r = (0 <? k)
       /\ represents (truncate_to x (rc_valid_end r)) id es)
  /\ (forall tail, is_bytes (image id es ++ tail) ->
     exists x r, ExtentFile_open (Some (image id es ++ tail)) = Ok x /\ scan x = Some (Ok r)
       /\ recovered EXTENT_HEADER_LEN es `prefix_of` rc_records r).
Proof.
  intros id es Hid Hes. split.
  - intros e k He Hk. rewrite ExtentFile_open_image by done. do 2 eexists. split; [done|].
    unfold scan. cbn [xf_file].
    destruct (scan_image_tail id es (take (Z.to_nat k) (entry_raw e)) Hid Hes) as [n ->].
    rewrite scan_loop_torn by done. split; [done|]. cbn [rc_records rc_truncated rc_valid_end].
    assert (len (take (Z.to_nat k) (entry_raw e)) = k) as Hl
      by (unfold len in *; rewrite length_take; lia).
    split; [done|]. split.
    { rewrite len_app, Hl. destruct (Z.ltb_spec 0 k), (Z.ltb_spec (len (image id es))
        (len (image id es) + k)); lia || done. }
    unfold truncate_to, set_len, represents. cbn [xf_file xf_extent_id xf_write_offset].
    split_and!; [done| |done]. rewrite <- app_assoc. unfold len. rewrite Nat2Z.id.
    by rewrite take_app_length.
  - intros tail Hb. rewrite ExtentFile_open_image by done.
    destruct (scan_total (image id es ++ tail)) as (rs & fin & E & _ & _); [done|].
    do 2 eexists. split; [done|]. unfold scan. cbn [xf_file]. rewrite E. split; [done|].
    destruct (scan_image_tail id es tail Hid Hes) as [n Hn]. rewrite Hn in E.
    by eapply scan_loop_prefix.
Qed.

(** C35: the recovery scan is total and exact on arbitrary file contents. On
    any bytes it terminates (the fuel it is given is enough), never fails, and
    reports a maximal run of back-to-back intact records from the end of the
    extent header: each has a valid header checksum and a footer inside the file,
    each starts where the previous one ends, and no intact record starts at
    [valid_end]. *)
Theorem scan_exact : forall x, is_bytes (xf_file x) ->
  exists r, scan x = Some (Ok r)
    /\ chain (xf_file x) EXTENT_HEADER_LEN (rc_records r) (rc_valid_end r)
    /\ (forall rec, rr_offset rec = rc_valid_end r -> ~ record_at (xf_file x) rec)
    /\ rc_truncated r = (rc_valid_end r <? len (xf_file x)).
Proof.
  intros x Hb. destruct (scan_total (xf_file x) Hb) as (rs & fin & E & Hc & Hm).
  unfold scan. rewrite E. eexists. split; [done|]. by split_and!.
Qed.
End Extent.

(** *** Witnesses, under the Castagnoli checksum *)

Definition ex_id : ExtentId := be_bytes 8 4294967297 ++ be_bytes 8 99.
Definition ex_entry (n : Z) : entry :=
  {| en_blob := 4294967296 + n; en_shard := 4294967297; en_body := [n; 1; 2; 3] |}.

Lemma extent_append_read_witness :
  exists x0 x, ExtentFile_create None ex_id = Ok x0
    /\ append_all x0 [ex_entry 1; ex_entry 2] = Ok x
    /\ read_record x 8192 = Ok (entry_header (ex_entry 2), [2; 1; 2; 3]).
Proof.
  destruct (extent_append_read ex_id [ex_entry 1; ex_entry 2])
    as (x0 & x & H0 & Hx & _ & _ & Hr & _); [done|repeat constructor; done|].
  exists x0, x. split_and!; [done..|]. apply (Hr 1%nat (ex_entry 2)). done.
Defined.

Lemma extent_crash_recovery_witness :
  exists x r, ExtentFile_open (Some (image ex_id [ex_entry 1]
                 ++ take 40 (entry_raw (ex_entry 2)))) = Ok x
    /\ scan x = Some (Ok r) /\ rc_records r = [entry_recovered 4096 (ex_entry 1)]
    /\ rc_truncated r = true.
Proof.
  destruct (proj1 (extent_crash_recovery ex_id [ex_entry 1] ltac:(done)
              ltac:(repeat constructor; done)) (ex_entry 2) 40) as (x & r & Ho & Hs & Hr & Ht & _);
    [repeat constructor; done|by vm_compute|].
  exists x, r. by split_and!.
Defined.

Lemma scan_exact_witness :
  exists r, scan {| xf_file := image ex_id [ex_entry 1] ++ [1; 2; 3]; xf_extent_id := ex_id;
                    xf_write_offset := 8195 |} = Some (Ok r).
Proof.
  destruct (scan_exact {| xf_file := image ex_id [ex_entry 1] ++ [1; 2; 3];
    xf_extent_id := ex_id; xf_write_offset := 8195 |}) as (r & Hr & _).
  - cbn [xf_file]. rewrite Forall_forall. intros b Hb.
    assert (forallb (fun b => (0 <=? b) && (b <? 256)) (image ex_id [ex_entry 1] ++ [1; 2; 3])
            = true) as E by (vm_compute; reflexivity).
    rewrite forallb_forall in E. apply list_elem_of_In, E in Hb. unfold is_byte. lia.
  - by exists r.
Defined.
