(* ===== verification/DiskLayout.v ===== *)
(** A disk's superblock (epoch-store: superblock.rs, disk.rs): its codec, the two copies
    on disk, formatting and loading, and an update that is cut off. *)

From S2P Require Import Prelude Ids Crc ExtentFile.

Definition SUPERBLOCK_SIZE : Z := 4096.
Definition SUPERBLOCK_VERSION : Z := 1.
Definition SUPERBLOCK_MAGIC : list Z := [69; 80; 79; 67; 72; 73; 79; 0].
Definition OFF_VERSION : Z := 8.
Definition OFF_DISK_ID : Z := 10.
Definition OFF_CLUSTER_ID : Z := 14.
Definition OFF_CREATED_AT : Z := 30.
Definition OFF_FLAGS : Z := 38.
Definition OFF_EXTENT_SIZE : Z := 42.
Definition OFF_CHECKSUM : Z := 50.
Inductive SuperblockError : Set := SbTruncated (got : Z) | SbBadMagic | SbVersion (found expected : Z) | SbChecksum (stored computed : Z).
Record Superblock : Set := { sb_disk_id : DiskId; sb_cluster_id : Z; sb_created_at : Z; sb_flags : Z; sb_extent_size : Z }.
Definition Superblock_wf (s : Superblock) : Prop :=
  is_u32 (sb_disk_id s) /\ uint 128 (sb_cluster_id s) /\ is_i64 (sb_created_at s) /\ is_u32 (sb_flags s) /\ is_u64 (sb_extent_size s).

Section Superblock.
Context `{!Crc32c}.
Definition Superblock_encode (s : Superblock) : list Z :=
  let b := zeros SUPERBLOCK_SIZE in
  let b := copy_at 0 SUPERBLOCK_MAGIC b in
  let b := copy_at OFF_VERSION (le_bytes 2 SUPERBLOCK_VERSION) b in
  let b := copy_at OFF_DISK_ID (le_bytes 4 (sb_disk_id s)) b in
  let b := copy_at OFF_CLUSTER_ID (le_bytes 16 (sb_cluster_id s)) b in
  let b := copy_at OFF_CREATED_AT (le_bytes 8 (i64_to_u64 (sb_created_at s))) b in
  let b := copy_at OFF_FLAGS (le_bytes 4 (sb_flags s)) b in
  let b := copy_at OFF_EXTENT_SIZE (le_bytes 8 (sb_extent_size s)) b in
  let checksum := crc32c (slice 0 OFF_CHECKSUM b) in
  copy_at OFF_CHECKSUM (le_bytes 4 checksum) b.
Definition Superblock_decode (buf : list Z) : result SuperblockError Superblock :=
  match first_chunk SUPERBLOCK_SIZE buf with
  | None => Err (SbTruncated (len buf))
  | Some buf =>
      if negb (bool_decide (slice 0 8 buf = SUPERBLOCK_MAGIC)) then Err SbBadMagic
      else
        let found := le_val (slice OFF_VERSION 2 buf) in
        if negb (found =? SUPERBLOCK_VERSION) then Err (SbVersion found SUPERBLOCK_VERSION)
        else
          let stored := le_val (slice OFF_CHECKSUM 4 buf) in
          let computed := crc32c (slice 0 OFF_CHECKSUM buf) in
          if negb (stored =? computed) then Err (SbChecksum stored computed)
          else Ok {| sb_disk_id := le_val (slice OFF_DISK_ID 4 buf); sb_cluster_id := le_val (slice OFF_CLUSTER_ID 16 buf);
                     sb_created_at := u64_to_i64 (le_val (slice OFF_CREATED_AT 8 buf)); sb_flags := le_val (slice OFF_FLAGS 4 buf);
                     sb_extent_size := le_val (slice OFF_EXTENT_SIZE 8 buf) |}
  end.

(** ** The file (disk.rs) *)

Inductive DiskError : Set := DUnregistered | DSuperblockUnreadable (head : SuperblockError) | DClusterMismatch (found expected : Z).
Definition SUPERBLOCK_FILE_SIZE : Z := 2 * SUPERBLOCK_SIZE.
(** The states the file goes through: sized, with the second copy written, and with
    both; a write may be cut off after any number of bytes. *)
Definition sized_superblock (file : list Z) : list Z := set_len SUPERBLOCK_FILE_SIZE file.
Definition second_copy (file : list Z) (s : Superblock) : list Z := write_all_at (Superblock_encode s) SUPERBLOCK_SIZE (sized_superblock file).
Definition write_superblock (file : list Z) (s : Superblock) : list Z := write_all_at (Superblock_encode s) 0 (second_copy file s).
Definition read_superblock (data : list Z) : result DiskError Superblock :=
  match Superblock_decode data with
  | Ok sb => Ok sb
  | Err head_err =>
      match (if len data <? SUPERBLOCK_SIZE then None else res_ok (Superblock_decode (drop (Z.to_nat SUPERBLOCK_SIZE) data))) with
      | Some sb => Ok sb
      | None => Err (DSuperblockUnreadable head_err)
      end
  end.
(** A disk's superblock file, absent before the first format. *)
Definition Disk_format (file : option (list Z)) (s : Superblock) : list Z := write_superblock (default [] file) s.
Definition Disk_load (file : option (list Z)) (expected_cluster_id : Z) : result DiskError Superblock :=
  match file with
  | None => Err DUnregistered
  | Some data =>
      sb <-? read_superblock data ;;
      if negb (sb_cluster_id sb =? expected_cluster_id) then Err (DClusterMismatch (sb_cluster_id sb) expected_cluster_id) else Ok sb
  end.

(** ** Round trip *)

Definition superblock_fields (s : Superblock) : list Z :=
  SUPERBLOCK_MAGIC ++ le_bytes 2 SUPERBLOCK_VERSION ++ le_bytes 4 (sb_disk_id s) ++ le_bytes 16 (sb_cluster_id s)
  ++ le_bytes 8 (i64_to_u64 (sb_created_at s)) ++ le_bytes 4 (sb_flags s) ++ le_bytes 8 (sb_extent_size s).
Lemma superblock_fields_len s : len (superblock_fields s) = OFF_CHECKSUM.
Proof. unfold superblock_fields, SUPERBLOCK_MAGIC. by lens. Qed.
Lemma encode_fields s : Superblock_encode s = superblock_fields s ++ le_bytes 4 (crc32c (superblock_fields s)) ++ zeros 4042.
Proof.
  unfold Superblock_encode, SUPERBLOCK_SIZE, OFF_VERSION, OFF_DISK_ID, OFF_CLUSTER_ID, OFF_CREATED_AT, OFF_FLAGS, OFF_EXTENT_SIZE, OFF_CHECKSUM, SUPERBLOCK_MAGIC.
  fill.
  match goal with |- context [crc32c (slice 0 50 (?f ++ zeros ?n))] =>
    assert (f = superblock_fields s) as -> by (unfold superblock_fields, SUPERBLOCK_MAGIC; by rewrite <- !app_assoc);
    assert (zeros n = zeros 4046) as -> by (f_equal; lens) end.
  pose proof (superblock_fields_len s) as Hl. unfold OFF_CHECKSUM in Hl.
  rewrite slice_app_eq by lia. rewrite <- app_assoc. repeat f_equal.
Qed.
Lemma superblock_encode_len s : len (Superblock_encode s) = SUPERBLOCK_SIZE.
Proof. rewrite encode_fields. pose proof (superblock_fields_len s) as Hl. unfold OFF_CHECKSUM, SUPERBLOCK_SIZE in *. by lens. Qed.
Lemma superblock_decode_encode s rest : Superblock_wf s -> Superblock_decode (Superblock_encode s ++ rest) = Ok s.
Proof.
  intros (Hd & Hc & Ha & Hf & He). unfold Superblock_decode. pose proof (superblock_encode_len s) as Hlen.
  rewrite first_chunk_Some by (rewrite len_app, Hlen; pose proof (len_nonneg rest); lia).
  rewrite slice_app_eq by done. rewrite encode_fields. pose proof (superblock_fields_len s) as Hl.
  rewrite (slice_app_eq OFF_CHECKSUM) by done.
  assert (slice OFF_CHECKSUM 4 (superblock_fields s ++ le_bytes 4 (crc32c (superblock_fields s)) ++ zeros 4042)
          = le_bytes 4 (crc32c (superblock_fields s))) as ->.
  { rewrite slice_app_r by lia. rewrite Hl. apply slice_app_here; [done|by lens]. }
  rewrite (le_val_uint 4 32 (crc32c _)) by (done || apply crc32c_range).
  set (crc := crc32c _). rewrite (Z.eqb_refl crc). clear Hl Hlen.
  assert (uint 64 (i64_to_u64 (sb_created_at s))) as Ha' by apply i64_to_u64_range.
  unfold superblock_fields, OFF_VERSION, OFF_DISK_ID, OFF_CLUSTER_ID, OFF_CREATED_AT, OFF_FLAGS, OFF_EXTENT_SIZE, SUPERBLOCK_MAGIC.
  rewrite <- !app_assoc. slices. rewrite bool_decide_true by done. cbn [negb].
  rewrite (le_val_uint 2 16 SUPERBLOCK_VERSION) by (done || unfold uint, SUPERBLOCK_VERSION; lia).
  rewrite Z.eqb_refl. cbn [negb]. le_vals. rewrite u64_i64_roundtrip by done. by destruct s.
Qed.

(** *** The two copies *)

Lemma read_head s t : Superblock_wf s -> read_superblock (Superblock_encode s ++ t) = Ok s.
Proof. intros Hs. unfold read_superblock. by rewrite superblock_decode_encode. Qed.
Lemma read_tail h s : Superblock_wf s -> len h = SUPERBLOCK_SIZE ->
  read_superblock (h ++ Superblock_encode s) = match Superblock_decode h with Ok x => Ok x | Err _ => Ok s end.
Proof.
  intros Hs Hh. unfold read_superblock.
  assert (Superblock_decode (h ++ Superblock_encode s) = Superblock_decode h) as ->.
  { unfold Superblock_decode. rewrite !first_chunk_Some by (lens; pose proof (len_nonneg (Superblock_encode s)); lia).
    rewrite slice_app_eq by done. by rewrite (slice_full SUPERBLOCK_SIZE h) by done. }
  destruct (Superblock_decode h); [done|].
  rewrite (proj2 (Z.ltb_ge _ _)) by (lens; pose proof (len_nonneg (Superblock_encode s)); lia).
  replace (drop _ (h ++ _)) with (Superblock_encode s).
  2: { rewrite <- Hh. unfold len. by rewrite Nat2Z.id, drop_app_length. }
  pose proof (superblock_decode_encode s [] Hs) as E. rewrite app_nil_r in E. by rewrite E.
Qed.
Lemma write_all_at_head src h t : len src = len h -> write_all_at src 0 (h ++ t) = src ++ t.
Proof.
  intros E. unfold write_all_at. destruct (Z.eqb_spec (len src) 0) as [E0|E0].
  { rewrite (len_0_nil src), (len_0_nil h) by lia. done. }
  change (take (Z.to_nat 0) _) with (@nil Z). cbn [app]. f_equal. rewrite E, Z.add_0_l. unfold len. by rewrite Nat2Z.id, drop_app_length.
Qed.
Lemma zeros_none n : n <= 0 -> zeros n = [].
Proof. intros. unfold zeros. by replace (Z.to_nat n) with 0%nat by lia. Qed.
Lemma write_all_at_tail src h t : len src = len t -> write_all_at src (len h) (h ++ t) = h ++ src.
Proof.
  intros E. unfold write_all_at. destruct (Z.eqb_spec (len src) 0) as [E0|E0].
  { by rewrite (len_0_nil src), (len_0_nil t) by lia. }
  pose proof (len_nonneg t). rewrite (zeros_none (len h - _)) by (lens; lia). rewrite app_nil_r.
  rewrite (drop_ge (h ++ t)) by (unfold len in *; rewrite length_app; lia). rewrite app_nil_r.
  f_equal. unfold len. rewrite Nat2Z.id. apply take_app_length.
Qed.
Lemma write_prefix_at h t src k : (k <= length src)%nat -> (k <= length t)%nat ->
  write_all_at (take k src) (len h) (h ++ t) = h ++ take k src ++ drop k t.
Proof.
  intros Hk E. rewrite <- (take_drop k t) at 1. rewrite app_assoc.
  unfold write_all_at. assert (len (take k src) = Z.of_nat k) as Ek by (unfold len; rewrite length_take; lia).
  rewrite Ek. destruct (Z.eqb_spec (Z.of_nat k) 0) as [E0|E0].
  { assert (k = 0%nat) as -> by lia. by rewrite app_nil_r. }
  pose proof (len_nonneg t). rewrite (zeros_none (len h - _)) by (unfold len; rewrite !length_app; lia). rewrite app_nil_r.
  f_equal.
  { rewrite <- app_assoc. unfold len. rewrite Nat2Z.id. apply take_app_length. }
  f_equal. rewrite <- app_assoc, take_drop. unfold len.
  replace (Z.to_nat _) with (length h + k)%nat by lia. by rewrite drop_app_add.
Qed.
Lemma sized_halves file : exists h t, sized_superblock file = h ++ t /\ len h = SUPERBLOCK_SIZE /\ len t = SUPERBLOCK_SIZE.
Proof.
  unfold sized_superblock, set_len. set (f := file ++ _).
  assert (SUPERBLOCK_FILE_SIZE <= len f) as Hf.
  { unfold f. rewrite len_app. destruct (Z.le_gt_cases (len file) SUPERBLOCK_FILE_SIZE); [rewrite len_zeros by lia; lia|].
    pose proof (len_nonneg (zeros (SUPERBLOCK_FILE_SIZE - len file))). lia. }
  unfold len in Hf. exists (take 4096 f), (take 4096 (drop 4096 f)). unfold len, SUPERBLOCK_FILE_SIZE, SUPERBLOCK_SIZE in *.
  split_and!.
  - by rewrite <- (take_drop 4096 (take (Z.to_nat (2 * 4096)) f)), take_take, take_drop_commute.
  - rewrite length_take. lia.
  - rewrite length_take, length_drop. lia.
Qed.
(** Whatever the file held, two equal copies are in it after a format. *)
Lemma format_copies file s : Disk_format file s = Superblock_encode s ++ Superblock_encode s.
Proof.
  unfold Disk_format, write_superblock, second_copy. destruct (sized_halves (default [] file)) as (h & t & -> & Hh & Ht).
  rewrite <- Hh, write_all_at_tail by (by rewrite superblock_encode_len).
  apply write_all_at_head. by rewrite superblock_encode_len.
Qed.
Lemma sized_formatted s : sized_superblock (Superblock_encode s ++ Superblock_encode s) = Superblock_encode s ++ Superblock_encode s.
Proof.
  unfold sized_superblock, set_len. pose proof (superblock_encode_len s) as E. unfold SUPERBLOCK_FILE_SIZE.
  rewrite zeros_0, app_nil_r by (lens; lia). apply take_ge. unfold len in E. rewrite length_app. lia.
Qed.
(** The copies differ only within their first 54 bytes, and not in the magic and version. *)
Lemma torn_head s0 s k : (k <= 4096)%nat ->
  let h := take k (Superblock_encode s) ++ drop k (Superblock_encode s0) in
  len h = SUPERBLOCK_SIZE /\ ((k <= 10)%nat -> h = Superblock_encode s0) /\ ((54 <= k)%nat -> h = Superblock_encode s).
Proof.
  intros Hk h. pose proof (superblock_encode_len s) as E. pose proof (superblock_encode_len s0) as E0. unfold len, SUPERBLOCK_SIZE in *.
  split_and!.
  - unfold h, len. rewrite length_app, length_take, length_drop. lia.
  - intros H10. unfold h. rewrite <- (take_drop k (Superblock_encode s0)) at 2. f_equal.
    rewrite !encode_fields. unfold superblock_fields. rewrite <- !app_assoc.
    rewrite !(app_assoc SUPERBLOCK_MAGIC). set (p := SUPERBLOCK_MAGIC ++ _). assert (length p = 10%nat) as Ep by done.
    clearbody p. by rewrite !take_app_le by lia.
  - intros H54. unfold h. rewrite <- (take_drop k (Superblock_encode s)) at 2. f_equal.
    rewrite !encode_fields. assert (forall x, length (superblock_fields x ++ le_bytes 4 (crc32c (superblock_fields x))) = 54%nat) as E54.
    { intros x. pose proof (superblock_fields_len x) as Hl. unfold len, OFF_CHECKSUM in Hl. rewrite length_app, length_le_bytes. lia. }
    rewrite !app_assoc, !drop_app_ge by (rewrite E54; lia). by rewrite !E54.
Qed.

(** A formatted disk loads as it was written, whatever file was there before, and only for
    its own cluster; an update of the superblock that is cut off at any byte leaves a
    superblock that loads: the old one while the second copy is written and for the first
    ten bytes of the head, the new one after the 54th byte of the head; in between, the
    new one unless the checksum of the torn head happens to match, in which case its
    fields are what is read. *)
Theorem superblock_update file s0 s k : Superblock_wf s0 -> Superblock_wf s -> (k <= 4096)%nat ->
  let f0 := Disk_format file s0 in
  let copy2 := write_all_at (take k (Superblock_encode s)) SUPERBLOCK_SIZE (sized_superblock f0) in
  let head := write_all_at (take k (Superblock_encode s)) 0 (second_copy f0 s) in
  let torn := take k (Superblock_encode s) ++ drop k (Superblock_encode s0) in
  (forall c, Disk_load (Some f0) c = if sb_cluster_id s0 =? c then Ok s0 else Err (DClusterMismatch (sb_cluster_id s0) c))
  /\ read_superblock copy2 = Ok s0
  /\ read_superblock head = match Superblock_decode torn with Ok x => Ok x | Err _ => Ok s end
  /\ ((k <= 10)%nat -> read_superblock head = Ok s0)
  /\ ((54 <= k)%nat -> read_superblock head = Ok s).
Proof.
  intros H0 Hs Hk f0 copy2 head torn. pose proof (superblock_encode_len s) as E. pose proof (superblock_encode_len s0) as E0.
  assert (f0 = Superblock_encode s0 ++ Superblock_encode s0) as Ef by apply format_copies.
  assert ((k <= length (Superblock_encode s))%nat) as Hk' by (unfold len, SUPERBLOCK_SIZE in E; lia).
  assert ((k <= length (Superblock_encode s0))%nat) as Hk0 by (unfold len, SUPERBLOCK_SIZE in E0; lia).
  assert (head = torn ++ Superblock_encode s) as Eh.
  { unfold head, torn, second_copy. rewrite Ef, sized_formatted, <- E0 at 1. rewrite write_all_at_tail by lia.
    change 0 with (len (@nil Z)). change (Superblock_encode s0 ++ Superblock_encode s) with ([] ++ Superblock_encode s0 ++ Superblock_encode s).
    rewrite write_prefix_at by (rewrite ?length_app; lia). cbn [app]. by rewrite drop_app_le, app_assoc by lia. }
  destruct (torn_head s0 s k Hk) as (Ht & H10 & H54). fold torn in Ht, H10, H54.
  split_and!.
  - intros c. unfold Disk_load. rewrite Ef, read_head by done. by destruct (_ =? c).
  - unfold copy2. rewrite Ef, sized_formatted, <- E0 at 1. rewrite write_prefix_at by (done || lia). by apply read_head.
  - rewrite Eh. by apply read_tail.
  - intros Hr. rewrite Eh, H10 by done. by apply read_head.
  - intros Hr. rewrite Eh, H54 by done. by apply read_head.
Qed.
End Superblock.
