(* ===== verification/Rocks.v ===== *)
(** The RocksDB key-value store, a third-party library, as an interface: what the
    disk index relies on. A stored cell is a base value and the merge operands
    written since, in order; reading folds them with the merge function the
    database was opened with; a write batch applies its operations in order and
    atomically; iteration is in byte order. [cell_partial_merge] is the
    background rewrite RocksDB documents for merge operands whose base it has not
    seen. Storage failures are not represented. *)

From S2P Require Import Prelude.

Abbreviation bytes := (list Z) (only parsing).
Abbreviation MergeFn := (bytes -> option bytes -> list bytes -> option bytes) (only parsing).

Inductive BatchOp : Set :=
| BPut (k v : bytes)
| BMerge (k v : bytes)
| BDelete (k : bytes).

Definition cell : Set := option bytes * list bytes.

Definition apply_op (m : gmap bytes cell) (op : BatchOp) : gmap bytes cell :=
  match op with
  | BPut k v => <[k := (Some v, [])]> m
  | BMerge k v => let c := default ((None, []) : cell) (m !! k) in <[k := (c.1, c.2 ++ [v])]> m
  | BDelete k => delete k m
  end.

Definition cell_value (merge : MergeFn) (k : bytes) (c : cell) : option bytes :=
  match c with (b, []) => b | (b, ops) => merge k b ops end.

(** One background rewrite of a run of at least two operands into the single
    operand the partial merge makes of them. *)
Inductive cell_partial_merge (merge : MergeFn) (k : bytes) : cell -> cell -> Prop :=
| cell_partial_merge_run b pre run post v :
    (2 <= length run)%nat -> merge k None run = Some v ->
    cell_partial_merge merge k (b, pre ++ run ++ post) (b, pre ++ [v] ++ post).

(** What the calls of a database do to its cells. The background rewrites of pending
    operands, [cell_partial_merge], are no calls; where they matter they are steps of
    their own between the calls (IndexRefine, [index_run]). *)
Class RocksDb (merge : MergeFn) := {
  rdb : Type;
  rdb_cells : rdb -> gmap bytes cell;
  rdb_empty : rdb;
  rdb_get : rdb -> bytes -> option bytes;
  rdb_write : rdb -> list BatchOp -> rdb;
  rdb_iter : rdb -> bytes -> list (bytes * bytes);
  rdb_empty_cells : rdb_cells rdb_empty = ∅;
  rdb_get_cells d k : rdb_get d k = rdb_cells d !! k ≫= cell_value merge k;
  rdb_write_cells d b : rdb_cells (rdb_write d b) = foldl apply_op (rdb_cells d) b;
  rdb_iter_sorted d from : StronglySorted (fun a b => lex_ltb a b = true) (rdb_iter d from).*1;
  rdb_iter_elem d from k v :
    (k, v) ∈ rdb_iter d from <-> rdb_get d k = Some v /\ lex_leb from k = true
}.

(** ** The cells themselves as a database *)

Definition cells_get (merge : MergeFn) (m : gmap bytes cell) (k : bytes) : option bytes :=
  m !! k ≫= cell_value merge k.
Definition key_le (x y : bytes * bytes) : Prop := lex_leb x.1 y.1 = true.
#[local] Instance key_le_dec : RelDecision key_le.
Proof. intros x y. unfold key_le. apply _. Defined.
#[local] Instance key_le_total : Total key_le.
Proof. intros x y. apply lex_leb_total. Qed.
#[local] Instance key_le_trans : Transitive key_le.
Proof. intros x y z. apply lex_leb_trans. Qed.

Definition cells_iter (merge : MergeFn) (m : gmap bytes cell) (from : bytes)
    : list (bytes * bytes) :=
  merge_sort key_le
    (filter (fun kv => lex_leb from kv.1 = true)
      (map_to_list (map_imap (fun k c => cell_value merge k c) m))).

Lemma StronglySorted_le_lt (l : list (bytes * bytes)) :
  NoDup l.*1 -> StronglySorted key_le l ->
  StronglySorted (fun a b => lex_ltb a b = true) l.*1.
Proof.
  intros Hnd Hs. induction Hs as [|[k v] l Hs IH Hf]; simpl; constructor.
  - apply IH. by apply NoDup_cons in Hnd as [_ ?].
  - apply NoDup_cons in Hnd as [Hk _]. rewrite Forall_forall. intros k' Hk'.
    apply list_elem_of_fmap in Hk' as ([k'' v'] & -> & Hin).
    pose proof (proj1 (Forall_forall _ _) Hf _ Hin) as Hle. unfold key_le in Hle. simpl in *.
    apply lex_leb_lt_or_eq in Hle as [?| ->]; [done|].
    destruct Hk. apply list_elem_of_fmap. by exists (k'', v').
Qed.

#[export] Program Instance cells_rocks (merge : MergeFn) : RocksDb merge := {|
  rdb := gmap bytes cell;
  rdb_cells m := m;
  rdb_empty := ∅;
  rdb_get := cells_get merge;
  rdb_write m b := foldl apply_op m b;
  rdb_iter := cells_iter merge |}.
Next Obligation. done. Qed.
Next Obligation. done. Qed.
Next Obligation. done. Qed.
Next Obligation.
  intros merge m from. unfold cells_iter. apply StronglySorted_le_lt.
  - rewrite merge_sort_Permutation.
    set (l := map_to_list _). eapply (sublist_NoDup _ l.*1).
    + apply NoDup_fst_map_to_list.
    + apply fmap_sublist, sublist_filter.
  - apply StronglySorted_merge_sort; apply _.
Qed.
Next Obligation.
  intros merge m from k v. unfold cells_iter. rewrite merge_sort_Permutation.
  rewrite list_elem_of_filter, elem_of_map_to_list, map_lookup_imap. simpl. tauto.
Qed.
