(* ===== verification/MetaMerge.v ===== *)
(** Extent metadata and its merge operands: the value codec of
    crates/epoch-store/src/index.rs and the merge operator of meta_merge.rs. *)

From S2P Require Import Prelude Ids Record Rocks.

Definition EXTENT_META_LEN : Z := 33.

Record ExtentMeta : Set := {
  em_shard_id : ShardId;
  em_status : ExtentStatus;
  em_size : Z;
  em_deleted_bytes : Z;
  em_create_ts : Z
}.
#[export] Instance ExtentMeta_eq_dec : EqDecision ExtentMeta.
Proof. solve_decision. Defined.

Definition ExtentMeta_wf (m : ExtentMeta) : Prop :=
  is_u64 (em_shard_id m) /\ is_u64 (em_size m) /\ is_u64 (em_deleted_bytes m)
  /\ is_i64 (em_create_ts m).

Definition ExtentMeta_encode (m : ExtentMeta) : list Z :=
  let buf := zeros EXTENT_META_LEN in
  let buf := copy_at 0 (le_bytes 8 (em_shard_id m)) buf in
  let buf := copy_at 8 [ExtentStatus_to_u8 (em_status m)] buf in
  let buf := copy_at 9 (le_bytes 8 (em_size m)) buf in
  let buf := copy_at 17 (le_bytes 8 (em_deleted_bytes m)) buf in
  copy_at 25 (le_bytes 8 (i64_to_u64 (em_create_ts m))) buf.

Definition ExtentMeta_decode_value (buf : list Z) : result string ExtentMeta :=
  buf <-? ok_or (first_chunk EXTENT_META_LEN buf) "short extent meta"%string ;;
  status <-? ok_or (ExtentStatus_from_u8 (nth 8 buf 0)) "unknown extent status"%string ;;
  Ok {| em_shard_id := le_val (slice 0 8 buf);
        em_status := status;
        em_size := le_val (slice 9 8 buf);
        em_deleted_bytes := le_val (slice 17 8 buf);
        em_create_ts := u64_to_i64 (le_val (slice 25 8 buf)) |}.

(** ** Merge operands (meta_merge.rs) *)

Definition TAG_SET_SIZE : Z := 1.
Definition TAG_ADD_DELETED : Z := 2.
Definition TAG_SET_STATUS : Z := 3.

Inductive MetaMergeOp : Set :=
| SetSize (size : Z)
| AddDeletedBytes (bytes : Z)
| SetStatus (status : ExtentStatus).

Definition MetaMergeOp_wf (op : MetaMergeOp) : Prop :=
  match op with SetSize n | AddDeletedBytes n => is_u64 n | SetStatus _ => True end.

Definition MetaMergeOp_encode (op : MetaMergeOp) : list Z :=
  let buf := zeros 9 in
  match op with
  | SetSize size => copy_at 1 (le_bytes 8 size) (copy_at 0 [TAG_SET_SIZE] buf)
  | AddDeletedBytes bytes => copy_at 1 (le_bytes 8 bytes) (copy_at 0 [TAG_ADD_DELETED] buf)
  | SetStatus status => copy_at 1 [ExtentStatus_to_u8 status] (copy_at 0 [TAG_SET_STATUS] buf)
  end.

Definition MetaMergeOp_decode (buf : list Z) : option MetaMergeOp :=
  if negb (len buf =? 9) then None
  else
    match nth 0 buf 0 with
    | 1 => Some (SetSize (le_val (slice 1 8 buf)))
    | 2 => Some (AddDeletedBytes (le_val (slice 1 8 buf)))
    | 3 => SetStatus <$> ExtentStatus_from_u8 (nth 1 buf 0)
    | _ => None
    end.

Definition MetaMergeOp_apply (op : MetaMergeOp) (meta : ExtentMeta) : ExtentMeta :=
  match op with
  | SetSize size =>
      {| em_shard_id := em_shard_id meta; em_status := em_status meta; em_size := size;
         em_deleted_bytes := em_deleted_bytes meta; em_create_ts := em_create_ts meta |}
  | AddDeletedBytes bytes =>
      {| em_shard_id := em_shard_id meta; em_status := em_status meta; em_size := em_size meta;
         em_deleted_bytes := saturating_add 64 (em_deleted_bytes meta) bytes;
         em_create_ts := em_create_ts meta |}
  | SetStatus status =>
      {| em_shard_id := em_shard_id meta; em_status := status; em_size := em_size meta;
         em_deleted_bytes := em_deleted_bytes meta; em_create_ts := em_create_ts meta |}
  end.

(** [chunks_exact(9).map(decode).collect()]; one chunk per unit of fuel. *)
Fixpoint decode_chunks (n : nat) (buf : list Z) : option (list MetaMergeOp) :=
  match n with
  | O => Some []
  | S n => op ← MetaMergeOp_decode (take 9 buf); ops ← decode_chunks n (drop 9 buf); Some (op :: ops)
  end.
Definition decode_operand_stack (buf : list Z) : option (list MetaMergeOp) :=
  if (len buf =? 0) || negb (len buf mod 9 =? 0) then None
  else decode_chunks (Z.to_nat (len buf / 9)) buf.

Definition merge_apply (meta : ExtentMeta) (operands : list (list Z)) : ExtentMeta :=
  foldl (fun m raw => match MetaMergeOp_decode raw with
                      | Some op => MetaMergeOp_apply op m
                      | None => m end) meta operands.

Definition merge_meta (key : list Z) (existing : option (list Z)) (operands : list (list Z))
    : option (list Z) :=
  match existing with
  | None => Some (mjoin operands)
  | Some base =>
      match ExtentMeta_decode_value base with
      | Err _ =>
          match decode_operand_stack base with
          | None => Some base
          | Some _ => Some (base ++ mjoin operands)
          end
      | Ok meta => Some (ExtentMeta_encode (merge_apply meta operands))
      end
  end.

(** ** Codec lemmas *)

Lemma ExtentMeta_encode_app m :
  ExtentMeta_encode m = le_bytes 8 (em_shard_id m) ++ [ExtentStatus_to_u8 (em_status m)]
    ++ le_bytes 8 (em_size m) ++ le_bytes 8 (em_deleted_bytes m)
    ++ le_bytes 8 (i64_to_u64 (em_create_ts m)).
Proof.
  unfold ExtentMeta_encode, EXTENT_META_LEN. fill. rewrite zeros_0, app_nil_r by by lens.
  by rewrite <- !app_assoc.
Qed.
Lemma ExtentMeta_encode_len m : len (ExtentMeta_encode m) = EXTENT_META_LEN.
Proof. rewrite ExtentMeta_encode_app. unfold EXTENT_META_LEN. by lens. Qed.

Lemma ExtentMeta_decode_encode m : ExtentMeta_wf m ->
  ExtentMeta_decode_value (ExtentMeta_encode m) = Ok m.
Proof.
  intros (Hs & Hz & Hd & Ht). unfold ExtentMeta_decode_value.
  rewrite first_chunk_Some, slice_full by (by rewrite ExtentMeta_encode_len).
  cbn [ok_or]. rewrite ExtentMeta_encode_app.
  rewrite app_nth2 by (rewrite length_le_bytes; lia). rewrite length_le_bytes.
  cbn [nth Nat.sub app]. rewrite ExtentStatus_roundtrip. cbn [ok_or].
  change (ExtentStatus_to_u8 (em_status m) :: ?l) with ([ExtentStatus_to_u8 (em_status m)] ++ l).
  slices. le_vals.
  rewrite (le_val_uint 8 64 (i64_to_u64 _)) by (done || apply i64_to_u64_range).
  rewrite u64_i64_roundtrip by done. by destruct m.
Qed.

Lemma MetaMergeOp_encode_len op : len (MetaMergeOp_encode op) = 9.
Proof.
  destruct op; unfold MetaMergeOp_encode; fill; rewrite ?len_app; by lens.
Qed.
Lemma nth_head (x : Z) l d : nth 0 (x :: l) d = x.
Proof. done. Qed.
Lemma MetaMergeOp_decode_encode op : MetaMergeOp_wf op ->
  MetaMergeOp_decode (MetaMergeOp_encode op) = Some op.
Proof.
  intros Hwf. unfold MetaMergeOp_decode. rewrite MetaMergeOp_encode_len.
  cbn [Z.eqb Pos.eqb negb].
  destruct op as [n|n|s]; unfold MetaMergeOp_encode; fill; simpl in Hwf.
  1,2: rewrite <- app_assoc; cbn [app nth]; unfold TAG_SET_SIZE, TAG_ADD_DELETED;
    change (?x :: ?l) with ([x] ++ l); slices; by rewrite (le_val_uint 8 64 n).
  by destruct s.
Qed.

Definition apply_ops (ops : list MetaMergeOp) (m : ExtentMeta) : ExtentMeta :=
  foldl (fun m op => MetaMergeOp_apply op m) m ops.

Lemma merge_apply_encoded ops m : Forall MetaMergeOp_wf ops ->
  merge_apply m (MetaMergeOp_encode <$> ops) = apply_ops ops m.
Proof.
  intros H. revert m. induction H as [|op ops Hop _ IH]; intros m; [done|].
  unfold merge_apply, apply_ops in *. cbn [fmap list_fmap foldl].
  by rewrite MetaMergeOp_decode_encode, IH.
Qed.
Lemma apply_ops_wf ops m : Forall MetaMergeOp_wf ops -> ExtentMeta_wf m ->
  ExtentMeta_wf (apply_ops ops m).
Proof.
  intros H. revert m. induction H as [|op ops Hop _ IH]; intros m Hm; [done|].
  apply IH. destruct Hm as (? & ? & ? & ?).
  destruct op; simpl in *; unfold ExtentMeta_wf, saturating_add, uint in *; simpl; split_and!; done || lia.
Qed.
Lemma merge_meta_encoded k m ops : ExtentMeta_wf m -> Forall MetaMergeOp_wf ops ->
  merge_meta k (Some (ExtentMeta_encode m)) (MetaMergeOp_encode <$> ops)
    = Some (ExtentMeta_encode (apply_ops ops m)).
Proof.
  intros Hm Hops. unfold merge_meta.
  by rewrite ExtentMeta_decode_encode, merge_apply_encoded.
Qed.

(** The operands of one field, in order. *)
Definition size_op (op : MetaMergeOp) : option Z :=
  match op with SetSize n => Some n | _ => None end.
Definition status_op (op : MetaMergeOp) : option ExtentStatus :=
  match op with SetStatus s => Some s | _ => None end.
Definition deleted_op (op : MetaMergeOp) : option Z :=
  match op with AddDeletedBytes n => Some n | _ => None end.

Lemma apply_ops_snoc ops op m : apply_ops (ops ++ [op]) m = MetaMergeOp_apply op (apply_ops ops m).
Proof. unfold apply_ops. by rewrite foldl_app. Qed.
Lemma apply_ops_size ops m :
  em_size (apply_ops ops m) = default (em_size m) (last (omap size_op ops)).
Proof.
  induction ops as [|op ops IH] using rev_ind; [done|].
  rewrite apply_ops_snoc, omap_app. destruct op; simpl; rewrite ?app_nil_r, ?last_snoc; done.
Qed.
Lemma apply_ops_status ops m :
  em_status (apply_ops ops m) = default (em_status m) (last (omap status_op ops)).
Proof.
  induction ops as [|op ops IH] using rev_ind; [done|].
  rewrite apply_ops_snoc, omap_app. destruct op; simpl; rewrite ?app_nil_r, ?last_snoc; done.
Qed.
Lemma apply_ops_deleted ops m : Forall MetaMergeOp_wf ops -> is_u64 (em_deleted_bytes m) ->
  em_deleted_bytes (apply_ops ops m)
    = Z.min (em_deleted_bytes m + foldr Z.add 0 (omap deleted_op ops)) U64_MAX.
Proof.
  intros Hops Hm. unfold U64_MAX. induction ops as [|op ops IH] using rev_ind.
  { simpl. unfold uint in Hm. lia. }
  apply Forall_app in Hops as [Hops [Hop _]%Forall_cons_1]. specialize (IH Hops).
  rewrite apply_ops_snoc, omap_app, foldr_app.
  assert (forall l a, foldr Z.add a l = foldr Z.add 0 l + a) as Hf.
  { clear. induction l as [|x l IHl]; intros a; simpl; [lia|]. rewrite IHl. lia. }
  assert (0 <= foldr Z.add 0 (omap deleted_op ops)) as Hp.
  { clear -Hops. induction Hops as [|o l Ho _ IHl]; simpl; [lia|].
    destruct o; [exact IHl| |exact IHl]. apply Z.add_nonneg_nonneg; [apply Ho|exact IHl]. }
  rewrite Hf. set (t := foldr Z.add 0 (omap deleted_op ops)) in *.
  destruct op; cbn [MetaMergeOp_apply em_deleted_bytes omap list_omap deleted_op foldr
    MetaMergeOp_wf] in *; unfold saturating_add, uint in *; lia.
Qed.
Lemma apply_ops_fixed ops m :
  em_shard_id (apply_ops ops m) = em_shard_id m /\ em_create_ts (apply_ops ops m) = em_create_ts m.
Proof.
  induction ops as [|op ops IH] using rev_ind; [done|].
  rewrite apply_ops_snoc. by destruct op.
Qed.

(** Merge operands are field-scoped. Folding any interleaving of the
    writer's size operands, the delete path's byte counts and status changes into
    an extent's metadata gives: the last size set, the last status set, the
    saturated sum of the deleted bytes, and the shard and creation time
    untouched. So no owner can roll back another owner's field, whatever the
    order, and folding in two steps is folding at once. *)
Theorem meta_merge_field_scoped : forall key m ops,
  ExtentMeta_wf m -> Forall MetaMergeOp_wf ops ->
  exists r, merge_meta key (Some (ExtentMeta_encode m)) (MetaMergeOp_encode <$> ops)
              = Some (ExtentMeta_encode r)
    /\ ExtentMeta_decode_value (ExtentMeta_encode r) = Ok r
    /\ em_size r = default (em_size m) (last (omap size_op ops))
    /\ em_status r = default (em_status m) (last (omap status_op ops))
    /\ em_deleted_bytes r
       = Z.min (em_deleted_bytes m + foldr Z.add 0 (omap deleted_op ops)) U64_MAX
    /\ em_shard_id r = em_shard_id m /\ em_create_ts r = em_create_ts m
    /\ (forall ops1 ops2, ops = ops1 ++ ops2 ->
          merge_meta key (merge_meta key (Some (ExtentMeta_encode m)) (MetaMergeOp_encode <$> ops1))
            (MetaMergeOp_encode <$> ops2) = Some (ExtentMeta_encode r)).
Proof.
  intros key m ops Hm Hops. exists (apply_ops ops m).
  assert (Forall MetaMergeOp_wf ops /\ ExtentMeta_wf (apply_ops ops m)) as [_ Hr]
    by (split; [done|by apply apply_ops_wf]).
  pose proof (apply_ops_fixed ops m) as [Hs Ht]. split_and!.
  - by apply merge_meta_encoded.
  - by apply ExtentMeta_decode_encode.
  - apply apply_ops_size.
  - apply apply_ops_status.
  - apply apply_ops_deleted; [done|apply Hm].
  - done.
  - done.
  - intros ops1 ops2 ->. apply Forall_app in Hops as [H1 H2].
    rewrite merge_meta_encoded, merge_meta_encoded by (done || by apply apply_ops_wf).
    unfold apply_ops. by rewrite foldl_app.
Qed.

Lemma meta_merge_field_scoped_witness :
  exists r, merge_meta [] (Some (ExtentMeta_encode
      {| em_shard_id := 7; em_status := ES_Writable; em_size := 4096; em_deleted_bytes := 0;
         em_create_ts := 5 |}))
      (MetaMergeOp_encode <$> [SetSize 8192; SetStatus ES_Sealed; AddDeletedBytes 4096; SetSize 12288])
    = Some (ExtentMeta_encode r) /\ em_size r = 12288 /\ em_status r = ES_Sealed.
Proof.
  destruct (meta_merge_field_scoped []
     {| em_shard_id := 7; em_status := ES_Writable; em_size := 4096; em_deleted_bytes := 0;
         em_create_ts := 5 |} [SetSize 8192; SetStatus ES_Sealed; AddDeletedBytes 4096; SetSize 12288])
    as (r & H & _ & Hz & Hs & _); [done|repeat constructor; done|].
  exists r. done.
Defined.

(** ** Partial merges *)

Lemma len_join_operands ops : len (mjoin (MetaMergeOp_encode <$> ops)) = 9 * len ops.
Proof.
  induction ops as [|op ops IH]; [done|].
  change (mjoin _) with (MetaMergeOp_encode op ++ mjoin (MetaMergeOp_encode <$> ops)).
  rewrite len_app, MetaMergeOp_encode_len. lens.
Qed.

(** A partial merge loses the operands it merges. When RocksDB rewrites a
    run of two or more pending operands with the merge function (which is
    installed as the partial merge too), the operand it gets decodes as no
    operand, so the next full merge on the base skips it: every size, status and
    deleted-bytes update of the run is gone from the value that is read, while
    without the rewrite all of them apply. *)
Theorem partial_merge_loses_updates : forall key m ops,
  ExtentMeta_wf m -> Forall MetaMergeOp_wf ops -> (2 <= length ops)%nat ->
  exists v,
    cell_partial_merge merge_meta key
      (Some (ExtentMeta_encode m), MetaMergeOp_encode <$> ops)
      (Some (ExtentMeta_encode m), [v])
    /\ cell_value merge_meta key (Some (ExtentMeta_encode m), MetaMergeOp_encode <$> ops)
       = Some (ExtentMeta_encode (apply_ops ops m))
    /\ cell_value merge_meta key (Some (ExtentMeta_encode m), [v]) = Some (ExtentMeta_encode m).
Proof.
  intros key m ops Hm Hops Hl. exists (mjoin (MetaMergeOp_encode <$> ops)). split_and!.
  - pose proof (cell_partial_merge_run merge_meta key (Some (ExtentMeta_encode m)) []
      (MetaMergeOp_encode <$> ops) [] (mjoin (MetaMergeOp_encode <$> ops))) as Hc.
    rewrite app_nil_r in Hc. apply Hc; [by rewrite length_fmap|done].
  - unfold cell_value. destruct ops as [|op ops]; [simpl in Hl; lia|].
    by apply (merge_meta_encoded key m (op :: ops)).
  - cbn [cell_value]. unfold merge_meta. rewrite ExtentMeta_decode_encode by done.
    unfold merge_apply. cbn [foldl]. unfold MetaMergeOp_decode at 1.
    rewrite len_join_operands. replace (9 * len ops =? 9) with false; [done|].
    symmetry. apply Z.eqb_neq. unfold len. lia.
Qed.

Lemma partial_merge_loses_updates_witness :
  exists v, cell_value merge_meta []
      (Some (ExtentMeta_encode {| em_shard_id := 7; em_status := ES_Writable; em_size := 4096;
        em_deleted_bytes := 0; em_create_ts := 5 |}), [v])
    = Some (ExtentMeta_encode {| em_shard_id := 7; em_status := ES_Writable; em_size := 4096;
        em_deleted_bytes := 0; em_create_ts := 5 |}).
Proof.
  destruct (partial_merge_loses_updates []
     {| em_shard_id := 7; em_status := ES_Writable; em_size := 4096; em_deleted_bytes := 0;
         em_create_ts := 5 |} [SetSize 8192; SetSize 12288])
    as (v & _ & _ & H); [done|repeat constructor; done|simpl; lia|].
  by exists v.
Defined.
