(* ===== verification/StoreIndex.v ===== *)
(** The per-disk index (crates/epoch-store/src/index.rs) over RocksDB, and its
    refinement of an abstract index: three maps, one per keyspace. *)

From S2P Require Import Prelude Ids Record Rocks MetaMerge.

Definition FLAG_TOMBSTONE : Z := 1.
Definition BLOB_INDEX_LEN : Z := 17.
Definition EXTENT_KEY_LEN : Z := 1 + 16.
Definition SHARD_KEY_LEN : Z := 1 + 8.
Definition BLOB_KEY_PREFIX_LEN : Z := 1 + 16.
Definition BLOB_KEY_LEN : Z := 1 + 16 + 8.

(** [Corrupt { kind, len, reason }]; storage faults are not represented. *)
Inductive IndexError : Set := ICorrupt (kind : string) (n : Z) (reason : string).

Record BlobIndex : Set := { bi_offset : Z; bi_size : Z; bi_crc : Z; bi_flags : Z }.
#[export] Instance BlobIndex_eq_dec : EqDecision BlobIndex.
Proof. solve_decision. Defined.
Definition BlobIndex_wf (i : BlobIndex) : Prop :=
  is_u64 (bi_offset i) /\ is_u32 (bi_size i) /\ is_u32 (bi_crc i) /\ is_u8 (bi_flags i).

Definition BlobIndex_new (offset size crc : Z) : BlobIndex :=
  {| bi_offset := offset; bi_size := size; bi_crc := crc; bi_flags := 0 |}.
Definition is_tombstoned (i : BlobIndex) : bool :=
  negb (Z.land (bi_flags i) FLAG_TOMBSTONE =? 0).
Definition BlobIndex_encode (i : BlobIndex) : list Z :=
  let buf := zeros BLOB_INDEX_LEN in
  let buf := copy_at 0 (le_bytes 8 (bi_offset i)) buf in
  let buf := copy_at 8 (le_bytes 4 (bi_size i)) buf in
  let buf := copy_at 12 (le_bytes 4 (bi_crc i)) buf in
  copy_at 16 [bi_flags i] buf.
Definition BlobIndex_decode (buf : list Z) : result string BlobIndex :=
  buf <-? ok_or (first_chunk BLOB_INDEX_LEN buf) "short blob index"%string ;;
  Ok {| bi_offset := le_val (slice 0 8 buf); bi_size := le_val (slice 8 4 buf);
        bi_crc := le_val (slice 12 4 buf); bi_flags := nth 16 buf 0 |}.
(** [index.flags |= FLAG_TOMBSTONE] *)
Definition set_tombstone (i : BlobIndex) : BlobIndex :=
  {| bi_offset := bi_offset i; bi_size := bi_size i; bi_crc := bi_crc i;
     bi_flags := Z.lor (bi_flags i) FLAG_TOMBSTONE |}.

(** ** Keys *)

Definition extent_key (extent : ExtentId) : list Z :=
  copy_at 1 extent (copy_at 0 [101] (zeros EXTENT_KEY_LEN)).
Definition shard_key (shard : ShardId) : list Z :=
  copy_at 1 (be_bytes 8 (ShardId_shard_prefix shard)) (copy_at 0 [115] (zeros SHARD_KEY_LEN)).
Definition blob_key_prefix (extent : ExtentId) : list Z :=
  copy_at 1 extent (copy_at 0 [98] (zeros BLOB_KEY_PREFIX_LEN)).
Definition blob_key (extent : ExtentId) (blob : BlobId) : list Z :=
  copy_at BLOB_KEY_PREFIX_LEN (BlobId_to_be_bytes blob)
    (copy_at 1 extent (copy_at 0 [98] (zeros BLOB_KEY_LEN))).

Definition starts_with (key prefix : list Z) : bool :=
  bool_decide (take (length prefix) key = prefix).

Section Index.
Context {RDB : RocksDb merge_meta}.

(** The [DiskIndex] is the database it holds. *)
Abbreviation DiskIndex := rdb (only parsing).

Definition write_synced (index : DiskIndex) (batch : list BatchOp) : DiskIndex :=
  rdb_write index batch.

Definition put_extent_meta (index : DiskIndex) (extent : ExtentId) (meta : ExtentMeta) : DiskIndex :=
  rdb_write index [BPut (extent_key extent) (ExtentMeta_encode meta)].

Definition get_extent_meta (index : DiskIndex) (extent : ExtentId)
    : result IndexError (option ExtentMeta) :=
  match rdb_get index (extent_key extent) with
  | None => Ok None
  | Some value =>
      match ExtentMeta_decode_value value with
      | Ok m => Ok (Some m)
      | Err reason => Err (ICorrupt "extent_meta" (len value) reason)
      end
  end.

Definition set_shard_binding (index : DiskIndex) (shard : ShardId) (extent : ExtentId) : DiskIndex :=
  rdb_write index [BPut (shard_key shard) extent].

Definition get_shard_binding (index : DiskIndex) (shard : ShardId)
    : result IndexError (option ExtentId) :=
  match rdb_get index (shard_key shard) with
  | None => Ok None
  | Some value =>
      if len value =? 16 then Ok (Some value)
      else Err (ICorrupt "shard_binding" (len value) "expected 16-byte extent id")
  end.

Definition get_blob (index : DiskIndex) (extent : ExtentId) (blob : BlobId)
    : result IndexError (option BlobIndex) :=
  match rdb_get index (blob_key extent blob) with
  | None => Ok None
  | Some value =>
      match BlobIndex_decode value with
      | Ok i => Ok (Some i)
      | Err reason => Err (ICorrupt "blob_index" (len value) reason)
      end
  end.

(** The iteration of [list_blobs]: stop at the first key outside the prefix. *)
Fixpoint list_blobs_loop (prefix : list Z) (items : list (list Z * list Z))
    (out : list (BlobId * BlobIndex)) : result IndexError (list (BlobId * BlobIndex)) :=
  match items with
  | [] => Ok out
  | (key, value) :: items =>
      if negb (starts_with key prefix) then Ok out
      else
        if len key <? BLOB_KEY_LEN
        then Err (ICorrupt "blob_key" (len key) "expected 25-byte blob key")
        else
          let blob := be_val (slice BLOB_KEY_PREFIX_LEN 8 key) in
          match BlobIndex_decode value with
          | Err reason => Err (ICorrupt "blob_index" (len value) reason)
          | Ok index => list_blobs_loop prefix items (out ++ [(blob, index)])
          end
  end.
Definition list_blobs (index : DiskIndex) (extent : ExtentId)
    : result IndexError (list (BlobId * BlobIndex)) :=
  let prefix := blob_key_prefix extent in
  list_blobs_loop prefix (rdb_iter index prefix) [].

Definition commit_blobs (index : DiskIndex) (extent : ExtentId) (blobs : list (BlobId * BlobIndex))
    (size : Z) : DiskIndex :=
  let batch := foldl (fun batch b => batch ++ [BPut (blob_key extent b.1) (BlobIndex_encode b.2)])
                 [] blobs in
  let batch := batch ++ [BMerge (extent_key extent) (MetaMergeOp_encode (SetSize size))] in
  write_synced index batch.
Definition commit_blob (index : DiskIndex) (extent : ExtentId) (blob : BlobId)
    (blob_index : BlobIndex) (size : Z) : DiskIndex :=
  commit_blobs index extent [(blob, blob_index)] size.

Definition install_extent (index : DiskIndex) (extent : ExtentId) (meta : ExtentMeta)
    (blobs : list (BlobId * BlobIndex)) : DiskIndex :=
  let batch := [BPut (extent_key extent) (ExtentMeta_encode meta)] in
  let batch := batch ++ [BPut (shard_key (em_shard_id meta)) extent] in
  let batch := foldl (fun batch b => batch ++ [BPut (blob_key extent b.1) (BlobIndex_encode b.2)])
                 batch blobs in
  write_synced index batch.

Definition tombstone_blob (index : DiskIndex) (extent : ExtentId) (blob : BlobId)
    : result IndexError (DiskIndex * bool) :=
  entry <-? get_blob index extent blob ;;
  match entry with
  | None => Ok (index, false)
  | Some i =>
      if is_tombstoned i then Ok (index, false)
      else
        let i := set_tombstone i in
        let batch := [BPut (blob_key extent blob) (BlobIndex_encode i);
                      BMerge (extent_key extent)
                        (MetaMergeOp_encode (AddDeletedBytes (record_on_disk_len (bi_size i))))] in
        Ok (write_synced index batch, true)
  end.

(** The loop of [swap_shard_binding_with] over the carried tombstones. *)
Fixpoint carry_loop (index : DiskIndex) (new_extent : ExtentId) (carried : list BlobId)
    (batch : list BatchOp) (carried_bytes : Z) : result IndexError (list BatchOp * Z) :=
  match carried with
  | [] => Ok (batch, carried_bytes)
  | blob :: carried =>
      entry <-? get_blob index new_extent blob ;;
      match entry with
      | None => carry_loop index new_extent carried batch carried_bytes
      | Some e =>
          if is_tombstoned e then carry_loop index new_extent carried batch carried_bytes
          else
            let e := set_tombstone e in
            carry_loop index new_extent carried
              (batch ++ [BPut (blob_key new_extent blob) (BlobIndex_encode e)])
              (carried_bytes + record_on_disk_len (bi_size e))
      end
  end.
Definition swap_shard_binding_with (index : DiskIndex) (shard : ShardId)
    (new_extent old_extent : ExtentId) (carried : list BlobId) : result IndexError DiskIndex :=
  let batch := [BPut (shard_key shard) new_extent;
                BMerge (extent_key old_extent) (MetaMergeOp_encode (SetStatus ES_Dropped))] in
  r <-? carry_loop index new_extent carried batch 0 ;;
  let (batch, carried_bytes) := r in
  let batch := if 0 <? carried_bytes
               then batch ++ [BMerge (extent_key new_extent)
                                (MetaMergeOp_encode (AddDeletedBytes carried_bytes))]
               else batch in
  Ok (write_synced index batch).
Definition swap_shard_binding (index : DiskIndex) (shard : ShardId)
    (new_extent old_extent : ExtentId) : result IndexError DiskIndex :=
  swap_shard_binding_with index shard new_extent old_extent [].

Definition set_extent_status (index : DiskIndex) (extent : ExtentId) (status : ExtentStatus)
    : result IndexError DiskIndex :=
  m <-? get_extent_meta index extent ;;
  _m <-? ok_or m (ICorrupt "extent_meta" 0 "missing metadata for status transition") ;;
  Ok (write_synced index [BMerge (extent_key extent) (MetaMergeOp_encode (SetStatus status))]).
Definition seal_extent (index : DiskIndex) (extent : ExtentId) : result IndexError DiskIndex :=
  m <-? get_extent_meta index extent ;;
  _m <-? ok_or m (ICorrupt "extent_meta" 0 "missing metadata for seal") ;;
  Ok (write_synced index [BMerge (extent_key extent) (MetaMergeOp_encode (SetStatus ES_Sealed))]).

Fixpoint list_extents_loop (items : list (list Z * list Z)) (out : list (ExtentId * ExtentMeta))
    : result IndexError (list (ExtentId * ExtentMeta)) :=
  match items with
  | [] => Ok out
  | (key, value) :: items =>
      if negb (bool_decide (head key = Some 101)) then Ok out
      else
        if len key <? EXTENT_KEY_LEN
        then Err (ICorrupt "extent_key" (len key) "expected 17-byte extent key")
        else
          let id := slice 1 16 key in
          match ExtentMeta_decode_value value with
          | Err reason => Err (ICorrupt "extent_meta" (len value) reason)
          | Ok meta => list_extents_loop items (out ++ [(id, meta)])
          end
  end.
Definition list_extents (index : DiskIndex) : result IndexError (list (ExtentId * ExtentMeta)) :=
  list_extents_loop (rdb_iter index [101]) [].

Fixpoint remove_loop (prefix : list Z) (items : list (list Z * list Z)) (batch : list BatchOp)
    : list BatchOp :=
  match items with
  | [] => batch
  | (key, _) :: items =>
      if negb (starts_with key prefix) then batch
      else remove_loop prefix items (batch ++ [BDelete key])
  end.
Definition remove_extent (index : DiskIndex) (extent : ExtentId) : DiskIndex :=
  let prefix := blob_key_prefix extent in
  write_synced index (remove_loop prefix (rdb_iter index prefix) [BDelete (extent_key extent)]).
End Index.

(** ** Value and key codecs *)

Lemma BlobIndex_encode_app i :
  BlobIndex_encode i = le_bytes 8 (bi_offset i) ++ le_bytes 4 (bi_size i)
    ++ le_bytes 4 (bi_crc i) ++ [bi_flags i].
Proof.
  unfold BlobIndex_encode, BLOB_INDEX_LEN. fill. rewrite zeros_0, app_nil_r by by lens.
  by rewrite <- !app_assoc.
Qed.
Lemma BlobIndex_encode_len i : len (BlobIndex_encode i) = BLOB_INDEX_LEN.
Proof. rewrite BlobIndex_encode_app. unfold BLOB_INDEX_LEN. by lens. Qed.
Lemma BlobIndex_decode_encode i : BlobIndex_wf i ->
  BlobIndex_decode (BlobIndex_encode i) = Ok i.
Proof.
  intros (Ho & Hs & Hc & Hf). unfold BlobIndex_decode.
  rewrite first_chunk_Some, slice_full by (by rewrite BlobIndex_encode_len).
  cbn [ok_or]. rewrite BlobIndex_encode_app.
  rewrite !app_nth2 by (rewrite !length_le_bytes; lia). rewrite !length_le_bytes.
  cbn [nth Nat.sub]. slices. le_vals. by destruct i.
Qed.
Lemma set_tombstone_wf i : BlobIndex_wf i -> BlobIndex_wf (set_tombstone i).
Proof.
  intros (Ho & Hs & Hc & Hf). unfold BlobIndex_wf, set_tombstone; simpl.
  split_and!; [done..|]. by apply lor_uint.
Qed.
Lemma set_tombstone_tombstoned i : is_tombstoned (set_tombstone i) = true.
Proof.
  unfold is_tombstoned, set_tombstone; simpl. unfold FLAG_TOMBSTONE.
  rewrite negb_true_iff, Z.eqb_neq. intros E.
  assert (Z.testbit (Z.land (Z.lor (bi_flags i) 1) 1) 0 = false) as Hb by (rewrite E; apply Z.bits_0).
  rewrite Z.land_spec, Z.lor_spec in Hb. by rewrite orb_true_r in Hb.
Qed.

(** An extent id: sixteen bytes. *)
Definition eid (e : ExtentId) : Prop := is_bytes e /\ length e = 16%nat.

(** The keys of the three keyspaces. *)
Inductive IKey : Set :=
| KExtent (e : ExtentId)
| KShard (prefix : Z)
| KBlob (e : ExtentId) (b : BlobId).
#[export] Instance IKey_eq_dec : EqDecision IKey.
Proof. solve_decision. Defined.
Definition key_valid (k : IKey) : Prop :=
  match k with
  | KExtent e => eid e
  | KShard p => is_u64 p
  | KBlob e b => eid e /\ is_u64 b
  end.
Definition key_bytes (k : IKey) : list Z :=
  match k with
  | KExtent e => 101 :: e
  | KShard p => 115 :: be_bytes 8 p
  | KBlob e b => 98 :: e ++ be_bytes 8 b
  end.

Lemma eid_len e : eid e -> len e = 16.
Proof. intros [_ H]. unfold len. by rewrite H. Qed.
Lemma ShardId_shard_prefix_u64 s : is_u64 s -> is_u64 (ShardId_shard_prefix s).
Proof.
  intros Hs. unfold ShardId_shard_prefix.
  change MAX_SHARD_EPOCH with (Z.ones 24). rewrite land_not_u64_ones by (done || lia).
  unfold uint in *. lia.
Qed.
Lemma extent_key_bytes e : eid e -> extent_key e = key_bytes (KExtent e).
Proof.
  intros He%eid_len. unfold extent_key, EXTENT_KEY_LEN. fill.
  rewrite zeros_0, app_nil_r; [done|]. rewrite He. done.
Qed.
Lemma shard_key_bytes s : shard_key s = key_bytes (KShard (ShardId_shard_prefix s)).
Proof. unfold shard_key, SHARD_KEY_LEN. fill. by rewrite zeros_0, app_nil_r by by lens. Qed.
Lemma blob_key_prefix_bytes e : eid e -> blob_key_prefix e = 98 :: e.
Proof.
  intros He%eid_len. unfold blob_key_prefix, BLOB_KEY_PREFIX_LEN. fill.
  rewrite zeros_0, app_nil_r; [done|]. rewrite He. done.
Qed.
Lemma blob_key_bytes e b : eid e -> blob_key e b = key_bytes (KBlob e b).
Proof.
  intros He%eid_len. unfold blob_key, BLOB_KEY_LEN, BLOB_KEY_PREFIX_LEN, BlobId_to_be_bytes. fill.
  rewrite zeros_0, app_nil_r; [done|]. rewrite He. by lens.
Qed.
Lemma key_bytes_inj k1 k2 :
  key_valid k1 -> key_valid k2 -> key_bytes k1 = key_bytes k2 -> k1 = k2.
Proof.
  destruct k1 as [e1|p1|e1 b1], k2 as [e2|p2|e2 b2]; cbn [key_valid key_bytes];
    intros H1 H2 E; try discriminate E; apply (f_equal tail) in E; cbn [tail] in E.
  - congruence.
  - f_equal. apply (be_bytes_inj 8); [apply H1|apply H2|done].
  - destruct H1 as [[_ L1] H1], H2 as [[_ L2] H2].
    apply app_inj_1 in E as [-> Hb]; [|congruence]. f_equal.
    apply (be_bytes_inj 8); [apply H1|apply H2|done].
Qed.
