(* ===== verification/IndexRefine.v ===== *)
(** The disk index refines an abstract index of three maps: extent metadata, shard
    bindings and blob entries. Merge operands still pending in the database are
    invisible: the abstract metadata is the base value with them applied. *)

From S2P Require Import Prelude Ids Record Rocks MetaMerge StoreIndex.

Record AbsIndex : Type := {
  ai_meta : gmap ExtentId ExtentMeta;
  ai_bind : gmap Z ExtentId;
  ai_blob : gmap (ExtentId * BlobId) BlobIndex
}.

(** ** Abstract operations *)

Definition abs_empty : AbsIndex := {| ai_meta := ∅; ai_bind := ∅; ai_blob := ∅ |}.
Definition abs_put_meta (e : ExtentId) (m : ExtentMeta) (a : AbsIndex) : AbsIndex :=
  {| ai_meta := <[e := m]> (ai_meta a); ai_bind := ai_bind a; ai_blob := ai_blob a |}.
Definition abs_merge (e : ExtentId) (op : MetaMergeOp) (a : AbsIndex) : AbsIndex :=
  {| ai_meta := alter (MetaMergeOp_apply op) e (ai_meta a); ai_bind := ai_bind a;
     ai_blob := ai_blob a |}.
Definition abs_bind (s : ShardId) (e : ExtentId) (a : AbsIndex) : AbsIndex :=
  {| ai_meta := ai_meta a; ai_bind := <[ShardId_shard_prefix s := e]> (ai_bind a);
     ai_blob := ai_blob a |}.
Definition abs_put_blob (e : ExtentId) (b : BlobId) (i : BlobIndex) (a : AbsIndex) : AbsIndex :=
  {| ai_meta := ai_meta a; ai_bind := ai_bind a; ai_blob := <[(e, b) := i]> (ai_blob a) |}.
Definition abs_put_blobs (e : ExtentId) (bs : list (BlobId * BlobIndex)) (a : AbsIndex) : AbsIndex :=
  foldl (fun a b => abs_put_blob e b.1 b.2 a) a bs.
Definition abs_remove (e : ExtentId) (a : AbsIndex) : AbsIndex :=
  {| ai_meta := delete e (ai_meta a); ai_bind := ai_bind a;
     ai_blob := filter (fun kv => kv.1.1 <> e) (ai_blob a) |}.

(** ** The representation relation *)

(** A pending operand: an update, or what a partial merge left of two or more. *)
Definition operand_ok (o : list Z) : Prop := (exists op, MetaMergeOp_wf op /\ o = MetaMergeOp_encode op) \/ 18 <= len o.
Lemma operand_decode o : operand_ok o -> match MetaMergeOp_decode o with Some op => MetaMergeOp_wf op | None => True end.
Proof.
  intros [(op & Hop & ->)|Hl]; [by rewrite MetaMergeOp_decode_encode|]. unfold MetaMergeOp_decode. destruct (Z.eqb_spec (len o) 9); [lia|done].
Qed.
Lemma merge_apply_wf base operands : ExtentMeta_wf base -> Forall operand_ok operands -> ExtentMeta_wf (merge_apply base operands).
Proof.
  intros Hb Ho. revert base Hb. induction Ho as [|o operands Ho _ IH]; intros base Hb; [done|]. cbn [merge_apply foldl]. apply IH.
  pose proof (operand_decode o Ho) as Hd. destruct (MetaMergeOp_decode o) as [op|]; [|done]. apply (apply_ops_wf [op] base); [by constructor|done].
Qed.
Lemma merge_apply_snoc base operands op : MetaMergeOp_wf op ->
  merge_apply base (operands ++ [MetaMergeOp_encode op]) = MetaMergeOp_apply op (merge_apply base operands).
Proof. intros Hop. unfold merge_apply. rewrite foldl_app. cbn [foldl]. by rewrite MetaMergeOp_decode_encode. Qed.
Lemma merge_apply_fixed base operands :
  em_shard_id (merge_apply base operands) = em_shard_id base /\ em_create_ts (merge_apply base operands) = em_create_ts base.
Proof.
  revert base. induction operands as [|o operands IH]; intros base; [done|]. cbn [merge_apply foldl]. destruct (IH (match MetaMergeOp_decode o with
    Some op => MetaMergeOp_apply op base | None => base end)) as [H1 H2]. unfold merge_apply in *. rewrite H1, H2. destruct (MetaMergeOp_decode o) as [op|]; [|done]. by destruct op.
Qed.
Lemma merged_operand run : Forall operand_ok run -> (2 <= length run)%nat -> operand_ok (mjoin run).
Proof.
  intros Hr Hl. right. assert (forall o, operand_ok o -> 9 <= len o) as H9 by (intros o [(op & _ & ->)|?]; [rewrite MetaMergeOp_encode_len|]; lia).
  destruct run as [|o1 [|o2 run]]; [cbn in Hl; lia..|]. apply Forall_cons in Hr as [H1 [H2 _]%Forall_cons]. cbn [mjoin list_join]. rewrite !len_app.
  pose proof (H9 o1 H1). pose proof (H9 o2 H2). unfold len in *. lia.
Qed.

Definition cell_rep (k : IKey) (oc : option cell) (a : AbsIndex) : Prop :=
  match k with
  | KExtent e =>
      match ai_meta a !! e with
      | None => oc = None
      | Some m => exists base operands,
          oc = Some (Some (ExtentMeta_encode base), operands)
          /\ ExtentMeta_wf base /\ Forall operand_ok operands /\ m = merge_apply base operands
      end
  | KShard p =>
      match ai_bind a !! p with
      | None => oc = None
      | Some e => oc = Some (Some e, []) /\ eid e
      end
  | KBlob e b =>
      match ai_blob a !! (e, b) with
      | None => oc = None
      | Some i => oc = Some (Some (BlobIndex_encode i), []) /\ BlobIndex_wf i
      end
  end.

Record cells_rep (c : gmap (list Z) cell) (a : AbsIndex) : Prop := {
  cr_keys k : is_Some (c !! k) -> exists ik, key_valid ik /\ k = key_bytes ik;
  cr_cell ik : key_valid ik -> cell_rep ik (c !! key_bytes ik) a
}.

Lemma cells_rep_empty : cells_rep ∅ abs_empty.
Proof.
  split.
  - intros k [x Hx]. by rewrite lookup_empty in Hx.
  - intros [e|p|e b] _; simpl; by rewrite !lookup_empty.
Qed.

(** One key changes, the rest of both sides agree. *)
Lemma cells_rep_update c a a' ik oc :
  cells_rep c a -> key_valid ik -> cell_rep ik oc a' ->
  (forall ik' oc', ik' <> ik -> cell_rep ik' oc' a -> cell_rep ik' oc' a') ->
  cells_rep (partial_alter (fun _ => oc) (key_bytes ik) c) a'.
Proof.
  intros [Hk Hc] Hv Hoc Hrest. split.
  - intros k Hs. destruct (decide (k = key_bytes ik)) as [->|Hne]; [by exists ik|].
    rewrite lookup_partial_alter_ne in Hs by done. by apply Hk.
  - intros ik' Hv'. destruct (decide (ik' = ik)) as [->|Hne].
    + by rewrite lookup_partial_alter_eq.
    + rewrite lookup_partial_alter_ne; [by apply Hrest, Hc|].
      intros E. by apply key_bytes_inj in E.
Qed.

Lemma cells_rep_put_meta c a e m :
  cells_rep c a -> eid e -> ExtentMeta_wf m ->
  cells_rep (apply_op c (BPut (extent_key e) (ExtentMeta_encode m))) (abs_put_meta e m a).
Proof.
  intros Hr He Hm. rewrite extent_key_bytes by done.
  apply (cells_rep_update c a _ (KExtent e) (Some (Some (ExtentMeta_encode m), []))); [done..| |].
  - simpl. rewrite lookup_insert_eq. by exists m, [].
  - intros [e'|p'|e' b'] oc' Hne; simpl; [|done..]. rewrite lookup_insert_ne; congruence.
Qed.

Lemma cells_rep_merge c a e op m :
  cells_rep c a -> eid e -> ai_meta a !! e = Some m -> MetaMergeOp_wf op ->
  cells_rep (apply_op c (BMerge (extent_key e) (MetaMergeOp_encode op))) (abs_merge e op a).
Proof.
  intros Hr He Hm Hop. rewrite extent_key_bytes by done.
  pose proof (cr_cell _ _ Hr (KExtent e) He) as Hc. cbn [cell_rep] in Hc.
  rewrite Hm in Hc. destruct Hc as (base & ops & Hc & Hb & Ho & ->). cbn [apply_op]. rewrite Hc.
  apply (cells_rep_update c a _ (KExtent e)
    (Some (Some (ExtentMeta_encode base), ops ++ [MetaMergeOp_encode op])));
    [done..| |].
  - simpl. rewrite lookup_alter_eq, Hm. exists base, (ops ++ [MetaMergeOp_encode op]).
    rewrite merge_apply_snoc by done. split_and!; [done..| |done].
    apply Forall_app. split; [done|]. constructor; [left; by exists op|constructor].
  - intros [e'|p'|e' b'] oc' Hne; simpl; [|done..]. rewrite lookup_alter_ne; congruence.
Qed.

Lemma cells_rep_bind c a s e :
  cells_rep c a -> is_u64 s -> eid e ->
  cells_rep (apply_op c (BPut (shard_key s) e)) (abs_bind s e a).
Proof.
  intros Hr Hs He. rewrite shard_key_bytes.
  apply (cells_rep_update c a _ (KShard (ShardId_shard_prefix s)) (Some (Some e, []))); [done|..].
  - by apply ShardId_shard_prefix_u64.
  - simpl. by rewrite lookup_insert_eq.
  - intros [e'|p'|e' b'] oc' Hne; simpl; [done| |done]. rewrite lookup_insert_ne; congruence.
Qed.

Lemma cells_rep_put_blob c a e b i :
  cells_rep c a -> eid e -> is_u64 b -> BlobIndex_wf i ->
  cells_rep (apply_op c (BPut (blob_key e b) (BlobIndex_encode i))) (abs_put_blob e b i a).
Proof.
  intros Hr He Hb Hi. rewrite blob_key_bytes by done.
  apply (cells_rep_update c a _ (KBlob e b) (Some (Some (BlobIndex_encode i), []))); [done..| |].
  - simpl. by rewrite lookup_insert_eq.
  - intros [e'|p'|e' b'] oc' Hne; simpl; [done..|]. rewrite lookup_insert_ne; congruence.
Qed.

(** A list of entries, each valid. *)
Definition blobs_wf (bs : list (BlobId * BlobIndex)) : Prop :=
  Forall (fun b => is_u64 b.1 /\ BlobIndex_wf b.2) bs.
Definition put_blob_ops (e : ExtentId) (bs : list (BlobId * BlobIndex)) : list BatchOp :=
  (fun b => BPut (blob_key e b.1) (BlobIndex_encode b.2)) <$> bs.

Lemma foldl_put_blob_ops e bs batch :
  foldl (fun batch (b : BlobId * BlobIndex) => batch ++ [BPut (blob_key e b.1) (BlobIndex_encode b.2)])
    batch bs = batch ++ put_blob_ops e bs.
Proof.
  revert batch. induction bs as [|b bs IH]; intros batch; simpl; [by rewrite app_nil_r|].
  by rewrite IH, <- app_assoc.
Qed.
Lemma cells_rep_put_blobs c a e bs :
  cells_rep c a -> eid e -> blobs_wf bs ->
  cells_rep (foldl apply_op c (put_blob_ops e bs)) (abs_put_blobs e bs a).
Proof.
  intros Hr He Hbs. revert c a Hr. induction Hbs as [|[b i] bs [Hb Hi] _ IH]; intros c a Hr; [done|].
  apply IH. by apply cells_rep_put_blob.
Qed.
Lemma abs_put_blobs_meta e bs a : ai_meta (abs_put_blobs e bs a) = ai_meta a.
Proof. revert a. induction bs as [|b bs IH]; intros a; [done|]. unfold abs_put_blobs in *. simpl.
  by rewrite IH. Qed.
Lemma abs_put_blobs_bind e bs a : ai_bind (abs_put_blobs e bs a) = ai_bind a.
Proof. revert a. induction bs as [|b bs IH]; intros a; [done|]. unfold abs_put_blobs in *. simpl.
  by rewrite IH. Qed.

(** ** Ordered iteration over a key prefix *)

(** Keys with a common prefix are contiguous in byte order. *)
Lemma starts_with_convex p k k' :
  lex_leb p k = true -> lex_ltb k k' = true -> starts_with k' p = true -> starts_with k p = true.
Proof.
  unfold starts_with, lex_leb. rewrite negb_true_iff, !bool_decide_eq_true.
  revert k k'. induction p as [|x p IH]; intros k k'; [done|].
  destruct k' as [|x' k']; [done|]. cbn [length take]. intros Hle Hlt [= -> Hp].
  destruct k as [|y k]; [done|]. cbn [lex_ltb] in *.
  apply orb_false_iff in Hle as [Hle1 Hle2]. apply Z.ltb_ge in Hle1.
  apply orb_true_iff in Hlt as [Hlt|Hlt]; [apply Z.ltb_lt in Hlt; lia|].
  apply andb_true_iff in Hlt as [Hy%Z.eqb_eq Hlt]. subst y.
  rewrite Z.eqb_refl in Hle2. cbn [andb] in Hle2. cbn [length take]. f_equal.
  eapply IH; [done..|]. congruence.
Qed.
Lemma starts_with_app p q : starts_with (p ++ q) p = true.
Proof. unfold starts_with. apply bool_decide_eq_true. apply take_app_length. Qed.

Section Refine.
Context {RDB : RocksDb merge_meta}.

Definition rep (d : rdb) (a : AbsIndex) : Prop := cells_rep (rdb_cells d) a.

Lemma rep_empty : rep rdb_empty abs_empty.
Proof. unfold rep. rewrite rdb_empty_cells. apply cells_rep_empty. Qed.

(** *** Reads *)

Lemma rep_get_meta d a e : rep d a -> eid e ->
  rdb_get d (extent_key e) = ExtentMeta_encode <$> ai_meta a !! e
  /\ (forall m, ai_meta a !! e = Some m -> ExtentMeta_wf m).
Proof.
  intros Hr He. pose proof (cr_cell _ _ Hr (KExtent e) He) as Hc. cbn [cell_rep] in Hc.
  rewrite rdb_get_cells, extent_key_bytes by done.
  destruct (ai_meta a !! e) as [m|]; [|by rewrite Hc].
  destruct Hc as (base & ops & -> & Hb & Ho & ->). split.
  - destruct ops as [|op ops]; [done|]. cbn [mbind option_bind cell_value merge_meta]. by rewrite ExtentMeta_decode_encode.
  - intros m [= <-]. by apply merge_apply_wf.
Qed.
Lemma get_extent_meta_rep d a e : rep d a -> eid e ->
  get_extent_meta d e = Ok (ai_meta a !! e).
Proof.
  intros Hr He. destruct (rep_get_meta d a e Hr He) as [Hg Hw]. unfold get_extent_meta.
  rewrite Hg. destruct (ai_meta a !! e) as [m|]; [|done]. simpl.
  by rewrite ExtentMeta_decode_encode by by apply Hw.
Qed.
Lemma get_shard_binding_rep d a s : rep d a -> is_u64 s ->
  get_shard_binding d s = Ok (ai_bind a !! ShardId_shard_prefix s).
Proof.
  intros Hr Hs. unfold get_shard_binding. rewrite rdb_get_cells, shard_key_bytes.
  pose proof (cr_cell _ _ Hr (KShard (ShardId_shard_prefix s))) as Hc.
  specialize (Hc (ShardId_shard_prefix_u64 s Hs)). cbn [cell_rep] in Hc.
  destruct (ai_bind a !! _) as [e|]; [|by rewrite Hc].
  destruct Hc as [-> He]. simpl. by rewrite (eid_len e He).
Qed.
Lemma get_blob_rep d a e b : rep d a -> eid e -> is_u64 b ->
  get_blob d e b = Ok (ai_blob a !! (e, b)).
Proof.
  intros Hr He Hb. unfold get_blob. rewrite rdb_get_cells, blob_key_bytes by done.
  pose proof (cr_cell _ _ Hr (KBlob e b) (conj He Hb)) as Hc. cbn [cell_rep] in Hc.
  destruct (ai_blob a !! _) as [i|]; [|by rewrite Hc].
  destruct Hc as [-> Hi]. cbn [mbind option_bind cell_value]. by rewrite BlobIndex_decode_encode.
Qed.

(** A readable key under an extent's blob prefix is one of its blob keys. *)
Lemma rep_blob_item d a e k v :
  rep d a -> eid e -> rdb_get d k = Some v -> starts_with k (blob_key_prefix e) = true ->
  exists b i, is_u64 b /\ k = key_bytes (KBlob e b) /\ v = BlobIndex_encode i
    /\ BlobIndex_wf i /\ ai_blob a !! (e, b) = Some i.
Proof.
  intros Hr He Hg Hs. rewrite rdb_get_cells in Hg.
  destruct (rdb_cells d !! k) as [x|] eqn:Ek; [|done].
  destruct (cr_keys _ _ Hr k) as (ik & Hv & ->); [by rewrite Ek|].
  rewrite blob_key_prefix_bytes in Hs by done.
  unfold starts_with in Hs. apply bool_decide_eq_true in Hs.
  destruct ik as [e'|p'|e' b']; [done|done|]. cbn [key_bytes length take] in Hs.
  destruct Hv as [He' Hb']. injection Hs as Hs. rewrite take_app_length' in Hs
    by (destruct He, He'; congruence). subst e'.
  pose proof (cr_cell _ _ Hr (KBlob e b') (conj He Hb')) as Hc. cbn [cell_rep] in Hc.
  rewrite Ek in Hc. destruct (ai_blob a !! (e, b')) as [i|] eqn:Ei; [|done].
  destruct Hc as [[= ->] Hi]. injection Hg as <-. by exists b', i.
Qed.
Lemma rep_blob_readable d a e b i : rep d a -> eid e -> is_u64 b -> ai_blob a !! (e, b) = Some i ->
  rdb_get d (key_bytes (KBlob e b)) = Some (BlobIndex_encode i) /\ BlobIndex_wf i.
Proof.
  intros Hr He Hb Hi. rewrite rdb_get_cells.
  pose proof (cr_cell _ _ Hr (KBlob e b) (conj He Hb)) as Hc. cbn [cell_rep] in Hc.
  rewrite Hi in Hc. by destruct Hc as [-> ?].
Qed.

(** *** Listing *)

Definition key_lt (x y : list Z) : Prop := lex_ltb x y = true.

Lemma key_lt_blob e b b' : is_u64 b -> is_u64 b' ->
  key_lt (key_bytes (KBlob e b)) (key_bytes (KBlob e b')) <-> b < b'.
Proof.
  intros Hb Hb'. unfold key_lt. cbn [key_bytes lex_ltb].
  rewrite Z.ltb_irrefl, Z.eqb_refl. cbn [orb andb]. rewrite lex_ltb_app.
  rewrite be_bytes_ltb by (apply Hb || apply Hb'). apply Z.ltb_lt.
Qed.
Lemma be_val_blob_key e b : eid e -> is_u64 b ->
  be_val (slice BLOB_KEY_PREFIX_LEN 8 (key_bytes (KBlob e b))) = b
  /\ (len (key_bytes (KBlob e b)) <? BLOB_KEY_LEN) = false.
Proof.
  intros He%eid_len Hb. cbn [key_bytes]. unfold BLOB_KEY_PREFIX_LEN, BLOB_KEY_LEN.
  change (98 :: e ++ be_bytes 8 b) with ([98] ++ e ++ be_bytes 8 b). split.
  - rewrite (slice_app_r _ _ [98]) by (by lens). change (len [98]) with 1.
    rewrite (slice_app_r _ _ e) by lia. rewrite He. change (1 + 16 - 1 - 16) with 0.
    rewrite slice_full by by lens. by rewrite (be_val_uint 8 64 b).
  - apply Z.ltb_ge. by lens.
Qed.

(** Once a key is past the prefix, so are all later ones. *)
Lemma past_prefix p k (items : list (list Z * list Z)) :
  Forall (fun kv => lex_leb p kv.1 = true) items -> lex_leb p k = true ->
  Forall (key_lt k) items.*1 -> starts_with k p = false ->
  forall k' v', (k', v') ∈ items -> starts_with k' p = false.
Proof.
  intros _ Hp Hlt Hk k' v' Hin. destruct (starts_with k' p) eqn:E; [|done].
  assert (key_lt k k') as Hkk.
  { rewrite Forall_forall in Hlt. apply Hlt, list_elem_of_fmap. by exists (k', v'). }
  by rewrite (starts_with_convex p k k' Hp Hkk E) in Hk.
Qed.

Lemma list_blobs_loop_rep d a e items out :
  rep d a -> eid e ->
  Forall (fun kv => rdb_get d kv.1 = Some kv.2 /\ lex_leb (blob_key_prefix e) kv.1 = true) items ->
  StronglySorted key_lt items.*1 ->
  exists l, list_blobs_loop (blob_key_prefix e) items out = Ok (out ++ l)
    /\ StronglySorted Z.lt l.*1
    /\ (forall b i, (b, i) ∈ l <-> is_u64 b /\ ai_blob a !! (e, b) = Some i
          /\ key_bytes (KBlob e b) ∈ items.*1).
Proof.
  intros Hr He. revert out. induction items as [|[k v] items IH]; intros out Hit Hs.
  { exists []. rewrite app_nil_r. split_and!; [done|constructor|].
    intros b i. split; [by intros ?%not_elem_of_nil|].
    by intros (_ & _ & ?%not_elem_of_nil). }
  apply Forall_cons in Hit as [[Hg Hp] Hit]. apply StronglySorted_inv in Hs as [Hs Hlt].
  cbn [list_blobs_loop fst snd] in *. destruct (starts_with k (blob_key_prefix e)) eqn:Esw.
  2:{ exists []. cbn [negb]. rewrite app_nil_r. split_and!; [done|constructor|].
      intros b i. split; [by intros ?%not_elem_of_nil|]. intros (Hb & Hi & Hin).
      assert (starts_with (key_bytes (KBlob e b)) (blob_key_prefix e) = true) as Hsw.
      { rewrite blob_key_prefix_bytes by done. apply (starts_with_app (98 :: e)). }
      apply list_elem_of_fmap in Hin as ([k' v'] & Hk' & Hin). cbn [fst] in Hk'. subst k'.
      apply elem_of_cons in Hin as [E|Hin].
      { apply (f_equal fst) in E. cbn [fst] in E. rewrite E in Hsw. congruence. }
      rewrite (past_prefix _ k items) with (v' := v') in Hsw; [done| |done..].
      eapply Forall_impl; [exact Hit|]. by intros [] []. }
  destruct (rep_blob_item d a e k v) as (b & i & Hb & -> & -> & Hwf & Hi); [done..|].
  destruct (be_val_blob_key e b He Hb) as [Hbv Hbl]. cbn [negb].
  rewrite Hbl, Hbv, BlobIndex_decode_encode by done.
  destruct (IH (out ++ [(b, i)]) Hit Hs) as (l & Hl & Hsl & Hel).
  exists ((b, i) :: l). rewrite Hl, <- app_assoc. split_and!; [done| |].
  - cbn [fmap list_fmap]. constructor; [done|]. rewrite Forall_forall. intros b' Hb'.
    apply list_elem_of_fmap in Hb' as ([b'' i'] & -> & Hin). apply Hel in Hin as (Hu & _ & Hin).
    apply (key_lt_blob e); [done..|]. by apply (proj1 (Forall_forall _ _) Hlt).
  - intros b' i'. cbn [fmap list_fmap]. rewrite !elem_of_cons, Hel. split.
    + intros [[= -> ->]|(? & ? & ?)]; [by eauto|by eauto].
    + intros (Hb' & Hi' & [E|Hin]); [|by eauto].
      cbn [fst] in E. apply key_bytes_inj in E as [= ->]; [|done..]. left. congruence.
Qed.

Lemma list_blobs_rep d a e : rep d a -> eid e ->
  exists l, list_blobs d e = Ok l /\ StronglySorted Z.lt l.*1
    /\ (forall b i, (b, i) ∈ l <-> is_u64 b /\ ai_blob a !! (e, b) = Some i).
Proof.
  intros Hr He. unfold list_blobs.
  destruct (list_blobs_loop_rep d a e (rdb_iter d (blob_key_prefix e)) []) as (l & Hl & Hs & Hel).
  - done.
  - done.
  - rewrite Forall_forall. intros [k v] Hin. by apply rdb_iter_elem in Hin.
  - apply rdb_iter_sorted.
  - exists l. split_and!; [done..|]. intros b i. rewrite Hel. split; [tauto|].
    intros [Hb Hi]. split_and!; [done..|]. apply list_elem_of_fmap.
    exists (key_bytes (KBlob e b), BlobIndex_encode i). split; [done|].
    apply rdb_iter_elem. split; [by eapply rep_blob_readable|].
    rewrite blob_key_prefix_bytes by done. cbn [key_bytes].
    apply (lex_leb_app (98 :: e) (be_bytes 8 b)).
Qed.

(** *** Writes *)

Lemma put_extent_meta_rep d a e m : rep d a -> eid e -> ExtentMeta_wf m ->
  rep (put_extent_meta d e m) (abs_put_meta e m a).
Proof. intros. unfold rep, put_extent_meta. rewrite rdb_write_cells. by apply cells_rep_put_meta. Qed.
Lemma set_shard_binding_rep d a s e : rep d a -> is_u64 s -> eid e ->
  rep (set_shard_binding d s e) (abs_bind s e a).
Proof. intros. unfold rep, set_shard_binding. rewrite rdb_write_cells. by apply cells_rep_bind. Qed.

Lemma commit_blobs_rep d a e bs size m :
  rep d a -> eid e -> blobs_wf bs -> is_u64 size -> ai_meta a !! e = Some m ->
  rep (commit_blobs d e bs size) (abs_merge e (SetSize size) (abs_put_blobs e bs a)).
Proof.
  intros Hr He Hbs Hs Hm. unfold rep, commit_blobs, write_synced.
  rewrite rdb_write_cells, foldl_put_blob_ops, app_nil_l, foldl_app.
  eapply cells_rep_merge; [by apply cells_rep_put_blobs|done| |done].
  by rewrite abs_put_blobs_meta.
Qed.
Lemma install_extent_rep d a e m bs :
  rep d a -> eid e -> ExtentMeta_wf m -> blobs_wf bs ->
  rep (install_extent d e m bs)
    (abs_put_blobs e bs (abs_bind (em_shard_id m) e (abs_put_meta e m a))).
Proof.
  intros Hr He Hm Hbs. unfold rep, install_extent, write_synced.
  rewrite rdb_write_cells, foldl_put_blob_ops, <- app_assoc. cbn [app foldl].
  apply cells_rep_put_blobs; [|done..].
  apply cells_rep_bind; [by apply cells_rep_put_meta|apply Hm|done].
Qed.

Definition abs_tombstone (e : ExtentId) (b : BlobId) (i : BlobIndex) (a : AbsIndex) : AbsIndex :=
  abs_merge e (AddDeletedBytes (record_on_disk_len (bi_size i)))
    (abs_put_blob e b (set_tombstone i) a).

Lemma record_on_disk_len_u64 n : is_u32 n -> is_u64 (record_on_disk_len n) /\ 0 < record_on_disk_len n.
Proof.
  intros Hn. pose proof (record_on_disk_len_spec n (proj1 Hn)).
  unfold uint, RECORD_HEADER_LEN, RECORD_FOOTER_LEN, RECORD_ALIGN in *. lia.
Qed.

Lemma tombstone_blob_rep d a e b m :
  rep d a -> eid e -> is_u64 b -> ai_meta a !! e = Some m ->
  match ai_blob a !! (e, b) with
  | Some i =>
      if is_tombstoned i then tombstone_blob d e b = Ok (d, false)
      else exists d', tombstone_blob d e b = Ok (d', true) /\ rep d' (abs_tombstone e b i a)
  | None => tombstone_blob d e b = Ok (d, false)
  end.
Proof.
  intros Hr He Hb Hm. unfold tombstone_blob. rewrite (get_blob_rep d a) by done.
  destruct (ai_blob a !! (e, b)) as [i|] eqn:Ei; [|done].
  destruct (is_tombstoned i); [done|]. eexists. split; [done|].
  destruct (rep_blob_readable d a e b i) as [_ Hi]; [done..|].
  unfold rep, write_synced. rewrite rdb_write_cells. cbn [foldl].
  eapply cells_rep_merge; [|done|done|].
  - apply cells_rep_put_blob; [done..|by apply set_tombstone_wf].
  - apply record_on_disk_len_u64. apply Hi.
Qed.

Lemma set_extent_status_rep d a e st :
  rep d a -> eid e ->
  match ai_meta a !! e with
  | Some _ => exists d', set_extent_status d e st = Ok d' /\ rep d' (abs_merge e (SetStatus st) a)
  | None => set_extent_status d e st
            = Err (ICorrupt "extent_meta" 0 "missing metadata for status transition")
  end.
Proof.
  intros Hr He. unfold set_extent_status. rewrite (get_extent_meta_rep d a) by done.
  destruct (ai_meta a !! e) as [m|] eqn:Em; [|done]. eexists. split; [done|].
  unfold rep, write_synced. rewrite rdb_write_cells. by eapply cells_rep_merge.
Qed.
Lemma seal_extent_rep d a e :
  rep d a -> eid e ->
  match ai_meta a !! e with
  | Some _ => exists d', seal_extent d e = Ok d' /\ rep d' (abs_merge e (SetStatus ES_Sealed) a)
  | None => seal_extent d e = Err (ICorrupt "extent_meta" 0 "missing metadata for seal")
  end.
Proof.
  intros Hr He. unfold seal_extent. rewrite (get_extent_meta_rep d a) by done.
  destruct (ai_meta a !! e) as [m|] eqn:Em; [|done]. eexists. split; [done|].
  unfold rep, write_synced. rewrite rdb_write_cells. by eapply cells_rep_merge.
Qed.

(** *** Removal *)

Lemma foldl_delete (ks : list (list Z)) c k :
  foldl apply_op c (BDelete <$> ks) !! k = if decide (k ∈ ks) then None else c !! k.
Proof.
  revert c. induction ks as [|k' ks IH]; intros c.
  { cbn [fmap list_fmap foldl]. by rewrite decide_False by apply not_elem_of_nil. }
  cbn [fmap list_fmap foldl]. fold (BDelete <$> ks). rewrite IH. cbn [apply_op].
  destruct (decide (k ∈ ks)) as [Hin|Hin].
  - by rewrite decide_True by (by right).
  - destruct (decide (k = k')) as [->|Hne].
    + rewrite lookup_delete_eq, decide_True; [done|by left].
    + rewrite lookup_delete_ne by done. rewrite decide_False; [done|].
      rewrite elem_of_cons. tauto.
Qed.
Lemma remove_loop_keys p (items : list (list Z * list Z)) batch :
  Forall (fun kv => lex_leb p kv.1 = true) items -> StronglySorted key_lt items.*1 ->
  exists ks, remove_loop p items batch = batch ++ (BDelete <$> ks)
    /\ (forall k, k ∈ ks <-> k ∈ items.*1 /\ starts_with k p = true).
Proof.
  revert batch. induction items as [|[k v] items IH]; intros batch Hp Hs.
  { exists []. rewrite app_nil_r. split; [done|]. intros k. simpl.
    split; [by intros ?%not_elem_of_nil|by intros [?%not_elem_of_nil _]]. }
  apply Forall_cons in Hp as [Hk Hp]. apply StronglySorted_inv in Hs as [Hs Hlt].
  cbn [remove_loop fst] in *. destruct (starts_with k p) eqn:Esw; cbn [negb].
  - destruct (IH (batch ++ [BDelete k]) Hp Hs) as (ks & E & Hks). exists (k :: ks).
    rewrite E, <- app_assoc. split; [done|]. intros k'. cbn [fmap list_fmap].
    rewrite !elem_of_cons, Hks. cbn [fst]. split; [|tauto].
    intros [->|[? ?]]; [by eauto|by eauto].
  - exists []. rewrite app_nil_r. split; [done|]. intros k'. split; [by intros ?%not_elem_of_nil|].
    intros [Hin Hsw]. apply list_elem_of_fmap in Hin as ([k'' v'] & -> & Hin). cbn [fst] in *.
    apply elem_of_cons in Hin as [[= -> ->]|Hin]; [congruence|].
    by rewrite (past_prefix p k items Hp Hk Hlt Esw k'' v') in Hsw.
Qed.

(** Whether a key belongs to an extent's metadata or blobs. *)
Definition key_of (e : ExtentId) (ik : IKey) : Prop :=
  match ik with KExtent e' | KBlob e' _ => e' = e | KShard _ => False end.
#[local] Instance key_of_dec e ik : Decision (key_of e ik).
Proof. destruct ik; simpl; apply _. Defined.

Lemma abs_remove_blob e a e' b :
  ai_blob (abs_remove e a) !! (e', b) = if decide (e' = e) then None else ai_blob a !! (e', b).
Proof.
  unfold abs_remove; cbn [ai_blob]. rewrite map_lookup_filter.
  destruct (ai_blob a !! (e', b)) as [i|]; simpl; [|by destruct (decide _)].
  destruct (decide (e' = e)) as [->|Hne].
  - by rewrite option_guard_False by (intros H; by apply H).
  - by rewrite option_guard_True by done.
Qed.
Lemma cell_rep_remove e a ik oc :
  (key_of e ik -> cell_rep ik None (abs_remove e a))
  /\ (~ key_of e ik -> cell_rep ik oc a -> cell_rep ik oc (abs_remove e a)).
Proof.
  destruct ik as [e'|p|e' b]; cbn [key_of cell_rep]; split; try done.
  - intros ->. by unfold abs_remove; cbn [ai_meta]; rewrite lookup_delete_eq.
  - intros Hne. unfold abs_remove; cbn [ai_meta]. by rewrite lookup_delete_ne by done.
  - intros ->. by rewrite abs_remove_blob, decide_True.
  - intros Hne. by rewrite abs_remove_blob, decide_False.
Qed.

(** The deleted keys are those of the extent. *)
Lemma removed_keys d a e ks ik :
  rep d a -> eid e -> key_valid ik -> is_Some (rdb_cells d !! key_bytes ik) ->
  (forall k, k ∈ ks <-> k ∈ (rdb_iter d (blob_key_prefix e)).*1
                        /\ starts_with k (blob_key_prefix e) = true) ->
  key_bytes ik ∈ extent_key e :: ks <-> key_of e ik.
Proof.
  intros Hr He Hv [x Hx] Hks. rewrite elem_of_cons, Hks, extent_key_bytes by done. split.
  - intros [E|[_ Hsw]]; [by apply key_bytes_inj in E as ->|].
    unfold starts_with in Hsw. rewrite blob_key_prefix_bytes in Hsw by done.
    apply bool_decide_eq_true in Hsw. destruct ik as [e'|p'|e' b']; [done|done|].
    destruct Hv as [He' _]. cbn [key_bytes length take] in Hsw. injection Hsw as Hsw.
    rewrite take_app_length' in Hsw; [done|]. destruct He, He'. congruence.
  - destruct ik as [e'|p'|e' b']; [intros ->; by left|done|intros ->]. right.
    pose proof (cr_cell _ _ Hr (KBlob e b') Hv) as Hc. cbn [cell_rep] in Hc. rewrite Hx in Hc.
    destruct (ai_blob a !! (e, b')) as [i|] eqn:Ei; [|done].
    rewrite blob_key_prefix_bytes by done. split; [|apply (starts_with_app (98 :: e))].
    apply list_elem_of_fmap. exists (key_bytes (KBlob e b'), BlobIndex_encode i).
    split; [done|]. apply rdb_iter_elem.
    split; [by apply (rep_blob_readable d a); destruct Hv|apply (lex_leb_app (98 :: e))].
Qed.

Lemma remove_extent_rep d a e : rep d a -> eid e -> rep (remove_extent d e) (abs_remove e a).
Proof.
  intros Hr He. unfold rep, remove_extent, write_synced. rewrite rdb_write_cells.
  destruct (remove_loop_keys (blob_key_prefix e) (rdb_iter d (blob_key_prefix e))
    [BDelete (extent_key e)]) as (ks & -> & Hks).
  { rewrite Forall_forall. intros [k v] Hin. by apply rdb_iter_elem in Hin as [_ ?]. }
  { apply rdb_iter_sorted. }
  change ([BDelete (extent_key e)] ++ (BDelete <$> ks)) with (BDelete <$> extent_key e :: ks).
  split.
  - intros k. rewrite foldl_delete. destruct (decide _); [by intros []|]. apply (cr_keys _ _ Hr).
  - intros ik Hv. rewrite foldl_delete. pose proof (cr_cell _ _ Hr ik Hv) as Hc.
    destruct (rdb_cells d !! key_bytes ik) as [x|] eqn:Ex.
    + destruct (removed_keys d a e ks ik) as [H1 H2]; [done..| |done|]; [by rewrite Ex|].
      destruct (decide _) as [Hd|Hd].
      * by apply (proj1 (cell_rep_remove e a ik None)), H1.
      * apply (proj2 (cell_rep_remove e a ik (Some x))); [by intros ?%H2|done].
    + replace (if decide _ then None else None) with (@None cell) by (by destruct (decide _)).
      destruct (decide (key_of e ik)).
      * by apply (proj1 (cell_rep_remove e a ik None)).
      * by apply (proj2 (cell_rep_remove e a ik None)).
Qed.

(** *** The compaction commit point *)

(** The carried blobs the destination holds live, as they are tombstoned there. *)
Definition to_carry (a : AbsIndex) (e : ExtentId) (carried : list BlobId)
    : list (BlobId * BlobIndex) :=
  omap (fun b => match ai_blob a !! (e, b) with
                 | Some i => if is_tombstoned i then None else Some (b, set_tombstone i)
                 | None => None end) carried.
Definition carry_bytes (bs : list (BlobId * BlobIndex)) : Z :=
  foldr (fun b n => record_on_disk_len (bi_size b.2) + n) 0 bs.
Definition abs_swap (s : ShardId) (new old : ExtentId) (carried : list BlobId) (a : AbsIndex)
    : AbsIndex :=
  let bs := to_carry a new carried in
  let a := abs_put_blobs new bs (abs_merge old (SetStatus ES_Dropped) (abs_bind s new a)) in
  if 0 <? carry_bytes bs then abs_merge new (AddDeletedBytes (carry_bytes bs)) a else a.

Lemma to_carry_wf d a e carried : rep d a -> eid e -> Forall is_u64 carried ->
  blobs_wf (to_carry a e carried).
Proof.
  intros Hr He Hc. unfold blobs_wf. rewrite Forall_forall. intros [b i] Hin.
  unfold to_carry in Hin. apply list_elem_of_omap in Hin as (b' & Hb' & Hi).
  assert (is_u64 b') as Hu by (by apply (proj1 (Forall_forall _ _) Hc)).
  destruct (ai_blob a !! (e, b')) as [i'|] eqn:E; [|done].
  destruct (is_tombstoned i'); [done|]. injection Hi as <- <-. split; [done|].
  apply set_tombstone_wf. by eapply (rep_blob_readable d a e b').
Qed.
Lemma carry_loop_rep d a e carried batch n : rep d a -> eid e -> Forall is_u64 carried ->
  carry_loop d e carried batch n
  = Ok (batch ++ put_blob_ops e (to_carry a e carried), n + carry_bytes (to_carry a e carried)).
Proof.
  intros Hr He Hc. revert batch n. induction Hc as [|b carried Hb _ IH]; intros batch n.
  { cbn. by rewrite app_nil_r, Z.add_0_r. }
  cbn [carry_loop]. rewrite (get_blob_rep d a) by done. unfold to_carry. cbn [omap list_omap].
  destruct (ai_blob a !! (e, b)) as [i|]; [|by rewrite IH].
  destruct (is_tombstoned i); [by rewrite IH|]. rewrite IH, <- app_assoc.
  unfold put_blob_ops. cbn [fmap list_fmap carry_bytes foldr fst snd].
  f_equal. f_equal. fold (to_carry a e carried). unfold carry_bytes. lia.
Qed.
Lemma carry_bytes_nonneg bs : blobs_wf bs -> 0 <= carry_bytes bs.
Proof.
  intros H. induction H as [|[b i] bs [_ (_ & Hs & _)] _ IH]; [done|].
  cbn [carry_bytes foldr snd] in *. pose proof (record_on_disk_len_u64 (bi_size i) Hs).
  unfold carry_bytes in IH. lia.
Qed.

Lemma swap_shard_binding_with_rep d a s new old carried mo mn :
  rep d a -> is_u64 s -> eid new -> eid old -> Forall is_u64 carried ->
  ai_meta a !! old = Some mo -> ai_meta a !! new = Some mn ->
  is_u64 (carry_bytes (to_carry a new carried)) ->
  exists d', swap_shard_binding_with d s new old carried = Ok d'
    /\ rep d' (abs_swap s new old carried a).
Proof.
  intros Hr Hs Hn Ho Hc Hmo Hmn Hb. unfold swap_shard_binding_with.
  rewrite (carry_loop_rep d a) by done. eexists. split; [done|]. rewrite Z.add_0_l.
  pose proof (to_carry_wf d a new carried Hr Hn Hc) as Hwf.
  assert (cells_rep (foldl apply_op (rdb_cells d)
    ([BPut (shard_key s) new; BMerge (extent_key old) (MetaMergeOp_encode (SetStatus ES_Dropped))]
       ++ put_blob_ops new (to_carry a new carried)))
    (abs_put_blobs new (to_carry a new carried)
       (abs_merge old (SetStatus ES_Dropped) (abs_bind s new a)))) as Hcells.
  { rewrite foldl_app. apply cells_rep_put_blobs; [|done..]. cbn [foldl].
    eapply cells_rep_merge; [by apply cells_rep_bind|done|done|done]. }
  unfold rep, write_synced, abs_swap. rewrite rdb_write_cells.
  destruct (0 <? carry_bytes _) eqn:E; [|done]. rewrite foldl_app.
  assert (is_Some (ai_meta (abs_merge old (SetStatus ES_Dropped) (abs_bind s new a)) !! new))
    as [m Hm].
  { cbn [abs_merge abs_bind ai_meta]. rewrite lookup_alter_is_Some. by eexists. }
  eapply cells_rep_merge; [done|done| |done]. by rewrite abs_put_blobs_meta.
Qed.

(** *** Runs of index operations *)

Inductive IndexOp : Type :=
| OpPutMeta (e : ExtentId) (m : ExtentMeta)
| OpBind (s : ShardId) (e : ExtentId)
| OpCommit (e : ExtentId) (bs : list (BlobId * BlobIndex)) (size : Z)
| OpInstall (e : ExtentId) (m : ExtentMeta) (bs : list (BlobId * BlobIndex))
| OpTombstone (e : ExtentId) (b : BlobId)
| OpStatus (e : ExtentId) (st : ExtentStatus)
| OpSeal (e : ExtentId)
| OpSwap (s : ShardId) (new old : ExtentId) (carried : list BlobId)
| OpRemove (e : ExtentId).

Definition exec_op (d : rdb) (op : IndexOp) : result IndexError rdb :=
  match op with
  | OpPutMeta e m => Ok (put_extent_meta d e m)
  | OpBind s e => Ok (set_shard_binding d s e)
  | OpCommit e bs size => Ok (commit_blobs d e bs size)
  | OpInstall e m bs => Ok (install_extent d e m bs)
  | OpTombstone e b => r <-? tombstone_blob d e b ;; Ok r.1
  | OpStatus e st => set_extent_status d e st
  | OpSeal e => seal_extent d e
  | OpSwap s new old carried => swap_shard_binding_with d s new old carried
  | OpRemove e => Ok (remove_extent d e)
  end.

Definition abs_op (a : AbsIndex) (op : IndexOp) : AbsIndex :=
  match op with
  | OpPutMeta e m => abs_put_meta e m a
  | OpBind s e => abs_bind s e a
  | OpCommit e bs size => abs_merge e (SetSize size) (abs_put_blobs e bs a)
  | OpInstall e m bs => abs_put_blobs e bs (abs_bind (em_shard_id m) e (abs_put_meta e m a))
  | OpTombstone e b =>
      match ai_blob a !! (e, b) with
      | Some i => if is_tombstoned i then a else abs_tombstone e b i a
      | None => a
      end
  | OpStatus e st => abs_merge e (SetStatus st) a
  | OpSeal e => abs_merge e (SetStatus ES_Sealed) a
  | OpSwap s new old carried => abs_swap s new old carried a
  | OpRemove e => abs_remove e a
  end.

(** What the callers establish: values of their machine types, and metadata
    present before it is merged into. *)
Definition op_pre (a : AbsIndex) (op : IndexOp) : Prop :=
  match op with
  | OpPutMeta e m => eid e /\ ExtentMeta_wf m
  | OpBind s e => is_u64 s /\ eid e
  | OpCommit e bs size => eid e /\ blobs_wf bs /\ is_u64 size /\ is_Some (ai_meta a !! e)
  | OpInstall e m bs => eid e /\ ExtentMeta_wf m /\ blobs_wf bs
  | OpTombstone e b => eid e /\ is_u64 b /\ is_Some (ai_meta a !! e)
  | OpStatus e _ | OpSeal e => eid e /\ is_Some (ai_meta a !! e)
  | OpSwap s new old carried =>
      is_u64 s /\ eid new /\ eid old /\ Forall is_u64 carried /\ is_Some (ai_meta a !! old)
      /\ is_Some (ai_meta a !! new) /\ is_u64 (carry_bytes (to_carry a new carried))
  | OpRemove e => eid e
  end.

Lemma exec_op_rep d a op : rep d a -> op_pre a op ->
  exists d', exec_op d op = Ok d' /\ rep d' (abs_op a op).
Proof.
  intros Hr Hp. destruct op as [e m|s e|e bs z|e m bs|e b|e st|e|s new old carried|e];
    cbn [exec_op abs_op op_pre] in *.
  - destruct Hp. eexists. split; [done|]. by apply put_extent_meta_rep.
  - destruct Hp. eexists. split; [done|]. by apply set_shard_binding_rep.
  - destruct Hp as (? & ? & ? & [m ?]). eexists. split; [done|]. by eapply commit_blobs_rep.
  - destruct Hp as (? & ? & ?). eexists. split; [done|]. by apply install_extent_rep.
  - destruct Hp as (He & Hb & [m Hm]). pose proof (tombstone_blob_rep d a e b m Hr He Hb Hm) as H.
    destruct (ai_blob a !! (e, b)) as [i|]; [|rewrite H; by eexists].
    destruct (is_tombstoned i); [rewrite H; by eexists|].
    destruct H as (d' & -> & Hd'). by eexists.
  - destruct Hp as (He & [m Hm]). pose proof (set_extent_status_rep d a e st Hr He) as H.
    by rewrite Hm in H.
  - destruct Hp as (He & [m Hm]). pose proof (seal_extent_rep d a e Hr He) as H.
    by rewrite Hm in H.
  - destruct Hp as (? & ? & ? & ? & [mo ?] & [mn ?] & ?). by eapply swap_shard_binding_with_rep.
  - eexists. split; [done|]. by apply remove_extent_rep.
Qed.

(** *** Background rewrites *)

(** RocksDB replaces a run of pending operands of key [k] by their partial merge. *)
Definition background (k : list Z) (d d' : rdb) : Prop :=
  exists c c', rdb_cells d !! k = Some c /\ cell_partial_merge merge_meta k c c' /\ rdb_cells d' = <[k := c']> (rdb_cells d).
(** It can only hit the metadata of an extent, and leaves some metadata with the same
    shard and creation time there. *)
Lemma background_rep k d d' a : rep d a -> background k d d' -> exists e m m', eid e /\ k = extent_key e /\ ai_meta a !! e = Some m
  /\ em_shard_id m' = em_shard_id m /\ em_create_ts m' = em_create_ts m /\ rep d' (abs_put_meta e m' a).
Proof.
  intros Hr (c & c' & Hk & Hpm & Hd). destruct (cr_keys _ _ Hr k) as (ik & Hv & ->); [by exists c|]. pose proof (cr_cell _ _ Hr ik Hv) as Hc. rewrite Hk in Hc.
  destruct Hpm as [b pre run post v Hl Hm]. destruct ik as [e|p|e b']; cbn [cell_rep] in Hc.
  - destruct (ai_meta a !! e) as [m|] eqn:Em; [|done]. destruct Hc as (base & operands & [= -> <-] & Hb & Ho & ->). apply Forall_app in Ho as [H1 Ho].
    apply Forall_app in Ho as [H2 H3]. injection Hm as <-. set (ops' := pre ++ [mjoin run] ++ post).
    exists e, (merge_apply base (pre ++ run ++ post)), (merge_apply base ops'). rewrite extent_key_bytes by done. split_and!; try done.
    + by rewrite !(proj1 (merge_apply_fixed _ _)).
    + by rewrite !(proj2 (merge_apply_fixed _ _)).
    + unfold rep. rewrite Hd. apply (cells_rep_update (rdb_cells d) a _ (KExtent e) (Some (Some (ExtentMeta_encode base), ops'))); [done..| |].
      * cbn [cell_rep abs_put_meta ai_meta]. rewrite lookup_insert_eq. exists base, ops'. split_and!; [done..| |done].
        unfold ops'. apply Forall_app. split; [done|]. constructor; [by apply merged_operand|done].
      * intros [e'|p'|e' b'] oc' Hne; cbn [cell_rep abs_put_meta ai_meta ai_bind ai_blob]; [|done..]. rewrite lookup_insert_ne; congruence.
  - exfalso. destruct (ai_bind a !! p); [destruct Hc as [[= _ E] _]|done]. destruct pre, run; cbn in *; try lia; done.
  - exfalso. destruct (ai_blob a !! (e, b')); [destruct Hc as [[= _ E] _]|done]. destruct pre, run; cbn in *; try lia; done.
Qed.

(** The maps agree, but for the metadata of the extents whose keys are in [T], of which
    only the presence does. *)
Definition agree_but (T : gset (list Z)) (a1 a : AbsIndex) : Prop :=
  ai_bind a1 = ai_bind a /\ ai_blob a1 = ai_blob a /\ (forall e, is_Some (ai_meta a1 !! e) <-> is_Some (ai_meta a !! e))
  /\ forall e, eid e -> extent_key e ∉ T -> ai_meta a1 !! e = ai_meta a !! e.
Lemma agree_merge T a1 a e op : agree_but T a1 a -> agree_but T (abs_merge e op a1) (abs_merge e op a).
Proof.
  intros (H1 & H2 & H3 & H4). split_and!; [done..| |]; intros e'; cbn [abs_merge ai_meta].
  - by rewrite !lookup_alter_is_Some.
  - intros He' Hn. destruct (decide (e = e')) as [->|]; [by rewrite !lookup_alter_eq, H4|by rewrite !lookup_alter_ne, H4].
Qed.
Lemma agree_bind T a1 a s e : agree_but T a1 a -> agree_but T (abs_bind s e a1) (abs_bind s e a).
Proof. intros (H1 & H2 & H3 & H4). split_and!; [cbn; by rewrite H1|done..]. Qed.
Lemma agree_put_blob T a1 a e b i : agree_but T a1 a -> agree_but T (abs_put_blob e b i a1) (abs_put_blob e b i a).
Proof. intros (H1 & H2 & H3 & H4). split_and!; [done|cbn; by rewrite H2|done..]. Qed.
Lemma agree_put_blobs T e bs : forall a1 a, agree_but T a1 a -> agree_but T (abs_put_blobs e bs a1) (abs_put_blobs e bs a).
Proof. induction bs as [|b bs IH]; intros a1 a Ha; [done|]. by apply IH, agree_put_blob. Qed.
Lemma extent_key_inj e e' : eid e -> eid e' -> extent_key e = extent_key e' -> e = e'.
Proof. intros He He'. rewrite !extent_key_bytes by done. intros E. by apply key_bytes_inj in E as [= ->]. Qed.
(** A write of the whole record clears the key. *)
Lemma agree_put_meta T a1 a e m : eid e -> agree_but T a1 a -> agree_but (T ∖ {[extent_key e]}) (abs_put_meta e m a1) (abs_put_meta e m a).
Proof.
  intros He (H1 & H2 & H3 & H4). split_and!; [done..| |]; intros e'; cbn [abs_put_meta ai_meta].
  - destruct (decide (e = e')) as [->|]; [by rewrite !lookup_insert_eq|by rewrite !lookup_insert_ne].
  - intros He' Hn. destruct (decide (e = e')) as [->|Hne]; [by rewrite !lookup_insert_eq|]. rewrite !lookup_insert_ne by done. apply H4; [done|].
    intros Hin. apply Hn, elem_of_difference. split; [done|]. intros E%elem_of_singleton. by destruct Hne; apply extent_key_inj.
Qed.
Lemma agree_remove T a1 a e : eid e -> agree_but T a1 a -> agree_but (T ∖ {[extent_key e]}) (abs_remove e a1) (abs_remove e a).
Proof.
  intros He (H1 & H2 & H3 & H4). split_and!; [done|cbn; by rewrite H2| |]; intros e'; cbn [abs_remove ai_meta].
  - destruct (decide (e = e')) as [->|]; [by rewrite !lookup_delete_eq|by rewrite !lookup_delete_ne].
  - intros He' Hn. destruct (decide (e = e')) as [->|Hne]; [by rewrite !lookup_delete_eq|]. rewrite !lookup_delete_ne by done. apply H4; [done|].
    intros Hin. apply Hn, elem_of_difference. split; [done|]. intros E%elem_of_singleton. by destruct Hne; apply extent_key_inj.
Qed.
Definition cleared (op : IndexOp) (T : gset (list Z)) : gset (list Z) :=
  match op with OpPutMeta e _ | OpInstall e _ _ | OpRemove e => T ∖ {[extent_key e]} | _ => T end.
Lemma agree_op T a1 a op : agree_but T a1 a -> op_pre a op -> op_pre a1 op /\ agree_but (cleared op T) (abs_op a1 op) (abs_op a op).
Proof.
  intros Ha Hp. pose proof Ha as (_ & H2 & H3 & _). destruct op as [e m|s e|e bs z|e m bs|e b|e st|e|s new old carried|e]; cbn [op_pre abs_op cleared] in *; rewrite ?H3.
  - split; [done|]. apply agree_put_meta; [apply Hp|done].
  - split; [done|]. by apply agree_bind.
  - split; [done|]. by apply agree_merge, agree_put_blobs.
  - split; [done|]. apply agree_put_blobs, agree_bind, agree_put_meta; [apply Hp|done].
  - split; [done|]. rewrite H2. destruct (ai_blob a !! (e, b)) as [i|]; [|done]. destruct (is_tombstoned i); [done|]. by apply agree_merge, agree_put_blob.
  - split; [done|]. by apply agree_merge.
  - split; [done|]. by apply agree_merge.
  - assert (to_carry a1 new carried = to_carry a new carried) as E by (unfold to_carry; by rewrite H2). rewrite E. split; [done|]. unfold abs_swap. rewrite E.
    assert (agree_but T (abs_put_blobs new (to_carry a new carried) (abs_merge old (SetStatus ES_Dropped) (abs_bind s new a1)))
              (abs_put_blobs new (to_carry a new carried) (abs_merge old (SetStatus ES_Dropped) (abs_bind s new a)))) as Hs by by apply agree_put_blobs, agree_merge, agree_bind.
    destruct (0 <? _); [by apply agree_merge|done].
  - split; [done|]. by apply agree_remove.
Qed.

(** A run of operations with background rewrites in between; [T] are the keys rewritten
    since their record was last written whole. *)
Inductive index_run : rdb -> AbsIndex -> gset (list Z) -> Prop :=
| index_run_empty : index_run rdb_empty abs_empty ∅
| index_run_op d a T op d' :
    index_run d a T -> op_pre a op -> exec_op d op = Ok d' -> index_run d' (abs_op a op) (cleared op T)
| index_run_background d a T k d' : index_run d a T -> background k d d' -> index_run d' a ({[k]} ∪ T).

Lemma index_run_rep d a T : index_run d a T -> exists a1, rep d a1 /\ agree_but T a1 a.
Proof.
  induction 1 as [|d a T op d' _ (a1 & Hr & Ha) Hp He|d a T k d' _ (a1 & Hr & Ha) Hb]; [by exists abs_empty; split; [apply rep_empty|]|..].
  - destruct (agree_op T a1 a op Ha Hp) as [Hp1 Ha']. destruct (exec_op_rep d a1 op Hr Hp1) as (d'' & E & Hr'). exists (abs_op a1 op). split; [congruence|done].
  - destruct (background_rep k d d' a1 Hr Hb) as (e & m & m' & He & -> & Hm & _ & _ & Hr'). exists (abs_put_meta e m' a1). split; [done|].
    destruct Ha as (H1 & H2 & H3 & H4). split_and!; [done..| |]; intros e'; cbn [abs_put_meta ai_meta].
    + destruct (decide (e = e')) as [<-|]; [|by rewrite lookup_insert_ne]. rewrite lookup_insert_eq, <- H3, Hm. split; by eexists.
    + intros He' Hn. apply not_elem_of_union in Hn as [Hn Hn']. rewrite lookup_insert_ne; [by apply H4|]. intros <-. by apply Hn, elem_of_singleton.
Qed.

(** C17: the disk index implements three maps. After any run of index operations from
    an empty database, whose callers respect their preconditions, and in which RocksDB
    may at any point replace pending operands by the partial merge the database was
    opened with: every further operation succeeds; the shard's binding (found by any
    epoch of the shard slot), blob entries and the listing of an extent's blobs, complete
    and in strictly ascending order, are those of the abstract maps the run computed; an
    extent has metadata exactly when its map says so, and the metadata read is the map's,
    with all field merges applied, unless a partial merge hit the extent's record since it
    was last written whole (such a merge loses updates, [partial_merge_loses_updates]).
    Merges on unknown extents are refused with the error. *)
Theorem index_refines : forall d a T, index_run d a T ->
  (forall op, op_pre a op -> exists d', exec_op d op = Ok d' /\ index_run d' (abs_op a op) (cleared op T))
  /\ (forall e, eid e -> exists m, get_extent_meta d e = Ok m /\ (is_Some m <-> is_Some (ai_meta a !! e))
        /\ (extent_key e ∉ T -> m = ai_meta a !! e))
  /\ (forall s, is_u64 s -> get_shard_binding d s = Ok (ai_bind a !! ShardId_shard_prefix s))
  /\ (forall e b, eid e -> is_u64 b -> get_blob d e b = Ok (ai_blob a !! (e, b)))
  /\ (forall e, eid e -> exists l, list_blobs d e = Ok l /\ StronglySorted Z.lt l.*1
        /\ (forall b i, (b, i) ∈ l <-> is_u64 b /\ ai_blob a !! (e, b) = Some i))
  /\ (forall e, eid e -> ai_meta a !! e = None ->
        seal_extent d e = Err (ICorrupt "extent_meta" 0 "missing metadata for seal")).
Proof.
  intros d a T Hrun. destruct (index_run_rep d a T Hrun) as (a1 & Hr & Ha). pose proof Ha as (H1 & H2 & H3 & H4). split_and!.
  - intros op Hp. destruct (agree_op T a1 a op Ha Hp) as [Hp1 _]. destruct (exec_op_rep d a1 op Hr Hp1) as (d' & E & _).
    exists d'. split; [done|]. by eapply index_run_op.
  - intros e He. exists (ai_meta a1 !! e). split; [by apply get_extent_meta_rep|]. split; [apply H3|by apply H4].
  - intros s Hs. rewrite <- H1. by apply get_shard_binding_rep.
  - intros e b He Hb. rewrite <- H2. by apply get_blob_rep.
  - intros e He. rewrite <- H2. by apply list_blobs_rep.
  - intros e He Hn. pose proof (seal_extent_rep d a1 e Hr He) as H. destruct (ai_meta a1 !! e) eqn:E; [|done].
    destruct (proj1 (H3 e)) as [? ?]; [by eexists|congruence].
Qed.
End Refine.

(** A concrete run on the cells of the database. *)
Definition ex_extent : ExtentId := be_bytes 8 4294967297 ++ be_bytes 8 99.
Definition ex_meta : ExtentMeta :=
  {| em_shard_id := 4294967297; em_status := ES_Writable; em_size := 4096;
     em_deleted_bytes := 0; em_create_ts := 99 |}.

(** An extent is installed and grows twice; then its two size updates are partially
    merged. The blob reads as before; the metadata is there, without the updates. *)
Definition ex_grown : @rdb _ (cells_rocks merge_meta) :=
  Eval cbv delta [ex_extent ex_meta] in commit_blobs (commit_blobs (install_extent rdb_empty ex_extent ex_meta [(5, BlobIndex_new 4096 10 77)]) ex_extent [] 8192) ex_extent [] 12288.
Definition ex_merged : @rdb _ (cells_rocks merge_meta) :=
  <[extent_key ex_extent := (Some (ExtentMeta_encode ex_meta), [MetaMergeOp_encode (SetSize 8192) ++ MetaMergeOp_encode (SetSize 12288)])]> (rdb_cells ex_grown).
Lemma index_refines_witness :
  get_blob ex_merged ex_extent 5 = Ok (Some (BlobIndex_new 4096 10 77))
  /\ (exists m, get_extent_meta ex_merged ex_extent = Ok (Some m)) /\ get_extent_meta ex_merged ex_extent = Ok (Some ex_meta)
  /\ (em_size <$> match get_extent_meta ex_grown ex_extent with Ok m => m | Err _ => None end) = Some 12288.
Proof.
  assert (eid ex_extent) as He.
  { split; [|done]. apply Forall_app. split; apply be_bytes_bytes. }
  destruct (index_refines (RDB := cells_rocks merge_meta) rdb_empty abs_empty ∅ index_run_empty) as [Hstep _].
  destruct (Hstep (OpInstall ex_extent ex_meta [(5, BlobIndex_new 4096 10 77)])) as (d & E & Hrun).
  { split_and!; [done|done|]. repeat constructor; done. }
  destruct (index_refines d _ _ Hrun) as [Hstep1 _].
  destruct (Hstep1 (OpCommit ex_extent [] 8192)) as (d1 & E1 & Hrun1).
  { split_and!; [done|constructor|done|by eexists]. }
  destruct (index_refines d1 _ _ Hrun1) as [Hstep2 _].
  destruct (Hstep2 (OpCommit ex_extent [] 12288)) as (d2 & E2 & Hrun2).
  { split_and!; [done|constructor|done|by eexists]. }
  assert (d2 = ex_grown) as -> by (injection E as <-; injection E1 as <-; injection E2 as <-; reflexivity).
  assert (background (extent_key ex_extent) ex_grown ex_merged) as Hb.
  { exists (Some (ExtentMeta_encode ex_meta), MetaMergeOp_encode <$> [SetSize 8192; SetSize 12288]). eexists. split; [vm_compute; reflexivity|].
    split; [|reflexivity]. exact (cell_partial_merge_run merge_meta _ _ [] (MetaMergeOp_encode <$> [SetSize 8192; SetSize 12288]) [] _ ltac:(apply Nat.leb_le; vm_compute; reflexivity) eq_refl). }
  destruct (index_refines ex_merged _ _ (index_run_background _ _ _ _ _ Hrun2 Hb)) as (_ & Hm & _ & Hg & _). split; [|split; [|split]].
  - rewrite Hg by done. vm_compute. reflexivity.
  - destruct (Hm ex_extent He) as (m & -> & Hs & _). destruct (proj2 Hs) as [m' ->]; [vm_compute; by eexists|by exists m'].
  - vm_compute. reflexivity.
  - vm_compute. reflexivity.
Defined.
