(* ===== verification/StoreOps.v ===== *)
(** The storage engine's operations on one disk (crates/epoch-store/src):
    error.rs, write.rs, read.rs, writer.rs (group commit), compact.rs, scrub.rs and
    the blocking parts of service.rs (extent creation, promotion, sealing,
    deletion, crash recovery). State is passed explicitly: an operation returns
    the state it leaves, also when it fails. *)

From S2P Require Import Prelude Ids Crc Record ExtentFile Rocks MetaMerge StoreIndex.

(** ** Errors (error.rs) *)

Inductive StoreError : Set :=
| SIndex (e : IndexError)
| SExtent (e : ExtentError)
| SDiskIo (k : IoKind)
| SExtentNotFound (e : ExtentId)
| SShardUnbound (s : ShardId)
| SSealed
| SFull
| SNotWritable (s : ExtentStatus)
| SBodyTooLarge (n : Z)
| SBlobMismatch (requested found : BlobId).

Definition is_out_of_space (k : IoKind) : bool :=
  match k with
  | IoStorageFull => true
  | IoOther (Some 28) | IoOther (Some 69) | IoOther (Some 122) => true
  | _ => false
  end.

Definition classify (e : StoreError) : EpochError :=
  match e with
  | SSealed => EE_Sealed
  | SFull => EE_ChunkFull
  | SNotWritable status =>
      match status with
      | ES_Rebuilding => EE_Rebuilding
      | ES_Dropped => EE_ShardNotFound
      | ES_Writable | ES_Full | ES_Sealed => EE_Sealed
      end
  | SExtentNotFound _ => EE_ShardNotFound
  | SShardUnbound _ => EE_ShardNotFound
  | SDiskIo k => if is_out_of_space k then EE_OutOfSpace else EE_DiskBroken
  | SExtent (XIo k) => if is_out_of_space k then EE_OutOfSpace else EE_DiskBroken
  | SExtent _ | SIndex _ | SBodyTooLarge _ | SBlobMismatch _ _ => EE_Internal
  end.
(** [to_epoch] is [classify] plus a log line. *)
Definition to_epoch (e : StoreError) : EpochError := classify e.

(** ** The write gate (write.rs) *)

Inductive WriteOutcome : Set := Written | AlreadyExists.

Definition writable_gate (status : ExtentStatus) : result StoreError unit :=
  match status with
  | ES_Writable | ES_Rebuilding => Ok tt
  | ES_Sealed => Err SSealed
  | ES_Full => Err SFull
  | ES_Dropped => Err (SNotWritable ES_Dropped)
  end.

Section Ops.
Context `{Crc32c} {RDB : RocksDb merge_meta}.

(** [index.get_extent_meta(id)?.ok_or(ExtentNotFound(id))?] *)
Definition require_meta (index : rdb) (extent_id : ExtentId) : result StoreError ExtentMeta :=
  m <-? map_err SIndex (get_extent_meta index extent_id) ;;
  ok_or m (SExtentNotFound extent_id).

Definition write_blob (index : rdb) (extent : ExtentFile) (blob_id : BlobId) (body : list Z)
    : result StoreError (rdb * ExtentFile * WriteOutcome) :=
  let extent_id := xf_extent_id extent in
  meta <-? require_meta index extent_id ;;
  _g <-? writable_gate (em_status meta) ;;
  found <-? map_err SIndex (get_blob index extent_id blob_id) ;;
  match found with
  | Some _ => Ok (index, extent, AlreadyExists)
  | None =>
      if U32_MAX <? len body then Err (SBodyTooLarge (len body))
      else
        let size := len body in
        r <-? map_err SExtent (append_record extent blob_id (ExtentId_shard_id extent_id) body) ;;
        let '(extent, (offset, crc)) := r in
        let index := commit_blob index extent_id blob_id (BlobIndex_new offset size crc)
                       (xf_write_offset extent) in
        Ok (index, extent, Written)
  end.

(** ** Reads (read.rs) *)

Definition read_blob (index : rdb) (extent : ExtentFile) (blob_id : BlobId)
    : result StoreError (option (list Z)) :=
  entry <-? map_err SIndex (get_blob index (xf_extent_id extent) blob_id) ;;
  match entry with
  | None => Ok None
  | Some entry =>
      r <-? map_err SExtent (read_record extent (bi_offset entry)) ;;
      let (header, body) := r in
      if negb (rh_blob_id header =? blob_id)
      then Err (SBlobMismatch blob_id (rh_blob_id header))
      else Ok (Some body)
  end.

(** ** Group commit (writer.rs) *)

Abbreviation Reply := (result EpochError WriteOutcome) (only parsing).

Definition load_writable_meta (index : rdb) (extent_id : ExtentId) : result StoreError unit :=
  meta <-? require_meta index extent_id ;; writable_gate (em_status meta).

(** The outcome of the fsync is the device's: [sync] is its error, if any. *)
Definition commit_group (sync : option IoKind) (extent : ExtentFile) (index : rdb)
    (extent_id : ExtentId) (appended : list (BlobId * BlobIndex)) : result EpochError rdb :=
  match sync with
  | Some k => Err (to_epoch (SExtent (XIo k)))
  | None => Ok (commit_blobs index extent_id appended (xf_write_offset extent))
  end.

(** The loop over a batch. A request is answered at once ([Some]) or with the
    outcome of the group commit ([None]). *)
Fixpoint batch_loop (index : rdb) (extent : ExtentFile) (batch : list (BlobId * list Z))
    (appended : list (BlobId * BlobIndex)) (seen : gset BlobId) (fatal : option EpochError)
    (replies : list (option Reply))
    : ExtentFile * list (BlobId * BlobIndex) * list (option Reply) :=
  match batch with
  | [] => (extent, appended, replies)
  | (blob_id, body) :: batch =>
      let extent_id := xf_extent_id extent in
      match fatal with
      | Some err =>
          batch_loop index extent batch appended seen fatal (replies ++ [Some (Err err)])
      | None =>
          match get_blob index extent_id blob_id with
          | Ok (Some _) =>
              batch_loop index extent batch appended seen fatal
                (replies ++ [Some (Ok AlreadyExists)])
          | Err err =>
              batch_loop index extent batch appended seen fatal
                (replies ++ [Some (Err (to_epoch (SIndex err)))])
          | Ok None =>
              if decide (blob_id ∈ seen)
              then batch_loop index extent batch appended seen fatal
                     (replies ++ [Some (Ok AlreadyExists)])
              else
                let seen := {[blob_id]} ∪ seen in
                if U32_MAX <? len body
                then batch_loop index extent batch appended seen fatal
                       (replies ++ [Some (Err (to_epoch (SBodyTooLarge (len body))))])
                else
                  let size := len body in
                  match append_record extent blob_id (ExtentId_shard_id extent_id) body with
                  | Ok (extent, (offset, crc)) =>
                      batch_loop index extent batch
                        (appended ++ [(blob_id, BlobIndex_new offset size crc)])
                        seen fatal (replies ++ [None])
                  | Err err =>
                      let epoch := to_epoch (SExtent err) in
                      batch_loop index extent batch appended seen (Some epoch)
                        (replies ++ [Some (Err epoch)])
                  end
          end
      end
  end.

Definition process_batch (sync : option IoKind) (extent : ExtentFile) (index : rdb)
    (batch : list (BlobId * list Z)) : rdb * ExtentFile * list Reply :=
  let extent_id := xf_extent_id extent in
  match load_writable_meta index extent_id with
  | Err err => (index, extent, (fun _ => Err (to_epoch err)) <$> batch)
  | Ok _ =>
      let '(extent, appended, replies) := batch_loop index extent batch [] ∅ None [] in
      match appended with
      | [] => (index, extent, default (Err EE_Internal) <$> replies)
      | _ =>
          match commit_group sync extent index extent_id appended with
          | Ok index => (index, extent, default (Ok Written) <$> replies)
          | Err epoch => (index, extent, default (Err epoch) <$> replies)
          end
      end
  end.

(** ** Disk state and effects

    Files are named by the lowercase hex of the extent id (an injective name), so
    the two directories are maps from extent ids to bytes. An open [ExtentFile]
    carries the bytes of its file; [save] writes them through to the directory. *)

Record Disk : Type := {
  dk_extents : gmap ExtentId (list Z);
  dk_trash : gmap ExtentId (list Z);
  dk_extent_size : Z
}.
Record Engine : Type := {
  eg_disk : Disk;
  eg_index : rdb;
  eg_open : gmap ExtentId ExtentFile
}.

Definition set_disk (d : Disk) (g : Engine) : Engine :=
  {| eg_disk := d; eg_index := eg_index g; eg_open := eg_open g |}.
Definition set_index (i : rdb) (g : Engine) : Engine :=
  {| eg_disk := eg_disk g; eg_index := i; eg_open := eg_open g |}.
Definition set_open (o : gmap ExtentId ExtentFile) (g : Engine) : Engine :=
  {| eg_disk := eg_disk g; eg_index := eg_index g; eg_open := o |}.
Definition save (x : ExtentFile) (d : Disk) : Disk :=
  {| dk_extents := <[xf_extent_id x := xf_file x]> (dk_extents d); dk_trash := dk_trash d;
     dk_extent_size := dk_extent_size d |}.

Definition move_extent_to_trash (d : Disk) (extent_id : ExtentId) : result IoKind Disk :=
  match dk_extents d !! extent_id with
  | None => Err IoNotFound
  | Some f => Ok {| dk_extents := delete extent_id (dk_extents d);
                    dk_trash := <[extent_id := f]> (dk_trash d);
                    dk_extent_size := dk_extent_size d |}
  end.

(** The state-and-error monad of the maintenance operations. *)
Definition M (A : Type) : Type := Engine -> Engine * result StoreError A.
Definition ret {A} (a : A) : M A := fun g => (g, Ok a).
Definition fail {A} (e : StoreError) : M A := fun g => (g, Err e).
Definition bind {A B} (m : M A) (k : A -> M B) : M B :=
  fun g => match m g with (g, Ok a) => k a g | (g, Err e) => (g, Err e) end.
Definition modify (f : Engine -> Engine) : M unit := fun g => (f g, Ok tt).
Definition gets {A} (f : Engine -> A) : M A := fun g => (g, Ok (f g)).
Definition lift {A} (r : result StoreError A) : M A := fun g => (g, r).
Notation "x <~ m ;; k" := (bind m (fun x => k))
  (at level 100, m at next level, k at level 200, right associativity).

(** ** Compaction (compact.rs) *)

Definition DEFAULT_COMPACT_RATIO_PERCENT : Z := 30.
Record CompactOutcome : Type := {
  co_new_extent : ExtentId; co_live_blobs : Z; co_reclaimed_bytes : Z
}.

Definition should_compact (meta : ExtentMeta) (ratio_percent : Z) : bool :=
  (0 <? em_deleted_bytes meta)
  && (saturating_mul 64 (em_size meta) ratio_percent
      <=? saturating_mul 64 (em_deleted_bytes meta) 100).

Definition reclaim_extent (extent_id : ExtentId) : M unit :=
  _u <~ modify (fun g => set_open (delete extent_id (eg_open g)) g) ;;
  d <~ gets eg_disk ;;
  _u <~ match move_extent_to_trash d extent_id with
        | Ok d => modify (set_disk d)
        | Err IoNotFound => ret tt
        | Err k => fail (SDiskIo k)
        end ;;
  modify (fun g => set_index (remove_extent (eg_index g) extent_id) g).

(** Step 3: copy the live blobs through the write path. *)
Fixpoint copy_live (extent_id : ExtentId) (live : list (BlobId * BlobIndex)) (dest : ExtentFile)
    : M ExtentFile :=
  match live with
  | [] => ret dest
  | (blob_id, src_idx) :: live =>
      open <~ gets eg_open ;;
      src <~ lift (ok_or (open !! extent_id) (SExtentNotFound extent_id)) ;;
      rec <~ lift (map_err SExtent (read_record src (bi_offset src_idx))) ;;
      index <~ gets eg_index ;;
      w <~ lift (write_blob index dest blob_id rec.2) ;;
      let '(index, dest, _) := w in
      _u <~ modify (fun g => set_disk (save dest (eg_disk g)) (set_index index g)) ;;
      copy_live extent_id live dest
  end.

Definition live_of (l : list (BlobId * BlobIndex)) : list (BlobId * BlobIndex) :=
  filter (fun bi => is_tombstoned bi.2 = false) l.
Definition tombstoned_of (l : list (BlobId * BlobIndex)) : list BlobId :=
  (filter (fun bi => is_tombstoned bi.2 = true) l).*1.

(** Steps 1 to 3: pause the source, create the destination unbound, copy. *)
Definition compact_copy (extent_id : ExtentId) (new_create_ts : Z)
    : M (ExtentMeta * list (BlobId * BlobIndex) * ExtentFile) :=
  index <~ gets eg_index ;;
  src_meta <~ lift (require_meta index extent_id) ;;
  _u <~ match em_status src_meta with
        | ES_Writable | ES_Full => ret tt
        | other => fail (SNotWritable other)
        end ;;
  let shard := ExtentId_shard_id extent_id in
  listed <~ lift (map_err SIndex (list_blobs index extent_id)) ;;
  let live := live_of listed in
  index <~ lift (map_err SIndex (set_extent_status index extent_id ES_Full)) ;;
  _u <~ modify (set_index index) ;;
  let new_id := ExtentId_new shard new_create_ts in
  disk <~ gets eg_disk ;;
  dest <~ lift (map_err SExtent (ExtentFile_create (dk_extents disk !! new_id) new_id)) ;;
  _u <~ modify (fun g => set_disk (save dest (eg_disk g)) g) ;;
  _u <~ lift (map_err SExtent (preallocate dest (dk_extent_size disk))) ;;
  _u <~ modify (fun g => set_index (put_extent_meta (eg_index g) new_id
          {| em_shard_id := shard; em_status := ES_Writable; em_size := xf_write_offset dest;
             em_deleted_bytes := 0; em_create_ts := new_create_ts |}) g) ;;
  dest <~ copy_live extent_id live dest ;;
  ret (src_meta, live, dest).

(** Steps 4 and 5: carry the tombstones, rebind, retire the source. *)
Definition compact_commit (extent_id : ExtentId) (src_meta : ExtentMeta)
    (live : list (BlobId * BlobIndex)) (dest : ExtentFile) : M CompactOutcome :=
  let shard := ExtentId_shard_id extent_id in
  let new_id := xf_extent_id dest in
  let new_size := xf_write_offset dest in
  index <~ gets eg_index ;;
  listed <~ lift (map_err SIndex (list_blobs index extent_id)) ;;
  let carried := tombstoned_of listed in
  index <~ lift (map_err SIndex (swap_shard_binding_with index shard new_id extent_id carried)) ;;
  _u <~ modify (set_index index) ;;
  _u <~ modify (fun g => set_open (<[new_id := dest]> (eg_open g)) g) ;;
  _u <~ reclaim_extent extent_id ;;
  ret {| co_new_extent := new_id; co_live_blobs := len live;
         co_reclaimed_bytes := saturating_sub (em_size src_meta) new_size |}.

Definition compact_extent (extent_id : ExtentId) (new_create_ts : Z) : M CompactOutcome :=
  c <~ compact_copy extent_id new_create_ts ;;
  let '(src_meta, live, dest) := c in
  compact_commit extent_id src_meta live dest.

(** ** Scrub (scrub.rs) *)

Record ScrubReport : Type := { sc_extent : ExtentId; sc_scanned : Z; sc_corrupt : list BlobId }.

Fixpoint scrub_loop (extent : ExtentFile) (l : list (BlobId * BlobIndex)) (scanned : Z)
    (corrupt : list BlobId) : result StoreError (Z * list BlobId) :=
  match l with
  | [] => Ok (scanned, corrupt)
  | (blob_id, idx) :: l =>
      if is_tombstoned idx then scrub_loop extent l scanned corrupt
      else
        match read_record extent (bi_offset idx) with
        | Ok _ => scrub_loop extent l (scanned + 1) corrupt
        | Err (XBodyChecksum _) | Err (XRecord _ _) =>
            scrub_loop extent l (scanned + 1) (corrupt ++ [blob_id])
        | Err other => Err (SExtent other)
        end
  end.
Definition scrub_extent (index : rdb) (extent : ExtentFile) : result StoreError ScrubReport :=
  let extent_id := xf_extent_id extent in
  l <-? map_err SIndex (list_blobs index extent_id) ;;
  r <-? scrub_loop extent l 0 [] ;;
  Ok {| sc_extent := extent_id; sc_scanned := r.1; sc_corrupt := r.2 |}.

Fixpoint reclaim_all (ids : list ExtentId) : M unit :=
  match ids with
  | [] => ret tt
  | id :: ids => _u <~ reclaim_extent id ;; reclaim_all ids
  end.
Definition reclaim_dropped : M (list ExtentId) :=
  index <~ gets eg_index ;;
  l <~ lift (map_err SIndex (list_extents index)) ;;
  let dropped := (filter (fun em => em_status em.2 = ES_Dropped) l).*1 in
  _u <~ reclaim_all dropped ;;
  ret dropped.

Fixpoint orphans_of (index : rdb) (l : list (ExtentId * ExtentMeta)) (orphans : list ExtentId)
    : result StoreError (list ExtentId) :=
  match l with
  | [] => Ok orphans
  | (id, meta) :: l =>
      if decide (em_status meta = ES_Dropped) then orphans_of index l orphans
      else
        b <-? map_err SIndex (get_shard_binding index (em_shard_id meta)) ;;
        orphans_of index l (if decide (b = Some id) then orphans else orphans ++ [id])
  end.
Definition reclaim_orphans : M (list ExtentId) :=
  index <~ gets eg_index ;;
  l <~ lift (map_err SIndex (list_extents index)) ;;
  orphans <~ lift (orphans_of index l []) ;;
  _u <~ reclaim_all orphans ;;
  ret orphans.

(** ** Engine operations (service.rs, the blocking parts) *)

(** A read-only handle on the file of an extent (io_pool.rs): a missing file is an
    extent that was not found. *)
Definition open_read (extent_id : ExtentId) (file : option (list Z)) : result StoreError ExtentFile :=
  match ExtentFile_open file with
  | Ok extent => Ok extent
  | Err (XIo IoNotFound) => Err (SExtentNotFound extent_id)
  | Err err => Err (SExtent err)
  end.
Definition read_shard_blocking (g : Engine) (shard : ShardId) (blob_id : BlobId)
    : result StoreError (option (list Z)) :=
  b <-? map_err SIndex (get_shard_binding (eg_index g) shard) ;;
  match b with
  | None => Ok None
  | Some extent_id =>
      extent <-? open_read extent_id (dk_extents (eg_disk g) !! extent_id) ;;
      read_blob (eg_index g) extent blob_id
  end.

Definition create_extent_with_status (shard : ShardId) (create_ts : Z) (status : ExtentStatus)
    : M ExtentId :=
  let extent_id := ExtentId_new shard create_ts in
  let finish := fun extent : ExtentFile =>
    _u <~ modify (fun g => set_disk (save extent (eg_disk g)) g) ;;
    disk <~ gets eg_disk ;;
    _u <~ lift (map_err SExtent (preallocate extent (dk_extent_size disk))) ;;
    let meta := {| em_shard_id := shard; em_status := status; em_size := xf_write_offset extent;
                   em_deleted_bytes := 0; em_create_ts := create_ts |} in
    _u <~ modify (fun g => set_index (install_extent (eg_index g) extent_id meta []) g) ;;
    _u <~ modify (fun g => set_open (<[extent_id := extent]> (eg_open g)) g) ;;
    ret extent_id in
  disk <~ gets eg_disk ;;
  match ExtentFile_create (dk_extents disk !! extent_id) extent_id with
  | Ok extent => finish extent
  | Err (XIo IoAlreadyExists) =>
      index <~ gets eg_index ;;
      m <~ lift (map_err SIndex (get_extent_meta index extent_id)) ;;
      match m with
      | Some _ => ret extent_id
      | None =>
          disk <~ lift (map_err SDiskIo (move_extent_to_trash disk extent_id)) ;;
          _u <~ modify (set_disk disk) ;;
          extent <~ lift (map_err SExtent (ExtentFile_create (dk_extents disk !! extent_id) extent_id)) ;;
          finish extent
      end
  | Err err => fail (SExtent err)
  end.
Definition create_extent_at_blocking (shard : ShardId) (create_ts : Z) : M ExtentId :=
  create_extent_with_status shard create_ts ES_Writable.

Definition promote_rebuilt_blocking (extent_id : ExtentId) : M unit :=
  index <~ gets eg_index ;;
  meta <~ lift (require_meta index extent_id) ;;
  match em_status meta with
  | ES_Writable => ret tt
  | ES_Rebuilding =>
      index <~ lift (map_err SIndex (set_extent_status index extent_id ES_Writable)) ;;
      modify (set_index index)
  | other => fail (SNotWritable other)
  end.

Definition writable_extent_blocking (index : rdb) (shard : ShardId) : result StoreError ExtentId :=
  b <-? map_err SIndex (get_shard_binding index shard) ;;
  extent_id <-? ok_or b (SShardUnbound shard) ;;
  meta <-? require_meta index extent_id ;;
  if decide (em_status meta = ES_Rebuilding) then Err (SNotWritable ES_Rebuilding)
  else _g <-? writable_gate (em_status meta) ;; Ok extent_id.

Definition seal_extent_blocking (extent_id : ExtentId) : M unit :=
  index <~ gets eg_index ;;
  meta <~ lift (require_meta index extent_id) ;;
  match em_status meta with
  | ES_Sealed => ret tt
  | ES_Writable | ES_Full =>
      _u <~ modify (fun g => set_open (delete extent_id (eg_open g)) g) ;;
      index <~ gets eg_index ;;
      index <~ lift (map_err SIndex (seal_extent index extent_id)) ;;
      modify (set_index index)
  | status => fail (SNotWritable status)
  end.

Definition delete_blocking (index : rdb) (extent_id : ExtentId) (blob_id : BlobId)
    : result StoreError (rdb * bool) :=
  let shard := ExtentId_shard_id extent_id in
  b <-? map_err SIndex (get_shard_binding index shard) ;;
  let target := default extent_id b in
  map_err SIndex (tombstone_blob index target blob_id).

(** Startup reconciliation of one extent file against the index. The scan
    returns by [scan_exact]; running out of fuel is not a case of the code. *)
Definition recover_extent (index : rdb) (extent : ExtentFile)
    : result StoreError (rdb * ExtentFile) :=
  let extent_id := xf_extent_id extent in
  m <-? map_err SIndex (get_extent_meta index extent_id) ;;
  match m with
  | Some meta =>
      if em_size meta <? xf_write_offset extent
      then Ok (index, truncate_to extent (em_size meta))
      else Ok (index, extent)
  | None =>
      match scan extent with
      | None => Ok (index, extent)
      | Some (Err e) => Err (SExtent e)
      | Some (Ok recovery) =>
          let extent := if rc_truncated recovery then truncate_to extent (rc_valid_end recovery)
                        else extent in
          let meta := {| em_shard_id := ExtentId_shard_id extent_id; em_status := ES_Writable;
                         em_size := rc_valid_end recovery; em_deleted_bytes := 0;
                         em_create_ts := ExtentId_create_ts extent_id |} in
          let blobs := (fun r => (rr_blob_id r, BlobIndex_new (rr_offset r) (rr_body_len r) (rr_crc r)))
                         <$> filter (fun r => rr_shard_id r = ExtentId_shard_id extent_id)
                               (rc_records recovery) in
          Ok (install_extent index extent_id meta blobs, extent)
      end
  end.

Definition is_format_error (err : ExtentError) : bool :=
  match err with
  | XBadHeaderMagic | XVersion _ _ | XHeaderChecksum _ _ => true
  | XIo IoUnexpectedEof => true
  | _ => false
  end.

(** [StorageEngine::open]: every extent file is opened and reconciled; an
    undecodable one is quarantined. The order of the directory listing is the
    argument. *)
Fixpoint open_loop (files : list (ExtentId * list Z)) (recovered : list ExtentFile)
    : M (list ExtentFile) :=
  match files with
  | [] => ret recovered
  | (name, file) :: files =>
      match ExtentFile_open (Some file) with
      | Err err =>
          if is_format_error err
          then
            disk <~ gets eg_disk ;;
            disk <~ lift (map_err (fun k => SExtent (XIo k)) (move_extent_to_trash disk name)) ;;
            _u <~ modify (set_disk disk) ;;
            open_loop files recovered
          else fail (SExtent err)
      | Ok extent =>
          index <~ gets eg_index ;;
          r <~ lift (recover_extent index extent) ;;
          let (index, extent) := (r : rdb * ExtentFile) in
          _u <~ modify (fun g => set_disk {| dk_extents := <[name := xf_file extent]> (dk_extents (eg_disk g));
                                             dk_trash := dk_trash (eg_disk g);
                                             dk_extent_size := dk_extent_size (eg_disk g) |}
                                   (set_index index g)) ;;
          open_loop files (recovered ++ [extent])
      end
  end.

(** Which recovered extents get a writer again. *)
Definition keeps_writer (index : rdb) (extent_id : ExtentId) : result StoreError bool :=
  m <-? map_err SIndex (get_extent_meta index extent_id) ;;
  match m with
  | None => Ok false
  | Some meta =>
      if decide (em_status meta = ES_Writable)
      then b <-? map_err SIndex (get_shard_binding index (em_shard_id meta)) ;;
           Ok (bool_decide (b = Some extent_id))
      else Ok false
  end.
Fixpoint spawn_writers_for (recovered : list ExtentFile) : M unit :=
  match recovered with
  | [] => ret tt
  | extent :: recovered =>
      index <~ gets eg_index ;;
      keep <~ lift (keeps_writer index (xf_extent_id extent)) ;;
      _u <~ (if keep : bool
             then modify (fun g => set_open (<[xf_extent_id extent := extent]> (eg_open g)) g)
             else ret tt) ;;
      spawn_writers_for recovered
  end.
Definition open_engine (listing : list (ExtentId * list Z)) : M unit :=
  recovered <~ open_loop listing [] ;; spawn_writers_for recovered.

(** [list_compaction_candidates]: worst first, then by id. *)
Definition candidate_le (x y : Z * ExtentId) : Prop :=
  y.1 < x.1 \/ (y.1 = x.1 /\ lex_leb x.2 y.2 = true).
#[export] Instance candidate_le_dec : RelDecision candidate_le.
Proof. intros x y. unfold candidate_le. apply _. Defined.
Definition list_compaction_candidates (index : rdb) (ratio_percent : Z)
    : result EpochError (list ExtentId) :=
  l <-? map_err (fun _ => EE_Internal) (list_extents index) ;;
  let candidates := (fun em => (em_deleted_bytes em.2, em.1))
                      <$> filter (fun em => should_compact em.2 ratio_percent = true) l in
  Ok (merge_sort candidate_le candidates).*2.
End Ops.
