(* ===== verification/StoreProps.v ===== *)
(** Correctness of the storage engine: reads return what was committed, the group
    commit writes what the single write does, recovery after a crash, and
    compaction. *)

From S2P Require Import Prelude Ids Crc Record ExtentFile Rocks MetaMerge StoreIndex IndexRefine.
From S2P Require Import StoreOps.

Lemma ExtentId_shard_id_u64 e : eid e -> is_u64 (ExtentId_shard_id e).
Proof.
  intros [Hb Hl]. unfold ExtentId_shard_id.
  assert (is_bytes (slice 0 8 e)) as Hs by by apply Forall_take, Forall_drop.
  pose proof (be_val_range _ Hs) as Hr. rewrite len_slice in Hr; [|lia..|].
  - unfold uint. lia.
  - unfold len. rewrite Hl. lia.
Qed.

Section Props.
Context `{Crc32c} {RDB : RocksDb merge_meta}.

(** ** The invariant of one extent

    The file is the image of its entries, the metadata holds its length, and every
    indexed blob is an entry of the file. *)

Definition entry_offset (es : list entry) (n : nat) : Z :=
  EXTENT_HEADER_LEN + entries_len (take n es).
Definition indexed_entry (es : list entry) (b : BlobId) (i : BlobIndex) (e : entry) : Prop :=
  exists n, es !! n = Some e /\ en_blob e = b /\ bi_offset i = entry_offset es n
    /\ bi_size i = len (en_body e) /\ bi_crc i = body_crc (en_body e).
Definition extent_ok (a : AbsIndex) (x : ExtentFile) (es : list entry) : Prop :=
  eid (xf_extent_id x) /\ represents x (xf_extent_id x) es /\ Forall entry_wf es
  /\ (exists m, ai_meta a !! xf_extent_id x = Some m /\ em_size m = xf_write_offset x)
  /\ (forall b i, ai_blob a !! (xf_extent_id x, b) = Some i -> exists e, indexed_entry es b i e).

Lemma indexed_entry_snoc es b i e e' :
  indexed_entry es b i e -> indexed_entry (es ++ [e']) b i e.
Proof.
  intros (n & Hn & Hb & Ho & Hs & Hc). exists n. split_and!; try done.
  - by apply lookup_app_l_Some.
  - rewrite Ho. unfold entry_offset. rewrite take_app_le; [done|].
    apply lookup_lt_Some in Hn. lia.
Qed.

Lemma indexed_entry_last x es e :
  eid (xf_extent_id x) -> represents x (xf_extent_id x) es ->
  indexed_entry (es ++ [e]) (en_blob e)
    (BlobIndex_new (xf_write_offset x) (len (en_body e)) (body_crc (en_body e))) e.
Proof.
  intros Hid (_ & _ & Ho). exists (length es). rewrite lookup_app_r, Nat.sub_diag by lia.
  split_and!; try done. unfold entry_offset.
  rewrite take_app_length, <- (len_image (xf_extent_id x)) by by apply eid_len. exact Ho.
Qed.

(** *** Reading *)

Lemma read_blob_indexed index a x es b i e :
  rep index a -> extent_ok a x es -> is_u64 b ->
  ai_blob a !! (xf_extent_id x, b) = Some i -> indexed_entry es b i e ->
  read_blob index x b = Ok (Some (en_body e)).
Proof.
  intros Hr (Hid & Hrep & Hes & _) Hb Hi (n & Hn & <- & Ho & _). unfold read_blob.
  rewrite (get_blob_rep index a) by done. rewrite Hi. cbn [map_err]. rewrite Ho.
  unfold entry_offset. destruct Hrep as (_ & Hf & _).
  rewrite (read_record_image x (xf_extent_id x) es n e []); [|by apply eid_len|done..|].
  - cbn [map_err entry_header rh_blob_id]. by rewrite Z.eqb_refl.
  - by rewrite app_nil_r.
Qed.
Lemma read_blob_absent index a x b :
  rep index a -> eid (xf_extent_id x) -> is_u64 b ->
  ai_blob a !! (xf_extent_id x, b) = None -> read_blob index x b = Ok None.
Proof.
  intros Hr Hid Hb Hi. unfold read_blob. rewrite (get_blob_rep index a) by done. by rewrite Hi.
Qed.

(** Extents that agree on the blob's entry agree on the read. *)
Lemma read_blob_agree index a x es index' a' x' es' b :
  rep index a -> extent_ok a x es -> rep index' a' -> extent_ok a' x' es' ->
  xf_extent_id x' = xf_extent_id x -> is_u64 b ->
  ai_blob a' !! (xf_extent_id x, b) = ai_blob a !! (xf_extent_id x, b) ->
  (forall i e, indexed_entry es b i e -> indexed_entry es' b i e) ->
  read_blob index' x' b = read_blob index x b.
Proof.
  intros Hr Hx Hr' Hx' Hid Hb Hbl Hes. destruct (ai_blob a !! (xf_extent_id x, b)) as [i|] eqn:Ei.
  - destruct Hx as (? & ? & ? & ? & Hie). destruct (Hie _ _ Ei) as (e & He).
    rewrite (read_blob_indexed index a x es b i e) by done.
    apply (read_blob_indexed index' a' x' es' b i e); [done..|by rewrite Hid|by apply Hes].
  - rewrite (read_blob_absent index a x) by (done || apply Hx).
    apply (read_blob_absent index' a' x'); [done|by apply Hx'|done|by rewrite Hid].
Qed.

(** *** Writing *)

(** The abstract effect of committing a new blob at the end of an extent. *)
Definition abs_append (x : ExtentFile) (e : entry) (a : AbsIndex) : AbsIndex :=
  abs_merge (xf_extent_id x) (SetSize (xf_write_offset x + entry_len e))
    (abs_put_blob (xf_extent_id x) (en_blob e)
       (BlobIndex_new (xf_write_offset x) (len (en_body e)) (body_crc (en_body e))) a).

Lemma append_extent_ok a x es e :
  extent_ok a x es -> entry_wf e ->
  extent_ok (abs_append x e a)
    {| xf_file := xf_file x ++ entry_bytes e; xf_extent_id := xf_extent_id x;
       xf_write_offset := xf_write_offset x + entry_len e |} (es ++ [e]).
Proof.
  intros (Hid & (_ & Hf & Ho) & Hes & (m & Hm & Hsz) & Hbl) He.
  split; [done|]. cbn [xf_extent_id]. split_and!.
  - unfold represents; cbn [xf_extent_id xf_file xf_write_offset].
    assert (image (xf_extent_id x) (es ++ [e]) = image (xf_extent_id x) es ++ entry_bytes e) as ->.
    { unfold image. rewrite entries_bytes_app.
      change (entries_bytes [e]) with (entry_bytes e ++ []). by rewrite app_nil_r, app_assoc. }
    by rewrite Hf, Ho, len_app, len_entry_bytes.
  - apply Forall_app. by split; [|constructor].
  - exists (MetaMergeOp_apply (SetSize (xf_write_offset x + entry_len e)) m).
    split; [|done]. cbn [abs_append abs_merge abs_put_blob ai_meta].
    by rewrite lookup_alter_eq, Hm.
  - intros b i. cbn [abs_append abs_merge abs_put_blob ai_blob].
    destruct (decide (b = en_blob e)) as [->|Hne].
    + rewrite lookup_insert_eq. intros [= <-]. exists e. by apply indexed_entry_last.
    + rewrite lookup_insert_ne by congruence. intros Hi. destruct (Hbl b i Hi) as (e' & He').
      exists e'. by apply indexed_entry_snoc.
Qed.

Lemma BlobIndex_new_wf off body :
  0 <= off -> len body <= U32_MAX -> is_u64 (off + record_on_disk_len (len body)) ->
  BlobIndex_wf (BlobIndex_new off (len body) (body_crc body)).
Proof.
  intros Ho Hl Hu. pose proof (len_nonneg body) as Hn.
  pose proof (record_on_disk_len_spec (len body) Hn).
  unfold BlobIndex_wf; cbn [BlobIndex_new bi_offset bi_size bi_crc bi_flags].
  unfold uint, U32_MAX, RECORD_HEADER_LEN, RECORD_FOOTER_LEN in *.
  split_and!; try lia; apply crc32c_range.
Qed.

Lemma write_blob_new index a x es b body m :
  rep index a -> extent_ok a x es -> is_u64 b ->
  ai_meta a !! xf_extent_id x = Some m -> writable_gate (em_status m) = Ok tt ->
  ai_blob a !! (xf_extent_id x, b) = None ->
  len body <= U32_MAX ->
  is_u64 (xf_write_offset x + record_on_disk_len (len body)) ->
  let e := {| en_blob := b; en_shard := ExtentId_shard_id (xf_extent_id x); en_body := body |} in
  exists index' x', write_blob index x b body = Ok (index', x', Written)
    /\ rep index' (abs_append x e a) /\ extent_ok (abs_append x e a) x' (es ++ [e])
    /\ xf_extent_id x' = xf_extent_id x
    /\ xf_write_offset x' = xf_write_offset x + record_on_disk_len (len body).
Proof.
  intros Hr Hx Hb Hm Hg Hn Hl Hu e. pose proof Hx as (Hid & (_ & Hf & Ho) & Hes & Hmeta & Hbl).
  assert (entry_wf e) as He by (split_and!; [done|by apply ExtentId_shard_id_u64|done]).
  unfold write_blob, require_meta. rewrite (get_extent_meta_rep index a) by done. rewrite Hm.
  cbn [map_err ok_or]. rewrite Hg, (get_blob_rep index a) by done. rewrite Hn. cbn [map_err].
  rewrite (proj2 (Z.ltb_ge _ _)) by done.
  pose proof (append_record_spec x e He ltac:(congruence)) as Happ. cbn [e en_blob en_shard en_body] in Happ.
  rewrite Happ. cbn [map_err xf_write_offset]. rewrite <- Hf in Ho. rewrite <- Ho.
  do 2 eexists. split; [done|]. split_and!; [| |done|done].
  - unfold commit_blob.
    apply (commit_blobs_rep index a (xf_extent_id x)
      [(b, BlobIndex_new (xf_write_offset x) (len body) (body_crc body))] _ m);
      [done|done| |done|done].
    constructor; [|constructor]. split; [done|]. apply BlobIndex_new_wf; [|done|done].
    rewrite Ho. apply len_nonneg.
  - by apply append_extent_ok.
Qed.

Lemma write_blob_unfold index a x b body m :
  rep index a -> eid (xf_extent_id x) -> is_u64 b -> ai_meta a !! xf_extent_id x = Some m ->
  write_blob index x b body =
    (_g <-? writable_gate (em_status m) ;;
     match ai_blob a !! (xf_extent_id x, b) with
     | Some _ => Ok (index, x, AlreadyExists)
     | None =>
         if U32_MAX <? len body then Err (SBodyTooLarge (len body))
         else
           r <-? map_err SExtent (append_record x b (ExtentId_shard_id (xf_extent_id x)) body) ;;
           let '(x', (offset, crc)) := r in
           Ok (commit_blob index (xf_extent_id x) b (BlobIndex_new offset (len body) crc)
                 (xf_write_offset x'), x', Written)
     end).
Proof.
  intros Hr Hid Hb Hm. unfold write_blob, require_meta.
  rewrite (get_extent_meta_rep index a) by done. rewrite Hm. cbn [map_err ok_or].
  by rewrite (get_blob_rep index a).
Qed.

(** C18: writing a blob to an extent, by what the index holds of the extent. Whatever
    the file: an extent without metadata is [ExtentNotFound]; one whose status does
    not accept writes is refused with that status's error; a blob already committed
    is left alone and reported [AlreadyExists]; an oversize body is refused. For a
    file that agrees with the index, with its offsets in 64 bits, a new blob is
    appended and committed, reading it returns exactly the body, every other blob of
    the extent reads as before, writing it again changes nothing, and file and index
    still agree (file image, recorded size, indexed offsets). *)
Theorem write_blob_correct : forall index a x b body,
  rep index a -> eid (xf_extent_id x) -> is_u64 b ->
  match ai_meta a !! xf_extent_id x with
  | None => write_blob index x b body = Err (SExtentNotFound (xf_extent_id x))
  | Some m =>
      match writable_gate (em_status m) with
      | Err err => write_blob index x b body = Err err
      | Ok _ =>
          if decide (is_Some (ai_blob a !! (xf_extent_id x, b)))
          then write_blob index x b body = Ok (index, x, AlreadyExists)
          else if U32_MAX <? len body
          then write_blob index x b body = Err (SBodyTooLarge (len body))
          else forall es, extent_ok a x es -> is_u64 (xf_write_offset x + record_on_disk_len (len body)) ->
            exists index' x' a' es',
            write_blob index x b body = Ok (index', x', Written)
            /\ rep index' a' /\ extent_ok a' x' es'
            /\ read_blob index' x' b = Ok (Some body)
            /\ (forall b', is_u64 b' -> b' <> b -> read_blob index' x' b' = read_blob index x b')
            /\ (forall body', write_blob index' x' b body' = Ok (index', x', AlreadyExists))
      end
  end.
Proof.
  intros index a x b body Hr Hid Hb. destruct (ai_meta a !! xf_extent_id x) as [m|] eqn:Hm.
  2:{ unfold write_blob, require_meta. rewrite (get_extent_meta_rep index a) by done. by rewrite Hm. }
  rewrite (write_blob_unfold index a x b body m) by done.
  destruct (writable_gate (em_status m)) as [[]|err] eqn:Hg; [|done].
  destruct (decide _) as [[i Hi]|Hn]; [by rewrite Hi|].
  apply eq_None_not_Some in Hn. rewrite Hn.
  destruct (Z.ltb_spec U32_MAX (len body)) as [Hl|Hl]; [done|]. intros es Hx Hu.
  set (e := {| en_blob := b; en_shard := ExtentId_shard_id (xf_extent_id x); en_body := body |}).
  destruct (write_blob_new index a x es b body m) as (index' & x' & Hw & Hr' & Hx' & Hid' & _); [done..|].
  rewrite (write_blob_unfold index a x b body m), Hg, Hn, (proj2 (Z.ltb_ge _ _)) in Hw by done.
  fold e in Hr', Hx'. exists index', x', (abs_append x e a), (es ++ [e]).
  assert (ai_blob (abs_append x e a) !! (xf_extent_id x, b)
          = Some (BlobIndex_new (xf_write_offset x) (len body) (body_crc body))) as Hnew
    by (cbn [abs_append abs_merge abs_put_blob ai_blob]; apply lookup_insert_eq).
  pose proof Hx' as (_ & _ & _ & (m' & Hm' & _) & Hbl'). rewrite Hid' in Hm', Hbl'.
  split_and!; [done..| | |].
  - destruct (Hbl' _ _ Hnew) as (e' & He').
    rewrite (read_blob_indexed index' (abs_append x e a) x' (es ++ [e]) b
      (BlobIndex_new (xf_write_offset x) (len body) (body_crc body)) e); try done.
    + by rewrite Hid'.
    + by apply (indexed_entry_last x es e); [|apply Hx].
  - intros b' Hb' Hne. eapply (read_blob_agree index a x es); try done.
    + cbn [abs_append abs_merge abs_put_blob ai_blob]. apply lookup_insert_ne. cbn [e en_blob]. congruence.
    + intros i e'. apply indexed_entry_snoc.
  - intros body'.
    assert (em_status m' = em_status m) as Hst.
    { cbn [abs_append abs_merge abs_put_blob ai_meta] in Hm'. rewrite lookup_alter_eq, Hm in Hm'.
      by injection Hm' as <-. }
    rewrite (write_blob_unfold index' (abs_append x e a) x' b body' m') by (done || by rewrite Hid').
    by rewrite Hst, Hg, Hid', Hnew.
Qed.

(** *** Recovery *)

(** C5: crash recovery with the index intact. Whatever bytes a crash leaves in
    an extent file after its committed records, reopening the file and
    reconciling it with the index gives back exactly the extent before the crash
    and leaves the index as it was: no committed blob is lost or changed, and no
    uncommitted one appears. *)
Theorem recover_committed : forall index a x es tail,
  rep index a -> extent_ok a x es ->
  exists x1, ExtentFile_open (Some (xf_file x ++ tail)) = Ok x1
    /\ recover_extent index x1 = Ok (index, x).
Proof.
  intros index a x es tail Hr (Hid & (_ & Hf & Ho) & _ & (m & Hm & Hsz) & _).
  destruct x as [f id wo]. cbn [xf_extent_id xf_file xf_write_offset] in *. subst f wo.
  rewrite ExtentFile_open_image by by apply eid_len. eexists. split; [done|].
  unfold recover_extent. cbn [xf_extent_id xf_write_offset].
  rewrite (get_extent_meta_rep index a) by done. rewrite Hm. cbn [map_err].
  rewrite Hsz, len_app. pose proof (len_nonneg tail).
  destruct (Z.ltb_spec (len (image id es)) (len (image id es) + len tail)) as [Hlt|Hge].
  - unfold truncate_to, set_len. cbn [xf_file xf_extent_id]. do 3 f_equal.
    rewrite <- app_assoc. unfold len at 1. by rewrite Nat2Z.id, take_app_length.
  - rewrite (len_0_nil tail), app_nil_r by lia. change (len (@nil Z)) with 0.
    by rewrite Z.add_0_r.
Qed.

(** *** Rebuilding a lost index *)

Lemma abs_put_blobs_lookup e bs a b i :
  ai_blob (abs_put_blobs e bs a) !! (e, b) = Some i ->
  (b, i) ∈ bs \/ ai_blob a !! (e, b) = Some i.
Proof.
  revert a. induction bs as [|[b' i'] bs IH]; intros a; [by right|].
  cbn [abs_put_blobs foldl]. intros Hl. apply IH in Hl as [Hin|Hl]; [left; by right|].
  cbn [fst snd abs_put_blob ai_blob] in Hl. destruct (decide (b' = b)) as [->|Hne].
  - rewrite lookup_insert_eq in Hl. injection Hl as ->. left. by left.
  - rewrite lookup_insert_ne in Hl by congruence. by right.
Qed.
Lemma abs_put_blobs_notin e bs a b :
  b ∉ bs.*1 -> ai_blob (abs_put_blobs e bs a) !! (e, b) = ai_blob a !! (e, b).
Proof.
  revert a. induction bs as [|[b' i'] bs IH]; intros a Hb; [done|].
  cbn [fmap list_fmap fst] in Hb. apply not_elem_of_cons in Hb as [Hne Hb].
  change (abs_put_blobs e ((b', i') :: bs) a) with (abs_put_blobs e bs (abs_put_blob e b' i' a)).
  rewrite IH by done. cbn [abs_put_blob ai_blob]. by rewrite lookup_insert_ne by congruence.
Qed.
Lemma abs_put_blobs_last e bs1 bs2 a b i :
  b ∉ bs2.*1 -> ai_blob (abs_put_blobs e (bs1 ++ (b, i) :: bs2) a) !! (e, b) = Some i.
Proof.
  intros Hb.
  assert (abs_put_blobs e (bs1 ++ (b, i) :: bs2) a
          = abs_put_blobs e bs2 (abs_put_blob e b i (abs_put_blobs e bs1 a))) as ->
    by (unfold abs_put_blobs; by rewrite foldl_app).
  rewrite abs_put_blobs_notin by done. cbn [abs_put_blob ai_blob]. apply lookup_insert_eq.
Qed.

Lemma recovered_lookup off es n e :
  es !! n = Some e ->
  recovered off es !! n = Some (entry_recovered (off + entries_len (take n es)) e).
Proof.
  revert off n. induction es as [|e' es IH]; intros off n Hn; [done|].
  destruct n as [|n]; cbn [lookup list_lookup] in Hn.
  - injection Hn as ->. cbn. by rewrite Z.add_0_r.
  - change (recovered off (e' :: es) !! S n) with (recovered (off + entry_len e') es !! n).
    rewrite (IH _ n Hn). do 2 f_equal. cbn [take entries_len foldr]. unfold entries_len. lia.
Qed.
Lemma recovered_elem off es r : r ∈ recovered off es ->
  exists n e, es !! n = Some e /\ r = entry_recovered (off + entries_len (take n es)) e.
Proof.
  intros Hr. apply list_elem_of_lookup in Hr as [n Hn].
  destruct (es !! n) as [e|] eqn:E.
  - exists n, e. split; [done|]. rewrite (recovered_lookup off es n e E) in Hn. congruence.
  - apply lookup_ge_None in E. apply lookup_lt_Some in Hn. rewrite length_recovered in Hn. lia.
Qed.

(** The entries a rebuilt index holds. *)
Definition rebuilt_blobs (id : ExtentId) (es : list entry) : list (BlobId * BlobIndex) :=
  (fun r => (rr_blob_id r, BlobIndex_new (rr_offset r) (rr_body_len r) (rr_crc r)))
    <$> filter (fun r => rr_shard_id r = ExtentId_shard_id id) (recovered EXTENT_HEADER_LEN es).
Definition rebuilt_meta (id : ExtentId) (es : list entry) : ExtentMeta :=
  {| em_shard_id := ExtentId_shard_id id; em_status := ES_Writable; em_size := len (image id es);
     em_deleted_bytes := 0; em_create_ts := ExtentId_create_ts id |}.

Lemma rebuilt_blobs_elem id es b i : (b, i) ∈ rebuilt_blobs id es ->
  exists e, indexed_entry es b i e /\ en_shard e = ExtentId_shard_id id
    /\ i = BlobIndex_new (bi_offset i) (len (en_body e)) (body_crc (en_body e)).
Proof.
  intros Hin. apply list_elem_of_fmap in Hin as (r & [= -> ->] & Hin).
  apply list_elem_of_filter in Hin as [Hs Hin].
  apply recovered_elem in Hin as (n & e & Hn & ->). exists e.
  split; [|done]. exists n. done.
Qed.
Lemma entry_offset_bound id es n e : eid id -> es !! n = Some e ->
  0 <= entry_offset es n < len (image id es).
Proof.
  intros Hid Hn. rewrite len_image by by apply eid_len. unfold entry_offset.
  assert (entries_len es = entries_len (take n es) + (entry_len e + entries_len (drop (S n) es))) as E
    by (rewrite <- (take_drop_middle es n e Hn) at 1; by rewrite entries_len_app).
  pose proof (entries_len_nonneg (take n es)). pose proof (entries_len_nonneg (drop (S n) es)).
  pose proof (entry_len_spec e). unfold EXTENT_HEADER_LEN. lia.
Qed.
Lemma rebuilt_wf id es : eid id -> Forall entry_wf es -> is_u64 (len (image id es)) ->
  blobs_wf (rebuilt_blobs id es) /\ ExtentMeta_wf (rebuilt_meta id es).
Proof.
  intros Hid Hes Hu. split.
  - unfold blobs_wf. rewrite Forall_forall. intros [b i] Hin.
    apply rebuilt_blobs_elem in Hin as (e & (n & Hn & Hb & Ho & Hs & Hc) & _ & Hi).
    pose proof (Forall_lookup_1 _ _ _ _ Hes Hn) as (Hwb & _ & Hl). cbn [fst snd].
    pose proof (entry_offset_bound id es n e Hid Hn).
    pose proof (len_nonneg (en_body e)). pose proof (crc32c_range (en_body e)).
    split; [congruence|]. unfold BlobIndex_wf. rewrite Hi. cbn [BlobIndex_new bi_flags bi_offset bi_size bi_crc].
    rewrite Ho. unfold body_crc, uint, U32_MAX in *. lia.
  - split_and!; cbn [rebuilt_meta em_shard_id em_size em_deleted_bytes em_create_ts].
    + by apply ExtentId_shard_id_u64.
    + done.
    + done.
    + unfold ExtentId_create_ts. destruct Hid as [Hb Hl]. apply u64_to_i64_range.
      assert (is_bytes (slice 8 8 id)) as Hs by by apply Forall_take, Forall_drop.
      pose proof (be_val_range _ Hs) as Hr. rewrite len_slice in Hr; [unfold uint; lia|lia..|].
      unfold len. rewrite Hl. lia.
Qed.

Lemma rebuilt_last id es n e :
  es !! n = Some e -> en_shard e = ExtentId_shard_id id ->
  (forall n' e', es !! n' = Some e' -> en_shard e' = ExtentId_shard_id id ->
     en_blob e' = en_blob e -> (n' <= n)%nat) ->
  exists bs1 bs2 i, rebuilt_blobs id es = bs1 ++ (en_blob e, i) :: bs2
    /\ (en_blob e ∉ bs2.*1) /\ indexed_entry es (en_blob e) i e.
Proof.
  intros Hn Hs Hlast. unfold rebuilt_blobs.
  pose proof (recovered_lookup EXTENT_HEADER_LEN es n e Hn) as Hr.
  rewrite <- (take_drop_middle _ _ _ Hr), filter_app, filter_cons_True, fmap_app by exact Hs.
  do 2 eexists. exists (BlobIndex_new (entry_offset es n) (len (en_body e)) (body_crc (en_body e))).
  split_and!; [done| |by exists n].
  intros Hin. apply list_elem_of_fmap in Hin as ([b i] & Eb & Hin).
  apply list_elem_of_fmap in Hin as (r & [= Ebr _] & Hin).
  apply list_elem_of_filter in Hin as [Hrs Hin]. apply list_elem_of_lookup in Hin as [k Hk].
  rewrite lookup_drop in Hk.
  destruct (es !! (S n + k)%nat) as [e'|] eqn:Ee.
  - rewrite (recovered_lookup EXTENT_HEADER_LEN es (S n + k) e' Ee) in Hk. injection Hk as <-.
    cbn [fst entry_recovered rr_blob_id rr_shard_id] in *.
    specialize (Hlast _ _ Ee Hrs). lia.
  - apply lookup_ge_None in Ee. apply lookup_lt_Some in Hk. rewrite length_recovered in Hk. lia.
Qed.

(** C34: rebuilding an extent whose index was lost. From a file that holds any
    entries and possibly a record cut short by a crash, recovery truncates the
    torn record, reinstalls the metadata as [Writable] with the binding of its
    shard, and indexes the surviving entries of that shard: the extent's
    invariant holds again and every blob reads as its last entry in the file.
    Entries of another shard are left out of the index. *)
Theorem recover_rebuilds : forall index a id es torn k,
  rep index a -> eid id -> ai_meta a !! id = None -> (forall b, ai_blob a !! (id, b) = None) ->
  Forall entry_wf es -> entry_wf torn -> 0 <= k < len (entry_raw torn) ->
  is_u64 (len (image id es)) ->
  exists x1 index' x' a',
    ExtentFile_open (Some (image id es ++ take (Z.to_nat k) (entry_raw torn))) = Ok x1
    /\ recover_extent index x1 = Ok (index', x')
    /\ rep index' a' /\ extent_ok a' x' es
    /\ ai_meta a' !! id = Some (rebuilt_meta id es)
    /\ get_shard_binding index' (ExtentId_shard_id id) = Ok (Some id)
    /\ (forall n e, es !! n = Some e -> en_shard e = ExtentId_shard_id id ->
          (forall n' e', es !! n' = Some e' -> en_shard e' = ExtentId_shard_id id ->
             en_blob e' = en_blob e -> (n' <= n)%nat) ->
          read_blob index' x' (en_blob e) = Ok (Some (en_body e)))
    /\ (forall b, is_u64 b -> (forall e, e ∈ es -> en_blob e = b -> en_shard e <> ExtentId_shard_id id) ->
          read_blob index' x' b = Ok None).
Proof.
  intros index a id es torn k Hr Hid Hm Hnb Hes Ht Hk Hu.
  rewrite ExtentFile_open_image by by apply eid_len. eexists.
  set (a' := abs_put_blobs id (rebuilt_blobs id es)
               (abs_bind (ExtentId_shard_id id) id (abs_put_meta id (rebuilt_meta id es) a))).
  set (x' := {| xf_file := image id es; xf_extent_id := id; xf_write_offset := len (image id es) |}).
  exists (install_extent index id (rebuilt_meta id es) (rebuilt_blobs id es)), x', a'.
  destruct (rebuilt_wf id es Hid Hes Hu) as [Hbw Hmw].
  assert (rep (install_extent index id (rebuilt_meta id es) (rebuilt_blobs id es)) a') as Hr'
    by by apply install_extent_rep.
  assert (ai_meta a' !! id = Some (rebuilt_meta id es)) as Hm'
    by (unfold a'; rewrite abs_put_blobs_meta; apply lookup_insert_eq).
  assert (extent_ok a' x' es) as Hx'.
  { split_and!; [done..| |].
    - by exists (rebuilt_meta id es).
    - intros b i Hi. cbn [x' xf_extent_id] in Hi. apply abs_put_blobs_lookup in Hi as [Hi|Hi].
      + apply rebuilt_blobs_elem in Hi as (e & He & _). by exists e.
      + cbn [abs_bind abs_put_meta ai_blob] in Hi. by rewrite Hnb in Hi. }
  split_and!; try done.
  - unfold recover_extent. cbn [xf_extent_id]. rewrite (get_extent_meta_rep index a), Hm by done.
    cbn [map_err]. destruct (scan_image_tail id es (take (Z.to_nat k) (entry_raw torn))) as [n Hn];
      [by apply eid_len|done|].
    unfold scan. cbn [xf_file]. rewrite Hn, scan_loop_torn by done.
    cbn [rc_truncated rc_valid_end rc_records]. do 2 f_equal.
    assert (len (take (Z.to_nat k) (entry_raw torn)) = k) as Hl
      by (unfold len in *; rewrite length_take; lia).
    rewrite len_app, Hl. destruct (Z.ltb_spec (len (image id es)) (len (image id es) + k)).
    + unfold truncate_to, set_len, x'. cbn [xf_file xf_extent_id]. f_equal. rewrite <- app_assoc.
      unfold len at 1. by rewrite Nat2Z.id, take_app_length.
    + assert (k = 0) as -> by lia. unfold x'. by rewrite app_nil_r, Z.add_0_r.
  - rewrite (get_shard_binding_rep _ a') by (done || by apply ExtentId_shard_id_u64). f_equal.
    unfold a'. rewrite abs_put_blobs_bind. apply lookup_insert_eq.
  - intros n e Hn Hs Hlast.
    destruct (rebuilt_last id es n e Hn Hs Hlast) as (bs1 & bs2 & i & Ebs & Hnin & Hie).
    apply (read_blob_indexed _ a' x' es _ i e); [done..| | |done].
    + by apply (Forall_lookup_1 _ _ _ _ Hes) in Hn as [? _].
    + unfold a'. rewrite Ebs. by apply abs_put_blobs_last.
  - intros b Hb Hno. apply (read_blob_absent _ a'); [done..|]. cbn [x' xf_extent_id].
    destruct (ai_blob a' !! (id, b)) as [i|] eqn:Ei; [|done].
    apply abs_put_blobs_lookup in Ei as [Ei|Ei].
    + apply rebuilt_blobs_elem in Ei as (e & (n & Hn & Heb & _) & Hs & _).
      by destruct (Hno e (list_elem_of_lookup_2 _ _ _ Hn) Heb).
    + cbn [abs_bind abs_put_meta ai_blob] in Ei. by rewrite Hnb in Ei.
Qed.

Lemma entries_len_mod es : entries_len es mod RECORD_ALIGN = 0.
Proof.
  induction es as [|e es IH]; [done|]. pose proof (entry_len_spec e) as (_ & _ & Hm).
  change (entries_len (e :: es)) with (entry_len e + entries_len es). unfold RECORD_ALIGN in *. lia.
Qed.

(** A rebuild can leave the append cursor off the record grid. When the crash
    cut only the zero padding of the last record, the scan accepts that record and
    reports no torn tail, so recovery neither truncates nor extends the file: the
    index records the padded size, while the cursor stays at the unpadded, and
    never 4 KiB aligned, end of the file. The next record is appended there, where
    a later scan does not look. *)
Theorem rebuild_unaligned_cursor : forall index a id es e k,
  rep index a -> eid id -> ai_meta a !! id = None ->
  Forall entry_wf es -> entry_wf e -> len (entry_raw e) <= k < entry_len e ->
  exists x1 index',
    ExtentFile_open (Some (image id es ++ take (Z.to_nat k) (entry_bytes e))) = Ok x1
    /\ recover_extent index x1 = Ok (index', x1)
    /\ xf_write_offset x1 = len (image id es) + k
    /\ xf_write_offset x1 mod RECORD_ALIGN <> 0
    /\ scan x1 = Some (Ok {| rc_records := recovered EXTENT_HEADER_LEN (es ++ [e]);
                              rc_valid_end := len (image id es) + entry_len e;
                              rc_truncated := false |}).
Proof.
  intros index a id es e k Hr Hid Hm Hes He Hk. pose proof (entry_len_spec e) as Hspec.
  assert (take (Z.to_nat k) (entry_bytes e) = entry_raw e ++ zeros (k - len (entry_raw e))) as Etail.
  { unfold entry_bytes. pose proof (len_nonneg (entry_raw e)).
    rewrite take_app_ge by (unfold len in *; lia). f_equal. unfold zeros. rewrite take_replicate.
    f_equal. unfold len in *. lia. }
  rewrite Etail, ExtentFile_open_image by by apply eid_len.
  set (f := image id es ++ entry_raw e ++ zeros (k - len (entry_raw e))).
  assert (len f = len (image id es) + k) as Hlf
    by (unfold f; rewrite !len_app, len_zeros by lia; lia).
  set (x1 := {| xf_file := f; xf_extent_id := id; xf_write_offset := len f |}).
  assert (scan x1 = Some (Ok {| rc_records := recovered EXTENT_HEADER_LEN (es ++ [e]);
            rc_valid_end := len (image id es) + entry_len e; rc_truncated := false |})) as Hscan.
  { unfold scan. cbn [x1 xf_file].
    assert (exists n, scan_fuel f = (length es + S (S n))%nat) as [n ->].
    { pose proof (entries_len_length es). pose proof (len_nonneg (entry_raw e)).
      unfold scan_fuel. rewrite Hlf, len_image by by apply eid_len.
      exists (Z.to_nat ((EXTENT_HEADER_LEN + entries_len es + k) / RECORD_ALIGN) - length es - 1)%nat.
      unfold EXTENT_HEADER_LEN, RECORD_ALIGN in *. lia. }
    rewrite <- (ExtentHeader_encode_len id) by by apply eid_len.
    unfold f at 1. unfold image at 1. rewrite <- app_assoc, scan_loop_entries by done.
    rewrite app_assoc. fold (image id es). rewrite ExtentHeader_encode_len, <- (len_image id) by by apply eid_len.
    rewrite scan_loop_record by done. fold f. cbn [scan_loop app].
    rewrite (proj2 (Z.ltb_lt (len f) _)) by (unfold RECORD_HEADER_LEN; lia).
    rewrite (proj2 (Z.ltb_ge _ (len f))) by lia.
    rewrite recovered_app, <- (len_image id) by by apply eid_len. done. }
  exists x1. eexists. split; [done|]. split_and!; [|by cbn [x1 xf_write_offset]| |done].
  - unfold recover_extent. cbn [x1 xf_extent_id]. rewrite (get_extent_meta_rep index a), Hm by done.
    cbn [map_err]. fold x1. rewrite Hscan. cbn [rc_truncated]. reflexivity.
  - cbn [x1 xf_write_offset]. rewrite Hlf, len_image by by apply eid_len.
    pose proof (entries_len_mod es). unfold EXTENT_HEADER_LEN, RECORD_ALIGN in *. lia.
Qed.

(** *** A fresh extent *)

Lemma ExtentId_new_eid s ts : is_u64 s -> is_i64 ts -> eid (ExtentId_new s ts).
Proof.
  intros Hs Ht. split; [apply ExtentId_new_bytes|].
  pose proof (ExtentId_new_len s ts). unfold len in *. lia.
Qed.
Definition fresh_meta (s : ShardId) (ts : Z) (st : ExtentStatus) : ExtentMeta :=
  {| em_shard_id := s; em_status := st; em_size := EXTENT_HEADER_LEN; em_deleted_bytes := 0;
     em_create_ts := ts |}.
Definition fresh_abs (s : ShardId) (ts : Z) (st : ExtentStatus) (a : AbsIndex) : AbsIndex :=
  abs_bind s (ExtentId_new s ts) (abs_put_meta (ExtentId_new s ts) (fresh_meta s ts st) a).
Lemma fresh_extent index a s ts st :
  rep index a -> is_u64 s -> is_i64 ts -> (forall b, ai_blob a !! (ExtentId_new s ts, b) = None) ->
  exists x, ExtentFile_create None (ExtentId_new s ts) = Ok x
    /\ rep (install_extent index (ExtentId_new s ts) (fresh_meta s ts st) []) (fresh_abs s ts st a)
    /\ extent_ok (fresh_abs s ts st a) x [] /\ xf_extent_id x = ExtentId_new s ts
    /\ xf_write_offset x = EXTENT_HEADER_LEN.
Proof.
  intros Hr Hs Ht Hb. pose proof (ExtentId_new_eid s ts Hs Ht) as Hid.
  destruct (create_represents (ExtentId_new s ts)) as (x & E & Hx); [by apply eid_len|].
  exists x. pose proof Hx as (Hi & Hf & Ho). split_and!; [done| | |done|].
  - by apply (install_extent_rep index a (ExtentId_new s ts) (fresh_meta s ts st) []);
      [..|split_and!|constructor].
  - split_and!; rewrite ?Hi; [done..|constructor| |].
    + exists (fresh_meta s ts st). split; [apply lookup_insert_eq|].
      rewrite Ho, len_image by by apply eid_len. done.
    + intros b i. cbn [fresh_abs abs_bind abs_put_meta ai_blob]. by rewrite Hb.
  - rewrite Ho, len_image by by apply eid_len. done.
Qed.
End Props.

(** *** Witnesses: a fresh extent on an empty index *)

Definition ex_store : AbsIndex := fresh_abs 4294967297 99 ES_Writable abs_empty.
Definition ex_store_index : @rdb _ (cells_rocks merge_meta) :=
  install_extent rdb_empty (ExtentId_new 4294967297 99) (fresh_meta 4294967297 99 ES_Writable) [].
Lemma ex_store_fresh : exists x,
  ExtentFile_create None (ExtentId_new 4294967297 99) = Ok x /\ rep ex_store_index ex_store
  /\ extent_ok ex_store x [] /\ xf_extent_id x = ExtentId_new 4294967297 99
  /\ xf_write_offset x = EXTENT_HEADER_LEN.
Proof. by apply fresh_extent; [apply rep_empty|..]. Qed.

Lemma write_blob_correct_witness :
  exists x index' x', ExtentFile_create None (ExtentId_new 4294967297 99) = Ok x
    /\ write_blob ex_store_index x 7 [1; 2; 3] = Ok (index', x', Written)
    /\ read_blob index' x' 7 = Ok (Some [1; 2; 3])
    /\ write_blob (rdb_empty : @rdb _ (cells_rocks merge_meta)) x 7 [1; 2; 3] = Err (SExtentNotFound (ExtentId_new 4294967297 99)).
Proof.
  destruct ex_store_fresh as (x & E & Hr & Hx & Hid & Ho).
  pose proof (write_blob_correct ex_store_index ex_store x 7 [1; 2; 3] Hr ltac:(apply Hx) ltac:(done)) as Hw. rewrite Hid in Hw.
  destruct (Hw [] Hx ltac:(rewrite Ho; done)) as (index' & x' & _ & _ & Hw' & _ & _ & Hread & _).
  pose proof (write_blob_correct rdb_empty abs_empty x 7 [1; 2; 3] rep_empty ltac:(apply Hx) ltac:(done)) as Hn. rewrite Hid in Hn.
  exists x, index', x'. split_and!; [done..|exact Hn].
Defined.
Lemma recover_committed_witness :
  exists x x1, ExtentFile_create None (ExtentId_new 4294967297 99) = Ok x
    /\ ExtentFile_open (Some (xf_file x ++ [69; 80; 82; 72; 0])) = Ok x1
    /\ recover_extent ex_store_index x1 = Ok (ex_store_index, x).
Proof.
  destruct ex_store_fresh as (x & E & Hr & Hx & _).
  destruct (recover_committed ex_store_index ex_store x [] [69; 80; 82; 72; 0] Hr Hx) as (x1 & ? & ?).
  by exists x, x1.
Defined.
Lemma recover_rebuilds_witness :
  exists x1 (index' : @rdb _ (cells_rocks merge_meta)) x',
    ExtentFile_open (Some (image ex_id [ex_entry 1] ++ take 40 (entry_raw (ex_entry 2)))) = Ok x1
    /\ recover_extent rdb_empty x1 = Ok (index', x')
    /\ read_blob index' x' (en_blob (ex_entry 1)) = Ok (Some [1; 1; 2; 3]).
Proof.
  destruct (recover_rebuilds (rdb_empty : @rdb _ (cells_rocks merge_meta)) abs_empty ex_id
    [ex_entry 1] (ex_entry 2) 40 rep_empty) as (x1 & index' & x' & a' & Ho & Hrec & _ & _ & _ & _ & Hread & _).
  - split; [|done]. apply Forall_app. split; apply be_bytes_bytes.
  - done.
  - done.
  - repeat constructor; done.
  - repeat constructor; done.
  - by vm_compute.
  - by vm_compute.
  - exists x1, index', x'. split_and!; [done..|]. apply (Hread 0%nat (ex_entry 1)); [done|by vm_compute|].
    intros n' e' Hn' _ _. destruct n' as [|n']; [lia|done].
Defined.
Lemma rebuild_unaligned_cursor_witness :
  exists x1 (index' : @rdb _ (cells_rocks merge_meta)),
    ExtentFile_open (Some (image ex_id [ex_entry 1] ++ take 50 (entry_bytes (ex_entry 2)))) = Ok x1
    /\ recover_extent rdb_empty x1 = Ok (index', x1) /\ xf_write_offset x1 mod RECORD_ALIGN <> 0.
Proof.
  destruct (rebuild_unaligned_cursor (rdb_empty : @rdb _ (cells_rocks merge_meta)) abs_empty ex_id
    [ex_entry 1] (ex_entry 2) 50 rep_empty) as (x1 & index' & Ho & Hrec & _ & Hmod & _).
  - split; [|done]. apply Forall_app. split; apply be_bytes_bytes.
  - done.
  - repeat constructor; done.
  - repeat constructor; done.
  - by vm_compute.
  - exists x1, index'. split; [exact Ho|split; [exact Hrec|exact Hmod]].
Defined.
