(* ===== verification/GroupCommit.v ===== *)
(** The per-extent writer's group commit (crates/epoch-store/src/writer.rs) against
    one write at a time. *)

From S2P Require Import Prelude Ids Crc Record ExtentFile Rocks MetaMerge StoreIndex IndexRefine.
From S2P Require Import StoreOps StoreProps.

Section GroupCommit.
Context `{Crc32c} {RDB : RocksDb merge_meta}.

(** The reference: the requests written one by one, each with its own commit. *)
Fixpoint write_all (index : rdb) (x : ExtentFile) (batch : list (BlobId * list Z))
    (replies : list (result EpochError WriteOutcome))
    : rdb * ExtentFile * list (result EpochError WriteOutcome) :=
  match batch with
  | [] => (index, x, replies)
  | (b, body) :: batch =>
      match write_blob index x b body with
      | Ok (index', x', o) => write_all index' x' batch (replies ++ [Ok o])
      | Err err => write_all index x batch (replies ++ [Err (to_epoch err)])
      end
  end.

(** The index after committing the appended blobs at a cursor. *)
Definition committed (a : AbsIndex) (id : ExtentId) (ap : list (BlobId * BlobIndex)) (off : Z)
    : AbsIndex :=
  match ap with [] => a | _ => abs_merge id (SetSize off) (abs_put_blobs id ap a) end.
Definition batch_bytes (batch : list (BlobId * list Z)) : Z :=
  foldr (fun r n => record_on_disk_len (len r.2) + n) 0 batch.

Lemma abs_merge_size_twice id n1 n2 b i a :
  abs_merge id (SetSize n2) (abs_put_blob id b i (abs_merge id (SetSize n1) a))
  = abs_merge id (SetSize n2) (abs_put_blob id b i a).
Proof.
  unfold abs_merge, abs_put_blob; cbn [ai_meta ai_bind ai_blob]. f_equal.
  rewrite alter_alter_eq. by apply alter_ext.
Qed.
Lemma committed_snoc a x ap e off :
  off = xf_write_offset x ->
  abs_append x e (committed a (xf_extent_id x) ap off)
  = committed a (xf_extent_id x)
      (ap ++ [(en_blob e, BlobIndex_new off (len (en_body e)) (body_crc (en_body e)))])
      (off + entry_len e).
Proof.
  intros ->. unfold abs_append, committed.
  destruct ap as [|p ap]; [done|].
  rewrite abs_merge_size_twice. cbn [app]. f_equal.
  unfold abs_put_blobs. cbn [foldl]. by rewrite foldl_app.
Qed.
Lemma committed_blob a id ap off b :
  ai_blob (committed a id ap off) !! (id, b) = None <->
  ai_blob a !! (id, b) = None /\ (b ∉ ap.*1).
Proof.
  assert (ai_blob (committed a id ap off) = ai_blob (abs_put_blobs id ap a)) as ->
    by by destruct ap.
  split.
  - intros Hn. destruct (decide (b ∈ ap.*1)) as [Hin|Hnin].
    + exfalso. revert Hn. apply not_eq_None_Some. clear -Hin. revert a.
      induction ap as [|[b' i'] ap IH] using rev_ind; intros a; [by apply not_elem_of_nil in Hin|].
      unfold abs_put_blobs. rewrite foldl_app. cbn [foldl fst snd abs_put_blob ai_blob].
      fold (abs_put_blobs id ap a). destruct (decide (b = b')) as [->|Hne].
      * rewrite lookup_insert_eq. by eexists.
      * rewrite lookup_insert_ne by congruence. apply IH.
        rewrite fmap_app, elem_of_app in Hin. destruct Hin as [?|Hin]; [done|].
        by apply list_elem_of_singleton in Hin.
    + by rewrite abs_put_blobs_notin in Hn.
  - intros [Hn Hnin]. by rewrite abs_put_blobs_notin.
Qed.
Lemma committed_meta a id ap off m :
  ai_meta a !! id = Some m ->
  exists m', ai_meta (committed a id ap off) !! id = Some m' /\ em_status m' = em_status m.
Proof.
  intros Hm. destruct ap as [|p ap]; [by exists m|]. unfold committed.
  cbn [abs_merge ai_meta]. rewrite abs_put_blobs_meta, lookup_alter_eq, Hm. by eexists.
Qed.

Lemma fmap_snoc_default (rb : list (option (result EpochError WriteOutcome))) :
  default (Ok Written) <$> (rb ++ [None]) = (default (Ok Written) <$> rb) ++ [Ok Written].
Proof. by rewrite fmap_app. Qed.

Lemma snoc_already (rb : list (option (result EpochError WriteOutcome))) :
  (default (Ok Written) <$> rb) ++ [Ok AlreadyExists]
  = default (Ok Written) <$> (rb ++ [Some (Ok AlreadyExists)]).
Proof. by rewrite fmap_app. Qed.

Lemma batch_loop_seq index a m id batch :
  rep index a -> ai_meta a !! id = Some m -> writable_gate (em_status m) = Ok tt ->
  Forall (fun r => is_u64 r.1 /\ len r.2 <= U32_MAX) batch ->
  forall x ap seen rb index_k es,
  xf_extent_id x = id -> rep index_k (committed a id ap (xf_write_offset x)) ->
  extent_ok (committed a id ap (xf_write_offset x)) x es -> blobs_wf ap ->
  (forall b, b ∈ seen <-> b ∈ ap.*1) -> is_u64 (xf_write_offset x + batch_bytes batch) ->
  exists index' x' ap' rb' es', batch_loop index x batch ap seen None rb = (x', ap', rb')
    /\ write_all index_k x batch (default (Ok Written) <$> rb)
       = (index', x', default (Ok Written) <$> rb')
    /\ rep index' (committed a id ap' (xf_write_offset x'))
    /\ extent_ok (committed a id ap' (xf_write_offset x')) x' es'
    /\ blobs_wf ap' /\ xf_extent_id x' = id.
Proof.
  intros Hr Hm Hg Hb. induction Hb as [|[b body] batch [Hbu Hbl] Hb IH];
    intros x ap seen rb index_k es Hid Hrk Hx Hap Hseen Hoff.
  { do 5 eexists. split_and!; done. }
  cbn [batch_loop write_all fst snd] in *. rewrite Hid.
  assert (0 <= batch_bytes batch) as Hpos.
  { clear. induction batch as [|[b' l] batch IH]; [done|]. cbn [batch_bytes foldr snd].
    pose proof (record_on_disk_len_spec (len l) (len_nonneg l)). unfold batch_bytes in IH.
    unfold RECORD_HEADER_LEN, RECORD_FOOTER_LEN in *. pose proof (len_nonneg l). lia. }
  assert (eid id) as Heid by (rewrite <- Hid; apply Hx).
  destruct (committed_meta a id ap (xf_write_offset x) m Hm) as (m' & Hm' & Hst).
  assert (is_u64 (xf_write_offset x + record_on_disk_len (len body)) /\
          is_u64 (xf_write_offset x + batch_bytes batch)) as [Hoff1 Hoff2].
  { pose proof (record_on_disk_len_spec (len body) (len_nonneg body)).
    pose proof (len_nonneg body). destruct Hx as (_ & (_ & _ & Ho) & _). rewrite Ho in *.
    pose proof (len_nonneg (image (xf_extent_id x) es)).
    cbn [batch_bytes foldr snd] in Hoff. unfold batch_bytes in *. unfold uint, RECORD_HEADER_LEN, RECORD_FOOTER_LEN in *. lia. }
  rewrite (get_blob_rep index a) by done.
  pose proof (write_blob_unfold index_k _ x b body m' Hrk ltac:(by rewrite Hid) Hbu
                ltac:(by rewrite Hid)) as Hw.
  rewrite Hst, Hg, Hid in Hw.
  destruct (decide (ai_blob (committed a id ap (xf_write_offset x)) !! (id, b) = None)) as [Hn|Hn].
  - pose proof Hn as [Hna Hnap]%committed_blob. rewrite Hna.
    rewrite decide_False by (by rewrite Hseen). rewrite (proj2 (Z.ltb_ge _ _)) by done.
    destruct (write_blob_new index_k _ x es b body m' Hrk Hx Hbu)
      as (index' & x' & Hw' & Hr' & Hx' & Hid' & _);
      [by rewrite Hid|by rewrite Hst|by rewrite Hid|done|done|].
    set (e := {| en_blob := b; en_shard := ExtentId_shard_id (xf_extent_id x); en_body := body |}) in *.
    assert (entry_wf e) as He by (split_and!; [done|apply ExtentId_shard_id_u64; by rewrite Hid|done]).
    assert (xf_write_offset x = len (xf_file x)) as Ho
      by (destruct Hx as (_ & (_ & Hf & Ho) & _); congruence).
    pose proof (append_record_spec x e He Ho) as Happ. cbn [e en_blob en_shard en_body] in Happ.
    rewrite Hw, Hn, (proj2 (Z.ltb_ge _ _)) in Hw' by done. rewrite <- Hid, Happ in Hw'.
    rewrite <- Hid, Happ. cbn [map_err] in Hw'. injection Hw' as <- <-.
    cbn [xf_write_offset xf_extent_id] in *. rewrite Hw, Hn, (proj2 (Z.ltb_ge _ _)) by done.
    rewrite <- Hid, Happ. cbn [map_err xf_write_offset].
    rewrite <- Ho in *. rewrite <- Hid in Hr', Hx'. rewrite committed_snoc in Hr', Hx' by done.
    fold e in Hr', Hx'. cbn [e en_blob en_body] in Hr', Hx'.
    rewrite Hid in *. rewrite <- (fmap_snoc_default rb).
    eapply IH; try done.
    + apply Forall_app. split; [done|]. constructor; [|constructor]. split; [done|].
      apply BlobIndex_new_wf; [rewrite Ho; apply len_nonneg|done|done].
    + intros b'. rewrite elem_of_union, elem_of_singleton, Hseen, fmap_app, elem_of_app.
      cbn [fmap list_fmap fst]. rewrite list_elem_of_singleton. tauto.
    + cbn [xf_write_offset]. unfold entry_len. cbn [e en_body].
      by rewrite <- Z.add_assoc.
  - rewrite Hw. destruct (ai_blob (committed a id ap (xf_write_offset x)) !! (id, b)) as [i|] eqn:Ei;
      [|done].
    rewrite (snoc_already rb). destruct (ai_blob a !! (id, b)) as [i'|] eqn:Ea; [by eapply IH|].
    rewrite decide_True; [by eapply IH|]. rewrite Hseen.
    destruct (decide (b ∈ ap.*1)); [done|]. exfalso.
    by rewrite (proj2 (committed_blob a id ap (xf_write_offset x) b)) in Ei.
Qed.

(** A request is deferred only when something was appended. *)
Lemma batch_loop_deferred index batch : forall x ap seen fatal rb x' ap' rb',
  (ap = [] -> Forall is_Some rb) ->
  batch_loop index x batch ap seen fatal rb = (x', ap', rb') -> ap' = [] -> Forall is_Some rb'.
Proof.
  induction batch as [|[b body] batch IH]; intros x ap seen fatal rb x' ap' rb' Hrb.
  { cbn [batch_loop]. intros [= <- <- <-]. exact Hrb. }
  assert (forall r, ap = [] -> Forall is_Some (rb ++ [Some r])) as Hs.
  { intros r E. apply Forall_app. split; [by apply Hrb|]. by repeat constructor. }
  cbn [batch_loop]. repeat case_match; try (apply IH; exact (Hs _)).
  apply IH. intros E. by destruct ap.
Qed.
Lemma default_irrel {A} (d1 d2 : A) (l : list (option A)) :
  Forall is_Some l -> default d1 <$> l = default d2 <$> l.
Proof. induction 1 as [|o l [v ->] _ IH]; [done|]. cbn. by f_equal. Qed.
(** A failed fsync turns the acknowledgements of new blobs into its error. *)
Definition unsynced (k : IoKind) (r : result EpochError WriteOutcome) : result EpochError WriteOutcome :=
  match r with Ok Written => Err (to_epoch (SExtent (XIo k))) | r => r end.
Lemma batch_loop_unwritten index batch : forall x ap seen fatal rb x' ap' rb',
  Forall (fun r => r <> Some (Ok Written)) rb ->
  batch_loop index x batch ap seen fatal rb = (x', ap', rb') -> Forall (fun r => r <> Some (Ok Written)) rb'.
Proof.
  induction batch as [|[b body] batch IH]; intros x ap seen fatal rb x' ap' rb' Hrb.
  { cbn [batch_loop]. by intros [= <- <- <-]. }
  assert (forall r, r <> Some (Ok Written) -> Forall (fun r => r <> Some (Ok Written)) (rb ++ [r])) as Hs.
  { intros r Hr. apply Forall_app. split; [done|]. by constructor. }
  cbn [batch_loop]. repeat case_match; apply IH, Hs; done.
Qed.
Lemma unsynced_replies k (rb : list (option (result EpochError WriteOutcome))) : Forall (fun r => r <> Some (Ok Written)) rb ->
  unsynced k <$> (default (Ok Written) <$> rb) = default (Err (to_epoch (SExtent (XIo k)))) <$> rb.
Proof.
  induction 1 as [|r rb Hr _ IH]; [done|]. cbn [fmap list_fmap]. rewrite <- IH. f_equal. destruct r as [[[]|]|]; try done.
Qed.
Lemma write_all_closed index a x m err batch : rep index a -> eid (xf_extent_id x) ->
  ai_meta a !! xf_extent_id x = Some m -> writable_gate (em_status m) = Err err ->
  forall replies, write_all index x batch replies
    = (index, x, replies ++ ((fun _ => Err (to_epoch err)) <$> batch)).
Proof.
  intros Hr Hid Hm Hg. induction batch as [|[b body] batch IH]; intros replies.
  { cbn. by rewrite app_nil_r. }
  cbn [write_all]. unfold write_blob, require_meta.
  rewrite (get_extent_meta_rep index a) by done. rewrite Hm. cbn [map_err ok_or].
  rewrite Hg, IH, <- app_assoc. done.
Qed.

(** C19: the group commit is one write at a time. For a batch of requests whose
    bodies fit the record size field: if the fsync succeeds, the writer leaves the
    same file, the same index contents and the same reply to every request as writing
    the requests one by one, each with its own commit (new blobs are [Written], blobs
    already committed or repeated in the batch are [AlreadyExists], and a closed extent
    refuses them all with its status). If the fsync fails, the index is unchanged and
    the requests that would have been [Written] get the error; the others get the
    reply they get otherwise, a repeat in the batch too, although nothing is stored
    ([batch_repeat_acked_unwritten], which has the oversize bodies as well). *)
Theorem group_commit_equiv : forall index a x es batch,
  rep index a -> extent_ok a x es ->
  Forall (fun r => is_u64 r.1 /\ len r.2 <= U32_MAX) batch ->
  is_u64 (xf_write_offset x + batch_bytes batch) ->
  exists index1 index2 x' replies a' es',
    process_batch None x index batch = (index1, x', replies)
    /\ write_all index x batch [] = (index2, x', replies)
    /\ rep index1 a' /\ rep index2 a' /\ extent_ok a' x' es'
    /\ (forall k, process_batch (Some k) x index batch = (index, x', unsynced k <$> replies)).
Proof.
  intros index a x es batch Hr Hx Hb Hu.
  pose proof Hx as (Hid & _ & _ & (m & Hm & _) & _).
  unfold process_batch, load_writable_meta, require_meta.
  rewrite (get_extent_meta_rep index a) by done. rewrite Hm. cbn [map_err ok_or].
  destruct (writable_gate (em_status m)) as [[]|err] eqn:Hg.
  - destruct (batch_loop_seq index a m (xf_extent_id x) batch Hr Hm Hg Hb x [] ∅ [] index es)
      as (index2 & x' & ap & rb & es' & E1 & E2 & Hr2 & Hx' & Hap & Hid'); [done..|constructor| |done|].
    { intros b. split; [by intros ?%not_elem_of_empty|by intros ?%not_elem_of_nil]. }
    pose proof (batch_loop_unwritten _ _ _ _ _ _ [] _ _ _ (Forall_nil_2 _) E1) as Hnw.
    rewrite E1. cbn [fmap list_fmap] in E2. destruct ap as [|p ap].
    + assert (Forall is_Some rb) as Hrb by (eapply batch_loop_deferred; [|exact E1|done]; constructor).
      exists index, index2, x', (default (Ok Written) <$> rb), a, es'. split_and!; try done.
      * f_equal. by apply default_irrel.
      * intros k. rewrite unsynced_replies by done. f_equal. by apply default_irrel.
    + exists (commit_blobs index (xf_extent_id x) (p :: ap) (xf_write_offset x')), index2, x',
        (default (Ok Written) <$> rb), (committed a (xf_extent_id x) (p :: ap) (xf_write_offset x')), es'.
      split_and!; try done; [|intros k; by rewrite unsynced_replies]. eapply commit_blobs_rep; try done.
      destruct Hx' as (Hid2 & _ & _ & (m' & Hm' & <-) & _). rewrite Hid' in Hm', Hid2.
      by destruct (proj2 (rep_get_meta index2 _ (xf_extent_id x) Hr2 Hid2) m' Hm') as (_ & ? & _).
  - exists index, index, x, ((fun _ => Err (to_epoch err)) <$> batch), a, es.
    split_and!; try done; [by apply (write_all_closed index a x m err batch Hr Hid Hm Hg [])|].
    intros k. f_equal. by rewrite <- list_fmap_compose.
Qed.

(** Two acknowledgements of the group commit are not backed by a commit. In
    a batch that repeats a new blob id, the repeat is answered [AlreadyExists]
    at once, before and whatever the outcome of the commit: when the fsync then
    fails, the first request gets the error, the index is unchanged and the blob
    is unreadable, yet the repeat was told it is stored. The same happens when
    the first request is refused as oversize: the repeat, of a legal size, is
    told [AlreadyExists] and nothing is written. *)
Theorem batch_repeat_acked_unwritten : forall index a x es m b body,
  rep index a -> extent_ok a x es -> is_u64 b ->
  ai_meta a !! xf_extent_id x = Some m -> em_status m = ES_Writable ->
  ai_blob a !! (xf_extent_id x, b) = None -> len body <= U32_MAX ->
  (forall k, is_out_of_space k = false -> exists x',
     process_batch (Some k) x index [(b, body); (b, body)]
     = (index, x', [Err EE_DiskBroken; Ok AlreadyExists]))
  /\ (forall big, U32_MAX < len big ->
        process_batch None x index [(b, big); (b, body)]
        = (index, x, [Err EE_Internal; Ok AlreadyExists]))
  /\ read_blob index x b = Ok None.
Proof.
  intros index a x es m b body Hr Hx Hb Hm Hst Hn Hl.
  pose proof Hx as (Hid & (_ & Hf & Ho) & _). rewrite <- Hf in Ho.
  assert (load_writable_meta index (xf_extent_id x) = Ok tt) as Hg.
  { unfold load_writable_meta, require_meta. rewrite (get_extent_meta_rep index a) by done.
    rewrite Hm. cbn [map_err ok_or]. by rewrite Hst. }
  assert (get_blob index (xf_extent_id x) b = Ok None) as Hgb
    by (rewrite (get_blob_rep index a) by done; by rewrite Hn).
  split_and!.
  - intros k Hk. unfold process_batch. rewrite Hg. cbn [batch_loop]. rewrite Hgb.
    rewrite decide_False by apply not_elem_of_empty. rewrite (proj2 (Z.ltb_ge _ _)) by done.
    set (e := {| en_blob := b; en_shard := ExtentId_shard_id (xf_extent_id x); en_body := body |}).
    assert (entry_wf e) as He by (split_and!; [done|by apply ExtentId_shard_id_u64|done]).
    pose proof (append_record_spec x e He Ho) as Happ. cbn [e en_blob en_shard en_body] in Happ.
    rewrite Happ. cbn [xf_extent_id]. rewrite Hgb. rewrite decide_True by set_solver.
    cbn. rewrite Hk. by eexists.
  - intros big Hbig. unfold process_batch. rewrite Hg. cbn [batch_loop]. rewrite Hgb.
    rewrite decide_False by apply not_elem_of_empty. rewrite (proj2 (Z.ltb_lt _ _)) by done.
    by rewrite decide_True by set_solver.
  - by apply (read_blob_absent index a).
Qed.
End GroupCommit.

Lemma group_commit_equiv_witness :
  exists x index1 index2 x' replies,
    ExtentFile_create None (ExtentId_new 4294967297 99) = Ok x
    /\ process_batch None x ex_store_index [(7, [1]); (8, [2]); (7, [1])] = (index1, x', replies)
    /\ write_all ex_store_index x [(7, [1]); (8, [2]); (7, [1])] [] = (index2, x', replies).
Proof.
  destruct ex_store_fresh as (x & E & Hr & Hx & Hid & Ho).
  destruct (group_commit_equiv ex_store_index ex_store x [] [(7, [1]); (8, [2]); (7, [1])] Hr Hx)
    as (i1 & i2 & x' & rs & a' & es' & H1 & H2 & _).
  - repeat constructor; done.
  - rewrite Ho. done.
  - by exists x, i1, i2, x', rs.
Defined.
Lemma batch_repeat_acked_unwritten_witness :
  exists x x', ExtentFile_create None (ExtentId_new 4294967297 99) = Ok x
    /\ process_batch (Some (IoOther (Some 5))) x ex_store_index [(7, [1]); (7, [1])]
       = (ex_store_index, x', [Err EE_DiskBroken; Ok AlreadyExists])
    /\ read_blob ex_store_index x 7 = Ok None.
Proof.
  destruct ex_store_fresh as (x & E & Hr & Hx & Hid & Ho).
  destruct (batch_repeat_acked_unwritten ex_store_index ex_store x [] (fresh_meta 4294967297 99 ES_Writable)
    7 [1] Hr Hx) as (H1 & _ & H3); [done|by rewrite Hid|done|by rewrite Hid|done|].
  destruct (H1 (IoOther (Some 5)) ltac:(done)) as (x' & Hx'). by exists x, x'.
Defined.
