(* ===== verification/Compaction.v ===== *)
(** Compaction (crates/epoch-store/src/compact.rs) preserves what a shard reads:
    live blobs keep their bodies across the rebind, deletes survive it, including
    those that land while the copy is under way. *)

From S2P Require Import Prelude Ids Crc Record ExtentFile Rocks MetaMerge StoreIndex IndexRefine.
From S2P Require Import StoreOps StoreProps.

Section Compaction.
Context `{Crc32c} {RDB : RocksDb merge_meta}.

(** Two indexes agree outside one extent. *)
Definition agree_off (n : ExtentId) (a a' : AbsIndex) : Prop :=
  ai_bind a' = ai_bind a
  /\ (forall e, e <> n -> ai_meta a' !! e = ai_meta a !! e)
  /\ (forall e b, e <> n -> ai_blob a' !! (e, b) = ai_blob a !! (e, b)).

Lemma agree_off_refl n a : agree_off n a a.
Proof. done. Qed.
Lemma agree_off_trans n a1 a2 a3 : agree_off n a1 a2 -> agree_off n a2 a3 -> agree_off n a1 a3.
Proof.
  intros (B1 & M1 & L1) (B2 & M2 & L2). split_and!; [congruence|..]; intros.
  - by rewrite M2, M1.
  - by rewrite L2, L1.
Qed.
Lemma agree_off_append x e a : agree_off (xf_extent_id x) a (abs_append x e a).
Proof.
  split_and!; [done|..]; intros; cbn [abs_append abs_merge abs_put_blob ai_meta ai_blob].
  - by rewrite lookup_alter_ne.
  - by rewrite lookup_insert_ne by congruence.
Qed.
Lemma agree_off_merge n op a : agree_off n a (abs_merge n op a).
Proof. split_and!; [done| |done]. intros. cbn [abs_merge ai_meta]. by rewrite lookup_alter_ne. Qed.
Lemma agree_off_put_meta n m a : agree_off n a (abs_put_meta n m a).
Proof. split_and!; [done| |done]. intros. cbn [abs_put_meta ai_meta]. by rewrite lookup_insert_ne. Qed.

Definition live_bytes (l : list (BlobId * BlobIndex)) : Z := carry_bytes l.

(** The blob was copied: the destination holds it live with the source's body. *)
Definition copied (a' : AbsIndex) (new : ExtentId) (esd es : list entry) (b : BlobId) (i : BlobIndex)
    : Prop :=
  exists i' e e0, indexed_entry es b i e0 /\ ai_blob a' !! (new, b) = Some i'
    /\ is_tombstoned i' = false /\ bi_size i' = bi_size i
    /\ indexed_entry esd b i' e /\ en_body e = en_body e0.

Record copy_result (g g' : Engine) (a a' : AbsIndex) (dest dest' : ExtentFile) (es esd esd' : list entry)
    (live : list (BlobId * BlobIndex)) : Prop := {
  cpr_rep : rep (eg_index g') a';
  cpr_ok : extent_ok a' dest' esd';
  cpr_id : xf_extent_id dest' = xf_extent_id dest;
  cpr_agree : agree_off (xf_extent_id dest) a a';
  cpr_open : eg_open g' = eg_open g;
  cpr_trash : dk_trash (eg_disk g') = dk_trash (eg_disk g);
  cpr_files : dk_extents (eg_disk g) !! xf_extent_id dest = Some (xf_file dest) ->
    dk_extents (eg_disk g') = <[xf_extent_id dest := xf_file dest']> (dk_extents (eg_disk g));
  cpr_writable : exists m', ai_meta a' !! xf_extent_id dest = Some m' /\ em_status m' = ES_Writable
    /\ forall m, ai_meta a !! xf_extent_id dest = Some m -> em_shard_id m' = em_shard_id m;
  cpr_mono b i e : indexed_entry esd b i e -> indexed_entry esd' b i e;
  cpr_live b i : (b, i) ∈ live -> copied a' (xf_extent_id dest) esd' es b i;
  cpr_other b : b ∉ live.*1 ->
    ai_blob a' !! (xf_extent_id dest, b) = ai_blob a !! (xf_extent_id dest, b)
}.

Lemma carry_bytes_cons b i l :
  carry_bytes ((b, i) :: l) = record_on_disk_len (bi_size i) + carry_bytes l.
Proof. done. Qed.

(** One step of the copy: the record is read from the source and committed to the
    destination. *)
Lemma copy_step src xs es g a dest esd b i m :
  eid src -> xf_file xs = image src es -> Forall entry_wf es ->
  eg_open g !! src = Some xs -> rep (eg_index g) a -> extent_ok a dest esd ->
  ai_meta a !! xf_extent_id dest = Some m -> em_status m = ES_Writable ->
  is_u64 b -> (exists e, indexed_entry es b i e) -> ai_blob a !! (xf_extent_id dest, b) = None ->
  is_u64 (xf_write_offset dest + record_on_disk_len (bi_size i)) ->
  exists e0 e dest' g', indexed_entry es b i e0 /\ en_body e = en_body e0 /\ en_blob e = b
    /\ rep (eg_index g') (abs_append dest e a) /\ extent_ok (abs_append dest e a) dest' (esd ++ [e])
    /\ xf_extent_id dest' = xf_extent_id dest
    /\ xf_write_offset dest' = xf_write_offset dest + record_on_disk_len (bi_size i)
    /\ g' = set_disk (save dest' (eg_disk g)) (set_index (eg_index g') g)
    /\ (forall live, copy_live src ((b, i) :: live) dest g = copy_live src live dest' g').
Proof.
  intros Hsrc Hf Hes Ho Hr Hx Hm Hst Hb (e0 & He0) Hn Hu.
  pose proof He0 as (n & Hn0 & Heb & Hoff & Hsz & Hcrc).
  pose proof (Forall_lookup_1 _ _ _ _ Hes Hn0) as (_ & _ & Hl).
  destruct (write_blob_new (eg_index g) a dest esd b (en_body e0) m)
    as (index' & dest' & Hw & Hr' & Hx' & Hid' & Ho'); [done..|by rewrite Hst|done|done|by rewrite <- Hsz|].
  set (e := {| en_blob := b; en_shard := _; en_body := en_body e0 |}) in *.
  exists e0, e, dest', (set_disk (save dest' (eg_disk g)) (set_index index' g)).
  split_and!; try done; [by rewrite Hsz|]. intros live.
  cbn [copy_live]. unfold bind, gets, lift, modify. rewrite Ho. cbn [ok_or].
  rewrite Hoff. unfold entry_offset.
  rewrite (read_record_image xs src es n e0 []); [|by apply eid_len|done|done|by rewrite app_nil_r].
  cbn [map_err snd]. by rewrite Hw.
Qed.

Lemma copy_live_ok src xs es : eid src -> xf_file xs = image src es -> Forall entry_wf es ->
  forall live g a dest esd m,
  eg_open g !! src = Some xs -> rep (eg_index g) a -> extent_ok a dest esd ->
  ai_meta a !! xf_extent_id dest = Some m -> em_status m = ES_Writable ->
  NoDup live.*1 ->
  (forall b i, (b, i) ∈ live -> is_u64 b /\ BlobIndex_wf i /\ (exists e, indexed_entry es b i e)
     /\ ai_blob a !! (xf_extent_id dest, b) = None) ->
  is_u64 (xf_write_offset dest + live_bytes live) ->
  exists g' dest' a' esd', copy_live src live dest g = (g', Ok dest')
    /\ copy_result g g' a a' dest dest' es esd esd' live
    /\ xf_write_offset dest' = xf_write_offset dest + live_bytes live.
Proof.
  intros Hsrc Hf Hes live.
  induction live as [|[b i] live IH]; intros g a dest esd m Ho Hr Hx Hm Hst Hnd Hlive Hu.
  { exists g, dest, a, esd. split; [done|]. split; [|cbn; lia]. split; try done; [|exists m; split_and!; [done..|congruence]|].
    - intros E. by rewrite insert_id.
    - by intros ? ? ?%not_elem_of_nil. }
  apply NoDup_cons in Hnd as [Hbn Hnd]. fold (live.*1) in Hnd.
  destruct (Hlive b i) as (Hb & Hwf & Hie & Hnone); [by left|].
  assert (0 <= live_bytes live /\ 0 <= record_on_disk_len (bi_size i) /\ 0 <= xf_write_offset dest)
    as (Hp1 & Hp2 & Hp3).
  { split_and!.
    - apply carry_bytes_nonneg. unfold blobs_wf. rewrite Forall_forall. intros [b' i'] Hin.
      by destruct (Hlive b' i') as (? & ? & _); [by right|].
    - destruct Hwf as (_ & Hs & _). pose proof (record_on_disk_len_u64 _ Hs). lia.
    - destruct Hx as (_ & (_ & _ & ->) & _). apply len_nonneg. }
  unfold live_bytes in *. rewrite carry_bytes_cons in *.
  destruct (copy_step src xs es g a dest esd b i m)
    as (e0 & e & dest1 & g1 & He0 & Hbody & Heb & Hr1 & Hx1 & Hid1 & Ho1 & Hg1 & Hstep);
    [done..|unfold uint in *; lia|].
  set (a1 := abs_append dest e a) in *.
  assert (ai_blob a1 !! (xf_extent_id dest, b) = Some (BlobIndex_new (xf_write_offset dest)
            (len (en_body e)) (body_crc (en_body e)))) as Hnew.
  { unfold a1. cbn [abs_append abs_merge abs_put_blob ai_blob]. rewrite Heb. apply lookup_insert_eq. }
  destruct (IH g1 a1 dest1 (esd ++ [e]) (MetaMergeOp_apply (SetSize (xf_write_offset dest + entry_len e)) m))
    as (g' & dest' & a' & esd' & Hcl & Hres & Hoff').
  - by rewrite Hg1.
  - done.
  - done.
  - rewrite Hid1. unfold a1. cbn [abs_append abs_merge abs_put_blob ai_meta].
    by rewrite lookup_alter_eq, Hm.
  - done.
  - done.
  - intros b' i' Hin. destruct (Hlive b' i') as (? & ? & ? & Hn'); [by right|].
    split_and!; try done. rewrite Hid1. unfold a1. cbn [abs_append abs_merge abs_put_blob ai_blob].
    rewrite lookup_insert_ne; [done|]. rewrite Heb. intros [= <-]. apply Hbn, list_elem_of_fmap.
    by exists (b, i').
  - rewrite Ho1. by rewrite <- Z.add_assoc.
  - exists g', dest', a', esd'. split_and!; [by rewrite Hstep| |lia].
    destruct Hres as [R1 R2 R3 R4 R5 R6 R7 R8 R9 R10 R11]. rewrite Hid1 in *. split; try done.
    + eapply agree_off_trans; [apply agree_off_append|exact R4].
    + by rewrite R5, Hg1.
    + by rewrite R6, Hg1.
    + intros E. rewrite R7; rewrite Hg1; cbn [eg_disk set_disk save dk_extents]; rewrite ?Hid1.
      * apply insert_insert_eq.
      * apply lookup_insert_eq.
    + destruct R8 as (m' & Hm' & Hst' & Hsh'). exists m'. split_and!; [done..|]. intros m0 Hm0. rewrite Hm in Hm0. injection Hm0 as <-.
      apply (Hsh' (MetaMergeOp_apply (SetSize (xf_write_offset dest + entry_len e)) m)). unfold a1. cbn [abs_append abs_merge abs_put_blob ai_meta].
      by rewrite lookup_alter_eq, Hm.
    + intros b' i' e' Hie'. by apply R9, indexed_entry_snoc.
    + intros b' i' Hin. apply elem_of_cons in Hin as [[= -> ->]|Hin]; [|by apply R10].
      do 2 eexists. exists e0. split_and!; [exact He0|by rewrite R11|done| |apply R9|done].
      * destruct He0 as (_ & _ & _ & _ & -> & _). by rewrite <- Hbody.
      * rewrite <- Heb. by apply indexed_entry_last; apply Hx.
    + intros b' Hb'. cbn [fmap list_fmap fst] in Hb'. apply not_elem_of_cons in Hb' as [Hne Hb'].
      rewrite R11 by done. unfold a1. cbn [abs_append abs_merge abs_put_blob ai_blob].
      rewrite lookup_insert_ne; [done|]. rewrite Heb. congruence.
Qed.

(** ** Steps 1 to 3 *)

Lemma carry_bytes_filter (P : BlobId * BlobIndex -> Prop) `{!forall x, Decision (P x)} l :
  blobs_wf l -> 0 <= carry_bytes (filter P l) <= carry_bytes l /\ blobs_wf (filter P l).
Proof.
  induction 1 as [|[b i] l [Hb Hi] Hl IH]; [split; [cbn; lia|constructor]|].
  pose proof (carry_bytes_nonneg l Hl). destruct Hi as (? & Hs & ? & ?).
  pose proof (record_on_disk_len_u64 (bi_size i) Hs).
  rewrite filter_cons. rewrite (carry_bytes_cons b i l). case_decide.
  - rewrite carry_bytes_cons. split; [lia|]. constructor; [done|tauto].
  - split; [lia|tauto].
Qed.
Lemma NoDup_filter_fst (P : BlobId * BlobIndex -> Prop) `{!forall x, Decision (P x)} l :
  NoDup l.*1 -> NoDup (filter P l).*1.
Proof. intros Hn. eapply sublist_NoDup; [exact Hn|]. apply fmap_sublist, sublist_filter. Qed.

(** What compaction is started on: an open, bound extent that takes or paused
    writes, and an unused destination id. *)
Record compact_pre (g : Engine) (a : AbsIndex) (xs : ExtentFile) (es : list entry) (m : ExtentMeta)
    (ts : Z) : Prop := {
  cp_rep : rep (eg_index g) a;
  cp_ok : extent_ok a xs es;
  cp_open : eg_open g !! xf_extent_id xs = Some xs;
  cp_file : dk_extents (eg_disk g) !! xf_extent_id xs = Some (xf_file xs);
  cp_bound : ai_bind a !! ShardId_shard_prefix (ExtentId_shard_id (xf_extent_id xs))
             = Some (xf_extent_id xs);
  cp_meta : ai_meta a !! xf_extent_id xs = Some m;
  cp_status : em_status m = ES_Writable \/ em_status m = ES_Full;
  cp_ts : is_i64 ts;
  cp_new_file : dk_extents (eg_disk g) !! ExtentId_new (ExtentId_shard_id (xf_extent_id xs)) ts = None;
  cp_new_meta : ai_meta a !! ExtentId_new (ExtentId_shard_id (xf_extent_id xs)) ts = None;
  cp_new_blob b : ai_blob a !! (ExtentId_new (ExtentId_shard_id (xf_extent_id xs)) ts, b) = None;
  cp_extent_size : dk_extent_size (eg_disk g) < 2 ^ 63;
  cp_bytes l : list_blobs (eg_index g) (xf_extent_id xs) = Ok l ->
    is_u64 (EXTENT_HEADER_LEN + carry_bytes l)
}.

(** The state between the copy and the commit. *)
Record copy_done (g g1 : Engine) (a a1 : AbsIndex) (src new : ExtentId) (m : ExtentMeta)
    (es esd : list entry) (live : list (BlobId * BlobIndex)) (dest : ExtentFile) : Prop := {
  cd_rep : rep (eg_index g1) a1;
  cd_ok : extent_ok a1 dest esd;
  cd_id : xf_extent_id dest = new;
  cd_bind : ai_bind a1 = ai_bind a;
  cd_src_meta : ai_meta a1 !! src = Some (MetaMergeOp_apply (SetStatus ES_Full) m);
  cd_new_meta : exists m', ai_meta a1 !! new = Some m' /\ em_status m' = ES_Writable /\ em_shard_id m' = ExtentId_shard_id src;
  cd_meta e : e <> src -> e <> new -> ai_meta a1 !! e = ai_meta a !! e;
  cd_blob e b : e <> new -> ai_blob a1 !! (e, b) = ai_blob a !! (e, b);
  cd_open : eg_open g1 = eg_open g;
  cd_files : dk_extents (eg_disk g1) = <[new := xf_file dest]> (dk_extents (eg_disk g));
  cd_live_elem b i : (b, i) ∈ live <->
    is_u64 b /\ ai_blob a !! (src, b) = Some i /\ is_tombstoned i = false;
  cd_live_nodup : NoDup live.*1;
  cd_live_bytes : 0 <= carry_bytes live /\ is_u64 (EXTENT_HEADER_LEN + carry_bytes live);
  cd_copied b i : (b, i) ∈ live -> copied a1 new esd es b i;
  cd_absent b : b ∉ live.*1 -> ai_blob a1 !! (new, b) = None
}.

Lemma compact_copy_ok g a xs es m ts :
  compact_pre g a xs es m ts ->
  exists g1 a1 live dest esd,
    compact_copy (xf_extent_id xs) ts g = (g1, Ok (m, live, dest))
    /\ copy_done g g1 a a1 (xf_extent_id xs)
         (ExtentId_new (ExtentId_shard_id (xf_extent_id xs)) ts) m es esd live dest.
Proof.
  intros [Hr Hx Hopen Hfile Hbound Hm Hst Hts Hnf Hnm Hnb Hes Hbytes].
  set (src := xf_extent_id xs) in *. set (new := ExtentId_new _ ts) in *.
  pose proof Hx as (Hsrc & (_ & Hf & _) & Hwf & _ & Hbl). fold src in Hsrc, Hf, Hbl.
  assert (eid new) as Hnew by (apply ExtentId_new_eid; [by apply ExtentId_shard_id_u64|done]).
  assert (new <> src) as Hne by congruence.
  destruct (list_blobs_rep (eg_index g) a src Hr Hsrc) as (l & Hl & Hsort & Hel).
  specialize (Hbytes l Hl). apply sorted_lt_NoDup in Hsort.
  assert (blobs_wf l) as Hlwf.
  { unfold blobs_wf. rewrite Forall_forall. intros [b i] Hin. apply Hel in Hin as [Hb Hi].
    split; [done|]. by apply (rep_blob_readable (eg_index g) a src b i). }
  pose proof (set_extent_status_rep (eg_index g) a src ES_Full Hr Hsrc) as Hset.
  rewrite Hm in Hset. destruct Hset as (d1 & Hset & Hr1).
  destruct (create_represents new) as (dest0 & Hcreate & Hrep0); [by apply eid_len|].
  pose proof Hrep0 as (Hid0 & Hf0 & Ho0). rewrite len_image in Ho0 by by apply eid_len.
  set (nm := {| em_shard_id := ExtentId_shard_id src; em_status := ES_Writable;
                em_size := xf_write_offset dest0; em_deleted_bytes := 0; em_create_ts := ts |}).
  set (a2 := abs_put_meta new nm (abs_merge src (SetStatus ES_Full) a)).
  set (g2 := set_index (put_extent_meta d1 new nm)
               (set_disk (save dest0 (eg_disk g)) (set_index d1 g))).
  assert (rep (eg_index g2) a2) as Hr2.
  { apply put_extent_meta_rep; [done..|]. unfold nm.
    split_and!; cbn [em_shard_id em_size em_deleted_bytes em_create_ts]; try done.
    - by apply ExtentId_shard_id_u64.
    - by rewrite Ho0. }
  assert (extent_ok a2 dest0 []) as Hx2.
  { split_and!; rewrite ?Hid0; [done|done|constructor| |].
    - exists nm. split; [apply lookup_insert_eq|done].
    - intros b i. cbn [a2 abs_put_meta abs_merge ai_blob]. by rewrite Hnb. }
  destruct (carry_bytes_filter (fun bi : BlobId * BlobIndex => is_tombstoned bi.2 = false) l Hlwf)
    as [Hlb Hliwf]. fold (live_of l) in Hlb, Hliwf.
  destruct (copy_live_ok src xs es Hsrc Hf Hwf (live_of l) g2 a2 dest0 [] nm)
    as (g1 & dest & a1 & esd & Hcl & [R1 R2 R3 R4 R5 R6 R7 R8 R9 R10 R11] & _).
  - done.
  - done.
  - done.
  - rewrite Hid0. apply lookup_insert_eq.
  - done.
  - by apply NoDup_filter_fst.
  - intros b i Hin. pose proof (proj1 (Forall_forall _ _) Hliwf _ Hin) as [Hb Hi].
    apply list_elem_of_filter in Hin as [_ Hin]. apply Hel in Hin as [_ Hin].
    split_and!; [done..|by apply Hbl|]. rewrite Hid0. apply Hnb.
  - rewrite Ho0. unfold live_bytes, uint, EXTENT_HEADER_LEN in *. cbn [entries_len foldr]. lia.
  - exists g1, a1, (live_of l), dest, esd. rewrite Hid0 in *. split.
    { unfold compact_copy, bind, gets, lift, modify, ret, require_meta.
      rewrite (get_extent_meta_rep (eg_index g) a) by done. rewrite Hm. cbn [map_err ok_or].
      destruct Hst as [->| ->]; cbn [map_err];
        rewrite Hl; cbn [map_err]; rewrite Hset; cbn [map_err eg_disk set_index];
        fold new; rewrite Hnf, Hcreate; cbn [map_err]; unfold preallocate;
        (rewrite (proj2 (Z.leb_gt _ _)) by done); cbn [map_err eg_index set_disk];
        change (eg_index (set_index d1 g)) with d1; fold nm; fold g2; by rewrite Hcl. }
    assert (exists m', ai_meta a1 !! new = Some m' /\ em_status m' = ES_Writable /\ em_shard_id m' = ExtentId_shard_id src) as R8'.
    { destruct R8 as (m' & Hm' & Hst' & Hsh'). exists m'. split_and!; [done..|]. rewrite (Hsh' nm); [done|]. apply lookup_insert_eq. }
    destruct R4 as (B & M & L). split; try done; try exact R8'.
    + rewrite M by done. cbn [a2 abs_put_meta abs_merge ai_meta].
      by rewrite lookup_insert_ne, lookup_alter_eq, Hm by done.
    + intros e Hes1 Hes2. rewrite M by done. cbn [a2 abs_put_meta abs_merge ai_meta].
      by rewrite lookup_insert_ne, lookup_alter_ne by done.
    + rewrite R7; cbn [g2 eg_disk set_index set_disk save dk_extents]; rewrite Hid0.
      * apply insert_insert_eq.
      * apply lookup_insert_eq.
    + intros b i. unfold live_of. rewrite list_elem_of_filter, Hel. cbn [snd]. tauto.
    + by apply NoDup_filter_fst.
    + split; [lia|]. unfold uint, EXTENT_HEADER_LEN in *. lia.
    + intros b Hb. rewrite R11 by done. apply Hnb.
Qed.

(** ** Deletes between the copy and the commit *)

Fixpoint delete_all (index : rdb) (src : ExtentId) (ds : list BlobId) : result StoreError rdb :=
  match ds with
  | [] => Ok index
  | b :: ds => r <-? delete_blocking index src b ;; delete_all r.1 src ds
  end.
(** A tombstoned entry, once. *)
Definition tomb (i : BlobIndex) : BlobIndex := if is_tombstoned i then i else set_tombstone i.
Lemma tomb_tombstoned i : is_tombstoned (tomb i) = true.
Proof. unfold tomb. destruct (is_tombstoned i) eqn:E; [done|]. apply set_tombstone_tombstoned. Qed.
Lemma tomb_tomb i : tomb (tomb i) = tomb i.
Proof. unfold tomb at 1. by rewrite tomb_tombstoned. Qed.
Lemma indexed_entry_tomb es b i e : indexed_entry es b i e -> indexed_entry es b (tomb i) e.
Proof. unfold tomb. by destruct (is_tombstoned i). Qed.

Definition tombed (ds : list BlobId) (b : BlobId) (i : BlobIndex) : BlobIndex :=
  if decide (b ∈ ds) then tomb i else i.

Lemma tombed_one b b' i : tombed [b] b' i = if decide (b' = b) then tomb i else i.
Proof.
  unfold tombed. destruct (decide (b' = b)) as [->|Hne].
  - rewrite decide_True; [done|by left].
  - rewrite decide_False; [done|]. by intros ?%list_elem_of_singleton.
Qed.
Lemma tombed_cons b ds b' i : tombed (b :: ds) b' i = tombed ds b' (tombed [b] b' i).
Proof.
  rewrite tombed_one. unfold tombed.
  destruct (decide (b' = b)) as [->|Hne].
  - rewrite decide_True by (by left). case_decide; [by rewrite tomb_tomb|done].
  - destruct (decide (b' ∈ ds)); [rewrite decide_True; [done|by right]|].
    rewrite decide_False; [done|]. rewrite elem_of_cons. tauto.
Qed.

(** One delete on the bound extent. *)
Lemma delete_one_ok src b index a : eid src -> is_u64 b ->
  rep index a -> is_Some (ai_meta a !! src) ->
  ai_bind a !! ShardId_shard_prefix (ExtentId_shard_id src) = Some src ->
  exists d' r a1, delete_blocking index src b = Ok (d', r) /\ rep d' a1 /\ agree_off src a a1
    /\ is_Some (ai_meta a1 !! src)
    /\ (forall b', ai_blob a1 !! (src, b') = tombed [b] b' <$> ai_blob a !! (src, b')).
Proof.
  intros Hsrc Hb Hr [m Hm] Hbind. unfold delete_blocking.
  rewrite (get_shard_binding_rep index a) by (done || by apply ExtentId_shard_id_u64).
  rewrite Hbind. cbn [map_err]. change (default src (Some src)) with src.
  pose proof (tombstone_blob_rep index a src b m Hr Hsrc Hb Hm) as Ht.
  destruct (ai_blob a !! (src, b)) as [i|] eqn:Ei; [destruct (is_tombstoned i) eqn:Et|].
  - rewrite Ht. exists index, false, a. split_and!; try done. intros b'.
    destruct (ai_blob a !! (src, b')) as [i'|] eqn:Ei'; [|done]. cbn. rewrite tombed_one.
    case_decide; [|done]. subst b'. unfold tomb. rewrite Ei in Ei'. injection Ei' as <-. by rewrite Et.
  - destruct Ht as (d' & -> & Hr1). exists d', true, (abs_tombstone src b i a). split_and!; try done.
    + split_and!; [done|..]; intros; cbn [abs_tombstone abs_merge abs_put_blob ai_meta ai_blob].
      * by rewrite lookup_alter_ne.
      * by rewrite lookup_insert_ne by congruence.
    + cbn [abs_tombstone abs_merge abs_put_blob ai_meta]. rewrite lookup_alter_is_Some. by eexists.
    + intros b'. cbn [abs_tombstone abs_merge abs_put_blob ai_blob].
      destruct (decide (b' = b)) as [->|Hne].
      * rewrite lookup_insert_eq, Ei. cbn. rewrite tombed_one, decide_True by done.
        unfold tomb. by rewrite Et.
      * rewrite lookup_insert_ne by congruence. destruct (ai_blob a !! (src, b')) as [i'|]; [|done].
        cbn. by rewrite tombed_one, decide_False.
  - rewrite Ht. exists index, false, a. split_and!; try done. intros b'.
    destruct (decide (b' = b)) as [->|Hne]; [by rewrite Ei|].
    destruct (ai_blob a !! (src, b')) as [i'|]; [|done]. cbn. by rewrite tombed_one, decide_False.
Qed.

Lemma delete_all_ok src ds : eid src -> Forall is_u64 ds -> forall index a,
  rep index a -> is_Some (ai_meta a !! src) ->
  ai_bind a !! ShardId_shard_prefix (ExtentId_shard_id src) = Some src ->
  exists index' a', delete_all index src ds = Ok index' /\ rep index' a' /\ agree_off src a a'
    /\ is_Some (ai_meta a' !! src)
    /\ (forall b, ai_blob a' !! (src, b) = tombed ds b <$> ai_blob a !! (src, b)).
Proof.
  intros Hsrc Hds. induction Hds as [|b ds Hb _ IH]; intros index a Hr Hm Hbind.
  { exists index, a. split_and!; try done. intros b. by destruct (ai_blob a !! (src, b)). }
  cbn [delete_all].
  destruct (delete_one_ok src b index a) as (d' & r & a1 & -> & Hr1 & Ha1 & Hm1 & Hb1); [done..|].
  cbn [fst]. destruct (IH d' a1 Hr1 Hm1) as (index' & a' & -> & Hr' & Ha' & Hm' & Hb').
  { destruct Ha1 as [-> _]. done. }
  exists index', a'. split_and!; try done; [by eapply agree_off_trans|].
  intros b'. rewrite Hb', Hb1. destruct (ai_blob a !! (src, b')) as [i|]; [|done].
  cbn [fmap option_fmap option_map]. by rewrite (tombed_cons b ds b' i).
Qed.

(** ** Steps 4 and 5 *)

(** A selection of distinct blobs is no larger than what it selects from. *)
Lemma carry_bytes_sub (l1 l2 : list (BlobId * BlobIndex)) :
  blobs_wf l2 -> NoDup l1.*1 ->
  (forall b i1, (b, i1) ∈ l1 -> exists i2, (b, i2) ∈ l2 /\ bi_size i1 = bi_size i2) ->
  carry_bytes l1 <= carry_bytes l2.
Proof.
  revert l2. induction l1 as [|[b i1] l1 IH]; intros l2 Hwf Hnd Hin.
  { by apply carry_bytes_nonneg. }
  apply NoDup_cons in Hnd as [Hb Hnd]. destruct (Hin b i1) as (i2 & Hi2 & Hs); [by left|].
  apply list_elem_of_split in Hi2 as (k1 & k2 & ->).
  assert (forall k, carry_bytes (k ++ (b, i2) :: k2)
            = record_on_disk_len (bi_size i2) + carry_bytes (k ++ k2)) as Hsum.
  { induction k as [|[b' i'] k IHk]; [done|]. cbn [app]. rewrite !carry_bytes_cons, IHk. lia. }
  rewrite carry_bytes_cons, Hsum, Hs. apply Z.add_le_mono_l, IH.
  - apply Forall_app in Hwf as [? [_ ?]%Forall_cons_1]. by apply Forall_app.
  - done.
  - intros b' i' Hb'. destruct (Hin b' i') as (i'' & Hi'' & Hs'); [by right|]. exists i''. split; [|done].
    assert (b' <> b) as Hne by (intros ->; apply Hb, list_elem_of_fmap; by exists (b, i')).
    rewrite elem_of_app, elem_of_cons in Hi''. rewrite elem_of_app.
    destruct Hi'' as [?|[[= ? ?]|?]]; [by left|done|by right].
Qed.

Lemma to_carry_elem a e carried b i :
  (b, i) ∈ to_carry a e carried <->
  b ∈ carried /\ exists i0, ai_blob a !! (e, b) = Some i0 /\ is_tombstoned i0 = false
    /\ i = set_tombstone i0.
Proof.
  unfold to_carry. rewrite list_elem_of_omap. split.
  - intros (b' & Hb' & E). destruct (ai_blob a !! (e, b')) as [i0|] eqn:Ei; [|done].
    destruct (is_tombstoned i0) eqn:Et; [done|]. injection E as -> <-. split; [done|]. by exists i0.
  - intros (Hb & i0 & Hi & Ht & ->). exists b. by rewrite Hi, Ht.
Qed.
Lemma to_carry_nodup a e carried : NoDup carried -> NoDup (to_carry a e carried).*1.
Proof.
  intros Hn. eapply sublist_NoDup; [exact Hn|]. clear.
  induction carried as [|b carried IH]; [done|]. unfold to_carry in *. cbn [omap list_omap].
  destruct (ai_blob a !! (e, b)) as [i|]; [|by apply sublist_cons].
  destruct (is_tombstoned i); [by apply sublist_cons|]. by apply sublist_skip.
Qed.

Lemma abs_put_blobs_other e bs a e' b :
  e' <> e -> ai_blob (abs_put_blobs e bs a) !! (e', b) = ai_blob a !! (e', b).
Proof.
  intros Hne. revert a. induction bs as [|[b' i'] bs IH]; intros a; [done|].
  change (abs_put_blobs e ((b', i') :: bs) a) with (abs_put_blobs e bs (abs_put_blob e b' i' a)).
  rewrite IH. cbn [abs_put_blob ai_blob]. by rewrite lookup_insert_ne by congruence.
Qed.

(** The abstract effect of the swap on blobs and bindings. *)
Lemma abs_swap_blob_new s new old carried a b : NoDup carried ->
  ai_blob (abs_swap s new old carried a) !! (new, b)
  = tombed carried b <$> ai_blob a !! (new, b).
Proof.
  intros Hnd. unfold abs_swap.
  assert (forall (c : bool) x y, ai_blob (if c then abs_merge new x y else y) = ai_blob y) as Hif
    by (intros []; done).
  rewrite Hif. set (bs := to_carry a new carried).
  destruct (decide (b ∈ bs.*1)) as [Hin|Hnin].
  - apply list_elem_of_fmap in Hin as ([b' i] & -> & Hin). cbn [fst].
    pose proof Hin as (Hc & i0 & Hi0 & Ht & ->)%to_carry_elem. rewrite Hi0. cbn. unfold tombed.
    rewrite decide_True by done. unfold tomb. rewrite Ht.
    apply list_elem_of_split in Hin as (k1 & k2 & E). rewrite E. apply abs_put_blobs_last.
    pose proof (to_carry_nodup a new carried Hnd) as Hnd'. fold bs in Hnd'. rewrite E in Hnd'.
    rewrite fmap_app, NoDup_app in Hnd'. destruct Hnd' as (_ & _ & Hnd').
    cbn [fmap list_fmap fst] in Hnd'. by apply NoDup_cons in Hnd' as [? _].
  - rewrite abs_put_blobs_notin by done. cbn [abs_merge abs_bind ai_blob].
    destruct (ai_blob a !! (new, b)) as [i|] eqn:Ei; [|done]. cbn. unfold tombed.
    case_decide as Hc; [|done]. unfold tomb. destruct (is_tombstoned i) eqn:Et; [done|].
    destruct Hnin. apply list_elem_of_fmap. exists (b, set_tombstone i). split; [done|].
    apply to_carry_elem. split; [done|]. by exists i.
Qed.
Lemma abs_swap_other s new old carried a :
  ai_bind (abs_swap s new old carried a) = <[ShardId_shard_prefix s := new]> (ai_bind a)
  /\ (forall e b, e <> new -> ai_blob (abs_swap s new old carried a) !! (e, b) = ai_blob a !! (e, b))
  /\ (forall e, e <> new -> e <> old ->
        ai_meta (abs_swap s new old carried a) !! e = ai_meta a !! e)
  /\ (forall m, new <> old -> ai_meta a !! new = Some m -> exists m',
        ai_meta (abs_swap s new old carried a) !! new = Some m'
        /\ em_size m' = em_size m /\ em_status m' = em_status m /\ em_shard_id m' = em_shard_id m).
Proof.
  unfold abs_swap. set (bs := to_carry a new carried).
  assert (forall e, ai_meta (abs_put_blobs new bs (abs_merge old (SetStatus ES_Dropped) (abs_bind s new a))) !! e
     = alter (MetaMergeOp_apply (SetStatus ES_Dropped)) old (ai_meta a) !! e) as Hmeta
    by (intros; by rewrite abs_put_blobs_meta).
  split_and!.
  - destruct (0 <? carry_bytes bs); cbn [abs_merge ai_bind]; by rewrite abs_put_blobs_bind.
  - intros e b Hne. destruct (0 <? carry_bytes bs); cbn [abs_merge ai_blob];
      by rewrite abs_put_blobs_other by done.
  - intros e H1 H2. destruct (0 <? carry_bytes bs); cbn [abs_merge ai_meta];
      rewrite ?lookup_alter_ne by done; by rewrite Hmeta, lookup_alter_ne.
  - intros m Hne Hm. destruct (0 <? carry_bytes bs); cbn [abs_merge ai_meta].
    + rewrite lookup_alter_eq, Hmeta, lookup_alter_ne, Hm by done. by eexists.
    + rewrite Hmeta, lookup_alter_ne, Hm by done. by eexists.
Qed.

(** The state the commit starts from: the copy, then deletes of the source. *)
Record commit_pre (g2 : Engine) (a a1 a2 : AbsIndex) (src new : ExtentId) (es esd : list entry)
    (live : list (BlobId * BlobIndex)) (dest : ExtentFile) (ds : list BlobId) (fs : list Z) : Prop := {
  cm_rep : rep (eg_index g2) a2;
  cm_src : eid src;
  cm_new : eid new;
  cm_ne : new <> src;
  cm_id : xf_extent_id dest = new;
  cm_ok1 : extent_ok a1 dest esd;
  cm_agree : agree_off src a1 a2;
  cm_meta : is_Some (ai_meta a2 !! src);
  cm_blob b : ai_blob a2 !! (src, b) = tombed ds b <$> ai_blob a !! (src, b);
  cm_live b i : (b, i) ∈ live <-> is_u64 b /\ ai_blob a !! (src, b) = Some i /\ is_tombstoned i = false;
  cm_nodup : NoDup live.*1;
  cm_wf : blobs_wf live;
  cm_bytes : is_u64 (carry_bytes live);
  cm_copied b i : (b, i) ∈ live -> copied a1 new esd es b i;
  cm_absent b : b ∉ live.*1 -> ai_blob a1 !! (new, b) = None;
  cm_file_src : dk_extents (eg_disk g2) !! src = Some fs;
  cm_file_new : dk_extents (eg_disk g2) !! new = Some (xf_file dest)
}.

Lemma compact_commit_ok g2 a a1 a2 src new es esd live dest ds fs m :
  commit_pre g2 a a1 a2 src new es esd live dest ds fs ->
  exists g' a', compact_commit src m live dest g2
      = (g', Ok {| co_new_extent := new; co_live_blobs := len live;
                   co_reclaimed_bytes := saturating_sub (em_size m) (xf_write_offset dest) |})
    /\ rep (eg_index g') a' /\ extent_ok a' dest esd
    /\ ai_bind a' = <[ShardId_shard_prefix (ExtentId_shard_id src) := new]> (ai_bind a2)
    /\ ai_meta a' !! src = None
    /\ dk_extents (eg_disk g') = delete src (dk_extents (eg_disk g2))
    /\ dk_trash (eg_disk g') = <[src := fs]> (dk_trash (eg_disk g2))
    /\ (forall e, e <> src -> e <> new -> ai_meta a' !! e = ai_meta a2 !! e)
    /\ (forall e b, e <> src -> e <> new -> ai_blob a' !! (e, b) = ai_blob a2 !! (e, b))
    /\ (exists m', ai_meta a' !! new = Some m' /\ forall mn, ai_meta a2 !! new = Some mn -> em_status m' = em_status mn /\ em_shard_id m' = em_shard_id mn)
    /\ (forall b, ai_blob a' !! (src, b) = None)
    /\ exists carried, (forall b, b ∈ carried <-> is_u64 b /\ exists i,
           ai_blob a2 !! (src, b) = Some i /\ is_tombstoned i = true)
         /\ (forall b, ai_blob a' !! (new, b) = tombed carried b <$> ai_blob a1 !! (new, b)).
Proof.
  intros [Hr Hsrc Hnew Hne Hid Hok (Hbind & Hmeta & Hblob) [m2 Hm2] Hb2 Hlive Hnd Hwf Hbytes Hcop Habs
          Hfs Hfn].
  destruct (list_blobs_rep (eg_index g2) a2 src Hr Hsrc) as (l & Hl & Hsort & Hel).
  apply sorted_lt_NoDup in Hsort. set (carried := tombstoned_of l).
  assert (NoDup carried) as Hcnd by by apply NoDup_filter_fst.
  assert (forall b, b ∈ carried <-> is_u64 b /\ exists i, ai_blob a2 !! (src, b) = Some i
            /\ is_tombstoned i = true) as Hcel.
  { intros b. unfold carried, tombstoned_of. rewrite list_elem_of_fmap. split.
    - intros ([b' i] & -> & [Ht Hin]%list_elem_of_filter). apply Hel in Hin as [? ?]. cbn [fst snd] in *.
      split; [done|]. by exists i.
    - intros (Hb & i & Hi & Ht). exists (b, i). split; [done|]. apply list_elem_of_filter.
      split; [done|]. by apply Hel. }
  assert (forall b, ai_blob a2 !! (new, b) = ai_blob a1 !! (new, b)) as Hnb by (intros; by apply Hblob).
  pose proof Hok as (_ & Hrepd & Hesd & (mn & Hmn & Hsz) & Hbl). rewrite Hid in Hmn, Hbl.
  assert (ai_meta a2 !! new = Some mn) as Hmn2 by (by rewrite Hmeta).
  assert (carry_bytes (to_carry a2 new carried) <= carry_bytes live) as Hcb.
  { apply carry_bytes_sub; [done|by apply to_carry_nodup|]. intros b i1 Hin.
    apply to_carry_elem in Hin as (_ & i0 & Hi0 & _ & ->). rewrite Hnb in Hi0.
    destruct (decide (b ∈ live.*1)) as [Hin|Hnin]; [|by rewrite Habs in Hi0].
    apply list_elem_of_fmap in Hin as ([b' i2] & -> & Hin). exists i2. split; [done|].
    destruct (Hcop _ _ Hin) as (i' & ? & ? & _ & Hi' & _ & Hs & _). cbn [fst] in *.
    rewrite Hi0 in Hi'. by injection Hi' as <-. }
  assert (Forall is_u64 carried) as Hcu by (rewrite Forall_forall; intros b [? _]%Hcel; done).
  destruct (swap_shard_binding_with_rep (eg_index g2) a2 (ExtentId_shard_id src) new src carried m2 mn)
    as (d3 & Hswap & Hr3); [done|by apply ExtentId_shard_id_u64|done..| |].
  { pose proof (to_carry_wf (eg_index g2) a2 new carried Hr Hnew Hcu) as Hw.
    pose proof (carry_bytes_nonneg _ Hw). unfold uint in *. lia. }
  destruct (abs_swap_other (ExtentId_shard_id src) new src carried a2) as (Sb & Sl & Sm & Sn).
  destruct (Sn mn Hne Hmn2) as (mn' & Hmn' & Hsz' & Hst' & Hsh').
  set (a3 := abs_swap (ExtentId_shard_id src) new src carried a2) in *.
  assert (forall b, ai_blob (abs_remove src a3) !! (new, b) = tombed carried b <$> ai_blob a1 !! (new, b))
    as Hfin.
  { intros b. rewrite abs_remove_blob, decide_False by done. unfold a3.
    by rewrite abs_swap_blob_new, Hnb. }
  do 2 eexists. split.
  { unfold compact_commit, bind, gets, lift, modify, ret. rewrite Hl. cbn [map_err].
    fold carried. rewrite Hid, Hswap. cbn [map_err]. unfold reclaim_extent, bind, gets, lift, modify, ret.
    cbn [eg_disk eg_open set_open set_index]. unfold move_extent_to_trash. rewrite Hfs. reflexivity. }
  cbn [eg_index eg_disk set_index set_open set_disk dk_extents dk_trash].
  split; [by apply remove_extent_rep|]. split.
  { split_and!; rewrite ?Hid; try done.
    - by rewrite Hid in Hrepd.
    - exists mn'. split; [|congruence]. unfold abs_remove; cbn [ai_meta]. by rewrite lookup_delete_ne.
    - intros b i. rewrite Hfin. destruct (ai_blob a1 !! (new, b)) as [i1|] eqn:Ei; [|done].
      intros [= <-]. destruct (Hbl b i1 Ei) as (e & He). exists e. unfold tombed.
      case_decide; [by apply indexed_entry_tomb|done]. }
  split_and!; try done.
  - unfold abs_remove; cbn [ai_meta]. apply lookup_delete_eq.
  - intros e H1 H2. unfold abs_remove; cbn [ai_meta]. rewrite lookup_delete_ne by done. by apply Sm.
  - intros e b H1 H2. rewrite abs_remove_blob, decide_False by done. by apply Sl.
  - exists mn'. split; [unfold abs_remove; cbn [ai_meta]; by rewrite lookup_delete_ne|]. intros mn0 Hmn0. rewrite Hmn2 in Hmn0. by injection Hmn0 as <-.
  - intros b. by rewrite abs_remove_blob, decide_True.
  - by exists carried.
Qed.

Lemma copy_done_commit_pre g g1 a a1 a2 xs es esd m ts live dest ds index2 :
  compact_pre g a xs es m ts ->
  copy_done g g1 a a1 (xf_extent_id xs) (ExtentId_new (ExtentId_shard_id (xf_extent_id xs)) ts) m
    es esd live dest ->
  rep index2 a2 -> agree_off (xf_extent_id xs) a1 a2 -> is_Some (ai_meta a2 !! xf_extent_id xs) ->
  (forall b, ai_blob a2 !! (xf_extent_id xs, b) = tombed ds b <$> ai_blob a1 !! (xf_extent_id xs, b)) ->
  commit_pre (set_index index2 g1) a a1 a2 (xf_extent_id xs)
    (ExtentId_new (ExtentId_shard_id (xf_extent_id xs)) ts) es esd live dest ds (xf_file xs).
Proof.
  intros [Hr Hx Hopen Hfile Hbound Hm Hst Hts Hnf Hnm Hnb Hes Hbytes] [] Hr2 Ha2 Hm2 Hb2.
  pose proof Hx as (Hsrc & _).
  assert (ExtentId_new (ExtentId_shard_id (xf_extent_id xs)) ts <> xf_extent_id xs) as Hne by congruence.
  split; try done.
  - apply ExtentId_new_eid; [by apply ExtentId_shard_id_u64|done].
  - intros b. rewrite Hb2. by rewrite cd_blob0 by done.
  - unfold blobs_wf. rewrite Forall_forall. intros [b i] Hin.
    apply cd_live_elem0 in Hin as (Hb & Hi & _). split; [done|].
    by apply (rep_blob_readable (eg_index g) a (xf_extent_id xs) b i).
  - unfold uint, EXTENT_HEADER_LEN in *. lia.
  - cbn [eg_disk set_index]. rewrite cd_files0, lookup_insert_ne by done. done.
  - cbn [eg_disk set_index]. rewrite cd_files0. apply lookup_insert_eq.
Qed.

(** Reading through the shard binding of the compacted engine. *)
Lemma read_shard_dest g' a' s dest esd b :
  rep (eg_index g') a' -> extent_ok a' dest esd -> is_u64 s -> is_u64 b ->
  ai_bind a' !! ShardId_shard_prefix s = Some (xf_extent_id dest) ->
  dk_extents (eg_disk g') !! xf_extent_id dest = Some (xf_file dest) ->
  read_shard_blocking g' s b = read_blob (eg_index g') dest b.
Proof.
  intros Hr Hx Hs Hb Hbind Hf. unfold read_shard_blocking.
  rewrite (get_shard_binding_rep _ a') by done. rewrite Hbind. cbn [map_err].
  rewrite Hf. pose proof Hx as (Hid & (_ & Hfile & Ho) & _).
  destruct dest as [f id wo]. cbn [xf_file xf_extent_id xf_write_offset] in *. subst f wo.
  rewrite <- (app_nil_r (image id esd)) at 1. unfold open_read. rewrite ExtentFile_open_image by by apply eid_len.
  cbn [map_err]. by rewrite app_nil_r.
Qed.

(** C3: compaction keeps what is live. Compacting a bound extent (copying its live
    blobs to a fresh extent, then committing), with any deletes of the shard's blobs
    landing between the copy and the commit, succeeds; afterwards the shard is bound
    to the new extent, every blob that was live when the compaction began reads
    exactly as before, and is tombstoned in the new extent precisely if one of those
    deletes named it; a blob tombstoned before the compaction, whose body could still
    be read until then, reads as absent; the source has no metadata and its file is
    in the trash; every other extent's metadata is untouched. Without deletes this is
    the result of [compact_extent]. *)
Theorem compaction_preserves : forall g a xs es m ts ds,
  compact_pre g a xs es m ts -> Forall is_u64 ds ->
  let src := xf_extent_id xs in
  let shard := ExtentId_shard_id src in
  let new := ExtentId_new shard ts in
  exists g1 live dest index2 g' out,
    compact_copy src ts g = (g1, Ok (m, live, dest))
    /\ delete_all (eg_index g1) src ds = Ok index2
    /\ compact_commit src m live dest (set_index index2 g1) = (g', Ok out)
    /\ (ds = [] -> compact_extent src ts g = (g', Ok out))
    /\ co_new_extent out = new
    /\ get_shard_binding (eg_index g') shard = Ok (Some new)
    /\ (forall b, is_u64 b ->
          match ai_blob a !! (src, b) with
          | Some i =>
              if is_tombstoned i then read_shard_blocking g' shard b = Ok None
              else read_shard_blocking g' shard b = read_blob (eg_index g) xs b
                   /\ exists i', get_blob (eg_index g') new b = Ok (Some i')
                        /\ is_tombstoned i' = bool_decide (b ∈ ds)
          | None => read_shard_blocking g' shard b = Ok None
          end)
    /\ get_extent_meta (eg_index g') src = Ok None
    /\ dk_extents (eg_disk g') !! src = None /\ dk_trash (eg_disk g') !! src = Some (xf_file xs)
    /\ (forall e, eid e -> e <> src -> e <> new ->
          get_extent_meta (eg_index g') e = get_extent_meta (eg_index g) e).
Proof.
  intros g a xs es m ts ds Hpre Hds src shard new.
  destruct (compact_copy_ok g a xs es m ts Hpre) as (g1 & a1 & live & dest & esd & Hcopy & Hdone).
  pose proof Hdone as [D1 D2 D3 D4 D5 D6 D7 D8 D9 D10 D11 D12 D13 D14 D15].
  pose proof Hpre as [P1 P2 P3 P4 P5 P6 P7 P8 P9 P10 P11 P12 P13]. pose proof P2 as (Hsrc & _).
  subst new shard src. set (src := xf_extent_id xs) in *. set (shard := ExtentId_shard_id src) in *.
  set (new := ExtentId_new shard ts) in *.
  assert (is_u64 shard) as Hshard by by apply ExtentId_shard_id_u64.
  destruct (delete_all_ok src ds Hsrc Hds (eg_index g1) a1) as (index2 & a2 & Hdel & Hr2 & Ha2 & Hm2 & Hb2);
    [done|by rewrite D5|by rewrite D4|].
  pose proof (copy_done_commit_pre g g1 a a1 a2 xs es esd m ts live dest ds index2 Hpre Hdone
                Hr2 Ha2 Hm2 Hb2) as Hcm. fold src in Hcm. fold shard in Hcm. fold new in Hcm.
  pose proof Hcm as [C1 C2 C3 C4 C5 C6 C7 C8 C9 C10 C11 C12 C13 C14 C15 C16 C17].
  destruct (compact_commit_ok (set_index index2 g1) a a1 a2 src new es esd live dest ds (xf_file xs) m Hcm)
    as (g' & a' & Hcommit & Hr' & Hok' & Hbind' & Hmeta' & Hfiles' & Htrash' & Hom' & _ & _ & _ & carried & Hcar & Hnew').
  assert (ai_bind a' !! ShardId_shard_prefix shard = Some (xf_extent_id dest)) as Hb'
    by (rewrite Hbind', D3; apply lookup_insert_eq).
  assert (dk_extents (eg_disk g') !! xf_extent_id dest = Some (xf_file dest)) as Hfd
    by (rewrite Hfiles', D3, lookup_delete_ne by done; exact C17).
  assert (forall b, is_u64 b -> ai_blob a' !! (new, b) = None -> read_shard_blocking g' shard b = Ok None)
    as Hnone.
  { intros b Hb Hn. rewrite (read_shard_dest g' a' shard dest esd) by done.
    apply (read_blob_absent _ a'); [done|by rewrite D3|done|by rewrite D3]. }
  exists g1, live, dest, index2, g'. eexists. split; [done|]. split; [done|]. split; [exact Hcommit|].
  split_and!.
  - intros ->. unfold compact_extent, bind. rewrite Hcopy. cbn [delete_all] in Hdel.
    injection Hdel as <-. by destruct g1.
  - done.
  - rewrite (get_shard_binding_rep _ a'), Hb', D3 by done. done.
  - intros b Hb. destruct (ai_blob a !! (src, b)) as [i|] eqn:Ei.
    2:{ apply Hnone; [done|]. rewrite Hnew', D15; [done|]. intros Hin.
        apply list_elem_of_fmap in Hin as ([b' i'] & -> & Hin). apply D11 in Hin as (_ & Hi' & _).
        cbn [fst] in Ei. congruence. }
    destruct (is_tombstoned i) eqn:Et.
    { apply Hnone; [done|]. rewrite Hnew', D15; [done|]. intros Hin.
      apply list_elem_of_fmap in Hin as ([b' i'] & -> & Hin). apply D11 in Hin as (_ & Hi' & Ht').
      cbn [fst] in Ei. congruence. }
    destruct (D14 b i) as (i' & e & e0 & He0 & Hi' & Ht' & _ & He & Hbody); [by apply D11|].
    assert (ai_blob a' !! (new, b) = Some (tombed carried b i')) as Hfin by (by rewrite Hnew', Hi').
    split.
    + rewrite (read_shard_dest g' a' shard dest esd) by done.
      rewrite (read_blob_indexed (eg_index g) a xs es b i e0) by done. rewrite <- Hbody.
      apply (read_blob_indexed _ a' dest esd b (tombed carried b i') e); [done..|by rewrite D3|].
      unfold tombed. case_decide; [by apply indexed_entry_tomb|done].
    + exists (tombed carried b i'). rewrite (get_blob_rep _ a') by done. split; [by rewrite Hfin|].
      unfold tombed. assert (b ∈ carried <-> b ∈ ds) as Hiff.
      { rewrite Hcar, C9, Ei. cbn. unfold tombed. split.
        - intros (_ & i2 & [= <-] & Ht2). case_decide; [done|congruence].
        - intros Hin. split; [done|]. eexists. split; [done|]. rewrite decide_True by done.
          apply tomb_tombstoned. }
      destruct (decide (b ∈ carried)) as [Hc|Hc].
      * rewrite tomb_tombstoned. symmetry. by apply bool_decide_eq_true, Hiff.
      * rewrite Ht'. symmetry. apply bool_decide_eq_false. tauto.
  - rewrite (get_extent_meta_rep _ a'), Hmeta' by done. done.
  - rewrite Hfiles'. apply lookup_delete_eq.
  - rewrite Htrash'. apply lookup_insert_eq.
  - intros e He Hes Hen. rewrite (get_extent_meta_rep _ a'), (get_extent_meta_rep _ a) by done.
    rewrite Hom' by done. destruct Ha2 as (_ & HM & _). rewrite HM by done. by rewrite D7.
Qed.
End Compaction.

(** *** Witness: an extent with one blob, deleted during the compaction *)

Lemma compaction_preserves_witness :
  exists (g g1 g' : @Engine (cells_rocks merge_meta)) xs m live dest index2 out,
    read_blob (eg_index g) xs 7 = Ok (Some [1; 2; 3])
    /\ compact_copy (xf_extent_id xs) 100 g = (g1, Ok (m, live, dest))
    /\ delete_all (eg_index g1) (xf_extent_id xs) [7] = Ok index2
    /\ compact_commit (xf_extent_id xs) m live dest (set_index index2 g1) = (g', Ok out)
    /\ read_shard_blocking g' 4294967297 7 = Ok (Some [1; 2; 3])
    /\ (exists i, get_blob (eg_index g') (co_new_extent out) 7 = Ok (Some i) /\ is_tombstoned i = true).
Proof.
  destruct ex_store_fresh as (x & E & Hr & Hx & Hid & Ho).
  destruct (write_blob_new ex_store_index ex_store x [] 7 [1; 2; 3]
    (fresh_meta 4294967297 99 ES_Writable)) as (index & xs & Hw & Hr' & Hx' & Hid' & _);
    [done..|by rewrite Hid|done|by rewrite Hid|done|by rewrite Ho|].
  set (e := {| en_blob := 7; en_shard := _; en_body := _ |}) in *.
  set (a := abs_append x e ex_store) in *. rewrite Hid in Hid'.
  set (i7 := BlobIndex_new (xf_write_offset x) (len [1; 2; 3]) (body_crc [1; 2; 3])).
  assert (forall e' b, ai_blob a !! (e', b) = if decide ((e', b) = (ExtentId_new 4294967297 99, 7))
            then Some i7 else None) as Hblob.
  { intros e' b. unfold a. cbn [abs_append abs_merge abs_put_blob ai_blob e en_blob]. rewrite Hid.
    case_decide as Hd; [rewrite Hd; apply lookup_insert_eq|]. rewrite lookup_insert_ne by congruence. done. }
  set (g := {| eg_disk := {| dk_extents := {[ xf_extent_id xs := xf_file xs ]}; dk_trash := ∅;
                             dk_extent_size := 1000000 |};
               eg_index := index; eg_open := {[ xf_extent_id xs := xs ]} |}).
  assert (ExtentId_shard_id (xf_extent_id xs) = 4294967297) as Hsh by (rewrite Hid'; by vm_compute).
  assert (ExtentId_new 4294967297 100 <> ExtentId_new 4294967297 99) as Hne by (by vm_compute).
  destruct (compaction_preserves g a xs ([] ++ [e])
    (MetaMergeOp_apply (SetSize (xf_write_offset x + entry_len e)) (fresh_meta 4294967297 99 ES_Writable))
    100 [7]) as (g1 & live & dest & index2 & g' & out & Hc & Hd & Hm & _ & Hout & _ & Hread & _).
  - split; rewrite ?Hsh, ?Hid'; try done.
    + rewrite <- Hid'. apply lookup_singleton_eq.
    + rewrite <- Hid'. apply lookup_singleton_eq.
    + unfold a. cbn [abs_append abs_merge abs_put_blob ai_meta]. rewrite Hid.
      by rewrite lookup_alter_eq.
    + by left.
    + cbn [g eg_disk dk_extents]. rewrite Hid'. by apply lookup_singleton_ne.
    + unfold a. cbn [abs_append abs_merge abs_put_blob ai_meta]. rewrite Hid, lookup_alter_ne by done.
      by vm_compute.
    + intros l Hl. destruct (list_blobs_rep index a (ExtentId_new 4294967297 99)) as (l' & Hl' & Hs & Hel);
        [done|by apply ExtentId_new_eid|]. cbn [g eg_index] in Hl. rewrite Hl' in Hl. injection Hl as <-.
      assert (carry_bytes l' <= carry_bytes [(7, i7)]) as Hle.
      { apply carry_bytes_sub; [|by apply sorted_lt_NoDup|].
        - constructor; [|constructor]. split; [done|]. apply BlobIndex_new_wf; [by rewrite Ho|done|by rewrite Ho].
        - intros b i [_ Hi]%Hel. rewrite Hblob in Hi. case_decide as Hd; [|done].
          injection Hi as <-. injection Hd as ->. exists i7. split; [by left|done]. }
      assert (0 <= carry_bytes l').
      { apply carry_bytes_nonneg. unfold blobs_wf. rewrite Forall_forall. intros [b i] [Hb Hi]%Hel.
        split; [done|]. rewrite Hblob in Hi. case_decide; [|done]. injection Hi as <-.
        apply BlobIndex_new_wf; [by rewrite Ho|done|by rewrite Ho]. }
      change (carry_bytes [(7, i7)]) with 4096 in Hle. unfold uint, EXTENT_HEADER_LEN. lia.
  - repeat constructor; done.
  - specialize (Hread 7 ltac:(done)). rewrite Hblob, Hid', decide_True in Hread by done.
    change (is_tombstoned i7) with false in Hread. rewrite <- Hid', Hsh in Hread.
    destruct Hread as [Hr7 (i' & Hi' & Ht')].
    assert (read_blob (eg_index g) xs 7 = Ok (Some [1; 2; 3])) as H7.
    { apply (read_blob_indexed index a xs ([] ++ [e]) 7 i7 e); [done..| |].
      - by rewrite Hid', Hblob, decide_True.
      - by apply (indexed_entry_last x [] e); apply Hx. }
    exists g, g1, g', xs. do 5 eexists. split_and!; [exact H7|exact Hc|exact Hd|exact Hm|congruence|].
    exists i'. rewrite Hout, Hsh. by rewrite Ht'.
Defined.
