(* ===== verification/PdDb.v ===== *)
(** The placement driver's state-machine database and what its managers share
    (epoch-pd: cluster/id_record.rs): column families of RocksDB, write batches
    staged by the apply path, JSON records, id counters, and the relation between
    a column family and the in-memory index that caches it. *)

From S2P Require Import Prelude Rocks.

(** ** Errors of the state machine (openraft's storage error) *)

Inductive SmError : Set :=
| SmMissingCf (name : string)
| SmCorrupt (reason : string)
| SmRead
| SmWrite.

(** ** State and error: an error keeps the effects made before it *)

Definition St (S A : Type) : Type := S -> S * result SmError A.
Definition sret {S A} (a : A) : St S A := fun s => (s, Ok a).
Definition sbind {S A B} (m : St S A) (k : A -> St S B) : St S B :=
  fun s => match m s with (s, Ok a) => k a s | (s, Err e) => (s, Err e) end.
Definition sgets {S A} (f : S -> A) : St S A := fun s => (s, Ok (f s)).
Definition smodify {S} (f : S -> S) : St S unit := fun s => (f s, Ok tt).
Definition slift {S A} (r : result SmError A) : St S A := fun s => (s, r).
Notation "x <== m ;; k" := (sbind m (fun x => k))
  (at level 100, m at next level, k at level 200, right associativity).

(** ** [serde_json] on a record type, a third-party library *)

Class Serde (A : Type) := {
  to_vec : A -> list Z;
  from_slice : list Z -> option A;
  from_to x : from_slice (to_vec x) = Some x
}.

Lemma to_vec_inj `{Serde A} (x y : A) : to_vec x = to_vec y -> x = y.
Proof. intros E. apply (f_equal from_slice) in E. rewrite !from_to in E. congruence. Qed.

(** A serializer for any countable type, the instance examples use. *)
Definition countable_bytes `{Countable A} (x : A) : list Z :=
  le_bytes (Pos.size_nat (encode x)) (Z.pos (encode x)).
Definition countable_parse `{Countable A} (b : list Z) : option A :=
  match le_val b with Z.pos p => decode p | _ => None end.
Lemma countable_parse_bytes `{Countable A} (x : A) : countable_parse (countable_bytes x) = Some x.
Proof.
  unfold countable_parse, countable_bytes.
  rewrite le_val_le_bytes; [apply decode_encode|]. generalize (encode x).
  intros p. split; [done|]. rewrite pow256_pow2.
  assert (Z.pos p < 2 ^ Z.of_nat (Pos.size_nat p)) as Hp.
  { induction p as [p IH|p IH|]; simpl Pos.size_nat; rewrite ?Nat2Z.inj_succ, ?Z.pow_succ_r by lia; lia. }
  pose proof (Z.pow_le_mono_r 2 (Z.of_nat (Pos.size_nat p)) (8 * Z.of_nat (Pos.size_nat p))). lia.
Qed.
#[export] Instance countable_serde `{Countable A} : Serde A | 100 :=
  {| to_vec := countable_bytes; from_slice := countable_parse; from_to := countable_parse_bytes |}.

(** ... and serializers for pairs and lists of records that prefix each part with
    its length, for the examples with large records. *)
Definition framed (b rest : list Z) : list Z := Z.of_nat (length b) :: b ++ rest.
Definition unframe (b : list Z) : option (list Z * list Z) :=
  match b with n :: l => Some (take (Z.to_nat n) l, drop (Z.to_nat n) l) | [] => None end.
Lemma unframe_framed b rest : unframe (framed b rest) = Some (b, rest).
Proof. unfold unframe, framed. by rewrite Nat2Z.id, take_app_length, drop_app_length. Qed.
Program Definition pair_serde {A B} (SA : Serde A) (SB : Serde B) : Serde (A * B) :=
  {| to_vec := fun x => framed (to_vec x.1) (to_vec x.2);
     from_slice := fun b => '(a, b) ← unframe b; a ← from_slice a; b ← from_slice b; Some (a, b) |}.
Next Obligation. intros A B SA SB [a b]. rewrite unframe_framed. simpl. by rewrite !from_to. Qed.
Fixpoint parse_list {A} (SA : Serde A) (fuel : nat) (b : list Z) : option (list A) :=
  match b, fuel with
  | [], _ => Some []
  | _, O => None
  | _, S fuel => '(a, b) ← unframe b; a ← from_slice a; l ← parse_list SA fuel b; Some (a :: l)
  end.
Program Definition list_serde {A} (SA : Serde A) : Serde (list A) :=
  {| to_vec := foldr (fun x => framed (to_vec x)) []; from_slice := fun b => parse_list SA (length b) b |}.
Next Obligation.
  intros A SA l. set (b := foldr _ _ _). assert (forall fuel, (length b <= fuel)%nat -> parse_list SA fuel b = Some l) as H.
  { subst b. induction l as [|x l IH]; intros fuel Hf; [by destruct fuel|].
    cbn [foldr] in *. set (r := foldr _ _ l) in *. unfold framed at 1 in Hf. cbn [length] in Hf.
    rewrite length_app in Hf. destruct fuel as [|fuel]; [lia|].
    assert (parse_list SA (S fuel) (framed (to_vec x) r)
            = '(a, b) ← unframe (framed (to_vec x) r); a ← from_slice a; l ← parse_list SA fuel b; Some (a :: l)) as ->
      by done.
    rewrite unframe_framed. simpl. rewrite from_to. simpl. by rewrite IH by lia. }
  by apply H.
Qed.
Program Definition iso_serde {A B} (SB : Serde B) (f : A -> B) (g : B -> A) (Hgf : forall x, g (f x) = x) : Serde A :=
  {| to_vec := fun x => to_vec (f x); from_slice := fun b => g <$> from_slice b |}.
Next Obligation. intros A B SB f g Hgf x. simpl. rewrite from_to. simpl. by rewrite Hgf. Qed.

(** ** Column families and batches *)

Definition no_merge (k : list Z) (b : option (list Z)) (ops : list (list Z)) : option (list Z) := None.

(** The operations a batch holds here: no merges. *)
Inductive WOp : Set := WPut (k v : list Z) | WDelete (k : list Z).
Abbreviation WriteBatch := (list (string * WOp)) (only parsing).
Definition put_cf (b : WriteBatch) (cf : string) (k v : list Z) : WriteBatch := b ++ [(cf, WPut k v)].
Definition delete_cf (b : WriteBatch) (cf : string) (k : list Z) : WriteBatch := b ++ [(cf, WDelete k)].

Definition batch_op (o : WOp) : BatchOp :=
  match o with WPut k v => BPut k v | WDelete k => BDelete k end.
Definition ops_of (cf : string) (b : WriteBatch) : list WOp := (filter (fun o => o.1 = cf) b).*2.
Definition table_op (t : gmap (list Z) (list Z)) (o : WOp) : gmap (list Z) (list Z) :=
  match o with WPut k v => <[k := v]> t | WDelete k => delete k t end.

(** A [for kv in iterator] loop with early exit. *)
Fixpoint iter_try {S E} (f : S -> list Z * list Z -> result E S) (l : list (list Z * list Z)) (s : S)
    : result E S :=
  match l with [] => Ok s | kv :: l => s <-? f s kv ;; iter_try f l s end.

(** A BTreeMap over integer ids: its values in key order, and collecting records
    back into one. *)
Definition id_le {A} (x y : Z * A) : Prop := x.1 <= y.1.
#[export] Instance id_le_dec {A} : RelDecision (@id_le A).
Proof. intros x y. unfold id_le. apply _. Defined.
Definition values {A} (m : gmap Z A) : list A := (merge_sort id_le (map_to_list m)).*2.
Definition collect {A} (id : A -> Z) (l : list A) : gmap Z A :=
  foldl (fun m r => <[id r := r]> m) ∅ l.

(** ** id_record.rs *)

Definition FIRST_ID : Z := 1.
Definition NEXT_ID_KEY : list Z := [110; 101; 120; 116; 95; 105; 100].
Definition record_key (id : Z) : list Z := be_bytes 4 id.
Definition advance_counter (current : Z) : result SmError Z :=
  ok_or (checked_add 32 current 1) (SmCorrupt "id counter overflow").

(** The database: a store per column family. *)
Abbreviation SmDb := (gmap string (@rdb no_merge _)) (only parsing).

Section Db.
Context {RDB : RocksDb no_merge}.

Definition write_opt (db : SmDb) (b : WriteBatch) : SmDb :=
  map_imap (fun name d => Some (rdb_write d (batch_op <$> ops_of name b))) db.

Definition open_cf (db : SmDb) (name : string) : result SmError rdb :=
  ok_or (db !! name) (SmMissingCf name).

Definition load_step `{Serde V} (s : list V * Z) (kv : list Z * list Z) : result SmError (list V * Z) :=
  let '(records, next_id) := s in
  let '(key, value) := kv in
  if decide (key = NEXT_ID_KEY)
  then if len value =? 4 then Ok (records, be_val value) else Err (SmCorrupt "malformed id counter")
  else r <-? ok_or (from_slice value) SmRead ;; Ok (records ++ [r], next_id).
Definition load_records `{Serde V} (db : SmDb) (name : string) : result SmError (list V * Z) :=
  cf <-? open_cf db name ;;
  iter_try load_step (rdb_iter cf []) ([], FIRST_ID).

Definition stage_put_record `{Serde V} (batch : WriteBatch) (cf : string) (id : Z) (record : V)
    : WriteBatch :=
  put_cf batch cf (record_key id) (to_vec record).
Definition stage_put_counter (batch : WriteBatch) (cf : string) (next_id : Z) : WriteBatch :=
  put_cf batch cf NEXT_ID_KEY (be_bytes 4 next_id).
(** The keys deleted are those of the committed family, whatever the batch holds. *)
Definition stage_clear (batch : WriteBatch) (db : SmDb) (cf : string) : WriteBatch :=
  match db !! cf with
  | None => batch
  | Some d => foldl (fun b kv => delete_cf b cf kv.1) batch (rdb_iter d [])
  end.

(** ** The contents of a family *)

Definition tab (d : rdb) : gmap (list Z) (list Z) :=
  map_imap (fun k c => cell_value no_merge k c) (rdb_cells d).

Lemma tab_get d k : tab d !! k = rdb_get d k.
Proof. unfold tab. by rewrite map_lookup_imap, rdb_get_cells. Qed.

Lemma tab_iter d k v : (k, v) ∈ rdb_iter d [] <-> tab d !! k = Some v.
Proof. rewrite rdb_iter_elem, tab_get. split; [by intros []|]. split; [done|]. by destruct k. Qed.

Lemma rdb_iter_NoDup d from : NoDup (rdb_iter d from).*1.
Proof.
  pose proof (rdb_iter_sorted d from) as Hs. induction Hs as [|k l Hs IH Hf]; constructor; [|done].
  rewrite Forall_forall in Hf. intros Hin. specialize (Hf _ Hin). by rewrite lex_ltb_irrefl in Hf.
Qed.

Lemma tab_write d ops : tab (rdb_write d (batch_op <$> ops)) = foldl table_op (tab d) ops.
Proof.
  unfold tab. rewrite rdb_write_cells. generalize (rdb_cells d). clear d.
  induction ops as [|o ops IH]; intros m; simpl; [done|]. rewrite IH. f_equal.
  apply map_eq. intros k. rewrite map_lookup_imap. destruct o as [k' v|k']; simpl.
  - destruct (decide (k' = k)) as [->|]; simplify_map_eq; by rewrite ?map_lookup_imap.
  - destruct (decide (k' = k)) as [->|]; simplify_map_eq; by rewrite ?map_lookup_imap.
Qed.

(** What a family will hold once the batch is flushed. *)
Definition pending (db : SmDb) (b : WriteBatch) (cf : string) : gmap (list Z) (list Z) :=
  foldl table_op (default ∅ (tab <$> db !! cf)) (ops_of cf b).

Lemma ops_of_app cf b1 b2 : ops_of cf (b1 ++ b2) = ops_of cf b1 ++ ops_of cf b2.
Proof. unfold ops_of. by rewrite list.filter_app, fmap_app. Qed.

Lemma pending_app db b1 b2 cf :
  pending db (b1 ++ b2) cf = foldl table_op (pending db b1 cf) (ops_of cf b2).
Proof. unfold pending. by rewrite ops_of_app, foldl_app. Qed.

Lemma pending_nil db cf : pending db [] cf = default ∅ (tab <$> db !! cf).
Proof. done. Qed.
Lemma pending_put db b cf k v : pending db (put_cf b cf k v) cf = <[k := v]> (pending db b cf).
Proof. unfold put_cf. rewrite pending_app. unfold ops_of. by rewrite filter_cons_True. Qed.
Lemma pending_put_ne db b cf cf' k v : cf <> cf' ->
  pending db (put_cf b cf' k v) cf = pending db b cf.
Proof. intros. unfold put_cf. rewrite pending_app. unfold ops_of. by rewrite filter_cons_False. Qed.
Lemma pending_delete db b cf k : pending db (delete_cf b cf k) cf = delete k (pending db b cf).
Proof. unfold delete_cf. rewrite pending_app. unfold ops_of. by rewrite filter_cons_True. Qed.
Lemma pending_delete_ne db b cf cf' k : cf <> cf' ->
  pending db (delete_cf b cf' k) cf = pending db b cf.
Proof. intros. unfold delete_cf. rewrite pending_app. unfold ops_of. by rewrite filter_cons_False. Qed.

Lemma pending_write db b cf d : db !! cf = Some d ->
  tab <$> write_opt db b !! cf = Some (pending db b cf).
Proof.
  intros Hd. unfold write_opt, pending. rewrite map_lookup_imap, Hd. simpl. by rewrite tab_write.
Qed.
Lemma write_opt_dom db b cf : is_Some (db !! cf) -> is_Some (write_opt db b !! cf).
Proof. intros [d Hd]. unfold write_opt. rewrite map_lookup_imap, Hd. by eexists. Qed.

Lemma pending_clear_ne db b cf cf' : cf <> cf' ->
  pending db (stage_clear b db cf') cf = pending db b cf.
Proof.
  intros Hne. unfold stage_clear. destruct (db !! cf'); [|done]. generalize (rdb_iter r []).
  intros l. revert b. induction l as [|kv l IH]; intros b; simpl; [done|].
  by rewrite IH, pending_delete_ne.
Qed.
Lemma pending_clear db b cf : ops_of cf b = [] -> pending db (stage_clear b db cf) cf = ∅.
Proof.
  intros Hb. unfold stage_clear. destruct (db !! cf) as [d|] eqn:Hd.
  2:{ unfold pending. by rewrite Hd, Hb. }
  assert (forall l b, pending db (foldl (fun b kv => delete_cf b cf kv.1) b l) cf
                      = foldr (fun kv : list Z * list Z => delete kv.1) (pending db b cf) l) as Hgen.
  { clear b Hb. induction l as [|kv l IH]; intros b; simpl; [done|]. rewrite IH, pending_delete.
    generalize (pending db b cf). clear. induction l as [|kv' l IH]; intros m; simpl; [done|].
    by rewrite IH, delete_delete. }
  rewrite Hgen. unfold pending at 1. rewrite Hb, Hd. simpl.
  apply map_empty. intros k. destruct (tab d !! k) as [v|] eqn:Hk.
  - apply tab_iter in Hk. clear Hgen. generalize (tab d). intros m.
    induction (rdb_iter d []) as [|kv l IH]; [by apply not_elem_of_nil in Hk|]. simpl.
    destruct (decide (kv.1 = k)) as [->|]; simplify_map_eq; [done|].
    apply IH. apply elem_of_cons in Hk as [<-|]; [done|]; done.
  - revert Hk. generalize (tab d). clear. induction (rdb_iter d []) as [|kv l IH]; intros m Hk; simpl; [done|].
    destruct (decide (kv.1 = k)) as [->|]; simplify_map_eq; [done|]. by apply IH.
Qed.
End Db.

(** Restoring by a loop over all entries of a table in key order: an invariant
    indexed by the part of the table already seen. *)
Lemma iter_try_ind {S E} (f : S -> list Z * list Z -> result E S)
    (P : gmap (list Z) (list Z) -> S -> Prop) (t : gmap (list Z) (list Z)) items s0 :
  StronglySorted (fun a b => lex_ltb a b = true) items.*1 ->
  (forall k v, (k, v) ∈ items <-> t !! k = Some v) -> P ∅ s0 ->
  (forall t0 s k v, P t0 s -> t !! k = Some v ->
     (forall k', is_Some (t0 !! k') -> lex_ltb k' k = true) ->
     exists s', f s (k, v) = Ok s' /\ P (<[k := v]> t0) s') ->
  exists s', iter_try f items s0 = Ok s' /\ P t s'.
Proof.
  intros Hso Hin H0 Hstep.
  assert (forall items t0 s, StronglySorted (fun a b => lex_ltb a b = true) items.*1 -> P t0 s ->
    (forall k v, (k, v) ∈ items -> t !! k = Some v /\ forall k', is_Some (t0 !! k') -> lex_ltb k' k = true) ->
    (forall k v, t !! k = Some v <-> t0 !! k = Some v \/ (k, v) ∈ items) ->
    exists s', iter_try f items s = Ok s' /\ P t s') as Hgen.
  { clear items s0 Hso Hin H0. induction items as [|[k v] items IH]; intros t0 s Hso HP Hk Ht; simpl.
    - exists s. split; [done|]. replace t with t0; [done|]. apply map_eq. intros k.
      apply option_eq. intros v. rewrite Ht, elem_of_nil. tauto.
    - inversion Hso as [|?? Hso' Hlt]; subst. destruct (Hk k v) as [Hv Hb]; [by left|].
      destruct (Hstep t0 s k v) as (s' & -> & HP'); [done..|].
      rewrite Forall_forall in Hlt.
      assert (forall k' v', (k', v') ∈ items -> lex_ltb k k' = true) as Hlt'.
      { intros k' v' Hin. apply Hlt, list_elem_of_fmap. by exists (k', v'). }
      apply (IH (<[k := v]> t0)); [done|done| |].
      + intros k' v' Hin. destruct (Hk k' v') as [? Hb']; [by right|]. split; [done|].
        intros k'' [v'' Hs]. apply lookup_insert_Some in Hs as [[<- _]|[_ ?]]; eauto.
      + intros k' v'. rewrite Ht, elem_of_cons. destruct (decide (k = k')) as [<-|Hne].
        * rewrite lookup_insert_eq. split; [|intros [[= <-]|?]; eauto].
          intros [Hs|[[= <-]|Hin]]; [|by left|by right].
          specialize (Hb k (mk_is_Some _ _ Hs)). by rewrite lex_ltb_irrefl in Hb.
        * rewrite lookup_insert_ne by done. split; [|naive_solver].
          intros [?|[[= -> ->]|?]]; [by left|done|by right]. }
  apply (Hgen _ ∅ s0); [done..| |].
  - intros k v ?. split; [by apply Hin|]. intros k'. rewrite lookup_empty. by intros [].
  - intros k v. rewrite lookup_empty, Hin. naive_solver.
Qed.

(** ** Tables: records under their keys, and a few control entries *)

Section Table.
Context {K A : Type} `{Countable K} `{Serde A} (key : K -> list Z) (valid : K -> Prop).

Record table_rep (t : gmap (list Z) (list Z)) (m : gmap K A) (cs : gmap (list Z) (list Z)) : Prop := {
  tr_valid : forall id r, m !! id = Some r -> valid id;
  tr_ctl : forall k v id, cs !! k = Some v -> valid id -> k <> key id;
  tr_lookup : forall k v, t !! k = Some v <->
    cs !! k = Some v \/ exists id r, k = key id /\ m !! id = Some r /\ v = to_vec r
}.

Lemma table_rep_empty : table_rep ∅ ∅ ∅.
Proof. split; intros *; rewrite ?lookup_empty; naive_solver. Qed.

Context (key_inj : forall x y, valid x -> valid y -> key x = key y -> x = y).

Lemma table_rep_insert t m cs id r : valid id -> table_rep t m cs ->
  table_rep (<[key id := to_vec r]> t) (<[id := r]> m) cs.
Proof.
  intros Hid [Hv Hc Hl]. split; [|done|].
  - intros id' r'. rewrite lookup_insert_Some. naive_solver.
  - intros k v. destruct (decide (key id = k)) as [<-|Hne].
    + rewrite lookup_insert_eq. split.
      * intros [= <-]. right. exists id, r. by rewrite lookup_insert_eq.
      * intros [Hcs|(id' & r' & Hk & Hr & ->)]; [by destruct (Hc _ _ id Hcs)|].
        assert (id = id') as <-.
        { apply lookup_insert_Some in Hr as [[]|[]]; [done|]. apply key_inj; eauto. }
        rewrite lookup_insert_eq in Hr. congruence.
    + rewrite lookup_insert_ne by done. rewrite Hl. split.
      * intros [?|(id' & r' & -> & ? & ->)]; [by left|]. right. exists id', r'.
        rewrite lookup_insert_ne; [done|]. naive_solver.
      * intros [?|(id' & r' & -> & Hr & ->)]; [by left|]. right. exists id', r'.
        rewrite lookup_insert_ne in Hr; [done|]. naive_solver.
Qed.

Lemma table_rep_delete t m cs id : valid id -> table_rep t m cs ->
  table_rep (delete (key id) t) (delete id m) cs.
Proof.
  intros Hid [Hv Hc Hl]. split; [|done|].
  - intros id' r'. rewrite lookup_delete_Some. naive_solver.
  - intros k v. rewrite lookup_delete_Some, Hl. split.
    + intros [Hne [?|(id' & r' & -> & ? & ->)]]; [by left|]. right. exists id', r'.
      rewrite lookup_delete_ne; [done|]. naive_solver.
    + intros [Hcs|(id' & r' & -> & Hr & ->)].
      * split; [|by left]. intros <-. by destruct (Hc _ _ id Hcs).
      * apply lookup_delete_Some in Hr as [Hne Hr]. split; [|eauto 10]. intros E.
        apply key_inj in E; eauto.
Qed.

Lemma table_rep_ctl t m cs k v : (forall id, valid id -> k <> key id) -> table_rep t m cs ->
  table_rep (<[k := v]> t) m (<[k := v]> cs).
Proof.
  intros Hk [Hv Hc Hl]. split; [done| |].
  - intros k' v' id. rewrite lookup_insert_Some. naive_solver.
  - intros k' v'. destruct (decide (k = k')) as [<-|Hne].
    + rewrite !lookup_insert_eq. split; [by left|]. intros [?|(id & r & -> & Hr & ->)]; [done|].
      by destruct (Hk id); eauto.
    + by rewrite !lookup_insert_ne, Hl by done.
Qed.

Lemma table_rep_functional t m cs m' cs' : table_rep t m cs -> table_rep t m' cs' -> m = m' /\ cs = cs'.
Proof.
  assert (forall m cs m' cs', table_rep t m cs -> table_rep t m' cs' ->
    (forall id r, m !! id = Some r -> m' !! id = Some r)
    /\ (forall k v, cs !! k = Some v -> cs' !! k = Some v)) as Hgen.
  { clear m cs m' cs'. intros m cs m' cs' [Hv Hc Hl] [Hv' Hc' Hl']. split.
    - intros id r Hr. assert (t !! key id = Some (to_vec r)) as Ht by (apply Hl; eauto 10).
      apply Hl' in Ht as [Hcs|(id' & r' & Hk & Hr' & E)]; [by destruct (Hc' _ _ id Hcs); eauto|].
      apply key_inj in Hk as <-; [|eauto..]. by apply to_vec_inj in E as ->.
    - intros k v Hcs. assert (t !! k = Some v) as Ht by (apply Hl; eauto).
      apply Hl' in Ht as [?|(id & r & -> & Hr & ->)]; [done|]. by destruct (Hc _ _ id Hcs); eauto. }
  intros H1 H2. destruct (Hgen _ _ _ _ H1 H2), (Hgen _ _ _ _ H2 H1).
  split; apply map_eq; intros k; apply option_eq; naive_solver.
Qed.

Lemma table_rep_entry t m cs k v : table_rep t m cs -> t !! k = Some v ->
  cs !! k = Some v \/ exists id r, valid id /\ k = key id /\ m !! id = Some r /\ v = to_vec r.
Proof. intros [Hv _ Hl] Hk. apply Hl in Hk as [|(id & r & ? & ? & ?)]; [by left|right]. eauto 10. Qed.
Lemma table_rep_fresh t m cs id : table_rep t m cs -> valid id -> t !! key id = None -> m !! id = None.
Proof.
  intros [_ _ Hl] ? Hn. destruct (m !! id) as [r|] eqn:Hr; [|done].
  rewrite (proj2 (Hl _ (to_vec r))) in Hn; [done|]. eauto 10.
Qed.
End Table.

(** ** Ordered maps over integer ids *)

#[local] Instance id_le_total {A} : Total (@id_le A).
Proof. intros x y. unfold id_le. lia. Qed.
#[local] Instance id_le_trans {A} : Transitive (@id_le A).
Proof. intros x y z. unfold id_le. lia. Qed.

Lemma values_Permutation {A} (m : gmap Z A) : values m ≡ₚ (map_to_list m).*2.
Proof. unfold values. by rewrite merge_sort_Permutation. Qed.
Lemma elem_of_values {A} (m : gmap Z A) r : r ∈ values m <-> exists id, m !! id = Some r.
Proof.
  rewrite values_Permutation, list_elem_of_fmap. split.
  - intros ([id r'] & -> & Hin). apply elem_of_map_to_list in Hin. eauto.
  - intros [id Hid]. exists (id, r). by rewrite elem_of_map_to_list.
Qed.

Lemma collect_snoc {A} (id : A -> Z) l r : collect id (l ++ [r]) = <[id r := r]> (collect id l).
Proof. unfold collect. by rewrite foldl_app. Qed.
Lemma collect_lookup {A} (id : A -> Z) l k r : NoDup (id <$> l) ->
  collect id l !! k = Some r <-> r ∈ l /\ id r = k.
Proof.
  induction l as [|r' l IH] using rev_ind; intros Hnd.
  - unfold collect. simpl. rewrite lookup_empty, elem_of_nil. naive_solver.
  - rewrite fmap_app in Hnd. apply NoDup_app in Hnd as (Hnd & Hni & _).
    rewrite collect_snoc, lookup_insert_Some, IH, elem_of_app, list_elem_of_singleton by done.
    split; [naive_solver|]. intros [[Hr| ->] <-]; [|by left]. right. split; [|done].
    intros E. apply (Hni (id r)); [by apply list_elem_of_fmap_2|]. simpl. rewrite E. left.
Qed.

(** The values of a map whose records carry their own id collect back to it. *)
Lemma collect_values {A} (id : A -> Z) (m : gmap Z A) :
  (forall k r, m !! k = Some r -> id r = k) -> collect id (values m) = m.
Proof.
  intros Hid. apply map_eq. intros k. apply option_eq. intros r. rewrite collect_lookup.
  - rewrite elem_of_values. split; [|eauto]. intros [[k' Hk'] <-]. by rewrite (Hid _ _ Hk').
  - rewrite values_Permutation, <- list_fmap_compose.
    rewrite (list_fmap_ext _ fst).
    + apply NoDup_fst_map_to_list.
    + intros i [k' r'] Hi. apply Hid, elem_of_map_to_list. by eapply list_elem_of_lookup_2.
Qed.

(** ... and they come in the order of their ids. *)
Lemma values_sorted {A} (id : A -> Z) (m : gmap Z A) :
  (forall k r, m !! k = Some r -> id r = k) -> StronglySorted Z.lt (id <$> values m).
Proof.
  intros Hid. unfold values.
  assert (StronglySorted id_le (merge_sort id_le (map_to_list m))) as Hs
    by (apply StronglySorted_merge_sort; apply _).
  assert (NoDup (merge_sort id_le (map_to_list m)).*1) as Hnd
    by (rewrite merge_sort_Permutation; apply NoDup_fst_map_to_list).
  assert (forall kr, kr ∈ merge_sort id_le (map_to_list m) -> id kr.2 = kr.1) as Hin.
  { intros [k r]. rewrite merge_sort_Permutation, elem_of_map_to_list. apply Hid. }
  induction Hs as [|[k r] l Hs IH Hf]; simpl; [constructor|].
  apply NoDup_cons in Hnd as [Hni Hnd]. constructor.
  - apply IH; [done|]. intros kr ?. apply Hin. by right.
  - apply Forall_forall. intros x (r' & -> & Hr')%list_elem_of_fmap.
    apply list_elem_of_fmap in Hr' as ([k' r''] & -> & Hin'). simpl.
    pose proof (Hin (k, r) ltac:(by left)) as E. pose proof (Hin (k', r'') ltac:(by right)) as E'.
    rewrite Forall_forall in Hf. specialize (Hf _ Hin'). unfold id_le in Hf. simpl in *.
    enough (k <> k') by lia. intros ->. apply Hni. apply list_elem_of_fmap. by exists (k', r'').
Qed.

(** ** Id tables: [record_key] and the persistent counter *)

Definition id_ctl (cs : gmap (list Z) (list Z)) (next : Z) : Prop :=
  (cs = ∅ /\ next = FIRST_ID) \/ (is_u32 next /\ cs = {[NEXT_ID_KEY := be_bytes 4 next]}).
Definition id_rep `{Serde A} (t : gmap (list Z) (list Z)) (m : gmap Z A) (next : Z) : Prop :=
  exists cs, table_rep record_key (uint 32) t m cs /\ id_ctl cs next.

Lemma record_key_inj x y : is_u32 x -> is_u32 y -> record_key x = record_key y -> x = y.
Proof. unfold uint. intros. by apply (be_bytes_inj 4). Qed.
Lemma next_id_key_record id : NEXT_ID_KEY <> record_key id.
Proof. intros E. apply (f_equal len) in E. unfold record_key in E. by rewrite len_be_bytes in E. Qed.

Section IdTable.
Context `{Serde A}.
Implicit Types (m : gmap Z A).

Lemma id_rep_empty : id_rep ∅ (∅ : gmap Z A) FIRST_ID.
Proof. exists ∅. split; [apply table_rep_empty|by left]. Qed.
Lemma id_rep_insert t m next id r : is_u32 id -> id_rep t m next ->
  id_rep (<[record_key id := to_vec r]> t) (<[id := r]> m) next.
Proof. intros ? (cs & ? & ?). exists cs. split; [|done]. apply table_rep_insert; auto using record_key_inj. Qed.
Lemma id_rep_delete t m next id : is_u32 id -> id_rep t m next ->
  id_rep (delete (record_key id) t) (delete id m) next.
Proof. intros ? (cs & ? & ?). exists cs. split; [|done]. apply table_rep_delete; auto using record_key_inj. Qed.
Lemma id_rep_counter t m next next' : is_u32 next' -> id_rep t m next ->
  id_rep (<[NEXT_ID_KEY := be_bytes 4 next']> t) m next'.
Proof.
  intros ? (cs & Ht & Hc). exists (<[NEXT_ID_KEY := be_bytes 4 next']> cs). split.
  - apply table_rep_ctl; [|done]. intros. apply next_id_key_record.
  - right. split; [done|]. destruct Hc as [[-> _]|[_ ->]]; [done|]. by rewrite insert_singleton_eq.
Qed.
Lemma id_rep_valid t m next id r : id_rep t m next -> m !! id = Some r -> is_u32 id.
Proof. intros (cs & Ht & _). apply (tr_valid _ _ _ _ _ Ht). Qed.

(** Loading a family gives back the records and the counter it represents. *)
Lemma load_records_rep `{RocksDb no_merge} (db : SmDb) name d (m : gmap Z A) next (rid : A -> Z) :
  db !! name = Some d -> id_rep (tab d) m next -> (forall id r, m !! id = Some r -> rid r = id) ->
  exists records, load_records db name = Ok (records, next) /\ collect rid records = m.
Proof.
  intros Hd (cs & Ht & Hc) Hid. unfold load_records, open_cf. rewrite Hd. simpl.
  destruct (iter_try_ind (S := list A * Z) load_step
    (fun t0 s => exists cs0, table_rep record_key (uint 32) t0 (collect rid s.1) cs0 /\ id_ctl cs0 s.2)
    (tab d) (rdb_iter d []) ([], FIRST_ID)) as ([records n] & -> & cs' & Ht' & Hc').
  - apply rdb_iter_sorted.
  - apply tab_iter.
  - exists ∅. split; [apply table_rep_empty|by left].
  - intros t0 [records n] k v (cs0 & Ht0 & Hc0) Hk _. simpl in *.
    destruct (table_rep_entry _ _ _ _ _ _ _ Ht Hk) as [Hcs|(id & r & Hv & -> & Hr & ->)].
    + destruct Hc as [[-> _]|[Hu ->]]; [done|]. apply lookup_singleton_Some in Hcs as [<- <-].
      rewrite decide_True by done. rewrite len_be_bytes. simpl.
      rewrite (be_val_uint 4 32) by done. eexists. split; [done|].
      apply (id_rep_counter _ _ n); [done|]. by exists cs0.
    + rewrite decide_False by (intros E; by eapply next_id_key_record). rewrite from_to. simpl.
      eexists. split; [done|]. exists cs0. split; [|done]. simpl. rewrite collect_snoc, (Hid _ _ Hr).
      apply table_rep_insert; auto using record_key_inj.
  - simpl in *. destruct (table_rep_functional _ _ record_key_inj _ _ _ _ _ Ht Ht') as [-> <-].
    exists records. split; [|done]. repeat f_equal.
    destruct Hc as [[-> ->]|[Hu ->]], Hc' as [[E ->]|[Hu' E]]; [done|..].
    + by apply symmetry, map_non_empty_singleton in E.
    + by apply map_non_empty_singleton in E.
    + apply (f_equal (lookup NEXT_ID_KEY)) in E. rewrite !lookup_singleton_eq in E.
      apply (f_equal (default [])) in E. by apply (be_bytes_inj 4) in E.
Qed.
End IdTable.

(** ** A manager's table: what the flushed family will hold and the cache agree *)

Definition touches (cfs : list string) (b b' : WriteBatch) : Prop :=
  forall cf, cf ∉ cfs -> ops_of cf b' = ops_of cf b.
Lemma touches_refl cfs b : touches cfs b b.
Proof. done. Qed.
Lemma touches_trans cfs b1 b2 b3 : touches cfs b1 b2 -> touches cfs b2 b3 -> touches cfs b1 b3.
Proof. intros H1 H2 cf Hcf. by rewrite H2, H1. Qed.
Lemma touches_put cfs b b' cf k v : cf ∈ cfs -> touches cfs b b' -> touches cfs b (put_cf b' cf k v).
Proof.
  intros Hin Ht cf' Hcf. unfold put_cf. rewrite ops_of_app, Ht by done. unfold ops_of at 2.
  rewrite filter_cons_False by (simpl; intros ->; done). apply app_nil_r.
Qed.
Lemma touches_delete cfs b b' cf k : cf ∈ cfs -> touches cfs b b' -> touches cfs b (delete_cf b' cf k).
Proof.
  intros Hin Ht cf' Hcf. unfold delete_cf. rewrite ops_of_app, Ht by done. unfold ops_of at 2.
  rewrite filter_cons_False by (simpl; intros ->; done). apply app_nil_r.
Qed.
Lemma touches_foldl {A} cfs (f : WriteBatch -> A -> WriteBatch) l b b' :
  (forall b'' x, touches cfs b b'' -> touches cfs b (f b'' x)) ->
  touches cfs b b' -> touches cfs b (foldl f b' l).
Proof. intros Hf. revert b'. induction l as [|x l IH]; intros b' Hb; simpl; auto. Qed.
Lemma touches_clear `{RocksDb no_merge} cfs b b' (db : SmDb) cf :
  cf ∈ cfs -> touches cfs b b' -> touches cfs b (stage_clear b' db cf).
Proof.
  intros. unfold stage_clear. destruct (db !! cf); [|done].
  apply touches_foldl; [|done]. intros. by apply touches_delete.
Qed.
Lemma touches_record `{Serde A} cfs b b' cf id (r : A) :
  cf ∈ cfs -> touches cfs b b' -> touches cfs b (stage_put_record b' cf id r).
Proof. apply touches_put. Qed.
Lemma touches_counter cfs b b' cf n :
  cf ∈ cfs -> touches cfs b b' -> touches cfs b (stage_put_counter b' cf n).
Proof. apply touches_put. Qed.
Create HintDb pd.
#[export] Hint Resolve touches_refl touches_put touches_delete touches_clear touches_record
  touches_counter touches_foldl list_elem_of_here list_elem_of_further : pd.

Section Managed.
Context {RDB : RocksDb no_merge} `{Serde A}.
Implicit Types (db : SmDb) (m : gmap Z A).

Lemma pending_touches db cfs b b' cf : touches cfs b b' -> cf ∉ cfs ->
  pending db b' cf = pending db b cf.
Proof. intros Ht Hcf. unfold pending. by rewrite Ht. Qed.

(** The family [cf] caches as the map [m] and the counter [next]; records carry
    their id, and every id was handed out before [next]. *)
Record managed (rid : A -> Z) (t : gmap (list Z) (list Z)) (m : gmap Z A) (next : Z) : Prop := {
  mg_rep : id_rep t m next;
  mg_id : forall id r, m !! id = Some r -> rid r = id /\ FIRST_ID <= id < next;
  mg_next : is_u32 next /\ FIRST_ID <= next
}.

Lemma managed_empty rid : managed rid ∅ ∅ FIRST_ID.
Proof. split; [apply id_rep_empty|intros *; by rewrite lookup_empty|by unfold uint, FIRST_ID]. Qed.

Lemma advance_counter_Ok next next' : advance_counter next = Ok next' ->
  next' = next + 1 /\ next' < 2 ^ 32.
Proof.
  unfold advance_counter, checked_add. destruct (Z.ltb_spec (next + 1) (2 ^ 32)); [|done].
  by intros [= <-].
Qed.
Lemma managed_new rid db b cf m next r next' :
  managed rid (pending db b cf) m next -> advance_counter next = Ok next' -> rid r = next ->
  managed rid (pending db (stage_put_counter (stage_put_record b cf next r) cf next') cf)
    (<[next := r]> m) next'
  /\ next' = next + 1.
Proof.
  intros [Hr Hi [Hu Hf]] Ha Hid. apply advance_counter_Ok in Ha as [-> Hlt].
  unfold stage_put_counter, stage_put_record. rewrite !pending_put. split; [|done].
  split.
  - apply (id_rep_counter _ _ next); [unfold uint in *; lia|]. by apply id_rep_insert.
  - intros id r'. rewrite lookup_insert_Some. intros [[<- <-]|[_ Hr']]; [lia|].
    apply Hi in Hr'. lia.
  - unfold uint in *. lia.
Qed.

Lemma managed_bump rid db b cf m next next' :
  managed rid (pending db b cf) m next -> advance_counter next = Ok next' ->
  managed rid (pending db (stage_put_counter b cf next') cf) m next'.
Proof.
  intros [Hr Hi [Hu Hf]] [-> ?]%advance_counter_Ok. unfold stage_put_counter. rewrite pending_put.
  split.
  - apply (id_rep_counter _ _ next); [unfold uint in *; lia|done].
  - intros id r Hr'. apply Hi in Hr'. lia.
  - unfold uint in *. lia.
Qed.

Lemma managed_update rid db b cf m next id r r' :
  managed rid (pending db b cf) m next -> m !! id = Some r -> rid r' = rid r ->
  managed rid (pending db (stage_put_record b cf id r') cf) (<[id := r']> m) next.
Proof.
  intros [Hr Hi Hn] Hid E. unfold stage_put_record. rewrite pending_put. split; [|..|done].
  - apply id_rep_insert; [|done]. by eapply id_rep_valid.
  - intros id' r''. rewrite lookup_insert_Some. intros [[<- <-]|[_ Hr']]; [|by apply Hi].
    rewrite E. by apply Hi.
Qed.

Lemma managed_delete rid db b cf m next id r :
  managed rid (pending db b cf) m next -> m !! id = Some r ->
  managed rid (pending db (delete_cf b cf (record_key id)) cf) (delete id m) next.
Proof.
  intros [Hr Hi Hn] Hid. rewrite pending_delete. split; [|..|done].
  - apply id_rep_delete; [|done]. by eapply id_rep_valid.
  - intros id' r'. rewrite lookup_delete_Some. intros [_ ?]. by apply Hi.
Qed.

(** Restoring the cache from a flushed family gives it back. *)
Lemma managed_restore rid db cf m next : is_Some (db !! cf) ->
  managed rid (pending db [] cf) m next ->
  exists records, load_records db cf = Ok (records, next) /\ collect rid records = m.
Proof.
  intros [d Hd] [Hr Hi _]. rewrite pending_nil, Hd in Hr. simpl in Hr.
  eapply load_records_rep; [done..|]. intros id r Hid. by apply Hi in Hid as [? _].
Qed.

(** Filling an empty family with records. *)
Lemma id_rep_fill rid db b cf (l : list A) : pending db b cf = ∅ ->
  Forall (fun r => is_u32 (rid r)) l ->
  id_rep (pending db (foldl (fun b r => stage_put_record b cf (rid r) r) b l) cf) (collect rid l) FIRST_ID.
Proof.
  intros Hb. induction l as [|r l IH] using rev_ind; intros Hl.
  - simpl. rewrite Hb. apply id_rep_empty.
  - apply Forall_app in Hl as [Hl Hr0]. rewrite foldl_app, collect_snoc. simpl.
    unfold stage_put_record at 1. rewrite pending_put. apply id_rep_insert; [by inversion Hr0|auto].
Qed.
(** Replacing a family by the records of a snapshot. *)
Lemma managed_snapshot rid db b cf m next t :
  managed rid t m next -> pending db b cf = ∅ ->
  managed rid
    (pending db (stage_put_counter
       (foldl (fun b r => stage_put_record b cf (rid r) r) b (values m)) cf next) cf)
    m next.
Proof.
  intros [Hr Hi Hn] Hb. split; [|done..]. unfold stage_put_counter. rewrite pending_put.
  apply (id_rep_counter _ _ FIRST_ID); [by destruct Hn|].
  rewrite <- (collect_values rid m) at 2.
  - apply id_rep_fill; [done|]. apply Forall_forall. intros r Hin.
    apply elem_of_values in Hin as [id Hid].
    apply Hi in Hid as [-> ?]. destruct Hn. unfold uint, FIRST_ID in *. lia.
  - intros id r Hid. by apply Hi in Hid as [? _].
Qed.
End Managed.

Lemma find_values {A} (p : A -> bool) (m : gmap Z A) :
  match List.find p (values m) with
  | Some r => exists id, m !! id = Some r /\ p r = true
  | None => forall id r, m !! id = Some r -> p r = false
  end.
Proof.
  destruct (List.find p (values m)) as [r|] eqn:Hf.
  - apply List.find_some in Hf as [Hin Hp]. apply list_elem_of_In, elem_of_values in Hin as [id ?]. eauto.
  - intros id r Hr. eapply List.find_none; [done|]. apply list_elem_of_In, elem_of_values. eauto.
Qed.

(** Runs an operation of the state monad. *)
Ltac run_st := cbv beta delta [sbind sret slift sgets smodify]; cbv beta; cbn [fst snd].
(** ... whose column family is known to be open. *)
Ltac open_st Hd := run_st; unfold open_cf; rewrite ?Hd; cbn [ok_or fst snd].
