(* ===== verification/LogStore.v ===== *)
(** The durable logs under consensus (epoch-pd raft/log_store.rs, epoch-meta
    raft/log_store.rs): entries, vote, commit and purge marks of the placement
    driver's group, and of the metadata groups that share one database. *)

From S2P Require Import Prelude Ids Rocks PdDb.

Inductive LogError : Set := LeRead | LeCorrupt (m : string) | LeMissingCf (name : string).
Inductive Bound : Set := Included (i : Z) | Excluded (i : Z) | Unbounded.
Definition range_start (b : Bound) : Z := match b with Included i => i | Excluded i => saturating_add 64 i 1 | Unbounded => 0 end.
Definition range_end (b : Bound) : Z := match b with Included i => saturating_add 64 i 1 | Excluded i => i | Unbounded => U64_MAX end.

Section LogStore.
Context {RDB : RocksDb no_merge} {Entry LogId Vote : Set} `{!Serde Entry} `{!Serde LogId} `{!Serde Vote}.
(** The id of an entry and the index of an id, as the consensus library has them. *)
Context (entry_log_id : Entry -> LogId) (id_index : LogId -> Z).
Record LogState : Set := { ls_last_purged : option LogId; ls_last : option LogId }.

(** ** The loops over an iterator: up to the end of the log's keys *)

Section Loops.
Context (inside : list Z -> bool) (index : list Z -> option Z).
Definition key_index (key : list Z) : result LogError Z := ok_or (index key) (LeCorrupt "malformed raft log key").
Fixpoint read_loop (end_ : Z) (items : list (list Z * list Z)) (entries : list Entry) : result LogError (list Entry) :=
  match items with
  | [] => Ok entries
  | (key, value) :: items =>
      if negb (inside key) then Ok entries
      else
        i <-? key_index key ;;
        if end_ <=? i then Ok entries
        else entry <-? ok_or (from_slice value) LeRead ;; read_loop end_ items (entries ++ [entry])
  end.
Fixpoint truncate_loop (cf : string) (items : list (list Z * list Z)) (batch : WriteBatch) : WriteBatch :=
  match items with
  | [] => batch
  | (key, _) :: items => if negb (inside key) then batch else truncate_loop cf items (delete_cf batch cf key)
  end.
Fixpoint purge_loop (cf : string) (upto : Z) (items : list (list Z * list Z)) (batch : WriteBatch) : result LogError WriteBatch :=
  match items with
  | [] => Ok batch
  | (key, _) :: items =>
      if negb (inside key) then Ok batch
      else i <-? key_index key ;; if upto <? i then Ok batch else purge_loop cf upto items (delete_cf batch cf key)
  end.
End Loops.
(** The first item of an iterator that goes backwards from a key: the last one at or
    before it. *)
Definition seek_for_prev (d : rdb) (key : list Z) : option (list Z * list Z) :=
  last (filter (fun kv => lex_leb kv.1 key = true) (rdb_iter d [])).
Definition get_cf (db : SmDb) (cf : string) : result LogError rdb := ok_or (db !! cf) (LeMissingCf cf).
Definition decode {T} `{Serde T} (bytes : option (list Z)) : result LogError (option T) :=
  match bytes with None => Ok None | Some b => v <-? ok_or (from_slice b) LeRead ;; Ok (Some v) end.

(** ** The placement driver's log *)

Definition PD_CF : string := "default".
Definition VOTE_KEY : list Z := [118].
Definition COMMITTED_KEY : list Z := [99].
Definition PURGED_KEY : list Z := [112].
Definition LOG_PREFIX : Z := 108.
Definition LOG_PREFIX_END : Z := LOG_PREFIX + 1.
Definition pd_log_key (index : Z) : list Z := LOG_PREFIX :: be_bytes 8 index.
Definition pd_inside (key : list Z) : bool := bool_decide (head key = Some LOG_PREFIX).
Definition index_from_key (key : list Z) : option Z := if len key <? 9 then None else Some (be_val (slice 1 8 key)).

Definition pd_read {T} `{Serde T} (db : SmDb) (key : list Z) : result LogError (option T) := d <-? get_cf db PD_CF ;; decode (rdb_get d key).
Definition pd_last_present_log_id (db : SmDb) : result LogError (option LogId) :=
  d <-? get_cf db PD_CF ;;
  match seek_for_prev d [LOG_PREFIX_END] with
  | None => Ok None
  | Some (key, value) =>
      if negb (pd_inside key) then Ok None else e <-? ok_or (from_slice value) LeRead ;; Ok (Some (entry_log_id e))
  end.
Definition pd_try_get_log_entries (db : SmDb) (start end_ : Bound) : result LogError (list Entry) :=
  d <-? get_cf db PD_CF ;; read_loop pd_inside index_from_key (range_end end_) (rdb_iter d (pd_log_key (range_start start))) [].
Definition pd_get_log_state (db : SmDb) : result LogError LogState :=
  purged <-? pd_read db PURGED_KEY ;;
  last <-? pd_last_present_log_id db ;;
  Ok {| ls_last_purged := purged; ls_last := match last with Some l => Some l | None => purged end |}.
Definition pd_save_vote (db : SmDb) (vote : Vote) : SmDb := write_opt db (put_cf [] PD_CF VOTE_KEY (to_vec vote)).
Definition pd_read_vote (db : SmDb) : result LogError (option Vote) := pd_read db VOTE_KEY.
Definition pd_save_committed (db : SmDb) (committed : option LogId) : SmDb :=
  write_opt db match committed with Some id => put_cf [] PD_CF COMMITTED_KEY (to_vec id) | None => delete_cf [] PD_CF COMMITTED_KEY end.
Definition pd_read_committed (db : SmDb) : result LogError (option LogId) := pd_read db COMMITTED_KEY.
Definition pd_append (db : SmDb) (entries : list Entry) : SmDb :=
  write_opt db (foldl (fun batch e => put_cf batch PD_CF (pd_log_key (id_index (entry_log_id e))) (to_vec e)) [] entries).
Definition pd_truncate (db : SmDb) (log_id : LogId) : result LogError SmDb :=
  d <-? get_cf db PD_CF ;; Ok (write_opt db (truncate_loop pd_inside PD_CF (rdb_iter d (pd_log_key (id_index log_id))) [])).
Definition pd_purge (db : SmDb) (log_id : LogId) : result LogError SmDb :=
  d <-? get_cf db PD_CF ;;
  batch <-? purge_loop pd_inside index_from_key PD_CF (id_index log_id) (rdb_iter d (pd_log_key 0)) [] ;;
  Ok (write_opt db (put_cf batch PD_CF PURGED_KEY (to_vec log_id))).

(** ** The logs of metadata groups *)

Definition LOG_CF : string := "log".
Definition LOG_META_CF : string := "meta".
Definition PER_GROUP_PREFIX : Z := 109.
Definition REGISTRY_PREFIX : Z := 103.
Definition VOTE_SUFFIX : Z := 118.
Definition COMMITTED_SUFFIX : Z := 99.
Definition PURGED_SUFFIX : Z := 112.
Definition meta_log_key (group index : Z) : list Z := be_bytes 8 group ++ be_bytes 8 index.
Definition log_keyspace_end (group : Z) : list Z := meta_log_key (wrap 64 (group + 1)) 0.
Definition group_meta_key (group suffix : Z) : list Z := PER_GROUP_PREFIX :: be_bytes 8 group ++ [suffix].
Definition registry_key (group : Z) : list Z := REGISTRY_PREFIX :: be_bytes 8 group.
Definition meta_inside (group : Z) (key : list Z) : bool := lex_ltb key (log_keyspace_end group).
Definition meta_log_index (key : list Z) : option Z := if len key <? 16 then None else Some (be_val (slice 8 8 key)).

Definition register_group (db : SmDb) (group : Z) (record : list Z) : result LogError SmDb :=
  _d <-? get_cf db LOG_META_CF ;; Ok (write_opt db (put_cf [] LOG_META_CF (registry_key group) record)).
Fixpoint groups_loop (items : list (list Z * list Z)) (groups : list (Z * list Z)) : list (Z * list Z) :=
  match items with
  | [] => groups
  | (key, value) :: items =>
      if lex_leb [REGISTRY_PREFIX + 1] key then groups
      else groups_loop items (if len key <? 9 then groups else groups ++ [(be_val (slice 1 8 key), value)])
  end.
Definition registered_groups (db : SmDb) : result LogError (list (Z * list Z)) :=
  d <-? get_cf db LOG_META_CF ;; Ok (groups_loop (rdb_iter d [REGISTRY_PREFIX]) []).

Definition read_meta {T} `{Serde T} (db : SmDb) (group suffix : Z) : result LogError (option T) :=
  d <-? get_cf db LOG_META_CF ;; decode (rdb_get d (group_meta_key group suffix)).
Definition write_meta {T} `{Serde T} (db : SmDb) (group suffix : Z) (value : option T) (batch : WriteBatch) : result LogError WriteBatch :=
  _d <-? get_cf db LOG_META_CF ;;
  Ok match value with
     | Some v => put_cf batch LOG_META_CF (group_meta_key group suffix) (to_vec v)
     | None => delete_cf batch LOG_META_CF (group_meta_key group suffix)
     end.
Definition meta_last_present_log_id (db : SmDb) (group : Z) : result LogError (option LogId) :=
  d <-? get_cf db LOG_CF ;;
  match seek_for_prev d (log_keyspace_end group) with
  | None => Ok None
  | Some (key, value) =>
      if negb (bool_decide (first_chunk 8 key = Some (be_bytes 8 group))) then Ok None
      else e <-? ok_or (from_slice value) LeRead ;; Ok (Some (entry_log_id e))
  end.
Definition meta_try_get_log_entries (db : SmDb) (group : Z) (start end_ : Bound) : result LogError (list Entry) :=
  d <-? get_cf db LOG_CF ;;
  read_loop (meta_inside group) meta_log_index (range_end end_) (rdb_iter d (meta_log_key group (range_start start))) [].
Definition meta_get_log_state (db : SmDb) (group : Z) : result LogError LogState :=
  purged <-? read_meta db group PURGED_SUFFIX ;;
  last <-? meta_last_present_log_id db group ;;
  Ok {| ls_last_purged := purged; ls_last := match last with Some l => Some l | None => purged end |}.
Definition meta_save_vote (db : SmDb) (group : Z) (vote : Vote) : result LogError SmDb :=
  batch <-? write_meta db group VOTE_SUFFIX (Some vote) [] ;; Ok (write_opt db batch).
Definition meta_read_vote (db : SmDb) (group : Z) : result LogError (option Vote) := read_meta db group VOTE_SUFFIX.
Definition meta_save_committed (db : SmDb) (group : Z) (committed : option LogId) : result LogError SmDb :=
  batch <-? write_meta db group COMMITTED_SUFFIX committed [] ;; Ok (write_opt db batch).
Definition meta_read_committed (db : SmDb) (group : Z) : result LogError (option LogId) := read_meta db group COMMITTED_SUFFIX.
Definition meta_append (db : SmDb) (group : Z) (entries : list Entry) : result LogError SmDb :=
  _d <-? get_cf db LOG_CF ;;
  Ok (write_opt db (foldl (fun batch e => put_cf batch LOG_CF (meta_log_key group (id_index (entry_log_id e))) (to_vec e)) [] entries)).
Definition meta_truncate (db : SmDb) (group : Z) (log_id : LogId) : result LogError SmDb :=
  d <-? get_cf db LOG_CF ;;
  Ok (write_opt db (truncate_loop (meta_inside group) LOG_CF (rdb_iter d (meta_log_key group (id_index log_id))) [])).
Definition meta_purge (db : SmDb) (group : Z) (log_id : LogId) : result LogError SmDb :=
  d <-? get_cf db LOG_CF ;;
  batch <-? purge_loop (meta_inside group) meta_log_index LOG_CF (id_index log_id) (rdb_iter d (meta_log_key group 0)) [] ;;
  batch <-? write_meta db group PURGED_SUFFIX (Some log_id) batch ;;
  Ok (write_opt db batch).
End LogStore.

(** ** Proofs

    The logs of metadata groups are what consensus asks of them, group by group, with
    one exception: a group whose successor has an entry at index 0. *)

(** ** Loops over the keys of one log *)

Section Keys.
Context {Entry : Set} `{!Serde Entry}.
Context (key : Z -> list Z) (inside : list Z -> bool) (index : list Z -> option Z).
Record log_keys : Prop := {
  lk_inside : forall i, is_u64 i -> inside (key i) = true;
  lk_index : forall i, is_u64 i -> index (key i) = Some i;
  lk_order : forall i j, is_u64 i -> is_u64 j -> lex_ltb (key i) (key j) = (i <? j);
  lk_convex : forall k i, is_u64 i -> lex_leb (key 0) k = true -> lex_ltb k (key i) = true -> inside k = true }.
Record log_rep (t : gmap (list Z) (list Z)) (es : gmap Z Entry) : Prop := {
  lr_entry : forall i, is_u64 i -> t !! key i = to_vec <$> es !! i;
  lr_u64 : forall i, is_Some (es !! i) -> is_u64 i;
  lr_key : forall k, is_Some (t !! k) -> lex_leb (key 0) k = true -> inside k = true -> exists i, is_u64 i /\ k = key i }.
Context (Hk : log_keys) (t : gmap (list Z) (list Z)) (es : gmap Z Entry) (Hr : log_rep t es).

Lemma key_lt i j : is_u64 i -> is_u64 j -> lex_ltb (key i) (key j) = true <-> i < j.
Proof. intros Hi Hj. rewrite (lk_order Hk) by done. apply Z.ltb_lt. Qed.
Lemma key_le i j : is_u64 i -> is_u64 j -> lex_leb (key i) (key j) = true <-> i <= j.
Proof. intros Hi Hj. unfold lex_leb. rewrite (lk_order Hk), negb_true_iff by done. apply Z.ltb_ge. Qed.
Lemma key_inj i j : is_u64 i -> is_u64 j -> key i = key j -> i = j.
Proof. intros Hi Hj E. apply (f_equal index) in E. rewrite !(lk_index Hk) in E by done. congruence. Qed.

(** Items of an iterator over the table. *)
Definition items_ok (items : list (list Z * list Z)) : Prop := StronglySorted (fun a b => lex_ltb a b = true) items.*1
  /\ forall k v, (k, v) ∈ items -> t !! k = Some v /\ lex_leb (key 0) k = true.
Lemma items_tail kv items : items_ok (kv :: items) -> items_ok items.
Proof. intros [Hs Hi]. split; [by inversion Hs|]. intros k v Hkv. apply Hi. by right. Qed.
Lemma items_head k v items : items_ok ((k, v) :: items) ->
  (inside k = false /\ forall i, is_u64 i -> key i ∉ ((k, v) :: items).*1)
  \/ exists i e, is_u64 i /\ k = key i /\ es !! i = Some e /\ v = to_vec e /\ forall j, is_u64 j -> key j ∈ items.*1 -> i < j.
Proof.
  intros [Hs Hi]. destruct (Hi k v) as [Ht H0]; [by left|]. cbn in Hs. apply StronglySorted_inv in Hs as [Hs Hf]. rewrite Forall_forall in Hf.
  destruct (inside k) eqn:Ein.
  - right. destruct (lr_key _ _ Hr k ltac:(by eexists) H0 Ein) as (i & Hu & ->). rewrite (lr_entry _ _ Hr) in Ht by done.
    destruct (es !! i) as [e|] eqn:Ee; [|done]. injection Ht as <-. exists i, e. split_and!; try done. intros j Hj Hin. apply key_lt; [done|done|]. by apply Hf.
  - left. split; [done|]. intros i Hu Hin. cbn in Hin. apply elem_of_cons in Hin as [E|Hin].
    + rewrite <- E, (lk_inside Hk) in Ein by done. done.
    + rewrite (lk_convex Hk k i) in Ein; [done|done|done|]. by apply Hf.
Qed.

Lemma read_loop_spec end_ items : items_ok items -> forall acc, exists out, read_loop inside index end_ items acc = Ok (acc ++ out.*2)
  /\ StronglySorted Z.lt out.*1 /\ forall i e, (i, e) ∈ out <-> es !! i = Some e /\ key i ∈ items.*1 /\ i < end_.
Proof.
  induction items as [|[k v] items IH]; intros Hok acc.
  { exists []. split; [cbn; by rewrite app_nil_r|]. split; [constructor|]. intros i e. split; [by intros ?%not_elem_of_nil|]. by intros (_ & ?%not_elem_of_nil & _). }
  destruct (items_head k v items Hok) as [[Ein Hno]|(i0 & e0 & Hu0 & -> & He0 & -> & Hlt)]; cbn [read_loop].
  { rewrite Ein. exists []. split; [cbn; by rewrite app_nil_r|]. split; [constructor|]. intros i e. split; [by intros ?%not_elem_of_nil|].
    intros (He & Hin & _). exfalso. apply (Hno i); [by apply (lr_u64 _ _ Hr); eexists|done]. }
  rewrite (lk_inside Hk) by done. cbn [negb]. unfold key_index. rewrite (lk_index Hk) by done. cbn [ok_or]. destruct (Z.leb_spec end_ i0) as [Hge|Hl].
  { exists []. split; [cbn; by rewrite app_nil_r|]. split; [constructor|]. intros i e. split; [by intros ?%not_elem_of_nil|].
    intros (He & Hin & Hie). exfalso. assert (is_u64 i) as Hu by (apply (lr_u64 _ _ Hr); by eexists). cbn in Hin. apply elem_of_cons in Hin as [E|Hin].
    - apply key_inj in E; [|done|done]. lia.
    - specialize (Hlt i Hu Hin). lia. }
  rewrite from_to. cbn [ok_or]. destruct (IH (items_tail _ _ Hok) (acc ++ [e0])) as (out & -> & Hso & Hel).
  exists ((i0, e0) :: out). split; [cbn; by rewrite <- app_assoc|]. split.
  - cbn. constructor; [done|]. rewrite Forall_forall. intros i Hi. apply list_elem_of_fmap in Hi as ([i' e'] & -> & Hi). cbn. apply Hel in Hi as (He & Hin & _).
    apply Hlt; [by apply (lr_u64 _ _ Hr); eexists|done].
  - intros i e. rewrite elem_of_cons, Hel. cbn. rewrite elem_of_cons. split.
    + intros [[= -> ->]|(? & ? & ?)]; [split_and!; [done|by left|done]|split_and!; [done|by right|done]].
    + intros (He & [E|Hin] & Hie); [|by right]. left. apply key_inj in E; [subst; congruence|by apply (lr_u64 _ _ Hr); eexists|done].
Qed.

(** The keys a loop deletes. *)
Definition deletes (cf : string) (ks : list (list Z)) (batch : WriteBatch) : WriteBatch := foldl (fun b k => delete_cf b cf k) batch ks.
Lemma truncate_loop_spec cf items : items_ok items -> forall batch, exists ks, truncate_loop inside cf items batch = deletes cf ks batch
  /\ (forall i, is_u64 i -> key i ∈ ks <-> key i ∈ items.*1) /\ forall k, k ∈ ks -> exists i, is_u64 i /\ k = key i.
Proof.
  induction items as [|[k v] items IH]; intros Hok batch; [exists []; split; [done|]; split; [done|by intros k ?%not_elem_of_nil]|].
  destruct (items_head k v items Hok) as [[Ein Hno]|(i0 & e0 & Hu0 & -> & He0 & -> & Hlt)]; cbn [truncate_loop].
  { rewrite Ein. exists []. split; [done|]. split; [|by intros k' ?%not_elem_of_nil]. intros i Hu. split; [by intros ?%not_elem_of_nil|]. intros Hin. by destruct (Hno i Hu). }
  rewrite (lk_inside Hk) by done. cbn [negb]. destruct (IH (items_tail _ _ Hok) (delete_cf batch cf (key i0))) as (ks & -> & Hel & Hkey).
  exists (key i0 :: ks). split; [done|]. split; [intros i Hu; cbn; by rewrite !elem_of_cons, Hel|]. intros k [->|Hin]%elem_of_cons; [by exists i0|by apply Hkey].
Qed.
Lemma purge_loop_spec cf upto items : items_ok items -> forall batch, exists ks, purge_loop inside index cf upto items batch = Ok (deletes cf ks batch)
  /\ (forall i, is_u64 i -> key i ∈ ks <-> key i ∈ items.*1 /\ i <= upto) /\ forall k, k ∈ ks -> exists i, is_u64 i /\ k = key i.
Proof.
  induction items as [|[k v] items IH]; intros Hok batch.
  { exists []. split; [done|]. split; [|by intros k' ?%not_elem_of_nil]. intros i _. split; [by intros ?%not_elem_of_nil|]. by intros [?%not_elem_of_nil _]. }
  destruct (items_head k v items Hok) as [[Ein Hno]|(i0 & e0 & Hu0 & -> & He0 & -> & Hlt)]; cbn [purge_loop].
  { rewrite Ein. exists []. split; [done|]. split; [|by intros k' ?%not_elem_of_nil]. intros i Hu. split; [by intros ?%not_elem_of_nil|]. intros [Hin _]. by destruct (Hno i Hu). }
  rewrite (lk_inside Hk) by done. cbn [negb]. unfold key_index. rewrite (lk_index Hk) by done. cbn [ok_or]. destruct (Z.ltb_spec upto i0) as [Hgt|Hle].
  { exists []. split; [done|]. split; [|by intros k' ?%not_elem_of_nil]. intros i Hu. split; [by intros ?%not_elem_of_nil|]. intros [Hin Hi]. cbn in Hin.
    apply elem_of_cons in Hin as [E|Hin]; [apply key_inj in E; [lia|done|done]|]. specialize (Hlt i Hu Hin). lia. }
  destruct (IH (items_tail _ _ Hok) (delete_cf batch cf (key i0))) as (ks & -> & Hel & Hkey). exists (key i0 :: ks). split; [done|].
  split; [|intros k [->|Hin]%elem_of_cons; [by exists i0|by apply Hkey]]. intros i Hu. cbn. rewrite !elem_of_cons, Hel by done. split; [|tauto].
  intros [E|[? ?]]; [|tauto]. apply key_inj in E; [subst; split; [by left|done]|done|done].
Qed.
End Keys.

(** ** The keys of groups *)

Lemma u64_256 x : is_u64 x -> 0 <= x < 256 ^ Z.of_nat 8.
Proof. done. Qed.
Lemma be8_length x : length (be_bytes 8 x) = 8%nat.
Proof. pose proof (len_be_bytes 8 x) as Hl. unfold len in Hl. lia. Qed.
Lemma be8_inj x y : is_u64 x -> is_u64 y -> be_bytes 8 x = be_bytes 8 y -> x = y.
Proof. intros Hx Hy. apply be_bytes_inj; by apply u64_256. Qed.
Lemma meta_key_lt g i g' i' : is_u64 g -> is_u64 i -> is_u64 g' -> is_u64 i' ->
  lex_ltb (meta_log_key g i) (meta_log_key g' i') = true <-> g < g' \/ (g = g' /\ i < i').
Proof.
  intros Hg Hi Hg' Hi'. unfold meta_log_key. rewrite lex_ltb_app_eq_len by (by rewrite !be8_length).
  rewrite !be_bytes_ltb by (by apply u64_256). rewrite orb_true_iff, andb_true_iff, !Z.ltb_lt, bool_decide_eq_true. split.
  - intros [?|[E ?]]; [by left|]. right. split; [|done]. by apply be8_inj.
  - intros [?|[-> ?]]; [by left|by right].
Qed.
Lemma meta_key_inj g i g' i' : is_u64 g -> is_u64 i -> is_u64 g' -> is_u64 i' -> meta_log_key g i = meta_log_key g' i' -> g = g' /\ i = i'.
Proof. intros Hg Hi Hg' Hi' E. apply app_inj_1 in E as [E1 E2]; [|by rewrite !be8_length]. split; by apply be8_inj. Qed.
(** A group with a successor. *)
Definition group_ok (g : Z) : Prop := 0 <= g < 2 ^ 64 - 1.
Lemma group_u64 g : group_ok g -> is_u64 g /\ is_u64 (g + 1).
Proof. unfold group_ok, uint. lia. Qed.
Lemma keyspace_end g : group_ok g -> log_keyspace_end g = meta_log_key (g + 1) 0.
Proof. intros Hg. unfold log_keyspace_end, wrap. rewrite Z.mod_small; [done|]. unfold group_ok in Hg. lia. Qed.
Lemma u64_0 : is_u64 0.
Proof. done. Qed.
Lemma meta_keys g : group_ok g -> log_keys (meta_log_key g) (meta_inside g) meta_log_index.
Proof.
  intros Hg. destruct (group_u64 g Hg) as [Hu Hu']. split.
  - intros i Hi. unfold meta_inside. rewrite keyspace_end by done. apply meta_key_lt; [done..|]. lia.
  - intros i Hi. unfold meta_log_index, meta_log_key. rewrite len_app, !len_be_bytes. cbn [Z.of_nat Z.add Z.ltb]. change (_ <? _) with false. cbv iota. f_equal.
    unfold slice. change (Z.to_nat 8) with 8%nat. rewrite drop_app_length' by (by rewrite be8_length). rewrite take_ge by (by rewrite be8_length).
    by apply (be_val_uint 8 64).
  - intros i j Hi Hj. apply eq_true_iff_eq. rewrite meta_key_lt, Z.ltb_lt by done. lia.
  - intros k i Hi _ Hlt. unfold meta_inside. rewrite keyspace_end by done. eapply lex_ltb_trans; [exact Hlt|]. apply meta_key_lt; [done..|]. lia.
Qed.

(** ** The groups of a database *)

Section Groups.
Context {RDB : RocksDb no_merge} {Entry LogId Vote : Set} `{!Serde Entry} `{!Serde LogId} `{!Serde Vote}.
Context (entry_log_id : Entry -> LogId) (id_index : LogId -> Z).
Abbreviation eindex := (fun e => id_index (entry_log_id e)).

(** What consensus keeps of a group. *)
Record GroupLog : Set := { gl_entries : gmap Z Entry; gl_purged : option LogId; gl_vote : option Vote; gl_committed : option LogId }.
Inductive LogOp : Set :=
| LAppend (entries : list Entry) | LTruncate (id : LogId) | LPurge (id : LogId) | LVote (v : Vote) | LCommitted (c : option LogId).
Definition log_op (db : SmDb) (g : Z) (op : LogOp) : result LogError SmDb :=
  match op with
  | LAppend entries => meta_append entry_log_id id_index db g entries
  | LTruncate id => meta_truncate id_index db g id
  | LPurge id => meta_purge id_index db g id
  | LVote v => meta_save_vote db g v
  | LCommitted c => meta_save_committed db g c
  end.
Definition spec_op (l : GroupLog) (op : LogOp) : GroupLog :=
  match op with
  | LAppend entries => {| gl_entries := foldl (fun m e => <[eindex e := e]> m) (gl_entries l) entries; gl_purged := gl_purged l; gl_vote := gl_vote l; gl_committed := gl_committed l |}
  | LTruncate id => {| gl_entries := filter (fun kv => kv.1 < id_index id) (gl_entries l); gl_purged := gl_purged l; gl_vote := gl_vote l; gl_committed := gl_committed l |}
  | LPurge id => {| gl_entries := filter (fun kv => id_index id < kv.1) (gl_entries l); gl_purged := Some id; gl_vote := gl_vote l; gl_committed := gl_committed l |}
  | LVote v => {| gl_entries := gl_entries l; gl_purged := gl_purged l; gl_vote := Some v; gl_committed := gl_committed l |}
  | LCommitted c => {| gl_entries := gl_entries l; gl_purged := gl_purged l; gl_vote := gl_vote l; gl_committed := c |}
  end.
Definition op_ok (op : LogOp) : Prop :=
  match op with LAppend entries => Forall (fun e => is_u64 (eindex e)) entries | LTruncate id => is_u64 (id_index id) | _ => True end.

Record tables_rep (tl tm : gmap (list Z) (list Z)) (A : Z -> GroupLog) : Prop := {
  tr_entry : forall g i, is_u64 g -> is_u64 i -> tl !! meta_log_key g i = to_vec <$> gl_entries (A g) !! i;
  tr_u64 : forall g i, is_Some (gl_entries (A g) !! i) -> is_u64 i;
  tr_key : forall k, is_Some (tl !! k) -> exists g i, is_u64 g /\ is_u64 i /\ k = meta_log_key g i;
  tr_vote : forall g, is_u64 g -> tm !! group_meta_key g VOTE_SUFFIX = to_vec <$> gl_vote (A g);
  tr_committed : forall g, is_u64 g -> tm !! group_meta_key g COMMITTED_SUFFIX = to_vec <$> gl_committed (A g);
  tr_purged : forall g, is_u64 g -> tm !! group_meta_key g PURGED_SUFFIX = to_vec <$> gl_purged (A g) }.
Definition logs_rep (db : SmDb) (A : Z -> GroupLog) : Prop :=
  exists dl dm, db !! LOG_CF = Some dl /\ db !! LOG_META_CF = Some dm /\ tables_rep (tab dl) (tab dm) A.
Definition with_group (A : Z -> GroupLog) (g : Z) (l : GroupLog) : Z -> GroupLog := fun g' => if decide (g' = g) then l else A g'.

Lemma logs_write db dl dm batch A : db !! LOG_CF = Some dl -> db !! LOG_META_CF = Some dm ->
  tables_rep (pending db batch LOG_CF) (pending db batch LOG_META_CF) A -> logs_rep (write_opt db batch) A.
Proof.
  intros Hl Hm Hr. pose proof (pending_write db batch LOG_CF dl Hl) as Hl'. pose proof (pending_write db batch LOG_META_CF dm Hm) as Hm'.
  destruct (write_opt db batch !! LOG_CF) as [dl'|] eqn:El; [|done]. destruct (write_opt db batch !! LOG_META_CF) as [dm'|] eqn:Em; [|done].
  injection Hl' as Hl'. injection Hm' as Hm'. exists dl', dm'. split_and!; [done|done|]. by rewrite Hl', Hm'.
Qed.
Lemma group_rep tl tm A g : group_ok g -> tables_rep tl tm A -> log_rep (meta_log_key g) (meta_inside g) tl (gl_entries (A g)).
Proof.
  intros Hg [He Hu Hk _ _ _]. destruct (group_u64 g Hg) as [Hg1 Hg2]. split.
  - intros i Hi. by apply He.
  - intros i. apply Hu.
  - intros k Hk0 Hle Hin. destruct (Hk k Hk0) as (g' & i & Hg' & Hi & ->). exists i. split; [done|]. unfold meta_inside in Hin. rewrite keyspace_end in Hin by done.
    apply meta_key_lt in Hin; [|done..]. unfold lex_leb in Hle. apply negb_true_iff, not_true_iff_false in Hle. rewrite meta_key_lt in Hle by done.
    assert (g' = g) as -> by (unfold uint in *; lia). done.
Qed.

(** *** Deletions *)

Lemma pending_deletes db cf ks : forall batch k, pending db (deletes cf ks batch) cf !! k = if decide (k ∈ ks) then None else pending db batch cf !! k.
Proof.
  induction ks as [|k0 ks IH]; intros batch k; [done|]. cbn [deletes foldl]. unfold deletes in IH. rewrite IH, pending_delete. destruct (decide (k ∈ ks)) as [Hin|Hout].
  - rewrite decide_True; [done|by right].
  - destruct (decide (k = k0)) as [->|Hne]; [rewrite lookup_delete_eq, decide_True; [done|by left]|]. rewrite lookup_delete_ne by done.
    rewrite decide_False; [done|]. by intros [?|?]%elem_of_cons.
Qed.
Lemma pending_deletes_ne db cf cf' ks : cf <> cf' -> forall batch, pending db (deletes cf' ks batch) cf = pending db batch cf.
Proof. intros Hne. induction ks as [|k ks IH]; intros batch; [done|]. cbn [deletes foldl]. unfold deletes in IH. by rewrite IH, pending_delete_ne. Qed.
(** Deleting the entries of a group that [P] does not keep. *)
Lemma tables_filter tl tm A g (ks : list (list Z)) (P : Z -> Prop) `{forall i, Decision (P i)} : is_u64 g -> tables_rep tl tm A ->
  (forall k, k ∈ ks -> exists i, is_u64 i /\ k = meta_log_key g i) -> (forall i, is_u64 i -> meta_log_key g i ∈ ks <-> is_Some (gl_entries (A g) !! i) /\ ~ P i) ->
  forall tl', (forall k, tl' !! k = if decide (k ∈ ks) then None else tl !! k) ->
  tables_rep tl' tm (with_group A g {| gl_entries := filter (fun kv => P kv.1) (gl_entries (A g)); gl_purged := gl_purged (A g); gl_vote := gl_vote (A g); gl_committed := gl_committed (A g) |}).
Proof.
  intros Hg [He Hu Hk Hv Hc Hp] Hks Hdel tl' Ht. split.
  - intros g' i Hg' Hi. rewrite Ht. unfold with_group. destruct (decide (g' = g)) as [->|Hne].
    + cbn [gl_entries]. rewrite map_lookup_filter, He by done. destruct (decide _) as [Hin|Hout]; [apply Hdel in Hin as [[e Ee] HnP]; [|done]|].
      * rewrite Ee. cbn. by rewrite option_guard_False.
      * destruct (gl_entries (A g) !! i) as [e|] eqn:Ee; [|done]. cbn. rewrite option_guard_True; [done|]. apply dec_stable. intros HnP. apply Hout, Hdel; [done|]. by split; [eexists|].
    + rewrite decide_False; [by apply He|]. intros (j & Hj & E)%Hks. apply meta_key_inj in E; tauto.
  - intros g' i. unfold with_group. destruct (decide (g' = g)) as [->|Hne]; [|apply Hu]. cbn [gl_entries]. rewrite map_lookup_filter. intros [e E].
    apply (Hu g). destruct (gl_entries (A g) !! i); [by eexists|done].
  - intros k. rewrite Ht. destruct (decide _); [by intros []|apply Hk].
  - intros g' Hg'. unfold with_group. destruct (decide (g' = g)) as [->|]; by apply Hv.
  - intros g' Hg'. unfold with_group. destruct (decide (g' = g)) as [->|]; by apply Hc.
  - intros g' Hg'. unfold with_group. destruct (decide (g' = g)) as [->|]; by apply Hp.
Qed.

(** *** The marks of a group *)

Lemma meta_mark_inj g s g' s' : is_u64 g -> is_u64 g' -> group_meta_key g s = group_meta_key g' s' -> g = g' /\ s = s'.
Proof.
  intros Hg Hg' E. apply (f_equal tail) in E. change (be_bytes 8 g ++ [s] = be_bytes 8 g' ++ [s']) in E. apply app_inj_1 in E as [E1 E2]; [|by rewrite !be8_length]. split; [by apply be8_inj|congruence].
Qed.
Lemma mark_put (tm : gmap (list Z) (list Z)) g s v g' s' : is_u64 g -> is_u64 g' ->
  partial_alter (fun _ => v) (group_meta_key g s) tm !! group_meta_key g' s' = if decide (g' = g /\ s' = s) then v else tm !! group_meta_key g' s'.
Proof.
  intros Hg Hg'. destruct (decide (g' = g /\ s' = s)) as [[-> ->]|Hne]; [apply lookup_partial_alter_eq|].
  rewrite lookup_partial_alter_ne; [done|]. intros E. apply meta_mark_inj in E; [|done..]. destruct E as [-> ->]. tauto.
Qed.
Lemma tables_mark tl tm A g s (v : option (list Z)) l : is_u64 g -> tables_rep tl tm A -> gl_entries l = gl_entries (A g) ->
  (to_vec <$> gl_vote l = if decide (s = VOTE_SUFFIX) then v else to_vec <$> gl_vote (A g)) ->
  (to_vec <$> gl_committed l = if decide (s = COMMITTED_SUFFIX) then v else to_vec <$> gl_committed (A g)) ->
  (to_vec <$> gl_purged l = if decide (s = PURGED_SUFFIX) then v else to_vec <$> gl_purged (A g)) ->
  tables_rep tl (partial_alter (fun _ => v) (group_meta_key g s) tm) (with_group A g l).
Proof.
  intros Hg [He Hu Hk Hv Hc Hp] El Ev Ec Ep. unfold with_group.
  assert (forall (T : Set) (SE : Serde T) (f : GroupLog -> option T) s', (forall g', is_u64 g' -> tm !! group_meta_key g' s' = to_vec <$> f (A g')) ->
    (to_vec <$> f l = if decide (s = s') then v else to_vec <$> f (A g)) -> forall g', is_u64 g' ->
    partial_alter (fun _ => v) (group_meta_key g s) tm !! group_meta_key g' s' = to_vec <$> f (if decide (g' = g) then l else A g')) as Hgen.
  { intros T SE f s' Hf Hl g' Hg'. rewrite mark_put by done. destruct (decide (g' = g)) as [->|Hne].
    - rewrite Hl. destruct (decide (s = s')) as [->|Hs]; [by rewrite decide_True|]. rewrite decide_False by (intros [_ ?]; congruence). by apply Hf.
    - rewrite decide_False by tauto. by apply Hf. }
  split; [| |done|by apply (Hgen _ _ gl_vote)|by apply (Hgen _ _ gl_committed)|by apply (Hgen _ _ gl_purged)].
  - intros g' i Hg' Hi. destruct (decide (g' = g)) as [->|]; [rewrite El|]; by apply He.
  - intros g' i. destruct (decide (g' = g)) as [->|]; [rewrite El|]; apply Hu.
Qed.

(** *** Entries *)

Lemma tables_ext tl tm A A' : (forall g, A g = A' g) -> tables_rep tl tm A -> tables_rep tl tm A'.
Proof. intros E [He Hu Hk Hv Hc Hp]. split; intros; rewrite <- ?E; eauto. apply (Hu g i). by rewrite E. Qed.
Lemma tables_put tl tm A g e : is_u64 g -> is_u64 (eindex e) -> tables_rep tl tm A ->
  tables_rep (<[meta_log_key g (eindex e) := to_vec e]> tl) tm (with_group A g (spec_op (A g) (LAppend [e]))).
Proof.
  intros Hg Hi [He Hu Hk Hv Hc Hp]. unfold with_group. cbn [spec_op foldl]. split.
  - intros g' j Hg' Hj. destruct (decide (g' = g)) as [->|Hne]; cbn [gl_entries].
    + destruct (decide (j = eindex e)) as [->|Hne]; [by rewrite !lookup_insert_eq|]. rewrite !lookup_insert_ne; [by apply He|done|].
      intros E. apply meta_key_inj in E; [|done..]. destruct E; congruence.
    + rewrite lookup_insert_ne; [by apply He|]. intros E. apply meta_key_inj in E; [|done..]. destruct E; congruence.
  - intros g' j. destruct (decide (g' = g)) as [->|Hne]; [|apply Hu]. cbn [gl_entries]. destruct (decide (j = eindex e)) as [->|Hne]; [done|].
    rewrite lookup_insert_ne by done. apply Hu.
  - intros k Hin. destruct (decide (k = meta_log_key g (eindex e))) as [->|Hne]; [by exists g, (eindex e)|]. apply Hk. by rewrite lookup_insert_ne in Hin by done.
  - intros g' Hg'. destruct (decide (g' = g)) as [->|]; by apply Hv.
  - intros g' Hg'. destruct (decide (g' = g)) as [->|]; by apply Hc.
  - intros g' Hg'. destruct (decide (g' = g)) as [->|]; by apply Hp.
Qed.
Lemma append_rep db g entries : is_u64 g -> Forall (fun e => is_u64 (eindex e)) entries -> forall batch A,
  tables_rep (pending db batch LOG_CF) (pending db batch LOG_META_CF) A ->
  let batch' := foldl (fun b e => put_cf b LOG_CF (meta_log_key g (eindex e)) (to_vec e)) batch entries in
  tables_rep (pending db batch' LOG_CF) (pending db batch' LOG_META_CF) (with_group A g (spec_op (A g) (LAppend entries))).
Proof.
  intros Hg. induction 1 as [|e entries He Hes IH]; intros batch A Hr; cbn [foldl].
  { eapply tables_ext; [|exact Hr]. intros g'. unfold with_group. destruct (decide (g' = g)) as [->|]; [|done]. cbn [spec_op foldl]. by destruct (A g). }
  specialize (IH (put_cf batch LOG_CF (meta_log_key g (eindex e)) (to_vec e)) (with_group A g (spec_op (A g) (LAppend [e])))).
  eapply tables_ext; [|apply IH].
  - intros g'. unfold with_group. destruct (decide (g = g)) as [_|]; [|done]. by destruct (decide (g' = g)) as [->|].
  - rewrite pending_put, pending_put_ne by done. by apply tables_put.
Qed.

(** *** Iterators *)

Lemma iter_items d tm A g start : group_ok g -> is_u64 start -> tables_rep (tab d) tm A ->
  items_ok (meta_log_key g) (tab d) (rdb_iter d (meta_log_key g start))
  /\ forall i, is_u64 i -> meta_log_key g i ∈ (rdb_iter d (meta_log_key g start)).*1 <-> is_Some (gl_entries (A g) !! i) /\ start <= i.
Proof.
  intros Hg Hs Hr. destruct (group_u64 g Hg) as [Hgu _]. pose proof (meta_keys g Hg) as Hk. split.
  - split; [apply rdb_iter_sorted|]. intros k v [Hget Hle]%rdb_iter_elem. rewrite tab_get. split; [done|]. eapply lex_leb_trans; [|exact Hle].
    apply (key_le _ _ _ Hk); [done|done|]. unfold uint in Hs. lia.
  - intros i Hi. rewrite list_elem_of_fmap. split.
    + intros ([k v] & E & [Hget Hle]%rdb_iter_elem). cbn in E. subst k. rewrite <- tab_get, (tr_entry _ _ _ Hr) in Hget by done.
      split; [destruct (gl_entries (A g) !! i); [by eexists|done]|]. by apply (key_le _ _ _ Hk) in Hle.
    + intros [[e Ee] Hle]. exists (meta_log_key g i, to_vec e). split; [done|]. apply rdb_iter_elem. rewrite <- tab_get, (tr_entry _ _ _ Hr) by done. rewrite Ee.
      split; [done|]. by apply (key_le _ _ _ Hk).
Qed.

(** *** Operations *)

Lemma log_op_rep db A g op : group_ok g -> op_ok op -> logs_rep db A ->
  exists db', log_op db g op = Ok db' /\ logs_rep db' (with_group A g (spec_op (A g) op)).
Proof.
  intros Hg Hop (dl & dm & Hl & Hm & Hr). destruct (group_u64 g Hg) as [Hgu _]. pose proof (meta_keys g Hg) as Hk. pose proof (group_rep _ _ _ _ Hg Hr) as Hlr.
  assert (tables_rep (pending db [] LOG_CF) (pending db [] LOG_META_CF) A) as Hr0 by (rewrite !pending_nil, Hl, Hm; done).
  destruct op as [entries|id|id|v|c]; cbn [log_op op_ok] in *.
  - unfold meta_append, get_cf. rewrite Hl. cbn [ok_or]. eexists. split; [done|]. eapply logs_write; [done|done|]. by apply append_rep.
  - unfold meta_truncate, get_cf. rewrite Hl. cbn [ok_or]. destruct (iter_items dl _ A g _ Hg Hop Hr) as [Hok Hin].
    destruct (truncate_loop_spec _ _ _ Hk _ _ Hlr LOG_CF _ Hok []) as (ks & -> & Hks & Hkey). eexists. split; [done|]. eapply logs_write; [done|done|].
    rewrite (pending_deletes_ne db LOG_META_CF LOG_CF) by done. refine (tables_filter (pending db [] LOG_CF) _ A g ks (fun i => i < id_index id) _ _ _ _ _ _); [done|done|done| |apply pending_deletes].
    intros i Hi. rewrite Hks, Hin by done. by rewrite Z.nlt_ge.
  - unfold meta_purge, get_cf, write_meta, get_cf. rewrite Hl, Hm. cbn [ok_or]. destruct (iter_items dl _ A g 0 Hg u64_0 Hr) as [Hok Hin].
    destruct (purge_loop_spec _ _ _ Hk _ _ Hlr LOG_CF (id_index id) _ Hok []) as (ks & -> & Hks & Hkey). eexists. split; [done|]. eapply logs_write; [done|done|].
    rewrite pending_put, pending_put_ne, (pending_deletes_ne db LOG_META_CF LOG_CF) by done.
    set (l1 := {| gl_entries := filter (fun kv => id_index id < kv.1) (gl_entries (A g)); gl_purged := gl_purged (A g); gl_vote := gl_vote (A g); gl_committed := gl_committed (A g) |}).
    eapply (tables_ext _ _ (with_group (with_group A g l1) g (spec_op (A g) (LPurge id)))).
    { intros g'. unfold with_group. by destruct (decide (g' = g)). }
    apply (tables_mark _ _ (with_group A g l1) g PURGED_SUFFIX (Some (to_vec id))); [done| |unfold with_group; destruct (decide (g = g)); done..].
    refine (tables_filter (pending db [] LOG_CF) _ A g ks (fun i => id_index id < i) _ _ _ _ _ _); [done|done|done| |apply pending_deletes].
    intros i Hi. rewrite Hks, Hin by done. rewrite Z.nlt_ge. unfold uint in Hi. split; [tauto|]. intros [? ?]. split; [|done]. split; [done|lia].
  - unfold meta_save_vote, write_meta, get_cf. rewrite Hm. cbn [ok_or]. eexists. split; [done|]. eapply logs_write; [done|done|]. rewrite pending_put, pending_put_ne by done.
    by apply (tables_mark _ _ A g VOTE_SUFFIX (Some (to_vec v))).
  - unfold meta_save_committed, write_meta, get_cf. rewrite Hm. cbn [ok_or]. eexists. split; [done|]. eapply logs_write; [done|done|].
    destruct c as [id|]; [rewrite pending_put, pending_put_ne by done|rewrite pending_delete, pending_delete_ne by done].
    + by apply (tables_mark _ _ A g COMMITTED_SUFFIX (Some (to_vec id))).
    + by apply (tables_mark _ _ A g COMMITTED_SUFFIX None).
Qed.

(** *** Reads *)

Lemma entries_read db A g start end_ : group_ok g -> is_u64 (range_start start) -> logs_rep db A ->
  exists out, meta_try_get_log_entries db g start end_ = Ok out.*2 /\ StronglySorted Z.lt out.*1
    /\ forall i e, (i, e) ∈ out <-> gl_entries (A g) !! i = Some e /\ range_start start <= i < range_end end_.
Proof.
  intros Hg Hs (dl & dm & Hl & Hm & Hr). unfold meta_try_get_log_entries, get_cf. rewrite Hl. cbn [ok_or].
  destruct (iter_items dl _ A g _ Hg Hs Hr) as [Hok Hin].
  destruct (read_loop_spec _ _ _ (meta_keys g Hg) _ _ (group_rep _ _ _ _ Hg Hr) (range_end end_) _ Hok []) as (out & -> & Hso & Hel). exists out. split_and!; [done|done|].
  intros i e. rewrite Hel. split.
  - intros (He & Hi & Hlt). split; [done|]. apply Hin in Hi; [lia|]. apply (tr_u64 _ _ _ Hr g). by eexists.
  - intros (He & Hle & Hlt). split_and!; [done| |done]. apply Hin; [apply (tr_u64 _ _ _ Hr g); by eexists|]. by split; [eexists|].
Qed.
Lemma mark_read {T : Set} `{!Serde T} dm (v : option T) k : tab dm !! k = to_vec <$> v -> decode (rdb_get dm k) = Ok v.
Proof. rewrite tab_get. intros ->. destruct v as [x|]; [|done]. cbn. by rewrite from_to. Qed.
Lemma seek_spec d K : match seek_for_prev d K with
  | None => forall k, is_Some (tab d !! k) -> lex_leb k K = true -> False
  | Some (k, v) => tab d !! k = Some v /\ lex_leb k K = true /\ forall k', is_Some (tab d !! k') -> lex_leb k' K = true -> lex_leb k' k = true end.
Proof.
  unfold seek_for_prev. set (l := filter _ _).
  assert (forall k v, (k, v) ∈ l <-> tab d !! k = Some v /\ lex_leb k K = true) as Hl.
  { intros k v. unfold l. rewrite list_elem_of_filter, tab_iter. cbn. tauto. }
  assert (StronglySorted (fun a b => lex_ltb a b = true) l.*1) as Hs.
  { unfold l. generalize (rdb_iter_sorted d []). clear. induction (rdb_iter d []) as [|[k v] l IH]; [done|]. intros Hs. cbn in Hs. apply StronglySorted_inv in Hs as [Hs Hf].
    rewrite filter_cons. case_decide; [|by apply IH]. cbn. constructor; [by apply IH|]. rewrite Forall_forall in Hf |- *. intros k' Hk'.
    apply Hf. apply list_elem_of_fmap in Hk' as (kv & -> & Hkv). apply list_elem_of_filter in Hkv as [_ Hkv]. apply list_elem_of_fmap. by exists kv. }
  destruct (last l) as [[k v]|] eqn:El.
  - apply last_Some in El as [l' El]. split_and!; [by apply Hl; rewrite El; set_solver|by apply (Hl k v); rewrite El; set_solver|].
    intros k' [v' Hv'] Hle. assert ((k', v') ∈ l) as Hin by by apply Hl. rewrite El in Hin, Hs. apply elem_of_app in Hin as [Hin|Hin].
    + rewrite fmap_app in Hs. apply StronglySorted_app in Hs as (Hs' & _ & _). apply lex_leb_lt_or_eq. left. apply (Hs' k' k); [|cbn; by left].
      apply list_elem_of_fmap. by exists (k', v').
    + apply list_elem_of_singleton in Hin. injection Hin as -> ->. apply lex_leb_refl.
  - apply last_None in El. intros k [v Hv] Hle. assert ((k, v) ∈ l) as Hin by by apply Hl. rewrite El in Hin. by apply not_elem_of_nil in Hin.
Qed.

Lemma first_chunk_key g i g' : is_u64 g -> is_u64 g' -> first_chunk 8 (meta_log_key g i) = Some (be_bytes 8 g') <-> g = g'.
Proof.
  intros Hg Hg'. unfold first_chunk, meta_log_key. rewrite (proj2 (Z.leb_le _ _)) by (rewrite len_app, !len_be_bytes; lia).
  change (Z.to_nat 8) with 8%nat. rewrite take_app_length' by (by rewrite be8_length). split; [|intros ->; done]. intros E%Some_inj. by apply be8_inj.
Qed.
Definition top (es : gmap Z Entry) (i : Z) (e : Entry) : Prop := es !! i = Some e /\ forall j, is_Some (es !! j) -> j <= i.
Lemma top_exists es : es <> ∅ -> exists i e, top es i e.
Proof.
  induction es as [|i e m Hi IH] using map_ind; intros Hes; [done|]. destruct (decide (m = ∅)) as [->|Hne].
  { exists i, e. split; [apply lookup_insert_eq|]. intros j [x Hx]. destruct (decide (i = j)) as [->|Hij]; [lia|]. by rewrite lookup_insert_ne, lookup_empty in Hx. }
  destruct (IH Hne) as (j & ej & Hj & Htop). destruct (Z.le_gt_cases i j) as [Hle|Hgt].
  - exists j, ej. assert (i <> j) by congruence. split; [by rewrite lookup_insert_ne|]. intros x Hx. destruct (decide (i = x)) as [->|]; [lia|]. rewrite lookup_insert_ne in Hx by done. by apply Htop.
  - exists i, e. split; [apply lookup_insert_eq|]. intros x Hx. destruct (decide (i = x)) as [->|]; [lia|]. rewrite lookup_insert_ne in Hx by done. specialize (Htop x Hx). lia.
Qed.
(** The last entry of the log; none at all if the next group has an entry 0, on which
    the backward iterator starts. *)
Lemma last_read db A g : group_ok g -> logs_rep db A ->
  (is_Some (gl_entries (A (g + 1)) !! 0) -> meta_last_present_log_id entry_log_id db g = Ok None)
  /\ (gl_entries (A g) = ∅ -> meta_last_present_log_id entry_log_id db g = Ok None)
  /\ (gl_entries (A (g + 1)) !! 0 = None -> forall i e, top (gl_entries (A g)) i e -> meta_last_present_log_id entry_log_id db g = Ok (Some (entry_log_id e))).
Proof.
  intros Hg (dl & dm & Hl & Hm & Hr). destruct (group_u64 g Hg) as [Hgu Hgu']. unfold meta_last_present_log_id, get_cf. rewrite Hl. cbn [ok_or].
  rewrite keyspace_end by done. pose proof (seek_spec dl (meta_log_key (g + 1) 0)) as Hs. pose proof (tr_entry _ _ _ Hr (g + 1) 0 Hgu' u64_0) as H0.
  destruct (seek_for_prev dl (meta_log_key (g + 1) 0)) as [[k v]|].
  2:{ split_and!; [done|done|]. intros _ i e [He _]. assert (is_u64 i) as Hi by (apply (tr_u64 _ _ _ Hr g); by eexists). exfalso.
      apply (Hs (meta_log_key g i)); [rewrite (tr_entry _ _ _ Hr), He by done; by eexists|]. apply lex_leb_lt_or_eq. left. apply meta_key_lt; [done..|]. lia. }
  destruct Hs as (Hv & Hle & Hmax). destruct (tr_key _ _ _ Hr k ltac:(by eexists)) as (g' & i' & Hg' & Hi' & ->).
  pose proof (first_chunk_key g' i' g Hg' Hgu) as Hfc. rewrite (tr_entry _ _ _ Hr) in Hv by done.
  destruct (gl_entries (A g') !! i') as [e'|] eqn:Ee'; [|done]. injection Hv as <-. split_and!.
  - intros Hsome. assert (meta_log_key g' i' = meta_log_key (g + 1) 0) as E.
    { apply lex_leb_antisym; [done|]. apply Hmax; [rewrite H0; by apply fmap_is_Some|apply lex_leb_refl]. }
    apply meta_key_inj in E; [|done..]. rewrite bool_decide_false; [done|]. rewrite Hfc. lia.
  - intros Hempty. rewrite bool_decide_false; [done|]. rewrite Hfc. intros ->. by rewrite Hempty, lookup_empty in Ee'.
  - intros Hnone i e [He Htop]. assert (is_u64 i) as Hi by (apply (tr_u64 _ _ _ Hr g); by eexists).
    assert (lex_leb (meta_log_key g i) (meta_log_key g' i') = true) as Hge.
    { apply Hmax; [rewrite (tr_entry _ _ _ Hr), He by done; by eexists|]. apply lex_leb_lt_or_eq. left. apply meta_key_lt; [done..|]. lia. }
    apply lex_leb_lt_or_eq in Hle as [Hlt|E]; [|apply meta_key_inj in E; [|done..]; destruct E as [-> ->]; congruence].
    apply meta_key_lt in Hlt; [|done..]. apply lex_leb_lt_or_eq in Hge as [Hge|E].
    + apply meta_key_lt in Hge; [|done..]. assert (g' = g) as -> by (unfold uint in *; lia). specialize (Htop i' ltac:(by eexists)). lia.
    + apply meta_key_inj in E; [|done..]. destruct E as [-> ->]. rewrite bool_decide_true by by apply Hfc. cbn [negb]. rewrite from_to. cbn. congruence.
Qed.

(** C25: the logs of the metadata groups on a node, which share one database. Every
    operation on a group succeeds and changes that group alone, as consensus asks:
    append, truncation from an index, purging up to one, vote and commit mark. In every
    state reached so, each group reads back its vote, its commit mark, and the entries
    of any range of indexes in order; its last log id is that of its last entry, or the
    purge mark without one, unless the group with the next id has an entry at index 0:
    then it is the purge mark whatever entries the group has. *)
Theorem meta_logs_refine db A : logs_rep db A ->
  (forall g op, group_ok g -> op_ok op -> exists db', log_op db g op = Ok db' /\ logs_rep db' (with_group A g (spec_op (A g) op)))
  /\ forall g, group_ok g ->
       meta_read_vote db g = Ok (gl_vote (A g)) /\ meta_read_committed db g = Ok (gl_committed (A g))
       /\ (forall start end_, is_u64 (range_start start) -> exists out, meta_try_get_log_entries db g start end_ = Ok out.*2 /\ StronglySorted Z.lt out.*1
            /\ forall i e, (i, e) ∈ out <-> gl_entries (A g) !! i = Some e /\ range_start start <= i < range_end end_)
       /\ exists last, meta_get_log_state entry_log_id db g = Ok {| ls_last_purged := gl_purged (A g); ls_last := last |}
            /\ (gl_entries (A g) = ∅ -> last = gl_purged (A g))
            /\ (gl_entries (A (g + 1)) !! 0 = None -> forall i e, top (gl_entries (A g)) i e -> last = Some (entry_log_id e))
            /\ (is_Some (gl_entries (A (g + 1)) !! 0) -> last = gl_purged (A g)).
Proof.
  intros Hr. split; [intros g op Hg Hop; by apply log_op_rep|]. intros g Hg. destruct (group_u64 g Hg) as [Hgu _].
  pose proof (fun start end_ Hs => entries_read db A g start end_ Hg Hs Hr) as Hread. destruct (last_read db A g Hg Hr) as (L1 & L2 & L3).
  destruct Hr as (dl & dm & Hl & Hm & Hr). unfold meta_read_vote, meta_read_committed, meta_get_log_state, read_meta, get_cf. rewrite Hm. cbn [ok_or].
  rewrite !(mark_read dm (gl_vote (A g))), !(mark_read dm (gl_committed (A g))), !(mark_read dm (gl_purged (A g))) by by apply Hr.
  split_and!; [done|done|exact Hread|].
  destruct (decide (gl_entries (A g) = ∅)) as [E|E]; [|destruct (gl_entries (A (g + 1)) !! 0) as [e0|] eqn:E0].
  - rewrite (L2 E). eexists. split; [done|]. split_and!; [done| |done]. intros _ i e [He _]. by rewrite E, lookup_empty in He.
  - rewrite (L1 ltac:(by eexists)). eexists. split; [done|]. by split_and!.
  - destruct (meta_last_present_log_id entry_log_id db g) as [l|err] eqn:El.
    + eexists. split; [done|]. split_and!; [done| |by intros []]. intros _ i e Ht. pose proof (L3 eq_refl i e Ht) as H. by injection H as ->.
    + exfalso. assert (exists i e, top (gl_entries (A g)) i e) as (i & e & Ht); [|by specialize (L3 eq_refl i e Ht)].
      by apply top_exists.
Qed.
End Groups.

(** *** Two neighbouring groups *)

#[local] Existing Instance cells_rocks.
#[local] Instance ex_serde : Serde Z := countable_serde.
#[local] Instance ex_entry_serde : Serde (Z * Z) := countable_serde.
(** An entry is its index and a payload, an id the index. *)
Definition ex_logs : gmap string (rdb (merge := no_merge)) := {[LOG_CF := rdb_empty; LOG_META_CF := rdb_empty]}.
Definition no_log : GroupLog (Entry := Z * Z) (LogId := Z) (Vote := Z) := {| gl_entries := ∅; gl_purged := None; gl_vote := None; gl_committed := None |}.
Abbreviation ex_log_op := (log_op (Entry := Z * Z) (LogId := Z) (Vote := Z) fst id).
Lemma ex_logs_rep : logs_rep (Entry := Z * Z) (LogId := Z) (Vote := Z) ex_logs (fun _ => no_log).
Proof.
  exists rdb_empty, rdb_empty. split_and!; [done|done|]. assert (tab (rdb_empty (merge := no_merge)) = ∅) as -> by done.
  split; intros; cbn [no_log gl_entries gl_vote gl_committed gl_purged] in *; rewrite ?lookup_empty in *; try done; by destruct H.
Qed.
Lemma meta_logs_refine_witness : exists db', ex_log_op ex_logs 4 (LAppend [(0, 7); (1, 8)]) = Ok db' /\ meta_read_vote (Vote := Z) ex_logs 4 = Ok None.
Proof.
  destruct (meta_logs_refine fst id ex_logs (fun _ => no_log) ex_logs_rep) as [Hop Hread].
  assert (group_ok 4) as Hg by (unfold group_ok; lia). assert (op_ok fst id (LAppend (Vote := Z) [(0, 7); (1, 8)])) as Ho by by repeat constructor.
  destruct (Hop 4 _ Hg Ho) as (db' & E & _). exists db'. split; [exact E|]. exact (proj1 (Hread 4 Hg)).
Defined.
(** A group that has two entries reports an empty log as soon as the group with the
    next id has its first entry, at index 0. *)
Definition ex_shared : result LogError (gmap string (rdb (merge := no_merge))) :=
  db <-? ex_log_op ex_logs 4 (LAppend [(0, 7); (1, 8)]) ;; ex_log_op db 5 (LAppend [(0, 9)]).
Lemma neighbour_hides_log :
  (db <-? ex_log_op ex_logs 4 (LAppend [(0, 7); (1, 8)]) ;; meta_get_log_state (Entry := Z * Z) fst db 4) = Ok {| ls_last_purged := None; ls_last := Some 1 |}
  /\ (db <-? ex_shared ;; meta_get_log_state (Entry := Z * Z) fst db 4) = Ok {| ls_last_purged := None; ls_last := None |}
  /\ (db <-? ex_shared ;; meta_try_get_log_entries (Entry := Z * Z) db 4 Unbounded Unbounded) = Ok [(0, 7); (1, 8)].
Proof. split; [vm_compute; reflexivity|]. split; vm_compute; reflexivity. Qed.
