(* ===== verification/PdCluster.v ===== *)
(** Cluster membership of the placement driver (epoch-pd: cluster/mod.rs,
    cluster/node.rs, cluster/disk.rs): nodes, disks, their life cycles, and the
    managers that apply the replicated commands. A manager's state is its
    in-memory index; every command stages its durable writes in the batch. *)

From S2P Require Import Prelude Ids Rocks PdDb.

Inductive RejectReason : Set :=
| RR_NotFound | RR_InvalidTransition | RR_NotRemovable | RR_NodeNotFound
| RR_InvalidChunkPlan | RR_DiskUnavailable | RR_AffinityViolation.
#[export] Instance RejectReason_eq_dec : EqDecision RejectReason.
Proof. solve_decision. Defined.

(** ** Nodes (node.rs) *)

Definition NODE_CF : string := "node".

(** [RoleSet(u8)] *)
Definition RoleSet_DATA : Z := 1.
Definition RoleSet_GATEWAY : Z := 2.
Definition RoleSet_META : Z := 4.
Definition RoleSet_union (a b : Z) : Z := Z.lor a b.
Definition RoleSet_contains (a b : Z) : bool := Z.land a b =? b.

Inductive NodeStatus : Set := NS_Starting | NS_Live | NS_Offline | NS_Lost | NS_Decommissioned.
#[export] Instance NodeStatus_eq_dec : EqDecision NodeStatus.
Proof. solve_decision. Defined.

Definition NodeStatus_can_transition_to (self next : NodeStatus) : bool :=
  if decide (self = next) then true
  else match self, next with
       | NS_Starting, (NS_Live | NS_Offline | NS_Decommissioned) => true
       | NS_Live, (NS_Offline | NS_Decommissioned) => true
       | NS_Offline, (NS_Live | NS_Lost | NS_Decommissioned) => true
       | NS_Lost, (NS_Live | NS_Decommissioned) => true
       | _, _ => false
       end.

Record Node : Set := {
  n_node_id : NodeId; n_addr : string; n_az : string; n_rack : string; n_roles : Z;
  n_status : NodeStatus
}.
Record RegisterNode : Set := { rn_addr : string; rn_az : string; rn_rack : string; rn_roles : Z }.
Record UpdateNodeStatus : Set := { un_node_id : NodeId; un_status : NodeStatus }.
Record RemoveNode : Set := { rmn_node_id : NodeId }.
Record NodeIndex : Set := { ni_nodes : gmap Z Node; ni_next_id : Z }.

Definition find_by_addr (index : NodeIndex) (addr : string) : option NodeId :=
  n_node_id <$> List.find (fun node => bool_decide (n_addr node = addr)) (values (ni_nodes index)).

(** ** Disks (disk.rs) *)

Definition DISK_CF : string := "disk".

Inductive DiskStatus : Set :=
| DS_Normal | DS_Broken | DS_Repairing | DS_Repaired | DS_Draining | DS_Dropped.
#[export] Instance DiskStatus_eq_dec : EqDecision DiskStatus.
Proof. solve_decision. Defined.

Definition DiskStatus_can_transition_to (self next : DiskStatus) : bool :=
  if decide (self = next) then true
  else match self, next with
       | DS_Normal, (DS_Broken | DS_Draining | DS_Dropped) => true
       | DS_Broken, (DS_Repairing | DS_Dropped) => true
       | DS_Repairing, (DS_Repaired | DS_Dropped) => true
       | DS_Repaired, (DS_Normal | DS_Dropped) => true
       | DS_Draining, DS_Dropped => true
       | _, _ => false
       end.

Record PdDisk : Set := {
  d_disk_id : DiskId; d_node_id : NodeId; d_az : string; d_rack : string; d_path : string;
  d_total : Z; d_status : DiskStatus
}.
Record RegisterDisk : Set := {
  rd_node_id : NodeId; rd_az : string; rd_rack : string; rd_path : string; rd_total : Z
}.
Record UpdateDiskStatus : Set := { ud_disk_id : DiskId; ud_status : DiskStatus }.
Record PdDiskIndex : Set := { di_disks : gmap Z PdDisk; di_next_id : Z }.

Definition find_by_node_path (index : PdDiskIndex) (node_id : NodeId) (path : string) : option DiskId :=
  d_disk_id <$> List.find (fun disk => bool_decide (d_node_id disk = node_id /\ d_path disk = path))
                  (values (di_disks index)).

(** ** Serialization of the records (derived in the source) *)

Definition NodeStatus_code (s : NodeStatus) : Z :=
  match s with NS_Starting => 0 | NS_Live => 1 | NS_Offline => 2 | NS_Lost => 3 | NS_Decommissioned => 4 end.
Definition NodeStatus_of (c : Z) : NodeStatus :=
  match c with 0 => NS_Starting | 1 => NS_Live | 2 => NS_Offline | 3 => NS_Lost | _ => NS_Decommissioned end.
#[export] Instance NodeStatus_countable : Countable NodeStatus.
Proof. apply (inj_countable' NodeStatus_code NodeStatus_of). by intros []. Defined.
#[export] Instance Node_eq_dec : EqDecision Node.
Proof. solve_decision. Defined.
#[export] Instance Node_countable : Countable Node.
Proof.
  apply (inj_countable' (fun n => (n_node_id n, n_addr n, n_az n, n_rack n, n_roles n, n_status n))
    (fun '(a, b, c, d, e, f) => {| n_node_id := a; n_addr := b; n_az := c; n_rack := d; n_roles := e;
                                   n_status := f |})). by intros [].
Defined.
Definition DiskStatus_code (s : DiskStatus) : Z :=
  match s with DS_Normal => 0 | DS_Broken => 1 | DS_Repairing => 2 | DS_Repaired => 3
             | DS_Draining => 4 | DS_Dropped => 5 end.
Definition DiskStatus_of (c : Z) : DiskStatus :=
  match c with 0 => DS_Normal | 1 => DS_Broken | 2 => DS_Repairing | 3 => DS_Repaired
             | 4 => DS_Draining | _ => DS_Dropped end.
#[export] Instance DiskStatus_countable : Countable DiskStatus.
Proof. apply (inj_countable' DiskStatus_code DiskStatus_of). by intros []. Defined.
#[export] Instance PdDisk_eq_dec : EqDecision PdDisk.
Proof. solve_decision. Defined.
#[export] Instance PdDisk_countable : Countable PdDisk.
Proof.
  apply (inj_countable'
    (fun d => (d_disk_id d, d_node_id d, d_az d, d_rack d, d_path d, d_total d, d_status d))
    (fun '(a, b, c, d, e, f, g) => {| d_disk_id := a; d_node_id := b; d_az := c; d_rack := d;
                                      d_path := e; d_total := f; d_status := g |})). by intros [].
Defined.

Section Cluster.
Context {RDB : RocksDb no_merge} `{Serde Node} `{Serde PdDisk}.

Definition NodeManager_new : NodeIndex := {| ni_nodes := ∅; ni_next_id := FIRST_ID |}.

Definition NodeManager_restore (db : SmDb) : result SmError NodeIndex :=
  r <-? load_records db NODE_CF ;;
  let '(records, next_id) := r in
  Ok {| ni_nodes := collect n_node_id records; ni_next_id := next_id |}.

Definition NodeManager_apply_register (db : SmDb) (cmd : RegisterNode)
    : St (WriteBatch * NodeIndex) NodeId :=
  _cf <== slift (open_cf db NODE_CF) ;;
  index <== sgets snd ;;
  match find_by_addr index (rn_addr cmd) with
  | Some existing => sret existing
  | None =>
      let node_id := ni_next_id index in
      next_id <== slift (advance_counter (ni_next_id index)) ;;
      let node := {| n_node_id := node_id; n_addr := rn_addr cmd; n_az := rn_az cmd;
                     n_rack := rn_rack cmd; n_roles := rn_roles cmd; n_status := NS_Starting |} in
      _u <== smodify (fun s => (stage_put_record s.1 NODE_CF node_id node, s.2)) ;;
      _u <== smodify (fun s => (stage_put_counter s.1 NODE_CF next_id,
               {| ni_nodes := <[node_id := node]> (ni_nodes s.2); ni_next_id := next_id |})) ;;
      sret node_id
  end.

Definition NodeManager_apply_update_status (db : SmDb) (cmd : UpdateNodeStatus)
    : St (WriteBatch * NodeIndex) (option RejectReason) :=
  _cf <== slift (open_cf db NODE_CF) ;;
  index <== sgets snd ;;
  match ni_nodes index !! un_node_id cmd with
  | None => sret (Some RR_NotFound)
  | Some current =>
      if decide (n_status current = un_status cmd) then sret None
      else if negb (NodeStatus_can_transition_to (n_status current) (un_status cmd))
      then sret (Some RR_InvalidTransition)
      else
        let updated := {| n_node_id := n_node_id current; n_addr := n_addr current;
                          n_az := n_az current; n_rack := n_rack current;
                          n_roles := n_roles current; n_status := un_status cmd |} in
        _u <== smodify (fun s => (stage_put_record s.1 NODE_CF (un_node_id cmd) updated,
                 {| ni_nodes := <[un_node_id cmd := updated]> (ni_nodes s.2);
                    ni_next_id := ni_next_id s.2 |})) ;;
        sret None
  end.

Definition NodeManager_apply_remove (db : SmDb) (cmd : RemoveNode)
    : St (WriteBatch * NodeIndex) (option RejectReason) :=
  _cf <== slift (open_cf db NODE_CF) ;;
  index <== sgets snd ;;
  match ni_nodes index !! rmn_node_id cmd with
  | None => sret (Some RR_NotFound)
  | Some current =>
      if decide (n_status current = NS_Decommissioned)
      then
        _u <== smodify (fun s => (delete_cf s.1 NODE_CF (record_key (rmn_node_id cmd)),
                 {| ni_nodes := delete (rmn_node_id cmd) (ni_nodes s.2);
                    ni_next_id := ni_next_id s.2 |})) ;;
        sret None
      else sret (Some RR_NotRemovable)
  end.

Definition NodeManager_snapshot_view (index : NodeIndex) : list Node * Z :=
  (values (ni_nodes index), ni_next_id index).

Definition NodeManager_stage_and_apply_snapshot (db : SmDb) (nodes : list Node) (next_id : Z)
    : St (WriteBatch * NodeIndex) unit :=
  _cf <== slift (open_cf db NODE_CF) ;;
  _u <== smodify (fun s => (stage_clear s.1 db NODE_CF, s.2)) ;;
  _u <== smodify (fun s => (foldl (fun b n => stage_put_record b NODE_CF (n_node_id n) n) s.1 nodes, s.2)) ;;
  smodify (fun s => (stage_put_counter s.1 NODE_CF next_id,
    {| ni_nodes := collect n_node_id nodes; ni_next_id := next_id |})).

Definition NodeManager_get (index : NodeIndex) (node_id : NodeId) : option Node :=
  ni_nodes index !! node_id.
Definition NodeManager_contains (index : NodeIndex) (node_id : NodeId) : bool :=
  bool_decide (is_Some (ni_nodes index !! node_id)).
Definition NodeManager_statuses (index : NodeIndex) : list (NodeId * NodeStatus) :=
  (fun n => (n_node_id n, n_status n)) <$> values (ni_nodes index).

Definition DiskManager_new : PdDiskIndex := {| di_disks := ∅; di_next_id := FIRST_ID |}.

Definition DiskManager_restore (db : SmDb) : result SmError PdDiskIndex :=
  r <-? load_records db DISK_CF ;;
  let '(records, next_id) := r in
  Ok {| di_disks := collect d_disk_id records; di_next_id := next_id |}.

Definition DiskManager_apply_register (db : SmDb) (cmd : RegisterDisk)
    : St (WriteBatch * PdDiskIndex) DiskId :=
  _cf <== slift (open_cf db DISK_CF) ;;
  index <== sgets snd ;;
  match find_by_node_path index (rd_node_id cmd) (rd_path cmd) with
  | Some existing => sret existing
  | None =>
      let disk_id := di_next_id index in
      next_id <== slift (advance_counter (di_next_id index)) ;;
      let disk := {| d_disk_id := disk_id; d_node_id := rd_node_id cmd; d_az := rd_az cmd;
                     d_rack := rd_rack cmd; d_path := rd_path cmd; d_total := rd_total cmd;
                     d_status := DS_Normal |} in
      _u <== smodify (fun s => (stage_put_record s.1 DISK_CF disk_id disk, s.2)) ;;
      _u <== smodify (fun s => (stage_put_counter s.1 DISK_CF next_id,
               {| di_disks := <[disk_id := disk]> (di_disks s.2); di_next_id := next_id |})) ;;
      sret disk_id
  end.

Definition DiskManager_apply_update_status (db : SmDb) (cmd : UpdateDiskStatus)
    : St (WriteBatch * PdDiskIndex) (option RejectReason) :=
  _cf <== slift (open_cf db DISK_CF) ;;
  index <== sgets snd ;;
  match di_disks index !! ud_disk_id cmd with
  | None => sret (Some RR_NotFound)
  | Some current =>
      if decide (d_status current = ud_status cmd) then sret None
      else if negb (DiskStatus_can_transition_to (d_status current) (ud_status cmd))
      then sret (Some RR_InvalidTransition)
      else
        let updated := {| d_disk_id := d_disk_id current; d_node_id := d_node_id current;
                          d_az := d_az current; d_rack := d_rack current; d_path := d_path current;
                          d_total := d_total current; d_status := ud_status cmd |} in
        _u <== smodify (fun s => (stage_put_record s.1 DISK_CF (ud_disk_id cmd) updated,
                 {| di_disks := <[ud_disk_id cmd := updated]> (di_disks s.2);
                    di_next_id := di_next_id s.2 |})) ;;
        sret None
  end.

Definition DiskManager_snapshot_view (index : PdDiskIndex) : list PdDisk * Z :=
  (values (di_disks index), di_next_id index).

Definition DiskManager_stage_and_apply_snapshot (db : SmDb) (disks : list PdDisk) (next_id : Z)
    : St (WriteBatch * PdDiskIndex) unit :=
  _cf <== slift (open_cf db DISK_CF) ;;
  _u <== smodify (fun s => (stage_clear s.1 db DISK_CF, s.2)) ;;
  _u <== smodify (fun s => (foldl (fun b d => stage_put_record b DISK_CF (d_disk_id d) d) s.1 disks, s.2)) ;;
  smodify (fun s => (stage_put_counter s.1 DISK_CF next_id,
    {| di_disks := collect d_disk_id disks; di_next_id := next_id |})).

Definition DiskManager_get (index : PdDiskIndex) (disk_id : DiskId) : option PdDisk :=
  di_disks index !! disk_id.
End Cluster.

(** ** Invariants of the two managers *)

Section ClusterProps.
Context {RDB : RocksDb no_merge} `{Serde Node} `{Serde PdDisk}.
Implicit Types (db : SmDb) (b : WriteBatch).

Record node_ok db b (index : NodeIndex) : Prop := {
  no_managed : managed n_node_id (pending db b NODE_CF) (ni_nodes index) (ni_next_id index);
  no_addr : forall i j n n', ni_nodes index !! i = Some n -> ni_nodes index !! j = Some n' ->
    n_addr n = n_addr n' -> i = j
}.
Record disk_ok db b (index : PdDiskIndex) : Prop := {
  do_managed : managed d_disk_id (pending db b DISK_CF) (di_disks index) (di_next_id index);
  do_path : forall i j d d', di_disks index !! i = Some d -> di_disks index !! j = Some d' ->
    d_node_id d = d_node_id d' -> d_path d = d_path d' -> i = j
}.

Lemma find_by_addr_spec db b index addr : node_ok db b index ->
  match find_by_addr index addr with
  | Some id => exists n, ni_nodes index !! id = Some n /\ n_addr n = addr
  | None => forall id n, ni_nodes index !! id = Some n -> n_addr n <> addr
  end.
Proof.
  intros [[_ Hid _] _]. unfold find_by_addr.
  pose proof (find_values (fun n => bool_decide (n_addr n = addr)) (ni_nodes index)) as Hf.
  destruct (List.find _ _) as [n|]; simpl.
  - destruct Hf as (id & Hn & Hp). apply bool_decide_eq_true in Hp.
    destruct (Hid _ _ Hn) as [-> _]. eauto.
  - intros id n Hn. apply Hf in Hn. by apply bool_decide_eq_false in Hn.
Qed.

Lemma find_by_node_path_spec db b index node path : disk_ok db b index ->
  match find_by_node_path index node path with
  | Some id => exists d, di_disks index !! id = Some d /\ d_node_id d = node /\ d_path d = path
  | None => forall id d, di_disks index !! id = Some d -> ~ (d_node_id d = node /\ d_path d = path)
  end.
Proof.
  intros [[_ Hid _] _]. unfold find_by_node_path.
  pose proof (find_values (fun d => bool_decide (d_node_id d = node /\ d_path d = path))
                (di_disks index)) as Hf.
  destruct (List.find _ _) as [d|]; simpl.
  - destruct Hf as (id & Hd & Hp). apply bool_decide_eq_true in Hp.
    destruct (Hid _ _ Hd) as [-> _]. eauto.
  - intros id d Hd. apply Hf in Hd. by apply bool_decide_eq_false in Hd.
Qed.

(** Registration: idempotent by address, otherwise the next id; fails only when the
    counter is exhausted, changing nothing. *)
Lemma node_register_ok db b index cmd : is_Some (db !! NODE_CF) -> node_ok db b index ->
  exists b' index' r, NodeManager_apply_register db cmd (b, index) = ((b', index'), r)
    /\ touches [NODE_CF] b b'
    /\ match r with
       | Ok id => node_ok db b' index'
           /\ (exists n, ni_nodes index' !! id = Some n /\ n_addr n = rn_addr cmd)
           /\ ((index' = index /\ b' = b)
               \/ (id = ni_next_id index /\ ni_next_id index' = id + 1
                   /\ forall j, j <> id -> ni_nodes index' !! j = ni_nodes index !! j))
       | Err _ => b' = b /\ index' = index
       end.
Proof.
  intros [d Hd] Hok. unfold NodeManager_apply_register. open_st Hd.
  pose proof (find_by_addr_spec _ _ _ (rn_addr cmd) Hok) as Hf. destruct (find_by_addr index (rn_addr cmd)) as [id|].
  - eexists _, _, _. split; [done|]. eauto 10 with pd.
  - destruct (advance_counter (ni_next_id index)) as [next'|e] eqn:Ha; run_st.
    2:{ eexists _, _, _. split; [done|]. auto with pd. }
    eexists _, _, _. split; [done|]. split; [auto with pd|]. destruct Hok as [Hm Hu].
    set (n := {| n_node_id := ni_next_id index; n_addr := rn_addr cmd; n_az := rn_az cmd;
                 n_rack := rn_rack cmd; n_roles := rn_roles cmd; n_status := NS_Starting |}).
    destruct (managed_new _ _ _ _ _ _ n _ Hm Ha eq_refl) as [Hm' Hn']. split.
    + split; [done|]. simpl. intros i j m m'. rewrite !lookup_insert_Some.
      intros [[<- <-]|[? Hi]] [[<- <-]|[? Hj]] E; [done|..].
      * by destruct (Hf _ _ Hj).
      * by destruct (Hf _ _ Hi).
      * by eapply Hu.
    + split; [exists n; simpl; by rewrite lookup_insert_eq|]. right. repeat split; [done|].
      intros j Hj. simpl. by rewrite lookup_insert_ne.
Qed.

Lemma node_update_ok db b index cmd : is_Some (db !! NODE_CF) -> node_ok db b index ->
  exists b' index' r, NodeManager_apply_update_status db cmd (b, index) = ((b', index'), Ok r)
    /\ touches [NODE_CF] b b' /\ node_ok db b' index' /\ ni_next_id index' = ni_next_id index
    /\ (forall j, j <> un_node_id cmd -> ni_nodes index' !! j = ni_nodes index !! j)
    /\ match ni_nodes index !! un_node_id cmd with
       | None => r = Some RR_NotFound /\ index' = index
       | Some n =>
           if NodeStatus_can_transition_to (n_status n) (un_status cmd)
           then r = None /\ exists n', ni_nodes index' !! un_node_id cmd = Some n'
                  /\ n_status n' = un_status cmd /\ n_addr n' = n_addr n /\ n_roles n' = n_roles n
           else r = Some RR_InvalidTransition /\ index' = index
       end.
Proof.
  intros [d Hd] Hok. unfold NodeManager_apply_update_status. open_st Hd.
  destruct (ni_nodes index !! un_node_id cmd) as [n|] eqn:Hn.
  2:{ eexists _, _, _. split; [done|]. auto 10 with pd. }
  destruct (decide (n_status n = un_status cmd)) as [E|E].
  { eexists _, _, _. split; [done|]. unfold NodeStatus_can_transition_to. rewrite decide_True by done.
    split_and!; eauto 10 with pd. }
  destruct (NodeStatus_can_transition_to (n_status n) (un_status cmd)) eqn:Ht; simpl.
  2:{ eexists _, _, _. split; [done|]. auto 10 with pd. }
  eexists _, _, _. split; [done|]. split; [auto with pd|]. destruct Hok as [Hm Hu]. split_and!.
  - split.
    + simpl. by eapply managed_update.
    + simpl. intros i j m m'. rewrite !lookup_insert_Some.
      intros [[<- <-]|[? Hi]] [[<- <-]|[? Hj]]; simpl; eauto.
  - done.
  - intros j Hj. simpl. by rewrite lookup_insert_ne.
  - done.
  - simpl. rewrite lookup_insert_eq. eauto 10.
Qed.

Lemma node_remove_ok db b index cmd : is_Some (db !! NODE_CF) -> node_ok db b index ->
  exists b' index' r, NodeManager_apply_remove db cmd (b, index) = ((b', index'), Ok r)
    /\ touches [NODE_CF] b b' /\ node_ok db b' index' /\ ni_next_id index' = ni_next_id index
    /\ (forall j, j <> rmn_node_id cmd -> ni_nodes index' !! j = ni_nodes index !! j)
    /\ match ni_nodes index !! rmn_node_id cmd with
       | None => r = Some RR_NotFound /\ index' = index
       | Some n => if decide (n_status n = NS_Decommissioned)
                   then r = None /\ ni_nodes index' !! rmn_node_id cmd = None
                   else r = Some RR_NotRemovable /\ index' = index
       end.
Proof.
  intros [d Hd] Hok. unfold NodeManager_apply_remove. open_st Hd.
  destruct (ni_nodes index !! rmn_node_id cmd) as [n|] eqn:Hn.
  2:{ eexists _, _, _. split; [done|]. auto 10 with pd. }
  destruct (decide (n_status n = NS_Decommissioned)) as [E|E].
  2:{ eexists _, _, _. split; [done|]. auto 10 with pd. }
  eexists _, _, _. split; [done|]. split; [auto with pd|]. destruct Hok as [Hm Hu]. split_and!; try done.
  - split.
    + simpl. by eapply managed_delete.
    + simpl. intros i j m m'. rewrite !lookup_delete_Some. naive_solver.
  - intros j Hj. simpl. by rewrite lookup_delete_ne.
  - simpl. apply lookup_delete_eq.
Qed.

Lemma disk_register_ok db b index cmd : is_Some (db !! DISK_CF) -> disk_ok db b index ->
  exists b' index' r, DiskManager_apply_register db cmd (b, index) = ((b', index'), r)
    /\ touches [DISK_CF] b b'
    /\ match r with
       | Ok id => disk_ok db b' index'
           /\ (exists d, di_disks index' !! id = Some d /\ d_node_id d = rd_node_id cmd
                 /\ d_path d = rd_path cmd)
           /\ ((index' = index /\ b' = b)
               \/ (id = di_next_id index /\ di_next_id index' = id + 1
                   /\ forall j, j <> id -> di_disks index' !! j = di_disks index !! j))
       | Err _ => b' = b /\ index' = index
       end.
Proof.
  intros [d Hd] Hok. unfold DiskManager_apply_register. open_st Hd.
  pose proof (find_by_node_path_spec _ _ _ (rd_node_id cmd) (rd_path cmd) Hok) as Hf.
  destruct (find_by_node_path index (rd_node_id cmd) (rd_path cmd)) as [id|].
  - eexists _, _, _. split; [done|]. eauto 10 with pd.
  - destruct (advance_counter (di_next_id index)) as [next'|e] eqn:Ha; run_st.
    2:{ eexists _, _, _. split; [done|]. auto with pd. }
    eexists _, _, _. split; [done|]. split; [auto with pd|]. destruct Hok as [Hm Hu].
    set (n := {| d_disk_id := di_next_id index; d_node_id := rd_node_id cmd; d_az := rd_az cmd;
                 d_rack := rd_rack cmd; d_path := rd_path cmd; d_total := rd_total cmd;
                 d_status := DS_Normal |}).
    destruct (managed_new _ _ _ _ _ _ n _ Hm Ha eq_refl) as [Hm' Hn']. split.
    + split; [done|]. simpl. intros i j m m'. rewrite !lookup_insert_Some.
      intros [[<- <-]|[? Hi]] [[<- <-]|[? Hj]] E1 E2; [done|..].
      * by destruct (Hf _ _ Hj).
      * by destruct (Hf _ _ Hi).
      * by eapply Hu.
    + split; [exists n; simpl; by rewrite lookup_insert_eq|]. right. repeat split; [done|].
      intros j Hj. simpl. by rewrite lookup_insert_ne.
Qed.

Lemma disk_update_ok db b index cmd : is_Some (db !! DISK_CF) -> disk_ok db b index ->
  exists b' index' r, DiskManager_apply_update_status db cmd (b, index) = ((b', index'), Ok r)
    /\ touches [DISK_CF] b b' /\ disk_ok db b' index' /\ di_next_id index' = di_next_id index
    /\ (forall j, j <> ud_disk_id cmd -> di_disks index' !! j = di_disks index !! j)
    /\ match di_disks index !! ud_disk_id cmd with
       | None => r = Some RR_NotFound /\ index' = index
       | Some d =>
           if DiskStatus_can_transition_to (d_status d) (ud_status cmd)
           then r = None /\ exists d', di_disks index' !! ud_disk_id cmd = Some d'
                  /\ d_status d' = ud_status cmd /\ d_node_id d' = d_node_id d /\ d_path d' = d_path d
                  /\ d_rack d' = d_rack d
           else r = Some RR_InvalidTransition /\ index' = index
       end.
Proof.
  intros [d Hd] Hok. unfold DiskManager_apply_update_status. open_st Hd.
  destruct (di_disks index !! ud_disk_id cmd) as [n|] eqn:Hn.
  2:{ eexists _, _, _. split; [done|]. auto 10 with pd. }
  destruct (decide (d_status n = ud_status cmd)) as [E|E].
  { eexists _, _, _. split; [done|]. unfold DiskStatus_can_transition_to. rewrite decide_True by done.
    split_and!; eauto 10 with pd. }
  destruct (DiskStatus_can_transition_to (d_status n) (ud_status cmd)) eqn:Ht; simpl.
  2:{ eexists _, _, _. split; [done|]. auto 10 with pd. }
  eexists _, _, _. split; [done|]. split; [auto with pd|]. destruct Hok as [Hm Hu]. split_and!.
  - split.
    + simpl. by eapply managed_update.
    + simpl. intros i j m m'. rewrite !lookup_insert_Some.
      intros [[<- <-]|[? Hi]] [[<- <-]|[? Hj]]; simpl; eauto.
  - done.
  - intros j Hj. simpl. by rewrite lookup_insert_ne.
  - done.
  - simpl. rewrite lookup_insert_eq. eauto 10.
Qed.

Lemma node_restore_ok db index : is_Some (db !! NODE_CF) -> node_ok db [] index ->
  NodeManager_restore db = Ok index.
Proof.
  intros Hd [Hm _]. destruct (managed_restore _ _ _ _ _ Hd Hm) as (records & Hl & Hc).
  unfold NodeManager_restore. rewrite Hl. simpl. rewrite Hc. by destruct index.
Qed.
Lemma disk_restore_ok db index : is_Some (db !! DISK_CF) -> disk_ok db [] index ->
  DiskManager_restore db = Ok index.
Proof.
  intros Hd [Hm _]. destruct (managed_restore _ _ _ _ _ Hd Hm) as (records & Hl & Hc).
  unfold DiskManager_restore. rewrite Hl. simpl. rewrite Hc. by destruct index.
Qed.

(** Installing the view of another replica's manager gives that manager. *)
Lemma node_snapshot_ok db b index db0 b0 index0 : is_Some (db !! NODE_CF) -> ops_of NODE_CF b = [] ->
  node_ok db0 b0 index0 ->
  exists b', NodeManager_stage_and_apply_snapshot db (NodeManager_snapshot_view index0).1
               (NodeManager_snapshot_view index0).2 (b, index) = ((b', index0), Ok tt)
    /\ touches [NODE_CF] b b' /\ node_ok db b' index0.
Proof.
  intros [d Hd] Hb [Hm Hu].
  unfold NodeManager_stage_and_apply_snapshot, NodeManager_snapshot_view. open_st Hd.
  rewrite collect_values by (intros id n Hn; by apply (mg_id _ _ _ _ Hm) in Hn as [? _]).
  eexists. split; [by destruct index0|]. split; [auto 10 with pd|]. split; [|done].
  simpl. eapply managed_snapshot; [done|]. by apply pending_clear.
Qed.
Lemma disk_snapshot_ok db b index db0 b0 index0 : is_Some (db !! DISK_CF) -> ops_of DISK_CF b = [] ->
  disk_ok db0 b0 index0 ->
  exists b', DiskManager_stage_and_apply_snapshot db (DiskManager_snapshot_view index0).1
               (DiskManager_snapshot_view index0).2 (b, index) = ((b', index0), Ok tt)
    /\ touches [DISK_CF] b b' /\ disk_ok db b' index0.
Proof.
  intros [d Hd] Hb [Hm Hu].
  unfold DiskManager_stage_and_apply_snapshot, DiskManager_snapshot_view. open_st Hd.
  rewrite collect_values by (intros id n Hn; by apply (mg_id _ _ _ _ Hm) in Hn as [? _]).
  eexists. split; [by destruct index0|]. split; [auto 10 with pd|]. split; [|done].
  simpl. eapply managed_snapshot; [done|]. by apply pending_clear.
Qed.

Lemma node_ok_touches db cfs b b' index : touches cfs b b' -> NODE_CF ∉ cfs ->
  node_ok db b index -> node_ok db b' index.
Proof. intros Ht Hcf [Hm Hu]. split; [|done]. by rewrite (pending_touches _ _ _ _ _ Ht Hcf). Qed.
Lemma disk_ok_touches db cfs b b' index : touches cfs b b' -> DISK_CF ∉ cfs ->
  disk_ok db b index -> disk_ok db b' index.
Proof. intros Ht Hcf [Hm Hu]. split; [|done]. by rewrite (pending_touches _ _ _ _ _ Ht Hcf). Qed.
End ClusterProps.
