(* ===== verification/PdChunk.v ===== *)
(** Chunks of the placement driver (epoch-pd: chunk/model.rs, chunk/manager.rs,
    chunk/placement.rs, chunk/writable_set.rs): the chunk table, its staging
    area, the reverse index from disks to shards, shard placement and the
    publication of writable chunks. *)

From S2P Require Import Prelude Ids Rocks PdDb PdCluster.

(** ** Data (model.rs) *)

Inductive ChunkStatus : Set := CS_Writable | CS_Full | CS_Sealed | CS_Migrating | CS_Broken.
#[export] Instance ChunkStatus_eq_dec : EqDecision ChunkStatus.
Proof. solve_decision. Defined.

Record ChunkStatusHistogram : Set := {
  h_total : Z; h_writable : Z; h_full : Z; h_sealed : Z; h_migrating : Z; h_broken : Z
}.
Record ShardSlot : Set := {
  ss_shard_prefix : Z; ss_epoch : Z; ss_disk_id : DiskId; ss_extent_id : ExtentId
}.
#[export] Instance ShardSlot_eq_dec : EqDecision ShardSlot.
Proof. solve_decision. Defined.
Definition ShardSlot_shard_id (s : ShardSlot) : ShardId := Z.lor (ss_shard_prefix s) (ss_epoch s).
Definition ShardSlot_index (s : ShardSlot) : Z := ShardId_index (ShardSlot_shard_id s).

Record Chunk : Set := {
  c_chunk_id : ChunkId; c_code_mode : CodeMode; c_status : ChunkStatus; c_shards : list ShardSlot
}.
#[export] Instance Chunk_eq_dec : EqDecision Chunk.
Proof. solve_decision. Defined.
Record StagingChunk : Set := {
  sg_chunk_id : ChunkId; sg_code_mode : CodeMode; sg_shards : list ShardSlot
}.
#[export] Instance StagingChunk_eq_dec : EqDecision StagingChunk.
Proof. solve_decision. Defined.
Record SlotPlan : Set := { sp_index : Z; sp_disk_id : DiskId }.
Record CreateChunkStaging : Set := {
  cc_code_mode : CodeMode; cc_slots : list SlotPlan; cc_create_ts : Z; cc_epoch : Z
}.
Record CommitChunk : Set := { cmc_chunk_id : ChunkId }.
Record SealChunk : Set := { slc_chunk_id : ChunkId }.
Record RebumpStaging : Set := { rbs_chunk_id : ChunkId }.
Definition EPOCH_JUMP : Z := 3.
Record CommitShardMapping : Set := {
  csm_job_id : Z; csm_chunk_id : ChunkId; csm_index : Z; csm_expected_epoch : Z;
  csm_new_disk : DiskId; csm_new_create_ts : Z; csm_committer : NodeId
}.

(** Serialization of the records (derived in the source). *)
#[export] Instance CodeMode_countable : Countable CodeMode.
Proof.
  apply (inj_countable' (fun c => (cm_id c, cm_data c, cm_parity c, cm_stripe_size c, cm_blob_size c))
    (fun '(a, b, c, d, e) => {| cm_id := a; cm_data := b; cm_parity := c; cm_stripe_size := d;
                                cm_blob_size := e |})). by intros [].
Defined.
#[export] Instance ShardSlot_countable : Countable ShardSlot.
Proof.
  apply (inj_countable' (fun s => (ss_shard_prefix s, ss_epoch s, ss_disk_id s, ss_extent_id s))
    (fun '(a, b, c, d) => {| ss_shard_prefix := a; ss_epoch := b; ss_disk_id := c; ss_extent_id := d |})).
  by intros [].
Defined.
Definition ChunkStatus_code (s : ChunkStatus) : Z :=
  match s with CS_Writable => 0 | CS_Full => 1 | CS_Sealed => 2 | CS_Migrating => 3 | CS_Broken => 4 end.
Definition ChunkStatus_of (c : Z) : ChunkStatus :=
  match c with 0 => CS_Writable | 1 => CS_Full | 2 => CS_Sealed | 3 => CS_Migrating | _ => CS_Broken end.
#[export] Instance ChunkStatus_countable : Countable ChunkStatus.
Proof. apply (inj_countable' ChunkStatus_code ChunkStatus_of). by intros []. Defined.
#[export] Instance Chunk_countable : Countable Chunk.
Proof.
  apply (inj_countable' (fun c => (c_chunk_id c, c_code_mode c, c_status c, c_shards c))
    (fun '(a, b, c, d) => {| c_chunk_id := a; c_code_mode := b; c_status := c; c_shards := d |})).
  by intros [].
Defined.
#[export] Instance StagingChunk_countable : Countable StagingChunk.
Proof.
  apply (inj_countable' (fun c => (sg_chunk_id c, sg_code_mode c, sg_shards c))
    (fun '(a, b, c) => {| sg_chunk_id := a; sg_code_mode := b; sg_shards := c |})). by intros [].
Defined.

(** ** The manager (manager.rs) *)

Definition CHUNK_CF : string := "chunk".
Definition STAGING_CF : string := "chunk_staging".

Record ChunkIndex : Set := {
  ci_chunks : gmap Z Chunk;
  ci_staging : gmap Z StagingChunk;
  ci_next_id : Z;
  ci_disk_shards : gmap Z (gset Z)
}.

(** [disk_shards.entry(disk).or_default().insert(prefix)] *)
Definition disk_shards_insert (ds : gmap Z (gset Z)) (disk : DiskId) (prefix : Z) : gmap Z (gset Z) :=
  <[disk := {[prefix]} ∪ default ∅ (ds !! disk)]> ds.
(** [if let Some(set) = disk_shards.get_mut(disk) { set.remove(prefix) }] *)
Definition disk_shards_remove (ds : gmap Z (gset Z)) (disk : DiskId) (prefix : Z) : gmap Z (gset Z) :=
  match ds !! disk with Some set => <[disk := set ∖ {[prefix]}]> ds | None => ds end.
Definition index_shards (ds : gmap Z (gset Z)) (chunk : Chunk) : gmap Z (gset Z) :=
  foldl (fun ds slot => disk_shards_insert ds (ss_disk_id slot) (ss_shard_prefix slot)) ds (c_shards chunk).

Fixpoint validate_slots_loop (total : Z) (slots : list SlotPlan) (seen : gset Z) : option RejectReason :=
  match slots with
  | [] => None
  | slot :: slots =>
      if (total <=? sp_index slot) || bool_decide (sp_index slot ∈ seen)
      then Some RR_InvalidChunkPlan
      else validate_slots_loop total slots ({[sp_index slot]} ∪ seen)
  end.
Definition validate_slots (code_mode : CodeMode) (slots : list SlotPlan) : option RejectReason :=
  let total := shards_total code_mode in
  if negb (len slots =? total) then Some RR_InvalidChunkPlan
  else validate_slots_loop total slots ∅.

Definition compose_slot (chunk_id : ChunkId) (index epoch : Z) (disk_id : DiskId) (create_ts : Z)
    : result SmError ShardSlot :=
  match ShardId_try_new chunk_id index epoch with
  | Err _ => Err (SmCorrupt "shard epoch exceeds 24-bit max")
  | Ok shard_id =>
      Ok {| ss_shard_prefix := ShardId_shard_prefix shard_id; ss_epoch := epoch; ss_disk_id := disk_id;
            ss_extent_id := ExtentId_new shard_id create_ts |}
  end.
Fixpoint compose_loop (chunk_id : ChunkId) (slots : list SlotPlan) (epoch create_ts : Z)
    : result SmError (list ShardSlot) :=
  match slots with
  | [] => Ok []
  | slot :: slots =>
      s <-? compose_slot chunk_id (sp_index slot) epoch (sp_disk_id slot) create_ts ;;
      shards <-? compose_loop chunk_id slots epoch create_ts ;;
      Ok (s :: shards)
  end.
Definition compose_slots (chunk_id : ChunkId) (slots : list SlotPlan) (epoch create_ts : Z)
    : result SmError (list ShardSlot) :=
  compose_loop chunk_id (sort_by_key sp_index slots) epoch create_ts.

Fixpoint rebump_loop (chunk_id : ChunkId) (shards : list ShardSlot) : result SmError (list ShardSlot) :=
  match shards with
  | [] => Ok []
  | slot :: shards =>
      epoch <-? ok_or (checked_add 32 (ss_epoch slot) EPOCH_JUMP)
                  (SmCorrupt "shard epoch overflow on recovery") ;;
      s <-? compose_slot chunk_id (ShardSlot_index slot) epoch (ss_disk_id slot)
              (ExtentId_create_ts (ss_extent_id slot)) ;;
      shards <-? rebump_loop chunk_id shards ;;
      Ok (s :: shards)
  end.

Definition find_slot (index : Z) (shards : list ShardSlot) : option ShardSlot :=
  List.find (fun s => ShardSlot_index s =? index) shards.
(** [if let Some(target) = shards.iter_mut().find(..) { *target = rebuilt }] *)
Fixpoint replace_slot (index : Z) (rebuilt : ShardSlot) (shards : list ShardSlot) : list ShardSlot :=
  match shards with
  | [] => []
  | s :: shards => if ShardSlot_index s =? index then rebuilt :: shards
                   else s :: replace_slot index rebuilt shards
  end.

Section Manager.
Context {RDB : RocksDb no_merge} `{Serde Chunk} `{Serde StagingChunk}.

Definition ChunkManager_new : ChunkIndex :=
  {| ci_chunks := ∅; ci_staging := ∅; ci_next_id := FIRST_ID; ci_disk_shards := ∅ |}.

(** The cache rebuilt from a set of records. *)
Definition rebuild_index (chunks : list Chunk) (next_id : Z) (staging : list StagingChunk) : ChunkIndex :=
  let chunks := collect c_chunk_id chunks in
  {| ci_chunks := chunks; ci_staging := collect sg_chunk_id staging; ci_next_id := next_id;
     ci_disk_shards := foldl index_shards ∅ (values chunks) |}.

Definition ChunkManager_restore (db : SmDb) : result SmError ChunkIndex :=
  r <-? load_records db CHUNK_CF ;;
  let '(chunks, next_id) := r in
  r <-? load_records db STAGING_CF ;;
  let '(staging, _) := r in
  Ok (rebuild_index chunks next_id staging).

Definition ChunkManager_apply_create_staging (db : SmDb) (cmd : CreateChunkStaging)
    : St (WriteBatch * ChunkIndex) ChunkId :=
  _cf <== slift (open_cf db CHUNK_CF) ;;
  _cf <== slift (open_cf db STAGING_CF) ;;
  index <== sgets snd ;;
  let chunk_id := ci_next_id index in
  next_id <== slift (advance_counter (ci_next_id index)) ;;
  shards <== slift (compose_slots chunk_id (cc_slots cmd) (cc_epoch cmd) (cc_create_ts cmd)) ;;
  let staging := {| sg_chunk_id := chunk_id; sg_code_mode := cc_code_mode cmd; sg_shards := shards |} in
  _u <== smodify (fun s => (stage_put_record s.1 STAGING_CF chunk_id staging, s.2)) ;;
  _u <== smodify (fun s => (stage_put_counter s.1 CHUNK_CF next_id,
           {| ci_chunks := ci_chunks s.2; ci_staging := <[chunk_id := staging]> (ci_staging s.2);
              ci_next_id := next_id; ci_disk_shards := ci_disk_shards s.2 |})) ;;
  sret chunk_id.

Definition ChunkManager_apply_commit (db : SmDb) (cmd : CommitChunk)
    : St (WriteBatch * ChunkIndex) (option RejectReason) :=
  _cf <== slift (open_cf db CHUNK_CF) ;;
  _cf <== slift (open_cf db STAGING_CF) ;;
  index <== sgets snd ;;
  match ci_staging index !! cmc_chunk_id cmd with
  | None => sret (Some RR_NotFound)
  | Some staging =>
      let chunk := {| c_chunk_id := sg_chunk_id staging; c_code_mode := sg_code_mode staging;
                      c_status := CS_Writable; c_shards := sg_shards staging |} in
      _u <== smodify (fun s => (stage_put_record s.1 CHUNK_CF (c_chunk_id chunk) chunk, s.2)) ;;
      _u <== smodify (fun s => (delete_cf s.1 STAGING_CF (record_key (cmc_chunk_id cmd)),
               {| ci_chunks := <[c_chunk_id chunk := chunk]> (ci_chunks s.2);
                  ci_staging := delete (cmc_chunk_id cmd) (ci_staging s.2);
                  ci_next_id := ci_next_id s.2;
                  ci_disk_shards := index_shards (ci_disk_shards s.2) chunk |})) ;;
      sret None
  end.

Definition ChunkManager_apply_rebump (db : SmDb) (cmd : RebumpStaging)
    : St (WriteBatch * ChunkIndex) (option RejectReason) :=
  _cf <== slift (open_cf db STAGING_CF) ;;
  index <== sgets snd ;;
  match ci_staging index !! rbs_chunk_id cmd with
  | None => sret (Some RR_NotFound)
  | Some staging =>
      shards <== slift (rebump_loop (rbs_chunk_id cmd) (sg_shards staging)) ;;
      let rebumped := {| sg_chunk_id := sg_chunk_id staging; sg_code_mode := sg_code_mode staging;
                         sg_shards := shards |} in
      _u <== smodify (fun s => (stage_put_record s.1 STAGING_CF (rbs_chunk_id cmd) rebumped,
               {| ci_chunks := ci_chunks s.2;
                  ci_staging := <[rbs_chunk_id cmd := rebumped]> (ci_staging s.2);
                  ci_next_id := ci_next_id s.2; ci_disk_shards := ci_disk_shards s.2 |})) ;;
      sret None
  end.

Definition ChunkManager_apply_seal_chunk (db : SmDb) (cmd : SealChunk)
    : St (WriteBatch * ChunkIndex) (option RejectReason) :=
  _cf <== slift (open_cf db CHUNK_CF) ;;
  index <== sgets snd ;;
  match ci_chunks index !! slc_chunk_id cmd with
  | None => sret (Some RR_NotFound)
  | Some chunk =>
      match c_status chunk with
      | CS_Sealed => sret None
      | CS_Migrating | CS_Broken => sret (Some RR_InvalidTransition)
      | CS_Writable | CS_Full =>
          let chunk := {| c_chunk_id := c_chunk_id chunk; c_code_mode := c_code_mode chunk;
                          c_status := CS_Sealed; c_shards := c_shards chunk |} in
          _u <== smodify (fun s => (s.1,
                   {| ci_chunks := <[slc_chunk_id cmd := chunk]> (ci_chunks s.2);
                      ci_staging := ci_staging s.2; ci_next_id := ci_next_id s.2;
                      ci_disk_shards := ci_disk_shards s.2 |})) ;;
          _u <== smodify (fun s => (stage_put_record s.1 CHUNK_CF (c_chunk_id chunk) chunk, s.2)) ;;
          sret None
      end
  end.

Definition ChunkManager_apply_rebind (db : SmDb) (chunk_id : ChunkId) (slot_index expected_epoch : Z)
    (new_disk : DiskId) (new_create_ts : Z) : St (WriteBatch * ChunkIndex) (option RejectReason) :=
  _cf <== slift (open_cf db CHUNK_CF) ;;
  index <== sgets snd ;;
  match ci_chunks index !! chunk_id with
  | None => sret (Some RR_NotFound)
  | Some chunk =>
      match find_slot slot_index (c_shards chunk) with
      | None => sret (Some RR_NotFound)
      | Some slot =>
          if negb (ss_epoch slot =? expected_epoch) then sret (Some RR_InvalidTransition)
          else match opt_filter (fun e => e <=? MAX_SHARD_EPOCH) (checked_add 32 (ss_epoch slot) 1) with
          | None => sret (Some RR_InvalidTransition)
          | Some new_epoch =>
              rebuilt <== slift (compose_slot chunk_id slot_index new_epoch new_disk new_create_ts) ;;
              let updated := {| c_chunk_id := c_chunk_id chunk; c_code_mode := c_code_mode chunk;
                                c_status := c_status chunk;
                                c_shards := replace_slot slot_index rebuilt (c_shards chunk) |} in
              _u <== smodify (fun s => (s.1,
                       {| ci_chunks := ci_chunks s.2; ci_staging := ci_staging s.2;
                          ci_next_id := ci_next_id s.2;
                          ci_disk_shards :=
                            disk_shards_insert
                              (disk_shards_remove (ci_disk_shards s.2) (ss_disk_id slot) (ss_shard_prefix slot))
                              new_disk (ss_shard_prefix rebuilt) |})) ;;
              _u <== smodify (fun s => (stage_put_record s.1 CHUNK_CF (c_chunk_id updated) updated,
                       {| ci_chunks := <[c_chunk_id updated := updated]> (ci_chunks s.2);
                          ci_staging := ci_staging s.2; ci_next_id := ci_next_id s.2;
                          ci_disk_shards := ci_disk_shards s.2 |})) ;;
              sret None
          end
      end
  end.

Definition ChunkManager_apply_commit_shard_mapping (db : SmDb) (cmd : CommitShardMapping)
    : St (WriteBatch * ChunkIndex) (option RejectReason) :=
  ChunkManager_apply_rebind db (csm_chunk_id cmd) (csm_index cmd) (csm_expected_epoch cmd)
    (csm_new_disk cmd) (csm_new_create_ts cmd).

Definition ChunkManager_snapshot_view (index : ChunkIndex) : list Chunk * Z * list StagingChunk :=
  (values (ci_chunks index), ci_next_id index, values (ci_staging index)).

Definition ChunkManager_stage_and_apply_snapshot (db : SmDb) (chunks : list Chunk) (next_id : Z)
    (staging : list StagingChunk) : St (WriteBatch * ChunkIndex) unit :=
  _cf <== slift (open_cf db CHUNK_CF) ;;
  _cf <== slift (open_cf db STAGING_CF) ;;
  _u <== smodify (fun s => (stage_clear (stage_clear s.1 db CHUNK_CF) db STAGING_CF, s.2)) ;;
  _u <== smodify (fun s =>
    (foldl (fun b c => stage_put_record b CHUNK_CF (c_chunk_id c) c) s.1 chunks, s.2)) ;;
  _u <== smodify (fun s => (stage_put_counter s.1 CHUNK_CF next_id, s.2)) ;;
  smodify (fun s =>
    (foldl (fun b c => stage_put_record b STAGING_CF (sg_chunk_id c) c) s.1 staging,
     rebuild_index chunks next_id staging)).

(** *** Reads *)

Definition ChunkManager_get (index : ChunkIndex) (chunk_id : ChunkId) : option Chunk :=
  ci_chunks index !! chunk_id.
Definition ChunkManager_pending_staging (index : ChunkIndex) : list StagingChunk :=
  values (ci_staging index).
Definition ChunkManager_writable_chunks (index : ChunkIndex) (code_mode_id : Z) : list Chunk :=
  filter (fun c => c_status c = CS_Writable /\ cm_id (c_code_mode c) = code_mode_id)
    (values (ci_chunks index)).
Definition ChunkManager_shard_slots_on_disk (index : ChunkIndex) (disk_id : DiskId) : list ShardSlot :=
  mjoin ((fun c => filter (fun s => ss_disk_id s = disk_id) (c_shards c)) <$> values (ci_chunks index)).
Definition ChunkManager_shard_prefixes_on_disk (index : ChunkIndex) (disk_id : DiskId) : list Z :=
  match ci_disk_shards index !! disk_id with
  | Some set => sort_by_key id (elements set)
  | None => []
  end.
Definition ChunkManager_list_chunks (index : ChunkIndex) (after : ChunkId) (limit : nat) : list Chunk :=
  take limit (filter (fun c => after < c_chunk_id c) (values (ci_chunks index))).
Definition histogram_add (h : ChunkStatusHistogram) (c : Chunk) : ChunkStatusHistogram :=
  let on s := if decide (c_status c = s) then 1 else 0 in
  {| h_total := h_total h + 1; h_writable := h_writable h + on CS_Writable;
     h_full := h_full h + on CS_Full; h_sealed := h_sealed h + on CS_Sealed;
     h_migrating := h_migrating h + on CS_Migrating; h_broken := h_broken h + on CS_Broken |}.
Definition ChunkManager_status_histogram (index : ChunkIndex) : ChunkStatusHistogram :=
  foldl histogram_add
    {| h_total := 0; h_writable := 0; h_full := 0; h_sealed := 0; h_migrating := 0; h_broken := 0 |}
    (values (ci_chunks index)).
End Manager.

(** ** Placement (placement.rs) *)

Record DiskCandidate : Set := {
  dc_disk_id : DiskId; dc_node_id : NodeId; dc_rack : string; dc_writable_extents : Z
}.
Inductive AntiAffinity : Set := HostAware | RackAware.
#[export] Instance AntiAffinity_eq_dec : EqDecision AntiAffinity.
Proof. solve_decision. Defined.

Fixpoint plan_loop (ordered : list DiskCandidate) (total : Z) (affinity : AntiAffinity)
    (chosen : list DiskId) (used_nodes : list NodeId) (used_racks : list string) : option (list DiskId) :=
  match ordered with
  | [] => None
  | candidate :: ordered =>
      if decide (dc_node_id candidate ∈ used_nodes)
      then plan_loop ordered total affinity chosen used_nodes used_racks
      else if decide (affinity = RackAware /\ dc_rack candidate ∈ used_racks)
      then plan_loop ordered total affinity chosen used_nodes used_racks
      else
        let chosen := chosen ++ [dc_disk_id candidate] in
        if len chosen =? total then Some chosen
        else plan_loop ordered total affinity chosen (used_nodes ++ [dc_node_id candidate])
               (used_racks ++ [dc_rack candidate])
  end.
(** Candidates in the order of ([writable_extents], [disk_id]). *)
Definition order_candidates (candidates : list DiskCandidate) : list DiskCandidate :=
  sort_by_key dc_writable_extents (sort_by_key dc_disk_id candidates).
Definition plan_placement (candidates : list DiskCandidate) (shards_total : Z) (affinity : AntiAffinity)
    : option (list DiskId) :=
  plan_loop (order_candidates candidates) shards_total affinity [] [] [].

Record SlotDomain : Set := { sd_index : Z; sd_node_id : NodeId; sd_rack : string }.
Definition rebind_preserves_affinity (others : list SlotDomain) (target : DiskCandidate)
    (affinity : AntiAffinity) : bool :=
  if existsb (fun slot => sd_node_id slot =? dc_node_id target) others then false
  else if bool_decide (affinity = RackAware)
          && existsb (fun slot => bool_decide (sd_rack slot = dc_rack target)) others then false
  else true.

(** ** Publishing writable chunks (writable_set.rs) *)

Definition DEFAULT_MIN_FREE_BYTES : Z := Z.shiftl 1 30.
Record WritableThreshold : Set := { wt_min_free_bytes : Z }.
Inductive DiskHealth : Set := DH_Usable (free : option Z) | DH_Failed | DH_Unknown.
Definition keeps_publishable (h : DiskHealth) (threshold : WritableThreshold) : bool :=
  match h with
  | DH_Usable (Some free) => wt_min_free_bytes threshold <=? free
  | DH_Usable None => true
  | DH_Failed | DH_Unknown => false
  end.
Definition is_publishable (chunk : Chunk) (threshold : WritableThreshold) (health : DiskId -> DiskHealth)
    : bool :=
  bool_decide (c_status chunk = CS_Writable)
  && forallb (fun slot => keeps_publishable (health (ss_disk_id slot)) threshold) (c_shards chunk).
