(* ===== verification/PdChunkInv.v ===== *)
(** The invariant of the chunk manager and its preservation: every chunk has one
    slot per shard of its code, at the slot's index, with a valid epoch and the
    extent id derived from it; ids of chunks and staged chunks are disjoint and
    handed out once; the reverse index lists exactly the shards on each disk; the
    column families hold what the cache holds. *)

From S2P Require Import Prelude Ids Rocks PdDb PdCluster PdChunk.

(** ** Slots *)

Definition slot_ok (chunk_id : ChunkId) (i : Z) (s : ShardSlot) : Prop :=
  0 <= ss_epoch s /\ exists ts, is_i64 ts /\ compose_slot chunk_id i (ss_epoch s) (ss_disk_id s) ts = Ok s.

Record slots_ok (chunk_id : ChunkId) (code_mode : CodeMode) (shards : list ShardSlot) : Prop := {
  so_len : len shards = shards_total code_mode;
  so_max : len shards <= 256;
  so_slot : forall n s, shards !! n = Some s -> slot_ok chunk_id (Z.of_nat n) s
}.

Lemma slot_ok_fields chunk_id i s : is_u32 chunk_id -> is_u8 i -> slot_ok chunk_id i s ->
  ss_shard_prefix s = chunk_id * 2 ^ 32 + i * 2 ^ 24 /\ 0 <= ss_epoch s <= MAX_SHARD_EPOCH
  /\ ShardSlot_index s = i
  /\ ShardSlot_shard_id s = chunk_id * 2 ^ 32 + i * 2 ^ 24 + ss_epoch s
  /\ ExtentId_shard_id (ss_extent_id s) = ShardSlot_shard_id s
  /\ is_i64 (ExtentId_create_ts (ss_extent_id s)).
Proof.
  intros Hc Hi [He (ts & Hts & Hs)]. unfold compose_slot in Hs.
  destruct (ShardId_try_new chunk_id i (ss_epoch s)) as [sid|] eqn:Hn; [|done].
  destruct (ShardId_try_new_Ok _ _ _ _ Hc Hi He Hn) as (Hm & Hv & Hu).
  pose proof (ShardId_prefix_val sid Hu) as Hp.
  assert (ShardId_shard_prefix sid = chunk_id * 2 ^ 32 + i * 2 ^ 24) as Hp'.
  { rewrite Hp, Hv. rewrite MAX_SHARD_EPOCH_val in Hm. unfold uint in *. lia. }
  injection Hs as Hs. rewrite <- Hs. simpl.
  assert (Z.lor (ShardId_shard_prefix sid) (ss_epoch s) = sid) as Hlor.
  { rewrite Hp'. rewrite MAX_SHARD_EPOCH_val in Hm.
    replace (chunk_id * 2 ^ 32 + i * 2 ^ 24) with (Z.shiftl (chunk_id * 2 ^ 8 + i) 24)
      by (rewrite Z.shiftl_mul_pow2; lia).
    rewrite lor_shiftl_add by (unfold uint; lia). lia. }
  unfold ShardSlot_index, ShardSlot_shard_id. simpl. rewrite Hlor. split_and!; try done.
  - by destruct (ShardId_fields _ _ _ _ Hc Hi He Hn) as (_ & -> & _).
  - by rewrite ExtentId_shard_id_new.
  - by rewrite ExtentId_create_ts_new.
Qed.

Lemma slots_ok_index chunk_id cm shards n s : is_u32 chunk_id -> slots_ok chunk_id cm shards ->
  shards !! n = Some s -> is_u8 (Z.of_nat n) /\ ShardSlot_index s = Z.of_nat n.
Proof.
  intros Hc [_ Hm Hs] Hn. assert (is_u8 (Z.of_nat n)) as Hu.
  { apply lookup_lt_Some in Hn. unfold len, uint in *. lia. }
  split; [done|]. by eapply slot_ok_fields; eauto.
Qed.

(** Looking a slot up by its index is looking up the position. *)
Lemma find_slot_nth chunk_id cm shards i : is_u32 chunk_id -> slots_ok chunk_id cm shards -> 0 <= i ->
  find_slot i shards = shards !! Z.to_nat i.
Proof.
  intros Hc Hok Hi. unfold find_slot. destruct (List.find _ shards) as [s|] eqn:Hf.
  - apply List.find_some in Hf as [Hin Hp]. apply list_elem_of_In, list_elem_of_lookup in Hin as [n Hn].
    destruct (slots_ok_index _ _ _ _ _ Hc Hok Hn) as [_ E]. apply Z.eqb_eq in Hp.
    replace (Z.to_nat i) with n by lia. done.
  - destruct (shards !! Z.to_nat i) as [s|] eqn:Hn; [|done].
    destruct (slots_ok_index _ _ _ _ _ Hc Hok Hn) as [_ E].
    apply list_elem_of_lookup_2, list_elem_of_In in Hn. apply (List.find_none _ _ Hf) in Hn.
    apply Z.eqb_neq in Hn. lia.
Qed.
Lemma replace_slot_insert chunk_id cm shards i r : is_u32 chunk_id -> slots_ok chunk_id cm shards ->
  0 <= i -> replace_slot i r shards = <[Z.to_nat i := r]> shards.
Proof.
  intros Hc Hok Hi.
  assert (forall k l, (forall n s, l !! n = Some s -> ShardSlot_index s = k + Z.of_nat n) -> k <= i ->
    replace_slot i r l = <[Z.to_nat (i - k) := r]> l) as Hgen.
  { clear Hc Hok. intros k l. revert k. induction l as [|s l IH]; intros k Hl Hk; [reflexivity|].
    cbn [replace_slot]. rewrite (Hl 0%nat s) by done. destruct (Z.eqb_spec (k + Z.of_nat 0) i) as [E|E].
    - by replace (Z.to_nat (i - k)) with 0%nat by lia.
    - replace (Z.to_nat (i - k)) with (S (Z.to_nat (i - (k + 1)))) by lia. simpl. f_equal.
      apply IH; [|lia]. intros n s' Hn. rewrite (Hl (S n) s') by done. lia. }
  rewrite (Hgen 0 shards); [by rewrite Z.sub_0_r| |done].
  intros n s Hn. by destruct (slots_ok_index _ _ _ _ _ Hc Hok Hn) as [_ ->].
Qed.

(** ** Plans: a valid plan composes to exactly the slots of the code *)

Lemma validate_slots_loop_None total slots seen : validate_slots_loop total slots seen = None ->
  NoDup (sp_index <$> slots) /\ Forall (fun s => sp_index s < total /\ sp_index s ∉ seen) slots.
Proof.
  revert seen. induction slots as [|s slots IH]; intros seen; simpl; [by repeat constructor|].
  destruct (Z.leb_spec total (sp_index s)); [done|]. simpl. case_bool_decide as Hs; [done|].
  intros [Hnd Hf]%IH. split; constructor; [|done|done|].
  - intros (s' & E & Hin)%list_elem_of_fmap. rewrite Forall_forall in Hf.
    destruct (Hf _ Hin) as [_ Hni]. set_solver.
  - eapply Forall_impl; [done|]. set_solver.
Qed.

Lemma sorted_lt_length (l : list Z) a b : StronglySorted Z.lt l -> Forall (fun x => a <= x < b) l ->
  a <= b -> len l <= b - a.
Proof.
  intros Hs. revert a. induction Hs as [|x l Hs IH Hx]; intros a Hf Hab; [unfold len; simpl; lia|].
  inversion Hf as [|?? Hxa Hf']; subst. rewrite len_cons.
  assert (len l <= b - (x + 1)); [|lia]. apply IH; [|lia].
  rewrite Forall_forall in *. intros y Hy. specialize (Hx _ Hy). specialize (Hf' _ Hy). lia.
Qed.
Lemma sorted_lt_seq (l : list Z) a n x : StronglySorted Z.lt l ->
  Forall (fun y => a <= y < a + len l) l -> l !! n = Some x -> x = a + Z.of_nat n.
Proof.
  intros Hs. revert a n. induction Hs as [|y l Hs IH Hy]; intros a n Hf Hn; [done|].
  inversion Hf as [|?? Hya Hf']; subst. rewrite len_cons in *.
  assert (len l <= (a + (1 + len l)) - (y + 1)) as Hl.
  { apply sorted_lt_length; [done| |lia]. rewrite Forall_forall in *. intros z Hz.
    specialize (Hy _ Hz). specialize (Hf' _ Hz). lia. }
  assert (y = a) as -> by lia. destruct n as [|n]; simpl in Hn; [injection Hn as <-; lia|].
  apply (IH (a + 1)) in Hn; [lia|]. rewrite Forall_forall in *. intros z Hz.
  specialize (Hy _ Hz). specialize (Hf' _ Hz). lia.
Qed.
Lemma sorted_le_lt {A} (f : A -> Z) l : StronglySorted (fun a b => f a <= f b) l -> NoDup (f <$> l) ->
  StronglySorted Z.lt (f <$> l).
Proof.
  induction 1 as [|x l Hs IH Hf]; intros Hnd; simpl; [constructor|].
  apply NoDup_cons in Hnd as [Hni Hnd]. constructor; [auto|]. apply Forall_forall.
  intros y (z & -> & Hz)%list_elem_of_fmap. rewrite Forall_forall in Hf. specialize (Hf _ Hz).
  enough (f x <> f z) by lia. intros E. apply Hni. rewrite E. by apply list_elem_of_fmap_2.
Qed.

Lemma compose_loop_ok chunk_id slots epoch ts k : is_i64 ts -> 0 <= epoch ->
  (forall n s, slots !! n = Some s -> sp_index s = k + Z.of_nat n) ->
  match compose_loop chunk_id slots epoch ts with
  | Ok shards => length shards = length slots
      /\ (forall n s, shards !! n = Some s -> slot_ok chunk_id (k + Z.of_nat n) s
            /\ exists p, slots !! n = Some p /\ ss_disk_id s = sp_disk_id p /\ ss_epoch s = epoch)
  | Err e => MAX_SHARD_EPOCH < epoch
  end.
Proof.
  intros Hts He. revert k. induction slots as [|p slots IH]; intros k Hk; simpl; [done|].
  rewrite (Hk 0%nat p) by done. unfold compose_slot at 1.
  destruct (ShardId_try_new chunk_id (k + Z.of_nat 0) epoch) as [sid|] eqn:Hn.
  2:{ unfold ShardId_try_new in Hn. destruct (Z.ltb_spec MAX_SHARD_EPOCH epoch); [done|discriminate]. }
  specialize (IH (k + 1)). destruct (compose_loop chunk_id slots epoch ts) as [shards|].
  2:{ apply IH. intros n s Hs. rewrite (Hk (S n) s) by done. lia. }
  destruct IH as [Hl Hs]; [intros n s Hs; rewrite (Hk (S n) s) by done; lia|].
  split; [simpl; lia|]. intros [|n] s; simpl.
  - intros [= <-]. split; [|by eexists]. split; [done|]. exists ts. split; [done|].
    unfold compose_slot. simpl. by rewrite Hn.
  - intros [? ?]%Hs. replace (k + Z.of_nat (S n)) with (k + 1 + Z.of_nat n) by lia. done.
Qed.

Lemma compose_slots_ok chunk_id cm slots epoch ts : is_i64 ts -> 0 <= epoch ->
  Forall (fun s => is_u8 (sp_index s)) slots -> validate_slots cm slots = None ->
  match compose_slots chunk_id slots epoch ts with
  | Ok shards => slots_ok chunk_id cm shards
      /\ (forall s, s ∈ shards -> ss_epoch s = epoch /\ exists p, p ∈ slots /\ ss_disk_id s = sp_disk_id p)
  | Err e => MAX_SHARD_EPOCH < epoch
  end.
Proof.
  intros Hts He Hu Hv. unfold validate_slots in Hv. destruct (Z.eqb_spec (len slots) (shards_total cm)) as [Hl|]; [|done].
  simpl in Hv. apply validate_slots_loop_None in Hv as [Hnd Hf].
  set (sorted := sort_by_key sp_index slots).
  assert (sorted ≡ₚ slots) as Hp by apply sort_by_key_Permutation.
  assert (StronglySorted Z.lt (sp_index <$> sorted)) as Hs.
  { apply sorted_le_lt; [apply sort_by_key_sorted|]. by rewrite Hp. }
  assert (len (sp_index <$> sorted) = len slots) as Hls by (unfold len; by rewrite length_fmap, Hp).
  assert (forall n s, sorted !! n = Some s -> sp_index s = 0 + Z.of_nat n) as Hi.
  { intros n s Hn. eapply (sorted_lt_seq _ 0 n); [exact Hs| |by rewrite list_lookup_fmap, Hn].
    rewrite Hls, Hl, Hp. rewrite Forall_fmap. rewrite Forall_forall in Hf, Hu |- *.
    intros x Hx. specialize (Hf _ Hx). specialize (Hu _ Hx). unfold compose, uint in *. lia. }
  assert (len slots <= 256) as Hmax.
  { rewrite <- Hls. replace 256 with (256 - 0) by lia. apply sorted_lt_length; [done| |lia].
    rewrite Hp, Forall_fmap. exact Hu. }
  pose proof (compose_loop_ok chunk_id sorted epoch ts 0 Hts He Hi) as Hc. unfold compose_slots. fold sorted.
  destruct (compose_loop chunk_id sorted epoch ts) as [shards|]; [|done]. destruct Hc as [Hlen Hsl].
  assert (len shards = len slots) as Hls' by (unfold len; by rewrite Hlen, Hp).
  split.
  - split; [lia|lia|]. intros n s Hn. by apply Hsl in Hn as [? _].
  - intros s [n Hn]%list_elem_of_lookup. apply Hsl in Hn as (_ & p & Hn & ? & ?). split; [done|].
    exists p. split; [|done]. rewrite <- Hp. by eapply list_elem_of_lookup_2.
Qed.

Lemma rebump_loop_ok chunk_id shards : is_u32 chunk_id ->
  forall k, (forall n s, shards !! n = Some s -> is_u8 (k + Z.of_nat n) /\ slot_ok chunk_id (k + Z.of_nat n) s) ->
  match rebump_loop chunk_id shards with
  | Ok shards' => length shards' = length shards
      /\ (forall n s', shards' !! n = Some s' -> slot_ok chunk_id (k + Z.of_nat n) s'
            /\ exists s, shards !! n = Some s /\ ss_disk_id s' = ss_disk_id s
                 /\ ss_epoch s' = ss_epoch s + EPOCH_JUMP)
  | Err _ => exists s, s ∈ shards /\ MAX_SHARD_EPOCH < ss_epoch s + EPOCH_JUMP
  end.
Proof.
  intros Hc. induction shards as [|s shards IH]; intros k Hk; simpl; [done|].
  destruct (Hk 0%nat s) as [Hu Hs]; [done|].
  destruct (slot_ok_fields _ _ _ Hc Hu Hs) as (Hp & He & Hi & _ & _ & Hts).
  unfold checked_add. rewrite (proj2 (Z.ltb_lt _ _)) by
    (rewrite MAX_SHARD_EPOCH_val in He; unfold EPOCH_JUMP; lia). simpl.
  rewrite Hi. unfold compose_slot at 1.
  destruct (ShardId_try_new chunk_id (k + Z.of_nat 0) (ss_epoch s + EPOCH_JUMP)) as [sid|] eqn:Hn.
  2:{ exists s. split; [by left|]. unfold ShardId_try_new in Hn.
      destruct (Z.ltb_spec MAX_SHARD_EPOCH (ss_epoch s + EPOCH_JUMP)); [done|discriminate]. }
  specialize (IH (k + 1)). destruct (rebump_loop chunk_id shards) as [shards'|].
  2:{ destruct IH as (s' & ? & ?).
      { intros n s' Hs'. replace (k + 1 + Z.of_nat n) with (k + Z.of_nat (S n)) by lia. by apply Hk. }
      exists s'. split; [by right|done]. }
  destruct IH as [Hl Hs'].
  { intros n s' Hs'. replace (k + 1 + Z.of_nat n) with (k + Z.of_nat (S n)) by lia. by apply Hk. }
  split; [simpl; lia|]. intros [|n] s'; simpl.
  - intros [= <-]. split; [|by exists s]. split; [simpl; unfold EPOCH_JUMP; lia|].
    exists (ExtentId_create_ts (ss_extent_id s)). split; [done|]. unfold compose_slot. simpl. by rewrite Hn.
  - intros [? ?]%Hs'. replace (k + Z.of_nat (S n)) with (k + 1 + Z.of_nat n) by lia. done.
Qed.

(** ** The reverse index *)

Lemma disk_shards_insert_elem ds d q d' p :
  p ∈ default ∅ (disk_shards_insert ds d q !! d') <-> (d' = d /\ p = q) \/ p ∈ default ∅ (ds !! d').
Proof.
  unfold disk_shards_insert. destruct (decide (d = d')) as [<-|].
  - rewrite lookup_insert_eq. simpl. set_solver.
  - rewrite lookup_insert_ne by done. naive_solver.
Qed.
Lemma disk_shards_remove_elem ds d q d' p :
  p ∈ default ∅ (disk_shards_remove ds d q !! d') <-> p ∈ default ∅ (ds !! d') /\ ~ (d' = d /\ p = q).
Proof.
  unfold disk_shards_remove. destruct (ds !! d) as [set|] eqn:Hd.
  - destruct (decide (d = d')) as [<-|].
    + rewrite lookup_insert_eq, Hd. simpl. set_solver.
    + rewrite lookup_insert_ne by done. naive_solver.
  - split; [|naive_solver]. intros Hp. split; [done|]. intros [-> ->]. by rewrite Hd in Hp.
Qed.
Lemma index_shards_elem ds c d p :
  p ∈ default ∅ (index_shards ds c !! d) <->
  p ∈ default ∅ (ds !! d) \/ exists s, s ∈ c_shards c /\ ss_disk_id s = d /\ ss_shard_prefix s = p.
Proof.
  unfold index_shards. revert ds. induction (c_shards c) as [|s l IH]; intros ds; simpl.
  - set_solver.
  - rewrite IH, disk_shards_insert_elem. setoid_rewrite elem_of_cons. naive_solver.
Qed.
Lemma index_all_elem l ds d p :
  p ∈ default ∅ (foldl index_shards ds l !! d) <->
  p ∈ default ∅ (ds !! d)
  \/ exists c s, c ∈ l /\ s ∈ c_shards c /\ ss_disk_id s = d /\ ss_shard_prefix s = p.
Proof.
  revert ds. induction l as [|c l IH]; intros ds; simpl.
  - set_solver.
  - rewrite IH, index_shards_elem. setoid_rewrite elem_of_cons. naive_solver.
Qed.

(** Two caches that answer every read alike: the reverse index may keep an empty
    set where the other has none. *)
Record chunk_equiv (i i' : ChunkIndex) : Prop := {
  ce_chunks : ci_chunks i = ci_chunks i';
  ce_staging : ci_staging i = ci_staging i';
  ce_next : ci_next_id i = ci_next_id i';
  ce_ds : forall d, default ∅ (ci_disk_shards i !! d) = default ∅ (ci_disk_shards i' !! d)
}.
#[export] Instance chunk_equiv_equivalence : Equivalence chunk_equiv.
Proof.
  split.
  - intros i. by split.
  - intros i j []. by split.
  - intros i j k [E1 E2 E3 E4] [E1' E2' E3' E4']. split; [congruence..|]. intros d. by rewrite E4.
Qed.
#[export] Instance shard_prefixes_proper :
  Proper (chunk_equiv ==> eq ==> eq) ChunkManager_shard_prefixes_on_disk.
Proof.
  intros i i' [_ _ _ Hds] d ? <-. specialize (Hds d). unfold ChunkManager_shard_prefixes_on_disk.
  destruct (ci_disk_shards i !! d), (ci_disk_shards i' !! d); simpl in Hds; subst; try done;
    by rewrite elements_empty.
Qed.

Lemma disk_shards_insert_equiv ds ds' d q : (forall d, default ∅ (ds !! d) = default ∅ (ds' !! d)) ->
  forall d', default ∅ (disk_shards_insert ds d q !! d') = default ∅ (disk_shards_insert ds' d q !! d').
Proof. intros E d'. apply set_eq. intros p. by rewrite !disk_shards_insert_elem, E. Qed.
Lemma disk_shards_remove_equiv ds ds' d q : (forall d, default ∅ (ds !! d) = default ∅ (ds' !! d)) ->
  forall d', default ∅ (disk_shards_remove ds d q !! d') = default ∅ (disk_shards_remove ds' d q !! d').
Proof. intros E d'. apply set_eq. intros p. by rewrite !disk_shards_remove_elem, E. Qed.
Lemma index_shards_equiv ds ds' c : (forall d, default ∅ (ds !! d) = default ∅ (ds' !! d)) ->
  forall d', default ∅ (index_shards ds c !! d') = default ∅ (index_shards ds' c !! d').
Proof. intros E d'. apply set_eq. intros p. by rewrite !index_shards_elem, E. Qed.

(** An operation that behaves alike on equivalent caches. *)
Definition chunk_proper {A} (m : St (WriteBatch * ChunkIndex) A) : Prop :=
  forall b i i', chunk_equiv i i' ->
    (m (b, i)).1.1 = (m (b, i')).1.1 /\ (m (b, i)).2 = (m (b, i')).2
    /\ chunk_equiv (m (b, i)).1.2 (m (b, i')).1.2.

(** ** The manager's invariant *)

Section ChunkInv.
Context {RDB : RocksDb no_merge} `{Serde Chunk} `{Serde StagingChunk}.
Implicit Types (db : SmDb) (b : WriteBatch).

Record chunk_inv (index : ChunkIndex) : Prop := {
  ck_staging_id : forall id s, ci_staging index !! id = Some s ->
    sg_chunk_id s = id /\ FIRST_ID <= id < ci_next_id index /\ ci_chunks index !! id = None;
  ck_slots : forall id c, ci_chunks index !! id = Some c -> slots_ok id (c_code_mode c) (c_shards c);
  ck_sslots : forall id s, ci_staging index !! id = Some s -> slots_ok id (sg_code_mode s) (sg_shards s);
  ck_ds : forall d p, p ∈ default ∅ (ci_disk_shards index !! d) <->
    exists id c s, ci_chunks index !! id = Some c /\ s ∈ c_shards c /\ ss_disk_id s = d
      /\ ss_shard_prefix s = p
}.
Record chunk_ok db b (index : ChunkIndex) : Prop := {
  ck_managed : managed c_chunk_id (pending db b CHUNK_CF) (ci_chunks index) (ci_next_id index);
  ck_staging : id_rep (pending db b STAGING_CF) (ci_staging index) FIRST_ID;
  ck_inv : chunk_inv index
}.

Ltac chunk_proper_tac :=
  intros b [cs ss nx ds] [cs' ss' nx' ds'] [E1 E2 E3 E4]; simpl in E1, E2, E3, E4; subst;
  run_st; cbn [ci_chunks ci_staging ci_next_id ci_disk_shards];
  repeat first [case_match; cbn [fst snd ci_chunks ci_staging ci_next_id ci_disk_shards]; simplify_eq];
  try done; (split; [done|]; split; [done|]); split; try done; simpl;
  eauto using disk_shards_insert_equiv, disk_shards_remove_equiv, index_shards_equiv.
Lemma chunk_create_proper db cmd : chunk_proper (ChunkManager_apply_create_staging db cmd).
Proof. unfold ChunkManager_apply_create_staging. chunk_proper_tac. Qed.
Lemma chunk_commit_proper db cmd : chunk_proper (ChunkManager_apply_commit db cmd).
Proof. unfold ChunkManager_apply_commit. chunk_proper_tac. Qed.
Lemma chunk_rebump_proper db cmd : chunk_proper (ChunkManager_apply_rebump db cmd).
Proof. unfold ChunkManager_apply_rebump. chunk_proper_tac. Qed.
Lemma chunk_seal_proper db cmd : chunk_proper (ChunkManager_apply_seal_chunk db cmd).
Proof. unfold ChunkManager_apply_seal_chunk. chunk_proper_tac. Qed.
Lemma chunk_rebind_proper db id i e d ts : chunk_proper (ChunkManager_apply_rebind db id i e d ts).
Proof. unfold ChunkManager_apply_rebind. chunk_proper_tac. Qed.

Lemma CHUNK_STAGING : CHUNK_CF <> STAGING_CF.
Proof. done. Qed.

Lemma chunk_ok_u32 db b index id c : chunk_ok db b index -> ci_chunks index !! id = Some c -> is_u32 id.
Proof. intros Hok Hc. by eapply (id_rep_valid (A:=Chunk)), Hc; apply (mg_rep _ _ _ _ (ck_managed _ _ _ Hok)). Qed.
Lemma staging_u32 db b index id c : chunk_ok db b index -> ci_staging index !! id = Some c -> is_u32 id.
Proof. intros Hok Hc. by eapply (id_rep_valid (A:=StagingChunk)), Hc; apply (ck_staging _ _ _ Hok). Qed.

Definition create_wf (cmd : CreateChunkStaging) : Prop :=
  is_i64 (cc_create_ts cmd) /\ 0 <= cc_epoch cmd /\ Forall (fun s => is_u8 (sp_index s)) (cc_slots cmd).

Lemma chunk_create_ok db b index cmd :
  is_Some (db !! CHUNK_CF) -> is_Some (db !! STAGING_CF) -> chunk_ok db b index -> create_wf cmd ->
  validate_slots (cc_code_mode cmd) (cc_slots cmd) = None ->
  exists b' index' r, ChunkManager_apply_create_staging db cmd (b, index) = ((b', index'), r)
    /\ touches [CHUNK_CF; STAGING_CF] b b'
    /\ match r with
       | Ok id => chunk_ok db b' index' /\ id = ci_next_id index /\ ci_next_id index' = id + 1
           /\ ci_chunks index' = ci_chunks index /\ ci_disk_shards index' = ci_disk_shards index
           /\ exists plan, ci_staging index' = <[id := plan]> (ci_staging index)
                /\ (forall s, s ∈ sg_shards plan -> ss_epoch s = cc_epoch cmd
                      /\ exists p, p ∈ cc_slots cmd /\ ss_disk_id s = sp_disk_id p)
       | Err _ => b' = b /\ index' = index
       end.
Proof.
  intros [d Hd] [d' Hd'] [Hm Hst [Hsi Hsl Hss Hds]] (Hts & He & Hu) Hv.
  unfold ChunkManager_apply_create_staging. open_st Hd. rewrite Hd'. cbn [ok_or].
  destruct (advance_counter (ci_next_id index)) as [next'|e] eqn:Ha; run_st.
  2:{ eexists _, _, _. split; [done|]. auto with pd. }
  pose proof (compose_slots_ok (ci_next_id index) _ _ _ _ Hts He Hu Hv) as Hc.
  destruct (compose_slots _ _ _ _) as [shards|e].
  2:{ eexists _, _, _. split; [done|]. auto with pd. }
  destruct Hc as [Hsok Hpl]. eexists _, _, _. split; [done|]. split; [auto with pd|].
  destruct (advance_counter_Ok _ _ Ha) as [-> Hlt]. pose proof (mg_next _ _ _ _ Hm) as [Hn Hn1].
  split_and!; [|done..|eexists; split; [done|exact Hpl]].
  split; simpl.
  - eapply managed_bump; [|done]. unfold stage_put_record. by rewrite pending_put_ne.
  - unfold stage_put_counter. rewrite pending_put_ne by done. unfold stage_put_record.
    rewrite pending_put. by apply id_rep_insert.
  - split; simpl.
    + intros id s. rewrite lookup_insert_Some. intros [[<- <-]|[_ Hs]].
      * split; [done|]. split; [lia|]. destruct (ci_chunks index !! ci_next_id index) as [c|] eqn:Hc; [|done].
        apply (mg_id _ _ _ _ Hm) in Hc. lia.
      * apply Hsi in Hs. naive_solver lia.
    + done.
    + intros id s. rewrite lookup_insert_Some. intros [[<- <-]|[_ Hs]]; [done|]. by apply Hss.
    + done.
Qed.

Lemma chunk_commit_ok db b index cmd :
  is_Some (db !! CHUNK_CF) -> is_Some (db !! STAGING_CF) -> chunk_ok db b index ->
  exists b' index' r, ChunkManager_apply_commit db cmd (b, index) = ((b', index'), Ok r)
    /\ touches [CHUNK_CF; STAGING_CF] b b' /\ chunk_ok db b' index'
    /\ ci_next_id index' = ci_next_id index
    /\ match ci_staging index !! cmc_chunk_id cmd with
       | None => r = Some RR_NotFound /\ index' = index
       | Some plan => r = None
           /\ ci_staging index' = delete (cmc_chunk_id cmd) (ci_staging index)
           /\ ci_chunks index' = <[cmc_chunk_id cmd := {| c_chunk_id := cmc_chunk_id cmd;
                c_code_mode := sg_code_mode plan; c_status := CS_Writable;
                c_shards := sg_shards plan |}]> (ci_chunks index)
       end.
Proof.
  intros [d Hd] [d' Hd'] Hok. pose proof Hok as [Hm Hst [Hsi Hsl Hss Hds]].
  unfold ChunkManager_apply_commit. open_st Hd. rewrite Hd'. cbn [ok_or].
  destruct (ci_staging index !! cmc_chunk_id cmd) as [plan|] eqn:Hp.
  2:{ eexists _, _, _. split; [done|]. auto with pd. }
  destruct (Hsi _ _ Hp) as (Hid & Hb & Hno). rewrite Hid.
  eexists _, _, _. split; [done|]. split; [auto with pd|]. split_and!; [|done..].
  set (c := {| c_chunk_id := cmc_chunk_id cmd; c_code_mode := sg_code_mode plan; c_status := CS_Writable;
               c_shards := sg_shards plan |}).
  split; simpl.
  - rewrite pending_delete_ne by done. unfold stage_put_record. rewrite pending_put.
    destruct Hm as [Hr Hi Hn]. split; [|..|done].
    + apply id_rep_insert; [|done]. by eapply staging_u32.
    + intros id c'. rewrite lookup_insert_Some. intros [[<- <-]|[_ ?]]; [done|]. by apply Hi.
  - rewrite pending_delete. unfold stage_put_record. rewrite pending_put_ne by done.
    apply id_rep_delete; [by eapply staging_u32|done].
  - split; simpl.
    + intros id s. rewrite lookup_delete_Some. intros [Hne Hs]. rewrite lookup_insert_ne by done. by apply Hsi.
    + intros id c'. rewrite lookup_insert_Some. intros [[<- <-]|[_ ?]]; [|by apply Hsl]. by apply Hss.
    + intros id s. rewrite lookup_delete_Some. intros [Hne Hs]. by apply Hss.
    + intros dk p. rewrite index_shards_elem, Hds. setoid_rewrite lookup_insert_Some. split.
      * intros [(id & c' & s & Hc' & ?)|(s & ?)].
        -- exists id, c', s. split; [|done]. right. split; [congruence|done].
        -- exists (cmc_chunk_id cmd), c, s. split; [by left|done].
      * intros (id & c' & s & [[<- <-]|[Hne Hc']] & ?); [by right; exists s|left; by exists id, c', s].
Qed.

Lemma chunk_rebump_ok db b index cmd : is_Some (db !! STAGING_CF) -> chunk_ok db b index ->
  exists b' index' r, ChunkManager_apply_rebump db cmd (b, index) = ((b', index'), r)
    /\ touches [CHUNK_CF; STAGING_CF] b b'
    /\ match r with
       | Ok r => chunk_ok db b' index' /\ ci_next_id index' = ci_next_id index
           /\ ci_chunks index' = ci_chunks index /\ ci_disk_shards index' = ci_disk_shards index
           /\ match ci_staging index !! rbs_chunk_id cmd with
              | None => r = Some RR_NotFound /\ index' = index
              | Some plan => r = None /\ exists plan',
                  ci_staging index' = <[rbs_chunk_id cmd := plan']> (ci_staging index)
                  /\ ss_disk_id <$> sg_shards plan' = ss_disk_id <$> sg_shards plan
                  /\ ss_epoch <$> sg_shards plan' = (fun s => ss_epoch s + EPOCH_JUMP) <$> sg_shards plan
              end
       | Err _ => b' = b /\ index' = index
       end.
Proof.
  intros [d Hd] Hok. pose proof Hok as [Hm Hst [Hsi Hsl Hss Hds]].
  unfold ChunkManager_apply_rebump. open_st Hd.
  destruct (ci_staging index !! rbs_chunk_id cmd) as [plan|] eqn:Hp.
  2:{ eexists _, _, _. split; [done|]. auto 10 with pd. }
  assert (is_u32 (rbs_chunk_id cmd)) as Hu by by eapply staging_u32.
  pose proof (rebump_loop_ok (rbs_chunk_id cmd) (sg_shards plan) Hu 0) as Hr.
  destruct (Hss _ _ Hp) as [Hlen Hmax Hslot].
  destruct (rebump_loop _ _) as [shards|e]; run_st.
  2:{ eexists _, _, _. split; [done|]. auto with pd. }
  destruct Hr as [Hl Hs].
  { intros n s Hn. rewrite Z.add_0_l. split; [|by apply Hslot].
    apply lookup_lt_Some in Hn. unfold len, uint in *. lia. }
  eexists _, _, _. split; [done|]. split; [auto with pd|]. split_and!; [|done..|].
  - split; simpl.
    + unfold stage_put_record. by rewrite pending_put_ne.
    + unfold stage_put_record. rewrite pending_put. by apply id_rep_insert.
    + split; simpl; [|done| |done].
      * intros id s. rewrite lookup_insert_Some. intros [[<- <-]|[_ ?]]; [|by apply Hsi]. simpl. by apply Hsi.
      * intros id s. rewrite lookup_insert_Some. intros [[<- <-]|[_ ?]]; [|by apply Hss]. simpl.
        split; [unfold len in *; lia|unfold len in *; lia|]. intros n s Hn. by apply Hs in Hn as [? _].
  - eexists. split; [done|]. simpl. split; apply list_eq_same_length with (n := length shards);
      rewrite ?length_fmap; try done; intros n x y Hn; rewrite !list_lookup_fmap;
      destruct (shards !! n) as [s|] eqn:Hsn; simpl; try done;
      apply Hs in Hsn as (_ & s0 & -> & ? & ?); simpl; congruence.
Qed.

Lemma chunk_seal_ok db b index cmd : is_Some (db !! CHUNK_CF) -> chunk_ok db b index ->
  exists b' index' r, ChunkManager_apply_seal_chunk db cmd (b, index) = ((b', index'), Ok r)
    /\ touches [CHUNK_CF; STAGING_CF] b b' /\ chunk_ok db b' index'
    /\ ci_next_id index' = ci_next_id index
    /\ (forall id, id <> slc_chunk_id cmd -> ci_chunks index' !! id = ci_chunks index !! id)
    /\ match ci_chunks index !! slc_chunk_id cmd with
       | None => r = Some RR_NotFound /\ index' = index
       | Some c => match c_status c with
                   | CS_Migrating | CS_Broken => r = Some RR_InvalidTransition /\ index' = index
                   | _ => r = None /\ exists c', ci_chunks index' !! slc_chunk_id cmd = Some c'
                            /\ c_status c' = CS_Sealed /\ c_shards c' = c_shards c
                   end
       end.
Proof.
  intros [d Hd] Hok. pose proof Hok as [Hm Hst [Hsi Hsl Hss Hds]].
  unfold ChunkManager_apply_seal_chunk. open_st Hd.
  destruct (ci_chunks index !! slc_chunk_id cmd) as [c|] eqn:Hc.
  2:{ eexists _, _, _. split; [done|]. auto 10 with pd. }
  destruct (mg_id _ _ _ _ Hm _ _ Hc) as [Hid _].
  set (c' := {| c_chunk_id := c_chunk_id c; c_code_mode := c_code_mode c; c_status := CS_Sealed;
                c_shards := c_shards c |}).
  assert (chunk_ok db (stage_put_record b CHUNK_CF (c_chunk_id c) c')
      {| ci_chunks := <[slc_chunk_id cmd := c']> (ci_chunks index); ci_staging := ci_staging index;
         ci_next_id := ci_next_id index; ci_disk_shards := ci_disk_shards index |}) as Hseal.
  { split; simpl.
    - rewrite Hid. by eapply managed_update.
    - unfold stage_put_record. by rewrite pending_put_ne.
    - split; simpl; [| |done|].
      + intros id s Hs. destruct (Hsi _ _ Hs) as (? & ? & Hno). split; [done|]. split; [done|].
        rewrite lookup_insert_ne; [done|]. congruence.
      + intros id c''. rewrite lookup_insert_Some. intros [[<- <-]|[_ ?]]; [|by apply Hsl]. simpl. by apply Hsl.
      + intros dk p. rewrite Hds. setoid_rewrite lookup_insert_Some. split.
        * intros (id & c'' & s & Hc' & ?). destruct (decide (slc_chunk_id cmd = id)) as [<-|].
          -- exists (slc_chunk_id cmd), c', s. split; [by left|]. simpl. naive_solver.
          -- exists id, c'', s. naive_solver.
        * intros (id & c'' & s & [[<- <-]|[Hne Hc']] & ?); [|by exists id, c'', s].
          by exists (slc_chunk_id cmd), c, s. }
  assert (forall id, id <> slc_chunk_id cmd ->
            <[slc_chunk_id cmd := c']> (ci_chunks index) !! id = ci_chunks index !! id) as Hother.
  { intros id Hne. by rewrite lookup_insert_ne. }
  destruct (c_status c) eqn:Es; run_st; eexists _, _, _; (split; [done|]);
    (split; [auto with pd|]); split_and!; try done; simpl; rewrite ?lookup_insert_eq; by eexists.
Qed.

(** A shard prefix names one slot of one chunk. *)
Lemma prefix_slot db b index id c n s id' c' n' s' : chunk_ok db b index ->
  ci_chunks index !! id = Some c -> c_shards c !! n = Some s ->
  ci_chunks index !! id' = Some c' -> c_shards c' !! n' = Some s' ->
  ss_shard_prefix s = ss_shard_prefix s' -> id = id' /\ n = n'.
Proof.
  intros Hok Hc Hs Hc' Hs' E.
  assert (forall id c n s, ci_chunks index !! id = Some c -> c_shards c !! n = Some s ->
    ss_shard_prefix s = id * 2 ^ 32 + Z.of_nat n * 2 ^ 24 /\ is_u8 (Z.of_nat n)) as Hp.
  { clear -Hok. intros id c n s Hc Hs. pose proof (chunk_ok_u32 _ _ _ _ _ Hok Hc) as Hu.
    pose proof (ck_slots _ (ck_inv _ _ _ Hok) _ _ Hc) as Hsl.
    destruct (slots_ok_index _ _ _ _ _ Hu Hsl Hs) as [Hn _]. split; [|done].
    by apply (slot_ok_fields _ _ _ Hu Hn), (so_slot _ _ _ Hsl). }
  destruct (Hp _ _ _ _ Hc Hs) as [E1 Hn], (Hp _ _ _ _ Hc' Hs') as [E2 Hn']. unfold uint in *. lia.
Qed.

Lemma slots_ok_insert id cm shards n s s' : slots_ok id cm shards -> shards !! n = Some s ->
  slot_ok id (Z.of_nat n) s' -> slots_ok id cm (<[n := s']> shards).
Proof.
  intros [Hl Hm Hs] Hn Hs'. assert (len (<[n := s']> shards) = len shards) as E
    by (unfold len; by rewrite length_insert).
  split; [by rewrite E|by rewrite E|]. intros n' s''. rewrite list_lookup_insert_Some.
  intros [(<- & <- & _)|[_ ?]]; [done|]. by apply Hs.
Qed.

Lemma chunk_rebind_ok db b index id i expected disk ts :
  is_Some (db !! CHUNK_CF) -> chunk_ok db b index -> is_u8 i -> is_i64 ts ->
  exists b' index' r, ChunkManager_apply_rebind db id i expected disk ts (b, index) = ((b', index'), Ok r)
    /\ touches [CHUNK_CF; STAGING_CF] b b' /\ chunk_ok db b' index'
    /\ ci_next_id index' = ci_next_id index /\ ci_staging index' = ci_staging index
    /\ (r <> None -> index' = index)
    /\ match ci_chunks index !! id ≫= (fun c => s ← c_shards c !! Z.to_nat i; Some (c, s)) with
       | None => r = Some RR_NotFound
       | Some (c, s) =>
           if (ss_epoch s =? expected) && (expected <? MAX_SHARD_EPOCH)
           then r = None /\ exists s', ss_epoch s' = expected + 1 /\ ss_disk_id s' = disk
                  /\ ss_shard_prefix s' = ss_shard_prefix s
                  /\ ss_extent_id s' = ExtentId_new (ShardSlot_shard_id s + 1) ts
                  /\ ci_chunks index' = <[id := {| c_chunk_id := id; c_code_mode := c_code_mode c;
                        c_status := c_status c; c_shards := <[Z.to_nat i := s']> (c_shards c) |}]>
                        (ci_chunks index)
           else r = Some RR_InvalidTransition
       end.
Proof.
  intros [d Hd] Hok Hi Hts. pose proof Hok as [Hm Hst [Hsi Hsl Hss Hds]].
  unfold ChunkManager_apply_rebind. open_st Hd.
  destruct (ci_chunks index !! id) as [c|] eqn:Hc; simpl.
  2:{ eexists _, _, _. split; [done|]. auto 10 with pd. }
  pose proof (chunk_ok_u32 _ _ _ _ _ Hok Hc) as Hu. destruct (mg_id _ _ _ _ Hm _ _ Hc) as [Hid _].
  pose proof (Hsl _ _ Hc) as Hsok.
  assert (0 <= i) as Hi0 by (unfold uint in Hi; lia).
  rewrite (find_slot_nth _ _ _ _ Hu Hsok Hi0).
  destruct (c_shards c !! Z.to_nat i) as [s|] eqn:Hs; simpl.
  2:{ eexists _, _, _. split; [done|]. auto 10 with pd. }
  pose proof (so_slot _ _ _ Hsok _ _ Hs) as Hslot. rewrite Z2Nat.id in Hslot by done.
  destruct (slot_ok_fields _ _ _ Hu Hi Hslot) as (Hp & He & Hix & Hsid & _).
  destruct (Z.eqb_spec (ss_epoch s) expected) as [<-|Hne]; simpl.
  2:{ eexists _, _, _. split; [done|]. auto 10 with pd. }
  unfold checked_add. rewrite (proj2 (Z.ltb_lt _ _)) by (rewrite MAX_SHARD_EPOCH_val in He; lia). simpl.
  destruct (Z.leb_spec (ss_epoch s + 1) MAX_SHARD_EPOCH) as [Hle|Hgt].
  2:{ rewrite (proj2 (Z.ltb_ge _ _)) by lia. eexists _, _, _. split; [done|]. auto 10 with pd. }
  rewrite (proj2 (Z.ltb_lt _ _)) by lia.
  set (sid := id * 2 ^ 32 + i * 2 ^ 24 + (ss_epoch s + 1)).
  assert (ShardId_try_new id i (ss_epoch s + 1) = Ok sid) as Hnew by (apply ShardId_try_new_val; [done|lia]).
  unfold compose_slot. rewrite Hnew. run_st.
  set (s' := {| ss_shard_prefix := ShardId_shard_prefix sid; ss_epoch := ss_epoch s + 1;
                ss_disk_id := disk; ss_extent_id := ExtentId_new sid ts |}).
  assert (slot_ok id i s') as Hs'.
  { split; [simpl; lia|]. exists ts. split; [done|]. unfold compose_slot. simpl. by rewrite Hnew. }
  destruct (slot_ok_fields _ _ _ Hu Hi Hs') as (Hp' & _).
  assert (ShardId_shard_prefix sid = ss_shard_prefix s) as Epre by (simpl in Hp'; congruence).
  rewrite Hid. rewrite (replace_slot_insert _ _ _ _ _ Hu Hsok Hi0).
  eexists _, _, _. split; [done|]. split; [auto with pd|].
  split_and!; [|done..| | |]; simpl; try done.
  2:{ exists s'. split_and!; try done. simpl. rewrite Hsid. unfold sid. by rewrite Z.add_assoc. }
  set (c' := {| c_chunk_id := id; c_code_mode := c_code_mode c; c_status := c_status c;
                c_shards := <[Z.to_nat i := s']> (c_shards c) |}).
  split; simpl.
  - eapply managed_update; [done..|]. simpl. by rewrite Hid.
  - unfold stage_put_record. by rewrite pending_put_ne.
  - split; simpl; [| |done|].
    + intros id' st Hst'. destruct (Hsi _ _ Hst') as (? & ? & Hno). split; [done|]. split; [done|].
      rewrite lookup_insert_ne; [done|]. congruence.
    + intros id' c''. rewrite lookup_insert_Some. intros [[<- <-]|[_ ?]]; [|by apply Hsl]. simpl.
      eapply slots_ok_insert; [by apply Hsl|done|]. by rewrite Z2Nat.id.
    + intros dk p. rewrite Epre, disk_shards_insert_elem, disk_shards_remove_elem, Hds.
      setoid_rewrite lookup_insert_Some. split.
      * intros [[-> ->]|[(id' & c'' & s'' & Hc'' & Hin & <- & <-) Hno]].
        -- exists id, c', s'. split; [by left|]. split; [|done]. simpl.
           apply list_elem_of_lookup. exists (Z.to_nat i). apply list_lookup_insert_eq.
           by eapply lookup_lt_Some.
        -- apply list_elem_of_lookup in Hin as [n Hn].
           destruct (decide (id = id')) as [<-|]; [|exists id', c'', s''; split; [by right|];
             split; [by eapply list_elem_of_lookup_2|done]].
           rewrite Hc in Hc''. injection Hc'' as <-. exists id, c', s''. split; [by left|].
           split; [|done]. simpl. apply list_elem_of_lookup. exists n. rewrite list_lookup_insert_ne; [done|].
           intros <-. rewrite Hs in Hn. injection Hn as <-. by apply Hno.
      * intros (id' & c'' & s'' & [[<- <-]|[Hne Hc'']] & Hin & <- & <-).
        -- simpl in Hin. apply list_elem_of_lookup in Hin as [n Hn].
           apply list_lookup_insert_Some in Hn as [(<- & <- & _)|[Hne Hn]]; [by left|]. right.
           split; [exists id, c, s''; split; [done|]; split; [by eapply list_elem_of_lookup_2|done]|].
           intros [_ E]. destruct (prefix_slot _ _ _ _ _ _ _ _ _ _ _ Hok Hc Hn Hc Hs E). by apply Hne.
        -- right. split; [by exists id', c'', s''|]. apply list_elem_of_lookup in Hin as [n Hn].
           intros [_ E]. destruct (prefix_slot _ _ _ _ _ _ _ _ _ _ _ Hok Hc'' Hn Hc Hs E). by apply Hne.
Qed.

Lemma chunk_ok_touches db cfs b b' index : touches cfs b b' -> CHUNK_CF ∉ cfs -> STAGING_CF ∉ cfs ->
  chunk_ok db b index -> chunk_ok db b' index.
Proof.
  intros Ht H1 H2 [Hm Hst Hi]. split; [| |done].
  - by rewrite (pending_touches _ _ _ _ _ Ht H1).
  - by rewrite (pending_touches _ _ _ _ _ Ht H2).
Qed.

(** The rebuilt cache answers like the one that was built step by step. *)
Lemma rebuild_index_ok index chunks staging : chunk_inv index ->
  (forall id c, ci_chunks index !! id = Some c -> c_chunk_id c = id) ->
  collect c_chunk_id chunks = ci_chunks index -> collect sg_chunk_id staging = ci_staging index ->
  chunk_equiv (rebuild_index chunks (ci_next_id index) staging) index
  /\ chunk_inv (rebuild_index chunks (ci_next_id index) staging).
Proof.
  intros [Hsi Hsl Hss Hds] Hid Hc Hs. unfold rebuild_index. rewrite Hc, Hs.
  assert (forall d p, p ∈ default ∅ (foldl index_shards ∅ (values (ci_chunks index)) !! d) <->
    exists id c s, ci_chunks index !! id = Some c /\ s ∈ c_shards c /\ ss_disk_id s = d
      /\ ss_shard_prefix s = p) as E.
  { intros d p. rewrite index_all_elem, lookup_empty. simpl. setoid_rewrite elem_of_values. set_solver. }
  split; [split; simpl; try done|by split].
  intros d. apply set_eq. intros p. by rewrite E, Hds.
Qed.

Lemma chunk_restore_ok db index : is_Some (db !! CHUNK_CF) -> is_Some (db !! STAGING_CF) ->
  chunk_ok db [] index ->
  exists index', ChunkManager_restore db = Ok index' /\ chunk_equiv index' index /\ chunk_ok db [] index'.
Proof.
  intros Hd [d' Hd'] [Hm Hst Hinv]. destruct (managed_restore _ _ _ _ _ Hd Hm) as (chunks & Hl & Hc).
  rewrite pending_nil, Hd' in Hst. simpl in Hst.
  destruct (load_records_rep _ _ _ _ _ sg_chunk_id Hd' Hst) as (staging & Hl' & Hs).
  { intros id s Hs. by apply (ck_staging_id _ Hinv) in Hs as [? _]. }
  unfold ChunkManager_restore. rewrite Hl. simpl. rewrite Hl'.
  destruct (rebuild_index_ok index chunks staging) as [He Hi]; [done|..|done|done|].
  { intros id c Hc'. by apply (mg_id _ _ _ _ Hm) in Hc' as [? _]. }
  eexists. split; [done|]. split; [done|]. split; [| |done].
  - destruct He as [-> _ -> _]. done.
  - destruct He as [_ -> _ _]. by rewrite pending_nil, Hd'.
Qed.

Lemma chunk_snapshot_ok db b index db0 b0 index0 :
  is_Some (db !! CHUNK_CF) -> is_Some (db !! STAGING_CF) ->
  ops_of CHUNK_CF b = [] -> ops_of STAGING_CF b = [] -> chunk_ok db0 b0 index0 ->
  exists b' index', ChunkManager_stage_and_apply_snapshot db (ChunkManager_snapshot_view index0).1.1
      (ChunkManager_snapshot_view index0).1.2 (ChunkManager_snapshot_view index0).2 (b, index)
      = ((b', index'), Ok tt)
    /\ touches [CHUNK_CF; STAGING_CF] b b' /\ chunk_equiv index' index0 /\ chunk_ok db b' index'.
Proof.
  intros [d Hd] [d' Hd'] Hb Hb' [Hm Hst Hinv].
  unfold ChunkManager_stage_and_apply_snapshot, ChunkManager_snapshot_view. open_st Hd. rewrite Hd'. cbn [ok_or].
  assert (forall id c, ci_chunks index0 !! id = Some c -> c_chunk_id c = id) as Hid.
  { intros id c Hc'. by apply (mg_id _ _ _ _ Hm) in Hc' as [? _]. }
  assert (forall id c, ci_staging index0 !! id = Some c -> sg_chunk_id c = id) as Hid'.
  { intros id s Hs. by apply (ck_staging_id _ Hinv) in Hs as [? _]. }
  destruct (rebuild_index_ok index0 (values (ci_chunks index0)) (values (ci_staging index0)))
    as [He Hi]; [done..|by apply collect_values|by apply collect_values|].
  eexists _, _. split; [done|]. split; [auto 15 with pd|]. split; [done|].
  assert (ops_of STAGING_CF (stage_clear b db CHUNK_CF) = []) as Hb1.
  { rewrite (touches_clear [CHUNK_CF] b b db CHUNK_CF ltac:(by left) ltac:(done)); [done|].
    by rewrite list_elem_of_singleton. }
  set (b1 := stage_clear (stage_clear b db CHUNK_CF) db STAGING_CF).
  set (b2 := stage_put_counter _ _ _). split; [| |done].
  - destruct He as [-> _ -> _].
    rewrite (pending_touches _ [STAGING_CF] b2); [|auto with pd|by rewrite list_elem_of_singleton].
    eapply managed_snapshot; [done|]. unfold b1. rewrite pending_clear_ne by done. by apply pending_clear.
  - destruct He as [_ -> _ _]. rewrite <- (collect_values sg_chunk_id (ci_staging index0)) at 2 by done.
    apply id_rep_fill.
    + rewrite (pending_touches _ [CHUNK_CF] b1); [|unfold b2; auto with pd|by rewrite list_elem_of_singleton].
      by apply pending_clear.
    + apply Forall_forall. intros s [id Hs]%elem_of_values. rewrite (Hid' _ _ Hs).
      by eapply (id_rep_valid (A:=StagingChunk)).
Qed.
End ChunkInv.
