(* ===== verification/PdPlacement.v ===== *)
(** Shard placement (epoch-pd: chunk/placement.rs): the greedy choice respects
    anti-affinity, fails only when no admissible choice exists, and does not
    depend on the order of its input. *)

From S2P Require Import Prelude Ids PdCluster PdChunk.

(** A choice of disks under an affinity: pairwise distinct nodes (and racks). *)
Definition admissible (affinity : AntiAffinity) (cs : list DiskCandidate) : Prop :=
  NoDup (dc_node_id <$> cs) /\ (affinity = RackAware -> NoDup (dc_rack <$> cs)).

(** What the loop has chosen so far. *)
Record plan_inv (affinity : AntiAffinity) (cs : list DiskCandidate) (total : Z) (chosen : list DiskId)
    (used_nodes : list NodeId) (used_racks : list string) : Prop := {
  pi_chosen : chosen = dc_disk_id <$> cs;
  pi_nodes : used_nodes = dc_node_id <$> cs;
  pi_racks : used_racks = dc_rack <$> cs;
  pi_adm : admissible affinity cs;
  pi_len : len cs <> total
}.

Lemma plan_inv_nil affinity total : 0 < total -> plan_inv affinity [] total [] [] [].
Proof.
  intros. split; [done..| |unfold len; simpl; lia]. split; [|intros _]; apply NoDup_nil_2.
Qed.

Lemma plan_loop_spec affinity total l cs chosen nodes racks :
  plan_inv affinity cs total chosen nodes racks ->
  match plan_loop l total affinity chosen nodes racks with
  | Some r => exists cs', cs' `sublist_of` l /\ r = dc_disk_id <$> (cs ++ cs')
      /\ len (cs ++ cs') = total /\ admissible affinity (cs ++ cs')
  | None => exists cs', cs' `sublist_of` l /\ admissible affinity (cs ++ cs')
      /\ (len cs < total -> len (cs ++ cs') < total)
      /\ (forall c, c ∈ l -> dc_node_id c ∈ dc_node_id <$> (cs ++ cs')
            \/ (affinity = RackAware /\ dc_rack c ∈ dc_rack <$> (cs ++ cs')))
  end.
Proof.
  revert cs chosen nodes racks. induction l as [|c l IH]; intros cs chosen nodes racks Hinv; simpl.
  { exists []. rewrite app_nil_r. split; [done|]. split; [apply Hinv|]. split; [done|]. set_solver. }
  pose proof Hinv as [-> -> -> [Hn Hr] Hl].
  assert (forall Q : list DiskCandidate -> Prop, (exists cs', cs' `sublist_of` l /\ Q cs') ->
    exists cs', cs' `sublist_of` c :: l /\ Q cs') as Hskip.
  { intros Q (cs' & ? & ?). exists cs'. split; [by apply sublist_cons|done]. }
  destruct (decide (dc_node_id c ∈ dc_node_id <$> cs)) as [Hu|Hu].
  { specialize (IH _ _ _ _ Hinv). destruct (plan_loop l _ _ _ _ _); apply Hskip; [done|].
    destruct IH as (cs' & ? & ? & ? & Hall). exists cs'. split_and!; try done.
    intros c' [->|?]%elem_of_cons; [|auto]. left. rewrite fmap_app. apply elem_of_app. by left. }
  destruct (decide (affinity = RackAware /\ dc_rack c ∈ dc_rack <$> cs)) as [[-> Hk]|Hk].
  { specialize (IH _ _ _ _ Hinv). destruct (plan_loop l _ _ _ _ _); apply Hskip; [done|].
    destruct IH as (cs' & ? & ? & ? & Hall). exists cs'. split_and!; try done.
    intros c' [->|?]%elem_of_cons; [|auto]. right. split; [done|]. rewrite fmap_app. apply elem_of_app. by left. }
  assert (admissible affinity (cs ++ [c])) as Hadm.
  { split; [|intros ->]; rewrite fmap_app; apply NoDup_app; (split; [auto|]);
      (split; [|apply NoDup_singleton]); intros x Hx ->%list_elem_of_singleton; naive_solver. }
  assert (len (dc_disk_id <$> cs) = len cs) as El by (unfold len; by rewrite length_fmap).
  rewrite len_app, El. change (len [dc_disk_id c]) with 1.
  destruct (Z.eqb_spec (len cs + 1) total) as [<-|Hne].
  { exists [c]. split; [apply sublist_skip, sublist_nil_l|]. split; [by rewrite fmap_app|].
    split; [by rewrite len_app|done]. }
  specialize (IH (cs ++ [c]) (dc_disk_id <$> (cs ++ [c])) (dc_node_id <$> (cs ++ [c])) (dc_rack <$> (cs ++ [c]))).
  rewrite !fmap_app in IH. simpl in IH.
  specialize (IH ltac:(split; rewrite ?fmap_app, ?len_app; try done)).
  destruct (plan_loop l _ _ _ _ _).
  - destruct IH as (cs' & Hsub & -> & Hlen & Ha). exists (c :: cs').
    rewrite <- (assoc_L (++)) in Hlen, Ha. simpl in *. split; [by apply sublist_skip|].
    split; [by rewrite !fmap_app, <- (assoc_L (++))|]. by split.
  - destruct IH as (cs' & Hsub & Ha & Hlen & Hall). exists (c :: cs').
    rewrite <- (assoc_L (++)) in Hlen, Ha, Hall. simpl in *. split; [by apply sublist_skip|].
    split; [done|]. split; [intros; apply Hlen; rewrite len_app; change (len [c]) with 1; lia|].
    intros c' [->|?]%elem_of_cons; [|auto]. left. rewrite fmap_app. set_solver.
Qed.

Lemma order_candidates_Permutation l : order_candidates l ≡ₚ l.
Proof. unfold order_candidates. by rewrite !sort_by_key_Permutation. Qed.

(** The order of the candidates is the lexicographic one, so it is determined by
    the set of disks. *)
Lemma order_candidates_unique l1 l2 : l1 ≡ₚ l2 -> NoDup (dc_disk_id <$> l1) ->
  order_candidates l1 = order_candidates l2.
Proof.
  intros Hp Hnd. unfold order_candidates. f_equal. apply sort_by_key_unique; [done|].
  intros x y Hx Hy E. apply list_elem_of_lookup in Hx as [i Hi]. apply list_elem_of_lookup in Hy as [j Hj].
  assert (i = j) as <-; [|congruence].
  apply (NoDup_lookup _ _ _ (dc_disk_id x) Hnd); rewrite list_lookup_fmap, ?Hi, ?Hj; simpl; congruence.
Qed.

Lemma NoDup_fmap_le {A B} `{EqDecision B} (f : A -> B) (l : list A) (used : list B) :
  NoDup (f <$> l) -> (forall x, x ∈ l -> f x ∈ used) -> len l <= len used.
Proof.
  intros Hnd Hin. unfold len. apply Nat2Z.inj_le. rewrite <- (length_fmap f l).
  apply submseteq_length, NoDup_submseteq; [done|]. intros y (x & -> & Hx)%list_elem_of_fmap. auto.
Qed.

(** C36: shard placement is sound, complete and deterministic. A plan has exactly
    the requested number of disks, all of them candidates on pairwise distinct
    nodes (and, rack-aware, distinct racks). When there is no plan, no choice of
    that many candidates on distinct nodes exists; rack-aware, none on distinct
    racks exists, provided the disks of a node are in one rack. The plan does not
    depend on the order in which the candidates are given. *)
Theorem plan_placement_correct : forall candidates total affinity, 0 < total ->
  (forall a b, a ∈ candidates -> b ∈ candidates -> dc_node_id a = dc_node_id b -> dc_rack a = dc_rack b) ->
  match plan_placement candidates total affinity with
  | Some disks => exists cs, cs ⊆+ candidates /\ disks = dc_disk_id <$> cs /\ len disks = total
      /\ admissible affinity cs
  | None => forall cs, (forall c, c ∈ cs -> c ∈ candidates) -> admissible affinity cs -> len cs < total
  end
  /\ (forall candidates', candidates ≡ₚ candidates' -> NoDup (dc_disk_id <$> candidates) ->
        plan_placement candidates' total affinity = plan_placement candidates total affinity).
Proof.
  intros candidates total affinity Ht Hrack. split.
  2:{ intros l' Hp Hnd. unfold plan_placement. by rewrite (order_candidates_unique _ _ Hp Hnd). }
  unfold plan_placement.
  pose proof (plan_loop_spec affinity total (order_candidates candidates) [] [] [] [] (plan_inv_nil _ _ Ht)) as Hs.
  destruct (plan_loop _ _ _ _ _ _) as [disks|].
  - destruct Hs as (cs & Hsub & -> & Hl & Ha).

    exists cs. simpl in *. split; [rewrite <- (order_candidates_Permutation candidates); by apply sublist_submseteq|].
    split; [done|]. split; [|done]. unfold len in *. by rewrite length_fmap.
  - destruct Hs as (used & Hsub & Ha & Hl & Hall).

    simpl in *. specialize (Hl ltac:(unfold len; simpl; lia)).
    setoid_rewrite order_candidates_Permutation in Hall.
    assert (forall c, c ∈ used -> c ∈ candidates) as Hin.
    { intros c Hc. rewrite <- (order_candidates_Permutation candidates).
      eapply elem_of_submseteq; [done|by apply sublist_submseteq]. }
    intros cs Hcs [Hn Hr]. eapply Z.le_lt_trans; [|exact Hl].
    assert (forall B (f : DiskCandidate -> B), len (f <$> used) = len used) as El
      by (intros; unfold len; by rewrite length_fmap).
    destruct affinity.
    + rewrite <- (El _ dc_node_id). apply (NoDup_fmap_le dc_node_id); [done|].
      intros c Hc. destruct (Hall c) as [?|[? _]]; [auto|done|done].
    + rewrite <- (El _ dc_rack). apply (NoDup_fmap_le dc_rack); [auto|].
      intros c Hc. destruct (Hall c) as [Hu|[_ ?]]; [auto| |done].
      apply list_elem_of_fmap in Hu as (c' & E & Hc'). apply list_elem_of_fmap. exists c'. split; [|done].
      apply Hrack; auto.
Qed.

Definition ex_candidates : list DiskCandidate :=
  [{| dc_disk_id := 1; dc_node_id := 10; dc_rack := "r1"; dc_writable_extents := 5 |};
   {| dc_disk_id := 2; dc_node_id := 10; dc_rack := "r1"; dc_writable_extents := 0 |};
   {| dc_disk_id := 3; dc_node_id := 11; dc_rack := "r2"; dc_writable_extents := 2 |}].
Lemma plan_placement_correct_witness :
  plan_placement ex_candidates 2 RackAware = Some [2; 3]
  /\ plan_placement ex_candidates 3 HostAware = None
  /\ (forall cs, (forall c, c ∈ cs -> c ∈ ex_candidates) -> admissible HostAware cs -> len cs < 3).
Proof.
  split; [vm_compute; reflexivity|]. split; [vm_compute; reflexivity|].
  refine (proj1 (plan_placement_correct ex_candidates 3 HostAware _ _)); [lia|].
  intros a b Ha Hb. unfold ex_candidates in Ha, Hb.
  repeat (apply elem_of_cons in Ha as [->|Ha]); repeat (apply elem_of_cons in Hb as [->|Hb]);
    simpl; try done; try lia; by apply not_elem_of_nil in Ha || by apply not_elem_of_nil in Hb.
Defined.
