(* ===== verification/PdJob.v ===== *)
(** Jobs, writer tokens and shard-repair tickets of the placement driver (epoch-pd:
    job/types.rs, job/mod.rs, job/commit.rs, job/driver.rs, writer/model.rs,
    writer/manager.rs, writer/liveness.rs, shard_repair.rs). *)

From S2P Require Import Prelude Ids Rocks PdDb PdCluster PdChunk.

(** ** Jobs (job/types.rs) *)

Inductive JobKind : Set :=
| RepairDisk (disk_id : DiskId)
| DropDisk (disk_id : DiskId)
| Balance (disk_id : DiskId)
| InspectRound
| GcRound.
#[export] Instance JobKind_eq_dec : EqDecision JobKind.
Proof. solve_decision. Defined.
Definition suspect_disk (k : JobKind) : option DiskId :=
  match k with
  | RepairDisk d | DropDisk d => Some d
  | Balance _ | InspectRound | GcRound => None
  end.
Inductive JobState : Set := JS_Created | JS_Running | JS_Done.
#[export] Instance JobState_eq_dec : EqDecision JobState.
Proof. solve_decision. Defined.
Record Job : Set := {
  j_id : Z; j_kind : JobKind; j_state : JobState; j_coordinator : option NodeId;
  j_lease_expiry_millis : Z; j_progress_watermark : Z
}.
#[export] Instance Job_eq_dec : EqDecision Job.
Proof. solve_decision. Defined.
Definition Job_lease_expired (j : Job) (now_millis : Z) : bool :=
  bool_decide (j_state j = JS_Running) && (j_lease_expiry_millis j <? now_millis).
Definition needs_coordinator (j : Job) (now_millis : Z) : bool :=
  match j_state j with
  | JS_Created => true
  | JS_Running => j_lease_expiry_millis j <? now_millis
  | JS_Done => false
  end.

(** ** The job manager (job/mod.rs) *)

Definition JOB_CF : string := "job".
Inductive JobCommand : Set :=
| JC_Create (kind : JobKind)
| JC_Assign (job_id : Z) (coordinator : NodeId) (lease_expiry_millis : Z)
| JC_RenewLease (job_id : Z) (lease_expiry_millis : Z)
| JC_AdvanceWatermark (job_id : Z) (watermark : Z) (lease_expiry_millis : Z)
| JC_Complete (job_id : Z).
Inductive JobOutcome : Set := JO_Created (job_id : Z) | JO_Applied | JO_Rejected (r : RejectReason).
Record JobIndex : Set := { ji_jobs : gmap Z Job; ji_next_id : Z }.

(** What each command does to the job it names (the closures of [apply]). *)
Definition job_assign (coordinator : NodeId) (lease : Z) (j : Job) : Job :=
  {| j_id := j_id j; j_kind := j_kind j; j_state := JS_Running; j_coordinator := Some coordinator;
     j_lease_expiry_millis := lease; j_progress_watermark := j_progress_watermark j |}.
Definition job_renew (lease : Z) (j : Job) : Job :=
  if decide (j_state j = JS_Running)
  then {| j_id := j_id j; j_kind := j_kind j; j_state := j_state j; j_coordinator := j_coordinator j;
          j_lease_expiry_millis := lease; j_progress_watermark := j_progress_watermark j |}
  else j.
Definition job_advance (watermark lease : Z) (j : Job) : Job :=
  {| j_id := j_id j; j_kind := j_kind j; j_state := j_state j; j_coordinator := j_coordinator j;
     j_lease_expiry_millis := if j_lease_expiry_millis j <? lease then lease else j_lease_expiry_millis j;
     j_progress_watermark :=
       if j_progress_watermark j <? watermark then watermark else j_progress_watermark j |}.
Definition job_complete (j : Job) : Job :=
  {| j_id := j_id j; j_kind := j_kind j; j_state := JS_Done; j_coordinator := j_coordinator j;
     j_lease_expiry_millis := j_lease_expiry_millis j; j_progress_watermark := j_progress_watermark j |}.

(** ** Authorization of a job's commit (job/commit.rs) *)

Inductive CommitRejection : Set := UnknownJob | NotRunning | NotCoordinator | EpochMismatch.
Definition job_authorize_commit (job : option Job) (committer : NodeId) (commit_epoch expected_epoch : Z)
    : result CommitRejection unit :=
  job <-? ok_or job UnknownJob ;;
  if negb (bool_decide (j_state job = JS_Running)) then Err NotRunning
  else if negb (bool_decide (j_coordinator job = Some committer)) then Err NotCoordinator
  else if negb (commit_epoch =? expected_epoch) then Err EpochMismatch
  else Ok tt.

(** ** Choosing a coordinator (job/driver.rs) *)

Definition JOB_LEASE_MILLIS : Z := 30000.
Definition pick_coordinator (job : Job) (nodes : list Node) (exclude : option NodeId) : option NodeId :=
  foldl (fun best id => match best with Some m => if id <? m then Some id else Some m | None => Some id end)
    None
    (filter (fun id => Some id <> exclude)
       (n_node_id <$> filter (fun n => n_status n = NS_Live /\ RoleSet_contains (n_roles n) RoleSet_DATA = true)
                        nodes)).

(** ** Writers (writer/model.rs, writer/manager.rs, writer/liveness.rs) *)

Definition WRITER_CF : string := "writer".
Inductive WriterStatus : Set := WS_Live | WS_Dead.
#[export] Instance WriterStatus_eq_dec : EqDecision WriterStatus.
Proof. solve_decision. Defined.
Record WriterRecord : Set := { w_token : WriterToken; w_node_id : NodeId; w_status : WriterStatus }.
#[export] Instance WriterRecord_eq_dec : EqDecision WriterRecord.
Proof. solve_decision. Defined.
Record RegisterWriter : Set := { rw_node_id : NodeId }.
Record MarkWriterDead : Set := { mwd_token : WriterToken }.
Record WriterIndex : Set := { wi_writers : gmap Z WriterRecord; wi_next_id : Z }.

Definition DEFAULT_WRITER_DEAD_AFTER_MILLIS : Z := 90000.
Definition dead_writer_plan (live : list (WriterToken * NodeId)) (staleness : NodeId -> Z)
    (dead_after_millis : Z) : list MarkWriterDead :=
  (fun tn => {| mwd_token := tn.1 |})
    <$> filter (fun tn => staleness tn.2 <> U64_MAX /\ dead_after_millis < staleness tn.2) live.

(** ** Shard-repair tickets (shard_repair.rs) *)

Definition SHARD_REPAIR_CF : string := "shard_repair".
Definition shard_prefix (chunk_id : ChunkId) (index : Z) : Z :=
  Z.lor (Z.shiftl chunk_id 32) (Z.shiftl index SHARD_EPOCH_BITS).
Record ShardRepairTicket : Set := {
  t_chunk_id : ChunkId; t_index : Z; t_target_node : NodeId; t_expected_epoch : Z
}.
#[export] Instance ShardRepairTicket_eq_dec : EqDecision ShardRepairTicket.
Proof. solve_decision. Defined.
Definition ticket_prefix (t : ShardRepairTicket) : Z := shard_prefix (t_chunk_id t) (t_index t).
Record ReportShardRepair : Set := { rsr_chunk_id : ChunkId; rsr_index : Z }.
Record CommitShardRepair : Set := {
  csr_chunk_id : ChunkId; csr_index : Z; csr_expected_epoch : Z; csr_new_disk : DiskId;
  csr_new_create_ts : Z; csr_committer : NodeId
}.
Inductive ShardRepairRejection : Set := NoTicket | NotTarget | TicketEpochMismatch.
Definition ticket_authorize_commit (ticket : option ShardRepairTicket) (committer : NodeId)
    (commit_epoch : Z) : result ShardRepairRejection unit :=
  ticket <-? ok_or ticket NoTicket ;;
  if negb (t_target_node ticket =? committer) then Err NotTarget
  else if negb (t_expected_epoch ticket =? commit_epoch) then Err TicketEpochMismatch
  else Ok tt.
Inductive ReportOutcome : Set := RO_Created | RO_AlreadyPresent.
#[export] Instance ReportOutcome_eq_dec : EqDecision ReportOutcome.
Proof. solve_decision. Defined.
Definition ticket_from_slot (chunk_id : ChunkId) (slot : ShardSlot) (target_node : NodeId)
    : ShardRepairTicket :=
  {| t_chunk_id := chunk_id; t_index := ShardSlot_index slot; t_target_node := target_node;
     t_expected_epoch := ss_epoch slot |}.

(** Serialization of the records (derived in the source). *)
#[export] Instance JobKind_countable : Countable JobKind.
Proof.
  apply (inj_countable'
    (fun k => match k with RepairDisk d => (0, d) | DropDisk d => (1, d) | Balance d => (2, d)
                         | InspectRound => (3, 0) | GcRound => (4, 0) end)
    (fun c : Z * Z => match c with (0, d) => RepairDisk d | (1, d) => DropDisk d | (2, d) => Balance d
                                 | (3, _) => InspectRound | _ => GcRound end)). by intros [].
Defined.
#[export] Instance JobState_countable : Countable JobState.
Proof.
  apply (inj_countable' (fun s => match s with JS_Created => 0 | JS_Running => 1 | JS_Done => 2 end)
    (fun c : Z => match c with 0 => JS_Created | 1 => JS_Running | _ => JS_Done end)). by intros [].
Defined.
#[export] Instance Job_countable : Countable Job.
Proof.
  apply (inj_countable'
    (fun j => (j_id j, j_kind j, j_state j, j_coordinator j, j_lease_expiry_millis j, j_progress_watermark j))
    (fun '(a, b, c, d, e, f) => {| j_id := a; j_kind := b; j_state := c; j_coordinator := d;
                                   j_lease_expiry_millis := e; j_progress_watermark := f |})). by intros [].
Defined.
#[export] Instance WriterStatus_countable : Countable WriterStatus.
Proof.
  apply (inj_countable' (fun s => match s with WS_Live => true | WS_Dead => false end)
    (fun b : bool => if b then WS_Live else WS_Dead)). by intros [].
Defined.
#[export] Instance WriterRecord_countable : Countable WriterRecord.
Proof.
  apply (inj_countable' (fun w => (w_token w, w_node_id w, w_status w))
    (fun '(a, b, c) => {| w_token := a; w_node_id := b; w_status := c |})). by intros [].
Defined.
#[export] Instance ShardRepairTicket_countable : Countable ShardRepairTicket.
Proof.
  apply (inj_countable' (fun t => (t_chunk_id t, t_index t, t_target_node t, t_expected_epoch t))
    (fun '(a, b, c, d) => {| t_chunk_id := a; t_index := b; t_target_node := c; t_expected_epoch := d |})).
  by intros [].
Defined.

Section Managers.
Context {RDB : RocksDb no_merge} `{Serde Job} `{Serde WriterRecord} `{Serde ShardRepairTicket}.

Definition JobManager_new : JobIndex := {| ji_jobs := ∅; ji_next_id := FIRST_ID |}.
Definition JobManager_restore (db : SmDb) : result SmError JobIndex :=
  r <-? load_records db JOB_CF ;;
  let '(records, next_id) := r in
  Ok {| ji_jobs := collect j_id records; ji_next_id := next_id |}.

Definition JobManager_apply_create (db : SmDb) (kind : JobKind) : St (WriteBatch * JobIndex) JobOutcome :=
  _cf <== slift (open_cf db JOB_CF) ;;
  index <== sgets snd ;;
  let id := ji_next_id index in
  next_id <== slift (advance_counter (ji_next_id index)) ;;
  let job := {| j_id := id; j_kind := kind; j_state := JS_Created; j_coordinator := None;
                j_lease_expiry_millis := 0; j_progress_watermark := 0 |} in
  _u <== smodify (fun s => (stage_put_record s.1 JOB_CF id job, s.2)) ;;
  _u <== smodify (fun s => (stage_put_counter s.1 JOB_CF next_id,
           {| ji_jobs := <[id := job]> (ji_jobs s.2); ji_next_id := next_id |})) ;;
  sret (JO_Created id).
Definition JobManager_apply_mutate (db : SmDb) (job_id : Z) (mutate : Job -> Job)
    : St (WriteBatch * JobIndex) JobOutcome :=
  _cf <== slift (open_cf db JOB_CF) ;;
  index <== sgets snd ;;
  match ji_jobs index !! job_id with
  | None => sret (JO_Rejected RR_NotFound)
  | Some job =>
      let job := mutate job in
      _u <== smodify (fun s => (s.1, {| ji_jobs := <[job_id := job]> (ji_jobs s.2);
                                        ji_next_id := ji_next_id s.2 |})) ;;
      _u <== smodify (fun s => (stage_put_record s.1 JOB_CF job_id job, s.2)) ;;
      sret JO_Applied
  end.
Definition JobManager_apply (db : SmDb) (cmd : JobCommand) : St (WriteBatch * JobIndex) JobOutcome :=
  match cmd with
  | JC_Create kind => JobManager_apply_create db kind
  | JC_Assign job_id coordinator lease => JobManager_apply_mutate db job_id (job_assign coordinator lease)
  | JC_RenewLease job_id lease => JobManager_apply_mutate db job_id (job_renew lease)
  | JC_AdvanceWatermark job_id watermark lease =>
      JobManager_apply_mutate db job_id (job_advance watermark lease)
  | JC_Complete job_id => JobManager_apply_mutate db job_id job_complete
  end.
Definition JobManager_get (index : JobIndex) (id : Z) : option Job := ji_jobs index !! id.
Definition JobManager_lease_expired (index : JobIndex) (now_millis : Z) : list Job :=
  filter (fun j => Job_lease_expired j now_millis = true) (values (ji_jobs index)).
Definition JobManager_needing_coordinator (index : JobIndex) (now_millis : Z) : list Job :=
  sort_by_key j_id (filter (fun j => needs_coordinator j now_millis = true) (values (ji_jobs index))).
Definition JobManager_jobs_for_coordinator (index : JobIndex) (coordinator : NodeId) : list Job :=
  filter (fun j => j_state j = JS_Running /\ j_coordinator j = Some coordinator) (values (ji_jobs index)).
Definition JobManager_snapshot_view (index : JobIndex) : list Job * Z :=
  (values (ji_jobs index), ji_next_id index).
Definition JobManager_stage_and_apply_snapshot (db : SmDb) (jobs : list Job) (next_id : Z)
    : St (WriteBatch * JobIndex) unit :=
  let next_id := Z.max next_id FIRST_ID in
  _cf <== slift (open_cf db JOB_CF) ;;
  _u <== smodify (fun s => (stage_clear s.1 db JOB_CF, s.2)) ;;
  _u <== smodify (fun s => (foldl (fun b j => stage_put_record b JOB_CF (j_id j) j) s.1 jobs, s.2)) ;;
  smodify (fun s => (stage_put_counter s.1 JOB_CF next_id,
    {| ji_jobs := collect j_id jobs; ji_next_id := next_id |})).

Definition WriterManager_new : WriterIndex := {| wi_writers := ∅; wi_next_id := FIRST_ID |}.
Definition WriterManager_restore (db : SmDb) : result SmError WriterIndex :=
  r <-? load_records db WRITER_CF ;;
  let '(records, next_id) := r in
  Ok {| wi_writers := collect w_token records; wi_next_id := next_id |}.
Definition WriterManager_apply_register (db : SmDb) (cmd : RegisterWriter)
    : St (WriteBatch * WriterIndex) WriterToken :=
  _cf <== slift (open_cf db WRITER_CF) ;;
  index <== sgets snd ;;
  let token := wi_next_id index in
  next_id <== slift (advance_counter (wi_next_id index)) ;;
  let record := {| w_token := token; w_node_id := rw_node_id cmd; w_status := WS_Live |} in
  _u <== smodify (fun s => (stage_put_record s.1 WRITER_CF token record, s.2)) ;;
  _u <== smodify (fun s => (stage_put_counter s.1 WRITER_CF next_id,
           {| wi_writers := <[token := record]> (wi_writers s.2); wi_next_id := next_id |})) ;;
  sret token.
Definition WriterManager_apply_mark_dead (db : SmDb) (cmd : MarkWriterDead)
    : St (WriteBatch * WriterIndex) (option RejectReason) :=
  _cf <== slift (open_cf db WRITER_CF) ;;
  index <== sgets snd ;;
  match wi_writers index !! mwd_token cmd with
  | None => sret (Some RR_NotFound)
  | Some current =>
      if decide (w_status current = WS_Dead) then sret None
      else
        let updated := {| w_token := w_token current; w_node_id := w_node_id current; w_status := WS_Dead |} in
        _u <== smodify (fun s => (stage_put_record s.1 WRITER_CF (mwd_token cmd) updated,
                 {| wi_writers := <[mwd_token cmd := updated]> (wi_writers s.2);
                    wi_next_id := wi_next_id s.2 |})) ;;
        sret None
  end.
Definition WriterManager_live_sessions (index : WriterIndex) : list (WriterToken * NodeId) :=
  (fun r => (w_token r, w_node_id r)) <$> filter (fun r => w_status r = WS_Live) (values (wi_writers index)).
Definition WriterManager_snapshot_view (index : WriterIndex) : list WriterRecord * Z :=
  (values (wi_writers index), wi_next_id index).
Definition WriterManager_stage_and_apply_snapshot (db : SmDb) (writers : list WriterRecord) (next_id : Z)
    : St (WriteBatch * WriterIndex) unit :=
  _cf <== slift (open_cf db WRITER_CF) ;;
  _u <== smodify (fun s => (stage_clear s.1 db WRITER_CF, s.2)) ;;
  _u <== smodify (fun s => (foldl (fun b w => stage_put_record b WRITER_CF (w_token w) w) s.1 writers, s.2)) ;;
  smodify (fun s => (stage_put_counter s.1 WRITER_CF next_id,
    {| wi_writers := collect w_token writers; wi_next_id := next_id |})).

(** The registry's index is the map of tickets by shard prefix. *)
Definition Registry_restore (db : SmDb) : result SmError (gmap Z ShardRepairTicket) :=
  cf <-? open_cf db SHARD_REPAIR_CF ;;
  iter_try (fun index kv =>
      ticket <-? ok_or (from_slice kv.2) SmRead ;;
      Ok (<[ticket_prefix ticket := ticket]> index))
    (rdb_iter cf []) ∅.
Definition Registry_apply_report (db : SmDb) (ticket : ShardRepairTicket)
    : St (WriteBatch * gmap Z ShardRepairTicket) ReportOutcome :=
  let prefix := ticket_prefix ticket in
  index <== sgets snd ;;
  if decide (is_Some (index !! prefix)) then sret RO_AlreadyPresent
  else
    _cf <== slift (open_cf db SHARD_REPAIR_CF) ;;
    _u <== smodify (fun s => (put_cf s.1 SHARD_REPAIR_CF (be_bytes 8 prefix) (to_vec ticket),
             <[prefix := ticket]> s.2)) ;;
    sret RO_Created.
Definition Registry_apply_clear (db : SmDb) (prefix : Z)
    : St (WriteBatch * gmap Z ShardRepairTicket) unit :=
  _cf <== slift (open_cf db SHARD_REPAIR_CF) ;;
  smodify (fun s => (delete_cf s.1 SHARD_REPAIR_CF (be_bytes 8 prefix), delete prefix s.2)).
Definition Registry_tickets_for_node (index : gmap Z ShardRepairTicket) (node : NodeId)
    : list ShardRepairTicket :=
  filter (fun t => t_target_node t = node) (values index).
Definition Registry_snapshot_view (index : gmap Z ShardRepairTicket) : list ShardRepairTicket :=
  values index.
Definition Registry_stage_and_apply_snapshot (db : SmDb) (tickets : list ShardRepairTicket)
    : St (WriteBatch * gmap Z ShardRepairTicket) unit :=
  _cf <== slift (open_cf db SHARD_REPAIR_CF) ;;
  _u <== smodify (fun s => (stage_clear s.1 db SHARD_REPAIR_CF, ∅)) ;;
  smodify (fun s => foldl (fun s ticket =>
    let prefix := ticket_prefix ticket in
    (put_cf s.1 SHARD_REPAIR_CF (be_bytes 8 prefix) (to_vec ticket), <[prefix := ticket]> s.2)) s tickets).
End Managers.

(** ** The managers keep their families and caches in step *)

Section ManagersOk.
Context {RDB : RocksDb no_merge} `{Serde Job} `{Serde WriterRecord} `{Serde ShardRepairTicket}.
Implicit Types (db : SmDb) (b : WriteBatch).

Definition job_ok db b (index : JobIndex) : Prop :=
  managed j_id (pending db b JOB_CF) (ji_jobs index) (ji_next_id index).
Definition writer_ok db b (index : WriterIndex) : Prop :=
  managed w_token (pending db b WRITER_CF) (wi_writers index) (wi_next_id index).
Record ticket_ok db b (index : gmap Z ShardRepairTicket) : Prop := {
  tk_rep : table_rep (be_bytes 8) (uint 64) (pending db b SHARD_REPAIR_CF) index ∅;
  tk_prefix : forall p t, index !! p = Some t -> ticket_prefix t = p
}.

Lemma job_mutate_ok db b index id mutate : is_Some (db !! JOB_CF) -> job_ok db b index ->
  (forall j, j_id (mutate j) = j_id j) ->
  exists b' index', JobManager_apply_mutate db id mutate (b, index)
      = ((b', index'), Ok (if decide (is_Some (ji_jobs index !! id)) then JO_Applied else JO_Rejected RR_NotFound))
    /\ touches [JOB_CF] b b' /\ job_ok db b' index' /\ ji_next_id index' = ji_next_id index
    /\ ji_jobs index' = alter mutate id (ji_jobs index).
Proof.
  intros [d Hd] Hok Hid. unfold JobManager_apply_mutate. open_st Hd.
  destruct (ji_jobs index !! id) as [j|] eqn:Hj.
  - rewrite decide_True by eauto. eexists _, _. split; [done|]. split; [auto with pd|]. simpl.
    split; [|split; [done|]].
    + unfold job_ok. simpl. eapply managed_update; [done..|apply Hid].
    + apply map_eq. intros k. destruct (decide (id = k)) as [<-|]; simplify_map_eq; done.
  - rewrite decide_False by (intros []; congruence). eexists _, _. split; [done|].
    split; [auto with pd|]. split; [done|]. split; [done|]. symmetry. apply map_eq. intros k.
    destruct (decide (id = k)) as [<-|]; simplify_map_eq; by rewrite ?Hj.
Qed.

(** What a command does to the jobs, apart from creating one. *)
Definition job_effect (cmd : JobCommand) : option (Z * (Job -> Job)) :=
  match cmd with
  | JC_Create _ => None
  | JC_Assign id c l => Some (id, job_assign c l)
  | JC_RenewLease id l => Some (id, job_renew l)
  | JC_AdvanceWatermark id w l => Some (id, job_advance w l)
  | JC_Complete id => Some (id, job_complete)
  end.

Lemma job_effect_id cmd id f j : job_effect cmd = Some (id, f) -> j_id (f j) = j_id j.
Proof. destruct cmd; intros [= <- <-]; try done. unfold job_renew. by case_decide. Qed.

Lemma job_apply_ok db b index cmd : is_Some (db !! JOB_CF) -> job_ok db b index ->
  exists b' index' r, JobManager_apply db cmd (b, index) = ((b', index'), r)
    /\ touches [JOB_CF] b b'
    /\ match r with
       | Ok r => job_ok db b' index'
           /\ match job_effect cmd with
              | None => exists kind, cmd = JC_Create kind /\ r = JO_Created (ji_next_id index)
                  /\ ji_next_id index' = ji_next_id index + 1
                  /\ ji_jobs index' = <[ji_next_id index := {| j_id := ji_next_id index; j_kind := kind;
                       j_state := JS_Created; j_coordinator := None; j_lease_expiry_millis := 0;
                       j_progress_watermark := 0 |}]> (ji_jobs index)
              | Some (id, f) => ji_next_id index' = ji_next_id index
                  /\ ji_jobs index' = alter f id (ji_jobs index)
                  /\ r = if decide (is_Some (ji_jobs index !! id)) then JO_Applied else JO_Rejected RR_NotFound
              end
       | Err _ => b' = b /\ index' = index
       end.
Proof.
  intros Hd Hok. destruct (job_effect cmd) as [[id f]|] eqn:Hcmd.
  - assert (JobManager_apply db cmd = JobManager_apply_mutate db id f) as ->
      by (destruct cmd; simpl in Hcmd; simplify_eq; done).
    destruct (job_mutate_ok db b index id f Hd Hok) as (b' & index' & -> & Ht & Hok' & Hn & Hj);
      [intros j; by eapply job_effect_id|].
    eexists _, _, _. split; [done|]. split; [done|]. done.
  - destruct cmd as [kind| | | |]; try done. destruct Hd as [d Hd]. simpl.
    unfold JobManager_apply_create. open_st Hd.
    destruct (advance_counter (ji_next_id index)) as [next'|e] eqn:Ha; run_st.
    2:{ eexists _, _, _. split; [done|]. auto with pd. }
    eexists _, _, _. split; [done|]. split; [auto with pd|]. simpl.
    edestruct (managed_new j_id) as [Hm Hn]; [done..| |split; [exact Hm|]]; [done|].
    eexists. split; [done|]. split; [done|]. by split.
Qed.

Lemma writer_register_ok db b index cmd : is_Some (db !! WRITER_CF) -> writer_ok db b index ->
  exists b' index' r, WriterManager_apply_register db cmd (b, index) = ((b', index'), r)
    /\ touches [WRITER_CF] b b'
    /\ match r with
       | Ok token => writer_ok db b' index' /\ token = wi_next_id index
           /\ wi_next_id index' = token + 1
           /\ wi_writers index' = <[token := {| w_token := token; w_node_id := rw_node_id cmd;
                                                w_status := WS_Live |}]> (wi_writers index)
       | Err _ => b' = b /\ index' = index
       end.
Proof.
  intros [d Hd] Hok. unfold WriterManager_apply_register. open_st Hd.
  destruct (advance_counter (wi_next_id index)) as [next'|e] eqn:Ha; run_st.
  2:{ eexists _, _, _. split; [done|]. auto with pd. }
  eexists _, _, _. split; [done|]. split; [auto with pd|]. simpl.
  edestruct (managed_new w_token) as [Hm Hn]; [done..| |split; [exact Hm|]]; done.
Qed.

Lemma writer_mark_dead_ok db b index cmd : is_Some (db !! WRITER_CF) -> writer_ok db b index ->
  exists b' index' r, WriterManager_apply_mark_dead db cmd (b, index) = ((b', index'), Ok r)
    /\ touches [WRITER_CF] b b' /\ writer_ok db b' index' /\ wi_next_id index' = wi_next_id index
    /\ (r = None -> exists w, wi_writers index' !! mwd_token cmd = Some w /\ w_status w = WS_Dead)
    /\ (forall j, j <> mwd_token cmd -> wi_writers index' !! j = wi_writers index !! j).
Proof.
  intros [d Hd] Hok. unfold WriterManager_apply_mark_dead. open_st Hd.
  destruct (wi_writers index !! mwd_token cmd) as [w|] eqn:Hw.
  2:{ eexists _, _, _. split; [done|]. split_and!; auto with pd. done. }
  destruct (decide (w_status w = WS_Dead)) as [E|E].
  { eexists _, _, _. split; [done|]. split_and!; eauto with pd. }
  eexists _, _, _. split; [done|]. split; [auto with pd|]. simpl. split_and!; [|done| |].
  - unfold writer_ok. simpl. by eapply managed_update.
  - intros _. rewrite lookup_insert_eq. by eexists.
  - intros j Hj. by rewrite lookup_insert_ne.
Qed.

Lemma shard_prefix_u64 chunk_id index : is_u32 chunk_id -> is_u8 index -> is_u64 (shard_prefix chunk_id index).
Proof.
  intros Hc Hi. assert (ShardId_try_new chunk_id index 0 = Ok (shard_prefix chunk_id index)) as E.
  { unfold ShardId_try_new, shard_prefix. simpl. by rewrite Z.lor_0_r. }
  by apply ShardId_try_new_Ok in E as (_ & _ & ?).
Qed.
Lemma be_bytes8_inj x y : is_u64 x -> is_u64 y -> be_bytes 8 x = be_bytes 8 y -> x = y.
Proof. unfold uint. intros. by apply (be_bytes_inj 8). Qed.

Lemma ticket_report_ok db b index t : is_Some (db !! SHARD_REPAIR_CF) -> ticket_ok db b index ->
  is_u64 (ticket_prefix t) ->
  exists b' index' r, Registry_apply_report db t (b, index) = ((b', index'), Ok r)
    /\ touches [SHARD_REPAIR_CF] b b' /\ ticket_ok db b' index'
    /\ (if decide (is_Some (index !! ticket_prefix t)) then r = RO_AlreadyPresent /\ index' = index
        else r = RO_Created /\ index' = <[ticket_prefix t := t]> index).
Proof.
  intros [d Hd] Hok Hu. pose proof Hok as [Hr Hp]. unfold Registry_apply_report. run_st.
  destruct (decide (is_Some (index !! ticket_prefix t))) as [E|E].
  { eexists _, _, _. split; [done|]. auto with pd. }
  open_st Hd. eexists _, _, _. split; [done|]. split; [auto with pd|]. split; [|done]. split.
  - rewrite pending_put. apply table_rep_insert; auto using be_bytes8_inj.
  - intros p t'. rewrite lookup_insert_Some. naive_solver.
Qed.
Lemma ticket_clear_ok db b index p : is_Some (db !! SHARD_REPAIR_CF) -> ticket_ok db b index -> is_u64 p ->
  exists b', Registry_apply_clear db p (b, index) = ((b', delete p index), Ok tt)
    /\ touches [SHARD_REPAIR_CF] b b' /\ ticket_ok db b' (delete p index).
Proof.
  intros [d Hd] [Hr Hp] Hu. unfold Registry_apply_clear. open_st Hd.
  eexists. split; [done|]. split; [auto with pd|]. split.
  - rewrite pending_delete. apply table_rep_delete; auto using be_bytes8_inj.
  - intros q t. rewrite lookup_delete_Some. naive_solver.
Qed.

Lemma job_restore_ok db index : is_Some (db !! JOB_CF) -> job_ok db [] index ->
  JobManager_restore db = Ok index.
Proof.
  intros Hd Hm. destruct (managed_restore _ _ _ _ _ Hd Hm) as (records & Hl & Hc).
  unfold JobManager_restore. rewrite Hl. simpl. rewrite Hc. by destruct index.
Qed.
Lemma writer_restore_ok db index : is_Some (db !! WRITER_CF) -> writer_ok db [] index ->
  WriterManager_restore db = Ok index.
Proof.
  intros Hd Hm. destruct (managed_restore _ _ _ _ _ Hd Hm) as (records & Hl & Hc).
  unfold WriterManager_restore. rewrite Hl. simpl. rewrite Hc. by destruct index.
Qed.
Lemma ticket_restore_ok db index : is_Some (db !! SHARD_REPAIR_CF) -> ticket_ok db [] index ->
  Registry_restore db = Ok index.
Proof.
  intros [d Hd] [Hr Hp]. unfold Registry_restore, open_cf. rewrite Hd. simpl.
  rewrite pending_nil, Hd in Hr. simpl in Hr.
  destruct (iter_try_ind (fun index kv => ticket <-? ok_or (from_slice kv.2) SmRead ;;
                                          Ok (<[ticket_prefix ticket := ticket]> index))
    (fun t0 m => table_rep (be_bytes 8) (uint 64) t0 m ∅) (tab d) (rdb_iter d []) ∅) as (m & -> & Hm).
  - apply rdb_iter_sorted.
  - apply tab_iter.
  - apply table_rep_empty.
  - intros t0 m k v Ht0 Hk _.
    destruct (table_rep_entry _ _ _ _ _ _ _ Hr Hk) as [?|(p & t & Hu & -> & Ht & ->)]; [done|].
    simpl. rewrite from_to. simpl. eexists. split; [done|]. rewrite (Hp _ _ Ht).
    apply table_rep_insert; auto using be_bytes8_inj.
  - by destruct (table_rep_functional _ _ be_bytes8_inj _ _ _ _ _ Hr Hm) as [-> _].
Qed.

Lemma job_snapshot_ok db b index db0 b0 index0 : is_Some (db !! JOB_CF) -> ops_of JOB_CF b = [] ->
  job_ok db0 b0 index0 ->
  exists b', JobManager_stage_and_apply_snapshot db (JobManager_snapshot_view index0).1
               (JobManager_snapshot_view index0).2 (b, index) = ((b', index0), Ok tt)
    /\ touches [JOB_CF] b b' /\ job_ok db b' index0.
Proof.
  intros [d Hd] Hb Hm. unfold JobManager_stage_and_apply_snapshot, JobManager_snapshot_view. open_st Hd.
  rewrite collect_values by (intros id n Hn; by apply (mg_id _ _ _ _ Hm) in Hn as [? _]).
  rewrite Z.max_l by apply (mg_next _ _ _ _ Hm).
  eexists. split; [by destruct index0|]. split; [auto 10 with pd|].
  eapply managed_snapshot; [done|]. by apply pending_clear.
Qed.
Lemma writer_snapshot_ok db b index db0 b0 index0 : is_Some (db !! WRITER_CF) -> ops_of WRITER_CF b = [] ->
  writer_ok db0 b0 index0 ->
  exists b', WriterManager_stage_and_apply_snapshot db (WriterManager_snapshot_view index0).1
               (WriterManager_snapshot_view index0).2 (b, index) = ((b', index0), Ok tt)
    /\ touches [WRITER_CF] b b' /\ writer_ok db b' index0.
Proof.
  intros [d Hd] Hb Hm. unfold WriterManager_stage_and_apply_snapshot, WriterManager_snapshot_view. open_st Hd.
  rewrite collect_values by (intros id n Hn; by apply (mg_id _ _ _ _ Hm) in Hn as [? _]).
  eexists. split; [by destruct index0|]. split; [auto 10 with pd|].
  eapply managed_snapshot; [done|]. by apply pending_clear.
Qed.

Lemma ticket_fill db b (l : list ShardRepairTicket) : pending db b SHARD_REPAIR_CF = ∅ ->
  Forall (fun t => is_u64 (ticket_prefix t)) l ->
  exists b', foldl (fun s ticket => (put_cf s.1 SHARD_REPAIR_CF (be_bytes 8 (ticket_prefix ticket)) (to_vec ticket),
                           <[ticket_prefix ticket := ticket]> s.2)) (b, ∅) l = (b', collect ticket_prefix l)
    /\ (forall b0, touches [SHARD_REPAIR_CF] b0 b -> touches [SHARD_REPAIR_CF] b0 b')
    /\ table_rep (be_bytes 8) (uint 64) (pending db b' SHARD_REPAIR_CF) (collect ticket_prefix l) ∅.
Proof.
  intros Hb. induction l as [|t l IH] using rev_ind; intros Hl.
  - exists b. split; [done|]. split; [done|]. rewrite Hb. apply table_rep_empty.
  - apply Forall_app in Hl as [Hl Ht]. destruct (IH Hl) as (b' & E & Htt & Hr).
    rewrite foldl_app, E. simpl. rewrite collect_snoc. eexists. split; [done|].
    split; [intros b0 ?; auto with pd|]. rewrite pending_put.
    apply table_rep_insert; [apply be_bytes8_inj| |done]. by inversion Ht.
Qed.
Lemma ticket_snapshot_ok db b index db0 b0 index0 : is_Some (db !! SHARD_REPAIR_CF) ->
  ops_of SHARD_REPAIR_CF b = [] -> ticket_ok db0 b0 index0 ->
  exists b', Registry_stage_and_apply_snapshot db (Registry_snapshot_view index0) (b, index)
               = ((b', index0), Ok tt)
    /\ touches [SHARD_REPAIR_CF] b b' /\ ticket_ok db b' index0.
Proof.
  intros [d Hd] Hb [Hr Hp]. unfold Registry_stage_and_apply_snapshot, Registry_snapshot_view. open_st Hd.
  destruct (ticket_fill db (stage_clear b db SHARD_REPAIR_CF) (values index0)) as (b' & E & Ht & Hr').
  - by apply pending_clear.
  - apply Forall_forall. intros t [p Ht]%elem_of_values. rewrite (Hp _ _ Ht). by apply (tr_valid _ _ _ _ _ Hr _ _ Ht).
  - cbv zeta. rewrite E. rewrite collect_values in * by done.
    exists b'. split; [done|]. split; [apply Ht; auto with pd|]. by split.
Qed.
End ManagersOk.
