(* ===== verification/PdHeartbeat.v ===== *)
(** Heartbeats of the placement driver (epoch-pd: cluster/heartbeat.rs, the writer
    heartbeat of service.rs, the live-writer table of journal/client.rs): the
    leader's volatile observations, the status transitions derived from them and
    the watermarks a garbage collection reads. *)

From S2P Require Import Prelude Ids Rocks PdDb PdCluster PdJob.

(** ** The tracker *)

Record DiskStats : Set := { ds_free : Z; ds_used : Z; ds_writable_extents : Z; ds_broken : bool }.
Record NodeHeartbeat : Set := { nh_last_seen_millis : Z; nh_disks : gmap Z DiskStats }.
Record DiskHeartbeat : Set := { dh_disk_id : DiskId; dh_free : Z; dh_used : Z; dh_writable_extents : Z; dh_broken : bool }.
Record HeartbeatReport : Set := { hr_node_id : NodeId; hr_disks : list DiskHeartbeat }.
Record NodeStatsSnapshot : Set := { ss_node_id : NodeId; ss_last_seen_millis : Z; ss_disks : list (DiskId * DiskStats) }.
Record HeartbeatTracker : Set := { ht_inner : gmap Z NodeHeartbeat; ht_watermarks : gmap Z Z }.

Definition HeartbeatTracker_new : HeartbeatTracker := {| ht_inner := ∅; ht_watermarks := ∅ |}.

Definition stats_of (d : DiskHeartbeat) : DiskStats :=
  {| ds_free := dh_free d; ds_used := dh_used d; ds_writable_extents := dh_writable_extents d; ds_broken := dh_broken d |}.
(** [collect] into a map: a later report of the same disk wins. *)
Definition HeartbeatTracker_record (t : HeartbeatTracker) (report : HeartbeatReport) (now_millis : Z) : HeartbeatTracker :=
  let disks := foldl (fun m d => <[dh_disk_id d := stats_of d]> m) ∅ (hr_disks report) in
  {| ht_inner := <[hr_node_id report := {| nh_last_seen_millis := now_millis; nh_disks := disks |}]> (ht_inner t);
     ht_watermarks := ht_watermarks t |}.
Definition HeartbeatTracker_touch (t : HeartbeatTracker) (node_id : NodeId) (now_millis : Z) : HeartbeatTracker :=
  let hb := match ht_inner t !! node_id with
            | Some hb => {| nh_last_seen_millis := now_millis; nh_disks := nh_disks hb |}
            | None => {| nh_last_seen_millis := now_millis; nh_disks := ∅ |}
            end in
  {| ht_inner := <[node_id := hb]> (ht_inner t); ht_watermarks := ht_watermarks t |}.

Definition I64_MIN : Z := - 2 ^ 63.
Definition record_watermark (t : HeartbeatTracker) (token : WriterToken) (watermark : Z) : HeartbeatTracker :=
  let entry := default I64_MIN (ht_watermarks t !! token) in
  {| ht_inner := ht_inner t;
     ht_watermarks := <[token := if entry <? watermark then watermark else entry]> (ht_watermarks t) |}.
Definition tracker_watermark (t : HeartbeatTracker) (token : WriterToken) : Z := default (-1) (ht_watermarks t !! token).

Definition staleness (t : HeartbeatTracker) (node_id : NodeId) (now_millis : Z) : Z :=
  match ht_inner t !! node_id with
  | Some hb => saturating_sub now_millis (nh_last_seen_millis hb)
  | None => U64_MAX
  end.
(** A map's entries in key order. *)
Definition sorted_entries {A} (m : gmap Z A) : list (Z * A) := merge_sort id_le (map_to_list m).
Definition tracker_snapshot (t : HeartbeatTracker) : list NodeStatsSnapshot :=
  (fun p => {| ss_node_id := p.1; ss_last_seen_millis := nh_last_seen_millis p.2; ss_disks := sorted_entries (nh_disks p.2) |})
    <$> sorted_entries (ht_inner t).
Definition disk_stats (t : HeartbeatTracker) (node_id : NodeId) (disk_id : DiskId) : option DiskStats :=
  hb ← ht_inner t !! node_id; nh_disks hb !! disk_id.
Definition broken_disks (t : HeartbeatTracker) : list (NodeId * DiskId) :=
  mjoin ((fun p : Z * NodeHeartbeat =>
            (fun d : Z * DiskStats => (p.1, d.1)) <$> filter (fun d => ds_broken d.2 = true) (sorted_entries (nh_disks p.2)))
           <$> sorted_entries (ht_inner t)).

(** ** The liveness sweep *)

Record LivenessConfig : Set := { lc_offline_after_millis : Z; lc_lost_after_millis : Z }.
Definition LivenessConfig_default : LivenessConfig := {| lc_offline_after_millis := 30000; lc_lost_after_millis := 300000 |}.

Definition next_status (current : NodeStatus) (staleness offline_after lost_after : Z) : option NodeStatus :=
  match current with
  | NS_Decommissioned => None
  | _ =>
      if staleness <=? offline_after then (if decide (current = NS_Live) then None else Some NS_Live)
      else match current with
           | NS_Live | NS_Starting => Some NS_Offline
           | NS_Offline => if lost_after <? staleness then Some NS_Lost else None
           | _ => None
           end
  end.
(** The transitions a sweep proposes; nothing on a follower. *)
Definition sweep_transitions (leader : bool) (nodes : NodeIndex) (t : HeartbeatTracker) (now_millis : Z) (config : LivenessConfig)
    : list UpdateNodeStatus :=
  if leader then
    omap (fun p : NodeId * NodeStatus =>
            (fun status => {| un_node_id := p.1; un_status := status |})
              <$> next_status p.2 (staleness t p.1 now_millis) (lc_offline_after_millis config) (lc_lost_after_millis config))
         (NodeManager_statuses nodes)
  else [].

(** ** Writer heartbeats and the live-writer table *)

(** [PdService::writer_heartbeat] on the leader: the answer is whether the token is
    live and owned by the node. *)
Definition writer_heartbeat (writers : WriterIndex) (t : HeartbeatTracker) (now_millis : Z)
    (node_id : NodeId) (token : WriterToken) (commit_watermark : Z) : HeartbeatTracker * bool :=
  let t := HeartbeatTracker_touch t node_id now_millis in
  let t := record_watermark t token commit_watermark in
  let live := match wi_writers writers !! token with
              | Some record => bool_decide (w_status record = WS_Live) && (w_node_id record =? node_id)
              | None => false
              end in
  (t, live).
Definition live_writers_with_watermark (writers : WriterIndex) (t : HeartbeatTracker) : list (WriterToken * NodeId * Z) :=
  (fun p : WriterToken * NodeId => (p.1, p.2, tracker_watermark t p.1)) <$> WriterManager_live_sessions writers.

(** *** Lemmas *)

Lemma tracker_watermark_record t token w token' :
  tracker_watermark (record_watermark t token w) token'
  = if decide (token' = token) then Z.max (default I64_MIN (ht_watermarks t !! token)) w else tracker_watermark t token'.
Proof.
  unfold tracker_watermark, record_watermark. cbn. destruct (decide (token' = token)) as [->|].
  - rewrite lookup_insert_eq. cbn. destruct (Z.ltb_spec (default I64_MIN (ht_watermarks t !! token)) w); lia.
  - by rewrite lookup_insert_ne by done.
Qed.
Lemma tracker_watermark_touch t node now token : tracker_watermark (HeartbeatTracker_touch t node now) token = tracker_watermark t token.
Proof. done. Qed.

(** Every derived transition is one the status machine permits. *)
Lemma next_status_permitted current st off lost next : next_status current st off lost = Some next ->
  next <> current /\ NodeStatus_can_transition_to current next = true.
Proof.
  unfold next_status. destruct current; cbn; try done; destruct (st <=? off); cbn; try (destruct (lost <? st));
    intros [= <-] || intros; try done.
Qed.

Lemma node_ids_unique nodes : (forall id n, ni_nodes nodes !! id = Some n -> n_node_id n = id) ->
  NoDup (NodeManager_statuses nodes).*1.
Proof.
  intros Hid. unfold NodeManager_statuses. rewrite <- list_fmap_compose. rewrite values_Permutation, <- list_fmap_compose.
  rewrite (list_fmap_ext _ fst).
  - apply NoDup_fst_map_to_list.
  - intros i [id n] Hp%list_elem_of_lookup_2%elem_of_map_to_list. cbn. by apply Hid.
Qed.

(** ** A sweep whose proposals are all applied *)

Section Sweep.
Context {RDB : RocksDb no_merge} `{Serde Node}.

(** The proposals through the state machine, one after the other, with the replies. *)
Fixpoint apply_updates (db : SmDb) (l : list UpdateNodeStatus) : St (WriteBatch * NodeIndex) (list (option RejectReason)) :=
  match l with
  | [] => sret []
  | u :: l => r <== NodeManager_apply_update_status db u ;; rs <== apply_updates db l ;; sret (r :: rs)
  end.

Lemma apply_updates_ok db l b index : is_Some (db !! NODE_CF) -> node_ok db b index -> NoDup (un_node_id <$> l) ->
  Forall (fun u => exists n, ni_nodes index !! un_node_id u = Some n /\ NodeStatus_can_transition_to (n_status n) (un_status u) = true) l ->
  exists b' index', apply_updates db l (b, index) = ((b', index'), Ok (replicate (length l) None))
    /\ node_ok db b' index'
    /\ forall id n, ni_nodes index !! id = Some n -> exists n', ni_nodes index' !! id = Some n'
         /\ n_status n' = default (n_status n) (un_status <$> List.find (fun u => un_node_id u =? id) l).
Proof.
  intros Hcf. revert b index. induction l as [|u l IH]; intros b index Hok Hnd Hf.
  { exists b, index. split_and!; [done|done|]. intros id n Hn. by exists n. }
  apply NoDup_cons in Hnd as [Hu Hnd]. apply Forall_cons in Hf as [(n & Hn & Ht) Hf].
  destruct (node_update_ok db b index u Hcf Hok) as (b1 & i1 & r & E & _ & Hok1 & _ & Hoth & Hr). rewrite Hn, Ht in Hr.
  destruct Hr as (-> & n1 & Hn1 & Hst & _).
  destruct (IH b1 i1 Hok1 Hnd) as (b' & i' & E' & Hok' & Hspec).
  { rewrite Forall_forall in Hf |- *. intros v Hv. destruct (Hf v Hv) as (m & Hm & Htv). exists m. split; [|done].
    rewrite Hoth; [done|]. intros Heq. apply Hu. rewrite <- Heq. by apply list_elem_of_fmap_2. }
  exists b', i'. cbn [apply_updates]. unfold sbind. rewrite E, E'. split_and!; [done|done|].
  intros id m Hm. cbn [List.find]. destruct (Z.eqb_spec (un_node_id u) id) as [<-|Hne].
  - destruct (Hspec _ _ Hn1) as (n' & Hn' & Hs'). exists n'. split; [done|]. cbn. rewrite Hs', Hst.
    destruct (List.find _ l) as [v|] eqn:Ef; [|done]. apply List.find_some in Ef as [Hv%list_elem_of_In Hid%Z.eqb_eq].
    destruct Hu. rewrite <- Hid. by apply list_elem_of_fmap_2.
  - apply Hspec. by rewrite Hoth.
Qed.

(** The transitions derived by [f] from a list of distinct nodes. *)
Lemma derived_NoDup (f : NodeId * NodeStatus -> option UpdateNodeStatus) (l : list (NodeId * NodeStatus)) :
  (forall p u, f p = Some u -> un_node_id u = p.1) -> NoDup l.*1 -> NoDup (un_node_id <$> omap f l).
Proof.
  intros Hf. induction l as [|p l IH]; intros Hl; [constructor|]. apply NoDup_cons in Hl as [Hp Hl]. cbn.
  destruct (f p) as [u|] eqn:Ep; [|by apply IH]. cbn. apply NoDup_cons. split; [|by apply IH].
  intros (v & Hv & Hin)%list_elem_of_fmap. apply list_elem_of_omap in Hin as (q & Hq & Eq).
  apply Hp. rewrite <- (Hf _ _ Ep), Hv, (Hf _ _ Eq). by apply list_elem_of_fmap_2.
Qed.
Lemma derived_find (f : NodeId * NodeStatus -> option UpdateNodeStatus) (l : list (NodeId * NodeStatus)) id st :
  (forall p u, f p = Some u -> un_node_id u = p.1) -> NoDup l.*1 -> (id, st) ∈ l ->
  List.find (fun u => un_node_id u =? id) (omap f l) = f (id, st).
Proof.
  intros Hf Hnd Hin.
  assert (forall l, id ∉ l.*1 -> List.find (fun u => un_node_id u =? id) (omap f l) = None) as Hnone.
  { clear l Hnd Hin. intros l Hp. destruct (List.find _ _) as [u|] eqn:Eu; [|done].
    apply List.find_some in Eu as [Hu%list_elem_of_In Hid%Z.eqb_eq]. apply list_elem_of_omap in Hu as (q & Hq & Eq).
    destruct Hp. rewrite (Hf _ _ Eq) in Hid. rewrite <- Hid. by apply list_elem_of_fmap_2. }
  induction l as [|p l IH]; [by apply not_elem_of_nil in Hin|]. apply NoDup_cons in Hnd as [Hp Hnd]. cbn.
  apply elem_of_cons in Hin as [<-|Hin].
  - destruct (f (id, st)) as [u|] eqn:Ep; cbn; [by rewrite (Hf _ _ Ep), Z.eqb_refl|by apply Hnone].
  - destruct (f p) as [u|] eqn:Ep; cbn; [|by apply IH]. destruct (Z.eqb_spec (un_node_id u) id) as [Heq|]; [|by apply IH].
    destruct Hp. rewrite <- (Hf _ _ Ep), Heq. apply (list_elem_of_fmap_2 fst _ _ Hin).
Qed.

(** A liveness sweep is never rejected and moves every node to its due status:
    all proposals a leader derives from the committed statuses and the observed
    heartbeats are applied without a rejection, and afterwards each node has the
    status [next_status] names for its staleness (its old one where it names
    none), so a node heard from in time is live unless decommissioned. *)
Theorem sweep_applies : forall db b nodes t now config, is_Some (db !! NODE_CF) -> node_ok db b nodes ->
  let ts := sweep_transitions true nodes t now config in
  exists b' nodes', apply_updates db ts (b, nodes) = ((b', nodes'), Ok (replicate (length ts) None))
    /\ node_ok db b' nodes'
    /\ forall id n, ni_nodes nodes !! id = Some n -> exists n', ni_nodes nodes' !! id = Some n'
         /\ n_status n' = default (n_status n)
              (next_status (n_status n) (staleness t id now) (lc_offline_after_millis config) (lc_lost_after_millis config))
         /\ (staleness t id now <= lc_offline_after_millis config -> n_status n <> NS_Decommissioned -> n_status n' = NS_Live).
Proof.
  intros db b nodes t now config Hcf Hok ts.
  assert (forall id n, ni_nodes nodes !! id = Some n -> n_node_id n = id) as Hid by apply Hok.
  set (f := fun p : NodeId * NodeStatus => (fun status => {| un_node_id := p.1; un_status := status |})
              <$> next_status p.2 (staleness t p.1 now) (lc_offline_after_millis config) (lc_lost_after_millis config)).
  assert (forall p u, f p = Some u -> un_node_id u = p.1) as Hf by (intros p u; unfold f; destruct (next_status _ _ _ _); by intros [= <-]).
  pose proof (node_ids_unique nodes Hid) as Hnd.
  destruct (apply_updates_ok db ts b nodes Hcf Hok) as (b' & nodes' & E & Hok' & Hspec); [by apply derived_NoDup|..].
  { apply Forall_forall. intros u (p & Hp & Ef)%list_elem_of_omap. apply list_elem_of_fmap in Hp as (n & -> & Hn).
    apply elem_of_values in Hn as [id Hn]. rewrite (Hf _ _ Ef). cbn. rewrite (Hid _ _ Hn). exists n. split; [done|].
    unfold f in Ef. cbn in Ef. destruct (next_status _ _ _ _) as [s|] eqn:Es; [|done]. injection Ef as <-. cbn. by eapply next_status_permitted. }
  exists b', nodes'. split_and!; [done|done|]. intros id n Hn. destruct (Hspec id n Hn) as (n' & Hn' & Hs). exists n'. split; [done|].
  unfold ts, sweep_transitions in Hs. fold f in Hs. rewrite (derived_find f _ id (n_status n) Hf Hnd) in Hs.
  2:{ apply list_elem_of_fmap. exists n. rewrite (Hid _ _ Hn). split; [done|]. apply elem_of_values. by exists id. }
  assert (un_status <$> f (id, n_status n) = next_status (n_status n) (staleness t id now) (lc_offline_after_millis config)
            (lc_lost_after_millis config)) as Hfs by (unfold f; cbn; by destruct (next_status _ _ _ _)).
  rewrite Hfs in Hs. split; [done|]. intros Hst Hdec. rewrite Hs. unfold next_status. rewrite (proj2 (Z.leb_le _ _)) by done.
  destruct (n_status n); done.
Qed.
End Sweep.

(** A leader that has just taken over has no heartbeats: whatever [lost_after] is,
    its first two sweeps take a live node it has not heard from to [Offline] and on
    to [Lost]. *)
Lemma new_leader_loses_nodes config now id : lc_offline_after_millis config < U64_MAX -> lc_lost_after_millis config < U64_MAX ->
  let st := staleness HeartbeatTracker_new id now in
  next_status NS_Live st (lc_offline_after_millis config) (lc_lost_after_millis config) = Some NS_Offline
  /\ next_status NS_Offline st (lc_offline_after_millis config) (lc_lost_after_millis config) = Some NS_Lost.
Proof.
  intros Ho Hl. cbn zeta. change (staleness HeartbeatTracker_new id now) with U64_MAX. unfold next_status.
  rewrite (proj2 (Z.leb_gt _ _)) by done. by rewrite (proj2 (Z.ltb_lt _ _)) by done.
Qed.

(** *** Evaluation *)

Definition ex_hb_db : gmap string (@rdb no_merge _) := {[NODE_CF := rdb_empty]}.
Definition ex_hb_register : RegisterNode := {| rn_addr := "a"; rn_az := "z"; rn_rack := "r"; rn_roles := 1 |}.

Lemma sweep_applies_witness : exists b nodes b' nodes' n',
  NodeManager_apply_register ex_hb_db ex_hb_register ([], NodeManager_new) = ((b, nodes), Ok 1)
  /\ apply_updates ex_hb_db (sweep_transitions true nodes HeartbeatTracker_new 5 LivenessConfig_default) (b, nodes) = ((b', nodes'), Ok [None])
  /\ ni_nodes nodes' !! 1 = Some n' /\ n_status n' = NS_Offline.
Proof.
  destruct (node_register_ok ex_hb_db [] NodeManager_new ex_hb_register) as (b & nodes & r & E & _ & Hr).
  - by eexists.
  - split; [exact (managed_empty n_node_id)|]. intros i j n n' Hi. cbn in Hi. by rewrite lookup_empty in Hi.
  - destruct r as [id|]; [|vm_compute in E; discriminate]. destruct Hr as (Hok & _).
    assert (id = 1) as -> by (vm_compute in E; congruence).
    assert (exists n, ni_nodes nodes !! 1 = Some n /\ n_status n = NS_Starting) as (n & Hn & Hs)
      by (vm_compute in E; injection E as _ <-; by eexists).
    assert (length (sweep_transitions true nodes HeartbeatTracker_new 5 LivenessConfig_default) = 1%nat) as Hl
      by (vm_compute in E; injection E as _ <-; vm_compute; reflexivity).
    destruct (sweep_applies ex_hb_db b nodes HeartbeatTracker_new 5 LivenessConfig_default) as (b' & nodes' & E' & _ & H); [by eexists|done|].
    destruct (H 1 n Hn) as (n' & Hn' & Hs' & _). exists b, nodes, b', nodes', n'. rewrite Hl in E'. split_and!; try done.
    rewrite Hs', Hs. vm_compute. reflexivity.
Defined.
