(* ===== verification/PdMeta.v ===== *)
(** Buckets, configuration, credentials and metadata partitions of the placement
    driver (epoch-pd: bucket.rs, config_mgr.rs, credential.rs, meta_mgr.rs). *)

From S2P Require Import Prelude Ids Rocks PdDb PdCluster.

(** ** Strings as their UTF-8 bytes *)

Definition as_bytes (s : string) : list Z :=
  (fun a => Z.of_nat (Ascii.nat_of_ascii a)) <$> String.list_ascii_of_string s.
Definition string_of_bytes (l : list Z) : string :=
  String.string_of_list_ascii ((fun b => Ascii.ascii_of_nat (Z.to_nat b)) <$> l).

Definition utf8_cont (b : Z) : bool := (128 <=? b) && (b <=? 191).
(** The second byte allowed after a lead byte of a 3- or 4-byte sequence. *)
Definition utf8_second (b0 b1 : Z) : bool :=
  match b0 with
  | 224 => (160 <=? b1) && (b1 <=? 191)
  | 237 => (128 <=? b1) && (b1 <=? 159)
  | 240 => (144 <=? b1) && (b1 <=? 191)
  | 244 => (128 <=? b1) && (b1 <=? 143)
  | _ => utf8_cont b1
  end.
(** Decodes the front of a byte list: a character of so many bytes, or an invalid
    sequence of so many bytes. *)
Definition utf8_next (l : list Z) : bool * nat :=
  match l with
  | [] => (true, 0%nat)
  | b0 :: rest =>
      if b0 <? 128 then (true, 1%nat)
      else if (194 <=? b0) && (b0 <=? 223)
      then match rest with b1 :: _ => if utf8_cont b1 then (true, 2%nat) else (false, 1%nat)
                         | [] => (false, 1%nat) end
      else if (224 <=? b0) && (b0 <=? 239)
      then match rest with
           | b1 :: rest =>
               if utf8_second b0 b1
               then match rest with b2 :: _ => if utf8_cont b2 then (true, 3%nat) else (false, 2%nat)
                                  | [] => (false, 2%nat) end
               else (false, 1%nat)
           | [] => (false, 1%nat) end
      else if (240 <=? b0) && (b0 <=? 244)
      then match rest with
           | b1 :: rest =>
               if utf8_second b0 b1
               then match rest with
                    | b2 :: rest =>
                        if utf8_cont b2
                        then match rest with b3 :: _ => if utf8_cont b3 then (true, 4%nat) else (false, 3%nat)
                                           | [] => (false, 3%nat) end
                        else (false, 2%nat)
                    | [] => (false, 2%nat) end
               else (false, 1%nat)
           | [] => (false, 1%nat) end
      else (false, 1%nat)
  end.
(** Every step takes at least one byte: the length is enough fuel. *)
Fixpoint utf8_valid (fuel : nat) (l : list Z) : bool :=
  match fuel, l with
  | _, [] => true
  | O, _ => false
  | S fuel, _ => let '(ok, n) := utf8_next l in ok && utf8_valid fuel (drop n l)
  end.
Fixpoint utf8_lossy (fuel : nat) (l : list Z) : list Z :=
  match fuel, l with
  | _, [] => []
  | O, _ => []
  | S fuel, _ => let '(ok, n) := utf8_next l in
      (if ok : bool then take n l else [239; 191; 189]) ++ utf8_lossy fuel (drop n l)
  end.
Definition from_utf8 (l : list Z) : option string :=
  if utf8_valid (length l) l then Some (string_of_bytes l) else None.
Definition from_utf8_lossy (l : list Z) : string := string_of_bytes (utf8_lossy (length l) l).

(** ** Buckets (bucket.rs) *)

Definition BUCKET_CF : string := "bucket".
Definition COUNTER_KEY : list Z := [95; 95; 99; 111; 117; 110; 116; 101; 114].
Inductive NsMode : Set := Flat | Hier.
#[export] Instance NsMode_eq_dec : EqDecision NsMode.
Proof. solve_decision. Defined.
Inductive MetaEngine : Set := ME_Rocks | ME_Mem.
#[export] Instance MetaEngine_eq_dec : EqDecision MetaEngine.
Proof. solve_decision. Defined.
Record BucketMeta : Set := {
  bm_bucket_id : BucketId; bm_name : string; bm_ns_mode : NsMode; bm_inline_threshold : option Z;
  bm_codemode_id : Z; bm_engine : MetaEngine; bm_created_at : Z
}.
#[export] Instance BucketMeta_eq_dec : EqDecision BucketMeta.
Proof. solve_decision. Defined.
Record CreateBucket : Set := {
  cb_name : string; cb_ns_mode : NsMode; cb_inline_threshold : option Z; cb_codemode_id : Z;
  cb_engine : MetaEngine; cb_created_at : Z
}.
Record BucketIndex : Set := {
  bx_buckets : gmap Z BucketMeta; bx_names : gmap string Z; bx_next_id : Z
}.

(** ** Configuration and credentials (config_mgr.rs, credential.rs) *)

Definition CONFIG_CF : string := "config".
Record PutConfig : Set := { pc_key : string; pc_value : list Z }.
Record DeleteConfig : Set := { dcf_key : string }.

Definition CRED_CF : string := "cred".
Inductive ConsoleRole : Set := Readonly | Admin.
#[export] Instance ConsoleRole_eq_dec : EqDecision ConsoleRole.
Proof. solve_decision. Defined.
Record Credential : Set := {
  cr_secret_key : string; cr_allowed_buckets : option (list string); cr_role : ConsoleRole
}.
#[export] Instance Credential_eq_dec : EqDecision Credential.
Proof. solve_decision. Defined.
Definition allows_bucket (c : Credential) (bucket : string) : bool :=
  match cr_allowed_buckets c with
  | None => true
  | Some l => existsb (fun b => bool_decide (b = bucket)) l
  end.
Record PutCredential : Set := {
  pcr_access_key : string; pcr_secret_key : string; pcr_allowed_buckets : option (list string);
  pcr_role : ConsoleRole
}.

(** ** Metadata partitions (meta_mgr.rs) *)

Definition META_PARTITION_CF : string := "meta_partition".
(** [b"__ino_tag_counter"] *)
Definition INO_TAG_COUNTER_KEY : list Z :=
  [95; 95; 105; 110; 111; 95; 116; 97; 103; 95; 99; 111; 117; 110; 116; 101; 114].
Definition ns_tag (ns : NsMode) : Z := match ns with Flat => 0 | Hier => 1 end.
Record PartitionBound : Set := { pb_bucket : Z; pb_routing_key : list Z; pb_unbounded : bool }.
#[export] Instance PartitionBound_eq_dec : EqDecision PartitionBound.
Proof. solve_decision. Defined.
Definition unbounded_start : PartitionBound :=
  {| pb_bucket := 0; pb_routing_key := []; pb_unbounded := true |}.
Definition unbounded_end : PartitionBound :=
  {| pb_bucket := U64_MAX; pb_routing_key := []; pb_unbounded := true |}.
Definition bound_at (bucket : Z) (routing_key : list Z) : PartitionBound :=
  {| pb_bucket := bucket; pb_routing_key := routing_key; pb_unbounded := false |}.
Record MetaPartition : Set := {
  mp_partition_id : Z; mp_ns : NsMode; mp_start : PartitionBound; mp_end : PartitionBound;
  mp_peers : list NodeId; mp_epoch : Z
}.
#[export] Instance MetaPartition_eq_dec : EqDecision MetaPartition.
Proof. solve_decision. Defined.

(** The order of coordinates [(bucket, routing_key)]. *)
Definition coord_ltb (a b : Z * list Z) : bool :=
  (a.1 <? b.1) || ((a.1 =? b.1) && lex_ltb a.2 b.2).
Definition coord_leb (a b : Z * list Z) : bool := negb (coord_ltb b a).
Definition bound_coord (p : PartitionBound) : Z * list Z := (pb_bucket p, pb_routing_key p).

Definition interval_contains (p : MetaPartition) (bucket : Z) (routing_key : list Z) : bool :=
  let coord := (bucket, routing_key) in
  let after_start := pb_unbounded (mp_start p) || coord_leb (bound_coord (mp_start p)) coord in
  let before_end := pb_unbounded (mp_end p) || coord_ltb coord (bound_coord (mp_end p)) in
  after_start && before_end.

Record CreatePartition : Set := {
  cp_ns : NsMode; cp_start : PartitionBound; cp_end : PartitionBound; cp_peers : list NodeId
}.
Record SplitPartition : Set := { spl_parent_id : Z; spl_at : PartitionBound }.
Record MigratePartition : Set := { mgp_partition_id : Z; mgp_from : NodeId; mgp_to : NodeId }.

(** Keys of the routing index: [(u8, u64, Vec<u8>)] in lexicographic order. *)
Definition StartKey : Set := Z * (Z * list Z).
Definition start_ltb (a b : StartKey) : bool :=
  (a.1 <? b.1) || ((a.1 =? b.1) && coord_ltb a.2 b.2).
Definition start_leb (a b : StartKey) : bool := negb (start_ltb b a).
Definition start_key (p : MetaPartition) : StartKey :=
  (ns_tag (mp_ns p),
   (if pb_unbounded (mp_start p) then 0 else pb_bucket (mp_start p),
    if pb_unbounded (mp_start p) then [] else pb_routing_key (mp_start p))).

Record PartitionIndex : Set := {
  px_partitions : gmap Z MetaPartition;
  px_by_start : gmap (Z * (Z * list Z)) Z;
  px_next_id : Z;
  px_next_ino_tag : Z
}.

(** [by_start.range(..=key).next_back()] *)
Definition last_at_most (m : gmap (Z * (Z * list Z)) Z) (key : StartKey) : option (StartKey * Z) :=
  foldr (fun e best => match best with
                       | Some b => if start_ltb b.1 e.1 then Some e else best
                       | None => Some e
                       end) None
    (filter (fun e => start_leb e.1 key = true) (map_to_list m)).
Definition route (index : PartitionIndex) (ns : NsMode) (bucket : Z) (routing_key : list Z)
    : option MetaPartition :=
  candidate ← last_at_most (px_by_start index) (ns_tag ns, (bucket, routing_key));
  partition ← px_partitions index !! candidate.2;
  if interval_contains partition bucket routing_key then Some partition else None.

(** Serialization of the records (derived in the source). *)
#[export] Instance NsMode_countable : Countable NsMode.
Proof.
  apply (inj_countable' (fun s => match s with Flat => true | Hier => false end)
    (fun b : bool => if b then Flat else Hier)). by intros [].
Defined.
#[export] Instance MetaEngine_countable : Countable MetaEngine.
Proof.
  apply (inj_countable' (fun s => match s with ME_Rocks => true | ME_Mem => false end)
    (fun b : bool => if b then ME_Rocks else ME_Mem)). by intros [].
Defined.
#[export] Instance BucketMeta_countable : Countable BucketMeta.
Proof.
  apply (inj_countable'
    (fun b => (bm_bucket_id b, bm_name b, bm_ns_mode b, bm_inline_threshold b, bm_codemode_id b,
               bm_engine b, bm_created_at b))
    (fun '(a, b, c, d, e, f, g) => {| bm_bucket_id := a; bm_name := b; bm_ns_mode := c;
       bm_inline_threshold := d; bm_codemode_id := e; bm_engine := f; bm_created_at := g |})).
  by intros [].
Defined.
#[export] Instance ConsoleRole_countable : Countable ConsoleRole.
Proof.
  apply (inj_countable' (fun s => match s with Readonly => true | Admin => false end)
    (fun b : bool => if b then Readonly else Admin)). by intros [].
Defined.
#[export] Instance Credential_countable : Countable Credential.
Proof.
  apply (inj_countable' (fun c => (cr_secret_key c, cr_allowed_buckets c, cr_role c))
    (fun '(a, b, c) => {| cr_secret_key := a; cr_allowed_buckets := b; cr_role := c |})). by intros [].
Defined.
#[export] Instance PartitionBound_countable : Countable PartitionBound.
Proof.
  apply (inj_countable' (fun c => (pb_bucket c, pb_routing_key c, pb_unbounded c))
    (fun '(a, b, c) => {| pb_bucket := a; pb_routing_key := b; pb_unbounded := c |})). by intros [].
Defined.
#[export] Instance MetaPartition_countable : Countable MetaPartition.
Proof.
  apply (inj_countable'
    (fun p => (mp_partition_id p, mp_ns p, mp_start p, mp_end p, mp_peers p, mp_epoch p))
    (fun '(a, b, c, d, e, f) => {| mp_partition_id := a; mp_ns := b; mp_start := c; mp_end := d;
                                   mp_peers := e; mp_epoch := f |})). by intros [].
Defined.

Section Managers.
Context {RDB : RocksDb no_merge} `{Serde BucketMeta} `{Serde Credential} `{Serde MetaPartition}.

(** *** Buckets *)

Definition bucket_restore_step (index : BucketIndex) (kv : list Z * list Z) : result SmError BucketIndex :=
  let '(key, value) := kv in
  if decide (key = COUNTER_KEY)
  then if len value =? 8
       then Ok {| bx_buckets := bx_buckets index; bx_names := bx_names index; bx_next_id := be_val value |}
       else Err (SmCorrupt "bad bucket counter record")
  else if negb (len key =? 8) then Err (SmCorrupt "bad bucket key length")
  else
    bucket <-? ok_or (from_slice value) (SmCorrupt "json") ;;
    Ok {| bx_buckets := <[be_val key := bucket]> (bx_buckets index);
          bx_names := <[bm_name bucket := bm_bucket_id bucket]> (bx_names index);
          bx_next_id := bx_next_id index |}.
Definition BucketManager_restore (db : SmDb) : result SmError BucketIndex :=
  cf <-? open_cf db BUCKET_CF ;;
  iter_try bucket_restore_step (rdb_iter cf []) {| bx_buckets := ∅; bx_names := ∅; bx_next_id := 1 |}.

Definition BucketManager_apply_create (db : SmDb) (cmd : CreateBucket)
    : St (WriteBatch * BucketIndex) BucketId :=
  index <== sgets snd ;;
  match bx_names index !! cb_name cmd with
  | Some existing => sret existing
  | None =>
      let raw_id := Z.lor (bx_next_id index) (if decide (cb_ns_mode cmd = Hier) then HIER_BUCKET_BIT else 0) in
      let bucket := {| bm_bucket_id := raw_id; bm_name := cb_name cmd; bm_ns_mode := cb_ns_mode cmd;
                       bm_inline_threshold := cb_inline_threshold cmd;
                       bm_codemode_id := cb_codemode_id cmd; bm_engine := cb_engine cmd;
                       bm_created_at := cb_created_at cmd |} in
      next_id <== slift (ok_or (checked_add 64 (bx_next_id index) 1)
                           (SmCorrupt "bucket id counter overflow")) ;;
      _u <== smodify (fun s => (s.1,
               {| bx_buckets := <[raw_id := bucket]> (bx_buckets s.2);
                  bx_names := <[bm_name bucket := raw_id]> (bx_names s.2); bx_next_id := next_id |})) ;;
      _cf <== slift (open_cf db BUCKET_CF) ;;
      _u <== smodify (fun s =>
               (put_cf (put_cf s.1 BUCKET_CF (be_bytes 8 raw_id) (to_vec bucket))
                  BUCKET_CF COUNTER_KEY (be_bytes 8 next_id), s.2)) ;;
      sret raw_id
  end.
Definition BucketManager_get_by_name (index : BucketIndex) (name : string) : option BucketMeta :=
  id ← bx_names index !! name; bx_buckets index !! id.

(** *** Configuration: the index is the map of the keys *)

Definition ConfigManager_restore (db : SmDb) : result SmError (gmap string (list Z)) :=
  cf <-? open_cf db CONFIG_CF ;;
  iter_try (fun index kv => Ok (<[from_utf8_lossy kv.1 := kv.2]> index)) (rdb_iter cf []) ∅.
Definition ConfigManager_apply_put (db : SmDb) (cmd : PutConfig)
    : St (WriteBatch * gmap string (list Z)) unit :=
  _cf <== slift (open_cf db CONFIG_CF) ;;
  smodify (fun s => (put_cf s.1 CONFIG_CF (as_bytes (pc_key cmd)) (pc_value cmd),
                     <[pc_key cmd := pc_value cmd]> s.2)).
Definition ConfigManager_apply_delete (db : SmDb) (cmd : DeleteConfig)
    : St (WriteBatch * gmap string (list Z)) unit :=
  _cf <== slift (open_cf db CONFIG_CF) ;;
  smodify (fun s => (delete_cf s.1 CONFIG_CF (as_bytes (dcf_key cmd)), delete (dcf_key cmd) s.2)).

(** *** Credentials: the index is the map of the access keys *)

Definition CredentialManager_restore (db : SmDb) : result SmError (gmap string Credential) :=
  cf <-? open_cf db CRED_CF ;;
  iter_try (fun index kv =>
      access_key <-? ok_or (from_utf8 kv.1) (SmCorrupt "bad credential key (non-utf8)") ;;
      cred <-? ok_or (from_slice kv.2) (SmCorrupt "json") ;;
      Ok (<[access_key := cred]> index)) (rdb_iter cf []) ∅.
Definition CredentialManager_apply_put (db : SmDb) (cmd : PutCredential)
    : St (WriteBatch * gmap string Credential) unit :=
  let cred := {| cr_secret_key := pcr_secret_key cmd; cr_allowed_buckets := pcr_allowed_buckets cmd;
                 cr_role := pcr_role cmd |} in
  _cf <== slift (open_cf db CRED_CF) ;;
  smodify (fun s => (put_cf s.1 CRED_CF (as_bytes (pcr_access_key cmd)) (to_vec cred),
                     <[pcr_access_key cmd := cred]> s.2)).

(** *** Partitions *)

Definition partition_restore_step (index : PartitionIndex) (kv : list Z * list Z)
    : result SmError PartitionIndex :=
  let '(key, value) := kv in
  if decide (key = COUNTER_KEY)
  then if len value =? 8
       then Ok {| px_partitions := px_partitions index; px_by_start := px_by_start index;
                  px_next_id := be_val value; px_next_ino_tag := px_next_ino_tag index |}
       else Err (SmCorrupt "bad partition counter record")
  else if decide (key = INO_TAG_COUNTER_KEY)
  then if len value =? 4
       then Ok {| px_partitions := px_partitions index; px_by_start := px_by_start index;
                  px_next_id := px_next_id index; px_next_ino_tag := be_val value |}
       else Err (SmCorrupt "bad ino-tag counter record")
  else if negb (len key =? 8) then Err (SmCorrupt "bad partition key length")
  else
    partition <-? ok_or (from_slice value) (SmCorrupt "json") ;;
    Ok {| px_partitions := <[be_val key := partition]> (px_partitions index);
          px_by_start := <[start_key partition := mp_partition_id partition]> (px_by_start index);
          px_next_id := px_next_id index; px_next_ino_tag := px_next_ino_tag index |}.
Definition PartitionManager_restore (db : SmDb) : result SmError PartitionIndex :=
  cf <-? open_cf db META_PARTITION_CF ;;
  iter_try partition_restore_step (rdb_iter cf [])
    {| px_partitions := ∅; px_by_start := ∅; px_next_id := 1; px_next_ino_tag := 1 |}.

Definition PartitionManager_apply_create (db : SmDb) (cmd : CreatePartition)
    : St (WriteBatch * PartitionIndex) Z :=
  index <== sgets snd ;;
  match List.find (fun p => bool_decide (mp_ns p = cp_ns cmd /\ mp_start p = cp_start cmd
                                        /\ mp_end p = cp_end cmd)) (values (px_partitions index)) with
  | Some existing => sret (mp_partition_id existing)
  | None =>
      let partition_id := px_next_id index in
      let partition := {| mp_partition_id := partition_id; mp_ns := cp_ns cmd; mp_start := cp_start cmd;
                          mp_end := cp_end cmd; mp_peers := cp_peers cmd; mp_epoch := 1 |} in
      next_id <== slift (ok_or (checked_add 64 (px_next_id index) 1)
                           (SmCorrupt "partition id counter overflow")) ;;
      _u <== smodify (fun s => (s.1,
               {| px_partitions := <[partition_id := partition]> (px_partitions s.2);
                  px_by_start := <[start_key partition := partition_id]> (px_by_start s.2);
                  px_next_id := next_id; px_next_ino_tag := px_next_ino_tag s.2 |})) ;;
      _cf <== slift (open_cf db META_PARTITION_CF) ;;
      _u <== smodify (fun s =>
               (put_cf (put_cf s.1 META_PARTITION_CF (be_bytes 8 partition_id) (to_vec partition))
                  META_PARTITION_CF COUNTER_KEY (be_bytes 8 next_id), s.2)) ;;
      sret partition_id
  end.

Definition PartitionManager_apply_split (db : SmDb) (cmd : SplitPartition)
    : St (WriteBatch * PartitionIndex) (option (Z * Z)) :=
  index <== sgets snd ;;
  match px_partitions index !! spl_parent_id cmd with
  | None => sret None
  | Some parent =>
      let at_ := bound_coord (spl_at cmd) in
      let after_start := pb_unbounded (mp_start parent) || coord_ltb (bound_coord (mp_start parent)) at_ in
      let before_end := pb_unbounded (mp_end parent) || coord_ltb at_ (bound_coord (mp_end parent)) in
      if pb_unbounded (spl_at cmd) || negb after_start || negb before_end then sret None
      else
        let child_id := px_next_id index in
        let child_ino_tag := px_next_ino_tag index in
        let child := {| mp_partition_id := child_id; mp_ns := mp_ns parent; mp_start := spl_at cmd;
                        mp_end := mp_end parent; mp_peers := mp_peers parent; mp_epoch := 1 |} in
        let narrowed := {| mp_partition_id := mp_partition_id parent; mp_ns := mp_ns parent;
                           mp_start := mp_start parent; mp_end := spl_at cmd;
                           mp_peers := mp_peers parent; mp_epoch := mp_epoch parent + 1 |} in
        next_id <== slift (ok_or (checked_add 64 (px_next_id index) 1)
                             (SmCorrupt "partition id counter overflow")) ;;
        _u <== smodify (fun s => (s.1,
                 {| px_partitions := px_partitions s.2; px_by_start := px_by_start s.2;
                    px_next_id := next_id; px_next_ino_tag := px_next_ino_tag s.2 |})) ;;
        next_ino_tag <== slift (ok_or
            (opt_filter (fun t => t <? Z.shiftl 1 INO_PARTITION_TAG_BITS)
               (checked_add 32 (px_next_ino_tag index) 1))
            (SmCorrupt "ino partition tag space exhausted")) ;;
        _u <== smodify (fun s => (s.1,
                 {| px_partitions := <[child_id := child]> (<[spl_parent_id cmd := narrowed]> (px_partitions s.2));
                    px_by_start := <[start_key child := child_id]> (px_by_start s.2);
                    px_next_id := px_next_id s.2; px_next_ino_tag := next_ino_tag |})) ;;
        _cf <== slift (open_cf db META_PARTITION_CF) ;;
        _u <== smodify (fun s =>
                 (put_cf (put_cf (put_cf (put_cf s.1
                    META_PARTITION_CF (be_bytes 8 (spl_parent_id cmd)) (to_vec narrowed))
                    META_PARTITION_CF (be_bytes 8 child_id) (to_vec child))
                    META_PARTITION_CF COUNTER_KEY (be_bytes 8 next_id))
                    META_PARTITION_CF INO_TAG_COUNTER_KEY (be_bytes 4 next_ino_tag), s.2)) ;;
        sret (Some (child_id, child_ino_tag))
  end.

Definition PartitionManager_apply_migrate (db : SmDb) (cmd : MigratePartition)
    : St (WriteBatch * PartitionIndex) (option (list NodeId)) :=
  index <== sgets snd ;;
  match px_partitions index !! mgp_partition_id cmd with
  | None => sret None
  | Some partition =>
      let has_to := bool_decide (mgp_to cmd ∈ mp_peers partition) in
      let has_from := bool_decide (mgp_from cmd ∈ mp_peers partition) in
      if has_to && negb has_from then sret None
      else
        let peers := filter (fun p => p <> mgp_from cmd) (mp_peers partition) in
        let peers := if has_to then peers else peers ++ [mgp_to cmd] in
        match peers with
        | [] => sret None
        | _ =>
            let partition := {| mp_partition_id := mp_partition_id partition; mp_ns := mp_ns partition;
                                mp_start := mp_start partition; mp_end := mp_end partition;
                                mp_peers := peers; mp_epoch := mp_epoch partition + 1 |} in
            _u <== smodify (fun s => (s.1,
                     {| px_partitions := <[mgp_partition_id cmd := partition]> (px_partitions s.2);
                        px_by_start := px_by_start s.2; px_next_id := px_next_id s.2;
                        px_next_ino_tag := px_next_ino_tag s.2 |})) ;;
            _cf <== slift (open_cf db META_PARTITION_CF) ;;
            _u <== smodify (fun s =>
                     (put_cf s.1 META_PARTITION_CF (be_bytes 8 (mgp_partition_id cmd)) (to_vec partition), s.2)) ;;
            sret (Some peers)
        end
  end.

Definition PartitionManager_partitions_on (index : PartitionIndex) (node_id : NodeId) : list MetaPartition :=
  filter (fun p => node_id ∈ mp_peers p) (values (px_partitions index)).
Definition PartitionManager_snapshot_view (index : PartitionIndex) : list MetaPartition * Z * Z :=
  (values (px_partitions index), px_next_id index, px_next_ino_tag index).
Definition PartitionManager_stage_and_apply_snapshot (db : SmDb) (partitions : list MetaPartition)
    (next_id next_ino_tag : Z) : St (WriteBatch * PartitionIndex) unit :=
  _cf <== slift (open_cf db META_PARTITION_CF) ;;
  _u <== smodify (fun s => (stage_clear s.1 db META_PARTITION_CF, s.2)) ;;
  _u <== smodify (fun s =>
    (foldl (fun b p => put_cf b META_PARTITION_CF (be_bytes 8 (mp_partition_id p)) (to_vec p)) s.1 partitions,
     s.2)) ;;
  _u <== smodify (fun s =>
    (put_cf (put_cf s.1 META_PARTITION_CF COUNTER_KEY (be_bytes 8 next_id))
       META_PARTITION_CF INO_TAG_COUNTER_KEY (be_bytes 4 next_ino_tag), s.2)) ;;
  let m := collect mp_partition_id partitions in
  smodify (fun s => (s.1,
    {| px_partitions := m;
       px_by_start := foldl (fun m p => <[start_key p := mp_partition_id p]> m) ∅ (values m);
       px_next_id := next_id; px_next_ino_tag := next_ino_tag |})).
End Managers.
