(* ===== verification/PdMetaInv.v ===== *)
(** Invariants of the bucket, configuration, credential and partition managers,
    and the routing of names to metadata partitions. *)

From S2P Require Import Prelude Ids Rocks PdDb PdCluster PdMeta PdJob.

(** ** Strings *)

Lemma string_of_as_bytes s : string_of_bytes (as_bytes s) = s.
Proof.
  unfold string_of_bytes, as_bytes. rewrite <- list_fmap_compose.
  rewrite (list_fmap_ext _ id).
  - rewrite list_fmap_id. apply String.string_of_list_ascii_of_string.
  - intros i a _. simpl. by rewrite Nat2Z.id, Ascii.ascii_nat_embedding.
Qed.
Lemma as_bytes_inj s1 s2 : as_bytes s1 = as_bytes s2 -> s1 = s2.
Proof. intros E. by rewrite <- (string_of_as_bytes s1), E, string_of_as_bytes. Qed.

(** A Rust [String] holds valid UTF-8. *)
Definition str_ok (s : string) : Prop := utf8_valid (length (as_bytes s)) (as_bytes s) = true.

Lemma utf8_lossy_valid fuel l : utf8_valid fuel l = true -> utf8_lossy fuel l = l.
Proof.
  revert l. induction fuel as [|fuel IH]; intros [|b l]; try done.
  cbn [utf8_valid utf8_lossy]. destruct (utf8_next (b :: l)) as [ok n]. destruct ok; [|done].
  intros E%IH. by rewrite E, take_drop.
Qed.
Lemma from_utf8_str s : str_ok s -> from_utf8 (as_bytes s) = Some s.
Proof. intros E. unfold from_utf8. by rewrite E, string_of_as_bytes. Qed.
Lemma from_utf8_lossy_str s : str_ok s -> from_utf8_lossy (as_bytes s) = s.
Proof. intros E. unfold from_utf8_lossy. by rewrite utf8_lossy_valid, string_of_as_bytes. Qed.

(** Configuration values are stored as they are. *)
Definition raw_serde : Serde (list Z) :=
  {| to_vec := fun b => b; from_slice := Some; from_to := fun _ => eq_refl |}.

Section MetaInv.
Context {RDB : RocksDb no_merge} `{Serde BucketMeta} `{Serde Credential} `{Serde MetaPartition}.
Implicit Types (db : SmDb) (b : WriteBatch).

(** ** Configuration and credentials *)

Definition config_ok db b (index : gmap string (list Z)) : Prop :=
  @table_rep _ _ _ _ raw_serde as_bytes str_ok (pending db b CONFIG_CF) index ∅.
Definition cred_ok db b (index : gmap string Credential) : Prop :=
  table_rep as_bytes str_ok (pending db b CRED_CF) index ∅.

Lemma config_put_ok db b index cmd : is_Some (db !! CONFIG_CF) -> config_ok db b index ->
  str_ok (pc_key cmd) ->
  exists b', ConfigManager_apply_put db cmd (b, index) = ((b', <[pc_key cmd := pc_value cmd]> index), Ok tt)
    /\ touches [CONFIG_CF] b b' /\ config_ok db b' (<[pc_key cmd := pc_value cmd]> index).
Proof.
  intros [d Hd] Hok Hs. unfold ConfigManager_apply_put. open_st Hd. eexists. split; [done|].
  split; [auto with pd|]. unfold config_ok. rewrite pending_put.
  by apply (@table_rep_insert _ _ _ _ raw_serde); [intros; by apply as_bytes_inj|..].
Qed.
Lemma config_delete_ok db b index cmd : is_Some (db !! CONFIG_CF) -> config_ok db b index ->
  str_ok (dcf_key cmd) ->
  exists b', ConfigManager_apply_delete db cmd (b, index) = ((b', delete (dcf_key cmd) index), Ok tt)
    /\ touches [CONFIG_CF] b b' /\ config_ok db b' (delete (dcf_key cmd) index).
Proof.
  intros [d Hd] Hok Hs. unfold ConfigManager_apply_delete. open_st Hd. eexists. split; [done|].
  split; [auto with pd|]. unfold config_ok. rewrite pending_delete.
  by apply (@table_rep_delete _ _ _ _ raw_serde); [intros; by apply as_bytes_inj|..].
Qed.
Lemma config_restore_ok db index : is_Some (db !! CONFIG_CF) -> config_ok db [] index ->
  ConfigManager_restore db = Ok index.
Proof.
  intros [d Hd] Hr. unfold ConfigManager_restore, open_cf. rewrite Hd. simpl.
  unfold config_ok in Hr. rewrite pending_nil, Hd in Hr. simpl in Hr.
  destruct (iter_try_ind (E := SmError) (fun index kv => Ok (<[from_utf8_lossy kv.1 := kv.2]> index))
    (fun t0 m => @table_rep _ _ _ _ raw_serde as_bytes str_ok t0 m ∅) (tab d) (rdb_iter d []) ∅)
    as (m & -> & Hm).
  - apply rdb_iter_sorted.
  - apply tab_iter.
  - apply table_rep_empty.
  - intros t0 m k v Ht0 Hk _.
    destruct (@table_rep_entry _ _ _ _ raw_serde _ _ _ _ _ _ _ Hr Hk) as [?|(s & r & Hu & -> & Ht & ->)]; [done|].
    simpl. eexists. split; [done|]. rewrite from_utf8_lossy_str by done.
    by apply (@table_rep_insert _ _ _ _ raw_serde); [intros; by apply as_bytes_inj|..].
  - by destruct (@table_rep_functional _ _ _ _ raw_serde _ _ (fun x y _ _ => as_bytes_inj x y) _ _ _ _ _ Hr Hm)
      as [-> _].
Qed.

Lemma cred_put_ok db b index cmd : is_Some (db !! CRED_CF) -> cred_ok db b index ->
  str_ok (pcr_access_key cmd) ->
  exists b' c, CredentialManager_apply_put db cmd (b, index)
      = ((b', <[pcr_access_key cmd := c]> index), Ok tt)
    /\ touches [CRED_CF] b b' /\ cred_ok db b' (<[pcr_access_key cmd := c]> index)
    /\ cr_secret_key c = pcr_secret_key cmd /\ cr_allowed_buckets c = pcr_allowed_buckets cmd
    /\ cr_role c = pcr_role cmd.
Proof.
  intros [d Hd] Hok Hs. unfold CredentialManager_apply_put. open_st Hd. eexists _, _. split; [done|].
  split; [auto with pd|]. split; [|done]. unfold cred_ok. rewrite pending_put.
  by apply table_rep_insert; [intros; by apply as_bytes_inj|..].
Qed.
Lemma cred_restore_ok db index : is_Some (db !! CRED_CF) -> cred_ok db [] index ->
  CredentialManager_restore db = Ok index.
Proof.
  intros [d Hd] Hr. unfold CredentialManager_restore, open_cf. rewrite Hd. simpl.
  unfold cred_ok in Hr. rewrite pending_nil, Hd in Hr. simpl in Hr.
  match goal with |- iter_try ?f _ _ = _ =>
    destruct (iter_try_ind f (fun t0 m => table_rep as_bytes str_ok t0 m ∅) (tab d) (rdb_iter d []) ∅)
      as (m & -> & Hm) end.
  - apply rdb_iter_sorted.
  - apply tab_iter.
  - apply table_rep_empty.
  - intros t0 m k v Ht0 Hk _.
    destruct (table_rep_entry _ _ _ _ _ _ _ Hr Hk) as [?|(s & r & Hu & -> & Ht & ->)]; [done|].
    simpl. rewrite from_utf8_str, from_to by done. simpl. eexists. split; [done|].
    by apply table_rep_insert; [intros; by apply as_bytes_inj|..].
  - by destruct (table_rep_functional _ _ (fun x y _ _ => as_bytes_inj x y) _ _ _ _ _ Hr Hm) as [-> _].
Qed.

(** ** Buckets *)

(** Below the namespace bit the two kinds of ids do not meet. *)
Definition bucket_raw (ns : NsMode) (n : Z) : Z :=
  Z.lor n (if decide (ns = Hier) then HIER_BUCKET_BIT else 0).
Lemma bucket_raw_val ns n : 0 <= n < 2 ^ 63 ->
  bucket_raw ns n = n + (if decide (ns = Hier) then 2 ^ 63 else 0).
Proof.
  intros Hn. unfold bucket_raw. case_decide; [|by rewrite Z.lor_0_r, Z.add_0_r].
  unfold HIER_BUCKET_BIT. rewrite Z.lor_comm, lor_shiftl_add by (unfold uint; lia). lia.
Qed.

Record bucket_inv (index : BucketIndex) : Prop := {
  bk_id : forall id m, bx_buckets index !! id = Some m -> bm_bucket_id m = id
    /\ exists n, 1 <= n < bx_next_id index /\ id = bucket_raw (bm_ns_mode m) n;
  bk_names : forall name id, bx_names index !! name = Some id <->
    exists m, bx_buckets index !! id = Some m /\ bm_name m = name;
  bk_next : 1 <= bx_next_id index <= 2 ^ 63
}.
Definition bucket_ctl (cs : gmap (list Z) (list Z)) (next : Z) : Prop :=
  (cs = ∅ /\ next = 1) \/ (is_u64 next /\ cs = {[COUNTER_KEY := be_bytes 8 next]}).
Record bucket_ok db b (index : BucketIndex) : Prop := {
  bk_rep : exists cs, table_rep (be_bytes 8) (uint 64) (pending db b BUCKET_CF) (bx_buckets index) cs
    /\ bucket_ctl cs (bx_next_id index);
  bk_inv : bucket_inv index
}.

Lemma counter_key_ne id : COUNTER_KEY <> be_bytes 8 id.
Proof. intros E. apply (f_equal len) in E. by rewrite len_be_bytes in E. Qed.
Lemma ino_counter_key_ne id : INO_TAG_COUNTER_KEY <> be_bytes 8 id.
Proof. intros E. apply (f_equal len) in E. by rewrite len_be_bytes in E. Qed.

Lemma bucket_ctl_insert cs next next' : is_u64 next' -> bucket_ctl cs next ->
  bucket_ctl (<[COUNTER_KEY := be_bytes 8 next']> cs) next'.
Proof.
  intros Hu Hc. right. split; [done|]. destruct Hc as [[-> _]|[_ ->]]; [done|]. by rewrite insert_singleton_eq.
Qed.
Lemma bucket_ctl_functional cs n n' : bucket_ctl cs n -> bucket_ctl cs n' -> n = n'.
Proof.
  intros [[E ->]|[Hu E]] [[E' ->]|[Hu' E']]; [done|..].
  - rewrite E in E'. by apply symmetry, map_non_empty_singleton in E'.
  - rewrite E' in E. by apply symmetry, map_non_empty_singleton in E.
  - rewrite E in E'. apply (f_equal (lookup COUNTER_KEY)) in E'. rewrite !lookup_singleton_eq in E'.
    apply (f_equal (default [])) in E'. by apply be_bytes8_inj in E'.
Qed.

Lemma bucket_create_ok db b index cmd : is_Some (db !! BUCKET_CF) -> bucket_ok db b index ->
  bx_next_id index < 2 ^ 63 ->
  exists b' index' id, BucketManager_apply_create db cmd (b, index) = ((b', index'), Ok id)
    /\ touches [BUCKET_CF] b b' /\ bucket_ok db b' index'
    /\ bx_next_id index <= bx_next_id index' <= bx_next_id index + 1
    /\ (exists m, BucketManager_get_by_name index' (cb_name cmd) = Some m /\ bm_bucket_id m = id)
    /\ (forall m, BucketManager_get_by_name index (cb_name cmd) = Some m -> index' = index)
    /\ (forall name, name <> cb_name cmd ->
          BucketManager_get_by_name index' name = BucketManager_get_by_name index name).
Proof.
  intros [d Hd] Hok Hlt. pose proof Hok as [(cs & Hr & Hc) [Hid Hn Hnx]].
  unfold BucketManager_apply_create. run_st. destruct (bx_names index !! cb_name cmd) as [id|] eqn:He.
  { eexists _, _, _. split; [done|]. split; [auto with pd|]. split; [done|]. split; [lia|].
    split; [|done]. apply Hn in He as He'. destruct He' as (m & Hm & ?). exists m.
    unfold BucketManager_get_by_name. rewrite He. simpl. rewrite Hm. split; [done|]. by apply Hid. }
  unfold checked_add. rewrite (proj2 (Z.ltb_lt _ _)) by lia. cbn [ok_or]. open_st Hd.
  eexists _, _, _. split; [done|]. split; [auto with pd|].
  fold (bucket_raw (cb_ns_mode cmd) (bx_next_id index)).
  set (raw := bucket_raw (cb_ns_mode cmd) (bx_next_id index)).
  set (m := {| bm_bucket_id := raw; bm_name := cb_name cmd; bm_ns_mode := cb_ns_mode cmd;
               bm_inline_threshold := cb_inline_threshold cmd; bm_codemode_id := cb_codemode_id cmd;
               bm_engine := cb_engine cmd; bm_created_at := cb_created_at cmd |}).
  assert (is_u64 raw) as Hu.
  { unfold raw. rewrite bucket_raw_val by lia. unfold uint. case_decide; lia. }
  assert (bx_buckets index !! raw = None) as Hfresh.
  { destruct (bx_buckets index !! raw) as [m'|] eqn:Hm; [|done]. exfalso.
    destruct (Hid _ _ Hm) as (_ & n & Hb & E). unfold raw in E. rewrite !bucket_raw_val in E by lia.
    repeat case_decide; lia. }
  assert (forall name id, bx_names index !! name = Some id -> id <> raw) as Hne.
  { intros name id Hname ->. apply Hn in Hname as (m' & Hm & _). congruence. }
  split; [split; simpl|].
  - exists (<[COUNTER_KEY := be_bytes 8 (bx_next_id index + 1)]> cs). split.
    + rewrite !pending_put. apply table_rep_ctl; [intros; apply counter_key_ne|].
      apply table_rep_insert; auto using be_bytes8_inj.
    + apply (bucket_ctl_insert _ (bx_next_id index)); [unfold uint; lia|done].
  - split; simpl.
    + intros id m'. rewrite lookup_insert_Some. intros [[<- <-]|[_ Hm']].
      * split; [done|]. exists (bx_next_id index). split; [lia|done].
      * destruct (Hid _ _ Hm') as (? & n & ? & ?). split; [done|]. exists n. split; [lia|done].
    + intros name id. rewrite lookup_insert_Some, Hn. setoid_rewrite lookup_insert_Some. split.
      * intros [[<- <-]|[Hne' (m' & Hm' & <-)]]; [exists m; auto|]. exists m'. split; [|done].
        right. split; [congruence|done].
      * intros (m' & [[<- <-]|[? Hm']] & <-); [by left|]. right. split; [|by eauto].
        intros E. assert (bx_names index !! bm_name m' = Some id) as E' by (apply Hn; eauto).
        simpl in E. congruence.
    + lia.
  - simpl. split; [lia|]. unfold BucketManager_get_by_name. simpl. split.
    + exists m. rewrite lookup_insert_eq. simpl. by rewrite lookup_insert_eq.
    + split; [intros m'; by rewrite He|]. intros name Hname. rewrite lookup_insert_ne by done.
      destruct (bx_names index !! name) as [id|] eqn:Hni; simpl; [|done].
      rewrite lookup_insert_ne; [done|]. apply not_eq_sym. by eapply Hne.
Qed.

Lemma bucket_restore_ok db index : is_Some (db !! BUCKET_CF) -> bucket_ok db [] index ->
  BucketManager_restore db = Ok index.
Proof.
  intros [d Hd] [(cs & Hr & Hc) [Hid Hn Hnx]]. unfold BucketManager_restore, open_cf. rewrite Hd. simpl.
  rewrite pending_nil, Hd in Hr. simpl in Hr.
  destruct (iter_try_ind bucket_restore_step
    (fun t0 i => (exists cs, table_rep (be_bytes 8) (uint 64) t0 (bx_buckets i) cs /\ bucket_ctl cs (bx_next_id i))
       /\ (forall id m, bx_buckets i !! id = Some m -> bx_buckets index !! id = Some m)
       /\ (forall name id, bx_names i !! name = Some id <->
             exists m, bx_buckets i !! id = Some m /\ bm_name m = name))
    (tab d) (rdb_iter d []) {| bx_buckets := ∅; bx_names := ∅; bx_next_id := 1 |})
    as (i & -> & (cs' & Hr' & Hc') & _ & Hn').
  - apply rdb_iter_sorted.
  - apply tab_iter.
  - split; [exists ∅; split; [apply table_rep_empty|by left]|]. simpl. split; [done|].
    intros name id. rewrite lookup_empty. setoid_rewrite lookup_empty. naive_solver.
  - intros t0 i k v ((cs0 & Hr0 & Hc0) & Hsub & Hn0) Hk _. unfold bucket_restore_step.
    destruct (table_rep_entry _ _ _ _ _ _ _ Hr Hk) as [Hcs|(id & m & Hu & -> & Hm & ->)].
    + destruct Hc as [[-> _]|[Hu ->]]; [done|]. apply lookup_singleton_Some in Hcs as [<- <-].
      rewrite decide_True by done. rewrite len_be_bytes. cbn [Z.of_nat Pos.of_succ_nat Pos.succ Z.eqb Pos.eqb].
      rewrite (be_val_uint 8 64) by done. eexists. split; [done|]. split; [|done]. simpl.
      exists (<[COUNTER_KEY := be_bytes 8 (bx_next_id index)]> cs0). split.
      * apply table_rep_ctl; [intros; apply counter_key_ne|done].
      * by apply (bucket_ctl_insert _ (bx_next_id i)).
    + rewrite decide_False by (intros E; by eapply counter_key_ne). rewrite len_be_bytes, from_to. simpl.
      rewrite (be_val_uint 8 64) by done. destruct (Hid _ _ Hm) as [-> _].
      eexists. split; [done|]. simpl. split; [|split].
      * exists cs0. split; [|done]. apply table_rep_insert; auto using be_bytes8_inj.
      * intros id' m'. rewrite lookup_insert_Some. intros [[<- <-]|[_ ?]]; auto.
      * intros name id'. rewrite lookup_insert_Some, Hn0. setoid_rewrite lookup_insert_Some.
        assert (forall id' m', bx_buckets i !! id' = Some m' -> bm_name m' = bm_name m -> id' = id) as Huniq.
        { intros id'' m' Hm' E. apply Hsub in Hm'.
          assert (bx_names index !! bm_name m = Some id'') as E1 by (apply Hn; eauto).
          assert (bx_names index !! bm_name m = Some id) as E2 by (apply Hn; eauto). congruence. }
        split.
        -- intros [[<- <-]|[Hne (m' & Hm' & <-)]]; [exists m; auto|]. exists m'. split; [|done].
           destruct (decide (id = id')) as [<-|]; [|by right].
           apply Hsub in Hm'. rewrite Hm in Hm'. by injection Hm' as <-.
        -- intros (m' & [[<- <-]|[Hne Hm']] & <-); [by left|]. right. split; [|by eauto].
           intros E. destruct (Huniq _ _ Hm' (eq_sym E)). done.
  - destruct (table_rep_functional _ _ be_bytes8_inj _ _ _ _ _ Hr Hr') as [E1 <-].
    pose proof (bucket_ctl_functional _ _ _ Hc Hc') as E2. f_equal.
    destruct i as [bi ni nx], index as [bi' ni' nx']. simpl in *. subst. f_equal.
    apply map_eq. intros name. apply option_eq. intros id. by rewrite Hn, Hn'.
Qed.

(** ** Partitions *)

(** The routing index holds, for every start in use, the newest partition with
    that start. *)
Definition by_start_spec (parts : gmap Z MetaPartition) (by_start : gmap (Z * (Z * list Z)) Z) : Prop :=
  forall k id, by_start !! k = Some id <->
    exists p, parts !! id = Some p /\ start_key p = k
      /\ forall id' p', parts !! id' = Some p' -> start_key p' = k -> id' <= id.

Lemma by_start_insert parts by_start id p : by_start_spec parts by_start ->
  (forall id', is_Some (parts !! id') -> id' < id) ->
  by_start_spec (<[id := p]> parts) (<[start_key p := id]> by_start).
Proof.
  intros Hs Hmax k id'. destruct (decide (start_key p = k)) as [<-|Hne].
  - rewrite lookup_insert_eq. split.
    + intros [= <-]. exists p. rewrite lookup_insert_eq. split; [done|]. split; [done|].
      intros id' p'. rewrite lookup_insert_Some. intros [[<- _]|[_ Hp']] _; [lia|].
      specialize (Hmax id' (mk_is_Some _ _ Hp')). lia.
    + intros (p' & Hp' & _ & Hall). specialize (Hall id p). rewrite lookup_insert_eq in Hall.
      specialize (Hall eq_refl eq_refl). apply lookup_insert_Some in Hp' as [[-> _]|[_ Hp']]; [done|].
      specialize (Hmax id' (mk_is_Some _ _ Hp')). lia.
  - rewrite lookup_insert_ne, (Hs k id') by done. setoid_rewrite lookup_insert_Some. split.
    + intros (p' & Hp' & E & Hall). exists p'. split; [right; split; [|done]|].
      { intros <-. specialize (Hmax id (mk_is_Some _ _ Hp')). lia. }
      split; [done|]. intros id'' p'' [[<- <-]|[_ ?]] E'; [done|]. by eapply Hall.
    + intros (p' & [[<- <-]|[Hne' Hp']] & E & Hall); [done|]. exists p'. split; [done|]. split; [done|].
      intros id'' p'' Hp'' E'. eapply Hall; [right; split; [|done]|done].
      intros <-. specialize (Hmax id (mk_is_Some _ _ Hp'')). lia.
Qed.
Lemma by_start_update parts by_start id p p' : by_start_spec parts by_start ->
  parts !! id = Some p -> start_key p' = start_key p ->
  by_start_spec (<[id := p']> parts) by_start.
Proof.
  intros Hs Hp E k id'. rewrite (Hs k id'). setoid_rewrite lookup_insert_Some. split.
  - intros (q & Hq & Ek & Hall).
    assert (forall id'' q', (id = id'' /\ p' = q') \/ (id <> id'' /\ parts !! id'' = Some q') ->
      start_key q' = k -> id'' <= id') as Hall'.
    { intros id'' q' [[<- <-]|[_ ?]] ?; eapply Hall; [done|congruence|done|done]. }
    destruct (decide (id = id')) as [<-|]; [|exists q; auto]. exists p'. split; [by left|].
    split; [congruence|done].
  - intros (q & Hq & Ek & Hall).
    assert (forall id'' q', parts !! id'' = Some q' -> start_key q' = k -> id'' <= id') as Hall'.
    { intros id'' q' Hq' E'. destruct (decide (id = id'')) as [<-|]; [|eapply Hall; [right; eauto|done]].
      eapply (Hall id p'); [by left|congruence]. }
    destruct Hq as [[<- <-]|[_ Hq]]; [|exists q; auto]. exists p. split; [done|]. split; [congruence|done].
Qed.

Record partition_inv (index : PartitionIndex) : Prop := {
  pk_id : forall id p, px_partitions index !! id = Some p -> mp_partition_id p = id /\ 1 <= id < px_next_id index;
  pk_start : by_start_spec (px_partitions index) (px_by_start index);
  pk_next : 1 <= px_next_id index < 2 ^ 64;
  pk_tag : 1 <= px_next_ino_tag index < 2 ^ INO_PARTITION_TAG_BITS
}.
Record part_ctl (cs : gmap (list Z) (list Z)) (next tag : Z) : Prop := {
  pc_keys : forall k, is_Some (cs !! k) -> k = COUNTER_KEY \/ k = INO_TAG_COUNTER_KEY;
  pc_next : match cs !! COUNTER_KEY with Some v => v = be_bytes 8 next /\ is_u64 next | None => next = 1 end;
  pc_tag : match cs !! INO_TAG_COUNTER_KEY with Some v => v = be_bytes 4 tag /\ is_u32 tag | None => tag = 1 end
}.
Record partition_ok db b (index : PartitionIndex) : Prop := {
  pk_rep : exists cs,
    table_rep (be_bytes 8) (uint 64) (pending db b META_PARTITION_CF) (px_partitions index) cs
    /\ part_ctl cs (px_next_id index) (px_next_ino_tag index);
  pk_inv : partition_inv index
}.

Lemma part_ctl_next cs next tag next' : part_ctl cs next tag -> is_u64 next' ->
  part_ctl (<[COUNTER_KEY := be_bytes 8 next']> cs) next' tag.
Proof.
  intros [Hk Hn Ht] Hu. split.
  - intros k [v Hv]. apply lookup_insert_Some in Hv as [[<- _]|[_ ?]]; eauto.
  - by rewrite lookup_insert_eq.
  - by rewrite lookup_insert_ne.
Qed.
Lemma part_ctl_tag cs next tag tag' : part_ctl cs next tag -> is_u32 tag' ->
  part_ctl (<[INO_TAG_COUNTER_KEY := be_bytes 4 tag']> cs) next tag'.
Proof.
  intros [Hk Hn Ht] Hu. split.
  - intros k [v Hv]. apply lookup_insert_Some in Hv as [[<- _]|[_ ?]]; eauto.
  - by rewrite lookup_insert_ne.
  - by rewrite lookup_insert_eq.
Qed.
Lemma part_ctl_functional cs n t n' t' : part_ctl cs n t -> part_ctl cs n' t' -> n = n' /\ t = t'.
Proof.
  intros [_ Hn Ht] [_ Hn' Ht']. split.
  - destruct (cs !! COUNTER_KEY); [|congruence]. destruct Hn as [-> ?], Hn' as [E ?].
    by apply be_bytes8_inj in E.
  - destruct (cs !! INO_TAG_COUNTER_KEY); [|congruence]. destruct Ht as [-> ?], Ht' as [E ?].
    by apply record_key_inj in E.
Qed.

Lemma partition_create_ok db b index cmd : is_Some (db !! META_PARTITION_CF) -> partition_ok db b index ->
  exists b' index' r, PartitionManager_apply_create db cmd (b, index) = ((b', index'), r)
    /\ touches [META_PARTITION_CF] b b'
    /\ match r with
       | Ok id => partition_ok db b' index' /\ px_next_ino_tag index' = px_next_ino_tag index
           /\ (exists p, px_partitions index' !! id = Some p /\ mp_ns p = cp_ns cmd
                 /\ mp_start p = cp_start cmd /\ mp_end p = cp_end cmd)
           /\ (index' = index
               \/ (id = px_next_id index /\ px_partitions index' = <[id := {| mp_partition_id := id;
                     mp_ns := cp_ns cmd; mp_start := cp_start cmd; mp_end := cp_end cmd;
                     mp_peers := cp_peers cmd; mp_epoch := 1 |}]> (px_partitions index)))
       | Err _ => b' = b /\ index' = index
       end.
Proof.
  intros [d Hd] Hok. pose proof Hok as [(cs & Hr & Hc) [Hid Hs Hn Ht]].
  unfold PartitionManager_apply_create. run_st.
  pose proof (find_values (fun p => bool_decide (mp_ns p = cp_ns cmd /\ mp_start p = cp_start cmd
                                        /\ mp_end p = cp_end cmd)) (px_partitions index)) as Hf.
  destruct (List.find _ _) as [p|].
  { destruct Hf as (id & Hp & (? & ? & ?)%bool_decide_eq_true).
    eexists _, _, _. split; [done|]. split; [auto with pd|]. destruct (Hid _ _ Hp) as [-> _]. eauto 10. }
  unfold checked_add. destruct (Z.ltb_spec (px_next_id index + 1) (2 ^ 64)) as [Hlt|]; cbn [ok_or].
  2:{ eexists _, _, _. split; [done|]. auto with pd. }
  open_st Hd. eexists _, _, _. split; [done|]. split; [auto with pd|]. simpl.
  assert (forall id, is_Some (px_partitions index !! id) -> id < px_next_id index) as Hlts.
  { intros id [p Hp]. apply Hid in Hp. lia. }
  split_and!; [|done| |].
  - split; simpl.
    + eexists. split; [|apply (part_ctl_next _ _ _ _ Hc); unfold uint; lia].
      rewrite !pending_put. apply table_rep_ctl; [intros; apply counter_key_ne|].
      apply table_rep_insert; auto using be_bytes8_inj. unfold uint. lia.
    + split; simpl; [| |lia|done].
      * intros id p. rewrite lookup_insert_Some. intros [[<- <-]|[_ Hp]]; [simpl; lia|].
        destruct (Hid _ _ Hp). lia.
      * apply (by_start_insert _ _ _ {| mp_ns := _ |}); [done|]. apply Hlts.
  - eexists. rewrite lookup_insert_eq. done.
  - by right.
Qed.

(** The boundary of a split lies strictly inside the parent. *)
Definition splits (p : MetaPartition) (at_ : PartitionBound) : bool :=
  negb (pb_unbounded at_)
  && (pb_unbounded (mp_start p) || coord_ltb (bound_coord (mp_start p)) (bound_coord at_))
  && (pb_unbounded (mp_end p) || coord_ltb (bound_coord at_) (bound_coord (mp_end p))).

Lemma splits_cond p at_ :
  pb_unbounded at_
  || negb (pb_unbounded (mp_start p) || coord_ltb (bound_coord (mp_start p)) (bound_coord at_))
  || negb (pb_unbounded (mp_end p) || coord_ltb (bound_coord at_) (bound_coord (mp_end p)))
  = negb (splits p at_).
Proof.
  unfold splits. destruct (pb_unbounded at_); [done|]. simpl.
  by destruct (pb_unbounded (mp_start p) || _), (pb_unbounded (mp_end p) || _).
Qed.

Lemma partition_split_ok db b index cmd : is_Some (db !! META_PARTITION_CF) -> partition_ok db b index ->
  exists b' index' r, PartitionManager_apply_split db cmd (b, index) = ((b', index'), r)
    /\ touches [META_PARTITION_CF] b b'
    /\ match r with
       | Ok None => b' = b /\ index' = index
           /\ (forall p, px_partitions index !! spl_parent_id cmd = Some p -> splits p (spl_at cmd) = false)
       | Ok (Some (child, tag)) => partition_ok db b' index'
           /\ child = px_next_id index /\ tag = px_next_ino_tag index
           /\ px_next_ino_tag index' = tag + 1
           /\ exists p, px_partitions index !! spl_parent_id cmd = Some p /\ splits p (spl_at cmd) = true
                /\ px_partitions index' =
                     <[child := {| mp_partition_id := child; mp_ns := mp_ns p; mp_start := spl_at cmd;
                                   mp_end := mp_end p; mp_peers := mp_peers p; mp_epoch := 1 |}]>
                       (<[spl_parent_id cmd := {| mp_partition_id := mp_partition_id p; mp_ns := mp_ns p;
                            mp_start := mp_start p; mp_end := spl_at cmd; mp_peers := mp_peers p;
                            mp_epoch := mp_epoch p + 1 |}]> (px_partitions index))
       | Err _ => b' = b
       end.
Proof.
  intros [d Hd] Hok. pose proof Hok as [(cs & Hr & Hc) [Hid Hs Hn Ht]].
  unfold PartitionManager_apply_split. run_st.
  destruct (px_partitions index !! spl_parent_id cmd) as [p|] eqn:Hp.
  2:{ eexists _, _, _. split; [done|]. split; [auto with pd|]. by split_and!. }
  cbv zeta. rewrite splits_cond. destruct (splits p (spl_at cmd)) eqn:Hsp; cbn [negb].
  2:{ eexists _, _, _. split; [done|]. split; [auto with pd|]. split; [done|]. split; [done|]. by intros ? [= <-]. }
  unfold checked_add. destruct (Z.ltb_spec (px_next_id index + 1) (2 ^ 64)) as [Hlt|]; cbn [ok_or].
  2:{ eexists _, _, _. split; [done|]. auto with pd. }
  cbn [px_next_ino_tag px_partitions px_by_start px_next_id].
  destruct (Z.ltb_spec (px_next_ino_tag index + 1) (2 ^ 32)) as [Hlt2|]; cbn [opt_filter ok_or].
  2:{ eexists _, _, _. split; [done|]. auto with pd. }
  destruct (Z.ltb_spec (px_next_ino_tag index + 1) (Z.shiftl 1 INO_PARTITION_TAG_BITS)) as [Hlt3|]; cbn [ok_or].
  2:{ eexists _, _, _. split; [done|]. auto with pd. }
  open_st Hd. eexists _, _, _. split; [done|]. split; [auto 10 with pd|].
  assert (forall id, is_Some (px_partitions index !! id) -> id < px_next_id index) as Hlts.
  { intros id [q Hq]. apply Hid in Hq. lia. }
  split_and!; [|done..|exists p; by split_and!].
  destruct (Hid _ _ Hp) as [Hpid Hpb]. split; simpl.
  - eexists. split; [|eapply part_ctl_tag; [eapply part_ctl_next; [exact Hc|]|]]; [|unfold uint; lia..].
    rewrite !pending_put. apply table_rep_ctl; [intros; apply ino_counter_key_ne|].
    apply table_rep_ctl; [intros; apply counter_key_ne|].
    apply table_rep_insert; [apply be_bytes8_inj|unfold uint; lia|].
    apply table_rep_insert; auto using be_bytes8_inj. unfold uint; lia.
  - split; simpl; [| |lia|].
    + intros id q. rewrite !lookup_insert_Some. intros [[<- <-]|[_ [[<- <-]|[_ Hq]]]]; simpl; [lia|lia|].
      destruct (Hid _ _ Hq). lia.
    + apply (by_start_insert _ _ _ {| mp_ns := _ |}).
      * by eapply by_start_update.
      * intros id [q Hq]. apply lookup_insert_Some in Hq as [[<- _]|[_ ?]]; eauto.
    + change (Z.shiftl 1 INO_PARTITION_TAG_BITS) with (2 ^ INO_PARTITION_TAG_BITS) in Hlt3. lia.
Qed.

Lemma partition_migrate_ok db b index cmd : is_Some (db !! META_PARTITION_CF) -> partition_ok db b index ->
  exists b' index' r, PartitionManager_apply_migrate db cmd (b, index) = ((b', index'), Ok r)
    /\ touches [META_PARTITION_CF] b b' /\ partition_ok db b' index'
    /\ px_next_ino_tag index' = px_next_ino_tag index
    /\ match r with
       | None => b' = b /\ index' = index
       | Some peers => exists p, px_partitions index !! mgp_partition_id cmd = Some p
           /\ px_partitions index' = <[mgp_partition_id cmd := {| mp_partition_id := mp_partition_id p;
                 mp_ns := mp_ns p; mp_start := mp_start p; mp_end := mp_end p; mp_peers := peers;
                 mp_epoch := mp_epoch p + 1 |}]> (px_partitions index)
           /\ peers <> []
           /\ (forall n, n ∈ peers <-> (n ∈ mp_peers p /\ n <> mgp_from cmd)
                 \/ (n = mgp_to cmd /\ mgp_to cmd ∉ mp_peers p))
       end.
Proof.
  intros [d Hd] Hok. pose proof Hok as [(cs & Hr & Hc) [Hid Hs Hn Ht]].
  unfold PartitionManager_apply_migrate. run_st.
  destruct (px_partitions index !! mgp_partition_id cmd) as [p|] eqn:Hp.
  2:{ eexists _, _, _. split; [done|]. auto with pd. }
  cbv zeta. destruct (bool_decide (mgp_to cmd ∈ mp_peers p) && negb (bool_decide (mgp_from cmd ∈ mp_peers p))) eqn:Hsw.
  { eexists _, _, _. split; [done|]. auto with pd. }
  set (peers := if bool_decide (mgp_to cmd ∈ mp_peers p) then _ else _).
  assert (forall n, n ∈ peers <-> (n ∈ mp_peers p /\ n <> mgp_from cmd)
                 \/ (n = mgp_to cmd /\ mgp_to cmd ∉ mp_peers p)) as Hpeers.
  { intros n. unfold peers. case_bool_decide.
    - rewrite list_elem_of_filter. tauto.
    - rewrite elem_of_app, list_elem_of_filter, list_elem_of_singleton. tauto. }
  destruct peers as [|n peers'] eqn:Epe.
  { eexists _, _, _. split; [done|]. auto with pd. }
  open_st Hd. eexists _, _, _. split; [done|]. split; [auto with pd|].
  split; [|split; [done|exists p; by split_and!]].
  destruct (Hid _ _ Hp) as [Hpid Hpb]. split; simpl.
  - exists cs. split; [|done]. rewrite pending_put. apply table_rep_insert; auto using be_bytes8_inj.
    unfold uint. lia.
  - split; simpl; [|by eapply by_start_update|done..].
    intros id q. rewrite lookup_insert_Some. intros [[<- <-]|[_ ?]]; [done|]. by apply Hid.
Qed.

Lemma by_start_functional parts m m' : by_start_spec parts m -> by_start_spec parts m' -> m = m'.
Proof. intros H1' H2'. apply map_eq. intros k. apply option_eq. intros id. by rewrite (H1' k id), (H2' k id). Qed.

Lemma partition_restore_ok db index : is_Some (db !! META_PARTITION_CF) -> partition_ok db [] index ->
  PartitionManager_restore db = Ok index.
Proof.
  intros [d Hd] [(cs & Hr & Hc) [Hid Hs Hn Ht]]. unfold PartitionManager_restore, open_cf. rewrite Hd. simpl.
  rewrite pending_nil, Hd in Hr. simpl in Hr.
  destruct (iter_try_ind partition_restore_step
    (fun t0 i => (exists cs, table_rep (be_bytes 8) (uint 64) t0 (px_partitions i) cs
                    /\ part_ctl cs (px_next_id i) (px_next_ino_tag i))
       /\ by_start_spec (px_partitions i) (px_by_start i))
    (tab d) (rdb_iter d []) {| px_partitions := ∅; px_by_start := ∅; px_next_id := 1; px_next_ino_tag := 1 |})
    as (i & -> & (cs' & Hr' & Hc') & Hs').
  - apply rdb_iter_sorted.
  - apply tab_iter.
  - split.
    + exists ∅. split; [apply table_rep_empty|]. split; rewrite ?lookup_empty; try done.
      intros k. rewrite lookup_empty. by intros [].
    + intros k id. simpl. rewrite lookup_empty. setoid_rewrite lookup_empty. naive_solver.
  - intros t0 i k v ((cs0 & Hr0 & Hc0) & Hs0) Hk Hlt. unfold partition_restore_step.
    destruct (table_rep_entry _ _ _ _ _ _ _ Hr Hk) as [Hcs|(id & p & Hu & -> & Hp & ->)].
    + destruct (pc_keys _ _ _ Hc k (mk_is_Some _ _ Hcs)) as [-> | ->].
      * rewrite decide_True by done. pose proof (pc_next _ _ _ Hc) as Hv. rewrite Hcs in Hv.
        destruct Hv as [-> Hu]. rewrite len_be_bytes. cbn [Z.of_nat Pos.of_succ_nat Pos.succ Z.eqb Pos.eqb].
        rewrite (be_val_uint 8 64) by done. eexists. split; [done|]. split; [|done]. simpl.
        eexists. split; [|by eapply part_ctl_next]. apply table_rep_ctl; [intros; apply counter_key_ne|done].
      * rewrite decide_False by done. rewrite decide_True by done.
        pose proof (pc_tag _ _ _ Hc) as Hv. rewrite Hcs in Hv.
        destruct Hv as [-> Hu]. rewrite len_be_bytes. cbn [Z.of_nat Pos.of_succ_nat Pos.succ Z.eqb Pos.eqb].
        rewrite (be_val_uint 4 32) by done. eexists. split; [done|]. split; [|done]. simpl.
        eexists. split; [|by eapply part_ctl_tag]. apply table_rep_ctl; [intros; apply ino_counter_key_ne|done].
    + rewrite decide_False by (intros E; by eapply counter_key_ne).
      rewrite decide_False by (intros E; by eapply ino_counter_key_ne). rewrite len_be_bytes, from_to. simpl.
      rewrite (be_val_uint 8 64) by done. destruct (Hid _ _ Hp) as [-> _].
      eexists. split; [done|]. simpl. split.
      * exists cs0. split; [|done]. apply table_rep_insert; auto using be_bytes8_inj.
      * apply by_start_insert; [done|]. intros id' [p' Hp'].
        pose proof (tr_valid _ _ _ _ _ Hr0 _ _ Hp') as Hu'.
        specialize (Hlt (be_bytes 8 id')). rewrite be_bytes_ltb in Hlt by (unfold uint in *; simpl; lia).
        apply Z.ltb_lt, Hlt. exists (to_vec p'). apply (tr_lookup _ _ _ _ _ Hr0). right. by exists id', p'.
  - destruct (table_rep_functional _ _ be_bytes8_inj _ _ _ _ _ Hr Hr') as [E1 <-].
    destruct (part_ctl_functional _ _ _ _ _ Hc Hc') as [E2 E3]. f_equal.
    destruct i as [pi si nx tx], index as [pi' si' nx' tx']. simpl in *. subst. f_equal.
    by eapply by_start_functional.
Qed.

Lemma partition_snapshot_ok db b index db0 b0 index0 : is_Some (db !! META_PARTITION_CF) ->
  ops_of META_PARTITION_CF b = [] -> partition_ok db0 b0 index0 ->
  exists b', PartitionManager_stage_and_apply_snapshot db (PartitionManager_snapshot_view index0).1.1
      (PartitionManager_snapshot_view index0).1.2 (PartitionManager_snapshot_view index0).2 (b, index)
      = ((b', index0), Ok tt)
    /\ touches [META_PARTITION_CF] b b' /\ partition_ok db b' index0.
Proof.
  intros [d Hd] Hb [(cs & Hr & Hc) Hinv]. pose proof Hinv as [Hid Hs Hn Ht].
  unfold PartitionManager_stage_and_apply_snapshot, PartitionManager_snapshot_view. open_st Hd.
  assert (forall id p, px_partitions index0 !! id = Some p -> mp_partition_id p = id) as Hid'
    by (intros id p Hp; by apply Hid in Hp as [? _]).
  rewrite !collect_values by done.
  assert (forall l, StronglySorted Z.lt (mp_partition_id <$> l) ->
    Forall (fun p => is_u64 (mp_partition_id p)) l ->
    by_start_spec (collect mp_partition_id l)
      (foldl (fun m p => <[start_key p := mp_partition_id p]> m) ∅ l)
    /\ table_rep (be_bytes 8) (uint 64)
         (pending db (foldl (fun b p => put_cf b META_PARTITION_CF (be_bytes 8 (mp_partition_id p)) (to_vec p))
                        (stage_clear b db META_PARTITION_CF) l) META_PARTITION_CF)
         (collect mp_partition_id l) ∅) as Hgen.
  { induction l as [|p l IH] using rev_ind; intros Hso Hu.
    - split.
      + intros k id. simpl. rewrite lookup_empty. setoid_rewrite lookup_empty. naive_solver.
      + simpl. rewrite pending_clear by done. apply table_rep_empty.
    - apply Forall_app in Hu as [Hu Hup]. rewrite fmap_app in Hso.
      apply StronglySorted_app in Hso as (Hlt & Hso & _). destruct (IH Hso Hu) as [IH1 IH2].
      rewrite !foldl_app, collect_snoc. simpl. split.
      + apply by_start_insert; [done|]. intros id [q Hq]. apply collect_lookup in Hq as [Hq <-].
        * apply Hlt; [by apply list_elem_of_fmap_2|]. by apply list_elem_of_singleton.
        * by apply sorted_lt_NoDup.
      + rewrite pending_put. apply table_rep_insert; [apply be_bytes8_inj|by inversion Hup|done]. }
  destruct (Hgen (values (px_partitions index0))) as [Hs' Hr'].
  { by apply values_sorted. }
  { apply Forall_forall. intros p [id Hp]%elem_of_values. destruct (Hid _ _ Hp) as [-> ?]. unfold uint. lia. }
  rewrite collect_values in Hs', Hr' by done.
  rewrite (by_start_functional _ _ _ Hs' Hs). eexists. split; [by destruct index0|].
  split; [auto 10 with pd|]. split; [|done]. eexists. rewrite !pending_put. split.
  - apply table_rep_ctl; [intros; apply ino_counter_key_ne|].
    apply table_rep_ctl; [intros; apply counter_key_ne|]. exact Hr'.
  - eapply part_ctl_tag; [eapply (part_ctl_next _ 1 1)|]; [|unfold uint; lia|].
    + split; rewrite ?lookup_empty; try done. intros k. rewrite lookup_empty. by intros [].
    + change (2 ^ INO_PARTITION_TAG_BITS) with (2 ^ 16) in Ht. unfold uint. lia.
Qed.
End MetaInv.
