(* ===== verification/PdState.v ===== *)
(** The replicated state machine of the placement driver (epoch-pd:
    journal/entry.rs, state.rs, raft/state_machine.rs): commands, their dispatch
    with the checks across managers, the raft batch that flushes once, opening
    after a restart, and snapshots. The log ids and memberships of the consensus
    library are opaque. *)

From stdpp Require Import pretty.
From S2P Require Import Prelude Ids Rocks PdDb PdCluster PdChunk PdJob PdMeta.

(** ** Commands and results (entry.rs) *)

Inductive PdEntry : Set :=
| PE_Noop
| PE_RegisterNode (cmd : RegisterNode)
| PE_UpdateNodeStatus (cmd : UpdateNodeStatus)
| PE_RemoveNode (cmd : RemoveNode)
| PE_RegisterDisk (cmd : RegisterDisk)
| PE_UpdateDiskStatus (cmd : UpdateDiskStatus)
| PE_CreateChunkStaging (cmd : CreateChunkStaging)
| PE_CommitChunk (cmd : CommitChunk)
| PE_RebumpStaging (cmd : RebumpStaging)
| PE_SealChunk (cmd : SealChunk)
| PE_CreateBucket (cmd : CreateBucket)
| PE_CreatePartition (cmd : CreatePartition)
| PE_SplitPartition (cmd : SplitPartition)
| PE_MigratePartition (cmd : MigratePartition)
| PE_PutConfig (cmd : PutConfig)
| PE_PutCredential (cmd : PutCredential)
| PE_DeleteConfig (cmd : DeleteConfig)
| PE_RegisterWriter (cmd : RegisterWriter)
| PE_MarkWriterDead (cmd : MarkWriterDead)
| PE_Job (cmd : JobCommand)
| PE_CommitShardMapping (cmd : CommitShardMapping)
| PE_ReportShardRepair (cmd : ReportShardRepair)
| PE_CommitShardRepair (cmd : CommitShardRepair).

Inductive ApplyResult : Set :=
| AR_Applied
| AR_NodeRegistered (node_id : NodeId)
| AR_DiskRegistered (disk_id : DiskId)
| AR_ChunkStaged (chunk_id : ChunkId)
| AR_WriterRegistered (token : WriterToken)
| AR_BucketCreated (bucket_id : BucketId)
| AR_PartitionCreated (partition_id : Z)
| AR_PartitionSplit (child_id child_ino_tag : Z)
| AR_PartitionMigrated (peers : list NodeId)
| AR_JobCreated (job_id : Z)
| AR_ShardRebound (new_epoch : Z)
| AR_ShardRepairReported (created : bool)
| AR_Rejected (reason : RejectReason).

(** ** The state (state.rs) *)

Record PdState : Set := {
  ps_nodes : NodeIndex; ps_disks : PdDiskIndex; ps_chunks : ChunkIndex; ps_writers : WriterIndex;
  ps_buckets : BucketIndex; ps_configs : gmap string (list Z); ps_partitions : PartitionIndex;
  ps_credentials : gmap string Credential; ps_jobs : JobIndex;
  ps_shard_repairs : gmap Z ShardRepairTicket
}.
Definition set_nodes (i : NodeIndex) (p : PdState) : PdState :=
  {| ps_nodes := i; ps_disks := ps_disks p; ps_chunks := ps_chunks p; ps_writers := ps_writers p;
     ps_buckets := ps_buckets p; ps_configs := ps_configs p; ps_partitions := ps_partitions p;
     ps_credentials := ps_credentials p; ps_jobs := ps_jobs p; ps_shard_repairs := ps_shard_repairs p |}.
Definition set_disks (i : PdDiskIndex) (p : PdState) : PdState :=
  {| ps_nodes := ps_nodes p; ps_disks := i; ps_chunks := ps_chunks p; ps_writers := ps_writers p;
     ps_buckets := ps_buckets p; ps_configs := ps_configs p; ps_partitions := ps_partitions p;
     ps_credentials := ps_credentials p; ps_jobs := ps_jobs p; ps_shard_repairs := ps_shard_repairs p |}.
Definition set_chunks (i : ChunkIndex) (p : PdState) : PdState :=
  {| ps_nodes := ps_nodes p; ps_disks := ps_disks p; ps_chunks := i; ps_writers := ps_writers p;
     ps_buckets := ps_buckets p; ps_configs := ps_configs p; ps_partitions := ps_partitions p;
     ps_credentials := ps_credentials p; ps_jobs := ps_jobs p; ps_shard_repairs := ps_shard_repairs p |}.
Definition set_writers (i : WriterIndex) (p : PdState) : PdState :=
  {| ps_nodes := ps_nodes p; ps_disks := ps_disks p; ps_chunks := ps_chunks p; ps_writers := i;
     ps_buckets := ps_buckets p; ps_configs := ps_configs p; ps_partitions := ps_partitions p;
     ps_credentials := ps_credentials p; ps_jobs := ps_jobs p; ps_shard_repairs := ps_shard_repairs p |}.
Definition set_buckets (i : BucketIndex) (p : PdState) : PdState :=
  {| ps_nodes := ps_nodes p; ps_disks := ps_disks p; ps_chunks := ps_chunks p; ps_writers := ps_writers p;
     ps_buckets := i; ps_configs := ps_configs p; ps_partitions := ps_partitions p;
     ps_credentials := ps_credentials p; ps_jobs := ps_jobs p; ps_shard_repairs := ps_shard_repairs p |}.
Definition set_configs (i : gmap string (list Z)) (p : PdState) : PdState :=
  {| ps_nodes := ps_nodes p; ps_disks := ps_disks p; ps_chunks := ps_chunks p; ps_writers := ps_writers p;
     ps_buckets := ps_buckets p; ps_configs := i; ps_partitions := ps_partitions p;
     ps_credentials := ps_credentials p; ps_jobs := ps_jobs p; ps_shard_repairs := ps_shard_repairs p |}.
Definition set_partitions (i : PartitionIndex) (p : PdState) : PdState :=
  {| ps_nodes := ps_nodes p; ps_disks := ps_disks p; ps_chunks := ps_chunks p; ps_writers := ps_writers p;
     ps_buckets := ps_buckets p; ps_configs := ps_configs p; ps_partitions := i;
     ps_credentials := ps_credentials p; ps_jobs := ps_jobs p; ps_shard_repairs := ps_shard_repairs p |}.
Definition set_credentials (i : gmap string Credential) (p : PdState) : PdState :=
  {| ps_nodes := ps_nodes p; ps_disks := ps_disks p; ps_chunks := ps_chunks p; ps_writers := ps_writers p;
     ps_buckets := ps_buckets p; ps_configs := ps_configs p; ps_partitions := ps_partitions p;
     ps_credentials := i; ps_jobs := ps_jobs p; ps_shard_repairs := ps_shard_repairs p |}.
Definition set_jobs (i : JobIndex) (p : PdState) : PdState :=
  {| ps_nodes := ps_nodes p; ps_disks := ps_disks p; ps_chunks := ps_chunks p; ps_writers := ps_writers p;
     ps_buckets := ps_buckets p; ps_configs := ps_configs p; ps_partitions := ps_partitions p;
     ps_credentials := ps_credentials p; ps_jobs := i; ps_shard_repairs := ps_shard_repairs p |}.
Definition set_shard_repairs (i : gmap Z ShardRepairTicket) (p : PdState) : PdState :=
  {| ps_nodes := ps_nodes p; ps_disks := ps_disks p; ps_chunks := ps_chunks p; ps_writers := ps_writers p;
     ps_buckets := ps_buckets p; ps_configs := ps_configs p; ps_partitions := ps_partitions p;
     ps_credentials := ps_credentials p; ps_jobs := ps_jobs p; ps_shard_repairs := i |}.

(** Runs a manager's operation on its part of the state. *)
Definition zoom {I A} (get : PdState -> I) (set : I -> PdState -> PdState) (m : St (WriteBatch * I) A)
    : St (WriteBatch * PdState) A :=
  fun s => match m (s.1, get s.2) with ((b, i), r) => ((b, set i s.2), r) end.

Definition reject_to_result (reject : option RejectReason) : ApplyResult :=
  match reject with None => AR_Applied | Some r => AR_Rejected r end.

(** ** Checks across managers *)

Definition REBIND_AFFINITY : AntiAffinity := HostAware.

Definition rebind_affinity_reject (p : PdState) (chunk_id : ChunkId) (index : Z) (new_disk : DiskId)
    : option RejectReason :=
  match ChunkManager_get (ps_chunks p) chunk_id with
  | None => None
  | Some chunk =>
      match DiskManager_get (ps_disks p) new_disk with
      | None => Some RR_DiskUnavailable
      | Some target =>
          let others := omap (fun slot =>
              disk ← DiskManager_get (ps_disks p) (ss_disk_id slot);
              Some {| sd_index := ShardSlot_index slot; sd_node_id := d_node_id disk; sd_rack := d_rack disk |})
            (filter (fun slot => ShardSlot_index slot <> index) (c_shards chunk)) in
          let candidate := {| dc_disk_id := new_disk; dc_node_id := d_node_id target;
                              dc_rack := d_rack target; dc_writable_extents := 0 |} in
          if rebind_preserves_affinity others candidate REBIND_AFFINITY then None
          else Some RR_AffinityViolation
      end
  end.

Fixpoint plan_disks_reject (p : PdState) (slots : list SlotPlan) : option RejectReason :=
  match slots with
  | [] => None
  | slot :: slots =>
      match DiskManager_get (ps_disks p) (sp_disk_id slot) with
      | Some disk => if decide (d_status disk = DS_Normal) then plan_disks_reject p slots
                     else Some RR_DiskUnavailable
      | None => Some RR_DiskUnavailable
      end
  end.
Definition chunk_plan_reject (p : PdState) (cmd : CreateChunkStaging) : option RejectReason :=
  match validate_slots (cc_code_mode cmd) (cc_slots cmd) with
  | Some reason => Some reason
  | None => plan_disks_reject p (cc_slots cmd)
  end.

(** Every peer of a partition must be a registered node with the META role. *)
Fixpoint peers_reject (p : PdState) (peers : list NodeId) : option RejectReason :=
  match peers with
  | [] => None
  | peer :: peers =>
      match NodeManager_get (ps_nodes p) peer with
      | None => Some RR_NodeNotFound
      | Some node => if negb (RoleSet_contains (n_roles node) RoleSet_META) then Some RR_NodeNotFound
                     else peers_reject p peers
      end
  end.

(** ** Snapshots (raft/state_machine.rs) *)

Record PdSnapshotData (LogId Membership : Set) : Set := {
  sn_last_applied : option LogId; sn_last_membership : Membership;
  sn_nodes : list Node; sn_next_node_id : Z; sn_disks : list PdDisk; sn_next_disk_id : Z;
  sn_chunks : list Chunk; sn_next_chunk_id : Z; sn_staging_chunks : list StagingChunk;
  sn_writers : list WriterRecord; sn_next_writer_id : Z;
  sn_partitions : list MetaPartition; sn_next_partition_id : Z; sn_next_partition_ino_tag : Z;
  sn_jobs : list Job; sn_next_job_id : Z; sn_shard_repairs : list ShardRepairTicket
}.
Arguments sn_last_applied {_ _}. Arguments sn_last_membership {_ _}. Arguments sn_nodes {_ _}.
Arguments sn_next_node_id {_ _}. Arguments sn_disks {_ _}. Arguments sn_next_disk_id {_ _}.
Arguments sn_chunks {_ _}. Arguments sn_next_chunk_id {_ _}. Arguments sn_staging_chunks {_ _}.
Arguments sn_writers {_ _}. Arguments sn_next_writer_id {_ _}. Arguments sn_partitions {_ _}.
Arguments sn_next_partition_id {_ _}. Arguments sn_next_partition_ino_tag {_ _}. Arguments sn_jobs {_ _}.
Arguments sn_next_job_id {_ _}. Arguments sn_shard_repairs {_ _}.

Record SnapshotMeta (LogId Membership : Set) : Set := {
  sm_last_log_id : option LogId; sm_last_membership : Membership; sm_snapshot_id : string
}.
Arguments sm_last_log_id {_ _}. Arguments sm_last_membership {_ _}. Arguments sm_snapshot_id {_ _}.

(** What the state machine uses of the consensus library and of serialization. *)
Class PdSerde (LogId Membership : Set) := {
  log_index : LogId -> Z;
  membership_default : Membership;
  #[global] serde_log_id :: Serde LogId;
  #[global] serde_membership :: Serde Membership;
  #[global] serde_node :: Serde Node;
  #[global] serde_disk :: Serde PdDisk;
  #[global] serde_chunk :: Serde Chunk;
  #[global] serde_staging :: Serde StagingChunk;
  #[global] serde_writer :: Serde WriterRecord;
  #[global] serde_bucket :: Serde BucketMeta;
  #[global] serde_partition :: Serde MetaPartition;
  #[global] serde_credential :: Serde Credential;
  #[global] serde_job :: Serde Job;
  #[global] serde_ticket :: Serde ShardRepairTicket;
  #[global] serde_snapshot :: Serde (PdSnapshotData LogId Membership);
  #[global] serde_stored :: Serde (SnapshotMeta LogId Membership * list Z)
}.

(** ** Dispatch *)

Section StateMachine.
Context {RDB : RocksDb no_merge} {LogId Membership : Set} `{!PdSerde LogId Membership}.

Definition reject_result (r : option RejectReason) : St (WriteBatch * PdState) ApplyResult :=
  sret (reject_to_result r).

Definition apply_command (db : SmDb) (cmd : PdEntry) : St (WriteBatch * PdState) ApplyResult :=
  match cmd with
  | PE_Noop => sret AR_Applied
  | PE_RegisterNode cmd =>
      node_id <== zoom ps_nodes set_nodes (NodeManager_apply_register db cmd) ;;
      sret (AR_NodeRegistered node_id)
  | PE_UpdateNodeStatus cmd =>
      r <== zoom ps_nodes set_nodes (NodeManager_apply_update_status db cmd) ;; reject_result r
  | PE_RemoveNode cmd =>
      r <== zoom ps_nodes set_nodes (NodeManager_apply_remove db cmd) ;; reject_result r
  | PE_RegisterDisk cmd =>
      p <== sgets snd ;;
      if negb (NodeManager_contains (ps_nodes p) (rd_node_id cmd)) then sret (AR_Rejected RR_NodeNotFound)
      else
        disk_id <== zoom ps_disks set_disks (DiskManager_apply_register db cmd) ;;
        sret (AR_DiskRegistered disk_id)
  | PE_UpdateDiskStatus cmd =>
      r <== zoom ps_disks set_disks (DiskManager_apply_update_status db cmd) ;; reject_result r
  | PE_CreateChunkStaging cmd =>
      p <== sgets snd ;;
      match chunk_plan_reject p cmd with
      | Some reason => sret (AR_Rejected reason)
      | None =>
          chunk_id <== zoom ps_chunks set_chunks (ChunkManager_apply_create_staging db cmd) ;;
          sret (AR_ChunkStaged chunk_id)
      end
  | PE_CommitChunk cmd =>
      r <== zoom ps_chunks set_chunks (ChunkManager_apply_commit db cmd) ;; reject_result r
  | PE_RebumpStaging cmd =>
      r <== zoom ps_chunks set_chunks (ChunkManager_apply_rebump db cmd) ;; reject_result r
  | PE_SealChunk cmd =>
      r <== zoom ps_chunks set_chunks (ChunkManager_apply_seal_chunk db cmd) ;; reject_result r
  | PE_CreateBucket cmd =>
      bucket_id <== zoom ps_buckets set_buckets (BucketManager_apply_create db cmd) ;;
      sret (AR_BucketCreated bucket_id)
  | PE_CreatePartition cmd =>
      p <== sgets snd ;;
      match peers_reject p (cp_peers cmd) with
      | Some reason => sret (AR_Rejected reason)
      | None =>
          partition_id <== zoom ps_partitions set_partitions (PartitionManager_apply_create db cmd) ;;
          sret (AR_PartitionCreated partition_id)
      end
  | PE_SplitPartition cmd =>
      r <== zoom ps_partitions set_partitions (PartitionManager_apply_split db cmd) ;;
      sret match r with
           | Some (child_id, child_ino_tag) => AR_PartitionSplit child_id child_ino_tag
           | None => AR_Rejected RR_NotFound
           end
  | PE_MigratePartition cmd =>
      r <== zoom ps_partitions set_partitions (PartitionManager_apply_migrate db cmd) ;;
      sret match r with Some peers => AR_PartitionMigrated peers | None => AR_Rejected RR_NotFound end
  | PE_PutConfig cmd =>
      _u <== zoom ps_configs set_configs (ConfigManager_apply_put db cmd) ;; sret AR_Applied
  | PE_PutCredential cmd =>
      _u <== zoom ps_credentials set_credentials (CredentialManager_apply_put db cmd) ;; sret AR_Applied
  | PE_DeleteConfig cmd =>
      _u <== zoom ps_configs set_configs (ConfigManager_apply_delete db cmd) ;; sret AR_Applied
  | PE_RegisterWriter cmd =>
      p <== sgets snd ;;
      if negb (NodeManager_contains (ps_nodes p) (rw_node_id cmd)) then sret (AR_Rejected RR_NodeNotFound)
      else
        token <== zoom ps_writers set_writers (WriterManager_apply_register db cmd) ;;
        sret (AR_WriterRegistered token)
  | PE_MarkWriterDead cmd =>
      r <== zoom ps_writers set_writers (WriterManager_apply_mark_dead db cmd) ;; reject_result r
  | PE_Job cmd =>
      r <== zoom ps_jobs set_jobs (JobManager_apply db cmd) ;;
      sret match r with
           | JO_Created job_id => AR_JobCreated job_id
           | JO_Applied => AR_Applied
           | JO_Rejected reason => AR_Rejected reason
           end
  | PE_CommitShardMapping cmd =>
      p <== sgets snd ;;
      match job_authorize_commit (JobManager_get (ps_jobs p) (csm_job_id cmd)) (csm_committer cmd) 0 0 with
      | Err _ => sret (AR_Rejected RR_NotFound)
      | Ok _ =>
          match rebind_affinity_reject p (csm_chunk_id cmd) (csm_index cmd) (csm_new_disk cmd) with
          | Some reason => sret (AR_Rejected reason)
          | None =>
              r <== zoom ps_chunks set_chunks (ChunkManager_apply_commit_shard_mapping db cmd) ;;
              sret match r with
                   | None => AR_ShardRebound (csm_expected_epoch cmd + 1)
                   | Some reason => AR_Rejected reason
                   end
          end
      end
  | PE_ReportShardRepair cmd =>
      p <== sgets snd ;;
      match ChunkManager_get (ps_chunks p) (rsr_chunk_id cmd) with
      | None => sret (AR_Rejected RR_NotFound)
      | Some chunk =>
          match find_slot (rsr_index cmd) (c_shards chunk) with
          | None => sret (AR_Rejected RR_NotFound)
          | Some slot =>
              match DiskManager_get (ps_disks p) (ss_disk_id slot) with
              | None => sret (AR_Rejected RR_NotFound)
              | Some disk =>
                  let ticket := ticket_from_slot (rsr_chunk_id cmd) slot (d_node_id disk) in
                  r <== zoom ps_shard_repairs set_shard_repairs (Registry_apply_report db ticket) ;;
                  sret (AR_ShardRepairReported (bool_decide (r = RO_Created)))
              end
          end
      end
  | PE_CommitShardRepair cmd =>
      let prefix := shard_prefix (csr_chunk_id cmd) (csr_index cmd) in
      p <== sgets snd ;;
      match ticket_authorize_commit (ps_shard_repairs p !! prefix) (csr_committer cmd)
              (csr_expected_epoch cmd) with
      | Err _ => sret (AR_Rejected RR_NotFound)
      | Ok _ =>
          match rebind_affinity_reject p (csr_chunk_id cmd) (csr_index cmd) (csr_new_disk cmd) with
          | Some reason => sret (AR_Rejected reason)
          | None =>
              r <== zoom ps_chunks set_chunks
                      (ChunkManager_apply_rebind db (csr_chunk_id cmd) (csr_index cmd) (csr_expected_epoch cmd)
                         (csr_new_disk cmd) (csr_new_create_ts cmd)) ;;
              match r with
              | Some reason => sret (AR_Rejected reason)
              | None =>
                  _u <== zoom ps_shard_repairs set_shard_repairs (Registry_apply_clear db prefix) ;;
                  sret (AR_ShardRebound (csr_expected_epoch cmd + 1))
              end
          end
      end
  end.

(** ** The raft state machine *)

Definition META_CF : string := "meta".
Definition APPLIED_KEY : list Z := [97; 112; 112; 108; 105; 101; 100].
Definition MEMBERSHIP_KEY : list Z := [109; 101; 109; 98; 101; 114; 115; 104; 105; 112].
Definition SNAPSHOT_KEY : list Z := [115; 110; 97; 112; 115; 104; 111; 116].

Definition PdState_open (db : SmDb) : result SmError PdState :=
  nodes <-? NodeManager_restore db ;;
  disks <-? DiskManager_restore db ;;
  chunks <-? ChunkManager_restore db ;;
  writers <-? WriterManager_restore db ;;
  buckets <-? BucketManager_restore db ;;
  configs <-? ConfigManager_restore db ;;
  partitions <-? PartitionManager_restore db ;;
  credentials <-? CredentialManager_restore db ;;
  jobs <-? JobManager_restore db ;;
  shard_repairs <-? Registry_restore db ;;
  Ok {| ps_nodes := nodes; ps_disks := disks; ps_chunks := chunks; ps_writers := writers;
        ps_buckets := buckets; ps_configs := configs; ps_partitions := partitions;
        ps_credentials := credentials; ps_jobs := jobs; ps_shard_repairs := shard_repairs |}.

Inductive EntryPayload : Set :=
| Blank
| Normal (cmd : PdEntry)
| MembershipChange (stored : Membership).
Record LogEntry : Set := { le_log_id : LogId; le_payload : EntryPayload }.

Definition apply_entry (db : SmDb) (e : LogEntry) : St (WriteBatch * PdState) ApplyResult :=
  match le_payload e with
  | Blank => sret AR_Applied
  | Normal cmd => apply_command db cmd
  | MembershipChange stored =>
      _cf <== slift (open_cf db META_CF) ;;
      _u <== smodify (fun s => (put_cf s.1 META_CF MEMBERSHIP_KEY (to_vec stored), s.2)) ;;
      sret AR_Applied
  end.
Fixpoint apply_entries (db : SmDb) (entries : list LogEntry) : St (WriteBatch * PdState) (list ApplyResult) :=
  match entries with
  | [] => sret []
  | e :: entries =>
      r <== apply_entry db e ;;
      rs <== apply_entries db entries ;;
      sret (r :: rs)
  end.
(** One raft batch: every entry is applied to the caches and staged; then the
    batch is flushed once. An error leaves the database as it was. *)
Definition PdStateMachine_apply (s : SmDb * PdState) (entries : list LogEntry)
    : (SmDb * PdState) * result SmError (list ApplyResult) :=
  let '(db, st) := s in
  match last entries with
  | None => (s, Ok [])
  | Some e =>
      match apply_entries db entries ([], st) with
      | ((batch, st), Err err) => ((db, st), Err err)
      | ((batch, st), Ok results) =>
          match open_cf db META_CF with
          | Err err => ((db, st), Err err)
          | Ok _ => ((write_opt db (put_cf batch META_CF APPLIED_KEY (to_vec (le_log_id e))), st), Ok results)
          end
      end
  end.

Definition read_key `{Serde A} (db : SmDb) (k : list Z) : result SmError (option A) :=
  cf <-? open_cf db META_CF ;;
  match rdb_get cf k with
  | Some bytes => a <-? ok_or (from_slice bytes) SmRead ;; Ok (Some a)
  | None => Ok None
  end.
Definition read_applied (db : SmDb) : result SmError (option LogId) := read_key db APPLIED_KEY.
Definition read_membership (db : SmDb) : result SmError Membership :=
  m <-? read_key db MEMBERSHIP_KEY ;; Ok (default membership_default m).

Definition snapshot_data (last_applied : option LogId) (last_membership : Membership) (p : PdState)
    : PdSnapshotData LogId Membership :=
  let '(nodes, next_node_id) := NodeManager_snapshot_view (ps_nodes p) in
  let '(disks, next_disk_id) := DiskManager_snapshot_view (ps_disks p) in
  let '(chunks, next_chunk_id, staging) := ChunkManager_snapshot_view (ps_chunks p) in
  let '(writers, next_writer_id) := WriterManager_snapshot_view (ps_writers p) in
  let '(partitions, next_partition_id, next_tag) := PartitionManager_snapshot_view (ps_partitions p) in
  let '(jobs, next_job_id) := JobManager_snapshot_view (ps_jobs p) in
  {| sn_last_applied := last_applied; sn_last_membership := last_membership;
     sn_nodes := nodes; sn_next_node_id := next_node_id; sn_disks := disks; sn_next_disk_id := next_disk_id;
     sn_chunks := chunks; sn_next_chunk_id := next_chunk_id; sn_staging_chunks := staging;
     sn_writers := writers; sn_next_writer_id := next_writer_id;
     sn_partitions := partitions; sn_next_partition_id := next_partition_id;
     sn_next_partition_ino_tag := next_tag; sn_jobs := jobs; sn_next_job_id := next_job_id;
     sn_shard_repairs := Registry_snapshot_view (ps_shard_repairs p) |}.

(** Returns the database with the snapshot stored, its metadata and its bytes. *)
Definition build_snapshot (s : SmDb * PdState) (snapshot_index : Z)
    : result SmError (SmDb * (SnapshotMeta LogId Membership * list Z)) :=
  let '(db, p) := s in
  last_applied <-? read_applied db ;;
  last_membership <-? read_membership db ;;
  let bytes := to_vec (snapshot_data last_applied last_membership p) in
  let snapshot_id := ("pd-snapshot-" +:+ pretty (default 0 (log_index <$> last_applied)) +:+ "-"
                        +:+ pretty snapshot_index)%string in
  let meta := {| sm_last_log_id := last_applied; sm_last_membership := last_membership;
                 sm_snapshot_id := snapshot_id |} in
  _cf <-? open_cf db META_CF ;;
  Ok (write_opt db [(META_CF, WPut SNAPSHOT_KEY (to_vec (meta, bytes)))], (meta, bytes)).

Definition load_current_snapshot (db : SmDb) : result SmError (option (SnapshotMeta LogId Membership * list Z)) :=
  read_key db SNAPSHOT_KEY.

(** The managers replace their tables and caches, one after the other. *)
Definition install_data (db : SmDb) (data : PdSnapshotData LogId Membership) : St (WriteBatch * PdState) unit :=
  _u <== zoom ps_nodes set_nodes
           (NodeManager_stage_and_apply_snapshot db (sn_nodes data) (sn_next_node_id data)) ;;
  _u <== zoom ps_disks set_disks
           (DiskManager_stage_and_apply_snapshot db (sn_disks data) (sn_next_disk_id data)) ;;
  _u <== zoom ps_chunks set_chunks
           (ChunkManager_stage_and_apply_snapshot db (sn_chunks data) (sn_next_chunk_id data)
              (sn_staging_chunks data)) ;;
  _u <== zoom ps_writers set_writers
           (WriterManager_stage_and_apply_snapshot db (sn_writers data) (sn_next_writer_id data)) ;;
  _u <== zoom ps_partitions set_partitions
           (PartitionManager_stage_and_apply_snapshot db (sn_partitions data) (sn_next_partition_id data)
              (sn_next_partition_ino_tag data)) ;;
  _u <== zoom ps_jobs set_jobs
           (JobManager_stage_and_apply_snapshot db (sn_jobs data) (sn_next_job_id data)) ;;
  zoom ps_shard_repairs set_shard_repairs (Registry_stage_and_apply_snapshot db (sn_shard_repairs data)).

Definition install_snapshot_bytes (s : SmDb * PdState) (meta : SnapshotMeta LogId Membership) (bytes : list Z)
    : (SmDb * PdState) * result SmError unit :=
  let '(db, p) := s in
  match from_slice (A := PdSnapshotData LogId Membership) bytes with
  | None => (s, Err SmRead)
  | Some data =>
      match open_cf db META_CF with
      | Err err => (s, Err err)
      | Ok _ =>
          let batch := match sn_last_applied data with
                       | Some log_id => put_cf [] META_CF APPLIED_KEY (to_vec log_id)
                       | None => delete_cf [] META_CF APPLIED_KEY
                       end in
          let batch := put_cf batch META_CF MEMBERSHIP_KEY (to_vec (sn_last_membership data)) in
          match install_data db data (batch, p) with
          | ((batch, p), Err err) => ((db, p), Err err)
          | ((batch, p), Ok _) =>
              ((write_opt db (put_cf batch META_CF SNAPSHOT_KEY (to_vec (meta, bytes))), p), Ok tt)
          end
      end
  end.
End StateMachine.
