(* ===== verification/PdInv.v ===== *)
(** The invariant of the placement driver's state machine: every column family
    will hold, once the staged batch is flushed, exactly what the cache of its
    manager holds; and each manager's own invariant. Every command preserves it;
    a restart restores an equivalent state. *)

From S2P Require Import Prelude Ids Rocks PdDb PdCluster PdChunk PdChunkInv PdJob PdMeta PdMetaInv PdState.

Definition families : list string :=
  [META_CF; NODE_CF; DISK_CF; CHUNK_CF; STAGING_CF; WRITER_CF; BUCKET_CF; CONFIG_CF; META_PARTITION_CF;
   CRED_CF; JOB_CF; SHARD_REPAIR_CF].

#[export] Hint Extern 1 (_ ∉ _) => apply (bool_decide_unpack _); vm_compute; exact I : pd.
#[export] Hint Extern 1 (_ ∈ families) => apply (bool_decide_unpack _); vm_compute; exact I : pd.

(** The integer ranges and the UTF-8 validity that the types of the source ensure. *)
Definition entry_wf (cmd : PdEntry) : Prop :=
  match cmd with
  | PE_CreateChunkStaging cmd => create_wf cmd
  | PE_PutConfig cmd => str_ok (pc_key cmd)
  | PE_DeleteConfig cmd => str_ok (dcf_key cmd)
  | PE_PutCredential cmd => str_ok (pcr_access_key cmd)
  | PE_CommitShardMapping cmd => is_u8 (csm_index cmd) /\ is_i64 (csm_new_create_ts cmd)
  | PE_ReportShardRepair cmd => is_u8 (rsr_index cmd)
  | PE_CommitShardRepair cmd =>
      is_u32 (csr_chunk_id cmd) /\ is_u8 (csr_index cmd) /\ is_i64 (csr_new_create_ts cmd)
  | _ => True
  end.

(** States that answer every read and command alike. *)
Record pd_equiv (p p' : PdState) : Prop := {
  pe_nodes : ps_nodes p = ps_nodes p'; pe_disks : ps_disks p = ps_disks p';
  pe_chunks : chunk_equiv (ps_chunks p) (ps_chunks p'); pe_writers : ps_writers p = ps_writers p';
  pe_buckets : ps_buckets p = ps_buckets p'; pe_configs : ps_configs p = ps_configs p';
  pe_partitions : ps_partitions p = ps_partitions p'; pe_credentials : ps_credentials p = ps_credentials p';
  pe_jobs : ps_jobs p = ps_jobs p'; pe_tickets : ps_shard_repairs p = ps_shard_repairs p'
}.
#[export] Instance pd_equiv_equivalence : Equivalence pd_equiv.
Proof.
  split.
  - intros p. by split.
  - intros p q []. split; by symmetry.
  - intros p q r [] []. split; by etrans.
Qed.

(** Ids a command hands out come from its manager's counter, and counters grow. *)
Record counters_grow (p p' : PdState) : Prop := {
  cg_writers : wi_next_id (ps_writers p) <= wi_next_id (ps_writers p');
  cg_jobs : ji_next_id (ps_jobs p) <= ji_next_id (ps_jobs p');
  cg_chunks : ci_next_id (ps_chunks p) <= ci_next_id (ps_chunks p');
  cg_buckets : bx_next_id (ps_buckets p) <= bx_next_id (ps_buckets p') <= bx_next_id (ps_buckets p) + 1
}.
Definition issued (p p' : PdState) (r : ApplyResult) : Prop :=
  match r with
  | AR_WriterRegistered t => t = wi_next_id (ps_writers p) /\ wi_next_id (ps_writers p') = t + 1
  | AR_JobCreated t => t = ji_next_id (ps_jobs p) /\ ji_next_id (ps_jobs p') = t + 1
  | AR_ChunkStaged t => t = ci_next_id (ps_chunks p) /\ ci_next_id (ps_chunks p') = t + 1
  | _ => True
  end.

Section PdInv.
Context {RDB : RocksDb no_merge} {LogId Membership : Set} `{!PdSerde LogId Membership}.
Implicit Types (db : SmDb) (b : WriteBatch).

Definition db_open db : Prop := forall cf, cf ∈ families -> is_Some (db !! cf).

Record pd_ok db b (p : PdState) : Prop := {
  pd_nodes : node_ok db b (ps_nodes p);
  pd_disks : disk_ok db b (ps_disks p);
  pd_chunks : chunk_ok db b (ps_chunks p);
  pd_writers : writer_ok db b (ps_writers p);
  pd_buckets : bucket_ok db b (ps_buckets p);
  pd_configs : config_ok db b (ps_configs p);
  pd_partitions : partition_ok db b (ps_partitions p);
  pd_credentials : cred_ok db b (ps_credentials p);
  pd_jobs : job_ok db b (ps_jobs p);
  pd_tickets : ticket_ok db b (ps_shard_repairs p)
}.

Lemma writer_ok_touches db cfs b b' i : touches cfs b b' -> WRITER_CF ∉ cfs ->
  writer_ok db b i -> writer_ok db b' i.
Proof. intros Ht Hcf. unfold writer_ok. by rewrite (pending_touches _ _ _ _ _ Ht Hcf). Qed.
Lemma job_ok_touches db cfs b b' i : touches cfs b b' -> JOB_CF ∉ cfs -> job_ok db b i -> job_ok db b' i.
Proof. intros Ht Hcf. unfold job_ok. by rewrite (pending_touches _ _ _ _ _ Ht Hcf). Qed.
Lemma config_ok_touches db cfs b b' i : touches cfs b b' -> CONFIG_CF ∉ cfs ->
  config_ok db b i -> config_ok db b' i.
Proof. intros Ht Hcf. unfold config_ok. by rewrite (pending_touches _ _ _ _ _ Ht Hcf). Qed.
Lemma cred_ok_touches db cfs b b' i : touches cfs b b' -> CRED_CF ∉ cfs -> cred_ok db b i -> cred_ok db b' i.
Proof. intros Ht Hcf. unfold cred_ok. by rewrite (pending_touches _ _ _ _ _ Ht Hcf). Qed.
Lemma bucket_ok_touches db cfs b b' i : touches cfs b b' -> BUCKET_CF ∉ cfs ->
  bucket_ok db b i -> bucket_ok db b' i.
Proof. intros Ht Hcf [Hr ?]. split; [|done]. by rewrite (pending_touches _ _ _ _ _ Ht Hcf). Qed.
Lemma partition_ok_touches db cfs b b' i : touches cfs b b' -> META_PARTITION_CF ∉ cfs ->
  partition_ok db b i -> partition_ok db b' i.
Proof. intros Ht Hcf [Hr ?]. split; [|done]. by rewrite (pending_touches _ _ _ _ _ Ht Hcf). Qed.
Lemma ticket_ok_touches db cfs b b' i : touches cfs b b' -> SHARD_REPAIR_CF ∉ cfs ->
  ticket_ok db b i -> ticket_ok db b' i.
Proof. intros Ht Hcf [Hr ?]. split; [|done]. by rewrite (pending_touches _ _ _ _ _ Ht Hcf). Qed.

#[local] Hint Resolve node_ok_touches disk_ok_touches chunk_ok_touches writer_ok_touches job_ok_touches
  config_ok_touches cred_ok_touches bucket_ok_touches partition_ok_touches ticket_ok_touches : pd.

Lemma pd_ok_touches db cfs b b' p : touches cfs b b' -> (forall cf, cf ∈ cfs -> cf = META_CF) ->
  pd_ok db b p -> pd_ok db b' p.
Proof.
  intros Ht Hcfs []. assert (forall cf, cf <> META_CF -> cf ∉ cfs) as Hn by (intros cf Hne Hin; auto).
  split; eauto with pd; eapply node_ok_touches || eapply disk_ok_touches || eapply chunk_ok_touches
    || eapply writer_ok_touches || eapply job_ok_touches || eapply config_ok_touches || eapply cred_ok_touches
    || eapply bucket_ok_touches || eapply partition_ok_touches || eapply ticket_ok_touches; eauto; by apply Hn.
Qed.

Lemma counters_refl p : counters_grow p p.
Proof. split; lia. Qed.

Lemma issued_reject p p' r : issued p p' (reject_to_result r).
Proof. by destruct r. Qed.

(** Closes the goals of a command that changed one manager: the other managers'
    families were not touched. *)
Ltac pd_done :=
  split_and!; [split; simpl; eauto with pd|split; simpl; try lia
              |simpl; first [done|apply issued_reject|lia]].

Lemma apply_command_ok db b p cmd : db_open db -> pd_ok db b p -> entry_wf cmd ->
  bx_next_id (ps_buckets p) < 2 ^ 63 ->
  exists b' p' r, apply_command db cmd (b, p) = ((b', p'), r)
    /\ match r with
       | Ok r => pd_ok db b' p' /\ counters_grow p p' /\ issued p p' r
       | Err _ => True
       end.
Proof.
  intros Hdb Hok Hwf Hbx. pose proof Hok as [].
  destruct cmd; unfold apply_command, zoom, reject_result; run_st.
  - eexists _, _, _. split; [done|]. pd_done.
  - destruct (node_register_ok db b (ps_nodes p) cmd) as (b' & i & r & -> & Ht & Hr); [auto with pd..|].
    destruct r as [id|e]; eexists _, _, _; (split; [done|]); [|done]. destruct Hr as (Hi & _). pd_done.
  - destruct (node_update_ok db b (ps_nodes p) cmd) as (b' & i & r & -> & Ht & Hi & _); [auto with pd..|].
    eexists _, _, _. split; [done|]. pd_done.
  - destruct (node_remove_ok db b (ps_nodes p) cmd) as (b' & i & r & -> & Ht & Hi & _); [auto with pd..|].
    eexists _, _, _. split; [done|]. pd_done.
  - destruct (NodeManager_contains (ps_nodes p) (rd_node_id cmd)); cbn [negb]; run_st.
    2:{ eexists _, _, _. split; [done|]. pd_done. }
    destruct (disk_register_ok db b (ps_disks p) cmd) as (b' & i & r & -> & Ht & Hr); [auto with pd..|].
    destruct r as [id|e]; eexists _, _, _; (split; [done|]); [|done]. destruct Hr as (Hi & _). pd_done.
  - destruct (disk_update_ok db b (ps_disks p) cmd) as (b' & i & r & -> & Ht & Hi & _); [auto with pd..|].
    eexists _, _, _. split; [done|]. pd_done.
  - unfold chunk_plan_reject. destruct (validate_slots (cc_code_mode cmd) (cc_slots cmd)) eqn:Hv.
    { eexists _, _, _. split; [done|]. pd_done. }
    destruct (plan_disks_reject p (cc_slots cmd)). { eexists _, _, _. split; [done|]. pd_done. }
    run_st. destruct (chunk_create_ok db b (ps_chunks p) cmd) as (b' & i & r & -> & Ht & Hr); [auto with pd..|].
    destruct r as [id|e]; eexists _, _, _; (split; [done|]); [|done]. destruct Hr as (Hi & Hid & Hn & _). pd_done.
  - destruct (chunk_commit_ok db b (ps_chunks p) cmd) as (b' & i & r & -> & Ht & Hi & Hn & _); [auto with pd..|].
    eexists _, _, _. split; [done|]. pd_done.
  - destruct (chunk_rebump_ok db b (ps_chunks p) cmd) as (b' & i & r & -> & Ht & Hr); [auto with pd..|].
    destruct r as [r|e]; eexists _, _, _; (split; [done|]); [|done]. destruct Hr as (Hi & Hn & _). pd_done.
  - destruct (chunk_seal_ok db b (ps_chunks p) cmd) as (b' & i & r & -> & Ht & Hi & Hn & _); [auto with pd..|].
    eexists _, _, _. split; [done|]. pd_done.
  - destruct (bucket_create_ok db b (ps_buckets p) cmd) as (b' & i & id & -> & Ht & Hi & Hn & _); [auto with pd..|].
    eexists _, _, _. split; [done|]. pd_done.
  - destruct (peers_reject p (cp_peers cmd)). { eexists _, _, _. split; [done|]. pd_done. }
    run_st. destruct (partition_create_ok db b (ps_partitions p) cmd) as (b' & i & r & -> & Ht & Hr); [auto with pd..|].
    destruct r as [id|e]; eexists _, _, _; (split; [done|]); [|done]. destruct Hr as (Hi & _). pd_done.
  - destruct (partition_split_ok db b (ps_partitions p) cmd) as (b' & i & r & -> & Ht & Hr); [auto with pd..|].
    destruct r as [[[child tag]|]|e]; eexists _, _, _; (split; [done|]); [| |done].
    + destruct Hr as (Hi & _). pd_done.
    + destruct Hr as (-> & -> & _). pd_done.
  - destruct (partition_migrate_ok db b (ps_partitions p) cmd) as (b' & i & r & -> & Ht & Hi & _); [auto with pd..|].
    destruct r; eexists _, _, _; (split; [done|]); pd_done.
  - destruct (config_put_ok db b (ps_configs p) cmd) as (b' & -> & Ht & Hi); [auto with pd..|].
    eexists _, _, _. split; [done|]. pd_done.
  - destruct (cred_put_ok db b (ps_credentials p) cmd) as (b' & c & -> & Ht & Hi & _); [auto with pd..|].
    eexists _, _, _. split; [done|]. pd_done.
  - destruct (config_delete_ok db b (ps_configs p) cmd) as (b' & -> & Ht & Hi); [auto with pd..|].
    eexists _, _, _. split; [done|]. pd_done.
  - destruct (NodeManager_contains (ps_nodes p) (rw_node_id cmd)); cbn [negb]; run_st.
    2:{ eexists _, _, _. split; [done|]. pd_done. }
    destruct (writer_register_ok db b (ps_writers p) cmd) as (b' & i & r & -> & Ht & Hr); [auto with pd..|].
    destruct r as [id|e]; eexists _, _, _; (split; [done|]); [|done]. destruct Hr as (Hi & Hid & Hn & _). pd_done.
  - destruct (writer_mark_dead_ok db b (ps_writers p) cmd) as (b' & i & r & -> & Ht & Hi & Hn & _); [auto with pd..|].
    eexists _, _, _. split; [done|]. pd_done.
  - destruct (job_apply_ok db b (ps_jobs p) cmd) as (b' & i & r & -> & Ht & Hr); [auto with pd..|].
    destruct r as [r|e]; eexists _, _, _; (split; [done|]); [|done]. destruct Hr as (Hi & Hr).
    destruct (job_effect cmd) as [[id f]|].
    + destruct Hr as (Hn & _ & ->). case_decide; pd_done.
    + destruct Hr as (kind & -> & -> & Hn & _). pd_done.
  - destruct Hwf as [Hu Hts].
    destruct (job_authorize_commit _ _ _ _); [|eexists _, _, _; split; [done|]; pd_done].
    destruct (rebind_affinity_reject _ _ _ _); [eexists _, _, _; split; [done|]; pd_done|].
    unfold ChunkManager_apply_commit_shard_mapping. run_st.
    edestruct (chunk_rebind_ok db b (ps_chunks p) (csm_chunk_id cmd) (csm_index cmd) (csm_expected_epoch cmd))
      as (b' & i & r & -> & Ht & Hi & Hn & _); [auto with pd..|].
    destruct r; eexists _, _, _; (split; [done|]); pd_done.
  - destruct (ChunkManager_get (ps_chunks p) (rsr_chunk_id cmd)) as [c|] eqn:Hc;
      [|eexists _, _, _; split; [done|]; pd_done].
    destruct (find_slot (rsr_index cmd) (c_shards c)) as [s|] eqn:Hs; [|eexists _, _, _; split; [done|]; pd_done].
    destruct (DiskManager_get (ps_disks p) (ss_disk_id s)) as [d|]; [|eexists _, _, _; split; [done|]; pd_done].
    apply List.find_some in Hs as [_ Hs]. apply Z.eqb_eq in Hs.
    run_st.
    destruct (ticket_report_ok db b (ps_shard_repairs p) (ticket_from_slot (rsr_chunk_id cmd) s (d_node_id d)))
      as (b' & i & r & -> & Ht & Hi & _); [auto with pd..| |].
    { unfold ticket_prefix. apply shard_prefix_u64; [exact (chunk_ok_u32 _ _ _ _ _ (pd_chunks _ _ _ Hok) Hc)|]. simpl. rewrite Hs. exact Hwf. }
    eexists _, _, _. split; [done|]. pd_done.
  - destruct Hwf as (Hc & Hu & Hts).
    destruct (ticket_authorize_commit _ _ _); [|eexists _, _, _; split; [done|]; pd_done].
    destruct (rebind_affinity_reject _ _ _ _); [eexists _, _, _; split; [done|]; pd_done|].
    run_st. edestruct (chunk_rebind_ok db b (ps_chunks p) (csr_chunk_id cmd) (csr_index cmd) (csr_expected_epoch cmd))
      as (b' & i & r & -> & Ht & Hi & Hn & _); [auto with pd..|].
    destruct r; [eexists _, _, _; split; [done|]; pd_done|]. run_st. cbn [ps_shard_repairs set_chunks].
    edestruct (ticket_clear_ok db b' (ps_shard_repairs p)) as (b'' & -> & Ht' & Hi');
      [auto with pd|eapply ticket_ok_touches; eauto with pd|by apply shard_prefix_u64|].
    eexists _, _, _. split; [done|].
    assert (touches [CHUNK_CF; STAGING_CF; SHARD_REPAIR_CF] b b'') as Ht''.
    { intros cf Hcf. rewrite Ht', Ht; [done|..]; intros Hin; apply Hcf; set_solver. }
    pd_done.
Qed.
End PdInv.
