(* ===== verification/PdRaft.v ===== *)
(** The raft state machine of the placement driver, as a whole: a batch of
    entries keeps the invariant and is durable, a restart reopens an equivalent
    state, states that are equivalent stay so, and ids are handed out once. *)

From S2P Require Import Prelude Ids Rocks PdDb PdCluster PdChunk PdChunkInv PdJob PdMeta PdMetaInv.
From S2P Require Import PdState PdInv.

Section Raft.
Context {RDB : RocksDb no_merge} {LogId Membership : Set} `{!PdSerde LogId Membership}.
Implicit Types (db : SmDb) (b : WriteBatch).

(** ** Equivalent states behave alike *)

(** Two computations that cannot tell equivalent states apart. *)
Definition st_equiv {A} (m m' : St (WriteBatch * PdState) A) : Prop :=
  forall b p p', pd_equiv p p' ->
    (m (b, p)).1.1 = (m' (b, p')).1.1 /\ (m (b, p)).2 = (m' (b, p')).2
    /\ pd_equiv (m (b, p)).1.2 (m' (b, p')).1.2.

Lemma st_equiv_ret {A} (a : A) : st_equiv (sret a) (sret a).
Proof. by intros b p p'. Qed.
Lemma st_equiv_bind {A B} (m m' : St (WriteBatch * PdState) A) (k k' : A -> St (WriteBatch * PdState) B) :
  st_equiv m m' -> (forall a, st_equiv (k a) (k' a)) -> st_equiv (sbind m k) (sbind m' k').
Proof.
  intros Hm Hk b p p' He. destruct (Hm b p p' He) as (E1 & E2 & E3). unfold sbind.
  destruct (m (b, p)) as [[b1 p1] r1], (m' (b, p')) as [[b2 p2] r2]. simpl in *. subst.
  destruct r2 as [a|e]; [|done]. by apply Hk.
Qed.
Lemma st_equiv_state {B} (k k' : PdState -> St (WriteBatch * PdState) B) :
  (forall p p', pd_equiv p p' -> st_equiv (k p) (k' p')) -> st_equiv (sbind (sgets snd) k) (sbind (sgets snd) k').
Proof. intros Hk b p p' He. unfold sbind, sgets. simpl. by apply Hk. Qed.
Lemma st_equiv_zoom {I A} (get : PdState -> I) set (m : St (WriteBatch * I) A) :
  (forall p p', pd_equiv p p' -> get p = get p') ->
  (forall i p p', pd_equiv p p' -> pd_equiv (set i p) (set i p')) ->
  st_equiv (zoom get set m) (zoom get set m).
Proof.
  intros Hg Hs b p p' He. unfold zoom. simpl. rewrite (Hg _ _ He).
  destruct (m (b, get p')) as [[b' i] r]. simpl. auto.
Qed.
Lemma st_equiv_chunks {A} (m : St (WriteBatch * ChunkIndex) A) : chunk_proper m ->
  st_equiv (zoom ps_chunks set_chunks m) (zoom ps_chunks set_chunks m).
Proof.
  intros Hm b p p' He. unfold zoom. simpl.
  destruct (Hm b (ps_chunks p) (ps_chunks p') (pe_chunks _ _ He)) as (E1 & E2 & E3).
  destruct (m (b, ps_chunks p)) as [[b1 i1] r1], (m (b, ps_chunks p')) as [[b2 i2] r2]. simpl in *. subst.
  split; [done|]. split; [done|]. destruct He. by split.
Qed.

#[local] Ltac zoom_tac := apply st_equiv_zoom; [by intros ? ? []|intros ? ? ? []; by split].

#[export] Instance set_chunks_proper : Proper (chunk_equiv ==> pd_equiv ==> pd_equiv) set_chunks.
Proof. intros i i' Hi p p' []. by split. Qed.
#[export] Instance rebind_affinity_proper :
  Proper (pd_equiv ==> eq ==> eq ==> eq ==> eq) rebind_affinity_reject.
Proof.
  intros p p' [_ Ed [Ec _ _ _] _ _ _ _ _ _ _] id ? <- i ? <- d ? <-.
  unfold rebind_affinity_reject, ChunkManager_get. by rewrite Ed, Ec.
Qed.
#[export] Instance plan_reject_proper : Proper (pd_equiv ==> eq ==> eq) chunk_plan_reject.
Proof.
  intros p p' [_ Ed _ _ _ _ _ _ _ _] cmd ? <-. unfold chunk_plan_reject.
  destruct (validate_slots _ _); [done|]. induction (cc_slots cmd) as [|s slots IH]; simpl; [done|]. by rewrite Ed, IH.
Qed.
#[export] Instance peers_reject_proper : Proper (pd_equiv ==> eq ==> eq) peers_reject.
Proof.
  intros p p' [En _ _ _ _ _ _ _ _ _] peers ? <-.
  induction peers as [|peer peers IH]; simpl; [done|]. by rewrite En, IH.
Qed.

#[local] Hint Resolve st_equiv_ret st_equiv_chunks chunk_create_proper chunk_commit_proper
  chunk_rebump_proper chunk_seal_proper chunk_rebind_proper : pd.
#[local] Hint Extern 2 (st_equiv (reject_result _) _) => apply st_equiv_ret : pd.
#[local] Hint Extern 3 (st_equiv (zoom _ _ _) _) => zoom_tac : pd.
#[local] Hint Extern 4 (st_equiv (sbind (sgets snd) _) _) => apply st_equiv_state; intros ? ? ? : pd.
#[local] Hint Extern 5 (st_equiv (sbind _ _) _) => apply st_equiv_bind; [|intros ?] : pd.

Lemma apply_command_proper db cmd : st_equiv (apply_command db cmd) (apply_command db cmd).
Proof.
  destruct cmd; unfold apply_command; auto 10 with pd.
  - apply st_equiv_state. intros p p' He. rewrite (pe_nodes _ _ He). case_match; auto with pd.
  - apply st_equiv_state. intros p p' He. rewrite He. case_match; auto with pd.
  - apply st_equiv_state. intros p p' He. rewrite He. case_match; auto with pd.
  - apply st_equiv_state. intros p p' He. rewrite (pe_nodes _ _ He). case_match; auto with pd.
  - apply st_equiv_state. intros p p' He. rewrite (pe_jobs _ _ He). case_match; [|auto with pd].
    rewrite He. case_match; auto with pd. apply st_equiv_bind; [|auto with pd].
    apply st_equiv_chunks, chunk_rebind_proper.
  - apply st_equiv_state. intros p p' He. unfold ChunkManager_get.
    rewrite (ce_chunks _ _ (pe_chunks _ _ He)), (pe_disks _ _ He). repeat case_match; auto with pd.
  - apply st_equiv_state. intros p p' He. rewrite (pe_tickets _ _ He). case_match; [|auto with pd].
    rewrite He. case_match; auto with pd. apply st_equiv_bind; [auto with pd|]. intros []; auto with pd.
Qed.

Lemma apply_entry_proper db e : st_equiv (apply_entry db e) (apply_entry db e).
Proof.
  unfold apply_entry. destruct (le_payload e); [auto with pd|apply apply_command_proper|].
  intros b p p' He. run_st. destruct (open_cf db META_CF); by simpl.
Qed.
Lemma apply_entries_proper db es : st_equiv (apply_entries db es) (apply_entries db es).
Proof.
  induction es as [|e es IH]; simpl; [auto with pd|].
  apply st_equiv_bind; [apply apply_entry_proper|]. intros r. apply st_equiv_bind; auto with pd.
Qed.

(** ** Opening the database *)

(** What holds of a replica between two batches: the caches and the flushed
    database agree. *)
Definition pd_inv (s : SmDb * PdState) : Prop := db_open s.1 /\ pd_ok s.1 [] s.2.

Lemma pd_open_ok db p : pd_inv (db, p) ->
  exists p', PdState_open db = Ok p' /\ pd_equiv p' p /\ pd_inv (db, p').
Proof.
  intros [Hdb []]. simpl in *. unfold PdState_open.
  rewrite (node_restore_ok db (ps_nodes p)), (disk_restore_ok db (ps_disks p)) by auto with pd.
  destruct (chunk_restore_ok db (ps_chunks p)) as (c & -> & Hc & Hok); [auto with pd..|].
  rewrite (writer_restore_ok db (ps_writers p)), (bucket_restore_ok db (ps_buckets p)),
    (config_restore_ok db (ps_configs p)), (partition_restore_ok db (ps_partitions p)),
    (cred_restore_ok db (ps_credentials p)), (job_restore_ok db (ps_jobs p)),
    (ticket_restore_ok db (ps_shard_repairs p)) by auto with pd.
  eexists. split; [reflexivity|]. split; [by split|]. split; [done|]. by split.
Qed.

(** A database just created: every column family is open and empty. *)
Definition fresh_db : SmDb := list_to_map ((fun cf => (cf, rdb_empty)) <$> families).
Definition PdState_new : PdState :=
  {| ps_nodes := NodeManager_new; ps_disks := DiskManager_new; ps_chunks := ChunkManager_new;
     ps_writers := WriterManager_new; ps_buckets := {| bx_buckets := ∅; bx_names := ∅; bx_next_id := 1 |};
     ps_configs := ∅; ps_partitions := {| px_partitions := ∅; px_by_start := ∅; px_next_id := 1; px_next_ino_tag := 1 |};
     ps_credentials := ∅; ps_jobs := JobManager_new; ps_shard_repairs := ∅ |}.

Lemma fresh_open cf : cf ∈ families -> fresh_db !! cf = Some rdb_empty.
Proof.
  intros Hin. apply elem_of_list_to_map_1.
  - rewrite <- list_fmap_compose, (list_fmap_ext _ id) by done. rewrite list_fmap_id.
    apply (bool_decide_unpack _). by vm_compute.
  - apply list_elem_of_fmap. eauto.
Qed.
Lemma fresh_pending cf : pending fresh_db [] cf = ∅.
Proof.
  rewrite pending_nil. destruct (fresh_db !! cf) as [d|] eqn:Hd; [|done]. simpl.
  apply elem_of_list_to_map_2, list_elem_of_fmap in Hd as (? & [= -> ->] & _).
  unfold tab. rewrite rdb_empty_cells. apply map_imap_empty.
Qed.
Lemma fresh_inv : pd_inv (fresh_db, PdState_new).
Proof.
  split; [intros cf Hin; simpl; rewrite (fresh_open cf Hin); by eexists|].
  split; simpl; try (unfold job_ok, writer_ok, config_ok, cred_ok; rewrite fresh_pending);
    try apply managed_empty; try apply table_rep_empty; split; rewrite ?fresh_pending.
  all: try apply id_rep_empty; try apply managed_empty; try apply table_rep_empty; try done.
  - split; intros *; simpl; rewrite ?lookup_empty; try done. split; [set_solver|].
    intros (? & ? & ? & E & _). by rewrite lookup_empty in E.
  - exists ∅. split; [apply table_rep_empty|by left].
  - split; simpl; [by intros * ?%lookup_empty_Some| |lia]. intros *. rewrite lookup_empty. split; [done|].
    intros (? & E & _). by rewrite lookup_empty in E.
  - exists ∅. split; [apply table_rep_empty|]. split; rewrite ?lookup_empty; try done.
    intros k. rewrite lookup_empty. by intros [].
  - split; simpl; [by intros * ?%lookup_empty_Some| |lia|done]. intros k id. rewrite lookup_empty. split; [done|].
    intros (? & E & _). by rewrite lookup_empty in E.
Qed.

(** ** Batches *)

Lemma pd_ok_pending db b db' b' p :
  (forall cf, cf ∈ families -> pending db' b' cf = pending db b cf) -> pd_ok db b p -> pd_ok db' b' p.
Proof.
  intros E [[Hn ?] [Hd ?] [Hc Hs ?] Hw [Hbk ?] Hcf [Hp ?] Hcr Hj [Ht ?]].
  unfold writer_ok, config_ok, cred_ok, job_ok in *.
  split; unfold writer_ok, config_ok, cred_ok, job_ok; rewrite ?E by auto with pd; try done.
  all: split; rewrite ?E by auto with pd; done.
Qed.
Lemma pd_flush db b p : db_open db -> pd_ok db b p -> pd_inv (write_opt db b, p).
Proof.
  intros Hdb Hok. split.
  - intros cf Hcf. apply write_opt_dom. auto.
  - apply (pd_ok_pending db b); [|done]. intros cf Hcf. destruct (Hdb cf Hcf) as [d Hd].
    simpl. rewrite pending_nil, (pending_write _ _ _ _ Hd). done.
Qed.

Definition log_wf (e : LogEntry (LogId := LogId) (Membership := Membership)) : Prop :=
  match le_payload e with Normal cmd => entry_wf cmd | _ => True end.

Lemma apply_entry_ok db b p e : db_open db -> pd_ok db b p -> log_wf e ->
  bx_next_id (ps_buckets p) < 2 ^ 63 ->
  exists b' p' r, apply_entry db e (b, p) = ((b', p'), r)
    /\ match r with
       | Ok r => pd_ok db b' p' /\ counters_grow p p' /\ issued p p' r
       | Err _ => True
       end.
Proof.
  intros Hdb Hok Hwf Hbx. unfold apply_entry, log_wf in *. destruct (le_payload e) as [|cmd|m].
  - eexists _, _, _. split; [done|]. split_and!; [done|apply counters_refl|done].
  - by apply apply_command_ok.
  - destruct (Hdb META_CF) as [d Hd]; [auto with pd|]. open_st Hd. eexists _, _, _. split; [done|].
    split_and!; [|apply counters_refl|done].
    eapply (pd_ok_touches db [META_CF]); [| |done]; [auto with pd|set_solver].
Qed.

(** The ids that answers handed out, a counter at a time. *)
Definition writer_token (r : ApplyResult) : option Z :=
  match r with AR_WriterRegistered t => Some t | _ => None end.
Definition job_id_of (r : ApplyResult) : option Z := match r with AR_JobCreated t => Some t | _ => None end.
Definition chunk_id_of (r : ApplyResult) : option Z := match r with AR_ChunkStaged t => Some t | _ => None end.

(** Ids handed out while a counter went from [lo] to [hi]: increasing, and in between. *)
Definition fresh_ids (ids : list Z) (lo hi : Z) : Prop :=
  lo <= hi /\ StronglySorted Z.lt ids /\ Forall (fun t => lo <= t < hi) ids.
Lemma fresh_ids_nil lo hi : lo <= hi -> fresh_ids [] lo hi.
Proof. intros. split; [done|]. split; constructor. Qed.
Lemma fresh_ids_app ids ids' lo mid hi : fresh_ids ids lo mid -> fresh_ids ids' mid hi ->
  fresh_ids (ids ++ ids') lo hi.
Proof.
  intros (Hle & Hs & Hf) (Hle' & Hs' & Hf'). split; [lia|]. split.
  - apply StronglySorted_app_2; [|done..]. intros x y Hx Hy. rewrite Forall_forall in Hf, Hf'.
    specialize (Hf x Hx). specialize (Hf' y Hy). lia.
  - apply Forall_app. split; (eapply Forall_impl; [done|]); simpl; lia.
Qed.
Record ids_fresh (rs : list ApplyResult) (p p' : PdState) : Prop := {
  if_writers : fresh_ids (omap writer_token rs) (wi_next_id (ps_writers p)) (wi_next_id (ps_writers p'));
  if_jobs : fresh_ids (omap job_id_of rs) (ji_next_id (ps_jobs p)) (ji_next_id (ps_jobs p'));
  if_chunks : fresh_ids (omap chunk_id_of rs) (ci_next_id (ps_chunks p)) (ci_next_id (ps_chunks p'))
}.
Lemma ids_fresh_app rs rs' p p' p'' : ids_fresh rs p p' -> ids_fresh rs' p' p'' -> ids_fresh (rs ++ rs') p p''.
Proof. intros [] []. split; rewrite omap_app; by eapply fresh_ids_app. Qed.
Lemma ids_fresh_nil p p' : wi_next_id (ps_writers p) <= wi_next_id (ps_writers p') ->
  ji_next_id (ps_jobs p) <= ji_next_id (ps_jobs p') -> ci_next_id (ps_chunks p) <= ci_next_id (ps_chunks p') ->
  ids_fresh [] p p'.
Proof. intros. split; by apply fresh_ids_nil. Qed.
Lemma ids_fresh_one r p p' : counters_grow p p' -> issued p p' r -> ids_fresh [r] p p'.
Proof.
  intros [] Hi. split; destruct r; simpl in *; try by apply fresh_ids_nil.
  all: destruct Hi as [-> ?]; split; [lia|]; split; repeat constructor; lia.
Qed.

Lemma apply_entries_ok db es : forall b p, db_open db -> pd_ok db b p -> Forall log_wf es ->
  bx_next_id (ps_buckets p) + len es <= 2 ^ 63 ->
  exists b' p' r, apply_entries db es (b, p) = ((b', p'), r)
    /\ match r with
       | Ok rs => pd_ok db b' p' /\ length rs = length es /\ ids_fresh rs p p'
       | Err _ => True
       end.
Proof.
  induction es as [|e es IH]; intros b p Hdb Hok Hwf Hbx.
  - eexists _, _, _. split; [done|]. split; [done|]. split; [done|]. by apply ids_fresh_nil.
  - apply Forall_cons in Hwf as [He Hwf]. rewrite len_cons in Hbx. simpl.
    pose proof (len_nonneg es).
    destruct (apply_entry_ok db b p e) as (b1 & p1 & r1 & Hr1 & H1); [done..|lia|].
    unfold sbind at 1. rewrite Hr1. destruct r1 as [r1|]; [|eauto 10]. destruct H1 as (Hok1 & Hg & Hi).
    destruct (IH b1 p1) as (b2 & p2 & rs & Hrs & H2); [done..|destruct Hg; lia|].
    unfold sbind. rewrite Hrs. destruct rs as [rs|]; [|eauto 10]. destruct H2 as (Hok2 & Hl & Hf).
    eexists _, _, _. split; [done|]. split; [done|]. split; [simpl; by rewrite Hl|].
    apply (ids_fresh_app [r1] rs p p1 p2); [by apply ids_fresh_one|done].
Qed.

(** ** The flushed bookkeeping *)

Lemma read_key_flushed `{Serde A} db b k v : is_Some (db !! META_CF) ->
  pending db b META_CF !! k = Some (to_vec (v : A)) -> read_key (write_opt db b) k = Ok (Some v).
Proof.
  intros [d Hd] Hk. unfold read_key, open_cf. pose proof (pending_write db b META_CF d Hd) as Hp.
  destruct (write_opt db b !! META_CF) as [d'|]; [|done]. injection Hp as Hp. simpl.
  by rewrite <- tab_get, Hp, Hk, from_to.
Qed.
Lemma read_key_flushed_None `{Serde A} db b k : is_Some (db !! META_CF) ->
  pending db b META_CF !! k = None -> read_key (A := A) (write_opt db b) k = Ok None.
Proof.
  intros [d Hd] Hk. unfold read_key, open_cf. pose proof (pending_write db b META_CF d Hd) as Hp.
  destruct (write_opt db b !! META_CF) as [d'|]; [|done]. injection Hp as Hp. simpl.
  by rewrite <- tab_get, Hp, Hk.
Qed.

Definition sm_equiv (s s' : SmDb * PdState) : Prop := s.1 = s'.1 /\ pd_equiv s.2 s'.2.

Lemma sm_apply_proper s s' es : sm_equiv s s' ->
  sm_equiv (PdStateMachine_apply s es).1 (PdStateMachine_apply s' es).1
  /\ (PdStateMachine_apply s es).2 = (PdStateMachine_apply s' es).2.
Proof.
  destruct s as [db p], s' as [db' p']. intros [E He]. simpl in *. subst db'.
  destruct (last es); [|done]. destruct (apply_entries_proper db es [] p p' He) as (E1 & E2 & E3).
  destruct (apply_entries db es ([], p)) as [[b1 p1] r1], (apply_entries db es ([], p')) as [[b2 p2] r2].
  simpl in *. subst. destruct r2; [|done]. by destruct (open_cf db META_CF).
Qed.

Lemma sm_apply_ok s es : pd_inv s -> Forall log_wf es -> bx_next_id (ps_buckets s.2) + len es <= 2 ^ 63 ->
  exists s' r, PdStateMachine_apply s es = (s', r)
    /\ match r with
       | Ok rs => pd_inv s' /\ length rs = length es /\ ids_fresh rs s.2 s'.2
           /\ read_applied s'.1 = match last es with Some e => Ok (Some (le_log_id e)) | None => read_applied s.1 end
       | Err _ => s'.1 = s.1
       end.
Proof.
  destruct s as [db p]. intros [Hdb Hok] Hwf Hbx. simpl in *. destruct (last es) as [e|] eqn:Hl.
  2:{ apply last_None in Hl as ->. eexists _, _. split; [done|]. split; [done|]. split; [done|].
      split; [by apply ids_fresh_nil|done]. }
  destruct (apply_entries_ok db es [] p Hdb Hok Hwf Hbx) as (b & p' & r & -> & Hr).
  destruct r as [rs|err]; [|by eexists _, _]. destruct Hr as (Hok' & Hlen & Hf).
  destruct (Hdb META_CF) as [d Hd]; [auto with pd|]. unfold open_cf. rewrite Hd. simpl.
  eexists _, _. split; [done|]. split.
  { apply pd_flush; [done|]. eapply (pd_ok_touches db [META_CF]); [| |done]; [auto with pd|set_solver]. }
  split; [done|]. split; [done|]. apply read_key_flushed; [by eexists|]. rewrite pending_put. by rewrite lookup_insert_eq.
Qed.

Definition is_ok {E A} (r : result E A) : bool := match r with Ok _ => true | Err _ => false end.
Lemma sm_apply_inv s es : pd_inv s -> Forall log_wf es -> bx_next_id (ps_buckets s.2) + len es <= 2 ^ 63 ->
  is_ok (PdStateMachine_apply s es).2 = true -> pd_inv (PdStateMachine_apply s es).1.
Proof.
  intros Hi Hwf Hbx Hok. destruct (sm_apply_ok s es Hi Hwf Hbx) as (s' & r & E & Hr). rewrite E in *.
  cbn [fst snd] in *. destruct r; [|done]. by destruct Hr.
Qed.

(** C9: one raft batch is atomic and durable. When it is applied, the caches
    and the flushed database agree, every entry has its answer, the last applied
    log id is that of the last entry, and a restart reopens a state that is
    equivalent to the live one: every later batch leaves the same database,
    answers alike and stays equivalent. When it fails (an id counter or an epoch
    is exhausted), nothing was flushed, and a restart gives the state before the
    batch. *)
Theorem pd_apply_durable s es :
  pd_inv s -> Forall log_wf es -> bx_next_id (ps_buckets s.2) + len es <= 2 ^ 63 ->
  exists s' r p'', PdStateMachine_apply s es = (s', r) /\ PdState_open s'.1 = Ok p''
    /\ match r with
       | Ok rs => pd_inv s' /\ length rs = length es /\ pd_equiv p'' s'.2
           /\ read_applied s'.1 = match last es with Some e => Ok (Some (le_log_id e)) | None => read_applied s.1 end
           /\ (forall es', sm_equiv (PdStateMachine_apply (s'.1, p'') es').1 (PdStateMachine_apply s' es').1
                 /\ (PdStateMachine_apply (s'.1, p'') es').2 = (PdStateMachine_apply s' es').2)
       | Err _ => s'.1 = s.1 /\ pd_equiv p'' s.2
       end.
Proof.
  intros Hinv Hwf Hbx. destruct (sm_apply_ok s es Hinv Hwf Hbx) as ([db' p'] & r & E & Hr).
  destruct r as [rs|err].
  - destruct Hr as (Hinv' & Hl & _ & Ha). destruct (pd_open_ok _ _ Hinv') as (p'' & Ho & He & _).
    exists (db', p'), (Ok rs), p''. do 2 (split; [done|]). split_and!; [done..|].
    intros es'. by apply sm_apply_proper.
  - simpl in Hr. subst db'. destruct s as [db p]. destruct (pd_open_ok _ _ Hinv) as (p'' & Ho & He & _).
    by exists (db, p'), (Err err), p''.
Qed.

(** ** The life of a replica *)

(** A batch that is applied and answered; one that fails, after which the process
    restarts from what is on disk; and a restart at any other time. *)
Inductive pd_step : SmDb * PdState -> list ApplyResult -> SmDb * PdState -> Prop :=
| step_apply s es s' rs :
    Forall log_wf es -> bx_next_id (ps_buckets s.2) + len es <= 2 ^ 63 ->
    PdStateMachine_apply s es = (s', Ok rs) -> pd_step s rs s'
| step_fail s es s' err p :
    Forall log_wf es -> bx_next_id (ps_buckets s.2) + len es <= 2 ^ 63 ->
    PdStateMachine_apply s es = (s', Err err) -> PdState_open s'.1 = Ok p -> pd_step s [] (s'.1, p)
| step_restart s p : PdState_open s.1 = Ok p -> pd_step s [] (s.1, p).
Inductive pd_run : SmDb * PdState -> list ApplyResult -> SmDb * PdState -> Prop :=
| run_nil s : pd_run s [] s
| run_step s1 rs s2 rs' s3 : pd_step s1 rs s2 -> pd_run s2 rs' s3 -> pd_run s1 (rs ++ rs') s3.

Lemma ids_fresh_equiv p p' : pd_equiv p p' -> ids_fresh [] p' p.
Proof. intros [_ _ [_ _ E _] Ew _ _ _ _ Ej _]. apply ids_fresh_nil; by rewrite ?Ew, ?Ej, ?E. Qed.
Lemma pd_step_ok s rs s' : pd_step s rs s' -> pd_inv s -> pd_inv s' /\ ids_fresh rs s.2 s'.2.
Proof.
  intros Hs Hinv. destruct Hs as [s es s' rs Hwf Hbx E|s es s' err p Hwf Hbx E Ho|[db p'] p Ho].
  - destruct (sm_apply_ok s es Hinv Hwf Hbx) as (? & ? & E' & Hr). rewrite E in E'. injection E' as <- <-.
    by destruct Hr as (? & _ & ? & _).
  - destruct (sm_apply_ok s es Hinv Hwf Hbx) as (? & ? & E' & Hr). rewrite E in E'. injection E' as <- <-.
    simpl in Hr. rewrite Hr in Ho |- *. destruct s as [db p0].
    destruct (pd_open_ok _ _ Hinv) as (p' & Ho' & He & Hi). simpl in *. rewrite Ho' in Ho. injection Ho as <-.
    split; [done|]. by apply ids_fresh_equiv.
  - destruct (pd_open_ok _ _ Hinv) as (p'' & Ho' & He & Hi). simpl in *. rewrite Ho' in Ho. injection Ho as <-.
    split; [done|]. by apply ids_fresh_equiv.
Qed.

(** C32: no id is handed out twice. Over any run of batches, failed batches and
    restarts, the writer tokens, the job ids and the chunk ids in the answers are
    strictly increasing (so distinct), and they are below the counters the
    replica ends with; and the replica's invariant holds at the end. *)
Theorem pd_ids_never_reused s rs s' : pd_run s rs s' -> pd_inv s ->
  pd_inv s'
  /\ fresh_ids (omap writer_token rs) (wi_next_id (ps_writers s.2)) (wi_next_id (ps_writers s'.2))
  /\ fresh_ids (omap job_id_of rs) (ji_next_id (ps_jobs s.2)) (ji_next_id (ps_jobs s'.2))
  /\ fresh_ids (omap chunk_id_of rs) (ci_next_id (ps_chunks s.2)) (ci_next_id (ps_chunks s'.2)).
Proof.
  intros Hr Hinv. enough (pd_inv s' /\ ids_fresh rs s.2 s'.2) as (? & []) by done.
  induction Hr as [s|s1 rs s2 rs' s3 Hs _ IH]; [split; [done|by apply ids_fresh_nil]|].
  destruct (pd_step_ok _ _ _ Hs Hinv) as [Hi Hf]. destruct (IH Hi) as [? ?].
  split; [done|]. by eapply ids_fresh_app.
Qed.
End Raft.

(** ** An instance, for concrete runs: integers for log ids and memberships *)

Definition snapshot_parts (s : PdSnapshotData Z Z) :=
  ((sn_last_applied s, sn_last_membership s, sn_next_node_id s, sn_next_disk_id s, sn_next_chunk_id s),
   (sn_next_writer_id s, sn_next_partition_id s, sn_next_partition_ino_tag s, sn_next_job_id s),
   sn_nodes s, sn_disks s, sn_chunks s, sn_staging_chunks s, sn_writers s, sn_partitions s, sn_jobs s,
   sn_shard_repairs s).
Definition snapshot_join '((la, m, nn, nd, nc), (nw, np, nt, nj), nodes, disks, chunks, staging, writers, parts, jobs, tickets)
    : PdSnapshotData Z Z :=
  {| sn_last_applied := la; sn_last_membership := m; sn_nodes := nodes; sn_next_node_id := nn;
     sn_disks := disks; sn_next_disk_id := nd; sn_chunks := chunks; sn_next_chunk_id := nc;
     sn_staging_chunks := staging; sn_writers := writers; sn_next_writer_id := nw; sn_partitions := parts;
     sn_next_partition_id := np; sn_next_partition_ino_tag := nt; sn_jobs := jobs; sn_next_job_id := nj;
     sn_shard_repairs := tickets |}.
Definition snapshot_serde : Serde (PdSnapshotData Z Z) :=
  iso_serde
    (pair_serde (pair_serde (pair_serde (pair_serde (pair_serde (pair_serde (pair_serde (pair_serde (pair_serde
      countable_serde countable_serde) (list_serde countable_serde)) (list_serde countable_serde))
      (list_serde countable_serde)) (list_serde countable_serde)) (list_serde countable_serde))
      (list_serde countable_serde)) (list_serde countable_serde)) (list_serde countable_serde))
    snapshot_parts snapshot_join (fun s => match s with Build_PdSnapshotData _ _ _ _ _ _ _ _ _ _ _ _ _ _ _ _ _ _ _ => eq_refl end).
#[export] Instance SnapshotMeta_eq_dec : EqDecision (SnapshotMeta Z Z).
Proof. solve_decision. Defined.
#[export] Instance SnapshotMeta_countable : Countable (SnapshotMeta Z Z).
Proof.
  apply (inj_countable' (fun s => (sm_last_log_id s, sm_last_membership s, sm_snapshot_id s))
    (fun '(a, b, c) => {| sm_last_log_id := a; sm_last_membership := b; sm_snapshot_id := c |})).
  by intros [].
Defined.
#[export] Instance pd_serde_Z : PdSerde Z Z :=
  {| log_index z := z; membership_default := 0; serde_snapshot := snapshot_serde;
     serde_stored := pair_serde countable_serde raw_serde |}.

Section Example.
#[local] Existing Instance cells_rocks.
Definition ex_entry (i : Z) (cmd : PdEntry) : LogEntry (LogId := Z) (Membership := Z) :=
  {| le_log_id := i; le_payload := Normal cmd |}.
Definition ex_batch : list (LogEntry (LogId := Z) (Membership := Z)) :=
  [{| le_log_id := 1; le_payload := MembershipChange 7 |};
   ex_entry 2 (PE_RegisterNode {| rn_addr := "n1:1"; rn_az := "a"; rn_rack := "r"; rn_roles := 3 |});
   ex_entry 3 (PE_RegisterWriter {| rw_node_id := 1 |});
   ex_entry 4 (PE_RegisterWriter {| rw_node_id := 9 |});
   ex_entry 5 (PE_Job (JC_Create GcRound))].
Definition ex_s0 := (fresh_db (RDB := cells_rocks no_merge), PdState_new).
Definition ex_s1 := (PdStateMachine_apply ex_s0 ex_batch).1.

Definition ex_answers : list ApplyResult :=
  [AR_Applied; AR_NodeRegistered 1; AR_WriterRegistered 1; AR_Rejected RR_NodeNotFound; AR_JobCreated 1].
Lemma ex_apply : PdStateMachine_apply ex_s0 ex_batch = (ex_s1, Ok ex_answers).
Proof.
  assert ((PdStateMachine_apply ex_s0 ex_batch).2 = Ok ex_answers) as <- by (vm_compute; reflexivity).
  apply surjective_pairing.
Qed.
Lemma ex_wf : Forall log_wf ex_batch.
Proof. repeat constructor. Qed.

Lemma ex_s1_inv : pd_inv ex_s1.
Proof. apply sm_apply_inv; [apply fresh_inv|apply ex_wf|by vm_compute|vm_compute; reflexivity]. Qed.

Lemma pd_apply_durable_witness : exists p'', PdState_open ex_s1.1 = Ok p'' /\ pd_equiv p'' ex_s1.2
  /\ read_applied ex_s1.1 = Ok (Some 5).
Proof.
  destruct (pd_apply_durable ex_s0 ex_batch) as (s' & r & p'' & E & Ho & Hr);
    [apply fresh_inv|apply ex_wf|by vm_compute|].
  rewrite ex_apply in E. injection E as <- <-. destruct Hr as (_ & _ & He & Ha & _). exists p''.
  split; [exact Ho|]. split; [exact He|exact Ha].
Defined.

(** After a restart the counters continue where they were. *)
Definition ex_restarted :=
  (ex_s1.1, match PdState_open ex_s1.1 with Ok p => p | Err _ => PdState_new end).
Definition ex_more := [ex_entry 6 (PE_RegisterWriter {| rw_node_id := 1 |}); ex_entry 7 (PE_Job (JC_Create InspectRound))].
Lemma pd_ids_never_reused_witness :
  exists s', pd_run ex_s0 (ex_answers ++ [] ++ [AR_WriterRegistered 2; AR_JobCreated 2] ++ []) s'
    /\ pd_inv s' /\ 3 <= wi_next_id (ps_writers s'.2).
Proof.
  assert (pd_run ex_s0 (ex_answers ++ [] ++ [AR_WriterRegistered 2; AR_JobCreated 2] ++ [])
            (PdStateMachine_apply ex_restarted ex_more).1) as Hr.
  { eapply run_step; [apply (step_apply _ ex_batch); [apply ex_wf|by vm_compute|apply ex_apply]|].
    eapply run_step; [apply (step_restart _ ex_restarted.2); vm_compute; reflexivity|].
    eapply run_step; [apply (step_apply _ ex_more); [repeat constructor|by vm_compute|]|apply run_nil].
    assert ((PdStateMachine_apply ex_restarted ex_more).2 = Ok [AR_WriterRegistered 2; AR_JobCreated 2]) as <-
      by (vm_compute; reflexivity). apply surjective_pairing. }
  revert Hr. generalize (PdStateMachine_apply ex_restarted ex_more).1. intros s' Hr.
  exists s'. split; [exact Hr|].
  destruct (pd_ids_never_reused _ _ _ Hr (fresh_inv)) as (Hi & (_ & _ & Hw) & _). split; [done|].
  apply Forall_cons in Hw as [_ Hw]. apply Forall_cons in Hw as [Hw _]. lia.
Defined.
End Example.
