(* ===== verification/PdSnapshot.v ===== *)
(** Snapshots of the placement driver's state machine: building one on a replica
    and installing it on another transfers the state of the managers it covers,
    durably. Buckets, configuration and credentials are not in the snapshot. *)

From S2P Require Import Prelude Ids Rocks PdDb PdCluster PdChunk PdChunkInv PdJob PdMeta PdMetaInv.
From S2P Require Import PdState PdInv PdRaft.

Section Snapshot.
Context {RDB : RocksDb no_merge} {LogId Membership : Set} `{!PdSerde LogId Membership}.
Implicit Types (db : SmDb) (b : WriteBatch).

(** The state after an install: the sender's managers, except the three the
    snapshot does not cover. *)
Definition installed (p0 p : PdState) : PdState :=
  set_credentials (ps_credentials p) (set_configs (ps_configs p) (set_buckets (ps_buckets p) p0)).

Lemma ops_nil cfs cf b : touches cfs [] b -> cf ∉ cfs -> ops_of cf b = [].
Proof. intros Ht Hcf. by rewrite (Ht cf Hcf). Qed.
Lemma touches_more cfs cfs' b b' : touches cfs [] b -> touches cfs' b b' -> touches (cfs' ++ cfs) [] b'.
Proof. intros H1 H2 cf Hcf. rewrite H2, H1; [done|..]; set_solver. Qed.
Lemma zoom_bind {I A B} (get : PdState -> I) set (m : St (WriteBatch * I) A) (k : A -> St _ B) b p b' i a :
  m (b, get p) = ((b', i), Ok a) -> sbind (zoom get set m) k (b, p) = k a (b', set i p).
Proof. intros E. unfold sbind, zoom. simpl. by rewrite E. Qed.
#[local] Hint Resolve ops_nil node_ok_touches disk_ok_touches chunk_ok_touches writer_ok_touches job_ok_touches
  config_ok_touches cred_ok_touches bucket_ok_touches partition_ok_touches ticket_ok_touches : pd.

(** Installing clears only what the committed families hold, so nothing may be
    staged before for the families it replaces. *)
Lemma install_data_ok db b p db0 b0 p0 la m : db_open db -> pd_ok db b p -> pd_ok db0 b0 p0 ->
  touches [META_CF] [] b ->
  exists b' p', install_data db (snapshot_data la m p0) (b, p) = ((b', p'), Ok tt)
    /\ pd_ok db b' p' /\ pd_equiv p' (installed p0 p) /\ ops_of META_CF b' = ops_of META_CF b.
Proof.
  intros Hdb [_ _ _ _ Hbk Hcf _ Hcr _ _] [Hn0 Hd0 Hc0 Hw0 _ _ Hp0 _ Hj0 Ht0] U0.
  destruct (node_snapshot_ok db b (ps_nodes p) db0 b0 (ps_nodes p0)) as (b1 & E1 & T1 & O1);
    [eauto with pd..|]. pose proof (touches_more _ _ _ _ U0 T1) as U1.
  destruct (disk_snapshot_ok db b1 (ps_disks p) db0 b0 (ps_disks p0)) as (b2 & E2 & T2 & O2);
    [eauto with pd..|]. pose proof (touches_more _ _ _ _ U1 T2) as U2.
  destruct (chunk_snapshot_ok db b2 (ps_chunks p) db0 b0 (ps_chunks p0)) as (b3 & c3 & E3 & T3 & EQ & O3);
    [eauto with pd..|]. pose proof (touches_more _ _ _ _ U2 T3) as U3.
  destruct (writer_snapshot_ok db b3 (ps_writers p) db0 b0 (ps_writers p0)) as (b4 & E4 & T4 & O4);
    [eauto with pd..|]. pose proof (touches_more _ _ _ _ U3 T4) as U4.
  destruct (partition_snapshot_ok db b4 (ps_partitions p) db0 b0 (ps_partitions p0)) as (b5 & E5 & T5 & O5);
    [eauto with pd..|]. pose proof (touches_more _ _ _ _ U4 T5) as U5.
  destruct (job_snapshot_ok db b5 (ps_jobs p) db0 b0 (ps_jobs p0)) as (b6 & E6 & T6 & O6);
    [eauto with pd..|]. pose proof (touches_more _ _ _ _ U5 T6) as U6.
  destruct (ticket_snapshot_ok db b6 (ps_shard_repairs p) db0 b0 (ps_shard_repairs p0)) as (b7 & E7 & T7 & O7);
    [eauto with pd..|].
  exists b7, (set_shard_repairs (ps_shard_repairs p0) (set_jobs (ps_jobs p0) (set_partitions (ps_partitions p0)
    (set_writers (ps_writers p0) (set_chunks c3 (set_disks (ps_disks p0) (set_nodes (ps_nodes p0) p))))))).
  split.
  { unfold install_data. repeat (etransitivity; [eapply zoom_bind;
      first [exact E1|exact E2|exact E3|exact E4|exact E5|exact E6]|]). unfold zoom. simpl. by rewrite E7. }
  split; [split; simpl; eauto 12 with pd|]. split; [by split|].
  by rewrite T7, T6, T5, T4, T3, T2, T1 by auto with pd.
Qed.

(** The bookkeeping an install flushes. *)
Definition install_head (data : PdSnapshotData LogId Membership) : WriteBatch :=
  put_cf match sn_last_applied data with
         | Some log_id => put_cf [] META_CF APPLIED_KEY (to_vec log_id)
         | None => delete_cf [] META_CF APPLIED_KEY
         end META_CF MEMBERSHIP_KEY (to_vec (sn_last_membership data)).
Lemma install_head_touches data : touches [META_CF] [] (install_head data).
Proof. unfold install_head. destruct (sn_last_applied data); auto with pd. Qed.
Lemma install_head_applied db data b (v : list Z) : ops_of META_CF b = ops_of META_CF (install_head data) ->
  pending db (put_cf b META_CF SNAPSHOT_KEY v) META_CF !! APPLIED_KEY = to_vec <$> sn_last_applied data
  /\ pending db (put_cf b META_CF SNAPSHOT_KEY v) META_CF !! MEMBERSHIP_KEY
       = Some (to_vec (sn_last_membership data)).
Proof.
  intros E. rewrite pending_put, !lookup_insert_ne by done.
  unfold pending. rewrite E. change (foldl table_op _ (ops_of META_CF ?b)) with (pending db b META_CF).
  unfold install_head. rewrite pending_put, lookup_insert_eq, lookup_insert_ne by done. split; [|done].
  destruct (sn_last_applied data); [by rewrite pending_put, lookup_insert_eq|].
  by rewrite pending_delete, lookup_delete_eq.
Qed.

Lemma install_ok s meta p0 db0 b0 la m : pd_inv s -> pd_ok db0 b0 p0 ->
  exists s', install_snapshot_bytes s meta (to_vec (snapshot_data la m p0)) = (s', Ok tt)
    /\ pd_inv s' /\ pd_equiv s'.2 (installed p0 s.2) /\ read_applied s'.1 = Ok la /\ read_membership s'.1 = Ok m
    /\ load_current_snapshot s'.1 = Ok (Some (meta, to_vec (snapshot_data la m p0))).
Proof.
  destruct s as [db p]. intros [Hdb Hok] Hok0. cbn [fst snd] in *. unfold install_snapshot_bytes.
  rewrite from_to. destruct (Hdb META_CF) as [d Hd]; [auto with pd|]. unfold open_cf. rewrite Hd. cbn [ok_or].
  set (data := snapshot_data la m p0). cbv zeta. fold (install_head data).
  assert (sn_last_applied data = la /\ sn_last_membership data = m) as [Ela Em] by done.
  destruct (install_data_ok db (install_head data) p db0 b0 p0 la m Hdb) as (b' & p' & E & Hok' & He & Hops);
    [|done|apply install_head_touches|].
  { eapply (pd_ok_touches db [META_CF]); [apply install_head_touches|set_solver|done]. }
  fold data in E. rewrite E. clear E.
  destruct (install_head_applied db data b' (to_vec (meta, to_vec data)) Hops) as [Ha Hm].
  eexists. split; [done|]. split.
  { apply pd_flush; [done|]. eapply (pd_ok_touches db [META_CF]); [| |done]; [auto with pd|set_solver]. }
  split; [done|]. split_and!.
  - destruct la as [l|]; [by apply read_key_flushed|by apply read_key_flushed_None].
  - unfold read_membership. simpl. by rewrite (read_key_flushed _ _ _ m).
  - apply read_key_flushed; [done|]. by rewrite pending_put, lookup_insert_eq.
Qed.

(** C26: a snapshot built on one replica and installed on another transfers the
    nodes, disks, chunks (with their staging area and reverse index), writers,
    partitions, jobs and repair tickets with their id counters; the receiver's
    caches and database agree, so that a restart keeps what was installed, and
    its applied log id, membership and stored snapshot are those of the sender.
    Buckets, configuration and credentials stay the receiver's own. *)
Theorem snapshot_transfer s0 s idx db0' meta bytes :
  pd_inv s0 -> pd_inv s -> build_snapshot s0 idx = Ok (db0', (meta, bytes)) ->
  pd_inv (db0', s0.2) /\ load_current_snapshot db0' = Ok (Some (meta, bytes))
  /\ exists s' p'', install_snapshot_bytes s meta bytes = (s', Ok tt)
       /\ pd_inv s' /\ pd_equiv s'.2 (installed s0.2 s.2)
       /\ PdState_open s'.1 = Ok p'' /\ pd_equiv p'' s'.2
       /\ read_applied s'.1 = read_applied s0.1 /\ read_membership s'.1 = read_membership s0.1
       /\ load_current_snapshot s'.1 = Ok (Some (meta, bytes)).
Proof.
  destruct s0 as [db0 p0]. intros [Hdb0 Hok0] Hs Hb. simpl in *.
  destruct (read_applied db0) as [la|]; [|done]. destruct (read_membership db0) as [m|]; [|done]. simpl in Hb.
  destruct (Hdb0 META_CF) as [d Hd]; [auto with pd|]. unfold open_cf in Hb. rewrite Hd in Hb. simpl in Hb.
  injection Hb as <- <- <-. set (meta := Build_SnapshotMeta _ _ _ _ _).
  split; [|split].
  - apply pd_flush; [done|].
    eapply (pd_ok_touches db0 [META_CF] []); [|set_solver|done].
    apply (touches_put _ _ _ _ _ _ ltac:(by left) (touches_refl _ [])).
  - apply read_key_flushed; [done|].
    change [(META_CF, WPut ?k ?v)] with (put_cf [] META_CF k v). by rewrite pending_put, lookup_insert_eq.
  - destruct (install_ok s meta p0 db0 [] la m Hs Hok0) as ([db' p'] & Ei & Hi & He & Ha & Hm & Hl).
    destruct (pd_open_ok _ _ Hi) as (p'' & Ho & He' & _). by exists (db', p'), p''.
Qed.
End Snapshot.

(** ** A concrete transfer *)

Section Example.
#[local] Existing Instance cells_rocks.
Definition ex_bucket : CreateBucket :=
  {| cb_name := "photos"; cb_ns_mode := Flat; cb_inline_threshold := None; cb_codemode_id := 1;
     cb_engine := ME_Rocks; cb_created_at := 0 |}.
Definition ex_sender := (PdStateMachine_apply ex_s1 [ex_entry 6 (PE_CreateBucket ex_bucket)]).1.
Definition ex_built := build_snapshot ex_sender 0.
Definition ex_received : (_ * PdState) * result SmError unit :=
  match ex_built with
  | Ok (_, (meta, bytes)) => install_snapshot_bytes ex_s0 meta bytes
  | Err e => (ex_s0, Err e)
  end.

Lemma ex_sender_inv : pd_inv ex_sender.
Proof. apply sm_apply_inv; [apply ex_s1_inv|repeat constructor|by vm_compute|vm_compute; reflexivity]. Qed.

Lemma snapshot_transfer_witness : exists s', ex_received = (s', Ok tt) /\ pd_inv s'
  /\ pd_equiv s'.2 (installed ex_sender.2 ex_s0.2) /\ read_applied s'.1 = read_applied ex_sender.1.
Proof.
  assert (match ex_built with Ok _ => true | Err _ => false end = true) as Hok by (vm_compute; reflexivity).
  destruct ex_built as [[db0' [meta bytes]]|] eqn:Hb; [clear Hok|discriminate Hok].
  destruct (snapshot_transfer ex_sender ex_s0 0 db0' meta bytes) as (_ & _ & s' & p'' & Ei & Hi & He & _ & _ & Ha & _);
    [apply ex_sender_inv|apply fresh_inv|exact Hb|].
  exists s'. unfold ex_received. rewrite Hb. split; [exact Ei|]. split; [exact Hi|]. split; [exact He|exact Ha].
Defined.

(** A bucket is known to the sender and not to the receiver of its snapshot,
    although the receiver reports the sender's log as applied. *)
Lemma snapshot_loses_buckets :
  is_Some (BucketManager_get_by_name (ps_buckets ex_sender.2) "photos")
  /\ ex_received.2 = Ok tt
  /\ read_applied ex_received.1.1 = Ok (Some 6)
  /\ BucketManager_get_by_name (ps_buckets ex_received.1.2) "photos" = None.
Proof. split_and!; [eexists|..]; vm_compute; reflexivity. Qed.
End Example.
