(* ===== verification/PdRebind.v ===== *)
(** Rebinding a shard to another disk, the one operation that changes where
    committed data lives: who may do it, what fences it, and what it keeps. The
    two commands (a job's [CommitShardMapping] and a ticket's
    [CommitShardRepair]) share the effect. *)

From S2P Require Import Prelude Ids Rocks PdDb PdCluster PdChunk PdChunkInv PdJob PdMeta PdMetaInv.
From S2P Require Import PdState PdInv PdRaft.

(** What a command asks to rebind. *)
Record RebindReq : Set := {
  rq_chunk : ChunkId; rq_index : Z; rq_epoch : Z; rq_disk : DiskId; rq_ts : Z
}.
Definition rebind_req (cmd : PdEntry) : option RebindReq :=
  match cmd with
  | PE_CommitShardMapping c =>
      Some {| rq_chunk := csm_chunk_id c; rq_index := csm_index c; rq_epoch := csm_expected_epoch c;
              rq_disk := csm_new_disk c; rq_ts := csm_new_create_ts c |}
  | PE_CommitShardRepair c =>
      Some {| rq_chunk := csr_chunk_id c; rq_index := csr_index c; rq_epoch := csr_expected_epoch c;
              rq_disk := csr_new_disk c; rq_ts := csr_new_create_ts c |}
  | _ => None
  end.

(** Only the coordinator of a running job, or the node a ticket names, for the
    epoch the ticket was written for. *)
Definition authorised (p : PdState) (cmd : PdEntry) : Prop :=
  match cmd with
  | PE_CommitShardMapping c => exists job, ji_jobs (ps_jobs p) !! csm_job_id c = Some job
      /\ j_state job = JS_Running /\ j_coordinator job = Some (csm_committer c)
  | PE_CommitShardRepair c => exists t,
      ps_shard_repairs p !! shard_prefix (csr_chunk_id c) (csr_index c) = Some t
      /\ t_target_node t = csr_committer c /\ t_expected_epoch t = csr_expected_epoch c
  | _ => False
  end.

(** Shards of a chunk whose disks are registered lie on different nodes. *)
Definition host_spread (p : PdState) (c : Chunk) : Prop :=
  forall n m s s' d d', c_shards c !! n = Some s -> c_shards c !! m = Some s' -> n <> m ->
    di_disks (ps_disks p) !! ss_disk_id s = Some d -> di_disks (ps_disks p) !! ss_disk_id s' = Some d' ->
    d_node_id d <> d_node_id d'.

(** What a granted rebind did: one slot of one chunk, from the expected epoch to
    the next. *)
Record rebound (p p' : PdState) (q : RebindReq) (c : Chunk) (s s' : ShardSlot) : Prop := {
  rb_chunk : ci_chunks (ps_chunks p) !! rq_chunk q = Some c;
  rb_slot : c_shards c !! Z.to_nat (rq_index q) = Some s;
  rb_fence : ss_epoch s = rq_epoch q /\ rq_epoch q < MAX_SHARD_EPOCH;
  rb_epoch : ss_epoch s' = rq_epoch q + 1;
  rb_disk : ss_disk_id s' = rq_disk q;
  rb_prefix : ss_shard_prefix s' = ss_shard_prefix s;
  rb_extent : ss_extent_id s' = ExtentId_new (ShardSlot_shard_id s + 1) (rq_ts q);
  rb_chunks : ci_chunks (ps_chunks p') = <[rq_chunk q := {| c_chunk_id := rq_chunk q;
    c_code_mode := c_code_mode c; c_status := c_status c;
    c_shards := <[Z.to_nat (rq_index q) := s']> (c_shards c) |}]> (ci_chunks (ps_chunks p));
  rb_disks : ps_disks p' = ps_disks p
}.

Section Rebind.
Context {RDB : RocksDb no_merge} {LogId Membership : Set} `{!PdSerde LogId Membership}.
Implicit Types (db : SmDb) (b : WriteBatch).

(** A slot other than the one rebound is not on the target's node. *)
Definition clear_of (p : PdState) (c : Chunk) (i : Z) (disk : DiskId) : Prop :=
  exists d, di_disks (ps_disks p) !! disk = Some d
    /\ forall n s d', c_shards c !! n = Some s -> n <> Z.to_nat i ->
         di_disks (ps_disks p) !! ss_disk_id s = Some d' -> d_node_id d' <> d_node_id d.

Lemma rebind_affinity_None db b p cid i disk c : pd_ok db b p -> is_u8 i ->
  rebind_affinity_reject p cid i disk = None -> ci_chunks (ps_chunks p) !! cid = Some c -> clear_of p c i disk.
Proof.
  intros Hok Hu Hr Hc. unfold rebind_affinity_reject, ChunkManager_get in Hr. rewrite Hc in Hr.
  unfold DiskManager_get in Hr. destruct (di_disks (ps_disks p) !! disk) as [d|] eqn:Hd; [|done].
  exists d. split; [done|]. intros n s d' Hn Hne Hd' E.
  unfold rebind_preserves_affinity in Hr. cbn [dc_node_id] in Hr.
  destruct (existsb _ _) eqn:He in Hr; [done|]. clear Hr.
  enough (exists o, List.In o (omap (fun slot => disk ← di_disks (ps_disks p) !! ss_disk_id slot;
      Some {| sd_index := ShardSlot_index slot; sd_node_id := d_node_id disk; sd_rack := d_rack disk |})
      (filter (fun slot => ShardSlot_index slot <> i) (c_shards c))) /\ (sd_node_id o =? d_node_id d) = true) as Ho
    by (apply existsb_exists in Ho; congruence).
  pose proof (pd_chunks _ _ _ Hok) as Hck. pose proof (chunk_ok_u32 _ _ _ _ _ Hck Hc) as Hcu.
  destruct (slots_ok_index _ _ _ _ _ Hcu (ck_slots _ (ck_inv _ _ _ Hck) _ _ Hc) Hn) as [_ Hi].
  eexists. rewrite <- list_elem_of_In, list_elem_of_omap. split; [exists s|].
  - rewrite list_elem_of_filter. split; [split; [unfold uint in Hu; lia|by eapply list_elem_of_lookup_2]|].
    by rewrite Hd'.
  - simpl. by apply Z.eqb_eq.
Qed.

Lemma rebound_spread p p' q c s s' c0 id : rebound p p' q c s s' -> clear_of p c (rq_index q) (rq_disk q) ->
  (forall id c, ci_chunks (ps_chunks p) !! id = Some c -> host_spread p c) ->
  ci_chunks (ps_chunks p') !! id = Some c0 -> host_spread p' c0.
Proof.
  intros [Hc Hs _ _ Hd _ _ Hcs Hds] (d0 & Hd0 & Hclear) Hall Hc0. rewrite Hcs in Hc0.
  unfold host_spread. rewrite Hds. apply lookup_insert_Some in Hc0 as [[<- <-]|[_ Hc0]]; [|by eapply Hall].
  simpl. intros n m t t' d d' Hn Hm Hne Ht Ht'.
  apply list_lookup_insert_Some in Hn as [(<- & <- & _)|[Hn' Hn]];
    apply list_lookup_insert_Some in Hm as [(<- & <- & _)|[Hm' Hm]]; [done|..].
  - rewrite Hd in Ht. simplify_eq. apply not_eq_sym. by eapply Hclear.
  - rewrite Hd in Ht'. simplify_eq. by eapply Hclear.
  - by eapply (Hall _ _ Hc n m).
Qed.

(** The shared step of the two commands, on the chunk manager. *)
Lemma rebind_step db b p q : db_open db -> pd_ok db b p -> is_u8 (rq_index q) -> is_i64 (rq_ts q) ->
  exists b' i r, ChunkManager_apply_rebind db (rq_chunk q) (rq_index q) (rq_epoch q) (rq_disk q) (rq_ts q)
      (b, ps_chunks p) = ((b', i), Ok r)
    /\ touches [CHUNK_CF; STAGING_CF] b b'
    /\ match r with
       | None => exists c s s', forall p', ps_chunks p' = i -> ps_disks p' = ps_disks p -> rebound p p' q c s s'
       | Some _ => i = ps_chunks p
       end.
Proof.
  intros Hdb Hok Hu Hts. pose proof (pd_chunks _ _ _ Hok) as Hck.
  destruct (chunk_rebind_ok db b (ps_chunks p) (rq_chunk q) (rq_index q) (rq_epoch q) (rq_disk q) (rq_ts q))
    as (b' & i & r & E & Ht & _ & _ & _ & Hsame & Hr); [auto with pd|done..|].
  eexists _, _, _. split; [exact E|]. split; [done|].
  destruct (ci_chunks (ps_chunks p) !! rq_chunk q) as [c|] eqn:Hc; simpl in Hr; [|subst r; by apply Hsame].
  destruct (c_shards c !! Z.to_nat (rq_index q)) as [s|] eqn:Hs; simpl in Hr; [|subst r; by apply Hsame].
  destruct (Z.eqb_spec (ss_epoch s) (rq_epoch q)) as [He|]; simpl in Hr; [|subst r; by apply Hsame].
  destruct (Z.ltb_spec (rq_epoch q) MAX_SHARD_EPOCH); [|subst r; by apply Hsame].
  destruct Hr as (-> & s' & H1 & H2 & H3 & H4 & H5). exists c, s, s'. intros p' <- Hd.
  by split.
Qed.

Lemma job_authorised p c : (exists u, job_authorize_commit (JobManager_get (ps_jobs p) (csm_job_id c)) (csm_committer c) 0 0 = Ok u)
  <-> authorised p (PE_CommitShardMapping c).
Proof.
  unfold job_authorize_commit, JobManager_get. simpl. split.
  - intros [u Hu]. destruct (ji_jobs (ps_jobs p) !! csm_job_id c) as [job|]; [|done]. simpl in Hu.
    exists job. repeat case_bool_decide; simpl in Hu; done.
  - intros (job & -> & Hs & Hc). exists tt. simpl. by rewrite !bool_decide_true.
Qed.
Lemma ticket_authorised p c :
  (exists u, ticket_authorize_commit (ps_shard_repairs p !! shard_prefix (csr_chunk_id c) (csr_index c))
    (csr_committer c) (csr_expected_epoch c) = Ok u) <-> authorised p (PE_CommitShardRepair c).
Proof.
  unfold ticket_authorize_commit. simpl. split.
  - intros [u Hu]. destruct (ps_shard_repairs p !! _) as [t|]; [|done]. simpl in Hu. exists t.
    destruct (Z.eqb_spec (t_target_node t) (csr_committer c)); [|done]. simpl in Hu.
    destruct (Z.eqb_spec (t_expected_epoch t) (csr_expected_epoch c)); [|done]. done.
  - intros (t & -> & <- & <-). exists tt. simpl. by rewrite !Z.eqb_refl.
Qed.

(** The outcome of a rebind command: granted, or refused with nothing changed. *)
Definition rebind_outcome (p p' : PdState) (cmd : PdEntry) (q : RebindReq) (r : ApplyResult) : Prop :=
  (r = AR_ShardRebound (rq_epoch q + 1) /\ authorised p cmd
   /\ (exists c s s', rebound p p' q c s s' /\ clear_of p c (rq_index q) (rq_disk q)))
  \/ ((exists reason, r = AR_Rejected reason) /\ p' = p).

Lemma set_chunks_same p : set_chunks (ps_chunks p) p = p.
Proof. by destruct p. Qed.

Lemma rebind_apply db b p cmd q : db_open db -> pd_ok db b p -> entry_wf cmd -> rebind_req cmd = Some q ->
  exists b' p' r, apply_command db cmd (b, p) = ((b', p'), Ok r) /\ rebind_outcome p p' cmd q r.
Proof.
  intros Hdb Hok Hwf Hq.
  assert (is_u8 (rq_index q) /\ is_i64 (rq_ts q)) as [Hu Hts].
  { destruct cmd; simpl in *; try done; injection Hq as <-; simpl; tauto. }
  destruct (rebind_step db b p q Hdb Hok Hu Hts) as (b' & i & r & E & Ht & Hr).
  destruct cmd as [| | | | | | | | | | | | | | | | | | | |cmd| |cmd]; try done; injection Hq as Hq;
    unfold apply_command, zoom, rebind_outcome; run_st.
  - pose proof (job_authorised p cmd) as Ha. destruct (job_authorize_commit _ _ _ _) as [u|];
      [|eexists _, _, _; split; [done|]; right; eauto].
    destruct (rebind_affinity_reject _ _ _ _) eqn:Hr0; [eexists _, _, _; split; [done|]; right; eauto|].
    subst q. simpl in *. unfold ChunkManager_apply_commit_shard_mapping. rewrite E. clear E.
    eexists _, _, _. split; [done|]. destruct r as [reason|].
    + right. subst i. rewrite set_chunks_same. eauto.
    + left. destruct Hr as (c & s & s' & Hr). specialize (Hr (set_chunks i p) eq_refl eq_refl).
      split; [done|]. split; [apply Ha; eauto|]. exists c, s, s'. split; [done|].
      eapply rebind_affinity_None; [done..|apply Hr].
  - pose proof (ticket_authorised p cmd) as Ha. destruct (ticket_authorize_commit _ _ _) as [u|];
      [|eexists _, _, _; split; [done|]; right; eauto].
    destruct (rebind_affinity_reject _ _ _ _) eqn:Hr0; [eexists _, _, _; split; [done|]; right; eauto|].
    subst q. simpl in *. rewrite E. clear E. destruct r as [reason|].
    { eexists _, _, _. split; [done|]. right. subst i. rewrite set_chunks_same. eauto. }
    run_st. cbn [ps_shard_repairs set_chunks].
    destruct (ticket_clear_ok db b' (ps_shard_repairs p) (shard_prefix (csr_chunk_id cmd) (csr_index cmd)))
      as (b'' & -> & _ & _);
      [auto with pd|eapply ticket_ok_touches; [exact Ht|auto with pd|apply (pd_tickets _ _ _ Hok)]
      |destruct Hwf as (? & ? & _); by apply shard_prefix_u64|].
    eexists _, _, _. split; [done|]. left. destruct Hr as (c & s & s' & Hr).
    split; [done|]. split; [apply Ha; eauto|]. exists c, s, s'. split; [by apply Hr|].
    eapply rebind_affinity_None; [done..|]. apply (rb_chunk _ _ _ _ _ _ (Hr (set_chunks i p) eq_refl eq_refl)).
Qed.

(** C20: rebinding a shard is fenced. A job's commit or a ticket's commit either is
    refused and changes nothing, or was sent by the coordinator of a running job
    (the node a ticket names), names the slot's current epoch, and moves exactly
    that slot to the new disk under the next epoch, keeping the shard prefix;
    chunks whose shards lay on different nodes still do. Repeating a granted
    command is refused. *)
Theorem rebind_fenced db b p cmd q : db_open db -> pd_ok db b p -> entry_wf cmd -> rebind_req cmd = Some q ->
  exists b' p' r, apply_command db cmd (b, p) = ((b', p'), Ok r)
    /\ rebind_outcome p p' cmd q r
    /\ ((forall id c, ci_chunks (ps_chunks p) !! id = Some c -> host_spread p c) ->
        forall id c, ci_chunks (ps_chunks p') !! id = Some c -> host_spread p' c)
    /\ (r = AR_ShardRebound (rq_epoch q + 1) -> bx_next_id (ps_buckets p) < 2 ^ 63 ->
        exists b'' reason, apply_command db cmd (b', p') = ((b'', p'), Ok (AR_Rejected reason))).
Proof.
  intros Hdb Hok Hwf Hq. destruct (rebind_apply db b p cmd q Hdb Hok Hwf Hq) as (b' & p' & r & E & Ho).
  eexists _, _, _. split; [done|]. split; [done|]. split.
  - intros Hall id c Hc. destruct Ho as [(_ & _ & c0 & s & s' & Hr & Hcl)|[_ ->]]; [|by eapply Hall].
    by eapply rebound_spread.
  - intros -> Hbx. destruct (apply_command_ok db b p cmd Hdb Hok Hwf Hbx) as (? & ? & ? & E' & Hok').
    rewrite E in E'. injection E' as <- <- <-. destruct Hok' as [Hok' _].
    destruct Ho as [(_ & _ & c0 & s & s' & Hr & Hcl)|[[? ?] _]]; [|done].
    destruct (rebind_apply db b' p' cmd q Hdb Hok' Hwf Hq) as (b'' & p'' & r & E'' & Ho).
    destruct Ho as [(_ & _ & c1 & t & t' & Hr' & _)|[[reason ->] ->]]; [exfalso|by eexists _, _].
    destruct Hr as [_ Hs _ He _ _ _ Hcs _], Hr' as [Hc1 Ht [Hf _] _ _ _ _ _ _].
    rewrite Hcs, lookup_insert_eq in Hc1. injection Hc1 as <-. simpl in Ht.
    rewrite list_lookup_insert_eq in Ht by (by eapply lookup_lt_Some). simplify_eq. lia.
Qed.
End Rebind.

(** ** A concrete rebind *)

Section Example.
#[local] Existing Instance cells_rocks.
Definition ex_node (a : string) : PdEntry :=
  PE_RegisterNode {| rn_addr := a; rn_az := "a"; rn_rack := a; rn_roles := 1 |}.
Definition ex_disk (n : Z) : PdEntry :=
  PE_RegisterDisk {| rd_node_id := n; rd_az := "a"; rd_rack := "r"; rd_path := "/d"; rd_total := 0 |}.
Definition ex_mode : CodeMode :=
  {| cm_id := 9; cm_data := 1; cm_parity := 1; cm_stripe_size := 4096; cm_blob_size := 4096 |}.
Definition ex_setup : list (LogEntry (LogId := Z) (Membership := Z)) :=
  [ex_entry 1 (ex_node "x"); ex_entry 2 (ex_node "y"); ex_entry 3 (ex_node "z");
   ex_entry 4 (ex_disk 1); ex_entry 5 (ex_disk 2); ex_entry 6 (ex_disk 3);
   ex_entry 7 (PE_CreateChunkStaging {| cc_code_mode := ex_mode; cc_create_ts := 5; cc_epoch := 0;
     cc_slots := [{| sp_index := 0; sp_disk_id := 1 |}; {| sp_index := 1; sp_disk_id := 2 |}] |});
   ex_entry 8 (PE_CommitChunk {| cmc_chunk_id := 1 |});
   ex_entry 9 (PE_Job (JC_Create (RepairDisk 2)));
   ex_entry 10 (PE_Job (JC_Assign 1 3 1000))].
Definition ex_ready := (PdStateMachine_apply ex_s0 ex_setup).1.
Definition ex_rebind : PdEntry := PE_CommitShardMapping
  {| csm_job_id := 1; csm_chunk_id := 1; csm_index := 1; csm_expected_epoch := 0; csm_new_disk := 3;
     csm_new_create_ts := 6; csm_committer := 3 |}.
Lemma ex_ready_inv : pd_inv ex_ready.
Proof.
  apply sm_apply_inv; [apply fresh_inv|repeat constructor; by vm_compute|by vm_compute|vm_compute; reflexivity].
Qed.

Lemma rebind_fenced_witness :
  (apply_command ex_ready.1 ex_rebind ([], ex_ready.2)).2 = Ok (AR_ShardRebound 1)
  /\ exists b' p' b'' reason, apply_command ex_ready.1 ex_rebind ([], ex_ready.2) = ((b', p'), Ok (AR_ShardRebound 1))
       /\ authorised ex_ready.2 ex_rebind
       /\ apply_command ex_ready.1 ex_rebind (b', p') = ((b'', p'), Ok (AR_Rejected reason)).
Proof.
  assert ((apply_command ex_ready.1 ex_rebind ([], ex_ready.2)).2 = Ok (AR_ShardRebound 1)) as Er
    by (vm_compute; reflexivity).
  assert (bx_next_id (ps_buckets ex_ready.2) < 2 ^ 63) as Hbx by (vm_compute; reflexivity).
  split; [exact Er|]. revert Er Hbx. destruct ex_ready_inv as [Hdb Hok]. revert Hdb Hok.
  generalize ex_ready. intros s Hdb Hok Er Hbx.
  destruct (rebind_fenced s.1 [] s.2 ex_rebind
    {| rq_chunk := 1; rq_index := 1; rq_epoch := 0; rq_disk := 3; rq_ts := 6 |} Hdb Hok)
    as (b' & p' & r & E & Ho & _ & Hagain); [done|reflexivity|].
  assert (r = AR_ShardRebound 1) as -> by (rewrite E in Er; by injection Er).
  destruct Hagain as (b'' & reason & E'); [reflexivity|exact Hbx|].
  exists b', p', b'', reason. split; [exact E|]. split; [|exact E'].
  destruct Ho as [(_ & Ha & _)|[[? ?] _]]; [exact Ha|discriminate].
Defined.
End Example.
