(* ===== verification/PdLife.v ===== *)
(** The life of a job across batches: jobs are never lost, their progress never
    goes back, and their state only goes forward as long as no assignment names
    them. *)

From S2P Require Import Prelude Ids Rocks PdDb PdCluster PdChunk PdChunkInv PdJob PdMeta PdMetaInv.
From S2P Require Import PdState PdInv PdRaft.

Definition state_rank (s : JobState) : Z :=
  match s with JS_Created => 0 | JS_Running => 1 | JS_Done => 2 end.

Section Life.
Context {RDB : RocksDb no_merge} {LogId Membership : Set} `{!PdSerde LogId Membership}.
Implicit Types (db : SmDb) (b : WriteBatch).

(** An entry that (re)assigns job [id]. *)
Definition assigns (id : Z) (e : LogEntry (LogId := LogId) (Membership := Membership)) : Prop :=
  match le_payload e with Normal (PE_Job (JC_Assign id' _ _)) => id' = id | _ => False end.

(** [j'] is a later record of the job [j]. *)
Record job_after (assigned : Prop) (j j' : Job) : Prop := {
  ja_id : j_id j' = j_id j;
  ja_kind : j_kind j' = j_kind j;
  ja_watermark : j_progress_watermark j <= j_progress_watermark j';
  ja_state : ~ assigned -> state_rank (j_state j) <= state_rank (j_state j')
}.
Lemma job_after_refl P j : job_after P j j.
Proof. by split. Qed.
Lemma job_after_trans (P Q R : Prop) j1 j2 j3 : (P -> R) -> (Q -> R) ->
  job_after P j1 j2 -> job_after Q j2 j3 -> job_after R j1 j3.
Proof. intros HP HQ [] []. split; [congruence..|lia|]. intros HR. etrans; [apply ja_state0|apply ja_state1]; tauto. Qed.

Lemma job_effect_after cmd id f j : job_effect cmd = Some (id, f) ->
  job_after (exists c l, cmd = JC_Assign id c l) j (f j).
Proof.
  destruct cmd as [kind|id' c l|id' l|id' w l|id']; intros [= <- <-]; split; simpl; try done.
  - intros Hn. destruct Hn. eauto.
  - unfold job_renew. by case_decide.
  - unfold job_renew. by case_decide.
  - unfold job_renew. by case_decide.
  - unfold job_renew. by case_decide.
  - case_match; lia.
  - intros _. by destruct (j_state j).
Qed.

(** Every other command leaves the jobs alone. *)
Lemma zoom_jobs {I A} (get : PdState -> I) set (m : St (WriteBatch * I) A) s :
  (forall i p, ps_jobs (set i p) = ps_jobs p) -> ps_jobs (zoom get set m s).1.2 = ps_jobs s.2.
Proof. intros Hs. unfold zoom. destruct (m (s.1, get s.2)) as [[b i] r]. apply Hs. Qed.
Lemma bind_jobs {A B} (m : St (WriteBatch * PdState) A) (k : A -> St (WriteBatch * PdState) B) s :
  ps_jobs (m s).1.2 = ps_jobs s.2 -> (forall a s, ps_jobs (k a s).1.2 = ps_jobs s.2) ->
  ps_jobs (sbind m k s).1.2 = ps_jobs s.2.
Proof.
  intros Hm Hk. unfold sbind. destruct (m s) as [s' [a|e]]; simpl in *; [|done]. by rewrite Hk.
Qed.
Lemma command_keeps_jobs db cmd s : (forall c, cmd <> PE_Job c) ->
  ps_jobs (apply_command db cmd s).1.2 = ps_jobs s.2.
Proof.
  intros Hc. destruct cmd; try done; try (by destruct (Hc cmd)); unfold apply_command;
    repeat first [apply bind_jobs; [by apply zoom_jobs || done|intros ? ?]
                 |apply zoom_jobs; done|done|case_match].
Qed.

Lemma entry_jobs_after db b p e b' p' r : db_open db -> pd_ok db b p ->
  apply_entry db e (b, p) = ((b', p'), Ok r) ->
  forall id j, ji_jobs (ps_jobs p) !! id = Some j ->
    exists j', ji_jobs (ps_jobs p') !! id = Some j' /\ job_after (assigns id e) j j'.
Proof.
  intros Hdb Hok E id j Hj. unfold apply_entry in E. unfold assigns.
  destruct (le_payload e) as [|cmd|m].
  - injection E as _ <- _. exists j. split; [done|apply job_after_refl].
  - assert ((exists c, cmd = PE_Job c) \/ (forall c, cmd <> PE_Job c)) as [[c ->]|Hn]
      by (destruct cmd; naive_solver).
    + unfold apply_command, zoom in E. revert E. run_st.
      destruct (job_apply_ok db b (ps_jobs p) c) as (b1 & i & r1 & -> & _ & Hr);
        [auto with pd|apply (pd_jobs _ _ _ Hok)|].
      destruct r1 as [r1|]; [|done]. intros [= _ <- _]. simpl. destruct Hr as [_ Hr].
      destruct (job_effect c) as [[id' f]|] eqn:Hc.
      * destruct Hr as (_ & -> & _). destruct (decide (id' = id)) as [->|Hne].
        -- rewrite lookup_alter_eq, Hj. eexists. split; [done|].
           eapply job_after_trans; [| |by apply job_effect_after|apply (job_after_refl False)]; [|done].
           by intros (? & ? & ->).
        -- rewrite lookup_alter_ne by done. exists j. split; [done|apply job_after_refl].
      * destruct Hr as (kind & -> & _ & _ & ->). exists j. split; [|apply job_after_refl].
        rewrite lookup_insert_ne; [done|]. intros <-.
        apply (mg_id _ _ _ _ (pd_jobs _ _ _ Hok)) in Hj. lia.
    + pose proof (command_keeps_jobs db cmd (b, p)) as Hk. rewrite E in Hk. simpl in Hk.
      rewrite Hk by done. exists j. split; [done|apply job_after_refl].
  - revert E. run_st. destruct (open_cf db META_CF); [|done]. intros [= _ <- _].
    exists j. split; [done|apply job_after_refl].
Qed.

Lemma entries_jobs_after db es : forall b p b' p' rs, db_open db -> pd_ok db b p -> Forall log_wf es ->
  bx_next_id (ps_buckets p) + len es <= 2 ^ 63 -> apply_entries db es (b, p) = ((b', p'), Ok rs) ->
  forall id j, ji_jobs (ps_jobs p) !! id = Some j ->
    exists j', ji_jobs (ps_jobs p') !! id = Some j' /\ job_after (exists e, e ∈ es /\ assigns id e) j j'.
Proof.
  induction es as [|e es IH]; intros b p b' p' rs Hdb Hok Hwf Hbx E id j Hj.
  - injection E as _ <- _. exists j. split; [done|apply job_after_refl].
  - apply Forall_cons in Hwf as [He Hwf]. rewrite len_cons in Hbx. pose proof (len_nonneg es).
    destruct (apply_entry_ok db b p e) as (b1 & p1 & r1 & E1 & H1); [done..|lia|].
    simpl in E. unfold sbind at 1 in E. rewrite E1 in E. destruct r1 as [r1|]; [|done].
    destruct H1 as (Hok1 & Hg & _). unfold sbind in E.
    destruct (apply_entries db es (b1, p1)) as [[b2 p2] [rs2|]] eqn:E2; [|done]. injection E as _ <- _.
    destruct (entry_jobs_after db b p e b1 p1 r1 Hdb Hok E1 id j Hj) as (j1 & Hj1 & Ha1).
    destruct (IH b1 p1 _ _ _ Hdb Hok1 Hwf ltac:(destruct Hg; lia) E2 id j1 Hj1) as (j2 & Hj2 & Ha2).
    exists j2. split; [done|]. eapply job_after_trans; [| |exact Ha1|exact Ha2].
    + intros ?. exists e. split; [by left|done].
    + intros (e' & ? & ?). exists e'. split; [by right|done].
Qed.

(** C37: the life of a job across a batch. A job is never lost and keeps its kind;
    its progress watermark never goes back, whatever stale checkpoints arrive; and
    unless an entry of the batch assigns it, its state does not go back in the
    order created, running, done. *)
Theorem job_lifecycle s es s' rs : pd_inv s -> Forall log_wf es ->
  bx_next_id (ps_buckets s.2) + len es <= 2 ^ 63 -> PdStateMachine_apply s es = (s', Ok rs) ->
  forall id j, ji_jobs (ps_jobs s.2) !! id = Some j ->
    exists j', ji_jobs (ps_jobs s'.2) !! id = Some j' /\ job_after (exists e, e ∈ es /\ assigns id e) j j'.
Proof.
  destruct s as [db p]. intros [Hdb Hok] Hwf Hbx E id j Hj. simpl in *.
  destruct (last es); [|injection E as <- _; exists j; split; [done|apply job_after_refl]].
  destruct (apply_entries db es ([], p)) as [[b' p'] [rs'|]] eqn:E'; [|done].
  destruct (open_cf db META_CF); [|done]. injection E as <- _. by eapply entries_jobs_after.
Qed.
End Life.

Section Example.
#[local] Existing Instance cells_rocks.
Definition ex_progress : list (LogEntry (LogId := Z) (Membership := Z)) :=
  [ex_entry 6 (PE_Job (JC_Assign 1 1 100)); ex_entry 7 (PE_Job (JC_AdvanceWatermark 1 40 200));
   ex_entry 8 (PE_Job (JC_AdvanceWatermark 1 30 150)); ex_entry 9 (PE_Job (JC_Complete 1))].
Definition ex_done := (PdStateMachine_apply ex_s1 ex_progress).1.
Definition ex_late : list (LogEntry (LogId := Z) (Membership := Z)) := [ex_entry 10 (PE_Job (JC_RenewLease 1 900))].

Lemma ex_done_inv : pd_inv ex_done.
Proof. apply sm_apply_inv; [apply ex_s1_inv|repeat constructor|by vm_compute|vm_compute; reflexivity]. Qed.

Lemma job_lifecycle_witness : exists s' j', PdStateMachine_apply ex_done ex_late = (s', Ok [AR_Applied])
  /\ ji_jobs (ps_jobs s'.2) !! 1 = Some j' /\ j_state j' = JS_Done /\ 40 <= j_progress_watermark j'.
Proof.
  set (j := {| j_id := 1; j_kind := GcRound; j_state := JS_Done; j_coordinator := Some 1;
               j_lease_expiry_millis := 200; j_progress_watermark := 40 |}).
  assert ((PdStateMachine_apply ex_done ex_late).2 = Ok [AR_Applied]) as Er by (vm_compute; reflexivity).
  assert (ji_jobs (ps_jobs ex_done.2) !! 1 = Some j) as Hj by (vm_compute; reflexivity).
  assert (bx_next_id (ps_buckets ex_done.2) + len ex_late <= 2 ^ 63) as Hbx by (vm_compute; discriminate).
  revert Er Hj Hbx. pose proof ex_done_inv as Hi. revert Hi. generalize ex_done. intros s Hi Er Hj Hbx.
  destruct (PdStateMachine_apply s ex_late) as [s' r] eqn:E. simpl in Er. subst r.
  destruct (job_lifecycle s ex_late s' [AR_Applied] Hi ltac:(repeat constructor) Hbx E 1 j Hj) as (j' & Hj' & [_ _ Hw Hs]).
  exists s', j'. split; [reflexivity|]. split; [exact Hj'|]. split; [|exact Hw].
  assert (2 <= state_rank (j_state j')) as Hr.
  { apply Hs. intros (e & He & Ha). apply list_elem_of_singleton in He as ->. exact Ha. }
  destruct (j_state j'); simpl in Hr; [lia|lia|reflexivity].
Defined.

(** An assignment of a job that is done makes it run again: the state the
    documentation calls terminal is left. *)
Lemma assign_revives_done :
  (exists j, ji_jobs (ps_jobs ex_done.2) !! 1 = Some j /\ j_state j = JS_Done)
  /\ exists s' j', (PdStateMachine_apply ex_done [ex_entry 10 (PE_Job (JC_Assign 1 1 900))]) = (s', Ok [AR_Applied])
       /\ ji_jobs (ps_jobs s'.2) !! 1 = Some j' /\ j_state j' = JS_Running.
Proof.
  split; [eexists; split; [vm_compute; reflexivity|reflexivity]|].
  set (es := [ex_entry 10 (PE_Job (JC_Assign 1 1 900))]).
  assert ((PdStateMachine_apply ex_done es).2 = Ok [AR_Applied]) as <- by (vm_compute; reflexivity).
  eexists _, _. split; [apply surjective_pairing|]. split; [vm_compute; reflexivity|reflexivity].
Qed.
End Example.
