(* ===== verification/PdRoute.v ===== *)
(** Routing of names to metadata partitions (epoch-pd: meta_mgr.rs): when the
    partitions of a namespace are disjoint, [route] finds the one that covers a
    name, and a split keeps every name routed. *)

From S2P Require Import Prelude Ids Rocks PdDb PdCluster PdChunk PdJob PdMeta PdMetaInv.
From S2P Require Import PdState.

(** ** Coordinates and index keys are compared as byte-like lists *)

Definition coord_list (c : Z * list Z) : list Z := c.1 :: c.2.
Definition key_list (k : StartKey) : list Z := k.1 :: coord_list k.2.
Lemma coord_ltb_list a b : coord_ltb a b = lex_ltb (coord_list a) (coord_list b).
Proof. done. Qed.
Lemma coord_leb_list a b : coord_leb a b = lex_leb (coord_list a) (coord_list b).
Proof. done. Qed.
Lemma start_ltb_list a b : start_ltb a b = lex_ltb (key_list a) (key_list b).
Proof. done. Qed.
Lemma start_leb_list a b : start_leb a b = lex_leb (key_list a) (key_list b).
Proof. done. Qed.
Lemma key_list_inj a b : key_list a = key_list b -> a = b.
Proof. destruct a as [t [x l]], b as [t' [x' l']]. unfold key_list, coord_list. simpl. congruence. Qed.

Lemma lex_leb_cons x a b : lex_leb (x :: a) (x :: b) = lex_leb a b.
Proof. unfold lex_leb. simpl. by rewrite Z.ltb_irrefl, Z.eqb_refl. Qed.
Lemma lex_leb_ltb_trans a b c : lex_leb a b = true -> lex_ltb b c = true -> lex_ltb a c = true.
Proof. rewrite lex_leb_lt_or_eq. intros [?| ->]; eauto using lex_ltb_trans. Qed.
Lemma lex_ltb_leb a b : lex_ltb a b = true -> lex_leb a b = true.
Proof. rewrite lex_leb_lt_or_eq. auto. Qed.

(** ** The greatest start at most a key *)

Lemma last_at_most_spec m key :
  match last_at_most m key with
  | Some (k, id) => m !! k = Some id /\ start_leb k key = true
      /\ forall k' id', m !! k' = Some id' -> start_leb k' key = true -> start_leb k' k = true
  | None => forall k id, m !! k = Some id -> start_leb k key = false
  end.
Proof.
  unfold last_at_most.
  assert (forall l : list (StartKey * Z),
    match foldr (fun e best => match best with Some b => if start_ltb b.1 e.1 then Some e else best | None => Some e end)
            None l with
    | Some e => e ∈ l /\ forall e', e' ∈ l -> start_leb e'.1 e.1 = true
    | None => l = []
    end) as Hf.
  { induction l as [|e l IH]; simpl; [done|]. destruct (foldr _ None l) as [e0|].
    - destruct IH as [Hin Hall]. destruct (start_ltb e0.1 e.1) eqn:Hlt.
      + split; [by left|]. intros e' [->|He']%elem_of_cons; rewrite start_leb_list; [apply lex_leb_refl|].
        eapply (lex_leb_trans _ (key_list e0.1)); [exact (Hall _ He')|]. by apply lex_ltb_leb.
      + split; [by right|]. intros e' [->|He']%elem_of_cons; [|by apply Hall].
        unfold start_leb. by rewrite Hlt.
    - subst l. split; [by left|]. intros e' ->%list_elem_of_singleton. rewrite start_leb_list. apply lex_leb_refl. }
  specialize (Hf (filter (fun e => start_leb e.1 key = true) (map_to_list m))).
  destruct (foldr _ None _) as [[k id]|].
  - destruct Hf as [Hin Hall]. apply list_elem_of_filter in Hin as [Hle Hin]. apply elem_of_map_to_list in Hin.
    split; [done|]. split; [done|]. intros k' id' Hk' Hle'. apply (Hall (k', id')).
    apply list_elem_of_filter. split; [done|]. by apply elem_of_map_to_list.
  - intros k id Hk. destruct (start_leb k key) eqn:Hle; [|done].
    assert ((k, id) ∈ filter (fun e : StartKey * Z => start_leb e.1 key = true) (map_to_list m)) as Hin.
    { apply list_elem_of_filter. split; [done|]. by apply elem_of_map_to_list. }
    rewrite Hf in Hin. by apply not_elem_of_nil in Hin.
Qed.

(** ** Intervals *)

Definition start_coord (p : MetaPartition) : Z * list Z := (start_key p).2.
Definition end_ok (p : MetaPartition) (c : list Z) : bool :=
  pb_unbounded (mp_end p) || lex_ltb c (coord_list (bound_coord (mp_end p))).
Lemma interval_contains_list p b k : 0 <= b ->
  interval_contains p b k = lex_leb (coord_list (start_coord p)) (b :: k) && end_ok p (b :: k).
Proof.
  intros Hb. unfold interval_contains, end_ok, start_coord, start_key. simpl.
  destruct (pb_unbounded (mp_start p)); simpl; [|done].
  assert (lex_leb (coord_list (0, [])) (b :: k) = true) as ->; [|done].
  unfold lex_leb, coord_list. simpl. destruct (Z.ltb_spec b 0); [lia|].
  by destruct k, (Z.eqb_spec b 0).
Qed.

(** Partitions of a namespace do not overlap, and none is empty. *)
Record tiling (parts : gmap Z MetaPartition) : Prop := {
  tl_start : forall id p, parts !! id = Some p -> 0 <= (start_coord p).1
    /\ interval_contains p (start_coord p).1 (start_coord p).2 = true;
  tl_disjoint : forall i j p q b k, parts !! i = Some p -> parts !! j = Some q -> mp_ns p = mp_ns q ->
    0 <= b -> interval_contains p b k = true -> interval_contains q b k = true -> i = j
}.

Lemma ns_tag_inj ns ns' : ns_tag ns = ns_tag ns' -> ns = ns'.
Proof. by destruct ns, ns'. Qed.

(** The partition that covers a name is the one [route] returns. *)
Lemma route_covering index ns b k id p : partition_inv index -> tiling (px_partitions index) -> 0 <= b ->
  px_partitions index !! id = Some p -> mp_ns p = ns -> interval_contains p b k = true ->
  route index ns b k = Some p.
Proof.
  intros [Hid Hbs _ _] [Hst Hdis] Hb Hp Hns Hc. unfold route.
  pose proof (last_at_most_spec (px_by_start index) (ns_tag ns, (b, k))) as Hl.
  pose proof Hc as Hc'. rewrite interval_contains_list in Hc' by done. apply andb_true_iff in Hc' as [Hle Hend].
  (* the newest partition with the start of [p] is [p] *)
  assert (px_by_start index !! start_key p = Some id) as Hbp.
  { apply Hbs. exists p. split; [done|]. split; [done|]. intros id' p' Hp' E.
    assert (id' = id) as ->; [|done]. destruct (Hst _ _ Hp') as [H0 H1].
    assert (mp_ns p' = mp_ns p) by (apply ns_tag_inj; by injection E).
    assert (start_coord p' = start_coord p) as Es by (unfold start_coord; by rewrite E).
    eapply (Hdis id' id p' p); [done..|]. rewrite Es. by apply (Hst id). }
  assert (start_leb (start_key p) (ns_tag ns, (b, k)) = true) as Hle'.
  { rewrite start_leb_list. unfold key_list. simpl. rewrite Hns, lex_leb_cons. exact Hle. }
  destruct (last_at_most _ _) as [[kq idq]|]; [|by rewrite (Hl _ _ Hbp) in Hle'].
  destruct Hl as (Hkq & Hkle & Hmax). simpl.
  apply Hbs in Hkq as Hq. destruct Hq as (q & Hq & Eq & _). rewrite Hq. simpl.
  specialize (Hmax _ _ Hbp Hle'). subst kq. rewrite !start_leb_list in *.
  (* [q] is in the same namespace and starts inside [p] *)
  assert (mp_ns q = ns) as Hnsq.
  { apply ns_tag_inj. unfold key_list, lex_leb in Hmax, Hkle. simpl in Hmax, Hkle. rewrite Hns in Hmax.
    destruct (Z.ltb_spec (ns_tag (mp_ns q)) (ns_tag ns)); [done|].
    destruct (Z.ltb_spec (ns_tag ns) (ns_tag (mp_ns q))); [done|]. lia. }
  unfold key_list in Hmax, Hkle. simpl in Hmax, Hkle. rewrite Hns, Hnsq, lex_leb_cons in Hmax.
  rewrite Hnsq, lex_leb_cons in Hkle.
  destruct (Hst _ _ Hq) as [Hq0 Hqc].
  assert (idq = id) as ->.
  { apply (Hdis idq id q p (start_coord q).1 (start_coord q).2); [done|done|congruence|done|done|].
    rewrite interval_contains_list by done. apply andb_true_iff. split; [exact Hmax|].
    unfold end_ok in *. apply orb_true_iff in Hend as [->|Hend]; [done|]. apply orb_true_iff. right.
    eapply lex_leb_ltb_trans; [exact Hkle|exact Hend]. }
  rewrite Hp in Hq. injection Hq as <-. by rewrite Hc.
Qed.

Lemma route_sound index ns b k p : route index ns b k = Some p ->
  (exists id, px_partitions index !! id = Some p) /\ interval_contains p b k = true.
Proof.
  unfold route. destruct (last_at_most _ _) as [[kq idq]|]; [|done]. simpl.
  destruct (px_partitions index !! idq) as [q|] eqn:Hq; [|done]. simpl.
  destruct (interval_contains q b k) eqn:Hc; [|done]. intros [= <-]. eauto.
Qed.

(** Routing is correct. When the partitions of each namespace are disjoint
    intervals, the partition that covers a name is the one [route] returns; and
    what it returns is a stored partition whose interval holds the name, of the
    namespace asked for as soon as that namespace has a partition that begins at
    its unbounded start. *)
Theorem route_correct index ns b k : partition_inv index -> tiling (px_partitions index) -> 0 <= b ->
  (forall id p, px_partitions index !! id = Some p -> mp_ns p = ns -> interval_contains p b k = true ->
     route index ns b k = Some p)
  /\ (forall p, route index ns b k = Some p ->
        (exists id, px_partitions index !! id = Some p) /\ interval_contains p b k = true
        /\ ((exists id q, px_partitions index !! id = Some q /\ mp_ns q = ns /\ pb_unbounded (mp_start q) = true) ->
            mp_ns p = ns)).
Proof.
  intros Hinv Ht Hb. split; [intros; by eapply route_covering|].
  intros p Hr. destruct (route_sound _ _ _ _ _ Hr) as [Hin Hc]. split; [done|]. split; [done|].
  intros (id & q & Hq & Hns & Hu). unfold route in Hr.
  pose proof (last_at_most_spec (px_by_start index) (ns_tag ns, (b, k))) as Hl.
  destruct Hinv as [_ Hbs _ _].
  assert (exists id', px_by_start index !! start_key q = Some id') as [id' Hid'].
  { destruct (px_by_start index !! start_key q) as [id'|] eqn:E; [eauto|]. exfalso.
    assert (px_by_start index !! start_key q = Some id) as E'; [|by rewrite E' in E].
    apply Hbs. exists q. split; [done|]. split; [done|]. intros i' p' Hp' Ek.
    destruct (tl_start _ Ht _ _ Hp') as [H0 H1]. assert (i' = id) as ->; [|done].
    assert (start_coord p' = start_coord q) as Es by (unfold start_coord; by rewrite Ek).
    eapply (tl_disjoint _ Ht i' id p' q); [done|done|apply ns_tag_inj; by injection Ek|exact H0|exact H1|].
    rewrite Es. by apply (tl_start _ Ht id). }
  assert (start_leb (start_key q) (ns_tag ns, (b, k)) = true) as Hle.
  { rewrite start_leb_list. unfold start_key, key_list, coord_list. rewrite Hu, Hns. cbn [fst snd].
    rewrite lex_leb_cons. unfold lex_leb. simpl. destruct (Z.ltb_spec b 0); [lia|].
    by destruct k, (Z.eqb_spec b 0). }
  destruct (last_at_most _ _) as [[kc idc]|]; [|done]. simpl in Hr.
  destruct Hl as (Hkc & Hcle & Hmax). specialize (Hmax _ _ Hid' Hle).
  apply Hbs in Hkc as (c & Hc' & Ec & _). rewrite Hc' in Hr. simpl in Hr.
  destruct (interval_contains c b k); [|done]. injection Hr as <-. apply ns_tag_inj. subst kc.
  rewrite !start_leb_list in *. unfold key_list, lex_leb in Hmax, Hcle. simpl in Hmax, Hcle. rewrite Hns in Hmax.
  destruct (Z.ltb_spec (ns_tag (mp_ns c)) (ns_tag ns)); [done|].
  destruct (Z.ltb_spec (ns_tag ns) (ns_tag (mp_ns c))); [done|]. lia.
Qed.

(** ** Splits *)

Definition split_lower (p : MetaPartition) (at_ : PartitionBound) : MetaPartition :=
  {| mp_partition_id := mp_partition_id p; mp_ns := mp_ns p; mp_start := mp_start p; mp_end := at_;
     mp_peers := mp_peers p; mp_epoch := mp_epoch p + 1 |}.
Definition split_upper (child : Z) (p : MetaPartition) (at_ : PartitionBound) : MetaPartition :=
  {| mp_partition_id := child; mp_ns := mp_ns p; mp_start := at_; mp_end := mp_end p;
     mp_peers := mp_peers p; mp_epoch := 1 |}.

Lemma split_intervals child p at_ b k : 0 <= b -> splits p at_ = true ->
  interval_contains (split_lower p at_) b k
    = interval_contains p b k && coord_ltb (b, k) (bound_coord at_)
  /\ interval_contains (split_upper child p at_) b k
    = interval_contains p b k && negb (coord_ltb (b, k) (bound_coord at_)).
Proof.
  intros Hb Hs. unfold splits in Hs. apply andb_true_iff in Hs as [Hs He]. apply andb_true_iff in Hs as [Hu Hs].
  apply negb_true_iff in Hu. unfold interval_contains, coord_leb. cbn [mp_start mp_end split_lower split_upper].
  rewrite Hu. rewrite !coord_ltb_list in *.
  set (c := coord_list (b, k)) in *. set (m := coord_list (bound_coord at_)) in *.
  destruct (lex_ltb c m) eqn:Hcm; cbn [orb andb negb]; rewrite ?andb_true_r, ?andb_false_r.
  - split; [|done]. destruct (pb_unbounded (mp_end p)); cbn [orb] in *; [by rewrite andb_true_r|].
    by rewrite (lex_ltb_trans c m _ Hcm He), andb_true_r.
  - split; [done|]. assert (lex_leb m c = true) as Hmc by (unfold lex_leb; by rewrite Hcm).
    destruct (pb_unbounded (mp_start p)); cbn [orb andb] in *; [done|].
    pose proof (lex_leb_trans _ _ _ (lex_ltb_leb _ _ Hs) Hmc) as Hle. unfold lex_leb in Hle. by rewrite Hle.
Qed.

Lemma splits_spec p at_ : splits p at_ = true -> 1 <= pb_bucket at_ ->
  start_coord (split_upper 0 p at_) = bound_coord at_
  /\ lex_ltb (coord_list (start_coord p)) (coord_list (bound_coord at_)) = true
  /\ end_ok p (coord_list (bound_coord at_)) = true.
Proof.
  intros Hs Hb. unfold splits in Hs. apply andb_true_iff in Hs as [Hs He]. apply andb_true_iff in Hs as [Hu Hs].
  apply negb_true_iff in Hu. unfold start_coord, start_key. simpl. rewrite Hu. split; [done|]. split; [|exact He].
  destruct (pb_unbounded (mp_start p)); simpl in Hs; [|exact Hs].
  unfold coord_list, bound_coord. simpl. by rewrite (proj2 (Z.ltb_lt 0 (pb_bucket at_))) by lia.
Qed.
Lemma splits_inside p at_ : splits p at_ = true -> 1 <= pb_bucket at_ ->
  interval_contains p (pb_bucket at_) (pb_routing_key at_) = true.
Proof.
  intros Hs Hb. destruct (splits_spec p at_ Hs Hb) as (_ & Hlt & He). rewrite interval_contains_list by lia.
  apply andb_true_iff. split; [by apply lex_ltb_leb|exact He].
Qed.

(** Both halves of a split lie in the parent, and a name lies in one of them. *)
Lemma split_lookup (parts : gmap Z MetaPartition) id child p at_ i q b k : parts !! id = Some p -> parts !! child = None -> 0 <= b ->
  splits p at_ = true ->
  <[child := split_upper child p at_]> (<[id := split_lower p at_]> parts) !! i = Some q ->
  interval_contains q b k = true ->
  exists i' q', parts !! i' = Some q' /\ mp_ns q' = mp_ns q /\ interval_contains q' b k = true
    /\ (i' = id -> i = if coord_ltb (b, k) (bound_coord at_) then id else child) /\ (i' <> id -> i = i').
Proof.
  intros Hp Hnone Hb Hs. destruct (split_intervals child p at_ b k Hb Hs) as [El Eu].
  rewrite !lookup_insert_Some. intros [[<- <-]|[_ [[<- <-]|[? Hq]]]] Hc.
  - rewrite Eu in Hc. apply andb_true_iff in Hc as [Hc Hn%negb_true_iff]. exists id, p. rewrite Hn. by split_and!.
  - rewrite El in Hc. apply andb_true_iff in Hc as [Hc Hn]. exists id, p. rewrite Hn. by split_and!.
  - exists i, q. by split_and!.
Qed.

Lemma split_tiling parts id child p at_ : tiling parts -> parts !! id = Some p -> parts !! child = None ->
  splits p at_ = true -> 1 <= pb_bucket at_ ->
  tiling (<[child := split_upper child p at_]> (<[id := split_lower p at_]> parts)).
Proof.
  intros [Hst Hdis] Hp Hnone Hs Hb. destruct (splits_spec p at_ Hs Hb) as (Es & Hlt & He). split.
  - intros i q. rewrite !lookup_insert_Some. intros [[<- <-]|[_ [[<- <-]|[_ Hq]]]]; [| |by eapply Hst].
    + change (start_coord (split_upper child p at_)) with (start_coord (split_upper 0 p at_)). rewrite Es. simpl.
      split; [lia|]. destruct (split_intervals child p at_ (pb_bucket at_) (pb_routing_key at_)) as [_ ->]; [lia|done|].
      rewrite splits_inside by done. simpl. by rewrite coord_ltb_list, lex_ltb_irrefl.
    + destruct (Hst _ _ Hp) as [H0 H1]. change (start_coord (split_lower p at_)) with (start_coord p).
      split; [done|]. destruct (split_intervals child p at_ _ (start_coord p).2 H0 Hs) as [-> _].
      rewrite H1. exact Hlt.
  - intros i j q r b k Hq Hr Hns Hb0 Hcq Hcr.
    destruct (split_lookup _ _ _ _ _ _ _ _ _ Hp Hnone Hb0 Hs Hq Hcq) as (i' & q' & Hq' & Eq & Hcq' & Hi & Hi').
    destruct (split_lookup _ _ _ _ _ _ _ _ _ Hp Hnone Hb0 Hs Hr Hcr) as (j' & r' & Hr' & Er & Hcr' & Hj & Hj').
    assert (i' = j') as <- by (eapply (Hdis i' j' q' r'); eauto; congruence).
    destruct (decide (i' = id)); [rewrite Hi, Hj by done; done|rewrite Hi', Hj' by done; done].
Qed.

Section Split.
Context {RDB : RocksDb no_merge} `{Serde BucketMeta} `{Serde Credential} `{Serde MetaPartition}.
Implicit Types (db : SmDb) (b : WriteBatch).

(** C38: splitting a partition keeps every name routed. A granted split keeps the
    partitions disjoint; a name below the split point stays with the narrowed
    parent, a name from it on goes to the child, and a name of another partition
    stays where it was. The child's inode tag is one no split handed out before. *)
Theorem split_keeps_routes db b index cmd b' index' child tag :
  is_Some (db !! META_PARTITION_CF) -> partition_ok db b index -> tiling (px_partitions index) ->
  1 <= pb_bucket (spl_at cmd) ->
  PartitionManager_apply_split db cmd (b, index) = ((b', index'), Ok (Some (child, tag))) ->
  partition_ok db b' index' /\ tiling (px_partitions index')
  /\ tag = px_next_ino_tag index /\ px_next_ino_tag index' = tag + 1
  /\ forall ns bu k id p, 0 <= bu -> px_partitions index !! id = Some p -> mp_ns p = ns ->
       interval_contains p bu k = true ->
       route index ns bu k = Some p
       /\ route index' ns bu k =
            Some (if decide (id = spl_parent_id cmd)
                  then if coord_ltb (bu, k) (bound_coord (spl_at cmd)) then split_lower p (spl_at cmd)
                       else split_upper child p (spl_at cmd)
                  else p).
Proof.
  intros Hd Hok Ht Hb E. destruct (partition_split_ok db b index cmd Hd Hok) as (? & ? & ? & E' & _ & Hr).
  rewrite E in E'. injection E' as <- <- <-. destruct Hr as (Hok' & -> & -> & Htag & p0 & Hp0 & Hs & Hparts).
  fold (split_lower p0 (spl_at cmd)) (split_upper (px_next_id index) p0 (spl_at cmd)) in Hparts.
  assert (px_partitions index !! px_next_id index = None) as Hnone.
  { destruct (px_partitions index !! px_next_id index) as [q|] eqn:Hq; [|done].
    apply (pk_id _ (pk_inv _ _ _ Hok)) in Hq. lia. }
  assert (tiling (px_partitions index')) as Ht' by (rewrite Hparts; by apply split_tiling).
  split; [done|]. split; [done|]. split; [done|]. split; [done|].
  intros ns bu k id p Hbu Hp Hns Hc. split; [eapply route_covering; eauto; apply Hok|].
  assert (spl_parent_id cmd <> px_next_id index) as Hne by congruence.
  assert (id <> px_next_id index) as Hne' by congruence.
  destruct (decide (id = spl_parent_id cmd)) as [->|Hid].
  - rewrite Hp0 in Hp. injection Hp as <-.
    destruct (split_intervals (px_next_id index) p0 (spl_at cmd) bu k Hbu Hs) as [El Eu]. rewrite Hc in El, Eu.
    destruct (coord_ltb (bu, k) (bound_coord (spl_at cmd))).
    + apply (route_covering _ _ _ _ (spl_parent_id cmd)); [apply Hok'|done..| |done|done].
      by rewrite Hparts, lookup_insert_ne, lookup_insert_eq.
    + apply (route_covering _ _ _ _ (px_next_id index)); [apply Hok'|done..| |done|done].
      by rewrite Hparts, lookup_insert_eq.
  - apply (route_covering _ _ _ _ id); [apply Hok'|done..| |done|done].
    by rewrite Hparts, !lookup_insert_ne.
Qed.
End Split.

(** ** Concrete routing *)

Section Example.
#[local] Existing Instance cells_rocks.
Definition ex_db : gmap string (rdb (RocksDb := cells_rocks no_merge)) := {[META_PARTITION_CF := rdb_empty]}.
Definition ex_index0 : PartitionIndex :=
  {| px_partitions := ∅; px_by_start := ∅; px_next_id := 1; px_next_ino_tag := 1 |}.
Definition ex_whole : CreatePartition :=
  {| cp_ns := Flat; cp_start := unbounded_start; cp_end := unbounded_end; cp_peers := [1] |}.
Definition ex_split : SplitPartition := {| spl_parent_id := 1; spl_at := bound_at 5 [7] |}.
Definition ex_run {A} (m : St (list (string * WOp) * PartitionIndex) A) (i : PartitionIndex) : PartitionIndex :=
  (m ([], i)).1.2.
Definition ex_index1 := ex_run (PartitionManager_apply_create ex_db ex_whole) ex_index0.
Definition ex_part1 : MetaPartition :=
  {| mp_partition_id := 1; mp_ns := Flat; mp_start := unbounded_start; mp_end := unbounded_end;
     mp_peers := [1]; mp_epoch := 1 |}.

Lemma ex_pending0 : pending ex_db [] META_PARTITION_CF = ∅.
Proof. apply map_eq. intros k. vm_compute. reflexivity. Qed.
Lemma ex_index0_ok : partition_ok ex_db [] ex_index0.
Proof.
  split.
  - exists ∅. rewrite ex_pending0. split; [apply table_rep_empty|]. split; rewrite ?lookup_empty; try done.
    intros k. rewrite lookup_empty. by intros [].
  - split; simpl; [by intros * ?%lookup_empty_Some| |lia|done]. intros k id. rewrite lookup_empty. split; [done|].
    intros (? & E & _). by rewrite lookup_empty in E.
Qed.
Lemma ex_index1_ok : exists b, partition_ok ex_db b ex_index1.
Proof.
  destruct (partition_create_ok ex_db [] ex_index0 ex_whole) as (b' & i & r & E & _ & Hr);
    [by eexists|apply ex_index0_ok|].
  assert ((PartitionManager_apply_create ex_db ex_whole ([], ex_index0)).2 = Ok 1) as Er by (vm_compute; reflexivity).
  unfold ex_index1, ex_run. rewrite E in Er |- *. simpl in *. subst r. exists b'. by destruct Hr.
Qed.
Lemma ex_index1_parts : px_partitions ex_index1 = {[1 := ex_part1]}.
Proof. vm_compute. reflexivity. Qed.
Lemma ex_tiling : tiling (px_partitions ex_index1).
Proof.
  rewrite ex_index1_parts. split.
  - intros id p [<- <-]%lookup_singleton_Some. done.
  - intros i j p q b k [<- <-]%lookup_singleton_Some [<- <-]%lookup_singleton_Some. done.
Qed.

Lemma route_correct_witness : route ex_index1 Flat 9 [3] = Some ex_part1
  /\ tiling (px_partitions ex_index1).
Proof.
  destruct ex_index1_ok as [b Hok].
  destruct (route_correct ex_index1 Flat 9 [3] (pk_inv _ _ _ Hok) ex_tiling ltac:(lia)) as [Hr _].
  split; [|apply ex_tiling]. apply (Hr 1); [by rewrite ex_index1_parts|reflexivity|reflexivity].
Defined.

Lemma split_keeps_routes_witness :
  exists index', route index' Flat 5 [6] = Some (split_lower ex_part1 (bound_at 5 [7]))
    /\ route index' Flat 5 [7] = Some (split_upper 2 ex_part1 (bound_at 5 [7])).
Proof.
  destruct ex_index1_ok as [b Hok].
  destruct (PartitionManager_apply_split ex_db ex_split (b, ex_index1)) as [[b' i'] r] eqn:E.
  assert (r = Ok (Some (2, 1))) as ->.
  { assert ((PartitionManager_apply_split ex_db ex_split (b, ex_index1)).2 = Ok (Some (2, 1))) as Er
      by (vm_compute; reflexivity). rewrite E in Er. exact Er. }
  destruct (split_keeps_routes ex_db b ex_index1 ex_split b' i' 2 1) as (_ & _ & _ & _ & Hr);
    [by eexists|exact Hok|apply ex_tiling|done|exact E|].
  exists i'. split.
  - refine (proj2 (Hr Flat 5 [6] 1 ex_part1 _ _ _ _)); [lia|by rewrite ex_index1_parts|reflexivity|reflexivity].
  - refine (proj2 (Hr Flat 5 [7] 1 ex_part1 _ _ _ _)); [lia|by rewrite ex_index1_parts|reflexivity|reflexivity].
Defined.

(** Repeating the creation of the first partition after it was split makes a
    second partition that overlaps the narrowed one and takes over its names:
    names below the split point are then routed to a new, empty partition. *)
Lemma create_retry_shadows :
  let index2 := ex_run (PartitionManager_apply_split ex_db ex_split) ex_index1 in
  let index3 := ex_run (PartitionManager_apply_create ex_db ex_whole) index2 in
  (mp_partition_id <$> route index2 Flat 3 [1]) = Some 1
  /\ (mp_partition_id <$> route index3 Flat 3 [1]) = Some 3
  /\ (exists p, px_partitions index3 !! 1 = Some p /\ interval_contains p 3 [1] = true).
Proof. split_and!; [vm_compute; reflexivity..|]. eexists. split; vm_compute; reflexivity. Qed.

(** A name of a namespace without partitions is routed to the other namespace. *)
Lemma route_crosses_namespaces : mp_ns <$> route ex_index1 Hier 3 [1] = Some Flat.
Proof. vm_compute. reflexivity. Qed.
(** Migrating a replica to the node it is on drops it. *)
Lemma migrate_to_itself :
  (PartitionManager_apply_migrate ex_db {| mgp_partition_id := 1; mgp_from := 1; mgp_to := 1 |}
     ([], ex_run (PartitionManager_apply_create ex_db
            {| cp_ns := Flat; cp_start := unbounded_start; cp_end := unbounded_end; cp_peers := [1; 2] |}) ex_index0)).2
  = Ok (Some [2]).
Proof. vm_compute. reflexivity. Qed.
End Example.
