(* ===== verification/Client.v ===== *)
(** The client library (epoch-client: error.rs, pd.rs, topology.rs, chunk_map.rs,
    writable_set.rs, bucket_cache.rs, credential_cache.rs and the routing of
    meta.rs): leader discovery, the caches a gateway keeps of the placement
    driver's tables, and the routed metadata call. The answers of the servers are
    arguments of the operations. *)

From S2P Require Import Prelude Ids.

(** ** Errors (error.rs) *)

(** gRPC status codes the client tells apart. *)
Inductive Code : Set := CNotFound | CInvalidArgument | CFailedPrecondition | CUnavailable | CResourceExhausted | COther.
Record Status : Set := { st_code : Code; st_message : string }.
Inductive ClientError : Set :=
| NoLeader (attempts : Z) (last_error : string)
| CE_NotFound (m : string)
| InvalidArgument (m : string)
| Rpc (code : Code) (message : string)
| EndpointError (endpoint : string)
| WriterStale (since_millis : Z)
| CE_Internal (m : string).
Definition from_status (s : Status) : ClientError :=
  match st_code s with
  | CNotFound => CE_NotFound (st_message s)
  | CInvalidArgument => InvalidArgument (st_message s)
  | code => Rpc code (st_message s)
  end.

(** ** Leader discovery (pd.rs) *)

Definition is_retriable (c : Code) : bool := match c with CFailedPrecondition | CUnavailable => true | _ => false end.

Section Leader.
Context {T : Type}.
(** [op i]: the answer of endpoint [i]. The result carries the new leader hint. *)
Fixpoint try_endpoints (op : Z -> result Status T) (count start : Z) (offsets : list Z) (hint : Z) (last_error : string)
    : Z * result ClientError T :=
  match offsets with
  | [] => (hint, Err (NoLeader count last_error))
  | offset :: offsets =>
      let index := (start + offset) mod count in
      match op index with
      | Ok value => (index, Ok value)
      | Err status =>
          if is_retriable (st_code status) then try_endpoints op count start offsets hint (st_message status)
          else (hint, Err (from_status status))
      end
  end.
Definition call_on_leader (op : Z -> result Status T) (count leader_hint : Z) : Z * result ClientError T :=
  try_endpoints op count leader_hint (seqZ 0 count) leader_hint "no PD endpoints configured".

(** The endpoints are tried in ring order from the hint, each once: the answer is
    that of the first one that does not redirect, which becomes the hint if it
    succeeds; if all redirect the call fails with [NoLeader]. *)
Lemma call_on_leader_spec (op : Z -> result Status T) count hint :
  (forall k, 0 <= k < count -> exists s, op ((hint + k) mod count) = Err s /\ is_retriable (st_code s) = true)
    /\ (exists m, call_on_leader op count hint = (hint, Err (NoLeader count m)))
  \/ exists k, 0 <= k < count
    /\ (forall j, 0 <= j < k -> exists s, op ((hint + j) mod count) = Err s /\ is_retriable (st_code s) = true)
    /\ match op ((hint + k) mod count) with
       | Ok v => call_on_leader op count hint = ((hint + k) mod count, Ok v)
       | Err s => is_retriable (st_code s) = false /\ call_on_leader op count hint = (hint, Err (from_status s))
       end.
Proof.
  unfold call_on_leader. generalize "no PD endpoints configured"%string as m.
  assert (forall (n : nat) a m, a + Z.of_nat n = count \/ n = 0%nat -> 0 <= a ->
    (forall j, a <= j < a + Z.of_nat n -> exists s, op ((hint + j) mod count) = Err s /\ is_retriable (st_code s) = true)
      /\ (exists m', try_endpoints op count hint (seqZ a (Z.of_nat n)) hint m = (hint, Err (NoLeader count m')))
    \/ exists k, a <= k < a + Z.of_nat n
      /\ (forall j, a <= j < k -> exists s, op ((hint + j) mod count) = Err s /\ is_retriable (st_code s) = true)
      /\ match op ((hint + k) mod count) with
         | Ok v => try_endpoints op count hint (seqZ a (Z.of_nat n)) hint m = ((hint + k) mod count, Ok v)
         | Err s => is_retriable (st_code s) = false /\ try_endpoints op count hint (seqZ a (Z.of_nat n)) hint m = (hint, Err (from_status s))
         end) as Hgen.
  { induction n as [|n IH]; intros a m Hn Ha; [left; split; [lia|by exists m]|].
    rewrite seqZ_cons by lia. replace (Z.pred (Z.of_nat (S n))) with (Z.of_nat n) by lia. cbn [try_endpoints].
    destruct (op ((hint + a) mod count)) as [v|s] eqn:E.
    { right. exists a. split_and!; [lia..| |by rewrite E]. intros j Hj. lia. }
    destruct (is_retriable (st_code s)) eqn:Er.
    2:{ right. exists a. split_and!; [lia..| |rewrite E; by rewrite Er]. intros j Hj. lia. }
    destruct (IH (Z.succ a) (st_message s)) as [[Hall Hm]|(k & Hk & Hbefore & Hat)]; [lia..| |].
    - left. split; [|exact Hm]. intros j Hj. destruct (decide (j = a)) as [->|]; [by exists s|]. apply Hall. lia.
    - right. exists k. split_and!; [lia..| |exact Hat]. intros j Hj. destruct (decide (j = a)) as [->|]; [by exists s|]. apply Hbefore. lia. }
  intros m. destruct (Z.le_gt_cases count 0) as [Hc|Hc].
  - left. split; [lia|]. replace (seqZ 0 count) with (@nil Z); [by exists m|]. unfold seqZ. by replace (Z.to_nat count) with 0%nat by lia.
  - destruct (Hgen (Z.to_nat count) 0 m) as [[Hall Hm]|(k & Hk & Hb & Hat)]; [lia..| |]; rewrite Z2Nat.id in * by lia.
    + left. split; [|done]. intros k Hk. apply Hall. lia.
    + right. exists k. split_and!; [lia..|done|done].
Qed.
End Leader.

(** ** What the placement driver answers *)

Definition NODE_STATUS_LIVE : Z := 2.
Definition DISK_STATUS_NORMAL : Z := 1.
Definition CHUNK_STATUS_WRITABLE : Z := 1.
Definition ROLE_DATA : Z := 1.
Record NodeInfo : Set := { ni_id : Z; ni_addr : string; ni_az : string; ni_rack : string; ni_roles : Z; ni_st : Z }.
Record DiskInfo : Set := { dk_id : Z; dk_node : Z; dk_path : string; dk_st : Z }.
Record ShardView : Set := { sv_shard_prefix : Z; sv_disk_id : Z; sv_extent_id : list Z; sv_epoch : Z }.
(** A piece of an object, as metadata carries it. *)
Record SliceRef : Set := { slr_chunk_id : Z; slr_blob_ids : list Z; slr_blob_size : Z }.
Record ChunkView : Set := { cv_chunk_id : Z; cv_code_mode : option CodeMode; cv_st : Z; cv_shards : list ShardView }.
(** A partition as the placement driver describes it on the wire. *)
Record MetaPartitionView : Set := {
  pv_partition_id : Z; pv_ns : Z; pv_start_bucket : Z; pv_start_key : list Z; pv_start_unbounded : bool;
  pv_end_bucket : Z; pv_end_key : list Z; pv_end_unbounded : bool; pv_peers : list Z; pv_leader_node_id : Z; pv_leader_addr : string;
  pv_epoch : Z }.
(** A replica of a group, and the request to host the group. *)
Record Peer : Set := { peer_node_id : Z; peer_addr : string }.
Record GroupRequest : Set := {
  gq_partition_id : Z; gq_ns : Z; gq_start_bucket : Z; gq_start_key : list Z; gq_start_unbounded : bool;
  gq_end_bucket : Z; gq_end_key : list Z; gq_end_unbounded : bool; gq_peers : list Peer; gq_bootstrap_node_id : Z }.

Section Caches.
(** [str::parse::<SocketAddr>] *)
Context {SocketAddr : Set} (parse_addr : string -> option SocketAddr).

(** The answers of the placement driver during one operation. *)
Record PdAnswers : Type := {
  pa_list_nodes : result ClientError (list NodeInfo * list DiskInfo);
  pa_get_chunk : ChunkId -> result ClientError ChunkView;
  pa_writable : result ClientError (list ChunkView)
}.

(** ** Topology (topology.rs); instants are milliseconds *)

Record NodeTopo : Set := { nt_node_id : NodeId; nt_addr : SocketAddr; nt_rack : string; nt_serving : bool }.
Record Topology : Set := { tp_nodes : gmap Z NodeTopo; tp_disks : gmap Z Z; tp_last_refresh : option Z; tp_interval : Z }.
Definition Topology_new (interval : Z) : Topology := {| tp_nodes := ∅; tp_disks := ∅; tp_last_refresh := None; tp_interval := interval |}.

Definition disk_node (t : Topology) (disk_id : DiskId) : option NodeTopo := n ← tp_disks t !! disk_id; tp_nodes t !! n.
Definition topo_node (t : Topology) (node_id : NodeId) : option NodeTopo := tp_nodes t !! node_id.
Definition serving_endpoints (t : Topology) : gmap Z SocketAddr := nt_addr <$> filter (fun p : Z * NodeTopo => nt_serving p.2 = true) (tp_nodes t).
Definition past (interval now : Z) (last : option Z) : bool :=
  match last with None => true | Some t => interval <=? now - t end.
Definition Topology_is_stale (t : Topology) (now : Z) : bool := past (tp_interval t) now (tp_last_refresh t).

Definition insert_node (m : gmap Z NodeTopo) (n : NodeInfo) : gmap Z NodeTopo :=
  match parse_addr (ni_addr n) with
  | None => m
  | Some addr =>
      let serving := (ni_st n =? NODE_STATUS_LIVE) && negb (Z.land (ni_roles n) ROLE_DATA =? 0) in
      <[ni_id n := {| nt_node_id := ni_id n; nt_addr := addr; nt_rack := ni_rack n; nt_serving := serving |}]> m
  end.
Definition insert_disk (m : gmap Z Z) (d : DiskInfo) : gmap Z Z :=
  if dk_st d =? DISK_STATUS_NORMAL then <[dk_id d := dk_node d]> m else m.
Definition Topology_refresh (w : PdAnswers) (now : Z) (t : Topology) : Topology * result ClientError unit :=
  match pa_list_nodes w with
  | Err e => (t, Err e)
  | Ok (nodes, disks) =>
      ({| tp_nodes := foldl insert_node ∅ nodes; tp_disks := foldl insert_disk ∅ disks;
          tp_last_refresh := Some now; tp_interval := tp_interval t |}, Ok tt)
  end.
Definition refresh_if_stale (w : PdAnswers) (now : Z) (t : Topology) : Topology :=
  if Topology_is_stale t now then (Topology_refresh w now t).1 else t.

(** ** Chunks (chunk_map.rs) *)

Record ResolvedShard : Set := {
  rsd_index : Z; rsd_node_id : NodeId; rsd_addr : SocketAddr; rsd_extent_id : ExtentId; rsd_epoch : Z; rsd_rack : string
}.
Record ChunkSlots : Set := { cs_code_mode : CodeMode; cs_writable : bool; cs_shards : list ResolvedShard }.
Record ChunkMap : Set := { cmap_topology : Topology; cmap_entries : gmap Z ChunkSlots }.

Fixpoint resolve_shards (t : Topology) (i : Z) (slots : list ShardView) : result ClientError (list ResolvedShard) :=
  match slots with
  | [] => Ok []
  | slot :: slots =>
      if 255 <? i then Err (CE_Internal "shard index > 255")
      else match disk_node t (sv_disk_id slot) with
           | None => Err (CE_Internal "disk not in topology")
           | Some node =>
               if negb (len (sv_extent_id slot) =? 16) then Err (CE_Internal "bad extent id length")
               else
                 rest <-? resolve_shards t (i + 1) slots ;;
                 Ok ({| rsd_index := i; rsd_node_id := nt_node_id node; rsd_addr := nt_addr node; rsd_extent_id := sv_extent_id slot;
                        rsd_epoch := sv_epoch slot; rsd_rack := nt_rack node |} :: rest)
           end
  end.
(** [u16::try_from], [u8::try_from] on the fields of a code mode. *)
Definition check_code_mode (m : CodeMode) : result ClientError CodeMode :=
  if U16_MAX <? cm_id m then Err (CE_Internal "code mode id exceeds u16")
  else if U8_MAX <? cm_data m then Err (CE_Internal "code mode data > u8")
  else if U8_MAX <? cm_parity m then Err (CE_Internal "code mode parity > u8")
  else Ok m.
Definition resolve_view (t : Topology) (view : ChunkView) : result ClientError ChunkSlots :=
  shards <-? resolve_shards t 0 (cv_shards view) ;;
  code_mode <-? ok_or (cv_code_mode view) (CE_Internal "chunk view missing code mode") ;;
  code_mode <-? check_code_mode code_mode ;;
  Ok {| cs_code_mode := code_mode; cs_writable := cv_st view =? CHUNK_STATUS_WRITABLE; cs_shards := shards |}.
Definition ChunkMap_get (w : PdAnswers) (now : Z) (m : ChunkMap) (chunk_id : ChunkId) : ChunkMap * result ClientError ChunkSlots :=
  match cmap_entries m !! chunk_id with
  | Some slots => (m, Ok slots)
  | None =>
      let t := refresh_if_stale w now (cmap_topology m) in
      let m := {| cmap_topology := t; cmap_entries := cmap_entries m |} in
      match pa_get_chunk w chunk_id with
      | Err e => (m, Err e)
      | Ok view =>
          match resolve_view t view with
          | Err e => (m, Err e)
          | Ok slots => ({| cmap_topology := t; cmap_entries := <[chunk_id := slots]> (cmap_entries m) |}, Ok slots)
          end
      end
  end.
Definition ChunkMap_invalidate (m : ChunkMap) (chunk_id : ChunkId) : ChunkMap :=
  {| cmap_topology := cmap_topology m; cmap_entries := delete chunk_id (cmap_entries m) |}.

(** ** Writable chunks (writable_set.rs) *)

Record WritableChunk : Set := { wc_chunk_id : ChunkId; wc_slots : ChunkSlots }.
Record WritableSet : Set := {
  wset_chunk_map : ChunkMap; wset_interval : Z; wset_chunks : list ChunkId; wset_cursor : Z; wset_last_refresh : option Z
}.
Definition WritableSet_refresh (w : PdAnswers) (now : Z) (s : WritableSet) : WritableSet * result ClientError unit :=
  match pa_writable w with
  | Err e => (s, Err e)
  | Ok views =>
      ({| wset_chunk_map := wset_chunk_map s; wset_interval := wset_interval s; wset_chunks := cv_chunk_id <$> views;
          wset_cursor := wset_cursor s; wset_last_refresh := Some now |}, Ok tt)
  end.
Definition WritableSet_is_stale (s : WritableSet) (now : Z) : bool :=
  bool_decide (wset_chunks s = []) || past (wset_interval s) now (wset_last_refresh s).
Definition WritableSet_evict (s : WritableSet) (chunk_id : ChunkId) : WritableSet :=
  {| wset_chunk_map := ChunkMap_invalidate (wset_chunk_map s) chunk_id; wset_interval := wset_interval s;
     wset_chunks := filter (fun id => id <> chunk_id) (wset_chunks s); wset_cursor := wset_cursor s; wset_last_refresh := wset_last_refresh s |}.
Definition set_chunk_map (s : WritableSet) (m : ChunkMap) : WritableSet :=
  {| wset_chunk_map := m; wset_interval := wset_interval s; wset_chunks := wset_chunks s; wset_cursor := wset_cursor s;
     wset_last_refresh := wset_last_refresh s |}.
Definition set_cursor (s : WritableSet) (c : Z) : WritableSet :=
  {| wset_chunk_map := wset_chunk_map s; wset_interval := wset_interval s; wset_chunks := wset_chunks s; wset_cursor := c;
     wset_last_refresh := wset_last_refresh s |}.

Record Scored : Set := { sc_node : Z; sc_rack : Z; sc_pos : Z; sc_chunk : WritableChunk }.
Definition count_shards (p : ResolvedShard -> bool) (slots : ChunkSlots) : Z := len (filter (fun s => p s = true) (cs_shards slots)).
Definition node_score (local_node : option NodeId) (slots : ChunkSlots) : Z :=
  match local_node with None => 0 | Some node => count_shards (fun s => rsd_node_id s =? node) slots end.
Definition rack_score (local_rack : option string) (slots : ChunkSlots) : Z :=
  match local_rack with None => 0 | Some rack => count_shards (fun s => String.eqb (rsd_rack s) rack) slots end.
Fixpoint score_candidates (w : PdAnswers) (now : Z) (local_node : option NodeId) (local_rack : option string)
    (candidates : list ChunkId) (s : WritableSet) (scored : list Scored) : WritableSet * list Scored :=
  match candidates with
  | [] => (s, scored)
  | chunk_id :: candidates =>
      let '(m, r) := ChunkMap_get w now (wset_chunk_map s) chunk_id in
      let s := set_chunk_map s m in
      match r with
      | Err _ => score_candidates w now local_node local_rack candidates (WritableSet_evict s chunk_id) scored
      | Ok slots =>
          if negb (cs_writable slots)
          then score_candidates w now local_node local_rack candidates (WritableSet_evict s chunk_id) scored
          else
            let e := {| sc_node := node_score local_node slots; sc_rack := rack_score local_rack slots; sc_pos := len scored;
                        sc_chunk := {| wc_chunk_id := chunk_id; wc_slots := slots |} |} in
            score_candidates w now local_node local_rack candidates s (scored ++ [e])
      end
  end.
(** The comparison of the sort: scores descending, then the position. *)
Definition scored_le (a b : Scored) : Prop :=
  sc_node b < sc_node a \/ (sc_node a = sc_node b /\ (sc_rack b < sc_rack a \/ (sc_rack a = sc_rack b /\ sc_pos a <= sc_pos b))).
#[export] Instance scored_le_dec : RelDecision scored_le.
Proof. intros a b. unfold scored_le. apply _. Defined.
Fixpoint take_while {A} (p : A -> bool) (l : list A) : list A :=
  match l with [] => [] | x :: l => if p x then x :: take_while p l else [] end.
Definition same_score (a b : Scored) : bool := (sc_node a =? sc_node b) && (sc_rack a =? sc_rack b).

Definition pick (w : PdAnswers) (now : Z) (local_node : option NodeId) (s : WritableSet) : WritableSet * option WritableChunk :=
  let s := if WritableSet_is_stale s now then (WritableSet_refresh w now s).1 else s in
  let candidates := wset_chunks s in
  let cursor := wset_cursor s in
  match candidates with
  | [] => (s, None)
  | _ =>
      let local_rack := node ← local_node; nt_rack <$> topo_node (cmap_topology (wset_chunk_map s)) node in
      let '(s, scored) := score_candidates w now local_node local_rack candidates s [] in
      match merge_sort scored_le scored with
      | [] => (s, None)
      | (best :: _) as sorted =>
          let top := take_while (same_score best) sorted in
          let chosen := sc_chunk (nth (Z.to_nat (cursor mod len top)) top best) in
          (set_cursor s (wrap 64 (cursor + 1)), Some chosen)
      end
  end.
End Caches.

(** ** Buckets (bucket_cache.rs) *)

Inductive PbNsMode : Set := NsUnspecified | NsFlat | NsHier.
Definition PbNsMode_from (v : Z) : PbNsMode := match v with 0 => NsUnspecified | 1 => NsFlat | 2 => NsHier | _ => NsFlat end.
Record BucketView : Set := { bv_name : string; bv_bucket_id : Z; bv_ns_mode : Z; bv_inline_threshold : Z; bv_codemode_id : Z; bv_engine : Z; bv_created_at : Z }.
Record BucketInfo : Set := { bki_bucket_id : Z; bki_ns_mode : PbNsMode; bki_inline_threshold : Z; bki_codemode_id : Z }.
Definition BucketInfo_from_proto (b : BucketView) : BucketInfo :=
  {| bki_bucket_id := bv_bucket_id b; bki_ns_mode := PbNsMode_from (bv_ns_mode b); bki_inline_threshold := bv_inline_threshold b;
     bki_codemode_id := bv_codemode_id b |}.
Abbreviation BucketCache := (gmap string BucketInfo) (only parsing).
Definition BucketCache_refresh (answer : result ClientError (list BucketView)) (c : BucketCache) : BucketCache * result ClientError unit :=
  match answer with
  | Err e => (c, Err e)
  | Ok buckets => (foldl (fun m b => <[bv_name b := BucketInfo_from_proto b]> m) ∅ buckets, Ok tt)
  end.
Definition BucketCache_resolve (answer : result ClientError (list BucketView)) (c : BucketCache) (name : string)
    : BucketCache * result ClientError BucketInfo :=
  match c !! name with
  | Some info => (c, Ok info)
  | None =>
      let '(c, r) := BucketCache_refresh answer c in
      match r with
      | Err e => (c, Err e)
      | Ok _ => (c, ok_or (c !! name) (CE_NotFound name))
      end
  end.

(** ** Credentials (credential_cache.rs) *)

Record CredentialView : Set := { crv_access_key : string; crv_secret_key : string; crv_all_buckets : bool; crv_allowed_buckets : list string; crv_role : Z }.
Record CachedCredential : Set := { cc_secret_key : string; cc_allowed_buckets : option (list string) }.
Definition CachedCredential_allows_bucket (c : CachedCredential) (bucket : string) : bool :=
  match cc_allowed_buckets c with None => true | Some l => existsb (String.eqb bucket) l end.
Abbreviation CredentialCache := (gmap string CachedCredential) (only parsing).
Definition cached_credential (c : CredentialView) : CachedCredential :=
  {| cc_secret_key := crv_secret_key c; cc_allowed_buckets := if crv_all_buckets c then None else Some (crv_allowed_buckets c) |}.
Definition CredentialCache_refresh (answer : result ClientError (list CredentialView)) (c : CredentialCache)
    : CredentialCache * result ClientError unit :=
  match answer with
  | Err e => (c, Err e)
  | Ok creds => (foldl (fun m v => <[crv_access_key v := cached_credential v]> m) ∅ creds, Ok tt)
  end.
Definition CredentialCache_resolve (answer : result ClientError (list CredentialView)) (c : CredentialCache) (access_key : string)
    : CredentialCache * result ClientError (option CachedCredential) :=
  match c !! access_key with
  | Some cred => (c, Ok (Some cred))
  | None =>
      let '(c, r) := CredentialCache_refresh answer c in
      match r with Err e => (c, Err e) | Ok _ => (c, Ok (c !! access_key)) end
  end.

(** ** Proofs

    The chunk caches of the client: [pick] against a reference definition, and
    reads of a chunk with a disk that is not healthy. *)

Section Pick.
Context {SocketAddr : Set} (parse_addr : string -> option SocketAddr).
Context (w : @PdAnswers) (now : Z).

Abbreviation refreshed t := (refresh_if_stale parse_addr w now t).

(** In one operation a second refresh finds what the first found. *)
Lemma refresh_if_stale_idem (t : Topology) : refreshed (refreshed t) = refreshed t.
Proof.
  unfold refresh_if_stale. destruct (Topology_is_stale t now) eqn:E; [|by rewrite E].
  unfold Topology_refresh. destruct (pa_list_nodes w) as [[nodes disks]|e]; cbn [fst]; [|by rewrite E].
  clear E. cbn [tp_interval]. by destruct (Topology_is_stale _ now).
Qed.

(** What a chunk resolves to: its cached entry, or the driver's view through the
    refreshed topology. *)
Definition resolved (m : ChunkMap) (c : ChunkId) : result ClientError (@ChunkSlots SocketAddr) :=
  match cmap_entries m !! c with
  | Some slots => Ok slots
  | None => view <-? pa_get_chunk w c ;; resolve_view (refreshed (cmap_topology m)) view
  end.
Definition usable (m : ChunkMap) (c : ChunkId) : option WritableChunk :=
  match resolved m c with
  | Ok slots => if cs_writable slots then Some {| wc_chunk_id := c; wc_slots := slots |} else None
  | Err _ => None
  end.

Lemma ChunkMap_get_spec m c : exists m', ChunkMap_get parse_addr w now m c = (m', resolved m c)
  /\ refreshed (cmap_topology m') = refreshed (cmap_topology m)
  /\ forall c', c' <> c -> cmap_entries m' !! c' = cmap_entries m !! c'.
Proof.
  unfold ChunkMap_get, resolved. destruct (cmap_entries m !! c) as [slots|]; [by exists m|].
  destruct (pa_get_chunk w c) as [view|e]; [|eexists; split_and!; [done| |done]; apply refresh_if_stale_idem].
  destruct (resolve_view _ view); (eexists; split_and!; [done|apply refresh_if_stale_idem|]); cbn; intros c' Hc; [|done].
  by rewrite lookup_insert_ne.
Qed.

Section Scores.
Context (local_node : option NodeId) (local_rack : option string).

Definition score (c : @WritableChunk SocketAddr) : Z * Z := (node_score local_node (wc_slots c), rack_score local_rack (wc_slots c)).
Fixpoint numbered (i : Z) (l : list (@WritableChunk SocketAddr)) : list Scored :=
  match l with
  | [] => []
  | c :: l => {| sc_node := (score c).1; sc_rack := (score c).2; sc_pos := i; sc_chunk := c |} :: numbered (i + 1) l
  end.

Lemma numbered_snoc l c i : numbered i (l ++ [c]) = numbered i l ++ numbered (i + len l) [c].
Proof.
  revert i. induction l as [|d l IH]; intros i; [cbn; by rewrite Z.add_0_r|].
  cbn [app]. rewrite len_cons, Z.add_assoc. cbn [numbered]. rewrite IH. done.
Qed.
Lemma len_numbered l i : len (numbered i l) = len l.
Proof. revert i. induction l as [|c l IH]; intros i; [done|]. cbn. by rewrite !len_cons, IH. Qed.

Lemma evict_get (s : @WritableSet SocketAddr) m c : wset_chunk_map (WritableSet_evict (set_chunk_map s m) c) = ChunkMap_invalidate m c.
Proof. done. Qed.

(** The candidates are resolved one by one; those that cannot be used are evicted. *)
Lemma score_candidates_spec cands : forall (s : @WritableSet SocketAddr) done_, NoDup cands ->
  exists s', score_candidates parse_addr w now local_node local_rack cands s (numbered 0 done_)
             = (s', numbered 0 (done_ ++ omap (usable (wset_chunk_map s)) cands))
    /\ wset_chunks s' = filter (fun c => c ∈ cands -> is_Some (usable (wset_chunk_map s) c)) (wset_chunks s)
    /\ wset_cursor s' = wset_cursor s.
Proof.
  induction cands as [|c cands IH]; intros s done_ Hnd.
  { exists s. cbn. rewrite app_nil_r. split_and!; try done. symmetry. apply filter_all_true. intros x _ Hx. by apply not_elem_of_nil in Hx. }
  apply NoDup_cons in Hnd as [Hc Hnd]. cbn [score_candidates].
  destruct (ChunkMap_get_spec (wset_chunk_map s) c) as (m & Em & Ht & He). rewrite Em.
  assert (forall m', refreshed (cmap_topology m') = refreshed (cmap_topology m) ->
            (forall c', c' ∈ cands -> cmap_entries m' !! c' = cmap_entries m !! c') ->
            forall c', c' ∈ cands -> usable m' c' = usable (wset_chunk_map s) c') as Hsame.
  { intros m' Ht' He' c' Hin. assert (c' <> c) by (by intros ->). unfold usable, resolved. rewrite He', He by done. by rewrite Ht', Ht. }
  assert (forall m', (forall c', c' ∈ cands -> usable m' c' = usable (wset_chunk_map s) c') ->
            omap (usable m') cands = omap (usable (wset_chunk_map s)) cands) as Hom.
  { clear -SocketAddr. intros m' Hs. induction cands as [|c' cands IH]; [done|]. cbn. rewrite (Hs c') by left. rewrite IH; [done|]. intros ? ?. apply Hs. by right. }
  assert (usable (wset_chunk_map s) c = None -> exists s', score_candidates parse_addr w now local_node local_rack cands
      (WritableSet_evict (set_chunk_map s m) c) (numbered 0 done_) = (s', numbered 0 (done_ ++ omap (usable (wset_chunk_map s)) (c :: cands)))
    /\ wset_chunks s' = filter (fun x => x ∈ c :: cands -> is_Some (usable (wset_chunk_map s) x)) (wset_chunks s)
    /\ wset_cursor s' = wset_cursor s) as Hevict.
  { intros Hu. destruct (IH (WritableSet_evict (set_chunk_map s m) c) done_ Hnd) as (s' & E & Hch & Hcu). rewrite evict_get in E, Hch.
    assert (forall c', c' ∈ cands -> usable (ChunkMap_invalidate m c) c' = usable (wset_chunk_map s) c') as Hs.
    { apply Hsame; [done|]. intros c' Hin. cbn. rewrite lookup_delete_ne; [done|]. by intros ->. }
    exists s'. rewrite E, (Hom _ Hs). cbn [omap list_omap]. rewrite Hu. split_and!; [done| |done].
    rewrite Hch. cbn [wset_chunks WritableSet_evict set_chunk_map]. rewrite list_filter_filter. apply list_filter_iff. intros x.
    rewrite elem_of_cons. destruct (decide (x = c)) as [->|Hne].
    - rewrite Hu. split; [by intros [_ ?]|]. intros Hx. exfalso. by destruct (Hx (or_introl eq_refl)).
    - split; [intros [Hx _] [?|Hin]; [done|]; rewrite <- Hs by done; by apply Hx|].
      intros Hx. split; [|done]. intros Hin. rewrite Hs by done. apply Hx. by right. }
  unfold usable in Hevict at 1. destruct (resolved (wset_chunk_map s) c) as [slots|e] eqn:Er; [|by apply Hevict].
  destruct (cs_writable slots) eqn:Ew; cbn [negb]; [|by apply Hevict]. clear Hevict.
  assert (usable (wset_chunk_map s) c = Some {| wc_chunk_id := c; wc_slots := slots |}) as Hu by (unfold usable; by rewrite Er, Ew).
  set (wc := {| wc_chunk_id := c; wc_slots := slots |}) in *.
  destruct (IH (set_chunk_map s m) (done_ ++ [wc]) Hnd) as (s' & E & Hch & Hcu). rewrite numbered_snoc in E. cbn [wset_chunk_map set_chunk_map] in E, Hch.
  assert (forall c', c' ∈ cands -> usable m c' = usable (wset_chunk_map s) c') as Hs by by apply Hsame.
  exists s'. rewrite len_numbered. change (0 + len done_) with (len done_) in E. rewrite (Hom _ Hs), <- app_assoc in E. cbn [numbered score fst snd] in E.
  cbn [omap list_omap]. rewrite Hu. split_and!; [exact E| |done].
  rewrite Hch. apply list_filter_iff. intros x. rewrite elem_of_cons. split.
  - intros Hx [->|Hin]; [by rewrite Hu|]. rewrite <- Hs by done. by apply Hx.
  - intros Hx Hin. rewrite Hs by done. apply Hx. by right.
Qed.

Lemma numbered_pos i l e : e ∈ numbered i l -> i <= sc_pos e.
Proof.
  revert i. induction l as [|c l IH]; intros i Hin; [by apply not_elem_of_nil in Hin|].
  cbn in Hin. apply elem_of_cons in Hin as [->|Hin]; [cbn; lia|]. apply IH in Hin. lia.
Qed.
Lemma numbered_sorted i l : StronglySorted (fun a b => sc_pos a < sc_pos b) (numbered i l).
Proof.
  revert i. induction l as [|c l IH]; intros i; [constructor|]. cbn. constructor; [apply IH|].
  apply Forall_forall. intros e He%numbered_pos. cbn. lia.
Qed.

(** ** The best candidates *)

#[export] Instance scored_le_total : Total (@scored_le SocketAddr).
Proof. intros a b. unfold scored_le. lia. Qed.
#[export] Instance scored_le_trans : Transitive (@scored_le SocketAddr).
Proof. intros a b c. unfold scored_le. lia. Qed.

Definition pair_le (a b : Z * Z) : Prop := a.1 < b.1 \/ (a.1 = b.1 /\ a.2 <= b.2).
#[export] Instance pair_le_dec : RelDecision pair_le.
Proof. intros a b. unfold pair_le. apply _. Defined.
(** The candidates no other candidate beats, in the order they were published. *)
Definition best_of (l : list (@WritableChunk SocketAddr)) : list WritableChunk :=
  filter (fun c => Forall (fun c' => pair_le (score c') (score c)) l) l.

(** In a sorted list the elements that tie with the head are its prefix. *)
Lemma take_while_ties (best : @Scored SocketAddr) l : StronglySorted scored_le l -> Forall (scored_le best) l ->
  take_while (same_score best) l = filter (fun e => same_score best e = true) l.
Proof.
  intros Hs Hf. induction Hs as [|e l Hs IH Hle]; [done|]. apply Forall_cons in Hf as [He Hf]. cbn [take_while].
  destruct (same_score best e) eqn:E; [rewrite filter_cons_True by done; by rewrite IH|].
  rewrite filter_cons_False by by rewrite E. symmetry.
  assert (forall x, x ∈ l -> same_score best x = false) as Hno.
  { intros x Hx. rewrite Forall_forall in Hle. specialize (Hle x Hx). unfold same_score, scored_le in *.
    apply andb_false_iff in E. apply andb_false_iff. destruct (Z.eqb_spec (sc_node best) (sc_node e)), (Z.eqb_spec (sc_rack best) (sc_rack e)),
      (Z.eqb_spec (sc_node best) (sc_node x)), (Z.eqb_spec (sc_rack best) (sc_rack x)); lia || tauto. }
  clear -Hno. induction l as [|x l IH]; [done|]. rewrite filter_cons_False by (rewrite (Hno x) by left; done). apply IH. intros y Hy. apply Hno. by right.
Qed.
Lemma sorted_ties (best : @Scored SocketAddr) l i : Forall (scored_le best) (numbered i l) ->
  filter (fun e => same_score best e = true) (merge_sort scored_le (numbered i l))
  = filter (fun e => same_score best e = true) (numbered i l).
Proof.
  intros Hf. apply (StronglySorted_unique_strong (fun a b => sc_pos a <= sc_pos b)).
  - intros x y Hx Hy Hxy Hyx. rewrite list_elem_of_filter, merge_sort_Permutation in Hx. rewrite list_elem_of_filter in Hy.
    destruct Hx as [_ Hx], Hy as [_ Hy]. pose proof (numbered_sorted i l) as Hs. revert Hx Hy.
    assert (sc_pos x = sc_pos y) as Heq by lia. clear -Hs Heq.
    induction Hs as [|e l0 Hs IH Hle]; intros Hx Hy; [by apply not_elem_of_nil in Hx|]. rewrite Forall_forall in Hle.
    apply elem_of_cons in Hx as [->|Hx], Hy as [->|Hy]; [done|specialize (Hle _ Hy); lia|specialize (Hle _ Hx); lia|by apply IH].
  - pose proof (StronglySorted_merge_sort scored_le (numbered i l)) as Hs. clear Hf.
    induction Hs as [|e l0 Hs IH Hle]; [constructor|]. destruct (decide (same_score best e = true)) as [E|E].
    + rewrite filter_cons_True by done. constructor; [done|]. rewrite Forall_forall in Hle |- *. intros x [Ex Hx]%list_elem_of_filter.
      specialize (Hle x Hx). unfold same_score, scored_le in *. lia.
    + by rewrite filter_cons_False.
  - pose proof (numbered_sorted i l) as Hs. clear Hf. induction Hs as [|e l0 Hs IH Hle]; [constructor|].
    destruct (decide (same_score best e = true)) as [E|E]; [|by rewrite filter_cons_False].
    rewrite filter_cons_True by done. constructor; [done|]. rewrite Forall_forall in Hle |- *. intros x [_ Hx]%list_elem_of_filter.
    specialize (Hle x Hx). lia.
  - by rewrite merge_sort_Permutation.
Qed.
Lemma numbered_elem i l e : e ∈ numbered i l -> sc_chunk e ∈ l /\ (sc_node e, sc_rack e) = score (sc_chunk e).
Proof.
  revert i. induction l as [|c l IH]; intros i He; [by apply not_elem_of_nil in He|]. cbn in He.
  apply elem_of_cons in He as [->|He]; [split; [by left|done]|]. destruct (IH _ He). split; [by right|done].
Qed.
Lemma numbered_has i l c : c ∈ l -> exists e, e ∈ numbered i l /\ sc_chunk e = c.
Proof.
  revert i. induction l as [|d l IH]; intros i Hc; [by apply not_elem_of_nil in Hc|]. cbn.
  apply elem_of_cons in Hc as [->|Hc]; [eexists; split; [by left|done]|]. destruct (IH (i + 1) Hc) as (e & ? & ?). exists e. split; [by right|done].
Qed.
(** Filtering the numbered list is filtering the chunks. *)
Lemma filter_numbered (P : Scored -> Prop) (Q : @WritableChunk SocketAddr -> Prop) `{!forall e, Decision (P e)} `{!forall c, Decision (Q c)} i l :
  (forall e, e ∈ numbered i l -> (P e <-> Q (sc_chunk e))) -> sc_chunk <$> filter P (numbered i l) = filter Q l.
Proof.
  revert i. induction l as [|c l IH]; intros i Hiff; [done|]. cbn [numbered] in *. set (e := {| sc_node := _; sc_rack := _; sc_pos := _; sc_chunk := _ |}) in *.
  specialize (Hiff e ltac:(by left)) as He. assert (forall e', e' ∈ numbered (i + 1) l -> (P e' <-> Q (sc_chunk e'))) as Hrest
    by (intros e' He'; apply Hiff; by right).
  destruct (decide (P e)) as [E|E].
  - rewrite filter_cons_True by done. rewrite (filter_cons_True _ c) by by apply He. cbn [fmap list_fmap]. f_equal. by apply IH.
  - rewrite filter_cons_False by done. rewrite (filter_cons_False _ c) by (intros Hc; by apply E, He). by apply IH.
Qed.
Lemma ties_best (best : @Scored SocketAddr) l : best ∈ numbered 0 l -> Forall (scored_le best) (numbered 0 l) ->
  sc_chunk <$> filter (fun e => same_score best e = true) (numbered 0 l) = best_of l.
Proof.
  intros Hin Hf. apply filter_numbered. intros e He. destruct (numbered_elem _ _ _ He) as [_ <-]. destruct (numbered_elem _ _ _ Hin) as [Hbl Hbs].
  rewrite Forall_forall in Hf. split.
  - intros Es. apply Forall_forall. intros c' Hc'. destruct (numbered_has 0 _ _ Hc') as (e' & He' & <-). destruct (numbered_elem _ _ _ He') as [_ <-].
    specialize (Hf e' He'). unfold same_score, scored_le, pair_le in *. cbn. lia.
  - intros Hall. rewrite Forall_forall in Hall. specialize (Hall _ Hbl). rewrite <- Hbs in Hall. specialize (Hf e He).
    unfold same_score, scored_le, pair_le in *. cbn in Hall. apply andb_true_iff. rewrite !Z.eqb_eq. lia.
Qed.
End Scores.
End Pick.

(** The set [pick] works on: refreshed when stale. *)
Definition current_set {SocketAddr : Set} (w : PdAnswers) (now : Z) (s : @WritableSet SocketAddr) : WritableSet :=
  if WritableSet_is_stale s now then (WritableSet_refresh w now s).1 else s.

(** C30: picking a chunk for a write is exact: from the published chunks (each once)
    [pick] keeps in the set exactly those that resolve to a writable chunk and
    evicts the others, returns nothing only if none is left, and otherwise returns
    one of the chunks with most shards on the local node and, among those, on its
    rack, as the reference definition [best_of] names them. Among several the cursor
    takes them in strict rotation, where the comment at the head of the source file
    has them drawn at random by weight. *)
Theorem pick_exact {SocketAddr : Set} (parse_addr : string -> option SocketAddr) : forall w now local_node (s : @WritableSet SocketAddr),
  let s1 := current_set w now s in
  NoDup (wset_chunks s1) ->
  let m := wset_chunk_map s1 in
  let local_rack := node ← local_node; nt_rack <$> topo_node (cmap_topology m) node in
  let best := best_of local_node local_rack (omap (usable parse_addr w now m) (wset_chunks s1)) in
  let '(s', r) := pick parse_addr w now local_node s in
  wset_chunks s' = filter (fun c => is_Some (usable parse_addr w now m c)) (wset_chunks s1)
  /\ r = match best with [] => None | c :: _ => Some (nth (Z.to_nat (wset_cursor s1 mod len best)) best c) end
  /\ wset_cursor s' = if bool_decide (is_Some r) then wrap 64 (wset_cursor s1 + 1) else wset_cursor s1.
Proof.
  intros w now local_node s s1 Hnd m local_rack best. unfold pick. fold (current_set w now s). fold s1.
  assert (forall (X Y : @WritableSet SocketAddr * option WritableChunk),
    match wset_chunks s1 with [] => X | _ :: _ => Y end = if decide (wset_chunks s1 = []) then X else Y) as -> by (intros; by destruct (wset_chunks s1)).
  destruct (decide (wset_chunks s1 = [])) as [E0|_]; [unfold best; by rewrite E0|]. fold m. fold local_rack.
  destruct (score_candidates_spec parse_addr w now local_node local_rack (wset_chunks s1) s1 [] Hnd) as (s' & E & Hch & Hcu).
  cbn [numbered app] in E. rewrite E. fold m in Hch |- *. unfold best. clear best. set (us := omap (usable parse_addr w now m) (wset_chunks s1)) in *.
  assert (wset_chunks s' = filter (fun c => is_Some (usable parse_addr w now m c)) (wset_chunks s1)) as Hch'
    by (rewrite Hch; apply filter_ext_in; intros x Hx; tauto).
  pose proof (StronglySorted_merge_sort scored_le (numbered local_node local_rack 0 us)) as Hs.
  pose proof (merge_sort_Permutation scored_le (numbered local_node local_rack 0 us)) as Hp.
  pose proof (fun b => sorted_ties local_node local_rack b us 0) as Hst.
  destruct (merge_sort scored_le (numbered local_node local_rack 0 us)) as [|b sorted] eqn:Es.
  { assert (us = []) as -> by (destruct us; [done|]; apply Permutation_nil_l in Hp; done). done. }
  assert (Forall (scored_le b) (b :: sorted)) as Hb.
  { apply StronglySorted_inv in Hs as [_ Hs]. constructor; [|done]. unfold scored_le. lia. }
  assert (Forall (scored_le b) (numbered local_node local_rack 0 us)) as Hb'
    by (rewrite Forall_forall in Hb |- *; intros x Hx; apply Hb; by rewrite Hp).
  rewrite (take_while_ties b (b :: sorted) Hs Hb), (Hst b Hb').
  assert (b ∈ numbered local_node local_rack 0 us) as Hin by (rewrite <- Hp; by left).
  pose proof (ties_best local_node local_rack b us Hin Hb') as Ht.
  set (top := filter (fun e => same_score b e = true) _) in *. rewrite <- Ht. split_and!; [done| |by rewrite bool_decide_true].
  assert (b ∈ top) as Hbt by (apply list_elem_of_filter; split; [unfold same_score; by rewrite !Z.eqb_refl|done]).
  assert (0 < len top) as Hlen by (destruct top; [by apply not_elem_of_nil in Hbt|rewrite len_cons; pose proof (len_nonneg top); lia]).
  assert (exists e, top !! Z.to_nat (wset_cursor s1 mod len top) = Some e) as [e He].
  { apply lookup_lt_is_Some_2. pose proof (Z.mod_pos_bound (wset_cursor s1) (len top) Hlen). unfold len in *. lia. }
  assert (len (sc_chunk <$> top) = len top) as Hl by (unfold len; by rewrite length_fmap).
  rewrite Hl, (nth_lookup_Some _ _ _ _ He). destruct top as [|t top']; [done|]. cbn [fmap list_fmap] in *. f_equal. symmetry.
  apply nth_lookup_Some. change (sc_chunk t :: (sc_chunk <$> top')) with (sc_chunk <$> (t :: top')). by rewrite list_lookup_fmap, He.
Qed.

(** ** Chunks with an unhealthy disk *)

(** A refreshed topology knows the disks in status [Normal] only. *)
Lemma refresh_only_normal {SocketAddr : Set} (parse_addr : string -> option SocketAddr) w now (t t' : @Topology SocketAddr) nodes disks d :
  pa_list_nodes w = Ok (nodes, disks) -> Topology_refresh parse_addr w now t = (t', Ok tt) ->
  (forall i, i ∈ disks -> dk_id i = d -> dk_st i <> DISK_STATUS_NORMAL) -> disk_node t' d = None.
Proof.
  intros Hw E Hd. unfold Topology_refresh in E. rewrite Hw in E. injection E as <-. unfold disk_node. cbn [tp_disks].
  assert (foldl insert_disk (∅ : gmap Z Z) disks !! d = None) as ->; [|done].
  assert (forall l (m : gmap Z Z), (forall i, i ∈ l -> dk_id i = d -> dk_st i <> DISK_STATUS_NORMAL) -> m !! d = None -> foldl insert_disk m l !! d = None) as H.
  { clear. induction l as [|i l IH]; intros m Hl Hm; [done|]. cbn. apply IH; [intros j Hj; apply Hl; by right|]. unfold insert_disk.
    destruct (Z.eqb_spec (dk_st i) DISK_STATUS_NORMAL) as [Es|]; [|done]. rewrite lookup_insert_ne; [done|]. intros Hi. by apply (Hl i ltac:(by left) Hi). }
  by apply H.
Qed.
(** One shard on a disk the topology does not know is enough to fail the chunk. *)
Lemma resolve_shards_unknown {SocketAddr : Set} (t : @Topology SocketAddr) slots : forall i, i + len slots <= 256 ->
  Exists (fun v => disk_node t (sv_disk_id v) = None) slots ->
  exists e, resolve_shards t i slots = Err (CE_Internal e).
Proof.
  induction slots as [|v slots IH]; intros i Hi Hex; [by apply Exists_nil in Hex|]. rewrite len_cons in Hi. pose proof (len_nonneg slots).
  cbn [resolve_shards]. rewrite (proj2 (Z.ltb_ge _ _)) by lia. destruct (disk_node t (sv_disk_id v)) eqn:Ed; [|by eexists].
  apply Exists_cons in Hex as [Hv|Hex]; [congruence|]. destruct (negb _); [by eexists|].
  destruct (IH (i + 1) ltac:(lia) Hex) as [e ->]. by eexists.
Qed.

(** A gateway cannot read a chunk with one disk that is not [Normal]: when the
    topology is due and the placement driver reports a disk of the chunk as broken,
    under repair or draining, resolving the chunk fails, so no shard of it is read
    even though the others hold the data. *)
Theorem unhealthy_disk_unreadable {SocketAddr : Set} (parse_addr : string -> option SocketAddr) : forall w now (m : @ChunkMap SocketAddr) chunk_id nodes disks view,
  cmap_entries m !! chunk_id = None -> Topology_is_stale (cmap_topology m) now = true ->
  pa_list_nodes w = Ok (nodes, disks) -> pa_get_chunk w chunk_id = Ok view -> len (cv_shards view) <= 256 ->
  Exists (fun v => forall i, i ∈ disks -> dk_id i = sv_disk_id v -> dk_st i <> DISK_STATUS_NORMAL) (cv_shards view) ->
  exists m' e, ChunkMap_get parse_addr w now m chunk_id = (m', Err (CE_Internal e)) /\ cmap_entries m' !! chunk_id = None.
Proof.
  intros w now m c nodes disks view Hm Hst Hw Hv Hlen Hex. unfold ChunkMap_get, refresh_if_stale. rewrite Hm, Hst, Hv.
  destruct (Topology_refresh parse_addr w now (cmap_topology m)) as [t r] eqn:Et.
  assert (r = Ok tt) as -> by (unfold Topology_refresh in Et; rewrite Hw in Et; by injection Et).
  destruct (resolve_shards_unknown t (cv_shards view) 0) as [e He]; [lia| |].
  { apply (Exists_impl _ _ _ Hex). intros v Hd. by apply (refresh_only_normal parse_addr w now (cmap_topology m) t nodes disks). }
  cbn [fst]. unfold resolve_view. rewrite He. by eexists _, e.
Qed.

(** *** Evaluation: addresses as strings *)

Definition ex_node (id : Z) (rack : string) : NodeInfo := {| ni_id := id; ni_addr := "h:1"; ni_az := "a"; ni_rack := rack; ni_roles := 1; ni_st := 2 |}.
Definition ex_slot (disk : Z) : ShardView := {| sv_shard_prefix := 0; sv_disk_id := disk; sv_extent_id := zeros 16; sv_epoch := 1 |}.
Definition ex_mode : CodeMode := {| cm_id := 1; cm_data := 2; cm_parity := 1; cm_stripe_size := 64; cm_blob_size := 64 |}.
Definition ex_view (c : ChunkId) (disks : list Z) : ChunkView :=
  {| cv_chunk_id := c; cv_code_mode := Some ex_mode; cv_st := 1; cv_shards := ex_slot <$> disks |}.
(** Chunk 2 has two shards on node 1; disk 14 is draining. *)
Definition ex_answers : PdAnswers := {|
  pa_list_nodes := Ok ([ex_node 1 "r1"; ex_node 2 "r2"; ex_node 3 "r2"],
    [{| dk_id := 11; dk_node := 1; dk_path := "/d"; dk_st := 1 |}; {| dk_id := 12; dk_node := 2; dk_path := "/d"; dk_st := 1 |}; {| dk_id := 13; dk_node := 3; dk_path := "/d"; dk_st := 1 |};
     {| dk_id := 14; dk_node := 3; dk_path := "/d"; dk_st := 6 |}]);
  pa_get_chunk := fun c => if c =? 1 then Ok (ex_view 1 [11; 12; 13]) else if c =? 2 then Ok (ex_view 2 [11; 11; 13])
                           else Ok (ex_view c [11; 12; 14]);
  pa_writable := Ok [ex_view 1 []; ex_view 2 []; ex_view 3 []] |}.
Definition ex_set : @WritableSet string := {| wset_chunk_map := {| cmap_topology := Topology_new 30; cmap_entries := ∅ |};
  wset_interval := 30; wset_chunks := []; wset_cursor := 0; wset_last_refresh := None |}.

Lemma pick_exact_witness : exists s' c, pick Some ex_answers 100 (Some 1) ex_set = (s', Some c)
  /\ wset_chunks s' = [1; 2] /\ wc_chunk_id c = 2.
Proof.
  pose proof (pick_exact Some ex_answers 100 (Some 1) ex_set) as H. cbv zeta in H.
  assert (NoDup (wset_chunks (current_set ex_answers 100 ex_set))) as Hnd by (apply (bool_decide_unpack _); vm_compute; exact I).
  specialize (H Hnd). destruct (pick Some ex_answers 100 (Some 1) ex_set) as [s' r]. destruct H as (Hch & Hr & _).
  vm_compute in Hr. eexists s', _. rewrite Hr, Hch. split_and!; [done|vm_compute; reflexivity|reflexivity].
Defined.
Lemma unhealthy_disk_unreadable_witness : exists m' e,
  ChunkMap_get Some ex_answers 100 (wset_chunk_map ex_set) 3 = (m', Err (CE_Internal e)) /\ cmap_entries m' !! 3 = None.
Proof.
  eapply (unhealthy_disk_unreadable Some ex_answers 100 (wset_chunk_map ex_set) 3); try reflexivity; [vm_compute; discriminate|].
  right. right. left. apply (proj1 (Forall_forall (fun i => dk_id i = 14 -> dk_st i <> DISK_STATUS_NORMAL) _)).
  apply (bool_decide_unpack _). vm_compute. exact I.
Defined.
