(* ===== verification/PdJournal.v ===== *)
(** The journal of the placement driver (epoch-pd: journal/client.rs, error.rs and the
    leader reports of meta_mgr.rs): proposals to the replicated state machine, the
    memory only a leader keeps, and the sweeps that drive the life cycle of disks and
    writers. *)

From S2P Require Import Prelude Ids Rocks PdDb PdCluster PdChunk PdJob PdHeartbeat PdMeta PdState.

Inductive PdError : Set := PdStorageError | PdRaftError (m : string) | PdNotLeader.
Record LeaderReport : Set := {
  lr_leader : NodeId; lr_applied_index : Z; lr_inline_bytes : Z; lr_inline_count : Z; lr_total_bytes : Z; lr_last_seen_millis : Z }.

Section Journal.
Context {RDB : RocksDb no_merge} {LogId Membership : Set} `{!PdSerde LogId Membership}.

(** The replica's state machine, the heartbeat tracker and the partition leaders a
    leader remembers, and the number of proposals so far. *)
Record Journal : Type := {
  jn_sm : SmDb * PdState; jn_heartbeats : HeartbeatTracker; jn_leaders : gmap Z LeaderReport; jn_step : nat }.
Definition jn_state (j : Journal) : PdState := (jn_sm j).2.
Definition with_sm (j : Journal) (sm : SmDb * PdState) : Journal :=
  {| jn_sm := sm; jn_heartbeats := jn_heartbeats j; jn_leaders := jn_leaders j; jn_step := S (jn_step j) |}.
Definition with_heartbeats (j : Journal) (t : HeartbeatTracker) : Journal :=
  {| jn_sm := jn_sm j; jn_heartbeats := t; jn_leaders := jn_leaders j; jn_step := jn_step j |}.
Definition PartitionManager_record_leader (j : Journal) (partition_id : Z) (report : LeaderReport) : Journal :=
  {| jn_sm := jn_sm j; jn_heartbeats := jn_heartbeats j; jn_leaders := <[partition_id := report]> (jn_leaders j); jn_step := jn_step j |}.
Definition PartitionManager_leader (j : Journal) (partition_id : Z) : option LeaderReport := jn_leaders j !! partition_id.
Definition leaders_snapshot (j : Journal) : list (Z * LeaderReport) := sorted_entries (jn_leaders j).

(** What consensus answers a proposal: committed, behind entries of others that are
    applied first; forwarded; or failed. *)
Inductive RaftAnswer : Set :=
| RA_Committed (before : list (@LogEntry LogId Membership)) (log_id : LogId)
| RA_Forward
| RA_Failed.
Context (raft : nat -> RaftAnswer).
(** Whether the replica leads. *)
Context (is_leader : bool).

Definition Journal_propose (j : Journal) (entry : PdEntry) : Journal * result PdError ApplyResult :=
  match raft (jn_step j) with
  | RA_Forward => (with_sm j (jn_sm j), Err PdNotLeader)
  | RA_Failed => (with_sm j (jn_sm j), Err (PdRaftError "client write"))
  | RA_Committed before log_id =>
      let '(sm, r) := PdStateMachine_apply (jn_sm j) (before ++ [{| le_log_id := log_id; le_payload := Normal entry |}]) in
      (with_sm j sm, match r with
                     | Ok results => ok_or (last results) PdStorageError
                     | Err _ => Err PdStorageError
                     end)
  end.
Definition Journal_register_node (j : Journal) (addr az rack : string) (roles : Z) : Journal * result PdError NodeId :=
  let '(j, r) := Journal_propose j (PE_RegisterNode {| rn_addr := addr; rn_az := az; rn_rack := rack; rn_roles := roles |}) in
  (j, r <-? r ;; match r with AR_NodeRegistered id => Ok id | _ => Err (PdRaftError "register_node: unexpected apply result") end).
Definition Journal_update_disk_status (j : Journal) (disk_id : DiskId) (status : DiskStatus) : Journal * result PdError ApplyResult :=
  Journal_propose j (PE_UpdateDiskStatus {| ud_disk_id := disk_id; ud_status := status |}).
Definition Journal_create_job (j : Journal) (kind : JobKind) : Journal * result PdError ApplyResult :=
  Journal_propose j (PE_Job (JC_Create kind)).
Definition Journal_disk_free (j : Journal) (node_id : NodeId) (disk_id : DiskId) : option Z :=
  ds_free <$> disk_stats (jn_heartbeats j) node_id disk_id.
Definition Journal_disk_writable_extents (j : Journal) (node_id : NodeId) (disk_id : DiskId) : Z :=
  default 0 (ds_writable_extents <$> disk_stats (jn_heartbeats j) node_id disk_id).

(** ** Writers *)

Fixpoint propose_all (j : Journal) (l : list PdEntry) : Journal :=
  match l with [] => j | e :: l => propose_all (Journal_propose j e).1 l end.
Definition sweep_dead_writers (j : Journal) (now_millis dead_after_millis : Z) : Journal * nat :=
  if negb is_leader then (j, 0%nat)
  else
    let plan := dead_writer_plan (WriterManager_live_sessions (ps_writers (jn_state j)))
                  (fun node_id => staleness (jn_heartbeats j) node_id now_millis) dead_after_millis in
    (propose_all j (PE_MarkWriterDead <$> plan), length plan).

(** ** Disks *)

Definition is_status (j : Journal) (disk_id : DiskId) (status : DiskStatus) : bool :=
  match DiskManager_get (ps_disks (jn_state j)) disk_id with Some disk => bool_decide (d_status disk = status) | None => false end.
Definition succeeded {E A} (r : result E A) : bool := match r with Ok _ => true | Err _ => false end.
Fixpoint sweep_broken_loop (j : Journal) (broken : list (NodeId * DiskId)) (started : nat) : Journal * nat :=
  match broken with
  | [] => (j, started)
  | (_, disk_id) :: broken =>
      if negb (is_status j disk_id DS_Normal) then sweep_broken_loop j broken started
      else
        match Journal_update_disk_status j disk_id DS_Broken with
        | (j, Err _) => sweep_broken_loop j broken started
        | (j, Ok _) =>
            let '(j, _) := Journal_create_job j (RepairDisk disk_id) in
            let '(j, _) := Journal_update_disk_status j disk_id DS_Repairing in
            sweep_broken_loop j broken (S started)
        end
  end.
Definition sweep_broken_disks (j : Journal) : Journal * nat :=
  if negb is_leader then (j, 0%nat) else sweep_broken_loop j (broken_disks (jn_heartbeats j)) 0.

Definition done_repairs (p : PdState) : list DiskId :=
  omap (fun job => match j_kind job with RepairDisk d => if decide (j_state job = JS_Done) then Some d else None | _ => None end)
    (values (ji_jobs (ps_jobs p))).
Definition disk_empty (j : Journal) (disk_id : DiskId) : bool :=
  bool_decide (ChunkManager_shard_slots_on_disk (ps_chunks (jn_state j)) disk_id = []).
Fixpoint sweep_completed_loop (j : Journal) (disks : list DiskId) (advanced : nat) : Journal * nat :=
  match disks with
  | [] => (j, advanced)
  | disk_id :: disks =>
      if negb (is_status j disk_id DS_Repairing) || negb (disk_empty j disk_id) then sweep_completed_loop j disks advanced
      else
        let '(j, r) := Journal_update_disk_status j disk_id DS_Repaired in
        sweep_completed_loop j disks (if succeeded r then S advanced else advanced)
  end.
Definition sweep_completed_repairs (j : Journal) : Journal * nat :=
  if negb is_leader then (j, 0%nat) else sweep_completed_loop j (done_repairs (jn_state j)) 0.

Definition job_active (p : PdState) (kind : JobKind -> bool) : bool :=
  existsb (fun job => kind (j_kind job) && negb (bool_decide (j_state job = JS_Done))) (values (ji_jobs (ps_jobs p))).
Definition sweep_inspect_round (j : Journal) : Journal * bool :=
  if negb is_leader then (j, false)
  else if job_active (jn_state j) (fun k => match k with InspectRound => true | _ => false end) then (j, false)
  else let '(j, r) := Journal_create_job j InspectRound in (j, succeeded r).

Definition mark_disk_draining (j : Journal) (disk_id : DiskId) : Journal * result PdError bool :=
  if negb (is_status j disk_id DS_Normal) then (j, Ok false)
  else
    let '(j, r) := Journal_update_disk_status j disk_id DS_Draining in
    (j, r <-? r ;; Ok (match r with AR_Applied => true | _ => false end)).
(** [jobs]: the jobs when the sweep started. *)
Definition drops (jobs : list Job) (disk_id : DiskId) (done : bool) : bool :=
  existsb (fun job => bool_decide (j_kind job = DropDisk disk_id) && Bool.eqb (bool_decide (j_state job = JS_Done)) done) jobs.
Fixpoint sweep_draining_loop (j : Journal) (jobs : list Job) (draining : list DiskId) (started : nat) : Journal * nat :=
  match draining with
  | [] => (j, started)
  | disk_id :: draining =>
      let has_job := drops jobs disk_id false in
      let done := drops jobs disk_id true in
      if negb has_job && negb done then
        let '(j, r) := Journal_create_job j (DropDisk disk_id) in
        sweep_draining_loop j jobs draining (if succeeded r then S started else started)
      else if done && disk_empty j disk_id then
        let '(j, _) := Journal_update_disk_status j disk_id DS_Dropped in
        sweep_draining_loop j jobs draining started
      else sweep_draining_loop j jobs draining started
  end.
Definition sweep_draining_disks (j : Journal) : Journal * nat :=
  if negb is_leader then (j, 0%nat)
  else
    let draining := d_disk_id <$> filter (fun d => d_status d = DS_Draining) (values (di_disks (ps_disks (jn_state j)))) in
    sweep_draining_loop j (values (ji_jobs (ps_jobs (jn_state j)))) draining 0.

(** ** Sealing *)

(** The seals sent to the data nodes: node and extent of every shard whose disk is
    known. *)
Definition seal_fanout (p : PdState) (chunk_id : ChunkId) : list (NodeId * ExtentId) :=
  match ChunkManager_get (ps_chunks p) chunk_id with
  | None => []
  | Some chunk =>
      omap (fun slot => disk ← DiskManager_get (ps_disks p) (ss_disk_id slot); Some (d_node_id disk, ss_extent_id slot)) (c_shards chunk)
  end.
Definition Journal_seal_chunk (j : Journal) (chunk_id : ChunkId) : Journal * list (NodeId * ExtentId) * result PdError ApplyResult :=
  match Journal_propose j (PE_SealChunk {| slc_chunk_id := chunk_id |}) with
  | (j, Ok AR_Applied) => (j, seal_fanout (jn_state j) chunk_id, Ok AR_Applied)
  | (j, r) => (j, [], r)
  end.
End Journal.
