(* ===== verification/PdService.v ===== *)
(** The service of the placement driver (epoch-pd service.rs): the views it serves of
    the replicated state, the checks before a proposal, the answers to its outcome,
    and the reconciliation of partitions with what metadata nodes report. *)

From S2P Require Import Prelude Ids Rocks PdDb PdCluster PdChunk PdJob PdHeartbeat PdMeta PdState PdJournal Client.

(** ** Wire enums *)

Definition chunk_status_to_proto (s : ChunkStatus) : Z :=
  match s with CS_Writable => 1 | CS_Full => 2 | CS_Sealed => 3 | CS_Migrating => 4 | CS_Broken => 5 end.
Definition node_status_to_proto (s : NodeStatus) : Z :=
  match s with NS_Starting => 1 | NS_Live => 2 | NS_Offline => 3 | NS_Lost => 4 | NS_Decommissioned => 5 end.
Definition disk_status_to_proto (s : DiskStatus) : Z :=
  match s with DS_Normal => 1 | DS_Broken => 2 | DS_Repairing => 3 | DS_Repaired => 4 | DS_Dropped => 5 | DS_Draining => 6 end.
Definition console_role_from_proto (role : Z) : ConsoleRole := if role =? 2 then Admin else Readonly.
Definition console_role_to_proto (role : ConsoleRole) : Z := match role with Readonly => 1 | Admin => 2 end.
Definition ns_mode_to_proto (m : NsMode) : Z := match m with Flat => 1 | Hier => 2 end.
Definition meta_engine_to_proto (e : MetaEngine) : Z := match e with ME_Rocks => 1 | ME_Mem => 2 end.
Definition invalid (m : string) : Status := {| st_code := CInvalidArgument; st_message := m |}.
(** A number that is no variant reads as unspecified. *)
Definition ns_mode_from_proto (ns : Z) : result Status NsMode :=
  if ns =? 1 then Ok Flat else if ns =? 2 then Ok Hier else Err (invalid "ns_mode is required").
Definition meta_engine_from_proto (e : Z) : result Status MetaEngine :=
  if e =? 1 then Ok ME_Rocks else if e =? 2 then Ok ME_Mem else Err (invalid "engine is required").
Definition job_kind_to_proto (k : JobKind) : Z * Z :=
  match k with RepairDisk d => (1, d) | DropDisk d => (2, d) | Balance d => (3, d) | InspectRound => (4, 0) | GcRound => (5, 0) end.
Definition decode_code_mode_id (raw : Z) : result Status Z :=
  if raw <=? U16_MAX then Ok raw else Err (invalid "code_mode_id exceeds the 16-bit registry key").
Definition not_leader_now : Status := {| st_code := CFailedPrecondition; st_message := "pd node is not the leader" |}.
Definition failed (m : string) : Status := {| st_code := COther; st_message := m |}.
Definition precondition (m : string) : Status := {| st_code := CFailedPrecondition; st_message := m |}.
(** The two branches every write ends with. *)
Definition pd_status (e : PdError) : Status := match e with PdNotLeader => not_leader_now | _ => failed "proposal failed" end.

(** ** Views *)

Definition shard_slot_to_proto (s : ShardSlot) : ShardView :=
  {| sv_shard_prefix := ss_shard_prefix s; sv_disk_id := ss_disk_id s; sv_extent_id := ss_extent_id s; sv_epoch := ss_epoch s |}.
Definition chunk_to_proto (c : Chunk) : ChunkView := {|
  cv_chunk_id := c_chunk_id c; cv_code_mode := Some (c_code_mode c); cv_st := chunk_status_to_proto (c_status c);
  cv_shards := shard_slot_to_proto <$> c_shards c |}.
Definition node_info (n : Node) : NodeInfo :=
  {| ni_id := n_node_id n; ni_addr := n_addr n; ni_az := n_az n; ni_rack := n_rack n; ni_roles := n_roles n; ni_st := node_status_to_proto (n_status n) |}.
Definition disk_info (d : PdDisk) : DiskInfo := {| dk_id := d_disk_id d; dk_node := d_node_id d; dk_path := d_path d; dk_st := disk_status_to_proto (d_status d) |}.
Definition bucket_to_proto (b : BucketMeta) : BucketView := {|
  bv_name := bm_name b; bv_bucket_id := bm_bucket_id b; bv_ns_mode := ns_mode_to_proto (bm_ns_mode b);
  bv_inline_threshold := default 0 (bm_inline_threshold b); bv_codemode_id := bm_codemode_id b;
  bv_engine := meta_engine_to_proto (bm_engine b); bv_created_at := bm_created_at b |}.
Definition credential_info (p : string * Credential) : CredentialView := {|
  crv_access_key := p.1; crv_secret_key := cr_secret_key p.2; crv_all_buckets := bool_decide (cr_allowed_buckets p.2 = None);
  crv_allowed_buckets := default [] (cr_allowed_buckets p.2); crv_role := console_role_to_proto (cr_role p.2) |}.

(** A [BTreeMap] lists its keys in order. *)
Definition cred_le (x y : string * Credential) : Prop := String.leb x.1 y.1 = true.
#[export] Instance cred_le_dec : RelDecision cred_le.
Proof. intros x y. unfold cred_le. apply _. Defined.

(** ** Ranges of partitions *)

Definition validate_partition_bounds (ns : NsMode) (start end_ : PartitionBound) : result Status unit :=
  match ns with
  | Flat => if negb (pb_unbounded end_) && (HIER_BUCKET_BIT <? pb_bucket end_)
            then Err (invalid "flat partition end must not cross the hierarchical namespace bit") else Ok tt
  | Hier => if negb (pb_unbounded start) && (pb_bucket start <? HIER_BUCKET_BIT)
            then Err (invalid "hierarchical partition start must be at or above the namespace bit") else Ok tt
  end.
Definition bounded (b : PartitionBound) : option (Z * list Z) := if pb_unbounded b then None else Some (bound_coord b).
(** [x.is_none_or(|x| y.is_none_or(|y| y < x))] *)
Definition before (lo hi : option (Z * list Z)) : bool :=
  match hi with None => true | Some h => match lo with None => true | Some l => coord_ltb l h end end.
Definition overlaps (p : MetaPartition) (start end_ : PartitionBound) : bool :=
  before (bounded start) (bounded (mp_end p)) && before (bounded (mp_start p)) (bounded end_).
Definition find_overlap (existing : list MetaPartition) (ns : NsMode) (start end_ : PartitionBound) : option Z :=
  mp_partition_id <$> List.find (fun p => bool_decide (mp_ns p = ns) && overlaps p start end_) existing.

(** ** Peers of a partition *)

(** The order of [(az, node_id)]. *)
Definition az_le (a b : Node) : Prop := String.compare (n_az a) (n_az b) = Lt \/ (n_az a = n_az b /\ n_node_id a <= n_node_id b).
#[export] Instance az_le_dec : RelDecision az_le.
Proof. intros a b. unfold az_le. apply _. Defined.
Fixpoint pick_new_az (metas : list Node) (count : nat) (picked : list NodeId) (seen_az : list string) : list NodeId :=
  match metas with
  | [] => picked
  | node :: metas =>
      if (length picked =? count)%nat then picked
      else if decide (n_az node ∈ seen_az) then pick_new_az metas count picked seen_az
      else pick_new_az metas count (picked ++ [n_node_id node]) (n_az node :: seen_az)
  end.
Fixpoint pick_rest (metas : list Node) (count : nat) (picked : list NodeId) : list NodeId :=
  match metas with
  | [] => picked
  | node :: metas =>
      if (length picked =? count)%nat then picked
      else if decide (n_node_id node ∈ picked) then pick_rest metas count picked
      else pick_rest metas count (picked ++ [n_node_id node])
  end.
Definition pick_meta_peers (nodes : NodeIndex) (count : nat) : result Status (list NodeId) :=
  let metas := filter (fun n => RoleSet_contains (n_roles n) RoleSet_META = true /\ n_status n = NS_Live) (values (ni_nodes nodes)) in
  if (length metas <? count)%nat then Err (precondition "need more live META nodes")
  else
    let metas := merge_sort az_le metas in
    Ok (pick_rest metas count (pick_new_az metas count [] [])).

Section Service.
Context {RDB : RocksDb no_merge} {LogId Membership : Set} `{!PdSerde LogId Membership}.
Context (raft : nat -> RaftAnswer (LogId := LogId) (Membership := Membership)) (is_leader linearizable : bool) (threshold : WritableThreshold).
Implicit Types (j : Journal).

Definition node_addr (p : PdState) (id : NodeId) : string := default "" (n_addr <$> NodeManager_get (ps_nodes p) id).
Definition partition_to_proto j (p : MetaPartition) : MetaPartitionView :=
  let '(leader_node_id, leader_addr) :=
    match PartitionManager_leader j (mp_partition_id p) with
    | Some report => (lr_leader report, node_addr (jn_state j) (lr_leader report))
    | None => (0, "")
    end in
  {| pv_partition_id := mp_partition_id p; pv_ns := ns_mode_to_proto (mp_ns p);
     pv_start_bucket := pb_bucket (mp_start p); pv_start_key := pb_routing_key (mp_start p); pv_start_unbounded := pb_unbounded (mp_start p);
     pv_end_bucket := pb_bucket (mp_end p); pv_end_key := pb_routing_key (mp_end p); pv_end_unbounded := pb_unbounded (mp_end p);
     pv_peers := mp_peers p; pv_leader_node_id := leader_node_id; pv_leader_addr := leader_addr; pv_epoch := mp_epoch p |}.
Definition create_raft_group_request (p : MetaPartition) (s : PdState) : GroupRequest := {|
  gq_partition_id := mp_partition_id p; gq_ns := ns_mode_to_proto (mp_ns p);
  gq_start_bucket := pb_bucket (mp_start p); gq_start_key := pb_routing_key (mp_start p); gq_start_unbounded := pb_unbounded (mp_start p);
  gq_end_bucket := pb_bucket (mp_end p); gq_end_key := pb_routing_key (mp_end p); gq_end_unbounded := pb_unbounded (mp_end p);
  gq_peers := (fun id => {| peer_node_id := id; peer_addr := node_addr s id |}) <$> mp_peers p;
  gq_bootstrap_node_id := default 0 (head (mp_peers p)) |}.
(** The address and the request of a push; a peer that is not registered gets none. *)
Definition push_create_raft_group (s : PdState) (p : MetaPartition) (peer : NodeId) : option (string * GroupRequest) :=
  node ← NodeManager_get (ps_nodes s) peer; Some (n_addr node, create_raft_group_request p s).

(** ** Reads *)

Definition ensure_read_leader {T} (r : result Status T) : result Status T := if linearizable then r else Err (precondition "pd node is not the leader").
Definition disk_health j (disk_id : DiskId) : DiskHealth :=
  match DiskManager_get (ps_disks (jn_state j)) disk_id with
  | Some disk => if decide (d_status disk = DS_Normal) then DH_Usable (Journal_disk_free j (d_node_id disk) disk_id) else DH_Failed
  | None => DH_Unknown
  end.
Definition serve_get_writable_chunks j (code_mode_id : Z) : result Status (list ChunkView) :=
  ensure_read_leader
    (id <-? decode_code_mode_id code_mode_id ;;
     Ok (chunk_to_proto <$> filter (fun c => is_publishable c threshold (disk_health j) = true) (ChunkManager_writable_chunks (ps_chunks (jn_state j)) id))).
Definition serve_get_chunk j (chunk_id : ChunkId) : result Status ChunkView :=
  ensure_read_leader
    (ok_or (chunk_to_proto <$> ChunkManager_get (ps_chunks (jn_state j)) chunk_id) {| st_code := CNotFound; st_message := "chunk not found" |}).
Definition serve_list_disk_shards j (disk_id : DiskId) : result Status (list ShardView) :=
  ensure_read_leader (Ok (shard_slot_to_proto <$> ChunkManager_shard_slots_on_disk (ps_chunks (jn_state j)) disk_id)).
Definition serve_list_chunks j (after : ChunkId) (limit : Z) : result Status (list ChunkView) :=
  ensure_read_leader (Ok (chunk_to_proto <$> ChunkManager_list_chunks (ps_chunks (jn_state j)) after (Z.to_nat limit))).
Definition serve_list_nodes j : result Status (list NodeInfo * list DiskInfo) :=
  ensure_read_leader (Ok (node_info <$> values (ni_nodes (ps_nodes (jn_state j))), disk_info <$> values (di_disks (ps_disks (jn_state j))))).
Definition serve_list_buckets j : result Status (list BucketView) :=
  ensure_read_leader (Ok (bucket_to_proto <$> values (bx_buckets (ps_buckets (jn_state j))))).
Definition serve_get_config j (key : string) : result Status (bool * list Z) :=
  ensure_read_leader (let value := ps_configs (jn_state j) !! key in Ok (bool_decide (is_Some value), default [] value)).
Definition serve_list_credentials j : result Status (list CredentialView) :=
  ensure_read_leader (Ok (credential_info <$> merge_sort cred_le (map_to_list (ps_credentials (jn_state j))))).
Definition serve_get_route j (ns bucket : Z) (routing_key : list Z) : result Status (option MetaPartitionView) :=
  ensure_read_leader
    (ns <-? ns_mode_from_proto ns ;; Ok (partition_to_proto j <$> route (ps_partitions (jn_state j)) ns bucket routing_key)).
Definition serve_list_partitions j : result Status (list MetaPartitionView) :=
  ensure_read_leader (Ok (partition_to_proto j <$> values (px_partitions (ps_partitions (jn_state j))))).
(** Job id, kind, disk and watermark. *)
Definition serve_list_node_jobs j (node : NodeId) : result Status (list (Z * Z * Z * Z)) :=
  ensure_read_leader
    (Ok ((fun job => let '(kind, disk_id) := job_kind_to_proto (j_kind job) in (j_id job, kind, disk_id, j_progress_watermark job))
           <$> JobManager_jobs_for_coordinator (ps_jobs (jn_state j)) node)).
Definition serve_list_node_shard_repairs j (node : NodeId) : result Status (list (ChunkId * Z * Z)) :=
  ensure_read_leader
    (Ok ((fun t => (t_chunk_id t, t_index t, t_expected_epoch t)) <$> Registry_tickets_for_node (ps_shard_repairs (jn_state j)) node)).

(** ** Heartbeats *)

Definition serve_heartbeat j (now_millis : Z) (report : HeartbeatReport) : Journal * result Status unit :=
  if negb is_leader then (j, Err not_leader_now)
  else (with_heartbeats j (HeartbeatTracker_record (jn_heartbeats j) report now_millis), Ok tt).
Definition serve_writer_heartbeat j (now_millis : Z) (node_id : NodeId) (token : WriterToken) (commit_watermark : Z) : Journal * result Status bool :=
  if negb is_leader then (j, Err not_leader_now)
  else
    let '(t, live) := writer_heartbeat (ps_writers (jn_state j)) (jn_heartbeats j) now_millis node_id token commit_watermark in
    (with_heartbeats j t, Ok live).
Definition serve_get_live_writers j : result Status (list (WriterToken * NodeId * Z)) :=
  if negb is_leader then Err not_leader_now else Ok (live_writers_with_watermark (ps_writers (jn_state j)) (jn_heartbeats j)).

Record PartitionStat : Set := {
  pst_partition_id : Z; pst_leader_node_id : Z; pst_applied_index : Z; pst_inline_bytes : Z; pst_inline_count : Z; pst_total_bytes : Z }.
Definition record_stat (reporter : NodeId) (now : Z) j (stat : PartitionStat) : Journal :=
  if pst_leader_node_id stat =? reporter then
    PartitionManager_record_leader j (pst_partition_id stat)
      {| lr_leader := reporter; lr_applied_index := pst_applied_index stat; lr_inline_bytes := pst_inline_bytes stat;
         lr_inline_count := pst_inline_count stat; lr_total_bytes := pst_total_bytes stat; lr_last_seen_millis := now |}
  else j.
(** The pushes to the reporter: the groups it should host and does not report. *)
Definition serve_partition_heartbeat j (now : Z) (reporter : NodeId) (stats : list PartitionStat) (hosted : list Z)
    : Journal * result Status (list (string * GroupRequest)) :=
  if negb is_leader then (j, Err not_leader_now)
  else
    let j := with_heartbeats j (HeartbeatTracker_record (jn_heartbeats j) {| hr_node_id := reporter; hr_disks := [] |} now) in
    let j := foldl (record_stat reporter now) j stats in
    let missing := filter (fun p => mp_partition_id p ∉ hosted) (PartitionManager_partitions_on (ps_partitions (jn_state j)) reporter) in
    (j, Ok (omap (fun p => push_create_raft_group (jn_state j) p reporter) missing)).

(** ** Writes *)

Abbreviation proposing j e := (Journal_propose raft j e).
Definition serve_mark_disk_draining j (disk_id : DiskId) : Journal * result Status bool :=
  let '(j, r) := mark_disk_draining raft j disk_id in (j, match r with Ok b => Ok b | Err e => Err (pd_status e) end).
Definition serve_register_writer j (node_id : NodeId) : Journal * result Status WriterToken :=
  let '(j, r) := proposing j (PE_RegisterWriter {| rw_node_id := node_id |}) in
  (j, match r with
      | Ok (AR_WriterRegistered token) => Ok token
      | Ok (AR_Rejected RR_NodeNotFound) => Err {| st_code := CNotFound; st_message := "gateway node is not registered" |}
      | Ok _ => Err (failed "unexpected register_writer result")
      | Err e => Err (pd_status e)
      end).
Definition serve_register_node j (addr az rack : string) (roles : Z) : Journal * result Status NodeId :=
  if negb (roles <=? U8_MAX) then (j, Err (invalid "roles exceeds the 8-bit role bitset"))
  else let '(j, r) := Journal_register_node raft j addr az rack roles in (j, match r with Ok id => Ok id | Err e => Err (pd_status e) end).
Definition serve_register_disk j (cmd : RegisterDisk) : Journal * result Status DiskId :=
  let '(j, r) := proposing j (PE_RegisterDisk cmd) in
  (j, match r with
      | Ok (AR_DiskRegistered id) => Ok id
      | Ok (AR_Rejected RR_NodeNotFound) => Err {| st_code := CNotFound; st_message := "owning node is not registered" |}
      | Ok _ => Err (failed "unexpected register_disk result")
      | Err e => Err (pd_status e)
      end).
(** With the seals sent to data nodes. *)
Definition serve_seal_chunk j (chunk_id : ChunkId) : Journal * list (NodeId * ExtentId) * result Status unit :=
  let '(j, sent, r) := Journal_seal_chunk raft j chunk_id in
  (j, sent, match r with
            | Ok AR_Applied => Ok tt
            | Ok (AR_Rejected _) => Err {| st_code := CNotFound; st_message := "chunk cannot be sealed" |}
            | Ok _ => Err (failed "unexpected seal_chunk result")
            | Err e => Err (pd_status e)
            end).
Definition serve_create_bucket j (name : string) (ns_mode engine inline_threshold codemode_id created_at : Z) : Journal * result Status BucketId :=
  let checked :=
    if String.eqb name "" then Err (invalid "bucket name must not be empty")
    else
      ns <-? ns_mode_from_proto ns_mode ;; engine <-? meta_engine_from_proto engine ;;
      if codemode_id <=? U16_MAX
      then Ok {| cb_name := name; cb_ns_mode := ns; cb_inline_threshold := if 0 <? inline_threshold then Some inline_threshold else None;
                 cb_codemode_id := codemode_id; cb_engine := engine; cb_created_at := created_at |}
      else Err (invalid "codemode_id exceeds u16") in
  match checked with
  | Err e => (j, Err e)
  | Ok cmd =>
      let '(j, r) := proposing j (PE_CreateBucket cmd) in
      (j, match r with Ok (AR_BucketCreated id) => Ok id | Ok _ => Err (failed "unexpected create_bucket result") | Err e => Err (pd_status e) end)
  end.
Definition applied (r : result PdError ApplyResult) : result Status unit :=
  match r with Ok AR_Applied => Ok tt | Ok _ => Err (failed "unexpected result") | Err e => Err (pd_status e) end.
Definition serve_put_config j (key : string) (value : list Z) : Journal * result Status unit :=
  let '(j, r) := proposing j (PE_PutConfig {| pc_key := key; pc_value := value |}) in (j, applied r).
Definition serve_put_credential j (access_key secret_key : string) (all_buckets : bool) (allowed : list string) (role : Z) : Journal * result Status unit :=
  if String.eqb access_key "" then (j, Err (invalid "access_key must not be empty"))
  else
    let '(j, r) := proposing j (PE_PutCredential {| pcr_access_key := access_key; pcr_secret_key := secret_key;
                                pcr_allowed_buckets := if all_buckets then None else Some allowed; pcr_role := console_role_from_proto role |}) in
    (j, applied r).
(** With the pushes to the chosen peers. *)
Definition serve_create_partition j (ns : Z) (start end_ : PartitionBound) : Journal * list (option (string * GroupRequest)) * result Status MetaPartitionView :=
  let checked :=
    ns <-? ns_mode_from_proto ns ;;
    _ <-? validate_partition_bounds ns start end_ ;;
    match find_overlap (values (px_partitions (ps_partitions (jn_state j)))) ns start end_ with
    | Some _ => Err (precondition "range overlaps partition")
    | None =>
        peers <-? pick_meta_peers (ps_nodes (jn_state j)) 3 ;;
        Ok {| cp_ns := ns; cp_start := start; cp_end := end_; cp_peers := peers |}
    end in
  match checked with
  | Err e => (j, [], Err e)
  | Ok cmd =>
      match proposing j (PE_CreatePartition cmd) with
      | (j, Ok (AR_PartitionCreated id)) =>
          match px_partitions (ps_partitions (jn_state j)) !! id with
          | None => (j, [], Err (failed "partition missing after commit"))
          | Some p => (j, push_create_raft_group (jn_state j) p <$> mp_peers p, Ok (partition_to_proto j p))
          end
      | (j, Ok (AR_Rejected _)) => (j, [], Err (precondition "create_partition rejected"))
      | (j, Ok _) => (j, [], Err (failed "unexpected create_partition result"))
      | (j, Err e) => (j, [], Err (pd_status e))
      end
  end.
Definition serve_commit_job_progress j (now_millis job_id watermark : Z) (done : bool) : Journal * result Status unit :=
  if negb (job_id <=? U32_MAX) then (j, Err (invalid "job_id exceeds u32"))
  else
    let cmd := if done then JC_Complete job_id
               else JC_AdvanceWatermark job_id watermark (saturating_add 64 now_millis JOB_LEASE_MILLIS) in
    let '(j, r) := proposing j (PE_Job cmd) in
    (j, match r with Ok _ => Ok tt | Err e => Err (pd_status e) end).
(** The answer of the two rebinding calls: the new epoch, and whether it happened. *)
Definition rebind_answer (r : result PdError ApplyResult) : result Status (Z * bool) :=
  match r with
  | Ok (AR_ShardRebound new_epoch) => Ok (new_epoch, true)
  | Ok (AR_Rejected _) => Ok (0, false)
  | Ok _ => Err (failed "unexpected result")
  | Err e => Err (pd_status e)
  end.
Definition serve_commit_shard_mapping j (cmd : CommitShardMapping) : Journal * result Status (Z * bool) :=
  if negb (csm_job_id cmd <=? U32_MAX) then (j, Err (invalid "job_id exceeds u32"))
  else if negb (csm_index cmd <=? U8_MAX) then (j, Err (invalid "shard index exceeds u8"))
  else let '(j, r) := proposing j (PE_CommitShardMapping cmd) in (j, rebind_answer r).
Definition serve_report_shard_repair j (chunk_id : ChunkId) (index : Z) : Journal * result Status bool :=
  if negb (index <=? U8_MAX) then (j, Err (invalid "shard index exceeds u8"))
  else
    let '(j, r) := proposing j (PE_ReportShardRepair {| rsr_chunk_id := chunk_id; rsr_index := index |}) in
    (j, match r with
        | Ok (AR_ShardRepairReported created) => Ok created
        | Ok (AR_Rejected _) => Ok false
        | Ok _ => Err (failed "unexpected report_shard_repair result")
        | Err e => Err (pd_status e)
        end).
Definition serve_commit_shard_repair j (cmd : CommitShardRepair) : Journal * result Status (Z * bool) :=
  if negb (csr_index cmd <=? U8_MAX) then (j, Err (invalid "shard index exceeds u8"))
  else let '(j, r) := proposing j (PE_CommitShardRepair cmd) in (j, rebind_answer r).

(** What a client is answered while the leader's state stays as it is. *)
Definition answers j (code_mode_id : Z) : PdAnswers := {|
  pa_list_nodes := match serve_list_nodes j with Ok r => Ok r | Err e => Err (from_status e) end;
  pa_get_chunk := fun c => match serve_get_chunk j c with Ok r => Ok r | Err e => Err (from_status e) end;
  pa_writable := match serve_get_writable_chunks j code_mode_id with Ok r => Ok r | Err e => Err (from_status e) end |}.
End Service.
