(* ===== verification/PdServiceProps.v ===== *)
(** The service of the placement driver: a granted partition overlaps no other and
    has distinct live replicas; what gateways resolve is what the tables hold. *)

From S2P Require Import Prelude Ids Rocks PdDb PdCluster PdChunk PdChunkInv PdJob PdHeartbeat PdMeta PdMetaInv PdState PdInv PdRaft PdRoute PdJournal Client PdService.

(** ** Ranges *)

Lemma coord_leb_ltb_trans a b c : coord_leb a b = true -> coord_ltb b c = true -> coord_ltb a c = true.
Proof. rewrite coord_leb_list, !coord_ltb_list. apply lex_leb_ltb_trans. Qed.
(** Two ranges with a name in common overlap. *)
Lemma common_overlaps p q b k : interval_contains p b k = true -> interval_contains q b k = true -> overlaps p (mp_start q) (mp_end q) = true.
Proof.
  unfold interval_contains, overlaps, before, bounded. intros [Ps Pe]%andb_true_iff [Qs Qe]%andb_true_iff.
  apply andb_true_iff. split.
  - destruct (pb_unbounded (mp_end p)); [done|]. destruct (pb_unbounded (mp_start q)); [done|]. by eapply coord_leb_ltb_trans.
  - destruct (pb_unbounded (mp_end q)); [done|]. destruct (pb_unbounded (mp_start p)); [done|]. by eapply coord_leb_ltb_trans.
Qed.
Lemma find_overlap_none existing ns start end_ p : find_overlap existing ns start end_ = None -> p ∈ existing -> mp_ns p = ns ->
  overlaps p start end_ = false.
Proof.
  unfold find_overlap. intros E Hin Hns. destruct (List.find _ existing) eqn:Ef; [done|]. apply list_elem_of_In in Hin.
  pose proof (find_none _ _ Ef _ Hin) as H. cbn in H. rewrite bool_decide_true in H by done. done.
Qed.
(** The later start of two ranges that overlap is in both. *)
Lemma overlap_at p q : 0 <= (start_coord p).1 -> 0 <= (start_coord q).1 ->
  interval_contains p (start_coord p).1 (start_coord p).2 = true -> coord_leb (start_coord p) (start_coord q) = true ->
  before (bounded (mp_start q)) (bounded (mp_end p)) = true -> interval_contains p (start_coord q).1 (start_coord q).2 = true.
Proof.
  intros Hp0 Hq0 Hp Hle Hb. rewrite interval_contains_list in * by done. rewrite coord_leb_list in Hle.
  apply andb_true_iff in Hp as [_ Hp]. apply andb_true_iff. split; [exact Hle|].
  destruct (pb_unbounded (mp_start q)) eqn:Eq.
  - assert (coord_list (start_coord p) = coord_list (start_coord q)) as E.
    { apply lex_leb_antisym; [done|]. assert (start_coord q = (0, [])) as -> by (unfold start_coord, start_key; by rewrite Eq).
      destruct (start_coord p) as [a l]. cbn in Hp0. unfold lex_leb, coord_list. cbn. destruct (Z.ltb_spec a 0); [lia|]. by destruct (a =? 0), l. }
    unfold coord_list in E. by rewrite E in Hp.
  - unfold before, bounded in Hb. rewrite Eq in Hb. unfold end_ok. destruct (pb_unbounded (mp_end p)); [done|].
    unfold start_coord, start_key. rewrite Eq. exact Hb.
Qed.
(** Conversely, ranges that hold their starts and overlap have a name in common. *)
Lemma overlaps_common p q : 0 <= (start_coord p).1 -> 0 <= (start_coord q).1 ->
  interval_contains p (start_coord p).1 (start_coord p).2 = true -> interval_contains q (start_coord q).1 (start_coord q).2 = true ->
  overlaps p (mp_start q) (mp_end q) = true ->
  exists b k, 0 <= b /\ interval_contains p b k = true /\ interval_contains q b k = true.
Proof.
  intros Hp0 Hq0 Hp Hq [Ho1 Ho2]%andb_true_iff. destruct (coord_leb (start_coord p) (start_coord q)) eqn:Hle.
  - exists (start_coord q).1, (start_coord q).2. split; [done|]. split; [|done]. by apply (overlap_at p q).
  - exists (start_coord p).1, (start_coord p).2. split; [done|]. split; [done|]. apply (overlap_at q p); [done..| |done].
    rewrite coord_leb_list in *. destruct (lex_leb_total (coord_list (start_coord p)) (coord_list (start_coord q))) as [E|]; [by rewrite E in Hle|done].
Qed.
(** A range that overlaps no other, and holds its own start, can be added. *)
Lemma create_tiling parts id q : tiling parts -> parts !! id = None ->
  (forall i p, parts !! i = Some p -> mp_ns p = mp_ns q -> overlaps p (mp_start q) (mp_end q) = false) ->
  0 <= (start_coord q).1 -> interval_contains q (start_coord q).1 (start_coord q).2 = true -> tiling (<[id := q]> parts).
Proof.
  intros [Ts Td] Hid Hov H0 Hc. constructor.
  - intros i p. rewrite lookup_insert_Some. intros [[<- <-]|[_ Hp]]; [done|by eapply Ts].
  - intros i j p p' b k. rewrite !lookup_insert_Some. intros [[<- <-]|[Hi Hp]] [[<- <-]|[Hj Hp']] Hns Hb Hcp Hcp'; [done| | |by eapply Td].
    + pose proof (Hov _ _ Hp' (eq_sym Hns)) as H. by rewrite (common_overlaps _ _ _ _ Hcp' Hcp) in H.
    + pose proof (Hov _ _ Hp Hns) as H. by rewrite (common_overlaps _ _ _ _ Hcp Hcp') in H.
Qed.

(** ** Peers *)

Section Peers.
Context (count : nat).
Record picking (metas : list Node) (picked : list NodeId) : Prop := {
  pk_nodup : NoDup picked; pk_sub : picked ⊆ n_node_id <$> metas; pk_len : (length picked <= count)%nat }.
Lemma pick_new_az_ok all metas : forall picked seen, picking all picked -> NoDup (n_node_id <$> metas) -> metas ⊆ all ->
  (forall n, n ∈ metas -> n_node_id n ∉ picked) -> picking all (pick_new_az metas count picked seen).
Proof.
  induction metas as [|node metas IH]; intros picked seen Hp Hnd Hsub Hnew; cbn [pick_new_az]; [done|].
  rewrite fmap_cons in Hnd. apply NoDup_cons in Hnd as [Hn Hnd].
  destruct (Nat.eqb_spec (length picked) count); [done|]. destruct (decide _).
  { apply IH; [done|done|intros x Hx; apply Hsub; by right|intros x Hx; apply Hnew; by right]. }
  destruct Hp as [P1 P2 P3]. apply IH; [|done|intros x Hx; apply Hsub; by right|].
  - constructor; [|intros x; rewrite elem_of_app, list_elem_of_singleton; intros [?| ->]; [by apply P2|]|rewrite length_app; cbn; lia].
    + apply NoDup_app. split; [done|]. split; [|apply NoDup_singleton]. intros x Hx ->%list_elem_of_singleton. by apply (Hnew node); [left|].
    + apply list_elem_of_fmap. exists node. split; [done|]. apply Hsub. by left.
  - intros x Hx. rewrite elem_of_app, list_elem_of_singleton. intros [Hp|He]; [by apply (Hnew x); [right|]|].
    apply Hn. rewrite <- He. by apply list_elem_of_fmap_2.
Qed.
Lemma pick_rest_ok all metas : forall picked, picking all picked -> metas ⊆ all ->
  let r := pick_rest metas count picked in
  picking all r /\ picked ⊆ r /\ (length r = count \/ (n_node_id <$> metas) ⊆ r).
Proof.
  induction metas as [|node metas IH]; intros picked Hp Hsub; cbn [pick_rest]; [split_and!; [done|done|right; apply list_subseteq_nil]|].
  assert (metas ⊆ all) by (intros x Hx; apply Hsub; by right).
  destruct (Nat.eqb_spec (length picked) count); [split_and!; [done|done|by left]|]. destruct (decide _) as [Hin|Hin].
  - destruct (IH picked Hp) as (H1 & H2 & H3); [done|]. split_and!; [done|done|]. destruct H3 as [H3|H3]; [by left|right].
    rewrite fmap_cons. intros x [->|Hx]%elem_of_cons; [by apply H2|by apply H3].
  - destruct Hp as [P1 P2 P3]. destruct (IH (picked ++ [n_node_id node])) as (H1 & H2 & H3); [|done|].
    + constructor; [|intros x; rewrite elem_of_app, list_elem_of_singleton; intros [?| ->]; [by apply P2|]|rewrite length_app; cbn; lia].
      * apply NoDup_app. split; [done|]. split; [|apply NoDup_singleton]. by intros x Hx ->%list_elem_of_singleton.
      * apply list_elem_of_fmap. exists node. split; [done|]. apply Hsub. by left.
    + assert (picked ⊆ picked ++ [n_node_id node]) by (intros x Hx; apply elem_of_app; by left).
      split_and!; [done|by etransitivity|]. destruct H3 as [H3|H3]; [by left|right].
      rewrite fmap_cons. intros x [->|Hx]%elem_of_cons; [apply H2, elem_of_app; right; by left|by apply H3].
Qed.
End Peers.

Definition live_meta (n : Node) : Prop := RoleSet_contains (n_roles n) RoleSet_META = true /\ n_status n = NS_Live.
Definition live_metas (nodes : NodeIndex) : list Node :=
  filter (fun n => RoleSet_contains (n_roles n) RoleSet_META = true /\ n_status n = NS_Live) (values (ni_nodes nodes)).
Lemma pick_meta_peers_ok nodes count : (forall id n, ni_nodes nodes !! id = Some n -> n_node_id n = id) ->
  match pick_meta_peers nodes count with
  | Ok peers => NoDup peers /\ length peers = count
      /\ (forall id, id ∈ peers -> exists n, ni_nodes nodes !! id = Some n /\ live_meta n)
  | Err e => (length (live_metas nodes) < count)%nat /\ st_code e = CFailedPrecondition
  end.
Proof.
  intros Hid. unfold pick_meta_peers. fold (live_metas nodes). set (metas := live_metas nodes).
  destruct (Nat.ltb_spec (length metas) count) as [Hl|Hl]; [done|].
  pose proof (merge_sort_Permutation az_le metas) as Hperm. set (sorted := merge_sort az_le metas) in *.
  assert (NoDup (n_node_id <$> metas)) as Hnd.
  { eapply sublist_NoDup; [apply sorted_lt_NoDup, (values_sorted _ _ Hid)|]. apply fmap_sublist, sublist_filter. }
  assert (NoDup (n_node_id <$> sorted)) as Hnd' by (by rewrite Hperm).
  assert (picking count sorted (pick_new_az sorted count [] [])) as Hp1.
  { apply pick_new_az_ok; [|done|done|intros * _; apply not_elem_of_nil]. constructor; [constructor|apply list_subseteq_nil|cbn; lia]. }
  destruct (pick_rest_ok count sorted sorted _ Hp1) as ([R1 R2 R3] & _ & Hfull); [done|].
  set (r := pick_rest sorted count _) in *. split; [done|]. split.
  - destruct Hfull as [E|Hsub]; [done|]. pose proof (NoDup_incl_length (l := n_node_id <$> sorted) (l' := r)) as H.
    rewrite length_fmap, (Permutation_length Hperm) in H. assert (length metas <= length r)%nat; [|lia].
    apply H; [by apply NoDup_ListNoDup|]. intros x. rewrite <- !list_elem_of_In. apply Hsub.
  - intros id [n [-> Hn]]%R2%list_elem_of_fmap. rewrite Hperm in Hn.
    apply list_elem_of_filter in Hn as [Hm [i Hi]%elem_of_values]. exists n. by rewrite (Hid _ _ Hi).
Qed.

(** ** Granting a partition *)

Section Granting.
Context {RDB : RocksDb no_merge} {LogId Membership : Set} `{!PdSerde LogId Membership}.
Context (raft : nat -> RaftAnswer (LogId := LogId) (Membership := Membership)).
Implicit Types (j : Journal).

Lemma peers_accepted p peers : (forall id, id ∈ peers -> exists n, ni_nodes (ps_nodes p) !! id = Some n /\ live_meta n) -> peers_reject p peers = None.
Proof.
  induction peers as [|id peers IH]; intros H; cbn [peers_reject]; [done|].
  destruct (H id) as (n & Hn & Hm & _); [by left|]. unfold NodeManager_get. rewrite Hn, Hm. cbn [negb].
  apply IH. intros i Hi. apply H. by right.
Qed.
Lemma create_room db b index cmd : is_Some (db !! META_PARTITION_CF) -> px_next_id index + 1 < 2 ^ 64 ->
  succeeded (PartitionManager_apply_create db cmd (b, index)).2 = true.
Proof.
  intros [d Hd] Hr. unfold PartitionManager_apply_create. run_st. destruct (List.find _ _); [done|].
  unfold checked_add. destruct (Z.ltb_spec (px_next_id index + 1) (2 ^ 64)); [|lia]. cbn [ok_or]. by open_st Hd.
Qed.
Definition created (cmd : CreatePartition) (id : Z) : MetaPartition :=
  {| mp_partition_id := id; mp_ns := cp_ns cmd; mp_start := cp_start cmd; mp_end := cp_end cmd; mp_peers := cp_peers cmd; mp_epoch := 1 |}.

(** A command that is committed next is applied to the state as it is. *)
Lemma propose_one j cmd log b p' r : raft (jn_step j) = RA_Committed [] log -> pd_inv (jn_sm j) -> entry_wf cmd ->
  bx_next_id (ps_buckets (jn_state j)) + 1 <= 2 ^ 63 -> apply_command (jn_sm j).1 cmd ([], (jn_sm j).2) = ((b, p'), Ok r) ->
  exists j', Journal_propose raft j cmd = (j', Ok r) /\ pd_inv (jn_sm j') /\ jn_state j' = p' /\ jn_leaders j' = jn_leaders j.
Proof.
  intros Hr Hi Hwf Hb Ha. unfold Journal_propose. rewrite Hr. cbn [app].
  destruct (sm_apply_ok (jn_sm j) [{| le_log_id := log; le_payload := Normal cmd |}]) as (s' & rs & E & Hs); [done|by repeat constructor|done|].
  rewrite E. destruct (jn_sm j) as [db p]. destruct Hi as [Hdb Hok]. destruct (Hdb META_CF) as [d Hd]; [auto with pd|]. cbn [fst snd] in *.
  unfold PdStateMachine_apply in E. cbn [last apply_entries] in E. unfold sbind, apply_entry, sret, open_cf in E. cbn [le_payload] in E.
  rewrite Ha in E. cbn [fst snd] in E. rewrite Hd in E. cbn [ok_or] in E. injection E as <- <-. cbn [ok_or last].
  eexists. split; [done|]. by destruct Hs.
Qed.

(** A creation that is committed next: the caches of the other managers stay. *)
Lemma propose_create j cmd log : raft (jn_step j) = RA_Committed [] log -> pd_inv (jn_sm j) ->
  bx_next_id (ps_buckets (jn_state j)) + 1 <= 2 ^ 63 -> px_next_id (ps_partitions (jn_state j)) + 1 < 2 ^ 64 ->
  peers_reject (jn_state j) (cp_peers cmd) = None ->
  exists j' id, Journal_propose raft j (PE_CreatePartition cmd) = (j', Ok (AR_PartitionCreated id))
    /\ pd_inv (jn_sm j') /\ ps_nodes (jn_state j') = ps_nodes (jn_state j) /\ jn_leaders j' = jn_leaders j
    /\ (ps_partitions (jn_state j') = ps_partitions (jn_state j)
          /\ (exists p, px_partitions (ps_partitions (jn_state j)) !! id = Some p /\ mp_ns p = cp_ns cmd
                /\ mp_start p = cp_start cmd /\ mp_end p = cp_end cmd)
        \/ id = px_next_id (ps_partitions (jn_state j))
          /\ px_partitions (ps_partitions (jn_state j')) = <[id := created cmd id]> (px_partitions (ps_partitions (jn_state j)))).
Proof.
  intros Hr Hi Hb Hn Hp. pose proof Hi as [Hdb Hok]. unfold jn_state in *. destruct (jn_sm j) as [db p] eqn:Ej. cbn [fst snd] in *.
  destruct (partition_create_ok db [] (ps_partitions p) cmd) as (b' & i & r & E & _ & Hpart); [auto with pd|apply Hok|].
  pose proof (create_room db [] (ps_partitions p) cmd ltac:(auto with pd) Hn) as Hs. rewrite E in Hs. destruct r as [id|]; [|done].
  destruct (propose_one j (PE_CreatePartition cmd) log b' (set_partitions i p) (AR_PartitionCreated id)) as (j' & Ep & Hi' & Es & El).
  { done. } { by rewrite Ej. } { done. } { unfold jn_state. by rewrite Ej. }
  { rewrite Ej. cbn [apply_command fst snd]. run_st. rewrite Hp. unfold zoom. cbn [fst snd]. by rewrite E. }
  exists j', id. split; [done|]. split; [done|]. unfold jn_state in Es. rewrite Es, El. split; [done|]. split; [done|]. cbn [ps_partitions set_partitions].
  destruct Hpart as (_ & _ & (q & Hq & ?) & [->|[-> ->]]); [left; eauto|by right].
Qed.

(** The range of a request. *)
Definition span (ns : NsMode) (start end_ : PartitionBound) : MetaPartition :=
  {| mp_partition_id := 0; mp_ns := ns; mp_start := start; mp_end := end_; mp_peers := []; mp_epoch := 0 |}.
Definition shares_name (q p : MetaPartition) : Prop :=
  mp_ns p = mp_ns q /\ exists b k, 0 <= b /\ interval_contains p b k = true /\ interval_contains q b k = true.
Definition starts_inside (q : MetaPartition) : Prop :=
  0 <= (start_coord q).1 /\ interval_contains q (start_coord q).1 (start_coord q).2 = true.
Lemma find_overlap_spec parts ns start end_ : tiling parts -> starts_inside (span ns start end_) ->
  match find_overlap (values parts) ns start end_ with
  | Some _ => exists id p, parts !! id = Some p /\ shares_name (span ns start end_) p
  | None => forall id p, parts !! id = Some p -> mp_ns p = ns -> overlaps p start end_ = false
  end.
Proof.
  intros Ht [Hq0 Hq]. destruct (find_overlap _ _ _ _) eqn:E.
  - unfold find_overlap in E. apply fmap_Some in E as (p & E & _). apply List.find_some in E as [Hin E].
    apply list_elem_of_In, elem_of_values in Hin as [id Hp]. apply andb_true_iff in E as [Hns%bool_decide_eq_true Ho].
    exists id, p. split; [done|]. split; [done|]. destruct (tl_start _ Ht _ _ Hp) as [Hp0 Hpc].
    exact (overlaps_common p (span ns start end_) Hp0 Hq0 Hpc Hq Ho).
  - intros id p Hp Hns. eapply find_overlap_none; [done| |done]. apply elem_of_values. eauto.
Qed.
Lemma nodes_own_ids s : pd_inv s -> forall id n, ni_nodes (ps_nodes s.2) !! id = Some n -> n_node_id n = id.
Proof. intros [_ Hok] id n Hn. by apply (mg_id _ _ _ _ (no_managed _ _ _ (pd_nodes _ _ _ Hok))) in Hn as [? _]. Qed.
Lemma pushes_reach s p (peers : list NodeId) : (forall id, id ∈ peers -> exists n, ni_nodes (ps_nodes s) !! id = Some n /\ live_meta n) ->
  push_create_raft_group s p <$> peers = (fun peer => Some (node_addr s peer, create_raft_group_request p s)) <$> peers.
Proof.
  intros H. apply list_fmap_ext. intros i id Hi. destruct (H id) as (n & Hn & _); [by eapply list_elem_of_lookup_2|].
  unfold push_create_raft_group, node_addr, NodeManager_get. by rewrite Hn.
Qed.

(** C11: creating a metadata partition. Of a well-formed request, with a quiet log (the
    proposal is committed and nothing else with it): when the range has a name in common
    with a partition of its namespace, or fewer than three metadata nodes are live, it is
    refused and nothing is proposed. Otherwise it is granted: the partition gets a fresh
    id and three distinct live metadata nodes, each of which is sent the group to host;
    the ranges stay disjoint; every name of the range is routed to the new partition and
    every name that was covered is routed as before. Two requests at once are not covered:
    the check is made before the proposal ([creation_race_overlaps]). *)
Theorem create_partition_exact j raw ns start end_ log :
  raft (jn_step j) = RA_Committed [] log -> pd_inv (jn_sm j) -> tiling (px_partitions (ps_partitions (jn_state j))) ->
  bx_next_id (ps_buckets (jn_state j)) + 1 <= 2 ^ 63 -> px_next_id (ps_partitions (jn_state j)) + 1 < 2 ^ 64 ->
  ns_mode_from_proto raw = Ok ns -> validate_partition_bounds ns start end_ = Ok tt -> starts_inside (span ns start end_) ->
  let parts := px_partitions (ps_partitions (jn_state j)) in
  let id := px_next_id (ps_partitions (jn_state j)) in
  ((exists i p, parts !! i = Some p /\ shares_name (span ns start end_) p) \/ (length (live_metas (ps_nodes (jn_state j))) < 3)%nat ->
     exists e, serve_create_partition raft j raw start end_ = (j, [], Err e) /\ st_code e = CFailedPrecondition)
  /\ ((forall i p, parts !! i = Some p -> ~ shares_name (span ns start end_) p) -> (3 <= length (live_metas (ps_nodes (jn_state j))))%nat ->
      exists j' peers, let p := {| mp_partition_id := id; mp_ns := ns; mp_start := start; mp_end := end_; mp_peers := peers; mp_epoch := 1 |} in
        let index' := ps_partitions (jn_state j') in
        serve_create_partition raft j raw start end_
        = (j', (fun peer => Some (node_addr (jn_state j') peer, create_raft_group_request p (jn_state j'))) <$> peers, Ok (partition_to_proto j' p))
        /\ parts !! id = None /\ NoDup peers /\ length peers = 3%nat
        /\ (forall i, i ∈ peers -> exists n, ni_nodes (ps_nodes (jn_state j')) !! i = Some n /\ live_meta n)
        /\ pd_inv (jn_sm j') /\ tiling (px_partitions index')
        /\ (forall b k, 0 <= b -> interval_contains p b k = true -> route index' ns b k = Some p)
        /\ (forall i q b k, parts !! i = Some q -> 0 <= b -> interval_contains q b k = true -> route index' (mp_ns q) b k = Some q)).
Proof.
  intros Hr Hi Ht Hb Hn Hns Hv Hs parts id. pose proof (find_overlap_spec parts ns start end_ Ht Hs) as Hf.
  unfold serve_create_partition. rewrite Hns. rewrite Hv. fold parts. split.
  - intros Hwhy. destruct (find_overlap _ _ _ _); [by eexists|]. pose proof (pick_meta_peers_ok (ps_nodes (jn_state j)) 3 (nodes_own_ids _ Hi)) as Hpk.
    destruct (pick_meta_peers _ _) as [peers|e]; [|exists e; split; [done|apply Hpk]].
    destruct Hwhy as [(i & p & Hp & Hsh)|Hfew].
    2:{ destruct Hpk as (Hnd & Hlen & Hlive). exfalso. revert Hfew. apply Nat.le_ngt. rewrite <- Hlen.
        rewrite <- (length_fmap n_node_id (live_metas (ps_nodes (jn_state j)))). apply submseteq_length, NoDup_submseteq; [done|].
        intros id' (n & Hn' & Hl)%Hlive. apply list_elem_of_fmap. exists n. split; [symmetry; by apply (nodes_own_ids _ Hi)|].
        apply list_elem_of_filter. split; [exact Hl|]. apply elem_of_values. by exists id'. }
    destruct Hsh as (Hpn & b & k & _ & Hc & Hc').
    pose proof (Hf _ _ Hp Hpn) as Ho. pose proof (common_overlaps p (span ns start end_) b k Hc Hc') as Ho'. cbn in Ho'. congruence.
  - intros Hno Hm. destruct (find_overlap _ _ _ _). { destruct Hf as (i & p & Hp & Hsh). by destruct (Hno i p Hp). }
    pose proof (pick_meta_peers_ok (ps_nodes (jn_state j)) 3 (nodes_own_ids _ Hi)) as Hpk.
    destruct (pick_meta_peers _ _) as [peers|e]; [|lia]. destruct Hpk as (Hnd & Hlen & Hlive).
    destruct (propose_create j {| cp_ns := ns; cp_start := start; cp_end := end_; cp_peers := peers |} log) as (j' & id' & Ep & Hi' & En & _ & Hcase);
      [done..|by apply peers_accepted|]. rewrite Ep. cbn [cp_ns cp_start cp_end] in Hcase.
    destruct Hcase as [(_ & q & Hq & Q1 & Q2 & Q3)|[-> Ei]].
    { destruct (Hno _ _ Hq). split; [done|]. destruct Hs as [S0 S1]. exists (start_coord (span ns start end_)).1, (start_coord (span ns start end_)).2.
      split; [done|]. split; [|done]. unfold interval_contains in *. by rewrite Q2, Q3. }
    rewrite Ei, lookup_insert_eq. cbn [created cp_ns cp_start cp_end cp_peers mp_peers].
    assert (parts !! id = None) as Hfresh.
    { destruct (parts !! id) as [q|] eqn:Hq; [|done]. destruct Hi as [_ Hok]. apply (pk_id _ (pk_inv _ _ _ (pd_partitions _ _ _ Hok))) in Hq as [_ ?].
      unfold id, jn_state in *. lia. }
    assert (tiling (px_partitions (ps_partitions (jn_state j')))) as Ht'.
    { rewrite Ei. apply create_tiling; [done|done|exact Hf|apply Hs|apply Hs]. }
    assert (partition_inv (ps_partitions (jn_state j'))) as Hpi by (destruct Hi' as [_ Hok]; apply (pk_inv _ _ _ (pd_partitions _ _ _ Hok))).
    rewrite <- En in Hlive. exists j', peers. rewrite pushes_reach by done. split; [done|]. do 4 (split; [done|]). do 2 (split; [done|]). split.
    + intros b k Hb0 Hc. eapply (route_covering _ _ _ _ id); [done..|by rewrite Ei, lookup_insert_eq|done|done].
    + intros i q b k Hq Hb0 Hc. eapply (route_covering _ _ _ _ i); [done..| |done|done]. rewrite Ei, lookup_insert_ne; [done|]. intros E. rewrite <- E in Hq. fold id in Hq. congruence.
Qed.
End Granting.

(** ** Concrete requests *)

Section ServiceExample.
#[local] Existing Instance cells_rocks.
Definition ex_live (i : Z) := PE_UpdateNodeStatus {| un_node_id := i; un_status := NS_Live |}.
Definition ex_meta (addr az : string) := PE_RegisterNode {| rn_addr := addr; rn_az := az; rn_rack := "r"; rn_roles := RoleSet_META |}.
Definition ex_low : CreatePartition := {| cp_ns := Flat; cp_start := unbounded_start; cp_end := bound_at 5 []; cp_peers := [1; 2; 3] |}.
Definition ex_metas : list (LogEntry (LogId := Z) (Membership := Z)) :=
  [ex_entry 1 (ex_meta "m1:1" "a"); ex_entry 2 (ex_meta "m2:1" "a"); ex_entry 3 (ex_meta "m3:1" "b");
   ex_entry 4 (ex_live 1); ex_entry 5 (ex_live 2); ex_entry 6 (ex_live 3); ex_entry 7 (PE_CreatePartition ex_low)].
Definition ex_ring := (PdStateMachine_apply ex_s0 ex_metas).1.
Definition ex_journal : Journal := {| jn_sm := ex_ring; jn_heartbeats := HeartbeatTracker_new; jn_leaders := ∅; jn_step := 0 |}.
Definition ex_raft (_ : nat) : RaftAnswer (LogId := Z) (Membership := Z) := RA_Committed [] 8.
Lemma ex_ring_inv : pd_inv ex_ring.
Proof. apply sm_apply_inv; [apply fresh_inv|repeat constructor; by vm_compute|by vm_compute|vm_compute; reflexivity]. Qed.
Lemma ex_ring_parts : px_partitions (ps_partitions ex_ring.2) = {[1 := created ex_low 1]}.
Proof. vm_compute. reflexivity. Qed.
Lemma ex_ring_tiling : tiling (px_partitions (ps_partitions ex_ring.2)).
Proof.
  rewrite ex_ring_parts. split; [by intros id p [<- <-]%lookup_singleton_Some|].
  by intros i j p q b k [<- <-]%lookup_singleton_Some [<- <-]%lookup_singleton_Some.
Qed.

Lemma create_partition_exact_witness : exists j' pushes v,
  serve_create_partition ex_raft ex_journal 1 (bound_at 5 []) unbounded_end = (j', pushes, Ok v)
  /\ (mp_partition_id <$> route (ps_partitions (jn_state j')) Flat 9 [3]) = Some 2
  /\ (mp_partition_id <$> route (ps_partitions (jn_state j')) Flat 4 [3]) = Some 1.
Proof.
  destruct (create_partition_exact ex_raft ex_journal 1 Flat (bound_at 5 []) unbounded_end 8) as [_ Hgrant];
    [reflexivity|exact ex_ring_inv|exact ex_ring_tiling|vm_compute; discriminate|vm_compute; reflexivity|reflexivity|reflexivity|split; [done|reflexivity]|].
  unfold ex_journal, jn_state in Hgrant. cbn [jn_sm] in Hgrant. rewrite ex_ring_parts in Hgrant.
  destruct Hgrant as (j' & peers & E & _ & _ & _ & _ & _ & _ & Hnew & Hold).
  { intros i p [<- <-]%lookup_singleton_Some (_ & b & k & _ & Hc & Hc'). unfold interval_contains in Hc, Hc'. cbn in Hc, Hc'.
    unfold coord_leb in Hc'. rewrite Hc in Hc'. discriminate. }
  { vm_compute; lia. }
  eexists j', _, _. split; [exact E|]. split.
  - rewrite Hnew; [vm_compute; reflexivity|lia|reflexivity].
  - rewrite (Hold 1 (created ex_low 1)); [reflexivity|apply lookup_singleton_eq|lia|reflexivity].
Defined.

(** A request for an empty range that starts where a partition starts overlaps
    nothing: it is granted, and hides that partition from every route. *)
Lemma empty_range_shadows :
  let j1 := (serve_create_partition ex_raft ex_journal 1 (bound_at 5 []) unbounded_end).1.1 in
  let '(j2, _, r) := serve_create_partition ex_raft j1 1 (bound_at 5 []) (bound_at 5 []) in
  succeeded r = true
  /\ (mp_partition_id <$> route (ps_partitions (jn_state j1)) Flat 9 [3]) = Some 2
  /\ route (ps_partitions (jn_state j2)) Flat 9 [3] = None.
Proof. vm_compute. split; [reflexivity|]. split; reflexivity. Qed.
(** The overlap is checked before the proposal and not when it is applied: of two
    overlapping requests in flight, both are granted. *)
Lemma creation_race_overlaps :
  let other := ex_entry 8 (PE_CreatePartition {| cp_ns := Flat; cp_start := bound_at 7 []; cp_end := unbounded_end; cp_peers := [1; 2; 3] |}) in
  let '(j, _, r) := serve_create_partition (fun _ => RA_Committed [other] 9) ex_journal 1 (bound_at 5 []) unbounded_end in
  succeeded r = true
  /\ length (filter (fun p => interval_contains p 9 [3] = true) (values (px_partitions (ps_partitions (jn_state j))))) = 2%nat.
Proof. vm_compute. split; reflexivity. Qed.
End ServiceExample.

(** ** What gateways resolve

    Gateways against the placement driver: what a gateway resolves of a chunk is what
    the driver's tables hold. *)

From S2P Require Import PdRebind.

(** ** A table rebuilt from a listing *)

Section Rebuilt.
Context {A B : Type} (id : A -> Z) (g : A -> option B).
Definition keep (m : gmap Z B) (a : A) : gmap Z B := match g a with Some b => <[id a := b]> m | None => m end.
Lemma keep_other l : forall m k, k ∉ id <$> l -> foldl keep m l !! k = m !! k.
Proof.
  induction l as [|a l IH]; intros m k Hk; [done|]. rewrite fmap_cons, not_elem_of_cons in Hk. destruct Hk as [Ha Hk].
  cbn [foldl]. rewrite IH by done. unfold keep. destruct (g a); [by rewrite lookup_insert_ne|done].
Qed.
Lemma keep_listed l : forall m a, NoDup (id <$> l) -> a ∈ l -> m !! id a = None -> foldl keep m l !! id a = g a.
Proof.
  induction l as [|x l IH]; intros m a Hnd Hin Hm; [by apply not_elem_of_nil in Hin|].
  rewrite fmap_cons in Hnd. apply NoDup_cons in Hnd as [Hx Hnd]. cbn [foldl]. apply elem_of_cons in Hin as [->|Hin].
  - rewrite keep_other by done. unfold keep. destruct (g x); [by rewrite lookup_insert_eq|done].
  - apply IH; [done|done|]. unfold keep. destruct (g x); [|done]. rewrite lookup_insert_ne; [done|].
    intros E. apply Hx. rewrite E. by apply list_elem_of_fmap_2.
Qed.
Lemma keep_values (m : gmap Z A) k : (forall i a, m !! i = Some a -> id a = i) -> foldl keep ∅ (values m) !! k = m !! k ≫= g.
Proof.
  intros Hid. pose proof (sorted_lt_NoDup _ (values_sorted _ _ Hid)) as Hnd. destruct (m !! k) as [a|] eqn:E.
  - pose proof (Hid _ _ E) as <-. apply keep_listed; [done|apply elem_of_values; eauto|apply lookup_empty].
  - rewrite keep_other; [apply lookup_empty|]. intros (a & -> & [i Hi]%elem_of_values)%list_elem_of_fmap. by rewrite (Hid _ _ Hi), Hi in E.
Qed.
(** ... of records that a client reads off the wire. *)
Lemma rebuilt_lookup {C} (f : gmap Z B -> C -> gmap Z B) (h : A -> C) (m : gmap Z A) k : (forall m a, f m (h a) = keep m a) ->
  (forall i a, m !! i = Some a -> id a = i) -> foldl f ∅ (h <$> values m) !! k = m !! k ≫= g.
Proof.
  intros Hf Hid. rewrite <- keep_values by done. f_equal. generalize (∅ : gmap Z B) as acc. induction (values m) as [|a l IH]; intros acc; [done|].
  rewrite fmap_cons. cbn [foldl]. by rewrite Hf, IH.
Qed.
End Rebuilt.

Section Resolving.
Context {RDB : RocksDb no_merge}.
Context {SocketAddr : Set} (parse_addr : string -> option SocketAddr) (threshold : WritableThreshold).
Implicit Types (j : Journal).

(** Where a shard is, by the driver's tables: on a healthy disk of a node whose
    address parses. *)
Definition shard_at (p : PdState) (i : Z) (s : ShardSlot) : option (ResolvedShard (SocketAddr := SocketAddr)) :=
  d ← di_disks (ps_disks p) !! ss_disk_id s;
  if decide (d_status d = DS_Normal) then
    n ← ni_nodes (ps_nodes p) !! d_node_id d;
    addr ← parse_addr (n_addr n);
    Some {| rsd_index := i; rsd_node_id := d_node_id d; rsd_addr := addr; rsd_extent_id := ss_extent_id s; rsd_epoch := ss_epoch s; rsd_rack := n_rack n |}
  else None.
Fixpoint located (p : PdState) (i : Z) (slots : list ShardSlot) : option (list ResolvedShard) :=
  match slots with
  | [] => Some []
  | s :: slots => x ← shard_at p i s; rest ← located p (i + 1) slots; Some (x :: rest)
  end.

Definition listed_disk (d : PdDisk) : option Z := if decide (d_status d = DS_Normal) then Some (d_node_id d) else None.
Definition listed_node (n : Node) : option (NodeTopo (SocketAddr := SocketAddr)) :=
  addr ← parse_addr (n_addr n);
  Some {| nt_node_id := n_node_id n; nt_addr := addr; nt_rack := n_rack n;
          nt_serving := bool_decide (n_status n = NS_Live) && negb (Z.land (n_roles n) RoleSet_DATA =? 0) |}.
Lemma insert_listed_disk m d : insert_disk m (disk_info d) = keep d_disk_id listed_disk m d.
Proof. unfold insert_disk, keep, listed_disk, disk_info. cbn. by destruct (d_status d). Qed.
Lemma insert_listed_node m n : insert_node parse_addr m (node_info n) = keep n_node_id listed_node m n.
Proof. unfold insert_node, keep, listed_node, node_info. cbn. destruct (parse_addr (n_addr n)); [|done]. cbn. by destruct (n_status n). Qed.

(** A topology just read from the leader holds its tables. *)
Lemma refreshed_disk_node j now t code_mode_id disk_id : pd_inv (jn_sm j) ->
  disk_node (Topology_refresh parse_addr (answers true threshold j code_mode_id) now t).1 disk_id
  = d ← di_disks (ps_disks (jn_state j)) !! disk_id; n ← listed_disk d; n ← ni_nodes (ps_nodes (jn_state j)) !! n; listed_node n.
Proof.
  intros [_ Hok]. unfold Topology_refresh, answers, serve_list_nodes, ensure_read_leader, disk_node. cbn.
  rewrite (rebuilt_lookup d_disk_id listed_disk) by
    (try apply insert_listed_disk; intros i d Hd; by apply (mg_id _ _ _ _ (do_managed _ _ _ (pd_disks _ _ _ Hok))) in Hd as [? _]).
  destruct (di_disks _ !! disk_id) as [d|]; [|done]. cbn. destruct (listed_disk d) as [n|]; [|done]. cbn.
  apply (rebuilt_lookup n_node_id listed_node); [apply insert_listed_node|].
  intros i n' Hn. by apply (mg_id _ _ _ _ (no_managed _ _ _ (pd_nodes _ _ _ Hok))) in Hn as [? _].
Qed.

Lemma slot_extent_len chunk_id i s : slot_ok chunk_id i s -> len (ss_extent_id s) = 16.
Proof.
  intros (_ & ts & _ & E). unfold compose_slot in E. destruct (ShardId_try_new _ _ _); [|done]. injection E as <-. apply ExtentId_new_len.
Qed.
(** A chunk whose shards are all reachable resolves; otherwise it does not. *)
Lemma resolve_shards_exact j t chunk_id slots : forall i, 0 <= i -> i + len slots <= 256 ->
  (forall d, disk_node t d = d ← di_disks (ps_disks (jn_state j)) !! d; n ← listed_disk d; n ← ni_nodes (ps_nodes (jn_state j)) !! n; listed_node n) ->
  (forall id n, ni_nodes (ps_nodes (jn_state j)) !! id = Some n -> n_node_id n = id) ->
  (forall n s, slots !! n = Some s -> slot_ok chunk_id (i + Z.of_nat n) s) ->
  match located (jn_state j) i slots with
  | Some shards => resolve_shards t i (shard_slot_to_proto <$> slots) = Ok shards
  | None => exists e, resolve_shards t i (shard_slot_to_proto <$> slots) = Err e
  end.
Proof.
  induction slots as [|s slots IH]; intros i Hi Hl Ht Hn Hs; [done|]. rewrite len_cons in Hl. pose proof (len_nonneg slots).
  rewrite fmap_cons. cbn [resolve_shards located shard_slot_to_proto sv_disk_id sv_extent_id sv_epoch].
  assert ((255 <? i) = false) as -> by (apply Z.ltb_ge; lia). rewrite Ht. unfold shard_at.
  destruct (di_disks _ !! ss_disk_id s) as [d|]; [|by eexists]. cbn [mbind option_bind]. unfold listed_disk.
  destruct (decide (d_status d = DS_Normal)); [|by eexists]. cbn [mbind option_bind].
  destruct (ni_nodes _ !! d_node_id d) as [n|] eqn:En; [|by eexists]. cbn [mbind option_bind]. unfold listed_node.
  destruct (parse_addr (n_addr n)) as [addr|]; [|by eexists]. cbn [mbind option_bind nt_node_id nt_addr nt_rack].
  rewrite (slot_extent_len chunk_id i s) by (rewrite <- (Z.add_0_r i); by apply (Hs 0%nat)). cbn [Z.eqb Pos.eqb negb].
  assert (forall k s', slots !! k = Some s' -> slot_ok chunk_id (i + 1 + Z.of_nat k) s') as Hs'.
  { intros k s' Hk. replace (i + 1 + Z.of_nat k) with (i + Z.of_nat (S k)) by lia. by apply Hs. }
  specialize (IH (i + 1) ltac:(lia) ltac:(lia) Ht Hn Hs'). destruct (located _ _ _) as [rest|].
  - by rewrite IH, (Hn _ _ En).
  - destruct IH as [err ->]. by eexists.
Qed.

Lemma located_index p slots : forall i shards, located p i slots = Some shards ->
  forall n, (n < length slots)%nat -> rsd_index <$> shards !! n = Some (i + Z.of_nat n).
Proof.
  induction slots as [|s slots IH]; intros i shards E n Hn; cbn [length] in Hn; [lia|]. cbn [located] in E.
  apply bind_Some in E as (x & Ex & (rest & Er & [= <-])%bind_Some). destruct n as [|n].
  - unfold shard_at in Ex. apply bind_Some in Ex as (d & _ & Ex). destruct (decide _); [|done].
    apply bind_Some in Ex as (nd & _ & (addr & _ & [= <-])%bind_Some). cbn. f_equal. lia.
  - cbn [lookup list_lookup]. rewrite (IH _ _ Er) by lia. f_equal. lia.
Qed.
Lemma writable_status st : (chunk_status_to_proto st =? CHUNK_STATUS_WRITABLE) = bool_decide (st = CS_Writable).
Proof. by destruct st. Qed.
Definition in_wire_range (m : CodeMode) : Prop := cm_id m <= U16_MAX /\ cm_data m <= U8_MAX /\ cm_parity m <= U8_MAX.
Lemma check_code_mode_ok m : in_wire_range m -> check_code_mode m = Ok m.
Proof.
  intros (H1 & H2 & H3). unfold check_code_mode. destruct (Z.ltb_spec U16_MAX (cm_id m)); [lia|].
  destruct (Z.ltb_spec U8_MAX (cm_data m)); [lia|]. destruct (Z.ltb_spec U8_MAX (cm_parity m)); [lia|done].
Qed.

(** C12: a gateway sees the driver's tables, once. A chunk it has looked up before is
    answered from its cache, whatever the driver has made of it since. For a chunk it
    does not know, when its topology is due for a refresh, the lookup against a serving
    leader gives, for a chunk the leader has with every shard on a healthy disk of an
    addressable node, exactly the leader's record: shard by shard the index, the node,
    its address, the extent and the epoch, with the code and whether it is writable; the
    answer is kept. For any other chunk it is an error, and nothing is kept. *)
Theorem client_view_refines j now m code_mode_id chunk_id :
  pd_inv (jn_sm j) -> (forall c, ci_chunks (ps_chunks (jn_state j)) !! chunk_id = Some c -> in_wire_range (c_code_mode c)) ->
  (forall slots, cmap_entries m !! chunk_id = Some slots ->
     ChunkMap_get parse_addr (answers true threshold j code_mode_id) now m chunk_id = (m, Ok slots))
  /\ (cmap_entries m !! chunk_id = None -> Topology_is_stale (cmap_topology m) now = true ->
  let w := answers true threshold j code_mode_id in
  match c ← ci_chunks (ps_chunks (jn_state j)) !! chunk_id; shards ← located (jn_state j) 0 (c_shards c); Some (c, shards) with
  | Some (c, shards) =>
      let slots := {| cs_code_mode := c_code_mode c; cs_writable := bool_decide (c_status c = CS_Writable); cs_shards := shards |} in
      exists m', ChunkMap_get parse_addr w now m chunk_id = (m', Ok slots)
        /\ cmap_entries m' = <[chunk_id := slots]> (cmap_entries m)
        /\ (forall n s, c_shards c !! n = Some s -> (rsd_index <$> shards !! n) = Some (ShardSlot_index s))
  | None => exists m' e, ChunkMap_get parse_addr w now m chunk_id = (m', Err e) /\ cmap_entries m' = cmap_entries m
  end).
Proof.
  intros Hi Hcm. split; [intros slots Hc; unfold ChunkMap_get; by rewrite Hc|]. intros Hnew Hst w. unfold ChunkMap_get. rewrite Hnew. unfold refresh_if_stale. rewrite Hst.
  set (t := (Topology_refresh _ _ _ _).1). assert (pa_get_chunk w chunk_id = match serve_get_chunk true j chunk_id with Ok r => Ok r | Err e => Err (from_status e) end) as Ew by done.
  rewrite Ew. unfold serve_get_chunk, ensure_read_leader, ChunkManager_get.
  destruct (ci_chunks _ !! chunk_id) as [c|] eqn:Ec; cbn [mbind option_bind fmap option_fmap option_map ok_or]; [|by eexists _, _].
  pose proof Hi as [_ Hok]. pose proof (ck_slots _ (ck_inv _ _ _ (pd_chunks _ _ _ Hok)) _ _ Ec) as Hso.
  pose proof Hso as [_ Hmax Hslots].
  pose proof (resolve_shards_exact j t chunk_id (c_shards c) 0 ltac:(lia) ltac:(lia)) as Hx. unfold resolve_view. cbn [chunk_to_proto cv_shards cv_code_mode cv_st].
  specialize (Hx (fun d => refreshed_disk_node j now (cmap_topology m) code_mode_id d Hi) (nodes_own_ids _ Hi) Hslots).
  destruct (located _ _ _) as [shards|] eqn:El; cbn [mbind option_bind]; [|destruct Hx as [e ->]; by eexists _, _].
  rewrite Hx. cbn [ok_or]. rewrite (check_code_mode_ok _ (Hcm _ eq_refl)), writable_status. eexists. split; [reflexivity|]. split; [done|].
  intros n s Hs. destruct (slots_ok_index _ _ _ n s (chunk_ok_u32 _ _ _ _ _ (pd_chunks _ _ _ Hok) Ec) Hso Hs) as [_ ->].
  rewrite (located_index _ _ _ _ El) by (by eapply lookup_lt_Some). by rewrite Z.add_0_l.
Qed.
End Resolving.

(** ** A lookup *)

Section ResolveExample.
#[local] Existing Instance cells_rocks.
Definition ex_leader : Journal := {| jn_sm := ex_ready; jn_heartbeats := HeartbeatTracker_new; jn_leaders := ∅; jn_step := 0 |}.
Definition ex_map : ChunkMap (SocketAddr := string) := {| cmap_topology := Topology_new 5000; cmap_entries := ∅ |}.
Definition ex_threshold : WritableThreshold := {| wt_min_free_bytes := 0 |}.
Definition ex_located : option (Chunk * list (ResolvedShard (SocketAddr := string))) :=
  c ← ci_chunks (ps_chunks (jn_state ex_leader)) !! 1; shards ← located Some (jn_state ex_leader) 0 (c_shards c); Some (c, shards).
Lemma client_view_refines_witness : exists m' slots,
  ChunkMap_get Some (answers true ex_threshold ex_leader 1) 0 ex_map 1 = (m', Ok slots)
  /\ (rsd_node_id <$> cs_shards slots) = [1; 2] /\ cs_writable slots = true.
Proof.
  assert (forall c, ci_chunks (ps_chunks (jn_state ex_leader)) !! 1 = Some c -> in_wire_range (c_code_mode c)) as Hw.
  { intros c. vm_compute. intros [= <-]. cbn. split; [discriminate|]. split; discriminate. }
  pose proof (client_view_refines Some ex_threshold ex_leader 0 ex_map 1 1 ex_ready_inv Hw) as [_ H]. specialize (H eq_refl eq_refl).
  assert ((fun p : Chunk * list ResolvedShard => (rsd_node_id <$> p.2, bool_decide (c_status p.1 = CS_Writable))) <$> ex_located = Some ([1; 2], true)) as E
    by (vm_compute; reflexivity).
  cbn zeta in H. change (_ ← _; _) with ex_located in H.
  destruct ex_located as [[c shards]|]; [|discriminate]. injection E as E1 E2. destruct H as (m' & Hm & _).
  eexists m', _. split; [exact Hm|]. split; [exact E1|exact E2].
Defined.
End ResolveExample.
