(* ===== verification/PdDriver.v ===== *)
(** The background drivers of a placement driver that leads (epoch-pd: journal/client.rs,
    chunk/driver.rs, job/driver.rs): the named proposals, balancing, two-phase chunk
    creation on the data nodes, and the assignment of jobs to coordinators. *)

From Stdlib Require Import SpecFloat.
From S2P Require Import Prelude Ids Rocks PdDb PdCluster PdChunk PdJob PdHeartbeat PdMeta PdState PdJournal.

(** ** Doubles, by the specification of IEEE 754 *)

Definition f64_of_int (z : Z) : spec_float := binary_normalize 53 1024 z 0 false.
Definition f64_add (x y : spec_float) : spec_float := SFadd 53 1024 x y.
Definition f64_mul (x y : spec_float) : spec_float := SFmul 53 1024 x y.
Definition f64_div (x y : spec_float) : spec_float := SFdiv 53 1024 x y.
Definition f64_leb (x y : spec_float) : bool := SFleb x y.
(** [f64::max]: the other operand of a NaN. *)
Definition f64_max (x y : spec_float) : spec_float :=
  match x, y with S754_nan, _ => y | _, S754_nan => x | _, _ => if SFltb x y then y else x end.

(** ** The data nodes, as the driver sees them *)

(** The world of data nodes and its [CreateExtent]. An extent that was acknowledged is
    there under the acknowledged id, and later creations keep it. *)
Class ExtentNodes (Addr W : Type) := {
  en_create : W -> Addr -> ShardId -> Z -> W * option ExtentId;
  en_has : W -> Addr -> ExtentId -> Prop;
  en_created : forall w a s ts w' e, en_create w a s ts = (w', Some e) -> en_has w' a e;
  en_kept : forall w a s ts a' e, en_has w a' e -> en_has (en_create w a s ts).1 a' e
}.

Section Driver.
Context {RDB : RocksDb no_merge} {LogId Membership : Set} `{!PdSerde LogId Membership}.
Context (raft : nat -> RaftAnswer (LogId := LogId) (Membership := Membership)) (is_leader : bool).
Implicit Types (j : Journal).

(** ** Named proposals *)

Definition Journal_update_node_status j (node_id : NodeId) (status : NodeStatus) := Journal_propose raft j (PE_UpdateNodeStatus {| un_node_id := node_id; un_status := status |}).
Definition Journal_remove_node j (node_id : NodeId) := Journal_propose raft j (PE_RemoveNode {| rmn_node_id := node_id |}).
Definition Journal_register_disk j (node_id : NodeId) (az rack path : string) (total : Z) :=
  Journal_propose raft j (PE_RegisterDisk {| rd_node_id := node_id; rd_az := az; rd_rack := rack; rd_path := path; rd_total := total |}).
Definition Journal_register_writer j (node_id : NodeId) := Journal_propose raft j (PE_RegisterWriter {| rw_node_id := node_id |}).
Definition Journal_mark_writer_dead j (token : WriterToken) := Journal_propose raft j (PE_MarkWriterDead {| mwd_token := token |}).
Definition Journal_create_chunk_staging j (code_mode : CodeMode) (slots : list SlotPlan) (create_ts epoch : Z) :=
  Journal_propose raft j (PE_CreateChunkStaging {| cc_code_mode := code_mode; cc_slots := slots; cc_create_ts := create_ts; cc_epoch := epoch |}).
Definition Journal_commit_chunk j (chunk_id : ChunkId) := Journal_propose raft j (PE_CommitChunk {| cmc_chunk_id := chunk_id |}).
Definition Journal_rebump_staging j (chunk_id : ChunkId) := Journal_propose raft j (PE_RebumpStaging {| rbs_chunk_id := chunk_id |}).
Definition Journal_create_bucket j (name : string) (ns_mode : NsMode) (inline_threshold : option Z) (codemode_id : Z) (engine : MetaEngine) (created_at : Z) :=
  Journal_propose raft j (PE_CreateBucket {| cb_name := name; cb_ns_mode := ns_mode; cb_inline_threshold := inline_threshold;
                                             cb_codemode_id := codemode_id; cb_engine := engine; cb_created_at := created_at |}).
Definition Journal_create_partition j (ns : NsMode) (start end_ : PartitionBound) (peers : list NodeId) :=
  Journal_propose raft j (PE_CreatePartition {| cp_ns := ns; cp_start := start; cp_end := end_; cp_peers := peers |}).
Definition Journal_split_partition j (parent_id : Z) (at_ : PartitionBound) := Journal_propose raft j (PE_SplitPartition {| spl_parent_id := parent_id; spl_at := at_ |}).
Definition Journal_migrate_partition j (partition_id : Z) (from to : NodeId) :=
  Journal_propose raft j (PE_MigratePartition {| mgp_partition_id := partition_id; mgp_from := from; mgp_to := to |}).
Definition Journal_put_config j (key : string) (value : list Z) := Journal_propose raft j (PE_PutConfig {| pc_key := key; pc_value := value |}).
Definition Journal_delete_config j (key : string) := Journal_propose raft j (PE_DeleteConfig {| dcf_key := key |}).
Definition Journal_put_credential j (access_key secret_key : string) (allowed : option (list string)) (role : ConsoleRole) :=
  Journal_propose raft j (PE_PutCredential {| pcr_access_key := access_key; pcr_secret_key := secret_key; pcr_allowed_buckets := allowed; pcr_role := role |}).
Definition Journal_assign_job j (job_id : Z) (coordinator : NodeId) (lease_expiry_millis : Z) :=
  Journal_propose raft j (PE_Job (JC_Assign job_id coordinator lease_expiry_millis)).
Definition Journal_renew_job_lease j (job_id lease_expiry_millis : Z) := Journal_propose raft j (PE_Job (JC_RenewLease job_id lease_expiry_millis)).
Definition Journal_advance_job_watermark j (job_id watermark lease_expiry_millis : Z) :=
  Journal_propose raft j (PE_Job (JC_AdvanceWatermark job_id watermark lease_expiry_millis)).
Definition Journal_complete_job j (job_id : Z) := Journal_propose raft j (PE_Job (JC_Complete job_id)).
Definition Journal_commit_shard_mapping j (cmd : CommitShardMapping) := Journal_propose raft j (PE_CommitShardMapping cmd).
Definition Journal_report_shard_repair j (cmd : ReportShardRepair) := Journal_propose raft j (PE_ReportShardRepair cmd).
Definition Journal_commit_shard_repair j (cmd : CommitShardRepair) := Journal_propose raft j (PE_CommitShardRepair cmd).

(** ** Balance *)

(** [max_by_key] keeps the last of equal maxima. *)
Definition max_by_key {A} (key : A -> Z) (l : list A) : option A :=
  foldl (fun best a => match best with Some b => if key a <? key b then Some b else Some a | None => Some a end) None l.
Definition sweep_balance j (tolerance : spec_float) : Journal * bool :=
  if negb is_leader then (j, false)
  else if job_active (jn_state j) (fun k => match k with Balance _ => true | _ => false end) then (j, false)
  else
    let disks := d_disk_id <$> filter (fun d => d_status d = DS_Normal) (values (di_disks (ps_disks (jn_state j)))) in
    if (length disks <? 2)%nat then (j, false)
    else
      let counts := (fun id => (id, len (ChunkManager_shard_slots_on_disk (ps_chunks (jn_state j)) id))) <$> disks in
      let total := foldr Z.add 0 (snd <$> counts) in
      let avg := f64_div (f64_of_int total) (f64_of_int (len counts)) in
      match max_by_key snd counts with
      | None => (j, false)
      | Some (skewed, max) =>
          if f64_leb avg (f64_of_int 0) || f64_leb (f64_of_int max) (f64_mul avg (f64_add (f64_of_int 1) tolerance)) then (j, false)
          else let '(j, r) := Journal_create_job raft j (Balance skewed) in (j, succeeded r)
      end.
(** One tick of the repair trigger. *)
Definition repair_tick j (balance_tolerance : spec_float) : Journal :=
  let '(j, _) := sweep_broken_disks raft is_leader j in
  let '(j, _) := sweep_completed_repairs raft is_leader j in
  let '(j, _) := sweep_draining_disks raft is_leader j in
  (sweep_balance j balance_tolerance).1.

(** ** Coordinators *)

Fixpoint assign_all j (nodes : list Node) (new_expiry : Z) (pending : list Job) : Journal :=
  match pending with
  | [] => j
  | job :: pending =>
      let exclude := disk_id ← suspect_disk (j_kind job); d_node_id <$> DiskManager_get (ps_disks (jn_state j)) disk_id in
      match pick_coordinator job nodes exclude with
      | None => assign_all j nodes new_expiry pending
      | Some coordinator => assign_all (Journal_assign_job j (j_id job) coordinator new_expiry).1 nodes new_expiry pending
      end
  end.
Definition sweep_job_assignments j (now_millis : Z) : Journal :=
  if negb is_leader then j
  else
    let pending := JobManager_needing_coordinator (ps_jobs (jn_state j)) now_millis in
    assign_all j (values (ni_nodes (ps_nodes (jn_state j)))) (saturating_add 64 now_millis JOB_LEASE_MILLIS) pending.

(** ** Chunk creation *)

Record PlacementConfig : Set := {
  pcf_writable_target : Z; pcf_max_creations_per_cycle : nat; pcf_affinity : AntiAffinity; pcf_max_create_attempts : nat; pcf_min_free_bytes : Z }.
Definition PlacementConfig_default : PlacementConfig := {|
  pcf_writable_target := 8; pcf_max_creations_per_cycle := 4; pcf_affinity := HostAware; pcf_max_create_attempts := 3;
  pcf_min_free_bytes := DEFAULT_MIN_FREE_BYTES |}.
Definition serves_data (node : Node) : bool := bool_decide (n_status node = NS_Live) && RoleSet_contains (n_roles node) RoleSet_DATA.
Definition gather_candidates j (nodes : list Node) (config : PlacementConfig) : list DiskCandidate :=
  omap (fun disk =>
    if negb (bool_decide (d_status disk = DS_Normal)) then None
    else
      node ← List.find (fun n => n_node_id n =? d_node_id disk) nodes;
      if negb (serves_data node) then None
      else if match Journal_disk_free j (d_node_id disk) (d_disk_id disk) with Some free => free <? pcf_min_free_bytes config | None => false end then None
      else
        let writable_extents := Journal_disk_writable_extents j (d_node_id disk) (d_disk_id disk) in
        if writable_extents <? pcf_writable_target config
        then Some {| dc_disk_id := d_disk_id disk; dc_node_id := d_node_id disk; dc_rack := d_rack disk; dc_writable_extents := writable_extents |}
        else None)
    (values (di_disks (ps_disks (jn_state j)))).

(** A panic, or an error returned. *)
Inductive DriverStop : Set := DS_Panic | DS_Error (e : PdError).

Section Creating.
Context {SocketAddr : Set} (parse_addr : string -> option SocketAddr) {W : Type} `{!ExtentNodes SocketAddr W}.

Definition build_transport (nodes : list Node) : gmap Z SocketAddr :=
  foldl (fun endpoints node =>
    if negb (serves_data node) then endpoints
    else match parse_addr (n_addr node) with Some addr => <[n_node_id node := addr]> endpoints | None => endpoints end) ∅ nodes.
(** The answer of the node; a node without an endpoint is not reached. *)
Definition transport_create (transport : gmap Z SocketAddr) (w : W) (node_id : NodeId) (slot : ShardSlot) : W * option ExtentId :=
  match transport !! node_id with
  | None => (w, None)
  | Some addr => en_create w addr (ShardSlot_shard_id slot) (ExtentId_create_ts (ss_extent_id slot))
  end.
Fixpoint create_extents_for (shards : list ShardSlot) (p : PdState) (transport : gmap Z SocketAddr) (w : W) (created : nat) : W * nat :=
  match shards with
  | [] => (w, created)
  | slot :: shards =>
      match d_node_id <$> DiskManager_get (ps_disks p) (ss_disk_id slot) with
      | None => create_extents_for shards p transport w created
      | Some node_id =>
          match transport_create transport w node_id slot with
          | (w, Some extent_id) => create_extents_for shards p transport w (if decide (extent_id = ss_extent_id slot) then S created else created)
          | (w, None) => create_extents_for shards p transport w created
          end
      end
  end.

Fixpoint resume_loop (transport : gmap Z SocketAddr) (pending : list StagingChunk) j (w : W) : Journal * W * result PdError unit :=
  match pending with
  | [] => (j, w, Ok tt)
  | staging :: pending =>
      let '(w, created) := create_extents_for (sg_shards staging) (jn_state j) transport w 0 in
      let '(j, r) := if (created =? length (sg_shards staging))%nat then Journal_commit_chunk j (sg_chunk_id staging)
                     else Journal_rebump_staging j (sg_chunk_id staging) in
      match r with Ok _ => resume_loop transport pending j w | Err e => (j, w, Err e) end
  end.
Definition resume_staging j (w : W) (nodes : list Node) : Journal * W * result PdError unit :=
  match ChunkManager_pending_staging (ps_chunks (jn_state j)) with
  | [] => (j, w, Ok tt)
  | pending => resume_loop (build_transport nodes) pending j w
  end.

Fixpoint create_attempts (transport : gmap Z SocketAddr) (chunk_id : ChunkId) (attempts : nat) j (w : W) : Journal * W * result PdError unit :=
  match attempts with
  | O => (j, w, Err (PdRaftError "extent creation exhausted attempts"))
  | S attempts =>
      match ci_staging (ps_chunks (jn_state j)) !! chunk_id with
      | None => (j, w, Err (PdRaftError "staging plan vanished mid-creation"))
      | Some staging =>
          let '(w, created) := create_extents_for (sg_shards staging) (jn_state j) transport w 0 in
          if (created =? length (sg_shards staging))%nat then
            let '(j, r) := Journal_commit_chunk j chunk_id in (j, w, match r with Ok _ => Ok tt | Err e => Err e end)
          else
            match Journal_rebump_staging j chunk_id with
            | (j, Err e) => (j, w, Err e)
            | (j, Ok _) => create_attempts transport chunk_id attempts j w
            end
      end
  end.
Definition create_chunk j (w : W) (code_mode : CodeMode) (chosen : list DiskId) (transport : gmap Z SocketAddr) (config : PlacementConfig) (now_millis : Z)
    : Journal * W * result DriverStop unit :=
  if 256 <? len chosen then (j, w, Err DS_Panic)
  else
    let slots := imap (fun index disk_id => {| sp_index := Z.of_nat index; sp_disk_id := disk_id |}) chosen in
    let create_ts := Z.min now_millis (2 ^ 63 - 1) in
    match Journal_create_chunk_staging j code_mode slots create_ts 0 with
    | (j, Err e) => (j, w, Err (DS_Error e))
    | (j, Ok (AR_ChunkStaged chunk_id)) =>
        let '(j, w, r) := create_attempts transport chunk_id (pcf_max_create_attempts config) j w in
        (j, w, match r with Ok _ => Ok tt | Err e => Err (DS_Error e) end)
    | (j, Ok (AR_Rejected _)) => (j, w, Ok tt)
    | (j, Ok _) => (j, w, Err (DS_Error (PdRaftError "unexpected staging apply result")))
    end.

(** One more writable extent on the first candidate of a disk. *)
Fixpoint count_extent (disk_id : DiskId) (candidates : list DiskCandidate) : list DiskCandidate :=
  match candidates with
  | [] => []
  | c :: candidates =>
      if dc_disk_id c =? disk_id
      then {| dc_disk_id := dc_disk_id c; dc_node_id := dc_node_id c; dc_rack := dc_rack c; dc_writable_extents := dc_writable_extents c + 1 |} :: candidates
      else c :: count_extent disk_id candidates
  end.
Fixpoint placement_loop (creations : nat) (code_mode : CodeMode) (transport : gmap Z SocketAddr) (config : PlacementConfig) (now_millis : Z)
    (candidates : list DiskCandidate) j (w : W) : Journal * W * result DriverStop unit :=
  match creations with
  | O => (j, w, Ok tt)
  | S creations =>
      match plan_placement candidates (shards_total code_mode) (pcf_affinity config) with
      | None => (j, w, Ok tt)
      | Some chosen =>
          match create_chunk j w code_mode chosen transport config now_millis with
          | (j, w, Err e) => (j, w, Err e)
          | (j, w, Ok _) =>
              let candidates := foldl (fun cs d => count_extent d cs) candidates chosen in
              match filter (fun c => dc_writable_extents c < pcf_writable_target config) candidates with
              | [] => (j, w, Ok tt)
              | candidates => placement_loop creations code_mode transport config now_millis candidates j w
              end
          end
      end
  end.
Definition placement_sweep j (w : W) (code_mode : CodeMode) (config : PlacementConfig) (now_millis : Z) : Journal * W * result DriverStop unit :=
  let nodes := values (ni_nodes (ps_nodes (jn_state j))) in
  match resume_staging j w nodes with
  | (j, w, Err e) => (j, w, Err (DS_Error e))
  | (j, w, Ok _) =>
      match gather_candidates j nodes config with
      | [] => (j, w, Ok tt)
      | candidates => placement_loop (pcf_max_creations_per_cycle config) code_mode (build_transport nodes) config now_millis candidates j w
      end
  end.
(** One tick: only a leader sweeps. *)
Definition placement_tick j (w : W) (code_mode : CodeMode) (config : PlacementConfig) (now_millis : Z) : Journal * W :=
  if is_leader then (placement_sweep j w code_mode config now_millis).1 else (j, w).
End Creating.
End Driver.

(** ** Proofs

    The drivers of the placement driver: a chunk is published only when every extent
    of it was created on its data node. *)

From S2P Require Import PdChunkInv PdInv PdRaft.

Section Proposals.
Context {RDB : RocksDb no_merge} {LogId Membership : Set} `{!PdSerde LogId Membership}.
Context (raft : nat -> RaftAnswer (LogId := LogId) (Membership := Membership)).
Implicit Types (j : Journal).

(** No other proposal is committed in between. *)
Definition quiet : Prop := forall n, match raft n with RA_Committed before _ => before = [] | _ => True end.

(** A proposal on a quiet log: not committed, or applied to the state as it is. *)
Lemma propose_step j cmd : quiet -> pd_inv (jn_sm j) -> entry_wf cmd -> bx_next_id (ps_buckets (jn_state j)) + 1 <= 2 ^ 63 ->
  exists j' r, Journal_propose raft j cmd = (j', r)
    /\ (jn_sm j' = jn_sm j /\ succeeded r = false
        \/ exists b p' res, apply_command (jn_sm j).1 cmd ([], jn_state j) = ((b, p'), res) /\ jn_state j' = p'
             /\ match res with Ok a => r = Ok a /\ pd_inv (jn_sm j') | Err _ => succeeded r = false /\ (jn_sm j').1 = (jn_sm j).1 end).
Proof.
  intros Hq Hi Hwf Hb. unfold Journal_propose. specialize (Hq (jn_step j)). destruct (raft (jn_step j)) as [before log| |]; [|by eexists _, _; split; [done|left]..].
  subst before. cbn [app]. destruct (sm_apply_ok (jn_sm j) [{| le_log_id := log; le_payload := Normal cmd |}]) as (s' & rs & E & Hs); [done|by repeat constructor|done|].
  rewrite E. eexists _, _. split; [done|]. right. unfold jn_state. destruct (jn_sm j) as [db p]. destruct Hi as [Hdb Hok]. destruct (Hdb META_CF) as [d Hd]; [auto with pd|].
  cbn [fst snd] in *. unfold PdStateMachine_apply in E. cbn [last apply_entries] in E. unfold sbind, apply_entry, sret, open_cf in E. cbn [le_payload] in E.
  destruct (apply_command db cmd ([], p)) as [[b p'] [a|e]] eqn:Ea; cbn [fst snd] in E.
  - rewrite Hd in E. cbn [ok_or] in E. injection E as <- <-. cbn [ok_or last with_sm jn_sm snd]. exists b, p', (Ok a). split; [done|]. split; [done|]. by destruct Hs.
  - injection E as <- <-. by exists b, p', (Err e).
Qed.

(** What a proposal about chunks leaves alone. *)
Record chunk_step (j j' : Journal) : Prop := {
  cst_inv : pd_inv (jn_sm j'); cst_nodes : ps_nodes (jn_state j') = ps_nodes (jn_state j);
  cst_disks : ps_disks (jn_state j') = ps_disks (jn_state j); cst_buckets : ps_buckets (jn_state j') = ps_buckets (jn_state j) }.
Lemma chunk_step_trans j1 j2 j3 : chunk_step j1 j2 -> chunk_step j2 j3 -> chunk_step j1 j3.
Proof. intros [_ A B C] [D E F G]. split; congruence. Qed.
Lemma chunk_step_same j j' : pd_inv (jn_sm j) -> jn_sm j' = jn_sm j -> chunk_step j j'.
Proof. intros Hi E. unfold jn_state. split; unfold jn_state; by rewrite E. Qed.
Lemma set_chunks_id p : set_chunks (ps_chunks p) p = p.
Proof. by destruct p. Qed.
Lemma chunk_step_err j j' p' : pd_inv (jn_sm j) -> (jn_sm j').1 = (jn_sm j).1 -> jn_state j' = p' -> p' = jn_state j -> jn_sm j' = jn_sm j.
Proof. intros _ E1 E2 E3. unfold jn_state in *. destruct (jn_sm j'), (jn_sm j). cbn in *. congruence. Qed.

Definition committed (plan : StagingChunk) (id : ChunkId) : Chunk :=
  {| c_chunk_id := id; c_code_mode := sg_code_mode plan; c_status := CS_Writable; c_shards := sg_shards plan |}.
Lemma commit_step j id : quiet -> pd_inv (jn_sm j) -> bx_next_id (ps_buckets (jn_state j)) + 1 <= 2 ^ 63 ->
  exists j' r, Journal_commit_chunk raft j id = (j', r) /\ chunk_step j j'
    /\ (ps_chunks (jn_state j') = ps_chunks (jn_state j)
        \/ exists plan, ci_staging (ps_chunks (jn_state j)) !! id = Some plan
             /\ ci_staging (ps_chunks (jn_state j')) = delete id (ci_staging (ps_chunks (jn_state j)))
             /\ ci_chunks (ps_chunks (jn_state j')) = <[id := committed plan id]> (ci_chunks (ps_chunks (jn_state j)))).
Proof.
  intros Hq Hi Hb. unfold Journal_commit_chunk. destruct (propose_step j (PE_CommitChunk {| cmc_chunk_id := id |}) Hq Hi I Hb) as (j' & r & -> & H).
  exists j', r. split; [done|]. destruct H as [[E _]|(b & p' & res & Ea & Es & Hr)]; [split; [by apply chunk_step_same|left; unfold jn_state; by rewrite E]|].
  pose proof Hi as [Hdb Hok]. cbn [apply_command] in Ea. unfold sbind, zoom in Ea. cbn [fst snd] in Ea.
  destruct (chunk_commit_ok (jn_sm j).1 [] (ps_chunks (jn_state j)) {| cmc_chunk_id := id |}) as (b' & i & reject & E & _ & _ & _ & Hc); [auto with pd..|apply Hok|].
  rewrite E in Ea. unfold reject_result, sret in Ea. injection Ea as <- <- <-. destruct Hr as [_ Hi']. rewrite Es. split; [by split; rewrite ?Es|].
  cbn [ps_chunks set_chunks cmc_chunk_id] in *. destruct (ci_staging _ !! id) as [plan|]; [right|left; by destruct Hc]. exists plan. by destruct Hc as (_ & -> & ->).
Qed.
Lemma rebump_step j id : quiet -> pd_inv (jn_sm j) -> bx_next_id (ps_buckets (jn_state j)) + 1 <= 2 ^ 63 ->
  exists j' r, Journal_rebump_staging raft j id = (j', r) /\ chunk_step j j'
    /\ ci_chunks (ps_chunks (jn_state j')) = ci_chunks (ps_chunks (jn_state j))
    /\ (forall i, i <> id -> ci_staging (ps_chunks (jn_state j')) !! i = ci_staging (ps_chunks (jn_state j)) !! i).
Proof.
  intros Hq Hi Hb. unfold Journal_rebump_staging. destruct (propose_step j (PE_RebumpStaging {| rbs_chunk_id := id |}) Hq Hi I Hb) as (j' & r & -> & H).
  exists j', r. split; [done|]. destruct H as [[E _]|(b & p' & res & Ea & Es & Hr)]; [split; [by apply chunk_step_same|unfold jn_state; by rewrite E]|].
  pose proof Hi as [Hdb Hok]. cbn [apply_command] in Ea. unfold sbind, zoom in Ea. cbn [fst snd] in Ea.
  destruct (chunk_rebump_ok (jn_sm j).1 [] (ps_chunks (jn_state j)) {| rbs_chunk_id := id |}) as (b' & i & reject & E & _ & Hc); [auto with pd..|apply Hok|].
  rewrite E in Ea. destruct reject as [reject|err].
  - unfold reject_result, sret in Ea. injection Ea as <- <- <-. destruct Hr as [_ Hi']. rewrite Es. split; [by split; rewrite ?Es|].
    destruct Hc as (_ & _ & Hch & _ & Hst). cbn [ps_chunks set_chunks rbs_chunk_id] in *. split; [done|]. intros k Hk.
    destruct (ci_staging _ !! id) as [plan|]; [|by destruct Hst as [_ ->]]. destruct Hst as (_ & plan' & -> & _). by rewrite lookup_insert_ne.
  - injection Ea as <- <- <-. destruct Hr as [_ Hdb']. destruct Hc as [-> ->]. rewrite set_chunks_id in Es.
    split; [by eapply chunk_step_same, chunk_step_err|]. by rewrite Es.
Qed.
Lemma stage_step j code_mode slots ts : quiet -> pd_inv (jn_sm j) -> bx_next_id (ps_buckets (jn_state j)) + 1 <= 2 ^ 63 ->
  create_wf {| cc_code_mode := code_mode; cc_slots := slots; cc_create_ts := ts; cc_epoch := 0 |} ->
  exists j' r, Journal_create_chunk_staging raft j code_mode slots ts 0 = (j', r) /\ chunk_step j j'
    /\ ci_chunks (ps_chunks (jn_state j')) = ci_chunks (ps_chunks (jn_state j)).
Proof.
  intros Hq Hi Hb Hwf. unfold Journal_create_chunk_staging. destruct (propose_step j (PE_CreateChunkStaging _) Hq Hi Hwf Hb) as (j' & r & -> & H).
  exists j', r. split; [done|]. destruct H as [[E _]|(b & p' & res & Ea & Es & Hr)]; [split; [by apply chunk_step_same|unfold jn_state; by rewrite E]|].
  pose proof Hi as [Hdb Hok]. cbn [apply_command] in Ea. unfold sbind, sgets, zoom in Ea. cbn [fst snd] in Ea. unfold chunk_plan_reject in Ea.
  destruct (validate_slots _ _) as [|] eqn:Hv.
  { injection Ea as <- <- <-. destruct Hr as [_ Hi']. split; [split; [done|by rewrite Es..]|by rewrite Es]. }
  destruct (plan_disks_reject _ _). { injection Ea as <- <- <-. destruct Hr as [_ Hi']. split; [split; [done|by rewrite Es..]|by rewrite Es]. }
  set (cmd := {| cc_code_mode := code_mode; cc_slots := slots; cc_create_ts := ts; cc_epoch := 0 |}) in *.
  destruct (chunk_create_ok (jn_sm j).1 [] (ps_chunks (jn_state j)) cmd) as (b' & i & id & E & _ & Hc); [auto with pd..|apply Hok|done|done|].
  cbn [fst snd] in Ea. rewrite E in Ea. destruct id as [id|err]; injection Ea as <- <- <-.
  - destruct Hr as [_ Hi']. rewrite Es. split; [by split; rewrite ?Es|]. by destruct Hc as (_ & _ & _ & ? & _).
  - destruct Hr as [_ Hdb']. destruct Hc as [-> ->]. rewrite set_chunks_id in Es. split; [by eapply chunk_step_same, chunk_step_err|]. by rewrite Es.
Qed.
End Proposals.

(** ** Extents on data nodes *)

Section Backed.
Context {RDB : RocksDb no_merge} {LogId Membership : Set} `{!PdSerde LogId Membership}.
Context (raft : nat -> RaftAnswer (LogId := LogId) (Membership := Membership)).
Context {SocketAddr : Set} (parse_addr : string -> option SocketAddr) {W : Type} `{!ExtentNodes SocketAddr W}.
Implicit Types (j : Journal) (w : W).

(** The extent of a shard is on the node of its disk. *)
Definition slot_backed (p : PdState) w (slot : ShardSlot) : Prop :=
  exists d n addr, di_disks (ps_disks p) !! ss_disk_id slot = Some d /\ ni_nodes (ps_nodes p) !! d_node_id d = Some n
    /\ parse_addr (n_addr n) = Some addr /\ en_has w addr (ss_extent_id slot).
Definition backed (p : PdState) w : Prop :=
  forall id c slot, ci_chunks (ps_chunks p) !! id = Some c -> slot ∈ c_shards c -> slot_backed p w slot.
Definition grows w w' : Prop := forall a e, en_has w a e -> en_has w' a e.
Lemma grows_refl w : grows w w.
Proof. by intros ??. Qed.
Lemma grows_trans w1 w2 w3 : grows w1 w2 -> grows w2 w3 -> grows w1 w3.
Proof. intros H1 H2 a e ?. by apply H2, H1. Qed.
Lemma create_grows w a s ts w' r : en_create w a s ts = (w', r) -> grows w w'.
Proof. intros E a' e H. pose proof (en_kept w a s ts a' e H) as H'. by rewrite E in H'. Qed.
Lemma slot_backed_mono p p' w w' slot : ps_nodes p' = ps_nodes p -> ps_disks p' = ps_disks p -> grows w w' -> slot_backed p w slot -> slot_backed p' w' slot.
Proof. unfold slot_backed. intros -> -> Hw (d & n & addr & ? & ? & ? & ?). exists d, n, addr. auto. Qed.
Lemma backed_step p p' w w' : ps_nodes p' = ps_nodes p -> ps_disks p' = ps_disks p -> ci_chunks (ps_chunks p') = ci_chunks (ps_chunks p) ->
  grows w w' -> backed p w -> backed p' w'.
Proof. intros Hn Hd Hc Hw Hb id c slot. rewrite Hc. intros. eapply slot_backed_mono; [done..|]. by eapply Hb. Qed.

(** An endpoint is the address of a registered node. *)
Definition endpoints_of (transport : gmap Z SocketAddr) (p : PdState) : Prop :=
  forall id addr, transport !! id = Some addr -> exists n, ni_nodes (ps_nodes p) !! id = Some n /\ parse_addr (n_addr n) = Some addr.
Lemma build_transport_sound nodes id addr : build_transport parse_addr nodes !! id = Some addr ->
  exists n, n ∈ nodes /\ n_node_id n = id /\ parse_addr (n_addr n) = Some addr.
Proof.
  unfold build_transport. induction nodes as [|n nodes IH] using rev_ind; [cbn [foldl]; by rewrite lookup_empty|]. rewrite foldl_snoc.
  set (m := foldl _ _ nodes) in *. intros H.
  assert (m !! id = Some addr \/ n_node_id n = id /\ parse_addr (n_addr n) = Some addr) as [Hm|Hn].
  { destruct (serves_data n); cbn [negb] in H; [|by left]. destruct (parse_addr (n_addr n)) as [a|]; [|by left].
    apply lookup_insert_Some in H as [[-> ->]|[_ H]]; [by right|by left]. }
  - destruct (IH Hm) as (n0 & Hin & ?). exists n0. split; [apply elem_of_app; by left|done].
  - exists n. split; [apply elem_of_app; right; by left|done].
Qed.
Lemma endpoints_built s : pd_inv s -> endpoints_of (build_transport parse_addr (values (ni_nodes (ps_nodes s.2)))) s.2.
Proof.
  intros [_ Hok] id addr (n & [i Hi]%elem_of_values & <- & Hp)%build_transport_sound. exists n. split; [|done].
  by destruct (mg_id _ _ _ _ (no_managed _ _ _ (pd_nodes _ _ _ Hok)) _ _ Hi) as [-> _].
Qed.

(** Extents are counted when they were acknowledged with the staged id. *)
Lemma create_extents_ok p transport shards : endpoints_of transport p -> forall w k,
  let '(w', k') := create_extents_for shards p transport w k in
  grows w w' /\ (k' <= k + length shards)%nat /\ (k' = (k + length shards)%nat -> forall s, s ∈ shards -> slot_backed p w' s).
Proof.
  intros Ht. induction shards as [|slot shards IH]; intros w k; cbn [create_extents_for length].
  { split; [by intros ?|]. split; [lia|]. intros _ s Hs. by apply not_elem_of_nil in Hs. }
  assert (forall w1, grows w w1 -> let '(w', k') := create_extents_for shards p transport w1 k in
     grows w w' /\ (k' <= k + S (length shards))%nat /\ (k' = (k + S (length shards))%nat -> forall s, s ∈ slot :: shards -> slot_backed p w' s)) as Hskip.
  { intros w1 Hg. specialize (IH w1 k). destruct (create_extents_for _ _ _ w1 k) as [w' k']. destruct IH as (Hg' & Hk & _).
    split; [intros a e ?; by apply Hg', Hg|]. split; lia. }
  unfold DiskManager_get. destruct (di_disks _ !! ss_disk_id slot) as [d|] eqn:Ed; cbn [fmap option_fmap option_map]; [|by apply (Hskip w), grows_refl].
  unfold transport_create. destruct (transport !! d_node_id d) as [addr|] eqn:Ea; [|by apply (Hskip w), grows_refl].
  destruct (en_create _ _ _ _) as [w1 [e|]] eqn:Ec.
  2:{ apply Hskip. by eapply create_grows. }
  pose proof (create_grows _ _ _ _ _ _ Ec) as Hg.
  destruct (decide _) as [->|]; [|by apply Hskip]. specialize (IH w1 (S k)). destruct (create_extents_for _ _ _ w1 (S k)) as [w' k'].
  destruct IH as (Hg' & Hk & Hall). split; [intros a e ?; by apply Hg', Hg|]. split; [lia|]. intros E s [->|Hs]%elem_of_cons; [|apply Hall; [lia|done]].
  destruct (Ht _ _ Ea) as (n & Hn & Hp). exists d, n, addr. split; [done|]. split; [done|]. split; [done|]. by apply Hg', (en_created _ _ _ _ _ _ Ec).
Qed.

Record sound (transport : gmap Z SocketAddr) j w : Prop := {
  sd_inv : pd_inv (jn_sm j); sd_room : bx_next_id (ps_buckets (jn_state j)) + 1 <= 2 ^ 63;
  sd_endpoints : endpoints_of transport (jn_state j); sd_backed : backed (jn_state j) w }.
Lemma sound_step transport j j' w w' : chunk_step j j' -> ci_chunks (ps_chunks (jn_state j')) = ci_chunks (ps_chunks (jn_state j)) ->
  grows w w' -> sound transport j w -> sound transport j' w'.
Proof.
  intros [C1 C2 C3 C4] Hc Hg [S1 S2 S3 S4]. split; [done|by rewrite C4|unfold endpoints_of; by rewrite C2|by eapply backed_step].
Qed.
Lemma sound_grows transport j w w' : grows w w' -> sound transport j w -> sound transport j w'.
Proof. intros Hg Hs. pose proof (sd_inv _ _ _ Hs). eapply sound_step; [by apply chunk_step_same|done..]. Qed.
Lemma commit_sound transport j w id plan : quiet raft -> sound transport j w -> ci_staging (ps_chunks (jn_state j)) !! id = Some plan ->
  (forall s, s ∈ sg_shards plan -> slot_backed (jn_state j) w s) -> sound transport (Journal_commit_chunk raft j id).1 w.
Proof.
  intros Hq Hs Hp Hall. destruct (commit_step raft j id Hq (sd_inv _ _ _ Hs) (sd_room _ _ _ Hs)) as (j' & r & -> & Hst & Hc). cbn [fst].
  destruct Hc as [Hc|(plan' & Hp' & _ & Hc)]; [eapply sound_step; [done|by rewrite Hc|apply grows_refl|done]|].
  rewrite Hp in Hp'. injection Hp' as <-. destruct Hst as [C1 C2 C3 C4], Hs as [S1 S2 S3 S4]. split; [done|by rewrite C4|unfold endpoints_of; by rewrite C2|].
  intros i c slot. rewrite Hc, lookup_insert_Some. intros [[_ <-]|[_ Hi]] Hin; (eapply slot_backed_mono; [done|done|apply grows_refl|]); [by apply Hall|by eapply S4].
Qed.

(** The attempts at a staged chunk, and the plans a restart finds. *)
Lemma create_attempts_sound transport id attempts : quiet raft -> forall j w, sound transport j w ->
  let '(j', w', _) := create_attempts raft transport id attempts j w in sound transport j' w'.
Proof.
  intros Hq. induction attempts as [|attempts IH]; intros j w Hs; cbn [create_attempts]; [done|].
  destruct (ci_staging _ !! id) as [plan|] eqn:Hp; [|done].
  pose proof (create_extents_ok (jn_state j) transport (sg_shards plan) (sd_endpoints _ _ _ Hs) w 0) as Hx.
  destruct (create_extents_for _ _ _ _ _) as [w' created]. destruct Hx as (Hg & _ & Hall). apply (sound_grows _ _ _ w') in Hs; [|done].
  destruct (Nat.eqb_spec created (length (sg_shards plan))) as [E|_].
  - pose proof (commit_sound transport j w' id plan Hq Hs Hp (Hall E)) as Hc. by destruct (Journal_commit_chunk raft j id).
  - destruct (rebump_step raft j id Hq (sd_inv _ _ _ Hs) (sd_room _ _ _ Hs)) as (j' & r & -> & Hst & Hc & _).
    assert (sound transport j' w') as Hs' by (by eapply sound_step; [done..|apply grows_refl|]). destruct r; [by apply IH|done].
Qed.
Lemma resume_loop_sound transport pending : quiet raft -> forall j w, sound transport j w -> NoDup (sg_chunk_id <$> pending) ->
  (forall s, s ∈ pending -> ci_staging (ps_chunks (jn_state j)) !! sg_chunk_id s = Some s) ->
  let '(j', w', _) := resume_loop raft transport pending j w in sound transport j' w' /\ ps_nodes (jn_state j') = ps_nodes (jn_state j).
Proof.
  intros Hq. induction pending as [|plan pending IH]; intros j w Hs Hnd Hst; cbn [resume_loop]; [done|].
  rewrite fmap_cons in Hnd. apply NoDup_cons in Hnd as [Hni Hnd]. pose proof (Hst plan ltac:(by left)) as Hp.
  pose proof (create_extents_ok (jn_state j) transport (sg_shards plan) (sd_endpoints _ _ _ Hs) w 0) as Hx.
  destruct (create_extents_for _ _ _ _ _) as [w' created]. destruct Hx as (Hg & _ & Hall). apply (sound_grows _ _ _ w') in Hs; [|done].
  assert (forall j' r, sound transport j' w' -> ps_nodes (jn_state j') = ps_nodes (jn_state j) ->
     (forall i, i <> sg_chunk_id plan -> ci_staging (ps_chunks (jn_state j')) !! i = ci_staging (ps_chunks (jn_state j)) !! i) ->
     let '(j', w', _) := match r : result PdError ApplyResult with Ok _ => resume_loop raft transport pending j' w' | Err e => (j', w', Err e) end in
     sound transport j' w' /\ ps_nodes (jn_state j') = ps_nodes (jn_state j)) as Hnext.
  { intros j' r Hs' Hn Hoth. destruct r; [|done]. specialize (IH j' w' Hs' Hnd). destruct (resume_loop _ _ _ _ _) as [[j'' w''] ?]. rewrite <- Hn. apply IH.
    intros s Hin. rewrite Hoth; [apply Hst; by right|]. intros E. apply Hni. rewrite <- E. by apply list_elem_of_fmap_2. }
  destruct (Nat.eqb_spec created (length (sg_shards plan))) as [E|_].
  - pose proof (commit_sound transport j w' _ plan Hq Hs Hp (Hall E)) as Hc.
    destruct (commit_step raft j (sg_chunk_id plan) Hq (sd_inv _ _ _ Hs) (sd_room _ _ _ Hs)) as (j' & r & Ej & [_ Hn _ _] & Hcs). rewrite Ej in *.
    apply Hnext; [done|done|]. intros i Hi. destruct Hcs as [->|(? & _ & -> & _)]; [done|]. by rewrite lookup_delete_ne.
  - destruct (rebump_step raft j (sg_chunk_id plan) Hq (sd_inv _ _ _ Hs) (sd_room _ _ _ Hs)) as (j' & r & -> & Hst' & Hc & Hoth).
    apply Hnext; [by eapply sound_step; [done..|apply grows_refl|]|apply Hst'|done].
Qed.
Lemma create_chunk_sound transport j w code_mode chosen config now : quiet raft -> 0 <= now -> sound transport j w ->
  let '(j', w', _) := create_chunk raft j w code_mode chosen transport config now in sound transport j' w'.
Proof.
  intros Hq Hnow Hs. unfold create_chunk. destruct (Z.ltb_spec 256 (len chosen)) as [|Hl]; [done|].
  set (slots := imap _ chosen). destruct (stage_step raft j code_mode slots (Z.min now (2 ^ 63 - 1)) Hq (sd_inv _ _ _ Hs) (sd_room _ _ _ Hs)) as (j' & r & -> & Hst & Hc).
  { split; [unfold is_i64; cbn; lia|]. split; [done|]. apply Forall_lookup. intros i s (x & Hx & ->)%list_lookup_imap_Some.
    apply lookup_lt_Some in Hx. unfold uint, len in *. cbn. lia. }
  assert (sound transport j' w) as Hs' by (by eapply sound_step; [done..|apply grows_refl|]). destruct r as [a|]; [|done]. destruct a; try done.
  pose proof (create_attempts_sound transport chunk_id (pcf_max_create_attempts config) Hq j' w Hs') as Ha. by destruct (create_attempts _ _ _ _ _ _) as [[? ?] ?].
Qed.
Lemma placement_loop_sound transport code_mode config now creations : quiet raft -> 0 <= now -> forall candidates j w, sound transport j w ->
  let '(j', w', _) := placement_loop raft creations code_mode transport config now candidates j w in sound transport j' w'.
Proof.
  intros Hq Hnow. induction creations as [|n IH]; intros candidates j w Hs; cbn [placement_loop]; [done|].
  destruct (plan_placement _ _ _) as [chosen|]; [|done]. pose proof (create_chunk_sound transport j w code_mode chosen config now Hq Hnow Hs) as Hc.
  destruct (create_chunk _ _ _ _ _ _ _ _) as [[j' w'] [?|?]]; [|done]. destruct (filter _ _); [done|]. by apply IH.
Qed.

(** C10: a chunk is published only when it is backed. While no other proposal is
    committed in between, a tick of the placement driver, whatever the data nodes and
    consensus answer, keeps the state machine's invariant, and every shard of every
    committed chunk has its extent, under the exact id the driver recorded, on the
    node its disk belongs to: those that a restart found staged included, and those
    whose epoch was bumped after a failed attempt. *)
Theorem placement_backed is_leader j w code_mode config now : quiet raft -> 0 <= now -> pd_inv (jn_sm j) ->
  bx_next_id (ps_buckets (jn_state j)) + 1 <= 2 ^ 63 -> backed (jn_state j) w ->
  let '(j', w') := placement_tick raft is_leader parse_addr j w code_mode config now in
  pd_inv (jn_sm j') /\ backed (jn_state j') w'.
Proof.
  intros Hq Hnow Hi Hb Hbk. unfold placement_tick. destruct is_leader; [|done]. unfold placement_sweep, resume_staging.
  set (transport := build_transport _ _). assert (sound transport j w) as Hs by (split; [done|done|apply (endpoints_built _ Hi)|done]).
  assert (let '(j', w', _) := match ChunkManager_pending_staging (ps_chunks (jn_state j)) with
      | [] => (j, w, Ok tt) | pending => resume_loop raft transport pending j w end in sound transport j' w') as Hres.
  { destruct (ChunkManager_pending_staging _) as [|s0 pending0] eqn:Ep; [done|]. rewrite <- Ep. pose proof Hi as [_ Hok].
    assert (forall i s, ci_staging (ps_chunks (jn_state j)) !! i = Some s -> sg_chunk_id s = i) as Hid.
    { intros i s Hs'. by apply (ck_staging_id _ (ck_inv _ _ _ (pd_chunks _ _ _ Hok))) in Hs' as [? _]. }
    pose proof (resume_loop_sound transport (values (ci_staging (ps_chunks (jn_state j)))) Hq j w Hs) as Hr.
    unfold ChunkManager_pending_staging. destruct (resume_loop _ _ _ _ _) as [[j' w'] ?]. apply Hr; [apply sorted_lt_NoDup, (values_sorted _ _ Hid)|].
    intros s [i Hi']%elem_of_values. by rewrite (Hid _ _ Hi'). }
  destruct (match ChunkManager_pending_staging _ with [] => _ | _ => _ end) as [[j1 w1] [?|?]]; [|by destruct Hres].
  destruct (gather_candidates _ _ _) as [|c cs]; [by destruct Hres|].
  pose proof (placement_loop_sound transport code_mode config now (pcf_max_creations_per_cycle config) Hq Hnow (c :: cs) j1 w1 Hres) as Hl.
  destruct (placement_loop _ _ _ _ _ _ _ _ _) as [[j' w'] ?]. by destruct Hl.
Qed.
End Backed.
