(* ===== verification/DataNode.v ===== *)
(** Data nodes under a placement driver (epoch-store: handler.rs, service.rs): the
    storage engines at their addresses keep what the placement driver's chunk
    creation is promised. *)

From S2P Require Import Prelude Ids Crc Record ExtentFile Rocks MetaMerge StoreIndex StoreOps PdDb PdCluster PdChunk PdState PdJournal PdDriver.

Section Node.
Context `{!Crc32c} {RDB : RocksDb merge_meta}.

(** The index has a metadata record for the extent. *)
Definition index_has (index : rdb) (e : ExtentId) : Prop := is_Some (rdb_get index (extent_key e)).
Definition is_put (op : BatchOp) : Prop := match op with BPut _ _ => True | _ => False end.

Lemma put_get index k v k' : rdb_get (rdb_write index [BPut k v]) k' = if decide (k = k') then Some v else rdb_get index k'.
Proof.
  rewrite !rdb_get_cells, rdb_write_cells. cbn [foldl apply_op]. destruct (decide (k = k')) as [->|Hk].
  - by rewrite lookup_insert_eq.
  - by rewrite lookup_insert_ne.
Qed.
Lemma puts_keep ops : forall index k, Forall is_put ops -> is_Some (rdb_get index k) -> is_Some (rdb_get (rdb_write index ops) k).
Proof.
  intros index k Hops. rewrite !rdb_get_cells, rdb_write_cells. generalize (rdb_cells index) as m.
  induction Hops as [|op ops Hop _ IH]; intros m Hm; cbn [foldl]; [done|]. apply IH. destruct op; [|done..]. cbn [apply_op].
  destruct (decide (k0 = k)) as [->|Hk]; [by rewrite lookup_insert_eq; eexists|by rewrite lookup_insert_ne].
Qed.
Lemma puts_bind op ops index k v : Forall is_put ops -> op = BPut k v -> is_Some (rdb_get (rdb_write index (op :: ops)) k).
Proof.
  intros Hops ->. assert (is_Some (rdb_get (rdb_write (rdb_write index [BPut k v]) ops) k)) as Hk.
  { apply puts_keep; [done|]. rewrite put_get, decide_True by done. by eexists. }
  rewrite rdb_get_cells, rdb_write_cells in Hk |- *. by rewrite rdb_write_cells in Hk.
Qed.
Lemma install_has index e meta : index_has (install_extent index e meta []) e.
Proof. unfold index_has, install_extent, write_synced. cbn [foldl app]. eapply puts_bind; [by repeat constructor|done]. Qed.
Lemma install_keeps index e meta e' : index_has index e' -> index_has (install_extent index e meta []) e'.
Proof. unfold index_has, install_extent, write_synced. cbn [foldl app]. apply puts_keep. by repeat constructor. Qed.

(** An extent that is created, or found already created, is in the index; every
    other stays. *)
Lemma create_extent_index s ts g : let '(g', r) := create_extent_at_blocking s ts g in
  (forall e, index_has (eg_index g) e -> index_has (eg_index g') e)
  /\ (forall e, r = Ok e -> e = ExtentId_new s ts /\ index_has (eg_index g') e).
Proof.
  unfold create_extent_at_blocking, create_extent_with_status. unfold bind, gets, modify, lift, ret, fail.
  destruct (ExtentFile_create _ _) as [x|err].
  - destruct (preallocate _ _); cbn [map_err]; [|done]. cbn [set_index set_disk set_open eg_index]. split; [intros; by apply install_keeps|].
    intros e [= <-]. split; [done|apply install_has].
  - destruct err as [k| | | | |]; try done. destruct k; try done. unfold get_extent_meta.
    destruct (rdb_get _ _) as [v|] eqn:Ev; [destruct (ExtentMeta_decode_value v); cbn [map_err]|cbn [map_err]]; [|done|].
    + split; [done|]. intros e [= <-]. split; [done|]. unfold index_has. by rewrite Ev.
    + unfold move_extent_to_trash. destruct (dk_extents (eg_disk g) !! _); cbn [map_err]; [|done]. cbn [set_disk dk_extents eg_index eg_disk].
      destruct (ExtentFile_create _ _) as [x|]; cbn [map_err]; [|done]. destruct (preallocate _ _); cbn [map_err]; [|done].
      cbn [set_index set_disk set_open eg_index]. split; [intros; by apply install_keeps|]. intros e [= <-]. split; [done|apply install_has].
Qed.

(** ** A node: its engine, and whether its disk tripped *)

Record DataNode : Type := { dn_engine : Engine; dn_broken : bool }.
Definition mark_broken (n : DataNode) : DataNode := {| dn_engine := dn_engine n; dn_broken := true |}.
Definition observe {T} (n : DataNode) (r : result EpochError T) : DataNode * result EpochError T :=
  match r with Err EE_DiskBroken => (mark_broken n, r) | _ => (n, r) end.
Definition with_engine (n : DataNode) (g : Engine) : DataNode := {| dn_engine := g; dn_broken := dn_broken n |}.
(** A blocking task that does not panic. *)
Definition run_blocking {T} (m : M T) (n : DataNode) : DataNode * result EpochError T :=
  let '(g, r) := m (dn_engine n) in (with_engine n g, match r with Ok a => Ok a | Err e => Err (to_epoch e) end).
Definition reading {T} (f : Engine -> result StoreError T) : M T := fun g => (g, f g).

Definition node_create_extent_at (n : DataNode) (shard : ShardId) (create_ts : Z) : DataNode * result EpochError ExtentId :=
  let '(n, r) := run_blocking (create_extent_at_blocking shard create_ts) n in observe n r.
Definition node_create_rebuilding_extent (n : DataNode) (shard : ShardId) (create_ts : Z) : DataNode * result EpochError ExtentId :=
  let '(n, r) := run_blocking (create_extent_with_status shard create_ts ES_Rebuilding) n in observe n r.
Definition node_promote_rebuilt (n : DataNode) (extent_id : ExtentId) : DataNode * result EpochError unit :=
  let '(n, r) := run_blocking (promote_rebuilt_blocking extent_id) n in observe n r.
Definition node_writable_extent (n : DataNode) (shard : ShardId) : DataNode * result EpochError ExtentId :=
  run_blocking (reading (fun g => writable_extent_blocking (eg_index g) shard)) n.
Definition node_seal_extent (n : DataNode) (extent_id : ExtentId) : DataNode * result EpochError unit := run_blocking (seal_extent_blocking extent_id) n.
(** A write whose group is the request alone; [sync]: the error of its fsync. *)
Definition node_write (sync : option IoKind) (n : DataNode) (extent_id : ExtentId) (blob_id : BlobId) (body : list Z) : DataNode * result EpochError WriteOutcome :=
  let g := dn_engine n in
  match eg_open g !! extent_id with
  | None => (n, Err EE_ShardNotFound)
  | Some extent =>
      let '(index, extent, replies) := process_batch sync extent (eg_index g) [(blob_id, body)] in
      let g := set_open (<[extent_id := extent]> (eg_open g)) (set_index index (set_disk (save extent (eg_disk g)) g)) in
      observe (with_engine n g) (default (Err EE_Internal) (head replies))
  end.
Definition node_read_shard (n : DataNode) (shard : ShardId) (blob_id : BlobId) : DataNode * result EpochError (option (list Z)) :=
  run_blocking (reading (fun g => read_shard_blocking g shard blob_id)) n.
Definition node_list_live_blobs (n : DataNode) (extent_id : ExtentId) : DataNode * result EpochError (list BlobId) :=
  run_blocking (reading (fun g => blobs <-? map_err SIndex (list_blobs (eg_index g) extent_id) ;; Ok (live_of blobs).*1)) n.
Definition node_delete (n : DataNode) (extent_id : ExtentId) (blob_id : BlobId) : DataNode * result EpochError bool :=
  run_blocking (fun g => match delete_blocking (eg_index g) extent_id blob_id with
                         | Ok (index, b) => (set_index index g, Ok b) | Err e => (g, Err e) end) n.

(** ** The handler (handler.rs) *)

Definition handler_commit_blob (sync : option IoKind) (n : DataNode) (extent : ExtentId) (blob : BlobId) (frames end_frame_count end_blob_crc : Z) (body : list Z)
    : DataNode * result EpochError unit :=
  if negb (frames =? end_frame_count) || negb (crc32c body =? end_blob_crc) then (n, Err EE_Internal)
  else let '(n, r) := node_write sync n extent blob body in (n, match r with Ok _ => Ok tt | Err e => Err e end).
Definition handler_delete_blob (n : DataNode) (extent : ExtentId) (blob : BlobId) : DataNode * result EpochError unit :=
  let '(n, r) := node_delete n extent blob in (n, match r with Ok _ => Ok tt | Err e => Err e end).

(** ** The promise to the placement driver *)

Lemma observe_engine {T} n (r : result EpochError T) : dn_engine (observe n r).1 = dn_engine n /\ (observe n r).2 = r.
Proof. destruct r as [|e]; [done|]. by destruct e. Qed.
Definition nodes_create {Addr} `{Countable Addr} (w : gmap Addr DataNode) (a : Addr) (s : ShardId) (ts : Z) : gmap Addr DataNode * option ExtentId :=
  match w !! a with
  | None => (w, None)
  | Some n => let '(n, r) := node_create_extent_at n s ts in (<[a := n]> w, res_ok r)
  end.
Definition nodes_have {Addr} `{Countable Addr} (w : gmap Addr DataNode) (a : Addr) (e : ExtentId) : Prop :=
  exists n, w !! a = Some n /\ index_has (eg_index (dn_engine n)) e.
Lemma node_create_index n s ts : let '(n', r) := node_create_extent_at n s ts in
  (forall e, index_has (eg_index (dn_engine n)) e -> index_has (eg_index (dn_engine n')) e)
  /\ (forall e, r = Ok e -> index_has (eg_index (dn_engine n')) e).
Proof.
  unfold node_create_extent_at, run_blocking. pose proof (create_extent_index s ts (dn_engine n)) as Hc.
  destruct (create_extent_at_blocking s ts (dn_engine n)) as [g r]. destruct Hc as [Hk Hn].
  set (r' := match r with Ok a => Ok a | Err e => Err (to_epoch e) end). pose proof (observe_engine (with_engine n g) r') as [E1 E2].
  destruct (observe _ _) as [n' r'']. cbn [fst snd] in E1, E2. subst r''. rewrite E1. cbn [with_engine dn_engine]. split; [done|].
  intros e E. destruct r as [e'|]; [|done]. injection E as <-. by apply Hn.
Qed.
Lemma nodes_created {Addr} `{Countable Addr} (w : gmap Addr DataNode) a s ts w' e : nodes_create w a s ts = (w', Some e) -> nodes_have w' a e.
Proof.
  unfold nodes_create. destruct (w !! a) as [n|]; [|done]. pose proof (node_create_index n s ts) as Hc.
  destruct (node_create_extent_at n s ts) as [n' r]. destruct r as [e'|]; [|done]. intros [= <- <-]. exists n'. split; [apply lookup_insert_eq|]. by apply Hc.
Qed.
Lemma nodes_kept {Addr} `{Countable Addr} (w : gmap Addr DataNode) a s ts a' e : nodes_have w a' e -> nodes_have (nodes_create w a s ts).1 a' e.
Proof.
  intros (n' & Hn & He). unfold nodes_create. destruct (w !! a) as [n|] eqn:Ew; [|by exists n']. pose proof (node_create_index n s ts) as Hc.
  destruct (node_create_extent_at n s ts) as [n1 r]. cbn [fst]. destruct (decide (a = a')) as [->|Ha].
  - exists n1. split; [apply lookup_insert_eq|]. rewrite Hn in Ew. injection Ew as ->. destruct Hc as [Hk _]. by apply Hk.
  - exists n'. split; [by rewrite lookup_insert_ne|done].
Qed.
#[export] Instance engine_nodes {Addr} `{Countable Addr} : ExtentNodes Addr (gmap Addr DataNode) :=
  {| en_create := nodes_create; en_has := nodes_have; en_created := nodes_created; en_kept := nodes_kept |}.
End Node.

(** ** A tick against storage engines

    A tick of the placement driver against storage engines. *)

From S2P Require Import PdHeartbeat PdMeta PdInv PdRaft PdRebind.

#[local] Existing Instance cells_rocks.
#[local] Existing Instance castagnoli.
Definition ex_up (i : Z) := PE_UpdateNodeStatus {| un_node_id := i; un_status := NS_Live |}.
Definition ex_fleet : list (LogEntry (LogId := Z) (Membership := Z)) :=
  [ex_entry 1 (ex_node "x"); ex_entry 2 (ex_node "y"); ex_entry 3 (ex_disk 1); ex_entry 4 (ex_disk 2); ex_entry 5 (ex_up 1); ex_entry 6 (ex_up 2)].
Definition ex_driver : Journal := {| jn_sm := (PdStateMachine_apply ex_s0 ex_fleet).1; jn_heartbeats := HeartbeatTracker_new; jn_leaders := ∅; jn_step := 0 |}.
Definition ex_log (n : nat) : RaftAnswer (LogId := Z) (Membership := Z) := RA_Committed [] (7 + Z.of_nat n).
Definition ex_engine : DataNode (RDB := cells_rocks merge_meta) :=
  {| dn_engine := {| eg_disk := {| dk_extents := ∅; dk_trash := ∅; dk_extent_size := 4096 |}; eg_index := rdb_empty; eg_open := ∅ |}; dn_broken := false |}.
Definition ex_world : gmap string DataNode := {["x" := ex_engine; "y" := ex_engine]}.
Definition ex_place : PlacementConfig :=
  {| pcf_writable_target := 8; pcf_max_creations_per_cycle := 1; pcf_affinity := HostAware; pcf_max_create_attempts := 3; pcf_min_free_bytes := 0 |}.
Definition ex_tick := placement_tick ex_log true Some ex_driver ex_world ex_mode ex_place 5.

Lemma ex_driver_inv : pd_inv (jn_sm ex_driver).
Proof. apply sm_apply_inv; [apply fresh_inv|repeat constructor; by vm_compute|by vm_compute|vm_compute; reflexivity]. Qed.
Lemma ex_no_chunks : ci_chunks (ps_chunks (jn_state ex_driver)) = ∅.
Proof. vm_compute. reflexivity. Qed.
Lemma ex_log_quiet : quiet ex_log.
Proof. by intros n. Qed.

Lemma placement_backed_witness : let '(j', w') := ex_tick in
  length (values (ci_chunks (ps_chunks (jn_state j')))) = 1%nat /\ backed Some (jn_state j') w'.
Proof.
  assert (length (values (ci_chunks (ps_chunks (jn_state ex_tick.1)))) = 1%nat) as El by (vm_compute; reflexivity).
  assert (bx_next_id (ps_buckets (jn_state ex_driver)) + 1 <= 2 ^ 63) as Hbx by (vm_compute; discriminate).
  assert (backed Some (jn_state ex_driver) ex_world) as Hb by (intros id c slot H; rewrite ex_no_chunks, lookup_empty in H; discriminate).
  pose proof (placement_backed ex_log Some true ex_driver ex_world ex_mode ex_place 5 ex_log_quiet ltac:(lia) ex_driver_inv Hbx Hb) as H.
  revert El H. unfold ex_tick. generalize (placement_tick ex_log true Some ex_driver ex_world ex_mode ex_place 5).
  intros [j' w'] El [_ H]. split; [exact El|exact H].
Defined.

(** The premise on the log is needed: a bump of the plan's epoch that another leader
    left in the log, applied between the creation of the extents and the commit,
    publishes extents that no node has: [CommitChunk] does not say which plan it
    commits. *)
Definition ex_raced (n : nat) : RaftAnswer (LogId := Z) (Membership := Z) :=
  match n with 1%nat => RA_Committed [ex_entry 8 (PE_RebumpStaging {| rbs_chunk_id := 1 |})] 9 | _ => ex_log n end.
Definition extent_present (w : gmap string (DataNode (RDB := cells_rocks merge_meta))) (addr : string) (e : ExtentId) : bool :=
  match w !! addr with Some n => bool_decide (is_Some (rdb_get (eg_index (dn_engine n)) (extent_key e))) | None => false end.
Lemma commit_races_rebump :
  let '(j', w') := placement_tick ex_raced true Some ex_driver ex_world ex_mode ex_place 5 in
  (c_status <$> values (ci_chunks (ps_chunks (jn_state j')))) = [CS_Writable]
  /\ forallb (fun c => forallb (fun s => negb (extent_present w' "x" (ss_extent_id s)) && negb (extent_present w' "y" (ss_extent_id s))) (c_shards c))
       (values (ci_chunks (ps_chunks (jn_state j')))) = true.
Proof. vm_compute. split; reflexivity. Qed.

(** ** Draining a disk with a chunk still staged on it *)

Definition ex_staged : list (LogEntry (LogId := Z) (Membership := Z)) :=
  ex_fleet ++ [ex_entry 7 (PE_CreateChunkStaging {| cc_code_mode := ex_mode; cc_create_ts := 5; cc_epoch := 0;
     cc_slots := [{| sp_index := 0; sp_disk_id := 1 |}; {| sp_index := 1; sp_disk_id := 2 |}] |})].
Definition ex_staging : Journal := {| jn_sm := (PdStateMachine_apply ex_s0 ex_staged).1; jn_heartbeats := HeartbeatTracker_new; jn_leaders := ∅; jn_step := 0 |}.
(** Disk 2 is marked, its job is started and done: no committed chunk is on it. *)
Definition ex_drained : Journal :=
  let j := (mark_disk_draining ex_log ex_staging 2).1 in
  let j := (sweep_draining_disks ex_log true j).1 in
  let j := (Journal_assign_job ex_log j 1 1 1000).1 in
  (Journal_complete_job ex_log j 1).1.
Definition disk_status (j : Journal) (d : DiskId) : option DiskStatus := d_status <$> di_disks (ps_disks (jn_state j)) !! d.
Definition shards_on (j : Journal) (d : DiskId) : nat := length (ChunkManager_shard_slots_on_disk (ps_chunks (jn_state j)) d).
(** The plan is committed after the sweep dropped the disk: a published shard is on a
    dropped disk. *)
Lemma staged_commit_after_drop :
  let j := (sweep_draining_disks ex_log true ex_drained).1 in
  let j' := (Journal_commit_chunk ex_log j 1).1 in
  disk_status j 2 = Some DS_Dropped /\ disk_status j' 2 = Some DS_Dropped /\ shards_on j' 2 = 1%nat.
Proof. vm_compute. split; [reflexivity|]. split; reflexivity. Qed.
(** The plan is committed before the sweep: the disk has a shard, its only job is
    done, and no sweep starts another. *)
Lemma draining_stuck :
  let j := (Journal_commit_chunk ex_log ex_drained 1).1 in
  let '(j', started) := sweep_draining_disks ex_log true j in
  started = 0%nat /\ jn_step j' = jn_step j /\ disk_status j' 2 = Some DS_Draining /\ shards_on j' 2 = 1%nat.
Proof. vm_compute. split; [reflexivity|]. split; [reflexivity|]. split; reflexivity. Qed.
