(* ===== verification/PdSched.v ===== *)
(** The scheduler of metadata partitions (epoch-pd: meta_sched/plan.rs, operator.rs,
    driver.rs): which partitions to split and which replicas to move, one operation
    per partition at a time, and the sweep that carries them out. *)

From Stdlib Require Import SpecFloat.
From S2P Require Import Prelude Ids Rocks PdDb PdCluster PdChunk PdJob PdHeartbeat PdMeta PdState PdJournal PdDriver.

(** ** Plans (plan.rs) *)

Record PartitionLoad : Set := { pl_partition_id : Z; pl_peers : list NodeId; pl_epoch : Z; pl_total_bytes : Z; pl_splittable : bool }.
Record MetaNodeInfo : Set := { mni_node_id : NodeId; mni_status : NodeStatus; mni_rack : string }.
Record SchedulerConfig : Set := { sc_split_threshold_bytes : Z; sc_max_concurrent_migrations : nat; sc_migrate_tolerant_ratio : spec_float }.
(** 0.2 is the double nearest to it. *)
Definition SchedulerConfig_default : SchedulerConfig :=
  {| sc_split_threshold_bytes := Z.shiftl 4 30; sc_max_concurrent_migrations := 2; sc_migrate_tolerant_ratio := f64_div (f64_of_int 2) (f64_of_int 10) |}.
Record SplitDecision : Set := { sdn_parent_id : Z; sdn_epoch : Z }.
Inductive MigrateReason : Set := Evacuate | BalanceReplicas.
Record MigrateDecision : Set := { md_partition_id : Z; md_from : NodeId; md_to : NodeId; md_reason : MigrateReason; md_epoch : Z }.

Definition plan_splits (loads : list PartitionLoad) (cfg : SchedulerConfig) : list SplitDecision :=
  sort_by_key sdn_parent_id
    ((fun p => {| sdn_parent_id := pl_partition_id p; sdn_epoch := pl_epoch p |})
       <$> filter (fun p => pl_splittable p = true /\ sc_split_threshold_bytes cfg < pl_total_bytes p) loads).

(** Replicas per node; a missing entry counts as zero. *)
Definition load_of (loads : gmap Z Z) (n : NodeId) : Z := default 0 (loads !! n).
Definition load_add (loads : gmap Z Z) (n : NodeId) : gmap Z Z := <[n := load_of loads n + 1]> loads.
Definition load_sub (loads : gmap Z Z) (n : NodeId) : gmap Z Z := match loads !! n with Some c => <[n := c - 1]> loads | None => loads end.
(** [min_by] keeps the first of equal minima. *)
Definition min_by {A} (lt : A -> A -> bool) (l : list A) : option A :=
  foldl (fun best a => match best with Some b => if lt a b then Some a else Some b | None => Some a end) None l.
Definition hungrier (loads : gmap Z Z) (a b : MetaNodeInfo) : bool :=
  (load_of loads (mni_node_id a) <? load_of loads (mni_node_id b))
  || ((load_of loads (mni_node_id a) =? load_of loads (mni_node_id b)) && (mni_node_id a <? mni_node_id b)).
Definition pick_hungriest_target (p : PartitionLoad) (live : list MetaNodeInfo) (loads : gmap Z Z) : option NodeId :=
  mni_node_id <$> min_by (hungrier loads) (filter (fun n => mni_node_id n ∉ pl_peers p) live).
Definition decide_move (p : PartitionLoad) (from to : NodeId) (reason : MigrateReason) : MigrateDecision :=
  {| md_partition_id := pl_partition_id p; md_from := from; md_to := to; md_reason := reason; md_epoch := pl_epoch p |}.

Fixpoint evacuate_peers (dead : gset Z) (live : list MetaNodeInfo) (p : PartitionLoad) (peers : list NodeId) (loads : gmap Z Z) (out : list MigrateDecision)
    : gmap Z Z * list MigrateDecision :=
  match peers with
  | [] => (loads, out)
  | from :: peers =>
      if negb (bool_decide (from ∈ dead)) then evacuate_peers dead live p peers loads out
      else
        match pick_hungriest_target p live loads with
        | None => evacuate_peers dead live p peers loads out
        | Some to => evacuate_peers dead live p peers (load_sub (load_add loads to) from) (out ++ [decide_move p from to Evacuate])
        end
  end.
Definition plan_evacuations (loads : list PartitionLoad) (nodes live : list MetaNodeInfo) (s : gmap Z Z * list MigrateDecision) : gmap Z Z * list MigrateDecision :=
  let dead : gset Z := list_to_set (mni_node_id <$> filter (fun n => mni_status n <> NS_Live) nodes) in
  if decide (dead = ∅) then s
  else foldl (fun s p => evacuate_peers dead live p (pl_peers p) s.1 s.2) s loads.

Fixpoint balance_loop (live : list MetaNodeInfo) (cfg : SchedulerConfig) (quota tolerance : spec_float) (ordered : list PartitionLoad)
    (loads : gmap Z Z) (out : list MigrateDecision) : list MigrateDecision :=
  match ordered with
  | [] => out
  | p :: ordered =>
      if (sc_max_concurrent_migrations cfg <=? length out)%nat then out
      else
        match max_by_key (load_of loads) (pl_peers p) with
        | None => balance_loop live cfg quota tolerance ordered loads out
        | Some from =>
            let from_load := load_of loads from in
            if f64_leb (f64_of_int from_load) (f64_add quota tolerance) then balance_loop live cfg quota tolerance ordered loads out
            else
              match pick_hungriest_target p live loads with
              | None => balance_loop live cfg quota tolerance ordered loads out
              | Some to =>
                  let to_load := load_of loads to in
                  if f64_leb (f64_of_int (from_load - to_load)) (f64_mul (f64_of_int 2) tolerance)
                  then balance_loop live cfg quota tolerance ordered loads out
                  else balance_loop live cfg quota tolerance ordered (load_sub (load_add loads to) from) (out ++ [decide_move p from to BalanceReplicas])
              end
        end
  end.
Definition plan_balance (loads : list PartitionLoad) (live : list MetaNodeInfo) (cfg : SchedulerConfig) (s : gmap Z Z * list MigrateDecision) : list MigrateDecision :=
  let total_replicas := foldr Z.add 0 (values s.1) in
  let quota := f64_div (f64_of_int total_replicas) (f64_of_int (len live)) in
  let tolerance := f64_max (f64_mul quota (sc_migrate_tolerant_ratio cfg)) (f64_of_int 1) in
  balance_loop live cfg quota tolerance (sort_by_key pl_partition_id loads) s.1 s.2.
Definition count_replicas (loads : list PartitionLoad) (live : list MetaNodeInfo) : gmap Z Z :=
  foldl (fun m p => foldl load_add m (pl_peers p)) (foldl (fun m n => <[mni_node_id n := 0]> m) ∅ live) loads.
Definition plan_migrations (loads : list PartitionLoad) (nodes : list MetaNodeInfo) (cfg : SchedulerConfig) : list MigrateDecision :=
  let live := filter (fun n => mni_status n = NS_Live) nodes in
  match live with
  | [] => []
  | _ =>
      let s := plan_evacuations loads nodes live (count_replicas loads live, []) in
      let decisions := if (length s.2 <? sc_max_concurrent_migrations cfg)%nat then plan_balance loads live cfg s else s.2 in
      take (sc_max_concurrent_migrations cfg) decisions
  end.

(** ** One operation per partition (operator.rs) *)

Inductive OpKind : Set := OpSplit | OpMigrate (from to : NodeId).
Inductive OpPriority : Set := PrSplit | PrBalance | PrEvacuate.
Definition priority_rank (p : OpPriority) : Z := match p with PrSplit => 0 | PrBalance => 1 | PrEvacuate => 2 end.
Record PartitionOp : Set := { po_partition_id : Z; po_kind : OpKind; po_origin_epoch : Z; po_priority : OpPriority }.
Record OperatorController : Set := { oc_running : gmap Z PartitionOp; oc_max_concurrent_migrations : nat }.
Definition OperatorController_new (max : nat) : OperatorController := {| oc_running := ∅; oc_max_concurrent_migrations := max |}.
Definition migrate_priority (r : MigrateReason) : OpPriority := match r with Evacuate => PrEvacuate | BalanceReplicas => PrBalance end.
Definition is_migrate (op : PartitionOp) : bool := match po_kind op with OpMigrate _ _ => true | OpSplit => false end.
Definition running_migrations (c : OperatorController) : nat := length (filter (fun op => is_migrate op = true) (values (oc_running c))).
Definition is_running (c : OperatorController) (partition_id : Z) : bool := bool_decide (is_Some (oc_running c !! partition_id)).
Definition controller_running (c : OperatorController) : list PartitionOp := sort_by_key po_partition_id (values (oc_running c)).
Definition start_op (c : OperatorController) (op : PartitionOp) : OperatorController :=
  {| oc_running := <[po_partition_id op := op]> (oc_running c); oc_max_concurrent_migrations := oc_max_concurrent_migrations c |}.
Definition controller_complete (c : OperatorController) (partition_id : Z) : OperatorController :=
  {| oc_running := delete partition_id (oc_running c); oc_max_concurrent_migrations := oc_max_concurrent_migrations c |}.
Definition is_stale (c : OperatorController) (partition_id current_epoch : Z) : bool :=
  match oc_running c !! partition_id with Some op => negb (po_origin_epoch op =? current_epoch) | None => false end.
(** Urgent moves first, then by partition. *)
Definition order_moves (migrations : list MigrateDecision) : list MigrateDecision :=
  sort_by_key (fun m => - priority_rank (migrate_priority (md_reason m))) (sort_by_key md_partition_id migrations).
Fixpoint admit_moves (c : OperatorController) (l : list MigrateDecision) (out : list PartitionOp) : OperatorController * list PartitionOp :=
  match l with
  | [] => (c, out)
  | m :: l =>
      if is_running c (md_partition_id m) then admit_moves c l out
      else if (oc_max_concurrent_migrations c <=? running_migrations c)%nat then admit_moves c l out
      else
        let op := {| po_partition_id := md_partition_id m; po_kind := OpMigrate (md_from m) (md_to m); po_origin_epoch := md_epoch m;
                     po_priority := migrate_priority (md_reason m) |} in
        admit_moves (start_op c op) l (out ++ [op])
  end.
Fixpoint admit_splits (c : OperatorController) (l : list SplitDecision) (out : list PartitionOp) : OperatorController * list PartitionOp :=
  match l with
  | [] => (c, out)
  | s :: l =>
      if is_running c (sdn_parent_id s) then admit_splits c l out
      else
        let op := {| po_partition_id := sdn_parent_id s; po_kind := OpSplit; po_origin_epoch := sdn_epoch s; po_priority := PrSplit |} in
        admit_splits (start_op c op) l (out ++ [op])
  end.
Definition controller_admit (c : OperatorController) (splits : list SplitDecision) (migrations : list MigrateDecision) : OperatorController * list PartitionOp :=
  let '(c, out) := admit_moves c (order_moves migrations) [] in admit_splits c splits out.

(** ** The sweep (driver.rs) *)

(** The answers of the metadata nodes' administration during one sweep. *)
Record MetaAdmin : Set := {
  ma_suggest_split_point : MetaPartition -> result PdError (option PartitionBound);
  ma_apply_split : MetaPartition -> Z -> PartitionBound -> Z -> result PdError unit;
  ma_migrate_group_member : MetaPartition -> NodeId -> NodeId -> result PdError unit }.

Definition is_splittable (p : MetaPartition) : bool :=
  if pb_unbounded (mp_start p) || pb_unbounded (mp_end p) then true else negb (bool_decide (bound_coord (mp_start p) = bound_coord (mp_end p))).

Section Scheduler.
Context {RDB : RocksDb no_merge} {LogId Membership : Set} `{!PdSerde LogId Membership}.
Context (raft : nat -> RaftAnswer (LogId := LogId) (Membership := Membership)) (is_leader : bool) (admin : MetaAdmin) (config : SchedulerConfig).
Implicit Types (j : Journal) (c : OperatorController).

Definition gather_loads j (partitions : list MetaPartition) : list PartitionLoad :=
  (fun p => {| pl_partition_id := mp_partition_id p; pl_peers := mp_peers p; pl_epoch := mp_epoch p;
               pl_total_bytes := default 0 (lr_total_bytes <$> PartitionManager_leader j (mp_partition_id p)); pl_splittable := is_splittable p |})
    <$> partitions.
Definition gather_meta_nodes j : list MetaNodeInfo :=
  (fun n => {| mni_node_id := n_node_id n; mni_status := n_status n; mni_rack := n_rack n |})
    <$> filter (fun n => RoleSet_contains (n_roles n) RoleSet_META = true) (values (ni_nodes (ps_nodes (jn_state j)))).

Definition execute_split j (partition : MetaPartition) : Journal * result PdError unit :=
  match ma_suggest_split_point admin partition with
  | Err e => (j, Err e)
  | Ok None => (j, Ok tt)
  | Ok (Some at_) =>
      match Journal_split_partition raft j (mp_partition_id partition) at_ with
      | (j, Err e) => (j, Err e)
      | (j, Ok (AR_PartitionSplit child_id child_ino_tag)) => (j, ma_apply_split admin partition child_id at_ child_ino_tag)
      | (j, Ok (AR_Rejected _)) => (j, Ok tt)
      | (j, Ok _) => (j, Err (PdRaftError "unexpected split result"))
      end
  end.
Definition execute_migrate j (partition : MetaPartition) (from to : NodeId) : Journal * result PdError unit :=
  let finish j := let updated := default partition (px_partitions (ps_partitions (jn_state j)) !! mp_partition_id partition) in
                  (j, ma_migrate_group_member admin updated from to) in
  match Journal_migrate_partition raft j (mp_partition_id partition) from to with
  | (j, Err e) => (j, Err e)
  | (j, Ok (AR_PartitionMigrated _)) | (j, Ok AR_Applied) => finish j
  | (j, Ok (AR_Rejected _)) => (j, Ok tt)
  | (j, Ok _) => (j, Err (PdRaftError "unexpected migrate result"))
  end.

(** A slot is freed when the partition's epoch moved, or it is gone. *)
Definition clear_slot (epochs : gmap Z MetaPartition) c (pid : Z) : OperatorController :=
  match mp_epoch <$> epochs !! pid with
  | Some epoch => if is_stale c pid epoch then controller_complete c pid else c
  | None => controller_complete c pid
  end.
Fixpoint execute_all (admitted : list PartitionOp) j c : Journal * OperatorController :=
  match admitted with
  | [] => (j, c)
  | op :: admitted =>
      match px_partitions (ps_partitions (jn_state j)) !! po_partition_id op with
      | None => execute_all admitted j (controller_complete c (po_partition_id op))
      | Some partition =>
          let '(j, r) := match po_kind op with
                         | OpSplit => execute_split j partition
                         | OpMigrate from to => execute_migrate j partition from to
                         end in
          execute_all admitted j (match r with Ok _ => c | Err _ => controller_complete c (po_partition_id op) end)
      end
  end.
(** The sweep up to its first call: the slots it frees, and what it admits. *)
Definition scheduler_plan j c : OperatorController * list PartitionOp :=
  let parts := px_partitions (ps_partitions (jn_state j)) in
  let c := foldl (clear_slot parts) c (po_partition_id <$> controller_running c) in
  let loads := gather_loads j (values parts) in
  let splits := plan_splits loads config in
  let migrations := plan_migrations loads (gather_meta_nodes j) config in
  controller_admit c splits migrations.
Definition scheduler_sweep j c : Journal * OperatorController := let '(c, admitted) := scheduler_plan j c in execute_all admitted j c.
Definition scheduler_tick j c : Journal * OperatorController := if is_leader then scheduler_sweep j c else (j, c).
End Scheduler.

(** ** Proofs

    The scheduler of metadata partitions moves replicas only to live nodes that hold
    none, works on a partition once at a time and keeps to its budget. *)

From S2P Require Import PdMetaInv PdInv PdRaft PdRoute PdServiceProps.

(** ** Planned moves *)

Lemma min_by_elem {A} (lt : A -> A -> bool) l a : min_by lt l = Some a -> a ∈ l.
Proof.
  unfold min_by. induction l as [|x l IH] using rev_ind; [done|]. rewrite foldl_snoc, elem_of_app.
  destruct (foldl _ None l) as [b|]; [destruct (lt x b)|]; intros [= ->]; [right; by left|left; by apply IH|right; by left].
Qed.
Lemma max_by_key_elem {A} (key : A -> Z) l a : max_by_key key l = Some a -> a ∈ l.
Proof.
  unfold max_by_key. induction l as [|x l IH] using rev_ind; [done|]. rewrite foldl_snoc, elem_of_app.
  destruct (foldl _ None l) as [b|]; [destruct (key x <? key b)|]; intros [= ->]; [left; by apply IH|right; by left..].
Qed.

(** A move of a replica of [p] to a listed node that has none. *)
Record sound_move (live : list MetaNodeInfo) (p : PartitionLoad) (m : MigrateDecision) : Prop := {
  smv_partition : md_partition_id m = pl_partition_id p; smv_epoch : md_epoch m = pl_epoch p;
  smv_from : md_from m ∈ pl_peers p; smv_to : md_to m ∉ pl_peers p; smv_live : md_to m ∈ (mni_node_id <$> live) }.
Definition sound_moves (loads : list PartitionLoad) (live : list MetaNodeInfo) (l : list MigrateDecision) : Prop :=
  Forall (fun m => exists p, p ∈ loads /\ sound_move live p m) l.
Lemma target_ok p live lm to : pick_hungriest_target p live lm = Some to -> (to ∉ pl_peers p) /\ to ∈ (mni_node_id <$> live).
Proof.
  unfold pick_hungriest_target. intros (n & Hn & ->)%fmap_Some. apply min_by_elem, list_elem_of_filter in Hn as [Hp Hn].
  split; [done|]. by apply list_elem_of_fmap_2.
Qed.
Lemma move_ok (loads : list PartitionLoad) live p lm from to reason : p ∈ loads -> from ∈ pl_peers p -> pick_hungriest_target p live lm = Some to ->
  exists q, q ∈ loads /\ sound_move live q (decide_move p from to reason).
Proof. intros Hp Hf [H1 H2]%target_ok. exists p. split; [done|]. by split. Qed.
Lemma evacuate_peers_ok (loads : list PartitionLoad) live dead p (peers : list NodeId) : p ∈ loads -> peers ⊆ pl_peers p -> forall lm out, sound_moves loads live out ->
  sound_moves loads live (evacuate_peers dead live p peers lm out).2.
Proof.
  intros Hp. induction peers as [|from peers IH]; intros Hsub lm out Ho; cbn [evacuate_peers]; [done|].
  assert (peers ⊆ pl_peers p) by (intros x Hx; apply Hsub; by right).
  destruct (bool_decide _); cbn [negb]; [|by apply IH]. destruct (pick_hungriest_target p live lm) as [to|] eqn:Et; [|by apply IH].
  apply IH; [done|]. apply Forall_app. split; [done|]. apply Forall_singleton. eapply move_ok; [done| |done]. apply Hsub. by left.
Qed.
Lemma plan_evacuations_ok loads nodes live s : sound_moves loads live s.2 -> sound_moves loads live (plan_evacuations loads nodes live s).2.
Proof.
  intros Hs. unfold plan_evacuations. destruct (decide _); [done|].
  assert (forall l, l ⊆ loads -> forall s, sound_moves loads live s.2 ->
    sound_moves loads live (foldl (fun s p => evacuate_peers (list_to_set (mni_node_id <$> filter (fun n => mni_status n <> NS_Live) nodes)) live p (pl_peers p) s.1 s.2) s l).2) as H.
  { intros l. induction l as [|p l IH]; intros Hl s0 Hs0; [done|]. cbn [foldl]. apply IH; [intros x Hx; apply Hl; by right|].
    apply evacuate_peers_ok; [apply Hl; by left|done|done]. }
  by apply H.
Qed.
Lemma balance_loop_ok (loads : list PartitionLoad) live cfg quota tol (l : list PartitionLoad) : l ⊆ loads -> forall lm out, sound_moves loads live out ->
  sound_moves loads live (balance_loop live cfg quota tol l lm out).
Proof.
  induction l as [|p l IH]; intros Hl lm out Ho; cbn [balance_loop]; [done|]. assert (l ⊆ loads) by (intros x Hx; apply Hl; by right).
  destruct (_ <=? _)%nat; [done|]. destruct (max_by_key _ _) as [from|] eqn:Ef; [|by apply IH]. destruct (f64_leb _ _); [by apply IH|].
  destruct (pick_hungriest_target p live lm) as [to|] eqn:Et; [|by apply IH]. destruct (f64_leb _ _); [by apply IH|].
  apply IH; [done|]. apply Forall_app. split; [done|]. apply Forall_singleton. eapply move_ok; [apply Hl; by left|by eapply max_by_key_elem|done].
Qed.
Lemma plan_migrations_ok loads nodes cfg : let live := filter (fun n => mni_status n = NS_Live) nodes in
  sound_moves loads live (plan_migrations loads nodes cfg) /\ (length (plan_migrations loads nodes cfg) <= sc_max_concurrent_migrations cfg)%nat.
Proof.
  intros live. unfold plan_migrations. fold live. destruct live as [|n live'] eqn:El; [split; [constructor|cbn; lia]|]. rewrite <- El. split; [|rewrite length_take; lia].
  apply Forall_take. assert (sound_moves loads live (plan_evacuations loads nodes live (count_replicas loads live, [])).2) as He
    by (apply plan_evacuations_ok; constructor).
  destruct (_ <? _)%nat; [|done]. apply balance_loop_ok; [|done]. intros x. by rewrite sort_by_key_Permutation.
Qed.

(** ** Admission *)

Definition migrations_in (m : gmap Z PartitionOp) : nat := length (filter (fun op => is_migrate op = true) (values m)).
Lemma migrations_insert m op : m !! po_partition_id op = None ->
  migrations_in (<[po_partition_id op := op]> m) = ((if is_migrate op then 1 else 0) + migrations_in m)%nat.
Proof.
  intros Hm. unfold migrations_in.
  assert (values (<[po_partition_id op := op]> m) ≡ₚ op :: values m) as ->.
  { rewrite !values_Permutation, map_to_list_insert by done. done. }
  rewrite filter_cons. destruct (is_migrate op); [rewrite decide_True by done|rewrite decide_False by done]; done.
Qed.
Lemma migrations_delete m id : (migrations_in (delete id m) <= migrations_in m)%nat.
Proof.
  destruct (m !! id) as [op|] eqn:E; [|by rewrite delete_id]. unfold migrations_in.
  assert (values m ≡ₚ op :: values (delete id m)) as ->.
  { rewrite !values_Permutation. change (op :: (map_to_list (delete id m)).*2) with (((id, op) :: map_to_list (delete id m)).*2). by rewrite map_to_list_delete. }
  rewrite filter_cons. destruct (decide _); cbn; lia.
Qed.
Record admission (c0 c : OperatorController) (out : list PartitionOp) : Prop := {
  adm_max : oc_max_concurrent_migrations c = oc_max_concurrent_migrations c0;
  adm_budget : (migrations_in (oc_running c) <= oc_max_concurrent_migrations c)%nat;
  adm_once : NoDup (po_partition_id <$> out);
  adm_new : forall op, op ∈ out -> oc_running c0 !! po_partition_id op = None /\ oc_running c !! po_partition_id op = Some op;
  adm_old : forall id, id ∉ po_partition_id <$> out -> oc_running c !! id = oc_running c0 !! id }.
Lemma admission_step c0 c out op : admission c0 c out -> is_running c (po_partition_id op) = false ->
  (is_migrate op = true -> (running_migrations c < oc_max_concurrent_migrations c)%nat) -> admission c0 (start_op c op) (out ++ [op]).
Proof.
  intros [A1 A2 A3 A4 A5] Hr Hb. unfold is_running in Hr. apply bool_decide_eq_false, eq_None_not_Some in Hr.
  assert (po_partition_id op ∉ po_partition_id <$> out) as Hni.
  { intros (o & E & Ho)%list_elem_of_fmap. destruct (A4 _ Ho) as [_ H]. rewrite <- E, Hr in H. done. }
  split; cbn [start_op oc_running oc_max_concurrent_migrations].
  - done.
  - rewrite migrations_insert by done. destruct (is_migrate op); [specialize (Hb eq_refl); unfold running_migrations in Hb; unfold migrations_in in *; lia|done].
  - rewrite fmap_app. apply NoDup_app. split; [done|]. split; [|apply NoDup_singleton]. intros x Hx ->%list_elem_of_singleton. done.
  - intros o. rewrite elem_of_app, list_elem_of_singleton. intros [Ho| ->].
    + destruct (A4 _ Ho) as [H1 H2]. split; [done|]. rewrite lookup_insert_ne; [done|]. intros E. apply Hni. rewrite E. by apply list_elem_of_fmap_2.
    + split; [by rewrite <- A5|apply lookup_insert_eq].
  - intros id Hid. rewrite fmap_app, elem_of_app in Hid. rewrite lookup_insert_ne; [apply A5; tauto|]. intros E. apply Hid. right. rewrite <- E. cbn. by left.
Qed.
Lemma admit_moves_ok c0 l : forall c out, admission c0 c out -> let '(c', out') := admit_moves c l out in
  admission c0 c' out' /\ exists new, out' = out ++ new
    /\ Forall (fun op => exists m, m ∈ l /\ po_partition_id op = md_partition_id m /\ po_kind op = OpMigrate (md_from m) (md_to m) /\ po_origin_epoch op = md_epoch m) new.
Proof.
  induction l as [|m l IH]; intros c out Ha; cbn [admit_moves]; [split; [done|exists []; by rewrite app_nil_r]|].
  assert (let '(c', out') := admit_moves c l out in admission c0 c' out' /\ exists new, out' = out ++ new
    /\ Forall (fun op => exists m', m' ∈ m :: l /\ po_partition_id op = md_partition_id m' /\ po_kind op = OpMigrate (md_from m') (md_to m') /\ po_origin_epoch op = md_epoch m') new) as Hskip.
  { specialize (IH c out Ha). destruct (admit_moves c l out) as [c' out']. destruct IH as (H1 & new & H2 & H3). split; [done|]. exists new. split; [done|].
    eapply Forall_impl; [exact H3|]. intros op (m' & Hm & ?). exists m'. split; [by right|done]. }
  destruct (is_running c (md_partition_id m)) eqn:Er; [done|]. destruct (Nat.leb_spec (oc_max_concurrent_migrations c) (running_migrations c)); [done|].
  set (op := {| po_partition_id := _ |}). specialize (IH (start_op c op) (out ++ [op]) (admission_step c0 c out op Ha Er ltac:(lia))).
  destruct (admit_moves _ l _) as [c' out']. destruct IH as (H1 & new & H2 & H3). split; [done|]. exists (op :: new). split; [by rewrite H2, <- app_assoc|].
  constructor; [exists m; split; [by left|done]|]. eapply Forall_impl; [exact H3|]. intros o (m' & Hm & ?). exists m'. split; [by right|done].
Qed.
Lemma admit_splits_ok c0 l : forall c out, admission c0 c out -> let '(c', out') := admit_splits c l out in
  admission c0 c' out' /\ exists new, out' = out ++ new
    /\ Forall (fun op => exists s, s ∈ l /\ po_partition_id op = sdn_parent_id s /\ po_kind op = OpSplit /\ po_origin_epoch op = sdn_epoch s) new.
Proof.
  induction l as [|s l IH]; intros c out Ha; cbn [admit_splits]; [split; [done|exists []; by rewrite app_nil_r]|].
  destruct (is_running c (sdn_parent_id s)) eqn:Er.
  { specialize (IH c out Ha). destruct (admit_splits c l out) as [c' out']. destruct IH as (H1 & new & H2 & H3). split; [done|]. exists new. split; [done|].
    eapply Forall_impl; [exact H3|]. intros op (s' & Hs & ?). exists s'. split; [by right|done]. }
  set (op := {| po_partition_id := _ |}). specialize (IH (start_op c op) (out ++ [op]) (admission_step c0 c out op Ha Er ltac:(done))).
  destruct (admit_splits _ l _) as [c' out']. destruct IH as (H1 & new & H2 & H3). split; [done|]. exists (op :: new). split; [by rewrite H2, <- app_assoc|].
  constructor; [exists s; split; [by left|done]|]. eapply Forall_impl; [exact H3|]. intros o (s' & Hs & ?). exists s'. split; [by right|done].
Qed.

(** ** The sweep *)

Section Sweep.
Context {RDB : RocksDb no_merge} {LogId Membership : Set} `{!PdSerde LogId Membership}.
Context (raft : nat -> RaftAnswer (LogId := LogId) (Membership := Membership)) (admin : MetaAdmin) (config : SchedulerConfig).
Implicit Types (j : Journal) (c : OperatorController).

Definition within_budget c : Prop := (migrations_in (oc_running c) <= oc_max_concurrent_migrations c)%nat.
(** A slot that a sweep keeps is one that was taken. *)
Definition released c c' : Prop :=
  oc_max_concurrent_migrations c' = oc_max_concurrent_migrations c
  /\ (migrations_in (oc_running c') <= migrations_in (oc_running c))%nat /\ oc_running c' ⊆ oc_running c.
Lemma released_trans c1 c2 c3 : released c1 c2 -> released c2 c3 -> released c1 c3.
Proof. intros (A & B & C) (D & E & F). split; [congruence|]. split; [lia|by etransitivity]. Qed.
Lemma complete_released c id : released c (controller_complete c id).
Proof. split; [done|]. split; [apply migrations_delete|apply delete_subseteq]. Qed.
Lemma released_refl c : released c c.
Proof. split; [done|]. split; [lia|done]. Qed.
Lemma clear_released parts l : forall c, released c (foldl (clear_slot parts) c l).
Proof.
  induction l as [|id l IH]; intros c; [apply released_refl|]. cbn [foldl]. eapply released_trans; [|apply IH]. unfold clear_slot.
  destruct (mp_epoch <$> _); [destruct (is_stale _ _ _)|]; [apply complete_released|apply released_refl|apply complete_released].
Qed.
Lemma execute_released l : forall j c, released c (execute_all raft admin l j c).2.
Proof.
  induction l as [|op l IH]; intros j c; cbn [execute_all]; [apply released_refl|].
  destruct (px_partitions _ !! _) as [p|]; [|eapply released_trans; [apply complete_released|apply IH]].
  destruct (match po_kind op with OpSplit => _ | OpMigrate _ _ => _ end) as [j' r]. eapply released_trans; [|apply IH].
  destruct r; [apply released_refl|apply complete_released].
Qed.

(** The slot of a partition whose epoch has not moved is kept. *)
Lemma clear_keeps (parts : gmap Z MetaPartition) id op l : (mp_epoch <$> parts !! id) = Some (po_origin_epoch op) -> forall c,
  oc_running c !! id = Some op -> oc_running (foldl (clear_slot parts) c l) !! id = Some op.
Proof.
  intros He. induction l as [|i l IH]; intros c Hc; [done|]. cbn [foldl]. apply IH. unfold clear_slot. destruct (decide (i = id)) as [->|Hi].
  - rewrite He. unfold is_stale. by rewrite Hc, Z.eqb_refl.
  - destruct (mp_epoch <$> parts !! i); [destruct (is_stale _ _ _)|]; [|done|]; cbn [controller_complete oc_running]; by rewrite lookup_delete_ne.
Qed.

(** What is admitted of a partition as it is. *)
Definition justified j (op : PartitionOp) : Prop :=
  exists p, px_partitions (ps_partitions (jn_state j)) !! po_partition_id op = Some p /\ po_origin_epoch op = mp_epoch p
    /\ match po_kind op with
       | OpSplit => is_splittable p = true
           /\ sc_split_threshold_bytes config < default 0 (lr_total_bytes <$> PartitionManager_leader j (mp_partition_id p))
       | OpMigrate from to => from ∈ mp_peers p /\ (to ∉ mp_peers p)
           /\ exists n, ni_nodes (ps_nodes (jn_state j)) !! to = Some n /\ n_status n = NS_Live /\ RoleSet_contains (n_roles n) RoleSet_META = true
       end.
Lemma gathered_load j l : pd_inv (jn_sm j) -> l ∈ gather_loads j (values (px_partitions (ps_partitions (jn_state j)))) ->
  exists p, px_partitions (ps_partitions (jn_state j)) !! pl_partition_id l = Some p /\ pl_epoch l = mp_epoch p /\ pl_peers l = mp_peers p
    /\ pl_splittable l = is_splittable p /\ pl_total_bytes l = default 0 (lr_total_bytes <$> PartitionManager_leader j (mp_partition_id p)).
Proof.
  intros [_ Hok] (p & -> & [id Hp]%elem_of_values)%list_elem_of_fmap. cbn. exists p.
  destruct (pk_id _ (pk_inv _ _ _ (pd_partitions _ _ _ Hok)) _ _ Hp) as [-> _]. done.
Qed.
Lemma gathered_live j id : pd_inv (jn_sm j) -> id ∈ (mni_node_id <$> filter (fun n => mni_status n = NS_Live) (gather_meta_nodes j)) ->
  exists n, ni_nodes (ps_nodes (jn_state j)) !! id = Some n /\ n_status n = NS_Live /\ RoleSet_contains (n_roles n) RoleSet_META = true.
Proof.
  intros [_ Hok] (i & -> & [Hl Hi]%list_elem_of_filter)%list_elem_of_fmap. apply list_elem_of_fmap in Hi as (n & -> & [Hm [k Hk]%elem_of_values]%list_elem_of_filter).
  cbn in *. exists n. by destruct (mg_id _ _ _ _ (no_managed _ _ _ (pd_nodes _ _ _ Hok)) _ _ Hk) as [-> _].
Qed.

(** C13: the metadata scheduler. Of a reachable state, whatever the nodes and consensus
    answer: a sweep admits at most one operation of a partition, and none of a
    partition it already works on; every operation is about the partition as it is,
    a split of one that is over the threshold, a move from a node that has a replica
    to a live metadata node that has none; and the moves under way, over all sweeps,
    stay within the budget. *)
Theorem scheduler_sound is_leader j c : pd_inv (jn_sm j) -> within_budget c ->
  let '(c1, admitted) := scheduler_plan config j c in
  NoDup (po_partition_id <$> admitted)
  /\ (forall op, op ∈ admitted -> justified j op /\ oc_running c1 !! po_partition_id op = Some op
       /\ match oc_running c !! po_partition_id op with
          | Some old => (mp_epoch <$> px_partitions (ps_partitions (jn_state j)) !! po_partition_id op) <> Some (po_origin_epoch old)
          | None => True
          end)
  /\ within_budget c1 /\ within_budget (scheduler_tick raft is_leader admin config j c).2.
Proof.
  intros Hi Hb. unfold scheduler_tick, scheduler_sweep, scheduler_plan. set (parts := px_partitions (ps_partitions (jn_state j))).
  pose proof (clear_released parts (po_partition_id <$> controller_running c) c) as Hrel.
  set (c0 := foldl _ c _) in *. destruct Hrel as (R1 & R2 & R3). assert (within_budget c0) as Hb0 by (unfold within_budget in *; lia).
  set (loads := gather_loads j (values parts)). unfold controller_admit.
  pose proof (admit_moves_ok c0 (order_moves (plan_migrations loads (gather_meta_nodes j) config)) c0 []) as Hm.
  destruct (admit_moves _ _ _) as [c1 out1]. destruct Hm as (A1 & new1 & -> & N1).
  { split; [done|done|constructor|by intros ? ?%not_elem_of_nil|done]. }
  pose proof (admit_splits_ok c0 (plan_splits loads config) c1 ([] ++ new1) A1) as Hs.
  destruct (admit_splits _ _ _) as [c2 out2]. destruct Hs as (A2 & new2 & -> & N2). cbn [app] in *.
  assert (within_budget c2) as Hb2 by (apply (adm_budget _ _ _ A2)).
  split; [apply (adm_once _ _ _ A2)|]. split; [|split; [done|]].
  - intros op Hop. destruct (adm_new _ _ _ A2 _ Hop) as [H0 H2]. split; [|split; [done|]].
    + apply elem_of_app in Hop as [Hop|Hop].
      * rewrite Forall_forall in N1. destruct (N1 _ Hop) as (m & Hin & E1 & E2 & E3). unfold order_moves in Hin. rewrite !sort_by_key_Permutation in Hin.
        destruct (plan_migrations_ok loads (gather_meta_nodes j) config) as [Hpm _]. unfold sound_moves in Hpm. rewrite Forall_forall in Hpm.
        destruct (Hpm _ Hin) as (l & Hl & [M1 M2 M3 M4 M5]). destruct (gathered_load j l Hi Hl) as (p & Hp & L1 & L2 & _).
        exists p. rewrite E1, E2, E3, M1, M2. split; [done|]. split; [done|]. rewrite L2 in M3, M4. split; [done|]. split; [done|]. by apply gathered_live.
      * rewrite Forall_forall in N2. destruct (N2 _ Hop) as (d & Hin & E1 & E2 & E3). unfold plan_splits in Hin. rewrite sort_by_key_Permutation in Hin.
        apply list_elem_of_fmap in Hin as (l & -> & [[F1 F2] Hl]%list_elem_of_filter). destruct (gathered_load j l Hi Hl) as (p & Hp & L1 & _ & L3 & L4).
        cbn in E1, E3. exists p. rewrite E1, E2, E3. split; [done|]. split; [done|]. split; congruence || by rewrite <- L4.
    + destruct (oc_running c !! po_partition_id op) as [old|] eqn:Eo; [|done]. intros He.
      unfold c0 in H0. by rewrite (clear_keeps parts _ old _ He c Eo) in H0.
  - destruct is_leader; [|done]. destruct (execute_released (new1 ++ new2) j c2) as (X1 & X2 & _). unfold within_budget in *. lia.
Qed.

(** ** A slot that is not freed *)

Lemma plan_keeps_slot j c id op : within_budget c -> oc_running c !! id = Some op ->
  (mp_epoch <$> px_partitions (ps_partitions (jn_state j)) !! id) = Some (po_origin_epoch op) ->
  let '(c1, admitted) := scheduler_plan config j c in (id ∉ (po_partition_id <$> admitted)) /\ oc_running c1 !! id = Some op.
Proof.
  intros Hb Hc He. unfold scheduler_plan, controller_admit. set (parts := px_partitions (ps_partitions (jn_state j))) in *.
  pose proof (clear_released parts (po_partition_id <$> controller_running c) c) as (R1 & R2 & _).
  pose proof (clear_keeps parts id op (po_partition_id <$> controller_running c) He c Hc) as Hk. set (c0 := foldl _ c _) in *.
  pose proof (admit_moves_ok c0 (order_moves (plan_migrations (gather_loads j (values parts)) (gather_meta_nodes j) config)) c0 []) as Hm.
  destruct (admit_moves _ _ _) as [c1 out1]. destruct Hm as (A1 & _).
  { split; [done|unfold within_budget in *; lia|constructor|by intros ? ?%not_elem_of_nil|done]. }
  pose proof (admit_splits_ok c0 (plan_splits (gather_loads j (values parts)) config) c1 out1 A1) as Hs.
  destruct (admit_splits _ _ _) as [c2 out2]. destruct Hs as (A2 & _).
  assert (id ∉ po_partition_id <$> out2) as Hni.
  { intros (o & -> & Ho)%list_elem_of_fmap. destruct (adm_new _ _ _ A2 _ Ho) as [H0 _]. by rewrite Hk in H0. }
  split; [done|]. by rewrite (adm_old _ _ _ A2 _ Hni).
Qed.
Lemma execute_keeps_slot id l : forall j c, id ∉ po_partition_id <$> l -> oc_running (execute_all raft admin l j c).2 !! id = oc_running c !! id.
Proof.
  induction l as [|o l IH]; intros j c Hni; cbn [execute_all]; [done|]. rewrite fmap_cons, not_elem_of_cons in Hni. destruct Hni as [Ho Hni].
  destruct (px_partitions _ !! _) as [p|]; [|rewrite IH by done; cbn; by rewrite lookup_delete_ne].
  destruct (match po_kind o with OpSplit => _ | OpMigrate _ _ => _ end) as [j' r]. rewrite IH by done. destruct r; [done|]. cbn. by rewrite lookup_delete_ne.
Qed.
End Sweep.

(** A slot whose operation was deferred or refused is never freed: while the epoch of
    the partition stays what it was, no sweep admits anything of it again, neither the
    split that was to be retried nor the evacuation of a replica that is lost. *)
Theorem deferred_slot_blocks {RDB : RocksDb no_merge} {LogId Membership : Set} `{!PdSerde LogId Membership} id op :
  forall (sweeps : list (Journal * (nat -> RaftAnswer (LogId := LogId) (Membership := Membership)) * MetaAdmin * SchedulerConfig)) c,
  within_budget c -> oc_running c !! id = Some op ->
  Forall (fun s : Journal * _ * MetaAdmin * SchedulerConfig => (mp_epoch <$> px_partitions (ps_partitions (jn_state s.1.1.1)) !! id) = Some (po_origin_epoch op)
    /\ pd_inv (jn_sm s.1.1.1)) sweeps ->
  oc_running (foldl (fun c s => (scheduler_tick s.1.1.2 true s.1.2 s.2 s.1.1.1 c).2) c sweeps) !! id = Some op.
Proof.
  intros sweeps. induction sweeps as [|[[[j raft] admin] config] sweeps IH]; intros c Hb Hc Hs; [done|]. apply Forall_cons in Hs as [[He Hi] Hs]. cbn [fst snd] in He, Hi.
  cbn [foldl]. apply IH; [|  |done]; cbn [fst snd scheduler_tick].
  - pose proof (scheduler_sound raft admin config true j c Hi Hb) as H. destruct (scheduler_plan config j c) as [c1 l] eqn:E. by destruct H as (_ & _ & _ & ?).
  - pose proof (plan_keeps_slot config j c id op Hb Hc He) as H. unfold scheduler_sweep. destruct (scheduler_plan config j c) as [c1 l]. destruct H as [Hni Hk].
    by rewrite execute_keeps_slot.
Qed.

(** ** Concrete sweeps *)

Section SchedulerExample.
#[local] Existing Instance cells_rocks.
Definition ex_report : LeaderReport :=
  {| lr_leader := 1; lr_applied_index := 9; lr_inline_bytes := 0; lr_inline_count := 0; lr_total_bytes := Z.shiftl 5 30; lr_last_seen_millis := 0 |}.
(** Partition 1 is over the threshold. *)
Definition ex_heavy : Journal := {| jn_sm := ex_ring; jn_heartbeats := HeartbeatTracker_new; jn_leaders := {[1 := ex_report]}; jn_step := 0 |}.
Definition ex_slots : OperatorController := OperatorController_new 2.
Definition ex_admin (at_ : option PartitionBound) : MetaAdmin :=
  {| ma_suggest_split_point := fun _ => Ok at_; ma_apply_split := fun _ _ _ _ => Ok tt; ma_migrate_group_member := fun _ _ _ => Ok tt |}.

Lemma scheduler_sound_witness : exists op c1, scheduler_plan SchedulerConfig_default ex_heavy ex_slots = (c1, [op])
  /\ justified SchedulerConfig_default ex_heavy op /\ po_kind op = OpSplit
  /\ within_budget (scheduler_tick ex_raft true (ex_admin (Some (bound_at 2 []))) SchedulerConfig_default ex_heavy ex_slots).2.
Proof.
  assert (within_budget ex_slots) as Hb by (unfold within_budget; vm_compute; lia).
  pose proof (scheduler_sound ex_raft (ex_admin (Some (bound_at 2 []))) SchedulerConfig_default true ex_heavy ex_slots ex_ring_inv Hb) as H.
  assert ((scheduler_plan SchedulerConfig_default ex_heavy ex_slots).2
    = [{| po_partition_id := 1; po_kind := OpSplit; po_origin_epoch := 1; po_priority := PrSplit |}]) as E by (vm_compute; reflexivity).
  destruct (scheduler_plan SchedulerConfig_default ex_heavy ex_slots) as [c1 l]. cbn [snd] in E. subst l. destruct H as (_ & Hj & _ & Hb').
  eexists _, c1. split; [reflexivity|]. split; [apply Hj; by left|]. split; [reflexivity|exact Hb'].
Defined.
(** The node defers the split; when it would agree, nothing is asked of it. *)
Lemma deferred_split_not_retried :
  let '(j1, c1) := scheduler_tick ex_raft true (ex_admin None) SchedulerConfig_default ex_heavy ex_slots in
  let '(j2, c2) := scheduler_tick ex_raft true (ex_admin (Some (bound_at 2 []))) SchedulerConfig_default j1 c1 in
  jn_step j2 = 0%nat /\ (po_kind <$> oc_running c2 !! 1) = Some OpSplit.
Proof. vm_compute. split; reflexivity. Qed.
End SchedulerExample.
