(* ===== verification/Worker.v ===== *)
(** The worker (epoch-worker: coordinator.rs, subtask/mod.rs, repair/subtask.rs,
    repair/shard_repair.rs, inspect/mod.rs): a job expanded into subtasks, the repair
    of one shard slot, and the inspection of a chunk, over the backends they are given. *)

From S2P Require Import Prelude Ids EcLayout Bitrot Erasure EcPipeline.

(** ** Effects: a world that is passed on, also by a call that fails *)

Definition Eff (W A : Type) : Type := W -> W * result SubtaskError A.
Definition eff_ret {W A} (a : A) : Eff W A := fun w => (w, Ok a).
Definition eff_fail {W A} (e : SubtaskError) : Eff W A := fun w => (w, Err e).
Definition eff_bind {W A B} (m : Eff W A) (k : A -> Eff W B) : Eff W B :=
  fun w => match m w with (w, Ok a) => k a w | (w, Err e) => (w, Err e) end.
Definition eff_lift {W A} (r : result SubtaskError A) : Eff W A := fun w => (w, r).
Declare Scope eff_scope.
Notation "x <-- m ;; k" := (eff_bind m (fun x => k)) (at level 100, m at next level, k at level 200, right associativity) : eff_scope.
Open Scope eff_scope.

(** ** Jobs (coordinator.rs) *)

Record Subtask (W : Type) : Type := { st_id : Z; st_is_done : Eff W bool; st_execute : Eff W unit }.
Arguments st_id {W}. Arguments st_is_done {W}. Arguments st_execute {W}.
Record ProgressSink (W : Type) : Type := { sink_checkpoint : Z -> Eff W unit; sink_renew_lease : Eff W unit }.
Arguments sink_checkpoint {W}. Arguments sink_renew_lease {W}.
Definition CHECKPOINT_EVERY : Z := 100.

Section Jobs.
Context {W : Type}.
Implicit Types (sink : ProgressSink W).
(** The number executed. *)
Fixpoint run_subtasks sink (subtasks : list (Subtask W)) (executed completed : Z) : Eff W (Z * Z) :=
  match subtasks with
  | [] => eff_ret (executed, completed)
  | subtask :: subtasks =>
      done <-- st_is_done subtask ;;
      if done : bool then run_subtasks sink subtasks executed completed
      else
        _u <-- st_execute subtask ;;
        let executed := executed + 1 in
        let completed := completed + 1 in
        if completed mod CHECKPOINT_EVERY =? 0 then
          _u <-- sink_checkpoint sink completed ;;
          _u <-- sink_renew_lease sink ;;
          run_subtasks sink subtasks executed completed
        else run_subtasks sink subtasks executed completed
  end.
Definition run_job (expand : Z -> Eff W (list (Subtask W))) sink (resume_from : Z) : Eff W Z :=
  _u <-- sink_renew_lease sink ;;
  subtasks <-- expand resume_from ;;
  counts <-- run_subtasks sink subtasks 0 resume_from ;;
  _u <-- sink_checkpoint sink counts.2 ;;
  eff_ret counts.1.
End Jobs.

(** ** Repair of a shard slot (repair/subtask.rs, repair/shard_repair.rs) *)

Record ChunkLayout : Set := { cl_chunk_id : ChunkId; cl_data : Z; cl_parity : Z; cl_stripe_size : Z; cl_shards : list (ShardId * NodeId) }.
Definition cl_total (l : ChunkLayout) : Z := cl_data l + cl_parity l.
Inductive CommitOutcome : Set := Rebound | AlreadyRebound.
Record RepairBackend (W : Type) : Type := {
  rb_read_shard : NodeId -> ShardId -> BlobId -> Eff W (option (list Z));
  rb_ensure_rebuild_extent : ShardId -> Eff W ExtentId;
  rb_write_rebuilt : ExtentId -> BlobId -> list Z -> Eff W unit;
  rb_promote : ExtentId -> Eff W unit;
  rb_commit_mapping : ChunkId -> Z -> Z -> ExtentId -> Eff W CommitOutcome;
  rb_commit_shard_repair : ChunkId -> Z -> Z -> ExtentId -> Eff W CommitOutcome;
  rb_slot_rebound : ChunkId -> Z -> DiskId -> Eff W bool }.
Arguments rb_read_shard {W}. Arguments rb_ensure_rebuild_extent {W}. Arguments rb_write_rebuilt {W}. Arguments rb_promote {W}.
Arguments rb_commit_mapping {W}. Arguments rb_commit_shard_repair {W}. Arguments rb_slot_rebound {W}.

Section Repair.
Context `{RS : ReedSolomon} `{B3 : Blake3} {W : Type} (backend : RepairBackend W).

(** The bodies of the other shards; an error reads as absent. A layout with more
    shards than the code has is out of the vector's range. *)
Fixpoint gather_bodies (index : nat) (blob_id : BlobId) (j : nat) (shards : list (ShardId * NodeId)) (bodies : list (option (list Z)))
    : W -> W * option (list (option (list Z))) :=
  match shards with
  | [] => fun w => (w, Some bodies)
  | (shard, node) :: shards => fun w =>
      if decide (j = index) then gather_bodies index blob_id (S j) shards bodies w
      else
        let '(w, r) := rb_read_shard backend node shard blob_id w in
        if (j <? length bodies)%nat
        then gather_bodies index blob_id (S j) shards (<[j := match r with Ok b => b | Err _ => None end]> bodies) w
        else (w, None)
  end.
(** A panic aborts the task. *)
Definition panic : SubtaskError := Failed "panicked".
Fixpoint rebuild_blobs (ec : Erasure) (layout : ChunkLayout) (index : nat) (extent : ExtentId) (blobs : list BlobId) : Eff W unit :=
  match blobs with
  | [] => eff_ret tt
  | blob_id :: blobs => fun w =>
      match gather_bodies index blob_id 0 (cl_shards layout) (replicate (Z.to_nat (cl_total layout)) None) w with
      | (w, None) => (w, Err panic)
      | (w, Some bodies) =>
          (rebuilt <-- eff_lift (rebuild_shard_body ec (cl_stripe_size layout) index bodies) ;;
           _u <-- rb_write_rebuilt backend extent blob_id rebuilt ;;
           rebuild_blobs ec layout index extent blobs) w
      end
  end.
Definition rebuild_slot (layout : ChunkLayout) (index : Z) (blobs : list BlobId) : Eff W ExtentId :=
  match Erasure_new (cl_data layout) (cl_parity layout) with
  | Err _ => eff_fail (Failed "erasure")
  | Ok ec =>
      match cl_shards layout !! Z.to_nat index with
      | None => eff_fail panic
      | Some (shard, _) =>
          extent <-- rb_ensure_rebuild_extent backend shard ;;
          _u <-- rebuild_blobs ec layout (Z.to_nat index) extent blobs ;;
          _u <-- rb_promote backend extent ;;
          eff_ret extent
      end
  end.
Definition repair_subtask_execute (layout : ChunkLayout) (index expected_epoch : Z) (blobs : list BlobId) : Eff W unit :=
  extent <-- rebuild_slot layout index blobs ;;
  _o <-- rb_commit_mapping backend (cl_chunk_id layout) index expected_epoch extent ;;
  eff_ret tt.
Definition repair_subtask (layout : ChunkLayout) (index expected_epoch : Z) (broken_disk : DiskId) (blobs : list BlobId) : Subtask W := {|
  st_id := ShardId_shard_prefix (default 0 (fst <$> cl_shards layout !! Z.to_nat index));
  st_is_done := rb_slot_rebound backend (cl_chunk_id layout) index broken_disk;
  st_execute := repair_subtask_execute layout index expected_epoch blobs |}.
Definition shard_repair_run (layout : ChunkLayout) (index expected_epoch : Z) (blobs : list BlobId) : Eff W CommitOutcome :=
  extent <-- rebuild_slot layout index blobs ;;
  rb_commit_shard_repair backend (cl_chunk_id layout) index expected_epoch extent.
End Repair.

(** ** Inspection of a chunk (inspect/mod.rs) *)

Record InspectBackend (W : Type) : Type := {
  ib_probe_present : ChunkLayout -> Z -> W -> W * bool; ib_report_missing : ChunkId -> Z -> Eff W unit }.
Arguments ib_probe_present {W}. Arguments ib_report_missing {W}.
Section Inspect.
Context {W : Type} (backend : InspectBackend W).
Fixpoint inspect_loop (layout : ChunkLayout) (index : Z) (remaining : nat) : Eff W unit :=
  match remaining with
  | O => eff_ret tt
  | S remaining => fun w =>
      if U8_MAX <? index then (w, Err (Failed "shard index exceeds u8"))
      else
        let '(w, present) := ib_probe_present backend layout index w in
        (_u <-- (if present then eff_ret tt else ib_report_missing backend (cl_chunk_id layout) index) ;;
         inspect_loop layout (index + 1) remaining) w
  end.
Definition inspect_subtask (layout : ChunkLayout) : Subtask W := {|
  st_id := cl_chunk_id layout; st_is_done := eff_ret false; st_execute := inspect_loop layout 0 (length (cl_shards layout)) |}.
End Inspect.

(** ** Proofs

    What a repair leaves behind: exactly the bodies the write path made, for every
    blob it was told of; and what a job that reports success has done. *)

Lemma eff_bind_ok {W A B} (m : Eff W A) (k : A -> Eff W B) w w' b : eff_bind m k w = (w', Ok b) ->
  exists a w1, m w = (w1, Ok a) /\ k a w1 = (w', Ok b).
Proof. unfold eff_bind. destruct (m w) as [w1 [a|e]]; [eauto|done]. Qed.

(** ** Jobs *)

Section Jobs.
Context {W : Type} (sink : ProgressSink W) (P : Subtask W -> W -> Prop) (all : list (Subtask W)).
(** A fact about a subtask that holds once it is found or made done, and that nothing
    the job does destroys. *)
Record progress : Prop := {
  pg_found : forall t w w', t ∈ all -> st_is_done t w = (w', Ok true) -> P t w';
  pg_made : forall t w w', t ∈ all -> st_execute t w = (w', Ok tt) -> P t w';
  pg_probe : forall t t' w w' r, t ∈ all -> t' ∈ all -> st_is_done t' w = (w', r) -> P t w -> P t w';
  pg_execute : forall t t' w w' r, t ∈ all -> t' ∈ all -> st_execute t' w = (w', r) -> P t w -> P t w';
  pg_checkpoint : forall t w w' r n, t ∈ all -> sink_checkpoint sink n w = (w', r) -> P t w -> P t w';
  pg_renew : forall t w w' r, t ∈ all -> sink_renew_lease sink w = (w', r) -> P t w -> P t w' }.
Context (Hp : progress).
Lemma run_subtasks_all l : l ⊆ all -> forall executed completed w w' counts, run_subtasks sink l executed completed w = (w', Ok counts) ->
  (forall t, t ∈ all -> P t w -> P t w') /\ (forall t, t ∈ l -> P t w').
Proof.
  induction l as [|t l IH]; intros Hl executed completed w w' counts; cbn [run_subtasks].
  { intros [= <- _]. split; [done|]. by intros t ?%not_elem_of_nil. }
  assert (t ∈ all) as Ht by (apply Hl; by left). assert (l ⊆ all) as Hl' by (intros x Hx; apply Hl; by right).
  intros (done & w1 & Ed & H)%eff_bind_ok. destruct done.
  { destruct (IH Hl' _ _ _ _ _ H) as [Hk Hd]. split.
    - intros t' Ht' Hw. apply Hk; [done|]. exact (pg_probe Hp _ _ _ _ _ Ht' Ht Ed Hw).
    - intros t' [->|?]%elem_of_cons; [|by apply Hd]. apply Hk; [done|]. exact (pg_found Hp _ _ _ Ht Ed). }
  apply eff_bind_ok in H as ([] & w2 & Ee & H). cbn zeta in H.
  assert (forall t', t' ∈ all -> P t' w -> P t' w2) as H12.
  { intros t' Ht' Hw. eapply (pg_execute Hp); [done|exact Ht|exact Ee|]. exact (pg_probe Hp _ _ _ _ _ Ht' Ht Ed Hw). }
  assert (exists w3, (forall t', t' ∈ all -> P t' w2 -> P t' w3) /\ run_subtasks sink l (executed + 1) (completed + 1) w3 = (w', Ok counts)) as (w3 & H23 & H3).
  { destruct (_ =? 0); [|by exists w2]. apply eff_bind_ok in H as ([] & wa & Ea & H). apply eff_bind_ok in H as ([] & wb & Eb & H).
    exists wb. split; [|done]. intros t' Ht' Hw. eapply (pg_renew Hp); [done|exact Eb|]. exact (pg_checkpoint Hp _ _ _ _ _ Ht' Ea Hw). }
  destruct (IH Hl' _ _ _ _ _ H3) as [Hk Hd]. split.
  - intros t' Ht' Hw. apply Hk; [done|]. apply H23; [done|]. by apply H12.
  - intros t' [->|?]%elem_of_cons; [|by apply Hd]. apply Hk, H23; [done|done|]. exact (pg_made Hp _ _ _ Ht Ee).
Qed.
End Jobs.
Lemma run_job_all {W} (sink : ProgressSink W) (P : Subtask W -> W -> Prop) expand resume w w' n : run_job expand sink resume w = (w', Ok n) ->
  exists w1 w2 all, expand resume w1 = (w2, Ok all) /\ (progress sink P all -> forall t, t ∈ all -> P t w').
Proof.
  unfold run_job. intros ([] & w1 & E1 & H)%eff_bind_ok. apply eff_bind_ok in H as (all & w2 & E2 & H). apply eff_bind_ok in H as (counts & w3 & E3 & H).
  apply eff_bind_ok in H as ([] & w4 & E4 & H). injection H as <- _. exists w1, w2, all. split; [done|]. intros Hp t Ht.
  eapply (pg_checkpoint _ _ _ Hp); [done|exact E4|]. by eapply (run_subtasks_all sink P all Hp all).
Qed.

(** ** A slot *)

Section Slot.
Context `{RS : ReedSolomon} `{B3 : Blake3} {W : Type} (backend : RepairBackend W).
(** What an extent under repair stores, the extent a slot is rebuilt into, a world with
    room for a number of writes, and what may be written. *)
Context (stored : W -> ExtentId -> BlobId -> option (list Z)) (rebuilt_id : ShardId -> ExtentId).
Context (room : nat -> W -> Prop) (fits : BlobId -> list Z -> Prop).
Definition same_stored w w' : Prop := forall e b, stored w' e b = stored w e b.
(** What a backend promises: a blob that is already stored is not written again, and
    nothing but a write changes what is stored. *)
Record repair_laws : Prop := {
  rl_read : forall k n s b w w' r, room k w -> rb_read_shard backend n s b w = (w', r) -> room k w' /\ same_stored w w';
  rl_ensure : forall k s w w' e, room k w -> rb_ensure_rebuild_extent backend s w = (w', Ok e) -> room k w' /\ e = rebuilt_id s /\ same_stored w w';
  rl_write : forall k e b body w w', room (S k) w -> fits b body -> rb_write_rebuilt backend e b body w = (w', Ok tt) ->
    room k w' /\ stored w' e b = Some (default body (stored w e b)) /\ forall b', b' <> b -> stored w' e b' = stored w e b';
  rl_promote : forall k s w w', room k w -> rb_promote backend (rebuilt_id s) w = (w', Ok tt) -> same_stored w w';
  rl_commit : forall c i ep e w w' r, rb_commit_mapping backend c i ep e w = (w', r) -> same_stored w w' }.
Context (Hlaws : repair_laws).

Lemma gather_stored index b shards : forall j bodies k w w' r, room k w -> gather_bodies backend index b j shards bodies w = (w', r) -> room k w' /\ same_stored w w'.
Proof.
  induction shards as [|[s n] shards IH]; intros j bodies k w w' r Hk; cbn [gather_bodies]; [by intros [= <- _]|].
  destruct (decide (j = index)); [by apply IH|]. destruct (rb_read_shard backend n s b w) as [w1 r1] eqn:Er. destruct (rl_read Hlaws _ _ _ _ _ _ _ Hk Er) as [Hk1 Hs].
  destruct (_ <? _)%nat; [|by intros [= <- _]]. intros H. destruct (IH _ _ _ _ _ _ Hk1 H) as [Hk2 Hs2]. split; [done|]. intros e b'. by rewrite Hs2.
Qed.

Context (layout : ChunkLayout) (index : Z) (shard : ShardId) (node : NodeId).
Context (Hslot : cl_shards layout !! Z.to_nat index = Some (shard, node)).
Context (ec : Erasure) (Hec : Erasure_new (cl_data layout) (cl_parity layout) = Ok ec) (Hcode : code_ok ec) (Hss : 0 < cl_stripe_size layout).
(** What was written of each blob, and the slot's body of it. *)
Context (content body : BlobId -> list Z).

(** What is read of a blob was written, or reads as missing, and the first body that
    is there has the length it was written with. *)
Definition faithful_blob (b : BlobId) (got : list (option (list Z))) : Prop := exists bodies,
  encode_blob ec (cl_stripe_size layout) (content b) = Ok bodies /\ bodies !! Z.to_nat index = Some (body b)
  /\ authentic ec (cl_stripe_size layout) (content b) bodies (<[Z.to_nat index := None]> got)
  /\ forall first, head (omap id (<[Z.to_nat index := None]> got)) = Some first -> len first = len (body b).
Definition faithful_reads (blobs : list BlobId) : Prop := forall b, b ∈ blobs -> fits b (body b) /\ forall k w w' got, room k w ->
  gather_bodies backend (Z.to_nat index) b 0 (cl_shards layout) (replicate (Z.to_nat (cl_total layout)) None) w = (w', Some got) -> faithful_blob b got.

Lemma rebuilt_body b got r : faithful_blob b got -> rebuild_shard_body ec (cl_stripe_size layout) (Z.to_nat index) got = Ok r -> r = body b.
Proof.
  intros (bodies & Henc & Hbody & Ha & Hlen) Hr. destruct (head (omap id (<[Z.to_nat index := None]> got))) as [first|] eqn:Eh.
  - rewrite (rebuild_shard_exact ec (cl_stripe_size layout) (content b) bodies got (Z.to_nat index) (body b) first) in Hr by auto.
    destruct (bool_decide _); [by injection Hr|done].
  - exfalso. unfold rebuild_shard_body in Hr. destruct (negb _); [done|]. destruct (_ <=? _); [done|].
    assert (Z.to_nat index < length got)%nat as Hi.
    { apply lookup_lt_Some in Hbody. unfold authentic in Ha. apply Forall2_length in Ha. rewrite length_insert in Ha. lia. }
    rewrite head_none_survivors in Hr by done. done.
Qed.
(** Whatever was stored of the blobs before is what is rebuilt: an earlier attempt. *)
Definition earlier_attempt w (e : ExtentId) (blobs : list BlobId) : Prop := forall b x, b ∈ blobs -> stored w e b = Some x -> x = body b.
Lemma rebuild_blobs_stored all blobs : faithful_reads all -> blobs ⊆ all -> forall e k w w', room (length blobs + k) w -> earlier_attempt w e all ->
  rebuild_blobs backend ec layout (Z.to_nat index) e blobs w = (w', Ok tt) ->
  room k w' /\ (forall b x, stored w e b = Some x -> stored w' e b = Some x) /\ (forall b, b ∈ blobs -> stored w' e b = Some (body b)).
Proof.
  intros Hf. induction blobs as [|b blobs IH]; intros Hsub e k w w' Hk He; cbn [rebuild_blobs].
  { intros [= <-]. split_and!; [done|done|]. by intros b ?%not_elem_of_nil. }
  assert (b ∈ all) as Hb by (apply Hsub; by left). destruct (Hf b Hb) as [Hfit Hread].
  destruct (gather_bodies _ _ _ _ _ _ w) as [w1 [got|]] eqn:Eg; [|done]. intros (r & w2 & E2 & H)%eff_bind_ok. injection E2 as <- Er.
  apply eff_bind_ok in H as ([] & w3 & Ew & H). pose proof (rebuilt_body b got r (Hread _ _ _ _ Hk Eg) Er) as ->.
  destruct (gather_stored _ _ _ _ _ _ _ _ _ Hk Eg) as [Hk1 Hg]. destruct (rl_write Hlaws _ _ _ _ _ _ Hk1 Hfit Ew) as (Hk3 & Hw & Ho).
  assert (stored w3 e b = Some (body b)) as Hs3.
  { rewrite Hw, Hg. destruct (stored w e b) as [x|] eqn:Ex; [|done]. by rewrite (He b x Hb Ex). }
  assert (earlier_attempt w3 e all) as He3.
  { intros b' x Hb' Hx. destruct (decide (b' = b)) as [->|Hne]; [congruence|]. rewrite Ho, Hg in Hx by done. by apply (He b'). }
  destruct (IH ltac:(intros x Hx; apply Hsub; by right) e k w3 w' Hk3 He3 H) as (Hk' & Hkeep & Hd). split_and!; [done| |].
  - intros b' x Hx. apply Hkeep. destruct (decide (b' = b)) as [->|Hne]; [rewrite Hs3; f_equal; symmetry; by apply He|]. by rewrite Ho, Hg.
  - intros b' [->|?]%elem_of_cons; [by apply Hkeep|by apply Hd].
Qed.

(** Repairing a shard slot over any backend that keeps its promise. *)
Lemma slot_repaired blobs epoch w w' : room (length blobs) w -> faithful_reads blobs -> earlier_attempt w (rebuilt_id shard) blobs ->
  repair_subtask_execute backend layout index epoch blobs w = (w', Ok tt) ->
  (forall b, b ∈ blobs -> stored w' (rebuilt_id shard) b = Some (body b))
  /\ exists w1 outcome, rb_commit_mapping backend (cl_chunk_id layout) index epoch (rebuilt_id shard) w1 = (w', Ok outcome)
       /\ forall b, b ∈ blobs -> stored w1 (rebuilt_id shard) b = Some (body b).
Proof.
  intros Hk Hf He. unfold repair_subtask_execute, rebuild_slot. rewrite Hec, Hslot. intros (e & w1 & E1 & H)%eff_bind_ok.
  apply eff_bind_ok in H as (o & w2 & E2 & H). injection H as <-. apply eff_bind_ok in E1 as (e' & wa & Ea & E1).
  destruct (rl_ensure Hlaws _ _ _ _ _ Hk Ea) as (Hka & -> & Hsa). apply eff_bind_ok in E1 as ([] & wb & Eb & E1). apply eff_bind_ok in E1 as ([] & wc & Ec & E1).
  injection E1 as <- <-. rewrite <- (Nat.add_0_r (length blobs)) in Hka.
  destruct (rebuild_blobs_stored blobs blobs Hf ltac:(done) (rebuilt_id shard) 0 wa wb Hka) as (Hkb & _ & Hd); [|done|].
  { intros b x Hb. rewrite Hsa. by apply He. }
  assert (forall b, b ∈ blobs -> stored wc (rebuilt_id shard) b = Some (body b)) as Hc by (intros b Hb; rewrite (rl_promote Hlaws _ _ _ _ Hkb Ec); by apply Hd).
  split; [|by exists wc, o]. intros b Hb. rewrite (rl_commit Hlaws _ _ _ _ _ _ _ E2). by apply Hc.
Qed.
End Slot.
