(* ===== verification/EngineRepair.v ===== *)
(** What the storage engine promises a repair: creating the extent of a slot, writing
    into it and promoting it keep every committed blob of every open extent, and an
    accepted write is readable. *)

From S2P Require Import Prelude Ids Crc Record ExtentFile Rocks MetaMerge StoreIndex IndexRefine StoreOps StoreProps.

Section EngineRepair.
Context `{!Crc32c} {RDB : RocksDb merge_meta}.
Implicit Types (g : Engine) (a : AbsIndex).

(** The open extents match the index, with [room] bytes left below the cursor's
    range; blobs belong to extents with metadata, and those have a file. *)
Record engine_inv (room : Z) g a : Prop := {
  ei_rep : rep (eg_index g) a;
  ei_blob : forall e b i, ai_blob a !! (e, b) = Some i -> is_Some (ai_meta a !! e);
  ei_file : forall e, is_Some (ai_meta a !! e) -> is_Some (dk_extents (eg_disk g) !! e);
  ei_open : forall e x, eg_open g !! e = Some x -> xf_extent_id x = e /\ (exists es, extent_ok a x es) /\ 0 <= xf_write_offset x /\ xf_write_offset x + room < 2 ^ 64 }.
(** What a read of the blob from the open extent gives. *)
Definition held g (e : ExtentId) (b : BlobId) : option (list Z) :=
  if (0 <=? b) && (b <? 2 ^ 64)
  then x ← eg_open g !! e; match read_blob (eg_index g) x b with Ok o => o | Err _ => None end
  else None.
Lemma held_u64 b : (0 <=? b) && (b <? 2 ^ 64) = true <-> is_u64 b.
Proof. unfold is_u64. rewrite andb_true_iff, Z.leb_le, Z.ltb_lt. reflexivity. Qed.

(** An extent whose entries in the index do not change is as it was. *)
Lemma extent_ok_same a a' x es : extent_ok a x es -> ai_meta a' !! xf_extent_id x = ai_meta a !! xf_extent_id x ->
  (forall b, ai_blob a' !! (xf_extent_id x, b) = ai_blob a !! (xf_extent_id x, b)) -> extent_ok a' x es.
Proof. intros (Hid & Hr & Hes & Hm & Hb) Em Eb. split_and!; try done; [by rewrite Em|]. intros b i. rewrite Eb. apply Hb. Qed.
Lemma read_same index a index' a' x es b : rep index a -> rep index' a' -> extent_ok a x es -> extent_ok a' x es -> is_u64 b ->
  ai_blob a' !! (xf_extent_id x, b) = ai_blob a !! (xf_extent_id x, b) -> read_blob index' x b = read_blob index x b.
Proof. intros. by eapply read_blob_agree. Qed.
(** The open extents other than [e] when only the entries of [e] change. *)
Definition touches (e : ExtentId) a a' : Prop := forall e', e' <> e ->
  ai_meta a' !! e' = ai_meta a !! e' /\ forall b, ai_blob a' !! (e', b) = ai_blob a !! (e', b).
Lemma held_other room g a g' a' e e' b : engine_inv room g a -> rep (eg_index g') a' -> touches e a a' -> e' <> e ->
  eg_open g' !! e' = eg_open g !! e' -> held g' e' b = held g e' b.
Proof.
  intros Hi Hr' Ht Hne Ho. unfold held. destruct (_ && _) eqn:Eb; [|done]. apply held_u64 in Eb. rewrite Ho.
  destruct (eg_open g !! e') as [x|] eqn:Ex; [|done]. cbn [mbind option_bind]. destruct (ei_open _ _ _ Hi _ _ Ex) as (Hid & (es & Hx) & _).
  destruct (Ht e' Hne) as [Hm Hb]. rewrite (read_same (eg_index g) a (eg_index g') a' x es b); try done.
  - apply Hi.
  - apply (extent_ok_same a); rewrite ?Hid; done.
  - by rewrite Hid.
Qed.
Lemma inv_other room g a e a' : engine_inv room g a -> touches e a a' -> forall e' x', e' <> e -> eg_open g !! e' = Some x' ->
  xf_extent_id x' = e' /\ (exists es, extent_ok a' x' es) /\ 0 <= xf_write_offset x' /\ xf_write_offset x' + room < 2 ^ 64.
Proof.
  intros Hi Ht e' x' Hne Ex. destruct (ei_open _ _ _ Hi _ _ Ex) as (Hid & (es & Hx) & Ho). destruct (Ht e' Hne) as [Hm Hb].
  split; [done|]. split; [|done]. exists es. apply (extent_ok_same a); rewrite ?Hid; done.
Qed.
Lemma inv_room room room' g a : engine_inv room g a -> room' <= room -> engine_inv room' g a.
Proof. intros [? ? ? Ho] Hle. split; try done. intros e x Ex. destruct (Ho e x Ex) as (? & ? & ? & ?). split_and!; try done. lia. Qed.

(** *** Promotion *)

Lemma promote_held room g a e g' : eid e -> engine_inv room g a -> promote_rebuilt_blocking e g = (g', Ok tt) ->
  exists a', engine_inv room g' a' /\ forall e' b, held g' e' b = held g e' b.
Proof.
  intros He Hi. unfold promote_rebuilt_blocking, require_meta. unfold bind, gets, modify, lift, ret, fail.
  rewrite (get_extent_meta_rep (eg_index g) a) by (done || apply Hi). cbn [map_err].
  destruct (ai_meta a !! e) as [m|] eqn:Em; cbn [ok_or]; [|done]. destruct (em_status m) eqn:Es; try done.
  2:{ intros [= <-]. by exists a. }
  pose proof (set_extent_status_rep (eg_index g) a e ES_Writable (ei_rep _ _ _ Hi) He) as Hst. rewrite Em in Hst.
  destruct Hst as (index' & -> & Hr'). cbn [map_err]. intros [= <-]. set (a' := abs_merge e (SetStatus ES_Writable) a) in *.
  assert (forall e' x es, eg_open g !! e' = Some x -> xf_extent_id x = e' -> extent_ok a x es -> extent_ok a' x es) as Hok.
  { intros e' x es Ex Hid (H1 & H2 & H3 & (mx & Hmx & Hsz) & H5). split_and!; try done. cbn [a' abs_merge ai_meta].
    destruct (decide (xf_extent_id x = e)) as [E|E]; [rewrite E in *; rewrite lookup_alter_eq, Hmx; by eexists|]. rewrite lookup_alter_ne by done. by exists mx. }
  exists a'. split.
  - split; cbn [set_index eg_index eg_disk eg_open]; [done| | |].
    + intros e' b i Hb. cbn [a' abs_merge ai_meta]. rewrite lookup_alter_is_Some. by eapply (ei_blob _ _ _ Hi).
    + intros e' Hm. apply (ei_file _ _ _ Hi). cbn [a' abs_merge ai_meta] in Hm. by rewrite lookup_alter_is_Some in Hm.
    + intros e' x Ex. destruct (ei_open _ _ _ Hi _ _ Ex) as (Hid & (es & Hx) & Ho). split_and!; try done; try apply Ho. exists es. by eapply Hok.
  - intros e' b. unfold held. destruct (_ && _) eqn:Eb; [|done]. apply held_u64 in Eb. cbn [set_index eg_open eg_index].
    destruct (eg_open g !! e') as [x|] eqn:Ex; [|done]. cbn [mbind option_bind]. destruct (ei_open _ _ _ Hi _ _ Ex) as (Hid & (es & Hx) & _).
    rewrite (read_same (eg_index g) a index' a' x es b); try done; [apply Hi|by eapply Hok].
Qed.

(** *** Creation *)

Lemma fresh_touches s ts st a : touches (ExtentId_new s ts) a (fresh_abs s ts st a).
Proof. intros e' Hne. cbn [fresh_abs abs_bind abs_put_meta ai_meta ai_blob]. by rewrite lookup_insert_ne. Qed.
(** The tail of a creation: the extent is new to the index, and the other files stay. *)
Lemma install_held room g a s ts st x d open : is_u64 s -> is_i64 ts -> EXTENT_HEADER_LEN + room < 2 ^ 64 -> engine_inv room g a ->
  ExtentFile_create None (ExtentId_new s ts) = Ok x -> ai_meta a !! ExtentId_new s ts = None ->
  (forall e', e' <> ExtentId_new s ts -> dk_extents d !! e' = dk_extents (eg_disk g) !! e') -> open = <[ExtentId_new s ts := x]> (eg_open g) ->
  let g' := {| eg_disk := save x d; eg_index := install_extent (eg_index g) (ExtentId_new s ts) (fresh_meta s ts st) []; eg_open := open |} in
  exists a', engine_inv room g' a' /\ forall e' b, held g' e' b = held g e' b.
Proof.
  intros Hs Hts Hroom Hi Hx Hm Hd -> g'. set (e := ExtentId_new s ts) in *. set (a' := fresh_abs s ts st a).
  assert (forall b, ai_blob a !! (e, b) = None) as Hb.
  { intros b. destruct (ai_blob a !! (e, b)) as [i|] eqn:Ei; [|done]. destruct (ei_blob _ _ _ Hi _ _ _ Ei) as [m Em]. congruence. }
  destruct (fresh_extent (eg_index g) a s ts st (ei_rep _ _ _ Hi) Hs Hts Hb) as (x' & Hx' & Hr' & Hok & Hid & Hoff).
  fold e a' in Hx', Hr', Hok, Hid. rewrite Hx in Hx'. injection Hx' as <-. pose proof (fresh_touches s ts st a) as Ht. fold e a' in Ht.
  exists a'. split.
  - split; cbn [g' eg_index eg_disk eg_open save dk_extents]; [done| | |].
    + intros e' b i Hbi. destruct (decide (e' = e)) as [->|Hne]; [by eexists; apply lookup_insert_eq|].
      destruct (Ht e' Hne) as [-> Hb']. rewrite Hb' in Hbi. by eapply (ei_blob _ _ _ Hi).
    + intros e' Hm'. rewrite Hid. destruct (decide (e' = e)) as [->|Hne]; [rewrite lookup_insert_eq; by eexists|].
      rewrite lookup_insert_ne, Hd by done. apply (ei_file _ _ _ Hi). by destruct (Ht e' Hne) as [<- _].
    + intros e' x' Ex. destruct (decide (e' = e)) as [->|Hne].
      * rewrite lookup_insert_eq in Ex. injection Ex as <-. rewrite Hoff. split_and!; [done|by exists []|done|done].
      * rewrite lookup_insert_ne in Ex by done. by eapply inv_other.
  - intros e' b. destruct (decide (e' = e)) as [->|Hne]; [|by eapply held_other; [done..|cbn [g' eg_open]; by rewrite lookup_insert_ne]].
    unfold held. destruct (_ && _) eqn:Eb; [|done]. apply held_u64 in Eb. cbn [g' eg_open eg_index]. rewrite lookup_insert_eq. cbn [mbind option_bind].
    rewrite (read_blob_absent _ a' x); [|done|by apply Hok|done|rewrite Hid; apply Hb].
    destruct (eg_open g !! e) as [x0|] eqn:E0; [|done]. destruct (ei_open _ _ _ Hi _ _ E0) as (Hid0 & (es & _ & _ & _ & (m0 & Hm0 & _) & _) & _). congruence.
Qed.
Lemma create_cursor e x : ExtentFile_create None e = Ok x -> xf_write_offset x = EXTENT_HEADER_LEN.
Proof. intros [= <-]. done. Qed.
Lemma create_held room g a s ts st g' e : is_u64 s -> is_i64 ts -> EXTENT_HEADER_LEN + room < 2 ^ 64 -> engine_inv room g a ->
  create_extent_with_status s ts st g = (g', Ok e) ->
  e = ExtentId_new s ts /\ exists a', engine_inv room g' a' /\ forall e' b, held g' e' b = held g e' b.
Proof.
  intros Hs Hts Hroom Hi. pose proof (ExtentId_new_eid s ts Hs Hts) as Hid. unfold create_extent_with_status. unfold bind, gets, modify, lift, ret, fail.
  destruct (dk_extents (eg_disk g) !! ExtentId_new s ts) as [f|] eqn:Ef.
  - cbn [ExtentFile_create]. rewrite (get_extent_meta_rep (eg_index g) a) by (done || apply Hi). cbn [map_err].
    destruct (ai_meta a !! ExtentId_new s ts) as [m|] eqn:Em; [intros [= <- <-]; split; [done|by exists a]|].
    unfold move_extent_to_trash. rewrite Ef. cbn [map_err set_disk eg_disk dk_extents]. rewrite lookup_delete_eq.
    destruct (ExtentFile_create None (ExtentId_new s ts)) as [x|] eqn:Ex; cbn [map_err]; [|done]. destruct (preallocate _ _); cbn [map_err]; [|done].
    cbn [set_disk set_index set_open eg_disk eg_index eg_open]. rewrite (create_cursor _ _ Ex). intros [= <- <-]. split; [done|].
    refine (install_held room g a s ts st x _ _ Hs Hts Hroom Hi Ex Em _ eq_refl). cbn [dk_extents]. intros e' Hne. by rewrite lookup_delete_ne.
  - destruct (ExtentFile_create None (ExtentId_new s ts)) as [x|] eqn:Ex; cbn [map_err]; [|done]. destruct (preallocate _ _); cbn [map_err]; [|done].
    cbn [set_disk set_index set_open eg_disk eg_index eg_open]. rewrite (create_cursor _ _ Ex). intros [= <- <-]. split; [done|].
    refine (install_held room g a s ts st x _ _ Hs Hts Hroom Hi Ex _ _ eq_refl); [|done].
    destruct (ai_meta a !! ExtentId_new s ts) as [m|] eqn:Em; [|done]. destruct (ei_file _ _ _ Hi (ExtentId_new s ts)) as [f Hf]; [by eexists|congruence].
Qed.

(** *** Writing *)

(** A group of one request that is accepted: the blob was there, or is written. *)
Lemma batch_one sync index a x es b body index' x' replies o : rep index a -> extent_ok a x es -> is_u64 b ->
  0 <= xf_write_offset x -> xf_write_offset x + record_on_disk_len (len body) < 2 ^ 64 ->
  process_batch sync x index [(b, body)] = (index', x', replies) -> head replies = Some (Ok o) ->
  (index' = index /\ x' = x /\ is_Some (ai_blob a !! (xf_extent_id x, b)))
  \/ (ai_blob a !! (xf_extent_id x, b) = None /\ exists m, ai_meta a !! xf_extent_id x = Some m /\ writable_gate (em_status m) = Ok tt /\ len body <= U32_MAX
      /\ write_blob index x b body = Ok (index', x', Written)).
Proof.
  intros Hr Hx Hb H0 Hu. pose proof Hx as (Hid & _ & _ & (m & Hm & _) & _). unfold process_batch, load_writable_meta, require_meta.
  rewrite (write_blob_unfold index a x b body m), (get_extent_meta_rep index a) by done. rewrite Hm. cbn [map_err ok_or].
  destruct (writable_gate (em_status m)) as [[]|err] eqn:Hg; [|by intros [= <- <- <-]]. cbn [batch_loop]. rewrite (get_blob_rep index a) by done.
  destruct (ai_blob a !! (xf_extent_id x, b)) as [i|] eqn:Ei; [cbn; intros [= <- <- <-]; left; by eauto|]. rewrite decide_False by set_solver.
  destruct (U32_MAX <? len body) eqn:El; [by intros [= <- <- <-]|]. apply Z.ltb_ge in El.
  destruct (append_record x b _ body) as [[x1 [off crc]]|err]; [|by intros [= <- <- <-]]. cbn [app map_err fmap list_fmap].
  destruct sync as [k|]; cbn [commit_group default]; intros [= <- <- <-]; [done|]. intros _. right. split; [done|]. exists m. done.
Qed.
Lemma append_touches x (en : entry) a : touches (xf_extent_id x) a (abs_append x en a).
Proof.
  intros e' Hne. cbn [abs_append abs_merge abs_put_blob ai_meta ai_blob]. rewrite lookup_alter_ne by done. split; [done|].
  intros b. by rewrite lookup_insert_ne by congruence.
Qed.
(** The engine after a write to an open extent. *)
Definition written g e index x : Engine := set_open (<[e := x]> (eg_open g)) (set_index index (set_disk (save x (eg_disk g)) g)).
(** It differs from the engine before only in that extent. *)
Lemma written_inv room g a e x index' a' x' es' : engine_inv room g a -> eg_open g !! e = Some x -> rep index' a' -> touches e a a' ->
  is_Some (ai_meta a' !! e) -> extent_ok a' x' es' -> xf_extent_id x' = e -> 0 <= xf_write_offset x' -> xf_write_offset x' + room < 2 ^ 64 ->
  engine_inv room (written g e index' x') a'.
Proof.
  intros Hi Ex Hr' Ht Hm Hx' Hid H0 Hfit. split; cbn [written set_open set_index set_disk eg_index eg_disk eg_open save dk_extents]; [done| | |].
  - intros e' b i Hbi. destruct (decide (e' = e)) as [->|Hne]; [done|]. destruct (Ht e' Hne) as [-> Hb']. rewrite Hb' in Hbi. by eapply (ei_blob _ _ _ Hi).
  - intros e' Hm'. rewrite Hid. destruct (decide (e' = e)) as [->|Hne]; [rewrite lookup_insert_eq; by eexists|].
    rewrite lookup_insert_ne by done. apply (ei_file _ _ _ Hi). by destruct (Ht e' Hne) as [<- _].
  - intros e' x2 E2. destruct (decide (e' = e)) as [->|Hne]; [rewrite lookup_insert_eq in E2; injection E2 as <-; by split_and!; [|eexists|..]|].
    rewrite lookup_insert_ne in E2 by done. by eapply inv_other.
Qed.
Lemma held_open g e x b : eg_open g !! e = Some x -> is_u64 b -> held g e b = match read_blob (eg_index g) x b with Ok r => r | Err _ => None end.
Proof. intros Ex Hb%held_u64. unfold held. by rewrite Hb, Ex. Qed.
Lemma held_bad g e b : (0 <=? b) && (b <? 2 ^ 64) = false -> held g e b = None.
Proof. unfold held. by intros ->. Qed.
Lemma written_open g e index' x' : eg_open (written g e index' x') !! e = Some x'.
Proof. apply lookup_insert_eq. Qed.
Lemma write_held room g a e x sync b body index' x' replies o : engine_inv (record_on_disk_len (len body) + room) g a -> is_u64 b -> eg_open g !! e = Some x -> 0 <= room ->
  process_batch sync x (eg_index g) [(b, body)] = (index', x', replies) -> head replies = Some (Ok o) ->
  let g' := written g e index' x' in
  exists a', engine_inv room g' a' /\ held g' e b = Some (default body (held g e b)) /\ forall b', b' <> b -> held g' e b' = held g e b'.
Proof.
  intros Hi Hb Ex Hroom Hp Hreply g'. destruct (ei_open _ _ _ Hi _ _ Ex) as (Hid & (es & Hx) & H0 & Hfit). pose proof (ei_rep _ _ _ Hi) as Hr.
  assert (0 <= record_on_disk_len (len body)) as Hrl
    by (pose proof (record_on_disk_len_spec (len body) (len_nonneg body)); pose proof (len_nonneg body); unfold RECORD_HEADER_LEN, RECORD_FOOTER_LEN in *; lia).
  pose proof (inv_room _ room _ _ Hi ltac:(lia)) as Hi0. rewrite (held_open g e x b Ex Hb). pose proof (written_open g e index' x') as Ex'. fold g' in Ex'.
  destruct (batch_one sync (eg_index g) a x es b body index' x' replies o Hr Hx Hb H0 ltac:(lia) Hp Hreply) as [(-> & -> & [i Hbi])|(Hnone & m & Hm & Hg & Hl & Hw)].
  - exists a. split; [|split].
    + apply (written_inv room g a e x _ a x es); try done; [destruct Hx as (_ & _ & _ & (m & Hm & _) & _); rewrite <- Hid; by eexists|lia].
    + rewrite (held_open g' e x b Ex' Hb). destruct Hx as (H1 & H2 & H3 & H4 & H5). destruct (H5 b i Hbi) as [en Hen].
      change (eg_index g') with (eg_index g). by rewrite (read_blob_indexed (eg_index g) a x es b i en Hr (conj H1 (conj H2 (conj H3 (conj H4 H5)))) Hb Hbi Hen).
    + intros b' _. unfold held. by rewrite Ex', Ex.
  - destruct (write_blob_new (eg_index g) a x es b body m Hr Hx Hb Hm Hg Hnone Hl ltac:(unfold is_u64, uint; lia)) as (i1 & x1 & Hw1 & Hr1 & Hx1 & Hid1 & Ho1).
    rewrite Hw in Hw1. injection Hw1 as <- <-. set (en := {| en_blob := b; en_shard := ExtentId_shard_id (xf_extent_id x); en_body := body |}) in *.
    pose proof (append_touches x en a) as Ht. rewrite Hid in Ht.
    assert (ai_blob (abs_append x en a) !! (xf_extent_id x, b) = Some (BlobIndex_new (xf_write_offset x) (len body) (body_crc body))) as Hnew
      by (cbn [abs_append abs_merge abs_put_blob ai_blob]; apply lookup_insert_eq).
    exists (abs_append x en a). split; [|split].
    + apply (written_inv room g a e x _ _ x' (es ++ [en])); try done; [|congruence|lia|lia].
      cbn [abs_append abs_merge abs_put_blob ai_meta]. rewrite <- Hid, lookup_alter_is_Some, Hm. by eexists.
    + rewrite (held_open g' e x' b Ex' Hb), (read_blob_absent (eg_index g) a x b) by (done || apply Hx). cbn [default g' written set_open set_index eg_index].
      rewrite (read_blob_indexed index' (abs_append x en a) x' (es ++ [en]) b (BlobIndex_new (xf_write_offset x) (len body) (body_crc body)) en); try done;
        [by rewrite Hid1|apply (indexed_entry_last x es en); apply Hx].
    + intros b' Hne. destruct ((0 <=? b') && (b' <? 2 ^ 64)) eqn:Eb'; [apply held_u64 in Eb'|by rewrite !held_bad].
      rewrite (held_open g' e x' b'), (held_open g e x b') by done. cbn [g' written set_open set_index eg_index].
      rewrite (read_blob_agree (eg_index g) a x es index' (abs_append x en a) x' (es ++ [en]) b'); try done; [|intros i e'; apply indexed_entry_snoc].
      cbn [abs_append abs_merge abs_put_blob ai_blob]. apply lookup_insert_ne. cbn [en en_blob]. congruence.
Qed.
End EngineRepair.
