(* ===== verification/Maintenance.v ===== *)
(** The maintenance of a disk (epoch-node roles/maintenance.rs; the compaction, scrub
    and reclaim calls of epoch-store service.rs and io_pool.rs): one sweep reclaims
    what is dropped or unbound, compacts within a budget, and scrubs a rotating slice
    of the extents. A sweep is one task; other tasks of the node are not interleaved
    with it. *)

From S2P Require Import Prelude Ids Crc Record ExtentFile Rocks MetaMerge StoreIndex StoreOps.

Section Maintenance.
Context `{!Crc32c} {RDB : RocksDb merge_meta}.
Notation "x <~ m ;; k" := (bind m (fun x => k))
  (at level 100, m at next level, k at level 200, right associativity).

(** ** The engine's calls (service.rs, io_pool.rs) *)

Definition stop_writer (extent_id : ExtentId) : M unit := modify (fun g => set_open (delete extent_id (eg_open g)) g).
(** A task given its own set of open extents; the writers stay as they are. *)
Definition with_extents {A : Type} (extents : gmap ExtentId ExtentFile) (m : M A) : M (A * gmap ExtentId ExtentFile) := fun g =>
  let '(g', r) := m (set_open extents g) in
  (set_open (eg_open g) g', match r with Ok a => Ok (a, eg_open g') | Err e => Err e end).
Definition spawn_writer (extent_id : ExtentId) (extent : ExtentFile) : M unit := modify (fun g => set_open (<[extent_id := extent]> (eg_open g)) g).
Definition compact_blocking (extent_id : ExtentId) (now : Z) : M CompactOutcome :=
  _u <~ stop_writer extent_id ;;
  disk <~ gets eg_disk ;;
  extent <~ lift (open_read extent_id (dk_extents disk !! extent_id)) ;;
  r <~ with_extents {[extent_id := extent]} (compact_extent extent_id now) ;;
  let '(outcome, extents) := r in
  _u <~ match extents !! co_new_extent outcome with
        | Some dest => spawn_writer (co_new_extent outcome) dest
        | None => ret tt
        end ;;
  ret outcome.
Definition scrub_blocking (g : Engine) (extent_id : ExtentId) : result StoreError ScrubReport :=
  extent <-? open_read extent_id (dk_extents (eg_disk g) !! extent_id) ;;
  scrub_extent (eg_index g) extent.
Definition reclaim_dropped_blocking : M (list ExtentId) := r <~ with_extents ∅ reclaim_dropped ;; ret r.1.
Definition reclaim_orphans_blocking : M (list ExtentId) := r <~ with_extents ∅ reclaim_orphans ;; ret r.1.
Definition list_extent_ids (index : rdb) : result EpochError (list ExtentId) :=
  extents <-? map_err (fun _ => EE_Internal) (list_extents index) ;; Ok extents.*1.

(** ** The sweep (roles/maintenance.rs) *)

Record MaintenanceSpec : Set := { compact_ratio_percent : Z; compact_per_sweep : nat; scrub_per_sweep : nat }.
(** The extents to scrub, from a cursor on and around the end, and the next cursor.
    Two rounds of the list are enough: the start is within it and at most all of it
    is taken. *)
Definition scrub_targets (extents : list ExtentId) (cursor budget : nat) : list ExtentId * nat :=
  let n := length extents in
  if (n =? 0)%nat || (budget =? 0)%nat then ([], 0%nat)
  else
    let start := (cursor mod n)%nat in
    let t := Nat.min budget n in
    (take t (drop start (extents ++ extents)), ((start + t) mod n)%nat).
Definition id_le (x y : ExtentId) : Prop := lex_leb x y = true.
#[export] Instance id_le_dec : RelDecision id_le.
Proof. intros x y. unfold id_le. apply _. Defined.
Definition sort_ids (ids : list ExtentId) : list ExtentId := merge_sort id_le ids.

(** Compactions one after the other, each with the time it reads; a failure is logged. *)
Fixpoint compact_all (clock : nat -> Z) (n : nat) (ids : list ExtentId) (g : Engine) : Engine :=
  match ids with
  | [] => g
  | id :: ids => compact_all clock (S n) ids (compact_blocking id (clock n) g).1
  end.
(** The slots reported to the placement driver: those of the extents with a corrupt blob. *)
Fixpoint scrub_all (g : Engine) (targets : list ExtentId) : list (ChunkId * Z) :=
  match targets with
  | [] => []
  | extent :: targets =>
      match scrub_blocking g extent with
      | Ok report =>
          if decide (sc_corrupt report = []) then scrub_all g targets
          else let shard := ExtentId_shard_id extent in (ShardId_chunk_id shard, ShardId_index shard) :: scrub_all g targets
      | Err _ => scrub_all g targets
      end
  end.
(** The engine and the cursor after a sweep, and what was reported; [pd]: whether there
    is a placement driver to report to. *)
Definition run_sweep (spec : MaintenanceSpec) (pd : bool) (clock : nat -> Z) (scrub_cursor : nat) (g : Engine) : Engine * nat * list (ChunkId * Z) :=
  let g := (reclaim_dropped_blocking g).1 in
  let g := (reclaim_orphans_blocking g).1 in
  let g := match list_compaction_candidates (eg_index g) (compact_ratio_percent spec) with
           | Ok candidates => compact_all clock 0 (take (compact_per_sweep spec) candidates) g
           | Err _ => g
           end in
  match list_extent_ids (eg_index g) with
  | Err _ => (g, scrub_cursor, [])
  | Ok ids =>
      let '(targets, next_cursor) := scrub_targets (sort_ids ids) scrub_cursor (scrub_per_sweep spec) in
      (g, next_cursor, if pd then scrub_all g targets else [])
  end.
End Maintenance.

(** ** Proofs

    What a maintenance sweep keeps: every live blob of every shard reads as before, and
    the scrub goes round all extents. *)

From S2P Require Import IndexRefine StoreProps Compaction EngineRepair.

Section MaintenanceProps.
Context `{!Crc32c} {RDB : RocksDb merge_meta}.
Implicit Types (g : Engine) (a : AbsIndex).

(** ** The listing of extents *)

Lemma extent_item d a k v : rep d a -> rdb_get d k = Some v -> head k = Some 101 ->
  exists e m, eid e /\ k = key_bytes (KExtent e) /\ ai_meta a !! e = Some m /\ v = ExtentMeta_encode m /\ ExtentMeta_wf m.
Proof.
  intros Hr Hg Hh. destruct (cr_keys _ _ Hr k) as ([e|p|e b] & Hk & ->).
  { rewrite rdb_get_cells in Hg. destruct (rdb_cells d !! k); [by eexists|done]. }
  - destruct (rep_get_meta d a e Hr Hk) as [Hm Hw]. rewrite extent_key_bytes in Hm by done. rewrite Hm in Hg.
    destruct (ai_meta a !! e) as [m|] eqn:Em; [|done]. injection Hg as <-. exists e, m. split_and!; try done. by apply Hw.
  - done.
  - done.
Qed.
Lemma head_prefix k : starts_with k [101] = bool_decide (head k = Some 101).
Proof. unfold starts_with. destruct k as [|x k]; [done|]. apply bool_decide_ext. simpl. rewrite take_0. split; congruence. Qed.
Lemma extents_loop d a items : rep d a ->
  Forall (fun kv => rdb_get d kv.1 = Some kv.2 /\ lex_leb [101] kv.1 = true) items -> StronglySorted key_lt items.*1 -> forall out,
  exists l, list_extents_loop items out = Ok (out ++ l) /\ NoDup l.*1
    /\ forall e m, (e, m) ∈ l <-> eid e /\ ai_meta a !! e = Some m /\ key_bytes (KExtent e) ∈ items.*1.
Proof.
  intros Hr. induction items as [|[k v] items IH]; intros Hit Hs out.
  { exists []. rewrite app_nil_r. split_and!; [done|constructor|]. intros e m. split; [by intros ?%not_elem_of_nil|]. by intros (_ & _ & ?%not_elem_of_nil). }
  apply Forall_cons in Hit as [[Hg Hp] Hit]. apply StronglySorted_inv in Hs as [Hs Hlt]. cbn [list_extents_loop fst snd] in *.
  destruct (bool_decide (head k = Some 101)) eqn:Eh.
  2:{ exists []. cbn [negb]. rewrite app_nil_r. split_and!; [done|constructor|]. intros e m. split; [by intros ?%not_elem_of_nil|]. intros (_ & _ & Hin).
      rewrite <- head_prefix in Eh. apply list_elem_of_fmap in Hin as ([k' v'] & Hk' & Hin). cbn [fst] in Hk'. subst k'.
      apply elem_of_cons in Hin as [[= E _]|Hin]; [by rewrite <- E, head_prefix in Eh|].
      pose proof (past_prefix [101] k items) as Hpp. specialize (Hpp ltac:(eapply Forall_impl; [exact Hit|by intros [] []]) Hp Hlt Eh _ _ Hin).
      by rewrite head_prefix in Hpp. }
  apply bool_decide_eq_true in Eh. destruct (extent_item d a k v Hr Hg Eh) as (e & m & He & -> & Hm & -> & Hw). cbn [negb key_bytes].
  assert (len (101 :: e) = 17) as Hl by (rewrite len_cons, (eid_len e He); done). unfold EXTENT_KEY_LEN. rewrite Hl. cbn [Z.ltb Z.compare Pos.compare Pos.compare_cont].
  change (101 :: e) with ([101] ++ e) at 1. rewrite slice_app_r by done. change (1 - len [101]) with 0. rewrite slice_full by by rewrite (eid_len e He).
  rewrite ExtentMeta_decode_encode by done. destruct (IH Hit Hs (out ++ [(e, m)])) as (l & Hl' & Hnd & Hel).
  exists ((e, m) :: l). rewrite Hl', <- app_assoc. split_and!; [done| |].
  - cbn [fmap list_fmap fst]. constructor; [|done]. intros Hin. apply list_elem_of_fmap in Hin as ([e' m'] & -> & Hin). apply Hel in Hin as (_ & _ & Hin). cbn [fst] in Hin.
    pose proof (proj1 (Forall_forall _ _) Hlt _ Hin) as Hbad. unfold key_lt in Hbad. cbn [fst key_bytes] in Hbad. by rewrite lex_ltb_irrefl in Hbad.
  - intros e' m'. cbn [fmap list_fmap fst]. rewrite !elem_of_cons, Hel. split.
    + intros [[= -> ->]|(? & ? & ?)]; [by eauto|by eauto].
    + intros (He' & Hm' & [E|Hin]); [|by eauto]. injection E as ->. left. congruence.
Qed.
Lemma list_extents_rep d a : rep d a -> exists l, list_extents d = Ok l /\ NoDup l.*1 /\ forall e m, (e, m) ∈ l <-> eid e /\ ai_meta a !! e = Some m.
Proof.
  intros Hr. unfold list_extents. destruct (extents_loop d a (rdb_iter d [101]) Hr) with (out := @nil (ExtentId * ExtentMeta)) as (l & Hl & Hnd & Hel).
  - rewrite Forall_forall. intros [k v] Hin. by apply rdb_iter_elem in Hin.
  - apply rdb_iter_sorted.
  - exists l. split_and!; [done..|]. intros e m. rewrite Hel. split; [tauto|]. intros [He Hm]. split_and!; [done..|].
    destruct (rep_get_meta d a e Hr He) as [Hg _]. rewrite Hm, extent_key_bytes in Hg by done. apply list_elem_of_fmap.
    exists (key_bytes (KExtent e), ExtentMeta_encode m). split; [done|]. apply rdb_iter_elem. split; [done|]. apply (lex_leb_app [101] e).
Qed.

(** ** The invariant of a disk *)

(** The index and the disk: extents belong to the shard of their id, blobs to extents;
    a bound extent is not dropped and its file holds what the index says; nothing was
    created after [t]. *)
Record disk_inv (t : Z) g a : Prop := {
  di_rep : rep (eg_index g) a;
  di_meta : forall e m, ai_meta a !! e = Some m -> eid e /\ em_shard_id m = ExtentId_shard_id e;
  di_bind : forall p e, ai_bind a !! p = Some e -> p = ShardId_shard_prefix (ExtentId_shard_id e)
    /\ exists x es m, xf_extent_id x = e /\ extent_ok a x es /\ dk_extents (eg_disk g) !! e = Some (xf_file x)
         /\ ai_meta a !! e = Some m /\ em_status m <> ES_Dropped;
  di_blob : forall e b i, ai_blob a !! (e, b) = Some i -> is_Some (ai_meta a !! e);
  di_time : forall e, is_Some (ai_meta a !! e) \/ is_Some (dk_extents (eg_disk g) !! e) -> ExtentId_create_ts e <= t;
  di_size : dk_extent_size (eg_disk g) < 2 ^ 63 }.
(** Every extent is the one its shard is bound to. *)
Definition all_bound a : Prop := forall e m, ai_meta a !! e = Some m -> ai_bind a !! ShardId_shard_prefix (ExtentId_shard_id e) = Some e.
(** A blob the shard's extent holds and no delete named. *)
Definition live a (s : ShardId) (b : BlobId) : Prop :=
  exists e i, ai_bind a !! ShardId_shard_prefix s = Some e /\ ai_blob a !! (e, b) = Some i /\ is_tombstoned i = false.
(** Reads of live blobs are kept; a deleted one may be gone. *)
Definition kept g a g' a' : Prop := forall s b, is_u64 s -> is_u64 b ->
  (live a s b <-> live a' s b)
  /\ (read_shard_blocking g' s b = read_shard_blocking g s b \/ (~ live a s b /\ read_shard_blocking g' s b = Ok None)).
Lemma kept_refl g a : kept g a g a.
Proof. intros s b _ _. split; [done|by left]. Qed.
Lemma kept_trans g a g1 a1 g2 a2 : kept g a g1 a1 -> kept g1 a1 g2 a2 -> kept g a g2 a2.
Proof.
  intros H1 H2 s b Hs Hb. destruct (H1 s b Hs Hb) as [L1 R1], (H2 s b Hs Hb) as [L2 R2]. split; [by rewrite L1|].
  destruct R2 as [->|[Hn ->]]; [|right; by rewrite L1]. destruct R1 as [->|[Hn ->]]; [by left|by right].
Qed.
Lemma inv_open t t' g a o : disk_inv t g a -> t <= t' -> disk_inv t' (set_open o g) a.
Proof. intros [] Ht. split; try done. intros e He. etrans; [by apply di_time0|done]. Qed.
Lemma inv_reopen t g a o : disk_inv t g a -> disk_inv t (set_open o g) a.
Proof. intros Hi. by eapply inv_open; [exact Hi|]. Qed.
Lemma kept_open g a o : kept g a (set_open o g) a.
Proof. intros s b _ _. split; [done|by left]. Qed.

(** Reads through a binding, of an extent nothing touched. *)
Lemma untouched_read t g a g' a' s b e : disk_inv t g a -> rep (eg_index g') a' -> is_u64 s -> is_u64 b ->
  ai_bind a !! ShardId_shard_prefix s = Some e -> ai_bind a' !! ShardId_shard_prefix s = Some e ->
  ai_meta a' !! e = ai_meta a !! e -> (forall b, ai_blob a' !! (e, b) = ai_blob a !! (e, b)) ->
  dk_extents (eg_disk g') !! e = dk_extents (eg_disk g) !! e -> read_shard_blocking g' s b = read_shard_blocking g s b.
Proof.
  intros Hi Hr' Hs Hb Hbind Hbind' Hm Hbl Hf. pose proof (di_rep _ _ _ Hi) as Hr. destruct (di_bind _ _ _ Hi _ _ Hbind) as (_ & x & es & m & Hid & Hx & Hfile & _). subst e.
  assert (extent_ok a' x es) as Hx' by by apply (extent_ok_same a).
  rewrite (read_shard_dest g a s x es), (read_shard_dest g' a' s x es) by (done || congruence).
  by apply (read_same (eg_index g) a (eg_index g') a' x es).
Qed.
Lemma unbound_read g a s b : rep (eg_index g) a -> is_u64 s -> ai_bind a !! ShardId_shard_prefix s = None -> read_shard_blocking g s b = Ok None.
Proof. intros Hr Hs Hn. unfold read_shard_blocking. rewrite (get_shard_binding_rep _ a) by done. by rewrite Hn. Qed.

(** ** Reclaiming *)

Definition unbound a (e : ExtentId) : Prop := forall p, ai_bind a !! p <> Some e.
Lemma inv_remove t g a e g' : disk_inv t g a -> eid e -> unbound a e -> eg_index g' = remove_extent (eg_index g) e ->
  dk_extents (eg_disk g') = delete e (dk_extents (eg_disk g)) -> dk_extent_size (eg_disk g') = dk_extent_size (eg_disk g) ->
  disk_inv t g' (abs_remove e a) /\ kept g a g' (abs_remove e a).
Proof.
  intros Hi He Hu Ei Ef Es. pose proof (remove_extent_rep _ _ _ (di_rep _ _ _ Hi) He) as Hr'. rewrite <- Ei in Hr'.
  assert (forall e' m, ai_meta (abs_remove e a) !! e' = Some m -> ai_meta a !! e' = Some m /\ e' <> e) as Hmeta.
  { intros e' m. unfold abs_remove. cbn [ai_meta]. by intros [? ?]%lookup_delete_Some. }
  assert (forall e', e' <> e -> ai_meta (abs_remove e a) !! e' = ai_meta a !! e') as Hm' by (intros e' Hne; unfold abs_remove; cbn [ai_meta]; by rewrite lookup_delete_ne).
  assert (forall e' b, e' <> e -> ai_blob (abs_remove e a) !! (e', b) = ai_blob a !! (e', b)) as Hb' by (intros e' b Hne; by rewrite abs_remove_blob, decide_False).
  split.
  - split; [done| | | | |].
    + intros e' m [Hm _]%Hmeta. by apply (di_meta _ _ _ Hi).
    + intros p e' Hp. destruct (di_bind _ _ _ Hi p e' Hp) as (Ep & x & es & m & Hid & Hx & Hf & Hm & Hst). split; [done|].
      assert (e' <> e) as Hne by (intros ->; by apply (Hu p)). exists x, es, m. split_and!; [done| | | |done].
      * apply (extent_ok_same a); rewrite ?Hid; [done|by apply Hm'|]. intros b. by apply Hb'.
      * by rewrite Ef, lookup_delete_ne.
      * by rewrite Hm'.
    + intros e' b i. rewrite abs_remove_blob. case_decide as Hd; [done|]. intros Hbl. rewrite Hm' by done. by apply (di_blob _ _ _ Hi) in Hbl.
    + intros e' [[m [Hm _]%Hmeta]|[f Hf]]; apply (di_time _ _ _ Hi); [left; by exists m|right]. rewrite Ef in Hf. apply lookup_delete_Some in Hf as [_ Hf]. by exists f.
    + rewrite Es. apply Hi.
  - intros s b Hs Hb. split.
    + unfold live. split; intros (e' & i & Hp & Hbl & Ht); exists e', i; (split; [done|]); (split; [|done]).
      * rewrite Hb'; [done|]. intros ->. by apply (Hu (ShardId_shard_prefix s)).
      * rewrite abs_remove_blob in Hbl. case_decide; done.
    + left. destruct (ai_bind a !! ShardId_shard_prefix s) as [e'|] eqn:Ep.
      * assert (e' <> e) as Hne by (intros ->; by apply (Hu (ShardId_shard_prefix s))).
        apply (untouched_read t g a g' (abs_remove e a) s b e'); try done; [by apply Hm'|intros; by apply Hb'|by rewrite Ef, lookup_delete_ne].
      * rewrite (unbound_read g a), (unbound_read g' (abs_remove e a)); [done..|apply Hi|done|done].
Qed.
Lemma reclaim_ok t g a e : disk_inv t g a -> eid e -> unbound a e ->
  exists g', reclaim_extent e g = (g', Ok tt) /\ disk_inv t g' (abs_remove e a) /\ kept g a g' (abs_remove e a).
Proof.
  intros Hi He Hu. unfold reclaim_extent, bind, modify, gets, ret, fail. unfold move_extent_to_trash. cbn [eg_disk set_open].
  destruct (dk_extents (eg_disk g) !! e) as [f|] eqn:Ef; (eexists; split; [reflexivity|]); apply inv_remove; try done.
  cbn [eg_disk set_index set_open]. by rewrite delete_id.
Qed.
Lemma reclaim_all_ok t ids : forall g a, disk_inv t g a -> Forall (fun e => eid e /\ unbound a e) ids ->
  exists g' a', reclaim_all ids g = (g', Ok tt) /\ disk_inv t g' a' /\ kept g a g' a' /\ ai_bind a' = ai_bind a
    /\ forall e, ai_meta a' !! e = if decide (e ∈ ids) then None else ai_meta a !! e.
Proof.
  induction ids as [|e ids IH]; intros g a Hi Hids.
  { exists g, a. split_and!; [done|done|apply kept_refl|done|done]. }
  apply Forall_cons in Hids as [[He Hu] Hids]. destruct (reclaim_ok t g a e Hi He Hu) as (g1 & E1 & Hi1 & Hk1).
  destruct (IH g1 (abs_remove e a) Hi1 Hids) as (g' & a' & E' & Hi' & Hk' & Hb' & Hm').
  exists g', a'. cbn [reclaim_all]. unfold bind at 1. rewrite E1. split_and!; [done|done|by eapply kept_trans|by rewrite Hb'|].
  intros e'. rewrite Hm'. destruct (decide (e' ∈ ids)) as [Hin|Hin].
  { rewrite decide_True; [done|by right]. }
  unfold abs_remove. cbn [ai_meta]. destruct (decide (e' = e)) as [->|Hne].
  - rewrite lookup_delete_eq, decide_True; [done|by left].
  - rewrite lookup_delete_ne, decide_False by (done || by intros [?|?]%elem_of_cons). done.
Qed.
Lemma dropped_ok t g a : disk_inv t g a -> exists g' a' ids, reclaim_dropped_blocking g = (g', Ok ids) /\ disk_inv t g' a' /\ kept g a g' a' /\ ai_bind a' = ai_bind a
  /\ forall e m, ai_meta a' !! e = Some m <-> ai_meta a !! e = Some m /\ em_status m <> ES_Dropped.
Proof.
  intros Hi. destruct (list_extents_rep (eg_index g) a (di_rep _ _ _ Hi)) as (l & Hl & Hnd & Hel). set (ids := (filter (fun em => em_status em.2 = ES_Dropped) l).*1).
  assert (forall e m, ai_meta a !! e = Some m -> (e ∈ ids <-> em_status m = ES_Dropped)) as Hids.
  { intros e m Hm. unfold ids. rewrite list_elem_of_fmap. split.
    - intros ([e' m'] & -> & [Hd Hin]%list_elem_of_filter). apply Hel in Hin as [_ Hm']. cbn [fst snd] in *. congruence.
    - intros Hd. exists (e, m). split; [done|]. apply list_elem_of_filter. split; [done|]. apply Hel. split; [|done]. by destruct (di_meta _ _ _ Hi _ _ Hm). }
  destruct (reclaim_all_ok t ids (set_open ∅ g) a) as (g' & a' & E & Hi' & Hk & Hb & Hm); [by apply inv_reopen| |].
  { apply Forall_forall. intros e Hin. pose proof Hin as Hin'. unfold ids in Hin'. apply list_elem_of_fmap in Hin' as ([e' m] & -> & [Hd He]%list_elem_of_filter).
    apply Hel in He as [He Hm]. cbn [fst snd] in *. split; [done|]. intros p Hp. destruct (di_bind _ _ _ Hi _ _ Hp) as (_ & x & es & m' & _ & _ & _ & Hm' & Hst). congruence. }
  exists (set_open (eg_open g) g'), a', ids. split_and!.
  - unfold reclaim_dropped_blocking, with_extents, bind at 1, reclaim_dropped. unfold bind at 1, gets. cbn [eg_index set_open]. unfold bind at 1, lift. rewrite Hl. cbn [map_err]. fold ids.
    unfold bind at 1. by rewrite E.
  - by apply inv_reopen.
  - eapply kept_trans; [apply (kept_open g a ∅)|]. eapply kept_trans; [exact Hk|]. apply kept_open.
  - done.
  - intros e m. rewrite Hm. case_decide as Hin; [split; [done|]|]; [intros [Hm' Hst]|]. { destruct (Hst (proj1 (Hids e m Hm') Hin)). }
    split; [|by intros [? _]]. intros Hm'. split; [done|]. intros Hd. by apply Hin, (Hids e m Hm').
Qed.
Lemma orphans_ok index a l out : rep index a -> (forall e m, (e, m) ∈ l -> eid e /\ em_shard_id m = ExtentId_shard_id e) ->
  orphans_of index l out = Ok (out ++ (filter (fun em => em_status em.2 <> ES_Dropped /\ ai_bind a !! ShardId_shard_prefix (em_shard_id em.2) <> Some em.1) l).*1).
Proof.
  intros Hr. revert out. induction l as [|[e m] l IH]; intros out Hl; [by rewrite app_nil_r|]. cbn [orphans_of].
  assert (forall e m, (e, m) ∈ l -> eid e /\ em_shard_id m = ExtentId_shard_id e) as Hl' by (intros; apply Hl; by right).
  destruct (Hl e m) as [He Es]; [by left|]. rewrite filter_cons. cbn [fst snd]. destruct (decide (em_status m = ES_Dropped)) as [Hd|Hd].
  { rewrite decide_False by tauto. by apply IH. }
  rewrite (get_shard_binding_rep index a) by (done || (rewrite Es; by apply ExtentId_shard_id_u64)). cbn [map_err].
  destruct (decide (ai_bind a !! _ = Some e)) as [Hb|Hb]; rewrite IH by done.
  - by rewrite decide_False by tauto.
  - rewrite decide_True by done. cbn [fmap list_fmap fst]. by rewrite <- app_assoc.
Qed.
Lemma orphan_sweep_ok t g a : disk_inv t g a -> exists g' a' ids, reclaim_orphans_blocking g = (g', Ok ids) /\ disk_inv t g' a' /\ kept g a g' a' /\ ai_bind a' = ai_bind a
  /\ forall e m, ai_meta a' !! e = Some m <-> ai_meta a !! e = Some m /\ (em_status m = ES_Dropped \/ ai_bind a !! ShardId_shard_prefix (ExtentId_shard_id e) = Some e).
Proof.
  intros Hi. destruct (list_extents_rep (eg_index g) a (di_rep _ _ _ Hi)) as (l & Hl & Hnd & Hel).
  assert (forall e m, (e, m) ∈ l -> eid e /\ em_shard_id m = ExtentId_shard_id e) as Hwf by (intros e m [_ Hm]%Hel; by apply (di_meta _ _ _ Hi) in Hm).
  set (ids := (filter (fun em => em_status em.2 <> ES_Dropped /\ ai_bind a !! ShardId_shard_prefix (em_shard_id em.2) <> Some em.1) l).*1).
  assert (forall e m, ai_meta a !! e = Some m -> (e ∈ ids <-> em_status m <> ES_Dropped /\ ai_bind a !! ShardId_shard_prefix (ExtentId_shard_id e) <> Some e)) as Hids.
  { intros e m Hm. destruct (di_meta _ _ _ Hi e m Hm) as [He Es]. rewrite <- Es. unfold ids. rewrite list_elem_of_fmap. split.
    - intros ([e' m'] & -> & [Hd Hin]%list_elem_of_filter). apply Hel in Hin as [_ Hm']. cbn [fst snd] in *. assert (m' = m) as -> by congruence. exact Hd.
    - intros Hd. exists (e, m). split; [done|]. apply list_elem_of_filter. split; [exact Hd|]. by apply Hel. }
  destruct (reclaim_all_ok t ids (set_open ∅ g) a) as (g' & a' & E & Hi' & Hk & Hb & Hm); [by apply inv_reopen| |].
  { apply Forall_forall. intros e Hin. pose proof Hin as Hin'. unfold ids in Hin'. apply list_elem_of_fmap in Hin' as ([e' m] & -> & [Hd He]%list_elem_of_filter).
    apply Hel in He as [He Hm]. cbn [fst snd] in *. split; [done|]. intros p Hp. destruct (di_bind _ _ _ Hi _ _ Hp) as (-> & _). apply (Hids e' m Hm) in Hin as [_ Hin]. done. }
  exists (set_open (eg_open g) g'), a', ids. split_and!.
  - unfold reclaim_orphans_blocking, with_extents, bind at 1, reclaim_orphans. unfold bind at 1, gets. cbn [eg_index set_open]. unfold bind at 1, lift. rewrite Hl. cbn [map_err].
    unfold bind at 1. rewrite (orphans_ok (eg_index g) a) by (apply Hi || done). rewrite app_nil_l. fold ids. unfold bind at 1. by rewrite E.
  - by apply inv_reopen.
  - eapply kept_trans; [apply (kept_open g a ∅)|]. eapply kept_trans; [exact Hk|]. apply kept_open.
  - done.
  - intros e m. rewrite Hm. case_decide as Hin; [split; [done|]|]; [intros [Hm' Hst]|].
    { apply (Hids e m Hm') in Hin as [Hd Hn]. by destruct Hst. }
    split; [|by intros [? _]]. intros Hm'. split; [done|]. destruct (decide (em_status m = ES_Dropped)); [by left|right].
    destruct (decide (ai_bind a !! ShardId_shard_prefix (ExtentId_shard_id e) = Some e)); [done|]. destruct Hin. by apply (Hids e m Hm').
Qed.

(** ** Compacting *)

Lemma carried_room index a x es m l : rep index a -> extent_ok a x es -> ai_meta a !! xf_extent_id x = Some m -> list_blobs index (xf_extent_id x) = Ok l ->
  is_u64 (EXTENT_HEADER_LEN + carry_bytes l).
Proof.
  intros Hr (Hid & (_ & _ & Ho) & Hwf & (m' & Hm' & Hsz) & Hbl) Hm Hl. assert (m' = m) as -> by congruence.
  destruct (rep_get_meta index a _ Hr Hid) as [_ Hw]. destruct (Hw m Hm) as (_ & Hsize & _). rewrite Hsz, Ho, len_image in Hsize by by apply eid_len.
  destruct (list_blobs_rep index a (xf_extent_id x) Hr Hid) as (l' & Hl' & Hs & Hel). rewrite Hl in Hl'. injection Hl' as <-.
  assert (blobs_wf l) as Hlw.
  { apply Forall_forall. intros [b i] [Hb Hi]%Hel. split; [done|]. by destruct (rep_blob_readable _ _ _ _ _ Hr Hid Hb Hi). }
  set (l2 := (fun en => (en_blob en, BlobIndex_new 0 (len (en_body en)) (body_crc (en_body en)))) <$> es).
  assert (carry_bytes l2 = entries_len es) as E2.
  { unfold l2, carry_bytes, entries_len. clear. induction es as [|en es IH]; [done|]. cbn [fmap list_fmap foldr snd BlobIndex_new bi_size] in *. unfold entry_len at 1. lia. }
  assert (carry_bytes l <= carry_bytes l2) as Hle.
  { apply carry_bytes_sub; [|by apply sorted_lt_NoDup|].
    - apply Forall_fmap, (Forall_impl _ _ _ Hwf). intros en (Hb & _ & Hlen). cbn. pose proof (len_nonneg (en_body en)). pose proof (crc32c_range (en_body en)).
      unfold BlobIndex_wf, BlobIndex_new, body_crc, uint, U32_MAX in *. cbn [bi_offset bi_size bi_crc bi_flags fst snd]. lia.
    - intros b i [_ Hi]%Hel. destruct (Hbl b i Hi) as (en & n & Hn & <- & _ & Hs' & _). exists (BlobIndex_new 0 (len (en_body en)) (body_crc (en_body en))).
      split; [|done]. apply list_elem_of_fmap. exists en. split; [done|]. by eapply list_elem_of_lookup_2. }
  pose proof (carry_bytes_nonneg l Hlw). unfold uint, EXTENT_HEADER_LEN in *. lia.
Qed.
Lemma open_bound a x es : extent_ok a x es -> open_read (xf_extent_id x) (Some (xf_file x)) = Ok x.
Proof.
  intros (Hid & (_ & Hf & Ho) & _). unfold open_read. rewrite Hf, <- (app_nil_r (image _ es)). rewrite ExtentFile_open_image by by apply eid_len.
  rewrite app_nil_r. destruct x as [f id o]. cbn [xf_file xf_extent_id xf_write_offset] in *. by subst.
Qed.
(** The size of an extent file is not changed by any task. *)
Definition size_kept {A : Type} (m : M A) : Prop := forall g, dk_extent_size (eg_disk (m g).1) = dk_extent_size (eg_disk g).
Lemma size_bind {A B : Type} (m : M A) (k : A -> M B) : size_kept m -> (forall x, size_kept (k x)) -> size_kept (bind m k).
Proof. intros Hm Hk g. unfold bind. pose proof (Hm g) as Hg. destruct (m g) as [g1 [x|e]]; [|done]. by rewrite Hk. Qed.
Lemma size_lift {A : Type} (r : result StoreError A) : size_kept (lift r).
Proof. done. Qed.
Ltac size_steps := repeat first [apply size_bind; [done|]; intros ? | done].
Lemma size_copy_live src l : forall dest, size_kept (copy_live src l dest).
Proof. induction l as [|[b i] l IH]; intros dest; [done|]. cbn [copy_live]. size_steps. destruct x3 as [[idx d] o]. apply size_bind; [done|]. intros _. apply IH. Qed.
Lemma size_reclaim e : size_kept (reclaim_extent e).
Proof. intros g. unfold reclaim_extent, bind, modify, gets, ret, fail, move_extent_to_trash. cbn [eg_disk set_open]. by destruct (dk_extents (eg_disk g) !! e). Qed.
Lemma size_compact src ts : size_kept (compact_extent src ts).
Proof.
  unfold compact_extent. apply size_bind; [|intros [[m l] d]].
  - unfold compact_copy. size_steps. apply size_bind; [by destruct (em_status x0)|intros _]. size_steps. apply size_bind; [apply size_copy_live|]. done.
  - unfold compact_commit. size_steps. apply size_bind; [apply size_reclaim|done].
Qed.
(** What a compaction of a bound extent leaves. *)
Lemma compact_extent_ok g a xs es m ts : compact_pre g a xs es m ts ->
  let src := xf_extent_id xs in let new := ExtentId_new (ExtentId_shard_id src) ts in
  exists g' a' dest esd out, compact_extent src ts g = (g', Ok out) /\ rep (eg_index g') a' /\ extent_ok a' dest esd /\ xf_extent_id dest = new
    /\ ai_bind a' = <[ShardId_shard_prefix (ExtentId_shard_id src) := new]> (ai_bind a)
    /\ ai_meta a' !! src = None /\ (forall b, ai_blob a' !! (src, b) = None)
    /\ (exists m', ai_meta a' !! new = Some m' /\ em_status m' = ES_Writable /\ em_shard_id m' = ExtentId_shard_id src)
    /\ (forall e, e <> src -> e <> new -> ai_meta a' !! e = ai_meta a !! e /\ forall b, ai_blob a' !! (e, b) = ai_blob a !! (e, b))
    /\ dk_extents (eg_disk g') = delete src (<[new := xf_file dest]> (dk_extents (eg_disk g))) /\ dk_extent_size (eg_disk g') = dk_extent_size (eg_disk g)
    /\ (forall b i, is_u64 b -> ai_blob a !! (src, b) = Some i -> is_tombstoned i = false -> copied a' new esd es b i)
    /\ (forall b i, is_u64 b -> ai_blob a' !! (new, b) = Some i -> exists i0, ai_blob a !! (src, b) = Some i0 /\ is_tombstoned i0 = false /\ is_tombstoned i = false).
Proof.
  intros Hpre src new. destruct (compact_copy_ok g a xs es m ts Hpre) as (g1 & a1 & live & dest & esd & Hcopy & Hdone).
  pose proof Hdone as [D1 D2 D3 D4 D5 D6 D7 D8 D9 D10 D11 D12 D13 D14 D15]. pose proof Hpre as [P1 P2 P3 P4 P5 P6 P7 P8 P9 P10 P11 P12 P13]. pose proof P2 as (Hsrc & _).
  fold src in D3, D5, D6, D7, D8, D10, D11, D14, D15, Hsrc, Hcopy. fold new in D3, D6, D7, D8, D10, D14, D15.
  assert (forall o : option BlobIndex, forall b, o = tombed [] b <$> o) as Ht by (intros [i|] b; [cbn; unfold tombed; by rewrite decide_False by apply not_elem_of_nil|done]).
  pose proof (copy_done_commit_pre g g1 a a1 a1 xs es esd m ts live dest [] (eg_index g1) Hpre Hdone D1 (agree_off_refl _ _)) as Hcm.
  fold src in Hcm. fold new in Hcm. specialize (Hcm ltac:(by rewrite D5) ltac:(intros b; apply Ht)).
  assert (set_index (eg_index g1) g1 = g1) as Eg by by destruct g1. rewrite Eg in Hcm. pose proof Hcm as [C1 C2 C3 C4 C5 C6 C7 C8 C9 C10 C11 C12 C13 C14 C15 C16 C17].
  destruct (compact_commit_ok g1 a a1 a1 src new es esd live dest [] (xf_file xs) m Hcm)
    as (g' & a' & Hcommit & Hr' & Hok' & Hbind' & Hmeta' & Hfiles' & Htrash' & Hom' & Hob' & (m' & Hm' & Hmn) & Hsb & carried & Hcar & Hnew').
  assert (forall b i, is_u64 b -> ai_blob a !! (src, b) = Some i -> is_tombstoned i = false -> b ∉ carried) as Hnc.
  { intros b i Hb Hi Ht0 Hin. apply Hcar in Hin as (_ & i1 & Hi1 & Ht1). rewrite D8 in Hi1 by done. congruence. }
  assert (forall b i, b ∉ carried -> tombed carried b i = i) as Hnt by (intros b i Hn; unfold tombed; by rewrite decide_False).
  exists g', a', dest, esd, {| co_new_extent := new; co_live_blobs := len live; co_reclaimed_bytes := saturating_sub (em_size m) (xf_write_offset dest) |}.
  assert (compact_extent src ts g = (g', Ok {| co_new_extent := new; co_live_blobs := len live; co_reclaimed_bytes := saturating_sub (em_size m) (xf_write_offset dest) |})) as Erun.
  { unfold compact_extent, bind. by rewrite Hcopy. }
  split_and!; try done.
  - by rewrite Hbind', D4.
  - destruct D6 as (mn & Hmn1 & Hst & Hsh). destruct (Hmn mn Hmn1) as [E1 E2]. exists m'. split_and!; [done|congruence|congruence].
  - intros e H1 H2. split; [by rewrite Hom', D7|]. intros b. by rewrite Hob', D8.
  - by rewrite Hfiles', D10.
  - pose proof (size_compact src ts g) as Hs. by rewrite Erun in Hs.
  - intros b i Hb Hi Ht0. destruct (D14 b i) as (i' & e & e0 & He0 & Hi' & Hrest); [by apply D11|]. exists i', e, e0. split; [done|]. split; [|done].
    rewrite Hnew', Hi'. cbn. by rewrite Hnt by by eapply Hnc.
  - intros b i Hb Hi. rewrite Hnew' in Hi. destruct (ai_blob a1 !! (new, b)) as [i1|] eqn:Ei1; [|done]. cbn in Hi. injection Hi as <-.
    destruct (decide (b ∈ live.*1)) as [Hin|Hin]; [|by rewrite D15 in Ei1]. apply list_elem_of_fmap in Hin as ([b' i0] & -> & Hin). cbn [fst] in *.
    destruct (D14 b' i0 Hin) as (i' & _ & _ & _ & Hi' & Htomb & _). apply D11 in Hin as (_ & Hi0 & Ht0). exists i0. split_and!; [done..|].
    rewrite Hnt by by eapply Hnc. congruence.
Qed.
Lemma live_iff a e s b : ai_bind a !! ShardId_shard_prefix s = Some e -> (live a s b <-> exists i, ai_blob a !! (e, b) = Some i /\ is_tombstoned i = false).
Proof. intros He. unfold live. rewrite He. split; [intros (e' & i & [= <-] & Hi & Ht); by exists i|intros (i & Hi & Ht); by exists e, i]. Qed.
(** The engine a successful compaction leaves. *)
Lemma compacted_inv t g a xs es m ts g' a' dest esd out : disk_inv t g a -> all_bound a -> t < ts -> compact_pre g a xs es m ts ->
  let src := xf_extent_id xs in let new := ExtentId_new (ExtentId_shard_id src) ts in
  compact_extent src ts g = (g', Ok out) -> rep (eg_index g') a' -> extent_ok a' dest esd -> xf_extent_id dest = new ->
  ai_bind a' = <[ShardId_shard_prefix (ExtentId_shard_id src) := new]> (ai_bind a) ->
  ai_meta a' !! src = None -> (forall b, ai_blob a' !! (src, b) = None) ->
  (exists m', ai_meta a' !! new = Some m' /\ em_status m' = ES_Writable /\ em_shard_id m' = ExtentId_shard_id src) ->
  (forall e, e <> src -> e <> new -> ai_meta a' !! e = ai_meta a !! e /\ forall b, ai_blob a' !! (e, b) = ai_blob a !! (e, b)) ->
  dk_extents (eg_disk g') = delete src (<[new := xf_file dest]> (dk_extents (eg_disk g))) -> dk_extent_size (eg_disk g') = dk_extent_size (eg_disk g) ->
  disk_inv ts g' a' /\ all_bound a'.
Proof.
  intros Hi Hall Hts Hpre src new Erun Hr' Hok' Hid Hbind Hms Hbs (m' & Hm' & Hst' & Hsh') Hoth Hf Hsz.
  pose proof Hpre as [P1 P2 P3 P4 P5 P6 P7 P8 P9 P10 P11 P12 P13]. pose proof P2 as (Hsrc & _). fold src in Hsrc, P4, P5, P6, P9, P10, P11. fold new in P9, P10, P11.
  pose proof (ExtentId_shard_id_u64 _ Hsrc) as Hsu. assert (new <> src) as Hne by congruence. assert (eid new) as Hnew by by apply ExtentId_new_eid.
  assert (ExtentId_shard_id new = ExtentId_shard_id src) as Esh by by apply ExtentId_shard_id_new.
  assert (forall e m0, ai_meta a' !! e = Some m0 -> e = new \/ (e <> src /\ e <> new /\ ai_meta a !! e = Some m0)) as Hmeta.
  { intros e m0 Hm0. destruct (decide (e = new)); [by left|]. destruct (decide (e = src)) as [->|]; [congruence|]. right. split_and!; [done..|]. by rewrite <- (proj1 (Hoth e ltac:(done) ltac:(done))). }
  split.
  - split; [done| | | | |].
    + intros e m0 Hm0. destruct (Hmeta e m0 Hm0) as [->|(_ & _ & Hm1)]; [|by apply (di_meta _ _ _ Hi)]. assert (m0 = m') as -> by congruence. split; [done|congruence].
    + intros p e. rewrite Hbind. intros [[<- <-]|[Hp He]]%lookup_insert_Some.
      * split; [by rewrite Esh|]. exists dest, esd, m'. split_and!; [done..| |done|by rewrite Hst']. rewrite Hf, lookup_delete_ne by done. apply lookup_insert_eq.
      * destruct (di_bind _ _ _ Hi _ _ He) as (Ep & x & es0 & m0 & Hx1 & Hx2 & Hx3 & Hx4 & Hx5). split; [done|].
        assert (e <> src) as H1 by (intros ->; by rewrite Ep in Hp). assert (e <> new) as H2 by (intros ->; congruence).
        destruct (Hoth e H1 H2) as [Hm0 Hb0]. exists x, es0, m0. split_and!; [done| | |by rewrite Hm0|done].
        -- apply (extent_ok_same a); rewrite ?Hx1; done.
        -- by rewrite Hf, lookup_delete_ne, lookup_insert_ne by done.
    + intros e b i Hb. destruct (decide (e = new)) as [->|H2]; [by eexists|]. destruct (decide (e = src)) as [->|H1]; [by rewrite Hbs in Hb|].
      destruct (Hoth e H1 H2) as [Hm0 Hb0]. rewrite Hm0. rewrite Hb0 in Hb. by apply (di_blob _ _ _ Hi) in Hb.
    + intros e He. destruct (decide (e = new)) as [->|H2]; [unfold new; rewrite ExtentId_create_ts_new by done; lia|].
      assert (is_Some (ai_meta a !! e) \/ is_Some (dk_extents (eg_disk g) !! e)) as He'; [|pose proof (di_time _ _ _ Hi e He'); lia].
      destruct He as [[m0 Hm0]|[f Hf0]]; [left; destruct (Hmeta e m0 Hm0) as [->|(_ & _ & Hm1)]; [done|by eexists]|right].
      rewrite Hf in Hf0. apply lookup_delete_Some in Hf0 as [_ Hf0]. rewrite lookup_insert_ne in Hf0 by done. by eexists.
    + rewrite Hsz. apply Hi.
  - intros e m0 Hm0. rewrite Hbind. destruct (Hmeta e m0 Hm0) as [->|(H1 & H2 & Hm1)]; [rewrite Esh; apply lookup_insert_eq|].
    rewrite lookup_insert_ne; [by eapply Hall|]. intros E. pose proof (Hall e m0 Hm1) as He. rewrite <- E in He. pose proof P5 as P5'. congruence.
Qed.
Lemma compacted_kept t g a xs es m ts g' a' dest esd : disk_inv t g a -> compact_pre g a xs es m ts ->
  let src := xf_extent_id xs in let new := ExtentId_new (ExtentId_shard_id src) ts in
  rep (eg_index g') a' -> extent_ok a' dest esd -> xf_extent_id dest = new ->
  ai_bind a' = <[ShardId_shard_prefix (ExtentId_shard_id src) := new]> (ai_bind a) ->
  (forall e, e <> src -> e <> new -> ai_meta a' !! e = ai_meta a !! e /\ forall b, ai_blob a' !! (e, b) = ai_blob a !! (e, b)) ->
  dk_extents (eg_disk g') = delete src (<[new := xf_file dest]> (dk_extents (eg_disk g))) ->
  (forall b i, is_u64 b -> ai_blob a !! (src, b) = Some i -> is_tombstoned i = false -> copied a' new esd es b i) ->
  (forall b i, is_u64 b -> ai_blob a' !! (new, b) = Some i -> exists i0, ai_blob a !! (src, b) = Some i0 /\ is_tombstoned i0 = false /\ is_tombstoned i = false) ->
  kept g a g' a'.
Proof.
  intros Hi Hpre src new Hr' Hok' Hid Hbind Hoth Hf Hcop Hback s b Hs Hb.
  pose proof Hpre as [P1 P2 P3 P4 P5 P6 P7 P8 P9 P10 P11 P12 P13]. pose proof P2 as (Hsrc & _). fold src in Hsrc, P4, P5, P6, P9, P10, P11. fold new in P9, P10, P11.
  assert (new <> src) as Hne by congruence. destruct (decide (ShardId_shard_prefix s = ShardId_shard_prefix (ExtentId_shard_id src))) as [Ep|Ep].
  - assert (ai_bind a !! ShardId_shard_prefix s = Some src) as Hb1 by by rewrite Ep.
    assert (ai_bind a' !! ShardId_shard_prefix s = Some new) as Hb2 by (rewrite Hbind, Ep; apply lookup_insert_eq).
    assert (dk_extents (eg_disk g') !! xf_extent_id dest = Some (xf_file dest)) as Hfd by (rewrite Hf, Hid, lookup_delete_ne by done; apply lookup_insert_eq).
    assert (live a s b <-> live a' s b) as Hlive.
    { rewrite (live_iff a src), (live_iff a' new) by done. split.
      - intros (i & Hi1 & Ht). destruct (Hcop b i Hb Hi1 Ht) as (i' & _ & _ & _ & Hi' & Ht' & _). by exists i'.
      - intros (i & Hi1 & _). destruct (Hback b i Hb Hi1) as (i0 & ? & ? & _). by exists i0. }
    split; [done|]. rewrite (read_shard_dest g' a' s dest esd) by (done || by rewrite Hid). destruct (ai_blob a' !! (new, b)) as [i|] eqn:Ei.
    + left. destruct (Hback b i Hb Ei) as (i0 & Hi0 & Ht0 & _). destruct (Hcop b i0 Hb Hi0 Ht0) as (i' & e & e0 & He0 & Hi' & _ & _ & He & Hbody).
      rewrite (read_shard_dest g a s xs es) by done. rewrite (read_blob_indexed (eg_index g) a xs es b i0 e0) by done. rewrite <- Hbody.
      apply (read_blob_indexed _ a' dest esd b i' e); try done. by rewrite Hid.
    + right. split; [|apply (read_blob_absent _ a'); [done|apply Hok'|done|by rewrite Hid]]. rewrite Hlive, (live_iff a' new) by done. rewrite Ei. by intros (i & ? & _).
  - assert (ai_bind a' !! ShardId_shard_prefix s = ai_bind a !! ShardId_shard_prefix s) as Hbs by (rewrite Hbind, lookup_insert_ne by congruence; done).
    destruct (ai_bind a !! ShardId_shard_prefix s) as [e|] eqn:Es.
    + assert (e <> src) as H1 by (intros ->; by destruct (di_bind _ _ _ Hi _ _ Es)).
      assert (e <> new) as H2 by (intros ->; destruct (di_bind _ _ _ Hi _ _ Es) as (_ & _ & _ & m0 & _ & _ & _ & Hm0 & _); congruence).
      destruct (Hoth e H1 H2) as [Hm0 Hb0]. rewrite (live_iff a e), (live_iff a' e), Hb0 by done. split; [done|left].
      apply (untouched_read t g a g' a' s b e); try done. by rewrite Hf, lookup_delete_ne, lookup_insert_ne by done.
    + split; [unfold live; rewrite Es, Hbs; split; by intros (? & ? & ? & _)|]. left. rewrite (unbound_read g a), (unbound_read g' a') by done. done.
Qed.

Lemma compact_blocking_run xs ts g : open_read (xf_extent_id xs) (dk_extents (eg_disk g) !! xf_extent_id xs) = Ok xs ->
  exists o o', (compact_blocking (xf_extent_id xs) ts g).1 = set_open o (compact_extent (xf_extent_id xs) ts (set_open {[xf_extent_id xs := xs]} (set_open o' g))).1.
Proof.
  intros Ho. unfold compact_blocking, stop_writer, bind, modify, gets, lift, with_extents, spawn_writer, ret. cbn [eg_disk set_open]. rewrite Ho.
  destruct (compact_extent _ _ _) as [g' [out|err]] eqn:E; [destruct (eg_open g' !! _)|].
  all: eexists; exists (delete (xf_extent_id xs) (eg_open g)); rewrite E; reflexivity.
Qed.
Lemma compact_blocking_ok t g a e m ts : disk_inv t g a -> all_bound a -> ai_meta a !! e = Some m -> is_i64 ts -> t < ts ->
  exists a', disk_inv ts (compact_blocking e ts g).1 a' /\ all_bound a' /\ kept g a (compact_blocking e ts g).1 a'
    /\ forall e' m', e' <> e -> ai_meta a !! e' = Some m' -> ai_meta a' !! e' = Some m'.
Proof.
  intros Hi Hall Hm Hts Ht. pose proof (Hall e m Hm) as Hbe. destruct (di_bind _ _ _ Hi _ _ Hbe) as (_ & xs & es & m1 & Hid & Hx & Hfile & Hm1 & _).
  assert (m1 = m) as -> by congruence. subst e. destruct (compact_blocking_run xs ts g) as (o & o' & ->); [rewrite Hfile; by apply (open_bound a xs es)|].
  set (g1 := set_open {[xf_extent_id xs := xs]} (set_open o' g)).
  assert (disk_inv t g1 a) as Hi1 by by do 2 apply inv_reopen. assert (kept g a g1 a) as Hk1 by (by intros s b; split; [|left]).
  assert (compact_pre g1 a xs es m ts \/ (em_status m <> ES_Writable /\ em_status m <> ES_Full)) as [Hpre|[Hn1 Hn2]].
  { destruct (decide (em_status m = ES_Writable \/ em_status m = ES_Full)) as [Hst|Hst]; [left|right; tauto].
    set (new := ExtentId_new (ExtentId_shard_id (xf_extent_id xs)) ts).
    assert (~ is_Some (ai_meta a !! new) /\ ~ is_Some (dk_extents (eg_disk g) !! new)) as [Hf1%eq_None_not_Some Hf2%eq_None_not_Some].
    { split; intros Hs; (assert (ExtentId_create_ts new <= t) as Hle by (apply (di_time _ _ _ Hi); tauto)); unfold new in Hle; rewrite ExtentId_create_ts_new in Hle by done; lia. }
    split; try done; try apply Hi1.
    - apply lookup_singleton_eq.
    - intros b. fold new. destruct (ai_blob a !! (new, b)) eqn:E; [|done]. apply (di_blob _ _ _ Hi) in E. rewrite Hf1 in E. by apply is_Some_None in E.
    - intros l Hl. apply (carried_room (eg_index g) a xs es m); try done. apply Hi. }
  - destruct (compact_extent_ok g1 a xs es m ts Hpre) as (g' & a' & dest & esd & out & Erun & Q1 & Q2 & Q3 & Q4 & Q5 & Q6 & Q7 & Q8 & Q9 & Q10 & Q11 & Q12).
    destruct (compacted_inv t g1 a xs es m ts g' a' dest esd out Hi1 Hall Ht Hpre Erun Q1 Q2 Q3 Q4 Q5 Q6 Q7 Q8 Q9 Q10) as [Hi' Hall'].
    pose proof (compacted_kept t g1 a xs es m ts g' a' dest esd Hi1 Hpre Q1 Q2 Q3 Q4 Q8 Q9 Q11 Q12) as Hk'.
    rewrite Erun. exists a'. cbn [fst]. split_and!; [by apply inv_reopen|done| |].
    + eapply kept_trans; [exact Hk1|]. eapply kept_trans; [exact Hk'|]. apply kept_open.
    + intros e' m' Hne Hm'. rewrite (proj1 (Q8 e' Hne ltac:(intros ->; rewrite (cp_new_meta _ _ _ _ _ _ Hpre) in Hm'; done))). done.
  - assert (exists err, compact_extent (xf_extent_id xs) ts g1 = (g1, Err err)) as [err ->].
    { unfold compact_extent, compact_copy, bind, gets, lift, ret, fail, require_meta. rewrite (get_extent_meta_rep _ a) by (apply Hi1 || apply Hx). rewrite Hm1. cbn [map_err ok_or].
      destruct (em_status m); try done; by eexists. }
    exists a. cbn [fst]. split_and!; [by apply (inv_open t); [|lia]|done|by intros s b; split; [|left]|done].
Qed.

(** ** The sweep *)

(** Times that are read one after the other, none before [t]. *)
Definition clock_ok (clock : nat -> Z) (t : Z) (n len : nat) : Prop :=
  forall k, (n <= k < n + len)%nat -> is_i64 (clock k) /\ t < clock k /\ forall j, (n <= j < k)%nat -> clock j < clock k.
Lemma compact_all_ok (clock : nat -> Z) ids : forall n t g a,
  clock_ok clock t n (length ids) -> disk_inv t g a -> all_bound a -> NoDup ids -> (forall e, e ∈ ids -> is_Some (ai_meta a !! e)) ->
  exists t' a', disk_inv t' (compact_all clock n ids g) a' /\ all_bound a' /\ kept g a (compact_all clock n ids g) a'.
Proof.
  induction ids as [|e ids IH]; intros n t g a Hc Hi Hall Hnd Hids; [exists t, a; split_and!; [done|done|apply kept_refl]|].
  apply NoDup_cons in Hnd as [Hne Hnd]. destruct (Hids e) as [m Hm]; [by left|]. destruct (Hc n) as (Hn & Ht & _); [cbn; lia|].
  destruct (compact_blocking_ok t g a e m (clock n) Hi Hall Hm Hn Ht) as (a1 & Hi1 & Hall1 & Hk1 & Hm1). cbn [compact_all].
  destruct (IH (S n) (clock n) (compact_blocking e (clock n) g).1 a1) as (t' & a' & Hi' & Hall' & Hk'); try done.
  { intros k Hk. destruct (Hc k) as (? & _ & Hj); [cbn; lia|]. split_and!; [done|apply Hj; lia|]. intros j Hjk. apply Hj. lia. }
  { intros e' Hin. destruct (Hids e') as [m' Hm']; [by right|]. exists m'. apply Hm1; [|done]. intros ->. done. }
  exists t', a'. split_and!; [done..|]. by eapply kept_trans.
Qed.
Lemma candidates_ok index a ratio : rep index a -> exists l, list_compaction_candidates index ratio = Ok l /\ NoDup l /\ forall e, e ∈ l -> is_Some (ai_meta a !! e).
Proof.
  intros Hr. unfold list_compaction_candidates. destruct (list_extents_rep index a Hr) as (l & -> & Hnd & Hel). cbn [map_err].
  set (c := (fun em : ExtentId * ExtentMeta => (em_deleted_bytes em.2, em.1)) <$> filter (fun em => should_compact em.2 ratio = true) l).
  assert ((merge_sort candidate_le c).*2 ≡ₚ (filter (fun em : ExtentId * ExtentMeta => should_compact em.2 ratio = true) l).*1) as Hp.
  { rewrite (merge_sort_Permutation candidate_le c). unfold c. by rewrite <- list_fmap_compose. }
  eexists. split; [done|]. split.
  - rewrite Hp. eapply sublist_NoDup; [exact Hnd|]. apply fmap_sublist, sublist_filter.
  - intros e. rewrite Hp. intros ([e' m] & -> & [_ Hin]%list_elem_of_filter)%list_elem_of_fmap. apply Hel in Hin as [_ Hm]. by exists m.
Qed.
(** Scrubbing an intact extent finds nothing. *)
Lemma scrub_loop_clean x es l : eid (xf_extent_id x) -> represents x (xf_extent_id x) es -> Forall entry_wf es ->
  (forall b i, (b, i) ∈ l -> exists e, indexed_entry es b i e) -> forall n, exists n', scrub_loop x l n [] = Ok (n', []).
Proof.
  intros Hid (_ & Hf & _) Hes. induction l as [|[b i] l IH]; intros Hl n; [by exists n|]. cbn [scrub_loop].
  assert (forall b i, (b, i) ∈ l -> exists e, indexed_entry es b i e) as Hl' by (intros; apply Hl; by right).
  destruct (is_tombstoned i); [by apply IH|]. destruct (Hl b i) as (e & k & Hk & _ & Ho & _); [by left|]. rewrite Ho. unfold entry_offset.
  rewrite (read_record_image x (xf_extent_id x) es k e []); [by apply IH|by apply eid_len|done|done|by rewrite app_nil_r].
Qed.
Lemma scrub_clean t g a e m : disk_inv t g a -> all_bound a -> ai_meta a !! e = Some m -> exists r, scrub_blocking g e = Ok r /\ sc_corrupt r = [].
Proof.
  intros Hi Hall Hm. destruct (di_bind _ _ _ Hi _ _ (Hall e m Hm)) as (_ & x & es & m' & <- & Hx & Hf & _). unfold scrub_blocking. rewrite Hf, (open_bound a x es) by done.
  unfold scrub_extent. pose proof Hx as (Hid & Hrep & Hes & _ & Hbl). destruct (list_blobs_rep (eg_index g) a (xf_extent_id x) (di_rep _ _ _ Hi) Hid) as (l & -> & _ & Hel). cbn [map_err].
  destruct (scrub_loop_clean x es l Hid Hrep Hes) with (n := 0) as (n' & ->); [intros b i [_ Hin]%Hel; by apply Hbl|]. by eexists.
Qed.
Lemma scrub_all_clean t g a targets : disk_inv t g a -> all_bound a -> (forall e, e ∈ targets -> is_Some (ai_meta a !! e)) -> scrub_all g targets = [].
Proof.
  intros Hi Hall. induction targets as [|e targets IH]; intros Ht; [done|]. cbn [scrub_all]. destruct (Ht e) as [m Hm]; [by left|].
  destruct (scrub_clean t g a e m Hi Hall Hm) as (r & -> & ->). cbn. apply IH. intros e' He'. apply Ht. by right.
Qed.
Lemma targets_sub extents cursor budget e : e ∈ (scrub_targets extents cursor budget).1 -> e ∈ extents.
Proof.
  unfold scrub_targets. destruct (_ || _); [by intros ?%not_elem_of_nil|]. cbn [fst]. intros Hin. apply elem_of_take in Hin as (i & Hi & _).
  rewrite lookup_drop in Hi. apply list_elem_of_lookup_2, elem_of_app in Hi. tauto.
Qed.

(** C4: a maintenance sweep, with a clock that goes forward, of a disk whose index and files
    agree keeps them so, and keeps
    what is stored: a live blob of any shard reads after it as before, however many
    extents were reclaimed or compacted, a deleted one reads as before or not at all,
    and no blob becomes live or stops being live. Afterwards no dropped and no unbound
    extent is left in the index, and no intact extent was reported as corrupt. *)
Theorem sweep_keeps_reads spec pd clock cursor t g a : disk_inv t g a -> clock_ok clock t 0 (compact_per_sweep spec) ->
  let '(g', cursor', reports) := run_sweep spec pd clock cursor g in
  exists t' a', disk_inv t' g' a'
    /\ (forall s b, is_u64 s -> is_u64 b ->
          (live a s b <-> live a' s b)
          /\ (live a s b -> read_shard_blocking g' s b = read_shard_blocking g s b)
          /\ (read_shard_blocking g' s b = read_shard_blocking g s b \/ read_shard_blocking g' s b = Ok None))
    /\ (forall e m, ai_meta a' !! e = Some m -> em_status m <> ES_Dropped /\ ai_bind a' !! ShardId_shard_prefix (ExtentId_shard_id e) = Some e)
    /\ reports = [].
Proof.
  intros Hi Hc. unfold run_sweep. destruct (dropped_ok t g a Hi) as (g1 & a1 & ids1 & -> & Hi1 & Hk1 & Hb1 & Hm1). cbn [fst].
  destruct (orphan_sweep_ok t g1 a1 Hi1) as (g2 & a2 & ids2 & -> & Hi2 & Hk2 & Hb2 & Hm2). cbn [fst].
  assert (all_bound a2) as Hall2.
  { intros e m Hm. rewrite Hb2. apply Hm2 in Hm as [Hm [Hd|Hd]]; [|done]. by apply Hm1 in Hm as [_ ?]. }
  destruct (candidates_ok (eg_index g2) a2 (compact_ratio_percent spec) (di_rep _ _ _ Hi2)) as (cands & -> & Hnd & Hsome).
  destruct (compact_all_ok clock (take (compact_per_sweep spec) cands) 0 t g2 a2) as (t' & a' & Hi' & Hall' & Hk'); try done.
  { intros k Hk. apply Hc. rewrite length_take in Hk. lia. }
  { eapply sublist_NoDup; [exact Hnd|]. apply sublist_take. }
  { intros e Hin. apply Hsome. apply elem_of_take in Hin as (i & Hin & _). by eapply list_elem_of_lookup_2. }
  set (g' := compact_all _ _ _ _) in *. pose proof (kept_trans _ _ _ _ _ _ Hk1 (kept_trans _ _ _ _ _ _ Hk2 Hk')) as Hk.
  unfold list_extent_ids. destruct (list_extents_rep (eg_index g') a' (di_rep _ _ _ Hi')) as (l & -> & _ & Hel). cbn [map_err].
  destruct (scrub_targets _ _ _) as [targets next] eqn:Et. exists t', a'. split; [done|]. split_and!.
  - intros s b Hs Hb. destruct (Hk s b Hs Hb) as [HL HR]. split_and!; [done|intros Hl; by destruct HR as [|[? _]]|destruct HR as [|[_ ?]]; tauto].
  - intros e m Hm. pose proof (Hall' e m Hm) as Hbd. split; [|done]. destruct (di_bind _ _ _ Hi' _ _ Hbd) as (_ & x & es & m' & _ & _ & _ & Hm' & Hst). congruence.
  - destruct pd; [|done]. apply (scrub_all_clean t' g' a'); try done. intros e Hin. apply (f_equal fst) in Et. cbn [fst] in Et. rewrite <- Et in Hin.
    apply targets_sub in Hin. unfold sort_ids in Hin. rewrite (merge_sort_Permutation id_le) in Hin. apply list_elem_of_fmap in Hin as ([e' m] & -> & Hin). apply Hel in Hin as [_ Hm]. by exists m.
Qed.
End MaintenanceProps.

(** ** The rotation of the scrub *)

(** What successive sweeps scrub while the extents stay the same. *)
Fixpoint scrub_rounds (extents : list ExtentId) (budget k cursor : nat) : list ExtentId :=
  match k with
  | O => []
  | S k => let '(targets, next) := scrub_targets extents cursor budget in targets ++ scrub_rounds extents budget k next
  end.
Lemma cycle_lookup (l : list ExtentId) i : (i < 2 * length l)%nat -> (l ++ l) !! i = l !! (i mod length l)%nat.
Proof.
  intros Hi. destruct (decide (i < length l)%nat) as [Hlt|Hge]; [by rewrite lookup_app_l, Nat.mod_small|].
  rewrite lookup_app_r by lia. f_equal. replace i with ((i - length l) + 1 * length l)%nat at 2 by lia. rewrite Nat.Div0.mod_add, Nat.mod_small by lia. done.
Qed.
Lemma rounds_lookup extents budget k : (0 < budget)%nat -> (0 < length extents)%nat -> forall cursor j, (j < k * Nat.min budget (length extents))%nat ->
  scrub_rounds extents budget k cursor !! j = extents !! ((cursor + j) mod length extents)%nat.
Proof.
  intros Hb Hn. set (n := length extents) in *. set (t := Nat.min budget n). induction k as [|k IH]; intros cursor j Hj; [lia|]. cbn [scrub_rounds]. unfold scrub_targets. fold n t.
  rewrite (proj2 (Nat.eqb_neq n 0)), (proj2 (Nat.eqb_neq budget 0)) by lia. cbn [orb]. set (start := (cursor mod n)%nat).
  assert (start < n)%nat as Hs by (apply Nat.mod_upper_bound; lia). assert (length (take t (drop start (extents ++ extents))) = t) as Hl.
  { rewrite length_take, length_drop, length_app. fold n. lia. }
  destruct (decide (j < t)%nat) as [Hlt|Hge].
  - rewrite lookup_app_l by lia. rewrite lookup_take_lt, lookup_drop by lia. rewrite cycle_lookup by (fold n; lia). fold n. f_equal. unfold start. by rewrite Nat.Div0.add_mod_idemp_l.
  - rewrite lookup_app_r, Hl by lia. rewrite IH by lia. f_equal. rewrite Nat.Div0.add_mod_idemp_l.
    replace (start + t + (j - t))%nat with (start + j)%nat by lia. unfold start. by rewrite Nat.Div0.add_mod_idemp_l.
Qed.
(** Whatever the cursor, sweeps whose budgets add up to the number of extents scrub every
    extent, and a sweep scrubs none twice and no more than its budget. *)
Theorem scrub_covers extents budget k cursor : (0 < budget)%nat -> (length extents <= k * budget)%nat ->
  (forall e, e ∈ extents -> e ∈ scrub_rounds extents budget k cursor)
  /\ (length (scrub_targets extents cursor budget).1 <= budget)%nat
  /\ (NoDup extents -> NoDup (scrub_targets extents cursor budget).1).
Proof.
  intros Hb Hk. split_and!.
  - intros e He. apply list_elem_of_lookup_1 in He as [p Hp]. pose proof (lookup_lt_Some _ _ _ Hp) as Hlt. set (n := length extents) in *.
    set (j := ((p + (n - cursor mod n)) mod n)%nat). assert (cursor mod n < n)%nat as Hc by (apply Nat.mod_upper_bound; lia).
    assert (j < n)%nat as Hj by (apply Nat.mod_upper_bound; lia).
    assert (n <= k * Nat.min budget n)%nat as Hkn by (destruct (Nat.min_spec budget n) as [[_ ->]|[_ ->]]; [lia|destruct k; lia]).
    apply (list_elem_of_lookup_2 _ j). rewrite rounds_lookup by (fold n; lia). fold n. rewrite <- Hp. f_equal. unfold j.
    rewrite Nat.Div0.add_mod_idemp_r. rewrite <- Nat.Div0.add_mod_idemp_l. replace (cursor mod n + (p + (n - cursor mod n)))%nat with (p + 1 * n)%nat by lia.
    rewrite Nat.Div0.mod_add. by apply Nat.mod_small.
  - unfold scrub_targets. destruct (_ || _); cbn [fst]; [simpl; lia|]. rewrite length_take. lia.
  - intros Hnd. unfold scrub_targets. destruct (length extents =? 0)%nat eqn:E0; [constructor|]. destruct (budget =? 0)%nat; cbn [orb fst]; [constructor|]. apply Nat.eqb_neq in E0.
    set (n := length extents) in *. assert (cursor mod n < n)%nat as Hc by (by apply Nat.mod_upper_bound). apply NoDup_alt. intros i j x Hi Hj.
    assert (forall i, take (Nat.min budget n) (drop (cursor mod n) (extents ++ extents)) !! i = Some x -> (i < n)%nat /\ extents !! ((cursor mod n + i) mod n)%nat = Some x) as Hl.
    { intros i' Hi'. apply lookup_take_Some in Hi' as [Hi' Hlt]. rewrite lookup_drop in Hi'. split; [lia|]. rewrite cycle_lookup in Hi' by (fold n; lia). done. }
    apply Hl in Hi as [Hi1 Hi2], Hj as [Hj1 Hj2]. pose proof (NoDup_lookup _ _ _ _ Hnd Hi2 Hj2) as E.
    set (c := (cursor mod n)%nat) in *. clearbody c n. clear - Hc Hi1 Hj1 E.
    assert (forall m, (m < 2 * n)%nat -> (m mod n)%nat = if (m <? n)%nat then m else (m - n)%nat) as Hmod.
    { intros m Hm. destruct (Nat.ltb_spec m n); [by apply Nat.mod_small|]. replace m with ((m - n) + 1 * n)%nat at 1 by lia. rewrite Nat.Div0.mod_add. apply Nat.mod_small. lia. }
    rewrite !Hmod in E by lia. destruct (Nat.ltb_spec (c + i) n), (Nat.ltb_spec (c + j) n); lia.
Qed.

(** *** A disk with an extent of two blobs, one deleted *)

#[local] Existing Instance cells_rocks.
#[local] Existing Instance castagnoli.
Lemma sweep_keeps_reads_witness : exists (g g' : @Engine (cells_rocks merge_meta)) cursor,
  run_sweep {| compact_ratio_percent := 30; compact_per_sweep := 4; scrub_per_sweep := 2 |} true (fun k => 1000 + Z.of_nat k) 0 g = (g', cursor, [])
  /\ read_shard_blocking g' 4294967297 7 = read_shard_blocking g 4294967297 7.
Proof.
  destruct ex_store_fresh as (x & E & Hr & Hx & Hid & Ho).
  destruct (write_blob_new ex_store_index ex_store x [] 7 [1; 2; 3] (fresh_meta 4294967297 99 ES_Writable)) as (index & xs & Hw & Hr' & Hx' & Hid' & _);
    [done..|by rewrite Hid|done|by rewrite Hid|done|by rewrite Ho|].
  set (e := {| en_blob := 7; en_shard := _; en_body := _ |}) in *. set (a := abs_append x e ex_store) in *. rewrite Hid in Hid'.
  set (id := ExtentId_new 4294967297 99) in *.
  set (g := {| eg_disk := {| dk_extents := {[ id := xf_file xs ]}; dk_trash := ∅; dk_extent_size := 1000000 |}; eg_index := index; eg_open := {[ id := xs ]} |}).
  assert (ExtentId_shard_id id = 4294967297 /\ ExtentId_create_ts id = 99 /\ ShardId_shard_prefix 4294967297 = 4294967296) as (Hsh & Hts & Hpre) by (by vm_compute).
  assert (forall e' m, ai_meta a !! e' = Some m -> e' = id /\ em_shard_id m = 4294967297 /\ em_status m = ES_Writable) as Hmeta.
  { intros e' m. unfold a. cbn [abs_append abs_merge abs_put_blob ai_meta]. rewrite Hid. destruct (decide (e' = id)) as [->|Hne].
    - rewrite lookup_alter_eq. change (ai_meta ex_store !! id) with (Some (fresh_meta 4294967297 99 ES_Writable)). by intros [= <-].
    - rewrite lookup_alter_ne by done. unfold ex_store, fresh_abs. fold id. cbn [abs_bind abs_put_meta ai_meta abs_empty]. rewrite lookup_insert_ne by done. done. }
  assert (disk_inv 99 g a) as Hi.
  { split; [done| | | | |done].
    - intros e' m (-> & Hm & _)%Hmeta. split; [by apply ExtentId_new_eid|congruence].
    - intros p e' Hp. unfold a in Hp. cbn [abs_append abs_merge abs_put_blob ai_bind] in Hp. unfold ex_store, fresh_abs in Hp. cbn [abs_bind abs_put_meta ai_bind abs_empty] in Hp.
      apply lookup_insert_Some in Hp as [[<- <-]|[_ Hp]]; [|done]. fold id. rewrite Hsh. split; [done|]. pose proof Hx' as (_ & _ & _ & (m & Hm & _) & _).
      rewrite Hid' in Hm. exists xs, ([] ++ [e]), m. split_and!; try done; try apply lookup_singleton_eq. destruct (Hmeta _ _ Hm) as (_ & _ & ->). done.
    - intros e' b i Hb. unfold a in Hb. cbn [abs_append abs_merge abs_put_blob ai_blob] in Hb. rewrite Hid in Hb. apply lookup_insert_Some in Hb as [[[= <- _] _]|[_ Hb]]; [|done].
      pose proof Hx' as (_ & _ & _ & (m & Hm & _) & _). rewrite Hid' in Hm. by exists m.
    - intros e' [[m (-> & _)%Hmeta]|[f Hf]]; [lia|]. cbn [g eg_disk dk_extents] in Hf. apply lookup_singleton_Some in Hf as [<- _]. lia. }
  pose proof (sweep_keeps_reads {| compact_ratio_percent := 30; compact_per_sweep := 4; scrub_per_sweep := 2 |} true (fun k => 1000 + Z.of_nat k) 0 99 g a Hi) as H.
  destruct (run_sweep _ _ _ _ _) as [[g' cursor'] reports] eqn:Es.
  destruct H as (t' & a' & _ & Hk & _ & ->); [intros k Hk; unfold is_i64; cbn [compact_per_sweep] in Hk; split_and!; [lia..|]; intros j; lia|].
  exists g, g', cursor'. split; [done|]. apply Hk; [done..|]. exists id, (BlobIndex_new (xf_write_offset x) (len [1; 2; 3]) (body_crc [1; 2; 3])). split_and!; [done| |done].
  unfold a. cbn [abs_append abs_merge abs_put_blob ai_blob]. rewrite Hid. apply lookup_insert_eq.
Defined.

(** ** Runs across a restart

    A repair target across a restart of its node, and a maintenance sweep that compacts:
    runs of the engine's operations (epoch-store service.rs, epoch-node roles/repair.rs
    and roles/maintenance.rs). *)

From S2P Require Import DataNode.

Section Restart.
Context `{!Crc32c} {RDB : RocksDb merge_meta}.
Implicit Types (g : Engine).

Lemma open_loop_writers files : forall recovered g g' r, open_loop files recovered g = (g', r) -> eg_open g' = eg_open g.
Proof.
  induction files as [|[name file] files IH]; intros recovered g g' r; [by intros [= <- _]|]. cbn [open_loop].
  destruct (ExtentFile_open (Some file)) as [x|err].
  - unfold bind at 1, gets. unfold bind at 1, lift. destruct (recover_extent (eg_index g) x) as [[index x']|e]; [|by intros [= <- _]]. unfold bind, modify. intros E. by apply IH in E.
  - destruct (is_format_error err); [|by intros [= <- _]]. unfold bind at 1, gets. unfold bind at 1, lift. destruct (map_err _ _) as [d|e]; [|by intros [= <- _]].
    unfold bind, modify. intros E. by apply IH in E.
Qed.
Lemma spawn_writers recovered : forall g g', spawn_writers_for recovered g = (g', Ok tt) ->
  eg_index g' = eg_index g /\ forall e, is_Some (eg_open g' !! e) -> is_Some (eg_open g !! e) \/ keeps_writer (eg_index g) e = Ok true.
Proof.
  induction recovered as [|x recovered IH]; intros g g'; [intros [= <-]; split; [done|by left]|]. cbn [spawn_writers_for]. unfold bind at 1, gets. unfold bind at 1, lift.
  destruct (keeps_writer (eg_index g) (xf_extent_id x)) as [keep|err] eqn:Ek; [|done]. unfold bind. destruct keep; unfold modify, ret.
  - intros E. destruct (IH _ _ E) as [Ei Ho]. split; [done|]. intros e He. destruct (Ho e He) as [Hs|Hs]; [|by right]. cbn [eg_open set_open] in Hs.
    destruct (decide (e = xf_extent_id x)) as [->|Hne]; [by right|]. rewrite lookup_insert_ne in Hs by done. by left.
  - intros E. by destruct (IH _ _ E).
Qed.
(** After a restart an extent that was being rebuilt has no writer. Creating it again, as
    a retry of the repair does, finds it and starts none; every write to it is refused,
    so the repair cannot finish on this node. *)
Theorem rebuild_stuck listing g g' a shard ts meta file broken : eg_open g = ∅ -> open_engine listing g = (g', Ok tt) ->
  rep (eg_index g') a -> eid (ExtentId_new shard ts) ->
  ai_meta a !! ExtentId_new shard ts = Some meta -> em_status meta = ES_Rebuilding -> dk_extents (eg_disk g') !! ExtentId_new shard ts = Some file ->
  let n := {| dn_engine := g'; dn_broken := broken |} in
  node_create_rebuilding_extent n shard ts = (n, Ok (ExtentId_new shard ts))
  /\ forall sync blob body, node_write sync n (ExtentId_new shard ts) blob body = (n, Err EE_ShardNotFound).
Proof.
  intros Hg Hopen Hr He Hm Hst Hf n. unfold open_engine, bind in Hopen. destruct (open_loop listing [] g) as [g1 [recovered|err]] eqn:El; [|done].
  pose proof (open_loop_writers _ _ _ _ _ El) as Ho. rewrite Hg in Ho. destruct (spawn_writers _ _ _ Hopen) as [Ei Hw].
  assert (eg_open g' !! ExtentId_new shard ts = None) as Hnone.
  { apply eq_None_not_Some. intros Hs. destruct (Hw _ Hs) as [[x Hx]|Hk]; [by rewrite Ho, lookup_empty in Hx|]. rewrite <- Ei in Hk.
    unfold keeps_writer in Hk. rewrite (get_extent_meta_rep _ a) in Hk by done. rewrite Hm in Hk. cbn [map_err] in Hk. rewrite decide_False in Hk by congruence. done. }
  split.
  - unfold node_create_rebuilding_extent, run_blocking, create_extent_with_status, bind, gets, lift, modify, ret, fail. cbn [n dn_engine]. rewrite Hf.
    unfold ExtentFile_create. rewrite (get_extent_meta_rep _ a) by done. rewrite Hm. reflexivity.
  - intros sync blob body. unfold node_write. cbn [n dn_engine]. by rewrite Hnone.
Qed.
End Restart.

(** ** Runs *)

#[local] Existing Instance cells_rocks.
#[local] Existing Instance castagnoli.
Definition ex_disk : DataNode (RDB := cells_rocks merge_meta) :=
  {| dn_engine := {| eg_disk := {| dk_extents := ∅; dk_trash := ∅; dk_extent_size := 1000000 |}; eg_index := rdb_empty; eg_open := ∅ |}; dn_broken := false |}.
Definition ex_slot : ShardId := 4294967297.
Definition ex_restart (n : DataNode (RDB := cells_rocks merge_meta)) : DataNode (RDB := cells_rocks merge_meta) :=
  with_engine n (open_engine (map_to_list (dk_extents (eg_disk (dn_engine n)))) (set_open ∅ (dn_engine n))).1.

(** A retry of a repair after a restart of its node. *)
Definition ex_rebuilding := (node_write None (node_create_rebuilding_extent ex_disk ex_slot 5).1 (ExtentId_new ex_slot 5) 7 [1; 2; 3]).1.
Example rebuild_stuck_run :
  (node_write None ex_rebuilding (ExtentId_new ex_slot 5) 8 [4]).2 = Ok Written
  /\ (node_create_rebuilding_extent (ex_restart ex_rebuilding) ex_slot 5).2 = Ok (ExtentId_new ex_slot 5)
  /\ (node_write None (node_create_rebuilding_extent (ex_restart ex_rebuilding) ex_slot 5).1 (ExtentId_new ex_slot 5) 8 [4]).2 = Err EE_ShardNotFound.
Proof. vm_compute. split_and!; reflexivity. Qed.

(** A sweep compacts an extent half of which is deleted: the live blob reads as before, the
    deleted one is gone, and the old file is in the trash. *)
Definition ex_dirty :=
  let n := (node_create_extent_at ex_disk ex_slot 5).1 in
  let n := (node_write None n (ExtentId_new ex_slot 5) 7 [1; 2; 3]).1 in
  let n := (node_write None n (ExtentId_new ex_slot 5) 8 [4; 5]).1 in
  (node_delete n (ExtentId_new ex_slot 5) 8).1.
Definition ex_swept := run_sweep {| compact_ratio_percent := 30; compact_per_sweep := 4; scrub_per_sweep := 2 |} true (fun k => 1000 + Z.of_nat k) 0 (dn_engine ex_dirty).
Example sweep_compacts :
  read_shard_blocking (dn_engine ex_dirty) ex_slot 7 = Ok (Some [1; 2; 3]) /\ read_shard_blocking (dn_engine ex_dirty) ex_slot 8 = Ok (Some [4; 5])
  /\ read_shard_blocking ex_swept.1.1 ex_slot 7 = Ok (Some [1; 2; 3]) /\ read_shard_blocking ex_swept.1.1 ex_slot 8 = Ok None
  /\ get_shard_binding (eg_index ex_swept.1.1) ex_slot = Ok (Some (ExtentId_new ex_slot 1000))
  /\ (map_to_list (dk_trash (eg_disk ex_swept.1.1))).*1 = [ExtentId_new ex_slot 5] /\ ex_swept.2 = [].
Proof. vm_compute. split_and!; reflexivity. Qed.
