(* ===== verification/RepairNode.v ===== *)
(** The repair coordinator of a data node (epoch-node roles/repair.rs): the worker's
    backends over the placement driver's service and the storage engines of the
    nodes, the expansion of a job into subtasks, and a poll of the work that is
    assigned to the node. *)

From S2P Require Import Prelude Ids EcLayout Bitrot Erasure EcPipeline Crc Record ExtentFile Rocks MetaMerge StoreIndex StoreOps PdDb PdCluster PdChunk PdJob PdState PdJournal Client PdService PdDriver DataNode Worker.

Section RepairNode.
Context `{RS : ReedSolomon} `{B3 : Blake3} `{!Crc32c} {SDB : RocksDb merge_meta} {RDB : RocksDb no_merge}.
Context {LogId Membership : Set} `{!PdSerde LogId Membership}.
(** The answers of consensus, whether the leader can confirm that it leads, and its
    clock; the node, its disk, and the error of an fsync there. *)
Context (raft : nat -> RaftAnswer (LogId := LogId) (Membership := Membership)) (linearizable : bool) (now_millis : Z).
Context (node_id : NodeId) (local_disk : DiskId) (sync : option IoKind).

(** The placement driver's leader, the nodes that can be reached, and the watermark a
    progress sink remembers. *)
Record RepairWorld : Type := { rw_journal : Journal; rw_nodes : gmap NodeId DataNode; rw_last_watermark : Z }.
Definition with_journal (w : RepairWorld) (j : Journal) : RepairWorld :=
  {| rw_journal := j; rw_nodes := rw_nodes w; rw_last_watermark := rw_last_watermark w |}.
Definition with_node (w : RepairWorld) (node : NodeId) (n : DataNode) : RepairWorld :=
  {| rw_journal := rw_journal w; rw_nodes := <[node := n]> (rw_nodes w); rw_last_watermark := rw_last_watermark w |}.
Definition with_watermark (w : RepairWorld) (watermark : Z) : RepairWorld :=
  {| rw_journal := rw_journal w; rw_nodes := rw_nodes w; rw_last_watermark := watermark |}.

(** ** Calls *)

(** A query of the leader, and a call that proposes; every error has the caller's
    label. *)
Definition pd_query {T} (label : string) (f : Journal -> result Status T) : Eff RepairWorld T :=
  fun w => (w, match f (rw_journal w) with Ok v => Ok v | Err _ => Err (Failed label) end).
Definition pd_call {T} (label : string) (f : Journal -> Journal * result Status T) : Eff RepairWorld T :=
  fun w => let '(j, r) := f (rw_journal w) in (with_journal w j, match r with Ok v => Ok v | Err _ => Err (Failed label) end).
(** A request to a node; one that cannot be reached answers nothing. *)
Definition ask_node {T} (node : NodeId) (error : SubtaskError) (f : DataNode -> DataNode * result EpochError T) : Eff RepairWorld T :=
  fun w => match rw_nodes w !! node with
           | None => (w, Err error)
           | Some n => let '(n, r) := f n in (with_node w node n, match r with Ok v => Ok v | Err _ => Err error end)
           end.
Definition get_chunk (chunk_id : ChunkId) : Eff RepairWorld ChunkView := pd_query "get_chunk" (fun j => serve_get_chunk linearizable j chunk_id).
Definition list_nodes : Eff RepairWorld (list NodeInfo * list DiskInfo) := pd_query "list_nodes" (serve_list_nodes linearizable).
Definition commit_job_progress (label : string) (job_id watermark : Z) (done : bool) : Eff RepairWorld unit :=
  pd_call label (fun j => serve_commit_job_progress raft j now_millis job_id watermark done).

(** ** Layouts *)

Definition view_shard (view : ShardView) : ShardId := Z.lor (sv_shard_prefix view) (sv_epoch view).
Definition disk_owner (disks : list DiskInfo) (disk_id : Z) : result SubtaskError NodeId :=
  ok_or (dk_node <$> find (fun d => dk_id d =? disk_id) disks) (Failed "disk not in topology").
Fixpoint extent_of (shards : list ShardView) (shard : ShardId) : result SubtaskError ExtentId :=
  match shards with
  | [] => Err (Failed "shard not in chunk view")
  | view :: shards =>
      if view_shard view =? shard
      then if len (sv_extent_id view) =? 16 then Ok (sv_extent_id view) else Err (Failed "bad extent id length")
      else extent_of shards shard
  end.
Fixpoint place_shards (disks : list DiskInfo) (views : list ShardView) (shards : list (ShardId * NodeId)) : result SubtaskError (list (ShardId * NodeId)) :=
  match views with
  | [] => Ok shards
  | view :: views =>
      let shard := view_shard view in
      node <-? disk_owner disks (sv_disk_id view) ;;
      let index := Z.to_nat (ShardId_index shard) in
      if (length shards <=? index)%nat then Err (Failed "shard index out of range")
      else place_shards disks views (<[index := (shard, node)]> shards)
  end.
Definition chunk_layout_from_pd (chunk_id : ChunkId) (disks : list DiskInfo) : Eff RepairWorld ChunkLayout :=
  chunk <-- get_chunk chunk_id ;;
  code <-- eff_lift (ok_or (cv_code_mode chunk) (Failed "chunk missing code mode")) ;;
  shards <-- eff_lift (place_shards disks (cv_shards chunk) (replicate (length (cv_shards chunk)) (0, 0))) ;;
  eff_ret {| cl_chunk_id := chunk_id; cl_data := cm_data code; cl_parity := cm_parity code; cl_stripe_size := cm_stripe_size code; cl_shards := shards |}.
(** The blobs of the first survivor that answers. *)
Fixpoint survivors_loop (views : list ShardView) (target j : nat) (shards : list (ShardId * NodeId)) : Eff RepairWorld (list BlobId) :=
  match shards with
  | [] => eff_fail (NotReady "no surviving shard to enumerate blobs")
  | (shard, node) :: shards =>
      if decide (j = target) then survivors_loop views target (S j) shards
      else
        extent <-- eff_lift (extent_of views shard) ;;
        fun w => match ask_node node (NotReady "list_blobs") (fun n => node_list_live_blobs n extent) w with
                 | (w, Ok ids) => (w, Ok ids)
                 | (w, Err _) => survivors_loop views target (S j) shards w
                 end
  end.
Definition survivor_blob_ids (layout : ChunkLayout) (target : Z) : Eff RepairWorld (list BlobId) :=
  chunk <-- get_chunk (cl_chunk_id layout) ;; survivors_loop (cv_shards chunk) (Z.to_nat target) 0 (cl_shards layout).

(** ** The backends *)

Definition outcome_of (r : Z * bool) : CommitOutcome := if r.2 then Rebound else AlreadyRebound.
Fixpoint slot_moved (views : list ShardView) (index : Z) (broken_disk : DiskId) : bool :=
  match views with
  | [] => false
  | view :: views => if ShardId_index (view_shard view) =? index then negb (sv_disk_id view =? broken_disk) else slot_moved views index broken_disk
  end.
Definition rebuilt_create_ts (job_id : Z) : Z := Z.max (Z.min job_id (2 ^ 63 - 1)) 1.
Definition PdRepairBackend (job_id : Z) : RepairBackend RepairWorld := {|
  rb_read_shard := fun node shard blob_id => ask_node node (NotReady "read_shard") (fun n => node_read_shard n shard blob_id);
  rb_ensure_rebuild_extent := fun shard =>
    match ShardId_try_new (ShardId_chunk_id shard) (ShardId_index shard) (ShardId_epoch shard + 1) with
    | Err _ => eff_fail (Failed "shard epoch overflow")
    | Ok rebuilt_shard => ask_node node_id (Failed "create rebuilding extent") (fun n => node_create_rebuilding_extent n rebuilt_shard (rebuilt_create_ts job_id))
    end;
  rb_write_rebuilt := fun extent blob_id body => _o <-- ask_node node_id (Failed "write rebuilt") (fun n => node_write sync n extent blob_id body) ;; eff_ret tt;
  rb_promote := fun extent => ask_node node_id (Failed "promote") (fun n => node_promote_rebuilt n extent);
  rb_commit_mapping := fun chunk_id index expected_epoch extent =>
    r <-- pd_call "commit_shard_mapping" (fun j => serve_commit_shard_mapping raft j
            {| csm_job_id := job_id; csm_chunk_id := chunk_id; csm_index := index; csm_expected_epoch := expected_epoch;
               csm_new_disk := local_disk; csm_new_create_ts := ExtentId_create_ts extent; csm_committer := node_id |}) ;;
    eff_ret (outcome_of r);
  rb_commit_shard_repair := fun chunk_id index expected_epoch extent =>
    r <-- pd_call "commit_shard_repair" (fun j => serve_commit_shard_repair raft j
            {| csr_chunk_id := chunk_id; csr_index := index; csr_expected_epoch := expected_epoch;
               csr_new_disk := local_disk; csr_new_create_ts := ExtentId_create_ts extent; csr_committer := node_id |}) ;;
    eff_ret (outcome_of r);
  rb_slot_rebound := fun chunk_id index broken_disk =>
    chunk <-- get_chunk chunk_id ;; eff_ret (slot_moved (cv_shards chunk) index broken_disk) |}.
Definition PdProgressSink (job_id : Z) : ProgressSink RepairWorld := {|
  sink_checkpoint := fun watermark w => commit_job_progress "checkpoint" job_id watermark false (with_watermark w watermark);
  sink_renew_lease := fun w => commit_job_progress "renew_lease" job_id (rw_last_watermark w) false w |}.
Definition PdInspectBackend : InspectBackend RepairWorld := {|
  ib_probe_present := fun layout index w =>
    match cl_shards layout !! Z.to_nat index with
    | None => (w, false)
    | Some (shard, node) =>
        match (chunk <-- get_chunk (cl_chunk_id layout) ;; extent <-- eff_lift (extent_of (cv_shards chunk) shard) ;;
               ask_node node (NotReady "list_blobs") (fun n => node_list_live_blobs n extent)) w with
        | (w, r) => (w, succeeded r)
        end
    end;
  ib_report_missing := fun chunk_id index =>
    _c <-- pd_call "report_shard_repair" (fun j => serve_report_shard_repair raft j chunk_id index) ;; eff_ret tt |}.

(** ** Expansion *)

Fixpoint expand_slots (backend : RepairBackend RepairWorld) (broken_disk : DiskId) (disks : list DiskInfo) (slots : list ShardView)
    : Eff RepairWorld (list (Subtask RepairWorld)) :=
  match slots with
  | [] => eff_ret []
  | slot :: slots =>
      let shard := view_shard slot in
      layout <-- chunk_layout_from_pd (ShardId_chunk_id shard) disks ;;
      blobs <-- survivor_blob_ids layout (ShardId_index shard) ;;
      subtasks <-- expand_slots backend broken_disk disks slots ;;
      eff_ret (repair_subtask backend layout (ShardId_index shard) (sv_epoch slot) broken_disk blobs :: subtasks)
  end.
Definition RepairExpander_expand (backend : RepairBackend RepairWorld) (broken_disk : DiskId) (_resume_from : Z)
    : Eff RepairWorld (list (Subtask RepairWorld)) :=
  slots <-- pd_query "list_disk_shards" (fun j => serve_list_disk_shards linearizable j broken_disk) ;;
  topology <-- list_nodes ;;
  expand_slots backend broken_disk topology.2 slots.

Definition INSPECT_PAGE : Z := 256.
Fixpoint inspect_page (disks : list DiskInfo) (page : list ChunkView) : Eff RepairWorld (list (Subtask RepairWorld)) :=
  match page with
  | [] => eff_ret []
  | view :: page =>
      layout <-- chunk_layout_from_pd (cv_chunk_id view) disks ;;
      subtasks <-- inspect_page disks page ;;
      eff_ret (inspect_subtask PdInspectBackend layout :: subtasks)
  end.
(** [None]: out of fuel. *)
Fixpoint inspect_pages (fuel : nat) (disks : list DiskInfo) (after : ChunkId) : RepairWorld -> option (RepairWorld * result SubtaskError (list (Subtask RepairWorld))) :=
  match fuel with
  | O => fun _ => None
  | S fuel => fun w =>
      match pd_query "list_chunks" (fun j => serve_list_chunks linearizable j after INSPECT_PAGE) w with
      | (w, Err e) => Some (w, Err e)
      | (w, Ok []) => Some (w, Ok [])
      | (w, Ok page) =>
          match inspect_page disks page w with
          | (w, Err e) => Some (w, Err e)
          | (w, Ok subtasks) =>
              '(w, r) ← inspect_pages fuel disks (default after (cv_chunk_id <$> last page)) w;
              Some (w, rest <-? r ;; Ok (subtasks ++ rest))
          end
      end
  end.
(** A page advances, so one more than the chunks is enough. *)
Definition chunk_count (w : RepairWorld) : nat := length (values (ci_chunks (ps_chunks (jn_state (rw_journal w))))).
Definition InspectExpander_expand (_resume_from : Z) : Eff RepairWorld (list (Subtask RepairWorld)) :=
  topology <-- list_nodes ;;
  fun w => default (w, Err panic) (inspect_pages (S (chunk_count w)) topology.2 0 w).

(** ** Driving what is assigned *)

Definition drive_repair_job (job_id disk_id progress_watermark : Z) : Eff RepairWorld unit := fun w =>
  (_n <-- run_job (RepairExpander_expand (PdRepairBackend job_id) disk_id) (PdProgressSink job_id) progress_watermark ;;
   commit_job_progress "complete job" job_id progress_watermark true) (with_watermark w 0).
Definition drive_inspect_job (job_id progress_watermark : Z) : Eff RepairWorld unit := fun w =>
  (_n <-- run_job InspectExpander_expand (PdProgressSink job_id) progress_watermark ;;
   commit_job_progress "complete inspect job" job_id progress_watermark true) (with_watermark w 0).
Definition drive_shard_repair (chunk_id index expected_epoch : Z) : Eff RepairWorld unit :=
  if U8_MAX <? index then eff_fail (Failed "shard index exceeds u8")
  else
    topology <-- list_nodes ;;
    layout <-- chunk_layout_from_pd chunk_id topology.2 ;;
    blobs <-- survivor_blob_ids layout index ;;
    _o <-- shard_repair_run (PdRepairBackend 0) layout index expected_epoch blobs ;;
    eff_ret tt.
(** What fails is tried again at the next poll. *)
Definition drive_job (w : RepairWorld) (job : Z * Z * Z * Z) : RepairWorld :=
  let '(job_id, kind, disk_id, progress_watermark) := job in
  if (kind =? 1) || (kind =? 2) || (kind =? 3) then (drive_repair_job job_id disk_id progress_watermark w).1
  else if kind =? 4 then (drive_inspect_job job_id progress_watermark w).1
  else w.
Definition repair_coordinator_tick (w : RepairWorld) : RepairWorld :=
  let w := match serve_list_node_jobs linearizable (rw_journal w) node_id with Ok jobs => foldl drive_job w jobs | Err _ => w end in
  match serve_list_node_shard_repairs linearizable (rw_journal w) node_id with
  | Ok repairs => foldl (fun w r => (drive_shard_repair r.1.1 r.1.2 r.2 w).1) w repairs
  | Err _ => w
  end.
End RepairNode.
