(* ===== verification/RepairNodeProps.v ===== *)
(** The repair coordinator of a node keeps the worker's promises: what a repair leaves
    in the node's storage engine. *)

From S2P Require Import Prelude Ids EcLayout Bitrot Erasure EcPipeline Crc Record ExtentFile Rocks MetaMerge StoreIndex IndexRefine StoreOps StoreProps EngineRepair PdDb PdCluster PdChunk PdJob PdState PdJournal Client PdService PdDriver DataNode Worker RepairNode.

Section RepairNodeProps.
Context `{RS : ReedSolomon} `{B3 : Blake3} `{!Crc32c} {SDB : RocksDb merge_meta} {RDB : RocksDb no_merge}.
Context {LogId Membership : Set} `{!PdSerde LogId Membership}.
Context (raft : nat -> RaftAnswer (LogId := LogId) (Membership := Membership)) (linearizable : bool).
Context (node_id : NodeId) (local_disk : DiskId) (sync : option IoKind) (job_id : Z).
Abbreviation backend := (PdRepairBackend raft linearizable node_id local_disk sync job_id).
Implicit Types (w : RepairWorld).

(** What the node's engine has of a blob in an extent. *)
Definition local_blob w (e : ExtentId) (b : BlobId) : option (list Z) := n ← rw_nodes w !! node_id; held (dn_engine n) e b.
(** The shard of a slot under its next epoch, and its extent. *)
Definition next_shard (s : ShardId) : ShardId :=
  default 0 (res_ok (ShardId_try_new (ShardId_chunk_id s) (ShardId_index s) (ShardId_epoch s + 1))).
Definition next_extent (s : ShardId) : ExtentId := ExtentId_new (next_shard s) (rebuilt_create_ts job_id).

(** The other nodes, and what they serve. *)
Context (others : gmap NodeId DataNode).
Definition served_by (sn : ShardId * NodeId) (b : BlobId) : option (list Z) :=
  match others !! sn.2 with Some n => match read_shard_blocking (dn_engine n) sn.1 b with Ok r => r | Err _ => None end | None => None end.
(** The node's engine is sound, with space for [k] records of at most [record] bytes;
    the other nodes stand still. *)
Context (record : Z).
Definition repair_room (k : nat) w : Prop := (forall n, n <> node_id -> rw_nodes w !! n = others !! n)
  /\ exists n a, rw_nodes w !! node_id = Some n /\ engine_inv (Z.of_nat k * record) (dn_engine n) a /\ EXTENT_HEADER_LEN + Z.of_nat k * record < 2 ^ 64.
Definition record_fits (b : BlobId) (body : list Z) : Prop := is_u64 b /\ record_on_disk_len (len body) <= record.

Lemma read_shard_still node shard b w : rb_read_shard backend node shard b w =
  (w, match rw_nodes w !! node with Some n => match read_shard_blocking (dn_engine n) shard b with Ok v => Ok v | Err _ => Err (NotReady "read_shard") end
      | None => Err (NotReady "read_shard") end).
Proof.
  cbn [PdRepairBackend rb_read_shard]. unfold ask_node. destruct (rw_nodes w !! node) as [n|] eqn:En; [|done].
  unfold node_read_shard, run_blocking, reading. replace (with_node w node (with_engine n (dn_engine n))) with w; [by destruct (read_shard_blocking _ _ _)|].
  destruct w as [j nodes wm]. unfold with_node. cbn [rw_nodes rw_journal rw_last_watermark] in *. f_equal. symmetry. apply insert_id. rewrite En. by destruct n.
Qed.
Lemma node_op_engine {T} (m : M T) n n' (r : result EpochError T) : (let '(n1, r1) := run_blocking m n in observe n1 r1) = (n', r) ->
  exists g' r', m (dn_engine n) = (g', r') /\ dn_engine n' = g' /\ (forall v, r = Ok v -> r' = Ok v).
Proof.
  unfold run_blocking. destruct (m (dn_engine n)) as [g' r'] eqn:Em. intros Hop. exists g', r'. split; [done|].
  pose proof (observe_engine (with_engine n g') (match r' with Ok a => Ok a | Err e => Err (to_epoch e) end)) as [He Hr]. rewrite Hop in He, Hr. cbn [fst snd] in He, Hr.
  split; [done|]. intros v ->. by destruct r'; [injection Hr as ->|].
Qed.
Lemma ask_local {T} error (f : DataNode -> DataNode * result EpochError T) n w w' r : rw_nodes w !! node_id = Some n -> ask_node node_id error f w = (w', r) ->
  exists n' r0, f n = (n', r0) /\ w' = with_node w node_id n' /\ (forall v, r = Ok v -> r0 = Ok v).
Proof.
  intros En. unfold ask_node. rewrite En. destruct (f n) as [n' r0]. intros [= <- <-]. exists n', r0. split_and!; [done|done|]. intros v. by destruct r0; intros [= ->].
Qed.
Lemma local_with_node w n e b : local_blob (with_node w node_id n) e b = held (dn_engine n) e b.
Proof. unfold local_blob, with_node. cbn [rw_nodes]. by rewrite lookup_insert_eq. Qed.
Lemma local_found w n e b : rw_nodes w !! node_id = Some n -> local_blob w e b = held (dn_engine n) e b.
Proof. unfold local_blob. by intros ->. Qed.
Lemma room_with_node k w n a : (forall m, m <> node_id -> rw_nodes w !! m = others !! m) -> engine_inv (Z.of_nat k * record) (dn_engine n) a ->
  EXTENT_HEADER_LEN + Z.of_nat k * record < 2 ^ 64 -> repair_room k (with_node w node_id n).
Proof.
  intros Ho Hi Hk. split; [intros m Hm; unfold with_node; cbn [rw_nodes]; rewrite lookup_insert_ne by done; by apply Ho|].
  exists n, a. split; [apply lookup_insert_eq|done].
Qed.
Lemma wrap_uint n x : 0 <= n -> uint n (wrap n x).
Proof. intros Hn. apply Z.mod_pos_bound. by apply Z.pow_pos_nonneg. Qed.
Lemma next_shard_u64 s : is_u64 (next_shard s).
Proof.
  unfold next_shard. destruct (ShardId_try_new _ _ _) as [s'|] eqn:E; cbn [res_ok default]; [|done].
  apply ShardId_try_new_Ok in E; [by destruct E as (_ & _ & ?)|by apply wrap_uint|by apply wrap_uint|].
  destruct (wrap_uint 32 (Z.land s MAX_SHARD_EPOCH) ltac:(done)) as [H0 _]. unfold ShardId_epoch. lia.
Qed.
Lemma rebuilt_ts_i64 : is_i64 (rebuilt_create_ts job_id).
Proof. unfold is_i64, rebuilt_create_ts. lia. Qed.
Lemma next_extent_eid s : eid (next_extent s).
Proof. exact (ExtentId_new_eid (next_shard s) (rebuilt_create_ts job_id) (next_shard_u64 s) rebuilt_ts_i64). Qed.

Lemma node_repair_laws : 0 <= record -> repair_laws backend local_blob next_extent repair_room record_fits.
Proof.
  intros Hrec. split.
  - intros k n s b w w' r Hk. rewrite read_shard_still. by intros [= <- _].
  - intros k s w w' e (Ho & n & a & En & Hi & Hfit). cbn [PdRepairBackend rb_ensure_rebuild_extent].
    destruct (ShardId_try_new _ _ _) as [s'|] eqn:Es; [|done]. intros (n' & r0 & Hf & -> & Hr)%(ask_local _ _ n); [|done]. specialize (Hr e eq_refl) as ->.
    destruct (node_op_engine _ _ _ _ Hf) as (g' & r' & Hm & Hg & Hr'). specialize (Hr' e eq_refl) as ->.
    assert (s' = next_shard s) as -> by (unfold next_shard; by rewrite Es).
    destruct (create_held _ _ _ _ _ _ _ _ (next_shard_u64 s) rebuilt_ts_i64 Hfit Hi Hm) as (-> & a' & Hi' & Hs). rewrite <- Hg in Hi', Hs.
    split; [by eapply room_with_node|]. split; [done|]. intros e b. by rewrite local_with_node, (local_found w n), Hs.
  - intros k e b body w w' (Ho & n & a & En & Hi & Hfit) [Hb Hlen] Hw. cbn [PdRepairBackend rb_write_rebuilt] in Hw.
    apply eff_bind_ok in Hw as (o & w1 & Hw & [= <-]). apply (ask_local _ _ n) in Hw as (n' & r0 & Hf & -> & Hr); [|done]. specialize (Hr o eq_refl) as ->.
    unfold node_write in Hf. destruct (eg_open (dn_engine n) !! e) as [x|] eqn:Ex; [|done].
    destruct (process_batch sync x (eg_index (dn_engine n)) [(b, body)]) as [[index' x'] replies] eqn:Ep.
    pose proof (observe_engine (with_engine n (written (dn_engine n) e index' x')) (default (Err EE_Internal) (head replies))) as [He Hr].
    unfold written in He, Hr. rewrite Hf in He, Hr. cbn [fst snd with_engine dn_engine] in He, Hr.
    assert (head replies = Some (Ok o)) as Hh by (destruct (head replies) as [r1|]; cbn in Hr; congruence).
    destruct (write_held (Z.of_nat k * record) (dn_engine n) a e x sync b body index' x' replies o) as (a' & Hi' & Hb' & Hk'); [|done|done|lia|done|done|].
    { apply (inv_room (Z.of_nat (S k) * record)); [done|lia]. }
    unfold written in Hi', Hb', Hk'. rewrite <- He in Hi', Hb', Hk'. split; [eapply room_with_node; [done|done|lia]|].
    rewrite local_with_node, (local_found w n) by done. split; [done|]. intros b' Hne. by rewrite local_with_node, (local_found w n), Hk'.
  - intros k s w w' (Ho & n & a & En & Hi & Hfit) Hp. cbn [PdRepairBackend rb_promote] in Hp. apply (ask_local _ _ n) in Hp as (n' & r0 & Hf & -> & Hr); [|done].
    specialize (Hr tt eq_refl) as ->. destruct (node_op_engine _ _ _ _ Hf) as (g' & r' & Hm & Hg & Hr'). specialize (Hr' tt eq_refl) as ->.
    destruct (promote_held _ _ _ _ _ (next_extent_eid s) Hi Hm) as (a' & _ & Hs). rewrite <- Hg in Hs. intros e b. by rewrite local_with_node, (local_found w n), Hs.
  - intros c i ep e w w' r. cbn [PdRepairBackend rb_commit_mapping]. unfold pd_call, eff_bind. destruct (serve_commit_shard_mapping _ _ _) as [j r0].
    destruct r0; intros [= <- _] e' b; done.
Qed.

(** *** What is gathered *)

Definition survivor_body (index j : nat) (sn : ShardId * NodeId) (b : BlobId) : option (list Z) := if decide (j = index) then None else served_by sn b.
Definition elsewhere (index : nat) (shards : list (ShardId * NodeId)) : Prop := forall j s n, shards !! j = Some (s, n) -> j <> index -> n <> node_id.
Lemma read_served k w sn b : repair_room k w -> sn.2 <> node_id ->
  match (rb_read_shard backend sn.2 sn.1 b w).2 with Ok v => v | Err _ => None end = served_by sn b.
Proof.
  intros [Ho _] Hne. rewrite read_shard_still. unfold served_by. cbn [snd]. rewrite Ho by done. destruct (others !! sn.2) as [n|]; [|done].
  by destruct (read_shard_blocking _ _ _).
Qed.
Lemma gather_served k w index b shards : repair_room k w -> forall pre, (forall i s n, shards !! i = Some (s, n) -> (length pre + i)%nat <> index -> n <> node_id) ->
  gather_bodies backend index b (length pre) shards (pre ++ replicate (length shards) None) w
  = (w, Some (pre ++ imap (fun i sn => survivor_body index (length pre + i) sn b) shards)).
Proof.
  intros Hk. induction shards as [|[s n] shards IH]; intros pre Hne; [done|]. cbn [gather_bodies length replicate imap].
  assert (forall i s' n', shards !! i = Some (s', n') -> (length (pre ++ [survivor_body index (length pre) (s, n) b]) + i)%nat <> index -> n' <> node_id) as Hne'.
  { intros i s' n' Hi Hj. apply (Hne (S i) s' n' Hi). rewrite length_app in Hj. cbn [length] in Hj. lia. }
  specialize (IH _ Hne'). rewrite length_app, <- !app_assoc in IH. cbn [length app] in IH. rewrite Nat.add_1_r in IH. rewrite Nat.add_0_r.
  rewrite (imap_ext (λ i sn, survivor_body index (S (length pre) + i) sn b) ((λ i sn, survivor_body index (length pre + i) sn b) ∘ S)) in IH
    by (intros i sn _; cbn; by rewrite Nat.add_succ_r).
  rewrite <- IH. unfold survivor_body at 1. destruct (decide (length pre = index)) as [E|E]; [done|].
  pose proof (read_served k w (s, n) b Hk (Hne 0%nat s n eq_refl ltac:(lia))) as Hr. cbn [fst snd] in Hr. rewrite read_shard_still in Hr |- *. cbn [snd] in Hr. rewrite Hr.
  rewrite (proj2 (Nat.ltb_lt _ _)) by (rewrite length_app; cbn; lia). by rewrite insert_app_r_alt, Nat.sub_diag by lia.
Qed.
Definition survivor_bodies (layout : ChunkLayout) (b : BlobId) : list (option (list Z)) := (fun sn => served_by sn b) <$> cl_shards layout.
Lemma gathered_bodies k w layout index b w' got : repair_room k w -> elsewhere index (cl_shards layout) -> Z.to_nat (cl_total layout) = length (cl_shards layout) ->
  gather_bodies backend index b 0 (cl_shards layout) (replicate (Z.to_nat (cl_total layout)) None) w = (w', Some got) ->
  <[index := None]> got = <[index := None]> (survivor_bodies layout b).
Proof.
  intros Hk He Hl. rewrite Hl. pose proof (gather_served k w index b (cl_shards layout) Hk [] He) as Hg. cbn [app length Nat.add] in Hg. rewrite Hg. intros [= <- <-].
  apply list_eq. intros j. destruct (decide (j = index)) as [->|Hj].
  - destruct (decide (index < length (cl_shards layout))%nat) as [Hlt|Hge].
    + rewrite !list_lookup_insert_eq; [done|unfold survivor_bodies; by rewrite length_fmap|by rewrite length_imap].
    + rewrite !list_insert_ge by (unfold survivor_bodies; rewrite ?length_fmap, ?length_imap; lia). unfold survivor_bodies.
      rewrite list_lookup_imap, list_lookup_fmap. by rewrite lookup_ge_None_2 by lia.
  - rewrite !list_lookup_insert_ne by done. unfold survivor_bodies. rewrite list_lookup_imap, list_lookup_fmap.
    destruct (cl_shards layout !! j); [|done]. cbn. unfold survivor_body. by rewrite decide_False.
Qed.

(** C23: repairing a shard slot. A coordinator whose engine is sound and has room rebuilds
    a slot from nodes that stand still and never serve frames that were not written.
    If the repair reports success, the extent of the slot's next epoch in its engine
    has, for every blob it was told of, exactly the body the write path made for the
    slot, data or parity; it had when the rebinding was proposed to the placement
    driver, and has after it. *)
Theorem repair_restores layout index shard node ec content body blobs epoch w w' :
  0 <= record -> cl_shards layout !! Z.to_nat index = Some (shard, node) -> Z.to_nat (cl_total layout) = length (cl_shards layout) ->
  Erasure_new (cl_data layout) (cl_parity layout) = Ok ec -> code_ok ec -> 0 < cl_stripe_size layout -> elsewhere (Z.to_nat index) (cl_shards layout) ->
  (forall b, b ∈ blobs -> record_fits b (body b) /\ faithful_blob layout index ec content body b (survivor_bodies layout b)) ->
  repair_room (length blobs) w -> (forall b x, b ∈ blobs -> local_blob w (next_extent shard) b = Some x -> x = body b) ->
  repair_subtask_execute backend layout index epoch blobs w = (w', Ok tt) ->
  (forall b, b ∈ blobs -> local_blob w' (next_extent shard) b = Some (body b))
  /\ exists w1 outcome, rb_commit_mapping backend (cl_chunk_id layout) index epoch (next_extent shard) w1 = (w', Ok outcome)
       /\ forall b, b ∈ blobs -> local_blob w1 (next_extent shard) b = Some (body b).
Proof.
  intros Hrec Hslot Hlen Hec Hcode Hss Helse Hf Hroom He.
  apply (slot_repaired backend local_blob next_extent repair_room record_fits (node_repair_laws Hrec) layout index shard node Hslot ec Hec Hcode Hss content body blobs); [done| |done].
  intros b Hb. destruct (Hf b Hb) as [Hfit (bodies & H1 & H2 & H3 & H4)]. split; [done|]. intros k w0 w1 got Hk Hg.
  exists bodies. rewrite (gathered_bodies k w0 layout (Z.to_nat index) b w1 got Hk Helse Hlen Hg). done.
Qed.

(** *** An inspection round ends *)

Lemma filter_shrinks {A} (P Q : A -> Prop) `{forall x, Decision (P x)} `{forall x, Decision (Q x)} (l : list A) (x : A) :
  (forall y, Q y -> P y) -> x ∈ l -> P x -> ~ Q x -> (length (filter Q l) < length (filter P l))%nat.
Proof.
  intros HQP. assert (forall l', (length (filter Q l') <= length (filter P l'))%nat) as Hle.
  { induction l' as [|y l' IH]; [done|]. rewrite !filter_cons. repeat case_decide; cbn [length]; [lia|naive_solver|lia|lia]. }
  induction l as [|y l IH]; intros Hx HP HnQ; [by apply not_elem_of_nil in Hx|]. apply elem_of_cons in Hx as [->|Hx].
  - rewrite !filter_cons. specialize (Hle l). repeat case_decide; cbn [length]; try done. lia.
  - specialize (IH Hx HP HnQ). rewrite !filter_cons. repeat case_decide; cbn [length]; [lia|naive_solver|lia|lia].
Qed.
Definition later_chunks w (after : ChunkId) : list Chunk := filter (fun c => after < c_chunk_id c) (values (ci_chunks (ps_chunks (jn_state (rw_journal w))))).
Lemma layout_still chunk_id disks w : (chunk_layout_from_pd linearizable chunk_id disks w).1 = w.
Proof.
  unfold chunk_layout_from_pd, get_chunk, pd_query, eff_bind, eff_lift, eff_ret. destruct (serve_get_chunk _ _ _); [|done].
  destruct (ok_or _ _); [|done]. by destruct (place_shards _ _ _).
Qed.
Lemma inspect_page_still disks page : forall w, (inspect_page raft linearizable disks page w).1 = w.
Proof.
  induction page as [|v page IH]; intros w; [done|]. cbn [inspect_page]. unfold eff_bind. pose proof (layout_still (cv_chunk_id v) disks w) as Hl.
  destruct (chunk_layout_from_pd _ _ _ _) as [w1 [layout|]]; cbn [fst] in Hl; subst w1; [|done]. specialize (IH w).
  destruct (inspect_page _ _ _ _ _) as [w1 [l|]]; cbn [fst] in IH; by subst w1.
Qed.
Lemma inspect_pages_total fuel disks : forall after w, (length (later_chunks w after) < fuel)%nat -> is_Some (inspect_pages raft linearizable fuel disks after w).
Proof.
  induction fuel as [|fuel IH]; intros after w Hlt; [lia|]. cbn [inspect_pages]. unfold pd_query, serve_list_chunks, ensure_read_leader.
  destruct linearizable eqn:Elin; [|by eexists]. unfold ChunkManager_list_chunks. fold (later_chunks w after). set (page := take _ _).
  destruct (chunk_to_proto <$> page) as [|v vs] eqn:Ev; [by eexists|]. rewrite <- Ev.
  pose proof (inspect_page_still disks (chunk_to_proto <$> page) w) as Hw. rewrite Elin in Hw. destruct (inspect_page _ _ _ _ w) as [w1 [subtasks|]]; [|by eexists].
  cbn [fst] in Hw. subst w1. destruct (last page) as [c|] eqn:El; [|apply last_None in El; by rewrite El in Ev].
  rewrite fmap_last, El. change (default after (cv_chunk_id <$> (chunk_to_proto <$> Some c))) with (c_chunk_id c).
  destruct (IH (c_chunk_id c) w) as [[w2 r] ->]; [|by eexists]. apply last_Some_elem_of in El. unfold page in El. apply elem_of_take in El as (i & Hi & _).
  apply list_elem_of_lookup_2, list_elem_of_filter in Hi as [Hc Hin]. apply (Nat.lt_le_trans _ (length (later_chunks w after))); [|lia].
  apply (filter_shrinks _ _ _ c); [intros y; lia|done|done|lia].
Qed.
(** The fuel of the expansion is enough: it never runs out. *)
Lemma inspect_expand_total disks w : is_Some (inspect_pages raft linearizable (S (chunk_count w)) disks 0 w).
Proof. apply inspect_pages_total. unfold later_chunks, chunk_count. apply Nat.lt_succ_r, length_filter. Qed.
End RepairNodeProps.

(** ** Runs on concrete engines

    A repair coordinator at work on concrete engines: a disk that is repaired, a
    repair that is refused and reported done, and what enumeration and inspection
    do not see. *)

From S2P Require Import PdHeartbeat PdMeta PdRaft PdRebind.

From Stdlib Require Import SpecFloat.

#[local] Existing Instance cells_rocks.
#[local] Existing Instance castagnoli.
Definition three_copies : CodeMode := {| cm_id := 9; cm_data := 1; cm_parity := 2; cm_stripe_size := 2; cm_blob_size := 4096 |}.
(** Four nodes with a disk each, a chunk on the first three, and disk 3 failing. *)
Definition ex_failing (coordinator : NodeId) : list (LogEntry (LogId := Z) (Membership := Z)) :=
  [ex_entry 1 (ex_node "x"); ex_entry 2 (ex_node "y"); ex_entry 3 (ex_node "z"); ex_entry 4 (ex_node "u");
   ex_entry 5 (ex_disk 1); ex_entry 6 (ex_disk 2); ex_entry 7 (ex_disk 3); ex_entry 8 (ex_disk 4);
   ex_entry 9 (PE_CreateChunkStaging {| cc_code_mode := three_copies; cc_create_ts := 5; cc_epoch := 0;
     cc_slots := [{| sp_index := 0; sp_disk_id := 1 |}; {| sp_index := 1; sp_disk_id := 2 |}; {| sp_index := 2; sp_disk_id := 3 |}] |});
   ex_entry 10 (PE_CommitChunk {| cmc_chunk_id := 1 |});
   ex_entry 11 (PE_UpdateDiskStatus {| ud_disk_id := 3; ud_status := DS_Broken |});
   ex_entry 12 (PE_Job (JC_Create (RepairDisk 3)));
   ex_entry 13 (PE_UpdateDiskStatus {| ud_disk_id := 3; ud_status := DS_Repairing |});
   ex_entry 14 (PE_Job (JC_Assign 1 coordinator 1000))].
Definition ex_after (n : nat) : RaftAnswer (LogId := Z) (Membership := Z) := RA_Committed [] (15 + Z.of_nat n).
Definition ex_pd (coordinator : NodeId) : Journal :=
  {| jn_sm := (PdStateMachine_apply ex_s0 (ex_failing coordinator)).1; jn_heartbeats := HeartbeatTracker_new; jn_leaders := ∅; jn_step := 0 |}.
Definition slot_extent (index : Z) : ExtentId := ExtentId_new (default 0 (ShardId_new 1 index 0)) 5.
(** A node with the extent of a slot, and the blob in it. *)
Definition ex_holder (index : Z) (blobs : list BlobId) : DataNode (RDB := cells_rocks merge_meta) :=
  let n := (node_create_extent_at ex_engine (default 0 (ShardId_new 1 index 0)) 5).1 in
  foldl (fun n b => (node_write None n (slot_extent index) b tiny_body).1) n blobs.
Definition ex_repair_start (coordinator : NodeId) (first : DataNode (RDB := cells_rocks merge_meta)) : RepairWorld :=
  {| rw_journal := ex_pd coordinator; rw_nodes := {[1 := first; 2 := ex_holder 1 [11]; 4 := ex_engine]}; rw_last_watermark := 0 |}.
Definition poll (node : NodeId) (w : RepairWorld) : RepairWorld := repair_coordinator_tick ex_after true 100 node node None w.

Definition slot_disk (w : RepairWorld) (index : nat) : option DiskId :=
  c ← ci_chunks (ps_chunks (jn_state (rw_journal w))) !! 1; ss_disk_id <$> c_shards c !! index.
Definition job_of (w : RepairWorld) : option JobState := j_state <$> ji_jobs (ps_jobs (jn_state (rw_journal w))) !! 1.
Definition disk_of (w : RepairWorld) : option DiskStatus := d_status <$> di_disks (ps_disks (jn_state (rw_journal w))) !! 3.
(** What the slot's node serves of the blob. *)
Definition served (w : RepairWorld) (node : NodeId) (index epoch : Z) : option (result EpochError (option (list Z))) :=
  n ← rw_nodes w !! node; Some (node_read_shard n (default 0 (ShardId_new 1 index epoch)) 11).2.

(** The disk is repaired onto a fresh node, which then serves the blob. *)
Lemma disk_repaired : let w := poll 4 (ex_repair_start 4 (ex_holder 0 [11])) in
  slot_disk w 2 = Some 4 /\ job_of w = Some JS_Done /\ served w 4 2 1 = Some (Ok (Some tiny_body))
  /\ disk_of (with_journal w (sweep_completed_repairs ex_after true (rw_journal w)).1) = Some DS_Repaired.
Proof. vm_compute. split; [reflexivity|]. split; [reflexivity|]. split; reflexivity. Qed.

(** A coordinator that has a shard of the chunk is refused the slot (two shards of a
    chunk would share a disk). The worker takes a refusal for a slot that was
    rebound before, the job is completed, and no sweep of the placement driver ever
    takes the disk further: the slot stays on the broken disk. *)
Definition any_imbalance := SpecFloat.S754_infinity false.
Lemma refused_repair_completes :
  let w := poll 1 (ex_repair_start 1 (ex_holder 0 [11])) in
  let w' := poll 1 (with_journal w (repair_tick ex_after true (rw_journal w) any_imbalance)) in
  job_of w = Some JS_Done /\ slot_disk w 2 = Some 3 /\ disk_of w = Some DS_Repairing
  /\ job_of w' = Some JS_Done /\ slot_disk w' 2 = Some 3 /\ disk_of w' = Some DS_Repairing
  /\ jn_step (rw_journal w') = jn_step (rw_journal w).
Proof. vm_compute. repeat (split; [reflexivity|]). reflexivity. Qed.

(** The first survivor did not take part in the write, which reached its quorum of two
    of three without it: the repair asks it alone which blobs there are, rebuilds
    nothing, and takes the slot over. One copy is left. *)
Lemma unlisted_blob_not_rebuilt :
  write_quorum {| gm_data := 1; gm_parity := 2; gm_stripe_size := 2; gm_blob_size := 4096 |} = 2
  /\ let w := poll 4 (ex_repair_start 4 (ex_holder 0 [])) in
     slot_disk w 2 = Some 4 /\ job_of w = Some JS_Done
     /\ served w 4 2 1 = Some (Ok None) /\ served w 1 0 0 = Some (Ok None) /\ served w 2 1 0 = Some (Ok (Some tiny_body)).
Proof. vm_compute. repeat (split; [reflexivity|]). reflexivity. Qed.

(** A node that lost its extent lists no blobs instead of failing: an inspection of
    the chunk reports nothing, and a repair that asks it first rebuilds nothing. *)
Definition ex_inspected (first : DataNode (RDB := cells_rocks merge_meta)) : RepairWorld :=
  {| rw_journal := ex_pd 4; rw_nodes := {[1 := first; 2 := ex_holder 1 [11]; 3 := ex_holder 2 [11]]}; rw_last_watermark := 0 |}.
Definition inspect_round (w : RepairWorld) : RepairWorld * result SubtaskError unit :=
  (subtasks <-- InspectExpander_expand ex_after true 0 ;; foldr (fun t k => _u <-- st_execute t ;; k) (eff_ret tt) subtasks) w.
Lemma lost_extent_unreported :
  let '(w, r) := inspect_round (ex_inspected ex_engine) in
  extent_present {["x" := ex_engine]} "x" (slot_extent 0) = false /\ r = Ok tt /\ jn_step (rw_journal w) = 0%nat
  /\ served (poll 4 (ex_repair_start 4 ex_engine)) 4 2 1 = Some (Ok None).
Proof. vm_compute. repeat (split; [reflexivity|]). reflexivity. Qed.

(** The repair of the slot, as a subtask. *)
Definition ex_slot_layout : ChunkLayout :=
  {| cl_chunk_id := 1; cl_data := 1; cl_parity := 2; cl_stripe_size := 2;
     cl_shards := (fun i => (default 0 (ShardId_new 1 i 0), i + 1)) <$> [0; 1; 2] |}.
Definition ex_w0 : RepairWorld := ex_repair_start 4 (ex_holder 0 [11]).
Definition ex_executed : RepairWorld * result SubtaskError unit :=
  repair_subtask_execute (PdRepairBackend ex_after true 4 4 None 1) ex_slot_layout 2 0 [11] ex_w0.
Lemma empty_engine_inv room : 0 <= room < 2 ^ 64 -> engine_inv room (dn_engine ex_engine) abs_empty.
Proof.
  intros Hr. split.
  - apply rep_empty.
  - intros e b i Hb. cbn in Hb. by rewrite lookup_empty in Hb.
  - intros e [m Hm]. cbn in Hm. by rewrite lookup_empty in Hm.
  - intros e x Hx. cbn in Hx. by rewrite lookup_empty in Hx.
Qed.
Lemma ex_room : repair_room 4 (rw_nodes ex_w0) 4096 1 ex_w0.
Proof.
  split; [intros n _; reflexivity|]. exists ex_engine, abs_empty. split; [reflexivity|]. split; [exact (empty_engine_inv (Z.of_nat 1 * 4096) ltac:(done))|]. reflexivity.
Qed.
Lemma ex_survivors : survivor_bodies (rw_nodes ex_w0) ex_slot_layout 11 = [Some tiny_body; Some tiny_body; None].
Proof. vm_compute. reflexivity. Qed.
Lemma ex_faithful : faithful_blob ex_slot_layout 2 copies (fun _ => tiny_blob) (fun _ => tiny_body) 11 (survivor_bodies (rw_nodes ex_w0) ex_slot_layout 11).
Proof.
  rewrite ex_survivors. exists (replicate 3 tiny_body). split; [vm_compute; reflexivity|]. split; [reflexivity|]. split.
  - repeat constructor; intros s _; ((by right) || (by left)).
  - intros first Hf. assert (Some tiny_body = Some first) as Hf' by exact Hf. apply Some_inj in Hf' as <-. reflexivity.
Qed.
Lemma ex_record_fits : record_fits 4096 11 tiny_body.
Proof. split; [done|]. vm_compute. discriminate. Qed.
Lemma ex_blob_ok b : b ∈ [11] -> record_fits 4096 b tiny_body
  /\ faithful_blob ex_slot_layout 2 copies (fun _ => tiny_blob) (fun _ => tiny_body) b (survivor_bodies (rw_nodes ex_w0) ex_slot_layout b).
Proof. intros Hb. apply list_elem_of_singleton in Hb. subst b. split; [exact ex_record_fits|exact ex_faithful]. Qed.
Lemma repair_restores_witness : ex_executed.2 = Ok tt /\ local_blob 4 ex_executed.1 (next_extent 1 (default 0 (ShardId_new 1 2 0))) 11 = Some tiny_body.
Proof.
  assert (ex_executed.2 = Ok tt) as Hok by (vm_compute; reflexivity).
  assert (local_blob 4 ex_w0 (next_extent 1 (default 0 (ShardId_new 1 2 0))) 11 = None) as Hfresh by (vm_compute; reflexivity).
  pose proof (repair_restores ex_after true 4 4 None 1 (rw_nodes ex_w0) 4096 ex_slot_layout 2 (default 0 (ShardId_new 1 2 0)) 3 copies (fun _ => tiny_blob) (fun _ => tiny_body)
    [11] 0 ex_w0 ex_executed.1 ltac:(lia) eq_refl eq_refl eq_refl ltac:(split_and!; [done|vm_compute; done..]) eq_refl
    ltac:(intros j s n Hj _; destruct j as [|[|[|j]]]; [vm_compute in Hj; injection Hj as <- <-; done..|done]) ex_blob_ok ex_room
    ltac:(intros b x ->%list_elem_of_singleton Hx; rewrite Hfresh in Hx; done)) as H.
  revert Hok H. unfold ex_executed. generalize (repair_subtask_execute (PdRepairBackend ex_after true 4 4 None 1) ex_slot_layout 2 0 [11] ex_w0).
  intros [w' r] Hok H. cbn [fst snd] in *. subst r. split; [done|]. apply (H eq_refl). by left.
Defined.
