(* ===== verification/RpcNode.v ===== *)
(** The data plane in front of a storage engine (epoch-store handler.rs): the engine as
    the handler of a connection, what an acknowledged stream has stored, and a stream
    that is never answered. *)

From S2P Require Import Prelude Ids Crc RpcFrame RpcCodec Record ExtentFile Rocks MetaMerge StoreIndex IndexRefine StoreOps StoreProps EngineRepair DataNode RpcServer.

Section RpcNode.
Context `{!Crc32c} {RDB : RocksDb merge_meta}.
(** [sync]: the error of an fsync. *)
Definition EngineHandler (sync : option IoKind) : ShardHandler DataNode := {|
  sh_create_extent := fun req n => node_create_extent_at n (cer_shard_id req) (cer_create_ts req);
  sh_open_blob := fun req n => node_writable_extent n (or_shard_id req);
  sh_commit_blob := fun extent blob frames end_ body n => handler_commit_blob sync n extent blob frames (er_frame_count end_) (er_blob_crc end_) body;
  sh_read_shard := fun req n => node_read_shard n (rsr_shard_id req) (rsr_blob_id req);
  sh_seal_extent := fun req n => node_seal_extent n (sr_extent_id req);
  sh_delete_blob := fun req n => handler_delete_blob n (dbr_extent_id req) (dbr_blob_id req);
  sh_list_blobs := fun req n => node_list_live_blobs n (lbr_extent_id req) |}.

(** A commit that is acknowledged checked the number of frames and the checksum, and
    the engine holds the bytes, or held some of that blob before. *)
Lemma acked_blob_held sync extent blob frames end_ body room n a n' :
  engine_inv (record_on_disk_len (len body) + room) (dn_engine n) a -> 0 <= room -> is_u64 blob ->
  sh_commit_blob (ShardHandler := EngineHandler sync) extent blob frames end_ body n = (n', Ok tt) ->
  frames = er_frame_count end_ /\ crc32c body = er_blob_crc end_
  /\ (exists a', engine_inv room (dn_engine n') a') /\ held (dn_engine n') extent blob = Some (default body (held (dn_engine n) extent blob)).
Proof.
  intros Hi Hroom Hb. cbn [EngineHandler sh_commit_blob]. unfold handler_commit_blob. destruct (_ || _) eqn:Eg; [done|].
  apply orb_false_iff in Eg as [Ef%negb_false_iff%Z.eqb_eq Ec%negb_false_iff%Z.eqb_eq].
  unfold node_write. destruct (eg_open (dn_engine n) !! extent) as [x|] eqn:Ex; [|done].
  destruct (process_batch sync x (eg_index (dn_engine n)) [(blob, body)]) as [[index' x'] replies] eqn:Ep.
  pose proof (observe_engine (with_engine n (written (dn_engine n) extent index' x')) (default (Err EE_Internal) (head replies))) as [He Hr].
  unfold written in He, Hr. destruct (observe _ _) as [n1 r1]. cbn [fst snd with_engine dn_engine] in He, Hr. destruct r1 as [o|]; [|done]. intros [= <-].
  assert (head replies = Some (Ok o)) as Hh by (destruct (head replies) as [r2|]; cbn in Hr; congruence).
  destruct (write_held room (dn_engine n) a extent x sync blob body index' x' replies o Hi Hb Ex Hroom Ep Hh) as (a' & Hi' & Hb' & _).
  unfold written in Hi', Hb'. rewrite <- He in Hi', Hb'. split_and!; [done|done|by exists a'|done].
Qed.
End RpcNode.

(** *** Two streams on one connection *)

#[local] Existing Instance cells_rocks.
#[local] Existing Instance castagnoli.
#[local] Instance ex_handler : ShardHandler (DataNode (RDB := cells_rocks merge_meta)) := EngineHandler None.
Definition ex_shard : ShardId := default 0 (ShardId_new 1 0 0).
Definition ex_node_state : DataNode (RDB := cells_rocks merge_meta) := (node_create_extent_at ex_engine ex_shard 5).1.
Definition ex_conn : ConnState (DataNode (RDB := cells_rocks merge_meta)) := {| cs_handler := ex_node_state; cs_streams := ∅; cs_last_reap := 0 |}.
Definition ex_open (blob : BlobId) : OpenReq := {| or_blob_id := blob; or_shard_id := ex_shard |}.
Definition ex_end : EndReq := {| er_frame_count := 2; er_blob_crc := crc32c [1; 2; 3] |}.
Definition ex_frames : list (FrameHeader * list Z) :=
  data_frames 7 1 [[1; 2]] ++ [open_frame 8 (ex_open 12)] ++ data_frames 8 1 [[9]] ++ data_frames 7 2 [[3]] ++ [end_frame 7 3 ex_end].
Definition ex_step := conn_step ex_conn {| tf_now := 0; tf_header := (open_frame 7 (ex_open 11)).1; tf_body := (open_frame 7 (ex_open 11)).2 |}.
Definition ex_run := conn_run ex_step.1.1 (stamp Z.of_nat 0 (read_frames (length (wire ex_frames)) (wire ex_frames))).

Lemma ex_frames_wf : Forall frame_wf ex_frames.
Proof. unfold ex_frames, frame_wf, FrameHeader_wf, uint. repeat (constructor; [vm_compute; split_and!; done|]). constructor. Qed.
Lemma stream_delivery_witness : exists rp, answers_on 7 ex_run.1.2 = [rp] /\ finish_answer rp = Ok tt /\ cs_streams ex_run.1.1 !! 7 = None.
Proof.
  assert (ex_run.2 = true) as Hup by (vm_compute; reflexivity). assert (exists r, ex_step.1.2 = Some r /\ rp_pcode r = POpenAck /\ ex_step.2 = true) as (opened & Ho & Hack & Hs2).
  { eexists. split; [vm_compute; reflexivity|]. split; vm_compute; reflexivity. }
  assert (finish_answer <$> answers_on 7 ex_run.1.2 = [Ok tt]) as Hfin by (vm_compute; reflexivity).
  destruct (stream_delivery 7 (ex_open 11) [[1; 2]; [3]] ex_end 3 Z.of_nat 0 0 ex_frames ex_conn ex_step.1.1 ex_run.1.1 opened ex_run.1.2) as (Hs & _ & res & rp & _ & _ & Hans & Hrp).
  - split; vm_compute; split; done.
  - split; vm_compute; split; done.
  - exact ex_frames_wf.
  - fold ex_step. rewrite <- Ho, <- Hs2. by destruct ex_step as [[? ?] ?].
  - exact Hack.
  - intros k Hk. change (length ex_frames) with 5%nat in Hk. unfold STREAM_IDLE_TIMEOUT. lia.
  - vm_compute. reflexivity.
  - vm_compute. discriminate.
  - fold ex_run. rewrite <- Hup. by destruct ex_run as [[? ?] ?].
  - exists rp. split; [exact Hans|]. split; [|exact Hs]. rewrite Hans in Hfin. cbn in Hfin. injection Hfin as Hfin. rewrite Hfin. reflexivity.
Defined.

(** A stream that was idle for the timeout is swept when a frame of another stream
    arrives; its [End] is then dropped without an answer, and the writer waits. *)
Definition timed (now : Z) (f : FrameHeader * list Z) : TimedFrame := {| tf_now := now; tf_header := f.1; tf_body := f.2 |}.
Definition ex_idle := conn_run ex_conn
  [timed 1 (open_frame 7 (ex_open 11)); timed 2 (conn_header PData 7 1 [1; 2; 3], [1; 2; 3]);
   timed 60010 (open_frame 8 (ex_open 12)); timed 60011 (end_frame 7 2 {| er_frame_count := 1; er_blob_crc := crc32c [1; 2; 3] |})].
Lemma reaped_end_unanswered : ex_idle.2 = true /\ ((fun r => (rp_pcode r, rp_stream r)) <$> ex_idle.1.2) = [(POpenAck, 7); (POpenAck, 8)].
Proof. vm_compute. split; reflexivity. Qed.
