(* ===== verification/WriterSession.v ===== *)
(** The writer session of a gateway (epoch-client: writer_token.rs): minting of blob
    ids under the liveness gate, rotation of tokens, and the commit watermark a
    garbage collection relies on. The token source is an argument. *)

From S2P Require Import Prelude Ids Client.

Record TokenState : Set := { ts_token : WriterToken; ts_next_seq : Z; ts_exhausted : bool; ts_in_flight : gset Z }.
Record WriterSession : Set := {
  ws_node_id : NodeId; ws_stale_after_millis : Z; ws_state : TokenState; ws_last_heartbeat_millis : Z
}.
Definition fresh_state (token : WriterToken) : TokenState :=
  {| ts_token := token; ts_next_seq := 0; ts_exhausted := false; ts_in_flight := ∅ |}.
Definition set_state (s : WriterSession) (st : TokenState) : WriterSession :=
  {| ws_node_id := ws_node_id s; ws_stale_after_millis := ws_stale_after_millis s; ws_state := st;
     ws_last_heartbeat_millis := ws_last_heartbeat_millis s |}.

(** [register] is the answer of the token source. *)
Definition establish (register : result ClientError WriterToken) (node_id : NodeId) (stale_after_millis now_millis : Z)
    : result ClientError WriterSession :=
  token <-? register ;;
  Ok {| ws_node_id := node_id; ws_stale_after_millis := stale_after_millis; ws_state := fresh_state token;
        ws_last_heartbeat_millis := now_millis |}.
Definition record_heartbeat_ok (s : WriterSession) (now_millis : Z) : WriterSession :=
  {| ws_node_id := ws_node_id s; ws_stale_after_millis := ws_stale_after_millis s; ws_state := ws_state s;
     ws_last_heartbeat_millis := now_millis |}.

Definition resolve_blob (st : TokenState) (blob_id : BlobId) : TokenState :=
  if BlobId_writer_token blob_id =? ts_token st
  then {| ts_token := ts_token st; ts_next_seq := ts_next_seq st; ts_exhausted := ts_exhausted st;
          ts_in_flight := ts_in_flight st ∖ {[BlobId_seq blob_id]} |}
  else st.

(** The least element: [in_flight.iter().next()]. *)
Definition least (s : gset Z) : option Z :=
  match elements s with [] => None | x :: l => Some (foldl Z.min x l) end.
Definition commit_watermark (st : TokenState) : WriterToken * Z :=
  (ts_token st, match least (ts_in_flight st) with Some m => m - 1 | None => ts_next_seq st - 1 end).

(** The fast path under the lock. *)
Definition mint_blob (st : TokenState) : option (BlobId * TokenState) :=
  if ts_exhausted st then None
  else
    let seq := ts_next_seq st in
    let '(next, exhausted) := match checked_add 32 seq 1 with Some next => (next, false) | None => (seq, true) end in
    Some (BlobId_new (ts_token st) seq,
          {| ts_token := ts_token st; ts_next_seq := next; ts_exhausted := exhausted; ts_in_flight := {[seq]} ∪ ts_in_flight st |}).
(** [register attempt]: the answer to the registration of the [attempt]-th turn of
    the loop; a turn that rotated always mints on the next one, so two suffice. *)
Fixpoint mint_loop (fuel : nat) (register : nat -> result ClientError WriterToken) (st : TokenState)
    : option (TokenState * result ClientError BlobId) :=
  match fuel with
  | O => None
  | S fuel =>
      match mint_blob st with
      | Some (blob_id, st) => Some (st, Ok blob_id)
      | None =>
          match register fuel with
          | Err e => Some (st, Err e)
          | Ok fresh => mint_loop fuel register (if ts_exhausted st then fresh_state fresh else st)
          end
      end
  end.
Definition next_blob_id (register : nat -> result ClientError WriterToken) (now_millis : Z) (s : WriterSession)
    : option (WriterSession * result ClientError BlobId) :=
  let idle := saturating_sub now_millis (ws_last_heartbeat_millis s) in
  if ws_stale_after_millis s <? idle then Some (s, Err (WriterStale idle))
  else
    match mint_loop 2 register (ws_state s) with
    | Some (st, r) => Some (set_state s st, r)
    | None => None
    end.

Definition force_rotate (register : result ClientError WriterToken) (now_millis : Z) (s : WriterSession)
    : WriterSession * result ClientError unit :=
  let st := ws_state s in
  let fenced := {| ts_token := ts_token st; ts_next_seq := ts_next_seq st; ts_exhausted := true; ts_in_flight := ts_in_flight st |} in
  match register with
  | Err e => (set_state s fenced, Err e)
  | Ok fresh => (record_heartbeat_ok (set_state s (fresh_state fresh)) now_millis, Ok tt)
  end.

(** One tick of the heartbeat loop: [answer] is the reply to the heartbeat carrying
    the current watermark. *)
Definition heartbeat_tick (answer : result ClientError bool) (register : result ClientError WriterToken) (now_millis : Z)
    (s : WriterSession) : WriterSession :=
  match answer with
  | Ok true => record_heartbeat_ok s now_millis
  | Ok false => (force_rotate register now_millis s).1
  | Err _ => s
  end.

(** ** Lemmas *)

Definition token_state_ok (st : TokenState) : Prop :=
  is_u32 (ts_token st) /\ is_u32 (ts_next_seq st)
  /\ forall q, q ∈ ts_in_flight st -> 0 <= q /\ (q < ts_next_seq st \/ (ts_exhausted st = true /\ q <= ts_next_seq st)).

Lemma least_spec (s : gset Z) : match least s with
  | Some m => m ∈ s /\ forall q, q ∈ s -> m <= q
  | None => s = ∅
  end.
Proof.
  unfold least. destruct (elements s) as [|x l] eqn:E; [by apply elements_empty_inv, leibniz_equiv in E|].
  assert (forall l x, foldl Z.min x l ∈ x :: l /\ forall q, q ∈ x :: l -> foldl Z.min x l <= q) as H.
  { clear. induction l as [|y l IH]; intros x; cbn [foldl].
    - split; [by left|]. intros q Hq%list_elem_of_singleton. lia.
    - destruct (IH (Z.min x y)) as [Hin Hle]. split.
      + apply elem_of_cons in Hin as [->|Hin]; [|by right; right]. destruct (Z.min_spec x y) as [[_ ->]|[_ ->]]; [by left|by right; left].
      + intros q Hq. pose proof (Hle (Z.min x y) ltac:(by left)). apply elem_of_cons in Hq as [->|Hq]; [lia|].
        apply elem_of_cons in Hq as [->|Hq]; [lia|]. apply Hle. by right. }
  destruct (H l x) as [Hin Hle]. rewrite <- E in Hin, Hle. split; [by apply elem_of_elements|]. intros q Hq. by apply Hle, elem_of_elements.
Qed.

(** The watermark is below every blob in flight and below the cursor. *)
Lemma commit_watermark_below st q : q ∈ ts_in_flight st -> (commit_watermark st).2 < q.
Proof. intros Hq. unfold commit_watermark. pose proof (least_spec (ts_in_flight st)) as H. destruct (least _); cbn; [destruct H as [_ H]; specialize (H q Hq); lia|set_solver]. Qed.
Lemma commit_watermark_cursor st : token_state_ok st -> (commit_watermark st).2 < ts_next_seq st.
Proof.
  intros (_ & _ & Hf). unfold commit_watermark. pose proof (least_spec (ts_in_flight st)) as H. destruct (least _) as [m|]; cbn; [|lia].
  destruct H as [Hm _]. destruct (Hf m Hm). lia.
Qed.

Lemma mint_spec st blob st' : mint_blob st = Some (blob, st') -> token_state_ok st ->
  blob = BlobId_new (ts_token st) (ts_next_seq st) /\ BlobId_writer_token blob = ts_token st /\ BlobId_seq blob = ts_next_seq st
  /\ token_state_ok st' /\ ts_token st' = ts_token st /\ ts_in_flight st' = {[ts_next_seq st]} ∪ ts_in_flight st
  /\ ts_next_seq st <= ts_next_seq st' /\ (ts_exhausted st' = false -> ts_next_seq st < ts_next_seq st').
Proof.
  unfold mint_blob. destruct (ts_exhausted st) eqn:Ex; [done|]. intros E (Ht & Hn & Hf).
  assert (BlobId_writer_token (BlobId_new (ts_token st) (ts_next_seq st)) = ts_token st
          /\ BlobId_seq (BlobId_new (ts_token st) (ts_next_seq st)) = ts_next_seq st) as [Hw Hs].
  { unfold BlobId_writer_token, BlobId_seq, wrap. rewrite !BlobId_new_val by done. rewrite Z.shiftr_div_pow2 by lia. unfold uint in *. split; lia. }
  unfold checked_add in E. destruct (Z.ltb_spec (ts_next_seq st + 1) (2 ^ 32)); injection E as <- <-; split_and!; try done; cbn; try lia.
  - unfold token_state_ok, uint in *. cbn. split_and!; [lia..|]. intros q. rewrite elem_of_union, elem_of_singleton. intros [->|Hq]; [lia|].
    destruct (Hf q Hq) as [? [?|[? _]]]; [lia|congruence].
  - unfold token_state_ok, uint in *. cbn. split_and!; [lia..|]. intros q. rewrite elem_of_union, elem_of_singleton. intros [->|Hq]; [lia|].
    destruct (Hf q Hq) as [? [?|[? _]]]; [lia|congruence].
Qed.
Lemma fresh_state_ok token : is_u32 token -> token_state_ok (fresh_state token).
Proof. intros Ht. unfold token_state_ok, fresh_state, uint in *. cbn. split_and!; [lia..|]. intros q Hq. set_solver. Qed.
Lemma resolve_blob_ok st blob : token_state_ok st -> token_state_ok (resolve_blob st blob).
Proof.
  intros (Ht & Hn & Hf). unfold resolve_blob. destruct (_ =? _); [|done]. split_and!; [done..|]. cbn. intros q Hq. apply Hf. set_solver.
Qed.

(** ** Runs of a session *)

(** Operations with the answers they get: an id, the end of a put, a tick of the
    heartbeat loop. *)
Inductive SessionOp : Set :=
| OpNext (now : Z) (register : result ClientError WriterToken)
| OpResolve (b : BlobId)
| OpTick (now : Z) (answer : result ClientError bool) (register : result ClientError WriterToken).
(** The tokens the driver hands out during a run. *)
Definition op_tokens (op : SessionOp) : list WriterToken :=
  match op with OpNext _ (Ok t) | OpTick _ _ (Ok t) => [t] | _ => [] end.
Definition session_step (s : WriterSession) (op : SessionOp) : WriterSession * list BlobId :=
  match op with
  | OpNext now register =>
      match next_blob_id (fun _ => register) now s with
      | Some (s, Ok b) => (s, [b])
      | Some (s, Err _) => (s, [])
      | None => (s, [])
      end
  | OpResolve b => (set_state s (resolve_blob (ws_state s) b), [])
  | OpTick now answer register => (heartbeat_tick answer register now s, [])
  end.
Fixpoint session_run (s : WriterSession) (ops : list SessionOp) : WriterSession * list BlobId :=
  match ops with
  | [] => (s, [])
  | op :: ops => let '(s, b) := session_step s op in let '(s, bs) := session_run s ops in (s, b ++ bs)
  end.

(** [b] is no later id of the session, whose next tokens satisfy [future]. *)
Definition spent (st : TokenState) (future : WriterToken -> Prop) (b : BlobId) : Prop :=
  (BlobId_writer_token b = ts_token st -> BlobId_seq b < ts_next_seq st \/ ts_exhausted st = true) /\ ~ future (BlobId_writer_token b).

Lemma mint_None st : mint_blob st = None -> ts_exhausted st = true.
Proof. unfold mint_blob. destruct (ts_exhausted st); [done|]. by destruct (checked_add _ _ _). Qed.
(** The minting loop always ends: with an id, or with the driver's error. *)
Lemma next_blob_id_total register now s : exists s' r, next_blob_id register now s = Some (s', r).
Proof.
  unfold next_blob_id. destruct (_ <? _); [eauto|]. cbn [mint_loop]. destruct (mint_blob (ws_state s)) as [[b st]|] eqn:E; [eauto|].
  apply mint_None in E. destruct (register 1%nat) as [t|e]; [|eauto]. rewrite E. unfold mint_blob. cbn. eauto.
Qed.
(** A minted id was not spent before and is from now on. *)
Lemma mint_spent st future b st' : mint_blob st = Some (b, st') -> token_state_ok st -> ~ future (ts_token st) ->
  token_state_ok st' /\ ts_token st' = ts_token st /\ spent st' future b
  /\ forall b', spent st future b' -> b' <> b /\ spent st' future b'.
Proof.
  intros E Hok Hn. destruct (mint_spec _ _ _ E Hok) as (-> & Hw & Hq & Hok' & Ht & _ & Hle & Hlt).
  assert (ts_exhausted st = false) as Hx by (unfold mint_blob in E; by destruct (ts_exhausted st)). split_and!; [done..| |].
  - split; [|by rewrite Hw]. intros _. rewrite Hq. destruct (ts_exhausted st'); [by right|left; by apply Hlt].
  - intros b' [H1 H2]. split.
    + intros ->. destruct (H1 Hw) as [H|H]; [lia|congruence].
    + split; [|done]. rewrite Ht. intros Hb. left. destruct (H1 Hb) as [H|H]; [lia|congruence].
Qed.
Lemma rotate_spent st t (future future' : WriterToken -> Prop) b : future t -> (forall t', future' t' -> future t') ->
  spent st future b -> spent (fresh_state t) future' b.
Proof. intros Ht Hsub [H1 H2]. split; [|auto]. cbn. intros E. rewrite E in H2. done. Qed.
Lemma spent_weaken st (future future' : WriterToken -> Prop) b : (forall t', future' t' -> future t') ->
  spent st future b -> spent st future' b.
Proof. intros Hsub [H1 H2]. split; auto. Qed.

Abbreviation spent_in st ts := (spent st (fun t => t ∈ ts)) (only parsing).

(** One operation keeps the state typed, and what it mints is new. *)
Lemma session_step_ok s op s' minted ts : session_step s op = (s', minted) -> token_state_ok (ws_state s) ->
  Forall (fun t => is_u32 t) (op_tokens op) -> NoDup (ts_token (ws_state s) :: op_tokens op ++ ts) ->
  token_state_ok (ws_state s') /\ (ts_token (ws_state s') ∉ ts)
  /\ (forall b, b ∈ minted -> spent_in (ws_state s') ts b)
  /\ (length minted <= 1)%nat
  /\ forall b, spent_in (ws_state s) (op_tokens op ++ ts) b -> (b ∉ minted) /\ spent_in (ws_state s') ts b.
Proof.
  intros E Hok Hf Hnd. pose proof Hnd as [Hn _]%NoDup_cons. apply not_elem_of_app in Hn as [Hn1 Hn2].
  assert (forall b, spent_in (ws_state s) (op_tokens op ++ ts) b -> (b ∉ @nil BlobId) /\ spent_in (ws_state s) ts b) as Hid
    by (intros b Hb; split; [apply not_elem_of_nil|]; eapply spent_weaken, Hb; intros t Hin; apply elem_of_app; by right).
  assert (forall t b, op_tokens op = [t] -> spent_in (ws_state s) (op_tokens op ++ ts) b -> spent_in (fresh_state t) ts b) as Hrot.
  { intros t b -> Hb. eapply rotate_spent, Hb; cbn; [by left|by right]. }
  destruct op as [now register|b0|now answer register]; cbn [session_step] in E.
  - destruct (next_blob_id_total (fun _ => register) now s) as (s1 & r & En). rewrite En in E. unfold next_blob_id in En.
    destruct (_ <? _).
    { injection En as <- <-. injection E as <- <-. split_and!; try done; [by intros b ?%not_elem_of_nil|cbn; lia]. }
    cbn [mint_loop] in En. destruct (mint_blob (ws_state s)) as [[b st]|] eqn:Em.
    + injection En as <- <-. injection E as <- <-. cbn [set_state ws_state].
      destruct (mint_spent _ (fun t => t ∈ ts) _ _ Em Hok Hn2) as (H1 & H2 & H3 & H4). split_and!; [done|by rewrite H2| |cbn; lia|].
      * by intros b' ->%list_elem_of_singleton.
      * intros b' [_ Hb'%H4]%Hid. split; [|apply Hb']. rewrite list_elem_of_singleton. apply Hb'.
    + apply mint_None in Em. destruct register as [t|e].
      2:{ injection En as <- <-. injection E as <- <-. split_and!; try done; [by intros b ?%not_elem_of_nil|cbn; lia]. }
      rewrite Em in En. destruct (mint_blob (fresh_state t)) as [[b st]|] eqn:Em'; [|apply mint_None in Em'; discriminate].
      injection En as <- <-. injection E as <- <-. cbn [set_state ws_state op_tokens app] in *.
      apply Forall_cons in Hf as [Ht _]. apply not_elem_of_cons in Hn1 as [Hne _].
      assert (t ∉ ts) as Hnt by (apply NoDup_cons in Hnd as [_ Hnd]; cbn in Hnd; by apply NoDup_cons in Hnd as [? _]).
      destruct (mint_spent _ (fun t => t ∈ ts) _ _ Em' (fresh_state_ok _ Ht) Hnt) as (H1 & H2 & H3 & H4). split_and!; [done|by rewrite H2| |cbn; lia|].
      * by intros b' ->%list_elem_of_singleton.
      * intros b' Hb'%(Hrot t _ eq_refl)%H4. split; [|apply Hb']. rewrite list_elem_of_singleton. apply Hb'.
  - injection E as <- <-. cbn [set_state ws_state]. split_and!; [by apply resolve_blob_ok| |by intros b ?%not_elem_of_nil|cbn; lia|].
    + unfold resolve_blob. by destruct (_ =? _).
    + intros b Hb. apply Hid in Hb as [_ Hb]. split; [apply not_elem_of_nil|]. unfold resolve_blob. by destruct (_ =? _).
  - injection E as <- <-. unfold heartbeat_tick, force_rotate. destruct answer as [[]|e].
    1, 3: split_and!; try done; [by intros b ?%not_elem_of_nil|cbn; lia].
    destruct register as [t|e]; cbn [fst record_heartbeat_ok set_state ws_state].
    + cbn [op_tokens app] in *. apply Forall_cons in Hf as [Ht _]. split_and!; [by apply fresh_state_ok| |by intros b ?%not_elem_of_nil|cbn; lia|].
      * apply NoDup_cons in Hnd as [_ Hnd]. cbn in Hnd. by apply NoDup_cons in Hnd as [? _].
      * intros b Hb%(Hrot t _ eq_refl). split; [apply not_elem_of_nil|done].
    + split_and!; [|done|by intros b ?%not_elem_of_nil|cbn; lia|].
      * destruct Hok as (H1 & H2 & H3). split_and!; [done..|]. cbn. intros q Hq. destruct (H3 q Hq) as [? Hq']. split; [done|]. right. split; [done|]. lia.
      * intros b Hb. apply Hid in Hb as [_ [_ Hb]]. split; [apply not_elem_of_nil|]. split; [by right|done].
Qed.

Lemma session_run_ok ops : forall s s' minted ts, session_run s ops = (s', minted) -> token_state_ok (ws_state s) ->
  Forall (fun t => is_u32 t) (ops ≫= op_tokens) -> NoDup (ts_token (ws_state s) :: (ops ≫= op_tokens) ++ ts) ->
  token_state_ok (ws_state s') /\ NoDup minted /\ (forall b, b ∈ minted -> spent_in (ws_state s') ts b)
  /\ forall b, spent_in (ws_state s) ((ops ≫= op_tokens) ++ ts) b -> (b ∉ minted) /\ spent_in (ws_state s') ts b.
Proof.
  induction ops as [|op ops IH]; intros s s' minted ts E Hok Hf Hnd; cbn [session_run] in E.
  { injection E as <- <-. split_and!; [done|constructor|by intros b ?%not_elem_of_nil|]. intros b Hb. by split; [apply not_elem_of_nil|]. }
  destruct (session_step s op) as [s1 m1] eqn:E1. destruct (session_run s1 ops) as [s2 m2] eqn:E2. injection E as <- <-.
  rewrite bind_cons in Hf, Hnd |- *. apply Forall_app in Hf as [Hf1 Hf2]. rewrite <- app_assoc in Hnd |- *.
  destruct (session_step_ok _ _ _ _ _ E1 Hok Hf1 Hnd) as (Hok1 & Hn1 & Hm1 & Hl1 & Hsp1).
  assert (NoDup (ts_token (ws_state s1) :: (ops ≫= op_tokens) ++ ts)) as Hnd1.
  { constructor; [done|]. apply NoDup_cons in Hnd as [_ Hnd]. by apply NoDup_app in Hnd as (_ & _ & Hnd). }
  destruct (IH _ _ _ ts E2 Hok1 Hf2 Hnd1) as (Hok2 & Hnd2 & Hm2 & Hsp2). split_and!; [done| | |].
  - apply NoDup_app. split_and!; [|intros b Hb; by apply Hsp2, Hm1|done].
    destruct m1 as [|b [|b' m1]]; [constructor|apply NoDup_singleton|cbn in Hl1; lia].
  - intros b [Hb|Hb]%elem_of_app; [by apply Hsp2, Hm1|by apply Hm2].
  - intros b [Hb1 Hb]%Hsp1. apply Hsp2 in Hb as [Hb2 Hb]. split; [|done]. by apply not_elem_of_app.
Qed.

(** C31: a writer session stays well formed and never repeats an id: over any run of
    mints, ends of puts and heartbeats, refused heartbeats and rotations included,
    if the driver hands out distinct 32-bit tokens, all ids minted are distinct (the
    32-bit sequence is never wrapped: its end forces a new token), token and cursor
    stay 32-bit values, and the watermark the session reports is at least -1, below
    the cursor and below every id of the current token still in flight. *)
Theorem writer_session_sound : forall register node_id stale_after now s ops s' minted,
  establish register node_id stale_after now = Ok s -> session_run s ops = (s', minted) ->
  Forall (fun t => is_u32 t) (ts_token (ws_state s) :: (ops ≫= op_tokens)) -> NoDup (ts_token (ws_state s) :: (ops ≫= op_tokens)) ->
  NoDup minted /\ token_state_ok (ws_state s')
  /\ -1 <= (commit_watermark (ws_state s')).2 < ts_next_seq (ws_state s')
  /\ forall q, q ∈ ts_in_flight (ws_state s') -> (commit_watermark (ws_state s')).2 < q.
Proof.
  intros register node_id stale_after now s ops s' minted Ee Er Hf Hnd. apply Forall_cons in Hf as [Ht Hf].
  destruct register as [t|e]; [|done]. injection Ee as <-. cbn [ws_state fresh_state ts_token] in *.
  destruct (session_run_ok ops _ _ _ [] Er) as (Hok & Hm & _); [by apply fresh_state_ok|done|by rewrite app_nil_r|].
  split_and!; [done|apply Hok..| | |intros q; apply commit_watermark_below].
  - destruct Hok as (_ & Hc & Hq). unfold commit_watermark. pose proof (least_spec (ts_in_flight (ws_state s'))) as H.
    destruct (least _) as [m|]; cbn; [destruct H as [H _]; apply Hq in H; lia|unfold uint in Hc; lia].
  - by apply commit_watermark_cursor.
Qed.

(** The token is refused by a heartbeat between two mints. *)
Definition ex_session_ops : list SessionOp :=
  [OpNext 1 (Err (CE_Internal "")); OpTick 2 (Ok false) (Ok 6); OpNext 3 (Err (CE_Internal ""));
   OpNext 4 (Err (CE_Internal "")); OpResolve (BlobId_new 6 0)].
Lemma writer_session_sound_witness : exists s s' minted,
  establish (Ok 5) 1 10000 0 = Ok s /\ session_run s ex_session_ops = (s', minted)
  /\ NoDup minted /\ len minted = 3 /\ (commit_watermark (ws_state s')).2 = 0.
Proof.
  destruct (establish (Ok 5) 1 10000 0) as [s|] eqn:Es; [|discriminate]. exists s.
  assert (len (session_run s ex_session_ops).2 = 3 /\ (commit_watermark (ws_state (session_run s ex_session_ops).1)).2 = 0) as [Hl Hw]
    by (injection Es as <-; split; vm_compute; reflexivity).
  destruct (session_run s ex_session_ops) as [s' minted] eqn:Er. exists s', minted. split; [done|]. split; [done|].
  split; [|by split]. apply (writer_session_sound (Ok 5) 1 10000 0 s ex_session_ops s' minted Es Er);
    injection Es as <-; apply (bool_decide_unpack _); vm_compute; exact I.
Defined.
