(* ===== verification/GcRound.v ===== *)
(** Garbage collection of blobs on a data node (epoch-worker: gc/mod.rs,
    subtask/mod.rs; epoch-node: roles/gc.rs): the orphan predicate, the pass over
    one extent and the round that assembles its inputs. *)

From S2P Require Import Prelude Ids Client EcPipeline.

(** ** The orphan predicate (gc/mod.rs) *)

Abbreviation LiveTokens := (gmap Z Z) (only parsing).

Definition is_orphan (blob : BlobId) (referenced : gset Z) (live : LiveTokens) : bool :=
  if bool_decide (blob ∈ referenced) then false
  else match live !! BlobId_writer_token blob with
       | Some watermark => BlobId_seq blob <=? watermark
       | None => true
       end.
Definition orphans (local : list BlobId) (referenced : gset Z) (live : LiveTokens) : list BlobId :=
  filter (fun blob => is_orphan blob referenced live = true) local.

(** ** One extent *)

(** The seam of a pass: the live blobs of an extent and their deletion. *)
Class GcBackend (D : Type) := {
  gb_list_live_blobs : D -> ExtentId -> result SubtaskError (list BlobId);
  gb_tombstone : D -> ExtentId -> BlobId -> D * result SubtaskError unit
}.

Section Round.
Context {D : Type} `{!GcBackend D}.

Fixpoint tombstone_all (d : D) (extent : ExtentId) (blobs : list BlobId) : D * result SubtaskError unit :=
  match blobs with
  | [] => (d, Ok tt)
  | blob :: blobs =>
      match gb_tombstone d extent blob with
      | (d, Err e) => (d, Err e)
      | (d, Ok _) => tombstone_all d extent blobs
      end
  end.
Definition GcSubtask_run (d : D) (extent : ExtentId) (referenced : gset Z) (live : LiveTokens) : D * result SubtaskError Z :=
  match gb_list_live_blobs d extent with
  | Err e => (d, Err e)
  | Ok local =>
      let os := orphans local referenced live in
      let count := len os in
      match tombstone_all d extent os with
      | (d, Err e) => (d, Err e)
      | (d, Ok _) => (d, Ok count)
      end
  end.

(** ** A round (roles/gc.rs) *)

Record LiveWriter : Set := { lw_writer_token : WriterToken; lw_commit_watermark : Z }.

Fixpoint collect_references (export_references : string -> Z -> result ClientError (option (list Z))) (views : list MetaPartitionView)
    (referenced : gset Z) : result SubtaskError (gset Z) :=
  match views with
  | [] => Ok referenced
  | view :: views =>
      if String.eqb (pv_leader_addr view) "" then Err (NotReady "partition has no leader yet")
      else match export_references (pv_leader_addr view) (pv_partition_id view) with
           | Err _ => Err (NotReady "export_references")
           | Ok None => Err (NotReady "partition leader moved")
           | Ok (Some ids) => collect_references export_references views (referenced ∪ list_to_set ids)
           end
  end.
Fixpoint sweep_extents (d : D) (extents : list ExtentId) (referenced : gset Z) (live : LiveTokens) (reclaimed : Z)
    : D * result SubtaskError Z :=
  match extents with
  | [] => (d, Ok reclaimed)
  | extent :: extents =>
      match GcSubtask_run d extent referenced live with
      | (d, Err e) => (d, Err e)
      | (d, Ok n) => sweep_extents d extents referenced live (reclaimed + n)
      end
  end.
Definition live_table (writers : list LiveWriter) : LiveTokens :=
  foldl (fun m w => <[lw_writer_token w := lw_commit_watermark w]> m) ∅ writers.
Definition run_gc_round (get_live_writers : result ClientError (list LiveWriter)) (list_partitions : result ClientError (list MetaPartitionView))
    (export_references : string -> Z -> result ClientError (option (list Z))) (list_extent_ids : D -> result EpochError (list ExtentId))
    (d : D) : D * result SubtaskError Z :=
  match get_live_writers with
  | Err _ => (d, Err (NotReady "get_live_writers"))
  | Ok writers =>
      let live := live_table writers in
      match list_partitions with
      | Err _ => (d, Err (NotReady "list_partitions"))
      | Ok partitions =>
          match collect_references export_references partitions ∅ with
          | Err e => (d, Err e)
          | Ok referenced =>
              match list_extent_ids d with
              | Err _ => (d, Err (Failed "list_extent_ids"))
              | Ok extents => sweep_extents d extents referenced live 0
              end
          end
      end
  end.
End Round.

(** ** What a pass relies on *)

(** The laws of a backend: a set of live blobs per extent, and the extent a delete
    lands on (the one the shard of the named extent is bound to). Listing returns the
    set; a delete that succeeds takes the blob from that extent and touches nothing
    else; one that fails changes nothing. Both may fail at any time. *)
Class GcLaws (D : Type) `{!GcBackend D} := {
  gl_ok : D -> Prop;
  gl_extent : ExtentId -> Prop;
  gl_blobs : D -> ExtentId -> gset Z;
  gl_target : D -> ExtentId -> ExtentId;
  gl_list d e l : gl_ok d -> gl_extent e -> gb_list_live_blobs d e = Ok l ->
    NoDup l /\ Forall is_u64 l /\ list_to_set l = gl_blobs d e;
  gl_tombstone d e b d' r : gl_ok d -> gl_extent e -> is_u64 b -> gb_tombstone d e b = (d', r) ->
    gl_ok d' /\ (forall e', gl_extent e' -> gl_target d' e' = gl_target d e')
    /\ forall e', gl_extent e' -> gl_blobs d' e' =
         match r with Ok _ => if decide (e' = gl_target d e) then gl_blobs d e' ∖ {[b]} else gl_blobs d e' | Err _ => gl_blobs d e' end
}.

(** A blob a round keeps: exported by some partition, or possibly still in flight. *)
Definition kept (referenced : gset Z) (live : LiveTokens) (b : BlobId) : Prop :=
  b ∈ referenced \/ exists w, live !! BlobId_writer_token b = Some w /\ w < BlobId_seq b.
#[export] Instance kept_dec referenced live b : Decision (kept referenced live b).
Proof.
  unfold kept. destruct (decide (b ∈ referenced)); [left; by left|]. destruct (live !! BlobId_writer_token b) as [w|].
  - destruct (decide (w < BlobId_seq b)); [left; right; eauto|right]. intros [?|(w' & [= <-] & ?)]; done.
  - right. intros [?|(w' & ? & _)]; done.
Defined.
Lemma is_orphan_kept b referenced live : is_orphan b referenced live = false <-> kept referenced live b.
Proof.
  unfold is_orphan, kept. case_bool_decide; [tauto|]. destruct (live !! BlobId_writer_token b) as [w|].
  - destruct (Z.leb_spec (BlobId_seq b) w).
    + split; [done|]. intros [?|(w' & [= <-] & ?)]; [done|lia].
    + split; [|done]. intros _. right. by exists w.
  - split; [done|]. by intros [?|(w' & ? & _)].
Qed.
Lemma elem_of_orphans b l referenced live : b ∈ orphans l referenced live <-> b ∈ l /\ ~ kept referenced live b.
Proof. unfold orphans. rewrite list_elem_of_filter, <- is_orphan_kept. destruct (is_orphan b referenced live); naive_solver. Qed.

(** What every partition's leader exported, if all of them answered as leader. *)
Definition exported (export : string -> Z -> result ClientError (option (list Z))) (views : list MetaPartitionView) : option (list Z) :=
  List.concat (A := Z) <$> mapM (fun v => if String.eqb (pv_leader_addr v) "" then None
                            else match export (pv_leader_addr v) (pv_partition_id v) with Ok r => r | Err _ => None end) views.
Lemma collect_references_exact export views : forall acc,
  match exported export views with
  | Some ids => collect_references export views acc = Ok (acc ∪ list_to_set ids)
  | None => exists e, collect_references export views acc = Err e
  end.
Proof.
  unfold exported. induction views as [|v views IH]; intros acc; cbn; [by rewrite (right_id_L ∅ (∪))|].
  destruct (String.eqb _ _); cbn; [eauto|]. destruct (export _ _) as [[ids|]|]; cbn; [|eauto..].
  specialize (IH (acc ∪ list_to_set ids)). destruct (mapM _ views) as [rest|]; cbn in *; [|done].
  rewrite IH, list_to_set_app_L, (assoc_L (∪)). done.
Qed.

Section Laws.
Context {D : Type} `{!GcBackend D, !GcLaws D}.
Implicit Types d : D.

(** Blobs are lost only on the targets of [es], and only blobs that [p] allows. *)
Definition trimmed (p : BlobId -> Prop) (es : list ExtentId) d d' : Prop :=
  gl_ok d' /\ (forall e, gl_extent e -> gl_target d' e = gl_target d e)
  /\ forall e, gl_extent e -> gl_blobs d' e ⊆ gl_blobs d e /\ forall b, b ∈ gl_blobs d e -> b ∉ gl_blobs d' e -> p b /\ exists e0, e0 ∈ es /\ gl_target d e0 = e.
Lemma trimmed_refl p es d : gl_ok d -> trimmed p es d d.
Proof. intros Hd. split_and!; [done..|]. intros e _. split; [done|]. by intros b ?. Qed.
Lemma trimmed_trans p es es' d d1 d' : Forall gl_extent es' -> trimmed p es d d1 -> trimmed p es' d1 d' -> trimmed p (es ++ es') d d'.
Proof.
  rewrite Forall_forall. intros Hex (_ & T1 & B1) (Hok & T2 & B2). split_and!; [done|intros e He; by rewrite T2, T1|]. intros e He. destruct (B1 e He) as [S1 L1], (B2 e He) as [S2 L2].
  split; [by etrans|]. intros b Hb Hn. destruct (decide (b ∈ gl_blobs d1 e)) as [Hb1|Hb1].
  - destruct (L2 b Hb1 Hn) as (Hp & e0 & He0 & <-). split; [done|]. exists e0. rewrite T1 by by apply Hex. split; [|done]. apply elem_of_app. by right.
  - destruct (L1 b Hb Hb1) as (Hp & e0 & He0 & <-). split; [done|]. exists e0. split; [|done]. apply elem_of_app. by left.
Qed.
(** A call of the backend that failed. *)
Definition failed (err : SubtaskError) (e : ExtentId) : Prop :=
  exists d, gl_ok d /\ (gb_list_live_blobs d e = Err err \/ exists b d', gb_tombstone d e b = (d', Err err)).

Lemma tombstone_all_spec e bs : gl_extent e -> Forall is_u64 bs -> forall d, gl_ok d ->
  let '(d', r) := tombstone_all d e bs in
  gl_ok d' /\ (forall e', gl_extent e' -> gl_target d' e' = gl_target d e')
  /\ (exists gone, gone ⊆ bs /\ forall e', gl_extent e' -> gl_blobs d' e' = if decide (e' = gl_target d e) then gl_blobs d e' ∖ list_to_set gone else gl_blobs d e')
  /\ match r with
     | Ok _ => forall e', gl_extent e' -> gl_blobs d' e' = if decide (e' = gl_target d e) then gl_blobs d e' ∖ list_to_set bs else gl_blobs d e'
     | Err err => failed err e
     end.
Proof.
  intros He Hbs. induction Hbs as [|b bs Hb _ IH]; intros d Hd; cbn [tombstone_all].
  { assert (forall e', gl_blobs d e' = if decide (e' = gl_target d e) then gl_blobs d e' ∖ list_to_set ([] : list Z) else gl_blobs d e') as Hn
      by (intros e'; case_decide; [by rewrite list_to_set_nil, difference_empty_L|done]).
    split_and!; [done..| |done]. exists []. split; [apply list_subseteq_nil|done]. }
  destruct (gb_tombstone d e b) as [d1 r1] eqn:Et. destruct (gl_tombstone d e b d1 r1 Hd He Hb Et) as (Hd1 & T1 & B1).
  destruct r1 as [[]|err].
  - specialize (IH d1 Hd1). destruct (tombstone_all d1 e bs) as [d' r]. destruct IH as (Hd' & T & (gone & Hg & B) & Hr).
    assert (forall e' (X : list Z), gl_extent e' ->
        (if decide (e' = gl_target d1 e) then gl_blobs d1 e' ∖ list_to_set X else gl_blobs d1 e')
        = if decide (e' = gl_target d e) then gl_blobs d e' ∖ list_to_set (b :: X) else gl_blobs d e') as Hstep.
    { intros e' X He'. rewrite (T1 e He), (B1 e' He'). case_decide; [|done]. rewrite list_to_set_cons, difference_difference_l_L. done. }
    split_and!; [done|intros e' He'; by rewrite T, T1| |].
    + exists (b :: gone). split; [by apply list_subseteq_skip|]. intros e' He'. by rewrite B, Hstep.
    + destruct r as [|err]; [|done]. intros e' He'. by rewrite Hr, Hstep.
  - split_and!; [done..| |exists d; split; [done|right; by eauto]]. exists []. split; [apply list_subseteq_nil|]. intros e' He'. rewrite (B1 e' He').
    case_decide; [by rewrite list_to_set_nil, difference_empty_L|done].
Qed.

Lemma size_shrink (X : gset Z) (os : list Z) : NoDup os -> list_to_set os ⊆ X -> Z.of_nat (size X) - Z.of_nat (size (X ∖ list_to_set os)) = len os.
Proof.
  intros Hn Hs. assert (size X = size (X ∖ list_to_set os) + length os)%nat as ->; [|unfold len; lia].
  rewrite <- (size_list_to_set (C := gset Z) os) by done. rewrite (union_difference_L (list_to_set os) X) at 1 by done.
  rewrite size_union by set_solver. lia.
Qed.
Lemma GcSubtask_run_spec e referenced live d : gl_extent e -> gl_ok d ->
  let '(d', r) := GcSubtask_run d e referenced live in
  trimmed (fun b => ~ kept referenced live b) [e] d d'
  /\ match r with
     | Ok n => gl_target d e = e -> (forall b, b ∈ gl_blobs d' e -> kept referenced live b)
                /\ n = Z.of_nat (size (gl_blobs d e)) - Z.of_nat (size (gl_blobs d' e))
     | Err err => failed err e
     end.
Proof.
  intros He Hd. unfold GcSubtask_run. destruct (gb_list_live_blobs d e) as [l|err] eqn:El.
  2:{ split; [by apply trimmed_refl|]. exists d. split; [done|by left]. }
  destruct (gl_list d e l Hd He El) as (Hnd & Hu & Hset). set (os := orphans l referenced live).
  assert (Forall is_u64 os) as Hos by (apply Forall_forall; intros b Hb; apply elem_of_orphans in Hb as [Hb _]; rewrite Forall_forall in Hu; by apply Hu).
  pose proof (tombstone_all_spec e os He Hos d Hd) as Hall. destruct (tombstone_all d e os) as [d' r]. destruct Hall as (Hd' & T & (gone & Hg & B) & Hr).
  assert (trimmed (fun b => ~ kept referenced live b) [e] d d') as Htr.
  { split_and!; [done..|]. intros e' He'. rewrite (B e' He'). case_decide as Heq; [|split; [done|by intros b ?]]. split; [set_solver|].
    intros b Hb Hn. assert (b ∈ gone) as Hin by (destruct (decide (b ∈ gone)); [done|destruct Hn; set_solver]).
    apply Hg, elem_of_orphans in Hin as [_ Hk]. split; [done|]. exists e. split; [by left|done]. }
  destruct r as [[]|err]; (split; [done|]); [|done]. intros Ht. pose proof (Hr e He) as Hb. rewrite decide_True in Hb by done. rewrite Hb. split.
  - intros b [Hin Hn]%elem_of_difference. destruct (decide (kept referenced live b)) as [|Hk]; [done|]. destruct Hn.
    apply elem_of_list_to_set, elem_of_orphans. split; [|done]. rewrite <- Hset in Hin. by apply elem_of_list_to_set in Hin.
  - symmetry. apply size_shrink; [by apply NoDup_filter|]. rewrite <- Hset. intros b [Hin _]%elem_of_list_to_set%elem_of_orphans. by apply elem_of_list_to_set.
Qed.

(** The live blobs some extents lost. *)
Definition lost d d' (es : list ExtentId) : Z := foldr (fun e n => Z.of_nat (size (gl_blobs d e)) - Z.of_nat (size (gl_blobs d' e)) + n) 0 es.
Lemma lost_ext d1 d1' d2 d2' es : (forall e, e ∈ es -> gl_blobs d1 e = gl_blobs d2 e /\ gl_blobs d1' e = gl_blobs d2' e) -> lost d1 d1' es = lost d2 d2' es.
Proof.
  induction es as [|e es IH]; intros Hs; [done|]. cbn [lost foldr]. destruct (Hs e) as [-> ->]; [by left|].
  fold (lost d1 d1' es) (lost d2 d2' es). rewrite IH; [done|]. intros e' He'. apply Hs. by right.
Qed.
(** An extent no target of the others keeps its blobs. *)
Lemma trimmed_frame p es d d' e : trimmed p es d d' -> gl_extent e -> (forall e0, e0 ∈ es -> gl_target d e0 <> e) -> gl_blobs d' e = gl_blobs d e.
Proof.
  intros (_ & _ & B) He Hn. destruct (B e He) as [Hs Hl]. apply set_eq. intros b. split; [by apply Hs|]. intros Hb.
  destruct (decide (b ∈ gl_blobs d' e)); [done|]. destruct (Hl b Hb) as (_ & e0 & He0 & Ht); [done|]. by destruct (Hn e0 He0).
Qed.
Lemma sweep_extents_spec referenced live es : Forall gl_extent es -> forall d n, gl_ok d ->
  let '(d', r) := sweep_extents d es referenced live n in
  trimmed (fun b => ~ kept referenced live b) es d d'
  /\ match r with
     | Ok m => (forall e b, e ∈ es -> gl_target d e = e -> b ∈ gl_blobs d' e -> kept referenced live b)
               /\ (NoDup es -> (forall e, e ∈ es -> gl_target d e = e) -> m = n + lost d d' es)
     | Err err => exists e, e ∈ es /\ failed err e
     end.
Proof.
  intros Hes. induction Hes as [|e es He Hes IH]; intros d n Hd; cbn [sweep_extents].
  { split; [by apply trimmed_refl|]. split; [by intros e b ?%not_elem_of_nil|]. intros _ _. cbn. lia. }
  pose proof (GcSubtask_run_spec e referenced live d He Hd) as Hrun. destruct (GcSubtask_run d e referenced live) as [d1 r1]. destruct Hrun as [Tr1 Hr1].
  destruct r1 as [k|err].
  2:{ split; [|exists e; split; [by left|done]]. exact (trimmed_trans _ [e] es d d1 d1 Hes Tr1 (trimmed_refl _ _ d1 (proj1 Tr1))). }
  pose proof Tr1 as (Hd1 & T1 & _). specialize (IH d1 (n + k) Hd1). destruct (sweep_extents d1 es referenced live (n + k)) as [d' r]. destruct IH as [Tr Hr].
  split; [exact (trimmed_trans _ [e] es d d1 d' Hes Tr1 Tr)|]. destruct r as [m|err]; [|destruct Hr as (e' & ? & ?); exists e'; split; [by right|done]].
  destruct Hr as [Hk Hm]. assert (forall e', e' ∈ es -> gl_extent e') as Hext by (rewrite Forall_forall in Hes; done). split.
  - intros e' b [->|Hin]%elem_of_cons Ht Hb; [|by apply (Hk e' b Hin); rewrite ?T1 by by apply Hext]. apply (proj1 (Hr1 Ht)).
    destruct Tr as (_ & _ & B). by apply (B e He).
  - intros [Hnin Hnd]%NoDup_cons Hself. assert (gl_target d e = e) as Ht by (apply Hself; by left). destruct (Hr1 Ht) as [_ ->].
    assert (forall e', e' ∈ es -> gl_target d e' = e') as Hself' by (intros e' He'; apply Hself; by right).
    rewrite Hm; [|done|intros e' He'; rewrite T1 by (by apply Hext); by apply Hself']. cbn [lost foldr].
    assert (gl_blobs d' e = gl_blobs d1 e) as ->.
    { apply (trimmed_frame _ es d1 d' e Tr He). intros e0 He0. rewrite T1, Hself' by (done || by apply Hext). congruence. }
    fold (lost d d' es). rewrite (lost_ext d1 d' d d' es); [lia|]. intros e' He'. split; [|done].
    apply (trimmed_frame _ [e] d d1 e' Tr1); [by apply Hext|]. intros e0 ->%list_elem_of_singleton. rewrite Ht. congruence.
Qed.
End Laws.

