(* ===== verification/GcEngine.v ===== *)
(** The storage engine as the backend of a garbage-collection round (epoch-node
    roles/gc.rs, EngineGcBackend): its listing and its delete satisfy the laws of
    GcRound, so the round's theorem holds of a data node. *)

From S2P Require Import Prelude Ids Crc Record ExtentFile Rocks MetaMerge StoreIndex IndexRefine StoreOps StoreProps Compaction DataNode Maintenance Client EcPipeline GcRound.

Section Engine.
Context `{!Crc32c} {RDB : RocksDb merge_meta}.
Implicit Types (n : DataNode) (a : AbsIndex).

#[export] Instance EngineGcBackend : GcBackend DataNode := {|
  gb_list_live_blobs n extent := map_err (fun _ => Failed "list_live_blobs") (node_list_live_blobs n extent).2;
  gb_tombstone n extent blob :=
    let '(n, r) := node_delete n extent blob in
    (n, match r with Ok _ => Ok tt | Err _ => Err (Failed "delete blob") end) |}.
Definition gc_round (writers : result ClientError (list LiveWriter)) (partitions : result ClientError (list MetaPartitionView))
    (export : string -> Z -> result ClientError (option (list Z))) n : DataNode * result SubtaskError Z :=
  run_gc_round writers partitions export (fun n => list_extent_ids (eg_index (dn_engine n))) n.

(** ** The laws *)

(** The index represents the maps [a], in which blobs belong to known extents. *)
Definition indexed n a : Prop := rep (eg_index (dn_engine n)) a /\ forall e b i, ai_blob a !! (e, b) = Some i -> is_Some (ai_meta a !! e).
Definition engine_blobs n (e : ExtentId) : gset Z := match gb_list_live_blobs n e with Ok l => list_to_set l | Err _ => ∅ end.
Definition engine_target n (e : ExtentId) : ExtentId :=
  match get_shard_binding (eg_index (dn_engine n)) (ExtentId_shard_id e) with Ok (Some t) => t | _ => e end.

Lemma engine_list n a e : indexed n a -> eid e -> exists l, gb_list_live_blobs n e = Ok l /\ NoDup l /\ Forall is_u64 l
  /\ forall b, b ∈ l <-> is_u64 b /\ exists i, ai_blob a !! (e, b) = Some i /\ is_tombstoned i = false.
Proof.
  intros [Hr _] He. destruct (list_blobs_rep _ a e Hr He) as (l & Hl & Hs & Hel). exists (live_of l).*1. cbn. rewrite Hl. cbn. split; [done|].
  assert (forall b, b ∈ (live_of l).*1 <-> is_u64 b /\ exists i, ai_blob a !! (e, b) = Some i /\ is_tombstoned i = false) as Hin.
  { intros b. rewrite list_elem_of_fmap. unfold live_of. split.
    - intros ([b' i] & -> & [Ht Hbi]%list_elem_of_filter). apply Hel in Hbi as [? ?]. cbn in *. split; [done|]. by exists i.
    - intros (Hu & i & Hi & Ht). exists (b, i). split; [done|]. apply list_elem_of_filter. split; [done|]. by apply Hel. }
  split_and!; [|apply Forall_forall; intros b Hb; by apply Hin in Hb as [? _]|done].
  assert (NoDup l.*1) as Hnd by (by apply sorted_lt_NoDup). clear -Hnd. induction l as [|[b i] l IH]; [constructor|]. cbn in Hnd. apply NoDup_cons in Hnd as [Hb Hnd].
  unfold live_of. rewrite filter_cons. case_decide; [|by apply IH]. cbn. constructor; [|by apply IH]. intros Hc. apply Hb.
  apply list_elem_of_fmap in Hc as (p & -> & [_ Hp]%list_elem_of_filter). by apply list_elem_of_fmap_2.
Qed.
Lemma engine_blobs_iff n a e b : indexed n a -> eid e ->
  b ∈ engine_blobs n e <-> is_u64 b /\ exists i, ai_blob a !! (e, b) = Some i /\ is_tombstoned i = false.
Proof. intros Hn He. unfold engine_blobs. destruct (engine_list n a e Hn He) as (l & -> & _ & _ & Hin). by rewrite elem_of_list_to_set. Qed.
Lemma engine_target_bound n a e : indexed n a -> eid e ->
  engine_target n e = default e (ai_bind a !! ShardId_shard_prefix (ExtentId_shard_id e)) /\ eid (engine_target n e).
Proof.
  intros [Hr _] He. unfold engine_target. rewrite (get_shard_binding_rep _ a) by (done || by apply ExtentId_shard_id_u64).
  destruct (ai_bind a !! _) as [t|] eqn:Et; [|done]. split; [done|]. cbn.
  pose proof (cr_cell _ _ Hr (KShard (ShardId_shard_prefix (ExtentId_shard_id e))) (ShardId_shard_prefix_u64 _ (ExtentId_shard_id_u64 e He))) as Hc.
  cbn in Hc. rewrite Et in Hc. by destruct Hc.
Qed.

(** A delete of the engine: it always succeeds, and takes the blob from the extent
    the shard is bound to. *)
Lemma engine_delete n a e b : indexed n a -> eid e -> is_u64 b ->
  exists n' a', gb_tombstone n e b = (n', Ok tt) /\ indexed n' a' /\ ai_bind a' = ai_bind a
    /\ forall e' b', ai_blob a' !! (e', b') = if decide ((e', b') = (engine_target n e, b)) then tomb <$> ai_blob a !! (e', b') else ai_blob a !! (e', b').
Proof.
  intros Hn He Hb. destruct (engine_target_bound n a e Hn He) as [Ht Hte]. destruct Hn as [Hr Hbl]. set (t := engine_target n e) in *.
  cbn [gb_tombstone EngineGcBackend]. unfold node_delete, run_blocking, delete_blocking.
  rewrite (get_shard_binding_rep _ a) by (done || by apply ExtentId_shard_id_u64). cbn [map_err]. rewrite <- Ht.
  assert (tombstone_blob (eg_index (dn_engine n)) t b = Ok (eg_index (dn_engine n), false) \/
          exists d' i, ai_blob a !! (t, b) = Some i /\ is_tombstoned i = false /\ tombstone_blob (eg_index (dn_engine n)) t b = Ok (d', true) /\ rep d' (abs_tombstone t b i a)) as Hcases.
  { destruct (ai_blob a !! (t, b)) as [i|] eqn:Ei; [|left; unfold tombstone_blob; rewrite (get_blob_rep _ a) by done; by rewrite Ei].
    destruct (Hbl _ _ _ Ei) as [m Hm]. pose proof (tombstone_blob_rep _ a t b m Hr Hte Hb Hm) as Hts. rewrite Ei in Hts.
    destruct (is_tombstoned i) eqn:Eti; [by left|]. destruct Hts as (d' & ? & ?). right. by exists d', i. }
  destruct Hcases as [E|(d' & i & Ei & Eti & E & Hr')]; rewrite E; cbn [map_err].
  - eexists _, a. split; [done|]. split_and!; [split; [done|]; done|done|]. intros e' b'. case_decide as Heq; [|done]. injection Heq as -> ->.
    assert (tombstone_blob (eg_index (dn_engine n)) t b = Ok (eg_index (dn_engine n), false)) as E' by done. unfold tombstone_blob in E'.
    rewrite (get_blob_rep _ a) in E' by done. destruct (ai_blob a !! (t, b)) as [i|]; [|done]. cbn. unfold tomb. by destruct (is_tombstoned i).
  - eexists _, (abs_tombstone t b i a). split; [done|]. split_and!; [split; [done|]|done|].
    + intros e' b' i' Hi'. cbn in Hi' |- *. rewrite lookup_alter_is_Some. apply lookup_insert_Some in Hi' as [[[= <- <-] _]|[_ Hi']]; by eapply Hbl.
    + intros e' b'. cbn. case_decide as Heq.
      * injection Heq as -> ->. rewrite lookup_insert_eq, Ei. cbn. unfold tomb. by rewrite Eti.
      * by rewrite lookup_insert_ne.
Qed.

#[export] Instance engine_gc_laws : GcLaws DataNode.
Proof.
  refine {| gl_ok n := exists a, indexed n a; gl_extent := eid; gl_blobs := engine_blobs; gl_target := engine_target |}.
  - intros n e l [a Hn] He Hl. destruct (engine_list n a e Hn He) as (l' & Hl' & Hnd & Hu & _). unfold engine_blobs. rewrite Hl in Hl' |- *.
    injection Hl' as <-. done.
  - intros n e b n' r [a Hn] He Hb Hd. destruct (engine_delete n a e b Hn He Hb) as (n1 & a' & Hd' & Hn' & Hbind & Hbl). rewrite Hd in Hd'.
    injection Hd' as -> ->. split_and!; [by exists a'|..].
    + intros e' He'. destruct (engine_target_bound n a e' Hn He') as [-> _], (engine_target_bound n1 a' e' Hn' He') as [-> _]. by rewrite Hbind.
    + intros e' He'. apply set_eq. intros x. rewrite (engine_blobs_iff n1 a') by done. case_decide as Heq.
      * rewrite elem_of_difference, elem_of_singleton, (engine_blobs_iff n a) by done. setoid_rewrite Hbl. subst e'.
        destruct (decide (x = b)) as [->|Hx]; [rewrite decide_True by done|rewrite decide_False by congruence; naive_solver].
        split; [|tauto]. intros (_ & i & Hi & Ht). destruct (ai_blob a !! (engine_target n e, b)) as [i0|]; [|done]. cbn in Hi. injection Hi as <-.
        by rewrite tomb_tombstoned in Ht.
      * rewrite (engine_blobs_iff n a) by done. setoid_rewrite Hbl. by rewrite decide_False by congruence.
Defined.
End Engine.

(** ** A backend of which some deletes fail *)

(** A backend with the blobs it cannot delete. *)
Section Faulty.
Context {D : Type} `{!GcBackend D, !GcLaws D}.
#[local] Instance faulty_backend : GcBackend (D * gset Z) := {|
  gb_list_live_blobs d e := gb_list_live_blobs d.1 e;
  gb_tombstone d e b := if decide (b ∈ d.2) then (d, Err (Failed "delete blob")) else let '(d', r) := gb_tombstone d.1 e b in ((d', d.2), r) |}.
#[local] Instance faulty_laws : GcLaws (D * gset Z).
Proof.
  refine {| gl_ok d := gl_ok d.1; gl_extent := gl_extent; gl_blobs d e := gl_blobs d.1 e; gl_target d e := gl_target d.1 e |}.
  - intros d e l. exact (gl_list (D := D) d.1 e l).
  - intros d e b d' r Hd He Hb Ht. cbn in Ht. case_decide; [injection Ht as <- <-; done|]. destruct (gb_tombstone d.1 e b) as [d1 r1] eqn:E. injection Ht as <- <-.
    exact (gl_tombstone (D := D) d.1 e b d1 r1 Hd He Hb E).
Defined.
End Faulty.

(** ** A run *)

#[local] Existing Instance cells_rocks.
#[local] Existing Instance castagnoli.
(** One extent with four blobs: of token 1 numbers 1, 2 and 9, of the dead token 2
    number 5. Number 1 is referenced and the watermark of token 1 is 2. *)
Definition ex_gc_extent : ExtentId := ExtentId_new 4294967297 99.
Definition ex_gc_blobs : list BlobId := [BlobId_new 1 1; BlobId_new 1 2; BlobId_new 1 9; BlobId_new 2 5].
Definition ex_gc_node : DataNode (RDB := cells_rocks merge_meta) :=
  {| dn_engine := {| eg_disk := {| dk_extents := ∅; dk_trash := ∅; dk_extent_size := 1000000 |};
                     eg_index := install_extent rdb_empty ex_gc_extent (fresh_meta 4294967297 99 ES_Writable) ((fun b => (b, BlobIndex_new 4096 3 7)) <$> ex_gc_blobs);
                     eg_open := ∅ |}; dn_broken := false |}.
Definition ex_writers : result ClientError (list LiveWriter) := Ok [{| lw_writer_token := 1; lw_commit_watermark := 2 |}].
Definition ex_views : result ClientError (list MetaPartitionView) :=
  Ok [{| pv_partition_id := 3; pv_ns := 0; pv_start_bucket := 0; pv_start_key := []; pv_start_unbounded := true; pv_end_bucket := 0; pv_end_key := [];
         pv_end_unbounded := true; pv_peers := [1]; pv_leader_node_id := 1; pv_leader_addr := "m1"; pv_epoch := 1 |}].
Definition ex_export (addr : string) (id : Z) : result ClientError (option (list Z)) := Ok (Some [BlobId_new 1 1]).

Lemma ex_gc_indexed : exists a, indexed ex_gc_node a.
Proof.
  eexists. split.
  - cbn [ex_gc_node dn_engine eg_index]. apply install_extent_rep; [apply rep_empty|by apply ExtentId_new_eid|done|].
    unfold ex_gc_blobs. repeat constructor; done.
  - intros e b i Hi. cbn in Hi. cbn. assert (e = ex_gc_extent) as ->; [|rewrite lookup_insert_eq; by eexists].
    repeat (apply lookup_insert_Some in Hi as [[[= <- _] _]|[_ Hi]]; [done|]). by rewrite lookup_empty in Hi.
Qed.
Lemma ex_gc_extents : forall es, list_extent_ids (eg_index (dn_engine ex_gc_node)) = Ok es -> NoDup es /\ Forall eid es.
Proof.
  destruct ex_gc_indexed as (a & Hr & _). intros es. unfold list_extent_ids. destruct (list_extents_rep _ a Hr) as (l & -> & Hnd & Hel). cbn. intros [= <-].
  split; [done|]. apply Forall_forall. intros e He. apply list_elem_of_fmap in He as ([e' m] & -> & Hin). by apply Hel in Hin as [? _].
Qed.
(** The delete of the dead token's blob fails: the round fails, having taken the other
    orphan and nothing else. *)
Example gc_round_interrupted :
  let '((n', _), r) := run_gc_round (GcBackend0 := faulty_backend) ex_writers ex_views ex_export (fun d => list_extent_ids (eg_index (dn_engine d.1))) (ex_gc_node, {[BlobId_new 2 5]}) in
  r = Err (Failed "delete blob")
  /\ (node_list_live_blobs ex_gc_node ex_gc_extent).2 = Ok ex_gc_blobs
  /\ (node_list_live_blobs n' ex_gc_extent).2 = Ok [BlobId_new 1 1; BlobId_new 1 9; BlobId_new 2 5].
Proof. vm_compute. split_and!; reflexivity. Qed.
