(* ===== verification/GcSystem.v ===== *)
(** Gateways, placement driver, metadata and a garbage-collection round as one
    transition system: writer sessions mint and resolve blob ids (WriterSession),
    the placement driver registers and retires tokens and records watermarks
    (PdJob, PdHeartbeat), and a round reads the live table, the exports and reclaims
    orphans (GcRound), with all steps interleaved. *)

From S2P Require Import Prelude Ids Rocks PdDb PdCluster PdJob PdHeartbeat Client WriterSession EcPipeline GcRound.

Section System.
Context {RDB : RocksDb no_merge} `{Serde WriterRecord}.
(** The partition whose export mentions a blob once it is referenced. *)
Context (part : BlobId -> Z) (partitions : list Z).
Hypothesis Hcover : forall b, part b ∈ partitions.

Inductive Round : Type :=
| Idle
| Running (live : gmap Z Z) (during : gset Z) (todo : list Z) (collected : gset Z).
(** [during] is a ghost: the blobs whose PUT overlaps the round, running when it
    read the live table or minted since. *)
Definition noted (bs : gset Z) (rd : Round) : Round :=
  match rd with Idle => Idle | Running live during todo col => Running live (bs ∪ during) todo col end.
Record Sys : Type := {
  sy_writers : WriterIndex;
  sy_tracker : HeartbeatTracker;
  sy_sessions : gmap Z TokenState;
  sy_msgs : list (NodeId * (WriterToken * Z));
  sy_puts : gset Z;       (* blobs of running PUTs *)
  sy_refs : gset Z;       (* blobs the metadata references *)
  sy_round : Round
}.
Definition round_table (writers : WriterIndex) (t : HeartbeatTracker) : gmap Z Z :=
  live_table ((fun e : WriterToken * NodeId * Z => {| lw_writer_token := e.1.1; lw_commit_watermark := e.2 |}) <$> live_writers_with_watermark writers t).

(** [step s l s'] with the label of a reclaimed blob. As in the code, a session mints
    whether or not the placement driver still has its token live (writer_token.rs),
    and any token may be retired at any time (writer/liveness.rs decides by the age
    of a heartbeat alone), its PUTs running or not. *)
Inductive step : Sys -> option BlobId -> Sys -> Prop :=
| s_register w t ss ms ps rs rd db batch batch' w' node token :
    WriterManager_apply_register db {| rw_node_id := node |} (batch, w) = ((batch', w'), Ok token) ->
    step {| sy_writers := w; sy_tracker := t; sy_sessions := ss; sy_msgs := ms; sy_puts := ps; sy_refs := rs; sy_round := rd |} None
         {| sy_writers := w'; sy_tracker := t; sy_sessions := <[node := fresh_state token]> ss; sy_msgs := ms; sy_puts := ps; sy_refs := rs; sy_round := rd |}
| s_mint w t ss ms ps rs rd node st blob st' :
    ss !! node = Some st -> mint_blob st = Some (blob, st') ->
    step {| sy_writers := w; sy_tracker := t; sy_sessions := ss; sy_msgs := ms; sy_puts := ps; sy_refs := rs; sy_round := rd |} None
         {| sy_writers := w; sy_tracker := t; sy_sessions := <[node := st']> ss; sy_msgs := ms; sy_puts := {[blob]} ∪ ps; sy_refs := rs; sy_round := noted {[blob]} rd |}
| s_commit w t ss ms ps rs rd blob : blob ∈ ps ->
    step {| sy_writers := w; sy_tracker := t; sy_sessions := ss; sy_msgs := ms; sy_puts := ps; sy_refs := rs; sy_round := rd |} None
         {| sy_writers := w; sy_tracker := t; sy_sessions := ss; sy_msgs := ms; sy_puts := ps ∖ {[blob]}; sy_refs := {[blob]} ∪ rs; sy_round := rd |}
| s_fail w t ss ms ps rs rd blob :
    step {| sy_writers := w; sy_tracker := t; sy_sessions := ss; sy_msgs := ms; sy_puts := ps; sy_refs := rs; sy_round := rd |} None
         {| sy_writers := w; sy_tracker := t; sy_sessions := ss; sy_msgs := ms; sy_puts := ps ∖ {[blob]}; sy_refs := rs; sy_round := rd |}
| s_resolve w t ss ms ps rs rd node st blob : ss !! node = Some st -> is_u64 blob -> blob ∉ ps ->
    step {| sy_writers := w; sy_tracker := t; sy_sessions := ss; sy_msgs := ms; sy_puts := ps; sy_refs := rs; sy_round := rd |} None
         {| sy_writers := w; sy_tracker := t; sy_sessions := <[node := resolve_blob st blob]> ss; sy_msgs := ms; sy_puts := ps; sy_refs := rs; sy_round := rd |}
| s_delete w t ss ms ps rs rd blob :
    step {| sy_writers := w; sy_tracker := t; sy_sessions := ss; sy_msgs := ms; sy_puts := ps; sy_refs := rs; sy_round := rd |} None
         {| sy_writers := w; sy_tracker := t; sy_sessions := ss; sy_msgs := ms; sy_puts := ps; sy_refs := rs ∖ {[blob]}; sy_round := rd |}
| s_send w t ss ms ps rs rd node st : ss !! node = Some st ->
    step {| sy_writers := w; sy_tracker := t; sy_sessions := ss; sy_msgs := ms; sy_puts := ps; sy_refs := rs; sy_round := rd |} None
         {| sy_writers := w; sy_tracker := t; sy_sessions := ss; sy_msgs := (node, commit_watermark st) :: ms; sy_puts := ps; sy_refs := rs; sy_round := rd |}
| s_deliver w t ss ms ps rs rd node token mark now : (node, (token, mark)) ∈ ms ->
    step {| sy_writers := w; sy_tracker := t; sy_sessions := ss; sy_msgs := ms; sy_puts := ps; sy_refs := rs; sy_round := rd |} None
         {| sy_writers := w; sy_tracker := (writer_heartbeat w t now node token mark).1; sy_sessions := ss; sy_msgs := ms; sy_puts := ps; sy_refs := rs; sy_round := rd |}
| s_fence w t ss ms ps rs rd node st : ss !! node = Some st ->
    step {| sy_writers := w; sy_tracker := t; sy_sessions := ss; sy_msgs := ms; sy_puts := ps; sy_refs := rs; sy_round := rd |} None
         {| sy_writers := w; sy_tracker := t; sy_sessions := <[node := {| ts_token := ts_token st; ts_next_seq := ts_next_seq st; ts_exhausted := true;
                                                                          ts_in_flight := ts_in_flight st |}]> ss;
            sy_msgs := ms; sy_puts := ps; sy_refs := rs; sy_round := rd |}
| s_new_leader w t ss ms ps rs rd :
    step {| sy_writers := w; sy_tracker := t; sy_sessions := ss; sy_msgs := ms; sy_puts := ps; sy_refs := rs; sy_round := rd |} None
         {| sy_writers := w; sy_tracker := HeartbeatTracker_new; sy_sessions := ss; sy_msgs := ms; sy_puts := ps; sy_refs := rs; sy_round := rd |}
| s_retire w t ss ms ps rs rd db batch batch' w' token r :
    WriterManager_apply_mark_dead db {| mwd_token := token |} (batch, w) = ((batch', w'), Ok r) ->
    step {| sy_writers := w; sy_tracker := t; sy_sessions := ss; sy_msgs := ms; sy_puts := ps; sy_refs := rs; sy_round := rd |} None
         {| sy_writers := w'; sy_tracker := t; sy_sessions := ss; sy_msgs := ms; sy_puts := ps; sy_refs := rs; sy_round := rd |}
| s_gc_live w t ss ms ps rs rd :
    step {| sy_writers := w; sy_tracker := t; sy_sessions := ss; sy_msgs := ms; sy_puts := ps; sy_refs := rs; sy_round := rd |} None
         {| sy_writers := w; sy_tracker := t; sy_sessions := ss; sy_msgs := ms; sy_puts := ps; sy_refs := rs;
            sy_round := Running (round_table w t) ps partitions ∅ |}
| s_gc_export w t ss ms ps rs live during p todo col :
    step {| sy_writers := w; sy_tracker := t; sy_sessions := ss; sy_msgs := ms; sy_puts := ps; sy_refs := rs; sy_round := Running live during (p :: todo) col |} None
         {| sy_writers := w; sy_tracker := t; sy_sessions := ss; sy_msgs := ms; sy_puts := ps; sy_refs := rs;
            sy_round := Running live during todo (col ∪ filter (fun b => part b = p) rs) |}
| s_gc_reclaim w t ss ms ps rs live during col blob : is_orphan blob col live = true ->
    step {| sy_writers := w; sy_tracker := t; sy_sessions := ss; sy_msgs := ms; sy_puts := ps; sy_refs := rs; sy_round := Running live during [] col |} (Some blob)
         {| sy_writers := w; sy_tracker := t; sy_sessions := ss; sy_msgs := ms; sy_puts := ps; sy_refs := rs; sy_round := Running live during [] col |}.

Definition sys_init : Sys :=
  {| sy_writers := WriterManager_new; sy_tracker := HeartbeatTracker_new; sy_sessions := ∅; sy_msgs := []; sy_puts := ∅; sy_refs := ∅; sy_round := Idle |}.
Inductive reachable : Sys -> Prop :=
| r_init : reachable sys_init
| r_step s l s' : reachable s -> step s l s' -> reachable s'.

(** ** The operations of the placement driver on the index *)

Lemma register_inv db cmd batch w batch' w' token : WriterManager_apply_register db cmd (batch, w) = ((batch', w'), Ok token) ->
  token = wi_next_id w /\ wi_next_id w' = token + 1 /\ token + 1 < 2 ^ 32
  /\ wi_writers w' = <[token := {| w_token := token; w_node_id := rw_node_id cmd; w_status := WS_Live |}]> (wi_writers w).
Proof.
  unfold WriterManager_apply_register, sbind, slift, sgets, smodify, sret. cbn. destruct (open_cf db WRITER_CF); [|done].
  destruct (advance_counter (wi_next_id w)) as [n|] eqn:Ea; [|done]. intros [= <- <- <-]. apply advance_counter_Ok in Ea as [-> Hlt]. cbn. done.
Qed.
Lemma mark_dead_inv db token batch w batch' w' r : WriterManager_apply_mark_dead db {| mwd_token := token |} (batch, w) = ((batch', w'), Ok r) ->
  wi_next_id w' = wi_next_id w
  /\ (w' = w \/ exists rec, wi_writers w !! token = Some rec
        /\ wi_writers w' = <[token := {| w_token := w_token rec; w_node_id := w_node_id rec; w_status := WS_Dead |}]> (wi_writers w)).
Proof.
  unfold WriterManager_apply_mark_dead, sbind, slift, sgets, smodify, sret. cbn. destruct (open_cf db WRITER_CF); [|done].
  destruct (wi_writers w !! token) as [rec|] eqn:Er; [|intros [= <- <- <-]; split; [done|by left]].
  destruct (decide (w_status rec = WS_Dead)); intros [= <- <- <-]; (split; [done|]); [by left|right; exists rec; done].
Qed.
Definition writers_ok (w : WriterIndex) : Prop :=
  1 <= wi_next_id w < 2 ^ 32 /\ forall t r, wi_writers w !! t = Some r -> w_token r = t /\ 1 <= t < wi_next_id w.
Lemma live_table_lookup ws t w : live_table ws !! t = Some w -> exists e, e ∈ ws /\ lw_writer_token e = t /\ lw_commit_watermark e = w.
Proof.
  unfold live_table. assert (forall m : gmap Z Z, foldl (fun m w => <[lw_writer_token w := lw_commit_watermark w]> m) m ws !! t = Some w ->
    m !! t = Some w \/ exists e, e ∈ ws /\ lw_writer_token e = t /\ lw_commit_watermark e = w) as Hg.
  { induction ws as [|e ws IH]; intros m Hm; [by left|]. cbn in Hm. destruct (IH _ Hm) as [Hi|(e' & ? & ?)]; [|right; exists e'; split; [by right|done]].
    apply lookup_insert_Some in Hi as [[Ht Hw]|[_ Hi]]; [right; exists e; split; [by left|done]|by left]. }
  intros Hm. destruct (Hg _ Hm) as [Hi|?]; [by rewrite lookup_empty in Hi|done].
Qed.
Lemma round_table_lookup w t token mark : writers_ok w -> round_table w t !! token = Some mark ->
  mark = tracker_watermark t token /\ token < wi_next_id w.
Proof.
  intros [_ Hw] (e & He & <- & <-)%live_table_lookup. apply list_elem_of_fmap in He as (p & -> & Hp). apply list_elem_of_fmap in Hp as (q & -> & Hq).
  apply list_elem_of_fmap in Hq as (r & -> & Hr). apply list_elem_of_filter in Hr as [_ Hr]. apply elem_of_values in Hr as [id Hid].
  destruct (Hw _ _ Hid) as [Ht Hlt]. cbn. split; [done|lia].
Qed.
(** ** The invariant *)

(** [mark] is a watermark of token [t] that covers no running PUT, now or later. *)
Definition bounded (s : Sys) (t mark : Z) : Prop :=
  t < wi_next_id (sy_writers s)
  /\ (forall b, b ∈ sy_puts s -> BlobId_writer_token b = t -> mark < BlobId_seq b)
  /\ (forall n st, sy_sessions s !! n = Some st -> ts_token st = t -> mark < ts_next_seq st).
Record sys_inv (s : Sys) : Prop := {
  si_writers : writers_ok (sy_writers s);
  si_sessions : forall n st, sy_sessions s !! n = Some st -> token_state_ok st /\ ts_token st < wi_next_id (sy_writers s);
  si_distinct : forall n n' st st', sy_sessions s !! n = Some st -> sy_sessions s !! n' = Some st' -> ts_token st = ts_token st' -> n = n';
  si_puts : forall b, b ∈ sy_puts s -> is_u64 b /\ BlobId_writer_token b < wi_next_id (sy_writers s);
  si_flight : forall b n st, b ∈ sy_puts s -> sy_sessions s !! n = Some st -> ts_token st = BlobId_writer_token b -> BlobId_seq b ∈ ts_in_flight st;
  si_msgs : forall n t mark, (n, (t, mark)) ∈ sy_msgs s -> bounded s t mark;
  si_tracker : forall t mark, ht_watermarks (sy_tracker s) !! t = Some mark -> bounded s t mark;
  si_round : match sy_round s with
    | Idle => True
    | Running live during todo col =>
        (forall t mark, live !! t = Some mark -> bounded s t mark)
        /\ sy_puts s ⊆ during
        /\ (forall b mark, b ∈ during -> live !! BlobId_writer_token b = Some mark -> mark < BlobId_seq b)
        /\ (forall b, b ∈ sy_refs s -> part b ∉ todo -> b ∈ col \/ b ∈ during)
    end
}.

Lemma blob_parts b : is_u64 b -> 0 <= BlobId_seq b /\ b = BlobId_writer_token b * 2 ^ 32 + BlobId_seq b.
Proof.
  unfold uint. intros Hb. unfold BlobId_seq, BlobId_writer_token, wrap. rewrite Z.shiftr_div_pow2 by lia. lia.
Qed.
Lemma bounded_neg s t mark : sys_inv s -> t < wi_next_id (sy_writers s) -> mark < 0 -> bounded s t mark.
Proof.
  intros I Ht Hm. split_and!; [done|..].
  - intros b Hb _. destruct (si_puts _ I b Hb) as [Hu _]. destruct (blob_parts b Hu). lia.
  - intros n st Hst _. destruct (si_sessions _ I n st Hst) as [(_ & Hn & _) _]. unfold uint in Hn. lia.
Qed.
(** Running PUTs and sessions of the next state extend those of this one only with
    tokens and sequence numbers above every recorded watermark. *)
Lemma bounded_mono s s' t mark : bounded s t mark ->
  wi_next_id (sy_writers s) <= wi_next_id (sy_writers s') ->
  (forall b, b ∈ sy_puts s' -> b ∈ sy_puts s \/ exists n st, sy_sessions s !! n = Some st /\ BlobId_writer_token b = ts_token st /\ BlobId_seq b = ts_next_seq st) ->
  (forall n st', sy_sessions s' !! n = Some st' -> wi_next_id (sy_writers s) <= ts_token st'
     \/ exists st, sy_sessions s !! n = Some st /\ ts_token st' = ts_token st /\ ts_next_seq st <= ts_next_seq st') ->
  bounded s' t mark.
Proof.
  intros (Ht & Hp & Hs) Hn Hp' Hs'. split_and!; [lia|..].
  - intros b Hb Hbt. destruct (Hp' b Hb) as [Hb'|(n & st & Hst & Htok & ->)]; [by apply Hp|]. apply (Hs n st Hst). congruence.
  - intros n st' Hst' Htok. destruct (Hs' n st' Hst') as [Hge|(st & Hst & Heq & Hle)]; [lia|]. specialize (Hs n st Hst). lia.
Qed.

Lemma noted_none rd : noted ∅ rd = rd.
Proof. destruct rd as [|live during todo col]; [done|]. cbn. by rewrite (left_id_L ∅ (∪)). Qed.
(** What a step has to show, given that recorded watermarks stay bounded; [new] are
    the blobs it mints. *)
Lemma inv_step new s s' : sys_inv s -> (forall t mark, bounded s t mark -> bounded s' t mark) ->
  writers_ok (sy_writers s') -> wi_next_id (sy_writers s) <= wi_next_id (sy_writers s') ->
  (forall n st, sy_sessions s' !! n = Some st -> token_state_ok st /\ ts_token st < wi_next_id (sy_writers s')) ->
  (forall n n' st st', sy_sessions s' !! n = Some st -> sy_sessions s' !! n' = Some st' -> ts_token st = ts_token st' -> n = n') ->
  (forall b, b ∈ sy_puts s' -> b ∈ sy_puts s \/ b ∈ new) -> (forall b, b ∈ new -> b ∈ sy_puts s' /\ is_u64 b /\ BlobId_writer_token b < wi_next_id (sy_writers s')) ->
  (forall b n st, b ∈ sy_puts s' -> sy_sessions s' !! n = Some st -> ts_token st = BlobId_writer_token b -> BlobId_seq b ∈ ts_in_flight st) ->
  sy_msgs s' = sy_msgs s -> sy_tracker s' = sy_tracker s -> sy_round s' = noted new (sy_round s) ->
  (forall b, b ∈ sy_refs s' -> b ∈ sy_refs s \/ b ∈ sy_puts s) -> sys_inv s'.
Proof.
  intros I Hm Hw Hn Hs Hd Hp Hnew Hf Ems Etr Erd Hr. split; try done.
  - intros b [Hb|Hb]%Hp; [|by apply Hnew]. destruct (si_puts _ I b Hb). split; [done|lia].
  - rewrite Ems. intros n t mark Hin. by eapply Hm, si_msgs.
  - rewrite Etr. intros t mark Hin. by eapply Hm, si_tracker.
  - rewrite Erd. pose proof (si_round _ I) as Hrd. destruct (sy_round s) as [|live during todo col]; [done|]. cbn.
    destruct Hrd as (Hb & Hsub & Hlt & Hc). split_and!; [by eauto|intros b [Hb'|Hb']%Hp; [by apply elem_of_union_r, Hsub|by apply elem_of_union_l]|..].
    + intros b mark [Hin|Hin]%elem_of_union Hmark; [|by eapply Hlt]. apply (Hm _ _ (Hb _ _ Hmark)); [by apply Hnew|done].
    + intros b Hb' Htodo. destruct (Hr b Hb') as [Hold|Hput]; [|right; by apply elem_of_union_r, Hsub].
      destruct (Hc b Hold Htodo); [by left|right; by apply elem_of_union_r].
Qed.

Lemma inv_register s db batch batch' w' node token : sys_inv s ->
  WriterManager_apply_register db {| rw_node_id := node |} (batch, sy_writers s) = ((batch', w'), Ok token) ->
  sys_inv {| sy_writers := w'; sy_tracker := sy_tracker s; sy_sessions := <[node := fresh_state token]> (sy_sessions s); sy_msgs := sy_msgs s;
             sy_puts := sy_puts s; sy_refs := sy_refs s; sy_round := sy_round s |}.
Proof.
  intros I (-> & Hn & Hlt & Hw)%register_inv. destruct (si_writers _ I) as [Hr Hwr]. set (nid := wi_next_id (sy_writers s)) in *.
  assert (forall n st, <[node := fresh_state nid]> (sy_sessions s) !! n = Some st ->
    st = fresh_state nid /\ n = node \/ n <> node /\ sy_sessions s !! n = Some st) as Hsess.
  { intros n st Hst. apply lookup_insert_Some in Hst as [[<- <-]|[Hne Hst]]; [by left|right; done]. }
  assert (forall t r, t <> nid -> wi_writers w' !! t = Some r <-> wi_writers (sy_writers s) !! t = Some r) as Hold by (intros t r Hne; by rewrite Hw, lookup_insert_ne).
  assert (forall b, b ∈ sy_puts s -> BlobId_writer_token b < nid) as Hpt.
  { intros b Hb. by apply (si_puts _ I b Hb). }
  eapply (inv_step ∅ s); rewrite ?noted_none; try done; cbn.
  - intros t mark Hb. eapply bounded_mono; [done|cbn; lia|by left|]. cbn. intros n st Hst. destruct (Hsess n st Hst) as [[-> ->]|[_ Hst']]; [left; cbn; unfold nid; lia|].
    right. exists st. split_and!; done || lia.
  - split; [lia|]. intros t r Ht. destruct (decide (t = nid)) as [->|Hne].
    + rewrite Hw, lookup_insert_eq in Ht. injection Ht as <-. cbn. lia.
    + apply Hold in Ht; [|done]. destruct (Hwr _ _ Ht). lia.
  - lia.
  - intros n st Hst. destruct (Hsess n st Hst) as [[-> ->]|[_ Hst']].
    + split; [apply fresh_state_ok; unfold uint, nid; lia|cbn; lia].
    + destruct (si_sessions _ I n st Hst'). split; [done|]. unfold nid in *. lia.
  - intros n n' st st' H1 H2 E. destruct (Hsess _ _ H1) as [[-> ->]|[_ H1']], (Hsess _ _ H2) as [[-> ->]|[_ H2']]; [done|..].
    + destruct (si_sessions _ I n' st' H2'). cbn in E. unfold nid in *. lia.
    + destruct (si_sessions _ I n st H1'). cbn in E. unfold nid in *. lia.
    + by eapply si_distinct.
  - by left.
  - intros b n st Hb Hst Htok. specialize (Hpt b Hb). destruct (Hsess _ _ Hst) as [[-> ->]|[_ Hst']]; [cbn in Htok; lia|]. by eapply si_flight.
  - by left.
Qed.

Lemma inv_mint s node st blob st' : sys_inv s -> sy_sessions s !! node = Some st -> mint_blob st = Some (blob, st') ->
  sys_inv {| sy_writers := sy_writers s; sy_tracker := sy_tracker s; sy_sessions := <[node := st']> (sy_sessions s); sy_msgs := sy_msgs s;
             sy_puts := {[blob]} ∪ sy_puts s; sy_refs := sy_refs s; sy_round := noted {[blob]} (sy_round s) |}.
Proof.
  intros I Hst Hmint. destruct (si_sessions _ I _ _ Hst) as [Hok Htn].
  destruct (mint_spec _ _ _ Hmint Hok) as (Hb & Hbt & Hbs & Hok' & Htok & Hfl & Hnext & _).
  assert (forall n x, <[node := st']> (sy_sessions s) !! n = Some x -> x = st' /\ n = node \/ n <> node /\ sy_sessions s !! n = Some x) as Hsess.
  { intros n x Hx. apply lookup_insert_Some in Hx as [[<- <-]|[Hne Hx]]; [by left|right; done]. }
  eapply (inv_step {[blob]} s); try done; cbn; [|apply I|..].
  - intros t mark Hbd. eapply bounded_mono; [done|cbn; lia|..]; cbn.
    + intros b Hin. apply elem_of_union in Hin as [Hin%elem_of_singleton|Hin]; [subst b|by left]. right. by exists node, st.
    + intros n x Hx. right. destruct (Hsess n x Hx) as [[-> ->]|[_ Hx']]; [exists st|exists x]; split_and!; done || lia.
  - intros n x Hx. destruct (Hsess n x Hx) as [[-> ->]|[_ Hx']]; [by rewrite Htok|by eapply si_sessions].
  - intros n n' x x' H1 H2 E. destruct (Hsess _ _ H1) as [[-> ->]|[Hne H1']], (Hsess _ _ H2) as [[-> ->]|[Hne' H2']]; [done|..|by eapply si_distinct].
    + rewrite Htok in E. by eapply si_distinct.
    + rewrite Htok in E. by eapply si_distinct.
  - intros b [Hin|Hin]%elem_of_union; [by right|by left].
  - intros b ->%elem_of_singleton. rewrite Hbt. split_and!; [by apply elem_of_union_l, elem_of_singleton| |done]. rewrite Hb, BlobId_new_val by apply Hok. destruct Hok as (? & ? & _). unfold uint in *. lia.
  - intros b n x Hin Hx Heq. apply elem_of_union in Hin as [Hin%elem_of_singleton|Hin].
    + subst b. rewrite Hbt in Heq. assert (n = node) as ->.
      { destruct (Hsess _ _ Hx) as [[-> ->]|[_ Hx']]; [done|by eapply si_distinct]. }
      destruct (Hsess _ _ Hx) as [[-> _]|[Hne _]]; [|done]. rewrite Hfl, Hbs. set_solver.
    + destruct (Hsess _ _ Hx) as [[-> ->]|[_ Hx']]; [|by eapply si_flight]. rewrite Hfl. apply elem_of_union_r. eapply si_flight; [done..|]. congruence.
  - by left.
Qed.

(** PUTs end and references come from PUTs or go away. *)
Lemma inv_shrink s ps rs : sys_inv s -> ps ⊆ sy_puts s -> rs ⊆ sy_refs s ∪ sy_puts s ->
  sys_inv {| sy_writers := sy_writers s; sy_tracker := sy_tracker s; sy_sessions := sy_sessions s; sy_msgs := sy_msgs s;
             sy_puts := ps; sy_refs := rs; sy_round := sy_round s |}.
Proof.
  intros I Hp Hr. eapply (inv_step ∅ s); rewrite ?noted_none; try done; cbn; try apply I.
  - intros t mark Hb. eapply bounded_mono; [done|cbn; lia|cbn; intros b Hin; left; by apply Hp|]. cbn. intros n st Hst. right. by exists st.
  - intros b Hb. left. by apply Hp.
  - intros b n st Hb. apply I. by apply Hp.
  - intros b Hb. apply Hr, elem_of_union in Hb. done.
Qed.
(** A session whose in-flight set loses only what no running PUT needs. *)
Lemma inv_session s node st st' : sys_inv s -> sy_sessions s !! node = Some st -> token_state_ok st' -> ts_token st' = ts_token st ->
  ts_next_seq st' = ts_next_seq st ->
  (forall b, b ∈ sy_puts s -> BlobId_writer_token b = ts_token st -> BlobId_seq b ∈ ts_in_flight st -> BlobId_seq b ∈ ts_in_flight st') ->
  sys_inv {| sy_writers := sy_writers s; sy_tracker := sy_tracker s; sy_sessions := <[node := st']> (sy_sessions s); sy_msgs := sy_msgs s;
             sy_puts := sy_puts s; sy_refs := sy_refs s; sy_round := sy_round s |}.
Proof.
  intros I Hst Hok Htok Hseq Hfl.
  assert (forall n x, <[node := st']> (sy_sessions s) !! n = Some x -> exists y, sy_sessions s !! n = Some y /\ ts_token x = ts_token y
            /\ ts_next_seq x = ts_next_seq y /\ (token_state_ok y -> token_state_ok x) /\ (x = y \/ (x = st' /\ y = st))) as Hs.
  { intros n x Hx. apply lookup_insert_Some in Hx as [[<- <-]|[Hne Hx]]; [exists st|exists x]; split_and!; auto. }
  eapply (inv_step ∅ s); rewrite ?noted_none; try done; cbn; try apply I.
  - intros t mark Hb. eapply bounded_mono; [done|cbn; lia|by left|]. cbn. intros n x Hx. right. destruct (Hs n x Hx) as (y & Hy & Ht & Hn & _). exists y. split_and!; done || lia.
  - intros n x Hx. destruct (Hs n x Hx) as (y & Hy & Ht & _ & Ho & _). destruct (si_sessions _ I n y Hy). rewrite Ht. auto.
  - intros n n' x x' H1 H2 E. destruct (Hs _ _ H1) as (y & Hy & Ht & _), (Hs _ _ H2) as (y' & Hy' & Ht' & _). eapply si_distinct; [done..|congruence].
  - by left.
  - intros b n x Hb Hx E. destruct (Hs _ _ Hx) as (y & Hy & Ht & _ & _ & [->|[-> ->]]); [by eapply si_flight|].
    apply Hfl; [done|congruence|]. eapply si_flight; [done..|congruence].
  - by left.
Qed.
Lemma inv_resolve s node st blob : sys_inv s -> sy_sessions s !! node = Some st -> is_u64 blob -> blob ∉ sy_puts s ->
  sys_inv {| sy_writers := sy_writers s; sy_tracker := sy_tracker s; sy_sessions := <[node := resolve_blob st blob]> (sy_sessions s);
             sy_msgs := sy_msgs s; sy_puts := sy_puts s; sy_refs := sy_refs s; sy_round := sy_round s |}.
Proof.
  intros I Hst Hu Hb. destruct (si_sessions _ I _ _ Hst) as [Hok _].
  apply (inv_session s node st); try done; [by apply resolve_blob_ok|unfold resolve_blob; by destruct (_ =? _)..|].
  intros b Hin Ht Hfl. unfold resolve_blob. destruct (Z.eqb_spec (BlobId_writer_token blob) (ts_token st)) as [E|]; [|done]. cbn.
  apply elem_of_difference. split; [done|]. intros Hs%elem_of_singleton. destruct Hb.
  destruct (si_puts _ I b Hin) as [Hub _]. destruct (blob_parts _ Hu) as [_ ->], (blob_parts _ Hub) as [_ Eb]. rewrite E, <- Hs, <- Ht, <- Eb. done.
Qed.
Lemma inv_retire s db batch batch' w' token r : sys_inv s ->
  WriterManager_apply_mark_dead db {| mwd_token := token |} (batch, sy_writers s) = ((batch', w'), Ok r) ->
  sys_inv {| sy_writers := w'; sy_tracker := sy_tracker s; sy_sessions := sy_sessions s; sy_msgs := sy_msgs s;
             sy_puts := sy_puts s; sy_refs := sy_refs s; sy_round := sy_round s |}.
Proof.
  intros I (Hn & [->|(rec & Hrec & Hw)])%mark_dead_inv; [by destruct s|]. destruct (si_writers _ I) as [Hr Hwr].
  eapply (inv_step ∅ s); rewrite ?noted_none; try done; cbn; rewrite ?Hn; try apply I; try done.
  - intros t mark Hb. eapply bounded_mono; [done|cbn; lia|by left|]. cbn. intros n st Hst. right. by exists st.
  - split; [lia|]. rewrite Hw, Hn. intros t x Hx. apply lookup_insert_Some in Hx as [[<- <-]|[_ Hx]]; [cbn; by apply Hwr|by apply Hwr].
  - by left.
  - by left.
Qed.

Lemma inv_step_all s l s' : sys_inv s -> step s l s' -> sys_inv s'.
Proof.
  intros I Hstep. destruct Hstep as [ | | | | | | w t ss ms ps rs rd node st Hst | w t ss ms ps rs rd node token mark now Hin | |w t ss ms ps rs rd
    | | w t ss ms ps rs rd | w t ss ms ps rs live during p todo col | ].
  - by eapply (inv_register _ _ _ _ _ _ _ I).
  - by eapply (inv_mint _ _ _ _ _ I).
  - eapply (inv_shrink _ _ _ I); set_solver.
  - eapply (inv_shrink _ _ _ I); set_solver.
  - by eapply (inv_resolve _ _ _ _ I).
  - eapply (inv_shrink _ _ _ I); set_solver.
  - destruct I. split; try done. cbn in *. intros n t' mark [E|Hin]%elem_of_cons; [|by eapply si_msgs0].
    destruct (si_sessions0 _ _ Hst) as [Hok Ht]. unfold commit_watermark in E. injection E as -> -> ->. split_and!; [done|..]; cbn.
    + intros b Hb E. apply (commit_watermark_below st). by eapply si_flight0.
    + intros n' st' Hst' E. assert (n' = node) as -> by by eapply si_distinct0. assert (st' = st) as -> by congruence. by apply (commit_watermark_cursor st).
  - pose proof (si_msgs _ I _ _ _ Hin) as Hb. assert (bounded {| sy_writers := w; sy_tracker := t; sy_sessions := ss; sy_msgs := ms; sy_puts := ps; sy_refs := rs; sy_round := rd |} token I64_MIN)
      as Hmin by (apply bounded_neg; [done|apply Hb|done]). destruct I. split; try done. cbn in *.
    intros t' m Hm. destruct (decide (t' = token)) as [->|Hne]; [|rewrite lookup_insert_ne in Hm by done; by apply si_tracker0].
    rewrite lookup_insert_eq in Hm. injection Hm as <-. destruct (ht_watermarks t !! token) as [m|] eqn:Em; cbn.
    + destruct (Z.ltb_spec m mark); [done|by apply si_tracker0].
    + destruct (Z.ltb_spec I64_MIN mark); done.
  - match goal with Hst : _ !! _ = Some ?st |- _ => destruct (si_sessions _ I _ _ Hst) as [(? & ? & Hf) _];
      eapply (inv_session _ _ st _ I); try done end.
    split_and!; [done..|]. cbn. intros q Hq. destruct (Hf q Hq). lia.
  - destruct I. by split.
  - by eapply (inv_retire _ _ _ _ _ _ _ I).
  - pose proof I as I0. destruct I. split; try done. cbn in *. split_and!.
    + intros t' m Hm. destruct (round_table_lookup _ _ _ _ si_writers0 Hm) as [-> Hlt]. unfold tracker_watermark.
      destruct (ht_watermarks t !! t') as [m|] eqn:Em; cbn; [by apply si_tracker0|]. exact (bounded_neg _ t' (-1) I0 Hlt ltac:(lia)).
    + done.
    + intros b m Hb Hm. destruct (round_table_lookup _ _ _ _ si_writers0 Hm) as [-> Hlt]. unfold tracker_watermark.
      destruct (ht_watermarks t !! BlobId_writer_token b) as [m|] eqn:Em; cbn; [by apply (si_tracker0 _ _ Em)|].
      destruct (blob_parts b) as [? _]; [by apply si_puts0|lia].
    + intros b _ Hn. by destruct (Hn (Hcover b)).
  - destruct I. split; try done. cbn in *. destruct si_round0 as (Hb & Hl & Hk & Hc). split_and!; try done.
    intros b Hin Hn. destruct (decide (part b = p)) as [E|Hne]; [left; apply elem_of_union_r, elem_of_filter; done|].
    destruct (Hc b Hin) as [?|?]; [by apply not_elem_of_cons|left; by apply elem_of_union_l|by right].
  - done.
Qed.

Lemma reachable_inv s : reachable s -> sys_inv s.
Proof.
  induction 1 as [|s l s' _ IH Hs]; [|by eapply inv_step_all].
  split; try done; cbn.
  - intros n t mark Hin. by apply not_elem_of_nil in Hin.
Qed.
End System.


(** *** Runs *)

Definition ex_wdb : gmap string (@rdb no_merge _) := {[WRITER_CF := rdb_empty]}.
Definition ex_part (b : BlobId) : Z := 0.
Lemma ex_cover b : ex_part b ∈ [0].
Proof. by left. Qed.
(** Node 9 registers token 1 and puts a blob; with [done_] the PUT is committed,
    resolved and reported, and the object deleted again. *)
Definition ex_w1 : WriterIndex :=
  {| wi_writers := {[1 := {| w_token := 1; w_node_id := 9; w_status := WS_Live |}]}; wi_next_id := 2 |}.
Definition ex_blob : BlobId := BlobId_new 1 0.
Definition ex_minted : TokenState := {| ts_token := 1; ts_next_seq := 1; ts_exhausted := false; ts_in_flight := {[0]} ∪ ∅ |}.

Lemma ex_registered rd : step ex_part [0] {| sy_writers := WriterManager_new; sy_tracker := HeartbeatTracker_new; sy_sessions := ∅; sy_msgs := [];
    sy_puts := ∅; sy_refs := ∅; sy_round := rd |} None
  {| sy_writers := ex_w1; sy_tracker := HeartbeatTracker_new; sy_sessions := <[9 := fresh_state 1]> ∅; sy_msgs := []; sy_puts := ∅; sy_refs := ∅; sy_round := rd |}.
Proof. eapply (s_register _ _ _ _ _ _ _ _ _ ex_wdb []). vm_compute. reflexivity. Qed.
Lemma ex_put rd : step ex_part [0] {| sy_writers := ex_w1; sy_tracker := HeartbeatTracker_new; sy_sessions := <[9 := fresh_state 1]> ∅; sy_msgs := [];
    sy_puts := ∅; sy_refs := ∅; sy_round := rd |} None
  {| sy_writers := ex_w1; sy_tracker := HeartbeatTracker_new; sy_sessions := <[9 := ex_minted]> (<[9 := fresh_state 1]> ∅); sy_msgs := [];
     sy_puts := {[ex_blob]} ∪ ∅; sy_refs := ∅; sy_round := noted {[ex_blob]} rd |}.
Proof. eapply s_mint; [apply lookup_insert_eq|reflexivity]. Qed.


(** A token registered after the round read the live table counts as dead: the blob
    of a running PUT is reclaimed, and committed afterwards. *)
Lemma new_token_reclaimed : exists s s' s'', reachable ex_part [0] s /\ step ex_part [0] s (Some ex_blob) s'
  /\ ex_blob ∈ sy_puts s /\ step ex_part [0] s' None s'' /\ ex_blob ∈ sy_refs s''.
Proof.
  eassert (reachable ex_part [0] _) as H1 by (eapply r_step; [apply r_init|eapply s_gc_live]).
  eassert (reachable ex_part [0] _) as H2 by (eapply r_step; [exact H1|apply ex_registered]).
  eassert (reachable ex_part [0] _) as H3 by (eapply r_step; [exact H2|apply ex_put]).
  eassert (reachable ex_part [0] _) as H4 by (eapply r_step; [exact H3|eapply s_gc_export]).
  match type of H4 with reachable _ _ ?s => assert (step ex_part [0] s (Some ex_blob) s) as Hs by (eapply s_gc_reclaim; vm_compute; reflexivity) end.
  eexists _, _, _. split; [exact H4|]. split; [exact Hs|]. split; [cbn; set_solver|].
  split; [eapply (s_commit _ _ _ _ _ _ _ _ _ ex_blob); set_solver|cbn; set_solver].
Qed.

(** A token retired while a PUT of it runs, which takes no more than a heartbeat
    that is late: the round reclaims the blob and the PUT commits afterwards. *)
Definition ex_w2 : WriterIndex :=
  {| wi_writers := {[1 := {| w_token := 1; w_node_id := 9; w_status := WS_Dead |}]}; wi_next_id := 2 |}.
Lemma retired_put_reclaimed : exists s s' s'', reachable ex_part [0] s /\ step ex_part [0] s (Some ex_blob) s'
  /\ ex_blob ∈ sy_puts s /\ step ex_part [0] s' None s'' /\ ex_blob ∈ sy_refs s''.
Proof.
  eassert (reachable ex_part [0] _) as H1 by (eapply r_step; [apply r_init|apply (ex_registered Idle)]).
  eassert (reachable ex_part [0] _) as H2 by (eapply r_step; [exact H1|apply ex_put]).
  eassert (reachable ex_part [0] _) as H3 by (eapply r_step; [exact H2|eapply (s_retire _ _ _ _ _ _ _ _ _ ex_wdb [] _ ex_w2 1); vm_compute; reflexivity]).
  eassert (reachable ex_part [0] _) as H4 by (eapply r_step; [exact H3|eapply s_gc_live]).
  eassert (reachable ex_part [0] _) as H5 by (eapply r_step; [exact H4|eapply s_gc_export]).
  match type of H5 with reachable _ _ ?s => assert (step ex_part [0] s (Some ex_blob) s) as Hs by (eapply s_gc_reclaim; vm_compute; reflexivity) end.
  eexists _, _, _. split; [exact H5|]. split; [exact Hs|]. split; [cbn; set_solver|].
  split; [eapply (s_commit _ _ _ _ _ _ _ _ _ ex_blob); set_solver|cbn; set_solver].
Qed.
