(* ===== verification/Gateway.v ===== *)
(** Objects through the gateway (epoch-gateway: code.rs, range.rs, slices.rs, put.rs,
    get.rs, gateway.rs, admission.rs): layouts, ranges, quorum writes with rewrite
    to other chunks, and reads with heal reports. What the cluster answers is the
    record [GwWorld]; the shard bodies on the data nodes are the [Plane]. *)

From S2P Require Import Prelude Ids EcLayout Bitrot Erasure EcPipeline Client WriterSession.

(** ** Layouts (code.rs) *)

Record ChunkPlacement : Set := { cp_chunk_id : ChunkId; cp_shards : list (ShardId * NodeId) }.
Record BlobDesc : Set := { bd_blob_id : BlobId; bd_len : Z; bd_chunk : ChunkPlacement }.
Record ObjectLayout : Set := { ol_size : Z; ol_code : GwCodeMode; ol_blobs : list BlobDesc }.

(** ** Ranges (range.rs) *)

Record ByteRange : Set := { br_start : Z; br_end : Z }.
Definition byte_count (r : ByteRange) : Z := br_end r - br_start r + 1.
Inductive RangeError : Set := Unsatisfiable.
Definition resolve (size first : Z) (last : option Z) (suffix : bool) : result RangeError ByteRange :=
  if size =? 0 then Err Unsatisfiable
  else
    let final_byte := size - 1 in
    if suffix then
      if first =? 0 then Err Unsatisfiable
      else Ok {| br_start := saturating_sub size first; br_end := final_byte |}
    else if final_byte <? first then Err Unsatisfiable
    else
      let end_ := match last with None => final_byte | Some l => Z.min l final_byte end in
      if end_ <? first then Err Unsatisfiable else Ok {| br_start := first; br_end := end_ |}.

Record RangePlan : Set := { rp_blobs : list BlobDesc; rp_skip : Z; rp_take : Z }.
(** The loop over the blobs: the chosen ones, the offset reached and the skip. *)
Fixpoint range_plan_loop (range : ByteRange) (blobs : list BlobDesc) (offset : Z) (chosen : list BlobDesc) (skip : option Z)
    : list BlobDesc * Z * option Z :=
  match blobs with
  | [] => (chosen, offset, skip)
  | blob :: blobs =>
      let blob_end := offset + bd_len blob in
      let '(chosen, skip) :=
        if (br_start range <? blob_end) && (offset <=? br_end range)
        then (chosen ++ [blob], match skip with None => Some (br_start range - offset) | Some _ => skip end)
        else (chosen, skip) in
      let offset := blob_end in
      if br_end range <? offset then (chosen, offset, skip) else range_plan_loop range blobs offset chosen skip
  end.
Definition plan (layout : ObjectLayout) (range : ByteRange) : option RangePlan :=
  let '(blobs, offset, skip) := range_plan_loop range (ol_blobs layout) 0 [] None in
  if bool_decide (blobs = []) || (offset <=? br_end range) then None
  else skip ← skip; Some {| rp_blobs := blobs; rp_skip := skip; rp_take := byte_count range |}.

(** ** Slices (slices.rs) *)

Definition layout_to_slices (layout : ObjectLayout) : list SliceRef :=
  (fun blob => {| slr_chunk_id := cp_chunk_id (bd_chunk blob); slr_blob_ids := [bd_blob_id blob]; slr_blob_size := wrap 32 (bd_len blob) |})
    <$> ol_blobs layout.

(** ** Admission (admission.rs) *)

Definition UNIT_BYTES : Z := 65536.
Definition Admission_units (pool_bytes : Z) : Z := Z.max (div_ceil pool_bytes UNIT_BYTES) 1.
(** The permits a request takes, or its refusal. *)
Definition admission_want {RS : ReedSolomon} (total_units bytes : Z) : result GatewayError Z :=
  let units := Z.max (div_ceil bytes UNIT_BYTES) 1 in
  let want := if units <=? U32_MAX then units else U32_MAX in
  if total_units <? units then Err (GE_AdmissionTooLarge bytes (total_units * UNIT_BYTES)) else Ok want.

(** Node, shard and blob to the shard's body. *)
Abbreviation Plane := (gmap (Z * Z * Z) (list Z)) (only parsing).

Section Gateway.
Context `{RS : ReedSolomon} `{B3 : Blake3} {SocketAddr : Set} (parse_addr : string -> option SocketAddr).

(** ** Placements (gateway.rs, slices.rs) *)

(** [ShardId::new] panics on an epoch above 24 bits: [None]. *)
Definition shard_of (chunk_id : ChunkId) (s : @ResolvedShard SocketAddr) : option (ShardId * NodeId) :=
  id ← ShardId_new chunk_id (rsd_index s) (rsd_epoch s); Some (id, rsd_node_id s).
Definition placement_of (w : @WritableChunk SocketAddr) : option ChunkPlacement :=
  shards ← mapM (shard_of (wc_chunk_id w)) (cs_shards (wc_slots w)); Some {| cp_chunk_id := wc_chunk_id w; cp_shards := shards |}.

Definition resolve_placement (w : PdAnswers) (now : Z) (m : ChunkMap) (chunk_id : ChunkId) (total : Z)
    : ChunkMap * result GatewayError ChunkPlacement :=
  let '(m, r) := ChunkMap_get parse_addr w now m chunk_id in
  (m, match r with
      | Err _ => Err (GE_Pd "chunk")
      | Ok slots =>
          if negb (len (cs_shards slots) =? total) then Err (GE_Pd "chunk resolved to other shards than expected")
          else ok_or (placement_of {| wc_chunk_id := chunk_id; wc_slots := slots |}) GE_Panic
      end).
Fixpoint resolve_slices (w : PdAnswers) (now : Z) (total : Z) (slices : list SliceRef) (m : ChunkMap) : ChunkMap * result GatewayError (list BlobDesc) :=
  match slices with
  | [] => (m, Ok [])
  | slice :: slices =>
      match slr_blob_ids slice with
      | [blob_raw] =>
          match resolve_placement w now m (slr_chunk_id slice) total with
          | (m, Err e) => (m, Err e)
          | (m, Ok placement) =>
              let '(m, r) := resolve_slices w now total slices m in
              (m, blobs <-? r ;; Ok ({| bd_blob_id := blob_raw; bd_len := slr_blob_size slice; bd_chunk := placement |} :: blobs))
          end
      | _ => (m, Err (GE_Writer "slice references other than one blob"))
      end
  end.
Definition slices_to_layout (w : PdAnswers) (now : Z) (slices : list SliceRef) (code : GwCodeMode) (size : Z) (m : ChunkMap)
    : ChunkMap * result GatewayError ObjectLayout :=
  let '(m, r) := resolve_slices w now (gm_total code) slices m in
  (m, blobs <-? r ;; Ok {| ol_size := size; ol_code := code; ol_blobs := blobs |}).

(** ** Writing a blob (put.rs) *)

(** A finished shard write: committed, refused, or a task that did not finish. *)
Inductive ShardOutcome : Set := SO_Ok | SO_Err (e : EpochError) | SO_Join.
(** One attempt: the completions in their order, and the shards that are on their
    node in the end (a detached or failed write may land too). *)
Record Attempt : Set := { at_events : list (nat * ShardOutcome); at_landed : list nat }.

Fixpoint join_loop (quorum committed : Z) (errors : list EpochError) (events : list (nat * ShardOutcome)) : Z * list EpochError :=
  match events with
  | [] => (committed, errors)
  | (_, o) :: events =>
      let '(committed, errors) :=
        match o with SO_Ok => (committed + 1, errors) | SO_Err e => (committed, errors ++ [e]) | SO_Join => (committed, errors) end in
      if quorum <=? committed then (committed, errors) else join_loop quorum committed errors events
  end.
(** The frames a shard stream sends. *)
Fixpoint shard_frames (body : list Z) (off : Z) (frame_lens : list Z) : list (list Z) :=
  match frame_lens with [] => [] | flen :: rest => slice off flen body :: shard_frames body (off + flen) rest end.

(** The body a shard stream carries. *)
Definition sent_body (frame_lens body : list Z) : list Z := mjoin (shard_frames body 0 frame_lens).

(** The landed bodies on the nodes of the placement. *)
Definition land_one (chunk : ChunkPlacement) (blob_id : BlobId) (bodies : list (list Z)) (plane : Plane) (j : nat) : Plane :=
  match cp_shards chunk !! j, bodies !! j with
  | Some (shard, node), Some body => <[(node, shard, blob_id) := body]> plane
  | _, _ => plane
  end.
Definition land (chunk : ChunkPlacement) (blob_id : BlobId) (bodies : list (list Z)) (landed : list nat) (plane : Plane) : Plane :=
  foldl (land_one chunk blob_id bodies) plane landed.
Definition gw_write_blob (code : GwCodeMode) (chunk : ChunkPlacement) (ec : Erasure) (blob_id : BlobId) (slice : list Z) (a : Attempt)
    (plane : Plane) : Plane * result GatewayError (Z * list EpochError) :=
  match encode_blob ec (gm_stripe_size code) slice with
  | Err e => (plane, Err e)
  | Ok bodies =>
      let frame_lens := stripe_frame_lens (len slice) (gm_stripe_size code) (gm_data code) in
      (land chunk blob_id (sent_body frame_lens <$> bodies) (at_landed a) plane,
       Ok (join_loop (write_quorum code) 0 [] (at_events a)))
  end.

(** ** A writer with a token of its own (put.rs) *)

(** [next_seq] wraps, as [AtomicU32::fetch_add] does. *)
Record Writer : Set := { wr_token : WriterToken; wr_next_seq : Z }.
Definition Writer_new (token : WriterToken) : Writer := {| wr_token := token; wr_next_seq := 0 |}.
Definition Writer_next_blob (w : Writer) : Writer * BlobId :=
  ({| wr_token := wr_token w; wr_next_seq := wrap 32 (wr_next_seq w + 1) |}, BlobId_new (wr_token w) (wr_next_seq w)).
(** [attempt k]: what the [k]-th blob's shard writes come to. *)
Fixpoint Writer_put_loop (fuel : nat) (attempt : nat -> Attempt) (code : GwCodeMode) (chunk : ChunkPlacement) (ec : Erasure) (quorum : Z)
    (data : list Z) (offset : Z) (blobs : list BlobDesc) (w : Writer) (plane : Plane) : Writer * Plane * result GatewayError (list BlobDesc) :=
  if offset <? len data then
    match fuel with
    | O => (w, plane, Err GE_Panic)
    | S fuel =>
        let end_ := Z.min (offset + gm_blob_size code) (len data) in
        let piece := slice offset (end_ - offset) data in
        let '(w, blob_id) := Writer_next_blob w in
        match gw_write_blob code chunk ec blob_id piece (attempt (length blobs)) plane with
        | (plane, Err e) => (w, plane, Err e)
        | (plane, Ok (committed, _)) =>
            if committed <? quorum then (w, plane, Err (GE_QuorumNotMet quorum committed))
            else Writer_put_loop fuel attempt code chunk ec quorum data end_
                   (blobs ++ [{| bd_blob_id := blob_id; bd_len := len piece; bd_chunk := chunk |}]) w plane
        end
    end
  else (w, plane, Ok blobs).
Definition Writer_put_object (attempt : nat -> Attempt) (code : GwCodeMode) (chunk : ChunkPlacement) (data : list Z) (w : Writer) (plane : Plane)
    : Writer * Plane * result GatewayError ObjectLayout :=
  match gm_erasure code with
  | Err e => (w, plane, Err e)
  | Ok ec =>
      let total := gm_total code in
      if negb (len (cp_shards chunk) =? total) then (w, plane, Err (GE_ShardCount total (len (cp_shards chunk))))
      else
        let '(w, plane, r) := Writer_put_loop (length data) attempt code chunk ec (write_quorum code) data 0 [] w plane in
        (w, plane, blobs <-? r ;; Ok {| ol_size := len data; ol_code := code; ol_blobs := blobs |})
  end.

(** ** Writing an object (gateway.rs) *)

Record GwWorld : Type := {
  wd_pd : nat -> PdAnswers;
  wd_now : nat -> Z;
  wd_register : nat -> nat -> result ClientError WriterToken;
  wd_attempt : nat -> Attempt
}.
Record Gw : Type := { gw_session : WriterSession; gw_set : @WritableSet SocketAddr; gw_plane : Plane; gw_step : nat }.
Record GwConfig : Set := { gc_code : GwCodeMode; gc_local_node : NodeId }.
Definition MAX_BLOB_ATTEMPTS : nat := 3.

Definition evict_chunk (g : Gw) (c : ChunkId) : Gw :=
  {| gw_session := gw_session g; gw_set := WritableSet_evict (gw_set g) c; gw_plane := gw_plane g; gw_step := gw_step g |}.
Fixpoint write_attempts (fuel : nat) (w : GwWorld) (cfg : GwConfig) (ec : Erasure) (blob_id : BlobId) (slice : list Z) (quorum : Z)
    (last_committed : Z) (last_out_of_space : bool) (g : Gw) : Gw * result GatewayError ChunkPlacement :=
  match fuel with
  | O => (g, if last_out_of_space then Err GE_OutOfSpace else Err (GE_QuorumNotMet quorum last_committed))
  | S fuel =>
      let k := gw_step g in
      let '(set', picked) := pick parse_addr (wd_pd w k) (wd_now w k) (Some (gc_local_node cfg)) (gw_set g) in
      let g := {| gw_session := gw_session g; gw_set := set'; gw_plane := gw_plane g; gw_step := S k |} in
      match picked with
      | None => (g, Err GE_NoWritableChunk)
      | Some writable =>
          match placement_of writable with
          | None => (g, Err GE_Panic)
          | Some placement =>
              if negb (len (cp_shards placement) =? gm_total (gc_code cfg))
              then write_attempts fuel w cfg ec blob_id slice quorum last_committed last_out_of_space (evict_chunk g (wc_chunk_id writable))
              else
                let '(plane, r) := gw_write_blob (gc_code cfg) placement ec blob_id slice (wd_attempt w k) (gw_plane g) in
                let g := {| gw_session := gw_session g; gw_set := gw_set g; gw_plane := plane; gw_step := gw_step g |} in
                match r with
                | Err e => (g, Err e)
                | Ok (committed, errors) =>
                    if quorum <=? committed then (g, Ok placement)
                    else write_attempts fuel w cfg ec blob_id slice quorum committed (bool_decide (EE_OutOfSpace ∈ errors))
                           (evict_chunk g (wc_chunk_id writable))
                end
          end
      end
  end.
Definition write_blob_with_rewrite (w : GwWorld) (cfg : GwConfig) (ec : Erasure) (blob_id : BlobId) (slice : list Z) (quorum : Z) (g : Gw)
    : Gw * result GatewayError ChunkPlacement :=
  write_attempts MAX_BLOB_ATTEMPTS w cfg ec blob_id slice quorum 0 false g.

Definition gw_next_blob_id (w : GwWorld) (g : Gw) : Gw * result GatewayError BlobId :=
  match next_blob_id (wd_register w (gw_step g)) (wd_now w (gw_step g)) (gw_session g) with
  | Some (s, r) =>
      ({| gw_session := s; gw_set := gw_set g; gw_plane := gw_plane g; gw_step := S (gw_step g) |},
       match r with Ok b => Ok b | Err _ => Err (GE_Writer "next_blob_id") end)
  | None => (g, Err GE_Panic)
  end.
(** [while offset < data.len()]; a blob is at least one byte, so the data's length
    is fuel enough. *)
Fixpoint put_loop (fuel : nat) (w : GwWorld) (cfg : GwConfig) (ec : Erasure) (quorum : Z) (data : list Z) (offset : Z) (blobs : list BlobDesc) (g : Gw)
    : Gw * result GatewayError (list BlobDesc) :=
  if offset <? len data then
    match fuel with
    | O => (g, Err GE_Panic)
    | S fuel =>
        let end_ := Z.min (offset + gm_blob_size (gc_code cfg)) (len data) in
        let piece := slice offset (end_ - offset) data in
        match gw_next_blob_id w g with
        | (g, Err e) => (g, Err e)
        | (g, Ok blob_id) =>
            match write_blob_with_rewrite w cfg ec blob_id piece quorum g with
            | (g, Err e) => (g, Err e)
            | (g, Ok placement) =>
                put_loop fuel w cfg ec quorum data end_ (blobs ++ [{| bd_blob_id := blob_id; bd_len := len piece; bd_chunk := placement |}]) g
            end
        end
    end
  else (g, Ok blobs).
Definition put_object (w : GwWorld) (cfg : GwConfig) (data : list Z) (g : Gw) : Gw * result GatewayError ObjectLayout :=
  match gm_erasure (gc_code cfg) with
  | Err e => (g, Err e)
  | Ok ec =>
      let '(g, r) := put_loop (length data) w cfg ec (write_quorum (gc_code cfg)) data 0 [] g in
      (g, blobs <-? r ;; Ok {| ol_size := len data; ol_code := gc_code cfg; ol_blobs := blobs |})
  end.
Definition resolve_layout (layout : ObjectLayout) (st : TokenState) : TokenState :=
  foldl resolve_blob st (bd_blob_id <$> ol_blobs layout).

(** ** Reading an object (get.rs) *)

Record HealReport : Set := { hrp_chunk_id : ChunkId; hrp_index : Z }.
Record ReadObject : Set := { ro_bytes : list Z; ro_heals : list HealReport }.
(** The order of the [BTreeSet] of heals. *)
Definition heal_le (a b : Z * Z) : Prop := a.1 < b.1 \/ (a.1 = b.1 /\ a.2 <= b.2).
#[export] Instance heal_le_dec : RelDecision heal_le.
Proof. intros a b. unfold heal_le. apply _. Defined.
Definition heal_reports (heals : gset (Z * Z)) : list HealReport :=
  (fun h : Z * Z => {| hrp_chunk_id := h.1; hrp_index := h.2 |}) <$> merge_sort heal_le (elements heals).
(** [read node shard blob]: a failed read counts as missing. *)
Definition read_blob_shards (read : NodeId -> ShardId -> BlobId -> option (list Z)) (chunk : ChunkPlacement) (blob_id : BlobId) : list (option (list Z)) :=
  (fun s : ShardId * NodeId => read s.2 s.1 blob_id) <$> cp_shards chunk.
Fixpoint get_loop (read : NodeId -> ShardId -> BlobId -> option (list Z)) (code : GwCodeMode) (ec : Erasure) (blobs : list BlobDesc)
    (out : list Z) (heals : gset (Z * Z)) : result GatewayError (list Z * gset (Z * Z)) :=
  match blobs with
  | [] => Ok (out, heals)
  | blob :: blobs =>
      if negb (len (cp_shards (bd_chunk blob)) =? gm_total code) then Err (GE_ShardCount (gm_total code) (len (cp_shards (bd_chunk blob))))
      else
        let slots := read_blob_shards read (bd_chunk blob) (bd_blob_id blob) in
        decoded <-? decode_blob ec (gm_stripe_size code) (bd_len blob) slots ;;
        get_loop read code ec blobs (out ++ db_bytes decoded)
          (heals ∪ list_to_set ((fun j => (cp_chunk_id (bd_chunk blob), wrap 8 j)) <$> db_healed decoded))
  end.
Definition get_object (read : NodeId -> ShardId -> BlobId -> option (list Z)) (layout : ObjectLayout) : result GatewayError ReadObject :=
  ec <-? gm_erasure (ol_code layout) ;;
  r <-? get_loop read (ol_code layout) ec (ol_blobs layout) [] ∅ ;;
  let '(out, heals) := r in
  if negb (len out =? ol_size layout) then Err (GE_LengthMismatch (ol_size layout) (len out))
  else Ok {| ro_bytes := out; ro_heals := heal_reports heals |}.

(** ** Fetching an object (object.rs) *)

Record RangeSpec : Set := { rsp_first : Z; rsp_last : option Z; rsp_suffix : bool }.
(** A window of an object read through its layout: the heal reports, and the bytes. *)
Definition read_window (read : NodeId -> ShardId -> BlobId -> option (list Z)) (layout : ObjectLayout) (window : option ByteRange)
    : list HealReport * result GatewayError (list Z) :=
  match window with
  | None => match get_object read layout with Err e => ([], Err e) | Ok r => (ro_heals r, Ok (ro_bytes r)) end
  | Some win =>
      match plan layout win with
      | None => ([], Err (GE_RangeNotSatisfiable (ol_size layout)))
      | Some p =>
          let narrowed := {| ol_size := foldr Z.add 0 (bd_len <$> rp_blobs p); ol_code := ol_code layout; ol_blobs := rp_blobs p |} in
          match get_object read narrowed with
          | Err e => ([], Err e)
          | Ok r => (ro_heals r, ok_or (get_range (rp_skip p) (rp_skip p + rp_take p) (ro_bytes r)) (GE_RangeNotSatisfiable (ol_size layout)))
          end
      end
  end.
Definition resolve_window (size : Z) (want : option RangeSpec) : result GatewayError (option ByteRange) :=
  match want with
  | None => Ok None
  | Some spec =>
      match resolve size (rsp_first spec) (rsp_last spec) (rsp_suffix spec) with
      | Ok win => Ok (Some win)
      | Err _ => Err (GE_RangeNotSatisfiable size)
      end
  end.
End Gateway.
