(* ===== verification/GatewayProps.v ===== *)
(** Objects through the gateway: a (ranged) read returns exactly the wanted bytes, and
    a put whose answer is a success is readable after the losses the code tolerates. *)

From S2P Require Import Prelude Ids EcLayout Bitrot Erasure EcPipeline Client WriterSession Gateway.

(** ** Ranges *)

Definition sum_len (bs : list BlobDesc) : Z := foldr Z.add 0 (bd_len <$> bs).
Lemma sum_len_app l1 l2 : sum_len (l1 ++ l2) = sum_len l1 + sum_len l2.
Proof. unfold sum_len. induction l1 as [|b l1 IH]; [done|]. rewrite <- app_comm_cons, !fmap_cons. cbn. lia. Qed.
Lemma sum_len_cons b l : sum_len (b :: l) = bd_len b + sum_len l.
Proof. done. Qed.
Lemma sum_len_nonneg l : Forall (fun b => 0 <= bd_len b) l -> 0 <= sum_len l.
Proof. induction 1; [done|]. rewrite sum_len_cons. lia. Qed.

(** Past the first chosen blob, blobs are taken until the range ends. *)
Lemma plan_taking range blobs : forall offset chosen skip, Forall (fun b => 0 <= bd_len b) blobs ->
  br_start range < offset <= br_end range -> br_end range < offset + sum_len blobs ->
  exists l2 l3, blobs = l2 ++ l3 /\ range_plan_loop range blobs offset chosen (Some skip) = (chosen ++ l2, offset + sum_len l2, Some skip)
    /\ br_end range < offset + sum_len l2.
Proof.
  induction blobs as [|b blobs IH]; intros offset chosen skip Hf Ho He; [change (sum_len []) with 0 in He; lia|].
  apply Forall_cons in Hf as [Hb Hf]. rewrite sum_len_cons in He. cbn [range_plan_loop].
  rewrite (proj2 (Z.ltb_lt _ _)), (proj2 (Z.leb_le _ _)) by lia. cbn [andb].
  destruct (Z.ltb_spec (br_end range) (offset + bd_len b)).
  - exists [b], blobs. rewrite sum_len_cons. change (sum_len []) with 0. split_and!; [done| |lia]. by rewrite Z.add_0_r.
  - destruct (IH (offset + bd_len b) (chosen ++ [b]) skip Hf) as (l2 & l3 & -> & -> & Hl); [lia..|].
    exists (b :: l2), l3. rewrite <- app_assoc, sum_len_cons. split_and!; [done| |lia]. by rewrite Z.add_assoc.
Qed.
Lemma plan_from range blobs : forall offset, Forall (fun b => 0 <= bd_len b) blobs ->
  offset <= br_start range <= br_end range -> br_end range < offset + sum_len blobs ->
  exists l1 l2 l3, blobs = l1 ++ l2 ++ l3 /\ l2 <> []
    /\ range_plan_loop range blobs offset [] None = (l2, offset + sum_len (l1 ++ l2), Some (br_start range - (offset + sum_len l1)))
    /\ offset + sum_len l1 <= br_start range /\ br_end range < offset + sum_len (l1 ++ l2).
Proof.
  induction blobs as [|b blobs IH]; intros offset Hf Ho He; [change (sum_len []) with 0 in He; lia|].
  apply Forall_cons in Hf as [Hb Hf]. rewrite sum_len_cons in He. cbn [range_plan_loop].
  rewrite (proj2 (Z.leb_le _ _)) by lia. rewrite andb_true_r.
  destruct (Z.ltb_spec (br_start range) (offset + bd_len b)).
  - destruct (Z.ltb_spec (br_end range) (offset + bd_len b)).
    + exists [], [b], blobs. cbn [app]. rewrite sum_len_cons. change (sum_len []) with 0. rewrite !Z.add_0_r. split_and!; done || lia.
    + destruct (plan_taking range blobs (offset + bd_len b) ([] ++ [b]) (br_start range - offset) Hf) as (l2 & l3 & -> & -> & Hl); [lia..|].
      exists [], (b :: l2), l3. cbn [app]. rewrite sum_len_cons. change (sum_len []) with 0. rewrite !Z.add_0_r, Z.add_assoc. split_and!; done || lia.
  - rewrite (proj2 (Z.ltb_ge _ _)) by lia.
    destruct (IH (offset + bd_len b) Hf) as (l1 & l2 & l3 & -> & Hn & -> & Hs & Hl); [lia..|].
    exists (b :: l1), l2, l3. cbn [app]. rewrite !sum_len_cons, !Z.add_assoc. split_and!; done || lia.
Qed.
Lemma plan_spec layout range : Forall (fun b => 0 <= bd_len b) (ol_blobs layout) ->
  0 <= br_start range <= br_end range -> br_end range < sum_len (ol_blobs layout) ->
  exists l1 l2 l3, ol_blobs layout = l1 ++ l2 ++ l3
    /\ plan layout range = Some {| rp_blobs := l2; rp_skip := br_start range - sum_len l1; rp_take := byte_count range |}
    /\ sum_len l1 <= br_start range /\ br_end range < sum_len (l1 ++ l2).
Proof.
  intros Hf Hr He. destruct (plan_from range _ 0 Hf Hr ltac:(lia)) as (l1 & l2 & l3 & E & Hn & El & Hs & Hl).
  exists l1, l2, l3. unfold plan. rewrite El, !Z.add_0_l. rewrite Z.add_0_l in Hs, Hl.
  rewrite bool_decide_false by done. rewrite (proj2 (Z.leb_gt _ _)) by lia. done.
Qed.

Section Read.
Context `{RS : ReedSolomon} `{B3 : Blake3}.
Implicit Types (read : NodeId -> ShardId -> BlobId -> option (list Z)).

(** The bytes a request asks for; an empty answer is not satisfiable. *)
Definition wanted (want : option RangeSpec) (data : list Z) : option (list Z) :=
  match want with
  | None => Some data
  | Some spec =>
      let bytes :=
        if rsp_suffix spec then drop (length data - Z.to_nat (rsp_first spec)) data
        else let tail := drop (Z.to_nat (rsp_first spec)) data in
             match rsp_last spec with None => tail | Some l => take (Z.to_nat (l + 1 - rsp_first spec)) tail end in
      match bytes with [] => None | _ => Some bytes end
  end.

Lemma wanted_bytes (bytes : list Z) : bytes <> [] -> match bytes with [] => None | _ => Some bytes end = Some bytes.
Proof. by destruct bytes. Qed.
Lemma resolve_window_spec data spec : 0 <= rsp_first spec -> (forall l, rsp_last spec = Some l -> 0 <= l) ->
  match resolve_window (len data) (Some spec) with
  | Ok None => False
  | Ok (Some win) => 0 <= br_start win <= br_end win /\ br_end win < len data
      /\ wanted (Some spec) data = Some (slice (br_start win) (byte_count win) data)
  | Err e => e = GE_RangeNotSatisfiable (len data) /\ wanted (Some spec) data = None
  end.
Proof.
  intros Hf Hl. unfold resolve_window, resolve, wanted, saturating_sub, slice, byte_count, len. destruct (rsp_suffix spec).
  - destruct (Z.eqb_spec (Z.of_nat (length data)) 0); [split; [done|]; by destruct data|].
    destruct (Z.eqb_spec (rsp_first spec) 0) as [->|]; [split; [done|]; rewrite drop_ge by lia; done|].
    cbn. split_and!; [lia..|]. rewrite wanted_bytes by (intros E; apply (f_equal length) in E; rewrite length_drop in E; cbn in E; lia).
    f_equal. rewrite take_ge by (rewrite length_drop; lia). f_equal. lia.
  - destruct (Z.eqb_spec (Z.of_nat (length data)) 0) as [E0|E0].
    { split; [done|]. destruct data; [|done]. rewrite drop_nil. destruct (rsp_last spec); [by rewrite take_nil|done]. }
    destruct (Z.ltb_spec (Z.of_nat (length data) - 1) (rsp_first spec)).
    { split; [done|]. rewrite (drop_ge data) by lia. destruct (rsp_last spec); [by rewrite take_nil|done]. }
    destruct (rsp_last spec) as [l|]; cbn.
    + specialize (Hl l eq_refl). destruct (Z.ltb_spec (Z.min l (Z.of_nat (length data) - 1)) (rsp_first spec)); cbn.
      * split; [done|]. replace (Z.to_nat (l + 1 - rsp_first spec)) with 0%nat by lia. done.
      * split_and!; [lia..|]. replace (Z.to_nat (l + 1 - rsp_first spec)) with (S (Z.to_nat (l - rsp_first spec))) by lia.
        rewrite wanted_bytes by (destruct (drop (Z.to_nat (rsp_first spec)) data) eqn:Ed; [|done]; apply (f_equal length) in Ed; rewrite length_drop in Ed; cbn in Ed; lia).
        f_equal. destruct (Z.le_gt_cases l (Z.of_nat (length data) - 1)); [f_equal; lia|].
        rewrite !take_ge by (rewrite length_drop; lia). done.
    + rewrite (proj2 (Z.ltb_ge _ _)) by lia. cbn. split_and!; [lia..|].
      rewrite wanted_bytes by (intros E; apply (f_equal length) in E; rewrite length_drop in E; cbn in E; lia).
      f_equal. by rewrite take_ge by (rewrite length_drop; lia).
Qed.

(** A code the back end supports, as [CodeMode::new] accepts it. *)
Definition mode_ok (code : GwCodeMode) (ec : Erasure) : Prop :=
  gm_erasure code = Ok ec /\ code_ok ec /\ 0 < gm_stripe_size code /\ 0 < gm_blob_size code.
(** The shards of [blob] as [read] serves them hold [piece]: every frame that
    verifies is the one written, and each stripe keeps [data] of them. *)
Definition blob_readable read (code : GwCodeMode) (ec : Erasure) (blob : BlobDesc) (piece : list Z) : Prop :=
  bd_len blob = len piece /\ len (cp_shards (bd_chunk blob)) = gm_total code
  /\ exists bodies, encode_blob ec (gm_stripe_size code) piece = Ok bodies
     /\ let stored := read_blob_shards read (bd_chunk blob) (bd_blob_id blob) in
        authentic ec (gm_stripe_size code) piece bodies stored
        /\ forall s, 0 <= s < stripe_count (len piece) (gm_stripe_size code) -> ec_data ec <= clean ec (gm_stripe_size code) piece stored s.

Lemma get_loop_ok read code ec blobs pieces : mode_ok code ec -> Forall2 (blob_readable read code ec) blobs pieces ->
  forall out heals, exists heals', get_loop read code ec blobs out heals = Ok (out ++ mjoin pieces, heals').
Proof.
  intros (_ & Hc & Hss & _). induction 1 as [|blob piece blobs pieces Hr _ IH]; intros out heals.
  - exists heals. cbn. by rewrite app_nil_r.
  - destruct Hr as (Hl & Hsh & bodies & E & Ha & Hcl). cbn [get_loop]. rewrite Hsh, Z.eqb_refl. cbn [negb].
    rewrite Hl, (decode_blob_ok _ _ _ _ _ Hc Hss E Ha Hcl). cbn [db_bytes db_healed].
    edestruct IH as [heals' ->]. exists heals'. by rewrite <- app_assoc.
Qed.
Lemma sum_len_join read code ec blobs pieces : Forall2 (blob_readable read code ec) blobs pieces -> sum_len blobs = len (mjoin pieces).
Proof.
  induction 1 as [|blob piece blobs pieces Hr _ IH]; [done|]. destruct Hr as (Hl & _). rewrite sum_len_cons, IH, Hl.
  change (mjoin (piece :: pieces)) with (piece ++ mjoin pieces). by rewrite len_app.
Qed.
Lemma get_object_ok read size code ec blobs pieces : mode_ok code ec -> Forall2 (blob_readable read code ec) blobs pieces ->
  size = sum_len blobs -> exists heals,
  get_object read {| ol_size := size; ol_code := code; ol_blobs := blobs |} = Ok {| ro_bytes := mjoin pieces; ro_heals := heals |}.
Proof.
  intros Hm Hr ->. pose proof (sum_len_join _ _ _ _ _ Hr) as Hs. unfold get_object. cbn [ol_code ol_blobs ol_size].
  destruct (get_loop_ok _ _ _ _ _ Hm Hr [] ∅) as [heals E]. destruct Hm as (-> & _). eexists. cbn beta iota. rewrite E.
  by rewrite app_nil_l, Hs, Z.eqb_refl.
Qed.
Lemma read_window_ok read layout ec pieces win : mode_ok (ol_code layout) ec ->
  Forall2 (blob_readable read (ol_code layout) ec) (ol_blobs layout) pieces -> ol_size layout = len (mjoin pieces) ->
  0 <= br_start win <= br_end win -> br_end win < ol_size layout ->
  (read_window read layout (Some win)).2 = Ok (slice (br_start win) (byte_count win) (mjoin pieces)).
Proof.
  intros Hm Hr Hsz Hw He. pose proof (sum_len_join _ _ _ _ _ Hr) as Hs.
  destruct (plan_spec layout win) as (l1 & l2 & l3 & E & Ep & Hlo & Hhi); [|lia..|].
  { apply Forall_lookup_2. intros i b Hb. destruct (Forall2_lookup_l _ _ _ _ _ Hr Hb) as (p & _ & -> & _). apply len_nonneg. }
  rewrite E in Hr. apply Forall2_app_inv_l in Hr as (p1 & p23 & H1 & H23 & ->). apply Forall2_app_inv_l in H23 as (p2 & p3 & H2 & H3 & ->).
  unfold read_window. rewrite Ep. cbn [ok_or rp_blobs rp_skip rp_take].
  destruct (get_object_ok read (sum_len l2) (ol_code layout) ec l2 p2 Hm H2 eq_refl) as [heals E2].
  fold (sum_len l2). rewrite E2. cbn [ro_bytes snd]. apply sum_len_join in H1, H2. rewrite sum_len_app in Hhi.
  unfold get_range, byte_count in *. rewrite (proj2 (Z.leb_le _ _)), (proj2 (Z.leb_le _ _)) by lia. cbn [andb ok_or]. f_equal.
  rewrite !join_app. rewrite slice_app_r by lia. rewrite slice_app_l by lia. f_equal; lia.
Qed.

(** Reads are exact: for a layout whose blobs are readable, the answer to a
    request (whole, [first..], [first..=last] or the last [n] bytes) is exactly the
    bytes it names of the object, however they fall on the blobs, and
    [GE_RangeNotSatisfiable] precisely when it names none. *)
Lemma read_exact read layout ec pieces want :
  mode_ok (ol_code layout) ec ->
  Forall2 (blob_readable read (ol_code layout) ec) (ol_blobs layout) pieces -> ol_size layout = len (mjoin pieces) ->
  (forall spec, want = Some spec -> 0 <= rsp_first spec /\ forall l, rsp_last spec = Some l -> 0 <= l) ->
  (window <-? resolve_window (ol_size layout) want ;; (read_window read layout window).2)
  = match wanted want (mjoin pieces) with Some bytes => Ok bytes | None => Err (GE_RangeNotSatisfiable (ol_size layout)) end.
Proof.
  intros Hm Hr Hs Hw. destruct want as [spec|].
  - destruct (Hw spec eq_refl) as [Hf Hl]. pose proof (resolve_window_spec (mjoin pieces) spec Hf Hl) as H. rewrite Hs.
    destruct (resolve_window _ _) as [[win|]|e]; [|done|].
    + destruct H as (H1 & H2 & ->). apply (read_window_ok _ _ ec); done || lia.
    + by destruct H as [-> ->].
  - cbn. destruct (get_object_ok read (ol_size layout) (ol_code layout) ec (ol_blobs layout) pieces Hm Hr) as [heals E].
    { rewrite Hs. symmetry. by eapply sum_len_join. }
    destruct layout as [sz code bs]. cbn in *. by rewrite E.
Qed.
End Read.

(** ** Durability

    Durability of puts: what the data nodes hold when [put_object] succeeds, and
    that it reads back after the further losses the code tolerates. *)

(** ** Counting *)

Lemma filter_positions {A} (P : A -> Prop) `{!forall x, Decision (P x)} (l : list A) (js : list nat) :
  NoDup js -> (forall j, j ∈ js -> exists x, l !! j = Some x /\ P x) -> (length js <= length (filter P l))%nat.
Proof.
  intros Hnd Hjs. set (Q := fun j : nat => match l !! j with Some x => bool_decide (P x) = true | None => False end).
  assert (forall j, Decision (Q j)) as HQ by (intros j; unfold Q; destruct (l !! j); apply _).
  transitivity (length (filter Q (seq 0 (length l)))).
  - apply submseteq_length, NoDup_submseteq; [done|]. intros j Hj. destruct (Hjs j Hj) as (x & Hx & HP).
    apply list_elem_of_filter. split; [unfold Q; rewrite Hx; by apply bool_decide_eq_true|]. apply lookup_lt_Some in Hx. apply elem_of_seq. lia.
  - apply Nat.eq_le_incl. clear Hjs Hnd.
    enough (forall l' n, (forall i x, l' !! i = Some x -> l !! (n + i)%nat = Some x) ->
      length (filter Q (seq n (length l'))) = length (filter P l')) as Hgen by (apply (Hgen l 0%nat); auto).
    induction l' as [|x l' IH]; intros n Hl; [done|]. cbn [length seq]. rewrite !filter_cons.
    pose proof (Hl 0%nat x eq_refl) as H0. rewrite Nat.add_0_r in H0.
    assert (forall i y, l' !! i = Some y -> l !! (S n + i)%nat = Some y) as Hl'
      by (intros i y Hi; specialize (Hl (S i) y Hi); by rewrite Nat.add_succ_r in Hl).
    specialize (IH (S n) Hl'). assert (Q n <-> P x) as Hq by (unfold Q; by rewrite H0, bool_decide_eq_true).
    destruct (decide (Q n)), (decide (P x)); cbn [length]; rewrite ?IH; tauto.
Qed.

Definition is_commit (e : nat * ShardOutcome) : bool := match e.2 with SO_Ok => true | _ => false end.
(** Only commits are counted, each at most once. *)
Lemma join_loop_commits quorum events : forall committed errors,
  committed <= (join_loop quorum committed errors events).1 <= committed + len (filter (fun e => is_commit e = true) events).
Proof.
  induction events as [|[j o] events IH]; intros committed errors; cbn [join_loop]; [change (len _) with 0; cbn; lia|].
  rewrite filter_cons. unfold is_commit at 2. cbn [snd]. pose proof (len_nonneg (filter (fun e => is_commit e = true) events)) as Hn.
  destruct o as [|e|]; cbn beta iota.
  1: rewrite decide_True by done; rewrite len_cons. 2-3: rewrite decide_False by done.
  all: destruct (quorum <=? _); [cbn [fst]; lia|].
  - specialize (IH (committed + 1) errors). lia.
  - apply IH.
  - apply IH.
Qed.

Section Put.
Context `{RS : ReedSolomon} `{B3 : Blake3} {SocketAddr : Set} (parse_addr : string -> option SocketAddr).

(** ** Placements are in shard order *)

Definition slots_ok (slots : @ChunkSlots SocketAddr) : Prop :=
  forall j s, cs_shards slots !! j = Some s -> rsd_index s = Z.of_nat j /\ rsd_index s <= 255 /\ 0 <= rsd_epoch s.
Definition placement_ok (p : ChunkPlacement) : Prop :=
  forall j shard node, cp_shards p !! j = Some (shard, node) -> ShardId_index shard = Z.of_nat j.
(** Epochs are unsigned. *)
Definition answers_typed (w : PdAnswers) : Prop :=
  forall c view, pa_get_chunk w c = Ok view -> Forall (fun s => 0 <= sv_epoch s) (cv_shards view).
Definition set_ok (s : @WritableSet SocketAddr) : Prop :=
  forall c slots, cmap_entries (wset_chunk_map s) !! c = Some slots -> slots_ok slots.

Lemma resolve_shards_order (t : @Topology SocketAddr) slots : forall i shards, Forall (fun s => 0 <= sv_epoch s) slots ->
  resolve_shards t i slots = Ok shards ->
  forall j s, shards !! j = Some s -> rsd_index s = i + Z.of_nat j /\ rsd_index s <= 255 /\ 0 <= rsd_epoch s.
Proof.
  induction slots as [|sl slots IH]; intros i shards Hf E; cbn [resolve_shards] in E; [injection E as <-; intros j s Hj; by rewrite lookup_nil in Hj|].
  apply Forall_cons in Hf as [Hs Hf]. destruct (Z.ltb_spec 255 i); [done|]. destruct (disk_node t _) as [node|]; [|done].
  destruct (negb _); [done|]. destruct (resolve_shards t (i + 1) slots) as [rest|] eqn:Er; [|done]. injection E as <-.
  intros [|j] s Hj; cbn in Hj; [injection Hj as <-; cbn; lia|]. destruct (IH _ _ Hf Er j s Hj) as (? & ? & ?). lia.
Qed.
Lemma resolve_view_ok (t : @Topology SocketAddr) view slots : Forall (fun s => 0 <= sv_epoch s) (cv_shards view) ->
  resolve_view t view = Ok slots -> slots_ok slots.
Proof.
  intros Hf E. unfold resolve_view in E. destruct (resolve_shards t 0 _) as [shards|] eqn:Er; [|done]. cbn in E.
  destruct (cv_code_mode view) as [cm|]; [|done]. cbn in E. destruct (check_code_mode cm); [|done]. injection E as <-.
  intros j s Hj. cbn in Hj. by apply (resolve_shards_order _ _ 0 _ Hf Er j s).
Qed.
Lemma ChunkMap_get_ok w now (s : @WritableSet SocketAddr) c m r : answers_typed w -> set_ok s ->
  ChunkMap_get parse_addr w now (wset_chunk_map s) c = (m, r) ->
  set_ok (set_chunk_map s m) /\ forall slots, r = Ok slots -> slots_ok slots.
Proof.
  intros Hw Hs E. unfold ChunkMap_get in E. destruct (cmap_entries _ !! c) as [sl|] eqn:El.
  { injection E as <- <-. split; [exact Hs|]. intros slots [= <-]. by eapply Hs. }
  destruct (pa_get_chunk w c) as [view|] eqn:Ev; [|injection E as <- <-; by split].
  destruct (resolve_view _ view) as [slots|] eqn:Er; injection E as <- <-; [|by split].
  pose proof (resolve_view_ok _ _ _ (Hw _ _ Ev) Er) as Hok. split; [|by intros ? [= <-]].
  intros c' slots'. cbn. rewrite lookup_insert_Some. intros [[_ <-]|[_ H]]; [done|by eapply Hs].
Qed.
Lemma evict_ok (s : @WritableSet SocketAddr) c : set_ok s -> set_ok (WritableSet_evict s c).
Proof. intros Hs c' slots. cbn. rewrite lookup_delete_Some. intros [_ H]. by eapply Hs. Qed.
Lemma score_candidates_ok w now node rack cands : answers_typed w -> forall (s s' : @WritableSet SocketAddr) scored scored', set_ok s ->
  Forall (fun e => slots_ok (wc_slots (sc_chunk e))) scored ->
  score_candidates parse_addr w now node rack cands s scored = (s', scored') ->
  set_ok s' /\ Forall (fun e => slots_ok (wc_slots (sc_chunk e))) scored'.
Proof.
  intros Hw. induction cands as [|c cands IH]; intros s s' scored scored' Hs Hf E; cbn [score_candidates] in E; [by injection E as <- <-|].
  destruct (ChunkMap_get _ _ _ _ _) as [m r] eqn:Eg. destruct (ChunkMap_get_ok _ _ _ _ _ _ Hw Hs Eg) as [Hm Hr].
  destruct r as [slots|]; [|eapply IH; [| |exact E]; [by apply evict_ok|done]].
  destruct (negb _); (eapply IH; [| |exact E]); [by apply evict_ok|done|done|].
  apply Forall_app. split; [done|]. constructor; [|constructor]. by apply Hr.
Qed.
Lemma pick_ok w now node (s s' : @WritableSet SocketAddr) r : answers_typed w -> set_ok s -> pick parse_addr w now node s = (s', r) ->
  set_ok s' /\ forall wc, r = Some wc -> slots_ok (wc_slots wc).
Proof.
  intros Hw Hs E. unfold pick in E. set (s1 := if WritableSet_is_stale s now then _ else _) in E.
  assert (set_ok s1) as Hs1.
  { unfold s1. destruct (WritableSet_is_stale s now); [|done]. unfold WritableSet_refresh. by destruct (pa_writable w). }
  destruct (wset_chunks s1) as [|c cands]; [injection E as <- <-; by split|].
  destruct (score_candidates _ _ _ _ _ _ _ _) as [s2 scored] eqn:Ec.
  destruct (score_candidates_ok _ _ _ _ _ Hw _ _ _ _ Hs1 ltac:(constructor) Ec) as [Hs2 Hf].
  destruct (merge_sort scored_le scored) as [|best sorted] eqn:Em; injection E as <- <-; [by split|]. split; [done|].
  intros wc [= <-]. set (top := if same_score best best then _ else _). set (i := Z.to_nat _).
  assert (nth i top best ∈ scored) as Hin; [|rewrite Forall_forall in Hf; by apply Hf].
  rewrite <- (merge_sort_Permutation scored_le scored), Em. change top with (take_while (same_score best) (best :: sorted)).
  assert (forall (l : list (@Scored SocketAddr)) p, take_while p l ⊆ l) as Hsub.
  { clear. induction l as [|x l IH]; intros p y Hy; cbn in Hy; [done|]. destruct (p x); [|by apply not_elem_of_nil in Hy].
    apply elem_of_cons in Hy as [->|Hy]; [by left|]. right. by apply (IH p). }
  destruct (nth_in_or_default i (take_while (same_score best) (best :: sorted)) best) as [Hn| ->]; [|by left].
  by apply (Hsub _ (same_score best)), list_elem_of_In.
Qed.
Lemma placement_of_ok (wc : @WritableChunk SocketAddr) p : slots_ok (wc_slots wc) -> placement_of wc = Some p ->
  placement_ok p /\ length (cp_shards p) = length (cs_shards (wc_slots wc)).
Proof.
  intros Hs E. unfold placement_of in E. destruct (mapM _ _) as [shards|] eqn:Em; [|done]. injection E as <-. apply mapM_Some in Em.
  split; [|cbn; symmetry; by eapply Forall2_length].
  intros j shard node Hj. cbn in Hj. destruct (Forall2_lookup_r _ _ _ _ _ Em Hj) as (s & Hsj & E).
  destruct (Hs j s Hsj) as (Hi & H255 & He). unfold shard_of in E. destruct (ShardId_new _ _ _) as [id|] eqn:En; [|done]. injection E as <- _.
  unfold ShardId_new in En. destruct (Z.le_gt_cases (rsd_epoch s) MAX_SHARD_EPOCH).
  2:{ rewrite ShardId_try_new_err in En by lia. done. }
  rewrite ShardId_try_new_val in En by (unfold uint; lia). injection En as <-.
  unfold ShardId_index, SHARD_EPOCH_BITS, wrap. rewrite Z.shiftr_div_pow2 by lia. change 255 with (Z.ones 8). rewrite Z.land_ones by lia.
  rewrite MAX_SHARD_EPOCH_val in *. rewrite Hi in *. lia.
Qed.

(** ** What lands on the nodes *)

(** Every body stored for a blob is the one of its shard's index. *)
Definition holds (plane : Plane) (b : BlobId) (bodies : list (list Z)) : Prop :=
  forall node shard x, plane !! (node, shard, b) = Some x -> bodies !! Z.to_nat (ShardId_index shard) = Some x.
(** The shards of a placement that have a body of the blob. *)
Definition held (plane : Plane) (p : ChunkPlacement) (b : BlobId) : list (ShardId * NodeId) :=
  filter (fun s : ShardId * NodeId => is_Some (plane !! (s.2, s.1, b))) (cp_shards p).
Definition same_at (b : BlobId) (plane plane' : Plane) : Prop := forall node shard, plane' !! (node, shard, b) = plane !! (node, shard, b).
(** The completions of an attempt: at most one per shard, and a committed shard is
    on its node. *)
Definition attempt_ok (total : Z) (a : Attempt) : Prop :=
  NoDup (at_events a).*1 /\ Forall (fun e => Z.of_nat e.1 < total /\ (is_commit e = true -> e.1 ∈ at_landed a)) (at_events a).

Lemma land_other p b bodies landed plane b' : b' <> b -> same_at b' plane (land p b bodies landed plane).
Proof.
  intros Hb. unfold land. revert plane. induction landed as [|j landed IH]; intros plane node shard; [done|]. cbn [foldl].
  rewrite IH. unfold land_one. destruct (cp_shards p !! j) as [[sh nd]|]; [|done]. destruct (bodies !! j); [|done].
  apply lookup_insert_ne. congruence.
Qed.
Lemma land_holds p b bodies landed plane : placement_ok p -> holds plane b bodies -> holds (land p b bodies landed plane) b bodies.
Proof.
  intros Hp. unfold land. revert plane. induction landed as [|j landed IH]; intros plane Hh; [done|]. cbn [foldl]. apply IH.
  unfold land_one. destruct (cp_shards p !! j) as [[sh nd]|] eqn:Ej; [|done]. destruct (bodies !! j) as [body|] eqn:Eb; [|done].
  intros node shard x. rewrite lookup_insert_Some. intros [[[= <- <-] <-]|[_ H]]; [|by eapply Hh].
  by rewrite (Hp _ _ _ Ej), Nat2Z.id.
Qed.
Lemma land_present p b bodies landed plane j sh nd : cp_shards p !! j = Some (sh, nd) -> (j < length bodies)%nat ->
  j ∈ landed \/ is_Some (plane !! (nd, sh, b)) -> is_Some (land p b bodies landed plane !! (nd, sh, b)).
Proof.
  intros Ej Hj. unfold land. revert plane. induction landed as [|i landed IH]; intros plane H; cbn [foldl].
  { destruct H as [H|H]; [by apply not_elem_of_nil in H|done]. }
  apply IH. destruct H as [[->|H]%elem_of_cons|H]; [right|by left|right].
  - destruct (lookup_lt_is_Some_2 bodies i Hj) as [body Hb]. unfold land_one. rewrite Ej, Hb. by rewrite lookup_insert_eq.
  - unfold land_one. destruct (cp_shards p !! i) as [[sh' nd']|]; [|done]. destruct (bodies !! i); [|done].
    destruct (decide ((nd', sh', b) = (nd, sh, b))) as [->|]; [by rewrite lookup_insert_eq|by rewrite lookup_insert_ne].
Qed.
(** A reported commit is a held shard. *)
Lemma committed_held quorum p b bodies plane a : attempt_ok (len (cp_shards p)) a -> length bodies = length (cp_shards p) ->
  (join_loop quorum 0 [] (at_events a)).1 <= len (held (land p b bodies (at_landed a) plane) p b).
Proof.
  intros [Hnd Hf] Hl. pose proof (join_loop_commits quorum (at_events a) 0 []) as Hj.
  transitivity (len (filter (fun e => is_commit e = true) (at_events a))); [lia|]. unfold held, len. apply Nat2Z.inj_le.
  rewrite <- (length_fmap fst). rewrite Forall_forall in Hf. apply filter_positions.
  - clear -Hnd. induction (at_events a) as [|e events IH]; [constructor|]. rewrite filter_cons. cbn in Hnd. apply NoDup_cons in Hnd as [Hn Hnd].
    destruct (decide _); [|by apply IH]. cbn. constructor; [|by apply IH]. intros (x & Ex & [_ Hx]%list_elem_of_filter)%list_elem_of_fmap.
    apply Hn, list_elem_of_fmap. by exists x.
  - intros j ([j' o] & -> & [Hc He]%list_elem_of_filter)%list_elem_of_fmap. destruct (Hf _ He) as [Hlt Hin]. cbn [fst] in *. unfold len in Hlt.
    destruct (lookup_lt_is_Some_2 (cp_shards p) j' ltac:(lia)) as [[sh nd] Ej]. exists (sh, nd). split; [done|]. cbn [fst snd].
    apply (land_present _ _ _ _ _ j'); [done|lia|]. left. by apply Hin.
Qed.

(** ** Attempts *)

Context (w : GwWorld) (cfg : GwConfig) (ec : Erasure).
Let code := gc_code cfg.
Definition world_ok : Prop := forall k, answers_typed (wd_pd w k) /\ attempt_ok (gm_total code) (wd_attempt w k).
Hypothesis Hmode : mode_ok code ec.
Hypothesis Hworld : world_ok.

Lemma total_of_mode : total_shards ec = gm_total code.
Proof.
  destruct Hmode as (E & _). unfold gm_erasure, Erasure_new in E. destruct (_ || _); [done|]. injection E as <-. done.
Qed.
Lemma encode_total data : exists bodies, encode_blob ec (gm_stripe_size code) data = Ok bodies /\ len bodies = gm_total code.
Proof.
  destruct Hmode as (_ & (Hsup & Hd & Hp) & Hss & _). destruct (encode_blob_shape ec _ Hsup Hd Hp Hss data) as (cws & _ & E).
  eexists. split; [exact E|]. rewrite <- total_of_mode. unfold len. rewrite length_fmap, length_seq. unfold total_shards. lia.
Qed.

(** The frames of a stream are the whole body. *)
Lemma shard_frames_join body lens : forall off, 0 <= off -> Forall (fun l => 0 <= l) lens ->
  mjoin (shard_frames body off lens) = slice off (sumZ lens) body.
Proof.
  induction lens as [|l lens IH]; intros off Ho Hf; [done|]. apply Forall_cons in Hf as [Hl Hf]. cbn [shard_frames].
  change (mjoin (?x :: ?y)) with (x ++ mjoin y). rewrite IH, sumZ_cons by (done || lia).
  assert (0 <= sumZ lens) by (clear -Hf; induction Hf; [done|]; rewrite sumZ_cons; lia). by rewrite slice_split by lia.
Qed.
Lemma sent_bodies piece bodies : encode_blob ec (gm_stripe_size code) piece = Ok bodies ->
  sent_body (stripe_frame_lens (len piece) (gm_stripe_size code) (gm_data code)) <$> bodies = bodies.
Proof.
  intros E. pose proof Hmode as (Eec & Hc & Hss & _). fold code in Eec, Hss. destruct (encoded_lengths _ _ _ _ Hc Hss E) as [_ Hf].
  pose proof Hc as (Hsup & Hd & Hp).
  assert (gm_data code = ec_data ec) as -> by (unfold gm_erasure, Erasure_new in Eec; destruct (_ || _); [done|]; by injection Eec as <-).
  rewrite <- (list_fmap_id bodies) at 2. apply list_fmap_ext. intros j body Hb. cbn. unfold sent_body.
  rewrite shard_frames_join; [|lia|].
  - rewrite stripe_frame_lens_sum by done. apply slice_full. symmetry. by eapply Forall_lookup_1 in Hf.
  - rewrite stripe_frame_lens_eq. apply Forall_fmap, Forall_forall. intros s Hs%elem_of_seqZ. cbn.
    destruct (unit_of_pos ec (gm_stripe_size code) Hd Hss piece s ltac:(lia)) as (? & _). unfold HASH_LEN. lia.
Qed.

(** What an attempt to write blob [b] keeps and establishes. *)
Lemma write_attempts_ok b piece bodies : encode_blob ec (gm_stripe_size code) piece = Ok bodies -> forall fuel last oos (g g' : @Gw SocketAddr) r,
  set_ok (gw_set g) -> holds (gw_plane g) b bodies ->
  write_attempts parse_addr fuel w cfg ec b piece (write_quorum code) last oos g = (g', r) ->
  set_ok (gw_set g') /\ holds (gw_plane g') b bodies /\ gw_session g' = gw_session g /\ (gw_step g <= gw_step g')%nat
  /\ (forall b', b' <> b -> same_at b' (gw_plane g) (gw_plane g'))
  /\ forall p, r = Ok p -> placement_ok p /\ len (cp_shards p) = gm_total code /\ write_quorum code <= len (held (gw_plane g') p b).
Proof.
  intros Henc. assert (len bodies = gm_total code) as Hbl by (destruct (encode_total piece) as (bs & E & Hl); congruence).
  induction fuel as [|fuel IH]; intros last oos g g' r Hs Hh E; cbn [write_attempts] in E.
  { injection E as <- <-. split_and!; try done. intros p. by destruct oos. }
  destruct (Hworld (gw_step g)) as [Hw Ha]. destruct (pick _ _ _ _ _) as [s1 picked] eqn:Ep.
  destruct (pick_ok _ _ _ _ _ _ Hw Hs Ep) as [Hs1 Hslots].
  destruct picked as [wc|]; [|injection E as <- <-; split_and!; done || (cbn; lia)].
  destruct (placement_of wc) as [p|] eqn:Eplace; [|injection E as <- <-; split_and!; done || (cbn; lia)].
  destruct (placement_of_ok _ _ (Hslots _ eq_refl) Eplace) as [Hp _]. fold code in E.
  destruct (Z.eqb_spec (len (cp_shards p)) (gm_total code)) as [El|El]; cbn [negb] in E.
  2:{ apply IH in E as (H1 & H2 & H3 & H4 & H5 & H6); [|by apply evict_ok|done]. cbn in *. split_and!; try done; lia. }
  unfold gw_write_blob in E. fold code in E. rewrite Henc in E. cbn beta iota zeta in E. rewrite (sent_bodies _ _ Henc) in E.
  destruct (join_loop _ _ _ _) as [committed errors] eqn:Ej.
  assert (holds (land p b bodies (at_landed (wd_attempt w (gw_step g))) (gw_plane g)) b bodies) as Hh' by by apply land_holds.
  destruct (Z.leb_spec (write_quorum code) committed) as [Hq|Hq].
  - injection E as <- <-. cbn. split_and!; try done; [lia|intros b' Hb; by apply land_other|]. intros p' [= <-]. split_and!; [done..|].
    rewrite <- El in Ha. pose proof (committed_held (write_quorum code) p b bodies (gw_plane g) _ Ha) as Hc. rewrite Ej in Hc. cbn [fst] in Hc.
    specialize (Hc ltac:(unfold len in *; lia)). lia.
  - apply IH in E as (H1 & H2 & H3 & H4 & H5 & H6); [|by apply evict_ok|done]. cbn in *. split_and!; try done; [lia|].
    intros b' Hb node shard. rewrite H5 by done. by apply land_other.
Qed.

(** ** Names *)

(** The tokens handed out from step [k] on. *)
Definition registered_from (k : nat) (t : WriterToken) : Prop := exists k' f, (k <= k')%nat /\ wd_register w k' f = Ok t.
(** No later name of the session is [b]. *)
Definition used (st : TokenState) (k : nat) (b : BlobId) : Prop := spent st (registered_from k) b.
(** The driver hands out every token once. *)
Definition registers_ok : Prop :=
  forall k f t, wd_register w k f = Ok t -> is_u32 t /\ forall k' f', (k < k')%nat -> wd_register w k' f' <> Ok t.
Definition gateway_ok (g : @Gw SocketAddr) : Prop :=
  let st := ws_state (gw_session g) in
  set_ok (gw_set g) /\ token_state_ok st
  /\ ~ registered_from (gw_step g) (ts_token st)
  /\ forall node shard b x, gw_plane g !! (node, shard, b) = Some x -> used st (gw_step g) b.
Hypothesis Hreg : registers_ok.

Lemma registered_mono k k' t : (k <= k')%nat -> registered_from k' t -> registered_from k t.
Proof. intros Hk (k'' & f & Hle & E). exists k'', f. split; [lia|done]. Qed.
Lemma used_mono st k k' b : (k <= k')%nat -> used st k b -> used st k' b.
Proof. intros Hk. apply spent_weaken. intros t. by apply registered_mono. Qed.
Lemma next_blob_fresh (g g' : @Gw SocketAddr) b : gateway_ok g -> gw_next_blob_id w g = (g', Ok b) ->
  gateway_ok g' /\ gw_plane g' = gw_plane g /\ used (ws_state (gw_session g')) (gw_step g') b
  /\ forall b', used (ws_state (gw_session g)) (gw_step g) b' -> b' <> b /\ used (ws_state (gw_session g')) (gw_step g') b'.
Proof.
  intros (Hs & Hok & Hfut & Hpl) E. unfold gw_next_blob_id, next_blob_id in E. destruct (_ <? _); [done|].
  set (st := ws_state (gw_session g)) in *. set (k := gw_step g) in *. cbn [mint_loop] in E.
  assert (exists st0 st', mint_blob st0 = Some (b, st') /\ token_state_ok st0
    /\ g' = {| gw_session := set_state (gw_session g) st'; gw_set := gw_set g; gw_plane := gw_plane g; gw_step := S k |}
    /\ ~ registered_from (S k) (ts_token st0)
    /\ forall b', used st k b' -> used st0 (S k) b') as (st0 & st' & Em & Hok0 & -> & Hfut0 & Hu).
  { destruct (mint_blob st) as [[b0 st']|] eqn:Em.
    - injection E as <- <-. exists st, st'. split_and!; try done; [intros H; by apply Hfut, (registered_mono _ (S k)); [lia|]|].
      intros b'. apply used_mono. lia.
    - apply mint_None in Em as Hx. destruct (wd_register w k 1) as [t|] eqn:Er; [|done].
      rewrite Hx in E. destruct (mint_blob (fresh_state t)) as [[b0 st']|] eqn:Em'; [|done]. injection E as <- <-. destruct (Hreg _ _ _ Er) as [Ht Hne].
      exists (fresh_state t), st'. split_and!; [done|by apply fresh_state_ok|done| |].
      + intros (k' & f & Hk & Hr). by apply (Hne k' f).
      + intros b' Hb'. eapply rotate_spent, Hb'; [by exists k, 1%nat|]. intros t'. apply registered_mono. lia. }
  destruct (mint_spent st0 (registered_from (S k)) b st' Em Hok0 Hfut0) as (Hok' & Ht & Hub & Hnew). cbn.
  split_and!; [split_and!; [done..| |]|done|done|].
  - cbn. rewrite Ht. done.
  - cbn. intros node shard b' x Hx. apply Hnew, Hu. by eapply Hpl.
  - intros b' Hb'. by apply Hnew, Hu.
Qed.

(** ** Whole objects *)

(** Blob and piece: the nodes hold only its bodies, and a quorum of them. *)
Definition stored_ok (plane : Plane) (blob : BlobDesc) (piece : list Z) : Prop :=
  bd_len blob = len piece /\ placement_ok (bd_chunk blob) /\ len (cp_shards (bd_chunk blob)) = gm_total code
  /\ exists bodies, encode_blob ec (gm_stripe_size code) piece = Ok bodies /\ holds plane (bd_blob_id blob) bodies
     /\ write_quorum code <= len (held plane (bd_chunk blob) (bd_blob_id blob)).
Lemma stored_ok_same plane plane' blob piece : same_at (bd_blob_id blob) plane plane' -> stored_ok plane blob piece -> stored_ok plane' blob piece.
Proof.
  intros Hs (H1 & H2 & H3 & bodies & H4 & H5 & H6). split_and!; [done..|]. exists bodies. split_and!; [done| |].
  - intros node shard x. rewrite Hs. apply H5.
  - unfold held in *. erewrite filter_ext_in; [exact H6|]. intros s _. cbn. by rewrite Hs.
Qed.

Lemma put_loop_ok data fuel : forall offset blobs (g g' : @Gw SocketAddr) blobs', gateway_ok g -> 0 <= offset <= len data ->
  put_loop parse_addr fuel w cfg ec (write_quorum code) data offset blobs g = (g', Ok blobs') ->
  gateway_ok g'
  /\ (forall b, used (ws_state (gw_session g)) (gw_step g) b ->
        same_at b (gw_plane g) (gw_plane g') /\ used (ws_state (gw_session g')) (gw_step g') b)
  /\ exists new pieces, blobs' = blobs ++ new /\ slice offset (len data - offset) data = mjoin pieces
     /\ Forall2 (stored_ok (gw_plane g')) new pieces.
Proof.
  destruct Hmode as (_ & _ & _ & Hbs). fold code in Hbs.
  induction fuel as [|fuel IH]; intros offset blobs g g' blobs' Hg Ho E; cbn [put_loop] in E.
  all: destruct (Z.ltb_spec offset (len data)); [|injection E as <- <-; split_and!; [done|by intros b Hb|]; exists [], [];
    rewrite app_nil_r; replace (len data - offset) with 0 by lia; done].
  { done. }
  fold code in E. set (end_ := Z.min (offset + gm_blob_size code) (len data)) in *. set (piece := slice offset (end_ - offset) data) in *.
  destruct (gw_next_blob_id w g) as [g1 [b|]] eqn:En; [|done].
  destruct (next_blob_fresh _ _ _ Hg En) as (Hg1 & Hpl & Hub & Hnew).
  unfold write_blob_with_rewrite in E. destruct (write_attempts _ _ _ _ _ _ _ _ _ _ _) as [g2 [p|]] eqn:Ew; [|done].
  destruct (encode_total piece) as (bodies & Henc & _).
  destruct Hg1 as (Hs1 & Hok1 & Hfut1 & Hpl1).
  assert (forall b', used (ws_state (gw_session g)) (gw_step g) b' -> b' <> b) as Hne by (intros b' Hb'; by apply Hnew).
  assert (holds (gw_plane g1) b bodies) as Hh1.
  { intros node shard x Hx. exfalso. destruct Hg as (_ & _ & _ & Hg). rewrite Hpl in Hx. by apply (Hne b (Hg _ _ _ _ Hx)). }
  destruct (write_attempts_ok b piece bodies Henc _ _ _ _ _ _ Hs1 Hh1 Ew) as (Hs2 & Hh2 & Hses & Hst & Hoth & Hp).
  destruct (Hp p eq_refl) as (Hpo & Hpl2 & Hq).
  assert (forall b', used (ws_state (gw_session g1)) (gw_step g1) b' -> used (ws_state (gw_session g2)) (gw_step g2) b') as Hu12
    by (intros b' Hb'; rewrite Hses; by eapply used_mono).
  assert (gateway_ok g2) as Hg2.
  { split_and!; [done|by rewrite Hses|rewrite Hses; intros Hrf; by apply Hfut1, (registered_mono _ (gw_step g2))|]. intros node shard b' x Hx. apply Hu12.
    destruct (decide (b' = b)) as [->|Hb]; [done|]. rewrite Hoth in Hx by done. by eapply Hpl1. }
  assert (len piece = end_ - offset) as Hlp by (apply len_slice; lia).
  apply IH in E as (Hg' & Hsame & new & pieces & -> & Hj & Hf); [|done|lia]. split_and!; [done| |].
  - intros b' Hb'. destruct (Hsame b') as [H1 H2]; [by apply Hu12, Hnew|]. split; [|done].
    intros node shard. rewrite H1, Hoth by (by apply Hne). by rewrite Hpl.
  - exists ({| bd_blob_id := b; bd_len := len piece; bd_chunk := p |} :: new), (piece :: pieces). split_and!.
    + by rewrite <- app_assoc.
    + change (mjoin (piece :: pieces)) with (piece ++ mjoin pieces). rewrite <- Hj. unfold piece.
      replace end_ with (offset + (end_ - offset)) at 2 by lia. rewrite <- slice_split by lia. f_equal. lia.
    + constructor; [|done]. apply (stored_ok_same (gw_plane g2)); [by apply Hsame, Hu12|]. split_and!; [done..|]. by exists bodies.
Qed.
Lemma put_loop_S fuel data offset blobs (g : @Gw SocketAddr) : put_loop parse_addr (S fuel) w cfg ec (write_quorum code) data offset blobs g =
  (if offset <? len data then
     let end_ := Z.min (offset + gm_blob_size code) (len data) in
     let piece := slice offset (end_ - offset) data in
     match gw_next_blob_id w g with
     | (g, Err e) => (g, Err e)
     | (g, Ok blob_id) =>
         match write_blob_with_rewrite parse_addr w cfg ec blob_id piece (write_quorum code) g with
         | (g, Err e) => (g, Err e)
         | (g, Ok placement) =>
             put_loop parse_addr fuel w cfg ec (write_quorum code) data end_
               (blobs ++ [{| bd_blob_id := blob_id; bd_len := len piece; bd_chunk := placement |}]) g
         end
     end
   else (g, Ok blobs)).
Proof. done. Qed.
(** The length of the data is fuel enough: more changes nothing. *)
Lemma put_loop_fuel data fuel : forall offset blobs (g : @Gw SocketAddr), 0 <= offset -> len data - offset <= Z.of_nat fuel ->
  put_loop parse_addr (S fuel) w cfg ec (write_quorum code) data offset blobs g
  = put_loop parse_addr fuel w cfg ec (write_quorum code) data offset blobs g.
Proof.
  destruct Hmode as (_ & _ & _ & Hbs). fold code in Hbs.
  induction fuel as [|fuel IH]; intros offset blobs g Ho Hf.
  { cbn [put_loop]. by rewrite (proj2 (Z.ltb_ge _ _)) by lia. }
  rewrite (put_loop_S (S fuel)), (put_loop_S fuel).
  destruct (Z.ltb_spec offset (len data)); [|done].
  destruct (gw_next_blob_id w g) as [g1 [b|]]; [|done]. cbn zeta.
  set (piece := slice _ _ data). destruct (write_blob_with_rewrite parse_addr w cfg ec b piece (write_quorum code) g1) as [g2 [p|]]; [|done].
  apply IH; lia.
Qed.

(** ** Reading back *)

(** The shards of a blob that were stored and do not answer. *)
Definition lost (read : NodeId -> ShardId -> BlobId -> option (list Z)) (plane : Plane) (blob : BlobDesc) : list (ShardId * NodeId) :=
  filter (fun s : ShardId * NodeId => is_Some (plane !! (s.2, s.1, bd_blob_id blob)) /\ read s.2 s.1 (bd_blob_id blob) = None)
    (cp_shards (bd_chunk blob)).
Lemma held_split read plane p b : len (held plane p b)
  <= len (lost read plane {| bd_blob_id := b; bd_len := 0; bd_chunk := p |}) + len (filter is_Some (read_blob_shards read p b)).
Proof.
  unfold held, lost, read_blob_shards. cbn. induction (cp_shards p) as [|s shards IH]; [done|]. rewrite fmap_cons, !filter_cons.
  destruct (read s.2 s.1 b) as [x|] eqn:Er.
  - rewrite (decide_False (P := _ /\ _)) by (by intros [_ ?]). rewrite (decide_True (P := is_Some (Some x))) by done.
    destruct (decide _); rewrite ?len_cons; lia.
  - rewrite (decide_False (P := is_Some None)) by (apply is_Some_None).
    destruct (decide (is_Some _)) as [Hs|Hs]; [rewrite decide_True by done|rewrite decide_False by (by intros [? _])]; rewrite ?len_cons; lia.
Qed.
Lemma stored_readable read plane blob piece : stored_ok plane blob piece ->
  (forall n s b, read n s b = None \/ read n s b = plane !! (n, s, b)) ->
  len (lost read plane blob) <= gm_parity code - Z.max (gm_parity code / 2) 1 -> blob_readable read code ec blob piece.
Proof.
  intros (Hl & Hp & Hsh & bodies & Henc & Hh & Hq) Hread Hlost. split_and!; [done..|]. exists bodies. split; [done|]. cbn zeta.
  destruct (encode_total piece) as (bs & E & Hbl). rewrite Henc in E. injection E as <-.
  pose proof Hmode as (_ & Hc & Hss & _). fold code in Hss.
  destruct (present_bodies ec (gm_stripe_size code) piece bodies (read_blob_shards read (bd_chunk blob) (bd_blob_id blob)) Hc Hss Henc) as [Ha Hcl].
  { apply Forall2_same_length_lookup_2; [unfold read_blob_shards; rewrite length_fmap; unfold len in *; lia|].
    intros j body st Hb Hst. unfold read_blob_shards in Hst. apply list_lookup_fmap_Some in Hst as ([sh nd] & -> & Hj). cbn.
    destruct (Hread nd sh (bd_blob_id blob)) as [->|Er]; [by left|]. rewrite Er. destruct (plane !! _) as [x|] eqn:Ex; [|by left].
    apply Hh in Ex. rewrite (Hp _ _ _ Hj), Nat2Z.id in Ex. right. congruence. }
  split; [done|]. intros s Hs. rewrite Hcl by done.
  pose proof (held_split read plane (bd_chunk blob) (bd_blob_id blob)) as Hsp.
  change (lost read plane {| bd_blob_id := bd_blob_id blob; bd_len := 0; bd_chunk := bd_chunk blob |}) with (lost read plane blob) in Hsp.
  unfold write_quorum, gm_total in Hq. pose proof total_of_mode as Ht. unfold total_shards, gm_total in Ht.
  assert (ec_data ec = gm_data code) as -> by (destruct Hmode as (E & _); unfold gm_erasure, Erasure_new in E; destruct (_ || _); [done|]; by injection E as <-).
  lia.
Qed.
End Put.

Section Theorems.
Context `{RS : ReedSolomon} `{B3 : Blake3} {SocketAddr : Set} (parse_addr : string -> option SocketAddr).

(** The blobs of an object: each at least a byte and at most a blob long. *)
Lemma put_loop_sizes w cfg ec q data fuel : 0 < gm_blob_size (gc_code cfg) -> forall offset blobs (g g' : @Gw SocketAddr) blobs', 0 <= offset <= len data ->
  put_loop parse_addr fuel w cfg ec q data offset blobs g = (g', Ok blobs') ->
  exists new, blobs' = blobs ++ new /\ Forall (fun b => 0 < bd_len b <= gm_blob_size (gc_code cfg)) new /\ len new <= len data - offset.
Proof.
  intros Hbs. induction fuel as [|fuel IH]; intros offset blobs g g' blobs' Ho E; cbn [put_loop] in E.
  all: destruct (Z.ltb_spec offset (len data)); [|injection E as <- <-; exists []; rewrite app_nil_r; split_and!; [done|apply Forall_nil_2|change (len (@nil BlobDesc)) with 0; lia]].
  { done. }
  destruct (gw_next_blob_id w g) as [g1 [b|]]; [|done]. destruct (write_blob_with_rewrite _ _ _ _ _ _ _ _) as [g2 [p|]]; [|done].
  apply IH in E as (new & -> & Hf & Hl); [|lia]. eexists (_ :: new). rewrite <- app_assoc. split; [done|]. rewrite len_cons.
  split; [|lia]. constructor; [cbn [bd_len]; rewrite len_slice by lia; lia|done].
Qed.
Lemma put_object_sizes w cfg data (g g' : @Gw SocketAddr) layout : 0 < gm_blob_size (gc_code cfg) ->
  put_object parse_addr w cfg data g = (g', Ok layout) ->
  ol_size layout = len data /\ ol_code layout = gc_code cfg /\ len (ol_blobs layout) <= len data
  /\ Forall (fun b => 0 < bd_len b <= gm_blob_size (gc_code cfg)) (ol_blobs layout).
Proof.
  intros Hbs E. unfold put_object in E. destruct (gm_erasure _) as [ec|]; [|done]. destruct (put_loop _ _ _ _ _ _ _ _ _ _) as [g1 [blobs|]] eqn:El; [|done].
  injection E as <- <-. pose proof (len_nonneg data) as H. destruct (put_loop_sizes _ _ _ _ _ _ Hbs 0 _ _ _ _ (conj (Z.le_refl 0) H) El) as (new & -> & Hf & Hl).
  cbn [ol_size ol_code ol_blobs app]. split_and!; [done|done|lia|done].
Qed.

(** An acknowledged put is durable and reads back: when [put_object] succeeds,
    whatever chunks it had to abandon on the way and whichever completions it did
    not wait for, a read that gets from every node either nothing or what the node
    holds answers every request (whole, ranged, suffix) with exactly the bytes of
    the object, as long as of each blob no more than [parity - max(parity/2, 1)]
    stored shards fail to answer; the put leaves the shards of every blob named
    before untouched, and the gateway ready for the next one. *)
Lemma put_then_get : forall (w : GwWorld) cfg ec data (g g' : @Gw SocketAddr) layout,
  mode_ok (gc_code cfg) ec -> world_ok w cfg -> registers_ok w -> gateway_ok w g ->
  put_object parse_addr w cfg data g = (g', Ok layout) ->
  gateway_ok w g'
  /\ (forall b, used w (ws_state (gw_session g)) (gw_step g) b -> same_at b (gw_plane g) (gw_plane g'))
  /\ (exists pieces, data = mjoin pieces /\ Forall2 (stored_ok cfg ec (gw_plane g')) (ol_blobs layout) pieces)
  /\ forall read want,
     (forall n s b, read n s b = None \/ read n s b = gw_plane g' !! (n, s, b)) ->
     Forall (fun blob => len (lost read (gw_plane g') blob) <= gm_parity (gc_code cfg) - Z.max (gm_parity (gc_code cfg) / 2) 1) (ol_blobs layout) ->
     (forall spec, want = Some spec -> 0 <= rsp_first spec /\ forall l, rsp_last spec = Some l -> 0 <= l) ->
     (window <-? resolve_window (ol_size layout) want ;; (read_window read layout window).2)
     = match wanted want data with Some bytes => Ok bytes | None => Err (GE_RangeNotSatisfiable (len data)) end.
Proof.
  intros w cfg ec data g g' layout Hm Hw Hr Hg E. unfold put_object in E. pose proof Hm as (Eec & _). rewrite Eec in E.
  destruct (put_loop _ _ _ _ _ _ _ _ _ _) as [g1 [blobs|]] eqn:El; [|done]. injection E as <- <-. pose proof (len_nonneg data) as Hn.
  destruct (put_loop_ok parse_addr w cfg ec Hm Hw Hr data _ _ _ _ _ _ Hg (conj (Z.le_refl 0) Hn) El) as (Hg' & Hsame & new & pieces & -> & Hj & Hf).
  rewrite Z.sub_0_r, slice_full in Hj by done. split_and!; [done|intros b Hb; by apply Hsame|by exists pieces|].
  intros read want Hread Hlost Hwant. cbn [ol_blobs app] in *.
  set (layout := {| ol_size := len data; ol_code := gc_code cfg; ol_blobs := new |}).
  pose proof (read_exact read layout ec pieces want) as H. rewrite <- Hj in H. apply H; [done| |done..].
  apply Forall2_same_length_lookup_2; [by eapply Forall2_length|]. intros j blob piece Hb Hp.
  eapply stored_readable; [exact Hm| |exact Hread|by eapply Forall_lookup_1 in Hlost]. by eapply Forall2_lookup_lr.
Qed.
End Theorems.

(** *** Evaluation: three copies; the first attempt commits one shard only, then
    two of three commit while the third is written after all. *)

Definition three_copies : GwCodeMode := {| gm_data := 1; gm_parity := 2; gm_stripe_size := 2; gm_blob_size := 3 |}.
Definition ex_cfg : GwConfig := {| gc_code := three_copies; gc_local_node := 1 |}.
Definition ex_world : GwWorld := {|
  wd_pd := fun _ => ex_answers; wd_now := fun _ => 100; wd_register := fun _ _ => Err (CE_Internal "");
  wd_attempt := fun k =>
    if (k =? 1)%nat then {| at_events := [(0%nat, SO_Err EE_ChunkFull); (1%nat, SO_Ok); (2%nat, SO_Join)]; at_landed := [1%nat] |}
    else {| at_events := [(2%nat, SO_Ok); (0%nat, SO_Ok)]; at_landed := [0%nat; 1%nat; 2%nat] |} |}.
Definition ex_gw : @Gw string := {|
  gw_session := {| ws_node_id := 1; ws_stale_after_millis := 10000; ws_state := fresh_state 5; ws_last_heartbeat_millis := 90 |};
  gw_set := ex_set; gw_plane := ∅; gw_step := 0 |}.

Lemma ex_mode_ok : mode_ok three_copies copies.
Proof. split; [reflexivity|]. split; [split; [reflexivity|split; reflexivity]|split; reflexivity]. Qed.
Lemma ex_world_ok : world_ok ex_world ex_cfg.
Proof.
  intros k. split.
  - intros c view E. cbn in E. destruct (c =? 1); [|destruct (c =? 2)]; injection E as <-; repeat constructor; done.
  - cbn. destruct (k =? 1)%nat; (split; apply (bool_decide_unpack _); vm_compute; exact I).
Qed.
Lemma ex_gw_ok : gateway_ok ex_world ex_gw.
Proof.
  unfold gateway_ok. cbn zeta. split; [|split; [|split]].
  - intros c slots Hs. cbn in Hs. by rewrite lookup_empty in Hs.
  - apply fresh_state_ok. unfold uint. lia.
  - intros (k & f & _ & Hr). discriminate Hr.
  - intros node shard b x Hx. cbn in Hx. by rewrite lookup_empty in Hx.
Qed.
