(* ===== verification/MetaStore.v ===== *)
(** The metadata store of a MetaNode (epoch-meta: store/mod.rs, store/mem.rs,
    store/rocks.rs, and the column families of store/keys.rs): the trait as a type
    class over what a store holds, its two engines as instances, the paged scan
    every reader uses, and the paged export. *)

From S2P Require Import Prelude Rocks PdDb.

(** ** Column families (keys.rs) and operations (mod.rs) *)

Inductive MetaCf : Set := Meta | Fs | MetaSeg | Upload | Delq | Ttl | Applied.
#[export] Instance MetaCf_eq_dec : EqDecision MetaCf.
Proof. solve_decision. Defined.
Definition MetaCf_tag (cf : MetaCf) : Z :=
  match cf with
  | Meta => 111 | Fs => 102 | MetaSeg => 103 | Upload => 117 | Delq => 113 | Ttl => 116 | Applied => 255
  end.
Definition MetaCf_cf_name (cf : MetaCf) : string :=
  match cf with
  | Meta => "meta" | Fs => "fs" | MetaSeg => "meta_seg" | Upload => "upload" | Delq => "delq"
  | Ttl => "ttl" | Applied => "applied"
  end.
Definition MetaCf_ALL : list MetaCf := [Meta; Fs; MetaSeg; Upload; Delq; Ttl].

Record StoreOp : Set := { so_cf : MetaCf; so_key : bytes; so_value : option bytes }.
Definition StoreOp_put (cf : MetaCf) (key value : bytes) : StoreOp :=
  {| so_cf := cf; so_key := key; so_value := Some value |}.
Definition StoreOp_delete (cf : MetaCf) (key : bytes) : StoreOp :=
  {| so_cf := cf; so_key := key; so_value := None |}.
Record KeyRange : Set := { kr_cf : MetaCf; kr_start : bytes; kr_end : bytes }.
Abbreviation KvPage := (list (bytes * bytes)) (only parsing).

(** [MSE_Panic] stands for a panic ([BTreeMap::range] on a decreasing range, a
    failed [expect]); [MSE_Fuel] for a loop cut short by the fuel of the model,
    which [paged_scan_ok] excludes. *)
Inductive MetaStoreError : Set :=
| MSE_MissingCf (name : string)
| MSE_ValueCodec
| MSE_Panic
| MSE_Fuel.
Abbreviation MResult := (result MetaStoreError) (only parsing).

(** ** What a family holds, in key order *)

#[export] Instance key_le_dec' : RelDecision key_le.
Proof. intros x y. unfold key_le. apply _. Defined.
Definition in_range (start end_ : bytes) (kv : bytes * bytes) : Prop :=
  lex_leb start kv.1 = true /\ lex_ltb kv.1 end_ = true.
#[export] Instance in_range_dec start end_ kv : Decision (in_range start end_ kv).
Proof. unfold in_range. apply _. Defined.
Definition entries (m : gmap bytes bytes) : KvPage := merge_sort key_le (map_to_list m).
Definition range (m : gmap bytes bytes) (start end_ : bytes) : KvPage :=
  filter (in_range start end_) (entries m).

(** One operation on one family. *)
Definition view_op (cf : MetaCf) (m : gmap bytes bytes) (op : StoreOp) : gmap bytes bytes :=
  if decide (so_cf op = cf)
  then match so_value op with Some v => <[so_key op := v]> m | None => delete (so_key op) m end
  else m.
Definition view_ops (cf : MetaCf) (ops : list StoreOp) (m : gmap bytes bytes) : gmap bytes bytes :=
  foldl (view_op cf) m ops.

(** ** The trait [MetaStore] *)

Class MetaStore := {
  store : Type;
  ms_open : store -> Prop;
  ms_view : store -> MetaCf -> gmap bytes bytes;
  ms_apply : store -> list StoreOp -> MResult store;
  ms_get : store -> MetaCf -> bytes -> MResult (option bytes);
  ms_scan : store -> MetaCf -> bytes -> bytes -> nat -> MResult KvPage;
  ms_snapshot : store -> list KeyRange -> MResult (list (MetaCf * bytes * bytes));
  ms_apply_ok s ops : ms_open s ->
    exists s', ms_apply s ops = Ok s' /\ ms_open s' /\ forall cf, ms_view s' cf = view_ops cf ops (ms_view s cf);
  ms_get_ok s cf k : ms_open s -> ms_get s cf k = Ok (ms_view s cf !! k);
  ms_scan_ok s cf start end_ limit : ms_open s -> lex_leb start end_ = true ->
    ms_scan s cf start end_ limit = Ok (take limit (range (ms_view s cf) start end_));
  ms_snapshot_ok s ranges : ms_open s -> Forall (fun r => lex_leb (kr_start r) (kr_end r) = true) ranges ->
    ms_snapshot s ranges =
      Ok (mjoin ((fun r => (fun kv => (kr_cf r, kv.1, kv.2)) <$> range (ms_view s (kr_cf r)) (kr_start r) (kr_end r))
                   <$> ranges))
}.

(** ** The in-memory engine (mem.rs) *)

Abbreviation MemEngine := (gmap Z (gmap bytes bytes)) (only parsing).
Definition MemEngine_map (e : MemEngine) (cf : MetaCf) : option (gmap bytes bytes) := e !! MetaCf_tag cf.
Definition MemEngine_map_mut (e : MemEngine) (cf : MetaCf) (f : gmap bytes bytes -> gmap bytes bytes) : MemEngine :=
  <[MetaCf_tag cf := f (default ∅ (e !! MetaCf_tag cf))]> e.
Definition MemEngine_apply (e : MemEngine) (ops : list StoreOp) : MResult MemEngine :=
  Ok (foldl (fun e op => MemEngine_map_mut e (so_cf op) (fun m =>
        match so_value op with Some v => <[so_key op := v]> m | None => delete (so_key op) m end)) e ops).
Definition MemEngine_get (e : MemEngine) (cf : MetaCf) (key : bytes) : MResult (option bytes) :=
  Ok (m ← MemEngine_map e cf; m !! key).
(** [BTreeMap::range(start..end)] *)
Definition btree_range (m : gmap bytes bytes) (start end_ : bytes) : MResult KvPage :=
  if lex_ltb end_ start then Err MSE_Panic else Ok (range m start end_).
Definition MemEngine_scan (e : MemEngine) (cf : MetaCf) (start end_ : bytes) (limit : nat) : MResult KvPage :=
  match MemEngine_map e cf with
  | None => Ok []
  | Some m => page <-? btree_range m start end_ ;; Ok (take limit page)
  end.
Fixpoint MemEngine_snapshot (e : MemEngine) (ranges : list KeyRange) : MResult (list (MetaCf * bytes * bytes)) :=
  match ranges with
  | [] => Ok []
  | r :: ranges =>
      match MemEngine_map e (kr_cf r) with
      | None => MemEngine_snapshot e ranges
      | Some m =>
          page <-? btree_range m (kr_start r) (kr_end r) ;;
          rest <-? MemEngine_snapshot e ranges ;;
          Ok (((fun kv => (kr_cf r, kv.1, kv.2)) <$> page) ++ rest)
      end
  end.

Lemma MetaCf_tag_inj cf cf' : MetaCf_tag cf = MetaCf_tag cf' -> cf = cf'.
Proof. by destruct cf, cf'. Qed.
Definition mem_view (e : MemEngine) (cf : MetaCf) : gmap bytes bytes := default ∅ (MemEngine_map e cf).
Lemma mem_view_apply (e : MemEngine) ops cf :
  mem_view (foldl (fun e op => MemEngine_map_mut e (so_cf op) (fun m =>
        match so_value op with Some v => <[so_key op := v]> m | None => delete (so_key op) m end)) e ops) cf
  = view_ops cf ops (mem_view e cf).
Proof.
  revert e. induction ops as [|op ops IH]; intros e; simpl; [done|]. rewrite IH. unfold view_ops. simpl. f_equal.
  unfold mem_view, MemEngine_map, MemEngine_map_mut, view_op. case_decide as E.
  - rewrite E, lookup_insert_eq. done.
  - rewrite lookup_insert_ne; [done|]. intros E'. by apply E, MetaCf_tag_inj.
Qed.

Lemma range_empty start end_ : range ∅ start end_ = [].
Proof. done. Qed.
Lemma btree_range_ok m start end_ : lex_leb start end_ = true -> btree_range m start end_ = Ok (range m start end_).
Proof. unfold btree_range, lex_leb. by destruct (lex_ltb end_ start). Qed.

#[export] Program Instance mem_store : MetaStore := {|
  store := MemEngine; ms_open _ := True; ms_view := mem_view; ms_apply := MemEngine_apply;
  ms_get := MemEngine_get; ms_scan := MemEngine_scan; ms_snapshot := MemEngine_snapshot |}.
Next Obligation. intros e ops _. eexists. split; [done|]. split; [done|]. intros cf. apply mem_view_apply. Qed.
Next Obligation. intros e cf k _. unfold MemEngine_get, mem_view. by destruct (MemEngine_map e cf). Qed.
Next Obligation.
  intros e cf start end_ limit _ Hle. unfold MemEngine_scan, mem_view.
  destruct (MemEngine_map e cf) as [m|]; simpl; [by rewrite btree_range_ok|]. by destruct limit.
Qed.
Next Obligation.
  intros e ranges _. induction ranges as [|r ranges IH]; intros Hr; simpl; [done|].
  apply Forall_cons in Hr as [Hr Hrs]. unfold mem_view at 1.
  destruct (MemEngine_map e (kr_cf r)) as [m|]; simpl; [|by apply IH].
  rewrite btree_range_ok, IH by done. done.
Qed.

(** ** Sorted pages *)

#[local] Instance key_le_total' : Total key_le.
Proof. intros x y. apply lex_leb_total. Qed.
#[local] Instance key_le_trans' : Transitive key_le.
Proof. intros x y z. apply lex_leb_trans. Qed.

Definition key_lt (x y : bytes * bytes) : Prop := lex_ltb x.1 y.1 = true.
Lemma key_lt_irrefl x : ~ key_lt x x.
Proof. unfold key_lt. by rewrite lex_ltb_irrefl. Qed.
Lemma key_lt_trans x y z : key_lt x y -> key_lt y z -> key_lt x z.
Proof. apply lex_ltb_trans. Qed.
Lemma sorted_keys (l : KvPage) :
  StronglySorted (fun a b => lex_ltb a b = true) l.*1 <-> StronglySorted key_lt l.
Proof.
  induction l as [|x l IH]; simpl; [split; constructor|]. split; intros Hs; inversion Hs as [|? ? Hl Hf]; subst.
  - constructor; [by apply IH|]. rewrite Forall_fmap in Hf. exact Hf.
  - constructor; [by apply IH|]. rewrite Forall_fmap. exact Hf.
Qed.
Lemma sorted_nodup (l : KvPage) : StronglySorted key_lt l -> NoDup l.*1.
Proof.
  induction 1 as [|x l Hs IH Hf]; [constructor|]. rewrite fmap_cons. apply NoDup_cons. split; [|done].
  intros (y & E & Hy)%list_elem_of_fmap. rewrite Forall_forall in Hf. specialize (Hf y Hy). unfold key_lt in Hf.
  by rewrite E, lex_ltb_irrefl in Hf.
Qed.
Lemma entries_sorted m : StronglySorted key_lt (entries m).
Proof.
  apply sorted_keys, StronglySorted_le_lt.
  - unfold entries. rewrite merge_sort_Permutation. apply NoDup_fst_map_to_list.
  - apply StronglySorted_merge_sort; apply _.
Qed.
Lemma elem_of_entries m k v : (k, v) ∈ entries m <-> m !! k = Some v.
Proof. unfold entries. by rewrite merge_sort_Permutation, elem_of_map_to_list. Qed.
Lemma sorted_filter (P : bytes * bytes -> Prop) `{forall x, Decision (P x)} l :
  StronglySorted key_lt l -> StronglySorted key_lt (filter P l).
Proof.
  induction 1 as [|x l Hs IH Hf]; [constructor|]. rewrite filter_cons. case_decide; [|done]. constructor; [done|].
  apply Forall_forall. intros y [_ Hy]%list_elem_of_filter. rewrite Forall_forall in Hf. auto.
Qed.
(** A page is determined by its entries. *)
Lemma sorted_unique (l1 l2 : KvPage) : StronglySorted key_lt l1 -> StronglySorted key_lt l2 ->
  (forall x, x ∈ l1 <-> x ∈ l2) -> l1 = l2.
Proof.
  intros H1. revert l2. induction H1 as [|x l1 Hs IH Hf]; intros l2 H2 E.
  - destruct l2 as [|y l2]; [done|]. exfalso. apply (not_elem_of_nil y), E. left.
  - inversion H2 as [|y l2' Hs2 Hf2]; subst.
    { exfalso. apply (not_elem_of_nil x), E. left. }
    rewrite Forall_forall in Hf, Hf2.
    assert (x = y) as ->.
    { assert (x ∈ y :: l2') as [->|Hx]%elem_of_cons by (apply E; left); [done|].
      assert (y ∈ x :: l1) as [->|Hy]%elem_of_cons by (apply E; left); [done|].
      destruct (key_lt_irrefl x). eapply key_lt_trans; [by apply Hf|by apply Hf2]. }
    f_equal. apply IH; [done|]. intros z. split; intros Hz.
    + assert (z ∈ y :: l2') as [->|?]%elem_of_cons by (apply E; by right); [|done].
      by destruct (key_lt_irrefl y); apply Hf.
    + assert (z ∈ y :: l1) as [->|?]%elem_of_cons by (apply E; by right); [|done].
      by destruct (key_lt_irrefl y); apply Hf2.
Qed.
Lemma elem_of_range m start end_ k v :
  (k, v) ∈ range m start end_ <-> m !! k = Some v /\ lex_leb start k = true /\ lex_ltb k end_ = true.
Proof. unfold range. rewrite list_elem_of_filter, elem_of_entries. unfold in_range. simpl. tauto. Qed.
Lemma range_sorted m start end_ : StronglySorted key_lt (range m start end_).
Proof. apply sorted_filter, entries_sorted. Qed.

(** ** The RocksDB engine (rocks.rs) *)

Section RocksEngine.
Context {RDB : RocksDb no_merge}.

Definition RocksEngine_cf (db : SmDb) (cf : MetaCf) : MResult rdb :=
  ok_or (db !! MetaCf_cf_name cf) (MSE_MissingCf (MetaCf_cf_name cf)).
Fixpoint rocks_stage (db : SmDb) (ops : list StoreOp) (batch : WriteBatch) : MResult WriteBatch :=
  match ops with
  | [] => Ok batch
  | op :: ops =>
      _cf <-? RocksEngine_cf db (so_cf op) ;;
      rocks_stage db ops match so_value op with
                         | Some v => put_cf batch (MetaCf_cf_name (so_cf op)) (so_key op) v
                         | None => delete_cf batch (MetaCf_cf_name (so_cf op)) (so_key op)
                         end
  end.
Definition RocksEngine_apply (db : SmDb) (ops : list StoreOp) : MResult SmDb :=
  batch <-? rocks_stage db ops [] ;; Ok (write_opt db batch).
Definition RocksEngine_get (db : SmDb) (cf : MetaCf) (key : bytes) : MResult (option bytes) :=
  d <-? RocksEngine_cf db cf ;; Ok (rdb_get d key).
(** The loop of [scan]: it stops at the end bound or when the page is full. *)
Fixpoint rocks_scan_loop (items : KvPage) (end_ : bytes) (limit : nat) : KvPage :=
  match items with
  | [] => []
  | (k, v) :: items =>
      match limit with
      | O => []
      | S limit' => if lex_leb end_ k then [] else (k, v) :: rocks_scan_loop items end_ limit'
      end
  end.
Definition RocksEngine_scan (db : SmDb) (cf : MetaCf) (start end_ : bytes) (limit : nat) : MResult KvPage :=
  d <-? RocksEngine_cf db cf ;; Ok (rocks_scan_loop (rdb_iter d start) end_ limit).
Fixpoint rocks_until (items : KvPage) (end_ : bytes) : KvPage :=
  match items with
  | [] => []
  | (k, v) :: items => if lex_leb end_ k then [] else (k, v) :: rocks_until items end_
  end.
Fixpoint RocksEngine_snapshot (db : SmDb) (ranges : list KeyRange) : MResult (list (MetaCf * bytes * bytes)) :=
  match ranges with
  | [] => Ok []
  | r :: ranges =>
      d <-? RocksEngine_cf db (kr_cf r) ;;
      rest <-? RocksEngine_snapshot db ranges ;;
      Ok (((fun kv => (kr_cf r, kv.1, kv.2)) <$> rocks_until (rdb_iter d (kr_start r)) (kr_end r)) ++ rest)
  end.

Lemma filter_none {A} (P : A -> Prop) `{forall x, Decision (P x)} (l : list A) :
  Forall (fun x => ~ P x) l -> filter P l = [].
Proof. induction 1 as [|x l Hx Hl IH]; [done|]. by rewrite filter_cons_False. Qed.
Lemma rocks_until_filter (l : KvPage) end_ : StronglySorted key_lt l ->
  rocks_until l end_ = filter (fun kv => lex_ltb kv.1 end_ = true) l.
Proof.
  induction 1 as [|[k v] l Hs IH Hf]; [done|]. cbn [rocks_until]. unfold lex_leb.
  destruct (lex_ltb k end_) eqn:Hk; cbn [negb].
  - by rewrite filter_cons_True, IH by done.
  - rewrite filter_cons_False by (simpl; congruence). symmetry. apply filter_none.
    eapply Forall_impl; [exact Hf|]. intros [k' v'] Hlt Hk'. unfold key_lt in Hlt. simpl in *.
    rewrite (lex_ltb_trans _ _ _ Hlt Hk') in Hk. done.
Qed.
Lemma rocks_scan_take l end_ limit : rocks_scan_loop l end_ limit = take limit (rocks_until l end_).
Proof.
  revert limit. induction l as [|[k v] l IH]; intros [|limit]; simpl; try done.
  destruct (lex_leb end_ k); [done|]. by rewrite IH.
Qed.
Lemma iter_range d start end_ :
  rocks_until (rdb_iter d start) end_ = range (tab d) start end_.
Proof.
  assert (StronglySorted key_lt (rdb_iter d start)) as Hs by apply sorted_keys, rdb_iter_sorted.
  rewrite rocks_until_filter by done. apply sorted_unique; [by apply sorted_filter|apply range_sorted|].
  intros [k v]. rewrite elem_of_range, list_elem_of_filter, rdb_iter_elem, tab_get. simpl. tauto.
Qed.

(** Every family the engine opens. *)
Definition rocks_open (db : SmDb) : Prop := forall cf, is_Some (db !! MetaCf_cf_name cf).
Definition rocks_view (db : SmDb) (cf : MetaCf) : gmap bytes bytes := default ∅ (tab <$> db !! MetaCf_cf_name cf).

Lemma cf_name_inj cf cf' : MetaCf_cf_name cf = MetaCf_cf_name cf' -> cf = cf'.
Proof. by destruct cf, cf'. Qed.
Lemma rocks_stage_ok db ops batch : rocks_open db ->
  exists batch', rocks_stage db ops batch = Ok batch'
    /\ forall cf, pending db batch' (MetaCf_cf_name cf) = view_ops cf ops (pending db batch (MetaCf_cf_name cf)).
Proof.
  intros Hdb. revert batch. induction ops as [|op ops IH]; intros batch; [eexists; split; [done|]; done|].
  cbn [rocks_stage]. unfold RocksEngine_cf. destruct (Hdb (so_cf op)) as [d Hd]. rewrite Hd. cbn [ok_or].
  edestruct IH as (batch' & -> & Hv). eexists. split; [done|]. intros cf. rewrite Hv. unfold view_ops. simpl. f_equal.
  unfold view_op. destruct (so_value op) as [v|]; case_decide as E.
  - by rewrite <- E, pending_put.
  - rewrite pending_put_ne; [done|]. intros E'. by apply E, symmetry, cf_name_inj.
  - by rewrite <- E, pending_delete.
  - rewrite pending_delete_ne; [done|]. intros E'. by apply E, symmetry, cf_name_inj.
Qed.

#[export] Program Instance rocks_store : MetaStore := {|
  store := SmDb; ms_open := rocks_open; ms_view := rocks_view; ms_apply := RocksEngine_apply;
  ms_get := RocksEngine_get; ms_scan := RocksEngine_scan; ms_snapshot := RocksEngine_snapshot |}.
Next Obligation.
  intros db ops Hdb. destruct (rocks_stage_ok db ops [] Hdb) as (batch & E & Hv). unfold RocksEngine_apply.
  rewrite E. eexists. split; [done|]. split.
  - intros cf. by apply write_opt_dom.
  - intros cf. unfold rocks_view at 1. destruct (Hdb cf) as [d Hd]. rewrite (pending_write _ _ _ _ Hd). apply Hv.
Qed.
Next Obligation.
  intros db cf k Hdb. unfold RocksEngine_get, RocksEngine_cf, rocks_view. destruct (Hdb cf) as [d Hd].
  rewrite Hd. simpl. by rewrite tab_get.
Qed.
Next Obligation.
  intros db cf start end_ limit Hdb _. unfold RocksEngine_scan, RocksEngine_cf, rocks_view.
  destruct (Hdb cf) as [d Hd]. rewrite Hd. simpl. by rewrite rocks_scan_take, iter_range.
Qed.
Next Obligation.
  intros db ranges Hdb _. induction ranges as [|r ranges IH]; simpl; [done|].
  unfold RocksEngine_cf, rocks_view. destruct (Hdb (kr_cf r)) as [d Hd]. rewrite Hd. simpl.
  rewrite IH. simpl. by rewrite iter_range.
Qed.
End RocksEngine.

(** ** Scanning in pages *)

Definition next_key (k : bytes) : bytes := k ++ [0].
Definition keys_ok (m : gmap bytes bytes) : Prop := forall k v, m !! k = Some v -> is_bytes k.

Lemma next_key_le k k' : is_bytes k' -> lex_leb (next_key k) k' = lex_ltb k k'.
Proof.
  unfold next_key, lex_leb. revert k'. induction k as [|x k IH]; intros [|y k'] Hk; simpl; try done.
  - apply Forall_cons in Hk as [Hy _]. unfold is_byte in Hy. destruct (Z.ltb_spec y 0); [lia|].
    by destruct (Z.eqb_spec y 0), k'.
  - apply Forall_cons in Hk as [_ Hk]. rewrite negb_orb, negb_andb.
    destruct (Z.ltb_spec y x), (Z.ltb_spec x y), (Z.eqb_spec y x), (Z.eqb_spec x y); simpl; try lia; try done.
    by apply IH.
Qed.
Lemma range_after m start end_ l1 k v l2 : keys_ok m -> range m start end_ = l1 ++ (k, v) :: l2 ->
  range m (next_key k) end_ = l2.
Proof.
  intros Hok E. pose proof (range_sorted m start end_) as Hs. rewrite E in Hs.
  apply StronglySorted_app in Hs as (Hlt & _ & Hs). inversion Hs as [|? ? Hs2 Hf]; subst.
  apply sorted_unique; [apply range_sorted|done|]. intros [k' v']. rewrite elem_of_range. split.
  - intros (Hm & Hle & Hend). rewrite next_key_le in Hle by (by eapply Hok).
    assert ((k, v) ∈ range m start end_) as Hin by (rewrite E; set_solver).
    apply elem_of_range in Hin as (_ & Hst & _).
    assert ((k', v') ∈ range m start end_) as Hin'.
    { apply elem_of_range. split; [done|]. split; [|done]. eapply lex_leb_trans; [exact Hst|].
      apply lex_leb_lt_or_eq. auto. }
    rewrite E in Hin'. apply elem_of_app in Hin' as [Hin'|[E'|?]%elem_of_cons]; [| |done].
    + assert (key_lt (k', v') (k, v)) as Hc by (apply Hlt; [done|left]). unfold key_lt in Hc. simpl in Hc.
      pose proof (lex_ltb_trans _ _ _ Hle Hc) as Hx. by rewrite lex_ltb_irrefl in Hx.
    + injection E' as -> ->. by rewrite lex_ltb_irrefl in Hle.
  - intros Hin. assert ((k', v') ∈ range m start end_) as Hin' by (rewrite E; set_solver).
    apply elem_of_range in Hin' as (Hm & _ & Hend). split; [done|]. split; [|done].
    rewrite next_key_le by (by eapply Hok). rewrite Forall_forall in Hf. by apply (Hf (k', v')).
Qed.

Lemma page_split (l : KvPage) limit page : page = take limit l -> (0 < limit)%nat ->
  match last page with
  | None => l = []
  | Some (k, v) => exists l1, l = l1 ++ (k, v) :: drop limit l /\ page = l1 ++ [(k, v)]
  end.
Proof.
  intros -> Hl. destruct (last (take limit l)) as [[k v]|] eqn:E.
  - apply last_Some in E as [l1 E]. exists l1. split; [|done].
    rewrite <- (take_drop limit l) at 1. rewrite E, <- app_assoc. done.
  - apply last_None in E. by destruct l, limit; try lia.
Qed.

Section Paged.
Context `{MetaStore}.

(** [loop { page = scan(..)?; if page.is_empty() { break } cursor = last key + 0;
    for kv in page { f } }], which every reader of a key range is. *)
Fixpoint paged_scan {A} (fuel : nat) (s : store) (cf : MetaCf) (cursor end_ : bytes) (limit : nat)
    (f : A -> bytes * bytes -> MResult A) (acc : A) : MResult A :=
  match fuel with
  | O => Err MSE_Fuel
  | S fuel =>
      page <-? ms_scan s cf cursor end_ limit ;;
      match last page with
      | None => Ok acc
      | Some kv =>
          acc <-? iter_try f page acc ;;
          paged_scan fuel s cf (next_key kv.1) end_ limit f acc
      end
  end.
Definition scan_fuel (s : store) (cf : MetaCf) : nat := S (size (ms_view s cf)).

Lemma iter_try_app {S E} (f : S -> bytes * bytes -> result E S) l1 l2 s :
  iter_try f (l1 ++ l2) s = (s' <-? iter_try f l1 s ;; iter_try f l2 s').
Proof. revert s. induction l1 as [|kv l1 IH]; intros s; simpl; [done|]. destruct (f s kv); [apply IH|done]. Qed.

Lemma paged_scan_range {A} fuel s cf start end_ limit (f : A -> bytes * bytes -> MResult A) acc :
  ms_open s -> keys_ok (ms_view s cf) -> is_bytes end_ -> (0 < limit)%nat -> lex_leb start end_ = true ->
  (length (range (ms_view s cf) start end_) < fuel)%nat ->
  paged_scan fuel s cf start end_ limit f acc = iter_try f (range (ms_view s cf) start end_) acc.
Proof.
  intros Ho Hk Hb Hl. revert start acc. induction fuel as [|fuel IH]; intros start acc Hle Hf; [lia|].
  cbn [paged_scan]. rewrite ms_scan_ok by done. cbn [iter_try].
  pose proof (page_split (range (ms_view s cf) start end_) limit _ eq_refl Hl) as Hp.
  destruct (last (take limit _)) as [[k v]|]; [|by rewrite Hp].
  destruct Hp as (l1 & E & Epage). cbn [fst].
  rewrite <- (take_drop limit (range (ms_view s cf) start end_)) at 2. rewrite iter_try_app.
  destruct (iter_try f (take limit _) acc) as [acc'|]; [|done].
  pose proof (range_after _ _ _ _ _ _ _ Hk E) as Hr. rewrite IH.
  - by rewrite Hr.
  - rewrite next_key_le by done.
    assert ((k, v) ∈ range (ms_view s cf) start end_) as Hin by (rewrite E; set_solver).
    by apply elem_of_range in Hin as (_ & _ & ?).
  - rewrite Hr. apply (f_equal length) in E. rewrite length_app in E. simpl in E. lia.
Qed.
Lemma length_range m start end_ : (length (range m start end_) <= size m)%nat.
Proof.
  unfold range, entries. rewrite length_filter, merge_sort_Permutation, length_map_to_list. done.
Qed.
Lemma paged_scan_ok {A} s cf start end_ limit (f : A -> bytes * bytes -> MResult A) acc :
  ms_open s -> keys_ok (ms_view s cf) -> is_bytes end_ -> (0 < limit)%nat -> lex_leb start end_ = true ->
  paged_scan (scan_fuel s cf) s cf start end_ limit f acc = iter_try f (range (ms_view s cf) start end_) acc.
Proof.
  intros. apply paged_scan_range; try done. unfold scan_fuel. pose proof (length_range (ms_view s cf) start end_). lia.
Qed.
End Paged.

(** ** The paged export *)

Abbreviation SnapEntry := (MetaCf * bytes * bytes)%type (only parsing).
Record ExportCursor : Set := { range_index : nat; after_key : bytes }.
Record ExportPage : Set := { ep_entries : list SnapEntry; ep_next : option ExportCursor }.
Definition tag_cf (cf : MetaCf) (page : KvPage) : list SnapEntry := (fun kv => (cf, kv.1, kv.2)) <$> page.

Section PagedExport.
Context `{MetaStore}.

(** The inner loop of [export_page] on the range of index [idx].  It scans at
    most twice: a scan that does not fill the page has reached the end of the
    range, so three turns always suffice ([export_range_ok]). *)
Fixpoint export_range (fuel : nat) (s : store) (idx : nat) (r : KeyRange) (scan_start : bytes) (limit : nat)
    (acc : list SnapEntry) : MResult (list SnapEntry * option ExportCursor) :=
  match fuel with
  | O => Err MSE_Fuel
  | S fuel =>
      if (limit <=? length acc)%nat
      then match last acc with
           | None => Err MSE_Panic
           | Some e => Ok (acc, Some {| range_index := idx; after_key := e.1.2 |})
           end
      else
        page <-? ms_scan s (kr_cf r) scan_start (kr_end r) (limit - length acc) ;;
        match last page with
        | None => Ok (acc, None)
        | Some kv => export_range fuel s idx r (next_key kv.1) limit (acc ++ tag_cf (kr_cf r) page)
        end
  end.
Fixpoint export_ranges (s : store) (idx : nat) (ranges : list KeyRange) (resume_after : option bytes) (limit : nat)
    (acc : list SnapEntry) : MResult ExportPage :=
  match ranges with
  | [] => Ok {| ep_entries := acc; ep_next := None |}
  | r :: ranges =>
      p <-? export_range 3 s idx r match resume_after with Some k => next_key k | None => kr_start r end limit acc ;;
      match p.2 with
      | Some c => Ok {| ep_entries := p.1; ep_next := Some c |}
      | None => export_ranges s (S idx) ranges None limit p.1
      end
  end.
Definition export_page (s : store) (ranges : list KeyRange) (cursor : option ExportCursor) (limit : nat)
    : MResult ExportPage :=
  let '(start_idx, resume_after) :=
    match cursor with Some c => (range_index c, Some (after_key c)) | None => (0%nat, None) end in
  export_ranges s start_idx (drop start_idx ranges) resume_after limit [].

(** What a client does: ask for the next page until no cursor comes back. *)
Fixpoint export_all (fuel : nat) (s : store) (ranges : list KeyRange) (cursor : option ExportCursor) (limit : nat)
    : MResult (list (list SnapEntry)) :=
  match fuel with
  | O => Err MSE_Fuel
  | S fuel =>
      p <-? export_page s ranges cursor limit ;;
      match ep_next p with
      | None => Ok [ep_entries p]
      | Some c => rest <-? export_all fuel s ranges (Some c) limit ;; Ok (ep_entries p :: rest)
      end
  end.

(** The ranges of one export, over stores whose keys are byte strings. *)
Definition range_ok (s : store) (r : KeyRange) : Prop :=
  keys_ok (ms_view s (kr_cf r)) /\ is_bytes (kr_end r) /\ lex_leb (kr_start r) (kr_end r) = true.
Definition range_entries (s : store) (r : KeyRange) (start : bytes) : list SnapEntry :=
  tag_cf (kr_cf r) (range (ms_view s (kr_cf r)) start (kr_end r)).
Definition ranges_entries (s : store) (ranges : list KeyRange) : list SnapEntry :=
  mjoin ((fun r => range_entries s r (kr_start r)) <$> ranges).
(** What is left to export from a cursor on. *)
Definition rest_from (s : store) (ranges : list KeyRange) (resume_after : option bytes) : list SnapEntry :=
  match ranges with
  | [] => []
  | r :: ranges =>
      range_entries s r match resume_after with Some k => next_key k | None => kr_start r end
      ++ ranges_entries s ranges
  end.
Definition resume_ok (ranges : list KeyRange) (resume_after : option bytes) : Prop :=
  match ranges, resume_after with
  | r :: _, Some k => lex_leb (next_key k) (kr_end r) = true
  | _, _ => True
  end.

Lemma length_tag_cf cf page : length (tag_cf cf page) = length page.
Proof. apply length_fmap. Qed.
Lemma tag_cf_app cf p1 p2 : tag_cf cf (p1 ++ p2) = tag_cf cf p1 ++ tag_cf cf p2.
Proof. apply fmap_app. Qed.
Lemma last_tag_cf acc cf l k v : last (acc ++ tag_cf cf (l ++ [(k, v)])) = Some (cf, k, v).
Proof. rewrite tag_cf_app, app_assoc. exact (last_snoc _ _). Qed.

(** One range: it adds what fits; the page that fills names the key it stopped at. *)
Lemma export_range_ok s idx r start limit acc :
  ms_open s -> range_ok s r -> lex_leb start (kr_end r) = true -> (length acc < limit)%nat ->
  let rem := range (ms_view s (kr_cf r)) start (kr_end r) in
  let n := (limit - length acc)%nat in
  exists c, export_range 3 s idx r start limit acc = Ok (acc ++ tag_cf (kr_cf r) (take n rem), c)
    /\ match c with
       | None => (length rem < n)%nat
       | Some c => (n <= length rem)%nat /\ range_index c = idx
                   /\ lex_leb (next_key (after_key c)) (kr_end r) = true
                   /\ range (ms_view s (kr_cf r)) (next_key (after_key c)) (kr_end r) = drop n rem
       end.
Proof.
  intros Ho (Hk & Hb & _) Hle Hlt rem n. cbn [export_range].
  destruct (Nat.leb_spec limit (length acc)); [lia|]. rewrite ms_scan_ok by done. fold n rem. cbn.
  pose proof (page_split rem n _ eq_refl ltac:(lia)) as Hp.
  destruct (last (take n rem)) as [[k v]|].
  2: { exists None. rewrite Hp. split; [by destruct n; rewrite app_nil_r|simpl; lia]. }
  destruct Hp as (l1 & E & Ep). pose proof (range_after _ _ _ _ _ _ _ Hk E) as Hr. cbn [fst].
  assert (lex_leb (next_key k) (kr_end r) = true) as Hle'.
  { assert ((k, v) ∈ rem) as (_ & _ & ?)%elem_of_range by (rewrite E; set_solver). by rewrite next_key_le. }
  rewrite length_app, length_tag_cf, length_take. destruct (Nat.leb_spec limit (length acc + n `min` length rem)).
  - rewrite Ep, last_tag_cf. eexists. split; [done|]. simpl. split; [lia|]. done.
  - rewrite ms_scan_ok, Hr, drop_ge by (done || lia). rewrite take_nil. exists None. split; [done|]. cbn. lia.
Qed.

Lemma export_ranges_ok s idx ranges resume limit acc :
  ms_open s -> Forall (range_ok s) ranges -> resume_ok ranges resume -> (length acc < limit)%nat ->
  let rest := rest_from s ranges resume in
  let n := (limit - length acc)%nat in
  exists p, export_ranges s idx ranges resume limit acc = Ok p
    /\ ep_entries p = acc ++ take n rest
    /\ match ep_next p with
       | None => (length rest < n)%nat
       | Some c => (idx <= range_index c)%nat /\ (n <= length rest)%nat
                   /\ resume_ok (drop (range_index c - idx) ranges) (Some (after_key c))
                   /\ rest_from s (drop (range_index c - idx) ranges) (Some (after_key c)) = drop n rest
       end.
Proof.
  intros Ho. revert idx resume acc. induction ranges as [|r ranges IH]; intros idx resume acc Hr Hres Hlt rest n.
  { eexists. split; [done|]. subst rest n. cbn -[Nat.sub]. rewrite take_nil, app_nil_r. split; [done|lia]. }
  apply Forall_cons in Hr as [Hr Hrs]. cbn [export_ranges].
  set (start := match resume with Some k => next_key k | None => kr_start r end).
  assert (lex_leb start (kr_end r) = true) as Hle by (destruct resume; [done|apply Hr]).
  destruct (export_range_ok s idx r start limit acc Ho Hr Hle Hlt) as (c & -> & Hc). fold n in Hc |- *.
  set (rem := range (ms_view s (kr_cf r)) start (kr_end r)) in *.
  assert (rest = tag_cf (kr_cf r) rem ++ ranges_entries s ranges) as Hrest by done. cbn [snd fst].
  assert (length (tag_cf (kr_cf r) rem) = length rem) as Hlen by apply length_tag_cf.
  destruct c as [c|].
  - destruct Hc as (Hn & <- & Hle' & Hd). eexists. split; [done|]. cbn [ep_entries ep_next].
    rewrite Nat.sub_diag. cbn [drop resume_ok rest_from].
    rewrite Hrest, take_app_le, drop_app_le, length_app by lia. unfold tag_cf at 1 2. rewrite fmap_take.
    split; [done|]. split; [lia|]. split; [lia|]. split; [done|]. unfold range_entries. rewrite Hd.
    unfold tag_cf. by rewrite fmap_drop.
  - rewrite take_ge by lia.
    destruct (IH (S idx) None (acc ++ tag_cf (kr_cf r) rem) Hrs) as (p & -> & He & Hp).
    { by destruct ranges. } { rewrite length_app. lia. }
    assert (rest_from s ranges None = ranges_entries s ranges) as Hnone by by destruct ranges.
    rewrite Hnone, length_app, Hlen in *.
    assert (n = length rem + (limit - (length acc + length rem)))%nat as Hn by lia.
    exists p. split; [done|]. rewrite Hrest. split.
    { rewrite He, <- app_assoc, Hn, take_app_add'; [done|lia]. }
    destruct (ep_next p) as [c|]; [|rewrite length_app; lia].
    destruct Hp as (Hi & Hl & Hok & Hd). split; [lia|]. split; [rewrite length_app; lia|].
    replace (range_index c - idx)%nat with (S (range_index c - S idx)) by lia. cbn [drop].
    split; [done|]. rewrite Hd, Hn, drop_app_add'; [done|lia].
Qed.

Definition cursor_rest (s : store) (ranges : list KeyRange) (cursor : option ExportCursor) : list SnapEntry :=
  match cursor with
  | Some c => rest_from s (drop (range_index c) ranges) (Some (after_key c))
  | None => rest_from s ranges None
  end.
Definition cursor_ok (ranges : list KeyRange) (cursor : option ExportCursor) : Prop :=
  match cursor with Some c => resume_ok (drop (range_index c) ranges) (Some (after_key c)) | None => True end.

Lemma export_page_ok s ranges cursor limit :
  ms_open s -> Forall (range_ok s) ranges -> cursor_ok ranges cursor -> (0 < limit)%nat ->
  exists p, export_page s ranges cursor limit = Ok p
    /\ ep_entries p = take limit (cursor_rest s ranges cursor)
    /\ match ep_next p with
       | None => (length (cursor_rest s ranges cursor) < limit)%nat
       | Some c => (limit <= length (cursor_rest s ranges cursor))%nat /\ cursor_ok ranges (Some c)
                   /\ cursor_rest s ranges (Some c) = drop limit (cursor_rest s ranges cursor)
       end.
Proof.
  intros Ho Hr Hc Hl. unfold export_page.
  destruct cursor as [[i k]|]; cbn [range_index after_key cursor_rest cursor_ok] in *.
  - destruct (export_ranges_ok s i (drop i ranges) (Some k) limit []) as (p & E & He & Hp);
      [done|by apply Forall_drop|done|simpl; lia|].
    exists p. rewrite Nat.sub_0_r in *. split; [done|]. split; [done|].
    destruct (ep_next p) as [c|]; [|done]. destruct Hp as (Hi & Hn & Hok & Hd). rewrite drop_drop in Hok, Hd.
    replace (i + (range_index c - i))%nat with (range_index c) in * by lia. done.
  - destruct (export_ranges_ok s 0 ranges None limit []) as (p & E & He & Hp); [done|done|by destruct ranges|simpl; lia|].
    exists p. simpl in *. rewrite Nat.sub_0_r in *. split; [done|]. split; [done|].
    destruct (ep_next p) as [c|]; [|done]. rewrite Nat.sub_0_r in Hp. tauto.
Qed.
Lemma export_all_from fuel s ranges cursor limit :
  ms_open s -> Forall (range_ok s) ranges -> cursor_ok ranges cursor -> (0 < limit)%nat ->
  (length (cursor_rest s ranges cursor) < fuel)%nat ->
  exists pages, export_all fuel s ranges cursor limit = Ok pages
    /\ mjoin pages = cursor_rest s ranges cursor /\ Forall (fun p => (length p <= limit)%nat) pages.
Proof.
  intros Ho Hr Hc Hl. revert cursor Hc. induction fuel as [|fuel IH]; intros cursor Hc Hf; [lia|].
  cbn [export_all]. destruct (export_page_ok s ranges cursor limit Ho Hr Hc Hl) as (p & -> & He & Hp).
  assert (length (ep_entries p) <= limit)%nat as Hlim by (rewrite He, length_take; lia).
  destruct (ep_next p) as [c|].
  - destruct Hp as (Hn & Hok & Hd). destruct (IH (Some c) Hok) as (pages & -> & Hj & Hb).
    { rewrite Hd, length_drop. lia. }
    eexists. split; [done|]. split; [|by constructor]. change (mjoin (ep_entries p :: pages)) with (ep_entries p ++ mjoin pages). rewrite Hj, Hd, He. apply take_drop.
  - eexists. split; [done|]. split; [|by repeat constructor]. cbn. rewrite He, app_nil_r. apply take_ge. lia.
Qed.

(** Exporting a partition in pages of any positive size ends, and the pages
    put together are exactly the entries of one snapshot of its ranges, in order:
    none is missed or repeated at a page or a range boundary, and no page holds
    more than the limit. *)
Theorem export_complete s ranges limit :
  ms_open s -> Forall (range_ok s) ranges -> (0 < limit)%nat ->
  exists fuel pages, export_all fuel s ranges None limit = Ok pages
    /\ ms_snapshot s ranges = Ok (mjoin pages)
    /\ Forall (fun p => (length p <= limit)%nat) pages.
Proof.
  intros Ho Hr Hl.
  destruct (export_all_from (S (length (cursor_rest s ranges None))) s ranges None limit) as (pages & E & Hj & Hb);
    [done|done|done|done|lia|].
  exists (S (length (cursor_rest s ranges None))), pages. split; [done|]. split; [|done].
  rewrite ms_snapshot_ok; [|done|].
  - rewrite Hj. unfold cursor_rest. by destruct ranges.
  - eapply Forall_impl; [exact Hr|]. intros r (_ & _ & ?). done.
Qed.
End PagedExport.

(** ** The two engines side by side *)

Definition apply_all `{MetaStore} (s : store) (batches : list (list StoreOp)) : MResult store :=
  foldl (fun r ops => s <-? r ;; ms_apply s ops) (Ok s) batches.
Lemma apply_all_ok `{MetaStore} s batches : ms_open s ->
  exists s', apply_all s batches = Ok s' /\ ms_open s'
    /\ forall cf, ms_view s' cf = view_ops cf (mjoin batches) (ms_view s cf).
Proof.
  unfold apply_all. revert s. induction batches as [|ops batches IH]; intros s Ho.
  { exists s. split; [done|]. split; [done|]. done. }
  cbn [foldl]. destruct (ms_apply_ok s ops Ho) as (s1 & -> & Ho1 & Hv1).
  destruct (IH s1 Ho1) as (s' & E & Ho' & Hv). exists s'. split; [exact E|]. split; [done|].
  intros cf. rewrite Hv, Hv1. change (mjoin (ops :: batches)) with (ops ++ mjoin batches).
  unfold view_ops. by rewrite foldl_app.
Qed.

Definition ordered (r : KeyRange) : Prop := lex_leb (kr_start r) (kr_end r) = true.
#[export] Instance ordered_dec r : Decision (ordered r).
Proof. unfold ordered. apply _. Defined.

(** The in-memory engine and the RocksDB engine are interchangeable: opened
    with the same contents and given the same sequence of batches, both accept all
    of them and from then on every read (a key, a scan with any limit over an
    ordered range, a snapshot of ordered ranges) gives the same answer, which is
    the one the operations define applied one after the other. *)
Theorem engines_agree {RDB : RocksDb no_merge} (e : MemEngine) (db : SmDb) (batches : list (list StoreOp)) :
  rocks_open db -> (forall cf, rocks_view db cf = mem_view e cf) ->
  exists e' db', apply_all (H := mem_store) e batches = Ok e'
    /\ apply_all (H := rocks_store) db batches = Ok db'
    /\ (forall cf, mem_view e' cf = view_ops cf (mjoin batches) (mem_view e cf))
    /\ (forall cf k, MemEngine_get e' cf k = RocksEngine_get db' cf k)
    /\ (forall cf start end_ limit, lex_leb start end_ = true ->
          MemEngine_scan e' cf start end_ limit = RocksEngine_scan db' cf start end_ limit)
    /\ (forall ranges, Forall ordered ranges -> MemEngine_snapshot e' ranges = RocksEngine_snapshot db' ranges).
Proof.
  intros Hdb Hv.
  destruct (apply_all_ok (H := mem_store) e batches I) as (e' & Ee & He & Hve).
  destruct (apply_all_ok (H := rocks_store) db batches Hdb) as (db' & Ed & Hd & Hvd).
  cbn [ms_view mem_store rocks_store] in Hve, Hvd.
  assert (forall cf, rocks_view db' cf = mem_view e' cf) as Hv' by (intros cf; by rewrite Hve, Hvd, Hv).
  exists e', db'. split; [done|]. split; [done|]. split; [done|].
  pose proof (ms_get_ok (MetaStore := mem_store) e') as G1. pose proof (ms_get_ok (MetaStore := rocks_store) db') as G2.
  pose proof (ms_scan_ok (MetaStore := mem_store) e') as S1. pose proof (ms_scan_ok (MetaStore := rocks_store) db') as S2.
  pose proof (ms_snapshot_ok (MetaStore := mem_store) e') as P1.
  pose proof (ms_snapshot_ok (MetaStore := rocks_store) db') as P2.
  cbn in *. split; [|split].
  - intros cf k. by rewrite G1, G2, Hv'.
  - intros cf start end_ limit Hle. by rewrite S1, S2, Hv'.
  - intros ranges Hr. rewrite P1, P2 by done. do 2 f_equal. apply list_fmap_ext. intros _ r _. by rewrite Hv'.
Qed.

(** *** Examples *)

Definition ex_ops : list StoreOp :=
  [StoreOp_put Meta [111; 1] [7]; StoreOp_put Meta [111; 2] [8]; StoreOp_put Upload [117; 5] [9];
   StoreOp_delete Meta [111; 1]; StoreOp_put Meta [111; 3] [10]].
Definition ex_ranges : list KeyRange :=
  [{| kr_cf := Meta; kr_start := [111]; kr_end := [112] |}; {| kr_cf := Upload; kr_start := [117]; kr_end := [118] |}].
Definition ex_mem : MemEngine := Eval vm_compute in default ∅ (match MemEngine_apply ∅ ex_ops with Ok e => Some e | _ => None end).
Definition ex_rocks : SmDb := list_to_map ((fun cf => (MetaCf_cf_name cf, rdb_empty)) <$> MetaCf_ALL ++ [Applied]).

Lemma keys_ok_forall (m : gmap bytes bytes) : map_Forall (fun k _ => is_bytes k) m -> keys_ok m.
Proof. exact id. Qed.

Lemma export_complete_witness :
  exists fuel pages, export_all (H := mem_store) fuel ex_mem ex_ranges None 1 = Ok pages
    /\ MemEngine_snapshot ex_mem ex_ranges = Ok (mjoin pages)
    /\ Forall (fun p => (length p <= 1)%nat) pages.
Proof.
  apply (export_complete (H := mem_store) ex_mem ex_ranges 1); [exact I| |lia].
  apply Forall_cons. split; [|apply Forall_cons; split; [|apply Forall_nil; exact I]].
  all: split; [apply keys_ok_forall, (bool_decide_unpack _); vm_compute; exact I|].
  all: split; [apply (bool_decide_unpack _); vm_compute; exact I|vm_compute; reflexivity].
Defined.

Lemma engines_agree_witness :
  exists e' db', apply_all (H := mem_store) ∅ [ex_ops] = Ok e' /\ apply_all (H := rocks_store) ex_rocks [ex_ops] = Ok db'
    /\ MemEngine_scan e' Meta [111] [112] 8 = RocksEngine_scan db' Meta [111] [112] 8
    /\ MemEngine_scan e' Meta [111] [112] 8 = Ok [([111; 2], [8]); ([111; 3], [10])].
Proof.
  destruct (engines_agree ∅ ex_rocks [ex_ops]) as (e' & db' & Ee & Ed & _ & _ & Hs & _).
  - intros []; eexists; vm_compute; reflexivity.
  - intros []; vm_compute; reflexivity.
  - exists e', db'. split; [exact Ee|]. split; [exact Ed|]. split; [by apply Hs|].
    vm_compute in Ee. injection Ee as <-. vm_compute. reflexivity.
Defined.

(** On a decreasing range the engines part: [BTreeMap::range] panics where the
    RocksDB iterator finds nothing. *)
Example mem_scan_panics : MemEngine_scan ex_mem Meta [112] [111] 8 = Err MSE_Panic.
Proof. reflexivity. Qed.
Example rocks_scan_empty : RocksEngine_scan ex_rocks Meta [112] [111] 8 = Ok [].
Proof. reflexivity. Qed.
