(* ===== verification/MetaKeys.v ===== *)
(** The physical key layout of the metadata store and the partitions cut out of
    it (epoch-meta: store/keys.rs, partition/mod.rs): key builders, prefix bounds,
    the routing coordinate of a key, partition membership, and the key ranges a
    partition exports. *)

From S2P Require Import Prelude Ids Rocks PdDb MetaStore.

(** ** Keys (keys.rs) *)

Definition flat_key (cf : MetaCf) (bucket : Z) (object_key suffix : bytes) : bytes :=
  MetaCf_tag cf :: be_bytes 8 bucket ++ object_key ++ suffix.
Definition hier_key (cf : MetaCf) (bucket parent_ino : Z) (name suffix : bytes) : bytes :=
  MetaCf_tag cf :: be_bytes 8 bucket ++ be_bytes 8 parent_ino ++ name ++ suffix.
Definition hier_routing_key (parent_ino : Z) (name : bytes) : bytes := be_bytes 8 parent_ino ++ name.

Definition TAG_O : Z := 111.
Definition TAG_G : Z := 103.
Definition TAG_U : Z := 117.
Definition TAG_Q : Z := 113.
Definition TAG_F : Z := 102.
Definition TAG_T : Z := 116.
Definition routing_key (key : bytes) : option (Z * bytes) :=
  match key with
  | [] => None
  | tag :: rest =>
      if (length rest <? 8)%nat then None
      else
        let bucket := be_val (take 8 rest) in
        let routing := drop 8 rest in
        if decide (tag ∈ [TAG_O; TAG_G; TAG_U; TAG_Q; TAG_F]) then Some (bucket, routing)
        else if tag =? TAG_T
        then if (length routing <? 8)%nat then None else Some (bucket, drop 8 routing)
        else None
  end.
Definition bucket_prefix (cf : MetaCf) (bucket : Z) : bytes := MetaCf_tag cf :: be_bytes 8 bucket.

(** [while let Some(&last) = end.last()], on the reversed vector. *)
Fixpoint prefix_end_rev (rend : bytes) : option bytes :=
  match rend with
  | [] => None
  | last :: rend' => if last =? 255 then prefix_end_rev rend' else Some (rev (last + 1 :: rend'))
  end.
Definition prefix_end (prefix : bytes) : option bytes := prefix_end_rev (rev prefix).

Definition suffix_seg_no (seg_no : Z) : bytes := be_bytes 4 seg_no.
Definition suffix_upload_part (upload_id part_no : Z) : bytes := be_bytes 16 upload_id ++ be_bytes 4 part_no.
Definition suffix_delq_seq (seq seg_no : Z) : bytes := be_bytes 8 seq ++ be_bytes 4 seg_no.
Definition suffix_expire_ts (expire_ts : Z) : bytes := be_bytes 8 expire_ts.

(** ** Key algebra *)

Lemma length_be_bytes n x : length (be_bytes n x) = n.
Proof. pose proof (len_be_bytes n x) as H. unfold len in H. lia. Qed.
Lemma flat_key_app cf b k s : flat_key cf b k s = flat_key cf b k [] ++ s.
Proof. unfold flat_key. by rewrite app_nil_r, <- app_comm_cons, <- app_assoc. Qed.
Lemma flat_key_ext cf b k k' : flat_key cf b (k ++ k') [] = flat_key cf b k [] ++ k'.
Proof. unfold flat_key. by rewrite !app_nil_r, <- app_comm_cons, <- app_assoc. Qed.
(** A hierarchical key is the flat key of its routing key. *)
Lemma hier_key_flat cf b p n s : hier_key cf b p n s = flat_key cf b (hier_routing_key p n) s.
Proof. unfold hier_key, flat_key, hier_routing_key. by rewrite <- !app_assoc. Qed.
Lemma MetaCf_tag_byte cf : is_byte (MetaCf_tag cf).
Proof. unfold is_byte. by destruct cf. Qed.
Lemma flat_key_bytes cf b k s : is_bytes k -> is_bytes s -> is_bytes (flat_key cf b k s).
Proof.
  intros Hk Hs. unfold flat_key. constructor; [apply MetaCf_tag_byte|].
  rewrite !Forall_app. split; [apply be_bytes_bytes|]. by split.
Qed.
Lemma flat_key_inj cf b b' k k' : is_u64 b -> is_u64 b' ->
  flat_key cf b k [] = flat_key cf b' k' [] -> b = b' /\ k = k'.
Proof.
  unfold flat_key. rewrite !app_nil_r. intros Hb Hb' [_ H]%cons_eq_inj.
  apply app_inj_1 in H as [Hbb ->]; [|by rewrite !length_be_bytes]. split; [|done].
  by apply be_bytes_inj in Hbb.
Qed.
Lemma app_inj_suffix (a b : bytes) n x y : a ++ be_bytes n x = b ++ be_bytes n y -> a = b /\ be_bytes n x = be_bytes n y.
Proof. intros H. apply app_inj_2 in H; [done|]. by rewrite !length_be_bytes. Qed.
Lemma be_bytes_inj_uint n w x y : w = 8 * Z.of_nat n -> uint w x -> uint w y -> be_bytes n x = be_bytes n y -> x = y.
Proof. intros -> Hx Hy. apply be_bytes_inj; by rewrite pow256_pow2. Qed.

(** ** Prefix bounds *)

Lemma prefix_end_snoc p x : prefix_end (p ++ [x]) = if x =? 255 then prefix_end p else Some (p ++ [x + 1]).
Proof.
  unfold prefix_end. rewrite rev_app_distr. simpl. destruct (x =? 255); [done|]. by rewrite rev_involutive.
Qed.
Lemma lex_ltb_snoc (p k : bytes) x : is_bytes k -> lex_leb (p ++ [x]) k = true ->
  (lex_ltb k (p ++ [x + 1]) = true <-> p ++ [x] `prefix_of` k).
Proof.
  revert k. induction p as [|y p IH]; intros [|z k] Hk Hle; try (by cbv in Hle).
  - unfold lex_leb in Hle. simpl in *. apply negb_true_iff, orb_false_iff in Hle as [Hle1 Hle2].
    rewrite orb_true_iff, andb_true_iff, Z.ltb_lt, Z.eqb_eq. apply Z.ltb_ge in Hle1. split.
    + intros [H|[_ H]]; [|by destruct k]. assert (z = x) as -> by lia. apply prefix_cons, prefix_nil.
    + intros [r [= -> ->]]. lia.
  - apply Forall_cons in Hk as [_ Hk]. unfold lex_leb in Hle. simpl in *.
    apply negb_true_iff, orb_false_iff in Hle as [Hle1 Hle2]. apply Z.ltb_ge in Hle1.
    rewrite orb_true_iff, andb_true_iff, Z.ltb_lt, Z.eqb_eq. split.
    + intros [H|[-> H]]; [lia|]. rewrite Z.eqb_refl in Hle2. simpl in Hle2.
      apply prefix_cons, IH; [done| |done]. unfold lex_leb. by rewrite Hle2.
    + intros [r [= -> ->]]. right. split; [done|]. rewrite Z.eqb_refl in Hle2. simpl in Hle2.
      apply IH; [done| |by eexists]. unfold lex_leb. by rewrite Hle2.
Qed.
(** Strings from [p ++ [255]] on that extend [p] all extend [p ++ [255]]. *)
Lemma prefix_snoc_max (p k : bytes) : is_bytes k -> lex_leb (p ++ [255]) k = true ->
  p `prefix_of` k -> p ++ [255] `prefix_of` k.
Proof.
  intros Hk Hle [r ->]. apply prefix_app. unfold lex_leb in Hle. rewrite lex_ltb_app in Hle.
  apply Forall_app in Hk as [_ Hr]. destruct r as [|z r]; [done|]. apply Forall_cons in Hr as [Hz _].
  unfold is_byte in Hz. simpl in Hle. apply negb_true_iff, orb_false_iff in Hle as [Hle _]. apply Z.ltb_ge in Hle.
  assert (z = 255) as -> by lia. apply prefix_cons, prefix_nil.
Qed.

(** The keys between a prefix and its end are exactly those that extend it. *)
Lemma prefix_end_spec p e k : is_bytes k -> prefix_end p = Some e ->
  (lex_leb p k = true /\ lex_ltb k e = true <-> p `prefix_of` k).
Proof.
  intros Hk. revert e. induction p as [|x p IH] using rev_ind; intros e He; [done|].
  rewrite prefix_end_snoc in He. destruct (Z.eqb_spec x 255) as [->|Hx].
  - specialize (IH e He). split.
    + intros [Hle Hlt]. apply prefix_snoc_max; [done..|]. apply IH. split; [|done].
      eapply lex_leb_trans; [apply lex_leb_app|done].
    + intros Hp. split; [|apply IH; by eapply prefix_app_l]. destruct Hp as [r ->]. apply lex_leb_app.
  - injection He as <-. split.
    + intros [Hle Hlt]. by apply lex_ltb_snoc.
    + intros Hp. assert (lex_leb (p ++ [x]) k = true) as Hle by (destruct Hp as [r ->]; apply lex_leb_app).
      split; [done|]. by apply lex_ltb_snoc.
Qed.
Lemma prefix_end_some x p : x <> 255 -> is_Some (prefix_end (x :: p)).
Proof.
  intros Hx. induction p as [|y p IH] using rev_ind.
  - pose proof (prefix_end_snoc [] x) as E. simpl in E. by rewrite E, (proj2 (Z.eqb_neq _ _) Hx).
  - rewrite app_comm_cons, prefix_end_snoc. by destruct (y =? 255).
Qed.
Lemma prefix_end_bytes p e : is_bytes p -> prefix_end p = Some e -> is_bytes e.
Proof.
  intros Hp. revert e. induction p as [|x p IH] using rev_ind; intros e He; [done|].
  apply Forall_app in Hp as [Hp Hx]. rewrite prefix_end_snoc in He. destruct (Z.eqb_spec x 255); [by apply IH|].
  injection He as <-. apply Forall_app. split; [done|]. apply Forall_cons in Hx as [Hx _]. constructor; [|constructor].
  unfold is_byte in *. lia.
Qed.
(** [prefix_end(&k).unwrap_or_else(|| vec![tag + 1])] for a key of a family *)
Definition prefix_end_or (cf : MetaCf) (p : bytes) : bytes := default [MetaCf_tag cf + 1] (prefix_end p).
Lemma prefix_end_or_flat cf b k s : cf <> Applied -> prefix_end (flat_key cf b k s) = Some (prefix_end_or cf (flat_key cf b k s)).
Proof.
  intros Hcf. unfold prefix_end_or, flat_key. edestruct (prefix_end_some (MetaCf_tag cf)) as [e ->]; [by destruct cf|done].
Qed.
Lemma prefix_range cf b p k : cf <> Applied -> is_bytes k ->
  (lex_leb (flat_key cf b p []) k = true /\ lex_ltb k (prefix_end_or cf (flat_key cf b p [])) = true
     <-> flat_key cf b p [] `prefix_of` k).
Proof. intros Hcf Hk. by apply prefix_end_spec, prefix_end_or_flat. Qed.
Lemma prefix_end_or_bytes cf b p : cf <> Applied -> is_bytes p -> is_bytes (prefix_end_or cf (flat_key cf b p [])).
Proof. intros Hcf Hp. eapply prefix_end_bytes; [|by apply prefix_end_or_flat]. apply flat_key_bytes; [done|constructor]. Qed.
Lemma prefix_end_or_le cf b p : cf <> Applied -> is_bytes p ->
  lex_leb (flat_key cf b p []) (prefix_end_or cf (flat_key cf b p [])) = true.
Proof.
  intros Hcf Hp. apply lex_leb_lt_or_eq. left.
  apply (prefix_range cf b p (flat_key cf b p [])); [done| |done]. apply flat_key_bytes; [done|constructor].
Qed.

(** A scan of a prefix in pages visits exactly the keys that extend it. *)
Lemma scan_prefix `{MetaStore} {A} s cf b p limit (f : A -> bytes * bytes -> MResult A) acc :
  ms_open s -> keys_ok (ms_view s cf) -> is_bytes p -> cf <> Applied -> (0 < limit)%nat ->
  let key := flat_key cf b p [] in
  paged_scan (scan_fuel s cf) s cf key (prefix_end_or cf key) limit f acc
  = iter_try f (range (ms_view s cf) key (prefix_end_or cf key)) acc.
Proof. intros. apply paged_scan_ok; try done; [by apply prefix_end_or_bytes|by apply prefix_end_or_le]. Qed.
Lemma elem_of_prefix m cf b p k v : keys_ok m -> cf <> Applied ->
  ((k, v) ∈ range m (flat_key cf b p []) (prefix_end_or cf (flat_key cf b p []))
     <-> m !! k = Some v /\ flat_key cf b p [] `prefix_of` k).
Proof.
  intros Hm Hcf. rewrite elem_of_range. split.
  - intros (Hk & Hr). split; [done|]. eapply prefix_range; eauto.
  - intros (Hk & Hr). split; [done|]. eapply prefix_range in Hr; eauto.
Qed.

(** ** Partitions (partition/mod.rs) *)

Inductive Namespace : Set := Flat | Hier.
#[export] Instance Namespace_eq_dec : EqDecision Namespace.
Proof. solve_decision. Defined.
Definition primary_cf (ns : Namespace) : MetaCf := match ns with Flat => Meta | Hier => Fs end.

Record PartitionRange : Set := { pr_ns : Namespace; pr_start : option (Z * bytes); pr_end : option (Z * bytes) }.
Definition PartitionRange_full (ns : Namespace) : PartitionRange := {| pr_ns := ns; pr_start := None; pr_end := None |}.

(** The order of tuples [(u64, &[u8])] *)
Definition pr_coord_ltb (x y : Z * bytes) : bool := (x.1 <? y.1) || ((x.1 =? y.1) && lex_ltb x.2 y.2).
Definition pr_coord_leb (x y : Z * bytes) : bool := negb (pr_coord_ltb y x).
Definition contains_coord (r : PartitionRange) (bucket : Z) (routing : bytes) : bool :=
  let coord := (bucket, routing) in
  match pr_start r with Some s => pr_coord_leb s coord | None => true end
  && match pr_end r with Some e => pr_coord_ltb coord e | None => true end.
Definition PartitionRange_split (r : PartitionRange) (at_ : Z * bytes) : option (PartitionRange * PartitionRange) :=
  if negb (contains_coord r at_.1 at_.2) then None
  else if bool_decide (pr_start r = Some at_) then None
  else Some ({| pr_ns := pr_ns r; pr_start := pr_start r; pr_end := Some at_ |},
             {| pr_ns := pr_ns r; pr_start := Some at_; pr_end := pr_end r |}).
Definition owns_shared_cf (r : PartitionRange) (tag : Z) : bool :=
  let other_primary := match pr_ns r with Flat => MetaCf_tag Fs | Hier => MetaCf_tag Meta end in
  existsb (fun cf => MetaCf_tag cf =? tag) MetaCf_ALL && negb (tag =? other_primary).
Definition contains (r : PartitionRange) (key : bytes) : bool :=
  match key with
  | [] => false
  | tag :: _ =>
      if (tag =? MetaCf_tag (primary_cf (pr_ns r))) || owns_shared_cf r tag
      then match routing_key key with
           | Some (bucket, routing) => contains_coord r bucket routing
           | None => false
           end
      else false
  end.

Definition cf_bound (cf : MetaCf) (bucket : Z) (routing : bytes) : bytes := MetaCf_tag cf :: be_bytes 8 bucket ++ routing.
Definition is_shared_cf (cf : MetaCf) : bool := match cf with Meta | Fs => false | _ => true end.
Definition ns_bit_bound (cf : MetaCf) : bytes := MetaCf_tag cf :: be_bytes 8 HIER_BUCKET_BIT.
Definition key_ranges_cfs (ns : Namespace) : list MetaCf :=
  match ns with Flat => [Meta; MetaSeg; Upload; Delq; Ttl] | Hier => [Fs; MetaSeg; Upload; Delq; Ttl] end.
Definition key_ranges (r : PartitionRange) : list KeyRange :=
  (fun cf =>
     let start := match pr_start r with None => [MetaCf_tag cf] | Some (b, k) => cf_bound cf b k end in
     let end_ := match pr_end r with
                 | None => [MetaCf_tag cf + 1]
                 | Some (b, k) => if decide (cf = Ttl) then MetaCf_tag cf :: be_bytes 8 b else cf_bound cf b k
                 end in
     let bit_bound := ns_bit_bound cf in
     if is_shared_cf cf
     then match pr_ns r with
          | Flat => {| kr_cf := cf; kr_start := start; kr_end := if lex_ltb bit_bound end_ then bit_bound else end_ |}
          | Hier => {| kr_cf := cf; kr_start := if lex_ltb start bit_bound then bit_bound else start; kr_end := end_ |}
          end
     else {| kr_cf := cf; kr_start := start; kr_end := end_ |}) <$> key_ranges_cfs (pr_ns r).
Definition primary_scan_bounds (r : PartitionRange) : MetaCf * bytes * bytes :=
  let cf := primary_cf (pr_ns r) in
  (cf, match pr_start r with None => [MetaCf_tag cf] | Some (b, k) => cf_bound cf b k end,
   match pr_end r with None => [MetaCf_tag cf + 1] | Some (b, k) => cf_bound cf b k end).

(** The node's table of partitions, in the order of the group ids ([BTreeMap]). *)
Record PartitionInfo : Set := { pi_range : PartitionRange; pi_peers : list (Z * string) }.
Abbreviation PartitionRegistry := (list (Z * PartitionInfo)) (only parsing).
Fixpoint PartitionRegistry_register (reg : PartitionRegistry) (group : Z) (info : PartitionInfo) : PartitionRegistry :=
  match reg with
  | [] => [(group, info)]
  | (g, i) :: reg' =>
      if group <? g then (group, info) :: reg
      else if g =? group then (group, info) :: reg'
      else (g, i) :: PartitionRegistry_register reg' group info
  end.
Definition PartitionRegistry_route (reg : PartitionRegistry) (bucket : Z) (routing : bytes) : option Z :=
  fst <$> find (fun p => contains_coord (pi_range p.2) bucket routing) reg.
Definition PartitionRegistry_info (reg : PartitionRegistry) (group : Z) : option PartitionInfo :=
  snd <$> find (fun p => p.1 =? group) reg.
Definition PartitionRegistry_peer_addr (reg : PartitionRegistry) (group node : Z) : option string :=
  info ← PartitionRegistry_info reg group;
  snd <$> find (fun p => p.1 =? node) (pi_peers info).

(** ** Partitions and keys *)

(** The namespace a bucket id belongs to. *)
Definition bucket_ns (bucket : Z) : Namespace := if bucket <? HIER_BUCKET_BIT then Flat else Hier.
Definition range_wf (r : PartitionRange) : Prop :=
  (forall s, pr_start r = Some s -> is_u64 s.1) /\ (forall e, pr_end r = Some e -> is_u64 e.1).

Lemma cf_bound_flat cf b k : cf_bound cf b k = flat_key cf b k [].
Proof. unfold cf_bound, flat_key. by rewrite app_nil_r. Qed.
Lemma cf_bound_ltb cf b k b' k' : is_u64 b -> is_u64 b' ->
  lex_ltb (cf_bound cf b k) (cf_bound cf b' k') = pr_coord_ltb (b, k) (b', k').
Proof.
  intros Hb Hb'. unfold cf_bound, pr_coord_ltb. cbn [lex_ltb fst snd]. rewrite Z.ltb_irrefl, Z.eqb_refl. cbn [orb andb].
  rewrite lex_ltb_app_eq_len by (by rewrite !length_be_bytes). rewrite be_bytes_ltb by (by rewrite pow256_pow2).
  f_equal. f_equal. destruct (Z.eqb_spec b b') as [->|Hne]; [by rewrite bool_decide_true|].
  rewrite bool_decide_false; [done|]. intros E. by apply Hne, (be_bytes_inj_uint 8 64).
Qed.
Lemma ns_bit_bound_flat cf : ns_bit_bound cf = cf_bound cf HIER_BUCKET_BIT [].
Proof. unfold cf_bound. by rewrite app_nil_r. Qed.
Lemma HIER_BUCKET_BIT_u64 : is_u64 HIER_BUCKET_BIT.
Proof. by vm_compute. Qed.
Lemma cf_bound_below cf b k : lex_ltb [MetaCf_tag cf] (cf_bound cf b k) = true.
Proof. unfold cf_bound. cbn [lex_ltb]. rewrite Z.ltb_irrefl, Z.eqb_refl. reflexivity. Qed.
Lemma cf_bound_above cf b k : lex_ltb (cf_bound cf b k) [MetaCf_tag cf + 1] = true.
Proof. unfold cf_bound. cbn [lex_ltb]. by rewrite (proj2 (Z.ltb_lt _ _)) by lia. Qed.
Lemma coord_ltb_nil b k b' : pr_coord_ltb (b, k) (b', []) = (b <? b').
Proof. unfold pr_coord_ltb. simpl. by destruct k; rewrite andb_false_r, orb_false_r. Qed.
Lemma coord_leb_nil b k b' : pr_coord_leb (b', []) (b, k) = (b' <=? b).
Proof. unfold pr_coord_leb. rewrite coord_ltb_nil. by rewrite Z.ltb_antisym, negb_involutive. Qed.

Lemma routing_key_bound cf b k : cf <> Ttl -> cf <> Applied -> is_u64 b -> routing_key (cf_bound cf b k) = Some (b, k).
Proof.
  intros Ht Ha Hb. unfold routing_key, cf_bound. rewrite length_app, length_be_bytes.
  destruct (Nat.ltb_spec (8 + length k) 8); [lia|].
  rewrite take_app_length', drop_app_length' by (by rewrite length_be_bytes). rewrite (be_val_uint 8 64) by done.
  rewrite decide_True; [done|]. destruct cf; try done; vm_compute; set_solver.
Qed.
Lemma contains_bound r cf b k : cf ∈ key_ranges_cfs (pr_ns r) -> cf <> Ttl -> is_u64 b ->
  contains r (cf_bound cf b k) = contains_coord r b k.
Proof.
  intros Hcf Ht Hb. unfold contains.
  replace (cf_bound cf b k) with (MetaCf_tag cf :: (be_bytes 8 b ++ k)) at 1 by done.
  rewrite routing_key_bound by (done || by destruct (pr_ns r), cf; set_solver).
  unfold owns_shared_cf. destruct (pr_ns r), cf; try done; exfalso; set_solver.
Qed.

(** In a range with both bounds of the family, membership is the order of the
    coordinates. *)
Lemma lower_bound r cf b k : range_wf r -> is_u64 b ->
  lex_leb match pr_start r with None => [MetaCf_tag cf] | Some (b, k) => cf_bound cf b k end (cf_bound cf b k)
  = match pr_start r with Some s => pr_coord_leb s (b, k) | None => true end.
Proof.
  intros [Hs _] Hb. destruct (pr_start r) as [[b' k']|]; unfold lex_leb, pr_coord_leb.
  - rewrite cf_bound_ltb; [done|done|]. by apply (Hs (b', k')).
  - apply lex_leb_lt_or_eq. left. apply cf_bound_below.
Qed.
Lemma upper_bound r cf b k : range_wf r -> is_u64 b ->
  lex_ltb (cf_bound cf b k) match pr_end r with None => [MetaCf_tag cf + 1] | Some (b, k) => cf_bound cf b k end
  = match pr_end r with Some e => pr_coord_ltb (b, k) e | None => true end.
Proof.
  intros [_ He] Hb. destruct (pr_end r) as [[b' k']|]; [|apply cf_bound_above].
  apply cf_bound_ltb; [done|]. by apply (He (b', k')).
Qed.
Lemma lex_ltb_min k a b : lex_ltb k (if lex_ltb a b then a else b) = lex_ltb k a && lex_ltb k b.
Proof.
  destruct (lex_ltb a b) eqn:E, (lex_ltb k a) eqn:E1; simpl; try done.
  - symmetry. by eapply lex_ltb_trans.
  - destruct (lex_ltb k b) eqn:E2; [|done].
    assert (lex_leb b a = true) as Hle by (unfold lex_leb; by rewrite E). apply lex_leb_lt_or_eq in Hle as [Hle|<-].
    + by rewrite (lex_ltb_trans _ _ _ E2 Hle) in E1.
    + congruence.
Qed.
Lemma lex_leb_max k a b : lex_leb (if lex_ltb a b then b else a) k = lex_leb b k && lex_leb a k.
Proof.
  unfold lex_leb. rewrite <- negb_orb. f_equal. destruct (lex_ltb a b) eqn:E.
  - destruct (lex_ltb k b) eqn:E1; [done|]. destruct (lex_ltb k a) eqn:E2; [|done].
    by rewrite (lex_ltb_trans _ _ _ E2 E) in E1.
  - destruct (lex_ltb k b) eqn:E1; [|done]. simpl.
    assert (lex_leb b a = true) as Hle by (unfold lex_leb; by rewrite E). apply lex_leb_lt_or_eq in Hle as [Hle| ->]; [|done].
    by eapply lex_ltb_trans.
Qed.

Lemma key_ranges_iff (r : PartitionRange) (kr : KeyRange) (bucket : Z) (routing value : bytes) :
  range_wf r -> is_u64 bucket -> kr ∈ key_ranges r -> kr_cf kr <> Ttl ->
  is_shared_cf (kr_cf kr) = true \/ bucket_ns bucket = pr_ns r ->
  let key := cf_bound (kr_cf kr) bucket routing in
  in_range (kr_start kr) (kr_end kr) (key, value) <-> contains r key = true /\ bucket_ns bucket = pr_ns r.
Proof.
  intros Hr Hb Hkr Ht Hns key. subst key.
  apply list_elem_of_fmap in Hkr as (cf & -> & Hcf). revert Ht Hns.
  assert (contains r (cf_bound cf bucket routing) = contains_coord r bucket routing \/ cf = Ttl) as Hc.
  { destruct (decide (cf = Ttl)) as [->|]; [by right|]. left. by apply contains_bound. }
  cbv zeta. destruct (is_shared_cf cf) eqn:Hsh; [destruct (pr_ns r) eqn:En|]; cbn [kr_cf kr_start kr_end];
    intros Ht Hns; unfold in_range; cbn [fst]; destruct Hc as [->|]; try done; destruct (decide (cf = Ttl)) as [|_]; try done.
  - rewrite lower_bound, lex_ltb_min, upper_bound, ns_bit_bound_flat, cf_bound_ltb, coord_ltb_nil
      by auto using HIER_BUCKET_BIT_u64.
    unfold contains_coord, bucket_ns. rewrite !andb_true_iff. destruct (bucket <? HIER_BUCKET_BIT); intuition done.
  - rewrite lex_leb_max, lower_bound, upper_bound, ns_bit_bound_flat by done. unfold lex_leb.
    rewrite cf_bound_ltb, coord_ltb_nil by auto using HIER_BUCKET_BIT_u64.
    unfold contains_coord, bucket_ns. rewrite !andb_true_iff. destruct (bucket <? HIER_BUCKET_BIT); simpl; intuition done.
  - rewrite lower_bound, upper_bound by done. unfold contains_coord. rewrite andb_true_iff.
    destruct Hns as [?|Hns]; [congruence|]. tauto.
Qed.

(** The key ranges a partition exports are exactly the keys it owns: in
    every family but the expiry index, a key of a bucket of the partition's
    namespace lies in the family's range if and only if the membership rule
    accepts it, and in the shared families no key of a bucket of the other
    namespace ever does. *)
Theorem key_ranges_exact (r : PartitionRange) (kr : KeyRange) (bucket : Z) (routing value : bytes) :
  range_wf r -> is_u64 bucket -> kr ∈ key_ranges r -> kr_cf kr <> Ttl ->
  is_shared_cf (kr_cf kr) = true \/ bucket_ns bucket = pr_ns r ->
  let key := cf_bound (kr_cf kr) bucket routing in
  in_range (kr_start kr) (kr_end kr) (key, value) <-> contains r key = true /\ bucket_ns bucket = pr_ns r.
Proof. apply key_ranges_iff. Qed.

(** A split sends every coordinate of the range to exactly one child, the
    boundary itself to the right one. *)
Lemma coord_ltb_leb_trans x y z : pr_coord_ltb x y = true -> pr_coord_leb y z = true -> pr_coord_ltb x z = true.
Proof.
  destruct x as [a x], y as [b y], z as [c z]. unfold pr_coord_leb, pr_coord_ltb. simpl.
  rewrite negb_true_iff, orb_false_iff, andb_false_iff, !orb_true_iff, !andb_true_iff, !Z.ltb_lt, !Z.ltb_ge, !Z.eqb_eq, Z.eqb_neq.
  intros [?|[-> H1]] [? [?|H2]]; try (left; lia). destruct (Z.eq_dec b c) as [->|]; [|left; lia]. right. split; [done|].
  assert (lex_leb y z = true) as Hle by (unfold lex_leb; by rewrite H2).
  apply lex_leb_lt_or_eq in Hle as [?| <-]; [by eapply lex_ltb_trans|done].
Qed.
Lemma coord_leb_trans x y z : pr_coord_leb x y = true -> pr_coord_leb y z = true -> pr_coord_leb x z = true.
Proof.
  unfold pr_coord_leb at 1 3. rewrite !negb_true_iff. intros H1 H2. destruct (pr_coord_ltb z x) eqn:E; [|done].
  destruct (pr_coord_ltb y x) eqn:E2; [done|].
  assert (pr_coord_leb x y = true) as Hle by (unfold pr_coord_leb; by rewrite E2).
  pose proof (coord_ltb_leb_trans _ _ _ E Hle) as H. unfold pr_coord_leb in H2. by rewrite H in H2.
Qed.
Lemma coord_ltb_leb x y : pr_coord_ltb x y = true -> pr_coord_leb x y = true.
Proof.
  destruct x as [a x], y as [b y]. unfold pr_coord_leb, pr_coord_ltb. simpl.
  rewrite negb_true_iff, orb_false_iff, andb_false_iff, orb_true_iff, andb_true_iff, !Z.ltb_lt, Z.ltb_ge, Z.eqb_eq, Z.eqb_neq.
  intros [?|[-> H]]; [lia|]. split; [lia|]. right. destruct (lex_ltb y x) eqn:E; [|done].
  pose proof (lex_ltb_trans _ _ _ H E) as Hc. by rewrite lex_ltb_irrefl in Hc.
Qed.
Lemma split_partitions r at_ left right b k : PartitionRange_split r at_ = Some (left, right) ->
  pr_ns left = pr_ns r /\ pr_ns right = pr_ns r
  /\ contains_coord left b k = contains_coord r b k && pr_coord_ltb (b, k) at_
  /\ contains_coord right b k = contains_coord r b k && pr_coord_leb at_ (b, k).
Proof.
  unfold PartitionRange_split. destruct (contains_coord r at_.1 at_.2) eqn:Hat; [|done]. simpl.
  case_bool_decide as Hst; [done|]. intros [= <- <-]. split; [done|]. split; [done|].
  destruct at_ as [ab ak]. unfold contains_coord in *. simpl in *. apply andb_true_iff in Hat as [Hs He]. split.
  - destruct (pr_end r) as [e|]; [|by rewrite andb_true_r].
    destruct (pr_coord_ltb (b, k) (ab, ak)) eqn:Hlt; [|by rewrite !andb_false_r].
    by rewrite (coord_ltb_leb_trans _ _ _ Hlt (coord_ltb_leb _ _ He)), !andb_true_r.
  - destruct (pr_start r) as [s|]; [|by rewrite andb_comm].
    destruct (pr_coord_leb (ab, ak) (b, k)) eqn:Hle; [|by rewrite !andb_false_r].
    by rewrite (coord_leb_trans _ _ _ Hs Hle), !andb_true_r.
Qed.

(** *** Examples *)

Definition ex_range : PartitionRange := {| pr_ns := Flat; pr_start := Some (7, [98]); pr_end := Some (7, [109]) |}.
Lemma key_ranges_exact_witness :
  exists kr, kr ∈ key_ranges ex_range /\ kr_cf kr = MetaSeg
    /\ in_range (kr_start kr) (kr_end kr) (cf_bound MetaSeg 7 [99; 0; 0; 0; 0], [])
    /\ ~ in_range (kr_start kr) (kr_end kr) (cf_bound MetaSeg 7 [110], []).
Proof.
  set (kr := {| kr_cf := MetaSeg; kr_start := cf_bound MetaSeg 7 [98]; kr_end := cf_bound MetaSeg 7 [109] |}).
  assert (kr ∈ key_ranges ex_range) as Hin by (vm_compute; right; left).
  assert (range_wf ex_range) as Hwf by (split; intros ? [= <-]; vm_compute; split; congruence).
  assert (is_u64 7) as Hu by (vm_compute; split; congruence).
  assert (forall routing, in_range (kr_start kr) (kr_end kr) (cf_bound MetaSeg 7 routing, [])
            <-> contains ex_range (cf_bound MetaSeg 7 routing) = true /\ bucket_ns 7 = Flat) as H.
  { intros routing. exact (key_ranges_exact ex_range kr 7 routing [] Hwf Hu Hin ltac:(discriminate) (or_introl eq_refl)). }
  exists kr. split; [exact Hin|]. split; [reflexivity|]. split.
  - apply H. split; reflexivity.
  - intros [Hc _]%H. vm_compute in Hc. discriminate.
Defined.

(** The range of the expiry index is not exact: of a partition that starts and
    ends in one bucket it is decreasing, so the partition's own entries are never
    exported. *)
Definition ex_ttl_key : bytes := MetaCf_tag Ttl :: be_bytes 8 7 ++ suffix_expire_ts 1000 ++ [99].
Example ttl_owned : contains ex_range ex_ttl_key = true.
Proof. reflexivity. Qed.
Example ttl_not_exported :
  Forall (fun kr => ~ in_range (kr_start kr) (kr_end kr) (ex_ttl_key, [])) (key_ranges ex_range)
  /\ Exists (fun kr => ~ ordered kr) (key_ranges ex_range).
Proof. split; apply (bool_decide_unpack _); vm_compute; exact I. Qed.
