(* ===== verification/MetaNs.v ===== *)
(** What the flat and the hierarchical namespace share (epoch-meta:
    ns_common/mod.rs, ref_extractor.rs, guard.rs, and the record types of ns_flat,
    ns_hier and ns_flat/multipart.rs): records and their JSON, head and segments,
    the delete queue, the lens from values to slices, and the inline guard. *)

From S2P Require Import Prelude Ids Rocks PdDb MetaStore MetaKeys.

(** ** Records *)

Record Slice : Set := { sl_chunk_id : Z; sl_blob_ids : list Z; sl_blob_size : Z }.
Record PendingDelete : Set := { pd_slices : list Slice; pd_enqueue_ts : Z }.

Definition HEAD_EMBEDDED_SLICES : nat := 64.
Definition SEGMENT_SLICES : nat := 1024.
Inductive StorageClass : Set := Standard.
Record HttpMeta : Set := {
  hm_content_type : option string; hm_content_encoding : option string; hm_cache_control : option string;
  hm_user : list (string * string) }.
Definition HttpMeta_default : HttpMeta :=
  {| hm_content_type := None; hm_content_encoding := None; hm_cache_control := None; hm_user := [] |}.
Definition HttpMeta_is_empty (h : HttpMeta) : bool :=
  match h with
  | {| hm_content_type := None; hm_content_encoding := None; hm_cache_control := None; hm_user := [] |} => true
  | _ => false
  end.
Inductive ContentHead : Set := Inline (b : bytes) | Slices (l : list Slice).
Definition ContentHead_into_slices (c : ContentHead) : list Slice := match c with Inline _ => [] | Slices l => l end.
Definition ContentHead_inline_account (c : ContentHead) : Z * Z :=
  match c with Inline b => (len b, 1) | Slices _ => (0, 0) end.
Record SliceSegment : Set := { ss_slices : list Slice }.

Record ObjectHead : Set := {
  oh_size : Z; oh_etag : bytes; oh_mtime : Z; oh_storage : StorageClass; oh_content : ContentHead;
  oh_seg_count : Z; oh_http : HttpMeta }.
Record UploadSession : Set := { us_upload_id : Z; us_init_ts : Z }.
Record PartMeta : Set := { pm_size : Z; pm_etag : bytes; pm_slices : list Slice }.
Record PartRef : Set := { ref_part_no : Z; ref_etag : bytes }.

Record FileRecord : Set := {
  fr_ino : Z; fr_size : Z; fr_etag : bytes; fr_mtime : Z; fr_content : ContentHead; fr_seg_count : Z; fr_http : HttpMeta }.
Record DirEntry : Set := { de_ino : Z }.
Inductive DirCount : Set := Exact (n : Z) | Unknown.
Record DirRecord : Set := {
  dr_ino : Z; dr_mtime : Z; dr_entry_count : DirCount; dr_parent_link : option (Z * bytes); dr_created_ts : Z }.
Inductive FsRecord : Set := FsFile (f : FileRecord) | FsDir (d : DirEntry) | FsSentinel (d : DirRecord).

(** ** The responses and the effects of one operation *)

Inductive MetaResponse : Set := RespNone | Rejected (reason : string) | MintedIno (ino : Z).
Record GuardDelta : Set := { gd_inline_bytes : Z; gd_inline_count : Z; gd_total_bytes : Z }.
Definition GuardDelta_default : GuardDelta := {| gd_inline_bytes := 0; gd_inline_count := 0; gd_total_bytes := 0 |}.
Record ApplyOutcome : Set := { ao_ops : list StoreOp; ao_response : MetaResponse; ao_delta : GuardDelta }.
Definition ApplyOutcome_no_delta (ops : list StoreOp) (response : MetaResponse) : ApplyOutcome :=
  {| ao_ops := ops; ao_response := response; ao_delta := GuardDelta_default |}.

(** ** [serde_json] on the record types *)

Class MetaSerde := {
  head_serde :: Serde ObjectHead;
  fs_serde :: Serde FsRecord;
  seg_serde :: Serde SliceSegment;
  part_serde :: Serde PartMeta;
  session_serde :: Serde UploadSession;
  pending_serde :: Serde PendingDelete;
  (** Their fields differ, so neither parses as the other. *)
  session_not_part x : from_slice (A := PartMeta) (to_vec (A := UploadSession) x) = None;
  part_not_session x : from_slice (A := UploadSession) (to_vec (A := PartMeta) x) = None
}.

(** ** Head and segments *)

(** [slice::chunks] *)
Fixpoint chunks_fuel {A} (fuel n : nat) (l : list A) : list (list A) :=
  match fuel, l with
  | _, [] => []
  | O, _ => []
  | S fuel, _ => take n l :: chunks_fuel fuel n (drop n l)
  end.
Definition chunks {A} (n : nat) (l : list A) : list (list A) := chunks_fuel (length l) n l.

Definition split_slices (slices : list Slice) : list Slice * list SliceSegment :=
  if (length slices <=? HEAD_EMBEDDED_SLICES)%nat then (slices, [])
  else (take HEAD_EMBEDDED_SLICES slices,
        (fun chunk => {| ss_slices := chunk |}) <$> chunks SEGMENT_SLICES (drop HEAD_EMBEDDED_SLICES slices)).

(** [for chunk in slices.chunks(..) { ops.push(..); seg_no += 1 }] *)
Section Enqueue.
Context `{MetaSerde}.
Fixpoint enqueue_chunks (seg_no : Z) (chunks : list (list Slice)) (ts_millis : Z) (delq_key : Z -> bytes)
    (ops : list StoreOp) : list StoreOp * Z :=
  match chunks with
  | [] => (ops, seg_no)
  | chunk :: chunks =>
      let pending := {| pd_slices := chunk; pd_enqueue_ts := ts_millis |} in
      enqueue_chunks (seg_no + 1) chunks ts_millis delq_key (ops ++ [StoreOp_put Delq (delq_key seg_no) (to_vec pending)])
  end.
Definition enqueue_delete_slices (first_seg_no : Z) (slices : list Slice) (ts_millis : Z) (delq_key : Z -> bytes)
    (ops : list StoreOp) : list StoreOp * Z :=
  enqueue_chunks first_seg_no (chunks SEGMENT_SLICES slices) ts_millis delq_key ops.

(** ** The lens from stored values to slices (ref_extractor.rs) *)

Definition extract (cf : MetaCf) (value : bytes) : list Slice :=
  match cf with
  | Meta => match from_slice (A := ObjectHead) value with Some h => ContentHead_into_slices (oh_content h) | None => [] end
  | Fs => match from_slice (A := FsRecord) value with
          | Some (FsFile f) => ContentHead_into_slices (fr_content f)
          | _ => []
          end
  | MetaSeg => match from_slice (A := SliceSegment) value with Some s => ss_slices s | None => [] end
  | Upload => match from_slice (A := PartMeta) value with Some p => pm_slices p | None => [] end
  | _ => []
  end.
End Enqueue.

(** ** The inline guard of a partition (guard.rs) *)

Definition DEFAULT_INLINE_THRESHOLD : Z := 128 * 1024.
Definition HARD_INLINE_CAP : Z := 1024 * 1024.
Definition resolve_threshold (cluster_default : Z) (bucket_override : option Z) : Z :=
  Z.min (default cluster_default bucket_override) HARD_INLINE_CAP.
Inductive InlineReject : Set := Disabled | TooLarge (n : Z) | RatioExceeded.
Record PartitionGuard : Set := { pg_inline_bytes : Z; pg_inline_count : Z; pg_total_bytes : Z; pg_delq_depth : Z }.
Definition PartitionGuard_new : PartitionGuard :=
  {| pg_inline_bytes := 0; pg_inline_count := 0; pg_total_bytes := 0; pg_delq_depth := 0 |}.
(** [u64::saturating_add_signed] *)
Definition saturating_add_signed (x d : Z) : Z := Z.max 0 (Z.min (x + d) (2 ^ 64 - 1)).
Definition PartitionGuard_load (g : PartitionGuard) (inline_bytes inline_count total_bytes : Z) : PartitionGuard :=
  {| pg_inline_bytes := inline_bytes; pg_inline_count := inline_count; pg_total_bytes := total_bytes;
     pg_delq_depth := pg_delq_depth g |}.
Definition PartitionGuard_account (g : PartitionGuard) (delta : GuardDelta) : PartitionGuard :=
  PartitionGuard_load g (saturating_add_signed (pg_inline_bytes g) (gd_inline_bytes delta))
    (saturating_add_signed (pg_inline_count g) (gd_inline_count delta))
    (saturating_add_signed (pg_total_bytes g) (gd_total_bytes delta)).
Definition PartitionGuard_counters (g : PartitionGuard) : Z * Z * Z :=
  (pg_inline_bytes g, pg_inline_count g, pg_total_bytes g).
Definition PartitionGuard_load_delq_depth (g : PartitionGuard) (depth : Z) : PartitionGuard :=
  {| pg_inline_bytes := pg_inline_bytes g; pg_inline_count := pg_inline_count g; pg_total_bytes := pg_total_bytes g;
     pg_delq_depth := depth |}.
Definition PartitionGuard_account_delq (g : PartitionGuard) (delta : Z) : PartitionGuard :=
  PartitionGuard_load_delq_depth g (saturating_add_signed (pg_delq_depth g) delta).
(** [x as f64] of a [u64]: rounded to 53 significant bits, ties to even. *)
Definition u64_as_f64 (x : Z) : Z :=
  let e := Z.log2 x - 52 in
  if e <=? 0 then x
  else
    let q := Z.shiftr x e in
    let rem := x - Z.shiftl q e in
    let half := Z.shiftl 1 (e - 1) in
    Z.shiftl (if (half <? rem) || ((rem =? half) && Z.odd q) then q + 1 else q) e.
(** Halving a double is exact: [a > 0.5 * b] is [2 * a > b] on the rounded values. *)
Definition PartitionGuard_check_inline (g : PartitionGuard) (payload_len threshold : Z) : result InlineReject unit :=
  if threshold =? 0 then Err Disabled
  else if threshold <? payload_len then Err (TooLarge payload_len)
  else
    let '(inline_bytes, _, total_bytes) := PartitionGuard_counters g in
    if (0 <? total_bytes) && (u64_as_f64 total_bytes <? 2 * u64_as_f64 inline_bytes)
    then Err RatioExceeded
    else Ok tt.

(** ** Chunking *)

Lemma chunks_fuel_concat {A} fuel n (l : list A) : (0 < n)%nat -> (length l <= fuel)%nat -> concat (chunks_fuel fuel n l) = l.
Proof.
  intros Hn. revert l. induction fuel as [|fuel IH]; intros [|x l] Hl; simpl in *; try done; [lia|].
  rewrite IH; [apply take_drop|]. rewrite length_drop. simpl. lia.
Qed.
Lemma concat_chunks {A} n (l : list A) : (0 < n)%nat -> concat (chunks n l) = l.
Proof. intros. by apply chunks_fuel_concat. Qed.
Lemma split_slices_all slices :
  let '(embedded, segments) := split_slices slices in embedded ++ concat (ss_slices <$> segments) = slices.
Proof.
  unfold split_slices. destruct (Nat.leb_spec (length slices) HEAD_EMBEDDED_SLICES).
  - by rewrite app_nil_r.
  - rewrite <- list_fmap_compose. unfold compose. simpl. rewrite list_fmap_id.
    rewrite concat_chunks by (unfold SEGMENT_SLICES; lia). apply take_drop.
Qed.

(** ** A serializer for the examples *)

#[local] Instance raw_serde : Serde bytes := {| to_vec := id; from_slice := Some; from_to := fun x => eq_refl |}.
#[local] Instance z_serde : Serde Z :=
  {| to_vec := fun z => [z]; from_slice := fun b => match b with [z] => Some z | _ => None end; from_to := fun x => eq_refl |}.
#[local] Program Definition tagged_serde {A} (tag : Z) (SA : Serde A) : Serde A :=
  {| to_vec := fun x => tag :: to_vec x;
     from_slice := fun b => match b with t :: b => if t =? tag then from_slice b else None | [] => None end |}.
Next Obligation. intros A tag SA x. simpl. rewrite Z.eqb_refl. apply from_to. Qed.
#[local] Program Instance slice_serde : Serde Slice :=
  iso_serde (pair_serde z_serde (pair_serde raw_serde z_serde))
    (fun s => (sl_chunk_id s, (sl_blob_ids s, sl_blob_size s)))
    (fun p => {| sl_chunk_id := p.1; sl_blob_ids := p.2.1; sl_blob_size := p.2.2 |}) _.
Next Obligation. by intros []. Qed.
#[local] Program Instance http_serde : Serde HttpMeta :=
  iso_serde (countable_serde (A := option string * option string * option string * list (string * string)))
    (fun h => (hm_content_type h, hm_content_encoding h, hm_cache_control h, hm_user h))
    (fun '(t, e, c, u) => {| hm_content_type := t; hm_content_encoding := e; hm_cache_control := c; hm_user := u |}) _.
Next Obligation. by intros []. Qed.
#[local] Program Instance content_serde : Serde ContentHead :=
  iso_serde (pair_serde z_serde (pair_serde raw_serde (list_serde slice_serde)))
    (fun c => match c with Inline b => (0, (b, [])) | Slices l => (1, ([], l)) end)
    (fun p => if p.1 =? 0 then Inline p.2.1 else Slices p.2.2) _.
Next Obligation. by intros []. Qed.
#[local] Program Instance head_serde' : Serde ObjectHead :=
  iso_serde (pair_serde (pair_serde (pair_serde z_serde raw_serde) (pair_serde z_serde content_serde)) (pair_serde z_serde http_serde))
    (fun h => (((oh_size h, oh_etag h), (oh_mtime h, oh_content h)), (oh_seg_count h, oh_http h)))
    (fun p => {| oh_size := p.1.1.1; oh_etag := p.1.1.2; oh_mtime := p.1.2.1; oh_storage := Standard; oh_content := p.1.2.2;
                 oh_seg_count := p.2.1; oh_http := p.2.2 |}) _.
Next Obligation. by intros [? ? ? []]. Qed.
#[local] Program Instance seg_serde' : Serde SliceSegment :=
  iso_serde (list_serde slice_serde) ss_slices (fun l => {| ss_slices := l |}) _.
Next Obligation. by intros []. Qed.
#[local] Program Instance part_serde' : Serde PartMeta :=
  tagged_serde 2 (iso_serde (pair_serde (pair_serde z_serde raw_serde) (list_serde slice_serde))
    (fun p => ((pm_size p, pm_etag p), pm_slices p))
    (fun p => {| pm_size := p.1.1; pm_etag := p.1.2; pm_slices := p.2 |}) _).
Next Obligation. by intros []. Qed.
#[local] Program Instance session_serde' : Serde UploadSession :=
  tagged_serde 1 (iso_serde (pair_serde z_serde z_serde) (fun u => (us_upload_id u, us_init_ts u))
    (fun p => {| us_upload_id := p.1; us_init_ts := p.2 |}) _).
Next Obligation. by intros []. Qed.
#[local] Program Instance pending_serde' : Serde PendingDelete :=
  iso_serde (pair_serde (list_serde slice_serde) z_serde) (fun p => (pd_slices p, pd_enqueue_ts p))
    (fun p => {| pd_slices := p.1; pd_enqueue_ts := p.2 |}) _.
Next Obligation. by intros []. Qed.
#[local] Program Instance file_serde : Serde FileRecord :=
  iso_serde (pair_serde (pair_serde (pair_serde z_serde z_serde) (pair_serde raw_serde z_serde))
               (pair_serde (pair_serde content_serde z_serde) http_serde))
    (fun f => (((fr_ino f, fr_size f), (fr_etag f, fr_mtime f)), ((fr_content f, fr_seg_count f), fr_http f)))
    (fun p => {| fr_ino := p.1.1.1; fr_size := p.1.1.2; fr_etag := p.1.2.1; fr_mtime := p.1.2.2; fr_content := p.2.1.1;
                 fr_seg_count := p.2.1.2; fr_http := p.2.2 |}) _.
Next Obligation. by intros []. Qed.
#[local] Program Instance dir_serde : Serde DirRecord :=
  iso_serde (pair_serde (pair_serde z_serde z_serde) (countable_serde (A := option Z * option (Z * bytes) * Z)))
    (fun d => ((dr_ino d, dr_mtime d),
               (match dr_entry_count d with Exact n => Some n | Unknown => None end, dr_parent_link d, dr_created_ts d)))
    (fun p => {| dr_ino := p.1.1; dr_mtime := p.1.2; dr_entry_count := match p.2.1.1 with Some n => Exact n | None => Unknown end;
                 dr_parent_link := p.2.1.2; dr_created_ts := p.2.2 |}) _.
Next Obligation. by intros [? ? [] ? ?]. Qed.
#[local] Program Instance fs_serde' : Serde FsRecord := {|
  to_vec := fun r => match r with
                     | FsFile f => 0 :: to_vec f | FsDir d => 1 :: to_vec (de_ino d) | FsSentinel d => 2 :: to_vec d
                     end;
  from_slice := fun b => match b with
                         | t :: b => if t =? 0 then FsFile <$> from_slice b
                                     else if t =? 1 then (fun i => FsDir {| de_ino := i |}) <$> from_slice b
                                     else FsSentinel <$> from_slice b
                         | [] => None
                         end |}.
Next Obligation.
  intros [f|[i]|d]; cbv beta iota; cbn [Z.eqb Pos.eqb]; by rewrite from_to.
Qed.
#[export] Program Instance ex_serde : MetaSerde | 100 := {|
  head_serde := head_serde'; fs_serde := fs_serde'; seg_serde := seg_serde'; part_serde := part_serde';
  session_serde := session_serde'; pending_serde := pending_serde' |}.
Next Obligation. done. Qed.
Next Obligation. done. Qed.
