(* ===== verification/MetaRefs.v ===== *)
(** The slices a metadata store refers to, counted: the multiset of the slices
    of every record of a family, and how the operations the namespaces emit change
    it. *)

From stdpp Require Import gmultiset.
From S2P Require Import Prelude Ids Rocks PdDb MetaStore MetaKeys MetaNs.

#[export] Instance Slice_eq_dec : EqDecision Slice.
Proof. solve_decision. Defined.
#[export] Instance Slice_countable : Countable Slice.
Proof.
  apply (inj_countable' (fun s => (sl_chunk_id s, sl_blob_ids s, sl_blob_size s))
    (fun p => {| sl_chunk_id := p.1.1; sl_blob_ids := p.1.2; sl_blob_size := p.2 |})). by intros [].
Qed.

Section Refs.
Context `{MetaSerde}.

(** The slices one stored value mentions; those of the delete queue included. *)
Definition slices_in (cf : MetaCf) (value : bytes) : list Slice :=
  match cf with
  | Delq => match from_slice (A := PendingDelete) value with Some p => pd_slices p | None => [] end
  | _ => extract cf value
  end.
Definition mset (l : list Slice) : gmultiset Slice := list_to_set_disj l.
Definition refs (cf : MetaCf) (m : gmap bytes bytes) : gmultiset Slice :=
  mset (mjoin ((fun kv => slices_in cf kv.2) <$> map_to_list m)).
Definition refs_at (cf : MetaCf) (m : gmap bytes bytes) (k : bytes) : gmultiset Slice :=
  match m !! k with Some v => mset (slices_in cf v) | None => ∅ end.

Lemma mset_app l1 l2 : mset (l1 ++ l2) = mset l1 ⊎ mset l2.
Proof. apply list_to_set_disj_app. Qed.
Lemma mjoin_cons {A} (x : list A) (l : list (list A)) : mjoin (x :: l) = x ++ mjoin l.
Proof. done. Qed.
Lemma mset_nil : mset [] = ∅.
Proof. done. Qed.
Lemma refs_insert_fresh cf m k v : m !! k = None -> refs cf (<[k := v]> m) = mset (slices_in cf v) ⊎ refs cf m.
Proof.
  intros Hk. unfold refs. rewrite <- mset_app. apply list_to_set_disj_perm. by rewrite map_to_list_insert.
Qed.
Lemma refs_del cf m k : refs cf m = refs cf (delete k m) ⊎ refs_at cf m k.
Proof.
  unfold refs_at. destruct (m !! k) as [v|] eqn:E.
  - rewrite <- (insert_id m k v E) at 1. rewrite <- insert_delete_eq, refs_insert_fresh by apply lookup_delete_eq.
    multiset_solver.
  - rewrite delete_id by done. multiset_solver.
Qed.
Lemma refs_put cf m k v : refs cf (<[k := v]> m) ⊎ refs_at cf m k = mset (slices_in cf v) ⊎ refs cf m.
Proof.
  rewrite (refs_del cf m k), <- insert_delete_eq, refs_insert_fresh by apply lookup_delete_eq. multiset_solver.
Qed.
Lemma refs_put_fresh cf m k v : m !! k = None -> refs cf (<[k := v]> m) = mset (slices_in cf v) ⊎ refs cf m.
Proof. apply refs_insert_fresh. Qed.

(** ** Batches of deletes and of puts to fresh keys *)

Lemma view_ops_app cf ops1 ops2 m : view_ops cf (ops1 ++ ops2) m = view_ops cf ops2 (view_ops cf ops1 m).
Proof. unfold view_ops. by rewrite foldl_app. Qed.
Lemma view_ops_cons cf op ops m : view_ops cf (op :: ops) m = view_ops cf ops (view_op cf m op).
Proof. done. Qed.
Lemma view_op_put cf m k v : view_op cf m (StoreOp_put cf k v) = <[k := v]> m.
Proof. unfold view_op. by rewrite decide_True. Qed.
Lemma view_op_delete cf m k : view_op cf m (StoreOp_delete cf k) = delete k m.
Proof. unfold view_op. by rewrite decide_True. Qed.
Lemma view_ops_other cf ops m : Forall (fun op => so_cf op <> cf) ops -> view_ops cf ops m = m.
Proof.
  intros Ho. revert m. induction Ho as [|op ops Hop Hops IH]; intros m; [done|].
  rewrite view_ops_cons, IH. unfold view_op. by rewrite decide_False.
Qed.

Definition deletes (cf : MetaCf) (page : KvPage) : list StoreOp := (fun kv => StoreOp_delete cf kv.1) <$> page.
Lemma view_deletes_lookup cf page m k :
  view_ops cf (deletes cf page) m !! k = if bool_decide (k ∈ page.*1) then None else m !! k.
Proof.
  revert m. induction page as [|[k' v'] page IH]; intros m; [done|].
  change (deletes cf ((k', v') :: page)) with (StoreOp_delete cf k' :: deletes cf page).
  rewrite view_ops_cons, view_op_delete, IH. change ((k', v') :: page).*1 with (k' :: page.*1).
  destruct (decide (k = k')) as [->|Hne].
  - rewrite lookup_delete_eq. rewrite (bool_decide_true (k' ∈ k' :: _)) by left. by case_bool_decide.
  - rewrite lookup_delete_ne by done. rewrite (bool_decide_ext (k ∈ k' :: page.*1) (k ∈ page.*1)); [done|]. set_solver.
Qed.
Lemma refs_deletes cf (page : KvPage) m : NoDup page.*1 -> (forall k v, (k, v) ∈ page -> m !! k = Some v) ->
  refs cf m = mset (mjoin ((fun kv => slices_in cf kv.2) <$> page)) ⊎ refs cf (view_ops cf (deletes cf page) m).
Proof.
  revert m. induction page as [|[k v] page IH]; intros m Hnd Hin; [multiset_solver|].
  change ((k, v) :: page).*1 with (k :: page.*1) in Hnd. apply NoDup_cons in Hnd as [Hk Hnd].
  change (deletes cf ((k, v) :: page)) with (StoreOp_delete cf k :: deletes cf page).
  rewrite view_ops_cons, view_op_delete, fmap_cons, mjoin_cons, mset_app. cbn [snd].
  assert (m !! k = Some v) as Hv by (apply Hin; left).
  rewrite (refs_del cf m k). unfold refs_at. rewrite Hv.
  rewrite (IH (delete k m)); [multiset_solver|done|].
  intros k' v' Hin'. rewrite lookup_delete_ne; [apply Hin; by right|]. intros ->. apply Hk, list_elem_of_fmap. by exists (k', v').
Qed.

(** Puts of records at the keys [key 0], [key 1], ... *)
Fixpoint puts_from (cf : MetaCf) (key : Z -> bytes) (i : Z) (values : list bytes) : list StoreOp :=
  match values with
  | [] => []
  | v :: values => StoreOp_put cf (key i) v :: puts_from cf key (i + 1) values
  end.
Lemma puts_from_app cf key i l1 l2 : puts_from cf key i (l1 ++ l2) = puts_from cf key i l1 ++ puts_from cf key (i + Z.of_nat (length l1)) l2.
Proof.
  revert i. induction l1 as [|v l1 IH]; intros i; simpl; [by rewrite Z.add_0_r|]. rewrite IH. do 3 f_equal. lia.
Qed.
Lemma puts_from_cf cf key i values : Forall (fun op => so_cf op = cf) (puts_from cf key i values).
Proof. revert i. induction values; intros i; simpl; constructor; auto. Qed.
Lemma view_puts_lookup_ne cf key i values m k :
  (forall j, i <= j < i + Z.of_nat (length values) -> key j <> k) -> view_ops cf (puts_from cf key i values) m !! k = m !! k.
Proof.
  revert i m. induction values as [|v values IH]; intros i m Hk; [done|].
  cbn [puts_from]. rewrite view_ops_cons, view_op_put.
  rewrite IH; [|intros j Hj; apply Hk; simpl; lia]. apply lookup_insert_ne, Hk. simpl. lia.
Qed.
Lemma view_puts_lookup cf key i values m n v :
  (forall j j', i <= j < i + Z.of_nat (length values) -> i <= j' < i + Z.of_nat (length values) -> key j = key j' -> j = j') ->
  values !! n = Some v -> view_ops cf (puts_from cf key i values) m !! key (i + Z.of_nat n) = Some v.
Proof.
  revert i m n. induction values as [|v' values IH]; intros i m n Hinj Hn; [done|].
  cbn [puts_from]. rewrite view_ops_cons, view_op_put.
  destruct n as [|n].
  - injection Hn as ->. rewrite Z.add_0_r. rewrite view_puts_lookup_ne; [apply lookup_insert_eq|].
    intros j Hj E. apply Hinj in E; simpl in *; lia.
  - replace (i + Z.of_nat (S n)) with (i + 1 + Z.of_nat n) by lia. apply IH; [|done].
    intros j j' Hj Hj'. apply Hinj; simpl; lia.
Qed.
Lemma refs_puts_fresh cf key i values m :
  (forall j j', i <= j < i + Z.of_nat (length values) -> i <= j' < i + Z.of_nat (length values) -> key j = key j' -> j = j') ->
  (forall j, i <= j < i + Z.of_nat (length values) -> m !! key j = None) ->
  refs cf (view_ops cf (puts_from cf key i values) m) = mset (mjoin (slices_in cf <$> values)) ⊎ refs cf m.
Proof.
  revert i m. induction values as [|v values IH]; intros i m Hinj Hf; [multiset_solver|].
  cbn [puts_from]. rewrite view_ops_cons, view_op_put.
  rewrite IH.
  - rewrite refs_insert_fresh by (apply Hf; simpl; lia). cbn [fmap list_fmap].
    rewrite mjoin_cons, mset_app. multiset_solver.
  - intros j j' Hj Hj'. apply Hinj; simpl; lia.
  - intros j Hj. rewrite lookup_insert_ne; [apply Hf; simpl; lia|]. intros E. apply Hinj in E; simpl in *; lia.
Qed.

(** ** The delete queue *)

Definition pending_values (ts : Z) (chunks : list (list Slice)) : list bytes :=
  (fun c => to_vec {| pd_slices := c; pd_enqueue_ts := ts |}) <$> chunks.
Lemma enqueue_chunks_puts seg_no chunks ts key ops :
  enqueue_chunks seg_no chunks ts key ops
  = (ops ++ puts_from Delq key seg_no (pending_values ts chunks), seg_no + Z.of_nat (length chunks)).
Proof.
  revert seg_no ops. induction chunks as [|c chunks IH]; intros seg_no ops; simpl; [by rewrite app_nil_r, Z.add_0_r|].
  rewrite IH, <- app_assoc. simpl. f_equal. lia.
Qed.
Lemma pending_slices ts chunks : mjoin (slices_in Delq <$> pending_values ts chunks) = concat chunks.
Proof.
  unfold pending_values. induction chunks as [|c chunks IH]; [done|]. simpl. rewrite from_to. simpl. by rewrite <- IH.
Qed.
End Refs.
