(* ===== verification/MetaFlat.v ===== *)
(** The flat namespace (epoch-meta: ns_flat/mod.rs and ns_flat/multipart.rs):
    the handlers of every operation of an object and of a multipart upload, the
    reads, and the sweep of expired uploads. *)

From stdpp Require Import pretty.
From S2P Require Import Prelude Ids Rocks PdDb MetaStore MetaKeys MetaNs.

(** ** Operations (ns_flat/mod.rs) *)

Inductive FlatOp : Set :=
| FPut (bucket : Z) (key : bytes) (head : ObjectHead) (ts_millis : Z)
| FDelete (bucket : Z) (key : bytes) (ts_millis : Z)
| FCreateMultipart (bucket : Z) (key : bytes) (upload_id ts_millis : Z)
| FPutPart (bucket : Z) (key : bytes) (upload_id part_no : Z) (part : PartMeta) (ts_millis : Z)
| FCompleteMultipart (bucket : Z) (key : bytes) (upload_id : Z) (parts : list PartRef) (ts_millis : Z)
| FAbortMultipart (bucket : Z) (key : bytes) (upload_id ts_millis : Z).

(** [a as i64 - b as i64] of two [u64]s *)
Definition i64_diff (a b : Z) : Z := u64_to_i64 (wrap 64 (u64_to_i64 a - u64_to_i64 b)).

Section Flat.
Context `{MetaSerde} {MS : MetaStore} (blake3 : bytes -> bytes).

Record CaptureOutcome : Set := { co_account : Z * Z * Z; co_next_seg_no : Z }.

Definition flat_enqueue_delete_slices (bucket : Z) (key : bytes) (seq first_seg_no : Z) (slices : list Slice)
    (ts_millis : Z) (ops : list StoreOp) : list StoreOp * Z :=
  enqueue_delete_slices first_seg_no slices ts_millis
    (fun seg_no => flat_key Delq bucket key (suffix_delq_seq seq seg_no)) ops.

Definition capture_old (s : store) (bucket : Z) (key : bytes) (seq ts_millis : Z) (ops : list StoreOp)
    : MResult (list StoreOp * CaptureOutcome) :=
  old <-? ms_get s Meta (flat_key Meta bucket key []) ;;
  match old with
  | None => Ok (ops, {| co_account := (0, 0, 0); co_next_seg_no := 0 |})
  | Some old_head =>
      let captured := extract Meta old_head in
      let account := match from_slice (A := ObjectHead) old_head with
                     | Some head =>
                         let '(inline_bytes, inline_count) := ContentHead_inline_account (oh_content head) in
                         (inline_bytes, inline_count, oh_size head)
                     | None => (0, 0, 0)
                     end in
      let seg_start := flat_key MetaSeg bucket key [] in
      let seg_end := prefix_end_or MetaSeg seg_start in
      p <-? paged_scan (scan_fuel s MetaSeg) s MetaSeg seg_start seg_end 1024
              (fun p kv => Ok (p.1 ++ extract MetaSeg kv.2, p.2 ++ [StoreOp_delete MetaSeg kv.1])) (captured, ops) ;;
      let '(ops, next_seg_no) := flat_enqueue_delete_slices bucket key seq 0 p.1 ts_millis p.2 in
      Ok (ops, {| co_account := account; co_next_seg_no := next_seg_no |})
  end.

Definition pack (head : ObjectHead) : ObjectHead * list SliceSegment :=
  let with_content content seg_count :=
    {| oh_size := oh_size head; oh_etag := oh_etag head; oh_mtime := oh_mtime head; oh_storage := oh_storage head;
       oh_content := content; oh_seg_count := seg_count; oh_http := oh_http head |} in
  match oh_content head with
  | Slices slices =>
      let '(embedded, segments) := split_slices slices in
      (with_content (Slices embedded) (wrap 32 (Z.of_nat (length segments))), segments)
  | content => (with_content content 0, [])
  end.

(** [for (seg_no, segment) in segments.iter().enumerate()] *)
Fixpoint put_segments (bucket : Z) (key : bytes) (seg_no : Z) (segments : list SliceSegment) : list StoreOp :=
  match segments with
  | [] => []
  | segment :: segments =>
      StoreOp_put MetaSeg (flat_key MetaSeg bucket key (suffix_seg_no seg_no)) (to_vec segment)
      :: put_segments bucket key (seg_no + 1) segments
  end.

Definition apply_put (s : store) (bucket : Z) (key : bytes) (new_head : ObjectHead) (seq ts_millis : Z)
    : MResult ApplyOutcome :=
  c <-? capture_old s bucket key seq ts_millis [] ;;
  let '(ops, {| co_account := (old_inline, old_count, old_total) |}) := c in
  let '(packed, segments) := pack new_head in
  let ops := ops ++ [StoreOp_put Meta (flat_key Meta bucket key []) (to_vec packed)] ++ put_segments bucket key 0 segments in
  let '(new_inline, new_count) := ContentHead_inline_account (oh_content packed) in
  Ok {| ao_ops := ops; ao_response := RespNone;
        ao_delta := {| gd_inline_bytes := i64_diff new_inline old_inline; gd_inline_count := i64_diff new_count old_count;
                       gd_total_bytes := i64_diff (oh_size new_head) old_total |} |}.

Definition apply_delete (s : store) (bucket : Z) (key : bytes) (seq ts_millis : Z) : MResult ApplyOutcome :=
  c <-? capture_old s bucket key seq ts_millis [] ;;
  let '(ops, {| co_account := (old_inline, old_count, old_total) |}) := c in
  Ok {| ao_ops := ops ++ [StoreOp_delete Meta (flat_key Meta bucket key [])]; ao_response := RespNone;
        ao_delta := {| gd_inline_bytes := i64_diff 0 old_inline; gd_inline_count := i64_diff 0 old_count;
                       gd_total_bytes := i64_diff 0 old_total |} |}.

Definition decode_head (value : bytes) : MResult ObjectHead := ok_or (from_slice value) MSE_ValueCodec.
Definition get_head (s : store) (bucket : Z) (key : bytes) : MResult (option ObjectHead) :=
  v <-? ms_get s Meta (flat_key Meta bucket key []) ;;
  match v with None => Ok None | Some b => h <-? decode_head b ;; Ok (Some h) end.
Definition get_segment (s : store) (bucket : Z) (key : bytes) (seg_no : Z) : MResult (option SliceSegment) :=
  v <-? ms_get s MetaSeg (flat_key MetaSeg bucket key (suffix_seg_no seg_no)) ;;
  match v with None => Ok None | Some b => x <-? ok_or (from_slice b) MSE_ValueCodec ;; Ok (Some x) end.

(** [get_object_meta] of service.rs, once the request is routed and linearized: the
    head, the inline bytes, and the slices of the head and of every segment it
    counts. *)
Inductive ReadError : Set := RE_Store (e : MetaStoreError) | RE_SegmentAbsent (seg_no : Z).
Fixpoint read_segments (s : store) (bucket : Z) (key : bytes) (seg_nos : list Z) (slices : list Slice)
    : result ReadError (list Slice) :=
  match seg_nos with
  | [] => Ok slices
  | seg_no :: seg_nos =>
      match get_segment s bucket key seg_no with
      | Err e => Err (RE_Store e)
      | Ok None => Err (RE_SegmentAbsent seg_no)
      | Ok (Some segment) => read_segments s bucket key seg_nos (slices ++ ss_slices segment)
      end
  end.
Definition get_object_meta (s : store) (bucket : Z) (key : bytes)
    : result ReadError (option (ObjectHead * bytes * list Slice)) :=
  match get_head s bucket key with
  | Err e => Err (RE_Store e)
  | Ok None => Ok None
  | Ok (Some head) =>
      match oh_content head with
      | Inline data => Ok (Some (head, data, []))
      | Slices embedded =>
          slices <-? read_segments s bucket key (seqZ 0 (oh_seg_count head)) embedded ;;
          Ok (Some (head, [], slices))
      end
  end.

Fixpoint list_entries (page : KvPage) : MResult (list (bytes * ObjectHead)) :=
  match page with
  | [] => Ok []
  | (key, value) :: page =>
      head <-? decode_head value ;;
      if (length key <? 9)%nat then Err MSE_Panic
      else rest <-? list_entries page ;; Ok ((drop 9 key, head) :: rest)
  end.
Definition list_ (s : store) (bucket : Z) (prefix : bytes) (start_after : option bytes) (limit : nat)
    : MResult (list (bytes * ObjectHead)) :=
  let start := flat_key Meta bucket (default prefix start_after) [] ++ match start_after with Some _ => [0] | None => [] end in
  let end_ := prefix_end_or Meta (flat_key Meta bucket prefix []) in
  page <-? ms_scan s Meta start end_ limit ;;
  list_entries page.

(** ** Multipart uploads (ns_flat/multipart.rs) *)

Definition upload_key (bucket : Z) (key : bytes) (upload_id part_no : Z) : bytes :=
  flat_key Upload bucket key (suffix_upload_part upload_id part_no).
Definition upload_prefix (bucket : Z) (key : bytes) (upload_id : Z) : bytes :=
  flat_key Upload bucket key (be_bytes 16 upload_id).
Definition part_no_of (key : bytes) : option Z :=
  if (length key <? 4)%nat then None else Some (be_val (drop (length key - 4) key)).
Definition parse_upload_key (key : bytes) : option (Z * bytes * Z) :=
  match key with
  | [] => None
  | tag :: rest =>
      if negb (tag =? MetaCf_tag Upload) || (length rest <? 8 + 16 + 4)%nat then None
      else
        let bucket := take 8 rest in
        let rest := drop 8 rest in
        let object_key := take (length rest - 20) rest in
        let rest := drop (length rest - 20) rest in
        Some (be_val bucket, object_key, be_val (take 16 rest))
  end.

Definition scan_session (s : store) (bucket : Z) (key : bytes) (upload_id : Z) : MResult KvPage :=
  let prefix := upload_prefix bucket key upload_id in
  let end_ := prefix_end_or Upload prefix in
  paged_scan (scan_fuel s Upload) s Upload prefix end_ 4096 (fun out kv => Ok (out ++ [kv])) [].

Definition apply_create (s : store) (bucket : Z) (key : bytes) (upload_id ts_millis : Z) : MResult ApplyOutcome :=
  let session_key := upload_key bucket key upload_id 0 in
  v <-? ms_get s Upload session_key ;;
  match v with
  | Some _ => Ok (ApplyOutcome_no_delta [] RespNone)
  | None =>
      let session := {| us_upload_id := upload_id; us_init_ts := ts_millis |} in
      Ok (ApplyOutcome_no_delta [StoreOp_put Upload session_key (to_vec session)] RespNone)
  end.

Definition apply_put_part (s : store) (bucket : Z) (key : bytes) (upload_id part_no : Z) (part : PartMeta)
    (seq ts_millis : Z) : MResult ApplyOutcome :=
  v <-? ms_get s Upload (upload_key bucket key upload_id 0) ;;
  match v with
  | None => Ok (ApplyOutcome_no_delta [] (Rejected "unknown upload id"))
  | Some _ =>
      let part_key := upload_key bucket key upload_id part_no in
      old <-? ms_get s Upload part_key ;;
      let ops := match old with
                 | Some old => (flat_enqueue_delete_slices bucket key seq 0 (extract Upload old) ts_millis []).1
                 | None => []
                 end in
      Ok (ApplyOutcome_no_delta (ops ++ [StoreOp_put Upload part_key (to_vec part)]) RespNone)
  end.

Definition multipart_etag (parts : list PartRef) : bytes := take 16 (blake3 (concat (ref_etag <$> parts))).

(** The loop over the listed parts: [inl] a rejection, [inr] the slices and size so far. *)
Fixpoint collect_parts (s : store) (bucket : Z) (key : bytes) (upload_id : Z) (parts : list PartRef)
    (slices : list Slice) (size : Z) : MResult (string + list Slice * Z) :=
  match parts with
  | [] => Ok (inr (slices, size))
  | part_ref :: parts =>
      raw <-? ms_get s Upload (upload_key bucket key upload_id (ref_part_no part_ref)) ;;
      match raw with
      | None => Ok (inl (String.append "part " (String.append (pretty (ref_part_no part_ref)) " missing")))
      | Some raw =>
          part <-? ok_or (from_slice (A := PartMeta) raw) MSE_ValueCodec ;;
          if bool_decide (pm_etag part = ref_etag part_ref)
          then collect_parts s bucket key upload_id parts (slices ++ pm_slices part) (saturating_add 64 size (pm_size part))
          else Ok (inl (String.append "part " (String.append (pretty (ref_part_no part_ref)) " etag mismatch")))
      end
  end.

(** The loop over the session's entries; [keep part_no] are parts that stay live. *)
Definition discard_entry (bucket : Z) (key : bytes) (seq ts_millis : Z) (keep : Z -> bool)
    (p : list StoreOp * Z) (kv : bytes * bytes) : list StoreOp * Z :=
  let '(ops, next_seg_no) :=
    match part_no_of kv.1 with
    | Some part_no =>
        if negb (part_no =? 0) && negb (keep part_no)
        then flat_enqueue_delete_slices bucket key seq p.2 (extract Upload kv.2) ts_millis p.1
        else p
    | None => p
    end in
  (ops ++ [StoreOp_delete Upload kv.1], next_seg_no).

Definition apply_complete (s : store) (bucket : Z) (key : bytes) (upload_id : Z) (parts : list PartRef)
    (seq ts_millis : Z) : MResult ApplyOutcome :=
  v <-? ms_get s Upload (upload_key bucket key upload_id 0) ;;
  match v with
  | None => Ok (ApplyOutcome_no_delta [] (Rejected "unknown upload id"))
  | Some _ =>
      if decide (parts = []) then Ok (ApplyOutcome_no_delta [] (Rejected "empty part list"))
      else
        r <-? collect_parts s bucket key upload_id parts [] 0 ;;
        match r with
        | inl reason => Ok (ApplyOutcome_no_delta [] (Rejected reason))
        | inr (slices, size) =>
            c <-? capture_old s bucket key seq ts_millis [] ;;
            let '(ops, {| co_account := (old_inline, old_count, old_total); co_next_seg_no := next_seg_no |}) := c in
            let listed part_no := bool_decide (part_no ∈ ref_part_no <$> parts) in
            entries <-? scan_session s bucket key upload_id ;;
            let '(ops, _) := foldl (discard_entry bucket key seq ts_millis listed) (ops, next_seg_no) entries in
            let head := {| oh_size := size; oh_etag := multipart_etag parts; oh_mtime := ts_millis;
                           oh_storage := Standard; oh_content := Slices slices; oh_seg_count := 0;
                           oh_http := HttpMeta_default |} in
            let '(packed, segments) := pack head in
            let ops := ops ++ [StoreOp_put Meta (flat_key Meta bucket key []) (to_vec packed)]
                           ++ put_segments bucket key 0 segments in
            Ok {| ao_ops := ops; ao_response := RespNone;
                  ao_delta := {| gd_inline_bytes := i64_diff 0 old_inline; gd_inline_count := i64_diff 0 old_count;
                                 gd_total_bytes := i64_diff size old_total |} |}
        end
  end.

Definition apply_abort (s : store) (bucket : Z) (key : bytes) (upload_id seq ts_millis : Z) : MResult ApplyOutcome :=
  v <-? ms_get s Upload (upload_key bucket key upload_id 0) ;;
  match v with
  | None => Ok (ApplyOutcome_no_delta [] RespNone)
  | Some _ =>
      entries <-? scan_session s bucket key upload_id ;;
      let '(ops, _) := foldl (discard_entry bucket key seq ts_millis (fun _ => false)) ([], 0) entries in
      Ok (ApplyOutcome_no_delta ops RespNone)
  end.

Definition flat_apply (s : store) (op : FlatOp) (seq : Z) : MResult ApplyOutcome :=
  match op with
  | FPut bucket key head ts => apply_put s bucket key head seq ts
  | FDelete bucket key ts => apply_delete s bucket key seq ts
  | FCreateMultipart bucket key upload_id ts => apply_create s bucket key upload_id ts
  | FPutPart bucket key upload_id part_no part ts => apply_put_part s bucket key upload_id part_no part seq ts
  | FCompleteMultipart bucket key upload_id parts ts => apply_complete s bucket key upload_id parts seq ts
  | FAbortMultipart bucket key upload_id ts => apply_abort s bucket key upload_id seq ts
  end.

(** The scan of [sweep_expired]: the uploads a leader aborts, one proposal each. *)
Definition sweep_entry (expire_before : Z) (expired : list (Z * bytes * Z)) (kv : bytes * bytes)
    : MResult (list (Z * bytes * Z)) :=
  if bool_decide (part_no_of kv.1 = Some 0)
  then
    session <-? ok_or (from_slice (A := UploadSession) kv.2) MSE_ValueCodec ;;
    if us_init_ts session <=? expire_before
    then match parse_upload_key kv.1 with Some u => Ok (expired ++ [u]) | None => Ok expired end
    else Ok expired
  else Ok expired.
Definition sweep_expired (s : store) (r : PartitionRange) (ttl_millis now_millis : Z) : MResult (list FlatOp) :=
  match find (fun kr => bool_decide (kr_cf kr = Upload)) (key_ranges r) with
  | None => Ok []
  | Some bounds =>
      expired <-? paged_scan (scan_fuel s Upload) s Upload (kr_start bounds) (kr_end bounds) 1024
                    (sweep_entry (now_millis - ttl_millis)) [] ;;
      Ok ((fun u => FAbortMultipart u.1.1 u.1.2 u.2 now_millis) <$> expired)
  end.
End Flat.
