(* ===== verification/MetaFlatProps.v ===== *)
(** The flat namespace, proved: no slice is lost or invented by any operation,
    an object reads back as it was put, and what an operation on one object does to
    the others. *)

From stdpp Require Import gmultiset.
From S2P Require Import Prelude Ids Rocks PdDb MetaStore MetaKeys MetaNs MetaRefs MetaFlat.

Section FlatProps.
Context `{MetaSerde} {MS : MetaStore}.

(** Every slice the flat namespace and the delete queue mention. *)
Definition flat_refs_of (view : MetaCf -> gmap bytes bytes) : gmultiset Slice :=
  refs Meta (view Meta) ⊎ refs MetaSeg (view MetaSeg) ⊎ refs Upload (view Upload) ⊎ refs Delq (view Delq).
Definition flat_refs (s : store) : gmultiset Slice := flat_refs_of (ms_view s).

(** *** What [capture_old] emits *)

Definition seg_page (s : store) (b : Z) (key : bytes) : KvPage :=
  range (ms_view s MetaSeg) (flat_key MetaSeg b key []) (prefix_end_or MetaSeg (flat_key MetaSeg b key [])).
Definition page_slices (cf : MetaCf) (page : KvPage) : list Slice := mjoin ((fun kv => slices_in cf kv.2) <$> page).
Definition captured (s : store) (b : Z) (key : bytes) : list Slice :=
  match ms_view s Meta !! flat_key Meta b key [] with
  | None => []
  | Some old => extract Meta old ++ page_slices MetaSeg (seg_page s b key)
  end.
Definition captured_page (s : store) (b : Z) (key : bytes) : KvPage :=
  match ms_view s Meta !! flat_key Meta b key [] with None => [] | Some _ => seg_page s b key end.
Definition delq_key (b : Z) (key : bytes) (seq seg_no : Z) : bytes := flat_key Delq b key (suffix_delq_seq seq seg_no).
Definition enqueue_ops (b : Z) (key : bytes) (seq ts first : Z) (slices : list Slice) : list StoreOp :=
  puts_from Delq (delq_key b key seq) first (pending_values ts (chunks SEGMENT_SLICES slices)).
Definition chunk_count (slices : list Slice) : Z := Z.of_nat (length (chunks SEGMENT_SLICES slices)).

Lemma flat_enqueue_ops b key seq first slices ts ops :
  flat_enqueue_delete_slices b key seq first slices ts ops
  = (ops ++ enqueue_ops b key seq ts first slices, first + chunk_count slices).
Proof. unfold flat_enqueue_delete_slices, enqueue_delete_slices. by rewrite enqueue_chunks_puts. Qed.
Lemma iter_try_capture (page : KvPage) cap ops :
  iter_try (fun p kv => Ok (p.1 ++ extract MetaSeg kv.2, p.2 ++ [StoreOp_delete MetaSeg kv.1])) page (cap, ops)
  = Ok (E := MetaStoreError) (cap ++ page_slices MetaSeg page, ops ++ deletes MetaSeg page).
Proof.
  revert cap ops. induction page as [|kv page IH]; intros cap ops; [by rewrite !app_nil_r|].
  cbn [iter_try fst snd]. rewrite IH. unfold page_slices. rewrite fmap_cons, mjoin_cons, <- !app_assoc. done.
Qed.

Definition store_wf (s : store) : Prop := ms_open s /\ forall cf, keys_ok (ms_view s cf).

Lemma capture_old_ok s b key seq ts ops : store_wf s -> is_bytes key ->
  exists account, capture_old s b key seq ts ops
    = Ok (ops ++ deletes MetaSeg (captured_page s b key) ++ enqueue_ops b key seq ts 0 (captured s b key),
          {| co_account := account; co_next_seg_no := chunk_count (captured s b key) |}).
Proof.
  intros [Ho Hk] Hb. unfold capture_old, captured, captured_page. rewrite ms_get_ok by done. cbv beta iota zeta.
  destruct (ms_view s Meta !! _) as [old|]; [|eexists; by rewrite app_nil_r].
  rewrite scan_prefix by (done || lia). rewrite iter_try_capture. cbv beta iota zeta. rewrite flat_enqueue_ops. cbv beta iota zeta. cbn [fst snd]. rewrite <- app_assoc.
  by eexists.
Qed.

(** *** Keys *)

Lemma delq_key_inj b key seq b' key' seq' seg seg' : is_u64 seq -> is_u64 seq' ->
  delq_key b key seq seg = delq_key b' key' seq' seg' -> seq = seq'.
Proof.
  unfold delq_key. rewrite !(flat_key_app Delq _ _ (suffix_delq_seq _ _)). unfold suffix_delq_seq. rewrite !app_assoc.
  intros Hs Hs' [[_ E]%app_inj_suffix _]%app_inj_suffix. by apply (be_bytes_inj_uint 8 64) in E.
Qed.
Lemma delq_key_seg_inj b key seq i j : is_u32 i -> is_u32 j -> delq_key b key seq i = delq_key b key seq j -> i = j.
Proof.
  unfold delq_key. rewrite !(flat_key_app Delq _ _ (suffix_delq_seq _ _)). unfold suffix_delq_seq. rewrite !app_assoc.
  intros Hi Hj [_ E]%app_inj_suffix. by apply (be_bytes_inj_uint 4 32) in E.
Qed.
Definition seg_key (b : Z) (key : bytes) (seg_no : Z) : bytes := flat_key MetaSeg b key (suffix_seg_no seg_no).
Lemma seg_key_inj b key i j : is_u32 i -> is_u32 j -> seg_key b key i = seg_key b key j -> i = j.
Proof.
  unfold seg_key, suffix_seg_no. rewrite !(flat_key_app MetaSeg _ _ (be_bytes _ _)).
  intros Hi Hj [_ E]%app_inj_suffix. by apply (be_bytes_inj_uint 4 32) in E.
Qed.
Lemma seg_key_owner b b' key key' i j : is_u64 b -> is_u64 b' -> seg_key b key i = seg_key b' key' j -> b = b' /\ key = key'.
Proof.
  unfold seg_key, suffix_seg_no. rewrite !(flat_key_app MetaSeg _ _ (be_bytes _ _)).
  intros Hb Hb' [E _]%app_inj_suffix. by apply flat_key_inj in E.
Qed.
Lemma seg_key_prefix b key i : flat_key MetaSeg b key [] `prefix_of` seg_key b key i.
Proof. unfold seg_key. rewrite (flat_key_app _ _ _ (suffix_seg_no i)). by apply prefix_app_r. Qed.

(** *** The invariant between operations *)

(** Between two operations of a partition, [seq] the next delete sequence: every
    segment of a flat bucket has its head, the queue holds no entry with a sequence
    not yet used, and the upload family holds sessions (part 0) and parts. *)
Record flat_inv (view : MetaCf -> gmap bytes bytes) (seq : Z) : Prop := {
  fi_keys cf : keys_ok (view cf);
  fi_seg_owned b key i : is_u64 b -> bucket_ns b = Flat -> is_Some (view MetaSeg !! seg_key b key i) ->
    is_Some (view Meta !! flat_key Meta b key []);
  fi_delq b key q i : is_u64 q -> seq <= q -> view Delq !! delq_key b key q i = None;
  fi_session b key id v : view Upload !! upload_key b key id 0 = Some v -> from_slice (A := PartMeta) v = None;
  fi_part b key id part v : is_u32 part -> part <> 0 -> view Upload !! upload_key b key id part = Some v ->
    is_Some (from_slice (A := PartMeta) v)
}.

(** *** Views of the emitted batches *)

Lemma view_deletes_other cf cf' page m : cf <> cf' -> view_ops cf (deletes cf' page) m = m.
Proof.
  intros Hne. apply view_ops_other. unfold deletes. apply Forall_fmap, Forall_true. intros kv. simpl. congruence.
Qed.
Lemma view_puts_other cf cf' key i values m : cf <> cf' -> view_ops cf (puts_from cf' key i values) m = m.
Proof.
  intros Hne. apply view_ops_other. eapply Forall_impl; [apply puts_from_cf|]. simpl. congruence.
Qed.
Lemma view_put1 cf k v m : view_ops cf [StoreOp_put cf k v] m = <[k := v]> m.
Proof. by rewrite view_ops_cons, view_op_put. Qed.
Lemma view_delete1 cf k m : view_ops cf [StoreOp_delete cf k] m = delete k m.
Proof. by rewrite view_ops_cons, view_op_delete. Qed.
Lemma view_op1_other cf op m : cf <> so_cf op -> view_ops cf [op] m = m.
Proof. intros Hne. apply view_ops_other. constructor; [congruence|constructor]. Qed.

Lemma view_ops_keys cf ops m :
  Forall (fun op => is_bytes (so_key op)) ops -> keys_ok m -> keys_ok (view_ops cf ops m).
Proof.
  intros Ho. revert m. induction Ho as [|op ops Hop Hops IH]; intros m Hm; [done|]. rewrite view_ops_cons. apply IH.
  unfold view_op. case_decide; [|done]. destruct (so_value op) as [v|]; intros k v'.
  - rewrite lookup_insert_Some. intros [[<- _]|[_ ?]]; [done|]. by eapply Hm.
  - rewrite lookup_delete_Some. intros [_ ?]. by eapply Hm.
Qed.
Lemma deletes_keys cf page m : keys_ok m -> (forall k v, (k, v) ∈ page -> m !! k = Some v) ->
  Forall (fun op => is_bytes (so_key op)) (deletes cf page).
Proof.
  intros Hm Hin. unfold deletes. apply Forall_fmap, Forall_forall. intros [k v] Hkv. apply Hin in Hkv. simpl. by eapply Hm.
Qed.
Lemma puts_keys cf key i values : (forall j, is_bytes (key j)) -> Forall (fun op => is_bytes (so_key op)) (puts_from cf key i values).
Proof. intros Hk. revert i. induction values; intros i; simpl; constructor; auto. apply Hk. Qed.
Lemma suffix_bytes n x : is_bytes (be_bytes n x).
Proof. apply be_bytes_bytes. Qed.
Lemma delq_key_bytes b key q i : is_bytes key -> is_bytes (delq_key b key q i).
Proof. intros. apply flat_key_bytes; [done|]. unfold suffix_delq_seq. apply Forall_app. split; apply be_bytes_bytes. Qed.
Lemma seg_key_bytes b key i : is_bytes key -> is_bytes (seg_key b key i).
Proof. intros. apply flat_key_bytes; [done|]. apply be_bytes_bytes. Qed.
Lemma upload_key_bytes b key id p : is_bytes key -> is_bytes (upload_key b key id p).
Proof. intros. apply flat_key_bytes; [done|]. unfold suffix_upload_part. apply Forall_app. split; apply be_bytes_bytes. Qed.

(** *** The captured object *)

Section Capture.
Context (s : store) (b : Z) (key : bytes) (seq ts : Z).
Hypothesis (Hinv : flat_inv (ms_view s) seq) (Hb : is_u64 b) (Hns : bucket_ns b = Flat) (Hkey : is_bytes key).
Hypothesis (Hseq : is_u64 seq).

Lemma elem_of_seg_page k v :
  (k, v) ∈ seg_page s b key <-> ms_view s MetaSeg !! k = Some v /\ flat_key MetaSeg b key [] `prefix_of` k.
Proof. apply elem_of_prefix; [apply (fi_keys _ _ Hinv)|done]. Qed.
Lemma captured_page_in k v : (k, v) ∈ captured_page s b key -> ms_view s MetaSeg !! k = Some v.
Proof. unfold captured_page. destruct (_ !! _); [|set_solver]. intros [? _]%elem_of_seg_page. done. Qed.
Lemma captured_page_nodup : NoDup (captured_page s b key).*1.
Proof.
  unfold captured_page. destruct (_ !! _); [|constructor]. apply sorted_nodup, range_sorted.
Qed.
Lemma captured_mset :
  mset (captured s b key) = refs_at Meta (ms_view s Meta) (flat_key Meta b key []) ⊎ mset (page_slices MetaSeg (captured_page s b key)).
Proof.
  unfold captured, refs_at, captured_page. destruct (_ !! _); [by rewrite mset_app|]. multiset_solver.
Qed.
(** After the capture no segment of the object is left. *)
Lemma captured_segs_gone i :
  view_ops MetaSeg (deletes MetaSeg (captured_page s b key)) (ms_view s MetaSeg) !! seg_key b key i = None.
Proof.
  rewrite view_deletes_lookup. case_bool_decide as Hin; [done|].
  destruct (ms_view s MetaSeg !! seg_key b key i) as [v|] eqn:E; [|done]. exfalso. apply Hin.
  pose proof (fi_seg_owned _ _ Hinv b key i Hb Hns ltac:(by eexists)) as [h Hh].
  apply list_elem_of_fmap. exists (seg_key b key i, v). split; [done|]. unfold captured_page. rewrite Hh.
  apply elem_of_seg_page. split; [done|]. apply seg_key_prefix.
Qed.
Lemma enqueue_refs (first : Z) (slices : list Slice) (m : gmap bytes bytes) :
  0 <= first -> first + chunk_count slices <= 2 ^ 32 ->
  (forall i, first <= i < first + chunk_count slices -> m !! delq_key b key seq i = None) ->
  refs Delq (view_ops Delq (enqueue_ops b key seq ts first slices) m) = mset slices ⊎ refs Delq m.
Proof.
  intros Hf Hc Hm. unfold enqueue_ops, chunk_count in *. rewrite refs_puts_fresh.
  - rewrite pending_slices, concat_chunks by (unfold SEGMENT_SLICES; lia). done.
  - unfold pending_values. rewrite length_fmap. intros i j Hi Hj. apply delq_key_seg_inj; unfold uint; lia.
  - unfold pending_values. rewrite length_fmap. done.
Qed.
End Capture.

(** *** Counting *)

Lemma size_mset (l : list Slice) : size (mset l) = length l.
Proof.
  induction l as [|x l IH]; [done|]. unfold mset in *. simpl. rewrite gmultiset_size_disj_union, gmultiset_size_singleton. lia.
Qed.
Lemma chunks_fuel_length {A} fuel n (l : list A) : (0 < n)%nat -> (length (chunks_fuel fuel n l) <= length l)%nat.
Proof.
  intros Hn. revert l. induction fuel as [|fuel IH]; intros [|x l]; simpl; try lia.
  etrans; [apply le_n_S, IH|]. rewrite length_drop. simpl. lia.
Qed.
Lemma chunk_count_le (l : list Slice) : 0 <= chunk_count l <= Z.of_nat (length l).
Proof.
  unfold chunk_count. pose proof (chunks_fuel_length (length l) SEGMENT_SLICES l ltac:(unfold SEGMENT_SLICES; lia)).
  unfold chunks. lia.
Qed.
Lemma mset_length (l : list Slice) (X : gmultiset Slice) : mset l ⊆ X -> Z.of_nat (length l) <= Z.of_nat (size X).
Proof. intros Hs%gmultiset_subseteq_size. rewrite size_mset in Hs. lia. Qed.
(** Fewer slices than a [u32] counts: segment numbers never wrap. *)
Definition few (X : gmultiset Slice) : Prop := Z.of_nat (size X) <= 2 ^ 32.
Lemma few_chunks X l : few X -> mset l ⊆ X -> chunk_count l <= 2 ^ 32.
Proof. intros HX Hl%mset_length. pose proof (chunk_count_le l). unfold few in HX. lia. Qed.

(** *** Writing a head and its segments *)

Lemma put_segments_puts b key i segs :
  put_segments b key i segs = puts_from MetaSeg (seg_key b key) i (to_vec <$> segs).
Proof. revert i. induction segs as [|x segs IH]; intros i; simpl; [done|]. by rewrite IH. Qed.
Lemma segment_slices segs : mjoin (slices_in MetaSeg <$> (to_vec <$> segs)) = concat (ss_slices <$> segs).
Proof.
  induction segs as [|x segs IH]; [done|]. rewrite !fmap_cons, mjoin_cons, IH. cbn [slices_in extract concat]. by rewrite from_to.
Qed.
Lemma pack_slices head :
  let '(packed, segs) := pack head in
  ContentHead_into_slices (oh_content packed) ++ concat (ss_slices <$> segs) = ContentHead_into_slices (oh_content head).
Proof.
  unfold pack. destruct (oh_content head) as [x|slices]; [done|]. pose proof (split_slices_all slices) as Hs.
  destruct (split_slices slices) as [embedded segs]. exact Hs.
Qed.
Lemma segments_few segs l : concat (ss_slices <$> segs) = l -> Forall (fun x => ss_slices x <> []) segs ->
  (length segs <= length l)%nat.
Proof.
  intros <- Hs. induction Hs as [|x segs Hx Hs IH]; [done|]. rewrite fmap_cons. cbn [concat length]. rewrite length_app.
  destruct (ss_slices x); [done|]. cbn [length]. lia.
Qed.
Lemma chunks_fuel_nonempty {A} fuel n (l : list A) : (0 < n)%nat -> Forall (fun c => c <> []) (chunks_fuel fuel n l).
Proof.
  intros Hn. revert l. induction fuel as [|fuel IH]; intros [|x l]; simpl; try constructor; auto. by destruct n; [lia|].
Qed.
Lemma pack_segments_few head :
  (length (pack head).2 <= length (ContentHead_into_slices (oh_content head)))%nat.
Proof.
  pose proof (pack_slices head) as Hp. destruct (pack head) as [packed segs] eqn:E. simpl.
  rewrite <- Hp, length_app. enough (length segs <= length (concat (ss_slices <$> segs)))%nat by lia.
  apply segments_few; [done|]. unfold pack in E. destruct (oh_content head); [by injection E as <- <-|].
  unfold split_slices in E. destruct (_ <=? _)%nat; injection E as <- <-; [constructor|].
  apply Forall_fmap, chunks_fuel_nonempty. unfold SEGMENT_SLICES. lia.
Qed.

Lemma put_object_refs (b : Z) (key : bytes) (head : ObjectHead) (mm mg : gmap bytes bytes) :
  is_u64 b -> few (mset (ContentHead_into_slices (oh_content head))) -> (forall i, mg !! seg_key b key i = None) ->
  let hk := flat_key Meta b key [] in
  refs Meta (<[hk := to_vec (pack head).1]> mm) ⊎ refs_at Meta mm hk
    ⊎ refs MetaSeg (view_ops MetaSeg (put_segments b key 0 (pack head).2) mg)
  = mset (ContentHead_into_slices (oh_content head)) ⊎ refs Meta mm ⊎ refs MetaSeg mg.
Proof.
  intros Hb Hf Hg hk. rewrite refs_put, put_segments_puts, refs_puts_fresh.
  - rewrite segment_slices. cbn [slices_in extract]. rewrite from_to. pose proof (pack_slices head) as Hp.
    destruct (pack head) as [packed segs]. cbn [fst snd]. rewrite <- Hp, mset_app. multiset_solver.
  - rewrite length_fmap. unfold few in Hf. rewrite size_mset in Hf. pose proof (pack_segments_few head).
    intros i j Hi Hj. apply seg_key_inj; unfold uint; lia.
  - intros i _. apply Hg.
Qed.

(** *** Preserving the invariant *)

Lemma flat_inv_intro (view view' : MetaCf -> gmap bytes bytes) (b : Z) (key : bytes) (seq : Z) :
  flat_inv view seq -> is_u64 seq -> is_u64 b ->
  (forall cf, keys_ok (view' cf)) ->
  (forall k, k <> flat_key Meta b key [] -> view' Meta !! k = view Meta !! k) ->
  (forall k, is_Some (view' MetaSeg !! k) ->
     (is_Some (view MetaSeg !! k) /\ (is_Some (view' Meta !! flat_key Meta b key []) \/ forall i, k <> seg_key b key i))
     \/ (is_Some (view' Meta !! flat_key Meta b key []) /\ exists i, k = seg_key b key i)) ->
  (forall k, (forall i, k <> delq_key b key seq i) -> view' Delq !! k = view Delq !! k) ->
  (forall k v, view' Upload !! k = Some v -> view Upload !! k = Some v
     \/ (exists id x, k = upload_key b key id 0 /\ v = to_vec (A := UploadSession) x)
     \/ (exists id part x, is_u32 part /\ part <> 0 /\ k = upload_key b key id part /\ v = to_vec (A := PartMeta) x)) ->
  flat_inv view' (seq + 1).
Proof.
  intros Hinv Hseq Hb Hk Hm Hg Hd Hu. constructor; [done| | | |].
  - intros b' key' i Hb' Hns' Hs. apply Hg in Hs as [[Hs Hor]|[Hh [j E]]].
    + apply (fi_seg_owned _ _ Hinv) in Hs; [|done|done].
      destruct (decide (flat_key Meta b' key' [] = flat_key Meta b key [])) as [E|Hne]; [|by rewrite Hm].
      destruct Hor as [Hh|Hor]; [by rewrite E|]. apply flat_key_inj in E as [-> ->]; [|done|done]. by destruct (Hor i).
    + apply seg_key_owner in E as [-> ->]; done.
  - intros b' key' q i Hq Hle. rewrite Hd; [apply (fi_delq _ _ Hinv); [done|lia]|].
    intros j E. apply delq_key_inj in E; [lia|done|done].
  - intros b' key' id v Hv. apply Hu in Hv as [Hv|[(id' & x & _ & ->)|(id' & part & x & Hp & Hne & E & ->)]].
    + by eapply (fi_session _ _ Hinv).
    + apply session_not_part.
    + exfalso. apply Hne. unfold upload_key in E. rewrite !(flat_key_app Upload _ _ (suffix_upload_part _ _)) in E.
      unfold suffix_upload_part in E. rewrite !app_assoc in E. apply app_inj_suffix in E as [_ E].
      by apply (be_bytes_inj_uint 4 32) in E.
  - intros b' key' id part v Hp Hne Hv. apply Hu in Hv as [Hv|[(id' & x & E & ->)|(id' & part' & x & _ & _ & _ & ->)]].
    + by eapply (fi_part _ _ Hinv).
    + exfalso. apply Hne. unfold upload_key in E. rewrite !(flat_key_app Upload _ _ (suffix_upload_part _ _)) in E.
      unfold suffix_upload_part in E. rewrite !app_assoc in E. apply app_inj_suffix in E as [_ E].
      by apply (be_bytes_inj_uint 4 32) in E.
    + rewrite from_to. by eexists.
Qed.

(** *** The operations *)

(** What a batch does: the next sequence's invariant, and the slices that are new. *)
Definition flat_step (view : MetaCf -> gmap bytes bytes) (seq : Z) (ops : list StoreOp) (new : list Slice) : Prop :=
  flat_inv (fun cf => view_ops cf ops (view cf)) (seq + 1)
  /\ flat_refs_of (fun cf => view_ops cf ops (view cf)) = flat_refs_of view ⊎ mset new.

Lemma view_enqueue_other cf b key seq ts first slices m : cf <> Delq ->
  view_ops cf (enqueue_ops b key seq ts first slices) m = m.
Proof. apply view_puts_other. Qed.
Lemma view_put_segments_other cf b key i segs m : cf <> MetaSeg -> view_ops cf (put_segments b key i segs) m = m.
Proof. rewrite put_segments_puts. apply view_puts_other. Qed.
Lemma enqueue_lookup_ne b key seq ts first slices m k : (forall i, k <> delq_key b key seq i) ->
  view_ops Delq (enqueue_ops b key seq ts first slices) m !! k = m !! k.
Proof. intros Hk. apply view_puts_lookup_ne. intros j _ E. by apply (Hk j). Qed.
Lemma put_segments_lookup b key i segs m k : is_Some (view_ops MetaSeg (put_segments b key i segs) m !! k) ->
  is_Some (m !! k) \/ exists j, k = seg_key b key j.
Proof.
  rewrite put_segments_puts. intros Hs.
  destruct (decide (Exists (fun j => k = seg_key b key j) (seqZ i (Z.of_nat (length segs))))) as [Hin|Hno].
  - right. apply Exists_exists in Hin as (j & _ & ->). by exists j.
  - left. rewrite view_puts_lookup_ne in Hs; [done|]. rewrite length_fmap. intros j Hj E. apply Hno, Exists_exists.
    exists j. split; [|done]. apply elem_of_seqZ. lia.
Qed.
Lemma deletes_lookup_some cf page m k : is_Some (view_ops cf (deletes cf page) m !! k) -> is_Some (m !! k).
Proof. rewrite view_deletes_lookup. by case_bool_decide; [intros [? ?]|]. Qed.
End FlatProps.

(** The effect of a batch on one family, part by part. *)
Ltac view_simpl :=
  cbv beta; rewrite ?view_ops_app;
  repeat match goal with
         | |- context [view_ops ?cf (deletes ?cf' ?p) ?m] => rewrite (view_deletes_other cf cf' p m) by discriminate
         | |- context [view_ops ?cf (enqueue_ops ?b ?key ?seq ?ts ?i ?l) ?m] =>
             rewrite (view_enqueue_other cf b key seq ts i l m) by discriminate
         | |- context [view_ops ?cf (put_segments ?b ?key ?i ?l) ?m] =>
             rewrite (view_put_segments_other cf b key i l m) by discriminate
         | |- context [view_ops ?cf [StoreOp_put ?cf ?k ?v] ?m] => rewrite (view_put1 cf k v m)
         | |- context [view_ops ?cf [StoreOp_delete ?cf ?k] ?m] => rewrite (view_delete1 cf k m)
         | |- context [view_ops ?cf [?op] ?m] => rewrite (view_op1_other cf op m) by discriminate
         end.

Section FlatSteps.
Context `{MetaSerde} {MS : MetaStore}.
Context (s : store) (b : Z) (key : bytes) (seq ts : Z).
Hypothesis (Hinv : flat_inv (ms_view s) seq) (Hb : is_u64 b) (Hns : bucket_ns b = Flat) (Hkey : is_bytes key).
Hypothesis (Hseq : is_u64 seq).

Definition capture_ops : list StoreOp :=
  deletes MetaSeg (captured_page s b key) ++ enqueue_ops b key seq ts 0 (captured s b key).

Lemma captured_refs :
  refs MetaSeg (ms_view s MetaSeg)
  = mset (page_slices MetaSeg (captured_page s b key))
    ⊎ refs MetaSeg (view_ops MetaSeg (deletes MetaSeg (captured_page s b key)) (ms_view s MetaSeg)).
Proof.
  apply refs_deletes; [apply captured_page_nodup|]. intros k v. by eapply captured_page_in.
Qed.
Lemma captured_subset : mset (captured s b key) ⊆ flat_refs s.
Proof.
  rewrite captured_mset. unfold flat_refs, flat_refs_of. rewrite captured_refs.
  rewrite (refs_del Meta (ms_view s Meta) (flat_key Meta b key [])). multiset_solver.
Qed.
Lemma captured_few : few (flat_refs s) -> chunk_count (captured s b key) <= 2 ^ 32.
Proof. intros Hf. eapply few_chunks; [done|apply captured_subset]. Qed.
Lemma capture_delq : few (flat_refs s) ->
  refs Delq (view_ops Delq (enqueue_ops b key seq ts 0 (captured s b key)) (ms_view s Delq))
  = mset (captured s b key) ⊎ refs Delq (ms_view s Delq).
Proof.
  intros Hf. pose proof (captured_few Hf). apply enqueue_refs; [lia|lia|].
  intros i _. apply (fi_delq _ _ Hinv); [done|lia].
Qed.
Lemma capture_keys : Forall (fun op => is_bytes (so_key op)) capture_ops.
Proof.
  apply Forall_app. split.
  - eapply deletes_keys; [apply (fi_keys _ _ Hinv)|]. intros k v. by eapply captured_page_in.
  - apply puts_keys. intros j. by apply delq_key_bytes.
Qed.

Lemma put_step (head : ObjectHead) : few (flat_refs s) -> few (mset (ContentHead_into_slices (oh_content head))) ->
  flat_step (ms_view s) seq
    (capture_ops ++ [StoreOp_put Meta (flat_key Meta b key []) (to_vec (pack head).1)] ++ put_segments b key 0 (pack head).2)
    (ContentHead_into_slices (oh_content head)).
Proof.
  intros Hf Hn. split.
  - apply (flat_inv_intro (ms_view s) _ b key); [done|done|done| | | | |].
    + intros cf. apply view_ops_keys; [|apply (fi_keys _ _ Hinv)]. apply Forall_app. split; [apply capture_keys|].
      apply Forall_app. split; [constructor; [by apply flat_key_bytes; [|constructor]|constructor]|].
      rewrite put_segments_puts. apply puts_keys. intros j. by apply seg_key_bytes.
    + intros k Hk. unfold capture_ops. view_simpl. by rewrite lookup_insert_ne.
    + intros k. unfold capture_ops. view_simpl. rewrite lookup_insert_eq.
      intros [Hs%deletes_lookup_some|Hs]%put_segments_lookup; [left|right]; eauto.
    + intros k Hk. unfold capture_ops. view_simpl. by apply enqueue_lookup_ne.
    + intros k v. unfold capture_ops. view_simpl. by left.
  - unfold flat_refs_of, capture_ops. view_simpl. rewrite (capture_delq Hf), captured_mset, captured_refs.
    pose proof (put_object_refs b key head (ms_view s Meta) _ Hb Hn (captured_segs_gone s b key seq Hinv Hb Hns)) as Hp.
    cbv zeta in Hp. multiset_solver.
Qed.

Lemma delete_step : few (flat_refs s) ->
  flat_step (ms_view s) seq (capture_ops ++ [StoreOp_delete Meta (flat_key Meta b key [])]) [].
Proof.
  intros Hf. split.
  - apply (flat_inv_intro (ms_view s) _ b key); [done|done|done| | | | |].
    + intros cf. apply view_ops_keys; [|apply (fi_keys _ _ Hinv)]. apply Forall_app. split; [apply capture_keys|].
      constructor; [by apply flat_key_bytes; [|constructor]|constructor].
    + intros k Hk. unfold capture_ops. view_simpl. by rewrite lookup_delete_ne.
    + intros k. unfold capture_ops. view_simpl. intros Hs. left. split; [by eapply deletes_lookup_some|].
      right. intros i ->. rewrite (captured_segs_gone s b key seq) in Hs by done. by destruct Hs.
    + intros k Hk. unfold capture_ops. view_simpl. by apply enqueue_lookup_ne.
    + intros k v. unfold capture_ops. view_simpl. by left.
  - unfold flat_refs_of, capture_ops. view_simpl. rewrite (capture_delq Hf), captured_mset, captured_refs.
    rewrite (refs_del Meta (ms_view s Meta) (flat_key Meta b key [])). rewrite mset_nil. multiset_solver.
Qed.

Lemma nop_step : flat_step (ms_view s) seq [] [].
Proof.
  split; [|rewrite mset_nil; cbn; multiset_solver].
  apply (flat_inv_intro (ms_view s) _ b key); [done|done|done|apply (fi_keys _ _ Hinv)|done| |done|by left].
  intros k Hk. destruct (ms_view s Meta !! flat_key Meta b key []) as [h|] eqn:E.
  - left. split; [done|]. left. exists h. exact E.
  - left. split; [done|]. right. intros i ->. apply (fi_seg_owned _ _ Hinv) in Hk; [|done|done].
    rewrite E in Hk. by destruct Hk.
Qed.

(** Operations on the upload family alone: the heads and the segments stay. *)
Lemma upload_inv_intro ops :
  Forall (fun op => is_bytes (so_key op)) ops ->
  (forall cf, cf <> Upload -> cf <> Delq -> view_ops cf ops (ms_view s cf) = ms_view s cf) ->
  (forall k, (forall i, k <> delq_key b key seq i) -> view_ops Delq ops (ms_view s Delq) !! k = ms_view s Delq !! k) ->
  (forall k v, view_ops Upload ops (ms_view s Upload) !! k = Some v -> ms_view s Upload !! k = Some v
     \/ (exists id x, k = upload_key b key id 0 /\ v = to_vec (A := UploadSession) x)
     \/ (exists id part x, is_u32 part /\ part <> 0 /\ k = upload_key b key id part /\ v = to_vec (A := PartMeta) x)) ->
  flat_inv (fun cf => view_ops cf ops (ms_view s cf)) (seq + 1).
Proof.
  intros Hk Ho Hd Hu. apply (flat_inv_intro (ms_view s) _ b key); [done|done|done| | | |done|done].
  - intros cf. apply view_ops_keys; [done|apply (fi_keys _ _ Hinv)].
  - intros k _. by rewrite Ho.
  - intros k. rewrite !Ho by done. intros Hs. left. split; [done|].
    destruct (ms_view s Meta !! flat_key Meta b key []) as [h|] eqn:E; [by left; exists h|right].
    intros i ->. apply (fi_seg_owned _ _ Hinv) in Hs; [|done|done]. rewrite E in Hs. by destruct Hs.
Qed.

Lemma create_step id session : ms_view s Upload !! upload_key b key id 0 = None ->
  flat_step (ms_view s) seq [StoreOp_put Upload (upload_key b key id 0) (to_vec (A := UploadSession) session)] [].
Proof.
  intros Hn. split.
  - apply upload_inv_intro.
    + constructor; [by apply upload_key_bytes|constructor].
    + intros cf H1 H2. by apply view_op1_other.
    + intros k _. by view_simpl.
    + intros k v. view_simpl. rewrite lookup_insert_Some. intros [[<- <-]|[_ ?]]; [|by left]. right. left. eauto.
  - unfold flat_refs_of. view_simpl. rewrite refs_put_fresh by done. cbn [slices_in extract]. rewrite session_not_part.
    rewrite mset_nil. multiset_solver.
Qed.

Definition put_part_ops (id part_no : Z) (part : PartMeta) : list StoreOp :=
  match ms_view s Upload !! upload_key b key id part_no with
  | Some old => enqueue_ops b key seq ts 0 (extract Upload old)
  | None => []
  end ++ [StoreOp_put Upload (upload_key b key id part_no) (to_vec part)].
Lemma put_part_step id part_no (part : PartMeta) : few (flat_refs s) -> is_u32 part_no -> part_no <> 0 ->
  flat_step (ms_view s) seq (put_part_ops id part_no part) (pm_slices part).
Proof.
  intros Hf Hp Hne. unfold put_part_ops. set (pk := upload_key b key id part_no).
  set (old := match ms_view s Upload !! pk with Some old => extract Upload old | None => [] end).
  assert (match ms_view s Upload !! pk with Some old => enqueue_ops b key seq ts 0 (extract Upload old) | None => [] end
          = enqueue_ops b key seq ts 0 old) as -> by (unfold old; by destruct (_ !! _)).
  assert (mset old = refs_at Upload (ms_view s Upload) pk) as Hold.
  { unfold old, refs_at. by destruct (_ !! _). }
  split.
  - apply upload_inv_intro.
    + apply Forall_app. split; [apply puts_keys; intros j; by apply delq_key_bytes|].
      constructor; [by apply upload_key_bytes|constructor].
    + intros cf H1 H2. rewrite view_ops_app, view_enqueue_other by done. by apply view_op1_other.
    + intros k Hk. view_simpl. by apply enqueue_lookup_ne.
    + intros k v. view_simpl. rewrite lookup_insert_Some. intros [[<- <-]|[_ ?]]; [|by left]. right. right. eauto 10.
  - unfold flat_refs_of. view_simpl. rewrite enqueue_refs.
    + pose proof (refs_put Upload (ms_view s Upload) pk (to_vec part)) as Hr. cbn [slices_in extract] in Hr.
      rewrite from_to in Hr. rewrite Hold. multiset_solver.
    + lia.
    + assert (chunk_count old <= 2 ^ 32); [|lia]. eapply few_chunks; [done|]. rewrite Hold.
      unfold flat_refs, flat_refs_of. rewrite (refs_del Upload (ms_view s Upload) pk). multiset_solver.
    + intros i _. apply (fi_delq _ _ Hinv); [done|lia].
Qed.
End FlatSteps.

(** *** Discarding an upload session *)

Section Session.
Context `{MetaSerde} {MS : MetaStore}.
Context (s : store) (b : Z) (key : bytes) (id seq ts : Z).
Hypothesis (Hinv : flat_inv (ms_view s) seq) (Hb : is_u64 b) (Hns : bucket_ns b = Flat) (Hkey : is_bytes key).
Hypothesis (Hseq : is_u64 seq).

(** No other object's key runs on past this upload's prefix. *)
Definition session_apart : Prop := forall k, is_Some (ms_view s Upload !! k) -> upload_prefix b key id `prefix_of` k ->
  length k = (length (upload_prefix b key id) + 4)%nat.
Definition session_page : KvPage :=
  range (ms_view s Upload) (upload_prefix b key id) (prefix_end_or Upload (upload_prefix b key id)).

Lemma upload_prefix_flat : upload_prefix b key id = flat_key Upload b (key ++ be_bytes 16 id) [].
Proof. unfold upload_prefix. by rewrite flat_key_app, flat_key_ext. Qed.
Lemma upload_key_prefix part : upload_key b key id part = upload_prefix b key id ++ be_bytes 4 part.
Proof.
  unfold upload_key, upload_prefix, suffix_upload_part. rewrite (flat_key_app _ _ _ (_ ++ _)), (flat_key_app _ _ _ (be_bytes _ _)).
  by rewrite app_assoc.
Qed.
Lemma upload_key_inj part part' : is_u32 part -> is_u32 part' -> upload_key b key id part = upload_key b key id part' -> part = part'.
Proof. rewrite !upload_key_prefix. intros Hp Hp' [_ E]%app_inj_suffix. by apply (be_bytes_inj_uint 4 32) in E. Qed.
Lemma part_no_of_key part : is_u32 part -> part_no_of (upload_key b key id part) = Some part.
Proof.
  intros Hp. unfold part_no_of. rewrite upload_key_prefix, length_app, length_be_bytes.
  destruct (Nat.ltb_spec (length (upload_prefix b key id) + 4) 4); [lia|].
  rewrite Nat.add_sub, drop_app_length. by rewrite (be_val_uint 4 32).
Qed.
Lemma elem_of_session_page k v :
  (k, v) ∈ session_page <-> ms_view s Upload !! k = Some v /\ upload_prefix b key id `prefix_of` k.
Proof. unfold session_page. rewrite upload_prefix_flat. apply elem_of_prefix; [apply (fi_keys _ _ Hinv)|done]. Qed.
Lemma session_page_nodup : NoDup session_page.*1.
Proof. apply sorted_nodup, range_sorted. Qed.
Lemma session_page_key k v : session_apart -> (k, v) ∈ session_page ->
  exists part, is_u32 part /\ k = upload_key b key id part.
Proof.
  intros Ha [Hk [r ->]]%elem_of_session_page. pose proof (Ha _ ltac:(by eexists) ltac:(by eexists)) as Hl.
  rewrite length_app in Hl. assert (is_bytes r) as Hr.
  { apply (fi_keys _ _ Hinv) in Hk. by apply Forall_app in Hk as [_ ?]. }
  exists (be_val r). rewrite upload_key_prefix. replace 4%nat with (length r) by lia. rewrite be_bytes_be_val by done.
  split; [|done]. pose proof (be_val_range r Hr) as Hv. unfold len in Hv. replace (length r) with 4%nat in Hv by lia. exact Hv.
Qed.
Lemma iter_try_collect (page out : KvPage) :
  iter_try (fun out kv => Ok (out ++ [kv])) page out = Ok (E := MetaStoreError) (out ++ page).
Proof. revert out. induction page as [|kv page IH]; intros out; cbn; [by rewrite app_nil_r|]. by rewrite IH, <- app_assoc. Qed.
Lemma scan_session_ok : ms_open s -> scan_session s b key id = Ok session_page.
Proof.
  intros Ho. unfold scan_session, session_page. cbv zeta. rewrite upload_prefix_flat.
  rewrite scan_prefix; [apply iter_try_collect|done|apply (fi_keys _ _ Hinv)| |done|lia].
  apply Forall_app. split; [done|apply be_bytes_bytes].
Qed.

(** What one entry of the session gives to the queue. *)
Definition dropped (keep : Z -> bool) (kv : bytes * bytes) : list Slice :=
  match part_no_of kv.1 with
  | Some part_no => if negb (part_no =? 0) && negb (keep part_no) then extract Upload kv.2 else []
  | None => []
  end.
Fixpoint discard_ops (keep : Z -> bool) (n : Z) (page : KvPage) : list StoreOp :=
  match page with
  | [] => []
  | kv :: page =>
      enqueue_ops b key seq ts n (dropped keep kv) ++ [StoreOp_delete Upload kv.1]
      ++ discard_ops keep (n + chunk_count (dropped keep kv)) page
  end.
Lemma discard_fold keep page ops n :
  (foldl (discard_entry b key seq ts keep) (ops, n) page).1 = ops ++ discard_ops keep n page.
Proof.
  revert ops n. induction page as [|kv page IH]; intros ops n; cbn [foldl discard_ops]; [by rewrite app_nil_r|].
  assert (discard_entry b key seq ts keep (ops, n) kv
          = (ops ++ enqueue_ops b key seq ts n (dropped keep kv) ++ [StoreOp_delete Upload kv.1], n + chunk_count (dropped keep kv))) as ->.
  { assert ((ops ++ [StoreOp_delete Upload kv.1], n)
            = (ops ++ enqueue_ops b key seq ts n [] ++ [StoreOp_delete Upload kv.1], n + chunk_count [])) as E0.
    { cbn. by rewrite Z.add_0_r. }
    unfold discard_entry, dropped. cbn [fst snd]. destruct (part_no_of kv.1) as [p|]; [|exact E0].
    destruct (_ && _); [|exact E0]. by rewrite flat_enqueue_ops, <- app_assoc. }
  rewrite IH. by rewrite <- !app_assoc.
Qed.
Lemma view_discard_upload keep n page m : view_ops Upload (discard_ops keep n page) m = view_ops Upload (deletes Upload page) m.
Proof.
  revert n m. induction page as [|kv page IH]; intros n m; [done|]. cbn [discard_ops].
  change (deletes Upload (kv :: page)) with ([StoreOp_delete Upload kv.1] ++ deletes Upload page). view_simpl. apply IH.
Qed.
Lemma view_discard_other cf keep n page m : cf <> Upload -> cf <> Delq -> view_ops cf (discard_ops keep n page) m = m.
Proof.
  intros Hu Hd. revert n m. induction page as [|kv page IH]; intros n m; [done|]. cbn [discard_ops].
  rewrite !view_ops_app, view_enqueue_other, view_op1_other by done. apply IH.
Qed.
Lemma view_discard_delq_ne keep n page m k : (forall i, k <> delq_key b key seq i) ->
  view_ops Delq (discard_ops keep n page) m !! k = m !! k.
Proof.
  intros Hk. revert n m. induction page as [|kv page IH]; intros n m; [done|]. cbn [discard_ops]. view_simpl.
  rewrite IH. by apply enqueue_lookup_ne.
Qed.
Lemma discard_keys keep n page : (forall k v, (k, v) ∈ page -> is_bytes k) ->
  Forall (fun op => is_bytes (so_key op)) (discard_ops keep n page).
Proof.
  revert n. induction page as [|[k v] page IH]; intros n Hin; [constructor|]. cbn [discard_ops].
  apply Forall_app. split; [apply puts_keys; intros j; by apply delq_key_bytes|].
  apply Forall_app. split; [constructor; [apply (Hin k v); left|constructor]|]. apply IH. intros k' v' Hk. apply (Hin k' v'). by right.
Qed.
Definition dropped_all (keep : Z -> bool) (page : KvPage) : list Slice := mjoin (dropped keep <$> page).
Lemma discard_delq keep n page m : 0 <= n -> n + Z.of_nat (length (dropped_all keep page)) <= 2 ^ 32 ->
  (forall i, n <= i < 2 ^ 32 -> m !! delq_key b key seq i = None) ->
  refs Delq (view_ops Delq (discard_ops keep n page) m) = mset (dropped_all keep page) ⊎ refs Delq m.
Proof.
  revert n m. induction page as [|kv page IH]; intros n m Hn Hl Hm; [change (mset (dropped_all keep [])) with (∅ : gmultiset Slice); change (view_ops Delq (discard_ops keep n []) m) with m; multiset_solver|]. cbn [discard_ops]. view_simpl.
  unfold dropped_all in *. rewrite fmap_cons, mjoin_cons in *. rewrite length_app in Hl.
  pose proof (chunk_count_le (dropped keep kv)) as Hc. rewrite IH.
  - rewrite enqueue_refs; [rewrite mset_app; multiset_solver|lia|lia|]. intros i Hi. apply Hm. lia.
  - lia.
  - lia.
  - intros i Hi. unfold enqueue_ops. rewrite view_puts_lookup_ne; [apply Hm; lia|]. unfold pending_values. rewrite length_fmap.
    fold (chunk_count (dropped keep kv)). intros j Hj E. apply delq_key_seg_inj in E; unfold uint, chunk_count in *; lia.
Qed.

(** The slices of the session's entries: dropped or kept. *)
Definition is_kept (keep : Z -> bool) (kv : bytes * bytes) : Prop :=
  match part_no_of kv.1 with Some p => p <> 0 /\ keep p = true | None => False end.
#[export] Instance is_kept_dec keep kv : Decision (is_kept keep kv).
Proof. unfold is_kept. destruct (part_no_of kv.1); apply _. Defined.

Lemma is_kept_key keep part v : is_u32 part ->
  (is_kept keep (upload_key b key id part, v) <-> part <> 0 /\ keep part = true).
Proof. intros Hp. unfold is_kept. cbn [fst]. by rewrite part_no_of_key. Qed.
Lemma session_slices keep page : session_apart -> (forall kv, kv ∈ page -> kv ∈ session_page) ->
  mset (page_slices Upload page) = mset (dropped_all keep page) ⊎ mset (page_slices Upload (filter (is_kept keep) page)).
Proof.
  intros Ha. induction page as [|[k v] page IH]; intros Hin; [cbn; multiset_solver|].
  unfold page_slices, dropped_all in *. rewrite !fmap_cons, !mjoin_cons, !mset_app.
  rewrite IH by (intros kv Hkv; apply Hin; by right). assert ((k, v) ∈ session_page) as Hkv by (apply Hin; left).
  destruct (session_page_key k v Ha Hkv) as (part & Hp & ->). apply elem_of_session_page in Hkv as [Hv _].
  assert (part = 0 -> extract Upload v = []) as H0.
  { intros ->. cbn [extract]. by rewrite (fi_session _ _ Hinv _ _ _ _ Hv). }
  unfold dropped. cbn [fst snd]. rewrite (part_no_of_key part Hp), filter_cons.
  change (slices_in Upload v) with (extract Upload v). pose proof (is_kept_key keep part v Hp) as Hkept.
  destruct (Z.eqb_spec part 0) as [E|Hne]; cbn [negb andb].
  - rewrite (H0 E). rewrite decide_False by tauto. rewrite mset_nil. multiset_solver.
  - destruct (keep part) eqn:Hk; cbn [negb andb].
    + rewrite decide_True by (by apply Hkept). rewrite fmap_cons, mjoin_cons, mset_app. cbn [snd].
      change (slices_in Upload v) with (extract Upload v). rewrite mset_nil. multiset_solver.
    + rewrite decide_False by (rewrite Hkept; intros [_ ?]; congruence). multiset_solver.
Qed.
Lemma session_refs :
  refs Upload (ms_view s Upload)
  = mset (page_slices Upload session_page) ⊎ refs Upload (view_ops Upload (deletes Upload session_page) (ms_view s Upload)).
Proof. apply refs_deletes; [apply session_page_nodup|]. by intros k v [? _]%elem_of_session_page. Qed.

Lemma discard_upload_inv keep n : forall k v,
  view_ops Upload (discard_ops keep n session_page) (ms_view s Upload) !! k = Some v -> ms_view s Upload !! k = Some v.
Proof. intros k v. rewrite view_discard_upload, view_deletes_lookup. by case_bool_decide. Qed.
Lemma session_keys k v : (k, v) ∈ session_page -> is_bytes k.
Proof. intros [Hk _]%elem_of_session_page. by eapply (fi_keys _ _ Hinv). Qed.

Lemma abort_step : few (flat_refs s) -> session_apart ->
  flat_step (ms_view s) seq (discard_ops (fun _ => false) 0 session_page) [].
Proof.
  intros Hf Ha. set (keep := fun _ : Z => false).
  assert (mset (page_slices Upload session_page) = mset (dropped_all keep session_page)) as Hall.
  { rewrite (session_slices keep) by done. rewrite (filter_none (is_kept keep)); [cbn; multiset_solver|].
    apply Forall_forall. intros kv _. unfold is_kept. destruct (part_no_of kv.1); [by intros [_ ?]|by intros []]. }
  split.
  - apply (upload_inv_intro s b key); [done..| | | |].
    + apply discard_keys. apply session_keys.
    + intros cf H1 H2. by apply view_discard_other.
    + intros k Hk. by apply view_discard_delq_ne.
    + intros k v Hk. left. by eapply discard_upload_inv.
  - unfold flat_refs_of. rewrite !(view_discard_other _ keep) by done. rewrite view_discard_upload, discard_delq.
    + rewrite session_refs, Hall, mset_nil. multiset_solver.
    + lia.
    + assert (mset (dropped_all keep session_page) ⊆ flat_refs s) as Hsub.
      { rewrite <- Hall. unfold flat_refs, flat_refs_of. rewrite session_refs. multiset_solver. }
      apply mset_length in Hsub. unfold few in Hf. lia.
    + intros i _. apply (fi_delq _ _ Hinv); [done|lia].
Qed.

(** The listed parts are the kept entries. *)
Definition part_entry (p : PartRef) : option (bytes * bytes) :=
  pair (upload_key b key id (ref_part_no p)) <$> ms_view s Upload !! upload_key b key id (ref_part_no p).
Definition parts_ok (parts : list PartRef) : Prop := Forall (fun p => is_u32 (ref_part_no p) /\ ref_part_no p <> 0) parts.
Definition listed (parts : list PartRef) (n : Z) : bool := bool_decide (n ∈ ref_part_no <$> parts).

Lemma collect_parts_ok parts acc size : ms_open s -> parts_ok parts ->
  exists r, collect_parts s b key id parts acc size = Ok r
    /\ forall slices n, r = inr (slices, n) ->
       exists entries, mapM part_entry parts = Some entries /\ slices = acc ++ page_slices Upload entries.
Proof.
  intros Ho Hp. unfold parts_ok in Hp. revert acc size. induction Hp as [|p parts [Hu Hne] Hp IH]; intros acc size; cbn [collect_parts].
  { eexists. split; [done|]. intros slices n [= <- <-]. exists []. by rewrite app_nil_r. }
  rewrite ms_get_ok by done. cbv beta iota zeta.
  destruct (ms_view s Upload !! upload_key b key id (ref_part_no p)) as [raw|] eqn:Hraw; [|by eexists].
  destruct (fi_part _ _ Hinv _ _ _ _ _ Hu Hne Hraw) as [part Hpart]. rewrite Hpart. cbn [ok_or].
  case_bool_decide; [|by eexists]. destruct (IH (acc ++ pm_slices part) (saturating_add 64 size (pm_size part))) as (r & E & Hr).
  exists r. split; [exact E|]. intros slices n ->. destruct (Hr slices n eq_refl) as (entries & Em & ->).
  eexists ((_, raw) :: entries). split.
  - apply mapM_Some. constructor; [|by apply mapM_Some]. unfold part_entry. by rewrite Hraw.
  - unfold page_slices. rewrite fmap_cons, mjoin_cons, app_assoc. cbn [snd slices_in extract]. by rewrite Hpart.
Qed.
Lemma kept_entries parts entries : session_apart -> parts_ok parts -> NoDup (ref_part_no <$> parts) -> mapM part_entry parts = Some entries ->
  filter (is_kept (listed parts)) session_page ≡ₚ entries.
Proof.
  intros Ha Hp Hnd Hm. apply mapM_Some in Hm. unfold parts_ok in Hp.
  assert (forall kv, kv ∈ entries -> exists p, p ∈ parts /\ part_entry p = Some kv) as Hent.
  { intros kv [i Hi]%list_elem_of_lookup. destruct (Forall2_lookup_r _ _ _ _ _ Hm Hi) as (p & Hpi & E).
    exists p. split; [by eapply list_elem_of_lookup_2|done]. }
  assert (forall p, p ∈ parts -> exists kv, kv ∈ entries /\ part_entry p = Some kv) as Hent'.
  { intros p [i Hi]%list_elem_of_lookup. destruct (Forall2_lookup_l _ _ _ _ _ Hm Hi) as (kv & Hkv & E).
    exists kv. split; [by eapply list_elem_of_lookup_2|done]. }
  rewrite Forall_forall in Hp. apply NoDup_Permutation.
  - apply NoDup_filter. eapply NoDup_fmap_1, session_page_nodup.
  - eapply (NoDup_fmap_1 (fun kv => part_no_of kv.1)).
    assert ((fun kv => part_no_of kv.1) <$> entries = (Some <$> (ref_part_no <$> parts))) as ->; [|by apply (NoDup_fmap_2 Some)].
    clear Hnd Hent Hent'. induction Hm as [|p kv parts entries E Hm IH]; [done|]. rewrite !fmap_cons, IH by (intros q Hq; apply Hp; by right). f_equal.
    unfold part_entry in E. destruct (_ !! _); [|done]. injection E as <-. apply part_no_of_key, Hp. left.
  - intros [k v]. rewrite list_elem_of_filter. split.
    + intros [Hkept Hin]. destruct (session_page_key k v Ha Hin) as (part & Hu & ->). unfold is_kept in Hkept. cbn [fst] in Hkept.
      rewrite part_no_of_key in Hkept by done. destruct Hkept as [_ Hl%bool_decide_eq_true].
      apply list_elem_of_fmap in Hl as (p & -> & Hpin). apply elem_of_session_page in Hin as [Hv _].
      destruct (Hent' p Hpin) as (kv & Hkv & E). unfold part_entry in E. rewrite Hv in E. by injection E as <-.
    + intros (p & Hpin & E)%Hent. unfold part_entry in E. destruct (_ !! _) as [raw|] eqn:Hraw; [|done]. injection E as <- <-.
      destruct (Hp p Hpin) as [Hu Hne]. split.
      * unfold is_kept. cbn [fst]. rewrite part_no_of_key by done. split; [done|]. apply bool_decide_eq_true, list_elem_of_fmap. eauto.
      * apply elem_of_session_page. split; [done|]. rewrite upload_key_prefix. by eexists.
Qed.

(** The references to a part that was listed before, and the slices they name. *)
Fixpoint repeated (seen : list Z) (parts : list PartRef) : list PartRef * list PartRef :=
  match parts with
  | [] => ([], [])
  | p :: parts =>
      if decide (ref_part_no p ∈ seen) then let '(first, again) := repeated seen parts in (first, p :: again)
      else let '(first, again) := repeated (ref_part_no p :: seen) parts in (p :: first, again)
  end.
Definition again_slices (parts : list PartRef) : list Slice := page_slices Upload (omap part_entry (repeated [] parts).2).
Lemma repeated_spec parts : forall seen, let '(first, again) := repeated seen parts in
  first ++ again ≡ₚ parts /\ NoDup (ref_part_no <$> first) /\ (forall n, n ∈ ref_part_no <$> first -> n ∉ seen)
  /\ forall n, n ∈ ref_part_no <$> parts -> n ∈ seen \/ n ∈ ref_part_no <$> first.
Proof.
  induction parts as [|p parts IH]; intros seen; cbn [repeated].
  { split_and!; [done|constructor|by intros n ?%elem_of_nil|]. by intros n ?%elem_of_nil. }
  case_decide as Hd.
  - specialize (IH seen). destruct (repeated seen parts) as [first again]. destruct IH as (Hp & Hn & Hs & Hc).
    split_and!; [by rewrite <- Permutation_middle, Hp|done|done|]. intros n. rewrite fmap_cons, elem_of_cons. intros [->|Hin]; [by left|by apply Hc].
  - specialize (IH (ref_part_no p :: seen)). destruct (repeated _ parts) as [first again]. destruct IH as (Hp & Hn & Hs & Hc).
    split_and!; [cbn [app]; by rewrite Hp| | |].
    + rewrite fmap_cons. constructor; [|done]. intros Hin. apply (Hs _ Hin). by left.
    + intros n. rewrite fmap_cons, elem_of_cons. intros [->|Hin]; [done|]. intros Hseen. apply (Hs n Hin). by right.
    + intros n. rewrite !fmap_cons, !elem_of_cons. intros [->|Hin]; [by right; left|]. destruct (Hc n Hin) as [[->|?]%elem_of_cons|?]; auto.
Qed.
Lemma mapM_omap {A B} (f : A -> option B) l k : mapM f l = Some k -> omap f l = k.
Proof. intros Hm. apply mapM_Some in Hm. induction Hm as [|x y l k E _ IH]; [done|]. cbn. by rewrite E, IH. Qed.
Lemma page_slices_perm cf l k : l ≡ₚ k -> mset (page_slices cf l) = mset (page_slices cf k).
Proof. intros Hp. apply list_to_set_disj_perm. unfold page_slices. by rewrite Hp. Qed.
(** What the head of a completed upload takes over: the kept entries once, and the
    slices of the parts listed again. *)
Lemma kept_slices parts entries : session_apart -> parts_ok parts -> mapM part_entry parts = Some entries ->
  mset (page_slices Upload entries) = mset (page_slices Upload (filter (is_kept (listed parts)) session_page)) ⊎ mset (again_slices parts).
Proof.
  intros Ha Hp Hm. unfold again_slices. pose proof (repeated_spec parts []) as Hrep. destruct (repeated [] parts) as [first again].
  destruct Hrep as (Hperm & Hnd & _ & Hc). cbn [snd].
  assert (parts_ok first) as Hpf by (unfold parts_ok in *; rewrite <- Hperm in Hp; by apply Forall_app in Hp as [? _]).
  assert (exists fe, mapM part_entry first = Some fe) as [fe Hfe].
  { apply mapM_is_Some, Forall_forall. intros p Hin. apply mapM_Some in Hm. assert (p ∈ parts) as Hpin by (rewrite <- Hperm; apply elem_of_app; by left).
    apply list_elem_of_lookup in Hpin as [i Hi]. destruct (Forall2_lookup_l _ _ _ _ _ Hm Hi) as (kv & _ & E). by exists kv. }
  rewrite (page_slices_perm _ (filter _ _) fe).
  2:
  { rewrite <- (kept_entries first fe) by done. rewrite (filter_ext_in (is_kept (listed parts)) (is_kept (listed first))); [done|]. intros kv _. unfold is_kept, listed.
    destruct (part_no_of kv.1) as [n|]; [|done]. rewrite !bool_decide_eq_true. split; (intros [? Hin]; split; [done|]).
    - destruct (Hc n Hin) as [?%elem_of_nil|?]; done.
    - rewrite <- Hperm, fmap_app. apply elem_of_app. by left. }
  rewrite <- (mapM_omap _ _ _ Hm), <- (mapM_omap _ _ _ Hfe), (page_slices_perm _ _ (omap part_entry (first ++ again))) by (by apply omap_Permutation).
  unfold page_slices.
  by rewrite omap_app, fmap_app, join_app, mset_app.
Qed.

Definition complete_ops (parts : list PartRef) (head : ObjectHead) : list StoreOp :=
  capture_ops s b key seq ts ++ discard_ops (listed parts) (chunk_count (captured s b key)) session_page
  ++ [StoreOp_put Meta (flat_key Meta b key []) (to_vec (pack head).1)] ++ put_segments b key 0 (pack head).2.
Lemma complete_step parts entries head : few (flat_refs s ⊎ mset (again_slices parts)) -> session_apart -> parts_ok parts ->
  mapM part_entry parts = Some entries -> ContentHead_into_slices (oh_content head) = page_slices Upload entries ->
  flat_step (ms_view s) seq (complete_ops parts head) (again_slices parts).
Proof.
  intros Hf0 Ha Hp Hm Hh. unfold complete_ops. set (keep := listed parts). pose proof (kept_slices parts entries Ha Hp Hm) as Hks. fold keep in Hks.
  assert (few (flat_refs s)) as Hf by (unfold few in *; rewrite gmultiset_size_disj_union in Hf0; lia).
  set (kept_ := page_slices Upload (filter (is_kept keep) session_page)) in *.
  assert (mset (page_slices Upload session_page) = mset (dropped_all keep session_page) ⊎ mset kept_) as Hall by by apply session_slices.
  assert (mset (captured s b key ++ dropped_all keep session_page) ⊎ mset kept_ ⊆ flat_refs s) as Hsub.
  { rewrite mset_app, captured_mset. unfold flat_refs, flat_refs_of. rewrite session_refs, Hall, (captured_refs s b key seq) by done.
    rewrite (refs_del Meta (ms_view s Meta) (flat_key Meta b key [])). multiset_solver. }
  assert (few (mset (ContentHead_into_slices (oh_content head)))) as Hn.
  { rewrite Hh, Hks. unfold few in *. etrans; [|exact Hf0]. apply Nat2Z.inj_le, gmultiset_subseteq_size. multiset_solver. }
  split.
  - apply (flat_inv_intro (ms_view s) _ b key); [done|done|done| | | | |].
    + intros cf. apply view_ops_keys; [|apply (fi_keys _ _ Hinv)]. apply Forall_app. split; [by apply capture_keys|].
      apply Forall_app. split; [apply discard_keys, session_keys|].
      apply Forall_app. split; [constructor; [by apply flat_key_bytes; [|constructor]|constructor]|].
      rewrite put_segments_puts. apply puts_keys. intros j. by apply seg_key_bytes.
    + intros k Hk. unfold capture_ops. view_simpl. rewrite view_discard_other by done. view_simpl. by rewrite lookup_insert_ne.
    + intros k. unfold capture_ops. view_simpl. rewrite !view_discard_other by done. view_simpl. rewrite lookup_insert_eq.
      intros [Hs%deletes_lookup_some|Hs]%put_segments_lookup; [left|right]; eauto.
    + intros k Hk. unfold capture_ops. view_simpl. rewrite view_discard_delq_ne by done. by apply enqueue_lookup_ne.
    + intros k v. unfold capture_ops. view_simpl. intros Hk%discard_upload_inv. by left.
  - unfold flat_refs_of, capture_ops. view_simpl. rewrite !(view_discard_other Meta), !(view_discard_other MetaSeg) by done.
    rewrite view_discard_upload. view_simpl. rewrite discard_delq.
    + rewrite (capture_delq s b key seq ts) by done. rewrite captured_mset, (captured_refs s b key seq), session_refs, Hall by done.
      pose proof (put_object_refs b key head (ms_view s Meta) _ Hb Hn (captured_segs_gone s b key seq Hinv Hb Hns)) as Hpo.
      cbv zeta in Hpo. rewrite Hh, Hks in Hpo. multiset_solver.
    + apply chunk_count_le.
    + pose proof (mset_length (captured s b key ++ dropped_all keep session_page) (flat_refs s) ltac:(multiset_solver)) as Hl.
      rewrite length_app in Hl. pose proof (chunk_count_le (captured s b key)). unfold few in Hf. lia.
    + intros i Hi. unfold enqueue_ops. rewrite view_puts_lookup_ne; [apply (fi_delq _ _ Hinv); [done|lia]|].
      unfold pending_values. rewrite length_fmap. fold (chunk_count (captured s b key)). pose proof (chunk_count_le (captured s b key)).
      intros j Hj E. apply delq_key_seg_inj in E; unfold uint, chunk_count in *; lia.
Qed.
End Session.

(** ** Every operation *)

Section FlatApply.
Context `{MetaSerde} {MS : MetaStore} (blake3 : bytes -> bytes).

Lemma flat_inv_ext (view view' : MetaCf -> gmap bytes bytes) seq : (forall cf, view' cf = view cf) -> flat_inv view seq -> flat_inv view' seq.
Proof.
  intros E [? ? ? ? ?]. constructor; intros; rewrite ?E in *; eauto.
Qed.
Lemma flat_refs_ext (view view' : MetaCf -> gmap bytes bytes) : (forall cf, view' cf = view cf) -> flat_refs_of view' = flat_refs_of view.
Proof. intros E. unfold flat_refs_of. by rewrite !E. Qed.

(** The slices an operation brings; a completion brings once more those of the parts
    it lists again. *)
Definition op_slices (s : store) (op : FlatOp) : list Slice :=
  match op with
  | FPut _ _ head _ => ContentHead_into_slices (oh_content head)
  | FPutPart _ _ _ _ part _ => pm_slices part
  | FCompleteMultipart b key id parts _ => again_slices s b key id parts
  | _ => []
  end.
Definition accepted (o : ApplyOutcome) : bool := match ao_response o with Rejected _ => false | _ => true end.
Definition flat_at (b : Z) (key : bytes) : Prop := is_u64 b /\ bucket_ns b = Flat /\ is_bytes key.
(** Operations on keys of the flat namespace, with parts numbered from 1 and an upload
    whose prefix no other upload's key extends. *)
Definition flat_op_ok (s : store) (op : FlatOp) : Prop :=
  match op with
  | FPut b key _ _ | FDelete b key _ | FCreateMultipart b key _ _ => flat_at b key
  | FPutPart b key _ part_no _ _ => flat_at b key /\ is_u32 part_no /\ part_no <> 0
  | FCompleteMultipart b key id parts _ => flat_at b key /\ parts_ok parts /\ session_apart s b key id
  | FAbortMultipart b key id _ => flat_at b key /\ session_apart s b key id
  end.

Lemma step_apply s seq o new : ms_open s -> flat_step (ms_view s) seq (ao_ops o) new ->
  exists s', ms_apply s (ao_ops o) = Ok s' /\ ms_open s' /\ flat_inv (ms_view s') (seq + 1)
    /\ flat_refs s' = flat_refs s ⊎ mset new.
Proof.
  intros Ho [Hi Hr]. destruct (ms_apply_ok s (ao_ops o) Ho) as (s' & E & Ho' & Hv). exists s'. split; [done|]. split; [done|].
  split; [exact (flat_inv_ext _ _ _ Hv Hi)|]. unfold flat_refs. by rewrite (flat_refs_ext (fun cf => view_ops cf (ao_ops o) (ms_view s cf)) _ Hv).
Qed.
Lemma few_l X Y : few (X ⊎ Y) -> few X.
Proof. unfold few. rewrite gmultiset_size_disj_union. lia. Qed.
Lemma few_r X Y : few (X ⊎ Y) -> few Y.
Proof. unfold few. rewrite gmultiset_size_disj_union. lia. Qed.

(** The outcome of each operation and the step it is. *)
Lemma flat_apply_step s op seq : ms_open s -> flat_inv (ms_view s) seq -> is_u64 seq -> flat_op_ok s op ->
  few (flat_refs s ⊎ mset (op_slices s op)) ->
  exists o, flat_apply blake3 s op seq = Ok o
    /\ flat_step (ms_view s) seq (ao_ops o) (if accepted o then op_slices s op else []).
Proof.
  intros Ho Hinv Hseq Hop Hfew. pose proof (few_l _ _ Hfew) as Hf. pose proof (few_r _ _ Hfew) as Hn.
  assert (store_wf s) as Hwf by (split; [done|apply (fi_keys _ _ Hinv)]).
  destruct op as [b key head ts|b key ts|b key id ts|b key id part_no part ts|b key id parts ts|b key id ts];
    cbn [flat_apply flat_op_ok op_slices] in *.
  - destruct Hop as (Hb & Hns & Hk). unfold apply_put.
    destruct (capture_old_ok s b key seq ts [] Hwf Hk) as [[[oi oc] ot] ->]. cbn [app].
    pose proof (put_step s b key seq ts Hinv Hb Hns Hk Hseq head Hf Hn) as Hs. destruct (pack head) as [packed segs].
    destruct (ContentHead_inline_account (oh_content packed)) as [ni nc]. eexists. split; [done|exact Hs].
  - destruct Hop as (Hb & Hns & Hk). unfold apply_delete.
    destruct (capture_old_ok s b key seq ts [] Hwf Hk) as [[[oi oc] ot] ->]. cbn [app].
    eexists. split; [done|]. by apply delete_step.
  - destruct Hop as (Hb & Hns & Hk). unfold apply_create. rewrite ms_get_ok by done. cbv beta iota zeta.
    destruct (ms_view s Upload !! _) eqn:E; eexists; (split; [done|]); [by apply (nop_step s b key)|by apply create_step].
  - destruct Hop as ((Hb & Hns & Hk) & Hp & Hne). unfold apply_put_part. rewrite !ms_get_ok by done. cbv beta iota zeta.
    destruct (ms_view s Upload !! upload_key b key id 0); [|eexists; split; [done|by apply (nop_step s b key)]].
    pose proof (put_part_step s b key seq ts Hinv Hb Hns Hk Hseq id part_no part Hf Hp Hne) as Hs. unfold put_part_ops in Hs.
    destruct (ms_view s Upload !! upload_key b key id part_no); eexists; (split; [done|]); [|exact Hs].
    by rewrite flat_enqueue_ops.
  - destruct Hop as ((Hb & Hns & Hk) & Hp & Ha). unfold apply_complete. rewrite !ms_get_ok by done. cbv beta iota zeta.
    destruct (ms_view s Upload !! upload_key b key id 0); [|eexists; split; [done|by apply (nop_step s b key)]].
    case_decide; [eexists; split; [done|by apply (nop_step s b key)]|].
    destruct (collect_parts_ok s b key id seq Hinv parts [] 0 Ho Hp) as ([reason|[slices size]] & -> & Hr);
      [eexists; split; [done|by apply (nop_step s b key)]|].
    destruct (Hr slices size eq_refl) as (entries & Hm & Hsl). cbn [app] in Hsl.
    destruct (capture_old_ok s b key seq ts [] Hwf Hk) as [[[oi oc] ot] ->]. cbn [app].
    rewrite (scan_session_ok s b key id seq) by done. cbv beta iota zeta.
    destruct (foldl _ _ _) as [ops n] eqn:Hfold. apply (f_equal fst) in Hfold. rewrite discard_fold in Hfold. cbn [fst] in Hfold.
    set (head := {| oh_size := size; oh_content := Slices slices |}).
    pose proof (complete_step s b key id seq ts Hinv Hb Hns Hk Hseq parts entries head Hfew Ha Hp Hm Hsl) as Hs.
    unfold complete_ops, capture_ops in Hs. destruct (pack head) as [packed segs]. eexists. split; [done|].
    rewrite <- Hfold. rewrite <- !app_assoc in *. exact Hs.
  - destruct Hop as ((Hb & Hns & Hk) & Ha). unfold apply_abort. rewrite ms_get_ok by done. cbv beta iota zeta.
    destruct (ms_view s Upload !! upload_key b key id 0); [|eexists; split; [done|by apply (nop_step s b key)]].
    rewrite (scan_session_ok s b key id seq) by done. cbv beta iota zeta.
    destruct (foldl _ _ _) as [ops n] eqn:Hfold. apply (f_equal fst) in Hfold. rewrite discard_fold in Hfold. cbn [fst app] in Hfold.
    eexists. split; [done|]. rewrite <- Hfold. by apply abort_step.
Qed.

(** C14: no operation of the flat namespace loses or invents a slice, as long as parts
    are numbered from 1 and no key of another upload extends the prefix of the one that
    is completed or aborted, in a partition of at most [2^32] slices: from a partition's
    state between two operations every such
    operation (put, delete, and the multipart operations) succeeds, its batch applies
    and keeps the invariant, and the slices mentioned by heads, segments, upload parts
    and the delete queue afterwards are, counted with multiplicity, those mentioned
    before plus the slices the operation brings, which for a completion that lists parts
    more than once are the slices of the repetitions; a rejected operation changes none.
    Part number 0, which no layer refuses, is the exception: [complete_part_zero_fails],
    [part_zero_leaks]. *)
Theorem flat_apply_conserves (s : store) (op : FlatOp) (seq : Z) :
  ms_open s -> flat_inv (ms_view s) seq -> is_u64 seq -> flat_op_ok s op -> few (flat_refs s ⊎ mset (op_slices s op)) ->
  exists o s', flat_apply blake3 s op seq = Ok o /\ ms_apply s (ao_ops o) = Ok s'
    /\ ms_open s' /\ flat_inv (ms_view s') (seq + 1)
    /\ flat_refs s' = flat_refs s ⊎ mset (if accepted o then op_slices s op else []).
Proof.
  intros Ho Hinv Hseq Hop Hf. destruct (flat_apply_step s op seq Ho Hinv Hseq Hop Hf) as (o & E & Hs).
  destruct (step_apply s seq o _ Ho Hs) as (s' & Es & ? & ? & ?). exists o, s'. eauto 10.
Qed.
End FlatApply.

(** ** Reading back *)

Section FlatReads.
Context `{MetaSerde} {MS : MetaStore} (blake3 : bytes -> bytes).

Lemma read_segments_ok s b key (segs : list SliceSegment) n acc : ms_open s ->
  (forall i x, segs !! i = Some x -> ms_view s MetaSeg !! seg_key b key (n + Z.of_nat i) = Some (to_vec x)) ->
  read_segments s b key (seqZ n (Z.of_nat (length segs))) acc = Ok (acc ++ concat (ss_slices <$> segs)).
Proof.
  intros Ho. revert n acc. induction segs as [|x segs IH]; intros n acc Hs; [by rewrite app_nil_r|].
  cbn [length]. rewrite Nat2Z.inj_succ, seqZ_cons by lia. cbn [read_segments]. unfold get_segment. rewrite ms_get_ok by done.
  pose proof (Hs 0%nat x eq_refl) as H0. rewrite Z.add_0_r in H0. unfold seg_key in H0. rewrite H0. cbn. rewrite from_to. cbn.
  replace (Z.pred (Z.succ (Z.of_nat (length segs)))) with (Z.of_nat (length segs)) by lia.
  replace (Z.succ n) with (n + 1) by lia. rewrite IH; [by rewrite <- app_assoc|].
  intros i y Hi. specialize (Hs (S i) y Hi). by replace (n + 1 + Z.of_nat i) with (n + Z.of_nat (S i)) by lia.
Qed.

(** What a put leaves: any store whose objects and segments are as its operations
    make them reads the object back. *)
Lemma put_reads_back (s : store) (b : Z) (key : bytes) (head : ObjectHead) (seq ts : Z) :
  ms_open s -> (forall cf, keys_ok (ms_view s cf)) -> is_bytes key ->
  Z.of_nat (length (ContentHead_into_slices (oh_content head))) < 2 ^ 32 ->
  exists o, flat_apply blake3 s (FPut b key head ts) seq = Ok o /\ ao_response o = RespNone
    /\ forall s', ms_open s' -> (forall cf, cf = Meta \/ cf = MetaSeg -> ms_view s' cf = view_ops cf (ao_ops o) (ms_view s cf)) ->
       exists head', get_object_meta s' b key
         = Ok (Some (head', match oh_content head with Inline data => data | Slices _ => [] end,
                     ContentHead_into_slices (oh_content head)))
       /\ (oh_size head', oh_etag head', oh_mtime head', oh_http head') = (oh_size head, oh_etag head, oh_mtime head, oh_http head)
       /\ match oh_content head' with Inline _ => True | _ => False end = match oh_content head with Inline _ => True | _ => False end.
Proof.
  intros Ho Hk Hb Hl. cbn [flat_apply]. unfold apply_put.
  destruct (capture_old_ok s b key seq ts [] (conj Ho Hk) Hb) as [[[oi oc] ot] ->]. cbn [app].
  pose proof (pack_slices head) as Hp. pose proof (pack_segments_few head) as Hf.
  assert (oh_content (pack head).1 = match oh_content head with Inline d => Inline d | Slices l => Slices (split_slices l).1 end
          /\ (pack head).2 = match oh_content head with Inline d => [] | Slices l => (split_slices l).2 end
          /\ oh_seg_count (pack head).1 = wrap 32 (Z.of_nat (length (pack head).2))
          /\ (oh_size (pack head).1, oh_etag (pack head).1, oh_mtime (pack head).1, oh_http (pack head).1)
             = (oh_size head, oh_etag head, oh_mtime head, oh_http head)) as (Hc & Hsg & Hn & Hm).
  { unfold pack. destruct (oh_content head); [done|]. by destruct (split_slices _). }
  destruct (pack head) as [packed segs]. cbn [fst snd] in *.
  destruct (ContentHead_inline_account (oh_content packed)) as [ni nc]. set (ops := (deletes MetaSeg (captured_page s b key) ++ enqueue_ops b key seq ts 0 (captured s b key))
    ++ [StoreOp_put Meta (flat_key Meta b key []) (to_vec packed)] ++ put_segments b key 0 segs).
  eexists. split; [done|]. split; [done|]. intros s' Ho' Hv'. exists packed.
  assert (forall cf, cf = Meta \/ cf = MetaSeg -> ms_view s' cf = view_ops cf ops (ms_view s cf)) as Hv by exact Hv'. clear Hv'.
  split; [|split; [done|rewrite Hc; by destruct (oh_content head)]].
  unfold get_object_meta, get_head. rewrite ms_get_ok, Hv by auto. unfold ops. view_simpl. rewrite lookup_insert_eq.
  unfold decode_head. rewrite from_to. cbn [ok_or]. rewrite Hc. rewrite Hc in Hp.
  destruct (oh_content head) as [d|l]; [done|]. rewrite Hn. unfold wrap. rewrite Z.mod_small by lia.
  cbn [ContentHead_into_slices] in Hp. rewrite (read_segments_ok s' b key segs 0); [by rewrite Hp|done|].
  intros i x Hi. rewrite Hv by auto. unfold ops. view_simpl. rewrite put_segments_puts. apply view_puts_lookup.
  - rewrite length_fmap. intros j j' Hj Hj'. apply seg_key_inj; unfold uint; cbn [ContentHead_into_slices] in *; lia.
  - by rewrite list_lookup_fmap, Hi.
Qed.

(** An object reads back as it was put, whatever the store held: after a put
    the object's metadata is the head with its size, etag, times and HTTP headers,
    the inline bytes if it is inline, and else all its slices in order, those of the
    head and of the overflow segments together. *)
Theorem flat_put_get (s : store) (b : Z) (key : bytes) (head : ObjectHead) (seq ts : Z) :
  ms_open s -> (forall cf, keys_ok (ms_view s cf)) -> is_bytes key ->
  Z.of_nat (length (ContentHead_into_slices (oh_content head))) < 2 ^ 32 ->
  exists o s' head', flat_apply blake3 s (FPut b key head ts) seq = Ok o /\ ms_apply s (ao_ops o) = Ok s'
    /\ get_object_meta s' b key
       = Ok (Some (head', match oh_content head with Inline data => data | Slices _ => [] end,
                   ContentHead_into_slices (oh_content head)))
    /\ (oh_size head', oh_etag head', oh_mtime head', oh_http head') = (oh_size head, oh_etag head, oh_mtime head, oh_http head).
Proof.
  intros Ho Hk Hb Hl. destruct (put_reads_back s b key head seq ts Ho Hk Hb Hl) as (o & E & _ & Hr).
  destruct (ms_apply_ok s (ao_ops o) Ho) as (s' & Es & Ho' & Hv). destruct (Hr s' Ho' (fun cf _ => Hv cf)) as (head' & Hg & Hm & _).
  by exists o, s', head'.
Qed.

(** Deleting an object destroys the overflow slices of every object whose key
    extends its own: the head of the other object stays and still counts its
    segments, its segments are gone, its slices are in the delete queue, and reading
    it fails. *)
Theorem delete_destroys_extension (s : store) (b : Z) (key ext : bytes) (old : bytes) (other : ObjectHead)
    (segment : SliceSegment) (seq ts : Z) :
  ms_open s -> (forall cf, keys_ok (ms_view s cf)) -> is_u64 b -> is_bytes key -> is_bytes ext -> ext <> [] ->
  ms_view s Meta !! flat_key Meta b key [] = Some old ->
  ms_view s Meta !! flat_key Meta b (key ++ ext) [] = Some (to_vec other) ->
  (exists l, oh_content other = Slices l) -> 0 < oh_seg_count other ->
  ms_view s MetaSeg !! seg_key b (key ++ ext) 0 = Some (to_vec segment) ->
  exists o s', flat_apply blake3 s (FDelete b key ts) seq = Ok o /\ ms_apply s (ao_ops o) = Ok s'
    /\ get_object_meta s' b (key ++ ext) = Err (RE_SegmentAbsent 0)
    /\ ss_slices segment ⊆ captured s b key.
Proof.
  intros Ho Hk Hb Hkey Hext Hne Hold Hother [l Hl] Hc Hseg. cbn [flat_apply]. unfold apply_delete.
  destruct (capture_old_ok s b key seq ts [] (conj Ho Hk) Hkey) as [[[oi oc] ot] ->]. cbn [app].
  set (ops := (deletes MetaSeg (captured_page s b key) ++ enqueue_ops b key seq ts 0 (captured s b key))
    ++ [StoreOp_delete Meta (flat_key Meta b key [])]). destruct (ms_apply_ok s ops Ho) as (s' & Es & Ho' & Hv).
  assert ((seg_key b (key ++ ext) 0, to_vec segment) ∈ seg_page s b key) as Hin.
  { apply elem_of_prefix; [done|done|]. split; [done|]. etrans; [|apply seg_key_prefix]. rewrite flat_key_ext. by apply prefix_app_r. }
  eexists _, s'. split; [done|]. split; [exact Es|]. split.
  - unfold get_object_meta, get_head. rewrite ms_get_ok, Hv by done. unfold ops. view_simpl.
    rewrite lookup_delete_ne, Hother; [|intros [_ E]%flat_key_inj; [|done|done]; apply (f_equal length) in E;
      rewrite length_app in E; destruct ext; [done|cbn [length] in E; lia]].
    unfold decode_head. rewrite from_to. cbn [ok_or]. rewrite Hl. rewrite seqZ_cons by lia. cbn [read_segments].
    unfold get_segment. rewrite ms_get_ok, Hv by done. unfold ops. view_simpl. rewrite view_deletes_lookup.
    rewrite bool_decide_true; [done|]. unfold captured_page. rewrite Hold. apply list_elem_of_fmap. exists (seg_key b (key ++ ext) 0, to_vec segment). split; [done|exact Hin].
  - unfold captured. rewrite Hold. intros x Hx. apply elem_of_app. right. unfold page_slices. apply list_elem_of_join.
    exists (ss_slices segment). split; [done|]. apply list_elem_of_fmap. eexists. split; [|exact Hin].
    cbn [snd slices_in extract]. by rewrite from_to.
Qed.
End FlatReads.

(** *** Examples *)

Definition ex_slice (i : Z) : Slice := {| sl_chunk_id := i; sl_blob_ids := [10 * i]; sl_blob_size := 4096 |}.
Definition ex_head (content : ContentHead) : ObjectHead :=
  {| oh_size := 100; oh_etag := []; oh_mtime := 7; oh_storage := Standard; oh_content := content; oh_seg_count := 0;
     oh_http := HttpMeta_default |}.
(** An object of 66 slices: 64 in the head, 2 in a segment. *)
Definition ex_big : ObjectHead := ex_head (Slices (ex_slice <$> seqZ 0 66)).
Definition ex_run (s : MemEngine) (op : FlatOp) (seq : Z) : MemEngine :=
  match flat_apply (MS := mem_store) id s op seq with
  | Ok o => match MemEngine_apply s (ao_ops o) with Ok s' => s' | Err _ => s end
  | Err _ => s
  end.

Lemma empty_flat_inv seq : flat_inv (ms_view (MetaStore := mem_store) ∅) seq.
Proof.
  constructor; cbn; intros; unfold mem_view, MemEngine_map in *; rewrite ?lookup_empty in *; cbn in *;
    rewrite ?lookup_empty in *; try done.
Qed.

Lemma flat_apply_conserves_witness :
  exists o s o' s', flat_apply (MS := mem_store) id ∅ (FPut 7 [97] ex_big 1) 0 = Ok o
    /\ MemEngine_apply ∅ (ao_ops o) = Ok s
    /\ flat_apply (MS := mem_store) id s (FDelete 7 [97] 2) 1 = Ok o' /\ MemEngine_apply s (ao_ops o') = Ok s'
    /\ flat_refs (MS := mem_store) s' = flat_refs (MS := mem_store) ∅ ⊎ mset (ex_slice <$> seqZ 0 66) ⊎ mset [].
Proof.
  assert (flat_at 7 [97]) as Hat by (vm_compute; repeat split; try congruence; repeat constructor; congruence).
  assert (forall X, flat_refs (MS := mem_store) ∅ = X -> few (X ⊎ mset (ex_slice <$> seqZ 0 66))) as Hf.
  { intros X <-. unfold few. rewrite gmultiset_size_disj_union, size_mset. vm_compute. congruence. }
  destruct (flat_apply_conserves (MS := mem_store) id ∅ (FPut 7 [97] ex_big 1) 0 I (empty_flat_inv 0)
              ltac:(vm_compute; split; congruence) Hat (Hf _ eq_refl)) as (o & s & E & Es & Ho & Hi & Hr).
  assert (accepted o = true) as Ha by (vm_compute in E; injection E as <-; reflexivity). rewrite Ha in Hr.
  destruct (flat_apply_conserves (MS := mem_store) id s (FDelete 7 [97] 2) 1 Ho Hi
              ltac:(vm_compute; split; congruence) Hat) as (o' & s' & E' & Es' & _ & _ & Hr').
  { cbn [op_slices]. rewrite Hr. pose proof (Hf _ eq_refl) as Hf'. unfold few in *. rewrite gmultiset_size_disj_union.
    cbn [op_slices ex_big ex_head oh_content ContentHead_into_slices]. rewrite mset_nil, gmultiset_size_empty. lia. }
  exists o, s, o', s'. split; [exact E|]. split; [exact Es|]. split; [exact E'|]. split; [exact Es'|].
  rewrite Hr', Hr. by destruct (accepted o').
Defined.

Lemma flat_put_get_witness :
  exists o s' head', flat_apply (MS := mem_store) id ∅ (FPut 7 [97] ex_big 1) 0 = Ok o /\ MemEngine_apply ∅ (ao_ops o) = Ok s'
    /\ get_object_meta (MS := mem_store) s' 7 [97] = Ok (Some (head', [], ex_slice <$> seqZ 0 66))
    /\ oh_size head' = 100.
Proof.
  destruct (flat_put_get (MS := mem_store) id ∅ 7 [97] ex_big 0 1) as (o & s' & head' & E & Es & Hg & Hm).
  - exact I.
  - exact (fi_keys _ _ (empty_flat_inv 0)).
  - apply (bool_decide_unpack _). vm_compute. exact I.
  - vm_compute. reflexivity.
  - exists o, s', head'. split; [exact E|]. split; [exact Es|]. split; [exact Hg|]. by injection Hm.
Defined.

(** Two objects, "a" and "ab", the second with a segment. *)
Definition ex_two : MemEngine :=
  Eval vm_compute in ex_run (ex_run ∅ (FPut 7 [97; 98] ex_big 1) 0) (FPut 7 [97] (ex_head (Inline [1; 2; 3])) 2) 1.
Lemma delete_destroys_extension_witness :
  exists o s', flat_apply (MS := mem_store) id ex_two (FDelete 7 [97] 3) 2 = Ok o /\ MemEngine_apply ex_two (ao_ops o) = Ok s'
    /\ get_object_meta (MS := mem_store) s' 7 [97; 98] = Err (RE_SegmentAbsent 0)
    /\ [ex_slice 64; ex_slice 65] ⊆ captured (MS := mem_store) ex_two 7 [97].
Proof.
  apply (delete_destroys_extension (MS := mem_store) id ex_two 7 [97] [98] (to_vec (pack (ex_head (Inline [1; 2; 3]))).1)
           (pack ex_big).1 {| ss_slices := [ex_slice 64; ex_slice 65] |} 2 3).
  - exact I.
  - intros cf. apply keys_ok_forall, (bool_decide_unpack _). destruct cf; vm_compute; exact I.
  - vm_compute. split; congruence.
  - apply (bool_decide_unpack _). vm_compute. exact I.
  - apply (bool_decide_unpack _). vm_compute. exact I.
  - congruence.
  - vm_compute. reflexivity.
  - vm_compute. reflexivity.
  - eexists. vm_compute. reflexivity.
  - vm_compute. reflexivity.
  - vm_compute. reflexivity.
Defined.

(** Part number 0 is the session record's own key, and no layer refuses it: a
    completion that lists it makes the apply itself fail, and a part put under it
    replaces the session, after which the sweep of expired uploads fails. *)
Definition ex_session : MemEngine := Eval vm_compute in ex_run ∅ (FCreateMultipart 7 [97] 5 1) 0.
Example complete_part_zero_fails :
  flat_apply (MS := mem_store) id ex_session (FCompleteMultipart 7 [97] 5 [{| ref_part_no := 0; ref_etag := [] |}] 2) 1
  = Err MSE_ValueCodec.
Proof. vm_compute. reflexivity. Qed.
Example put_part_zero_breaks_sweep :
  sweep_expired (MS := mem_store)
    (ex_run ex_session (FPutPart 7 [97] 5 0 {| pm_size := 1; pm_etag := []; pm_slices := [ex_slice 1] |} 2) 1)
    (PartitionRange_full Flat) 10 100 = Err MSE_ValueCodec
  /\ sweep_expired (MS := mem_store) ex_session (PartitionRange_full Flat) 10 100 = Ok [FAbortMultipart 7 [97] 5 100].
Proof. split; vm_compute; reflexivity. Qed.

(** The slices a store mentions, family by family. *)
Definition ex_mentions (s : MemEngine) : list Slice := mjoin ((fun cf => page_slices cf (map_to_list (mem_view s cf))) <$> [Meta; MetaSeg; Upload; Delq]).
(** The slices of a part put under number 0 are lost when the upload is aborted. *)
Example part_zero_leaks :
  let s := ex_run ex_session (FPutPart 7 [97] 5 0 {| pm_size := 1; pm_etag := []; pm_slices := [ex_slice 1] |} 2) 1 in
  ex_mentions s = [ex_slice 1]
  /\ ex_mentions (ex_run s (FAbortMultipart 7 [97] 5 3) 2) = [].
Proof. split; vm_compute; reflexivity. Qed.
(** A completion that lists a part twice: the object has its slices twice. *)
Example repeated_part_doubles :
  let s := ex_run ex_session (FPutPart 7 [97] 5 1 {| pm_size := 1; pm_etag := []; pm_slices := [ex_slice 1] |} 2) 1 in
  let r := {| ref_part_no := 1; ref_etag := [] |} in
  ex_mentions s = [ex_slice 1]
  /\ ex_mentions (ex_run s (FCompleteMultipart 7 [97] 5 [r; r] 3) 2) = [ex_slice 1; ex_slice 1].
Proof. split; vm_compute; reflexivity. Qed.

(** A listing that starts before its prefix returns keys outside it, and one that
    starts past it panics on the in-memory engine. *)
Example list_outside_prefix :
  match list_ (MS := mem_store) ex_two 7 [97; 98] (Some [90]) 8 with Ok l => l.*1 | Err _ => [] end = [[97]; [97; 98]].
Proof. vm_compute. reflexivity. Qed.
Example list_past_prefix : list_ (MS := mem_store) ex_two 7 [97] (Some [98]) 8 = Err MSE_Panic.
Proof. vm_compute. reflexivity. Qed.
