(* ===== verification/GwList.v ===== *)
(** Listing a bucket (epoch-gateway: list.rs, the flat listing of http.rs; the list
    handler of epoch-meta's service.rs): folding of keys into common prefixes, the
    pages of a listing, and their composition with the metadata store. *)

From S2P Require Import Prelude Rocks MetaStore MetaKeys MetaNs MetaFlat.

(** ** Folding (list.rs) *)

Inductive Row : Set := RKey (key : bytes) | CommonPrefix (p : bytes).
Record Folded : Set := { fd_rows : list Row; fd_resume_after : option bytes }.

Fixpoint strip_prefix (prefix key : bytes) : option bytes :=
  match prefix, key with
  | [], _ => Some key
  | x :: prefix, y :: key => if x =? y then strip_prefix prefix key else None
  | _ :: _, [] => None
  end.
(** [windows(needle.len()).position(..)] *)
Fixpoint find_from (needle haystack : bytes) (at_ : nat) : option nat :=
  if (length haystack <? length needle)%nat then None
  else if bool_decide (take (length needle) haystack = needle) then Some at_
  else match haystack with [] => None | _ :: haystack => find_from needle haystack (S at_) end.
Definition find (haystack needle : bytes) : option nat :=
  if bool_decide (needle = []) || (length haystack <? length needle)%nat then None else find_from needle haystack 0.

(** [while let Some(last) = out.pop()], on the reversed vector. *)
Fixpoint upper_bound_rev (rout : bytes) : option bytes :=
  match rout with
  | [] => None
  | last :: rout => if last <? 255 then Some (rev (last + 1 :: rout)) else upper_bound_rev rout
  end.
Definition upper_bound (group : bytes) : bytes := default group (upper_bound_rev (rev group)).

Record FoldState : Set := { fs_rows : list Row; fs_last_group : option bytes; fs_last_consumed : option bytes }.
(** The loop over the keys: [inl] is the early return of a full page. *)
Fixpoint fold_keys (prefix delimiter : bytes) (limit : nat) (keys : list bytes) (st : FoldState) : Folded + FoldState :=
  match keys with
  | [] => inr st
  | key :: keys =>
      match strip_prefix prefix key with
      | None => fold_keys prefix delimiter limit keys st
      | Some rest =>
          match find rest delimiter with
          | Some at_ =>
              let group := prefix ++ take (at_ + length delimiter) rest in
              if decide (fs_last_group st = Some group) then fold_keys prefix delimiter limit keys st
              else if decide (length (fs_rows st) = limit)
              then inl {| fd_rows := fs_rows st; fd_resume_after := fs_last_consumed st |}
              else fold_keys prefix delimiter limit keys
                     {| fs_rows := fs_rows st ++ [CommonPrefix group]; fs_last_group := Some group; fs_last_consumed := Some key |}
          | None =>
              if decide (length (fs_rows st) = limit)
              then inl {| fd_rows := fs_rows st; fd_resume_after := fs_last_consumed st |}
              else fold_keys prefix delimiter limit keys
                     {| fs_rows := fs_rows st ++ [RKey key]; fs_last_group := fs_last_group st; fs_last_consumed := Some key |}
          end
      end
  end.
Definition fold (keys : list bytes) (prefix delimiter : bytes) (limit : nat) : Folded :=
  match delimiter with
  | [] =>
      {| fd_rows := RKey <$> take limit keys;
         fd_resume_after := if (limit <? length keys)%nat then keys !! (limit - 1)%nat else None |}
  | _ =>
      match fold_keys prefix delimiter limit keys {| fs_rows := []; fs_last_group := None; fs_last_consumed := None |} with
      | inl f => f
      | inr st =>
          {| fd_rows := fs_rows st;
             fd_resume_after := match last (fs_rows st) with Some (CommonPrefix group) => Some (upper_bound group) | _ => None end |}
      end
  end.

(** ** Pages (http.rs) *)

Section Pages.
Context {Entry Error : Type}.
(** An [ObjectEntry]: the key and the rest. *)
Abbreviation Object := (bytes * Entry)%type (only parsing).
Inductive ListRow : Type := LObject (e : bytes * Entry) | LPrefix (p : bytes).
Record ListPage : Type := { lp_rows : list ListRow; lp_next_token : option bytes }.

Definition MAX_BATCHES : nat := 16.
Definition attach (entries : list Object) (row : Row) : option ListRow :=
  match row with
  | RKey key => LObject <$> List.find (fun e => bool_decide (e.1 = key)) entries
  | CommonPrefix p => Some (LPrefix p)
  end.
(** [list_objects cursor]: the metadata call with the page's bucket, prefix and limit. *)
Fixpoint list_batches (fuel : nat) (list_objects : bytes -> result Error (list Object)) (prefix delimiter : bytes) (limit : nat)
    (cursor : bytes) (rows : list ListRow) (next_token : option bytes) : result Error ListPage :=
  match fuel with
  | O => Ok {| lp_rows := rows; lp_next_token := next_token |}
  | S fuel =>
      let remaining := (limit - length rows)%nat in
      entries <-? list_objects cursor ;;
      match entries with
      | [] => Ok {| lp_rows := rows; lp_next_token := None |}
      | _ =>
          let batch_exhausted := (length entries <? limit)%nat in
          let keys := entries.*1 in
          let folded := fold keys prefix delimiter remaining in
          let rows := rows ++ omap (attach entries) (fd_rows folded) in
          let cursor := default (default [] (last keys)) (fd_resume_after folded) in
          if (limit <=? length rows)%nat then Ok {| lp_rows := rows; lp_next_token := Some cursor |}
          else if batch_exhausted then Ok {| lp_rows := rows; lp_next_token := None |}
          else list_batches fuel list_objects prefix delimiter limit cursor rows (Some cursor)
      end
  end.
Definition list_flat (list_objects : bytes -> result Error (list Object)) (prefix delimiter start_after : bytes) (limit : nat)
    : result Error ListPage :=
  list_batches MAX_BATCHES list_objects prefix delimiter limit start_after [] None.

(** A client that follows the continuation tokens. *)
Fixpoint list_pages (fuel : nat) (list_objects : bytes -> result Error (list Object)) (prefix delimiter start_after : bytes) (limit : nat)
    : result Error (list ListRow) :=
  match fuel with
  | O => Ok []
  | S fuel =>
      page <-? list_flat list_objects prefix delimiter start_after limit ;;
      match lp_next_token page with
      | None => Ok (lp_rows page)
      | Some token => rest <-? list_pages fuel list_objects prefix delimiter token limit ;; Ok (lp_rows page ++ rest)
      end
  end.
End Pages.
Arguments ListRow : clear implicits.

(** ** The handler of the metadata service (service.rs) *)

Section Handler.
Context `{MetaSerde} {MS : MetaStore}.

Definition LIST_MAX_LIMIT : nat := 1000.
(** On the leader of the partition the scan start routes to. *)
Definition handle_list_objects (s : store) (bucket : Z) (prefix start_after : bytes) (limit : nat) : MResult (list (bytes * ObjectHead)) :=
  let limit := Nat.min (Nat.max limit 1) LIST_MAX_LIMIT in
  let start_after := if decide (start_after = []) then None else Some start_after in
  list_ s bucket prefix start_after limit.
End Handler.

(** ** Proofs

    Listings of a flat bucket through the gateway: completeness without a delimiter,
    and two ways a listing goes wrong. *)

From S2P Require Import MetaFlatProps.

Section Listing.
Context `{MetaSerde} {MS : MetaStore}.

Lemma list_entries_split (l1 l2 : KvPage) all : list_entries (l1 ++ l2) = Ok all ->
  exists a1 a2, list_entries l1 = Ok a1 /\ list_entries l2 = Ok a2 /\ all = a1 ++ a2.
Proof.
  revert all. induction l1 as [|[k v] l1 IH]; intros all E; [by exists [], all|]. cbn [app list_entries] in *.
  destruct (decode_head v) as [h|]; [|done]. destruct (length k <? 9)%nat; [done|].
  destruct (list_entries (l1 ++ l2)) as [all'|] eqn:E'; [|done]. injection E as <-. destruct (IH _ eq_refl) as (a1 & a2 & -> & -> & ->).
  by exists ((drop 9 k, h) :: a1), a2.
Qed.
Lemma list_entries_length (l : KvPage) all : list_entries l = Ok all -> length all = length l.
Proof.
  revert all. induction l as [|[k v] l IH]; intros all E; [by injection E as <-|]. cbn [list_entries] in E.
  destruct (decode_head v); [|done]. destruct (length k <? 9)%nat; [done|]. destruct (list_entries l); [|done]. injection E as <-. cbn. f_equal. by apply IH.
Qed.
Lemma list_entries_take (l : KvPage) all n : list_entries l = Ok all -> list_entries (take n l) = Ok (take n all).
Proof.
  intros E. rewrite <- (take_drop n l) in E. apply list_entries_split in E as (a1 & a2 & E1 & E2 & ->). rewrite E1. f_equal.
  pose proof (list_entries_length _ _ E1) as Hl1. pose proof (list_entries_length _ _ E2) as Hl2. rewrite length_take in Hl1.
  destruct (decide (n <= length l)%nat).
  - rewrite take_app_length' by lia. done.
  - rewrite drop_ge in E2 by lia. injection E2 as <-. rewrite app_nil_r. symmetry. apply take_ge. lia.
Qed.

Lemma list_entries_elem (l : KvPage) all p : list_entries l = Ok all -> p ∈ all -> exists k v, (k, v) ∈ l /\ drop 9 k = p.1.
Proof.
  revert all. induction l as [|[k0 v0] l IH]; intros all El Hin; [injection El as <-; by apply not_elem_of_nil in Hin|].
  cbn [list_entries] in El. destruct (decode_head v0) as [h|]; [|done]. destruct (length k0 <? 9)%nat; [done|].
  destruct (list_entries l) as [a|]; [|done]. injection El as <-. apply elem_of_cons in Hin as [->|Hin]; [exists k0, v0; split; [by left|done]|].
  destruct (IH _ eq_refl Hin) as (k & v & ? & ?). exists k, v. split; [by right|done].
Qed.

Context (s : store) (bucket : Z) (prefix : bytes).
Hypothesis Hopen : ms_open s.
Hypothesis Hkeys : keys_ok (ms_view s Meta).
Hypothesis Hprefix : is_bytes prefix.
Let key := flat_key Meta bucket prefix [].
Let rows := range (ms_view s Meta) key (prefix_end_or Meta key).

Lemma rows_key k v : (k, v) ∈ rows -> flat_key Meta bucket (drop 9 k) [] = k.
Proof.
  intros Hin. apply elem_of_prefix in Hin as [_ [r ->]]; [|done..].
  rewrite <- flat_key_ext. f_equal. unfold flat_key. rewrite app_nil_r. change 9%nat with (S 8). cbn [drop].
  rewrite drop_app_length' by (symmetry; apply length_be_bytes). done.
Qed.
Lemma list_first limit all : list_entries rows = Ok all -> list_ s bucket prefix None limit = Ok (take limit all).
Proof.
  intros E. unfold list_. cbn [from_option]. rewrite app_nil_r. fold key. rewrite ms_scan_ok by (done || by apply prefix_end_or_le). fold rows. by apply list_entries_take.
Qed.
Lemma list_after limit all a1 k h a2 : list_entries rows = Ok all -> all = a1 ++ (k, h) :: a2 ->
  list_ s bucket prefix (Some k) limit = Ok (take limit a2).
Proof.
  intros E ->. pose proof (list_entries_length _ _ E) as Hl. rewrite length_app in Hl. cbn in Hl.
  rewrite <- (take_drop (length a1) rows) in E. apply list_entries_split in E as (b1 & b2 & E1 & E2 & Eb).
  assert (length b1 = length a1) as Hb1 by (rewrite (list_entries_length _ _ E1), length_take; lia).
  apply app_inj_1 in Eb as [-> <-]; [|done].
  destruct (drop (length b1) rows) as [|[K v] l2] eqn:Ed; [done|]. cbn [list_entries] in E2.
  destruct (decode_head v) as [h'|]; [|done]. destruct (length K <? 9)%nat; [done|]. destruct (list_entries l2) as [a2'|] eqn:E2'; [|done].
  injection E2 as <- <- <-.
  assert (rows = take (length b1) rows ++ (K, v) :: l2) as Hr by (rewrite <- Ed; by rewrite take_drop).
  assert (flat_key Meta bucket (drop 9 K) [] = K) as HK by (apply (rows_key K v); rewrite Hr; apply elem_of_app; right; by left).
  unfold list_. change (default prefix (Some (drop 9 K))) with (drop 9 K). rewrite HK. fold key. change (K ++ [0]) with (next_key K).
  assert (lex_leb (next_key K) (prefix_end_or Meta key) = true) as Hle.
  { assert ((K, v) ∈ rows) as Hin by (rewrite Hr; apply elem_of_app; right; by left). apply elem_of_range in Hin as (Hm & _ & Hlt).
    by rewrite next_key_le by by apply prefix_end_or_bytes. }
  rewrite ms_scan_ok by done. rewrite (range_after _ key _ _ K v l2 Hkeys Hr). by apply list_entries_take.
Qed.

(** ** One page without a delimiter *)

Lemma attach_all (es : list (bytes * ObjectHead)) : NoDup es.*1 -> omap (attach es) (RKey <$> es.*1) = LObject <$> es.
Proof.
  intros Hnd. assert (forall l, l ⊆ es -> omap (attach es) (RKey <$> l.*1) = LObject <$> l) as Hgen; [|by apply Hgen].
  induction l as [|e l IH]; intros Hsub; [done|]. cbn [fmap list_fmap omap list_omap attach].
  assert (List.find (fun e' => bool_decide (e'.1 = e.1)) es = Some e) as ->.
  { assert (e ∈ es) as Hin by (apply Hsub; by left). clear -Hnd Hin.
    induction es as [|x es IH]; [by apply not_elem_of_nil in Hin|]. apply NoDup_cons in Hnd as [Hx Hnd]. cbn.
    apply elem_of_cons in Hin as [->|Hin]; [by rewrite bool_decide_true|]. case_bool_decide as E; [|by apply IH].
    destruct Hx. cbn. rewrite E. apply (list_elem_of_fmap_2 fst _ _ Hin). }
  cbn. f_equal. apply IH. intros x Hx. apply Hsub. by right.
Qed.

Lemma list_flat_page (limit : nat) cursor (es : list (bytes * ObjectHead)) : (1 <= limit)%nat -> NoDup es.*1 -> (length es <= limit)%nat ->
  handle_list_objects s bucket prefix cursor limit = Ok es ->
  list_flat (fun c => handle_list_objects s bucket prefix c limit) prefix [] cursor limit
  = Ok {| lp_rows := LObject <$> es; lp_next_token := if (length es =? limit)%nat then fst <$> last es else None |}.
Proof.
  intros Hl Hnd Hle Eh. unfold list_flat. change MAX_BATCHES with (S 15). generalize 15%nat as fuel. intros fuel.
  cbn [list_batches length]. rewrite Eh, Nat.sub_0_r.
  destruct es as [|e0 es0] eqn:Ees.
  { destruct limit; [lia|reflexivity]. }
  rewrite <- Ees in *. unfold fold. cbn [fd_rows fd_resume_after app]. rewrite length_fmap, take_ge by (rewrite length_fmap; lia).
  rewrite (proj2 (Nat.ltb_ge limit (length es))) by lia. cbn [default]. rewrite attach_all, length_fmap by done.
  assert (default [] (last es.*1) = default [] (fst <$> last es)) as Hlast by by rewrite fmap_last.
  assert (is_Some (last es)) as [e Helast] by (apply last_is_Some; by rewrite Ees).
  destruct (Nat.leb_spec limit (length es)).
  - assert (length es = limit) as -> by lia. rewrite Nat.eqb_refl, Hlast, Helast. done.
  - rewrite (proj2 (Nat.ltb_lt (length es) limit)) by lia. rewrite (proj2 (Nat.eqb_neq _ _)) by lia. done.
Qed.

(** ** All pages *)

Lemma rows_NoDup all : list_entries rows = Ok all -> NoDup all.*1.
Proof.
  intros E. assert (StronglySorted key_lt rows) as Hs by apply range_sorted.
  assert (forall k v, (k, v) ∈ rows -> flat_key Meta bucket (drop 9 k) [] = k) as Hk by apply rows_key.
  revert all E Hk Hs. generalize rows as l. intros l. induction l as [|[k v] l IH]; intros all E Hk Hs; [injection E as <-; constructor|].
  cbn [list_entries] in E. destruct (decode_head v) as [h|]; [|done]. destruct (length k <? 9)%nat; [done|].
  destruct (list_entries l) as [all'|] eqn:El; [|done]. injection E as <-. apply StronglySorted_inv in Hs as [Hs Hf]. cbn [fmap list_fmap].
  apply NoDup_cons. split; [|apply (IH all' eq_refl); [intros k' v' Hin; apply (Hk k' v'); by right|done]]. cbn.
  intros (p & Hp & Hin)%list_elem_of_fmap.
  destruct (list_entries_elem _ _ _ El Hin) as (k' & v' & Hin' & Hd).
  rewrite Forall_forall in Hf. specialize (Hf _ Hin'). unfold key_lt in Hf. cbn in Hf.
  assert (k = k') as <- by (rewrite <- (Hk k v) by left; rewrite <- (Hk k' v') by (by right); by rewrite Hp, Hd).
  by rewrite lex_ltb_irrefl in Hf.
Qed.

(** The cursor of a listing that has seen [seen]. *)
Definition cursor_at (seen : list (bytes * ObjectHead)) : bytes := default [] (fst <$> last seen).

Lemma handle_at limit all seen rest : list_entries rows = Ok all -> all = seen ++ rest -> Forall (fun e => e.1 <> []) all ->
  (1 <= limit <= LIST_MAX_LIMIT)%nat -> handle_list_objects s bucket prefix (cursor_at seen) limit = Ok (take limit rest).
Proof.
  intros E Ha Hne Hl. unfold handle_list_objects. replace (Nat.min (Nat.max limit 1) LIST_MAX_LIMIT) with limit by lia.
  destruct seen as [|[k h] seen _] using rev_ind.
  - subst all. cbn. by apply list_first.
  - unfold cursor_at. rewrite last_snoc. cbn. rewrite Ha in Hne. apply Forall_app in Hne as [Hne _]. apply Forall_app in Hne as [_ Hne].
    apply Forall_cons in Hne as [Hne _]. cbn in Hne. destruct (decide (k = [])); [done|].
    rewrite <- app_assoc in Ha. by eapply list_after.
Qed.
Lemma list_pages_from limit all : list_entries rows = Ok all -> Forall (fun e => e.1 <> []) all -> (1 <= limit <= LIST_MAX_LIMIT)%nat ->
  forall fuel seen rest, all = seen ++ rest -> (length rest < fuel)%nat ->
  list_pages fuel (fun c => handle_list_objects s bucket prefix c limit) prefix [] (cursor_at seen) limit = Ok (LObject <$> rest).
Proof.
  intros E Hne Hl. induction fuel as [|fuel IH]; intros seen rest Ha Hf; [lia|]. cbn [list_pages].
  pose proof (rows_NoDup all E) as Hnd. rewrite Ha, fmap_app in Hnd. apply NoDup_app in Hnd as (_ & _ & Hnd).
  rewrite <- (take_drop limit rest), fmap_app in Hnd. apply NoDup_app in Hnd as (Hnd & _ & _).
  rewrite (list_flat_page limit (cursor_at seen) (take limit rest)); [|lia|done|rewrite length_take; lia|by eapply handle_at].
  cbn [lp_next_token lp_rows]. rewrite length_take. destruct (Nat.eqb_spec (limit `min` length rest)%nat limit) as [El|El].
  - destruct (last (take limit rest)) as [p|] eqn:Elast.
    2:{ apply last_None in Elast. apply (f_equal length) in Elast. rewrite length_take in Elast. cbn in Elast. lia. }
    cbn [fmap option_fmap option_map].
    assert (p.1 = cursor_at (seen ++ take limit rest)) as -> by (unfold cursor_at; rewrite last_app, Elast; done).
    rewrite (IH (seen ++ take limit rest) (drop limit rest)).
    + by rewrite <- fmap_app, take_drop.
    + by rewrite <- app_assoc, take_drop.
    + rewrite length_drop. lia.
  - by rewrite take_ge by lia.
Qed.
End Listing.

(** C29: listing a flat bucket without a delimiter is complete as far as one partition
    goes: against the store of one metadata partition, for any page size the API
    allows, a client that follows the continuation tokens from the start gets, after
    finitely many pages, exactly the objects of the bucket in that store whose key has
    the prefix, each once and in key order, with the heads the store holds. A bucket
    that a split divided is not listed beyond the first partition, and with a delimiter
    objects can be skipped and groups repeated ([listing_skips_upper_bound],
    [listing_repeats_group]). *)
Theorem listing_complete `{MetaSerde} {MS : MetaStore} : forall s bucket prefix limit all,
  ms_open s -> keys_ok (ms_view s Meta) -> is_bytes prefix ->
  list_entries (filter (fun kv => flat_key Meta bucket prefix [] `prefix_of` kv.1) (entries (ms_view s Meta))) = Ok all ->
  Forall (fun e => e.1 <> []) all -> (1 <= limit <= 1000)%nat ->
  list_pages (S (length all)) (fun cursor => handle_list_objects s bucket prefix cursor limit) prefix [] [] limit = Ok (LObject <$> all).
Proof.
  intros s bucket prefix limit all Ho Hk Hp E Hne Hl.
  assert (range (ms_view s Meta) (flat_key Meta bucket prefix []) (prefix_end_or Meta (flat_key Meta bucket prefix []))
          = filter (fun kv => flat_key Meta bucket prefix [] `prefix_of` kv.1) (entries (ms_view s Meta))) as Hr.
  { apply filter_ext_in. intros [k v] Hkv%elem_of_entries. apply prefix_range; [done|by eapply Hk]. }
  rewrite <- Hr in E. exact (list_pages_from s bucket prefix Ho Hk Hp limit all E Hne Hl (S (length all)) [] all eq_refl ltac:(lia)).
Qed.

(** *** Evaluation: keys are ASCII; [/] is 47 *)

Definition ex_bucket (keys : list bytes) : MemEngine :=
  foldl (fun s k => ex_run s (FPut 7 k (ex_head (Inline [1])) 1) 0) ∅ keys.
Definition ex_pages (keys : list bytes) (prefix delimiter start : bytes) (limit : nat) : MResult (list (ListRow ObjectHead)) :=
  list_pages 10 (fun c => handle_list_objects (MS := mem_store) (ex_bucket keys) 7 prefix c limit) prefix delimiter start limit.
Definition ex_row_key (r : ListRow ObjectHead) : bytes := match r with LObject e => e.1 | LPrefix p => p end.

Lemma listing_complete_witness :
  exists all, list_pages (S (length all)) (fun c => handle_list_objects (MS := mem_store) (ex_bucket [[97]; [97; 98]; [98]]) 7 [97] c 1) [97] [] [] 1
    = Ok (LObject <$> all) /\ all.*1 = [[97]; [97; 98]].
Proof.
  eexists. split.
  - apply (listing_complete (MS := mem_store) (ex_bucket [[97]; [97; 98]; [98]]) 7 [97] 1).
    + exact I.
    + intros k v Hk. revert k v Hk. apply (proj1 (map_Forall_lookup (fun k _ => is_bytes k) _)). apply (bool_decide_unpack _). vm_compute. exact I.
    + apply (bool_decide_unpack _). vm_compute. exact I.
    + vm_compute. reflexivity.
    + apply (bool_decide_unpack _). vm_compute. exact I.
    + lia.
  - vm_compute. reflexivity.
Defined.

(** With a delimiter, the object named by the upper bound of a folded group
    ([a0] after [a/]) is never listed: the resume point is exclusive. *)
Example listing_skips_upper_bound :
  fmap (M := list) ex_row_key <$> res_ok (ex_pages [[97; 47; 49]; [97; 48]] [] [47] [] 1) = Some [[97; 47]].
Proof. vm_compute. reflexivity. Qed.
(** A page cut short behind a folded group repeats the group on the next page. *)
Example listing_repeats_group :
  fmap (M := list) ex_row_key <$> res_ok (ex_pages [[65]; [97; 47; 49]; [97; 47; 50]; [98; 47; 49]; [98; 47; 50]; [99]] [] [47] [] 3)
  = Some [[65]; [97; 47]; [98; 47]; [98; 47]; [99]].
Proof. vm_compute. reflexivity. Qed.
(** A [start_after] below the prefix lists objects that do not have the prefix. *)
Example listing_escapes_prefix :
  fmap (M := list) ex_row_key <$> res_ok (ex_pages [[97; 97]; [98; 49]] [98] [] [97] 10) = Some [[97; 97]; [98; 49]].
Proof. vm_compute. reflexivity. Qed.
