(* ===== verification/MetaHier.v ===== *)
(** The hierarchical namespace (epoch-meta: ns_hier/mod.rs): files, directory
    entries and directory sentinels under (parent inode, name) keys, the handlers
    of every operation, the reads, and the sweep of orphan sentinels. *)

From S2P Require Import Prelude Ids Rocks PdDb MetaStore MetaKeys MetaNs MetaFlat.

Definition SENTINEL_NAME : bytes := [].

Inductive HierOp : Set :=
| HWrite (bucket parent_ino : Z) (name : bytes) (size : Z) (etag : bytes) (content : ContentHead) (http : HttpMeta) (ts_millis : Z)
| HUnlink (bucket parent_ino : Z) (name : bytes) (ts_millis : Z)
| HMkdirSentinel (bucket parent_ino : Z) (name : bytes) (ts_millis : Z)
| HMkdirLink (bucket parent_ino : Z) (name : bytes) (child_ino ts_millis : Z)
| HRmdirUnlink (bucket parent_ino : Z) (name : bytes) (ts_millis : Z)
| HRmdirSentinel (bucket ino ts_millis : Z)
| HRenameSameDir (bucket parent_ino : Z) (from to : bytes) (ts_millis : Z).

(** The replicated inode counter of a partition. *)
Record InoAllocator : Set := { ia_tag : Z; ia_next : Z }.
Definition mint (ino : InoAllocator) : MResult (Z * InoAllocator) :=
  i <-? ok_or (compose_ino (ia_tag ino) (ia_next ino)) MSE_ValueCodec ;;
  Ok (i, {| ia_tag := ia_tag ino; ia_next := wrap 64 (ia_next ino + 1) |}).

Definition rejected (reason : string) : ApplyOutcome := ApplyOutcome_no_delta [] (Rejected reason).
Definition unchanged : ApplyOutcome := ApplyOutcome_no_delta [] RespNone.

Section Hier.
Context `{MetaSerde} {MS : MetaStore}.

Definition file_account (f : FileRecord) : Z * Z * Z :=
  let '(inline_bytes, inline_count) := ContentHead_inline_account (fr_content f) in (inline_bytes, inline_count, fr_size f).

Definition capture_old_file (s : store) (bucket parent_ino : Z) (name : bytes) (seq ts_millis : Z) (ops : list StoreOp)
    : MResult (list StoreOp * (Z * Z * Z)) :=
  old <-? ms_get s Fs (hier_key Fs bucket parent_ino name []) ;;
  match old with
  | None => Ok (ops, (0, 0, 0))
  | Some old =>
      let captured := extract Fs old in
      let account := match from_slice (A := FsRecord) old with Some (FsFile file) => file_account file | _ => (0, 0, 0) end in
      let seg_prefix := hier_key MetaSeg bucket parent_ino name [] in
      let seg_end := prefix_end_or MetaSeg seg_prefix in
      p <-? paged_scan (scan_fuel s MetaSeg) s MetaSeg seg_prefix seg_end 1024
              (fun p kv => Ok (p.1 ++ extract MetaSeg kv.2, p.2 ++ [StoreOp_delete MetaSeg kv.1])) (captured, ops) ;;
      let '(ops, _) := enqueue_delete_slices 0 p.1 ts_millis
                         (fun seg_no => hier_key Delq bucket parent_ino name (suffix_delq_seq seq seg_no)) p.2 in
      Ok (ops, account)
  end.

Definition decode_fs (value : bytes) : MResult FsRecord := ok_or (from_slice value) MSE_ValueCodec.
Definition fs_read_record (s : store) (bucket parent_ino : Z) (name : bytes) : MResult (option FsRecord) :=
  v <-? ms_get s Fs (hier_key Fs bucket parent_ino name []) ;;
  match v with None => Ok None | Some b => r <-? decode_fs b ;; Ok (Some r) end.

Definition file_with (f : FileRecord) (content : ContentHead) (seg_count : Z) : FileRecord :=
  {| fr_ino := fr_ino f; fr_size := fr_size f; fr_etag := fr_etag f; fr_mtime := fr_mtime f; fr_content := content;
     fr_seg_count := seg_count; fr_http := fr_http f |}.
Definition pack_file (file : FileRecord) : FileRecord * list SliceSegment :=
  match fr_content file with
  | Slices slices =>
      let '(embedded, segments) := split_slices slices in
      (file_with file (Slices embedded) (wrap 32 (Z.of_nat (length segments))), segments)
  | content => (file_with file content 0, [])
  end.
Fixpoint put_file_segments (bucket parent_ino : Z) (name : bytes) (seg_no : Z) (segments : list SliceSegment) : list StoreOp :=
  match segments with
  | [] => []
  | segment :: segments =>
      StoreOp_put MetaSeg (hier_key MetaSeg bucket parent_ino name (suffix_seg_no seg_no)) (to_vec segment)
      :: put_file_segments bucket parent_ino name (seg_no + 1) segments
  end.

(** Adds [delta] to the parent's child count and stamps its time; no sentinel, no
    change. *)
Definition bump_sentinel_child_delta (s : store) (bucket parent_ino delta ts_millis : Z) (ops : list StoreOp)
    : MResult (list StoreOp) :=
  let key := hier_key Fs bucket parent_ino SENTINEL_NAME [] in
  v <-? ms_get s Fs key ;;
  match v with
  | None => Ok ops
  | Some b =>
      r <-? decode_fs b ;;
      match r with
      | FsSentinel d =>
          let entry_count := match dr_entry_count d with
                             | Exact count => Exact (saturating_add_signed count delta)
                             | Unknown => Unknown
                             end in
          let d := {| dr_ino := dr_ino d; dr_mtime := ts_millis; dr_entry_count := entry_count;
                      dr_parent_link := dr_parent_link d; dr_created_ts := dr_created_ts d |} in
          Ok (ops ++ [StoreOp_put Fs key (to_vec (FsSentinel d))])
      | _ => Ok ops
      end
  end.

Definition apply_write (s : store) (bucket parent_ino : Z) (name : bytes) (size : Z) (etag : bytes) (content : ContentHead)
    (http : HttpMeta) (ts_millis seq : Z) (ino : InoAllocator) : MResult (ApplyOutcome * InoAllocator) :=
  if decide (name = []) then Ok (rejected "empty file name", ino)
  else
    record <-? fs_read_record s bucket parent_ino name ;;
    match record with
    | Some (FsDir _) | Some (FsSentinel _) => Ok (rejected "name is a directory", ino)
    | _ =>
        r <-? match record with
              | Some (FsFile existing) => Ok (fr_ino existing, false, ino)
              | _ => m <-? mint ino ;; Ok (m.1, true, m.2)
              end ;;
        let '(file_ino, is_create, ino) := r in
        c <-? capture_old_file s bucket parent_ino name seq ts_millis [] ;;
        let '(ops, (old_inline, old_count, old_total)) := c in
        let file := {| fr_ino := file_ino; fr_size := size; fr_etag := etag; fr_mtime := ts_millis; fr_content := content;
                       fr_seg_count := 0; fr_http := http |} in
        let '(packed, segments) := pack_file file in
        let ops := ops ++ [StoreOp_put Fs (hier_key Fs bucket parent_ino name []) (to_vec (FsFile packed))]
                       ++ put_file_segments bucket parent_ino name 0 segments in
        ops <-? bump_sentinel_child_delta s bucket parent_ino (if is_create then 1 else 0) ts_millis ops ;;
        let '(new_inline, new_count) := ContentHead_inline_account (fr_content packed) in
        Ok ({| ao_ops := ops; ao_response := RespNone;
               ao_delta := {| gd_inline_bytes := i64_diff new_inline old_inline; gd_inline_count := i64_diff new_count old_count;
                              gd_total_bytes := i64_diff size old_total |} |}, ino)
    end.

Definition apply_unlink (s : store) (bucket parent_ino : Z) (name : bytes) (seq ts_millis : Z) : MResult ApplyOutcome :=
  record <-? fs_read_record s bucket parent_ino name ;;
  match record with
  | None => Ok unchanged
  | Some (FsDir _) | Some (FsSentinel _) => Ok (rejected "name is a directory")
  | Some (FsFile _) =>
      c <-? capture_old_file s bucket parent_ino name seq ts_millis [] ;;
      let '(ops, (old_inline, old_count, old_total)) := c in
      let ops := ops ++ [StoreOp_delete Fs (hier_key Fs bucket parent_ino name [])] in
      ops <-? bump_sentinel_child_delta s bucket parent_ino (-1) ts_millis ops ;;
      Ok {| ao_ops := ops; ao_response := RespNone;
            ao_delta := {| gd_inline_bytes := i64_diff 0 old_inline; gd_inline_count := i64_diff 0 old_count;
                           gd_total_bytes := i64_diff 0 old_total |} |}
  end.

Definition apply_mkdir_sentinel (s : store) (bucket parent_ino : Z) (name : bytes) (ts_millis : Z) (ino : InoAllocator)
    : MResult (ApplyOutcome * InoAllocator) :=
  m <-? mint ino ;;
  let '(child_ino, ino) := m in
  let sentinel := {| dr_ino := child_ino; dr_mtime := ts_millis; dr_entry_count := Exact 0;
                     dr_parent_link := Some (parent_ino, name); dr_created_ts := ts_millis |} in
  let key := hier_key Fs bucket child_ino SENTINEL_NAME [] in
  v <-? ms_get s Fs key ;;
  let ops := match v with Some _ => [] | None => [StoreOp_put Fs key (to_vec (FsSentinel sentinel))] end in
  Ok (ApplyOutcome_no_delta ops (MintedIno child_ino), ino).

Definition apply_mkdir_link (s : store) (bucket parent_ino : Z) (name : bytes) (child_ino ts_millis : Z) : MResult ApplyOutcome :=
  if decide (name = []) then Ok (rejected "empty directory name")
  else
    record <-? fs_read_record s bucket parent_ino name ;;
    match record with
    | Some (FsDir existing) =>
        if de_ino existing =? child_ino then Ok unchanged else Ok (rejected "name already links another directory")
    | Some (FsFile _) => Ok (rejected "name is a file")
    | Some (FsSentinel _) | None =>
        let ops := [StoreOp_put Fs (hier_key Fs bucket parent_ino name []) (to_vec (FsDir {| de_ino := child_ino |}))] in
        ops <-? bump_sentinel_child_delta s bucket parent_ino 1 ts_millis ops ;;
        Ok (ApplyOutcome_no_delta ops RespNone)
    end.

Definition apply_rmdir_unlink (s : store) (bucket parent_ino : Z) (name : bytes) (ts_millis : Z) : MResult ApplyOutcome :=
  record <-? fs_read_record s bucket parent_ino name ;;
  match record with
  | Some (FsFile _) => Ok (rejected "name is a file")
  | Some (FsSentinel _) | None => Ok unchanged
  | Some (FsDir _) =>
      let ops := [StoreOp_delete Fs (hier_key Fs bucket parent_ino name [])] in
      ops <-? bump_sentinel_child_delta s bucket parent_ino (-1) ts_millis ops ;;
      Ok (ApplyOutcome_no_delta ops RespNone)
  end.

(** A page of at most two entries of the directory's own range, the first of which
    is its sentinel. *)
Definition directory_has_children (s : store) (bucket dir_ino : Z) : MResult bool :=
  let range_start := MetaCf_tag Fs :: be_bytes 8 bucket ++ be_bytes 8 dir_ino in
  let range_end := prefix_end_or Fs range_start in
  page <-? ms_scan s Fs range_start range_end 2 ;;
  Ok (1 <? length page)%nat.

Definition apply_rmdir_sentinel (s : store) (bucket dir_ino ts_millis : Z) : MResult ApplyOutcome :=
  let sentinel_key := hier_key Fs bucket dir_ino SENTINEL_NAME [] in
  v <-? ms_get s Fs sentinel_key ;;
  match v with
  | None => Ok unchanged
  | Some _ =>
      has <-? directory_has_children s bucket dir_ino ;;
      if has : bool then Ok (rejected "directory not empty")
      else Ok (ApplyOutcome_no_delta [StoreOp_delete Fs sentinel_key] RespNone)
  end.

Definition delete_segments (s : store) (bucket parent_ino : Z) (name : bytes) (ops : list StoreOp) : MResult (list StoreOp) :=
  let seg_prefix := hier_key MetaSeg bucket parent_ino name [] in
  let seg_end := prefix_end_or MetaSeg seg_prefix in
  paged_scan (scan_fuel s MetaSeg) s MetaSeg seg_prefix seg_end 1024
    (fun ops kv => Ok (ops ++ [StoreOp_delete MetaSeg kv.1])) ops.

Definition apply_rename_same_dir (s : store) (bucket parent_ino : Z) (from to : bytes) (seq ts_millis : Z)
    : MResult ApplyOutcome :=
  if decide (from = to) then Ok unchanged
  else
    record <-? fs_read_record s bucket parent_ino from ;;
    match record with
    | None => Ok (rejected "source not found")
    | Some (FsDir _) | Some (FsSentinel _) => Ok (rejected "source is a directory (v1 renames files only)")
    | Some (FsFile source) =>
        dest <-? fs_read_record s bucket parent_ino to ;;
        match dest with
        | Some (FsDir _) | Some (FsSentinel _) => Ok (rejected "destination is a directory")
        | _ =>
            let dest_existed := match dest with Some _ => true | None => false end in
            c <-? capture_old_file s bucket parent_ino to seq ts_millis [] ;;
            let '(ops, (dest_inline, dest_count, dest_total)) := c in
            let source := {| fr_ino := fr_ino source; fr_size := fr_size source; fr_etag := fr_etag source;
                             fr_mtime := ts_millis; fr_content := fr_content source;
                             fr_seg_count := fr_seg_count source; fr_http := fr_http source |} in
            let '(moved, segments) := pack_file source in
            let ops := ops ++ [StoreOp_put Fs (hier_key Fs bucket parent_ino to []) (to_vec (FsFile moved))]
                           ++ put_file_segments bucket parent_ino to 0 segments
                           ++ [StoreOp_delete Fs (hier_key Fs bucket parent_ino from [])] in
            ops <-? delete_segments s bucket parent_ino from ops ;;
            ops <-? bump_sentinel_child_delta s bucket parent_ino (if dest_existed then -1 else 0) ts_millis ops ;;
            Ok {| ao_ops := ops; ao_response := RespNone;
                  ao_delta := {| gd_inline_bytes := i64_diff 0 dest_inline; gd_inline_count := i64_diff 0 dest_count;
                                 gd_total_bytes := i64_diff 0 dest_total |} |}
        end
    end.

Definition hier_apply (s : store) (op : HierOp) (seq : Z) (ino : InoAllocator) : MResult (ApplyOutcome * InoAllocator) :=
  let keep r := o <-? r ;; Ok (o, ino) in
  match op with
  | HWrite bucket parent_ino name size etag content http ts =>
      apply_write s bucket parent_ino name size etag content http ts seq ino
  | HUnlink bucket parent_ino name ts => keep (apply_unlink s bucket parent_ino name seq ts)
  | HMkdirSentinel bucket parent_ino name ts => apply_mkdir_sentinel s bucket parent_ino name ts ino
  | HMkdirLink bucket parent_ino name child_ino ts => keep (apply_mkdir_link s bucket parent_ino name child_ino ts)
  | HRmdirUnlink bucket parent_ino name ts => keep (apply_rmdir_unlink s bucket parent_ino name ts)
  | HRmdirSentinel bucket dir_ino ts => keep (apply_rmdir_sentinel s bucket dir_ino ts)
  | HRenameSameDir bucket parent_ino from to ts => keep (apply_rename_same_dir s bucket parent_ino from to seq ts)
  end.

(** ** Reads and the sweep *)

Definition lookup_ (s : store) (bucket parent_ino : Z) (name : bytes) : MResult (option FsRecord) :=
  fs_read_record s bucket parent_ino name.

Fixpoint dir_entries (page : KvPage) : MResult (list (bytes * FsRecord)) :=
  match page with
  | [] => Ok []
  | (key, value) :: page =>
      if (length key <? 17)%nat then Err MSE_Panic
      else r <-? decode_fs value ;; rest <-? dir_entries page ;; Ok ((drop 17 key, r) :: rest)
  end.
(** [loop { if out.len() >= limit { break } scan(limit - out.len()) .. }]: a scan
    that returns less than it was asked for has reached the end, so it runs at most
    three times. *)
Fixpoint readdir_loop (fuel : nat) (s : store) (start end_ : bytes) (limit : nat) (out : list (bytes * FsRecord))
    : MResult (list (bytes * FsRecord)) :=
  match fuel with
  | O => Err MSE_Fuel
  | S fuel =>
      if (limit <=? length out)%nat then Ok out
      else
        page <-? ms_scan s Fs start end_ (limit - length out) ;;
        match last page with
        | None => Ok out
        | Some kv => rest <-? dir_entries page ;; readdir_loop fuel s (next_key kv.1) end_ limit (out ++ rest)
        end
  end.
Definition readdir (s : store) (bucket dir_ino : Z) (start_after : option bytes) (limit : nat)
    : MResult (list (bytes * FsRecord)) :=
  let start := hier_key Fs bucket dir_ino (default SENTINEL_NAME start_after) [] ++ [0] in
  let end_ := prefix_end_or Fs (hier_key Fs bucket dir_ino SENTINEL_NAME []) in
  readdir_loop 3 s start end_ limit [].

Definition sentinel_is_orphan (s : store) (bucket : Z) (sentinel : DirRecord) : MResult bool :=
  match dr_parent_link sentinel with
  | None => Ok false
  | Some (parent_ino, name) =>
      r <-? fs_read_record s bucket parent_ino name ;;
      match r with Some (FsDir entry) => Ok (negb (de_ino entry =? dr_ino sentinel)) | _ => Ok true end
  end.
Definition orphan_entry (s : store) (expire_before : Z) (orphans : list (Z * Z)) (kv : bytes * bytes) : MResult (list (Z * Z)) :=
  if negb (length kv.1 =? 17)%nat then Ok orphans
  else
    r <-? decode_fs kv.2 ;;
    match r with
    | FsSentinel sentinel =>
        if expire_before <? dr_created_ts sentinel then Ok orphans
        else
          c <-? ok_or (routing_key kv.1) MSE_ValueCodec ;;
          orphan <-? sentinel_is_orphan s c.1 sentinel ;;
          if orphan : bool
          then has <-? directory_has_children s c.1 (dr_ino sentinel) ;;
               if has : bool then Ok orphans else Ok (orphans ++ [(c.1, dr_ino sentinel)])
          else Ok orphans
    | _ => Ok orphans
    end.
(** The scan of [sweep_orphan_sentinels]: the directories a leader removes. *)
Definition sweep_orphan_sentinels (s : store) (r : PartitionRange) (ttl_millis now_millis : Z) : MResult (list HierOp) :=
  match find (fun kr => bool_decide (kr_cf kr = Fs)) (key_ranges r) with
  | None => Ok []
  | Some bounds =>
      orphans <-? paged_scan (scan_fuel s Fs) s Fs (kr_start bounds) (kr_end bounds) 1024
                    (orphan_entry s (now_millis - ttl_millis)) [] ;;
      Ok ((fun o => HRmdirSentinel o.1 o.2 now_millis) <$> orphans)
  end.
End Hier.
