(* ===== verification/MetaHierProps.v ===== *)
(** The hierarchical namespace, proved: every directory's child count stays exact,
    a directory is removed only when it is empty, and what a rename does to the
    overflow segments of a file. *)

From S2P Require Import Prelude Ids Rocks PdDb MetaStore MetaKeys MetaNs MetaRefs MetaFlat MetaFlatProps MetaHier.

Section HierProps.
Context `{MetaSerde} {MS : MetaStore}.

(** ** Keys of a directory *)

Definition entry_key (b i : Z) (name : bytes) : bytes := hier_key Fs b i name [].
Definition sent_key (b i : Z) : bytes := hier_key Fs b i SENTINEL_NAME [].
Lemma entry_key_sent b i name : entry_key b i name = sent_key b i ++ name.
Proof. unfold entry_key, sent_key, hier_key, SENTINEL_NAME. by rewrite !app_nil_r, <- app_comm_cons, <- app_assoc. Qed.
Lemma sent_key_flat b i : sent_key b i = flat_key Fs b (be_bytes 8 i) [].
Proof. unfold sent_key. rewrite hier_key_flat. unfold hier_routing_key, SENTINEL_NAME. by rewrite app_nil_r. Qed.
Lemma length_sent_key b i : length (sent_key b i) = 17%nat.
Proof. unfold sent_key, hier_key. cbn [length]. by rewrite !length_app, !length_be_bytes. Qed.
Lemma sent_key_inj b i b' i' : is_u64 b -> is_u64 i -> is_u64 b' -> is_u64 i' -> sent_key b i = sent_key b' i' -> b = b' /\ i = i'.
Proof.
  intros Hb Hi Hb' Hi' E. rewrite !sent_key_flat in E. apply flat_key_inj in E as [-> E]; [|done|done].
  by apply (be_bytes_inj_uint 8 64) in E.
Qed.
Lemma prefix_sent_inj b i b' i' k : is_u64 b -> is_u64 i -> is_u64 b' -> is_u64 i' ->
  sent_key b i `prefix_of` k -> sent_key b' i' `prefix_of` k -> b = b' /\ i = i'.
Proof.
  intros Hb Hi Hb' Hi' [r ->] [r' E]. apply app_inj_1 in E as [E _]; [|by rewrite !length_sent_key]. by apply sent_key_inj.
Qed.
Lemma entry_key_ne_sent b i name b' i' : name <> [] -> entry_key b i name <> sent_key b' i'.
Proof.
  intros Hn E. apply (f_equal length) in E. rewrite entry_key_sent, length_app, !length_sent_key in E. destruct name; [done|cbn in E; lia].
Qed.
Lemma entry_key_inj b i name name' : entry_key b i name = entry_key b i name' -> name = name'.
Proof. rewrite !entry_key_sent. apply app_inv_head. Qed.
Lemma entry_key_prefix b i name : sent_key b i `prefix_of` entry_key b i name.
Proof. rewrite entry_key_sent. by apply prefix_app_r. Qed.
Lemma entry_key_bytes b i name : is_bytes name -> is_bytes (entry_key b i name).
Proof.
  intros Hn. unfold entry_key. rewrite hier_key_flat. apply flat_key_bytes; [|constructor].
  apply Forall_app. split; [apply be_bytes_bytes|done].
Qed.
Lemma sent_key_bytes b i : is_bytes (sent_key b i).
Proof. apply (entry_key_bytes b i []). constructor. Qed.

(** ** The children of a directory *)

Definition is_child (b i : Z) (kv : bytes * bytes) : Prop := sent_key b i `prefix_of` kv.1 /\ kv.1 <> sent_key b i.
#[export] Instance is_child_dec b i kv : Decision (is_child b i kv).
Proof. unfold is_child. apply _. Defined.
Definition children (m : gmap bytes bytes) (b i : Z) : gmap bytes bytes := filter (is_child b i) m.
Definition child_count (m : gmap bytes bytes) (b i : Z) : Z := Z.of_nat (size (children m b i)).

Lemma entry_is_child b i name v : name <> [] -> is_child b i (entry_key b i name, v).
Proof. intros Hn. split; [apply entry_key_prefix|by apply entry_key_ne_sent]. Qed.
Lemma sent_not_child b i b' i' v : is_u64 b -> is_u64 i -> is_u64 b' -> is_u64 i' -> ~ is_child b' i' (sent_key b i, v).
Proof.
  intros Hb Hi Hb' Hi' [Hp Hne]. cbn [fst] in *. destruct (prefix_sent_inj b i b' i' (sent_key b i)) as [-> ->]; done.
Qed.
Lemma child_count_insert_new m b i name v : name <> [] -> m !! entry_key b i name = None ->
  child_count (<[entry_key b i name := v]> m) b i = child_count m b i + 1.
Proof.
  intros Hn Hm. unfold child_count, children. rewrite map_filter_insert_True by by apply entry_is_child.
  rewrite map_size_insert_None; [lia|]. apply map_lookup_filter_None. by left.
Qed.
Lemma child_count_insert_old m b i name v v' : name <> [] -> m !! entry_key b i name = Some v' ->
  child_count (<[entry_key b i name := v]> m) b i = child_count m b i.
Proof.
  intros Hn Hm. unfold child_count, children. rewrite map_filter_insert_True by by apply entry_is_child.
  rewrite map_size_insert_Some; [done|]. exists v'. apply map_lookup_filter_Some. split; [done|]. by apply entry_is_child.
Qed.
Lemma child_count_delete m b i name v : name <> [] -> m !! entry_key b i name = Some v ->
  child_count (delete (entry_key b i name) m) b i = child_count m b i - 1.
Proof.
  intros Hn Hm. unfold child_count, children. rewrite map_filter_delete.
  assert (filter (is_child b i) m !! entry_key b i name = Some v) as Hf.
  { apply map_lookup_filter_Some. split; [done|]. by apply entry_is_child. }
  rewrite map_size_delete_Some by done. assert (size (filter (is_child b i) m) <> 0)%nat; [|lia].
  apply map_size_non_empty_iff. intros E. by rewrite E in Hf.
Qed.
(** Counts depend on the directory's own entries only. *)
Lemma child_count_ext m m' b i : (forall k v, is_child b i (k, v) -> m' !! k = m !! k) -> child_count m' b i = child_count m b i.
Proof.
  intros E. unfold child_count, children. do 2 f_equal. apply map_eq. intros k. apply option_eq. intros v.
  rewrite !map_lookup_filter_Some. split; intros [Hk Hc]; (split; [|done]); [by rewrite <- (E k v Hc)|by rewrite (E k v Hc)].
Qed.
Lemma child_count_sent m b i b' i' v : is_u64 b -> is_u64 i -> is_u64 b' -> is_u64 i' ->
  child_count (<[sent_key b i := v]> m) b' i' = child_count m b' i'.
Proof.
  intros Hb Hi Hb' Hi'. apply child_count_ext. intros k v' Hc. apply lookup_insert_ne. intros <-. by eapply (sent_not_child b i b' i').
Qed.

(** ** The invariant *)

(** An inode this partition has yet to mint. *)
Definition future (ino : InoAllocator) (i : Z) : Prop := exists c, ia_next ino <= c /\ compose_ino (ia_tag ino) c = Some i.

Lemma future_u64 ino i : is_u64 (ia_next ino) /\ 0 <= ia_tag ino -> future ino i -> is_u64 i.
Proof. intros [[? ?] ?] (c & Hc & E). eapply ino_partition_tag_compose; [| |exact E]; lia. Qed.

Record hier_inv (m : gmap bytes bytes) (ino : InoAllocator) : Prop := {
  hi_sentinel b i v : is_u64 b -> is_u64 i -> m !! sent_key b i = Some v ->
    exists d, from_slice v = Some (FsSentinel d) /\ forall n, dr_entry_count d = Exact n -> n = child_count m b i;
  hi_entry b i name v : name <> [] -> m !! entry_key b i name = Some v ->
    exists r, from_slice v = Some r /\ forall d, r <> FsSentinel d;
  hi_future b i k v : is_u64 b -> future ino i -> m !! k = Some v -> ~ sent_key b i `prefix_of` k;
  hi_ino : is_u64 (ia_next ino) /\ 0 <= ia_tag ino
}.

(** The sentinel after a change of [delta] children. *)
Definition bumped (delta ts : Z) (d : DirRecord) : DirRecord :=
  {| dr_ino := dr_ino d; dr_mtime := ts;
     dr_entry_count := match dr_entry_count d with Exact n => Exact (saturating_add_signed n delta) | Unknown => Unknown end;
     dr_parent_link := dr_parent_link d; dr_created_ts := dr_created_ts d |}.
Definition bump_view (m mid : gmap bytes bytes) (b i delta ts : Z) : gmap bytes bytes :=
  match m !! sent_key b i ≫= from_slice (A := FsRecord) with
  | Some (FsSentinel d) => <[sent_key b i := to_vec (FsSentinel (bumped delta ts d))]> mid
  | _ => mid
  end.

Lemma bump_view_entry m mid b i delta ts b' i' name : name <> [] ->
  bump_view m mid b i delta ts !! entry_key b' i' name = mid !! entry_key b' i' name.
Proof.
  intros Hn. unfold bump_view. destruct (_ ≫= _) as [[?|?|d]|]; try done. apply lookup_insert_ne.
  intros E. symmetry in E. by apply entry_key_ne_sent in E.
Qed.
(** Entries of one directory change and its sentinel is bumped by the difference. *)
Lemma dir_update m mid ino b i delta ts :
  hier_inv m ino -> is_u64 b -> is_u64 i -> ~ future ino i ->
  (forall k, mid !! k <> m !! k -> exists name, name <> [] /\ k = entry_key b i name) ->
  (forall name v, name <> [] -> mid !! entry_key b i name = Some v -> m !! entry_key b i name <> Some v ->
     exists r, from_slice v = Some r /\ forall d, r <> FsSentinel d) ->
  child_count mid b i = child_count m b i + delta -> 0 <= child_count m b i + delta < 2 ^ 64 ->
  hier_inv (bump_view m mid b i delta ts) ino.
Proof.
  intros Hinv Hb Hi Hfut Hmid Hval Hc Hr.
  assert (forall b' i', mid !! sent_key b' i' = m !! sent_key b' i') as Hsent.
  { intros b' i'. destruct (decide (mid !! sent_key b' i' = m !! sent_key b' i')) as [|Hne]; [done|].
    apply Hmid in Hne as (name & Hn & E). symmetry in E. by apply entry_key_ne_sent in E. }
  assert (forall b' i', is_u64 b' -> is_u64 i' -> (b', i') <> (b, i) -> child_count mid b' i' = child_count m b' i') as Hother.
  { intros b' i' Hb' Hi' Hne. apply child_count_ext. intros k v [Hp _]. cbn [fst] in Hp.
    destruct (decide (mid !! k = m !! k)) as [|Hk]; [done|]. apply Hmid in Hk as (name & _ & ->).
    destruct (prefix_sent_inj b' i' b i _ Hb' Hi' Hb Hi Hp (entry_key_prefix b i name)); congruence. }
  assert (forall k, bump_view m mid b i delta ts !! k = mid !! k \/ k = sent_key b i) as Hbump.
  { intros k. unfold bump_view. destruct (_ ≫= _) as [[?|?|d]|]; auto.
    destruct (decide (k = sent_key b i)) as [->|]; [by right|left]. by rewrite lookup_insert_ne. }
  constructor.
  - intros b' i' v Hb' Hi'. destruct (decide ((b', i') = (b, i))) as [[= -> ->]|Hne].
    + unfold bump_view. destruct (m !! sent_key b i) as [v0|] eqn:Hv0; cbn.
      2: { intros Hv. by rewrite Hsent, Hv0 in Hv. }
      destruct (hi_sentinel _ _ Hinv b i v0 Hb Hi Hv0) as (d & Hd & Hn). rewrite Hd. rewrite lookup_insert_eq. intros [= <-].
      exists (bumped delta ts d). split; [apply from_to|]. intros n. cbn [bumped dr_entry_count].
      destruct (dr_entry_count d) as [n0|] eqn:En; [|done]. specialize (Hn n0 eq_refl). intros [= <-].
      rewrite child_count_sent, Hc by done. unfold saturating_add_signed. lia.
    + destruct (Hbump (sent_key b' i')) as [->|E]; [|by apply sent_key_inj in E as [-> ->]].
      rewrite Hsent. intros Hv. destruct (hi_sentinel _ _ Hinv b' i' v Hb' Hi' Hv) as (d & Hd & Hn). exists d. split; [done|].
      intros n En. rewrite (Hn n En), <- (Hother b' i') by done. symmetry. apply child_count_ext. intros k v' Hk.
      destruct (Hbump k) as [->| ->]; [done|]. exfalso. by eapply (sent_not_child b i b' i').
  - intros b' i' name v Hn. destruct (Hbump (entry_key b' i' name)) as [->|E]; [|by apply entry_key_ne_sent in E].
    intros Hv. destruct (decide (mid !! entry_key b' i' name = m !! entry_key b' i' name)) as [E|Hne].
    + rewrite E in Hv. by eapply (hi_entry _ _ Hinv).
    + pose proof Hne as (name' & Hn' & E)%Hmid. rewrite E in *. apply (Hval name'); [done|done|congruence].
  - intros b' i' k v Hb' Hf Hv Hp.
    assert (k = sent_key b i \/ exists v', mid !! k = Some v') as [->|[v' Hv']].
    { destruct (Hbump k) as [E| ->]; [right; exists v; congruence|by left]. }
    + destruct (prefix_sent_inj b' i' b i _ Hb' (future_u64 _ _ (hi_ino _ _ Hinv) Hf) Hb Hi Hp ltac:(done)) as [_ ->]. done.
    + destruct (decide (mid !! k = m !! k)) as [E|Hne].
      * rewrite Hv' in E. by eapply (hi_future _ _ Hinv b' i' k v').
      * apply Hmid in Hne as (name & _ & ->).
        destruct (prefix_sent_inj b' i' b i _ Hb' (future_u64 _ _ (hi_ino _ _ Hinv) Hf) Hb Hi Hp (entry_key_prefix b i name)) as [_ ->]. done.
  - apply (hi_ino _ _ Hinv).
Qed.

(** ** The helpers of the handlers *)

Definition no_fs (ops : list StoreOp) : Prop := Forall (fun op => so_cf op <> Fs) ops.
Definition keys_bytes (ops : list StoreOp) : Prop := Forall (fun op => is_bytes (so_key op)) ops.
Definition file_page (s : store) (b p : Z) (name : bytes) : KvPage := seg_page s b (hier_routing_key p name).
Definition file_captured (s : store) (b p : Z) (name old : bytes) : list Slice :=
  extract Fs old ++ page_slices MetaSeg (file_page s b p name).
Lemma routing_bytes p name : is_bytes name -> is_bytes (hier_routing_key p name).
Proof. intros Hn. apply Forall_app. split; [apply be_bytes_bytes|done]. Qed.

Lemma capture_file_ok s b p name seq ts ops : store_wf s -> is_bytes name ->
  exists account, capture_old_file s b p name seq ts ops
    = Ok (ops ++ match ms_view s Fs !! entry_key b p name with
                 | None => []
                 | Some old => deletes MetaSeg (file_page s b p name)
                               ++ enqueue_ops b (hier_routing_key p name) seq ts 0 (file_captured s b p name old)
                 end, account).
Proof.
  intros [Ho Hk] Hb. unfold capture_old_file. rewrite ms_get_ok by done. cbv beta iota zeta. fold (entry_key b p name).
  destruct (ms_view s Fs !! entry_key b p name) as [old|]; [|eexists; by rewrite app_nil_r].
  rewrite !hier_key_flat. rewrite scan_prefix by (done || lia || by apply routing_bytes). rewrite iter_try_capture.
  cbv beta iota zeta. unfold enqueue_delete_slices. rewrite enqueue_chunks_puts. cbv beta iota zeta. cbn [fst snd].
  rewrite <- app_assoc. eexists. do 2 f_equal.
Qed.
Lemma elem_of_file_page s b p name k v : (forall cf, keys_ok (ms_view s cf)) ->
  ((k, v) ∈ file_page s b p name <-> ms_view s MetaSeg !! k = Some v /\ hier_key MetaSeg b p name [] `prefix_of` k).
Proof. intros Hk. unfold file_page, seg_page. rewrite hier_key_flat. by apply elem_of_prefix. Qed.
Lemma page_deletes_keys s b p name : (forall cf, keys_ok (ms_view s cf)) -> keys_bytes (deletes MetaSeg (file_page s b p name)).
Proof.
  intros Hk. eapply deletes_keys; [apply (Hk MetaSeg)|]. intros k v Hin. by apply (elem_of_file_page s b p name) in Hin as [? _].
Qed.
Lemma deletes_no_fs page : no_fs (deletes MetaSeg page).
Proof. unfold no_fs, deletes. apply Forall_fmap, Forall_true. done. Qed.
Lemma enqueue_no_fs b key seq ts i l : no_fs (enqueue_ops b key seq ts i l).
Proof. unfold no_fs, enqueue_ops. eapply Forall_impl; [apply puts_from_cf|]. cbn. congruence. Qed.
Lemma enqueue_keys b p name seq ts i l : is_bytes name -> keys_bytes (enqueue_ops b (hier_routing_key p name) seq ts i l).
Proof. intros Hn. apply puts_keys. intros j. by apply delq_key_bytes, routing_bytes. Qed.
Lemma capture_shape s b p name seq ts : store_wf s -> is_bytes name ->
  exists ops account, capture_old_file s b p name seq ts [] = Ok (ops, account) /\ no_fs ops /\ keys_bytes ops.
Proof.
  intros Hwf Hn. destruct (capture_file_ok s b p name seq ts [] Hwf Hn) as [account ->]. cbn [app]. eexists _, _. split; [done|].
  destruct (ms_view s Fs !! entry_key b p name); [|split; constructor]. split; apply Forall_app; split;
    [apply deletes_no_fs|apply enqueue_no_fs|apply page_deletes_keys, Hwf|by apply enqueue_keys].
Qed.
Lemma delete_segments_ok s b p name ops : store_wf s -> is_bytes name ->
  delete_segments s b p name ops = Ok (ops ++ deletes MetaSeg (file_page s b p name)).
Proof.
  intros [Ho Hk] Hn. unfold delete_segments. cbv zeta. rewrite hier_key_flat.
  rewrite scan_prefix by (done || lia || by apply routing_bytes). fold (seg_page s b (hier_routing_key p name)).
  fold (file_page s b p name). generalize (file_page s b p name). intros page. revert ops.
  induction page as [|kv page IH]; intros ops; cbn [iter_try]; [by rewrite app_nil_r|]. rewrite IH, <- app_assoc. done.
Qed.
Lemma put_file_segments_shape b p name i segs : is_bytes name ->
  no_fs (put_file_segments b p name i segs) /\ keys_bytes (put_file_segments b p name i segs).
Proof.
  intros Hn. revert i. induction segs as [|x segs IH]; intros i; [split; constructor|]. cbn [put_file_segments].
  destruct (IH (i + 1)) as [H1 H2]. split; constructor; try done. cbn [so_key StoreOp_put]. rewrite hier_key_flat.
  apply flat_key_bytes; [by apply routing_bytes|apply be_bytes_bytes].
Qed.

Lemma bump_ok s b i delta ts ops ino : ms_open s -> hier_inv (ms_view s Fs) ino -> is_u64 b -> is_u64 i ->
  exists bops, bump_sentinel_child_delta s b i delta ts ops = Ok (ops ++ bops)
    /\ view_ops Fs (ops ++ bops) (ms_view s Fs)
       = bump_view (ms_view s Fs) (view_ops Fs ops (ms_view s Fs)) b i delta ts
    /\ keys_bytes bops /\ Forall (fun op => so_cf op = Fs) bops.
Proof.
  intros Ho Hinv Hb Hi. unfold bump_sentinel_child_delta. rewrite ms_get_ok by done. cbv beta iota zeta. fold (sent_key b i).
  unfold bump_view. destruct (ms_view s Fs !! sent_key b i) as [v|] eqn:Hv.
  2: { exists []. rewrite app_nil_r. split; [done|]. split; [done|]. split; constructor. }
  destruct (hi_sentinel _ _ Hinv b i v Hb Hi Hv) as (d & Hd & _). unfold decode_fs. rewrite Hd. cbn.
  eexists. split; [done|]. rewrite Hd. rewrite view_ops_app, view_put1.
  split; [done|]. split; (constructor; [|constructor]); [apply sent_key_bytes|done].
Qed.
Lemma read_record_ok s b i name ino : ms_open s -> hier_inv (ms_view s Fs) ino -> is_u64 b -> is_u64 i ->
  exists r, fs_read_record s b i name = Ok r
    /\ match ms_view s Fs !! entry_key b i name with
       | None => r = None
       | Some v => exists x, r = Some x /\ from_slice v = Some x /\ ((exists d, x = FsSentinel d) <-> name = [])
       end.
Proof.
  intros Ho Hinv Hb Hi. unfold fs_read_record. rewrite ms_get_ok by done. cbv beta iota zeta. fold (entry_key b i name).
  destruct (ms_view s Fs !! entry_key b i name) as [v|] eqn:Hv; [|by eexists].
  destruct (decide (name = [])) as [->|Hn].
  - destruct (hi_sentinel _ _ Hinv b i v Hb Hi Hv) as (d & Hd & _). unfold decode_fs. rewrite Hd. cbn. eexists. split; [done|].
    exists (FsSentinel d). split; [done|]. split; [done|]. split; [done|]. intros _. by exists d.
  - destruct (hi_entry _ _ Hinv b i name v Hn Hv) as (x & Hx & Hns). unfold decode_fs. rewrite Hx. cbn. eexists. split; [done|].
    exists x. split; [done|]. split; [done|]. split; [intros [d ->]; by destruct (Hns d)|done].
Qed.

(** ** One changed entry *)

Definition few_entries (m : gmap bytes bytes) : Prop := Z.of_nat (size m) < 2 ^ 64 - 1.
Lemma child_count_le m b i : 0 <= child_count m b i <= Z.of_nat (size m).
Proof. unfold child_count. pose proof (map_subseteq_size _ _ (map_filter_subseteq (is_child b i) m)). unfold children. lia. Qed.
Lemma not_sentinel_file f : forall d, FsFile f <> FsSentinel d.
Proof. done. Qed.
Lemma not_sentinel_dir x : forall d, FsDir x <> FsSentinel d.
Proof. done. Qed.

Section OneDir.
Context (m : gmap bytes bytes) (ino : InoAllocator) (b i : Z) (name : bytes) (ts : Z).
Hypothesis (Hinv : hier_inv m ino) (Hb : is_u64 b) (Hi : is_u64 i) (Hfut : ~ future ino i) (Hfew : few_entries m).
Hypothesis (Hname : name <> []).

Lemma insert_changes v k : (<[entry_key b i name := v]> m : gmap bytes bytes) !! k <> m !! k -> exists n, n <> [] /\ k = entry_key b i n.
Proof. intros Hk. exists name. split; [done|]. destruct (decide (k = entry_key b i name)) as [->|Hne]; [done|]. by rewrite lookup_insert_ne in Hk. Qed.
Lemma insert_values (r : FsRecord) n v : (forall d, r <> FsSentinel d) ->
  (<[entry_key b i name := to_vec r]> m : gmap bytes bytes) !! entry_key b i n = Some v -> m !! entry_key b i n <> Some v ->
  exists r, from_slice v = Some r /\ forall d, r <> FsSentinel d.
Proof.
  intros Hr. rewrite lookup_insert_Some. intros [[_ <-]|[_ ?]]; [|done]. intros _. exists r. by rewrite from_to.
Qed.
Lemma insert_new_inv (r : FsRecord) : (forall d, r <> FsSentinel d) -> m !! entry_key b i name = None ->
  hier_inv (bump_view m (<[entry_key b i name := to_vec r]> m) b i 1 ts) ino.
Proof.
  intros Hr Hm. pose proof (child_count_le m b i). unfold few_entries in Hfew.
  apply dir_update; [done|done|done|done|apply insert_changes|intros n v _; by apply insert_values|by apply child_count_insert_new|lia].
Qed.
Lemma insert_old_inv (r : FsRecord) old : (forall d, r <> FsSentinel d) -> m !! entry_key b i name = Some old ->
  hier_inv (bump_view m (<[entry_key b i name := to_vec r]> m) b i 0 ts) ino.
Proof.
  intros Hr Hm. pose proof (child_count_le m b i). unfold few_entries in Hfew.
  apply dir_update; [done|done|done|done|apply insert_changes|intros n v _; by apply insert_values| |lia].
  rewrite (child_count_insert_old _ _ _ _ _ old) by done. lia.
Qed.
Lemma delete_inv old : m !! entry_key b i name = Some old ->
  hier_inv (bump_view m (delete (entry_key b i name) m) b i (-1) ts) ino.
Proof.
  intros Hm. pose proof (child_count_delete m b i name old Hname Hm) as Hc.
  pose proof (child_count_le (delete (entry_key b i name) m) b i). pose proof (child_count_le m b i). unfold few_entries in Hfew.
  apply dir_update; [done|done|done|done| | |lia|lia].
  - intros k Hk. exists name. split; [done|]. destruct (decide (k = entry_key b i name)) as [->|Hne]; [done|]. by rewrite lookup_delete_ne in Hk.
  - intros n v _. rewrite lookup_delete_Some. intros [_ ?]. done.
Qed.
(** The entry moves to another name. *)
Lemma rename_inv (r : FsRecord) from old : (forall d, r <> FsSentinel d) -> from <> [] -> from <> name ->
  m !! entry_key b i from = Some old ->
  hier_inv (bump_view m (delete (entry_key b i from) (<[entry_key b i name := to_vec r]> m)) b i
              (if decide (m !! entry_key b i name = None) then 0 else -1) ts) ino.
Proof.
  intros Hr Hf Hne Hm. set (mid := <[entry_key b i name := to_vec r]> m).
  assert (mid !! entry_key b i from = Some old) as Hmid.
  { unfold mid. rewrite lookup_insert_ne; [done|]. by intros E%entry_key_inj. }
  pose proof (child_count_delete mid b i from old Hf Hmid) as Hc.
  pose proof (child_count_le (delete (entry_key b i from) mid) b i). pose proof (child_count_le m b i). unfold few_entries in Hfew.
  assert (child_count mid b i = child_count m b i + if decide (m !! entry_key b i name = None) then 1 else 0) as Hcm.
  { case_decide as E; [by apply child_count_insert_new|]. destruct (m !! entry_key b i name) as [o|] eqn:Eo; [|done].
    unfold mid. rewrite (child_count_insert_old _ _ _ _ _ o) by done. lia. }
  apply dir_update; [done|done|done|done| | | |].
  - intros k Hk. destruct (decide (k = entry_key b i from)) as [->|Hk']; [by exists from|]. rewrite lookup_delete_ne in Hk by done.
    by apply (insert_changes (to_vec r)).
  - intros n v _. rewrite lookup_delete_Some. intros [_ Hv]. by apply (insert_values r).
  - destruct (decide _); lia.
  - destruct (decide _); lia.
Qed.
End OneDir.

(** ** Minting and removing a directory *)

Lemma mint_ok ino : is_Some (compose_ino (ia_tag ino) (ia_next ino)) -> is_u64 (ia_next ino) -> 0 <= ia_tag ino ->
  exists i ino', mint ino = Ok (i, ino') /\ future ino i /\ is_u64 i /\ ~ future ino' i
    /\ (forall j, future ino' j -> future ino j) /\ is_u64 (ia_next ino') /\ 0 <= ia_tag ino'.
Proof.
  intros [i Hi] Hu Ht. unfold mint. rewrite Hi. cbn [ok_or]. exists i. eexists. split; [done|].
  pose proof (ino_partition_tag_compose _ _ _ Ht (proj1 Hu) Hi) as (_ & Hmod & Hiu).
  assert (ia_next ino < 2 ^ 48) as Hlt.
  { rewrite compose_ino_spec in Hi by (try done; apply Hu). destruct (Z.ltb_spec (ia_next ino) (2 ^ 48)); [done|]. by rewrite andb_false_r in Hi. }
  assert (wrap 64 (ia_next ino + 1) = ia_next ino + 1) as Em.
  { unfold wrap, uint in *. apply Z.mod_small. lia. }
  rewrite Em. unfold future. cbn [ia_next ia_tag]. split; [by exists (ia_next ino)|]. split; [done|]. split.
  - intros (c & Hc & Hci). unfold uint in Hu.
    pose proof (ino_partition_tag_compose (ia_tag ino) c i Ht ltac:(lia) Hci) as (_ & Hmod' & _). lia.
  - split; [|unfold uint in *; lia]. intros j (c & Hc & Hj). exists c. split; [lia|done].
Qed.
Lemma hier_inv_mono m ino ino' : hier_inv m ino -> (forall j, future ino' j -> future ino j) ->
  is_u64 (ia_next ino') -> 0 <= ia_tag ino' -> hier_inv m ino'.
Proof.
  intros [H1 H2 H3 H4] Hf Hu Ht. constructor; [exact H1|exact H2| |done]. intros b i k v Hb Hfi. apply H3; auto.
Qed.
Lemma fresh_dir_empty m ino b i : hier_inv m ino -> is_u64 b -> future ino i ->
  m !! sent_key b i = None /\ child_count m b i = 0.
Proof.
  intros Hinv Hb Hf. split.
  - destruct (m !! sent_key b i) as [v|] eqn:E; [|done]. by destruct (hi_future _ _ Hinv b i _ v Hb Hf E).
  - unfold child_count. enough (children m b i = ∅) as -> by done. apply map_empty. intros k. unfold children.
    apply map_lookup_filter_None. destruct (m !! k) as [v|] eqn:E; [right|by left]. intros v' E' [Hp _].
    by eapply (hi_future _ _ Hinv b i k v).
Qed.
Lemma mkdir_inv m ino ino' b i d : hier_inv m ino -> is_u64 b -> is_u64 i -> future ino i -> ~ future ino' i ->
  (forall j, future ino' j -> future ino j) -> is_u64 (ia_next ino') -> 0 <= ia_tag ino' ->
  dr_entry_count d = Exact 0 -> hier_inv (<[sent_key b i := to_vec (FsSentinel d)]> m) ino'.
Proof.
  intros Hinv Hb Hi Hf Hnf Hmono Hu Ht Hd. destruct (fresh_dir_empty m ino b i Hinv Hb Hf) as [Hs Hc]. constructor.
  - intros b' i' v Hb' Hi'. rewrite child_count_sent by done. rewrite lookup_insert_Some.
    intros [[E <-]|[_ Hv]]; [|by apply (hi_sentinel _ _ Hinv)]. apply sent_key_inj in E as [<- <-]; [|done..].
    exists d. split; [apply from_to|]. intros n. rewrite Hd, Hc. congruence.
  - intros b' i' name v Hn. rewrite lookup_insert_ne; [by apply (hi_entry _ _ Hinv)|]. intros E. symmetry in E. by apply entry_key_ne_sent in E.
  - intros b' i' k v Hb' Hf' Hv Hp. apply lookup_insert_Some in Hv as [[<- _]|[_ Hv]].
    + destruct (prefix_sent_inj b' i' b i (sent_key b i) Hb') as [_ ->]; try done. by eapply future_u64.
    + by eapply (hi_future _ _ Hinv b' i' k v); auto.
  - done.
Qed.
Lemma rmdir_inv m ino b i : hier_inv m ino -> is_u64 b -> is_u64 i -> hier_inv (delete (sent_key b i) m) ino.
Proof.
  intros Hinv Hb Hi.
  assert (forall b' i', is_u64 b' -> is_u64 i' -> child_count (delete (sent_key b i) m) b' i' = child_count m b' i') as Hc.
  { intros b' i' Hb' Hi'. apply child_count_ext. intros k v Hk. apply lookup_delete_ne. intros <-. by eapply (sent_not_child b i b' i'). }
  constructor.
  - intros b' i' v Hb' Hi' [_ Hv]%lookup_delete_Some. rewrite Hc by done. by apply (hi_sentinel _ _ Hinv).
  - intros b' i' name v Hn [_ Hv]%lookup_delete_Some. by apply (hi_entry _ _ Hinv) in Hv.
  - intros b' i' k v Hb' Hf [_ Hv]%lookup_delete_Some. by eapply (hi_future _ _ Hinv b' i' k v).
  - apply (hi_ino _ _ Hinv).
Qed.

(** ** Every operation *)

Definition dir_at (ino : InoAllocator) (b p : Z) (name : bytes) : Prop :=
  is_u64 b /\ is_u64 p /\ is_bytes name /\ ~ future ino p.
(** Operations on directories that were minted: not on one whose inode is still to be
    given out. The root is one of the latter on a bootstrap partition until its counter,
    which starts at 0, is past [ROOT_INO] ([fresh_root_miscounts]); on the child of a
    split, whose inodes carry a tag, it never is. *)
Definition hier_op_ok (ino : InoAllocator) (op : HierOp) : Prop :=
  match op with
  | HWrite b p name _ _ _ _ _ | HUnlink b p name _ | HMkdirLink b p name _ _ | HRmdirUnlink b p name _ => dir_at ino b p name
  | HMkdirSentinel b _ _ _ => is_u64 b
  | HRmdirSentinel b i _ => is_u64 b /\ is_u64 i
  | HRenameSameDir b p from to _ => dir_at ino b p from /\ is_bytes to /\ to <> []
  end.
(** A batch whose effect on the primary family is [m']. *)
Definition hier_step (m : gmap bytes bytes) (ops : list StoreOp) (ino : InoAllocator) : Prop :=
  keys_bytes ops /\ hier_inv (view_ops Fs ops m) ino.
Lemma nop_hier_step m ino : hier_inv m ino -> hier_step m [] ino.
Proof. intros. split; [constructor|done]. Qed.
Lemma view_no_fs ops m : no_fs ops -> view_ops Fs ops m = m.
Proof. apply view_ops_other. Qed.

Section Cases.
Context (s : store) (ino : InoAllocator) (b p : Z) (name : bytes) (seq ts : Z).
Hypothesis (Hwf : store_wf s) (Hinv : hier_inv (ms_view s Fs) ino) (Hfew : few_entries (ms_view s Fs)).
Hypothesis (Hat : dir_at ino b p name).

(** Captured segments, the new record at [name], its segments, the parent bumped. *)
Lemma put_entry_step (pre post : list StoreOp) (r : FsRecord) (delta : Z) ino' :
  name <> [] -> (forall d, r <> FsSentinel d) -> no_fs pre -> keys_bytes pre -> no_fs post -> keys_bytes post ->
  delta = (if decide (ms_view s Fs !! entry_key b p name = None) then 1 else 0) ->
  (forall j, future ino' j -> future ino j) -> is_u64 (ia_next ino') -> 0 <= ia_tag ino' ->
  exists ops, bump_sentinel_child_delta s b p delta ts (pre ++ [StoreOp_put Fs (entry_key b p name) (to_vec r)] ++ post) = Ok ops
    /\ hier_step (ms_view s Fs) ops ino'.
Proof.
  destruct Hat as (Hb & Hp & Hn & Hfut). intros Hne Hr H1 H2 H3 H4 -> Hmono Hu Ht. set (ops := pre ++ _ ++ post).
  destruct (bump_ok s b p (if decide (ms_view s Fs !! entry_key b p name = None) then 1 else 0) ts ops ino (proj1 Hwf) Hinv Hb Hp)
    as (bops & -> & Hv & Hk & _).
  eexists. split; [done|]. split.
  - apply Forall_app. split; [|done]. apply Forall_app. split; [done|]. apply Forall_app. split; [|done].
    constructor; [by apply entry_key_bytes|constructor].
  - rewrite Hv. unfold ops. rewrite !view_ops_app, (view_no_fs pre), (view_no_fs post), view_put1 by done.
    apply (hier_inv_mono _ ino); try done. case_decide as E; [by apply insert_new_inv|].
    destruct (ms_view s Fs !! entry_key b p name) as [old|] eqn:Eo; [|done]. by apply (insert_old_inv _ _ _ _ _ _ Hinv Hb Hp Hfut Hfew Hne _ old).
Qed.
Lemma delete_entry_step (pre : list StoreOp) old : name <> [] -> ms_view s Fs !! entry_key b p name = Some old ->
  no_fs pre -> keys_bytes pre ->
  exists ops, bump_sentinel_child_delta s b p (-1) ts (pre ++ [StoreOp_delete Fs (entry_key b p name)]) = Ok ops
    /\ hier_step (ms_view s Fs) ops ino.
Proof.
  destruct Hat as (Hb & Hp & Hn & Hfut). intros Hne Hold H1 H2. set (ops := pre ++ _).
  destruct (bump_ok s b p (-1) ts ops ino (proj1 Hwf) Hinv Hb Hp) as (bops & -> & Hv & Hk & _). eexists. split; [done|]. split.
  - apply Forall_app. split; [|done]. apply Forall_app. split; [done|]. constructor; [by apply entry_key_bytes|constructor].
  - rewrite Hv. unfold ops. rewrite view_ops_app, (view_no_fs pre), view_delete1 by done.
    by apply (delete_inv _ _ _ _ _ _ Hinv Hb Hp Hfut Hfew Hne old).
Qed.

Lemma write_step size etag content http : is_Some (compose_ino (ia_tag ino) (ia_next ino)) ->
  exists o ino', apply_write s b p name size etag content http ts seq ino = Ok (o, ino') /\ hier_step (ms_view s Fs) (ao_ops o) ino'.
Proof.
  intros Hc. pose proof Hat as (Hb & Hp & Hn & Hfut). unfold apply_write. fold (entry_key b p name).
  case_decide as Hne; [eexists _, _; split; [done|by apply nop_hier_step]|].
  destruct (read_record_ok s b p name ino (proj1 Hwf) Hinv Hb Hp) as (rec & -> & Hrec).
  destruct (capture_shape s b p name seq ts Hwf Hn) as (cops & [[oi oc] ot] & Hcap & Hc1 & Hc2).
  destruct (mint_ok ino Hc (proj1 (hi_ino _ _ Hinv)) (proj2 (hi_ino _ _ Hinv))) as (i & ino' & Hmint & _ & _ & _ & Hmono & Hu & Ht).
  destruct (ms_view s Fs !! entry_key b p name) as [old|] eqn:Eold.
  - destruct Hrec as (x & -> & _ & Hx). destruct x as [f|x|x]; [|eexists _, _; split; [done|by apply nop_hier_step]..].
    cbv beta iota zeta. rewrite Hcap. cbv beta iota zeta. destruct (pack_file _) as [packed segs].
    destruct (put_file_segments_shape b p name 0 segs Hn) as [Hg1 Hg2].
    edestruct (put_entry_step cops (put_file_segments b p name 0 segs) (FsFile packed) 0 ino) as (ops & E & Hs);
      [done|done|done|done|done|done|by rewrite decide_False by congruence|done|apply (hi_ino _ _ Hinv)..|].
    fold (entry_key b p name). rewrite E. cbv beta iota zeta. destruct (ContentHead_inline_account _). eexists _, _. split; [done|exact Hs].
  - rewrite Hrec. cbv beta iota zeta. rewrite Hmint. cbn [fst snd]. cbv beta iota zeta. rewrite Hcap. cbv beta iota zeta.
    destruct (pack_file _) as [packed segs]. destruct (put_file_segments_shape b p name 0 segs Hn) as [Hg1 Hg2].
    edestruct (put_entry_step cops (put_file_segments b p name 0 segs) (FsFile packed) 1 ino') as (ops & E & Hs);
      [done|done|done|done|done|done|by rewrite decide_True|done..|].
    fold (entry_key b p name). rewrite E. cbv beta iota zeta. destruct (ContentHead_inline_account _). eexists _, _. split; [done|exact Hs].
Qed.

Lemma unlink_step : exists o, apply_unlink s b p name seq ts = Ok o /\ hier_step (ms_view s Fs) (ao_ops o) ino.
Proof.
  pose proof Hat as (Hb & Hp & Hn & Hfut). unfold apply_unlink.
  destruct (read_record_ok s b p name ino (proj1 Hwf) Hinv Hb Hp) as (rec & -> & Hrec).
  destruct (ms_view s Fs !! entry_key b p name) as [old|] eqn:Eold; [|rewrite Hrec; eexists; split; [done|by apply nop_hier_step]].
  destruct Hrec as (x & -> & _ & Hx). destruct x as [f|x|x]; [|eexists; split; [done|by apply nop_hier_step]..].
  destruct (capture_shape s b p name seq ts Hwf Hn) as (cops & [[oi oc] ot] & Hcap & Hc1 & Hc2). cbv beta iota zeta. rewrite Hcap.
  cbv beta iota zeta. fold (entry_key b p name).
  destruct (delete_entry_step cops old) as (ops & E & Hs); [intros [? [=]]%Hx|done|done|done|]. rewrite E. eexists. split; [done|exact Hs].
Qed.
Lemma mkdir_link_step child : exists o, apply_mkdir_link s b p name child ts = Ok o /\ hier_step (ms_view s Fs) (ao_ops o) ino.
Proof.
  pose proof Hat as (Hb & Hp & Hn & Hfut). unfold apply_mkdir_link. fold (entry_key b p name).
  case_decide as Hne; [eexists; split; [done|by apply nop_hier_step]|].
  destruct (read_record_ok s b p name ino (proj1 Hwf) Hinv Hb Hp) as (rec & -> & Hrec).
  destruct (ms_view s Fs !! entry_key b p name) as [old|] eqn:Eold.
  - destruct Hrec as (x & -> & _ & Hx). destruct x as [f|x|x]; cbv beta iota zeta.
    + eexists. split; [done|by apply nop_hier_step].
    + destruct (_ =? _); eexists; (split; [done|by apply nop_hier_step]).
    + destruct Hne. apply Hx. by eexists.
  - rewrite Hrec. cbv beta iota zeta.
    destruct (put_entry_step [] [] (FsDir {| de_ino := child |}) 1 ino) as (ops & E & Hs);
      [done|done|constructor|constructor|constructor|constructor|by rewrite decide_True|done|apply (hi_ino _ _ Hinv)..|].
    cbn [app] in E. rewrite E. eexists. split; [done|exact Hs].
Qed.
Lemma rmdir_unlink_step : exists o, apply_rmdir_unlink s b p name ts = Ok o /\ hier_step (ms_view s Fs) (ao_ops o) ino.
Proof.
  pose proof Hat as (Hb & Hp & Hn & Hfut). unfold apply_rmdir_unlink. fold (entry_key b p name).
  destruct (read_record_ok s b p name ino (proj1 Hwf) Hinv Hb Hp) as (rec & -> & Hrec).
  destruct (ms_view s Fs !! entry_key b p name) as [old|] eqn:Eold; [|rewrite Hrec; eexists; split; [done|by apply nop_hier_step]].
  destruct Hrec as (x & -> & _ & Hx). destruct x as [f|x|x]; cbv beta iota zeta; [eexists; split; [done|by apply nop_hier_step]| |eexists; split; [done|by apply nop_hier_step]].
  destruct (delete_entry_step [] old) as (ops & E & Hs); [intros [? [=]]%Hx|done|constructor..|]. cbn [app] in E. rewrite E.
  eexists. split; [done|exact Hs].
Qed.
Lemma move_entry_step (pre segs : list StoreOp) (to old : bytes) (r : FsRecord) (delta : Z) :
  name <> [] -> to <> [] -> name <> to -> is_bytes to -> (forall d, r <> FsSentinel d) ->
  no_fs pre -> keys_bytes pre -> no_fs segs -> keys_bytes segs -> ms_view s Fs !! entry_key b p name = Some old ->
  delta = (if decide (ms_view s Fs !! entry_key b p to = None) then 0 else -1) ->
  exists ops, bump_sentinel_child_delta s b p delta ts
      ((pre ++ [StoreOp_put Fs (entry_key b p to) (to_vec r)] ++ segs ++ [StoreOp_delete Fs (entry_key b p name)])
       ++ deletes MetaSeg (file_page s b p name)) = Ok ops
    /\ hier_step (ms_view s Fs) ops ino.
Proof.
  destruct Hat as (Hb & Hp & Hn & Hfut). intros Hnn Htn Hne Hto Hr H1 H2 H3 H4 Hold ->. set (ops := _ ++ deletes _ _).
  destruct (bump_ok s b p (if decide (ms_view s Fs !! entry_key b p to = None) then 0 else -1) ts ops ino (proj1 Hwf) Hinv Hb Hp)
    as (bops & -> & Hv & Hk & _).
  eexists. split; [done|]. split.
  - apply Forall_app. split; [|done]. apply Forall_app. split; [|apply page_deletes_keys, Hwf].
    apply Forall_app. split; [done|]. apply Forall_app. split; [constructor; [by apply entry_key_bytes|constructor]|].
    apply Forall_app. split; [done|constructor; [by apply entry_key_bytes|constructor]].
  - rewrite Hv. unfold ops. rewrite !view_ops_app, (view_no_fs pre), (view_no_fs segs), (view_no_fs (deletes _ _)), view_put1, view_delete1
      by (done || apply deletes_no_fs).
    by apply (rename_inv _ _ _ _ _ _ Hinv Hb Hp Hfut Hfew Htn r name old).
Qed.
Lemma rename_step to : is_bytes to -> to <> [] ->
  exists o, apply_rename_same_dir s b p name to seq ts = Ok o /\ hier_step (ms_view s Fs) (ao_ops o) ino.
Proof.
  intros Hto Htn. pose proof Hat as (Hb & Hp & Hn & Hfut). unfold apply_rename_same_dir. fold (entry_key b p name).
  case_decide as Hne; [eexists; split; [done|by apply nop_hier_step]|].
  destruct (read_record_ok s b p name ino (proj1 Hwf) Hinv Hb Hp) as (rec & -> & Hrec).
  destruct (ms_view s Fs !! entry_key b p name) as [old|] eqn:Eold; [|rewrite Hrec; eexists; split; [done|by apply nop_hier_step]].
  destruct Hrec as (x & -> & _ & Hx). destruct x as [f|x|x]; [|eexists; split; [done|by apply nop_hier_step]..].
  assert (name <> []) as Hnn by intros [? [=]]%Hx.
  destruct (read_record_ok s b p to ino (proj1 Hwf) Hinv Hb Hp) as (dest & -> & Hdest).
  destruct (capture_shape s b p to seq ts Hwf Hto) as (cops & [[oi oc] ot] & Hcap & Hc1 & Hc2).
  cbv beta iota zeta. destruct dest as [[g|x|x]|]; try (eexists; split; [done|by apply nop_hier_step]);
    rewrite Hcap; cbv beta iota zeta;
    destruct (pack_file _) as [moved segs]; destruct (put_file_segments_shape b p to 0 segs Hto) as [Hg1 Hg2];
    rewrite delete_segments_ok by done; cbv beta iota zeta; fold (entry_key b p to).
  - edestruct (move_entry_step cops (put_file_segments b p to 0 segs) to old (FsFile moved) (-1)) as (ops & E & Hs); try done.
    { destruct (ms_view s Fs !! entry_key b p to); [by rewrite decide_False|done]. }
    rewrite E. eexists. split; [done|exact Hs].
  - edestruct (move_entry_step cops (put_file_segments b p to 0 segs) to old (FsFile moved) 0) as (ops & E & Hs); try done.
    { destruct (ms_view s Fs !! entry_key b p to); [by destruct Hdest as (? & ? & _)|by rewrite decide_True]. }
    rewrite E. eexists. split; [done|exact Hs].
Qed.
End Cases.

Lemma mkdir_sentinel_step s ino b p name ts : store_wf s -> hier_inv (ms_view s Fs) ino -> is_u64 b ->
  is_Some (compose_ino (ia_tag ino) (ia_next ino)) ->
  exists o ino', apply_mkdir_sentinel s b p name ts ino = Ok (o, ino') /\ hier_step (ms_view s Fs) (ao_ops o) ino'.
Proof.
  intros Hwf Hinv Hb Hc. unfold apply_mkdir_sentinel.
  destruct (mint_ok ino Hc (proj1 (hi_ino _ _ Hinv)) (proj2 (hi_ino _ _ Hinv))) as (i & ino' & -> & Hf & Hi & Hnf & Hmono & Hu & Ht).
  cbv beta iota zeta. rewrite ms_get_ok by apply Hwf. fold (sent_key b i).
  destruct (fresh_dir_empty _ _ b i Hinv Hb Hf) as [-> _]. cbv beta iota zeta. eexists _, _. split; [done|]. split.
  - constructor; [apply sent_key_bytes|constructor].
  - cbn [ao_ops ApplyOutcome_no_delta]. rewrite view_put1. by apply (mkdir_inv _ ino).
Qed.
(** A directory is removed only when it has no children. *)
Lemma has_children_ok s b i : store_wf s -> is_u64 b -> is_u64 i -> is_Some (ms_view s Fs !! sent_key b i) ->
  directory_has_children s b i = Ok (negb (child_count (ms_view s Fs) b i =? 0)).
Proof.
  intros [Ho Hk] Hb Hi [v Hv]. unfold directory_has_children.
  replace (MetaCf_tag Fs :: be_bytes 8 b ++ be_bytes 8 i) with (flat_key Fs b (be_bytes 8 i) [])
    by (unfold flat_key; by rewrite app_nil_r).
  cbv zeta. rewrite ms_scan_ok by (done || by apply prefix_end_or_le, be_bytes_bytes). cbv beta iota zeta. f_equal.
  set (page := range _ _ _).
  assert (forall k x, (k, x) ∈ page <-> ms_view s Fs !! k = Some x /\ sent_key b i `prefix_of` k) as Hin.
  { intros k x. rewrite sent_key_flat. by apply elem_of_prefix. }
  assert (page ≡ₚ (sent_key b i, v) :: map_to_list (children (ms_view s Fs) b i)) as Hperm.
  { apply NoDup_Permutation.
    - apply (NoDup_fmap_1 fst), sorted_nodup, range_sorted.
    - constructor; [|apply NoDup_map_to_list]. rewrite elem_of_map_to_list. intros [_ [_ ?]]%map_lookup_filter_Some. done.
    - intros [k x]. rewrite Hin, elem_of_cons, elem_of_map_to_list. unfold children. rewrite map_lookup_filter_Some. unfold is_child.
      cbn [fst]. destruct (decide (k = sent_key b i)) as [->|Hne].
      + rewrite Hv. split; [intros [[= <-] _]; by left|]. intros [[= <-]|[_ [_ ?]]]; [|done]. by split.
      + split; [intros [? ?]; by right|]. intros [[= -> _]|[? [? _]]]; done. }
  apply Permutation_length in Hperm. cbn [length] in Hperm. rewrite length_map_to_list in Hperm. unfold child_count.
  rewrite length_take, Hperm. destruct (size _) as [|n]; [done|].
  destruct (Z.eqb_spec (Z.of_nat (S n)) 0); [lia|]. cbn [negb]. apply Nat.ltb_lt. lia.
Qed.
Lemma rmdir_sentinel_step s ino b i ts : store_wf s -> hier_inv (ms_view s Fs) ino -> is_u64 b -> is_u64 i ->
  exists o, apply_rmdir_sentinel s b i ts = Ok o /\ hier_step (ms_view s Fs) (ao_ops o) ino.
Proof.
  intros Hwf Hinv Hb Hi. unfold apply_rmdir_sentinel. rewrite ms_get_ok by apply Hwf. cbv beta iota zeta. fold (sent_key b i).
  destruct (ms_view s Fs !! sent_key b i) as [v|] eqn:Hv; [|eexists; split; [done|by apply nop_hier_step]].
  rewrite has_children_ok by (done || by eexists). destruct (negb _); [eexists; split; [done|by apply nop_hier_step]|].
  eexists. split; [done|]. split; [constructor; [apply sent_key_bytes|constructor]|]. cbn [ao_ops ApplyOutcome_no_delta].
  rewrite view_delete1. by apply rmdir_inv.
Qed.

Lemma hier_apply_ok (s : store) (op : HierOp) (seq : Z) (ino : InoAllocator) :
  ms_open s -> (forall cf, keys_ok (ms_view s cf)) -> hier_inv (ms_view s Fs) ino -> few_entries (ms_view s Fs) ->
  hier_op_ok ino op -> is_Some (compose_ino (ia_tag ino) (ia_next ino)) ->
  exists o ino' s', hier_apply s op seq ino = Ok (o, ino') /\ ms_apply s (ao_ops o) = Ok s'
    /\ ms_open s' /\ (forall cf, keys_ok (ms_view s' cf)) /\ hier_inv (ms_view s' Fs) ino'.
Proof.
  intros Ho Hk Hinv Hfew Hop Hc. assert (store_wf s) as Hwf by done.
  assert (exists o ino', hier_apply s op seq ino = Ok (o, ino') /\ hier_step (ms_view s Fs) (ao_ops o) ino') as (o & ino' & E & Hkb & Hi').
  { destruct op; cbn [hier_apply hier_op_ok] in *.
    - by apply write_step.
    - destruct (unlink_step s ino bucket parent_ino name seq ts_millis) as (o & -> & ?); eauto.
    - by apply mkdir_sentinel_step.
    - destruct (mkdir_link_step s ino bucket parent_ino name ts_millis Hwf Hinv Hfew Hop child_ino) as (o & -> & ?); eauto.
    - destruct (rmdir_unlink_step s ino bucket parent_ino name ts_millis) as (o & -> & ?); eauto.
    - destruct (rmdir_sentinel_step s ino bucket ino0 ts_millis) as (o & -> & ?); [done|done|tauto..|eauto].
    - destruct Hop as (Hat & Hto & Htn).
      destruct (rename_step s ino bucket parent_ino from seq ts_millis Hwf Hinv Hfew Hat to Hto Htn) as (o & -> & ?). eauto. }
  destruct (ms_apply_ok s (ao_ops o) Ho) as (s' & Es & Ho' & Hv). exists o, ino', s'. split; [done|]. split; [done|]. split; [done|].
  split; [|by rewrite Hv]. intros cf. rewrite Hv. by apply view_ops_keys.
Qed.


(** C33: the child count of every directory stays exact, for operations on directories
    whose inode is minted already, with an inode left to mint. From a partition whose sentinels count their
    children, every such operation of the hierarchical namespace succeeds and its batch
    leaves a partition of the same kind: each sentinel that counts exactly counts the
    names under its inode, sentinels stay at the empty name and files and links at the
    others, and nothing lives under an inode that is still to be minted. The one
    directory a client can name before it is minted is the root of a bootstrap
    partition; there the count is wrong: [fresh_root_miscounts]. *)
Theorem hier_counts_exact (s : store) (op : HierOp) (seq : Z) (ino : InoAllocator) :
  ms_open s -> (forall cf, keys_ok (ms_view s cf)) -> hier_inv (ms_view s Fs) ino -> few_entries (ms_view s Fs) ->
  hier_op_ok ino op -> is_Some (compose_ino (ia_tag ino) (ia_next ino)) ->
  exists o ino' s', hier_apply s op seq ino = Ok (o, ino') /\ ms_apply s (ao_ops o) = Ok s'
    /\ ms_open s' /\ (forall cf, keys_ok (ms_view s' cf)) /\ hier_inv (ms_view s' Fs) ino'.
Proof. apply hier_apply_ok. Qed.

(** Renaming a file loses its overflow slices. The handler packs the record
    it read, which holds only the slices embedded in the head, and deletes the
    segments of the old name: the file under the new name keeps its size but counts
    no segment, no segment of the old name is left, and the delete queue gains
    nothing, so the slices of the segments are referenced nowhere. *)
Theorem rename_truncates (s : store) (b p : Z) (from to : bytes) (file : FileRecord) (embedded : list Slice)
    (segment : SliceSegment) (seq ts : Z) (ino : InoAllocator) :
  ms_open s -> (forall cf, keys_ok (ms_view s cf)) -> hier_inv (ms_view s Fs) ino ->
  is_u64 b -> is_u64 p -> is_bytes from -> is_bytes to -> to <> [] ->
  ms_view s Fs !! entry_key b p from = Some (to_vec (FsFile file)) ->
  ms_view s Fs !! entry_key b p to = None ->
  fr_content file = Slices embedded -> (length embedded <= HEAD_EMBEDDED_SLICES)%nat ->
  ms_view s MetaSeg !! hier_key MetaSeg b p from (suffix_seg_no 0) = Some (to_vec segment) ->
  exists o s' moved, hier_apply s (HRenameSameDir b p from to ts) seq ino = Ok (o, ino) /\ ms_apply s (ao_ops o) = Ok s'
    /\ lookup_ s' b p to = Ok (Some (FsFile moved))
    /\ fr_content moved = Slices embedded /\ fr_seg_count moved = 0 /\ fr_size moved = fr_size file
    /\ (forall k, hier_key MetaSeg b p from [] `prefix_of` k -> ms_view s' MetaSeg !! k = None)
    /\ ms_view s' Delq = ms_view s Delq.
Proof.
  intros Ho Hk Hinv Hb Hp Hfrom Hto Htn Hff Hft Hc Hl Hseg. assert (store_wf s) as Hwf by done.
  assert (from <> to) as Hne by (intros ->; congruence). cbn [hier_apply]. unfold apply_rename_same_dir. rewrite decide_False by done.
  destruct (read_record_ok s b p from ino Ho Hinv Hb Hp) as (r1 & -> & Hr1). rewrite Hff in Hr1. destruct Hr1 as (x & -> & Hx & _).
  rewrite from_to in Hx. injection Hx as <-.
  destruct (read_record_ok s b p to ino Ho Hinv Hb Hp) as (r2 & -> & Hr2). rewrite Hft in Hr2. rewrite Hr2. cbv beta iota zeta.
  destruct (capture_file_ok s b p to seq ts [] Hwf Hto) as [[[oi oc] ot] ->]. rewrite Hft. cbv beta iota zeta.
  unfold pack_file. cbn [fr_content]. rewrite Hc. unfold split_slices. rewrite (proj2 (Nat.leb_le _ _) Hl). cbv beta iota zeta.
  cbn [put_file_segments app]. rewrite delete_segments_ok by done. cbv beta iota zeta. fold (entry_key b p from) (entry_key b p to).
  set (moved := file_with _ _ _). set (ops := _ ++ deletes _ _).
  destruct (bump_ok s b p 0 ts ops ino Ho Hinv Hb Hp) as (bops & E & Hv & _ & Hbfs). rewrite E. cbv beta iota zeta.
  destruct (ms_apply_ok s (ops ++ bops) Ho) as (s' & Es & Ho' & Hv'). eexists _, s', moved. split; [done|]. split; [exact Es|].
  assert (forall cf, cf <> Fs -> view_ops cf bops (view_ops cf ops (ms_view s cf)) = view_ops cf ops (ms_view s cf)) as Hbops.
  { intros cf Hcf. apply view_ops_other. eapply Forall_impl; [exact Hbfs|]. cbn. congruence. }
  split; [|split; [done|split; [done|split; [done|split]]]].
  - unfold lookup_, fs_read_record. rewrite ms_get_ok, Hv', Hv by done. fold (entry_key b p to). rewrite bump_view_entry by done.
    unfold ops. rewrite view_ops_app, (view_no_fs (deletes _ _)) by apply deletes_no_fs. rewrite !view_ops_cons, view_op_put, view_op_delete.
    cbn [view_ops foldl]. rewrite lookup_delete_ne, lookup_insert_eq by (by intros ?%entry_key_inj). unfold decode_fs. by rewrite from_to.
  - intros k Hpre. rewrite Hv', view_ops_app, Hbops by done. unfold ops. rewrite view_ops_app.
    rewrite (view_ops_other MetaSeg (_ :: _)) by (repeat constructor; done). rewrite view_deletes_lookup.
    case_bool_decide as Hin; [done|]. destruct (ms_view s MetaSeg !! k) as [v|] eqn:Ev; [|done]. exfalso. apply Hin, list_elem_of_fmap.
    exists (k, v). split; [done|]. by apply elem_of_file_page.
  - rewrite Hv', view_ops_app, Hbops by done. unfold ops. rewrite view_ops_app, view_deletes_other by done.
    by rewrite view_ops_other by (repeat constructor; done).
Qed.
End HierProps.

(** *** Examples *)

Definition ex_ino : InoAllocator := {| ia_tag := 3; ia_next := 4 |}.
Definition ex_dir : Z := 3 * 2 ^ 48 + 4.
Definition ex_hbucket : Z := HIER_BUCKET_BIT + 1.
Definition ex_write (p : Z) (name : bytes) : HierOp :=
  HWrite ex_hbucket p name 100 [] (Slices (ex_slice <$> seqZ 0 66)) HttpMeta_default 2.

Lemma empty_hier_inv tag next : is_u64 next -> 0 <= tag -> hier_inv ∅ {| ia_tag := tag; ia_next := next |}.
Proof. intros Hu Ht. constructor; try done; intros *; rewrite ?lookup_empty; done. Qed.
Lemma not_future ino i : 0 <= ia_tag ino -> 0 <= ia_next ino -> i mod 2 ^ 48 < ia_next ino -> ~ future ino i.
Proof.
  intros Ht Hn Hi (c & Hc & E). pose proof (ino_partition_tag_compose (ia_tag ino) c i Ht ltac:(lia) E) as (_ & Hm & _). lia.
Qed.

(** A directory is made and a file written into it. *)
Lemma hier_counts_exact_witness :
  exists o1 ino1 s1 o2 ino2 s2,
    hier_apply (MS := mem_store) ∅ (HMkdirSentinel ex_hbucket 1 [100] 1) 0 ex_ino = Ok (o1, ino1)
    /\ ao_response o1 = MintedIno ex_dir /\ MemEngine_apply ∅ (ao_ops o1) = Ok s1
    /\ hier_apply (MS := mem_store) s1 (ex_write ex_dir [97]) 1 ino1 = Ok (o2, ino2) /\ MemEngine_apply s1 (ao_ops o2) = Ok s2
    /\ hier_inv (mem_view s2 Fs) ino2.
Proof.
  destruct (hier_counts_exact (MS := mem_store) ∅ (HMkdirSentinel ex_hbucket 1 [100] 1) 0 ex_ino)
    as (o1 & ino1 & s1 & E1 & Es1 & Ho1 & Hk1 & Hi1).
  - exact I.
  - intros cf k v Hk. discriminate Hk.
  - apply empty_hier_inv; [vm_compute; split; congruence|vm_compute; congruence].
  - vm_compute. reflexivity.
  - vm_compute. split; congruence.
  - eexists. vm_compute. reflexivity.
  - assert (ao_response o1 = MintedIno ex_dir /\ ino1 = {| ia_tag := 3; ia_next := 5 |}) as [Hr Eino]
      by (vm_compute in E1; injection E1 as <- <-; split; reflexivity).
    destruct (hier_counts_exact (MS := mem_store) s1 (ex_write ex_dir [97]) 1 ino1 Ho1 Hk1 Hi1) as (o2 & ino2 & s2 & E2 & Es2 & _ & _ & Hi2).
    + vm_compute in E1. injection E1 as <- <-. vm_compute in Es1. injection Es1 as <-. vm_compute. reflexivity.
    + rewrite Eino. split; [vm_compute; split; congruence|]. split; [vm_compute; split; congruence|].
      split; [apply (bool_decide_unpack _); vm_compute; exact I|]. apply not_future; vm_compute; congruence.
    + rewrite Eino. eexists. vm_compute. reflexivity.
    + exists o1, ino1, s1, o2, ino2, s2. split; [exact E1|]. split; [exact Hr|]. split; [exact Es1|]. split; [exact E2|]. split; [exact Es2|exact Hi2].
Defined.

(** A bootstrap partition: a file is written into the root and a directory is made,
    which gets the root's inode; the sentinel counts no entry, and there is one. *)
Definition ex_hier_run (op : HierOp) (seq : Z) (p : MemEngine * InoAllocator) : MemEngine * InoAllocator :=
  match hier_apply (MS := mem_store) p.1 op seq p.2 with
  | Ok (o, ino) => match MemEngine_apply p.1 (ao_ops o) with Ok s => (s, ino) | Err _ => p end
  | Err _ => p
  end.
Theorem fresh_root_miscounts :
  let '(s, _) := ex_hier_run (HMkdirSentinel ex_hbucket 1 [100] 1) 1 (ex_hier_run (ex_write 1 [120]) 0 (∅, {| ia_tag := 0; ia_next := 0 |})) in
  match lookup_ (MS := mem_store) s ex_hbucket 1 [], readdir (MS := mem_store) s ex_hbucket 1 None 8 with
  | Ok (Some (FsSentinel d)), Ok entries => dr_entry_count d = Exact 0 /\ entries.*1 = [[120]]
  | _, _ => False
  end.
Proof. vm_compute. split; reflexivity. Qed.

(** A file of 66 slices in a directory without a sentinel. *)
Definition ex_file_store : MemEngine :=
  Eval vm_compute in
    match hier_apply (MS := mem_store) ∅ (ex_write 1 [97]) 0 ex_ino with
    | Ok (o, _) => match MemEngine_apply ∅ (ao_ops o) with Ok s => s | Err _ => ∅ end
    | Err _ => ∅
    end.
Definition ex_file : FileRecord :=
  {| fr_ino := ex_dir; fr_size := 100; fr_etag := []; fr_mtime := 2; fr_content := Slices (ex_slice <$> seqZ 0 64);
     fr_seg_count := 1; fr_http := HttpMeta_default |}.
Lemma ex_file_inv : hier_inv (mem_view ex_file_store Fs) {| ia_tag := 3; ia_next := 5 |}.
Proof.
  destruct (hier_apply_ok (MS := mem_store) ∅ (ex_write 1 [97]) 0 ex_ino) as (o & ino' & s' & E & Es & _ & _ & Hi).
  - exact I.
  - intros cf k v Hk. discriminate Hk.
  - apply empty_hier_inv; [vm_compute; split; congruence|vm_compute; congruence].
  - vm_compute. reflexivity.
  - split; [vm_compute; split; congruence|]. split; [vm_compute; split; congruence|].
    split; [apply (bool_decide_unpack _); vm_compute; exact I|]. apply not_future; vm_compute; congruence.
  - eexists. vm_compute. reflexivity.
  - vm_compute in E. injection E as <- <-. vm_compute in Es. injection Es as <-. exact Hi.
Qed.
Lemma rename_truncates_witness :
  exists o s' moved, hier_apply (MS := mem_store) ex_file_store (HRenameSameDir ex_hbucket 1 [97] [98] 3) 1 {| ia_tag := 3; ia_next := 5 |}
      = Ok (o, {| ia_tag := 3; ia_next := 5 |})
    /\ MemEngine_apply ex_file_store (ao_ops o) = Ok s'
    /\ lookup_ (MS := mem_store) s' ex_hbucket 1 [98] = Ok (Some (FsFile moved))
    /\ fr_content moved = Slices (ex_slice <$> seqZ 0 64) /\ fr_seg_count moved = 0 /\ fr_size moved = 100
    /\ mem_view s' Delq = mem_view ex_file_store Delq.
Proof.
  destruct (rename_truncates (MS := mem_store) ex_file_store ex_hbucket 1 [97] [98] ex_file (ex_slice <$> seqZ 0 64)
              {| ss_slices := [ex_slice 64; ex_slice 65] |} 1 3 {| ia_tag := 3; ia_next := 5 |})
    as (o & s' & moved & E & Es & Hl & Hc & Hn & Hz & _ & Hd).
  - exact I.
  - intros cf. apply keys_ok_forall, (bool_decide_unpack _). destruct cf; vm_compute; exact I.
  - exact ex_file_inv.
  - vm_compute. split; congruence.
  - vm_compute. split; congruence.
  - apply (bool_decide_unpack _). vm_compute. exact I.
  - apply (bool_decide_unpack _). vm_compute. exact I.
  - congruence.
  - vm_compute. reflexivity.
  - vm_compute. reflexivity.
  - reflexivity.
  - vm_compute. repeat constructor.
  - vm_compute. reflexivity.
  - exists o, s', moved. split; [exact E|]. split; [exact Es|]. split; [exact Hl|]. split; [exact Hc|]. split; [exact Hn|].
    split; [rewrite Hz; reflexivity|exact Hd].
Defined.
