(* ===== verification/MetaSm.v ===== *)
(** The replicated state machine of a metadata partition (epoch-meta:
    raft/state_machine.rs, and the snapshot builder in it): entries, the counters a
    partition keeps, its bookkeeping records, splits, applying a batch, opening, and
    snapshots. The log ids and memberships of the consensus library are opaque. *)

From S2P Require Import Prelude Ids Rocks PdDb MetaStore MetaKeys MetaNs MetaFlat MetaHier.

Record SplitOp : Set := {
  so_child_group : Z; so_at_bucket : Z; so_at_routing_key : bytes; so_child_peers : list (Z * string);
  so_bootstrap_node : Z; so_child_ino_tag : Z }.
Inductive MetaEntry : Set :=
| ME_StoreOps (batch : list StoreOp) | ME_Flat (op : FlatOp) | ME_Hier (op : HierOp) | ME_Split (op : SplitOp).
Record PendingSplit : Set := {
  ps_child_group : Z; ps_child_range : PartitionRange; ps_child_peers : list (Z * string); ps_bootstrap_node : Z }.

(** ** Bookkeeping keys *)

Definition bookkeeping_key (group suffix : Z) : bytes := be_bytes 8 group ++ [suffix].
Definition APPLIED_SUFFIX : Z := 97.
Definition MEMBERSHIP_SUFFIX : Z := 109.
Definition SNAPSHOT_SUFFIX : Z := 115.
Definition DELQ_SEQ_SUFFIX : Z := 100.
Definition GUARD_SUFFIX : Z := 105.
Definition INO_SEQ_SUFFIX : Z := 110.
Definition RANGE_SUFFIX : Z := 114.
Definition PENDING_SPLIT_SUFFIX : Z := 112.
Definition INO_TAG_SUFFIX : Z := 116.
Definition applied_key (group : Z) : bytes := bookkeeping_key group APPLIED_SUFFIX.
Definition membership_key (group : Z) : bytes := bookkeeping_key group MEMBERSHIP_SUFFIX.
Definition snapshot_key (group : Z) : bytes := bookkeeping_key group SNAPSHOT_SUFFIX.
Definition delq_seq_key (group : Z) : bytes := bookkeeping_key group DELQ_SEQ_SUFFIX.
Definition guard_key (group : Z) : bytes := bookkeeping_key group GUARD_SUFFIX.
Definition ino_seq_key (group : Z) : bytes := bookkeeping_key group INO_SEQ_SUFFIX.
Definition range_key (group : Z) : bytes := bookkeeping_key group RANGE_SUFFIX.
Definition pending_split_key (group : Z) : bytes := bookkeeping_key group PENDING_SPLIT_SUFFIX.
Definition ino_tag_key (group : Z) : bytes := bookkeeping_key group INO_TAG_SUFFIX.

Definition encode_guard_record (inline count total : Z) : bytes := be_bytes 8 inline ++ be_bytes 8 count ++ be_bytes 8 total.
Definition decode_guard_record (record : option bytes) : Z * Z * Z :=
  match record with
  | Some raw =>
      if (length raw =? 24)%nat then (be_val (take 8 raw), be_val (take 8 (drop 8 raw)), be_val (drop 16 raw)) else (0, 0, 0)
  | None => (0, 0, 0)
  end.
(** [bytes.and_then(|b| <[u8; n]>::try_from(b).ok()).map(from_be_bytes).unwrap_or(0)] *)
Definition counter_of (n : nat) (record : option bytes) : Z :=
  match record with Some raw => if (length raw =? n)%nat then be_val raw else 0 | None => 0 end.

Record MetaSnapshotData (LogId Membership : Set) : Set := {
  ms_last_applied : option LogId; ms_last_membership : Membership; ms_delq_seq : Z; ms_ino_seq : Z;
  ms_inline_bytes : Z; ms_inline_count : Z; ms_total_bytes : Z; ms_entries : list (MetaCf * bytes * bytes) }.
Arguments ms_last_applied {_ _}. Arguments ms_last_membership {_ _}. Arguments ms_delq_seq {_ _}. Arguments ms_ino_seq {_ _}.
Arguments ms_inline_bytes {_ _}. Arguments ms_inline_count {_ _}. Arguments ms_total_bytes {_ _}. Arguments ms_entries {_ _}.
Record MetaSnapshotMeta (LogId Membership : Set) : Set := {
  smeta_last_log_id : option LogId; smeta_last_membership : Membership; smeta_snapshot_id : string }.
Arguments smeta_last_log_id {_ _}. Arguments smeta_last_membership {_ _}. Arguments smeta_snapshot_id {_ _}.

(** JSON of the records kept beside the data; the consensus types come with theirs. *)
Class SmSerde (LogId Membership : Set) := {
  membership_default : Membership;
  sm_log_id_serde :: Serde LogId;
  sm_membership_serde :: Serde Membership;
  sm_range_serde :: Serde PartitionRange;
  sm_pending_serde :: Serde PendingSplit;
  sm_snapshot_serde :: Serde (MetaSnapshotData LogId Membership);
  sm_stored_serde :: Serde (MetaSnapshotMeta LogId Membership * bytes)
}.

Inductive SmErr : Set := SE_Read | SE_Write.

Section StateMachine.
Context `{MetaSerde} {MS : MetaStore} (blake3 : bytes -> bytes) {LogId Membership : Set} `{!SmSerde LogId Membership}.

Inductive EntryPayload : Set := Blank | Normal (e : MetaEntry) | MembershipChange (stored : Membership).
Record LogEntry : Set := { le_log_id : LogId; le_payload : EntryPayload }.

Definition read_err {A} (r : MResult A) : result SmErr A := match r with Ok a => Ok a | Err _ => Err SE_Read end.
Definition write_err {A} (r : MResult A) : result SmErr A := match r with Ok a => Ok a | Err _ => Err SE_Write end.

Fixpoint count_ranges (s : store) (ranges : list KeyRange) (depth : Z) : MResult Z :=
  match ranges with
  | [] => Ok depth
  | kr :: ranges =>
      if decide (kr_cf kr = Delq)
      then depth <-? paged_scan (scan_fuel s Delq) s Delq (kr_start kr) (kr_end kr) 4096 (fun d _ => Ok (d + 1)) depth ;;
           count_ranges s ranges depth
      else count_ranges s ranges depth
  end.
Definition count_delq_entries (s : store) (r : PartitionRange) : MResult Z := count_ranges s (key_ranges r) 0.
Definition delq_delta (ops : list StoreOp) : Z :=
  foldr (fun op d => d + if decide (so_cf op = Delq) then match so_value op with Some _ => 1 | None => -1 end else 0) 0 ops.

Definition read_pending_split (s : store) (group : Z) : MResult (option PendingSplit) :=
  v <-? ms_get s Applied (pending_split_key group) ;;
  match v with Some b => p <-? ok_or (from_slice b) MSE_ValueCodec ;; Ok (Some p) | None => Ok None end.
Definition clear_pending_split (s : store) (group : Z) : MResult store :=
  ms_apply s [StoreOp_delete Applied (pending_split_key group)].

Record MetaStateMachine : Type := {
  sm_store : store; sm_group : Z; sm_range : PartitionRange; sm_guard : PartitionGuard;
  sm_delq_next : Z; sm_ino_next : Z; sm_ino_tag : Z }.

Definition MetaStateMachine_new (s : store) (group : Z) (range : PartitionRange) : MResult MetaStateMachine :=
  delq <-? ms_get s Applied (delq_seq_key group) ;;
  guard_record <-? ms_get s Applied (guard_key group) ;;
  let '(inline, count, total) := decode_guard_record guard_record in
  let guard := PartitionGuard_load PartitionGuard_new inline count total in
  ino <-? ms_get s Applied (ino_seq_key group) ;;
  stored <-? ms_get s Applied (range_key group) ;;
  range <-? match stored with Some b => ok_or (from_slice b) MSE_ValueCodec | None => Ok range end ;;
  tag <-? ms_get s Applied (ino_tag_key group) ;;
  depth <-? count_delq_entries s range ;;
  Ok {| sm_store := s; sm_group := group; sm_range := range; sm_guard := PartitionGuard_load_delq_depth guard depth;
        sm_delq_next := counter_of 8 delq; sm_ino_next := counter_of 8 ino; sm_ino_tag := counter_of 4 tag |}.

Definition with_counters (sm : MetaStateMachine) (guard : PartitionGuard) (delq_next ino_next : Z) : MetaStateMachine :=
  {| sm_store := sm_store sm; sm_group := sm_group sm; sm_range := sm_range sm; sm_guard := guard;
     sm_delq_next := delq_next; sm_ino_next := ino_next; sm_ino_tag := sm_ino_tag sm |}.
Definition with_range (sm : MetaStateMachine) (range : PartitionRange) : MetaStateMachine :=
  {| sm_store := sm_store sm; sm_group := sm_group sm; sm_range := range; sm_guard := sm_guard sm;
     sm_delq_next := sm_delq_next sm; sm_ino_next := sm_ino_next sm; sm_ino_tag := sm_ino_tag sm |}.
Definition with_store (sm : MetaStateMachine) (s : store) (guard : PartitionGuard) : MetaStateMachine :=
  {| sm_store := s; sm_group := sm_group sm; sm_range := sm_range sm; sm_guard := guard;
     sm_delq_next := sm_delq_next sm; sm_ino_next := sm_ino_next sm; sm_ino_tag := sm_ino_tag sm |}.

Definition split_ops (sm : MetaStateMachine) (op : SplitOp) : MetaStateMachine * list StoreOp :=
  match PartitionRange_split (sm_range sm) (so_at_bucket op, so_at_routing_key op) with
  | None => (sm, [])
  | Some (left_, right_) =>
      let pending := {| ps_child_group := so_child_group op; ps_child_range := right_; ps_child_peers := so_child_peers op;
                        ps_bootstrap_node := so_bootstrap_node op |} in
      (with_range sm left_,
       [StoreOp_put Applied (range_key (sm_group sm)) (to_vec left_);
        StoreOp_put Applied (pending_split_key (sm_group sm)) (to_vec pending);
        StoreOp_put Applied (delq_seq_key (so_child_group op)) (be_bytes 8 0);
        StoreOp_put Applied (ino_seq_key (so_child_group op)) (be_bytes 8 0);
        StoreOp_put Applied (ino_tag_key (so_child_group op)) (be_bytes 4 (so_child_ino_tag op))])
  end.
Definition write_applied (sm : MetaStateMachine) (ops : list StoreOp) (log_id : LogId) : list StoreOp :=
  ops ++ [StoreOp_put Applied (applied_key (sm_group sm)) (to_vec log_id)].

(** An error keeps the counters already advanced. *)
Definition entry_ops (sm : MetaStateMachine) (entry : LogEntry)
    : MetaStateMachine * result SmErr (list StoreOp * MetaResponse) :=
  match le_payload entry with
  | Blank => (sm, Ok ([], RespNone))
  | Normal (ME_StoreOps batch) => (sm, Ok (batch, RespNone))
  | Normal (ME_Flat op) =>
      let seq := sm_delq_next sm in
      let sm := with_counters sm (sm_guard sm) (wrap 64 (sm_delq_next sm + 1)) (sm_ino_next sm) in
      match flat_apply blake3 (sm_store sm) op seq with
      | Err _ => (sm, Err SE_Write)
      | Ok o =>
          let guard := PartitionGuard_account (sm_guard sm) (ao_delta o) in
          let '(inline, count, total) := PartitionGuard_counters guard in
          let ops := ao_ops o ++ [StoreOp_put Applied (delq_seq_key (sm_group sm)) (be_bytes 8 (sm_delq_next sm));
                                  StoreOp_put Applied (guard_key (sm_group sm)) (encode_guard_record inline count total)] in
          (with_counters sm guard (sm_delq_next sm) (sm_ino_next sm), Ok (ops, ao_response o))
      end
  | Normal (ME_Hier op) =>
      let seq := sm_delq_next sm in
      let sm := with_counters sm (sm_guard sm) (wrap 64 (sm_delq_next sm + 1)) (sm_ino_next sm) in
      match hier_apply (sm_store sm) op seq {| ia_tag := sm_ino_tag sm; ia_next := sm_ino_next sm |} with
      | Err _ => (sm, Err SE_Write)
      | Ok (o, allocator) =>
          let guard := PartitionGuard_account (sm_guard sm) (ao_delta o) in
          let '(inline, count, total) := PartitionGuard_counters guard in
          let ops := ao_ops o ++ [StoreOp_put Applied (delq_seq_key (sm_group sm)) (be_bytes 8 (sm_delq_next sm));
                                  StoreOp_put Applied (ino_seq_key (sm_group sm)) (be_bytes 8 (ia_next allocator));
                                  StoreOp_put Applied (guard_key (sm_group sm)) (encode_guard_record inline count total)] in
          (with_counters sm guard (sm_delq_next sm) (ia_next allocator), Ok (ops, ao_response o))
      end
  | Normal (ME_Split op) => let '(sm, ops) := split_ops sm op in (sm, Ok (ops, RespNone))
  | MembershipChange stored =>
      (sm, Ok ([StoreOp_put Applied (membership_key (sm_group sm)) (to_vec stored)], RespNone))
  end.

(** One entry is one batch; the last carries the applied record. *)
Definition meta_apply_entry (sm : MetaStateMachine) (entry : LogEntry) (last_ : bool) : MetaStateMachine * result SmErr MetaResponse :=
  match entry_ops sm entry with
  | (sm, Err e) => (sm, Err e)
  | (sm, Ok (ops, response)) =>
      let ops := if last_ then write_applied sm ops (le_log_id entry) else ops in
      match write_err (ms_apply (sm_store sm) ops) with
      | Err e => (sm, Err e)
      | Ok s =>
          match le_payload entry with
          | Normal (ME_Split _) =>
              let sm := with_store sm s (sm_guard sm) in
              match read_err (count_delq_entries s (sm_range sm)) with
              | Err e => (sm, Err e)
              | Ok depth => (with_store sm s (PartitionGuard_load_delq_depth (sm_guard sm) depth), Ok response)
              end
          | _ => (with_store sm s (PartitionGuard_account_delq (sm_guard sm) (delq_delta ops)), Ok response)
          end
      end
  end.
Fixpoint sm_apply (sm : MetaStateMachine) (entries : list LogEntry) : MetaStateMachine * result SmErr (list MetaResponse) :=
  match entries with
  | [] => (sm, Ok [])
  | entry :: entries =>
      match meta_apply_entry sm entry (bool_decide (entries = [])) with
      | (sm, Err e) => (sm, Err e)
      | (sm, Ok response) =>
          match sm_apply sm entries with
          | (sm, Ok results) => (sm, Ok (response :: results))
          | (sm, Err e) => (sm, Err e)
          end
      end
  end.

Definition read_bookkeeping {A} `{Serde A} (s : store) (key : bytes) : result SmErr (option A) :=
  v <-? read_err (ms_get s Applied key) ;;
  match v with
  | Some b => match from_slice b with Some x => Ok (Some x) | None => Err SE_Read end
  | None => Ok None
  end.
Definition applied_state (sm : MetaStateMachine) : result SmErr (option LogId * Membership) :=
  applied <-? read_bookkeeping (A := LogId) (sm_store sm) (applied_key (sm_group sm)) ;;
  membership <-? read_bookkeeping (A := Membership) (sm_store sm) (membership_key (sm_group sm)) ;;
  Ok (applied, default membership_default membership).

(** ** Snapshots *)

(** [snapshot_id] is the formatted id with the process-wide counter. *)
Definition meta_build_snapshot (s : store) (group : Z) (range : PartitionRange) (snapshot_id : string)
    : result SmErr (store * (MetaSnapshotMeta LogId Membership * bytes)) :=
  last_applied <-? read_bookkeeping (A := LogId) s (applied_key group) ;;
  last_membership <-? read_bookkeeping (A := Membership) s (membership_key group) ;;
  let last_membership := default membership_default last_membership in
  exported <-? read_err (ms_snapshot s (key_ranges range)) ;;
  let exported := filter (fun e => contains range e.1.2 = true) exported in
  delq <-? read_err (ms_get s Applied (delq_seq_key group)) ;;
  ino <-? read_err (ms_get s Applied (ino_seq_key group)) ;;
  guard <-? read_err (ms_get s Applied (guard_key group)) ;;
  let '(inline_bytes, inline_count, total_bytes) := decode_guard_record guard in
  let data := {| ms_last_applied := last_applied; ms_last_membership := last_membership; ms_delq_seq := counter_of 8 delq;
                 ms_ino_seq := counter_of 8 ino; ms_inline_bytes := inline_bytes; ms_inline_count := inline_count;
                 ms_total_bytes := total_bytes; ms_entries := exported |} in
  let bytes_ := to_vec data in
  let meta := {| smeta_last_log_id := last_applied; smeta_last_membership := last_membership; smeta_snapshot_id := snapshot_id |} in
  s <-? write_err (ms_apply s [StoreOp_put Applied (snapshot_key group) (to_vec (meta, bytes_))]) ;;
  Ok (s, (meta, bytes_)).

Fixpoint clear_ranges (s : store) (ranges : list KeyRange) (ops : list StoreOp) : result SmErr (list StoreOp) :=
  match ranges with
  | [] => Ok ops
  | kr :: ranges =>
      ops <-? read_err (paged_scan (scan_fuel s (kr_cf kr)) s (kr_cf kr) (kr_start kr) (kr_end kr) 4096
                          (fun ops kv => Ok (ops ++ [StoreOp_delete (kr_cf kr) kv.1])) ops) ;;
      clear_ranges s ranges ops
  end.
Definition install_snapshot (sm : MetaStateMachine) (meta : MetaSnapshotMeta LogId Membership) (snapshot : bytes)
    : MetaStateMachine * result SmErr unit :=
  match from_slice (A := MetaSnapshotData LogId Membership) snapshot with
  | None => (sm, Err SE_Read)
  | Some data =>
      let s := sm_store sm in
      let group := sm_group sm in
      match clear_ranges s (key_ranges (sm_range sm)) [] with
      | Err e => (sm, Err e)
      | Ok cleared =>
          let ops :=
            cleared ++ ((fun e => StoreOp_put e.1.1 e.1.2 e.2) <$> ms_entries data)
            ++ [match ms_last_applied data with
                | Some log_id => StoreOp_put Applied (applied_key group) (to_vec log_id)
                | None => StoreOp_delete Applied (applied_key group)
                end;
                StoreOp_put Applied (membership_key group) (to_vec (ms_last_membership data));
                StoreOp_put Applied (snapshot_key group) (to_vec (meta, to_vec data));
                StoreOp_put Applied (delq_seq_key group) (be_bytes 8 (ms_delq_seq data));
                StoreOp_put Applied (ino_seq_key group) (be_bytes 8 (ms_ino_seq data));
                StoreOp_put Applied (guard_key group)
                  (encode_guard_record (ms_inline_bytes data) (ms_inline_count data) (ms_total_bytes data))] in
          match write_err (ms_apply s ops) with
          | Err e => (sm, Err e)
          | Ok s =>
              let guard := PartitionGuard_load (sm_guard sm) (ms_inline_bytes data) (ms_inline_count data) (ms_total_bytes data) in
              let sm := with_counters (with_store sm s guard) guard (ms_delq_seq data) (ms_ino_seq data) in
              match read_err (count_delq_entries s (sm_range sm)) with
              | Err e => (sm, Err e)
              | Ok depth => (with_store sm s (PartitionGuard_load_delq_depth guard depth), Ok tt)
              end
          end
      end
  end.
Definition get_current_snapshot (sm : MetaStateMachine) : result SmErr (option (MetaSnapshotMeta LogId Membership * bytes)) :=
  read_bookkeeping (sm_store sm) (snapshot_key (sm_group sm)).
End StateMachine.
