(* ===== verification/MetaSmProps.v ===== *)
(** The partition state machine, proved: what a restart finds, what a snapshot
    carries to another replica and what it leaves behind, and the delete sequence
    of a split. *)

From stdpp Require Import gmultiset.
From S2P Require Import Prelude Ids Rocks PdDb MetaStore MetaKeys MetaNs MetaRefs MetaFlat MetaFlatProps MetaHier MetaHierProps MetaSm.

(** ** Bookkeeping records *)

Lemma bookkeeping_key_inj g g' x y : is_u64 g -> is_u64 g' -> bookkeeping_key g x = bookkeeping_key g' y -> g = g' /\ x = y.
Proof.
  unfold bookkeeping_key. intros Hg Hg' E. apply app_inj_2 in E as [E1 E2]; [|done]. injection E2 as ->. split; [|done].
  by apply (be_bytes_inj_uint 8 64) in E1.
Qed.
Lemma bookkeeping_key_bytes g x : is_byte x -> is_bytes (bookkeeping_key g x).
Proof. intros Hx. apply Forall_app. split; [apply be_bytes_bytes|]. constructor; [done|constructor]. Qed.
Lemma counter_of_be n w x : w = 8 * Z.of_nat n -> uint w x -> counter_of n (Some (be_bytes n x)) = x.
Proof. intros Hw Hx. unfold counter_of. rewrite length_be_bytes, Nat.eqb_refl. by apply (be_val_uint n w). Qed.
Lemma decode_encode_guard a b c : is_u64 a -> is_u64 b -> is_u64 c ->
  decode_guard_record (Some (encode_guard_record a b c)) = (a, b, c).
Proof.
  intros Ha Hb Hc. unfold decode_guard_record, encode_guard_record. rewrite !length_app, !length_be_bytes. cbn [Nat.add Nat.eqb].
  rewrite take_app_length', drop_app_length', take_app_length' by (by rewrite length_be_bytes).
  change 16%nat with (8 + 8)%nat. rewrite <- drop_drop, !drop_app_length' by (by rewrite length_be_bytes).
  by rewrite !(be_val_uint 8 64).
Qed.
Lemma saturating_add_signed_u64 x d : is_u64 (saturating_add_signed x d).
Proof. unfold saturating_add_signed, uint. lia. Qed.

(** ** No handler touches the bookkeeping family *)

Section OpsCf.
Context `{MetaSerde} {MS : MetaStore} (blake3 : bytes -> bytes).

Definition data_ops (ops : list StoreOp) : Prop := Forall (fun op => so_cf op <> Applied) ops.
Lemma iter_try_inv {A E} (P : A -> Prop) (f : A -> bytes * bytes -> result E A) l acc acc' :
  (forall a kv a', P a -> f a kv = Ok a' -> P a') -> P acc -> iter_try f l acc = Ok acc' -> P acc'.
Proof.
  intros Hf. revert acc. induction l as [|kv l IH]; intros acc Ha; cbn; [by intros [= <-]|].
  destruct (f acc kv) as [a|] eqn:E1; [|done]. apply IH. by eapply Hf.
Qed.
Lemma paged_scan_inv {A} (P : A -> Prop) fuel s cf cursor end_ limit (f : A -> bytes * bytes -> MResult A) acc acc' :
  (forall a kv a', P a -> f a kv = Ok a' -> P a') -> P acc -> paged_scan fuel s cf cursor end_ limit f acc = Ok acc' -> P acc'.
Proof.
  intros Hf. revert cursor acc. induction fuel as [|fuel IH]; intros cursor acc Ha; cbn; [done|].
  destruct (ms_scan s cf cursor end_ limit) as [page|]; [|done]. destruct (last page); [|by intros [= <-]].
  destruct (iter_try f page acc) as [a|] eqn:Ei; [|done]. apply IH. by eapply iter_try_inv.
Qed.
Lemma data_ops_app l1 l2 : data_ops l1 -> data_ops l2 -> data_ops (l1 ++ l2).
Proof. intros. by apply Forall_app. Qed.
Lemma data_ops_1 op : so_cf op <> Applied -> data_ops [op].
Proof. intros. by constructor. Qed.
Lemma enqueue_data first slices ts key ops : data_ops ops -> data_ops (enqueue_delete_slices first slices ts key ops).1.
Proof.
  intros Ho. unfold enqueue_delete_slices. rewrite enqueue_chunks_puts. apply data_ops_app; [done|].
  eapply Forall_impl; [apply puts_from_cf|]. cbn. congruence.
Qed.
Lemma put_segments_data b key i segs : data_ops (put_segments b key i segs).
Proof. revert i. induction segs; intros i; constructor; [done|]. apply IHsegs. Qed.
Lemma capture_old_data s b key seq ts ops r : data_ops ops -> capture_old s b key seq ts ops = Ok r -> data_ops r.1.
Proof.
  intros Ho. unfold capture_old. destruct (ms_get s Meta _) as [[old|]|]; [|by intros [= <-]|done]. cbv beta iota zeta.
  destruct (paged_scan _ _ _ _ _ _ _ _) as [p|] eqn:Ep; [|done]. apply (paged_scan_inv (fun p => data_ops p.2)) in Ep.
  - pose proof (enqueue_data 0 p.1 ts (fun i => flat_key Delq b key (suffix_delq_seq seq i)) p.2 Ep) as He.
    unfold flat_enqueue_delete_slices. destruct (enqueue_delete_slices _ _ _ _ _) as [ops' n]. by intros [= <-].
  - intros a kv a' Ha [= <-]. by apply data_ops_app; [|apply data_ops_1].
  - done.
Qed.
Lemma discard_data b key seq ts keep page p : data_ops p.1 -> data_ops (foldl (discard_entry b key seq ts keep) p page).1.
Proof.
  revert p. induction page as [|kv page IH]; intros p Hp; [done|]. apply IH. unfold discard_entry.
  assert (forall q : list StoreOp * Z, data_ops q.1 -> data_ops (let '(ops, n) := q in (ops ++ [StoreOp_delete Upload kv.1], n)).1) as Hq.
  { intros [ops n] Hops. apply data_ops_app; [done|by apply data_ops_1]. }
  apply Hq. destruct (part_no_of kv.1); [|done]. destruct (_ && _); [|done]. by apply enqueue_data.
Qed.
Lemma flat_data s op seq o : flat_apply blake3 s op seq = Ok o -> data_ops (ao_ops o).
Proof.
  assert (data_ops []) as Hnil by constructor.
  destruct op as [b key head ts|b key ts|b key id ts|b key id part_no part ts|b key id parts ts|b key id ts]; cbn [flat_apply].
  - unfold apply_put. destruct (capture_old _ _ _ _ _ _) as [[ops [[[? ?] ?] ?]]|] eqn:Ec; [|done]. apply capture_old_data in Ec; [|done].
    cbv beta iota zeta. destruct (pack head). destruct (ContentHead_inline_account _). intros [= <-]. apply data_ops_app; [done|].
    constructor; [done|apply put_segments_data].
  - unfold apply_delete. destruct (capture_old _ _ _ _ _ _) as [[ops [[[? ?] ?] ?]]|] eqn:Ec; [|done]. apply capture_old_data in Ec; [|done].
    intros [= <-]. by apply data_ops_app; [|apply data_ops_1].
  - unfold apply_create. destruct (ms_get _ _ _) as [[?|]|]; [..|done]; intros [= <-]; [done|by apply data_ops_1].
  - unfold apply_put_part. destruct (ms_get _ _ _) as [[?|]|]; [|by intros [= <-]|done]. destruct (ms_get _ _ _) as [[old|]|]; [..|done];
      intros [= <-]; [apply data_ops_app; [by apply enqueue_data|]|]; by apply data_ops_1.
  - unfold apply_complete. destruct (ms_get _ _ _) as [[?|]|]; [|by intros [= <-]|done]. case_decide; [by intros [= <-]|].
    destruct (collect_parts _ _ _ _ _ _ _) as [[?|[slices size]]|]; [by intros [= <-]| |done].
    destruct (capture_old _ _ _ _ _ _) as [[ops [[[? ?] ?] n]]|] eqn:Ec; [|done]. apply capture_old_data in Ec; [|done].
    cbv beta iota zeta. destruct (scan_session _ _ _ _) as [page|]; [|done]. pose proof (discard_data b key seq ts
      (fun p => bool_decide (p ∈ ref_part_no <$> parts)) page (ops, n) Ec) as Hd.
    destruct (foldl _ _ _) as [ops' n']. destruct (pack _). intros [= <-]. apply data_ops_app; [done|].
    constructor; [done|apply put_segments_data].
  - unfold apply_abort. destruct (ms_get _ _ _) as [[?|]|]; [|by intros [= <-]|done]. destruct (scan_session _ _ _ _) as [page|]; [|done].
    pose proof (discard_data b key seq ts (fun _ => false) page ([], 0) Hnil) as Hd. destruct (foldl _ _ _) as [ops' n'].
    by intros [= <-].
Qed.

Lemma capture_file_data s b p name seq ts ops r : data_ops ops -> capture_old_file s b p name seq ts ops = Ok r -> data_ops r.1.
Proof.
  intros Ho. unfold capture_old_file. destruct (ms_get s Fs _) as [[old|]|]; [|by intros [= <-]|done]. cbv beta iota zeta.
  destruct (paged_scan _ _ _ _ _ _ _ _) as [q|] eqn:Ep; [|done]. apply (paged_scan_inv (fun p => data_ops p.2)) in Ep.
  - pose proof (enqueue_data 0 q.1 ts (fun i => hier_key Delq b p name (suffix_delq_seq seq i)) q.2 Ep) as He.
    destruct (enqueue_delete_slices _ _ _ _ _) as [ops' n]. by intros [= <-].
  - intros a kv a' Ha [= <-]. by apply data_ops_app; [|apply data_ops_1].
  - done.
Qed.
Lemma put_file_segments_data b p name i segs : data_ops (put_file_segments b p name i segs).
Proof. revert i. induction segs; intros i; constructor; [done|]. apply IHsegs. Qed.
Lemma bump_data s b i delta ts ops r : data_ops ops -> bump_sentinel_child_delta s b i delta ts ops = Ok r -> data_ops r.
Proof.
  intros Ho. unfold bump_sentinel_child_delta. destruct (ms_get _ _ _) as [[v|]|]; [|by intros [= <-]|done]. cbv beta iota zeta.
  destruct (decode_fs v) as [[?|?|d]|]; [by intros [= <-]..| |done]. intros [= <-]. by apply data_ops_app; [|apply data_ops_1].
Qed.
Lemma delete_segments_data s b p name ops r : data_ops ops -> delete_segments s b p name ops = Ok r -> data_ops r.
Proof.
  intros Ho. unfold delete_segments. apply (paged_scan_inv data_ops); [|done]. intros a kv a' Ha [= <-]. by apply data_ops_app; [|apply data_ops_1].
Qed.
Lemma mint_u64 ino i ino' : mint ino = Ok (i, ino') -> is_u64 (ia_next ino') /\ ia_tag ino' = ia_tag ino.
Proof.
  unfold mint. destruct (compose_ino _ _); [|done]. cbn [ok_or]. intros [= <- <-]. cbn [ia_next ia_tag]. split; [|done].
  unfold wrap, uint. lia.
Qed.
Lemma write_data s b p name size etag content http ts seq ino o ino' : is_u64 (ia_next ino) ->
  apply_write s b p name size etag content http ts seq ino = Ok (o, ino') -> data_ops (ao_ops o) /\ is_u64 (ia_next ino').
Proof.
  assert (data_ops []) as Hnil by constructor. intros Hu. unfold apply_write. case_decide; [by intros [= <- <-]|].
  destruct (fs_read_record s b p name) as [rec|]; [|done]. cbv beta iota zeta.
  assert (forall file_ino (is_create : bool) ino1, is_u64 (ia_next ino1) ->
    (c <-? capture_old_file s b p name seq ts [] ;;
     let '(ops, (old_inline, old_count, old_total)) := c in
     let '(packed, segments) := pack_file {| fr_ino := file_ino; fr_size := size; fr_etag := etag; fr_mtime := ts; fr_content := content;
                                             fr_seg_count := 0; fr_http := http |} in
     ops <-? bump_sentinel_child_delta s b p (if is_create then 1 else 0) ts
               (ops ++ [StoreOp_put Fs (hier_key Fs b p name []) (to_vec (FsFile packed))] ++ put_file_segments b p name 0 segments) ;;
     let '(new_inline, new_count) := ContentHead_inline_account (fr_content packed) in
     Ok ({| ao_ops := ops; ao_response := RespNone;
            ao_delta := {| gd_inline_bytes := i64_diff new_inline old_inline; gd_inline_count := i64_diff new_count old_count;
                           gd_total_bytes := i64_diff size old_total |} |}, ino1)) = Ok (o, ino') ->
    data_ops (ao_ops o) /\ is_u64 (ia_next ino')) as Hrest.
  { intros file_ino is_create ino1 Hu1. destruct (capture_old_file _ _ _ _ _ _ _) as [[ops [[? ?] ?]]|] eqn:Ec; [|done].
    apply capture_file_data in Ec; [|done]. cbv beta iota zeta. destruct (pack_file _) as [packed segs].
    destruct (bump_sentinel_child_delta _ _ _ _ _ _) as [ops'|] eqn:Eb; [|done]. apply bump_data in Eb.
    - cbv beta iota zeta. destruct (ContentHead_inline_account _). by intros [= <- <-].
    - apply data_ops_app; [done|]. constructor; [done|apply put_file_segments_data]. }
  destruct rec as [[f|x|x]|]; [exact (Hrest (fr_ino f) false ino Hu)|by intros [= <- <-]..|].
  destruct (mint ino) as [[i ino1]|] eqn:Em; [|done]. apply mint_u64 in Em as [Hu1 _]. exact (Hrest i true ino1 Hu1).
Qed.
Lemma hier_data s op seq ino o ino' : is_u64 (ia_next ino) -> hier_apply s op seq ino = Ok (o, ino') ->
  data_ops (ao_ops o) /\ is_u64 (ia_next ino').
Proof.
  assert (data_ops []) as Hnil by constructor. intros Hu.
  assert (forall r : MResult ApplyOutcome, (forall o1, r = Ok o1 -> data_ops (ao_ops o1)) ->
    (o <-? r ;; Ok (o, ino)) = Ok (o, ino') -> data_ops (ao_ops o) /\ is_u64 (ia_next ino')) as Hkeep.
  { intros [o1|] Hr; [|done]. intros [= <- <-]. auto. }
  destruct op as [b p name size etag content http ts|b p name ts|b p name ts|b p name child ts|b p name ts|b i ts|b p from to ts];
    cbn [hier_apply]; [by apply write_data|apply Hkeep|..|apply Hkeep|apply Hkeep|apply Hkeep|apply Hkeep].
  - intros o1. unfold apply_unlink. destruct (fs_read_record _ _ _ _) as [[[f|x|x]|]|]; [|by intros [= <-]..|done].
    destruct (capture_old_file _ _ _ _ _ _ _) as [[ops [[? ?] ?]]|] eqn:Ec; [|done]. apply capture_file_data in Ec; [|done]. cbv beta iota zeta.
    destruct (bump_sentinel_child_delta _ _ _ _ _ _) as [ops'|] eqn:Eb; [|done]. apply bump_data in Eb; [by intros [= <-]|].
    by apply data_ops_app; [|apply data_ops_1].
  - unfold apply_mkdir_sentinel. destruct (mint ino) as [[i ino1]|] eqn:Em; [|done]. apply mint_u64 in Em as [Hu1 _]. cbv beta iota zeta.
    destruct (ms_get _ _ _) as [[?|]|]; [..|done]; intros [= <- <-]; (split; [|done]); [done|by apply data_ops_1].
  - intros o1. unfold apply_mkdir_link. case_decide; [by intros [= <-]|].
    destruct (fs_read_record _ _ _ _) as [[[f|x|x]|]|]; cbv beta iota zeta; [by intros [= <-]| | | |done].
    1: destruct (_ =? _); by intros [= <-].
    all: destruct (bump_sentinel_child_delta _ _ _ _ _ _) as [ops'|] eqn:Eb; [|done]; apply bump_data in Eb; [by intros [= <-]|by apply data_ops_1].
  - intros o1. unfold apply_rmdir_unlink. destruct (fs_read_record _ _ _ _) as [[[f|x|x]|]|]; cbv beta iota zeta; [by intros [= <-]| |by intros [= <-]..|done].
    destruct (bump_sentinel_child_delta _ _ _ _ _ _) as [ops'|] eqn:Eb; [|done]; apply bump_data in Eb; [by intros [= <-]|by apply data_ops_1].
  - intros o1. unfold apply_rmdir_sentinel. destruct (ms_get _ _ _) as [[?|]|]; [|by intros [= <-]|done].
    destruct (directory_has_children _ _ _) as [[]|]; [..|done]; intros [= <-]; [done|by apply data_ops_1].
  - intros o1. unfold apply_rename_same_dir. case_decide; [by intros [= <-]|].
    destruct (fs_read_record _ _ _ _) as [[[f|x|x]|]|]; [|by intros [= <-]..|done]. cbv beta iota zeta.
    destruct (fs_read_record _ _ _ _) as [dest|]; [|done]. cbv beta iota zeta.
    destruct (capture_old_file _ _ _ _ _ _ _) as [[ops [[? ?] ?]]|] eqn:Ec.
    2: { destruct dest as [[?|?|?]|]; try done; by intros [= <-]. }
    apply capture_file_data in Ec; [|done]. cbv beta iota zeta. destruct (pack_file _) as [moved segs].
    destruct (delete_segments _ _ _ _ _) as [ops1|] eqn:Ed.
    2: { destruct dest as [[?|?|?]|]; try done; by intros [= <-]. }
    apply delete_segments_data in Ed.
    + cbv beta iota zeta. destruct dest as [[?|?|?]|]; try (by intros [= <-]);
        (destruct (bump_sentinel_child_delta _ _ _ _ _ _) as [ops2|] eqn:Eb; [|done]; apply bump_data in Eb; [by intros [= <-]|done]).
    + apply data_ops_app; [done|]. constructor; [done|]. apply data_ops_app; [apply put_file_segments_data|by apply data_ops_1].
Qed.
End OpsCf.

(** ** What a restart finds *)

Section Restart.
Context `{MetaSerde} {MS : MetaStore} (blake3 : bytes -> bytes) {LogId Membership : Set} `{!SmSerde LogId Membership}.
Implicit Types (sm : MetaStateMachine).

(** The record [k] of this group. *)
Definition book sm (suffix : Z) : option bytes := ms_view (sm_store sm) Applied !! bookkeeping_key (sm_group sm) suffix.
Definition guard_u64 (g : PartitionGuard) : Prop :=
  is_u64 (pg_inline_bytes g) /\ is_u64 (pg_inline_count g) /\ is_u64 (pg_total_bytes g).

(** The counters of the process are those of the store; [seed] is the range the
    group was created with, which the stored one supersedes. *)
Record sm_persisted (seed : PartitionRange) sm : Prop := {
  sp_open : ms_open (sm_store sm);
  sp_group : is_u64 (sm_group sm);
  sp_delq : counter_of 8 (book sm DELQ_SEQ_SUFFIX) = sm_delq_next sm;
  sp_ino : counter_of 8 (book sm INO_SEQ_SUFFIX) = sm_ino_next sm;
  sp_ino_u64 : is_u64 (sm_ino_next sm);
  sp_tag : counter_of 4 (book sm INO_TAG_SUFFIX) = sm_ino_tag sm;
  sp_guard : decode_guard_record (book sm GUARD_SUFFIX) = PartitionGuard_counters (sm_guard sm);
  sp_range : match book sm RANGE_SUFFIX with
             | Some b => from_slice b = Some (sm_range sm)
             | None => sm_range sm = seed
             end
}.
(** Raw batches come from the deleter and touch data only; a split names another
    group as its child. *)
Definition entry_ok (group : Z) (e : LogEntry (LogId := LogId) (Membership := Membership)) : Prop :=
  match le_payload e with
  | Normal (ME_StoreOps batch) => data_ops batch
  | Normal (ME_Split op) => so_child_group op <> group /\ is_u64 (so_child_group op)
  | _ => True
  end.

Lemma view_applied_data ops m : data_ops ops -> view_ops Applied ops m = m.
Proof. apply view_ops_other. Qed.

Lemma bk_ne (g x y : Z) : x <> y -> bookkeeping_key g x <> bookkeeping_key g y.
Proof. unfold bookkeeping_key. intros Hne E. apply app_inv_head in E. congruence. Qed.
Lemma bk_ne_group (g g' x y : Z) : is_u64 g -> is_u64 g' -> g <> g' -> bookkeeping_key g x <> bookkeeping_key g' y.
Proof. intros Hg Hg' Hne [? _]%bookkeeping_key_inj; done. Qed.
Lemma guard_account_u64 g d : guard_u64 (PartitionGuard_account g d).
Proof. split; [|split]; apply saturating_add_signed_u64. Qed.
Lemma decode_encode_counters g : guard_u64 g ->
  decode_guard_record (Some (encode_guard_record (pg_inline_bytes g) (pg_inline_count g) (pg_total_bytes g))) = PartitionGuard_counters g.
Proof. intros (? & ? & ?). by apply decode_encode_guard. Qed.
End Restart.

(** Lookups of one bookkeeping record through puts of others. *)
Ltac book_simpl :=
  unfold book, delq_seq_key, guard_key, ino_seq_key, range_key, ino_tag_key, pending_split_key, membership_key, applied_key in *;
  rewrite ?view_ops_app, ?view_ops_cons, ?view_op_put; cbn [view_ops foldl];
  repeat match goal with
         | |- context [foldl (view_op Applied) ?m (ao_ops ?o)] => change (foldl (view_op Applied) m (ao_ops o)) with (view_ops Applied (ao_ops o) m)
         | |- context [view_ops Applied (ao_ops ?o) ?m] => rewrite (view_applied_data (ao_ops o) m) by done
         end;
  repeat first [ rewrite lookup_insert_eq
               | rewrite lookup_insert_ne by (apply bk_ne; discriminate)
               | rewrite lookup_insert_ne by (apply bk_ne_group; done) ].

Ltac sm_fields :=
  unfold with_store, with_counters, with_range, book in *;
  cbn [sm_store sm_group sm_range sm_guard sm_delq_next sm_ino_next sm_ino_tag] in *.

Section RestartSteps.
Context `{MetaSerde} {MS : MetaStore} (blake3 : bytes -> bytes) {LogId Membership : Set} `{!SmSerde LogId Membership}.
Implicit Types (sm : MetaStateMachine).

(** The new state over any store that holds the batch. *)
Lemma entry_ops_persisted seed sm sm' (e : LogEntry (LogId := LogId) (Membership := Membership)) ops resp s' g' :
  sm_persisted seed sm -> entry_ok (sm_group sm) e -> entry_ops blake3 sm e = (sm', Ok (ops, resp)) ->
  ms_open s' -> ms_view s' Applied = view_ops Applied ops (ms_view (sm_store sm) Applied) ->
  PartitionGuard_counters g' = PartitionGuard_counters (sm_guard sm') ->
  sm_persisted seed (with_store sm' s' g').
Proof.
  intros Hp He E Ho Hv Hg. pose proof Hp as [_ Hgr Hd Hi Hiu Ht Hgu Hr].
  assert (forall x, is_u64 (wrap 64 x)) as Hwrap by (intros x; unfold wrap, uint; lia).
  unfold entry_ops in E. unfold entry_ok in He. destruct (le_payload e) as [|[batch|op|op|op]|stored].
  - injection E as <- <- <-. constructor; sm_fields; rewrite ?Hv, ?Hg; done.
  - injection E as <- <- <-. constructor; sm_fields; rewrite ?Hv, ?view_applied_data, ?Hg by done; done.
  - cbv zeta in E. destruct (flat_apply _ _ _ _) as [o|] eqn:Eo; [|done]. apply flat_data in Eo. injection E as <- <- <-.
    pose proof (guard_account_u64 (sm_guard sm) (ao_delta o)) as Hgu'.
    constructor; sm_fields; try done; rewrite ?Hv; book_simpl; try done.
    + by rewrite (counter_of_be 8 64).
    + rewrite Hg. exact (decode_encode_counters _ Hgu').
  - cbv zeta in E. destruct (hier_apply _ _ _ _) as [[o ino']|] eqn:Eo; [|done]. apply hier_data in Eo as [Eo Hu']; [|done].
    injection E as <- <- <-. pose proof (guard_account_u64 (sm_guard sm) (ao_delta o)) as Hgu'.
    constructor; sm_fields; try done; rewrite ?Hv; book_simpl; try done.
    + by rewrite (counter_of_be 8 64).
    + by rewrite (counter_of_be 8 64).
    + rewrite Hg. exact (decode_encode_counters _ Hgu').
  - destruct He as [Hne Hcu]. unfold split_ops in E. destruct (PartitionRange_split _ _) as [[l r]|]; injection E as <- <- <-.
    + constructor; sm_fields; try done; rewrite ?Hv; book_simpl; try done; [by rewrite Hg|].
      apply from_to.
    + constructor; sm_fields; rewrite ?Hv, ?Hg; done.
  - injection E as <- <- <-.
    constructor; sm_fields; try done; rewrite ?Hv; book_simpl; try done. by rewrite Hg.
Qed.

Lemma entry_ops_group sm sm' (e : LogEntry (LogId := LogId) (Membership := Membership)) r :
  entry_ops blake3 sm e = (sm', r) -> sm_group sm' = sm_group sm /\ sm_store sm' = sm_store sm.
Proof.
  unfold entry_ops. destruct (le_payload e) as [|[batch|op|op|op]|stored]; cbv zeta; try by intros [= <- <-].
  - destruct (flat_apply _ _ _ _); by intros [= <- <-].
  - destruct (hier_apply _ _ _ _) as [[? ?]|]; by intros [= <- <-].
  - unfold split_ops. destruct (PartitionRange_split _ _) as [[? ?]|]; by intros [= <- <-].
Qed.
Lemma persisted_applied seed sm s' g' v : sm_persisted seed sm -> ms_open s' ->
  ms_view s' Applied = <[applied_key (sm_group sm) := v]> (ms_view (sm_store sm) Applied) ->
  PartitionGuard_counters g' = PartitionGuard_counters (sm_guard sm) -> sm_persisted seed (with_store sm s' g').
Proof.
  intros [? ? ? ? ? ? ? ?] Ho Hv Hg. constructor; sm_fields; rewrite ?Hv; book_simpl; try done. by rewrite Hg.
Qed.
Lemma apply_entry_persisted seed sm sm' (e : LogEntry (LogId := LogId) (Membership := Membership)) last_ resp :
  sm_persisted seed sm -> entry_ok (sm_group sm) e -> meta_apply_entry blake3 sm e last_ = (sm', Ok resp) ->
  sm_persisted seed sm' /\ sm_group sm' = sm_group sm.
Proof.
  intros Hp He. unfold meta_apply_entry. destruct (entry_ops blake3 sm e) as [sm1 [[ops resp1]|]] eqn:Eo; [|done].
  destruct (entry_ops_group _ _ _ _ Eo) as [Hgr Hst].
  set (ops' := if last_ then _ else _). destruct (ms_apply_ok (sm_store sm1) ops') as (s' & Es & Ho' & Hv').
  { rewrite Hst. apply (sp_open _ _ Hp). }
  rewrite Es. cbn [write_err].
  assert (forall g', PartitionGuard_counters g' = PartitionGuard_counters (sm_guard sm1) -> sm_persisted seed (with_store sm1 s' g')) as Hfin.
  { intros g' Hg'. destruct (ms_apply_ok (sm_store sm1) ops) as (s1 & _ & Ho1 & Hv1); [rewrite Hst; apply (sp_open _ _ Hp)|].
    assert (sm_persisted seed (with_store sm1 s1 (sm_guard sm1))) as Hp1.
    { apply (entry_ops_persisted seed sm sm1 e ops resp1 s1 (sm_guard sm1) Hp He Eo Ho1); [by rewrite Hv1, Hst|done]. }
    destruct last_; [|apply (entry_ops_persisted seed sm sm1 e ops resp1 s' g' Hp He Eo Ho'); [by rewrite Hv', Hst|done]].
    apply (persisted_applied seed (with_store sm1 s1 (sm_guard sm1)) s' g' (to_vec (le_log_id e))); try done.
    unfold ops', write_applied in Hv'. rewrite Hv', view_ops_app, <- Hv1, view_put1. done. }
  assert (forall m : MetaStateMachine * result SmErr MetaResponse, (exists g', m = (with_store sm1 s' g', Ok resp)
     /\ PartitionGuard_counters g' = PartitionGuard_counters (sm_guard sm1)) -> m = (sm', Ok resp) ->
    sm_persisted seed sm' /\ sm_group sm' = sm_group sm) as Hm.
  { intros m (g' & -> & Hg') [= <-]. split; [by apply Hfin|done]. }
  destruct (le_payload e) as [|[batch|op|op|op]|stored]; cbv zeta; intros E; try (eapply Hm; [|exact E];
    injection E as _ ->; by eexists).
  destruct (read_err _) as [depth|]; [|done]. eapply Hm; [|exact E]. injection E as _ ->. by eexists.
Qed.
Lemma sm_apply_persisted seed sm sm' (entries : list (LogEntry (LogId := LogId) (Membership := Membership))) rs :
  sm_persisted seed sm -> Forall (entry_ok (sm_group sm)) entries -> sm_apply blake3 sm entries = (sm', Ok rs) ->
  sm_persisted seed sm' /\ sm_group sm' = sm_group sm.
Proof.
  intros Hp He. revert sm rs Hp He. induction entries as [|e entries IH]; intros sm rs Hp He; cbn [sm_apply]; [by intros [= <- _]|].
  apply Forall_cons in He as [He Hes]. destruct (meta_apply_entry _ _ _ _) as [sm1 [resp|]] eqn:E1; [|done].
  apply (apply_entry_persisted seed) in E1 as [Hp1 Hg1]; [|done|done]. rewrite <- Hg1 in Hes.
  destruct (sm_apply blake3 sm1 entries) as [sm2 [rs2|]] eqn:E2; [|done]. intros [= <- _].
  destruct (IH sm1 rs2 Hp1 Hes E2) as [? ?]. split; [done|congruence].
Qed.

(** The gauge of queued deletes a restart counts. *)
Definition delq_range (r : PartitionRange) : KeyRange :=
  nth 3 (key_ranges r) {| kr_cf := Delq; kr_start := []; kr_end := [] |}.
Definition range_sane (r : PartitionRange) : Prop := ordered (delq_range r) /\ is_bytes (kr_end (delq_range r)).
Definition delq_entries (s : store) (r : PartitionRange) : KvPage :=
  range (ms_view s Delq) (kr_start (delq_range r)) (kr_end (delq_range r)).
Lemma count_delq_ok s r : ms_open s -> keys_ok (ms_view s Delq) -> range_sane r ->
  count_delq_entries s r = Ok (Z.of_nat (length (delq_entries s r))).
Proof.
  intros Ho Hk [Hord Hb]. unfold count_delq_entries.
  assert (forall d, paged_scan (scan_fuel s Delq) s Delq (kr_start (delq_range r)) (kr_end (delq_range r)) 4096 (fun d _ => Ok (d + 1)) d
    = Ok (d + Z.of_nat (length (delq_entries s r)))) as Hscan.
  { intros d. rewrite paged_scan_ok by (done || lia). unfold delq_entries. generalize (range (ms_view s Delq) (kr_start (delq_range r)) (kr_end (delq_range r))).
    intros l. revert d. induction l as [|kv l IH]; intros d; cbn [iter_try length]; [by rewrite Z.add_0_r|]. rewrite IH. f_equal. lia. }
  assert (exists a b c e, key_ranges r = [a; b; c; delq_range r; e] /\ kr_cf a <> Delq /\ kr_cf b <> Delq /\ kr_cf c <> Delq
    /\ kr_cf (delq_range r) = Delq /\ kr_cf e <> Delq) as (a & b & c & e & E & Ha & Hb' & Hc & Hd & He).
  { unfold delq_range, key_ranges. destruct (pr_ns r); cbn [key_ranges_cfs fmap list_fmap nth is_shared_cf]; eexists _, _, _, _;
      (split; [reflexivity|]); repeat split; discriminate. }
  rewrite E. cbn [count_ranges]. rewrite !(decide_False (P := kr_cf _ = Delq)) by done. rewrite decide_True by done. rewrite Hscan.
  by rewrite decide_False by done.
Qed.

(** C27: a restart loses nothing a partition keeps in memory. After any batch of
    entries a replica applied, opening the group again from its store finds the same
    range (a split's narrowed range included), delete sequence, inode counter and
    tag and the same inline accounting, and a queue gauge that is the number of
    queued deletes in the range. *)
Theorem meta_restart (seed : PartitionRange) (sm sm' : MetaStateMachine)
    (entries : list (LogEntry (LogId := LogId) (Membership := Membership))) (responses : list MetaResponse) :
  sm_persisted seed sm -> Forall (entry_ok (sm_group sm)) entries ->
  sm_apply blake3 sm entries = (sm', Ok responses) ->
  keys_ok (ms_view (sm_store sm') Delq) -> range_sane (sm_range sm') ->
  exists guard, MetaStateMachine_new (LogId := LogId) (Membership := Membership) (sm_store sm') (sm_group sm) seed
      = Ok (with_store sm' (sm_store sm') guard)
    /\ PartitionGuard_counters guard = PartitionGuard_counters (sm_guard sm')
    /\ pg_delq_depth guard = Z.of_nat (length (delq_entries (sm_store sm') (sm_range sm'))).
Proof.
  intros Hp He E Hk Hr. destruct (sm_apply_persisted seed sm sm' entries responses Hp He E) as [[Ho Hgr Hd Hi Hiu Ht Hg Hrg] Hgrp].
  rewrite <- Hgrp. unfold MetaStateMachine_new. rewrite !ms_get_ok by done. cbv beta iota zeta.
  unfold book, delq_seq_key, guard_key, ino_seq_key, range_key, ino_tag_key in *. rewrite Hg. unfold PartitionGuard_counters at 1.
  assert (match ms_view (sm_store sm') Applied !! bookkeeping_key (sm_group sm') RANGE_SUFFIX with
          | Some b => ok_or (from_slice b) MSE_ValueCodec | None => Ok seed end = Ok (sm_range sm')) as ->.
  { revert Hrg. destruct (ms_view (sm_store sm') Applied !! bookkeeping_key (sm_group sm') RANGE_SUFFIX); intros Hrg; by rewrite Hrg. }
  rewrite count_delq_ok by done. rewrite Hd, Hi, Ht. eexists. split; [by destruct sm'|]. done.
Qed.
End RestartSteps.

(** ** Snapshots *)

Section Snapshot.
Context `{MetaSerde} {MS : MetaStore} {LogId Membership : Set} `{!SmSerde LogId Membership}.
Implicit Types (sm : MetaStateMachine).

(** The keys of family [cf] the ranges cover. *)
Definition covered (ranges : list KeyRange) (cf : MetaCf) (k : bytes) : Prop :=
  Exists (fun kr => kr_cf kr = cf /\ in_range (kr_start kr) (kr_end kr) (k, [])) ranges.
#[export] Instance covered_dec ranges cf k : Decision (covered ranges cf k).
Proof. unfold covered. apply _. Defined.
Definition kr_page (view : MetaCf -> gmap bytes bytes) (kr : KeyRange) : KvPage := range (view (kr_cf kr)) (kr_start kr) (kr_end kr).
Definition clear_ops (view : MetaCf -> gmap bytes bytes) (ranges : list KeyRange) : list StoreOp :=
  mjoin ((fun kr => deletes (kr_cf kr) (kr_page view kr)) <$> ranges).
Definition export (view : MetaCf -> gmap bytes bytes) (ranges : list KeyRange) : list (MetaCf * bytes * bytes) :=
  mjoin ((fun kr => (fun kv => (kr_cf kr, kv.1, kv.2)) <$> kr_page view kr) <$> ranges).
Definition ranges_ok (s : store) (ranges : list KeyRange) : Prop := Forall (range_ok s) ranges.

Lemma elem_of_kr_page view kr k v : (k, v) ∈ kr_page view kr <-> view (kr_cf kr) !! k = Some v /\ in_range (kr_start kr) (kr_end kr) (k, []).
Proof. unfold kr_page. rewrite elem_of_range. done. Qed.
Lemma elem_of_export view ranges cf k v : (cf, k, v) ∈ export view ranges <-> covered ranges cf k /\ view cf !! k = Some v.
Proof.
  unfold export, covered. rewrite Exists_exists. induction ranges as [|kr ranges IH].
  - split; [intros Hin; by apply elem_of_nil in Hin|]. intros [(x & Hx & _) _]. by apply elem_of_nil in Hx.
  - rewrite fmap_cons, mjoin_cons, elem_of_app, IH, list_elem_of_fmap. split.
    + intros [([k' v'] & [= -> -> ->] & Hin)|[(x & Hx & Hc) Hv]].
      * apply elem_of_kr_page in Hin as [Hv Hr]. split; [|done]. exists kr. split; [left|done].
      * split; [|done]. exists x. split; [by right|done].
    + intros [(x & [->|Hx]%elem_of_cons & Hc & Hr) Hv].
      * left. exists (k, v). rewrite <- Hc in Hv |- *. split; [done|]. by apply elem_of_kr_page.
      * right. split; [|done]. by exists x.
Qed.
Lemma clear_lookup view ranges cf m k : m ⊆ view cf ->
  view_ops cf (clear_ops view ranges) m !! k = if decide (covered ranges cf k) then None else m !! k.
Proof.
  unfold clear_ops. revert m. induction ranges as [|kr ranges IH]; intros m Hm.
  { rewrite decide_False; [done|]. intros Hc. by apply Exists_nil in Hc. }
  rewrite fmap_cons, mjoin_cons, view_ops_app. destruct (decide (kr_cf kr = cf)) as [E|Hne].
  - rewrite IH.
    + rewrite E, view_deletes_lookup. case_bool_decide as Hin.
      * rewrite (decide_True (P := covered (kr :: ranges) cf k)); [by destruct (decide _)|].
        apply list_elem_of_fmap in Hin as ([k' v'] & -> & Hin). apply elem_of_kr_page in Hin as [_ Hr]. by apply Exists_cons_hd.
      * destruct (decide (covered ranges cf k)) as [Hc|Hnc]; [by rewrite decide_True by by apply Exists_cons_tl|].
        case_decide as Hc; [|done]. apply Exists_cons in Hc as [[_ Hr]|?]; [|done].
        destruct (m !! k) as [v|] eqn:Ek; [|done]. exfalso. apply Hin, list_elem_of_fmap. exists (k, v). split; [done|].
        apply elem_of_kr_page. rewrite E. split; [by eapply lookup_weaken|done].
    + rewrite E. apply map_subseteq_spec. intros k' v'. rewrite view_deletes_lookup. case_bool_decide; [done|].
      intros Hk'. exact (lookup_weaken _ _ _ _ Hk' Hm).
  - rewrite view_deletes_other by done. rewrite IH by done.
    destruct (decide (covered ranges cf k)) as [Hc|Hnc]; [by rewrite decide_True by by apply Exists_cons_tl|].
    rewrite decide_False; [done|]. intros [[? _]|?]%Exists_cons; done.
Qed.
Lemma puts_lookup (l : list (MetaCf * bytes * bytes)) (cf : MetaCf) (m : gmap bytes bytes) (k : bytes) :
  (exists v, (cf, k, v) ∈ l /\ view_ops cf ((fun e => StoreOp_put e.1.1 e.1.2 e.2) <$> l) m !! k = Some v)
  \/ ((forall v, (cf, k, v) ∉ l) /\ view_ops cf ((fun e => StoreOp_put e.1.1 e.1.2 e.2) <$> l) m !! k = m !! k).
Proof.
  induction l as [|[[cf' k'] v'] l IH] using rev_ind; [right; split; [intros v; apply not_elem_of_nil|done]|].
  rewrite fmap_app, view_ops_app. set (m' := view_ops cf _ m) in *. cbn [fmap list_fmap]. cbn [fst snd].
  destruct (decide (cf' = cf)) as [->|Hcf].
  - rewrite view_put1. destruct (decide (k' = k)) as [->|Hk].
    + left. exists v'. rewrite lookup_insert_eq. split; [set_solver|done].
    + rewrite lookup_insert_ne by done. destruct IH as [(v & Hin & E)|[Hno E]]; [left; exists v; set_solver|].
      right. split; [|done]. intros v Hin%elem_of_app. destruct Hin as [?|[= <- <-]%list_elem_of_singleton]; [by eapply Hno|done].
  - rewrite view_op1_other by done. destruct IH as [(v & Hin & E)|[Hno E]]; [left; exists v; set_solver|].
    right. split; [|done]. intros v Hin%elem_of_app. destruct Hin as [?|[= <- <- <-]%list_elem_of_singleton]; [by eapply Hno|done].
Qed.
Lemma clear_ranges_ok s ranges ops : ms_open s -> ranges_ok s ranges -> clear_ranges s ranges ops = Ok (ops ++ clear_ops (ms_view s) ranges).
Proof.
  intros Ho Hr. revert ops. induction Hr as [|kr ranges (Hk & Hb & Hord) Hr IH]; intros ops; cbn [clear_ranges].
  { unfold clear_ops. by rewrite app_nil_r. }
  rewrite paged_scan_ok by (done || lia). fold (kr_page (ms_view s) kr).
  assert (forall page ops, iter_try (fun ops kv => Ok (ops ++ [StoreOp_delete (kr_cf kr) kv.1])) page ops
            = Ok (E := MetaStoreError) (ops ++ deletes (kr_cf kr) page)) as Hi.
  { clear. induction page as [|kv page IH]; intros ops; cbn [iter_try]; [by rewrite app_nil_r|]. rewrite IH, <- app_assoc. done. }
  rewrite Hi. cbn [read_err]. rewrite IH. unfold clear_ops. by rewrite fmap_cons, mjoin_cons, app_assoc.
Qed.

(** The data a replica's snapshot carries. *)
Definition meta_snapshot_data sm (applied : option LogId * Membership) : MetaSnapshotData LogId Membership :=
  let '(inline, count, total) := PartitionGuard_counters (sm_guard sm) in
  {| ms_last_applied := applied.1; ms_last_membership := applied.2; ms_delq_seq := sm_delq_next sm; ms_ino_seq := sm_ino_next sm;
     ms_inline_bytes := inline; ms_inline_count := count; ms_total_bytes := total;
     ms_entries := filter (fun e => contains (sm_range sm) e.1.2 = true) (export (ms_view (sm_store sm)) (key_ranges (sm_range sm))) |}.
Lemma build_snapshot_ok seed sm id applied : sm_persisted seed sm -> ranges_ok (sm_store sm) (key_ranges (sm_range sm)) ->
  applied_state (LogId := LogId) (Membership := Membership) sm = Ok applied ->
  exists s' meta, meta_build_snapshot (LogId := LogId) (Membership := Membership) (sm_store sm) (sm_group sm) (sm_range sm) id
    = Ok (s', (meta, to_vec (meta_snapshot_data sm applied))).
Proof.
  intros [Ho Hgr Hd Hi Hiu Ht Hg Hrg] Hr. unfold applied_state, meta_build_snapshot.
  destruct (read_bookkeeping (A := LogId) _ _) as [la|]; [|done]. destruct (read_bookkeeping (A := Membership) _ _) as [mb|]; [|done].
  cbv beta iota zeta. intros [= <-]. rewrite ms_snapshot_ok; [|done|].
  2: { eapply Forall_impl; [exact Hr|]. by intros kr (_ & _ & ?). }
  rewrite !ms_get_ok by done. cbn [read_err]. unfold book, delq_seq_key, ino_seq_key, guard_key in *. rewrite Hg, Hd, Hi.
  unfold meta_snapshot_data. destruct (PartitionGuard_counters (sm_guard sm)) as [[inline count] total].
  match goal with |- context [ms_apply ?s ?ops] => destruct (ms_apply_ok s ops Ho) as (s' & -> & _) end.
  cbn [write_err]. eexists _, _. reflexivity.
Qed.

Definition install_records (group : Z) (meta : MetaSnapshotMeta LogId Membership) (data : MetaSnapshotData LogId Membership) : list StoreOp :=
  [match ms_last_applied data with
   | Some log_id => StoreOp_put Applied (applied_key group) (to_vec log_id)
   | None => StoreOp_delete Applied (applied_key group)
   end;
   StoreOp_put Applied (membership_key group) (to_vec (ms_last_membership data));
   StoreOp_put Applied (snapshot_key group) (to_vec (meta, to_vec data));
   StoreOp_put Applied (delq_seq_key group) (be_bytes 8 (ms_delq_seq data));
   StoreOp_put Applied (ino_seq_key group) (be_bytes 8 (ms_ino_seq data));
   StoreOp_put Applied (guard_key group)
     (encode_guard_record (ms_inline_bytes data) (ms_inline_count data) (ms_total_bytes data))].
Lemma install_records_other (cf : MetaCf) (group : Z) (meta : MetaSnapshotMeta LogId Membership) (data : MetaSnapshotData LogId Membership)
    (m : gmap bytes bytes) : cf <> Applied -> view_ops cf (install_records group meta data) m = m.
Proof.
  intros Hcf. apply view_ops_other. unfold install_records. repeat constructor; try done. by destruct (ms_last_applied data).
Qed.
Lemma install_records_applied (group : Z) (meta : MetaSnapshotMeta LogId Membership) (data : MetaSnapshotData LogId Membership)
    (m : gmap bytes bytes) :
  view_ops Applied (install_records group meta data) m !! applied_key group = to_vec <$> ms_last_applied data
  /\ view_ops Applied (install_records group meta data) m !! membership_key group = Some (to_vec (ms_last_membership data)).
Proof.
  unfold install_records, snapshot_key. rewrite view_ops_cons. set (m' := view_op _ _ _).
  assert (m' !! applied_key group = to_vec <$> ms_last_applied data) as Hm.
  { unfold m'. destruct (ms_last_applied data); [by rewrite view_op_put, lookup_insert_eq|by rewrite view_op_delete, lookup_delete_eq]. }
  split; book_simpl; [exact Hm|done].
Qed.
(** What the installing replica holds afterwards. *)
Definition installed (r : PartitionRange) (view_a view_b : MetaCf -> gmap bytes bytes) (cf : MetaCf) (k : bytes) : option bytes :=
  if decide (covered (key_ranges r) cf k) then if contains r k then view_a cf !! k else None else view_b cf !! k.
Lemma install_lookup view_a view_b (r : PartitionRange) (group : Z) (meta : MetaSnapshotMeta LogId Membership)
    (data : MetaSnapshotData LogId Membership) (cf : MetaCf) (k : bytes) : cf <> Applied ->
  ms_entries data = filter (fun e => contains r e.1.2 = true) (export view_a (key_ranges r)) ->
  view_ops cf (clear_ops view_b (key_ranges r) ++ ((fun e => StoreOp_put e.1.1 e.1.2 e.2) <$> ms_entries data)
               ++ install_records group meta data) (view_b cf) !! k
  = installed r view_a view_b cf k.
Proof.
  intros Hcf He. rewrite !view_ops_app, install_records_other by done. unfold installed.
  assert (forall v, (cf, k, v) ∈ ms_entries data <-> contains r k = true /\ covered (key_ranges r) cf k /\ view_a cf !! k = Some v) as Hin.
  { intros v. rewrite He, list_elem_of_filter, elem_of_export. done. }
  destruct (puts_lookup (ms_entries data) cf (view_ops cf (clear_ops view_b (key_ranges r)) (view_b cf)) k) as [(v & Hv & ->)|[Hno ->]].
  - apply Hin in Hv as (-> & Hc & ->). by rewrite decide_True.
  - rewrite clear_lookup by done. case_decide as Hc; [|done]. destruct (contains r k) eqn:Hr; [|done].
    destruct (view_a cf !! k) as [v|] eqn:Hv; [|done]. exfalso. apply (Hno v), Hin. done.
Qed.
Lemma meta_install_ok seed (sm sm_b : MetaStateMachine) (applied : option LogId * Membership) (meta : MetaSnapshotMeta LogId Membership) : sm_persisted seed sm -> ms_open (sm_store sm_b) -> sm_group sm_b = sm_group sm ->
  sm_range sm_b = sm_range sm -> ranges_ok (sm_store sm) (key_ranges (sm_range sm)) ->
  ranges_ok (sm_store sm_b) (key_ranges (sm_range sm)) -> range_sane (sm_range sm) ->
  keys_ok (ms_view (sm_store sm) Delq) -> keys_ok (ms_view (sm_store sm_b) Delq) ->
  exists sm_b', install_snapshot sm_b meta (to_vec (meta_snapshot_data sm applied)) = (sm_b', Ok tt)
    /\ (forall cf k, cf <> Applied -> ms_view (sm_store sm_b') cf !! k
         = installed (sm_range sm) (ms_view (sm_store sm)) (ms_view (sm_store sm_b)) cf k)
    /\ sm_delq_next sm_b' = sm_delq_next sm /\ sm_ino_next sm_b' = sm_ino_next sm
    /\ PartitionGuard_counters (sm_guard sm_b') = PartitionGuard_counters (sm_guard sm)
    /\ applied_state (LogId := LogId) (Membership := Membership) sm_b' = Ok applied
    /\ sm_group sm_b' = sm_group sm /\ sm_ino_tag sm_b' = sm_ino_tag sm_b /\ sm_range sm_b' = sm_range sm_b /\ ms_open (sm_store sm_b').
Proof.
  intros Hp Ho Hg Hr Hra Hrb Hsane Hka Hkb. unfold install_snapshot. rewrite from_to. cbv zeta. rewrite Hr, Hg.
  rewrite clear_ranges_ok by done. cbn [app]. set (data := meta_snapshot_data sm applied).
  assert (ms_entries data = filter (fun e => contains (sm_range sm) e.1.2 = true) (export (ms_view (sm_store sm)) (key_ranges (sm_range sm)))
          /\ ms_last_applied data = applied.1 /\ ms_last_membership data = applied.2 /\ ms_delq_seq data = sm_delq_next sm
          /\ ms_ino_seq data = sm_ino_next sm
          /\ (ms_inline_bytes data, ms_inline_count data, ms_total_bytes data) = PartitionGuard_counters (sm_guard sm))
    as (He & Hla & Hmb & Hdq & Hin & Hgc).
  { unfold data, meta_snapshot_data. by destruct (PartitionGuard_counters (sm_guard sm)) as [[? ?] ?]. }
  fold (install_records (sm_group sm) meta data).
  set (ops := clear_ops _ _ ++ _ ++ _). destruct (ms_apply_ok (sm_store sm_b) ops Ho) as (s' & Es & Ho' & Hv). rewrite Es. cbn [write_err].
  assert (forall cf k, cf <> Applied -> ms_view s' cf !! k = installed (sm_range sm) (ms_view (sm_store sm)) (ms_view (sm_store sm_b)) cf k) as Hinst.
  { intros cf k Hcf. rewrite Hv. by apply install_lookup. }
  sm_fields. rewrite count_delq_ok; [|done| |by rewrite Hr].
  2: { intros k v Hk. rewrite Hinst in Hk by done. unfold installed in Hk. destruct (decide _); [|by eapply Hkb].
       destruct (contains _ k); [by eapply Hka|done]. }
  cbn [read_err]. eexists. split; [reflexivity|]. sm_fields. split; [exact Hinst|]. split; [done|]. split; [done|]. split; [done|].
  split; [|done]. unfold applied_state, read_bookkeeping. cbn [sm_store sm_group]. rewrite Hg, !ms_get_ok by done. cbn [read_err].
  rewrite Hv. unfold ops. rewrite !view_ops_app.
  edestruct (install_records_applied (sm_group sm) meta data) as [E1 E2]. rewrite E1, E2, Hla, Hmb, from_to.
  destruct applied as [[la|] mb]; cbn [fst snd fmap option_fmap option_map]; [by rewrite from_to|done].
Qed.

(** C21: a snapshot carries a partition to another replica of its group that has the
    sender's range, where the bounds of every key range are in order: built on one and
    installed on the other, every family then holds, of the keys the partition's ranges
    cover, exactly the sender's entries that belong to it, everything outside as
    before, and the delete sequence, the inode counter, the inline accounting and the
    applied log position and membership are the sender's. The inode tag and the range
    stay the receiver's own; so a replica that has not applied a split yet has the wider
    range, and is not covered: [behind_split_clears_child]. *)
Theorem meta_snapshot_transfer (seed : PartitionRange) (sm sm_b : MetaStateMachine) (id : string) (applied : option LogId * Membership) :
  sm_persisted seed sm -> applied_state (LogId := LogId) (Membership := Membership) sm = Ok applied ->
  ms_open (sm_store sm_b) -> sm_group sm_b = sm_group sm -> sm_range sm_b = sm_range sm ->
  ranges_ok (sm_store sm) (key_ranges (sm_range sm)) -> ranges_ok (sm_store sm_b) (key_ranges (sm_range sm)) ->
  range_sane (sm_range sm) -> keys_ok (ms_view (sm_store sm) Delq) -> keys_ok (ms_view (sm_store sm_b) Delq) ->
  exists s' meta snapshot sm_b',
    meta_build_snapshot (LogId := LogId) (Membership := Membership) (sm_store sm) (sm_group sm) (sm_range sm) id = Ok (s', (meta, snapshot))
    /\ install_snapshot sm_b meta snapshot = (sm_b', Ok tt)
    /\ (forall cf k, cf <> Applied -> ms_view (sm_store sm_b') cf !! k
         = installed (sm_range sm) (ms_view (sm_store sm)) (ms_view (sm_store sm_b)) cf k)
    /\ sm_delq_next sm_b' = sm_delq_next sm /\ sm_ino_next sm_b' = sm_ino_next sm
    /\ PartitionGuard_counters (sm_guard sm_b') = PartitionGuard_counters (sm_guard sm)
    /\ applied_state (LogId := LogId) (Membership := Membership) sm_b' = Ok applied
    /\ sm_ino_tag sm_b' = sm_ino_tag sm_b /\ sm_range sm_b' = sm_range sm_b.
Proof.
  intros Hp Ha Ho Hg Hr Hra Hrb Hs Hka Hkb. destruct (build_snapshot_ok seed sm id applied Hp Hra Ha) as (s' & meta & Eb).
  destruct (meta_install_ok seed sm sm_b applied meta Hp Ho Hg Hr Hra Hrb Hs Hka Hkb) as (sm_b' & Ei & Hi). destruct_and! Hi. eauto 15.
Qed.
End Snapshot.

(** ** Examples *)

#[local] Instance raw_serde : Serde bytes := {| to_vec := id; from_slice := Some; from_to := fun x => eq_refl |}.
#[local] Instance z_serde : Serde Z :=
  {| to_vec := fun z => [z]; from_slice := fun b => match b with [z] => Some z | _ => None end; from_to := fun x => eq_refl |}.
Definition cf_index (cf : MetaCf) : Z := MetaCf_tag cf.
Definition cf_of_index (z : Z) : MetaCf := default Applied (list_find (fun cf => cf_index cf = z) MetaCf_ALL ≫= fun p => Some p.2).
Lemma cf_of_cf_index cf : cf_of_index (cf_index cf) = cf.
Proof. by destruct cf. Qed.
#[local] Program Instance range_serde : Serde PartitionRange :=
  iso_serde (countable_serde (A := bool * option (Z * bytes) * option (Z * bytes)))
    (fun r => (bool_decide (pr_ns r = Flat), pr_start r, pr_end r))
    (fun '(f, s, e) => {| pr_ns := if (f : bool) then Flat else Hier; pr_start := s; pr_end := e |}) _.
Next Obligation. by intros [[] ? ?]. Qed.
#[local] Program Instance pending_split_serde : Serde PendingSplit :=
  iso_serde (pair_serde (pair_serde z_serde range_serde) (countable_serde (A := list (Z * string) * Z)))
    (fun p => ((ps_child_group p, ps_child_range p), (ps_child_peers p, ps_bootstrap_node p)))
    (fun p => {| ps_child_group := p.1.1; ps_child_range := p.1.2; ps_child_peers := p.2.1; ps_bootstrap_node := p.2.2 |}) _.
Next Obligation. by intros []. Qed.
#[local] Program Instance entry_serde : Serde (MetaCf * bytes * bytes) :=
  iso_serde (pair_serde (pair_serde z_serde raw_serde) raw_serde)
    (fun e => ((cf_index e.1.1, e.1.2), e.2)) (fun p => (cf_of_index p.1.1, p.1.2, p.2)) _.
Next Obligation. intros [[cf k] v]. simpl. by rewrite cf_of_cf_index. Qed.
#[local] Program Instance snapshot_serde : Serde (MetaSnapshotData Z Z) :=
  iso_serde (pair_serde (pair_serde (countable_serde (A := option Z)) (list_serde z_serde)) (list_serde entry_serde))
    (fun d => ((ms_last_applied d, [ms_last_membership d; ms_delq_seq d; ms_ino_seq d; ms_inline_bytes d; ms_inline_count d; ms_total_bytes d]),
               ms_entries d))
    (fun p => let n i := nth i p.1.2 0 in
              {| ms_last_applied := p.1.1; ms_last_membership := n 0%nat; ms_delq_seq := n 1%nat; ms_ino_seq := n 2%nat;
                 ms_inline_bytes := n 3%nat; ms_inline_count := n 4%nat; ms_total_bytes := n 5%nat; ms_entries := p.2 |}) _.
Next Obligation. by intros []. Qed.
#[local] Program Instance stored_serde : Serde (MetaSnapshotMeta Z Z * bytes) :=
  iso_serde (pair_serde (countable_serde (A := option Z * Z * string)) raw_serde)
    (fun p => ((smeta_last_log_id p.1, smeta_last_membership p.1, smeta_snapshot_id p.1), p.2))
    (fun p => ({| smeta_last_log_id := p.1.1.1; smeta_last_membership := p.1.1.2; smeta_snapshot_id := p.1.2 |}, p.2)) _.
Next Obligation. by intros [[] ?]. Qed.
#[local] Instance ex_sm_serde : SmSerde Z Z := {| membership_default := 0 |}.

Abbreviation ex_sm := (MetaStateMachine (MS := mem_store)) (only parsing).
Abbreviation ex_entry := (LogEntry (LogId := Z) (Membership := Z)) (only parsing).
Definition ex_log (i : Z) (e : MetaEntry) : ex_entry := {| le_log_id := i; le_payload := Normal e |}.
Definition ex_open (s : MemEngine) (group : Z) (r : PartitionRange) : ex_sm :=
  match MetaStateMachine_new (MS := mem_store) (LogId := Z) (Membership := Z) s group r with
  | Ok sm => sm
  | Err _ => {| sm_store := ∅; sm_group := 0; sm_range := r; sm_guard := PartitionGuard_new; sm_delq_next := 0; sm_ino_next := 0; sm_ino_tag := 0 |}
  end.
Definition ex_fresh : ex_sm := ex_open ∅ 1 (PartitionRange_full Flat).
Definition ex_entries : list ex_entry :=
  [ex_log 1 (ME_Flat (FPut 7 [97] ex_big 1)); ex_log 2 (ME_Flat (FPut 7 [97] (ex_head (Inline [1; 2; 3])) 2));
   ex_log 3 (ME_Split {| so_child_group := 2; so_at_bucket := 7; so_at_routing_key := [109]; so_child_peers := [(4, "n4"%string)];
                         so_bootstrap_node := 4; so_child_ino_tag := 3 |})].
Definition ex_applied : ex_sm := Eval vm_compute in (sm_apply (MS := mem_store) id ex_fresh ex_entries).1.

Lemma ex_fresh_persisted : sm_persisted (MS := mem_store) (LogId := Z) (Membership := Z) (PartitionRange_full Flat) ex_fresh.
Proof. constructor; vm_compute; repeat split; congruence. Qed.

Lemma meta_restart_witness :
  exists guard, MetaStateMachine_new (MS := mem_store) (LogId := Z) (Membership := Z) (sm_store ex_applied) 1 (PartitionRange_full Flat)
      = Ok (with_store ex_applied (sm_store ex_applied) guard)
    /\ PartitionGuard_counters guard = (3, 1, 100) /\ pg_delq_depth guard = 1.
Proof.
  destruct (meta_restart (MS := mem_store) id (PartitionRange_full Flat) ex_fresh ex_applied ex_entries [RespNone; RespNone; RespNone])
    as (guard & E & Hc & Hd).
  - exact ex_fresh_persisted.
  - repeat constructor; vm_compute; congruence.
  - vm_compute. reflexivity.
  - apply keys_ok_forall, (bool_decide_unpack _). vm_compute. exact I.
  - split; [vm_compute; reflexivity|]. apply (bool_decide_unpack _). vm_compute. exact I.
  - exists guard. split; [exact E|]. split; [rewrite Hc; vm_compute; reflexivity|]. rewrite Hd. vm_compute. reflexivity.
Defined.

(** A sender with an object, and a receiver of the same group and range with a
    stale one. *)
Definition ex_sender : ex_sm := Eval vm_compute in (sm_apply (MS := mem_store) id ex_fresh (take 2 ex_entries)).1.
Definition ex_receiver : ex_sm :=
  Eval vm_compute in (sm_apply (MS := mem_store) id ex_fresh [ex_log 1 (ME_Flat (FPut 7 [98] (ex_head (Inline [9])) 1))]).1.
Lemma ex_sender_persisted : sm_persisted (MS := mem_store) (LogId := Z) (Membership := Z) (PartitionRange_full Flat) ex_sender.
Proof. constructor; vm_compute; repeat split; congruence. Qed.
Lemma meta_snapshot_transfer_witness :
  exists s' meta snapshot sm_b',
    meta_build_snapshot (MS := mem_store) (LogId := Z) (Membership := Z) (sm_store ex_sender) 1 (PartitionRange_full Flat) "s"
      = Ok (s', (meta, snapshot))
    /\ install_snapshot (MS := mem_store) ex_receiver meta snapshot = (sm_b', Ok tt)
    /\ ms_view (sm_store sm_b') Meta !! flat_key Meta 7 [98] [] = None
    /\ is_Some (ms_view (sm_store sm_b') Meta !! flat_key Meta 7 [97] [])
    /\ sm_delq_next sm_b' = 2 /\ applied_state (MS := mem_store) (LogId := Z) (Membership := Z) sm_b' = Ok (Some 2, 0).
Proof.
  destruct (meta_snapshot_transfer (MS := mem_store) (PartitionRange_full Flat) ex_sender ex_receiver "s" (Some 2, 0))
    as (s' & meta & snapshot & sm_b' & Eb & Ei & Hv & Hd & _ & _ & Ha & _).
  - exact ex_sender_persisted.
  - vm_compute. reflexivity.
  - exact I.
  - reflexivity.
  - reflexivity.
  - repeat constructor; try (apply keys_ok_forall, (bool_decide_unpack _); vm_compute; exact I);
      try (apply (bool_decide_unpack _); vm_compute; exact I).
  - repeat constructor; try (apply keys_ok_forall, (bool_decide_unpack _); vm_compute; exact I);
      try (apply (bool_decide_unpack _); vm_compute; exact I).
  - split; [vm_compute; reflexivity|]. apply (bool_decide_unpack _). vm_compute. exact I.
  - apply keys_ok_forall, (bool_decide_unpack _). vm_compute. exact I.
  - apply keys_ok_forall, (bool_decide_unpack _). vm_compute. exact I.
  - exists s', meta, snapshot, sm_b'. split; [exact Eb|]. split; [exact Ei|].
    split; [rewrite Hv by congruence; vm_compute; reflexivity|]. split; [rewrite Hv by congruence; eexists; vm_compute; reflexivity|].
    split; [rewrite Hd; vm_compute; reflexivity|exact Ha].
Defined.

(** *** A snapshot does not carry the inode tag *)

(** The child group of a split of a hierarchical partition: a replica that applied
    the parent's split opens it with the tag the split chose; one that joins the
    group later opens it with the range it is given, installs a snapshot and goes
    on from there. *)
Definition ex_hier_split : ex_entry :=
  ex_log 1 (ME_Split {| so_child_group := 2; so_at_bucket := 2 ^ 63; so_at_routing_key := be_bytes 8 1; so_child_peers := [];
                        so_bootstrap_node := 4; so_child_ino_tag := 3 |}).
Definition ex_child_range : PartitionRange :=
  Eval vm_compute in default (PartitionRange_full Hier) (snd <$> PartitionRange_split (PartitionRange_full Hier) (2 ^ 63, be_bytes 8 1)).
Definition ex_child : ex_sm :=
  ex_open (sm_store (sm_apply (MS := mem_store) id (ex_open ∅ 1 (PartitionRange_full Hier)) [ex_hier_split]).1) 2 ex_child_range.
Definition ex_joined : ex_sm :=
  match meta_build_snapshot (MS := mem_store) (LogId := Z) (Membership := Z) (sm_store ex_child) 2 ex_child_range "s" with
  | Ok (_, (meta, data)) => (install_snapshot (MS := mem_store) (ex_open ∅ 2 ex_child_range) meta data).1
  | Err _ => ex_open ∅ 2 ex_child_range
  end.
Definition ex_mkdir : list ex_entry := [ex_log 2 (ME_Hier (HMkdirSentinel (2 ^ 63) 1 [100] 5))].
Definition ex_minted (sm : ex_sm) : result SmErr (list MetaResponse) := (sm_apply (MS := mem_store) id sm ex_mkdir).2.

(** A replica that joins the child group of a split from a snapshot does not get
    the group's inode tag. It holds the same records and counter, but the next
    directory it applies from the same log entry gets another inode than on the
    replica that sent the snapshot, and there one of the bootstrap partition's. *)
Theorem snapshot_forgets_tag :
  sm_ino_next ex_joined = sm_ino_next ex_child
  /\ (forall cf, cf <> Applied -> ms_view (MetaStore := mem_store) (sm_store ex_joined) cf = ms_view (MetaStore := mem_store) (sm_store ex_child) cf)
  /\ ex_minted ex_child = Ok [MintedIno (Z.lor (Z.shiftl 3 INO_COUNTER_BITS) 0)]
  /\ ex_minted ex_joined = Ok [MintedIno 0].
Proof.
  split; [vm_compute; reflexivity|]. split; [|split; vm_compute; reflexivity].
  intros cf Hcf. destruct cf; try congruence; vm_compute; reflexivity.
Qed.

(** *** The bootstrap partition mints the root *)

Definition ex_root : ex_sm := ex_open ∅ 1 (PartitionRange_full Hier).
Definition ex_two_dirs : list ex_entry :=
  [ex_log 1 (ME_Hier (HMkdirSentinel (2 ^ 63) ROOT_INO [97] 5)); ex_log 2 (ME_Hier (HMkdirLink (2 ^ 63) ROOT_INO [97] 0 5));
   ex_log 3 (ME_Hier (HMkdirSentinel (2 ^ 63) ROOT_INO [98] 6)); ex_log 4 (ME_Hier (HMkdirLink (2 ^ 63) ROOT_INO [98] ROOT_INO 6))].

(** The inode counter of a fresh partition starts at 0 and nothing reserves the
    root's, so the second directory a bootstrap partition makes is the root itself:
    listing it lists the root, which contains it. *)
Theorem second_directory_is_root :
  match sm_apply (MS := mem_store) id ex_root ex_two_dirs with
  | (sm, Ok responses) =>
      responses = [MintedIno 0; RespNone; MintedIno ROOT_INO; RespNone]
      /\ lookup_ (MS := mem_store) (sm_store sm) (2 ^ 63) ROOT_INO [98] = Ok (Some (FsDir {| de_ino := ROOT_INO |}))
      /\ readdir (MS := mem_store) (sm_store sm) (2 ^ 63) ROOT_INO None 8
         = Ok [([97], FsDir {| de_ino := 0 |}); ([98], FsDir {| de_ino := ROOT_INO |})]
  | (_, Err _) => False
  end.
Proof. vm_compute. repeat split. Qed.

(** *** A snapshot from after a split *)

(** A replica of the parent's group that has not applied the split, on a node that
    hosts the child's group already: the child has put an object in the store the two
    share. It then installs the parent's snapshot from after the split. *)
Definition ex_lagging : ex_sm := ex_open (sm_store (sm_apply (MS := mem_store) id (ex_open ∅ 2 {| pr_ns := Flat; pr_start := Some (7, [109]); pr_end := None |})
  [ex_log 1 (ME_Flat (FPut 7 [120] (ex_head (Inline [5])) 1))]).1) 1 (PartitionRange_full Flat).
Definition ex_caught_up : ex_sm :=
  match meta_build_snapshot (MS := mem_store) (LogId := Z) (Membership := Z) (sm_store ex_applied) 1 (sm_range ex_applied) "s" with
  | Ok (_, (meta, data)) => (install_snapshot (MS := mem_store) ex_lagging meta data).1
  | Err _ => ex_lagging
  end.

(** The install clears the range the replica has, which is the one before the split,
    and the snapshot has entries of the parent's half only: the child's objects on that
    node are gone, and the replica keeps the wide range. *)
Theorem behind_split_clears_child :
  get_object_meta (MS := mem_store) (sm_store ex_lagging) 7 [120] = Ok (Some (ex_head (Inline [5]), [5], []))
  /\ get_object_meta (MS := mem_store) (sm_store ex_caught_up) 7 [120] = Ok None
  /\ sm_range ex_caught_up = PartitionRange_full Flat /\ sm_range ex_applied <> PartitionRange_full Flat.
Proof. split_and!; vm_compute; congruence. Qed.

(** *** A split restarts the delete sequence *)

(** The object is stored, replaced (its slice 1 is queued under sequence 1) and the
    partition split just before it; the child group stores another object and
    deletes the first, under its own sequence 1. *)
Definition ex_parent : list ex_entry :=
  [ex_log 1 (ME_Flat (FPut 7 [120] (ex_head (Slices [ex_slice 1])) 1)); ex_log 2 (ME_Flat (FPut 7 [120] (ex_head (Slices [ex_slice 2])) 2));
   ex_log 3 (ME_Split {| so_child_group := 2; so_at_bucket := 7; so_at_routing_key := [109]; so_child_peers := [];
                         so_bootstrap_node := 4; so_child_ino_tag := 3 |})].
Definition ex_before : MemEngine := Eval vm_compute in sm_store (sm_apply (MS := mem_store) id ex_fresh ex_parent).1.
Definition ex_flat_child : ex_sm :=
  ex_open ex_before 2 {| pr_ns := Flat; pr_start := Some (7, [109]); pr_end := None |}.
Definition ex_after : MemEngine :=
  Eval vm_compute in (sm_store (sm_apply (MS := mem_store) id ex_flat_child
    [ex_log 1 (ME_Flat (FPut 7 [121] (ex_head (Slices [ex_slice 3])) 3)); ex_log 2 (ME_Flat (FDelete 7 [120] 4))]).1).

(** The slices of every value, in no particular order. *)
Definition ref_list (view : MetaCf -> gmap bytes bytes) (cf : MetaCf) : list Slice :=
  mjoin ((fun kv => slices_in cf kv.2) <$> map_to_list (view cf)).
Lemma elem_of_flat_refs (s : MemEngine) (x : Slice) :
  x ∈ flat_refs (MS := mem_store) s
  <-> x ∈ ref_list (mem_view s) Meta ++ ref_list (mem_view s) MetaSeg ++ ref_list (mem_view s) Upload ++ ref_list (mem_view s) Delq.
Proof.
  unfold flat_refs, flat_refs_of, refs, mset. rewrite !gmultiset_elem_of_disj_union, !elem_of_list_to_set_disj, !elem_of_app. tauto.
Qed.

(** A split starts the child's delete sequence at 0 while the queued deletes of
    the child's half keep the parent's, so the child's deletes overwrite them: the
    slice queued before the split is referenced before and by nothing after, neither
    by an object nor by the delete queue, so it is never reclaimed. *)
Theorem split_loses_queued :
  sm_delq_next ex_flat_child = 0
  /\ (ex_slice 1 ∈ flat_refs (MS := mem_store) ex_before)
  /\ (ex_slice 1 ∉ flat_refs (MS := mem_store) ex_after)
  /\ (ex_slice 2 ∈ flat_refs (MS := mem_store) ex_after).
Proof.
  split; [vm_compute; reflexivity|]. rewrite !elem_of_flat_refs.
  split; [|split]; apply (bool_decide_unpack _); vm_compute; exact I.
Qed.
