(* ===== verification/MetaGc.v ===== *)
(** Reclaiming blobs from the metadata side (epoch-meta: deleter.rs, gc_export.rs):
    the sweep that tombstones queued deletes and dequeues them, and the export of
    the blob ids a partition references, which garbage collection keeps. *)

From S2P Require Import Prelude Ids Rocks PdDb MetaStore MetaKeys MetaNs MetaFlat.

Section Gc.
Context `{MetaSerde} {MS : MetaStore}.

(** ** The references of a partition (gc_export.rs) *)

Definition blob_refs (slices : list Slice) : gset Z := list_to_set (mjoin (sl_blob_ids <$> slices)).
Fixpoint export_refs_loop (s : store) (ranges : list KeyRange) (refs : gset Z) : MResult (gset Z) :=
  match ranges with
  | [] => Ok refs
  | kr :: ranges =>
      if decide (kr_cf kr = Delq \/ kr_cf kr = Ttl) then export_refs_loop s ranges refs
      else refs <-? paged_scan (scan_fuel s (kr_cf kr)) s (kr_cf kr) (kr_start kr) (kr_end kr) 4096
                      (fun refs kv => Ok (refs ∪ blob_refs (extract (kr_cf kr) kv.2))) refs ;;
           export_refs_loop s ranges refs
  end.
Definition export_references (s : store) (range : PartitionRange) : MResult (gset Z) :=
  export_refs_loop s (key_ranges range) ∅.
Definition is_referenced (refs : gset Z) (blob : Z) : bool := bool_decide (blob ∈ refs).

(** ** The delete sweep (deleter.rs) *)

Definition DEFAULT_SAFETY_DELAY : Z := 2 * 60 * 60 * 1000.
Definition DELQ_SCAN_PAGE : nat := 256.
Inductive MetaError : Set := ME_Store (e : MetaStoreError) | ME_Raft (reason : string).
Record DeleteEvent : Set := { ev_prefix : bytes; ev_entries : list (bytes * PendingDelete) }.
(** Failures and the instant (in milliseconds) until which an event waits. *)
Record Deleter : Set := { safety_delay : Z; backoff : gmap bytes (Z * Z) }.
Definition Deleter_with_safety_delay (delay : Z) : Deleter := {| safety_delay := delay; backoff := ∅ |}.
Definition Deleter_new : Deleter := Deleter_with_safety_delay DEFAULT_SAFETY_DELAY.

Definition event_prefix (key : bytes) : result MetaError bytes :=
  if (length key <? 1 + 8 + 8 + 4)%nat then Err (ME_Raft "delq key too short") else Ok (take (length key - 4) key).
Definition is_backing_off (d : Deleter) (key : bytes) (now : Z) : bool :=
  match event_prefix key with
  | Err _ => false
  | Ok prefix => match backoff d !! prefix with Some (_, next) => now <? next | None => false end
  end.
Definition register_backoff (d : Deleter) (prefix : bytes) (now_ : Z) : Deleter :=
  let failures := match backoff d !! prefix with Some (failures, _) => failures | None => 0 end in
  let failures := Z.min (Z.min (failures + 1) (2 ^ 32 - 1)) 9 in
  let delay := 1000 * Z.min (Z.shiftl 1 failures) 300 in
  {| safety_delay := safety_delay d; backoff := <[prefix := (failures, now_ + delay)]> (backoff d) |}.
Definition clear_backoff (d : Deleter) (prefix : bytes) : Deleter :=
  {| safety_delay := safety_delay d; backoff := delete prefix (backoff d) |}.

(** The clock read for each examined key, each call of the delete sink (event,
    slice and blob position) and each proposal to the consensus group are outside
    the source. A failed proposal may still have been applied. *)
Inductive ProposeOutcome : Set := Accepted | Lost (applied : bool).
Record World : Type := {
  w_clock : bytes -> Z;
  w_sink : nat -> nat -> nat -> bool;
  w_propose : nat -> ProposeOutcome }.

Definition push_entry (events : list DeleteEvent) (prefix key : bytes) (pending : PendingDelete) : list DeleteEvent :=
  let fresh := events ++ [{| ev_prefix := prefix; ev_entries := [(key, pending)] |}] in
  match last events with
  | Some event =>
      if decide (ev_prefix event = prefix)
      then take (length events - 1) events ++ [{| ev_prefix := prefix; ev_entries := ev_entries event ++ [(key, pending)] |}]
      else fresh
  | None => fresh
  end.
Definition collect_entry (w : World) (d : Deleter) (expire_before : Z) (events : list DeleteEvent) (kv : bytes * bytes)
    : result MetaError (list DeleteEvent) :=
  match from_slice (A := PendingDelete) kv.2 with
  | None => Err (ME_Raft "malformed delq entry")
  | Some pending =>
      if expire_before <? pd_enqueue_ts pending then Ok events
      else if is_backing_off d kv.1 (w_clock w kv.1) then Ok events
      else prefix <-? event_prefix kv.1 ;; Ok (push_entry events prefix kv.1 pending)
  end.
Fixpoint collect_events (fuel : nat) (w : World) (d : Deleter) (expire_before : Z) (s : store) (cursor end_ : bytes)
    (events : list DeleteEvent) : result MetaError (list DeleteEvent) :=
  match fuel with
  | O => Err (ME_Store MSE_Fuel)
  | S fuel =>
      match ms_scan s Delq cursor end_ DELQ_SCAN_PAGE with
      | Err e => Err (ME_Store e)
      | Ok page =>
          match last page with
          | None => Ok events
          | Some kv =>
              events <-? iter_try (collect_entry w d expire_before) page events ;;
              if (DELQ_SCAN_PAGE <=? length events)%nat then Ok events
              else collect_events fuel w d expire_before s (next_key kv.1) end_ events
          end
      end
  end.

(** One task per slice deletes its blobs in order and stops at the first failure;
    all tasks run to their end, 32 at a time. *)
Fixpoint delete_blobs (ok : nat -> bool) (chunk_id : Z) (blob_ids : list Z) (i : nat) : list (Z * Z) * bool :=
  match blob_ids with
  | [] => ([], true)
  | blob_id :: blob_ids =>
      if ok i then let '(gone, done_) := delete_blobs ok chunk_id blob_ids (S i) in ((chunk_id, blob_id) :: gone, done_)
      else ([], false)
  end.
Fixpoint delete_slices (sink : nat -> nat -> bool) (slices : list Slice) (i : nat) : list (Z * Z) * nat :=
  match slices with
  | [] => ([], O)
  | slice :: slices =>
      let '(gone, done_) := delete_blobs (sink i) (sl_chunk_id slice) (sl_blob_ids slice) 0 in
      let '(rest, failed) := delete_slices sink slices (S i) in
      (gone ++ rest, if done_ then failed else S failed)
  end.
Definition event_slices (event : DeleteEvent) : list Slice := mjoin ((fun e => pd_slices e.2) <$> ev_entries event).
Definition tombstone_event (sink : nat -> nat -> bool) (event : DeleteEvent) : list (Z * Z) * nat :=
  delete_slices sink (event_slices event) 0.

Record SweepState : Type := { sw_deleter : Deleter; sw_store : store; sw_deleted : list (Z * Z); sw_dequeued : nat }.
Definition dequeue_ops (event : DeleteEvent) : list StoreOp := (fun e => StoreOp_delete Delq e.1) <$> ev_entries event.
Fixpoint sweep_events (w : World) (events : list DeleteEvent) (i : nat) (st : SweepState) : SweepState :=
  match events with
  | [] => st
  | event :: events =>
      let '(gone, failed) := tombstone_event (w_sink w i) event in
      let deleted := sw_deleted st ++ gone in
      if (failed =? 0)%nat then
        let d := clear_backoff (sw_deleter st) (ev_prefix event) in
        let stay := {| sw_deleter := d; sw_store := sw_store st; sw_deleted := deleted; sw_dequeued := sw_dequeued st |} in
        match w_propose w i with
        | Lost false => stay
        | outcome =>
            match ms_apply (sw_store st) (dequeue_ops event) with
            | Err _ => stay
            | Ok s =>
                match outcome with
                | Accepted => sweep_events w events (S i)
                                {| sw_deleter := d; sw_store := s; sw_deleted := deleted;
                                   sw_dequeued := (sw_dequeued st + length (ev_entries event))%nat |}
                | Lost _ => {| sw_deleter := d; sw_store := s; sw_deleted := deleted; sw_dequeued := sw_dequeued st |}
                end
            end
        end
      else
        sweep_events w events (S i)
          {| sw_deleter := register_backoff (sw_deleter st) (ev_prefix event) (w_clock w (ev_prefix event));
             sw_store := sw_store st; sw_deleted := deleted; sw_dequeued := sw_dequeued st |}
  end.
Definition Deleter_sweep (w : World) (is_leader : bool) (d : Deleter) (s : store) (range : PartitionRange) (now_millis : Z)
    : SweepState * result MetaError nat :=
  let st := {| sw_deleter := d; sw_store := s; sw_deleted := []; sw_dequeued := O |} in
  if negb is_leader then (st, Ok O)
  else
    match list_find (fun kr => kr_cf kr = Delq) (key_ranges range) with
    | None => (st, Ok O)
    | Some (_, bounds) =>
        match collect_events (scan_fuel s Delq) w d (now_millis - safety_delay d) s (kr_start bounds) (kr_end bounds) [] with
        | Err e => (st, Err e)
        | Ok events => let st := sweep_events w events 0 st in (st, Ok (sw_dequeued st))
        end
    end.
End Gc.
