(* ===== verification/MetaGcProps.v ===== *)
(** Reclamation, proved: what the export of references contains and that garbage
    collection keeps every readable blob, that the delete sweep only tombstones
    expired queue entries and dequeues only what it tombstoned, and that it drains
    the queue when nothing fails. *)

From S2P Require Import Prelude Ids Rocks PdDb MetaStore MetaKeys MetaNs MetaRefs MetaFlat MetaFlatProps MetaSm MetaSmProps MetaGc.

Lemma key_ranges_cf (r : PartitionRange) (kr : KeyRange) : kr ∈ key_ranges r -> kr_cf kr ∈ key_ranges_cfs (pr_ns r).
Proof. intros (cf & -> & Hcf)%list_elem_of_fmap. by destruct (is_shared_cf cf), (pr_ns r). Qed.

Section RefExport.
Context `{MetaSerde} {MS : MetaStore}.

(** Blob [b] is mentioned by an entry of family [cf] inside the range. *)
Definition mentioned (s : store) (kr : KeyRange) (b : Z) : Prop :=
  exists k v slice, ms_view s (kr_cf kr) !! k = Some v /\ in_range (kr_start kr) (kr_end kr) (k, [])
    /\ slice ∈ extract (kr_cf kr) v /\ b ∈ sl_blob_ids slice.
Definition keeps (kr : KeyRange) : Prop := kr_cf kr <> Delq /\ kr_cf kr <> Ttl.
Definition kept_ranges_ok (s : store) (ranges : list KeyRange) : Prop := Forall (fun kr => keeps kr -> range_ok s kr) ranges.

Lemma elem_of_blob_refs b slices : b ∈ blob_refs slices <-> exists slice, slice ∈ slices /\ b ∈ sl_blob_ids slice.
Proof.
  unfold blob_refs. rewrite elem_of_list_to_set, list_elem_of_join. split.
  - intros (l & Hb & Hl). apply list_elem_of_fmap in Hl as (slice & -> & Hs). by exists slice.
  - intros (slice & Hs & Hb). exists (sl_blob_ids slice). split; [done|]. apply list_elem_of_fmap. by exists slice.
Qed.
Lemma iter_refs cf (page : KvPage) refs : exists refs',
  iter_try (fun refs kv => Ok (refs ∪ blob_refs (extract cf kv.2))) page refs = Ok (E := MetaStoreError) refs'
  /\ forall b, b ∈ refs' <-> b ∈ refs \/ exists kv, kv ∈ page /\ b ∈ blob_refs (extract cf kv.2).
Proof.
  revert refs. induction page as [|kv page IH]; intros refs; cbn [iter_try].
  - exists refs. split; [done|]. intros b. split; [by left|]. intros [?|(kv & Hin & _)]; [done|]. by apply elem_of_nil in Hin.
  - destruct (IH (refs ∪ blob_refs (extract cf kv.2))) as (refs' & -> & Hr). exists refs'. split; [done|]. intros b.
    rewrite Hr, elem_of_union. set_unfold. naive_solver.
Qed.
Lemma export_refs_ok s ranges refs : ms_open s -> kept_ranges_ok s ranges ->
  exists refs', export_refs_loop s ranges refs = Ok refs'
    /\ forall b, b ∈ refs' <-> b ∈ refs \/ exists kr, kr ∈ ranges /\ keeps kr /\ mentioned s kr b.
Proof.
  intros Ho Hr. revert refs. induction Hr as [|kr ranges Hkr _ IH]; intros refs; cbn [export_refs_loop].
  { exists refs. split; [done|]. set_solver. }
  destruct (decide (kr_cf kr = Delq \/ kr_cf kr = Ttl)) as [Hd|Hd].
  - destruct (IH refs) as (refs' & -> & Hi). exists refs'. split; [done|]. intros b. rewrite Hi. unfold keeps. set_solver.
  - assert (keeps kr) as Hk by (unfold keeps; tauto). destruct (Hkr Hk) as (Hok & Hb & Hord).
    rewrite paged_scan_ok by (done || lia).
    destruct (iter_refs (kr_cf kr) (range (ms_view s (kr_cf kr)) (kr_start kr) (kr_end kr)) refs) as (refs1 & -> & H1).
    destruct (IH refs1) as (refs' & -> & Hi). exists refs'. split; [done|]. intros b. rewrite Hi, H1.
    assert ((exists kv, kv ∈ range (ms_view s (kr_cf kr)) (kr_start kr) (kr_end kr) /\ b ∈ blob_refs (extract (kr_cf kr) kv.2))
            <-> mentioned s kr b) as ->.
    { unfold mentioned. split.
      - intros ([k v] & Hin & Hb'). apply elem_of_range in Hin as [Hv Hin]. apply elem_of_blob_refs in Hb' as (slice & ? & ?).
        exists k, v, slice. done.
      - intros (k & v & slice & Hv & Hin & Hs & Hb'). exists (k, v). split; [by apply elem_of_range|]. apply elem_of_blob_refs. by exists slice. }
    set_unfold. naive_solver.
Qed.

(** What an object that reads gives away about the store. *)
Lemma read_segments_in s b key nos acc slices slice : ms_open s -> read_segments s b key nos acc = Ok slices -> slice ∈ slices ->
  slice ∈ acc \/ exists i v, ms_view s MetaSeg !! seg_key b key i = Some v /\ slice ∈ extract MetaSeg v.
Proof.
  intros Ho. revert acc. induction nos as [|i nos IH]; intros acc; cbn [read_segments]; [intros [= <-]; by left|].
  unfold get_segment. rewrite ms_get_ok by done. fold (seg_key b key i). cbv beta iota.
  destruct (ms_view s MetaSeg !! seg_key b key i) as [v|] eqn:Hv; [|done]. destruct (from_slice v) as [x|] eqn:Hx; [|done].
  cbn [ok_or]. intros E Hs. destruct (IH _ E Hs) as [[?|?]%elem_of_app|?]; [by left|right|by right].
  exists i, v. split; [done|]. cbn [extract]. by rewrite Hx.
Qed.
Lemma readable_mentioned s b key head data slices slice : ms_open s ->
  get_object_meta s b key = Ok (Some (head, data, slices)) -> slice ∈ slices ->
  exists cf suffix v, ((cf = Meta /\ suffix = []) \/ (cf = MetaSeg /\ exists i, suffix = suffix_seg_no i)) /\ ms_view s cf !! flat_key cf b key suffix = Some v /\ slice ∈ extract cf v.
Proof.
  intros Ho. unfold get_object_meta, get_head. rewrite ms_get_ok by done. cbv beta iota.
  destruct (ms_view s Meta !! flat_key Meta b key []) as [v|] eqn:Hv; [|done]. unfold decode_head.
  destruct (from_slice v) as [h|] eqn:Hh; [|done]. cbn [ok_or]. destruct (oh_content h) as [d|embedded] eqn:Hc.
  - intros [= <- <- <-] Hs. by apply elem_of_nil in Hs.
  - destruct (read_segments _ _ _ _ _) as [l|] eqn:Er; [|done]. intros [= <- <- <-] Hs.
    destruct (read_segments_in _ _ _ _ _ _ _ Ho Er Hs) as [Hin|(i & x & Hx & Hin)].
    + exists Meta, [], v. split; [left; done|]. split; [done|]. cbn [extract]. by rewrite Hh, Hc.
    + exists MetaSeg, (suffix_seg_no i), x. split; [right; eauto|auto].
Qed.
Lemma key_range_of (r : PartitionRange) (cf : MetaCf) : cf = primary_cf (pr_ns r) \/ cf = MetaSeg ->
  exists kr, kr ∈ key_ranges r /\ kr_cf kr = cf.
Proof.
  intros Hcf. unfold key_ranges. assert (cf ∈ key_ranges_cfs (pr_ns r)) as Hin.
  { destruct (pr_ns r), Hcf as [->| ->]; set_solver. }
  eexists. split; [apply list_elem_of_fmap; exists cf; split; [reflexivity|done]|]. destruct (is_shared_cf cf), (pr_ns r); done.
Qed.
End RefExport.

Section KeepSet.
Context `{MetaSerde} {MS : MetaStore}.

(** A flat partition at its leader: its range and the store of the leader's engine. *)
Definition leader_ok (p : PartitionRange * store) : Prop :=
  ms_open p.2 /\ pr_ns p.1 = Flat /\ range_wf p.1 /\ kept_ranges_ok p.2 (key_ranges p.1).

Lemma mention_in_range (r : PartitionRange) (s : store) cf b key suffix v slice blob : pr_ns r = Flat -> range_wf r -> is_u64 b -> bucket_ns b = Flat ->
  cf = Meta \/ cf = MetaSeg -> contains_coord r b (key ++ suffix) = true ->
  ms_view s cf !! flat_key cf b key suffix = Some v -> slice ∈ extract cf v -> blob ∈ sl_blob_ids slice ->
  exists kr, kr ∈ key_ranges r /\ keeps kr /\ mentioned s kr blob.
Proof.
  intros Hflat Hwf Hb Hns Hcf Hc Hv Hin Hbl. destruct (key_range_of r cf) as (kr & Hkr & <-); [rewrite Hflat; naive_solver|].
  exists kr. split; [done|]. split; [unfold keeps; naive_solver congruence|]. exists (flat_key (kr_cf kr) b key suffix), v, slice.
  split; [done|]. split; [|done].
  assert (flat_key (kr_cf kr) b key suffix = cf_bound (kr_cf kr) b (key ++ suffix)) as -> by done.
  assert (kr_cf kr <> Ttl) as Ht by naive_solver congruence.
  apply (key_ranges_iff r kr b (key ++ suffix) [] Hwf Hb Hkr Ht); [rewrite Hflat; by right|].
  rewrite Hflat. split; [|done]. rewrite contains_bound; [done| |naive_solver congruence|done].
  by apply key_ranges_cf.
Qed.

(** C16: garbage collection keeps the blobs that can be read, and only referenced
    ones. Over any flat partitions, each with the store of its own leader, the export
    of every partition succeeds with exactly the blob ids that heads, segments and
    upload parts in its ranges mention. Every blob of every object that the leader of
    the object's partition can read is in that leader's export, unless it comes from
    an overflow segment whose key lies outside the partition's range, as a split
    between an object's key and an extension of it can bring about
    ([split_strands_suffix]). *)
Theorem gc_keeps_readable (ps : list (PartitionRange * store)) : Forall leader_ok ps ->
  forall p, p ∈ ps -> exists export, export_references p.2 p.1 = Ok export
    /\ (forall b, b ∈ export <-> exists kr, kr ∈ key_ranges p.1 /\ keeps kr /\ mentioned p.2 kr b)
    /\ forall b key head data slices slice blob, is_u64 b -> bucket_ns b = Flat -> contains_coord p.1 b key = true ->
         get_object_meta p.2 b key = Ok (Some (head, data, slices)) -> slice ∈ slices -> blob ∈ sl_blob_ids slice ->
         is_referenced export blob = true
         \/ exists i v, ms_view p.2 MetaSeg !! seg_key b key i = Some v /\ slice ∈ extract MetaSeg v
              /\ contains_coord p.1 b (key ++ suffix_seg_no i) = false.
Proof.
  rewrite Forall_forall. intros Hps [r s] Hp. destruct (Hps _ Hp) as (Ho & Hflat & Hwf & Hk). cbn [fst snd] in *.
  destruct (export_refs_ok s (key_ranges r) ∅ Ho Hk) as (refs & E & Hrefs). setoid_rewrite elem_of_empty in Hrefs.
  exists refs. split; [exact E|]. split; [intros b; rewrite Hrefs; tauto|].
  intros b key head data slices slice blob Hb Hns Hc Hg Hs Hbl.
  destruct (readable_mentioned s b key head data slices slice Ho Hg Hs) as (cf & suffix & v & Hcf & Hv & Hin).
  destruct (contains_coord r b (key ++ suffix)) eqn:Ec.
  - left. apply bool_decide_eq_true_2, Hrefs. right. eapply mention_in_range; try done. naive_solver.
  - right. destruct Hcf as [[-> ->]|[-> [i ->]]]; [rewrite app_nil_r in Ec; congruence|]. by exists i, v.
Qed.
End KeepSet.

(** ** Splits and keys with a suffix *)

(** A split point that extends an object's key parts the object from its
    suffixed entries. The object routes to the left half; but a segment, upload or
    queue entry of it whose suffix is not below the extension lies outside the left
    half's export range of that family and counts as the right half's, so neither
    half's snapshot for the object's owner carries it. *)
Theorem split_strands_suffix (r left_ right_ : PartitionRange) (b : Z) (key ext suffix : bytes) (kr : KeyRange) :
  range_wf r -> is_u64 b -> bucket_ns b = pr_ns r -> ext <> [] ->
  PartitionRange_split r (b, key ++ ext) = Some (left_, right_) ->
  contains_coord r b key = true -> contains_coord r b (key ++ suffix) = true -> lex_leb ext suffix = true ->
  kr ∈ key_ranges left_ -> is_shared_cf (kr_cf kr) = true -> kr_cf kr <> Ttl ->
  contains_coord left_ b key = true /\ contains_coord right_ b key = false
  /\ ~ in_range (kr_start kr) (kr_end kr) (flat_key (kr_cf kr) b key suffix, [])
  /\ contains left_ (flat_key (kr_cf kr) b key suffix) = false
  /\ contains right_ (flat_key (kr_cf kr) b key suffix) = true.
Proof.
  intros Hwf Hb Hns Hext Hsp Hck Hcs Hle Hkr Hsh Ht. unfold PartitionRange_split in Hsp.
  destruct (negb _) eqn:E1; [done|]. cbn [fst snd] in *. destruct (bool_decide _); [done|]. injection Hsp as <- <-.
  assert (pr_coord_ltb (b, key) (b, key ++ ext) = true) as Hlt.
  { unfold pr_coord_ltb. cbn [fst snd]. rewrite Z.ltb_irrefl, Z.eqb_refl. cbn.
    rewrite <- (app_nil_r key) at 1. rewrite lex_ltb_app. by destruct ext. }
  assert (pr_coord_ltb (b, key ++ suffix) (b, key ++ ext) = false) as Hge.
  { unfold pr_coord_ltb. cbn [fst snd]. rewrite Z.ltb_irrefl, Z.eqb_refl. cbn. rewrite lex_ltb_app.
    unfold lex_leb in Hle. by apply negb_true_iff in Hle. }
  apply andb_true_iff in Hck as [Hk1 Hk2]. apply andb_true_iff in Hcs as [Hs1 Hs2].
  set (left_ := {| pr_start := pr_start r |}) in *. set (right_ := {| pr_end := pr_end r |}).
  pose proof (key_ranges_cf left_ kr Hkr) as Hcf.
  assert (flat_key (kr_cf kr) b key suffix = cf_bound (kr_cf kr) b (key ++ suffix)) as -> by done.
  rewrite (contains_bound left_), (contains_bound right_) by done.
  assert (contains_coord left_ b (key ++ suffix) = false) as Hl.
  { unfold contains_coord. cbn [pr_end left_]. rewrite Hge. apply andb_false_r. }
  split; [unfold contains_coord; cbn [pr_start pr_end left_]; by rewrite Hk1|].
  split; [unfold contains_coord, pr_coord_leb; cbn [pr_start pr_end right_]; by rewrite Hlt|].
  split; [|split; [done|unfold contains_coord, pr_coord_leb; cbn [pr_start pr_end right_]; by rewrite Hge, Hs2]].
  intros Hin. apply (key_ranges_iff left_ kr b (key ++ suffix) []) in Hin as [Hin _]; [|split|done..|by left].
  - rewrite contains_bound in Hin by done. congruence.
  - exact (proj1 Hwf).
  - cbn. by intros e [= <-].
Qed.

(** ** The sweep *)

Section Sweep.
Context `{MetaSerde} {MS : MetaStore} (w : World).
Implicit Types (d : Deleter) (s : store) (e : bytes * PendingDelete) (events : list DeleteEvent).

Definition slice_blobs (slice : Slice) : list (Z * Z) := (fun b => (sl_chunk_id slice, b)) <$> sl_blob_ids slice.
Definition slices_blobs (slices : list Slice) : list (Z * Z) := mjoin (slice_blobs <$> slices).
Definition events_entries events : list (bytes * PendingDelete) := mjoin (ev_entries <$> events).
(** What the sweep takes of a queue entry: expired, and not backing off. *)
Definition eligible d (expire_before : Z) (kv : bytes * bytes) : option (bytes * PendingDelete) :=
  p ← from_slice (A := PendingDelete) kv.2;
  if (expire_before <? pd_enqueue_ts p) || is_backing_off d kv.1 (w_clock w kv.1) then None else Some (kv.1, p).

Lemma delete_blobs_sub ok c blobs i x : x ∈ (delete_blobs ok c blobs i).1 -> x ∈ (fun b => (c, b)) <$> blobs.
Proof.
  revert i. induction blobs as [|b blobs IH]; intros i; cbn [delete_blobs]; [done|]. destruct (ok i); [|set_solver].
  specialize (IH (S i)). destruct (delete_blobs ok c blobs (S i)) as [gone fin]. cbn [fst] in *. rewrite fmap_cons. set_solver.
Qed.
Lemma delete_blobs_all ok c blobs i : (delete_blobs ok c blobs i).2 = true -> (delete_blobs ok c blobs i).1 = (fun b => (c, b)) <$> blobs.
Proof.
  revert i. induction blobs as [|b blobs IH]; intros i; cbn [delete_blobs]; [done|]. destruct (ok i); [|done].
  specialize (IH (S i)). destruct (delete_blobs ok c blobs (S i)) as [gone fin]. cbn [fst snd] in *. intros Hf. by rewrite fmap_cons, IH.
Qed.
Lemma delete_blobs_ok ok c blobs i : (forall j, ok j = true) -> (delete_blobs ok c blobs i).2 = true.
Proof.
  intros Hok. revert i. induction blobs as [|b blobs IH]; intros i; cbn [delete_blobs]; [done|]. rewrite Hok.
  specialize (IH (S i)). by destruct (delete_blobs ok c blobs (S i)).
Qed.
Lemma delete_slices_sub sink slices i x : x ∈ (delete_slices sink slices i).1 -> x ∈ slices_blobs slices.
Proof.
  revert i. induction slices as [|slice slices IH]; intros i; cbn [delete_slices]; [done|].
  pose proof (delete_blobs_sub (sink i) (sl_chunk_id slice) (sl_blob_ids slice) 0 x) as Hb. specialize (IH (S i)).
  destruct (delete_blobs _ _ _ _) as [gone fin], (delete_slices _ _ _) as [rest failed]. cbn [fst] in *.
  unfold slices_blobs in *. rewrite fmap_cons, mjoin_cons, !elem_of_app. unfold slice_blobs at 1. tauto.
Qed.
Lemma delete_slices_all sink slices i : (delete_slices sink slices i).2 = O -> (delete_slices sink slices i).1 = slices_blobs slices.
Proof.
  revert i. induction slices as [|slice slices IH]; intros i; cbn [delete_slices]; [done|].
  pose proof (delete_blobs_all (sink i) (sl_chunk_id slice) (sl_blob_ids slice) 0) as Hb. specialize (IH (S i)).
  destruct (delete_blobs _ _ _ _) as [gone fin], (delete_slices _ _ _) as [rest failed]. cbn [fst snd] in *.
  destruct fin; [|done]. intros Hf. unfold slices_blobs in *. by rewrite fmap_cons, mjoin_cons, <- IH, Hb.
Qed.
Lemma delete_slices_ok sink slices i : (forall j k, sink j k = true) -> (delete_slices sink slices i).2 = O.
Proof.
  intros Hok. revert i. induction slices as [|slice slices IH]; intros i; cbn [delete_slices]; [done|].
  pose proof (delete_blobs_ok (sink i) (sl_chunk_id slice) (sl_blob_ids slice) 0 (Hok i)) as Hb. specialize (IH (S i)).
  destruct (delete_blobs _ _ _ _) as [gone fin], (delete_slices _ _ _) as [rest failed]. cbn [snd] in *. by rewrite Hb.
Qed.

(** *** Collecting *)

Lemma mjoin_app {A} (l1 l2 : list (list A)) : mjoin (l1 ++ l2) = mjoin l1 ++ mjoin l2.
Proof. induction l1 as [|x l1 IH]; [done|]. cbn [app]. by rewrite !mjoin_cons, IH, app_assoc. Qed.
Lemma push_entry_entries events prefix k p : events_entries (push_entry events prefix k p) = events_entries events ++ [(k, p)].
Proof.
  unfold push_entry, events_entries. destruct (last events) as [event|] eqn:El.
  - apply last_Some in El as [l ->]. case_decide; rewrite !fmap_app, !mjoin_app; [|by cbn; rewrite ?app_nil_r].
    rewrite length_app, Nat.add_sub, take_app_length. cbn. by rewrite !app_nil_r, app_assoc.
  - by rewrite fmap_app, mjoin_app.
Qed.
Lemma collect_page_entries d eb (page : KvPage) events events' : iter_try (collect_entry w d eb) page events = Ok events' ->
  events_entries events' = events_entries events ++ omap (eligible d eb) page.
Proof.
  revert events. induction page as [|kv page IH]; intros events; cbn [iter_try omap list_omap]; [intros [= <-]; by rewrite app_nil_r|].
  unfold collect_entry, eligible. destruct (from_slice kv.2) as [p|]; [|done]. cbn [mbind option_bind].
  destruct (eb <? pd_enqueue_ts p); cbn [orb]; [by apply IH|]. destruct (is_backing_off _ _ _); [by apply IH|].
  destruct (event_prefix kv.1) as [prefix|]; [|done]. intros E. rewrite (IH _ E), push_entry_entries, <- app_assoc. done.
Qed.
Lemma collect_page_total d eb (page : KvPage) events :
  Forall (fun kv => is_Some (from_slice (A := PendingDelete) kv.2) /\ (21 <= length kv.1)%nat) page ->
  exists events', iter_try (collect_entry w d eb) page events = Ok events'.
Proof.
  intros Hp. revert events. induction Hp as [|kv page [[p Hp] Hl] _ IH]; intros events; cbn [iter_try]; [by eexists|].
  unfold collect_entry at 1. rewrite Hp. destruct (eb <? _); [apply IH|]. destruct (is_backing_off _ _ _); [apply IH|].
  unfold event_prefix. destruct (Nat.ltb_spec (length kv.1) (1 + 8 + 8 + 4)); [lia|]. apply IH.
Qed.
(** No event is empty. *)
Definition nonempty events : Prop := Forall (fun event => ev_entries event <> []) events.
Lemma push_entry_nonempty events prefix k p : nonempty events -> nonempty (push_entry events prefix k p).
Proof.
  intros Hn. unfold push_entry. destruct (last events); [case_decide|]; (apply Forall_app; split; [by try apply Forall_take|]);
    (constructor; [|constructor]); cbn; [|done..]. by intros [_ ?]%app_eq_nil.
Qed.
Lemma collect_nonempty d eb fuel s cursor end_ events events' : nonempty events ->
  collect_events fuel w d eb s cursor end_ events = Ok events' -> nonempty events'.
Proof.
  revert cursor events. induction fuel as [|fuel IH]; intros cursor events Hn; cbn [collect_events]; [done|].
  destruct (ms_scan _ _ _ _ _) as [page|]; [|done]. destruct (last page); [|by intros [= <-]].
  destruct (iter_try _ page events) as [events1|] eqn:Ei; [|done]. apply (iter_try_inv nonempty) in Ei; [|clear; intros es kv es' Hn|done].
  - destruct (_ <=? _)%nat; [by intros [= <-]|]. by apply IH.
  - unfold collect_entry. destruct (from_slice _); [|done]. destruct (_ <? _); [by intros [= <-]|].
    destruct (is_backing_off _ _ _); [by intros [= <-]|]. destruct (event_prefix _); [|done]. intros [= <-]. by apply push_entry_nonempty.
Qed.
Lemma nonempty_length events : nonempty events -> (length events <= length (events_entries events))%nat.
Proof.
  unfold events_entries. induction 1 as [|event events He _ IH]; [done|]. rewrite fmap_cons, mjoin_cons, length_app. cbn [length].
  destruct (ev_entries event); [done|]. cbn [length]. lia.
Qed.
Definition entries_ok (l : KvPage) : Prop :=
  Forall (fun kv => is_Some (from_slice (A := PendingDelete) kv.2) /\ (21 <= length kv.1)%nat) l.
(** Either an error, which well-formed entries exclude, or the eligible entries of
    the range, cut only after 256 events. *)
Lemma collect_events_ok d eb fuel s start end_ events : ms_open s -> keys_ok (ms_view s Delq) -> is_bytes end_ ->
  lex_leb start end_ = true -> (length (range (ms_view s Delq) start end_) < fuel)%nat ->
  (exists err, collect_events fuel w d eb s start end_ events = Err err /\ ~ entries_ok (range (ms_view s Delq) start end_))
  \/ exists events' l1 l2, collect_events fuel w d eb s start end_ events = Ok events'
    /\ range (ms_view s Delq) start end_ = l1 ++ l2
    /\ events_entries events' = events_entries events ++ omap (eligible d eb) l1
    /\ (l2 = [] \/ (DELQ_SCAN_PAGE <= length events')%nat).
Proof.
  intros Ho Hk Hb. revert start events. induction fuel as [|fuel IH]; intros start events Hle Hf; [lia|].
  cbn [collect_events]. rewrite ms_scan_ok by done. set (l := range (ms_view s Delq) start end_) in *.
  assert (0 < DELQ_SCAN_PAGE)%nat as Hpos by (unfold DELQ_SCAN_PAGE; lia).
  pose proof (page_split l DELQ_SCAN_PAGE _ eq_refl Hpos) as Hp.
  destruct (last (take DELQ_SCAN_PAGE l)) as [[k v]|].
  2: { right. exists events, [], []. split; [done|]. split; [done|]. split; [cbn; by rewrite app_nil_r|by left]. }
  destruct Hp as (l0 & E & Epage). cbn [fst].
  destruct (iter_try (collect_entry w d eb) (take DELQ_SCAN_PAGE l) events) as [events1|e1] eqn:Ei.
  2: { left. exists e1. split; [done|]. intros Hall. destruct (collect_page_total d eb (take DELQ_SCAN_PAGE l) events) as [? Ht];
       [by apply Forall_take|congruence]. }
  apply collect_page_entries in Ei. destruct (Nat.leb_spec DELQ_SCAN_PAGE (length events1)).
  { right. exists events1, (take DELQ_SCAN_PAGE l), (drop DELQ_SCAN_PAGE l). rewrite take_drop. auto. }
  pose proof (range_after _ _ _ _ _ _ _ Hk E) as Hr.
  destruct (IH (next_key k) events1) as [(e2 & E2 & Hn)|(events' & l1 & l2 & E2 & Hl & He & Hd)].
  - assert ((k, v) ∈ l) as Hin by (rewrite E; set_solver). rewrite next_key_le by done. by apply elem_of_range in Hin as (_ & _ & ?).
  - rewrite Hr. apply (f_equal length) in E. rewrite length_app in E. simpl in E. lia.
  - left. exists e2. split; [done|]. rewrite Hr in Hn. intros Hall. apply Hn. by apply Forall_drop.
  - right. exists events', (take DELQ_SCAN_PAGE l ++ l1), l2. split; [done|]. rewrite Hr in Hl.
    split; [by rewrite <- app_assoc, <- Hl, take_drop|]. split; [|done]. by rewrite He, Ei, omap_app, app_assoc.
Qed.

(** *** Tombstoning and dequeuing *)

Definition dequeue (gone : list (bytes * PendingDelete)) : list StoreOp := (fun e => StoreOp_delete Delq e.1) <$> gone.
Lemma dequeue_lookup (gone : list (bytes * PendingDelete)) (m : gmap bytes bytes) (k : bytes) :
  view_ops Delq (dequeue gone) m !! k = if decide (k ∈ gone.*1) then None else m !! k.
Proof.
  assert (dequeue gone = deletes Delq ((fun e => (e.1, [])) <$> gone)) as ->.
  { unfold dequeue, deletes. rewrite <- list_fmap_compose. done. }
  rewrite view_deletes_lookup. rewrite <- list_fmap_compose. unfold compose. cbn [fst].
  destruct (decide (k ∈ gone.*1)) as [Hin|Hin]; [by rewrite bool_decide_true|by rewrite bool_decide_false].
Qed.
Lemma dequeue_other (gone : list (bytes * PendingDelete)) (m : gmap bytes bytes) (cf : MetaCf) : cf <> Delq -> view_ops cf (dequeue gone) m = m.
Proof. intros Hcf. apply view_ops_other. apply Forall_fmap, Forall_true. intros e. cbn. congruence. Qed.

(** What [sweep_events] did with the collected events. *)
Record swept events (st st' : SweepState) (gone : list (bytes * PendingDelete)) : Prop := {
  sw_open : ms_open (sw_store st');
  sw_gone : gone ⊆ events_entries events;
  sw_view cf : ms_view (sw_store st') cf = view_ops cf (dequeue gone) (ms_view (sw_store st) cf);
  sw_blobs e : e ∈ gone -> slices_blobs (pd_slices e.2) ⊆ sw_deleted st';
  sw_keep : sw_deleted st ⊆ sw_deleted st';
  sw_only x : x ∈ sw_deleted st' -> x ∈ sw_deleted st \/ exists e, e ∈ events_entries events /\ x ∈ slices_blobs (pd_slices e.2)
}.

Lemma event_blobs event x : x ∈ slices_blobs (event_slices event) <-> exists e, e ∈ ev_entries event /\ x ∈ slices_blobs (pd_slices e.2).
Proof.
  unfold event_slices. induction (ev_entries event) as [|e l IH]; [set_solver|].
  rewrite fmap_cons, mjoin_cons. unfold slices_blobs at 1. rewrite fmap_app, mjoin_app, elem_of_app. fold (slices_blobs (pd_slices e.2)).
  unfold slices_blobs at 2 in IH. unfold slices_blobs in IH at 1. rewrite IH. set_unfold. naive_solver.
Qed.

Lemma swept_refl events st : ms_open (sw_store st) -> swept events st st [].
Proof. intros Ho. constructor; try done; [set_solver|by intros e He%elem_of_nil|]. intros x Hx. by left. Qed.
Lemma swept_trans event events st st1 st' g g1 : swept [event] st st1 g -> swept events st1 st' g1 -> swept (event :: events) st st' (g ++ g1).
Proof.
  intros [Ho Hg Hv Hb Hk Hx] [Ho' Hg' Hv' Hb' Hk' Hx'].
  assert (events_entries (event :: events) = events_entries [event] ++ events_entries events) as E.
  { unfold events_entries. by rewrite fmap_cons, mjoin_cons, fmap_cons, mjoin_cons, app_nil_r. }
  constructor; [done|rewrite E; set_solver| |intros e [?|?]%elem_of_app|set_solver|].
  - intros cf. unfold dequeue. by rewrite fmap_app, view_ops_app, Hv', Hv.
  - etrans; [by apply Hb|done].
  - by apply Hb'.
  - intros x [?|(e & ? & ?)]%Hx'; [destruct (Hx x) as [?|(e & ? & ?)]; [done|by left|right]|right]; exists e; rewrite E; set_solver.
Qed.
(** One event: its blobs that were deleted, and its entries if all were. *)
Lemma swept_event event i st gone failed d s n g : tombstone_event (w_sink w i) event = (gone, failed) -> ms_open s ->
  (forall cf, ms_view s cf = view_ops cf (dequeue g) (ms_view (sw_store st) cf)) ->
  (g = [] \/ g = ev_entries event /\ failed = O) ->
  swept [event] st {| sw_deleter := d; sw_store := s; sw_deleted := sw_deleted st ++ gone; sw_dequeued := n |} g.
Proof.
  intros Et Ho Hv Hg. unfold tombstone_event in Et. pose proof (delete_slices_sub (w_sink w i) (event_slices event) 0) as Hsub.
  pose proof (delete_slices_all (w_sink w i) (event_slices event) 0) as Hall. rewrite Et in Hsub, Hall. cbn [fst snd] in *.
  assert (events_entries [event] = ev_entries event) as E by (unfold events_entries; cbn; by rewrite app_nil_r).
  constructor; cbn [sw_store sw_deleted]; [done|rewrite E; destruct Hg as [->|[-> _]]; set_solver|done| |set_solver|].
  - intros e He x Hx. destruct Hg as [->|[-> Hf]]; [by apply elem_of_nil in He|]. apply elem_of_app. right. rewrite (Hall Hf).
    apply event_blobs. by exists e.
  - intros x [?|Hx]%elem_of_app; [by left|right]. rewrite E. by apply event_blobs, Hsub.
Qed.
Lemma sweep_events_ok events i st : ms_open (sw_store st) -> exists gone, swept events st (sweep_events w events i st) gone.
Proof.
  revert i st. induction events as [|event events IH]; intros i st Ho; cbn [sweep_events]; [exists []; by apply swept_refl|].
  destruct (tombstone_event (w_sink w i) event) as [gone failed] eqn:Et.
  assert (forall st', swept [event] st st' [] -> exists g, swept (event :: events) st st' g) as Hstop.
  { intros st' H1. exists ([] ++ []). eapply swept_trans; [exact H1|]. apply swept_refl, (sw_open _ _ _ _ H1). }
  destruct (Nat.eqb_spec failed 0) as [->|Hf].
  2: { edestruct (IH (S i)) as [g1 Hg]; [|exists ([] ++ g1); eapply swept_trans; [|exact Hg]; eapply swept_event; [exact Et|exact Ho|done|by left]].
       exact Ho. }
  destruct (ms_apply_ok (sw_store st) (dequeue_ops event) Ho) as (s & Es & Hs & Hv).
  assert (forall d n, swept [event] st {| sw_deleter := d; sw_store := s; sw_deleted := sw_deleted st ++ gone; sw_dequeued := n |} (ev_entries event)) as Hone.
  { intros d n. eapply swept_event; [exact Et|exact Hs|exact Hv|by right]. }
  rewrite Es. destruct (w_propose w i) as [|[]].
  - destruct (IH (S i) {| sw_deleter := clear_backoff (sw_deleter st) (ev_prefix event); sw_store := s; sw_deleted := sw_deleted st ++ gone;
      sw_dequeued := sw_dequeued st + length (ev_entries event) |} Hs) as [g1 Hg]. eexists. eapply swept_trans; [apply Hone|exact Hg].
  - eexists. eapply swept_trans; [apply Hone|]. by apply swept_refl.
  - apply Hstop. eapply swept_event; [exact Et|exact Ho|done|by left].
Qed.
Lemma sweep_events_all events i st : ms_open (sw_store st) -> (forall i j k, w_sink w i j k = true) -> (forall i, w_propose w i = Accepted) ->
  (forall cf, ms_view (sw_store (sweep_events w events i st)) cf = view_ops cf (dequeue (events_entries events)) (ms_view (sw_store st) cf))
  /\ sw_dequeued (sweep_events w events i st) = (sw_dequeued st + length (events_entries events))%nat.
Proof.
  intros Ho Hs Hp. revert i st Ho. induction events as [|event events IH]; intros i st Ho; cbn [sweep_events]; [split; [done|cbn; lia]|].
  pose proof (delete_slices_ok (w_sink w i) (event_slices event) 0 (Hs i)) as Hf. unfold tombstone_event.
  destruct (delete_slices _ _ _) as [gone failed]. cbn [snd] in Hf. rewrite Hf, Hp. cbn [Nat.eqb].
  destruct (ms_apply_ok (sw_store st) (dequeue_ops event) Ho) as (s & -> & Hs' & Hv).
  destruct (IH (S i) {| sw_deleter := clear_backoff (sw_deleter st) (ev_prefix event); sw_store := s; sw_deleted := sw_deleted st ++ gone;
      sw_dequeued := sw_dequeued st + length (ev_entries event) |} Hs') as [IHv IHn]. cbn [sw_store sw_dequeued] in IHv, IHn.
  unfold events_entries in *. rewrite fmap_cons, mjoin_cons. split.
  - intros cf. unfold dequeue in *. rewrite fmap_app, view_ops_app, IHv, Hv. done.
  - rewrite IHn, length_app. lia.
Qed.
End Sweep.

Section SweepTheorems.
Context `{MetaSerde} {MS : MetaStore} (w : World).

(** A queue entry of the partition older than the bound. *)
Definition expired_entry (s : store) (r : PartitionRange) (expire_before : Z) (k : bytes) (p : PendingDelete) : Prop :=
  exists v, ms_view s Delq !! k = Some v /\ in_range (kr_start (delq_range r)) (kr_end (delq_range r)) (k, v)
    /\ from_slice v = Some p /\ pd_enqueue_ts p <= expire_before.

Lemma find_delq (r : PartitionRange) : list_find (fun kr => kr_cf kr = Delq) (key_ranges r) = Some (3%nat, delq_range r).
Proof. unfold delq_range, key_ranges. by destruct (pr_ns r). Qed.
Lemma eligible_expired (d : Deleter) (eb : Z) (s : store) (r : PartitionRange) (l : KvPage) (e : bytes * PendingDelete) :
  l `prefix_of` delq_entries s r -> e ∈ omap (eligible w d eb) l -> expired_entry s r eb e.1 e.2.
Proof.
  intros [l2 E] He. apply list_elem_of_omap in He as ([k v] & Hin & He). unfold eligible in He. cbn [fst snd] in He.
  destruct (from_slice v) as [p|] eqn:Hp; [|done]. cbn [mbind option_bind] in He. destruct (Z.ltb_spec eb (pd_enqueue_ts p)); [done|].
  destruct (is_backing_off _ _ _); [done|]. injection He as <-. exists v. cbn [fst snd].
  assert ((k, v) ∈ delq_entries s r) as Hd by (rewrite E; set_solver). apply elem_of_range in Hd as [? ?]. done.
Qed.
Lemma delq_entries_fuel (s : store) (r : PartitionRange) : (length (delq_entries s r) < scan_fuel s Delq)%nat.
Proof. unfold scan_fuel, delq_entries. pose proof (length_range (ms_view s Delq) (kr_start (delq_range r)) (kr_end (delq_range r))). lia. Qed.

(** C15: a sweep is safe whatever the clock, the data nodes and the consensus group
    do. It changes nothing but the queue; an entry leaves the queue only if it is
    the partition's, is older than the safety delay and every blob of its slices was
    deleted; a blob is deleted only for such an entry; and on a follower, or when a
    queue entry is malformed, nothing happens. *)
Theorem sweep_safe (is_leader : bool) (d : Deleter) (s : store) (r : PartitionRange) (now_millis : Z) (st' : SweepState) (res : result MetaError nat) :
  ms_open s -> keys_ok (ms_view s Delq) -> range_sane r -> Deleter_sweep w is_leader d s r now_millis = (st', res) ->
  let eb := now_millis - safety_delay d in
  (forall cf, cf <> Delq -> ms_view (sw_store st') cf = ms_view s cf)
  /\ (forall k, ms_view (sw_store st') Delq !! k = ms_view s Delq !! k
       \/ ms_view (sw_store st') Delq !! k = None
          /\ exists p, expired_entry s r eb k p /\ slices_blobs (pd_slices p) ⊆ sw_deleted st')
  /\ (forall x, x ∈ sw_deleted st' -> exists k p, expired_entry s r eb k p /\ x ∈ slices_blobs (pd_slices p))
  /\ (is_leader = false \/ (exists err, res = Err err) -> sw_store st' = s /\ sw_deleted st' = []).
Proof.
  intros Ho Hk [Hord Hb] E eb. unfold Deleter_sweep in E. rewrite find_delq in E. fold eb in E.
  assert (forall res', ({| sw_deleter := d; sw_store := s; sw_deleted := []; sw_dequeued := O |}, res') = (st', res) ->
    sw_store st' = s /\ sw_deleted st' = []) as Hnop by (by intros res' [= <- _]).
  assert (sw_store st' = s /\ sw_deleted st' = [] -> (forall cf, cf <> Delq -> ms_view (sw_store st') cf = ms_view s cf)
    /\ (forall k, ms_view (sw_store st') Delq !! k = ms_view s Delq !! k
       \/ ms_view (sw_store st') Delq !! k = None /\ exists p, expired_entry s r eb k p /\ slices_blobs (pd_slices p) ⊆ sw_deleted st')
    /\ (forall x, x ∈ sw_deleted st' -> exists k p, expired_entry s r eb k p /\ x ∈ slices_blobs (pd_slices p))
    /\ (is_leader = false \/ (exists err, res = Err err) -> sw_store st' = s /\ sw_deleted st' = [])) as Hsame.
  { intros [-> ->]. split; [done|]. split; [by left|]. split; [set_solver|done]. }
  destruct is_leader; cbn [negb] in E; [|by apply Hsame; eapply Hnop].
  destruct (collect_events_ok w d eb (scan_fuel s Delq) s (kr_start (delq_range r)) (kr_end (delq_range r)) [])
    as [(err & Ec & _)|(events & l1 & l2 & Ec & Hl & He & _)]; try done; [apply delq_entries_fuel| |]; rewrite Ec in E;
    [by apply Hsame; eapply Hnop|]. clear Hsame Hnop.
  set (st0 := {| sw_deleter := d |}) in E. destruct (sweep_events_ok w events 0 st0 Ho) as [gone [_ Hg Hv Hd _ Hx]]. injection E as <- <-.
  assert (forall e, e ∈ events_entries events -> expired_entry s r eb e.1 e.2) as Hexp.
  { intros e. rewrite He. apply eligible_expired. exists l2. exact Hl. }
  split; [intros cf Hcf; by rewrite Hv, dequeue_other|]. split; [|split].
  - intros k. rewrite Hv, dequeue_lookup. case_decide as Hin; [right|by left]. split; [done|].
    apply list_elem_of_fmap in Hin as ([k' p] & -> & Hin). exists p. split; [by apply (Hexp (k', p)), Hg|by apply (Hd (k', p))].
  - intros x [Hn|(e & ? & ?)]%Hx; [by apply elem_of_nil in Hn|]. exists e.1, e.2. eauto.
  - intros [?|[? ?]]; done.
Qed.

(** C39: the queue drains. On the leader, with well-formed entries, nothing backing
    off and every delete and proposal succeeding, a sweep returns the number of
    entries it dequeued and afterwards the partition's range holds no expired
    entry, unless it stopped at its bound of 256 events, having dequeued at least
    as many entries. *)
Theorem sweep_drains (d : Deleter) (s : store) (r : PartitionRange) (now_millis : Z) :
  ms_open s -> keys_ok (ms_view s Delq) -> range_sane r -> entries_ok (delq_entries s r) -> backoff d = ∅ ->
  (forall i j k, w_sink w i j k = true) -> (forall i, w_propose w i = Accepted) ->
  exists st' n, Deleter_sweep w true d s r now_millis = (st', Ok n)
    /\ ((DELQ_SCAN_PAGE <= n)%nat
        \/ forall k p, expired_entry s r (now_millis - safety_delay d) k p -> ms_view (sw_store st') Delq !! k = None).
Proof.
  intros Ho Hk [Hord Hb] Hok Hbk Hsink Hprop. unfold Deleter_sweep. cbn [negb]. rewrite find_delq. set (eb := now_millis - safety_delay d).
  destruct (collect_events_ok w d eb (scan_fuel s Delq) s (kr_start (delq_range r)) (kr_end (delq_range r)) [])
    as [(err & _ & Hn)|(events & l1 & l2 & Ec & Hl & He & Hd)]; try done; [apply delq_entries_fuel|].
  rewrite Ec. apply collect_nonempty in Ec; [|constructor]. apply nonempty_length in Ec.
  set (st0 := {| sw_deleter := d |}). destruct (sweep_events_all w events 0 st0 Ho Hsink Hprop) as [Hv Hn].
  eexists _, _. split; [reflexivity|]. destruct Hd as [->|Hd].
  - right. intros k p (v & Hkv & Hin & Hp & Hts). rewrite Hv, dequeue_lookup, decide_True; [done|]. rewrite He. cbn [app].
    apply list_elem_of_fmap. exists (k, p). split; [done|]. apply list_elem_of_omap. exists (k, v). split.
    + rewrite app_nil_r in Hl. rewrite <- Hl. by apply elem_of_range.
    + unfold eligible. cbn [fst snd]. rewrite Hp. cbn [mbind option_bind]. destruct (Z.ltb_spec eb (pd_enqueue_ts p)); [lia|]. cbn [orb].
      unfold is_backing_off. destruct (event_prefix k); [|done]. by rewrite Hbk, lookup_empty.
  - left. rewrite Hn. cbn [sw_dequeued st0]. lia.
Qed.
End SweepTheorems.

(** ** Examples *)

#[local] Existing Instance ex_sm_serde.

(** Every delete and proposal succeeds. *)
Definition calm : World := {| w_clock := fun _ => 0; w_sink := fun _ _ _ => true; w_propose := fun _ => Accepted |}.
(** Two partitions; the first has an object of 66 slices, and its queue. *)
Definition ex_whole : PartitionRange := {| pr_ns := Flat; pr_start := None; pr_end := Some (7, [98]) |}.
Definition ex_past : PartitionRange := {| pr_ns := Flat; pr_start := Some (7, [98]); pr_end := None |}.
Definition ex_queue : MemEngine := Eval vm_compute in ex_run ex_two (FDelete 7 [97; 98] 3) 2.

#[local] Instance keeps_dec kr : Decision (keeps kr).
Proof. unfold keeps. apply _. Defined.
Lemma kept_ranges_dec (s : MemEngine) (ranges : list KeyRange) :
  (forall cf, map_Forall (fun k _ => is_bytes k) (mem_view s cf)) ->
  Forall (fun kr => keeps kr -> is_bytes (kr_end kr) /\ lex_leb (kr_start kr) (kr_end kr) = true) ranges ->
  kept_ranges_ok (MS := mem_store) s ranges.
Proof.
  intros Hk Hf. apply (Forall_impl _ _ _ Hf). intros kr Hr Hkeep. destruct (Hr Hkeep). split; [apply keys_ok_forall, Hk|done].
Qed.

(** The left half is led by a node whose store has the object and its segments, the
    right half by a node with a store of its own. *)
Lemma gc_keeps_readable_witness :
  exists export, export_references (MS := mem_store) ex_two ex_whole = Ok export /\ is_referenced export 650 = true.
Proof.
  destruct (gc_keeps_readable (MS := mem_store) [(ex_whole, ex_two); (ex_past, ∅ : MemEngine)]) with (p := (ex_whole, ex_two)) as (export & Hx & _ & Hr).
  - constructor; [|constructor; [|constructor]]; (split; [exact I|]); (split; [reflexivity|]);
      (split; [split; intros ?; [intros [= <-]|intros [= <-]]; vm_compute; split; congruence|]);
      (apply kept_ranges_dec; [intros cf; apply (bool_decide_unpack _); destruct cf; vm_compute; exact I|]);
      apply (bool_decide_unpack _); vm_compute; exact I.
  - left.
  - exists export. split; [exact Hx|]. cbn [fst snd] in Hr.
    destruct (get_object_meta (MS := mem_store) ex_two 7 [97; 98]) as [[[[head data] slices]|]|] eqn:Eg; [|vm_compute in Eg; congruence..].
    destruct (Hr 7 [97; 98] head data slices (ex_slice 65) 650) as [Hd|(i & v & _ & _ & Hc)]; [vm_compute; split; congruence|reflexivity|vm_compute; reflexivity|exact Eg| | |exact Hd|].
    + apply (bool_decide_unpack _). vm_compute in Eg. injection Eg as <- <- <-. vm_compute. exact I.
    + vm_compute. left.
    + exfalso. revert Hc. unfold contains_coord, ex_whole, pr_coord_ltb. cbn. discriminate.
Defined.

Lemma split_strands_suffix_witness :
  let session := upload_key 7 [97] (98 * 256 ^ 15) 0 in
  contains_coord {| pr_ns := Flat; pr_start := None; pr_end := Some (7, [97; 98]) |} 7 [97] = true
  /\ contains {| pr_ns := Flat; pr_start := Some (7, [97; 98]); pr_end := None |} session = true.
Proof.
  destruct (split_strands_suffix (PartitionRange_full Flat) {| pr_ns := Flat; pr_start := None; pr_end := Some (7, [97; 98]) |}
    {| pr_ns := Flat; pr_start := Some (7, [97; 98]); pr_end := None |} 7 [97] [98] (suffix_upload_part (98 * 256 ^ 15) 0)
    {| kr_cf := Upload; kr_start := [117]; kr_end := cf_bound Upload 7 [97; 98] |}) as (Hl & _ & _ & _ & Hr).
  - split; intros ? [=].
  - vm_compute. split; congruence.
  - reflexivity.
  - congruence.
  - reflexivity.
  - reflexivity.
  - vm_compute. reflexivity.
  - vm_compute. reflexivity.
  - apply (list_elem_of_lookup_2 _ 2). vm_compute. reflexivity.
  - reflexivity.
  - cbn. congruence.
  - split; [exact Hl|exact Hr].
Defined.

Lemma sweep_safe_witness :
  exists st res, Deleter_sweep (MS := mem_store) calm true Deleter_new ex_queue (PartitionRange_full Flat) (3 + DEFAULT_SAFETY_DELAY)
      = (st, res)
    /\ ms_view (MetaStore := mem_store) (sw_store st) Meta = ms_view (MetaStore := mem_store) ex_queue Meta.
Proof.
  destruct (Deleter_sweep (MS := mem_store) calm true Deleter_new ex_queue (PartitionRange_full Flat) (3 + DEFAULT_SAFETY_DELAY))
    as [st res] eqn:E.
  destruct (sweep_safe (MS := mem_store) calm true Deleter_new ex_queue (PartitionRange_full Flat) (3 + DEFAULT_SAFETY_DELAY) st res)
    as (Hcf & _).
  - exact I.
  - apply keys_ok_forall, (bool_decide_unpack _). vm_compute. exact I.
  - split; [vm_compute; reflexivity|]. apply (bool_decide_unpack _). vm_compute. exact I.
  - exact E.
  - exists st, res. split; [reflexivity|]. by apply Hcf.
Defined.

Lemma sweep_drains_witness :
  exists st n, Deleter_sweep (MS := mem_store) calm true Deleter_new ex_queue (PartitionRange_full Flat) (3 + DEFAULT_SAFETY_DELAY) = (st, Ok n)
    /\ ((DELQ_SCAN_PAGE <= n)%nat
        \/ forall k p, expired_entry (MS := mem_store) ex_queue (PartitionRange_full Flat) (3 + DEFAULT_SAFETY_DELAY - DEFAULT_SAFETY_DELAY) k p ->
             ms_view (MetaStore := mem_store) (sw_store st) Delq !! k = None).
Proof.
  apply (sweep_drains (MS := mem_store) calm Deleter_new ex_queue (PartitionRange_full Flat) (3 + DEFAULT_SAFETY_DELAY)).
  - exact I.
  - apply keys_ok_forall, (bool_decide_unpack _). vm_compute. exact I.
  - split; [vm_compute; reflexivity|]. apply (bool_decide_unpack _). vm_compute. exact I.
  - constructor; [|constructor]. split; [eexists; vm_compute; reflexivity|vm_compute; lia].
  - reflexivity.
  - reflexivity.
  - reflexivity.
Defined.

(** *** Replay after a crash *)

(** A batch of two puts. Only its last entry carries the applied record. *)
Definition ex_batch : list ex_entry :=
  [ex_log 1 (ME_Flat (FPut 7 [97] (ex_head (Slices [ex_slice 1])) 1)); ex_log 2 (ME_Flat (FPut 7 [98] (ex_head (Slices [ex_slice 2])) 1))].
(** The process stops after the first entry's batch is stored; the log is replayed
    from the applied record, which is not there. *)
Definition ex_crashed : ex_sm :=
  match ex_batch with
  | e :: _ => ex_open (sm_store (meta_apply_entry (MS := mem_store) id ex_fresh e false).1) 1 (PartitionRange_full Flat)
  | [] => ex_fresh
  end.
Definition ex_replay (sm : ex_sm) : SweepState (MS := mem_store) :=
  (Deleter_sweep calm true Deleter_new (sm_store (sm_apply (MS := mem_store) id sm ex_batch).1) (PartitionRange_full Flat)
     (1 + DEFAULT_SAFETY_DELAY)).1.

(** A replayed put gives up its own blobs. A process that stops inside a batch,
    after a put was stored and before the batch's last entry recorded the position,
    replays that put on restart; the replay takes the object it finds, itself, for
    the one it replaces and queues its slices, and a sweep after the safety delay
    deletes the blobs of an object that still reads. Without the stop nothing is
    deleted. *)
Theorem replay_reclaims_live :
  applied_state (MS := mem_store) (LogId := Z) (Membership := Z) ex_crashed = Ok (None, 0)
  /\ sw_deleted (ex_replay ex_crashed) = [(1, 10)]
  /\ (exists head, get_object_meta (MS := mem_store) (sw_store (ex_replay ex_crashed)) 7 [97] = Ok (Some (head, [], [ex_slice 1])))
  /\ sl_blob_ids (ex_slice 1) = [10]
  /\ sw_deleted (ex_replay ex_fresh) = [].
Proof.
  split; [vm_compute; reflexivity|]. split; [vm_compute; reflexivity|].
  split; [eexists; vm_compute; reflexivity|]. split; vm_compute; reflexivity.
Qed.
