(* ===== verification/MetaNode.v ===== *)
(** A metadata node (epoch-meta: raft/mod.rs, service.rs): the groups it runs over
    one shared store, its table of partitions, and the handlers of its service. What
    the consensus library answers (leadership, read index, the outcome of a
    proposal) is the record [RaftView]; a committed proposal is applied here. *)

From S2P Require Import Prelude Ids Rocks PdDb Client MetaStore MetaKeys MetaNs MetaFlat MetaHier MetaSm MetaGc.

(** ** Wire types *)

Inductive RouteKind : Set := KUnspecified | NotLeader | PartitionMoved | NoPartition.
Record RouteError : Set := { re_kind : RouteKind; re_leader_addr : string; re_partition_id : Z }.
Definition route_error (kind : RouteKind) (partition_id : Z) (leader_addr : string) : RouteError :=
  {| re_kind := kind; re_leader_addr := leader_addr; re_partition_id := partition_id |}.

Definition decode_slice (s : SliceRef) : Slice :=
  {| sl_chunk_id := slr_chunk_id s; sl_blob_ids := slr_blob_ids s; sl_blob_size := slr_blob_size s |}.
Definition slice_to_proto (s : Slice) : SliceRef :=
  {| slr_chunk_id := sl_chunk_id s; slr_blob_ids := sl_blob_ids s; slr_blob_size := sl_blob_size s |}.

Abbreviation UserMeta := (gmap string string) (only parsing).
Record ObjectHeadView : Set := {
  hv_size : Z; hv_etag : bytes; hv_mtime : Z; hv_inline : bool; hv_embedded_slices : Z; hv_seg_count : Z;
  hv_content_type : string; hv_content_encoding : string; hv_cache_control : string; hv_user_metadata : UserMeta }.
(** [ObjectHeadView::default()] *)
Definition ObjectHeadView_default : ObjectHeadView := {|
  hv_size := 0; hv_etag := []; hv_mtime := 0; hv_inline := false; hv_embedded_slices := 0; hv_seg_count := 0;
  hv_content_type := ""; hv_content_encoding := ""; hv_cache_control := ""; hv_user_metadata := ∅ |}.

(** A [BTreeMap] of a [HashMap]: sorted by key. *)
Definition pair_le (x y : string * string) : Prop := String.leb x.1 y.1 = true.
#[export] Instance pair_le_dec : RelDecision pair_le := fun x y => decide (String.leb x.1 y.1 = true).
Definition sorted_user (m : UserMeta) : list (string * string) := merge_sort pair_le (map_to_list m).
Definition non_empty (s : string) : option string := if String.eqb s "" then None else Some s.

Definition head_view (size : Z) (etag : bytes) (mtime : Z) (content : ContentHead) (seg_count : Z) (http : HttpMeta) : ObjectHeadView :=
  let '(inline, embedded) := match content with Inline _ => (true, 0) | Slices l => (false, wrap 32 (len l)) end in
  {| hv_size := size; hv_etag := etag; hv_mtime := mtime; hv_inline := inline; hv_embedded_slices := embedded; hv_seg_count := seg_count;
     hv_content_type := default "" (hm_content_type http); hv_content_encoding := default "" (hm_content_encoding http);
     hv_cache_control := default "" (hm_cache_control http); hv_user_metadata := list_to_map (hm_user http) |}.
Definition head_to_proto (h : ObjectHead) : ObjectHeadView :=
  head_view (oh_size h) (oh_etag h) (oh_mtime h) (oh_content h) (oh_seg_count h) (oh_http h).
Definition file_to_head_view (f : FileRecord) : ObjectHeadView :=
  head_view (fr_size f) (fr_etag f) (fr_mtime f) (fr_content f) (fr_seg_count f) (fr_http f).
Definition decode_http_meta (content_type content_encoding cache_control : string) (user : UserMeta) : HttpMeta :=
  {| hm_content_type := non_empty content_type; hm_content_encoding := non_empty content_encoding;
     hm_cache_control := non_empty cache_control; hm_user := sorted_user user |}.

Definition internal (m : string) : Status := {| st_code := COther; st_message := m |}.
Definition invalid_argument (m : string) : Status := {| st_code := CInvalidArgument; st_message := m |}.
(** [<[u8; 16]>::try_from] *)
Definition etag16 (etag : bytes) (m : string) : result Status bytes :=
  if (length etag =? 16)%nat then Ok etag else Err (invalid_argument m).
Definition decode_upload_id (b : bytes) : result Status Z :=
  if (length b =? 16)%nat then Ok (be_val b) else Err (invalid_argument "upload_id must be 16 bytes").
(** The wire enum of namespaces. *)
Definition decode_ns (ns : Z) : result Status Namespace :=
  match ns with 1 => Ok Flat | 2 => Ok Hier | _ => Err (invalid_argument "ns must be FLAT or HIER") end.
Definition decode_bound (bucket : Z) (routing_key : bytes) (unbounded : bool) : option (Z * bytes) :=
  if unbounded then None else Some (bucket, routing_key).

Section Node.
Context `{MetaSerde} {MS : MetaStore} (blake3 : bytes -> bytes) {LogId Membership : Set} `{!SmSerde LogId Membership}.

(** ** Groups (raft/mod.rs) *)

(** [mn_records] is the registry of groups in the raft log database, which survives
    a restart; [mn_registry] is the table of partitions requests are routed by. The
    store inside a group's state machine is the node's. *)
Record MetaNode : Type := {
  mn_node_id : Z; mn_store : store; mn_groups : gmap Z MetaStateMachine; mn_records : gmap Z PartitionRange;
  mn_registry : PartitionRegistry }.
Definition set_groups (n : MetaNode) (groups : gmap Z MetaStateMachine) : MetaNode :=
  {| mn_node_id := mn_node_id n; mn_store := mn_store n; mn_groups := groups; mn_records := mn_records n; mn_registry := mn_registry n |}.
Definition set_store (n : MetaNode) (s : store) : MetaNode :=
  {| mn_node_id := mn_node_id n; mn_store := s; mn_groups := mn_groups n; mn_records := mn_records n; mn_registry := mn_registry n |}.
Definition set_records (n : MetaNode) (records : gmap Z PartitionRange) : MetaNode :=
  {| mn_node_id := mn_node_id n; mn_store := mn_store n; mn_groups := mn_groups n; mn_records := records; mn_registry := mn_registry n |}.
Definition set_registry (n : MetaNode) (registry : PartitionRegistry) : MetaNode :=
  {| mn_node_id := mn_node_id n; mn_store := mn_store n; mn_groups := mn_groups n; mn_records := mn_records n; mn_registry := registry |}.

Definition node_raft (n : MetaNode) (group : Z) : option MetaStateMachine :=
  (fun sm => with_store sm (mn_store n) (sm_guard sm)) <$> mn_groups n !! group.
Definition node_guard (n : MetaNode) (group : Z) : option PartitionGuard := sm_guard <$> mn_groups n !! group.
Definition group_ids (n : MetaNode) : list Z := merge_sort Z.le (map_to_list (mn_groups n)).*1.
Definition start_group (n : MetaNode) (group : Z) (range : PartitionRange) : MResult MetaNode :=
  sm <-? MetaStateMachine_new (mn_store n) group range ;; Ok (set_groups n (<[group := sm]> (mn_groups n))).
Definition register_and_start (n : MetaNode) (group : Z) (range : PartitionRange) : MResult MetaNode :=
  start_group (set_records n (<[group := range]> (mn_records n))) group range.
(** An existing group is the error [GroupExists]: [None]. *)
Definition create_group (n : MetaNode) (group : Z) (range : PartitionRange) : option (MResult MetaNode) :=
  if decide (is_Some (mn_groups n !! group)) then None else Some (register_and_start n group range).
Definition ensure_group_present (n : MetaNode) (group : Z) (range : PartitionRange) : MResult MetaNode :=
  if decide (is_Some (mn_groups n !! group)) then Ok n else register_and_start n group range.
(** Every registered group that does not run is started. *)
Fixpoint recover_loop (n : MetaNode) (records : list (Z * PartitionRange)) (recovered : list Z) : MResult (MetaNode * list Z) :=
  match records with
  | [] => Ok (n, recovered)
  | (group, range) :: records =>
      if decide (is_Some (mn_groups n !! group)) then recover_loop n records recovered
      else n <-? start_group n group range ;; recover_loop n records (recovered ++ [group])
  end.
Definition recover (n : MetaNode) : MResult (MetaNode * list Z) := recover_loop n (map_to_list (mn_records n)) [].
(** A process that starts over: the store and the registered groups are on disk,
    running groups and the table of partitions are not. *)
Definition restarted (n : MetaNode) : MetaNode :=
  {| mn_node_id := mn_node_id n; mn_store := mn_store n; mn_groups := ∅; mn_records := mn_records n; mn_registry := [] |}.

(** The child of every recorded split is started and the record cleared. *)
Fixpoint reconcile_loop (n : MetaNode) (parents : list Z) (derived : list Z) : MResult (MetaNode * list Z) :=
  match parents with
  | [] => Ok (n, derived)
  | parent :: parents =>
      pending <-? read_pending_split (mn_store n) parent ;;
      match pending with
      | None => reconcile_loop n parents derived
      | Some p =>
          started <-? (if decide (is_Some (mn_groups n !! ps_child_group p)) then Ok (n, derived)
                       else n <-? register_and_start n (ps_child_group p) (ps_child_range p) ;;
                            Ok (n, derived ++ [ps_child_group p])) ;;
          s <-? clear_pending_split (mn_store started.1) parent ;;
          reconcile_loop (set_store started.1 s) parents started.2
      end
  end.
Definition reconcile_splits (n : MetaNode) : MResult (MetaNode * list Z) := reconcile_loop n (group_ids n) [].

(** ** Consensus *)

Inductive WriteAnswer : Set := WA_Committed (log_id : LogId) | WA_Forward (leader_addr : option string) (leader_id : option Z) | WA_Fatal.
Record RaftView : Set := {
  rv_is_leader : bool; rv_current_leader : option Z; rv_linearizable : bool; rv_initialized : bool; rv_write : WriteAnswer }.
Inductive WriteError : Set := WE_Forward (leader_addr : option string) (leader_id : option Z) | WE_Fatal.

Definition client_write (n : MetaNode) (group : Z) (a : WriteAnswer) (e : MetaEntry) : MetaNode * result WriteError MetaResponse :=
  match a with
  | WA_Forward addr id => (n, Err (WE_Forward addr id))
  | WA_Fatal => (n, Err WE_Fatal)
  | WA_Committed log_id =>
      match node_raft n group with
      | None => (n, Err WE_Fatal)
      | Some sm =>
          let '(sm, r) := sm_apply blake3 sm [{| le_log_id := log_id; le_payload := Normal e |}] in
          let n := set_store (set_groups n (<[group := sm]> (mn_groups n))) (sm_store sm) in
          (n, match r with Ok [response] => Ok response | _ => Err WE_Fatal end)
      end
  end.

Context (rv : Z -> RaftView).

(** ** Routing of requests (service.rs) *)

Definition node_route (n : MetaNode) (bucket : Z) (key : bytes) : result RouteError Z :=
  match PartitionRegistry_route (mn_registry n) bucket key with
  | None => Err (route_error PartitionMoved 0 "")
  | Some group => match mn_groups n !! group with None => Err (route_error PartitionMoved group "") | Some _ => Ok group end
  end.
Definition not_leader (n : MetaNode) (group : Z) (leader : option Z) : RouteError :=
  route_error NotLeader group (default "" (id ← leader; PartitionRegistry_peer_addr (mn_registry n) group id)).
Definition check_leader (n : MetaNode) (group : Z) : result RouteError unit :=
  if rv_is_leader (rv group) then Ok tt else Err (not_leader n group (rv_current_leader (rv group))).
Definition linearize (n : MetaNode) (group : Z) : result RouteError unit :=
  if rv_linearizable (rv group) then Ok tt else Err (not_leader n group (rv_current_leader (rv group))).
Definition write_error (n : MetaNode) (group : Z) (e : WriteError) : result Status RouteError :=
  match e with
  | WE_Forward addr id =>
      let by_id := id ← id; PartitionRegistry_peer_addr (mn_registry n) group id in
      Ok (route_error NotLeader group (default "" (match addr with Some a => Some a | None => by_id end)))
  | WE_Fatal => Err (internal "partition write")
  end.
(** Route, leadership, proposal: the response, a redirect, or a fault. *)
Definition propose_at (n : MetaNode) (bucket : Z) (routing : bytes) (e : MetaEntry) : MetaNode * result Status (result RouteError MetaResponse) :=
  match (group <-? node_route n bucket routing ;; _ <-? check_leader n group ;; Ok group) with
  | Err redirect => (n, Ok (Err redirect))
  | Ok group =>
      let '(n, r) := client_write n group (rv_write (rv group)) e in
      (n, match r with Ok response => Ok (Ok response) | Err err => redirect <-? write_error n group err ;; Ok (Err redirect) end)
  end.
Definition op_key (op : FlatOp) : bytes :=
  match op with
  | FPut _ key _ _ | FDelete _ key _ | FCreateMultipart _ key _ _ | FPutPart _ key _ _ _ _ | FCompleteMultipart _ key _ _ _
  | FAbortMultipart _ key _ _ => key
  end.
Definition propose (n : MetaNode) (bucket : Z) (op : FlatOp) : MetaNode * result Status (result RouteError MetaResponse) :=
  propose_at n bucket (op_key op) (ME_Flat op).
Definition propose_hier (n : MetaNode) (bucket parent_ino : Z) (name : bytes) (op : HierOp) : MetaNode * result Status (result RouteError MetaResponse) :=
  propose_at n bucket (hier_routing_key parent_ino name) (ME_Hier op).

(** ** Flat objects (service.rs) *)

Record PutObjectRequest : Set := {
  por_bucket_id : Z; por_key : bytes; por_size : Z; por_etag : bytes; por_ts_millis : Z; por_inline_data : bytes; por_slices : list SliceRef;
  por_content_type : string; por_content_encoding : string; por_cache_control : string; por_user_metadata : UserMeta }.
Definition put_content (inline_data : bytes) (slices : list SliceRef) : ContentHead :=
  match slices with [] => Inline inline_data | _ => Slices (decode_slice <$> slices) end.
Definition put_head (req : PutObjectRequest) (etag : bytes) : ObjectHead := {|
  oh_size := por_size req; oh_etag := etag; oh_mtime := por_ts_millis req; oh_storage := Standard;
  oh_content := put_content (por_inline_data req) (por_slices req); oh_seg_count := 0;
  oh_http := decode_http_meta (por_content_type req) (por_content_encoding req) (por_cache_control req) (por_user_metadata req) |}.
(** The answers carry a redirect, if any. *)
Definition node_put_object (n : MetaNode) (req : PutObjectRequest) : MetaNode * result Status (option RouteError) :=
  match (group <-? node_route n (por_bucket_id req) (por_key req) ;; _ <-? check_leader n group ;; Ok group) with
  | Err error => (n, Ok (Some error))
  | Ok group =>
      let admitted :=
        match por_slices req with
        | [] =>
            guard <-? ok_or (node_guard n group) (internal "partition guard missing") ;;
            match PartitionGuard_check_inline guard (len (por_inline_data req)) (resolve_threshold DEFAULT_INLINE_THRESHOLD None) with
            | Err _ => Err {| st_code := CResourceExhausted; st_message := "inline rejected; retry with EC slices" |}
            | Ok _ => Ok tt
            end
        | _ => Ok tt
        end in
      match (_ <-? admitted ;; etag16 (por_etag req) "etag must be 16 bytes") with
      | Err status => (n, Err status)
      | Ok etag =>
          let entry := ME_Flat (FPut (por_bucket_id req) (por_key req) (put_head req etag) (por_ts_millis req)) in
          let '(n, r) := client_write n group (rv_write (rv group)) entry in
          (n, match r with Ok _ => Ok None | Err err => e <-? write_error n group err ;; Ok (Some e) end)
      end
  end.
Definition node_delete_object (n : MetaNode) (bucket : Z) (key : bytes) (ts_millis : Z) : MetaNode * result Status (option RouteError) :=
  let '(n, r) := propose n bucket (FDelete bucket key ts_millis) in
  (n, r <-? r ;; Ok match r with Ok _ => None | Err e => Some e end).

(** A read: routed, then confirmed to be linearizable. *)
Definition read_at_leader (n : MetaNode) (bucket : Z) (routing : bytes) : result RouteError Z :=
  group <-? node_route n bucket routing ;; _ <-? linearize n group ;; Ok group.
Record HeadObjectResponse : Set := { hor_error : option RouteError; hor_found : bool; hor_head : option ObjectHeadView }.
Definition node_head_object (n : MetaNode) (bucket : Z) (key : bytes) : result Status HeadObjectResponse :=
  match read_at_leader n bucket key with
  | Err error => Ok {| hor_error := Some error; hor_found := false; hor_head := None |}
  | Ok _ =>
      match get_head (mn_store n) bucket key with
      | Err _ => Err (internal "read head")
      | Ok head => Ok {| hor_error := None; hor_found := bool_decide (is_Some head); hor_head := head_to_proto <$> head |}
      end
  end.
Record GetObjectMetaResponse : Set := {
  gom_error : option RouteError; gom_found : bool; gom_head : option ObjectHeadView; gom_inline_data : bytes; gom_slices : list SliceRef }.
Definition meta_miss (error : option RouteError) : GetObjectMetaResponse :=
  {| gom_error := error; gom_found := false; gom_head := None; gom_inline_data := []; gom_slices := [] |}.
Definition node_get_object_meta (n : MetaNode) (bucket : Z) (key : bytes) : result Status GetObjectMetaResponse :=
  match read_at_leader n bucket key with
  | Err error => Ok (meta_miss (Some error))
  | Ok _ =>
      match get_object_meta (mn_store n) bucket key with
      | Err _ => Err (internal "read object")
      | Ok None => Ok (meta_miss None)
      | Ok (Some (head, inline_data, slices)) =>
          Ok {| gom_error := None; gom_found := true; gom_head := Some (head_to_proto head); gom_inline_data := inline_data;
                gom_slices := slice_to_proto <$> slices |}
      end
  end.
Definition clamp_limit (limit : Z) : nat := Z.to_nat (Z.min (Z.max limit 1) 1000).
Definition node_list_objects (n : MetaNode) (bucket : Z) (prefix start_after : bytes) (limit : Z)
    : result Status (option RouteError * list (bytes * ObjectHeadView)) :=
  let route_key := match start_after with [] => prefix | _ => start_after end in
  match read_at_leader n bucket route_key with
  | Err error => Ok (Some error, [])
  | Ok _ =>
      let after := match start_after with [] => None | _ => Some start_after end in
      match list_ (mn_store n) bucket prefix after (clamp_limit limit) with
      | Err _ => Err (internal "list")
      | Ok page => Ok (None, (fun e : bytes * ObjectHead => (e.1, head_to_proto e.2)) <$> page)
      end
  end.

(** ** Multipart uploads (service.rs) *)

(** A proposal whose response is dropped, and one whose rejection is returned. *)
Definition unit_answer (p : MetaNode * result Status (result RouteError MetaResponse)) : MetaNode * result Status (option RouteError) :=
  let '(n, r) := p in (n, r <-? r ;; Ok match r with Ok _ => None | Err e => Some e end).
Definition strict_answer (p : MetaNode * result Status (result RouteError MetaResponse)) : MetaNode * result Status (option RouteError * string) :=
  let '(n, r) := p in
  (n, r <-? r ;;
      match r with
      | Ok RespNone => Ok (None, "")
      | Ok (Rejected reason) => Ok (None, reason)
      | Ok (MintedIno _) => Err (internal "unexpected response")
      | Err e => Ok (Some e, "")
      end).
Definition node_create_multipart (n : MetaNode) (bucket : Z) (key upload_id : bytes) (ts_millis : Z) : MetaNode * result Status (option RouteError) :=
  match decode_upload_id upload_id with
  | Err status => (n, Err status)
  | Ok upload_id => unit_answer (propose n bucket (FCreateMultipart bucket key upload_id ts_millis))
  end.
Definition node_put_part (n : MetaNode) (bucket : Z) (key upload_id : bytes) (part_no size : Z) (etag : bytes) (slices : list SliceRef) (ts_millis : Z)
    : MetaNode * result Status (option RouteError * string) :=
  match (u <-? decode_upload_id upload_id ;; e <-? etag16 etag "etag must be 16 bytes" ;; Ok (u, e)) with
  | Err status => (n, Err status)
  | Ok (upload_id, etag) =>
      let part := {| pm_size := size; pm_etag := etag; pm_slices := decode_slice <$> slices |} in
      strict_answer (propose n bucket (FPutPart bucket key upload_id part_no part ts_millis))
  end.
Fixpoint decode_parts (parts : list (Z * bytes)) : result Status (list PartRef) :=
  match parts with
  | [] => Ok []
  | (part_no, etag) :: parts =>
      etag <-? etag16 etag "part etag must be 16 bytes" ;; rest <-? decode_parts parts ;;
      Ok ({| ref_part_no := part_no; ref_etag := etag |} :: rest)
  end.
Definition node_complete_multipart (n : MetaNode) (bucket : Z) (key upload_id : bytes) (parts : list (Z * bytes)) (ts_millis : Z)
    : MetaNode * result Status (option RouteError * string) :=
  match (u <-? decode_upload_id upload_id ;; p <-? decode_parts parts ;; Ok (u, p)) with
  | Err status => (n, Err status)
  | Ok (upload_id, parts) => strict_answer (propose n bucket (FCompleteMultipart bucket key upload_id parts ts_millis))
  end.
Definition node_abort_multipart (n : MetaNode) (bucket : Z) (key upload_id : bytes) (ts_millis : Z) : MetaNode * result Status (option RouteError) :=
  match decode_upload_id upload_id with
  | Err status => (n, Err status)
  | Ok upload_id => unit_answer (propose n bucket (FAbortMultipart bucket key upload_id ts_millis))
  end.
(** [(hosted, entries)] *)
Definition delq_backlog (n : MetaNode) (partition_id : Z) : bool * Z :=
  match node_guard n partition_id with Some guard => (true, pg_delq_depth guard) | None => (false, 0) end.

(** ** Directories (service.rs) *)

Inductive HierEntryKind : Set := HierEntryUnspecified | HierEntryFile | HierEntryDir.
Record HierLookupResponse : Set := {
  hlr_error : option RouteError; hlr_kind : HierEntryKind; hlr_file : option ObjectHeadView; hlr_dir_ino : Z;
  hlr_inline_data : bytes; hlr_slices : list SliceRef }.
Definition hier_lookup_err (error : RouteError) : HierLookupResponse :=
  {| hlr_error := Some error; hlr_kind := HierEntryUnspecified; hlr_file := None; hlr_dir_ino := 0; hlr_inline_data := []; hlr_slices := [] |}.
Definition lookup_response (record : option FsRecord) : HierLookupResponse :=
  let dir ino := {| hlr_error := None; hlr_kind := HierEntryDir; hlr_file := None; hlr_dir_ino := ino; hlr_inline_data := []; hlr_slices := [] |} in
  match record with
  | Some (FsFile f) =>
      let '(inline_data, slices) := match fr_content f with Inline b => (b, []) | Slices l => ([], slice_to_proto <$> l) end in
      {| hlr_error := None; hlr_kind := HierEntryFile; hlr_file := Some (file_to_head_view f); hlr_dir_ino := 0;
         hlr_inline_data := inline_data; hlr_slices := slices |}
  | Some (FsDir d) => dir (de_ino d)
  | Some (FsSentinel d) => dir (dr_ino d)
  | None => {| hlr_error := None; hlr_kind := HierEntryUnspecified; hlr_file := None; hlr_dir_ino := 0; hlr_inline_data := []; hlr_slices := [] |}
  end.
Definition node_hier_lookup (n : MetaNode) (bucket parent_ino : Z) (name : bytes) : result Status HierLookupResponse :=
  match read_at_leader n bucket (hier_routing_key parent_ino name) with
  | Err error => Ok (hier_lookup_err error)
  | Ok _ => match lookup_ (mn_store n) bucket parent_ino name with Err _ => Err (internal "hier lookup") | Ok record => Ok (lookup_response record) end
  end.
Definition rejected_reason (r : MetaResponse) : string := match r with Rejected m => m | _ => "" end.
Definition rejected_answer (p : MetaNode * result Status (result RouteError MetaResponse)) : MetaNode * result Status (option RouteError * string) :=
  let '(n, r) := p in (n, r <-? r ;; Ok match r with Ok response => (None, rejected_reason response) | Err e => (Some e, "") end).
Record HierWriteRequest : Set := {
  hwr_bucket_id : Z; hwr_parent_ino : Z; hwr_name : bytes; hwr_size : Z; hwr_etag : bytes; hwr_ts_millis : Z; hwr_inline_data : bytes;
  hwr_slices : list SliceRef; hwr_content_type : string; hwr_content_encoding : string; hwr_cache_control : string; hwr_user_metadata : UserMeta }.
Definition node_hier_write (n : MetaNode) (req : HierWriteRequest) : MetaNode * result Status (option RouteError * string) :=
  match etag16 (hwr_etag req) "etag must be 16 bytes" with
  | Err status => (n, Err status)
  | Ok etag =>
      let http := decode_http_meta (hwr_content_type req) (hwr_content_encoding req) (hwr_cache_control req) (hwr_user_metadata req) in
      let op := HWrite (hwr_bucket_id req) (hwr_parent_ino req) (hwr_name req) (hwr_size req) etag
                  (put_content (hwr_inline_data req) (hwr_slices req)) http (hwr_ts_millis req) in
      rejected_answer (propose_hier n (hwr_bucket_id req) (hwr_parent_ino req) (hwr_name req) op)
  end.
Definition node_hier_unlink (n : MetaNode) (bucket parent_ino : Z) (name : bytes) (ts_millis : Z) : MetaNode * result Status (option RouteError * string) :=
  rejected_answer (propose_hier n bucket parent_ino name (HUnlink bucket parent_ino name ts_millis)).
Definition node_hier_mkdir_sentinel (n : MetaNode) (bucket parent_ino : Z) (name : bytes) (ts_millis : Z) : MetaNode * result Status (option RouteError * Z) :=
  let '(n, r) := propose_hier n bucket parent_ino name (HMkdirSentinel bucket parent_ino name ts_millis) in
  (n, r <-? r ;;
      match r with
      | Ok (MintedIno child_ino) => Ok (None, child_ino)
      | Ok _ => Err (internal "mkdir sentinel expected a minted ino")
      | Err e => Ok (Some e, 0)
      end).
Definition node_hier_mkdir_link (n : MetaNode) (bucket parent_ino : Z) (name : bytes) (child_ino ts_millis : Z)
    : MetaNode * result Status (option RouteError * string) :=
  rejected_answer (propose_hier n bucket parent_ino name (HMkdirLink bucket parent_ino name child_ino ts_millis)).
Record HierDirEntry : Set := { hde_name : bytes; hde_kind : HierEntryKind; hde_file : option ObjectHeadView; hde_dir_ino : Z }.
Definition dir_entry_view (e : bytes * FsRecord) : HierDirEntry :=
  match e.2 with
  | FsFile f => {| hde_name := e.1; hde_kind := HierEntryFile; hde_file := Some (file_to_head_view f); hde_dir_ino := 0 |}
  | FsDir d => {| hde_name := e.1; hde_kind := HierEntryDir; hde_file := None; hde_dir_ino := de_ino d |}
  | FsSentinel d => {| hde_name := e.1; hde_kind := HierEntryDir; hde_file := None; hde_dir_ino := dr_ino d |}
  end.
Definition node_hier_readdir (n : MetaNode) (bucket dir_ino : Z) (start_after : bytes) (limit : Z)
    : result Status (option RouteError * list HierDirEntry) :=
  match read_at_leader n bucket (hier_routing_key dir_ino []) with
  | Err error => Ok (Some error, [])
  | Ok _ =>
      let after := match start_after with [] => None | _ => Some start_after end in
      match readdir (mn_store n) bucket dir_ino after (clamp_limit limit) with
      | Err _ => Err (internal "readdir")
      | Ok page => Ok (None, dir_entry_view <$> page)
      end
  end.

(** ** Partition administration (service.rs) *)

Definition request_info (req : GroupRequest) (ns : Namespace) : PartitionInfo := {|
  pi_range := {| pr_ns := ns; pr_start := decode_bound (gq_start_bucket req) (gq_start_key req) (gq_start_unbounded req);
                 pr_end := decode_bound (gq_end_bucket req) (gq_end_key req) (gq_end_unbounded req) |};
  pi_peers := (fun p => (peer_node_id p, peer_addr p)) <$> gq_peers req |}.
(** The second component: the members the bootstrap node initializes the group with. *)
Definition node_create_raft_group (n : MetaNode) (req : GroupRequest) : MetaNode * result Status (option (list (Z * string))) :=
  match decode_ns (gq_ns req) with
  | Err status => (n, Err status)
  | Ok ns =>
      let info := request_info req ns in
      match (if decide (is_Some (mn_groups n !! gq_partition_id req)) then Ok n
             else match create_group n (gq_partition_id req) (pi_range info) with
                  | None => Ok n
                  | Some (Ok n) => Ok n
                  | Some (Err _) => Err (internal "create group")
                  end) with
      | Err status => (n, Err status)
      | Ok n =>
          let n := set_registry n (PartitionRegistry_register (mn_registry n) (gq_partition_id req) info) in
          (n, Ok (if gq_bootstrap_node_id req =? mn_node_id n
                  then if rv_initialized (rv (gq_partition_id req)) then None else Some (pi_peers info)
                  else None))
      end
  end.
Definition node_prepare_migrate_target (n : MetaNode) (req : GroupRequest) : MetaNode * result Status unit :=
  match decode_ns (gq_ns req) with
  | Err status => (n, Err status)
  | Ok ns =>
      let info := request_info req ns in
      match ensure_group_present n (gq_partition_id req) (pi_range info) with
      | Err _ => (n, Err (internal "ensure group present"))
      | Ok n => (set_registry n (PartitionRegistry_register (mn_registry n) (gq_partition_id req) info), Ok tt)
      end
  end.

Definition SPLIT_SCAN_LIMIT : nat := 4096.
(** The first coordinate, from the middle on, the range can be split at. *)
Fixpoint first_boundary (range : PartitionRange) (keys : KvPage) : option (Z * bytes) :=
  match keys with
  | [] => None
  | (key, _) :: keys =>
      match routing_key key with
      | None => first_boundary range keys
      | Some at_ => match PartitionRange_split range at_ with Some _ => Some at_ | None => first_boundary range keys end
      end
  end.
Definition pick_split_point (n : MetaNode) (range : PartitionRange) : result Status (option (Z * bytes)) :=
  let '(cf, start, end_) := primary_scan_bounds range in
  match ms_scan (mn_store n) cf start end_ SPLIT_SCAN_LIMIT with
  | Err _ => Err (internal "split scan")
  | Ok keys =>
      if (length keys <? 2)%nat then Ok None
      else Ok (first_boundary range (drop (length keys / 2) keys))
  end.
Definition node_suggest_split_point (n : MetaNode) (partition_id : Z) : result Status (option RouteError * option (Z * bytes)) :=
  match mn_groups n !! partition_id with
  | None => Ok (Some (route_error PartitionMoved partition_id ""), None)
  | Some _ =>
      match check_leader n partition_id with
      | Err error => Ok (Some error, None)
      | Ok _ =>
          info <-? ok_or (PartitionRegistry_info (mn_registry n) partition_id) (internal "partition info missing for hosted group") ;;
          at_ <-? pick_split_point n (pi_range info) ;; Ok (None, at_)
      end
  end.
Definition node_apply_split (n : MetaNode) (partition_id : Z) (op : SplitOp) : MetaNode * result Status (option RouteError) :=
  match mn_groups n !! partition_id with
  | None => (n, Ok (Some (route_error PartitionMoved partition_id "")))
  | Some _ =>
      let '(n, r) := client_write n partition_id (rv_write (rv partition_id)) (ME_Split op) in
      (n, match r with Ok _ => Ok None | Err err => e <-? write_error n partition_id err ;; Ok (Some e) end)
  end.
(** [(hosted, blob ids)] *)
Definition node_export_references (n : MetaNode) (partition_id : Z) : result Status (bool * list Z) :=
  match PartitionRegistry_info (mn_registry n) partition_id, mn_groups n !! partition_id with
  | Some info, Some _ =>
      match linearize n partition_id with
      | Err _ => Err {| st_code := CFailedPrecondition; st_message := "export_references not leader" |}
      | Ok _ => match export_references (mn_store n) (pi_range info) with
                | Err _ => Err (internal "export_references scan")
                | Ok refs => Ok (true, elements refs)
                end
      end
  | _, _ => Ok (false, [])
  end.
End Node.

(** ** Proofs

    The service of a metadata node: what it acknowledges is what it answers, and
    what a restart or a split leaves of its table of partitions. *)

From S2P Require Import MetaRefs MetaFlatProps MetaSmProps.

(** ** Wire conversions *)

Lemma slice_roundtrip s : slice_to_proto (decode_slice s) = s.
Proof. by destruct s. Qed.
Lemma non_empty_default s : default "" (non_empty s) = s.
Proof. unfold non_empty. destruct (String.eqb_spec s ""); by subst. Qed.
Lemma sorted_user_map (m : UserMeta) : list_to_map (sorted_user m) = m.
Proof.
  unfold sorted_user. rewrite <- (list_to_map_to_list m) at 2. apply list_to_map_proper.
  - rewrite merge_sort_Permutation. apply NoDup_fst_map_to_list.
  - by rewrite merge_sort_Permutation.
Qed.

Section Props.
Context `{MetaSerde} {MS : MetaStore} (blake3 : bytes -> bytes) {LogId Membership : Set} `{!SmSerde LogId Membership}.
Implicit Types (n : @MetaNode MS) (rv : Z -> RaftView (LogId := LogId)).

(** A committed flat operation is applied to the store with nothing but the
    group's own records besides. *)
Lemma apply_flat_op sm op log_id o : ms_open (sm_store sm) -> flat_apply blake3 (sm_store sm) op (sm_delq_next sm) = Ok o ->
  exists sm', sm_apply (LogId := LogId) (Membership := Membership) blake3 sm [{| le_log_id := log_id; le_payload := Normal (ME_Flat op) |}]
              = (sm', Ok [ao_response o])
    /\ ms_open (sm_store sm')
    /\ forall cf, cf <> Applied -> ms_view (sm_store sm') cf = view_ops cf (ao_ops o) (ms_view (sm_store sm) cf).
Proof.
  intros Ho E. cbn [sm_apply]. rewrite bool_decide_true by done. unfold meta_apply_entry, entry_ops. cbn [le_payload].
  cbn [with_counters sm_store]. rewrite E. destruct (PartitionGuard_counters _) as [[i c] t]. cbn [sm_store with_counters].
  match goal with |- context [ms_apply _ ?l] => set (ops := l) end.
  destruct (ms_apply_ok (sm_store sm) ops Ho) as (s' & Es & Ho' & Hv). cbn [sm_store with_counters write_err]. rewrite Es. cbn [write_err].
  eexists. split; [reflexivity|]. cbn [sm_store with_store]. split; [done|]. intros cf Hcf. rewrite Hv. unfold ops, write_applied.
  rewrite !view_ops_app. unfold view_ops at 1 2. cbn [foldl]. unfold view_op, StoreOp_put. cbn [so_cf].
  by rewrite !decide_False by congruence.
Qed.

(** ** Puts and gets *)

(** The node leads the partition of the name and its proposals commit. *)
Definition serves rv n (bucket : Z) (key : bytes) (group : Z) : Prop :=
  node_route n bucket key = Ok group /\ rv_is_leader (rv group) = true /\ rv_linearizable (rv group) = true
  /\ exists log_id, rv_write (rv group) = WA_Committed log_id.
(** What the service admits: an etag of 16 bytes, slices or inline bytes the guard
    lets pass. *)
Definition admissible n (group : Z) (req : PutObjectRequest) : Prop :=
  length (por_etag req) = 16%nat /\ is_bytes (por_key req) /\ len (por_slices req) < 2 ^ 32
  /\ (por_slices req = [] -> exists guard, node_guard n group = Some guard
       /\ PartitionGuard_check_inline guard (len (por_inline_data req)) (resolve_threshold DEFAULT_INLINE_THRESHOLD None) = Ok tt).
Definition reads_as (req : PutObjectRequest) (resp : GetObjectMetaResponse) : Prop :=
  gom_error resp = None /\ gom_found resp = true /\ gom_slices resp = por_slices req
  /\ (por_slices req = [] -> gom_inline_data resp = por_inline_data req)
  /\ exists h, gom_head resp = Some h /\ hv_size h = por_size req /\ hv_etag h = por_etag req /\ hv_mtime h = por_ts_millis req
     /\ hv_inline h = bool_decide (por_slices req = [])
     /\ (hv_content_type h, hv_content_encoding h, hv_cache_control h, hv_user_metadata h)
        = (por_content_type req, por_content_encoding req, por_cache_control req, por_user_metadata req).

Lemma head_view_put req etag head' : 
  (oh_size head', oh_etag head', oh_mtime head', oh_http head') = (oh_size (put_head req etag), oh_etag (put_head req etag), oh_mtime (put_head req etag), oh_http (put_head req etag)) ->
  match oh_content head' with Inline _ => True | _ => False end = match oh_content (put_head req etag) with Inline _ => True | _ => False end ->
  let h := head_to_proto head' in
  hv_size h = por_size req /\ hv_etag h = etag /\ hv_mtime h = por_ts_millis req /\ hv_inline h = bool_decide (por_slices req = [])
  /\ (hv_content_type h, hv_content_encoding h, hv_cache_control h, hv_user_metadata h)
     = (por_content_type req, por_content_encoding req, por_cache_control req, por_user_metadata req).
Proof.
  intros [= H1 H2 H3 H4] Hc. unfold head_to_proto, head_view. rewrite H1, H2, H3, H4. cbn in Hc |- *. unfold put_content in Hc.
  destruct (oh_content head') as [b|l], (por_slices req) as [|x xs]; cbn in Hc.
  2: exfalso; by rewrite <- Hc. 2: exfalso; by rewrite Hc.
  all: cbn; rewrite !non_empty_default, sorted_user_map; split_and!; done.
Qed.
Lemma slices_put req : ContentHead_into_slices (oh_content (put_head req (por_etag req))) = decode_slice <$> por_slices req.
Proof. cbn. unfold put_content. by destruct (por_slices req). Qed.

Lemma node_put_then_get rv n req group : store_wf (mn_store n) -> serves rv n (por_bucket_id req) (por_key req) group -> admissible n group req ->
  exists n', node_put_object (Membership := Membership) blake3 rv n req = (n', Ok None)
    /\ serves rv n' (por_bucket_id req) (por_key req) group
    /\ exists resp, node_get_object_meta rv n' (por_bucket_id req) (por_key req) = Ok resp /\ reads_as req resp.
Proof.
  intros [Ho Hk] (Hr & Hl & Hlin & log_id & Hw) (He & Hb & Hn & Hg). unfold node_put_object. rewrite Hr. unfold check_leader. rewrite Hl.
  assert ((_ <-? match por_slices req with
                 | [] => guard <-? ok_or (node_guard n group) (internal "partition guard missing") ;;
                         match PartitionGuard_check_inline guard (len (por_inline_data req)) (resolve_threshold DEFAULT_INLINE_THRESHOLD None) with
                         | Err _ => Err {| st_code := CResourceExhausted; st_message := "inline rejected; retry with EC slices" |}
                         | Ok _ => Ok tt
                         end
                 | _ => Ok tt
                 end ;; etag16 (por_etag req) "etag must be 16 bytes") = Ok (por_etag req)) as ->.
  { unfold etag16. rewrite He. destruct (por_slices req); [|done]. destruct (Hg eq_refl) as (guard & -> & Hc). cbn [ok_or]. by rewrite Hc. }
  rewrite Hw. cbn [client_write]. unfold node_raft.
  assert (exists sm, mn_groups n !! group = Some sm) as [sm Hsm].
  { unfold node_route in Hr. destruct (PartitionRegistry_route _ _ _); [|done]. destruct (mn_groups n !! _) as [sm|] eqn:E; [|done].
    injection Hr as ->. by exists sm. }
  rewrite Hsm. cbn [fmap option_fmap option_map]. set (sm0 := with_store sm (mn_store n) (sm_guard sm)).
  destruct (put_reads_back blake3 (mn_store n) (por_bucket_id req) (por_key req) (put_head req (por_etag req)) (sm_delq_next sm0) (por_ts_millis req))
    as (o & Eo & _ & Hread); [done|done|done| |].
  { rewrite slices_put, length_fmap. exact Hn. }
  destruct (apply_flat_op sm0 (FPut (por_bucket_id req) (por_key req) (put_head req (por_etag req)) (por_ts_millis req)) log_id o Ho Eo)
    as (sm' & Es & Ho' & Hv).
  rewrite Es. eexists. split; [reflexivity|].
  destruct (Hread (sm_store sm') Ho') as (head' & Hget & Hh & Hi).
  { intros cf Hcf. apply Hv. destruct Hcf as [->| ->]; discriminate. }
  assert (node_route (set_store (set_groups n (<[group:=sm']> (mn_groups n))) (sm_store sm')) (por_bucket_id req) (por_key req) = Ok group) as Hr'.
  { unfold node_route in *. cbn [mn_registry mn_groups set_store set_groups]. destruct (PartitionRegistry_route _ _ _) as [g|]; [|done].
    destruct (decide (g = group)) as [->|Hne]; [by rewrite lookup_insert_eq|]. destruct (mn_groups n !! g); [|done]. congruence. }
  split; [split_and!; [done..|by exists log_id]|]. unfold node_get_object_meta, read_at_leader. rewrite Hr'. unfold linearize. rewrite Hlin.
  cbn [mn_store set_store]. rewrite Hget. eexists. split; [reflexivity|]. rewrite slices_put.
  destruct (head_view_put req (por_etag req) head' Hh Hi) as (H1 & H2 & H3 & H4 & H5).
  split_and!; try done; cbn [gom_slices gom_inline_data gom_head].
  - rewrite <- list_fmap_compose. rewrite (list_fmap_ext _ id); [apply list_fmap_id|]. intros ? x _. apply slice_roundtrip.
  - intros E. cbn. unfold put_content. by rewrite E.
  - by exists (head_to_proto head').
Qed.

(** ** Restarts and splits *)

Lemma start_group_registry n group range n' : start_group n group range = Ok n' ->
  mn_registry n' = mn_registry n /\ mn_groups n' !! group <> None
  /\ (forall g, mn_groups n !! g <> None -> mn_groups n' !! g <> None) /\ mn_store n' = mn_store n.
Proof.
  unfold start_group. destruct (MetaStateMachine_new _ _ _) as [sm|]; [|done]. intros [= <-]. cbn [mn_registry mn_groups mn_store set_groups].
  split_and!; [done|by rewrite lookup_insert_eq| |done]. intros g Hg.
  destruct (decide (g = group)) as [->|]; [by rewrite lookup_insert_eq|by rewrite lookup_insert_ne].
Qed.
Lemma recover_loop_registry records : forall n n' acc ids, recover_loop n records acc = Ok (n', ids) ->
  mn_registry n' = mn_registry n /\ (forall g, mn_groups n !! g <> None -> mn_groups n' !! g <> None)
  /\ Forall (fun r : Z * PartitionRange => mn_groups n' !! r.1 <> None) records.
Proof.
  induction records as [|[g r] records IH]; intros n n' acc ids E; cbn [recover_loop] in E; [by injection E as <- <-|].
  destruct (decide _) as [[sm Hsm]|].
  - destruct (IH _ _ _ _ E) as (H1 & H2 & H3). split_and!; [done..|]. constructor; [|done]. apply H2. cbn. congruence.
  - destruct (start_group n g r) as [n1|] eqn:Es; [|done]. destruct (start_group_registry _ _ _ _ Es) as (R1 & R2 & R3 & _).
    destruct (IH _ _ _ _ E) as (H1 & H2 & H3). split_and!; [congruence|auto|]. constructor; [|done]. by apply H2.
Qed.

(** After a restart every registered group runs again, and the table of partitions
    is empty: every request is answered with a redirect. *)
Lemma restart_routes_nothing n n' ids : recover (restarted n) = Ok (n', ids) ->
  (forall g, mn_records n !! g <> None -> mn_groups n' !! g <> None)
  /\ forall bucket key, node_route n' bucket key = Err (route_error PartitionMoved 0 "").
Proof.
  intros E. unfold recover in E. destruct (recover_loop_registry _ _ _ _ _ E) as (Hr & _ & Hf). split.
  - intros g Hg. destruct (mn_records n !! g) as [r|] eqn:Eg; [|done]. rewrite Forall_forall in Hf. apply (Hf (g, r)). by apply elem_of_map_to_list.
  - intros bucket key. unfold node_route. by rewrite Hr.
Qed.
End Props.
