(* ===== verification/MetaClient.v ===== *)
(** The routed metadata client (epoch-client meta.rs): the cache of routes, the
    retry loop around a call, and one wrapper per call of a metadata node's service.
    The cluster the calls reach is a state threaded through them. *)

From stdpp Require Import pretty.
From S2P Require Import Prelude Ids Rocks PdDb Client MetaStore MetaKeys MetaNs MetaFlat MetaHier MetaSm MetaGc MetaNode.

Definition MAX_ROUTE_ATTEMPTS : nat := 4.
Definition pv_set_leader (v : MetaPartitionView) (addr : string) : MetaPartitionView := {|
  pv_partition_id := pv_partition_id v; pv_ns := pv_ns v; pv_start_bucket := pv_start_bucket v; pv_start_key := pv_start_key v;
  pv_start_unbounded := pv_start_unbounded v; pv_end_bucket := pv_end_bucket v; pv_end_key := pv_end_key v;
  pv_end_unbounded := pv_end_unbounded v; pv_peers := pv_peers v; pv_leader_node_id := pv_leader_node_id v; pv_leader_addr := addr;
  pv_epoch := pv_epoch v |}.
Definition ns_wire (ns : PbNsMode) : Z := match ns with NsUnspecified => 0 | NsFlat => 1 | NsHier => 2 end.

Definition CachedRoute_contains (v : MetaPartitionView) (ns : PbNsMode) (bucket : Z) (routing_key : bytes) : bool :=
  (pv_ns v =? ns_wire ns)
  && (pv_start_unbounded v || pr_coord_leb (pv_start_bucket v, pv_start_key v) (bucket, routing_key))
  && (pv_end_unbounded v || pr_coord_ltb (bucket, routing_key) (pv_end_bucket v, pv_end_key v)).

(** ** The cache of routes *)

Abbreviation Routes := (list MetaPartitionView) (only parsing).
Definition cached (routes : Routes) (ns : PbNsMode) (bucket : Z) (routing_key : bytes) : option MetaPartitionView :=
  snd <$> list_find (fun v => CachedRoute_contains v ns bucket routing_key = true) routes.
Definition evict (routes : Routes) (partition_id : Z) : Routes := filter (fun v => pv_partition_id v <> partition_id) routes.
Definition cache_route (routes : Routes) (view : MetaPartitionView) : Routes := evict routes (pv_partition_id view) ++ [view].
Definition update_leader (routes : Routes) (partition_id : Z) (leader_addr : string) : Routes :=
  if String.eqb leader_addr "" then routes
  else (fun v => if pv_partition_id v =? partition_id then pv_set_leader v leader_addr else v) <$> routes.

Inductive RouteAction : Set := ANotLeader (leader_addr : string) | AMoved.
Definition classify_route (error : option RouteError) : option RouteAction :=
  error ← error;
  match re_kind error with
  | NotLeader => Some (ANotLeader (re_leader_addr error))
  | PartitionMoved | NoPartition => Some AMoved
  | KUnspecified => None
  end.

Section Routed.
(** The cluster, the placement driver's answer in it, and the addresses the
    transport library takes. *)
Context {W : Type} (get_route : W -> PbNsMode -> Z -> bytes -> result ClientError (option MetaPartitionView)) (valid_endpoint : string -> bool).

Definition resolve_route (w : W) (routes : Routes) (ns : PbNsMode) (bucket : Z) (routing_key : bytes) : Routes * result ClientError MetaPartitionView :=
  match cached routes ns bucket routing_key with
  | Some route => (routes, Ok route)
  | None =>
      match get_route w ns bucket routing_key with
      | Err e => (routes, Err e)
      | Ok None => (routes, Err (CE_NotFound "no partition covers the coordinate"))
      | Ok (Some view) => (cache_route routes view, Ok view)
      end
  end.

Context {T : Type} (run : string -> W -> W * result Status T) (route_error_of : T -> option RouteError).

Fixpoint route_attempts (attempts : nat) (w : W) (routes : Routes) (ns : PbNsMode) (bucket : Z) (routing_key : bytes) (last : string)
    : W * Routes * result ClientError T :=
  match attempts with
  | O => (w, routes, Err (NoLeader (Z.of_nat MAX_ROUTE_ATTEMPTS) last))
  | S attempts =>
      match resolve_route w routes ns bucket routing_key with
      | (routes, Err e) => (w, routes, Err e)
      | (routes, Ok route) =>
          let partition_id := pv_partition_id route in
          let addr := pv_leader_addr route in
          if String.eqb addr "" then
            route_attempts attempts w (evict routes partition_id) ns bucket routing_key
              ("partition " ++ pretty partition_id ++ " has no known leader")
          else if negb (valid_endpoint addr) then (w, routes, Err (EndpointError addr))
          else
            match run addr w with
            | (w, Err status) => (w, evict routes partition_id, Err (from_status status))
            | (w, Ok response) =>
                match classify_route (route_error_of response) with
                | None => (w, routes, Ok response)
                | Some (ANotLeader leader_addr) =>
                    let routes := update_leader routes partition_id leader_addr in
                    let routes := if String.eqb leader_addr "" then evict routes partition_id else routes in
                    route_attempts attempts w routes ns bucket routing_key ("partition " ++ pretty partition_id ++ " not-leader")
                | Some AMoved =>
                    route_attempts attempts w (evict routes partition_id) ns bucket routing_key
                      ("partition " ++ pretty partition_id ++ " moved")
                end
            end
      end
  end.
Definition route_op (w : W) (routes : Routes) (ns : PbNsMode) (bucket : Z) (routing_key : bytes) : W * Routes * result ClientError T :=
  route_attempts MAX_ROUTE_ATTEMPTS w routes ns bucket routing_key "".
End Routed.

(** ** The calls *)

(** [HttpMeta] of the client: headers to set, or read from a head. *)
Record ClientHttpMeta : Set := {
  chm_content_type : option string; chm_content_encoding : option string; chm_cache_control : option string; chm_user : UserMeta }.
Definition ClientHttpMeta_from_view (v : ObjectHeadView) : ClientHttpMeta := {|
  chm_content_type := non_empty (hv_content_type v); chm_content_encoding := non_empty (hv_content_encoding v);
  chm_cache_control := non_empty (hv_cache_control v); chm_user := hv_user_metadata v |}.
Record PutObject : Set := {
  po_bucket : Z; po_key : bytes; po_size : Z; po_etag : bytes; po_inline_data : bytes; po_slices : list SliceRef; po_ts_millis : Z;
  po_http : ClientHttpMeta }.
Definition put_request (put : PutObject) : PutObjectRequest := {|
  por_bucket_id := po_bucket put; por_key := po_key put; por_size := po_size put; por_etag := po_etag put; por_ts_millis := po_ts_millis put;
  por_inline_data := po_inline_data put; por_slices := po_slices put; por_content_type := default "" (chm_content_type (po_http put));
  por_content_encoding := default "" (chm_content_encoding (po_http put)); por_cache_control := default "" (chm_cache_control (po_http put));
  por_user_metadata := chm_user (po_http put) |}.
Record HierWriteCall : Set := {
  hw_bucket : Z; hw_parent_ino : Z; hw_name : bytes; hw_size : Z; hw_etag : bytes; hw_inline_data : bytes; hw_slices : list SliceRef;
  hw_ts_millis : Z; hw_http : ClientHttpMeta }.
Definition hier_write_request (w : HierWriteCall) : HierWriteRequest := {|
  hwr_bucket_id := hw_bucket w; hwr_parent_ino := hw_parent_ino w; hwr_name := hw_name w; hwr_size := hw_size w; hwr_etag := hw_etag w;
  hwr_ts_millis := hw_ts_millis w; hwr_inline_data := hw_inline_data w; hwr_slices := hw_slices w;
  hwr_content_type := default "" (chm_content_type (hw_http w)); hwr_content_encoding := default "" (chm_content_encoding (hw_http w));
  hwr_cache_control := default "" (chm_cache_control (hw_http w)); hwr_user_metadata := chm_user (hw_http w) |}.

(** The metadata nodes by address. *)
Abbreviation Cluster := (gmap string MetaNode) (only parsing).

Section Calls.
Context `{MetaSerde} {MS : MetaStore} (blake3 : bytes -> bytes) {LogId Membership : Set} `{!SmSerde LogId Membership}.
(** What consensus answers at each of them; what the
    placement driver answers. *)
Context (rvs : string -> Z -> RaftView (LogId := LogId))
  (get_route : Cluster -> PbNsMode -> Z -> bytes -> result ClientError (option MetaPartitionView)) (valid_endpoint : string -> bool).
Implicit Types (w : Cluster) (routes : Routes).

(** A call to the node at an address; nobody there is a transport failure. *)
Definition at_node {T} (f : (Z -> RaftView (LogId := LogId)) -> MetaNode -> MetaNode * result Status T) (addr : string) (w : Cluster)
    : Cluster * result Status T :=
  match w !! addr with
  | None => (w, Err {| st_code := CUnavailable; st_message := "transport error" |})
  | Some n => let '(n, r) := f (rvs addr) n in (<[addr := n]> w, r)
  end.
Definition reading {T} (f : (Z -> RaftView (LogId := LogId)) -> MetaNode -> result Status T) rv (n : MetaNode) : MetaNode * result Status T :=
  (n, f rv n).
Definition calls {T} (f : (Z -> RaftView (LogId := LogId)) -> MetaNode -> MetaNode * result Status T) (error : T -> option RouteError)
    w routes (ns : PbNsMode) (bucket : Z) (routing_key : bytes) : Cluster * Routes * result ClientError T :=
  route_op get_route valid_endpoint (at_node f) error w routes ns bucket routing_key.
(** The last step of a wrapper. *)
Definition map_ok {T U} (f : T -> U) (r : Cluster * Routes * result ClientError T) : Cluster * Routes * result ClientError U :=
  let '(w, routes, r) := r in (w, routes, t <-? r ;; Ok (f t)).
Definition rejection (r : option RouteError * string) : option string := non_empty r.2.

Definition client_put_object w routes (put : PutObject) : Cluster * Routes * result ClientError unit :=
  map_ok (fun _ => tt)
    (calls (fun rv n => node_put_object (Membership := Membership) blake3 rv n (put_request put)) (fun r => r) w routes NsFlat (po_bucket put) (po_key put)).
Definition client_head_object w routes (bucket : Z) (key : bytes) : Cluster * Routes * result ClientError (option ObjectHeadView) :=
  map_ok (fun r => if hor_found r then Some (default ObjectHeadView_default (hor_head r)) else None)
    (calls (reading (fun rv n => node_head_object rv n bucket key)) hor_error w routes NsFlat bucket key).
Definition client_get_object_meta w routes (bucket : Z) (key : bytes) : Cluster * Routes * result ClientError (option GetObjectMetaResponse) :=
  map_ok (fun r => if gom_found r then Some r else None)
    (calls (reading (fun rv n => node_get_object_meta rv n bucket key)) gom_error w routes NsFlat bucket key).
Definition client_delete_object w routes (bucket : Z) (key : bytes) (ts_millis : Z) : Cluster * Routes * result ClientError unit :=
  map_ok (fun _ => tt)
    (calls (fun rv n => node_delete_object (Membership := Membership) blake3 rv n bucket key ts_millis) (fun r => r) w routes NsFlat bucket key).
Definition client_list_objects w routes (bucket : Z) (prefix start_after : bytes) (limit : Z)
    : Cluster * Routes * result ClientError (list (bytes * ObjectHeadView)) :=
  let route_key := match start_after with [] => prefix | _ => start_after end in
  map_ok snd (calls (reading (fun rv n => node_list_objects rv n bucket prefix start_after limit)) fst w routes NsFlat bucket route_key).
Definition client_create_multipart w routes (bucket : Z) (key : bytes) (upload_id ts_millis : Z) : Cluster * Routes * result ClientError unit :=
  map_ok (fun _ => tt)
    (calls (fun rv n => node_create_multipart (Membership := Membership) blake3 rv n bucket key (be_bytes 16 upload_id) ts_millis) (fun r => r)
       w routes NsFlat bucket key).
(** The part and completion calls answer the reason of a rejection, if any. *)
Definition client_put_part w routes (bucket : Z) (key : bytes) (upload_id part_no size : Z) (etag : bytes) (slices : list SliceRef) (ts_millis : Z)
    : Cluster * Routes * result ClientError (option string) :=
  map_ok rejection
    (calls (fun rv n => node_put_part (Membership := Membership) blake3 rv n bucket key (be_bytes 16 upload_id) part_no size etag slices ts_millis) fst
       w routes NsFlat bucket key).
Definition client_complete_multipart w routes (bucket : Z) (key : bytes) (upload_id : Z) (parts : list (Z * bytes)) (ts_millis : Z)
    : Cluster * Routes * result ClientError (option string) :=
  map_ok rejection
    (calls (fun rv n => node_complete_multipart (Membership := Membership) blake3 rv n bucket key (be_bytes 16 upload_id) parts ts_millis) fst
       w routes NsFlat bucket key).
Definition client_abort_multipart w routes (bucket : Z) (key : bytes) (upload_id ts_millis : Z) : Cluster * Routes * result ClientError unit :=
  map_ok (fun _ => tt)
    (calls (fun rv n => node_abort_multipart (Membership := Membership) blake3 rv n bucket key (be_bytes 16 upload_id) ts_millis) (fun r => r)
       w routes NsFlat bucket key).
(** Not routed: the caller names the node. *)
Definition client_export_references w (addr : string) (partition_id : Z) : result ClientError (option (list Z)) :=
  if negb (valid_endpoint addr) then Err (EndpointError addr)
  else match (at_node (reading (fun rv n => node_export_references rv n partition_id)) addr w).2 with
       | Err status => Err (Rpc (st_code status) (st_message status))
       | Ok (hosted, blob_ids) => Ok (if hosted : bool then Some blob_ids else None)
       end.
Definition client_hier_lookup w routes (bucket parent_ino : Z) (name : bytes) : Cluster * Routes * result ClientError HierLookupResponse :=
  calls (reading (fun rv n => node_hier_lookup rv n bucket parent_ino name)) hlr_error w routes NsHier bucket (hier_routing_key parent_ino name).
Definition client_hier_write w routes (write : HierWriteCall) : Cluster * Routes * result ClientError (option string) :=
  map_ok rejection
    (calls (fun rv n => node_hier_write (Membership := Membership) blake3 rv n (hier_write_request write)) fst
       w routes NsHier (hw_bucket write) (hier_routing_key (hw_parent_ino write) (hw_name write))).
Definition client_hier_unlink w routes (bucket parent_ino : Z) (name : bytes) (ts_millis : Z) : Cluster * Routes * result ClientError (option string) :=
  map_ok rejection
    (calls (fun rv n => node_hier_unlink (Membership := Membership) blake3 rv n bucket parent_ino name ts_millis) fst
       w routes NsHier bucket (hier_routing_key parent_ino name)).
Definition client_hier_mkdir_sentinel w routes (bucket parent_ino : Z) (name : bytes) (ts_millis : Z) : Cluster * Routes * result ClientError Z :=
  map_ok snd
    (calls (fun rv n => node_hier_mkdir_sentinel (Membership := Membership) blake3 rv n bucket parent_ino name ts_millis) fst
       w routes NsHier bucket (hier_routing_key parent_ino name)).
Definition client_hier_mkdir_link w routes (bucket parent_ino : Z) (name : bytes) (child_ino ts_millis : Z)
    : Cluster * Routes * result ClientError (option string) :=
  map_ok rejection
    (calls (fun rv n => node_hier_mkdir_link (Membership := Membership) blake3 rv n bucket parent_ino name child_ino ts_millis) fst
       w routes NsHier bucket (hier_routing_key parent_ino name)).
Definition client_hier_readdir w routes (bucket dir_ino : Z) (start_after : bytes) (limit : Z) : Cluster * Routes * result ClientError (list HierDirEntry) :=
  map_ok snd
    (calls (reading (fun rv n => node_hier_readdir rv n bucket dir_ino start_after limit)) fst
       w routes NsHier bucket (hier_routing_key dir_ino [])).
End Calls.

(** ** Proofs

    The routed metadata client reaches the leader of a settled cluster within its
    attempts, whatever its cache of routes holds of the past, and what it puts
    through one cache it gets through another. *)

From S2P Require Import MetaRefs MetaFlatProps MetaSmProps.

(** ** The cache of routes *)

Section Cache.
Context (ns : PbNsMode) (bucket : Z) (routing_key : bytes).
(** The cached routes that cover the name. *)
Definition covering (routes : Routes) : Routes := filter (fun v => CachedRoute_contains v ns bucket routing_key = true) routes.
Lemma cached_covering routes : cached routes ns bucket routing_key = head (covering routes).
Proof.
  unfold cached, covering. induction routes as [|v routes IH]; [done|]. cbn [list_find]. rewrite filter_cons. destruct (decide _); [done|].
  rewrite <- IH. by destruct (list_find _ routes) as [[]|].
Qed.
Lemma covering_evict routes id : covering (evict routes id) = evict (covering routes) id.
Proof.
  unfold covering, evict. induction routes as [|v routes IH]; [done|].
  rewrite !filter_cons. repeat case_decide; rewrite ?filter_cons; repeat case_decide; try done; by rewrite ?IH.
Qed.
Lemma covering_update routes id addr : covering (update_leader routes id addr) = update_leader (covering routes) id addr.
Proof.
  unfold covering, update_leader. destruct (String.eqb addr ""); [done|]. induction routes as [|v routes IH]; [done|].
  rewrite fmap_cons, !filter_cons, IH.
  assert (CachedRoute_contains (if pv_partition_id v =? id then pv_set_leader v addr else v) ns bucket routing_key
          = CachedRoute_contains v ns bucket routing_key) as -> by by destruct (_ =? _).
  by destruct (decide _).
Qed.
Lemma covering_cache routes view : CachedRoute_contains view ns bucket routing_key = true ->
  covering (cache_route routes view) = evict (covering routes) (pv_partition_id view) ++ [view].
Proof. intros Hc. unfold cache_route. unfold covering at 1. rewrite filter_app. fold (covering (evict routes (pv_partition_id view))).
  rewrite covering_evict. f_equal. rewrite filter_cons. by rewrite decide_True by done.
Qed.
Lemma evict_head route rest : (length (evict (route :: rest) (pv_partition_id route)) <= length rest)%nat.
Proof. unfold evict. rewrite filter_cons, decide_False by tauto. apply length_filter. Qed.
Lemma evict_incl (P : MetaPartitionView -> Prop) routes id : Forall P (covering routes) -> Forall P (covering (evict routes id)).
Proof. rewrite covering_evict. unfold evict. rewrite !Forall_forall. intros Hf x Hx. apply Hf. by apply list_elem_of_filter in Hx as [_ ?]. Qed.
End Cache.

(** ** Convergence *)

Section Converge.
Context {W : Type} (get_route : W -> PbNsMode -> Z -> bytes -> result ClientError (option MetaPartitionView)) (valid_endpoint : string -> bool)
  {T : Type} (run : string -> W -> W * result Status T) (route_error_of : T -> option RouteError)
  (ns : PbNsMode) (bucket : Z) (routing_key : bytes) (w w' : W) (leader : string) (answer : result Status T).

(** Another node answers with a redirect and changes nothing; a leader it names is
    the leader. *)
Definition redirects (addr : string) (action : RouteAction) : Prop :=
  exists resp, run addr w = (w, Ok resp) /\ classify_route (route_error_of resp) = Some action.
Definition good_action (action : RouteAction) : Prop := action = AMoved \/ action = ANotLeader "" \/ action = ANotLeader leader.
Definition good_addr (addr : string) : Prop :=
  valid_endpoint addr = true /\ (addr = leader \/ exists action, redirects addr action /\ good_action action).
(** The addresses [member] of the cluster are good; its leader answers, and the
    placement driver's route of the name names it or a node that does. *)
Record settled (member : string -> Prop) : Prop := {
  se_members : forall addr, member addr -> good_addr addr;
  se_leader : leader <> "" /\ member leader /\ run leader w = (w', answer)
    /\ match answer with Ok resp => classify_route (route_error_of resp) = None | Err _ => True end;
  se_route : exists view, get_route w ns bucket routing_key = Ok (Some view) /\ CachedRoute_contains view ns bucket routing_key = true
    /\ pv_leader_addr view <> "" /\ member (pv_leader_addr view)
    /\ (pv_leader_addr view = leader \/ redirects (pv_leader_addr view) (ANotLeader leader)) }.
Context (member : string -> Prop) (Hs : settled member).
Abbreviation attempts n routes last := (route_attempts get_route valid_endpoint run route_error_of n w routes ns bucket routing_key last).
Abbreviation cov routes := (covering ns bucket routing_key routes).
(** At most two routes cover the name, each without a leader or naming a member. *)
Definition cache_good (routes : Routes) : Prop :=
  (length (cov routes) <= 2)%nat /\ Forall (fun v => pv_leader_addr v = "" \/ member (pv_leader_addr v)) (cov routes).
(** The answer reaches the caller, and leaves a good cache. *)
Definition reached (r : W * Routes * result ClientError T) : Prop :=
  exists routes', r = (w', routes', match answer with Ok resp => Ok resp | Err status => Err (from_status status) end) /\ cache_good routes'.

Lemma cache_good_evict routes id : cache_good routes -> cache_good (evict routes id).
Proof.
  intros [Hl Hf]. split; [|by apply evict_incl]. rewrite covering_evict. unfold evict. etransitivity; [apply length_filter|done].
Qed.
Lemma cache_good_update routes id addr : member addr -> cache_good routes -> cache_good (update_leader routes id addr).
Proof.
  intros Hm [Hl Hf]. unfold cache_good. rewrite covering_update. unfold update_leader. destruct (String.eqb addr ""); [done|].
  rewrite length_fmap. split; [done|]. apply Forall_fmap. eapply Forall_impl; [exact Hf|]. intros v Hv. cbn. destruct (_ =? _); [by right|done].
Qed.
Lemma resolve_covering routes route rest : cov routes = route :: rest ->
  resolve_route get_route w routes ns bucket routing_key = (routes, Ok route).
Proof. intros E. unfold resolve_route. by rewrite cached_covering, E. Qed.
Lemma at_leader n routes route rest last : cache_good routes -> cov routes = route :: rest -> pv_leader_addr route = leader ->
  reached (attempts (S n) routes last).
Proof.
  intros Hg E Ha. destruct Hs as [H0 (H1 & H2 & H3 & H4) _]. destruct (H0 _ H2) as [Hv _].
  cbn [route_attempts]. rewrite (resolve_covering _ _ _ E), Ha. destruct (String.eqb_spec leader ""); [done|].
  rewrite Hv. cbn [negb]. rewrite H3. unfold reached. destruct answer as [resp|status]; [rewrite H4|]; eexists; (split; [done|]); [done|].
  by apply cache_good_evict.
Qed.
(** The first covering route redirects to the leader: the next attempt reaches it. *)
Lemma at_hint n routes route rest last : cache_good routes -> cov routes = route :: rest ->
  pv_leader_addr route <> "" -> valid_endpoint (pv_leader_addr route) = true -> redirects (pv_leader_addr route) (ANotLeader leader) ->
  reached (attempts (S (S n)) routes last).
Proof.
  intros Hg E Hne Hv (resp & Hr & Hc). destruct Hs as [_ (H1 & H2 & _) _]. cbn [route_attempts]. rewrite (resolve_covering _ _ _ E).
  destruct (String.eqb_spec (pv_leader_addr route) ""); [done|]. rewrite Hv. cbn [negb]. rewrite Hr, Hc.
  destruct (String.eqb_spec leader ""); [done|].
  apply (at_leader n (update_leader routes (pv_partition_id route) leader) (pv_set_leader route leader) (update_leader rest (pv_partition_id route) leader)
    ("partition " ++ pretty.pretty (pv_partition_id route) ++ " not-leader")); [by apply cache_good_update| |done].
  rewrite covering_update, E. unfold update_leader. destruct (String.eqb_spec leader ""); [done|]. by rewrite fmap_cons, Z.eqb_refl.
Qed.
(** Nothing cached covers the name: the placement driver's route is good. *)
Lemma at_route n routes last : cov routes = [] -> reached (attempts (S (S n)) routes last).
Proof.
  intros E. destruct (se_route _ Hs) as (view & Hg & Hc & Hne & Hm & Hv).
  assert (Ec : cov (cache_route routes view) = [view]) by by rewrite covering_cache, E.
  assert (Eq : attempts (S (S n)) routes last = attempts (S (S n)) (cache_route routes view) last).
  { cbn [route_attempts]. rewrite (resolve_covering _ _ _ Ec). unfold resolve_route. by rewrite cached_covering, E, Hg. }
  assert (Hcg : cache_good (cache_route routes view)).
  { unfold cache_good. rewrite Ec. split; [cbn; lia|]. constructor; [by right|constructor]. }
  rewrite Eq. destruct Hv as [Hv|Hv]; [by eapply at_leader|eapply at_hint; try done]. by apply (se_members _ Hs).
Qed.
(** Each covering route left over from the past costs at most one attempt. *)
Lemma converges n : forall routes last, cache_good routes -> (length (cov routes) + 2 <= n)%nat -> reached (attempts n routes last).
Proof.
  induction n as [|n IH]; intros routes last Hcg Hn; [lia|]. destruct (cov routes) as [|route rest] eqn:E.
  { destruct n as [|n]; [cbn in Hn; lia|]. by apply at_route. }
  pose proof (cache_good_evict routes (pv_partition_id route) Hcg) as Hev.
  assert (length (cov (evict routes (pv_partition_id route))) + 2 <= n)%nat as Hlen.
  { rewrite covering_evict, E. pose proof (evict_head route rest). cbn in Hn. lia. }
  pose proof Hcg as [_ Hf]. rewrite E in Hf. apply Forall_cons in Hf as [Hg _].
  destruct (String.eqb_spec (pv_leader_addr route) "") as [He|He].
  { cbn [route_attempts]. rewrite (resolve_covering _ _ _ E). rewrite He. cbn [String.eqb]. by apply IH. }
  destruct Hg as [?|Hm]; [done|]. destruct (se_members _ Hs _ Hm) as (Hv & [Hl|(action & Hr & Ha)]); [by eapply at_leader|].
  destruct Ha as [->|[->| ->]].
  3:{ destruct n as [|n]; [cbn in Hn; lia|]. by eapply at_hint. }
  all: destruct Hr as (resp & Hr & Hc); cbn [route_attempts]; rewrite (resolve_covering _ _ _ E);
    (destruct (String.eqb_spec (pv_leader_addr route) ""); [done|]); rewrite Hv; cbn [negb]; rewrite Hr, Hc; by apply IH.
Qed.
End Converge.

(** ** Metadata nodes *)

Section Nodes.
Context `{MetaSerde} {MS : MetaStore} (blake3 : bytes -> bytes) {LogId Membership : Set} `{!SmSerde LogId Membership}.
Context (rvs : string -> Z -> RaftView (LogId := LogId))
  (get_route : PbNsMode -> Z -> bytes -> result ClientError (option MetaPartitionView)) (valid_endpoint : string -> bool).
Implicit Types (w : Cluster) (n : @MetaNode MS) (routes : Routes) (rv : Z -> RaftView (LogId := LogId)).
Abbreviation put_of put := (fun rv n => node_put_object (Membership := Membership) blake3 rv n (put_request put)) (only parsing).
Abbreviation get_of b k := (reading (fun rv n => node_get_object_meta rv n b k)) (only parsing).

(** A node that neither leads the partition of the name nor confirms reads of it,
    and knows its leader by its address or not at all; or does not have it. *)
Definition stands_by rv n (bucket : Z) (key : bytes) (leader : string) : Prop :=
  match node_route n bucket key with
  | Err _ => True
  | Ok group => rv_is_leader (rv group) = false /\ rv_linearizable (rv group) = false
      /\ re_leader_addr (not_leader n group (rv_current_leader (rv group))) ∈ [""; leader]
  end.
(** The node at [leader] serves the name, all others stand by; the placement driver's
    route names the leader, or a follower that knows it. *)
Record settled_cluster w (bucket : Z) (key : bytes) (leader : string) : Prop := {
  sc_addr : leader <> "" /\ valid_endpoint leader = true;
  sc_leader : exists n group, w !! leader = Some n /\ serves (rvs leader) n bucket key group;
  sc_others : forall addr n, addr <> leader -> w !! addr = Some n -> stands_by (rvs addr) n bucket key leader;
  sc_route : exists view, get_route NsFlat bucket key = Ok (Some view) /\ CachedRoute_contains view NsFlat bucket key = true
    /\ valid_endpoint (pv_leader_addr view) = true
    /\ (pv_leader_addr view = leader
        \/ pv_leader_addr view <> "" /\ pv_leader_addr view <> leader
           /\ exists n group, w !! pv_leader_addr view = Some n /\ node_route n bucket key = Ok group
              /\ re_leader_addr (not_leader n group (rv_current_leader (rvs (pv_leader_addr view) group))) = leader) }.
Definition cluster_member w (addr : string) : Prop := valid_endpoint addr = true /\ is_Some (w !! addr).
Definition cache_ok w routes (bucket : Z) (key : bytes) : Prop := cache_good NsFlat bucket key (cluster_member w) routes.

(** A call that a standing-by node answers with its redirect, unchanged. *)
Definition answers_redirect {T} (f : (Z -> RaftView (LogId := LogId)) -> MetaNode -> MetaNode * result Status T) (error : T -> option RouteError)
    (bucket : Z) (key : bytes) (leader : string) : Prop :=
  forall rv n, stands_by rv n bucket key leader ->
  exists resp e, f rv n = (n, Ok resp) /\ error resp = Some e
    /\ match node_route n bucket key with
       | Err e' => e = e'
       | Ok group => e = not_leader n group (rv_current_leader (rv group))
       end.
Lemma put_redirects put leader : answers_redirect (put_of put) (fun r => r) (po_bucket put) (po_key put) leader.
Proof.
  intros rv n Hs. unfold stands_by in Hs. unfold node_put_object. cbn [put_request por_bucket_id por_key]. unfold check_leader.
  destruct (node_route n _ _) as [group|e].
  - destruct Hs as (-> & _). by eexists _, _.
  - by eexists _, _.
Qed.
Lemma get_redirects bucket key leader : answers_redirect (get_of bucket key) gom_error bucket key leader.
Proof.
  intros rv n Hs. unfold stands_by in Hs. unfold reading, node_get_object_meta, read_at_leader, linearize.
  destruct (node_route n _ _) as [group|e].
  - destruct Hs as (_ & -> & _). by eexists _, _.
  - by eexists _, _.
Qed.
Lemma node_route_err n bucket key e : node_route n bucket key = Err e -> classify_route (Some e) = Some AMoved.
Proof.
  unfold node_route. destruct (PartitionRegistry_route _ _ _) as [g|]; [|by intros [= <-]]. destruct (mn_groups n !! g); [done|by intros [= <-]].
Qed.

(** A routed call reaches the leader of a settled cluster, which runs it once. *)
Lemma call_settled {T} f (error : T -> option RouteError) w routes bucket key leader n n' answer :
  settled_cluster w bucket key leader -> cache_ok w routes bucket key -> answers_redirect f error bucket key leader ->
  w !! leader = Some n -> f (rvs leader) n = (n', answer) -> match answer with Ok resp => error resp = None | Err _ => True end ->
  exists routes', calls rvs (fun _ => get_route) valid_endpoint f error w routes NsFlat bucket key
                  = (<[leader := n']> w, routes', match answer with Ok resp => Ok resp | Err status => Err (from_status status) end)
    /\ cache_ok w routes' bucket key.
Proof.
  intros Hs Hc Hf Hn Hr He.
  assert (Hred : forall addr m, addr <> leader -> w !! addr = Some m -> exists e,
     redirects (at_node rvs f) error w addr e /\ good_action leader e
     /\ (forall g, node_route m bucket key = Ok g -> e = ANotLeader (re_leader_addr (not_leader m g (rv_current_leader (rvs addr g)))))).
  { intros addr m Hne Hm. pose proof (sc_others _ _ _ _ Hs _ _ Hne Hm) as Hb. destruct (Hf _ _ Hb) as (resp & e & Hfr & Her & Hee).
    assert (Hat : at_node rvs f addr w = (w, Ok resp)) by (unfold at_node; rewrite Hm, Hfr; f_equal; by apply insert_id).
    unfold stands_by in Hb. destruct (node_route m bucket key) as [g|e'] eqn:Em.
    - destruct Hb as (_ & _ & Hin). exists (ANotLeader (re_leader_addr e)). subst e. split; [|split].
      + exists resp. split; [done|]. by rewrite Her.
      + rewrite !elem_of_cons, elem_of_nil in Hin. destruct Hin as [Hin|[Hin|[]]]; rewrite Hin; [right; by left|by right; right].
      + intros g' [= <-]. done.
    - exists AMoved. subst e. split; [|split; [by left|done]]. exists resp. split; [done|]. rewrite Her. by eapply node_route_err. }
  eapply (converges (fun _ => get_route) valid_endpoint (at_node rvs f) error NsFlat bucket key w (<[leader := n']> w) leader answer (cluster_member w)).
  - destruct (sc_addr _ _ _ _ Hs) as [H1 H2]. constructor.
    + intros addr (Hv & m & Hm). split; [done|]. destruct (decide (addr = leader)) as [->|Hne]; [by left|]. right.
      destruct (Hred _ _ Hne Hm) as (e & H3 & H4 & _). by exists e.
    + split; [done|]. split; [split; [done|by exists n]|]. split; [unfold at_node; by rewrite Hn, Hr|]. destruct answer; [by rewrite He|done].
    + destruct (sc_route _ _ _ _ Hs) as (view & Hg & Hv & Hval & [Ha|(H3 & H4 & m & g & Hm & Hroute & Hlead)]); exists view.
      { rewrite Ha. split; [done|]. split; [done|]. split; [done|]. split; [split; [done|by exists n]|by left]. }
      split; [done|]. split; [done|]. split; [done|]. split; [split; [done|by exists m]|]. right.
      destruct (Hred _ _ H4 Hm) as (e & Hre & _ & Heq). by rewrite (Heq _ Hroute), Hlead in Hre.
  - done.
  - destruct Hc as [Hl _]. unfold MAX_ROUTE_ATTEMPTS. lia.
Qed.

(** The leader applies an operation and goes on serving. *)
Lemma settled_update w bucket key leader n' group : settled_cluster w bucket key leader -> serves (rvs leader) n' bucket key group ->
  settled_cluster (<[leader := n']> w) bucket key leader.
Proof.
  intros [Ha Hl Ho Hr] Hn. constructor; [done| | |].
  - exists n', group. by rewrite lookup_insert_eq.
  - intros addr m Hne. rewrite lookup_insert_ne by done. by apply Ho.
  - destruct Hr as (view & H1 & H2 & H3 & H4). exists view. split_and!; [done..|].
    destruct H4 as [?|(H4 & H5 & m & g & H6)]; [by left|]. right. split_and!; [done..|]. exists m, g. by rewrite lookup_insert_ne.
Qed.
Lemma cache_update w routes bucket key leader n' : cache_ok w routes bucket key -> cache_ok (<[leader := n']> w) routes bucket key.
Proof.
  intros [Hl Hf]. split; [done|]. eapply Forall_impl; [exact Hf|]. intros v [?|[? Hs]]; [by left|]. right. split; [done|].
  destruct (decide (pv_leader_addr v = leader)) as [->|]; [by rewrite lookup_insert_eq|by rewrite lookup_insert_ne].
Qed.

(** A cached route to an address no node answers at: the put fails at once with the
    transport error, and the cluster is as it was. *)
Lemma dead_route_fails w routes put route : cached routes NsFlat (po_bucket put) (po_key put) = Some route ->
  pv_leader_addr route <> "" -> valid_endpoint (pv_leader_addr route) = true -> w !! pv_leader_addr route = None ->
  client_put_object (Membership := Membership) blake3 rvs (fun _ => get_route) valid_endpoint w routes put
  = (w, evict routes (pv_partition_id route), Err (from_status {| st_code := CUnavailable; st_message := "transport error" |})).
Proof.
  intros Hc Ha Hv Hw. unfold client_put_object, calls, route_op, MAX_ROUTE_ATTEMPTS. cbn [route_attempts]. unfold resolve_route. rewrite Hc.
  rewrite (proj2 (String.eqb_neq _ _) Ha), Hv. cbn [negb]. unfold at_node. by rewrite Hw.
Qed.

(** C6: in a settled cluster a client whose cache holds up to two outdated routes of the
    name, each without an address or to a node of the cluster that answers, still puts an
    object the service admits (a tag of 16 bytes, slices or inline bytes the partition's
    guard lets pass): the leader's node afterwards is what one application of the request to it
    gives, no other node changes, and any such client then reads back exactly what was
    put. A cached route to an address where nothing answers is the other case: the call
    fails at once ([dead_route_fails]). *)
Theorem routed_put_get w routes1 routes2 put leader n group :
  settled_cluster w (po_bucket put) (po_key put) leader -> store_wf (mn_store n) -> cache_ok w routes1 (po_bucket put) (po_key put) ->
  cache_ok w routes2 (po_bucket put) (po_key put) -> w !! leader = Some n -> node_route n (po_bucket put) (po_key put) = Ok group ->
  admissible n group (put_request put) ->
  exists n' routes1' routes2' resp,
    client_put_object (Membership := Membership) blake3 rvs (fun _ => get_route) valid_endpoint w routes1 put = (<[leader := n']> w, routes1', Ok tt)
    /\ node_put_object (Membership := Membership) blake3 (rvs leader) n (put_request put) = (n', Ok None)
    /\ settled_cluster (<[leader := n']> w) (po_bucket put) (po_key put) leader
    /\ client_get_object_meta rvs (fun _ => get_route) valid_endpoint (<[leader := n']> w) routes2 (po_bucket put) (po_key put)
       = (<[leader := n']> w, routes2', Ok (Some resp))
    /\ reads_as (put_request put) resp.
Proof.
  intros Hs Hst Hc1 Hc2 Hn Hr Ha. destruct (sc_leader _ _ _ _ Hs) as (n0 & g0 & Hn0 & Hserv).
  assert (n0 = n) as -> by congruence. assert (g0 = group) as -> by (destruct Hserv; congruence).
  destruct (node_put_then_get blake3 (Membership := Membership) (rvs leader) n (put_request put) group Hst Hserv Ha)
    as (n' & Hput & Hserv' & resp & Hget & Hreads).
  destruct (call_settled (put_of put) (fun r => r) w routes1 (po_bucket put) (po_key put) leader n n' (Ok None) Hs Hc1 (put_redirects put leader) Hn Hput eq_refl)
    as (routes1' & E1 & _).
  assert (Hs' : settled_cluster (<[leader := n']> w) (po_bucket put) (po_key put) leader) by by eapply settled_update.
  destruct (call_settled (get_of (po_bucket put) (po_key put)) gom_error (<[leader := n']> w) routes2 (po_bucket put) (po_key put) leader n' n' (Ok resp)
    Hs' (cache_update _ _ _ _ _ _ Hc2)) as (routes2' & E2 & _); [apply get_redirects|by rewrite lookup_insert_eq| |by destruct Hreads|].
  { unfold reading. f_equal. exact Hget. }
  exists n', routes1', routes2', resp. unfold client_put_object, client_get_object_meta. rewrite E1, E2, insert_insert_eq. cbn [map_ok].
  destruct Hreads as (H1 & H2 & H3). rewrite H2. split_and!; done.
Qed.
End Nodes.

(** *** A cluster of three nodes, two of them replicas of the partition *)

#[local] Existing Instance ex_sm_serde.
Definition ex_registry : PartitionRegistry := [(7, {| pi_range := PartitionRange_full Flat; pi_peers := [(1, "m1"%string); (2, "m2"%string)] |})].
Definition ex_replica (id : Z) : MetaNode (MS := mem_store) := {|
  mn_node_id := id; mn_store := ∅; mn_groups := {[ 7 := ex_open ∅ 7 (PartitionRange_full Flat) ]};
  mn_records := {[ 7 := PartitionRange_full Flat ]}; mn_registry := ex_registry |}.
Definition ex_bare : MetaNode (MS := mem_store) := {| mn_node_id := 3; mn_store := ∅; mn_groups := ∅; mn_records := ∅; mn_registry := [] |}.
Definition ex_cluster : gmap string (MetaNode (MS := mem_store)) := {[ "m1"%string := ex_replica 1; "m2"%string := ex_replica 2; "m3"%string := ex_bare ]}.
Definition ex_rvs (addr : string) (group : Z) : RaftView (LogId := Z) :=
  let lead := String.eqb addr "m1" in
  {| rv_is_leader := lead; rv_current_leader := Some 1; rv_linearizable := lead;
     rv_write := if lead then WA_Committed 5 else WA_Forward None (Some 1); rv_initialized := true |}.
Definition ex_route (id : Z) (addr : string) : MetaPartitionView := {|
  pv_partition_id := id; pv_ns := 1; pv_start_bucket := 0; pv_start_key := []; pv_start_unbounded := true; pv_end_bucket := 0; pv_end_key := [];
  pv_end_unbounded := true; pv_peers := [1; 2]; pv_leader_node_id := 2; pv_leader_addr := addr; pv_epoch := 1 |}.
(** The placement driver still takes the second node for the leader. *)
Definition ex_get_route (ns : PbNsMode) (bucket : Z) (key : bytes) : result ClientError (option MetaPartitionView) := Ok (Some (ex_route 7 "m2")).
Definition ex_put : PutObject := {|
  po_bucket := 4; po_key := [97]; po_size := 3; po_etag := replicate 16 9; po_inline_data := [1; 2; 3]; po_slices := []; po_ts_millis := 11;
  po_http := {| chm_content_type := Some "text/plain"%string; chm_content_encoding := None; chm_cache_control := None; chm_user := ∅ |} |}.

Lemma ex_cluster_lookup : ex_cluster !! "m1"%string = Some (ex_replica 1) /\ ex_cluster !! "m2"%string = Some (ex_replica 2)
  /\ ex_cluster !! "m3"%string = Some ex_bare.
Proof.
  unfold ex_cluster. rewrite lookup_insert_eq. split; [done|]. rewrite lookup_insert_ne, lookup_insert_eq by done. split; [done|].
  rewrite !lookup_insert_ne by done. by rewrite lookup_singleton_eq.
Qed.
Lemma ex_settled : settled_cluster (MS := mem_store) ex_rvs ex_get_route (fun _ => true) ex_cluster 4 [97] "m1".
Proof.
  destruct ex_cluster_lookup as (L1 & L2 & L3). constructor.
  - done.
  - exists (ex_replica 1), 7. split; [exact L1|]. split; [vm_compute; reflexivity|]. split; [done|]. split; [done|]. by exists 5.
  - intros addr n Hne Hn.
    destruct (decide (addr = "m2"%string)) as [->|H2]; [|destruct (decide (addr = "m3"%string)) as [->|H3]].
    + assert (n = ex_replica 2) as -> by congruence. vm_compute. split; [done|]. split; [done|]. right. left.
    + by assert (n = ex_bare) as -> by congruence.
    + unfold ex_cluster in Hn. rewrite !lookup_insert_ne in Hn by congruence. rewrite lookup_singleton_ne in Hn by congruence. done.
  - exists (ex_route 7 "m2"). split; [done|]. split; [vm_compute; reflexivity|]. split; [done|]. right. split; [done|]. split; [done|].
    exists (ex_replica 2), 7. split; [exact L2|]. split; vm_compute; reflexivity.
Qed.
Lemma routed_put_get_witness :
  let routes := [ex_route 3 "m3"; ex_route 7 ""] in
  exists n' routes1' routes2' resp,
    client_put_object (Membership := Z) id ex_rvs (fun _ => ex_get_route) (fun _ => true) ex_cluster routes ex_put
      = (<["m1"%string := n']> ex_cluster, routes1', Ok tt)
    /\ node_put_object (Membership := Z) id (ex_rvs "m1") (ex_replica 1) (put_request ex_put) = (n', Ok None)
    /\ settled_cluster ex_rvs ex_get_route (fun _ => true) (<["m1"%string := n']> ex_cluster) 4 [97] "m1"
    /\ client_get_object_meta ex_rvs (fun _ => ex_get_route) (fun _ => true) (<["m1"%string := n']> ex_cluster) [] 4 [97]
       = (<["m1"%string := n']> ex_cluster, routes2', Ok (Some resp))
    /\ reads_as (put_request ex_put) resp.
Proof.
  intros routes. apply (routed_put_get (MS := mem_store) id ex_rvs ex_get_route (fun _ => true) ex_cluster routes [] ex_put "m1" (ex_replica 1) 7).
  - exact ex_settled.
  - split; [done|]. intros cf. apply keys_ok_forall, (bool_decide_unpack _). destruct cf; vm_compute; exact I.
  - split; [vm_compute; lia|].
    assert (covering NsFlat (po_bucket ex_put) (po_key ex_put) routes = routes) as -> by (vm_compute; reflexivity).
    constructor; [right; split; [done|]; exists ex_bare; exact (proj2 (proj2 ex_cluster_lookup))|].
    constructor; [by left|constructor].
  - split; [vm_compute; lia|]. constructor.
  - exact (proj1 ex_cluster_lookup).
  - vm_compute. reflexivity.
  - split; [reflexivity|]. split; [repeat constructor; lia|]. split; [vm_compute; reflexivity|]. intros _.
    exists PartitionGuard_new. split; vm_compute; reflexivity.
Defined.
