(* ===== verification/ObjectService.v ===== *)
(** The object service of a gateway (epoch-gateway: object.rs, etag.rs): objects
    stored inline in their metadata or as erasure-coded blobs, fetched whole or by
    range, copied, deleted, and uploaded in parts. It composes the data path of
    Gateway.v with the routed metadata client of MetaClient.v. *)

From stdpp Require Import pretty.
From S2P Require Import Prelude Ids EcLayout Bitrot Erasure EcPipeline Rocks PdDb Client WriterSession Gateway MetaStore MetaKeys MetaNs MetaFlat MetaHier MetaSm MetaGc MetaNode MetaClient.

(** ** Entity tags (etag.rs) *)

(** MD5 is a parameter; its digests are 16 bytes. *)
Class Md5 := { md5 : bytes -> bytes; md5_length : forall b, length (md5 b) = 16%nat }.
Definition object_etag `{Md5} (body : bytes) : bytes := md5 body.
Definition gw_multipart_etag `{Md5} (part_etags : list bytes) : bytes := md5 (mjoin part_etags).
Definition hex_digit (n : Z) : Ascii.ascii := Ascii.ascii_of_nat (Z.to_nat (if n <? 10 then 48 + n else 87 + n)).
Fixpoint hex_string (b : bytes) : string :=
  match b with [] => EmptyString | x :: b => String (hex_digit (x / 16)) (String (hex_digit (x mod 16)) (hex_string b)) end.
Definition QUOTE : string := String (Ascii.ascii_of_nat 34) EmptyString.
Definition render_etag (digest : bytes) (part_count : option Z) : string :=
  match part_count with
  | Some n => QUOTE +:+ hex_string digest +:+ "-" +:+ pretty n +:+ QUOTE
  | None => QUOTE +:+ hex_string digest +:+ QUOTE
  end.
Definition to_etag (b : bytes) : bytes := if decide (length b = 16%nat) then b else replicate 16 0.

(** ** Objects (object.rs) *)

Record FetchedObject : Set := {
  fo_body : bytes; fo_etag : bytes; fo_size : Z; fo_range : option ByteRange; fo_http : ClientHttpMeta; fo_mtime : Z }.
Definition is_inline_downgrade (e : ClientError) : bool := match e with Rpc CResourceExhausted _ => true | _ => false end.
(** [RangeSpec::from]: the two forms of an S3 range. *)
Inductive S3Range : Set := S3Int (first : Z) (last : option Z) | S3Suffix (length : Z).
Definition RangeSpec_from (r : S3Range) : RangeSpec :=
  match r with
  | S3Int first last => {| rsp_first := first; rsp_last := last; rsp_suffix := false |}
  | S3Suffix length => {| rsp_first := length; rsp_last := None; rsp_suffix := true |}
  end.

Section Service.
Context `{RS : ReedSolomon} `{B3 : Blake3} `{Md5} {SocketAddr : Set} (parse_addr : string -> option SocketAddr).
Context `{MetaSerde} {MS : MetaStore} (blake3 : bytes -> bytes) {LogId Membership : Set} `{!SmSerde LogId Membership}.
Context (rvs : string -> Z -> RaftView (LogId := LogId))
  (get_route : PbNsMode -> Z -> bytes -> result ClientError (option MetaPartitionView)) (valid_endpoint : string -> bool).
(** The rest of the cluster, the gateway's configuration and its buffer budget. *)
Context (w : GwWorld) (cfg : GwConfig) (total_units : Z).

(** A service with the metadata nodes it reaches; the data nodes are the plane of its
    gateway. The chunk map of the service is the one of the gateway's writable set. *)
Record Service : Type := { os_gw : @Gw SocketAddr; os_routes : Routes; os_cluster : gmap string (@MetaNode MS) }.
Definition with_gw (s : Service) (g : Gw) : Service := {| os_gw := g; os_routes := os_routes s; os_cluster := os_cluster s |}.
Definition with_meta (s : Service) (cluster : gmap string MetaNode) (routes : Routes) : Service :=
  {| os_gw := os_gw s; os_routes := routes; os_cluster := cluster |}.
(** [Gateway::resolve_layout] on the writer session. *)
Definition gw_resolve_layout (layout : ObjectLayout) (g : @Gw SocketAddr) : @Gw SocketAddr := {|
  gw_session := set_state (gw_session g) (resolve_layout layout (ws_state (gw_session g)));
  gw_set := gw_set g; gw_plane := gw_plane g; gw_step := gw_step g |}.
Definition meta_error {T} : result GatewayError T := Err (GE_Meta "metadata call failed").

Definition service_meta_put (s : Service) (put : PutObject) : Service * result ClientError unit :=
  let '(cluster, routes, r) :=
    client_put_object (Membership := Membership) blake3 rvs (fun _ => get_route) valid_endpoint (os_cluster s) (os_routes s) put in
  (with_meta s cluster routes, r).
Definition put_args (bucket : Z) (key body inline_data : bytes) (slices : list SliceRef) (ts_millis : Z) (http : ClientHttpMeta) : PutObject := {|
  po_bucket := bucket; po_key := key; po_size := len body; po_etag := object_etag body; po_inline_data := inline_data; po_slices := slices;
  po_ts_millis := ts_millis; po_http := http |}.
(** The erasure-coded path: admission, blobs, metadata, and only then the blobs
    leave the writer's in-flight set. *)
Definition service_put_ec (s : Service) (bucket : Z) (key body : bytes) (ts_millis : Z) (http : ClientHttpMeta) : Service * result GatewayError bytes :=
  match admission_want total_units (len body) with
  | Err e => (s, Err e)
  | Ok _ =>
      match put_object parse_addr w cfg body (os_gw s) with
      | (g, Err e) => (with_gw s g, Err e)
      | (g, Ok layout) =>
          match service_meta_put (with_gw s g) (put_args bucket key body [] (layout_to_slices layout) ts_millis http) with
          | (s, Err _) => (s, meta_error)
          | (s, Ok _) => (with_gw s (gw_resolve_layout layout (os_gw s)), Ok (object_etag body))
          end
      end
  end.
(** The result is the etag ([PutResult]). *)
Definition service_put_object (s : Service) (bucket : Z) (key body : bytes) (inline_threshold ts_millis : Z) (http : ClientHttpMeta)
    : Service * result GatewayError bytes :=
  if (0 <? inline_threshold) && (len body <=? inline_threshold) then
    match service_meta_put s (put_args bucket key body body [] ts_millis http) with
    | (s, Ok _) => (s, Ok (object_etag body))
    | (s, Err e) => if is_inline_downgrade e then service_put_ec s bucket key body ts_millis http else (s, meta_error)
    end
  else service_put_ec s bucket key body ts_millis http.

(** [read]: what a data node answers. Besides the object, the shards reported for
    repair. *)
Definition service_fetch (read : NodeId -> ShardId -> BlobId -> option (list Z)) (s : Service) (bucket : Z) (key : bytes) (want : option RangeSpec)
    : Service * list HealReport * result GatewayError (option FetchedObject) :=
  let '(cluster, routes, r) :=
    client_get_object_meta rvs (fun _ => get_route) valid_endpoint (os_cluster s) (os_routes s) bucket key in
  let s := with_meta s cluster routes in
  match r with
  | Err _ => (s, [], meta_error)
  | Ok None => (s, [], Ok None)
  | Ok (Some meta) =>
      let head := default ObjectHeadView_default (gom_head meta) in
      match resolve_window (hv_size head) want with
      | Err e => (s, [], Err e)
      | Ok window =>
          let found body := Some {| fo_body := body; fo_etag := to_etag (hv_etag head); fo_size := hv_size head; fo_range := window;
                                    fo_http := ClientHttpMeta_from_view head; fo_mtime := hv_mtime head |} in
          if hv_inline head then
            (s, [], body <-? match window with
                             | Some win => ok_or (get_range (br_start win) (br_end win + 1) (gom_inline_data meta)) (GE_RangeNotSatisfiable (hv_size head))
                             | None => Ok (gom_inline_data meta)
                             end ;; Ok (found body))
          else
            let g := os_gw s in
            let '(m, r) := slices_to_layout parse_addr (wd_pd w (gw_step g)) (wd_now w (gw_step g)) (gom_slices meta) (gc_code cfg) (hv_size head)
                             (wset_chunk_map (gw_set g)) in
            let s := with_gw s {| gw_session := gw_session g; gw_set := set_chunk_map (gw_set g) m; gw_plane := gw_plane g; gw_step := S (gw_step g) |} in
            match r with
            | Err e => (s, [], Err e)
            | Ok layout =>
                let '(heals, r) := read_window read layout window in
                (s, heals, body <-? r ;; Ok (found body))
            end
      end
  end.
Definition service_delete_object (s : Service) (bucket : Z) (key : bytes) (ts_millis : Z) : Service * result GatewayError unit :=
  let '(cluster, routes, r) :=
    client_delete_object (Membership := Membership) blake3 rvs (fun _ => get_route) valid_endpoint (os_cluster s) (os_routes s) bucket key ts_millis in
  (with_meta s cluster routes, match r with Ok _ => Ok tt | Err _ => meta_error end).
Definition service_copy_object (read : NodeId -> ShardId -> BlobId -> option (list Z)) (s : Service) (src_bucket : Z) (src_key : bytes) (dst_bucket : Z)
    (dst_key : bytes) (inline_threshold ts_millis : Z) : Service * result GatewayError (option bytes) :=
  match service_fetch read s src_bucket src_key None with
  | (s, _, Err e) => (s, Err e)
  | (s, _, Ok None) => (s, Ok None)
  | (s, _, Ok (Some src)) =>
      let '(s, r) := service_put_object s dst_bucket dst_key (fo_body src) inline_threshold ts_millis (fo_http src) in
      (s, etag <-? r ;; Ok (Some etag))
  end.

(** ** Multipart uploads (object.rs) *)

Definition service_create_multipart (s : Service) (bucket : Z) (key : bytes) (upload_id ts_millis : Z) : Service * result GatewayError unit :=
  let '(cluster, routes, r) :=
    client_create_multipart (Membership := Membership) blake3 rvs (fun _ => get_route) valid_endpoint (os_cluster s) (os_routes s) bucket key upload_id ts_millis in
  (with_meta s cluster routes, match r with Ok _ => Ok tt | Err _ => meta_error end).
Definition service_put_part (s : Service) (bucket : Z) (key : bytes) (upload_id part_no : Z) (body : bytes) (ts_millis : Z)
    : Service * result GatewayError bytes :=
  match admission_want total_units (len body) with
  | Err e => (s, Err e)
  | Ok _ =>
      match put_object parse_addr w cfg body (os_gw s) with
      | (g, Err e) => (with_gw s g, Err e)
      | (g, Ok layout) =>
          let '(cluster, routes, r) :=
            client_put_part (Membership := Membership) blake3 rvs (fun _ => get_route) valid_endpoint (os_cluster s) (os_routes s) bucket key upload_id
              part_no (len body) (object_etag body) (layout_to_slices layout) ts_millis in
          let s := with_meta (with_gw s g) cluster routes in
          match r with
          | Err _ => (s, meta_error)
          | Ok (Some rejected) => (s, Err (GE_Meta rejected))
          | Ok None => (with_gw s (gw_resolve_layout layout g), Ok (object_etag body))
          end
      end
  end.
Definition service_complete_multipart (s : Service) (bucket : Z) (key : bytes) (upload_id : Z) (parts : list (Z * bytes)) (ts_millis : Z)
    : Service * result GatewayError unit :=
  let '(cluster, routes, r) :=
    client_complete_multipart (Membership := Membership) blake3 rvs (fun _ => get_route) valid_endpoint (os_cluster s) (os_routes s) bucket key upload_id
      parts ts_millis in
  (with_meta s cluster routes, match r with Ok None => Ok tt | Ok (Some rejected) => Err (GE_Meta rejected) | Err _ => meta_error end).
Definition service_abort_multipart (s : Service) (bucket : Z) (key : bytes) (upload_id ts_millis : Z) : Service * result GatewayError unit :=
  let '(cluster, routes, r) :=
    client_abort_multipart (Membership := Membership) blake3 rvs (fun _ => get_route) valid_endpoint (os_cluster s) (os_routes s) bucket key upload_id ts_millis in
  (with_meta s cluster routes, match r with Ok _ => Ok tt | Err _ => meta_error end).
End Service.

(** ** Proofs

    An object put through one gateway is read back through any other, whole or by
    range, inline or erasure-coded. *)

From S2P Require Import GatewayProps MetaRefs MetaFlatProps MetaSmProps.

(** ** Resolving the slices of an object *)

Section Slices.
Context `{RS : ReedSolomon} {SocketAddr : Set} (parse_addr : string -> option SocketAddr) (w : PdAnswers) (now : Z).
Implicit Types (m : @ChunkMap SocketAddr).

Lemma refresh_idempotent t : refresh_if_stale parse_addr w now (refresh_if_stale parse_addr w now t) = refresh_if_stale parse_addr w now t.
Proof.
  unfold refresh_if_stale. destruct (Topology_is_stale t now) eqn:E; [|by rewrite E].
  unfold Topology_refresh. destruct (pa_list_nodes w) as [[nodes disks]|]; cbn [fst]; [|by rewrite E].
  by case (Topology_is_stale _ now).
Qed.
(** Resolving one chunk does not change what another resolves to. *)
Lemma ChunkMap_get_stable m c c' :
  (ChunkMap_get parse_addr w now (ChunkMap_get parse_addr w now m c').1 c).2 = (ChunkMap_get parse_addr w now m c).2.
Proof.
  unfold ChunkMap_get at 2. destruct (cmap_entries m !! c') as [slots'|] eqn:E'; [done|].
  set (t := refresh_if_stale parse_addr w now (cmap_topology m)).
  assert (Hm : (ChunkMap_get parse_addr w now {| cmap_topology := t; cmap_entries := cmap_entries m |} c).2 = (ChunkMap_get parse_addr w now m c).2).
  { unfold ChunkMap_get. cbn [cmap_entries cmap_topology]. unfold t. rewrite refresh_idempotent. destruct (cmap_entries m !! c); [done|].
    destruct (pa_get_chunk w c) as [view|]; [|done]. by destruct (resolve_view _ view). }
  destruct (pa_get_chunk w c') as [view'|] eqn:Ev; [|exact Hm]. destruct (resolve_view t view') as [slots'|] eqn:Er; [|exact Hm].
  cbn [fst]. rewrite <- Hm. unfold ChunkMap_get. cbn [cmap_entries cmap_topology].
  destruct (decide (c = c')) as [->|Hne].
  - rewrite lookup_insert_eq, E', Ev. unfold t in *. rewrite refresh_idempotent. by rewrite Er.
  - rewrite lookup_insert_ne by done. destruct (cmap_entries m !! c); [done|].
    destruct (pa_get_chunk w c) as [view|]; [|done]. by destruct (resolve_view _ view).
Qed.
(** The chunks of the blobs still resolve to the placements the blobs have. *)
Definition placed_as (total : Z) m (blob : BlobDesc) : Prop :=
  (resolve_placement parse_addr w now m (cp_chunk_id (bd_chunk blob)) total).2 = Ok (bd_chunk blob).
Lemma placed_as_stable total m c blob : placed_as total m blob -> placed_as total (resolve_placement parse_addr w now m c total).1 blob.
Proof.
  unfold placed_as, resolve_placement. pose proof (ChunkMap_get_stable m (cp_chunk_id (bd_chunk blob)) c) as H.
  destruct (ChunkMap_get _ _ _ m (cp_chunk_id _)) as [m1 r1], (ChunkMap_get _ _ _ m c) as [m2 r2]. cbn [fst snd] in *.
  destruct (ChunkMap_get _ _ _ m2 _) as [m3 r3]. cbn in H |- *. by subst r3.
Qed.
Lemma slices_roundtrip layout : forall m, Forall (placed_as (gm_total (ol_code layout)) m) (ol_blobs layout) ->
  Forall (fun b => 0 <= bd_len b < 2 ^ 32) (ol_blobs layout) ->
  exists m', slices_to_layout parse_addr w now (layout_to_slices layout) (ol_code layout) (ol_size layout) m = (m', Ok layout).
Proof.
  intros m Hp Hl.
  assert (exists m', resolve_slices parse_addr w now (gm_total (ol_code layout)) (layout_to_slices layout) m = (m', Ok (ol_blobs layout))) as [m' E].
  { unfold layout_to_slices. revert m Hp Hl. induction (ol_blobs layout) as [|blob blobs IH]; intros m Hp Hl; [by exists m|].
    apply Forall_cons in Hp as [Hb Hp]. apply Forall_cons in Hl as [Hlb Hl]. rewrite fmap_cons. cbn [resolve_slices slr_blob_ids slr_chunk_id slr_blob_size].
    assert (Hp' : Forall (placed_as (gm_total (ol_code layout)) (resolve_placement parse_addr w now m (cp_chunk_id (bd_chunk blob)) (gm_total (ol_code layout))).1) blobs).
    { eapply Forall_impl; [exact Hp|]. intros b. apply placed_as_stable. }
    unfold placed_as in Hb. destruct (resolve_placement _ _ _ m _ _) as [m1 r1]. cbn [fst snd] in *. subst r1.
    destruct (IH m1 Hp' Hl) as [m' E]. rewrite E. exists m'. unfold wrap. rewrite Z.mod_small by done. by destruct blob. }
  exists m'. unfold slices_to_layout. rewrite E. by destruct layout.
Qed.
End Slices.

(** ** Metadata *)

Section Meta.
Context `{MetaSerde} {MS : MetaStore} (blake3 : bytes -> bytes) {LogId Membership : Set} `{!SmSerde LogId Membership}.
Implicit Types (n : @MetaNode MS) (rv : Z -> RaftView (LogId := LogId)).

(** A put that the service does not admit is refused by the inline guard. *)
Lemma node_put_refused rv n req group : serves rv n (por_bucket_id req) (por_key req) group -> length (por_etag req) = 16%nat ->
  is_bytes (por_key req) -> len (por_slices req) < 2 ^ 32 ->
  admissible n group req
  \/ exists m, node_put_object (Membership := Membership) blake3 rv n req = (n, Err {| st_code := CResourceExhausted; st_message := m |}).
Proof.
  intros (Hr & Hl & _) He Hb Hn. destruct (por_slices req) as [|x xs] eqn:E.
  2:{ left. unfold admissible. rewrite E. by split_and!. }
  assert (exists guard, node_guard n group = Some guard) as [guard Hg].
  { unfold node_route in Hr. destruct (PartitionRegistry_route _ _ _) as [g|]; [|done]. destruct (mn_groups n !! g) as [sm|] eqn:Es; [|done].
    injection Hr as ->. unfold node_guard. rewrite Es. by eexists. }
  destruct (PartitionGuard_check_inline guard (len (por_inline_data req)) (resolve_threshold DEFAULT_INLINE_THRESHOLD None)) as [[]|e] eqn:Ec.
  - left. unfold admissible. rewrite E. split_and!; [done..|]. intros _. by exists guard.
  - right. unfold node_put_object. rewrite Hr. unfold check_leader. rewrite Hl, E, Hg. cbn [ok_or]. rewrite Ec. by eexists.
Qed.
End Meta.

(** ** Objects *)

Section Objects.
Context `{RS : ReedSolomon} `{B3 : Blake3} `{Md5} {SocketAddr : Set} (parse_addr : string -> option SocketAddr).
Context `{MetaSerde} {MS : MetaStore} (blake3 : bytes -> bytes) {LogId Membership : Set} `{!SmSerde LogId Membership}.
Context (rvs : string -> Z -> RaftView (LogId := LogId))
  (get_route : PbNsMode -> Z -> bytes -> result ClientError (option MetaPartitionView)) (valid_endpoint : string -> bool).
Context (w : GwWorld) (cfg : GwConfig) (total_units : Z) (ec : Erasure).
Implicit Types (s : @Service SocketAddr MS) (n : @MetaNode MS) (cluster : gmap string (@MetaNode MS)).
Abbreviation settled_at cluster bucket key leader := (settled_cluster rvs get_route valid_endpoint cluster bucket key leader).
Abbreviation cache_at cluster routes bucket key := (cache_ok valid_endpoint cluster routes bucket key).
Abbreviation meta_put s put := (service_meta_put (Membership := Membership) blake3 rvs get_route valid_endpoint s put).

(** Headers as a head carries them: an empty one is no header. *)
Definition http_kept (http : ClientHttpMeta) : ClientHttpMeta := {|
  chm_content_type := non_empty (default "" (chm_content_type http)); chm_content_encoding := non_empty (default "" (chm_content_encoding http));
  chm_cache_control := non_empty (default "" (chm_cache_control http)); chm_user := chm_user http |}.
(** The cluster answers a metadata read of the name with what [put] brought. *)
Definition meta_reads cluster (put : PutObject) (leader : string) : Prop :=
  settled_at cluster (po_bucket put) (po_key put) leader
  /\ exists n resp, cluster !! leader = Some n /\ node_get_object_meta (rvs leader) n (po_bucket put) (po_key put) = Ok resp
     /\ reads_as (put_request put) resp.

(** The metadata call of a put: applied, or refused by the inline guard. *)
Lemma meta_put_settled s put leader n : settled_at (os_cluster s) (po_bucket put) (po_key put) leader -> os_cluster s !! leader = Some n ->
  store_wf (mn_store n) -> cache_at (os_cluster s) (os_routes s) (po_bucket put) (po_key put) ->
  length (po_etag put) = 16%nat -> is_bytes (po_key put) -> len (po_slices put) < 2 ^ 32 ->
  exists s' r, meta_put s put = (s', r) /\ os_gw s' = os_gw s
    /\ match r with
       | Ok _ => meta_reads (os_cluster s') put leader
       | Err e => is_inline_downgrade e = true /\ os_cluster s' = os_cluster s
           /\ cache_at (os_cluster s') (os_routes s') (po_bucket put) (po_key put)
       end.
Proof.
  intros Hs Hn Hst Hc He Hb Hl. destruct (sc_leader _ _ _ _ _ _ _ Hs) as (n0 & group & Hn0 & Hserv). assert (n0 = n) as -> by congruence.
  assert (Hgo : forall n' answer, node_put_object (Membership := Membership) blake3 (rvs leader) n (put_request put) = (n', answer) ->
    match answer with Ok resp => resp = None | Err _ => True end ->
    exists routes', meta_put s put = (with_meta s (<[leader := n']> (os_cluster s)) routes', match answer with Ok _ => Ok tt | Err e => Err (from_status e) end)
      /\ cache_at (os_cluster s) routes' (po_bucket put) (po_key put)).
  { intros n' answer Hput Ha.
    destruct (call_settled blake3 rvs get_route valid_endpoint (fun rv n => node_put_object (Membership := Membership) blake3 rv n (put_request put)) (fun r => r)
                (os_cluster s) (os_routes s) (po_bucket put) (po_key put) leader n n' answer Hs Hc (put_redirects blake3 put leader) Hn Hput Ha)
      as (routes' & E & Hc').
    exists routes'. split; [|done]. unfold service_meta_put, client_put_object. rewrite E. by destruct answer. }
  destruct (node_put_refused blake3 (Membership := Membership) (rvs leader) n (put_request put) group Hserv He Hb Hl) as [Ha|[m Hr]].
  - destruct (node_put_then_get blake3 (Membership := Membership) (rvs leader) n (put_request put) group Hst Hserv Ha) as (n' & Hput & Hserv' & resp & Hget & Hreads).
    destruct (Hgo _ _ Hput eq_refl) as (routes' & E & _). eexists _, _. split; [exact E|]. split; [done|]. cbn [with_meta os_cluster]. split.
    + by eapply settled_update.
    + exists n', resp. by rewrite lookup_insert_eq.
  - destruct (Hgo _ _ Hr I) as (routes' & E & Hc'). eexists _, _. split; [exact E|]. split; [done|]. cbn [with_meta os_cluster os_routes].
    rewrite insert_id by done. done.
Qed.

(** What a service fetches: the bytes asked for with the object's tag, size, headers
    and time, or an unsatisfiable range. *)
Definition fetches_as (body : bytes) (ts_millis : Z) (http : ClientHttpMeta) (want : option RangeSpec) (r : result GatewayError (option FetchedObject)) : Prop :=
  match wanted want body with
  | None => r = Err (GE_RangeNotSatisfiable (len body))
  | Some bytes => exists window, r = Ok (Some {| fo_body := bytes; fo_etag := object_etag body; fo_size := len body; fo_range := window;
                                                fo_http := http_kept http; fo_mtime := ts_millis |})
      /\ resolve_window (len body) want = Ok window
  end.
Definition want_ok (want : option RangeSpec) : Prop :=
  forall spec, want = Some spec -> 0 <= rsp_first spec /\ forall l, rsp_last spec = Some l -> 0 <= l.

Lemma resolved_or_not body want : want_ok want ->
  (exists window, resolve_window (len body) want = Ok window /\ is_Some (wanted want body))
  \/ (resolve_window (len body) want = Err (GE_RangeNotSatisfiable (len body)) /\ wanted want body = None).
Proof.
  intros Hw. destruct want as [spec|]; [|left; by eexists]. destruct (Hw spec eq_refl) as [Hf Hl].
  pose proof (resolve_window_spec body spec Hf Hl) as H'. destruct (resolve_window _ _) as [[win|]|e]; [|done|].
  - left. destruct H' as (_ & _ & ->). by eexists.
  - right. by destruct H' as [-> ->].
Qed.
Lemma inline_window body want window : want_ok want -> resolve_window (len body) want = Ok window ->
  match window with
  | Some win => ok_or (get_range (br_start win) (br_end win + 1) body) (GE_RangeNotSatisfiable (len body))
  | None => Ok body
  end = match wanted want body with Some bytes => Ok bytes | None => Err (GE_RangeNotSatisfiable (len body)) end.
Proof.
  intros Hw E. destruct want as [spec|]; [|by injection E as <-]. destruct (Hw spec eq_refl) as [Hf Hl].
  pose proof (resolve_window_spec body spec Hf Hl) as H'. rewrite E in H'. destruct window as [win|]; [|done].
  destruct H' as (H1 & H2 & ->). unfold get_range, byte_count. rewrite (proj2 (Z.leb_le _ _)), (proj2 (Z.leb_le _ _)) by lia. cbn [andb ok_or].
  do 2 f_equal. lia.
Qed.
Lemma fetch_meta read (w2 : GwWorld) s body put leader want : meta_reads (os_cluster s) put leader ->
  cache_at (os_cluster s) (os_routes s) (po_bucket put) (po_key put) -> want_ok want -> po_etag put = object_etag body -> po_size put = len body ->
  (po_slices put = [] -> po_inline_data put = body) ->
  (po_slices put <> [] -> forall m0, m0 = wset_chunk_map (gw_set (os_gw s)) -> exists m layout,
     slices_to_layout parse_addr (wd_pd w2 (gw_step (os_gw s))) (wd_now w2 (gw_step (os_gw s))) (po_slices put) (gc_code cfg) (len body) m0 = (m, Ok layout)
     /\ (window <-? resolve_window (len body) want ;; (read_window read layout window).2)
        = match wanted want body with Some bytes => Ok bytes | None => Err (GE_RangeNotSatisfiable (len body)) end) ->
  fetches_as body (po_ts_millis put) (po_http put) want (service_fetch parse_addr rvs get_route valid_endpoint w2 cfg read s (po_bucket put) (po_key put) want).2.
Proof.
  intros (Hs & n & resp & Hn & Hget & Hreads) Hc Hw He Hsz Hin Hec. pose proof Hreads as (Hre & Hf & Hsl & Hi & h & Hh & Hhs & Hhe & Hhm & Hhi & Hhh).
  cbn [put_request por_size por_etag por_ts_millis por_slices por_inline_data por_content_type por_content_encoding por_cache_control por_user_metadata] in *.
  destruct (call_settled blake3 rvs get_route valid_endpoint (reading (fun rv n => node_get_object_meta rv n (po_bucket put) (po_key put))) gom_error
      (os_cluster s) (os_routes s) (po_bucket put) (po_key put) leader n n (Ok resp) Hs Hc (get_redirects _ _ leader) Hn) as (routes' & E & _).
  { unfold reading. by rewrite Hget. }
  { done. }
  unfold service_fetch, client_get_object_meta. rewrite E. cbn [map_ok]. rewrite Hf, Hh. cbn [default from_option id]. rewrite Hhs, Hsz.
  assert (Hhttp : ClientHttpMeta_from_view h = http_kept (po_http put)).
  { unfold ClientHttpMeta_from_view, http_kept. injection Hhh as -> -> -> ->. done. }
  assert (Het : to_etag (hv_etag h) = object_etag body) by (unfold to_etag; rewrite Hhe, He; rewrite decide_True by apply md5_length; done).
  unfold fetches_as. destruct (resolved_or_not body want Hw) as [(window & Ew & [bytes Hb])|[Ew Hb]]; rewrite Ew, Hb; [|done].
  exists window. split; [|done]. rewrite Hhi, Hhttp, Het, Hhm. destruct (decide (po_slices put = [])) as [E0|E0].
  - rewrite bool_decide_true by done. cbn [snd]. rewrite (Hi E0), (Hin E0). rewrite (inline_window body want window Hw Ew), Hb. done.
  - rewrite bool_decide_false by done. cbn [os_gw with_meta]. rewrite Hsl. destruct (Hec E0 _ eq_refl) as (m & layout & El & Er). rewrite El.
    rewrite Ew, Hb in Er. destruct (read_window read layout window) as [heals r]. cbn [snd] in *. by rewrite Er.
Qed.

(** Resolving blobs takes them, and nothing else, out of the in-flight set. *)
Lemma resolve_blobs_state blobs : forall st, let st' := foldl resolve_blob st blobs in
  ts_token st' = ts_token st /\ ts_next_seq st' = ts_next_seq st /\ ts_exhausted st' = ts_exhausted st
  /\ ts_in_flight st' ⊆ ts_in_flight st
  /\ Forall (fun b => BlobId_writer_token b = ts_token st' -> BlobId_seq b ∉ ts_in_flight st') blobs.
Proof.
  induction blobs as [|b blobs IH]; intros st; [by split_and!|]. cbn [foldl]. destruct (IH (resolve_blob st b)) as (H1 & H1' & H1'' & H2 & H3).
  unfold resolve_blob in *. destruct (Z.eqb_spec (BlobId_writer_token b) (ts_token st)) as [Et|Et]; cbn [ts_token ts_next_seq ts_exhausted ts_in_flight] in *.
  - split; [exact H1|]. split; [exact H1'|]. split; [exact H1''|]. split; [by intros q [? _]%H2%elem_of_difference|]. constructor; [|exact H3].
    intros _ [_ Hq]%H2%elem_of_difference. by apply Hq, elem_of_singleton.
  - split; [exact H1|]. split; [exact H1'|]. split; [exact H1''|]. split; [exact H2|]. constructor; [|exact H3].
    intros Ht. destruct Et. rewrite Ht. exact H1.
Qed.
Lemma gw_resolve_layout_ok layout (g : @Gw SocketAddr) : gateway_ok w g -> gateway_ok w (gw_resolve_layout layout g).
Proof.
  intros (H1 & H2 & H3 & H4). destruct (resolve_blobs_state (bd_blob_id <$> ol_blobs layout) (ws_state (gw_session g))) as (E1 & E2 & E3 & Hsub & _).
  unfold gateway_ok, gw_resolve_layout, resolve_layout. cbn [gw_session gw_set gw_plane gw_step ws_state set_state]. split; [done|]. split; [|split].
  - destruct H2 as (T1 & T2 & T3). unfold token_state_ok. rewrite E1, E2, E3. split_and!; [done..|]. intros q Hq. apply T3. by apply Hsub.
  - by rewrite E1.
  - intros node shard b x Hx. unfold used, spent. rewrite E1, E2, E3. by eapply H4.
Qed.

(** What is left of a put that went through the erasure-coded path. *)
Definition blobs_resolved (st : TokenState) (blobs : list BlobDesc) : Prop :=
  Forall (fun b => BlobId_writer_token b = ts_token st -> BlobId_seq b ∉ ts_in_flight st) (bd_blob_id <$> blobs).
(** Of each blob no more stored shards are silent than the quorum allows for. *)
Definition enough_answer (read : NodeId -> ShardId -> BlobId -> option (list Z)) (plane : Plane) (blobs : list BlobDesc) : Prop :=
  (forall node shard b, read node shard b = None \/ read node shard b = plane !! (node, shard, b))
  /\ Forall (fun blob => len (lost read plane blob) <= gm_parity (gc_code cfg) - Z.max (gm_parity (gc_code cfg) / 2) 1) blobs.
(** Any service over the same metadata, whose chunk map has the placements of the
    blobs or learns them, fetches the object. *)
Definition fetchable s (blobs : list BlobDesc) (bucket : Z) (key body : bytes) (ts_millis : Z) (http : ClientHttpMeta) : Prop :=
  forall read (w2 : GwWorld) s2 want,
  os_cluster s2 = os_cluster s -> cache_at (os_cluster s2) (os_routes s2) bucket key -> want_ok want ->
  enough_answer read (gw_plane (os_gw s)) blobs ->
  Forall (placed_as parse_addr (wd_pd w2 (gw_step (os_gw s2))) (wd_now w2 (gw_step (os_gw s2))) (gm_total (gc_code cfg)) (wset_chunk_map (gw_set (os_gw s2)))) blobs ->
  fetches_as body ts_millis http want (service_fetch parse_addr rvs get_route valid_endpoint w2 cfg read s2 bucket key want).2.

Section Put.
Hypotheses (Hm : mode_ok (gc_code cfg) ec) (Hbs : gm_blob_size (gc_code cfg) < 2 ^ 32) (Hw : world_ok w cfg) (Hr : registers_ok w).

Lemma put_ec_fetchable s s' bucket key body ts_millis http leader n etag : gateway_ok w (os_gw s) -> is_bytes key -> len body < 2 ^ 32 ->
  settled_at (os_cluster s) bucket key leader -> os_cluster s !! leader = Some n -> store_wf (mn_store n) ->
  cache_at (os_cluster s) (os_routes s) bucket key ->
  service_put_ec (Membership := Membership) parse_addr blake3 rvs get_route valid_endpoint w cfg total_units s bucket key body ts_millis http = (s', Ok etag) ->
  etag = object_etag body /\ gateway_ok w (os_gw s')
  /\ exists blobs pieces, body = mjoin pieces /\ Forall2 (stored_ok cfg ec (gw_plane (os_gw s'))) blobs pieces
     /\ blobs_resolved (ws_state (gw_session (os_gw s'))) blobs /\ fetchable s' blobs bucket key body ts_millis http.
Proof.
  intros Hg Hkey Hlen Hs Hn Hst Hc E. unfold service_put_ec in E. destruct (admission_want _ _); [|done].
  destruct (put_object _ _ _ _ _) as [g [layout|]] eqn:Ep; [|done].
  destruct (put_then_get parse_addr w cfg ec body _ _ _ Hm Hw Hr Hg Ep) as (Hg' & _ & (pieces & Hbody & Hf) & Hread).
  pose proof Hm as (_ & _ & _ & Hbs0). destruct (put_object_sizes parse_addr w cfg body _ _ _ Hbs0 Ep) as (Hsz & Hcode & Hcount & Hlens).
  assert (Hslices : len (layout_to_slices layout) = len (ol_blobs layout)) by (unfold len, layout_to_slices; by rewrite length_fmap).
  set (put := put_args bucket key body [] (layout_to_slices layout) ts_millis http) in E.
  destruct (meta_put_settled (with_gw s g) put leader n) as (s1 & r & E1 & Hgw & Hr1); try done.
  { apply md5_length. }
  { cbn [put put_args po_slices]. lia. }
  rewrite E1 in E. destruct r as [u|]; [|done]. injection E as <- <-. split; [done|]. cbn [os_gw with_gw]. rewrite Hgw. cbn [os_gw with_gw].
  split; [by apply gw_resolve_layout_ok|]. exists (ol_blobs layout), pieces. split; [done|]. split; [exact Hf|].
  split; [apply resolve_blobs_state|].
  intros read w2 s2 want Hcl Hc2 Hwant [Hrd Hlost] Hplaced. cbn [os_cluster os_gw with_gw gw_plane gw_resolve_layout] in *.
  rewrite <- Hcl in Hr1. change ts_millis with (po_ts_millis put). change http with (po_http put). change bucket with (po_bucket put).
  change key with (po_key put). apply (fetch_meta read w2 s2 body put leader want); try done.
  - intros E0. cbn [put put_args po_slices po_inline_data] in *. rewrite E0 in Hslices. destruct (ol_blobs layout); [|done].
    apply Forall2_nil_inv_l in Hf as ->. done.
  - intros _ m0 ->. rewrite <- Hcode in Hplaced |- *. rewrite <- Hsz.
    destruct (slices_roundtrip parse_addr (wd_pd w2 (gw_step (os_gw s2))) (wd_now w2 (gw_step (os_gw s2))) layout _ Hplaced) as [m Em].
    { eapply Forall_impl; [exact Hlens|]. intros b Hb. cbn in Hb |- *. lia. }
    exists m, layout. split; [exact Em|]. by rewrite (Hread read want Hrd Hlost Hwant), Hsz.
Qed.

End Put.
End Objects.

(** *** Evaluation: four bytes in two blobs of three copies, one node silent; and
    the same object stored inline *)

#[local] Existing Instance ex_sm_serde.
Lemma ex_digest_length (b : list Z) : length (take 16 (b ++ replicate 16 0)) = 16%nat.
Proof. rewrite length_take, length_app, length_replicate. lia. Qed.
#[local] Instance ex_md5 : Md5 := {| md5 := fun b => take 16 (b ++ replicate 16 0); md5_length := ex_digest_length |}.
Definition ex_service : @Service string mem_store := {| os_gw := ex_gw; os_routes := [ex_route 3 "m3"; ex_route 7 ""]; os_cluster := ex_cluster |}.
Definition ex_http : ClientHttpMeta := {| chm_content_type := Some "text/plain"%string; chm_content_encoding := None; chm_cache_control := None; chm_user := ∅ |}.
Definition ex_put_body (threshold : Z) :=
  service_put_object (Membership := Z) Some id ex_rvs ex_get_route (fun _ => true) ex_world ex_cfg 16 ex_service 4 [97] [1; 2; 3; 4] threshold 11 ex_http.
Definition ex_fetch_back (threshold : Z) (want : option RangeSpec) : option (list Z) :=
  let '(s, r) := ex_put_body threshold in
  match r with
  | Err _ => None
  | Ok _ =>
      match (service_fetch Some ex_rvs ex_get_route (fun _ => true) ex_world ex_cfg
               (fun n sh b => if n =? 3 then None else gw_plane (os_gw s) !! (n, sh, b)) s 4 [97] want).2 with
      | Ok (Some o) => Some (fo_body o)
      | _ => None
      end
  end.
Example ex_fetch_whole : ex_fetch_back 0 None = Some [1; 2; 3; 4] /\ ex_fetch_back 10 None = Some [1; 2; 3; 4].
Proof. split; vm_compute; reflexivity. Qed.
Example ex_fetch_range : ex_fetch_back 0 (Some (RangeSpec_from (S3Int 2 (Some 3)))) = Some [3; 4]
  /\ ex_fetch_back 10 (Some (RangeSpec_from (S3Suffix 1))) = Some [4].
Proof. split; vm_compute; reflexivity. Qed.

