(* ===== verification/S3Compat.v ===== *)
(** Objects of a hierarchical bucket (epoch-gateway s3compat.rs): an object key as a path,
    walked and created directory by directory through the metadata client. The calls
    are the class [HierMeta]; [ClusterHier] is the routed client of MetaClient.v. *)

From S2P Require Import Prelude Ids Erasure EcPipeline Rocks PdDb Client MetaStore MetaKeys MetaNs MetaFlat MetaHier MetaSm MetaGc MetaNode MetaClient GwList ObjectService.

Class HierMeta (St : Type) : Type := {
  hm_lookup : Z -> Z -> bytes -> St -> St * result ClientError HierLookupResponse;
  hm_mkdir_sentinel : Z -> Z -> bytes -> Z -> St -> St * result ClientError Z;
  hm_mkdir_link : Z -> Z -> bytes -> Z -> Z -> St -> St * result ClientError (option string);
  hm_write : HierWriteCall -> St -> St * result ClientError (option string);
  hm_unlink : Z -> Z -> bytes -> Z -> St -> St * result ClientError (option string);
  hm_readdir : Z -> Z -> bytes -> Z -> St -> St * result ClientError (list HierDirEntry) }.

(** ** Paths *)

Definition SLASH : Z := 47.
Fixpoint split_slash (key current : bytes) : list bytes :=
  match key with
  | [] => [current]
  | c :: key => if c =? SLASH then current :: split_slash key [] else split_slash key (current ++ [c])
  end.
Definition components (key : bytes) : list bytes := filter (fun c => c <> []) (split_slash key []).
Definition split_last {A} (l : list A) : option (list A * A) := x ← last l; Some (take (pred (length l)) l, x).

Section S3Compat.
Context `{RS : ReedSolomon} `{Md5} {St : Type} `{HM : !HierMeta St}.
Definition G (A : Type) : Type := St -> St * result GatewayError A.
Definition gret {A : Type} (a : A) : G A := fun st => (st, Ok a).
Definition gfail {A : Type} (e : GatewayError) : G A := fun st => (st, Err e).
Definition gbind {A B : Type} (m : G A) (k : A -> G B) : G B := fun st => match m st with (st, Ok a) => k a st | (st, Err e) => (st, Err e) end.
Notation "x <-! m ;; k" := (gbind m (fun x => k)) (at level 100, m at next level, k at level 200, right associativity).
(** A metadata call; [meta_err] of its error. *)
Definition call {A : Type} (f : St -> St * result ClientError A) : G A :=
  fun st => match f st with (st, Ok a) => (st, Ok a) | (st, Err _) => (st, meta_error) end.

Definition s3_mkdir (bucket parent_ino : Z) (name : bytes) (ts_millis : Z) : G Z :=
  looked <-! call (hm_lookup bucket parent_ino name) ;;
  match hlr_kind looked with
  | HierEntryDir => gret (hlr_dir_ino looked)
  | HierEntryFile => gfail GE_DirFileConflict
  | HierEntryUnspecified =>
      child_ino <-! call (hm_mkdir_sentinel bucket parent_ino name ts_millis) ;;
      reason <-! call (hm_mkdir_link bucket parent_ino name child_ino ts_millis) ;;
      match reason with Some _ => gfail (GE_Meta "mkdir") | None => gret child_ino end
  end.
(** The directory the components before the leaf name, from [parent_ino] on. *)
Fixpoint walk_dirs (bucket parent_ino : Z) (dirs : list bytes) (ensure_dirs : bool) (ts_millis : Z) : G (option Z) :=
  match dirs with
  | [] => gret (Some parent_ino)
  | dir :: dirs =>
      looked <-! call (hm_lookup bucket parent_ino dir) ;;
      match hlr_kind looked with
      | HierEntryDir => walk_dirs bucket (hlr_dir_ino looked) dirs ensure_dirs ts_millis
      | HierEntryFile => gfail GE_DirFileConflict
      | HierEntryUnspecified =>
          if ensure_dirs
          then child <-! s3_mkdir bucket parent_ino dir ts_millis ;; walk_dirs bucket child dirs ensure_dirs ts_millis
          else gret None
      end
  end.
(** A [LeafPath]: the inode of the directory and the name in it. *)
Definition walk_to_leaf (bucket : Z) (key : bytes) (ensure_dirs : bool) (ts_millis : Z) : G (option (Z * bytes)) :=
  match split_last (components key) with
  | None => gfail (GE_Meta "empty object key")
  | Some (dirs, leaf) =>
      parent <-! walk_dirs bucket ROOT_INO dirs ensure_dirs ts_millis ;;
      gret ((fun parent_ino => (parent_ino, leaf)) <$> parent)
  end.

Definition s3_put (bucket : Z) (key body : bytes) (ts_millis : Z) (http : ClientHttpMeta) : G bytes :=
  leaf <-! walk_to_leaf bucket key true ts_millis ;;
  match leaf with
  | None => gfail (GE_Meta "path walk failed")
  | Some (parent_ino, name) =>
      let etag := object_etag body in
      looked <-! call (hm_lookup bucket parent_ino name) ;;
      match hlr_kind looked with
      | HierEntryDir => gfail GE_DirFileConflict
      | _ =>
          reason <-! call (hm_write {| hw_bucket := bucket; hw_parent_ino := parent_ino; hw_name := name; hw_size := len body; hw_etag := etag;
                                       hw_inline_data := body; hw_slices := []; hw_ts_millis := ts_millis; hw_http := http |}) ;;
          match reason with Some _ => gfail (GE_Meta "hier write") | None => gret etag end
      end
  end.
Definition s3_head (bucket : Z) (key : bytes) : G (option ObjectHeadView) :=
  leaf <-! walk_to_leaf bucket key false 0 ;;
  match leaf with
  | None => gret None
  | Some (parent_ino, name) =>
      looked <-! call (hm_lookup bucket parent_ino name) ;;
      match hlr_kind looked with HierEntryFile => gret (hlr_file looked) | _ => gret None end
  end.
Record HierObject : Set := { ho_body : bytes; ho_etag : bytes; ho_size : Z; ho_http : ClientHttpMeta; ho_mtime : Z }.
Definition hier_object (looked : HierLookupResponse) : HierObject :=
  let head := default ObjectHeadView_default (hlr_file looked) in
  {| ho_body := hlr_inline_data looked; ho_etag := to_etag (hv_etag head); ho_size := hv_size head;
     ho_http := ClientHttpMeta_from_view head; ho_mtime := hv_mtime head |}.
Definition s3_get (bucket : Z) (key : bytes) : G (option HierObject) :=
  leaf <-! walk_to_leaf bucket key false 0 ;;
  match leaf with
  | None => gret None
  | Some (parent_ino, name) =>
      looked <-! call (hm_lookup bucket parent_ino name) ;;
      match hlr_kind looked with
      | HierEntryFile =>
          match hlr_slices looked with
          | [] => gret (Some (hier_object looked))
          | _ => gfail (GE_Meta "EC hierarchical file bodies are not yet served")
          end
      | _ => gret None
      end
  end.
Definition s3_delete (bucket : Z) (key : bytes) (ts_millis : Z) : G unit :=
  leaf <-! walk_to_leaf bucket key false ts_millis ;;
  match leaf with
  | None => gret tt
  | Some (parent_ino, name) => _r <-! call (hm_unlink bucket parent_ino name ts_millis) ;; gret tt
  end.

(** ** Listing *)

(** The directory a prefix names, with the path to it; [None]: a file or nothing. *)
Fixpoint walk_prefix (bucket dir_ino : Z) (base : bytes) (comps : list bytes) : G (option (Z * bytes)) :=
  match comps with
  | [] => gret (Some (dir_ino, base))
  | comp :: comps =>
      looked <-! call (hm_lookup bucket dir_ino comp) ;;
      match hlr_kind looked with
      | HierEntryDir => walk_prefix bucket (hlr_dir_ino looked) (base ++ comp ++ [SLASH]) comps
      | _ => gret None
      end
  end.
Definition strip_base (base key : bytes) : bytes := if bool_decide (base `prefix_of` key) then drop (length base) key else [].
Definition hier_row (base : bytes) (entry : HierDirEntry) : option (ListRow (option ObjectHeadView)) :=
  let key := base ++ hde_name entry in
  match hde_kind entry with
  | HierEntryFile => Some (LObject (key, hde_file entry))
  | HierEntryDir => Some (LPrefix (key ++ [SLASH]))
  | HierEntryUnspecified => None
  end.
Definition s3_list (bucket : Z) (prefix start_after : bytes) (limit : Z) : G (@ListPage (option ObjectHeadView)) :=
  dir <-! walk_prefix bucket ROOT_INO [] (components prefix) ;;
  match dir with
  | None => gret {| lp_rows := []; lp_next_token := None |}
  | Some (dir_ino, base) =>
      entries <-! call (hm_readdir bucket dir_ino (strip_base base start_after) limit) ;;
      let truncated := len entries =? limit in
      let last_name := default [] (hde_name <$> last entries) in
      gret {| lp_rows := omap (hier_row base) entries; lp_next_token := if truncated then Some (base ++ last_name) else None |}
  end.
End S3Compat.

(** ** The routed client *)

Section Cluster.
Context `{MetaSerde} {MS : MetaStore} (blake3 : bytes -> bytes) {LogId Membership : Set} `{!SmSerde LogId Membership}.
Context (rvs : string -> Z -> RaftView (LogId := LogId))
  (get_route : gmap string (@MetaNode MS) -> PbNsMode -> Z -> bytes -> result ClientError (option MetaPartitionView)) (valid_endpoint : string -> bool).
Definition ClusterHier : HierMeta (gmap string (@MetaNode MS) * Routes) :=
  let run {A : Type} (f : gmap string (@MetaNode MS) -> Routes -> gmap string (@MetaNode MS) * Routes * result ClientError A)
    : gmap string (@MetaNode MS) * Routes -> (gmap string (@MetaNode MS) * Routes) * result ClientError A := fun st => f st.1 st.2 in
  {| hm_lookup b p n := run (fun w r => client_hier_lookup rvs get_route valid_endpoint w r b p n);
     hm_mkdir_sentinel b p n ts := run (fun w r => client_hier_mkdir_sentinel (Membership := Membership) blake3 rvs get_route valid_endpoint w r b p n ts);
     hm_mkdir_link b p n c ts := run (fun w r => client_hier_mkdir_link (Membership := Membership) blake3 rvs get_route valid_endpoint w r b p n c ts);
     hm_write call := run (fun w r => client_hier_write (Membership := Membership) blake3 rvs get_route valid_endpoint w r call);
     hm_unlink b p n ts := run (fun w r => client_hier_unlink (Membership := Membership) blake3 rvs get_route valid_endpoint w r b p n ts);
     hm_readdir b p after limit := run (fun w r => client_hier_readdir rvs get_route valid_endpoint w r b p after limit) |}.
End Cluster.
