(* ===== verification/S3CompatProps.v ===== *)
(** Objects of a hierarchical bucket, proved: what the directory walk of s3compat.rs
    does to the tree a bucket holds. The metadata calls are used through the class
    [HierLaws]; [PartitionLaws] discharges it for a partition of MetaHier.v. *)

From S2P Require Import Prelude Ids Erasure EcPipeline Rocks PdDb Client MetaStore MetaKeys MetaNs MetaRefs MetaFlat MetaFlatProps MetaHier MetaHierProps MetaSm MetaGc MetaNode MetaClient GwList ObjectService S3Compat.

(** ** The tree of a bucket *)

Inductive HierNode : Set := HFile (f : FileRecord) | HDir (ino : Z).
Abbreviation Tree := (Z -> bytes -> option HierNode) (only parsing).
Definition node_record (n : HierNode) : FsRecord := match n with HFile f => FsFile f | HDir i => FsDir {| de_ino := i |} end.
(** A directory is the root or has a link; at most one link leads to it, none to the root. *)
Definition dir_in (e : Tree) (p : Z) : Prop := p = ROOT_INO \/ exists q name, e q name = Some (HDir p).
Definition linked (e : Tree) : Prop :=
  (forall p name, e p name <> Some (HDir ROOT_INO))
  /\ forall p name p' name' i, e p name = Some (HDir i) -> e p' name' = Some (HDir i) -> p = p' /\ name = name'.
Definition tree_set (e : Tree) (p : Z) (name : bytes) (v : option HierNode) : Tree :=
  fun p' name' => if decide ((p', name') = (p, name)) then v else e p' name'.
Definition unlinked (e : Tree) (i : Z) : Prop :=
  i <> ROOT_INO /\ (forall name, e i name = None) /\ forall p name, e p name <> Some (HDir i).

Section Trees.
Context `{RS : ReedSolomon}.
(** The walk over a tree: the directory, nothing, or a file in the way. *)
Fixpoint walk (e : Tree) (p : Z) (dirs : list bytes) : result GatewayError (option Z) :=
  match dirs with
  | [] => Ok (Some p)
  | dir :: dirs => match e p dir with Some (HDir i) => walk e i dirs | Some (HFile _) => Err GE_DirFileConflict | None => Ok None end
  end.
Definition file_at (e : Tree) (dirs : list bytes) (leaf : bytes) : result GatewayError (option FileRecord) :=
  match walk e ROOT_INO dirs with
  | Err c => Err c
  | Ok None => Ok None
  | Ok (Some p) => Ok (match e p leaf with Some (HFile f) => Some f | _ => None end)
  end.

Lemma tree_set_eq (e : Tree) p name v : tree_set e p name v p name = v.
Proof. unfold tree_set. by rewrite decide_True. Qed.
Lemma tree_set_ne (e : Tree) p name v p' name' : (p', name') <> (p, name) -> tree_set e p name v p' name' = e p' name'.
Proof. intros. unfold tree_set. by rewrite decide_False. Qed.
Lemma walk_ext (e e' : Tree) p dirs : (forall p name, e' p name = e p name) -> walk e' p dirs = walk e p dirs.
Proof. intros E. revert p. induction dirs as [|d dirs IH]; intros p; cbn; [done|]. rewrite E. destruct (e p d) as [[]|]; auto. Qed.
Lemma file_at_ext (e e' : Tree) dirs leaf : (forall p name, e' p name = e p name) -> file_at e' dirs leaf = file_at e dirs leaf.
Proof. intros E. unfold file_at. rewrite (walk_ext e e') by done. destruct (walk _ _ _) as [[p|]|]; [by rewrite E|done..]. Qed.
Lemma walk_dir (e : Tree) p dirs q : dir_in e p -> walk e p dirs = Ok (Some q) -> dir_in e q.
Proof.
  revert p. induction dirs as [|d dirs IH]; intros p Hp; cbn; [by intros [= <-]|].
  destruct (e p d) as [[f|i]|] eqn:E; [done| |done]. apply IH. right. by exists p, d.
Qed.
Lemma walk_snoc (e : Tree) p dirs d q : walk e p (dirs ++ [d]) = Ok (Some q) ->
  exists r, walk e p dirs = Ok (Some r) /\ e r d = Some (HDir q).
Proof.
  revert p. induction dirs as [|d' dirs IH]; intros p; cbn.
  - destruct (e p d) as [[f|i]|] eqn:E; [done| |done]. intros [= <-]. by exists p.
  - destruct (e p d') as [[f|i]|]; [done| |done]. apply IH.
Qed.
Lemma walk_app (e : Tree) p dirs dirs' q : walk e p dirs = Ok (Some q) -> walk e p (dirs ++ dirs') = walk e q dirs'.
Proof.
  revert p. induction dirs as [|d dirs IH]; intros p; cbn; [by intros [= <-]|]. destruct (e p d) as [[f|i]|]; [done| |done]. apply IH.
Qed.
(** One path leads to a directory. *)
Lemma walk_inj (e : Tree) dirs dirs' q : linked e -> walk e ROOT_INO dirs = Ok (Some q) -> walk e ROOT_INO dirs' = Ok (Some q) -> dirs = dirs'.
Proof.
  intros [Hroot Huniq]. revert dirs' q. induction dirs as [|d dirs IH] using rev_ind; intros dirs' q;
    destruct dirs' as [|d' dirs' _] using rev_ind.
  - done.
  - intros [= <-] (r & _ & E)%walk_snoc. by apply Hroot in E.
  - intros (r & _ & E)%walk_snoc [= <-]. by apply Hroot in E.
  - intros (r & Hr & E)%walk_snoc (r' & Hr' & E')%walk_snoc. destruct (Huniq _ _ _ _ _ E E') as [-> ->]. by rewrite (IH dirs' r').
Qed.
Lemma unlinked_walk (e : Tree) i dirs : unlinked e i -> dirs <> [] -> walk e i dirs = Ok None.
Proof. intros (_ & He & _) Hd. destruct dirs; [done|]. cbn. by rewrite He. Qed.

(** ** Changes of a tree *)

Section Update.
Context (e e' : Tree) (p : Z) (name : bytes) (v : option HierNode).
Hypothesis (Heq : forall q n, e' q n = tree_set e p name v q n) (He : linked e) (Hp : dir_in e p).

(** A fresh directory is linked: no file comes or goes. *)
Section Link.
Context (i : Z).
Hypothesis (Hv : v = Some (HDir i)) (Hi : unlinked e i) (Hnone : e p name = None).

Lemma link_fresh_ne : i <> p.
Proof. destruct Hi as (Hr & _ & Hl). intros ->. destruct Hp as [->|(q & n & E)]; [done|by apply Hl in E]. Qed.
Lemma link_fresh_empty n : e' i n = None.
Proof. rewrite Heq, tree_set_ne; [apply Hi|]. intros [= E _]. by apply link_fresh_ne. Qed.
Lemma link_walk q dirs : walk e' q dirs = walk e q dirs
  \/ walk e q dirs = Ok None /\ (walk e' q dirs = Ok None \/ walk e' q dirs = Ok (Some i)).
Proof.
  revert q. induction dirs as [|d dirs IH]; intros q; cbn; [by left|]. rewrite Heq. unfold tree_set. case_decide as E.
  - injection E as -> ->. rewrite Hv, Hnone. right. split; [done|]. destruct dirs as [|d' dirs]; [by right|left]. cbn. by rewrite link_fresh_empty.
  - destruct (e q d) as [[f|j]|]; auto.
Qed.
Lemma link_file_at dirs leaf : file_at e' dirs leaf = file_at e dirs leaf.
Proof.
  unfold file_at. destruct (link_walk ROOT_INO dirs) as [->|[-> [->| ->]]]; [|done|by rewrite link_fresh_empty].
  destruct (walk e ROOT_INO dirs) as [[q|]|]; try done. rewrite Heq. unfold tree_set. case_decide as E; [|done]. injection E as -> ->.
  by rewrite Hv, Hnone.
Qed.
Lemma link_dir q : dir_in e q -> dir_in e' q.
Proof.
  intros [->|(r & n & E)]; [by left|]. right. exists r, n. rewrite Heq, tree_set_ne; [done|]. intros [= -> ->]. congruence.
Qed.
Lemma link_new_dir : dir_in e' i.
Proof. right. exists p, name. by rewrite Heq, tree_set_eq. Qed.
End Link.

(** A file is put, or removed, where no directory is. *)
Section File.
Hypothesis (Hfile : forall i, e p name <> Some (HDir i)).

Lemma file_walk_kept q dirs r : walk e q dirs = Ok (Some r) -> walk e' q dirs = Ok (Some r).
Proof.
  revert q. induction dirs as [|d dirs IH]; intros q; cbn; [done|]. rewrite Heq. unfold tree_set. case_decide as E.
  - injection E as -> ->. destruct (e p name) as [[f|i]|] eqn:E; [done| |done]. by destruct (Hfile i).
  - destruct (e q d) as [[f|i]|]; [done| |done]. apply IH.
Qed.
Lemma file_walk_other pre q dirs path : walk e ROOT_INO path = Ok (Some p) -> walk e ROOT_INO pre = Ok (Some q) ->
  ~ path ++ [name] `prefix_of` pre ++ dirs -> walk e' q dirs = walk e q dirs.
Proof.
  intros Hpath. revert pre q. induction dirs as [|d dirs IH]; intros pre q Hpre Hn; cbn; [done|]. rewrite Heq. unfold tree_set.
  case_decide as E.
  - injection E as -> ->. destruct Hn. rewrite (walk_inj e path pre p He Hpath Hpre). exists dirs. by rewrite <- app_assoc.
  - destruct (e q d) as [[f|i]|] eqn:E'; [done| |done]. apply (IH (pre ++ [d])).
    + rewrite (walk_app e ROOT_INO pre [d] q Hpre). cbn. by rewrite E'.
    + by rewrite <- app_assoc.
Qed.
Lemma file_at_set path : walk e ROOT_INO path = Ok (Some p) -> file_at e' path name = Ok (match v with Some (HFile f) => Some f | _ => None end).
Proof. intros Hw. unfold file_at. rewrite (file_walk_kept _ _ _ Hw). by rewrite Heq, tree_set_eq. Qed.
Lemma file_at_other path dirs leaf : walk e ROOT_INO path = Ok (Some p) -> ~ path ++ [name] `prefix_of` dirs ++ [leaf] ->
  file_at e' dirs leaf = file_at e dirs leaf.
Proof.
  intros Hw Hn. unfold file_at. rewrite (file_walk_other [] ROOT_INO dirs path Hw); [|done|].
  2: { intros Hd. apply Hn. cbn in Hd. by apply prefix_app_r. }
  destruct (walk e ROOT_INO dirs) as [[q|]|] eqn:Ed; try done. rewrite Heq. unfold tree_set. case_decide as E; [|done].
  injection E as -> ->. destruct Hn. by rewrite (walk_inj e path dirs p He Hw Ed).
Qed.
End File.
End Update.
End Trees.

(** ** What the gateway relies on *)

Definition answer (n : option HierNode) : HierLookupResponse := lookup_response (node_record <$> n).
Definition name_ok (b : Z) (name : bytes) : Prop := is_u64 b /\ is_bytes name /\ name <> [].
(** The record a write leaves. *)
Definition file_of (call : HierWriteCall) (f : FileRecord) : Prop :=
  fr_size f = hw_size call /\ fr_etag f = hw_etag call /\ fr_mtime f = hw_ts_millis call /\ fr_content f = Inline (hw_inline_data call)
  /\ ClientHttpMeta_from_view (file_to_head_view f) = http_kept (hw_http call).

(** [hl_ok n]: the service answers, with room for [n] more changes, and mints no inode
    that is a directory already, the root included. [hl_fresh]: an inode that was minted
    and has no link yet. *)
Class HierLaws (St : Type) {HM : HierMeta St} : Type := {
  hl_ok : nat -> St -> Prop;
  hl_tree : St -> Z -> Z -> bytes -> option HierNode;
  hl_fresh : St -> Z -> Z -> Prop;
  hl_less n st : hl_ok (S n) st -> hl_ok n st;
  hl_linked n st b : hl_ok n st -> linked (hl_tree st b);
  hl_unlinked n st b i : hl_ok n st -> hl_fresh st b i -> unlinked (hl_tree st b) i;
  hl_lookup n st b p name : hl_ok n st -> name_ok b name -> dir_in (hl_tree st b) p ->
    exists st', hm_lookup b p name st = (st', Ok (answer (hl_tree st b p name))) /\ hl_ok n st'
      /\ forall b p name, hl_tree st' b p name = hl_tree st b p name;
  hl_mkdir_sentinel n st b p name ts : hl_ok (S n) st -> name_ok b name -> dir_in (hl_tree st b) p ->
    exists st' i, hm_mkdir_sentinel b p name ts st = (st', Ok i) /\ hl_ok n st' /\ hl_fresh st' b i
      /\ forall b p name, hl_tree st' b p name = hl_tree st b p name;
  hl_mkdir_link n st b p name i ts : hl_ok (S n) st -> name_ok b name -> dir_in (hl_tree st b) p -> hl_tree st b p name = None ->
    hl_fresh st b i ->
    exists st', hm_mkdir_link b p name i ts st = (st', Ok None) /\ hl_ok n st'
      /\ forall q n, hl_tree st' b q n = tree_set (hl_tree st b) p name (Some (HDir i)) q n;
  hl_write n st call : hl_ok (S n) st -> name_ok (hw_bucket call) (hw_name call) -> dir_in (hl_tree st (hw_bucket call)) (hw_parent_ino call) ->
    length (hw_etag call) = 16%nat -> hw_slices call = [] ->
    (forall i, hl_tree st (hw_bucket call) (hw_parent_ino call) (hw_name call) <> Some (HDir i)) ->
    exists st' f, hm_write call st = (st', Ok None) /\ hl_ok n st' /\ file_of call f
      /\ forall q n, hl_tree st' (hw_bucket call) q n = tree_set (hl_tree st (hw_bucket call)) (hw_parent_ino call) (hw_name call) (Some (HFile f)) q n;
  hl_unlink n st b p name ts : hl_ok (S n) st -> name_ok b name -> dir_in (hl_tree st b) p ->
    exists st' reason, hm_unlink b p name ts st = (st', Ok reason) /\ hl_ok n st'
      /\ forall q n, hl_tree st' b q n
           = match hl_tree st b p name with Some (HDir _) => hl_tree st b q n | _ => tree_set (hl_tree st b) p name None q n end }.

(** *** Paths *)

Lemma split_last_snoc {A} (l dirs : list A) (leaf : A) : split_last l = Some (dirs, leaf) -> l = dirs ++ [leaf].
Proof.
  unfold split_last. destruct l as [|x l _] using rev_ind; [done|]. rewrite last_snoc. cbn. intros [= <- <-].
  rewrite length_app. cbn. replace (pred (length l + 1)) with (length l) by lia. by rewrite take_app_length.
Qed.
Lemma split_last_some {A} (dirs : list A) (leaf : A) : split_last (dirs ++ [leaf]) = Some (dirs, leaf).
Proof.
  unfold split_last. rewrite last_snoc. cbn. rewrite length_app. cbn. replace (pred (length dirs + 1)) with (length dirs) by lia.
  by rewrite take_app_length.
Qed.
Lemma split_slash_bytes key current : is_bytes key -> is_bytes current -> Forall is_bytes (split_slash key current).
Proof.
  revert current. induction key as [|c key IH]; intros current; cbn; [by constructor|]. intros [Hc Hk]%Forall_cons Hcur.
  destruct (c =? SLASH); [constructor; [done|]; apply IH; [done|constructor]|]. apply IH; [done|].
  apply Forall_app. split; [done|by constructor].
Qed.
Lemma components_ok b key : is_u64 b -> is_bytes key -> Forall (name_ok b) (components key).
Proof.
  intros Hb Hk. unfold components. pose proof (split_slash_bytes key [] Hk ltac:(constructor)) as Hall. rewrite Forall_forall in Hall.
  apply Forall_forall. intros x [Hx Hin]%list_elem_of_filter. by split; [|split; [apply Hall|]].
Qed.

Section Gateway.
Context `{RS : ReedSolomon} `{Md5} {St : Type} {HM : HierMeta St} {HL : HierLaws St}.
Implicit Types (st : St).
Local Abbreviation tree st b := (hl_tree st b).
Local Abbreviation same st st' := (forall b p name, hl_tree st' b p name = hl_tree st b p name).

Lemma call_lookup n st b p name : hl_ok n st -> name_ok b name -> dir_in (tree st b) p ->
  exists st', call (hm_lookup b p name) st = (st', Ok (answer (tree st b p name))) /\ hl_ok n st' /\ same st st'.
Proof. intros Hok Hn Hd. destruct (hl_lookup n st b p name Hok Hn Hd) as (st' & E & ?). exists st'. unfold call. by rewrite E. Qed.
Lemma dir_in_ext (e e' : Tree) p : (forall p name, e' p name = e p name) -> dir_in e p -> dir_in e' p.
Proof. intros E [->|(q & name & Eq)]; [by left|]. right. exists q, name. by rewrite E. Qed.

(** The walk of a read. *)
Lemma walk_dirs_read n st b p dirs ts : hl_ok n st -> Forall (name_ok b) dirs -> dir_in (tree st b) p ->
  exists st', walk_dirs b p dirs false ts st = (st', walk (tree st b) p dirs) /\ hl_ok n st' /\ same st st'.
Proof.
  intros Hok Hn. revert p st Hok. induction Hn as [|d dirs Hd Hn IH]; intros p st Hok Hp; cbn [walk_dirs walk]; [by exists st|].
  destruct (call_lookup n st b p d Hok Hd Hp) as (st1 & E & Hok1 & Hs1). unfold gbind. rewrite E. clear E. cbv beta iota.
  destruct (tree st b p d) as [[f|i]|] eqn:Ed.
  - exists st1. split; [|done]. unfold answer, lookup_response. cbn. by destruct (fr_content f).
  - destruct (IH i st1 Hok1) as (st2 & E2 & Hok2 & Hs2).
    { apply (dir_in_ext (tree st b)); [done|]. right. by exists p, d. }
    exists st2. cbn. rewrite E2. split; [by rewrite (walk_ext (tree st b))|]. split; [done|]. intros. by rewrite Hs2, Hs1.
  - by exists st1.
Qed.
(** A missing directory is made. *)
Lemma s3_mkdir_ok n st b p name ts : hl_ok (S (S n)) st -> name_ok b name -> dir_in (tree st b) p -> tree st b p name = None ->
  exists st' i, s3_mkdir b p name ts st = (st', Ok i) /\ hl_ok n st' /\ unlinked (tree st b) i
    /\ forall q m, tree st' b q m = tree_set (tree st b) p name (Some (HDir i)) q m.
Proof.
  intros Hok Hn Hp Hnone. unfold s3_mkdir, gbind. destruct (call_lookup _ st b p name Hok Hn Hp) as (st1 & -> & Hok1 & Hs1).
  rewrite Hnone. cbn. unfold call. assert (dir_in (tree st1 b) p) as Hp1 by by apply (dir_in_ext (tree st b)).
  destruct (hl_mkdir_sentinel _ st1 b p name ts Hok1 Hn Hp1) as (st2 & i & -> & Hok2 & Hf & Hs2).
  assert (same st st2) as Hs by (intros; by rewrite Hs2, Hs1).
  destruct (hl_mkdir_link _ st2 b p name i ts Hok2 Hn) as (st3 & -> & Hok3 & Ht); [by apply (dir_in_ext (tree st b))|by rewrite Hs|done|].
  exists st3, i. split; [done|]. split; [done|]. destruct (hl_unlinked _ _ b i Hok2 Hf) as (H1 & H2 & H3). split.
  - split; [done|]. split; intros; by rewrite <- Hs.
  - intros q m. rewrite Ht. unfold tree_set. case_decide; [done|]. by rewrite Hs.
Qed.
Lemma hl_fewer k n st : (n <= k)%nat -> hl_ok k st -> hl_ok n st.
Proof. induction 1 as [|k Hk IH]; [done|]. intros Hok. by apply IH, hl_less. Qed.
(** The walk of a put, on a path no file is in the way of: missing directories are made and no file comes or goes. *)
Definition walked (b p : Z) (dirs : list bytes) st st' (q : Z) (w : option Z) : Prop :=
  walk (tree st' b) p dirs = Ok (Some q) /\ (forall ds leaf, file_at (tree st' b) ds leaf = file_at (tree st b) ds leaf)
  /\ (forall r m i, tree st b r m = Some (HDir i) -> tree st' b r m = Some (HDir i))
  /\ match w with Some q0 => q0 = q /\ forall r m, tree st' b r m = tree st b r m | None => forall m, tree st' b q m = None end.
Lemma walk_dirs_make n b dirs ts : Forall (name_ok b) dirs -> forall p st, hl_ok (2 * length dirs + n) st -> dir_in (tree st b) p ->
  match walk (tree st b) p dirs with
  | Err c => exists st', walk_dirs b p dirs true ts st = (st', Err c) /\ hl_ok n st' /\ same st st'
  | Ok w => exists st' q, walk_dirs b p dirs true ts st = (st', Ok (Some q)) /\ hl_ok n st' /\ walked b p dirs st st' q w
  end.
Proof.
  induction 1 as [|d dirs Hd Hn IH]; intros p st Hok Hp; cbn [walk_dirs walk]; [by exists st, p|].
  destruct (call_lookup _ st b p d Hok Hd Hp) as (st1 & E & Hok1 & Hs1). unfold gbind. rewrite !E. clear E. cbv beta iota.
  cbn [length] in *. destruct (tree st b p d) as [[f|i]|] eqn:Ed.
  - exists st1. split; [unfold answer, lookup_response; cbn; by destruct (fr_content f)|]. split; [|done]. eapply hl_fewer; [|exact Hok1]. lia.
  - cbn [answer node_record fmap option_fmap option_map lookup_response hlr_kind hlr_dir_ino de_ino].
    specialize (IH i st1 ltac:(eapply hl_fewer; [|exact Hok1]; lia)). rewrite (walk_ext (tree st b)) in IH by done.
    assert (dir_in (tree st1 b) i) as Hi. { apply (dir_in_ext (tree st b)); [done|]. right. by exists p, d. }
    specialize (IH Hi). destruct (walk (tree st b) i dirs) as [w|c].
    + destruct IH as (st2 & q & E & Hok2 & Hw & Hf & Hl & Hc). exists st2, q. split; [done|]. split; [done|].
      split; [cbn; by rewrite (Hl p d i) by by rewrite Hs1|]. split; [intros; by rewrite Hf, (file_at_ext (tree st b))|].
      split; [intros; apply Hl; by rewrite Hs1|]. destruct w; [|done]. destruct Hc as [-> Hc]. split; [done|]. intros. by rewrite Hc, Hs1.
    + destruct IH as (st2 & E & Hok2 & Hs2). exists st2. split; [done|]. split; [done|]. intros. by rewrite Hs2, Hs1.
  - cbn [answer fmap option_fmap option_map lookup_response hlr_kind].
    assert (dir_in (tree st1 b) p) as Hp1 by by apply (dir_in_ext (tree st b)).
    destruct (s3_mkdir_ok (2 * length dirs + n) st1 b p d ts) as (st2 & i & E & Hok2 & Hi & Ht2);
      [eapply hl_fewer; [|exact Hok1]; lia|done|done|by rewrite Hs1|].
    rewrite E. clear E.
    pose proof (link_fresh_empty _ _ p d _ Ht2 Hp1 i eq_refl Hi ltac:(by rewrite Hs1)) as Hemp.
    pose proof (link_file_at _ _ p d _ Ht2 Hp1 i eq_refl Hi ltac:(by rewrite Hs1)) as Hfile.
    specialize (IH i st2 Hok2 ltac:(eapply link_new_dir; [exact Ht2|done])).
    destruct (walk (tree st2 b) i dirs) as [w|c] eqn:Ew.
    2: { destruct dirs; cbn in Ew; [done|]. by rewrite Hemp in Ew. }
    destruct IH as (st3 & q & E & Hok3 & Hw & Hf & Hl & Hc). exists st3, q. split; [done|]. split; [done|].
    split; [cbn; rewrite (Hl p d i); [done|by rewrite Ht2, tree_set_eq]|].
    split; [intros; rewrite Hf, Hfile; by apply file_at_ext|]. split.
    + intros r m j Hj. apply Hl. rewrite Ht2, tree_set_ne, Hs1; [done|]. intros [= -> ->]. congruence.
    + destruct w as [q0|]; [|done]. destruct Hc as [-> Hc]. intros m. rewrite Hc. destruct dirs; cbn in Ew; [|by rewrite Hemp in Ew].
      injection Ew as <-. apply Hemp.
Qed.

(** The object a file record reads as. *)
Definition object_of (f : FileRecord) : HierObject := hier_object (answer (Some (HFile f))).
Definition get_answer (r : result GatewayError (option FileRecord)) : result GatewayError (option HierObject) :=
  f <-? r ;; match f with
             | None => Ok None
             | Some f => match fr_content f with
                         | Slices (_ :: _) => Err (GE_Meta "EC hierarchical file bodies are not yet served")
                         | _ => Ok (Some (object_of f))
                         end
             end.
Lemma s3_get_ok n st b key dirs leaf : hl_ok n st -> is_u64 b -> is_bytes key -> split_last (components key) = Some (dirs, leaf) ->
  exists st', s3_get b key st = (st', get_answer (file_at (tree st b) dirs leaf)) /\ hl_ok n st' /\ same st st'.
Proof.
  intros Hok Hb Hk Hs. pose proof (components_ok b key Hb Hk) as Hn. rewrite (split_last_snoc _ _ _ Hs) in Hn.
  apply Forall_app in Hn as [Hd [Hl _]%Forall_cons]. unfold s3_get, walk_to_leaf, gbind, gret, get_answer, file_at. rewrite Hs.
  destruct (walk_dirs_read n st b ROOT_INO dirs 0 Hok Hd) as (st1 & -> & Hok1 & Hs1); [by left|].
  destruct (walk (tree st b) ROOT_INO dirs) as [[q|]|c] eqn:Ew; cbn [fmap option_fmap option_map]; [|by exists st1..].
  assert (dir_in (tree st1 b) q) as Hq by (apply (dir_in_ext (tree st b)); [done|]; eapply walk_dir; [|exact Ew]; by left).
  destruct (call_lookup n st1 b q leaf Hok1 Hl Hq) as (st2 & -> & Hok2 & Hs2). rewrite Hs1. exists st2. split.
  - destruct (tree st b q leaf) as [[f|i]|]; [|done..]. unfold object_of, answer, lookup_response. cbn.
    by destruct (fr_content f) as [body|[|]].
  - split; [done|]. intros. by rewrite Hs2, Hs1.
Qed.
Lemma s3_get_tree n n' st st' b key dirs leaf : hl_ok n st -> hl_ok n' st' -> is_u64 b -> is_bytes key ->
  split_last (components key) = Some (dirs, leaf) -> file_at (tree st' b) dirs leaf = file_at (tree st b) dirs leaf ->
  (s3_get b key st').2 = (s3_get b key st).2.
Proof.
  intros Hok Hok' Hb Hk Hs E. destruct (s3_get_ok _ st b key dirs leaf Hok Hb Hk Hs) as (? & -> & _).
  destruct (s3_get_ok _ st' b key dirs leaf Hok' Hb Hk Hs) as (? & -> & _). cbn. by rewrite E.
Qed.
Lemma written_object call f : file_of call f -> length (hw_etag call) = 16%nat ->
  get_answer (Ok (Some f)) = Ok (Some {| ho_body := hw_inline_data call; ho_etag := hw_etag call; ho_size := hw_size call;
                                         ho_http := http_kept (hw_http call); ho_mtime := hw_ts_millis call |}).
Proof.
  intros (H1 & H2 & H3 & H4 & H5) He. unfold get_answer. rewrite H4. unfold object_of, hier_object, answer, lookup_response. cbn. rewrite H4. cbn.
  rewrite H5. unfold file_to_head_view, head_view. rewrite H1, H2, H3, H4. cbn. unfold to_etag. rewrite decide_True by done. done.
Qed.

(** A file where a directory is needed, or a directory where the file goes. *)
Definition node_is_dir (o : option HierNode) : bool := match o with Some (HDir _) => true | _ => false end.
Definition conflicts (e : Tree) (dirs : list bytes) (leaf : bytes) : bool :=
  match walk e ROOT_INO dirs with
  | Err _ => true
  | Ok None => false
  | Ok (Some p) => node_is_dir (e p leaf)
  end.
Lemma not_dir o : node_is_dir o = false -> (forall i, o <> Some (HDir i)) /\ hlr_kind (answer o) <> HierEntryDir.
Proof. destruct o as [[f|i]|]; cbn; [|done..]. split; [done|]. unfold answer, lookup_response. cbn. by destruct (fr_content f). Qed.
Lemma walk_err (e : Tree) p dirs c : walk e p dirs = Err c -> c = GE_DirFileConflict.
Proof. revert p. induction dirs as [|d dirs IH]; intros p; cbn; [done|]. destruct (e p d) as [[f|i]|]; [congruence|apply IH|done]. Qed.
Lemma split_last_comps (l : list bytes) : l <> [] -> exists dirs leaf, split_last l = Some (dirs, leaf).
Proof. destruct l as [|x l _] using rev_ind; [done|]. intros _. exists l, x. apply split_last_some. Qed.
(** The new file at the end of a path, seen from every key. *)
Definition put_call (b q : Z) (leaf body : bytes) (ts : Z) (http : ClientHttpMeta) : HierWriteCall := {|
  hw_bucket := b; hw_parent_ino := q; hw_name := leaf; hw_size := len body; hw_etag := object_etag body; hw_inline_data := body;
  hw_slices := []; hw_ts_millis := ts; hw_http := http |}.
Lemma leaf_changed st st' b dirs leaf q v key' dirs' leaf' : linked (tree st b) -> walk (tree st b) ROOT_INO dirs = Ok (Some q) ->
  (forall i, tree st b q leaf <> Some (HDir i)) -> (forall r m, tree st' b r m = tree_set (tree st b) q leaf v r m) ->
  split_last (components key') = Some (dirs', leaf') ->
  (components key' = dirs ++ [leaf] -> file_at (tree st' b) dirs' leaf' = Ok (match v with Some (HFile f) => Some f | _ => None end))
  /\ (~ dirs ++ [leaf] `prefix_of` components key' -> file_at (tree st' b) dirs' leaf' = file_at (tree st b) dirs' leaf').
Proof.
  intros Hl Hw Hnd Ht Hs. pose proof (split_last_snoc _ _ _ Hs) as E. split.
  - intros E'. rewrite E in E'. apply app_inj_2 in E' as [-> [= ->]]; [|done]. by eapply file_at_set.
  - rewrite E. intros Hn. by eapply file_at_other.
Qed.
Lemma put_leaf n st b dirs leaf q body ts http : hl_ok (S n) st -> name_ok b leaf -> walk (tree st b) ROOT_INO dirs = Ok (Some q) ->
  (forall i, tree st b q leaf <> Some (HDir i)) ->
  exists st' f, call (hm_write (put_call b q leaf body ts http)) st = (st', Ok None) /\ hl_ok n st' /\ file_of (put_call b q leaf body ts http) f
    /\ forall r m, tree st' b r m = tree_set (tree st b) q leaf (Some (HFile f)) r m.
Proof.
  intros Hok Hn Hw Hnd.
  destruct (hl_write n st (put_call b q leaf body ts http) Hok Hn) as (st' & f & E & ?); [|by apply md5_length|done|done|].
  - eapply walk_dir; [|exact Hw]. by left.
  - exists st', f. split; [unfold call; by rewrite E|done].
Qed.
(** The reads after the write, in terms of a state [st] before the directories were made. *)
Lemma put_reads n m st st2 st3 b dirs leaf q body ts http f : hl_ok n st -> hl_ok (S m) st2 -> hl_ok m st3 -> is_u64 b ->
  walk (tree st2 b) ROOT_INO dirs = Ok (Some q) -> (forall i, tree st2 b q leaf <> Some (HDir i)) ->
  (forall ds l, file_at (tree st2 b) ds l = file_at (tree st b) ds l) ->
  (forall r m, tree st3 b r m = tree_set (tree st2 b) q leaf (Some (HFile f)) r m) -> file_of (put_call b q leaf body ts http) f ->
  forall key', is_bytes key' -> components key' <> [] ->
    (components key' = dirs ++ [leaf] ->
       (s3_get b key' st3).2 = Ok (Some {| ho_body := body; ho_etag := object_etag body; ho_size := len body; ho_http := http_kept http; ho_mtime := ts |}))
    /\ (~ dirs ++ [leaf] `prefix_of` components key' -> (s3_get b key' st3).2 = (s3_get b key' st).2).
Proof.
  intros Hok Hok2 Hok3 Hb Hw Hnd Hsame Ht Hf key' Hk' Hne. destruct (split_last_comps _ Hne) as (dirs' & leaf' & Hs').
  destruct (leaf_changed st2 st3 b dirs leaf q (Some (HFile f)) key' dirs' leaf') as [H1 H2]; [by eapply hl_linked|done..|]. split.
  - intros E. destruct (s3_get_ok m st3 b key' dirs' leaf' Hok3 Hb Hk' Hs') as (st4 & -> & _). cbn [snd]. rewrite (H1 E).
    apply (written_object _ _ Hf). apply md5_length.
  - intros E. eapply (s3_get_tree n m); [done..|]. by rewrite (H2 E).
Qed.

(** C7: a put of a path in a hierarchical bucket and the reads after it, at a service that
    never mints an inode it uses already (a partition whose inode counter is past the
    root's and gave it to no directory: the child of a split; a bootstrap partition starts
    without this, [fresh_partition_aliases_root]). With room for the directories of the
    path, the put makes the missing directories and writes the file, unless a file stands
    where a directory is needed or a directory where the file goes: then it fails with a
    conflict and the tree is as it was. After a put that succeeds every spelling of the
    path (doubled, leading or trailing slashes) reads the object that was put, and every
    key that does not lie below the new file reads what it read before. *)
Theorem hier_put_get n st b key body ts http dirs leaf :
  hl_ok (2 * length (components key) + n) st -> is_u64 b -> is_bytes key -> split_last (components key) = Some (dirs, leaf) ->
  exists st', hl_ok n st' /\
    if conflicts (tree st b) dirs leaf
    then s3_put b key body ts http st = (st', Err GE_DirFileConflict) /\ forall p name, tree st' b p name = tree st b p name
    else s3_put b key body ts http st = (st', Ok (object_etag body))
         /\ forall key', is_bytes key' -> components key' <> [] ->
              (components key' = components key ->
                 (s3_get b key' st').2 = Ok (Some {| ho_body := body; ho_etag := object_etag body; ho_size := len body;
                                                     ho_http := http_kept http; ho_mtime := ts |}))
              /\ (~ components key `prefix_of` components key' -> (s3_get b key' st').2 = (s3_get b key' st).2).
Proof.
  intros Hok Hb Hk Hs. pose proof (components_ok b key Hb Hk) as Hn. pose proof (split_last_snoc _ _ _ Hs) as Ec. rewrite Ec in *.
  rewrite length_app in Hok. cbn [length] in Hok. apply Forall_app in Hn as [Hd [Hl _]%Forall_cons].
  pose proof (walk_dirs_make (S (S n)) b dirs ts Hd ROOT_INO st) as Hmake.
  specialize (Hmake ltac:(eapply hl_fewer; [|exact Hok]; lia) ltac:(by left)). unfold s3_put, walk_to_leaf, gbind, gret, gfail, conflicts. rewrite Ec, Hs.
  destruct (walk (tree st b) ROOT_INO dirs) as [w|c] eqn:Ew.
  2: { destruct Hmake as (st1 & -> & Hok1 & Hs1). exists st1. split; [eapply hl_fewer; [|exact Hok1]; lia|]. by rewrite (walk_err _ _ _ _ Ew). }
  destruct Hmake as (st1 & q & -> & Hok1 & Hw1 & Hf1 & Hl1 & Hc1). cbn [fmap option_fmap option_map].
  assert (dir_in (tree st1 b) q) as Hq by (eapply walk_dir; [|exact Hw1]; by left).
  destruct (call_lookup _ st1 b q leaf Hok1 Hl Hq) as (st2 & -> & Hok2 & Hs2).
  assert ((match w with Some p => node_is_dir (tree st b p leaf) | None => false end) = node_is_dir (tree st1 b q leaf)) as ->.
  { destruct w; [destruct Hc1 as [-> Hc1]|]; by rewrite Hc1. }
  destruct (node_is_dir (tree st1 b q leaf)) eqn:Edir.
  - destruct (tree st1 b q leaf) as [[?|i]|] eqn:El; [done| |done]. exists st2. split; [eapply hl_fewer; [|exact Hok2]; lia|].
    split; [done|]. intros p name. rewrite Hs2. destruct w; [by apply Hc1|]. by rewrite Hc1 in El.
  - destruct (not_dir _ Edir) as [Hnd Hkind].
    destruct (put_leaf n st2 b dirs leaf q body ts http) as (st3 & f & Ew3 & Hok3 & Hf & Ht).
    + eapply hl_fewer; [|exact Hok2]; lia.
    + done.
    + by rewrite (walk_ext (tree st1 b)).
    + intros i. by rewrite Hs2.
    + exists st3. split; [done|]. split; [destruct (hlr_kind _); try done; fold (put_call b q leaf body ts http); by rewrite Ew3|].
      eapply (put_reads _ n st st2 st3 b dirs leaf q); try done.
      * eapply hl_fewer; [|exact Hok2]; lia.
      * by rewrite (walk_ext (tree st1 b)).
      * intros i. by rewrite Hs2.
      * intros ds l. by rewrite (file_at_ext (tree st1 b)).
Qed.

(** A delete always succeeds on a path no file is in the way of, an absent object
    included; afterwards the path reads as absent and other keys as before. *)
Theorem hier_delete_get n st b key ts dirs leaf :
  hl_ok (S n) st -> is_u64 b -> is_bytes key -> split_last (components key) = Some (dirs, leaf) ->
  exists st', hl_ok n st'
    /\ s3_delete b key ts st = (st', match walk (tree st b) ROOT_INO dirs with Err c => Err c | Ok _ => Ok tt end)
    /\ forall key', is_bytes key' -> components key' <> [] ->
         (components key' = components key ->
            (s3_get b key' st').2 = match walk (tree st b) ROOT_INO dirs with Err c => Err c | Ok _ => Ok None end)
         /\ (~ components key `prefix_of` components key' -> (s3_get b key' st').2 = (s3_get b key' st).2).
Proof.
  intros Hok Hb Hk Hs. pose proof (components_ok b key Hb Hk) as Hn. pose proof (split_last_snoc _ _ _ Hs) as Ec. rewrite Ec in *.
  apply Forall_app in Hn as [Hd [Hl _]%Forall_cons]. unfold s3_delete, walk_to_leaf, gbind, gret. rewrite Ec, Hs.
  destruct (walk_dirs_read _ st b ROOT_INO dirs ts Hok Hd) as (st1 & -> & Hok1 & Hs1); [by left|].
  assert (forall st', hl_ok n st' -> (forall p m, tree st' b p m = tree st b p m) -> (forall q, walk (tree st b) ROOT_INO dirs <> Ok (Some q)) ->
    forall key', is_bytes key' -> components key' <> [] ->
      (components key' = dirs ++ [leaf] -> (s3_get b key' st').2 = match walk (tree st b) ROOT_INO dirs with Err c => Err c | Ok _ => Ok None end)
      /\ (~ dirs ++ [leaf] `prefix_of` components key' -> (s3_get b key' st').2 = (s3_get b key' st).2)) as Hnone.
  { intros st' Hok' Ht Hq key' Hk' Hne. destruct (split_last_comps _ Hne) as (dirs' & leaf' & Hs'). split.
    - intros E. destruct (s3_get_ok n st' b key' dirs' leaf' Hok' Hb Hk' Hs') as (? & -> & _). cbn [snd].
      rewrite E, Hs in Hs'. injection Hs' as <- <-. rewrite (file_at_ext (tree st b)) by done. unfold file_at.
      destruct (walk (tree st b) ROOT_INO dirs) as [[q|]|]; [by destruct (Hq q)|done..].
    - intros _. eapply (s3_get_tree (S n) n); [done..|]. by rewrite (file_at_ext (tree st b)). }
  destruct (walk (tree st b) ROOT_INO dirs) as [[q|]|c] eqn:Ew; cbn [fmap option_fmap option_map];
    [|exists st1; split; [by apply hl_less|]; split; [done|]; apply Hnone; [by apply hl_less|done|done]..].
  unfold call. destruct (hl_unlink n st1 b q leaf ts Hok1 Hl) as (st2 & reason & -> & Hok2 & Ht2).
  { apply (dir_in_ext (tree st b)); [done|]. eapply walk_dir; [|exact Ew]. by left. }
  exists st2. split; [done|]. split; [done|]. intros key' Hk' Hne. destruct (split_last_comps _ Hne) as (dirs' & leaf' & Hs').
  rewrite Hs1 in Ht2. destruct (node_is_dir (tree st b q leaf)) eqn:Edir.
  - destruct (tree st b q leaf) as [[?|i]|] eqn:El; [done| |done].
    assert (forall p m, tree st2 b p m = tree st b p m) as Hs2 by (intros; by rewrite Ht2, Hs1). split.
    + intros E. destruct (s3_get_ok n st2 b key' dirs' leaf' Hok2 Hb Hk' Hs') as (? & -> & _). cbn [snd].
      rewrite E, Hs in Hs'. injection Hs' as <- <-. rewrite (file_at_ext (tree st b)) by done. unfold file_at. by rewrite Ew, El.
    + intros _. eapply (s3_get_tree (S n) n); [done..|]. by rewrite (file_at_ext (tree st b)).
  - destruct (not_dir _ Edir) as [Hnd _].
    destruct (leaf_changed st st2 b dirs leaf q None key' dirs' leaf') as [H1 H2]; [by eapply hl_linked|done|done| |done|].
    { intros r m. rewrite Ht2. destruct (tree st b q leaf) as [[?|?]|]; [|done|]; unfold tree_set; case_decide; by rewrite ?Hs1. }
    split.
    + intros E. destruct (s3_get_ok n st2 b key' dirs' leaf' Hok2 Hb Hk' Hs') as (? & -> & _). cbn [snd]. by rewrite (H1 E).
    + intros E. eapply (s3_get_tree (S n) n); [done..|]. by rewrite (H2 E).
Qed.
End Gateway.

(** ** A partition

    A partition of the hierarchical namespace meets what the gateway relies on: the
    handlers of MetaHier.v, applied to a store, give the laws of [HierLaws], as long as
    the inode counter of the partition is past the inode of the root. *)

Section Partition.
Context `{MetaSerde} {MS : MetaStore}.

(** ** A partition with one replica: every proposal is applied at once *)

Record HierPart : Type := { hp_store : store; hp_ino : InoAllocator; hp_seq : Z }.
Definition part_fault : ClientError := Rpc COther "partition write".
Definition part_apply (op : HierOp) (st : HierPart) : HierPart * result ClientError MetaResponse :=
  match hier_apply (hp_store st) op (hp_seq st) (hp_ino st) with
  | Err _ => (st, Err part_fault)
  | Ok (o, ino) =>
      match ms_apply (hp_store st) (ao_ops o) with
      | Err _ => (st, Err part_fault)
      | Ok s => ({| hp_store := s; hp_ino := ino; hp_seq := hp_seq st + 1 |}, Ok (ao_response o))
      end
  end.
Definition part_map {A B} (f : A -> result ClientError B) (r : HierPart * result ClientError A) : HierPart * result ClientError B :=
  (r.1, a <-? r.2 ;; f a).
Definition part_reason (r : MetaResponse) : result ClientError (option string) := Ok (non_empty (rejected_reason r)).
Definition part_write_op (w : HierWriteCall) : HierOp :=
  let req := hier_write_request w in
  HWrite (hw_bucket w) (hw_parent_ino w) (hw_name w) (hw_size w) (hw_etag w) (put_content (hw_inline_data w) (hw_slices w))
    (decode_http_meta (hwr_content_type req) (hwr_content_encoding req) (hwr_cache_control req) (hwr_user_metadata req)) (hw_ts_millis w).
#[export] Instance PartitionHier : HierMeta HierPart := {|
  hm_lookup b p name st :=
    (st, match lookup_ (hp_store st) b p name with Err _ => Err part_fault | Ok record => Ok (lookup_response record) end);
  hm_mkdir_sentinel b p name ts st :=
    part_map (fun r => match r with MintedIno i => Ok i | _ => Err part_fault end) (part_apply (HMkdirSentinel b p name ts) st);
  hm_mkdir_link b p name i ts st := part_map part_reason (part_apply (HMkdirLink b p name i ts) st);
  hm_write w st :=
    match etag16 (hw_etag w) "etag must be 16 bytes" with
    | Err _ => (st, Err part_fault)
    | Ok _ => part_map part_reason (part_apply (part_write_op w) st)
    end;
  hm_unlink b p name ts st := part_map part_reason (part_apply (HUnlink b p name ts) st);
  hm_readdir b dir after limit st :=
    (st, match readdir (hp_store st) b dir (match after with [] => None | _ => Some after end) (clamp_limit limit) with
         | Err _ => Err part_fault
         | Ok page => Ok (dir_entry_view <$> page)
         end) |}.

(** ** Its tree *)

Definition part_name (b p : Z) (name : bytes) : Prop := is_u64 b /\ is_u64 p /\ is_bytes name /\ name <> [].
#[export] Instance part_name_dec b p name : Decision (part_name b p name).
Proof. unfold part_name, uint. apply _. Defined.
Definition record_node (r : FsRecord) : option HierNode :=
  match r with FsFile f => Some (HFile f) | FsDir d => Some (HDir (de_ino d)) | FsSentinel _ => None end.
Definition value_node (v : option bytes) : option HierNode := b ← v; r ← from_slice (A := FsRecord) b; record_node r.
Definition tree_of (m : gmap bytes bytes) (b p : Z) (name : bytes) : option HierNode :=
  if decide (part_name b p name) then value_node (m !! entry_key b p name) else None.

Lemma entry_key_inj3 b p name b' p' name' : part_name b p name -> part_name b' p' name' ->
  entry_key b p name = entry_key b' p' name' -> b = b' /\ p = p' /\ name = name'.
Proof.
  intros (Hb & Hp & _) (Hb' & Hp' & _) E. destruct (prefix_sent_inj b p b' p' (entry_key b p name)) as [-> ->]; [done..| | |].
  - apply entry_key_prefix.
  - rewrite E. apply entry_key_prefix.
  - by apply entry_key_inj in E.
Qed.
(** The entries of two families agree but for one. *)
Definition one_entry (m m' : gmap bytes bytes) (b p : Z) (name : bytes) (o : option bytes) : Prop :=
  forall b' q n, n <> [] -> m' !! entry_key b' q n = if decide (entry_key b' q n = entry_key b p name) then o else m !! entry_key b' q n.
Lemma tree_of_ext m m' b p name : (forall b p name, name <> [] -> m' !! entry_key b p name = m !! entry_key b p name) ->
  tree_of m' b p name = tree_of m b p name.
Proof. intros E. unfold tree_of. case_decide as Hn; [by rewrite E by apply Hn|done]. Qed.
Lemma tree_of_set m m' b p name o : part_name b p name -> one_entry m m' b p name o ->
  (forall q n, tree_of m' b q n = tree_set (tree_of m b) p name (value_node o) q n)
  /\ forall b' q n, b' <> b -> tree_of m' b' q n = tree_of m b' q n.
Proof.
  intros Hn E. split.
  - intros q n. unfold tree_set, tree_of. destruct (decide (part_name b q n)) as [Hq|Hq].
    + rewrite E by apply Hq. destruct (decide (entry_key b q n = entry_key b p name)) as [Ek|Ek].
      * destruct (entry_key_inj3 _ _ _ _ _ _ Hq Hn Ek) as (_ & -> & ->). by rewrite decide_True.
      * rewrite decide_False; [done|]. by intros [= -> ->].
    + rewrite decide_False; [done|]. by intros [= -> ->].
  - intros b' q n Hb. unfold tree_of. case_decide as Hq; [|done]. rewrite E by apply Hq. rewrite decide_False; [done|].
    intros Ek. by destruct (entry_key_inj3 _ _ _ _ _ _ Hq Hn Ek).
Qed.
Lemma bump_one_entry m mid b p delta ts name o : (forall k, mid !! k = if decide (k = entry_key b p name) then o else m !! k) ->
  one_entry m (bump_view m mid b p delta ts) b p name o.
Proof. intros E b' q n Hn. rewrite bump_view_entry by done. apply E. Qed.
Lemma bump_size m mid b p delta ts : (forall v, m !! sent_key b p = Some v -> is_Some (mid !! sent_key b p)) ->
  size (bump_view m mid b p delta ts) = size mid.
Proof.
  intros E. unfold bump_view. destruct (m !! sent_key b p) as [v|] eqn:Ev; cbn; [|done]. destruct (from_slice v) as [[| |]|]; try done.
  by rewrite map_size_insert_Some by by eapply E.
Qed.

(** ** What each handler does to the entries *)

Section Effects.
Context (s : store) (ino : InoAllocator) (b p : Z) (name : bytes) (seq ts : Z).
Hypothesis (Hwf : store_wf s) (Hinv : hier_inv (ms_view s Fs) ino) (Hname : part_name b p name).
Local Abbreviation m := (ms_view s Fs).

Lemma record_of : exists r, fs_read_record s b p name = Ok r /\ (forall d, r <> Some (FsSentinel d))
  /\ (r = None <-> m !! entry_key b p name = None) /\ tree_of m b p name = (x ← r; record_node x).
Proof.
  destruct Hname as (Hb & Hp & _ & Hn). destruct (read_record_ok s b p name ino (proj1 Hwf) Hinv Hb Hp) as (r & E & Hr). exists r.
  split; [done|]. unfold tree_of. rewrite decide_True by done. destruct (m !! entry_key b p name) as [v|].
  - destruct Hr as (x & -> & Ex & Hx). split; [|split; [done|cbn; by rewrite Ex]]. intros d [= ->]. apply Hn, Hx. by exists d.
  - by subst r.
Qed.
Lemma put_view (pre : list StoreOp) (r : FsRecord) delta : no_fs pre ->
  exists ops, bump_sentinel_child_delta s b p delta ts (pre ++ [StoreOp_put Fs (entry_key b p name) (to_vec r)]) = Ok ops
    /\ view_ops Fs ops m = bump_view m (<[entry_key b p name := to_vec r]> m) b p delta ts.
Proof.
  intros Hpre. destruct Hname as (Hb & Hp & _).
  destruct (bump_ok s b p delta ts (pre ++ [StoreOp_put Fs (entry_key b p name) (to_vec r)]) ino (proj1 Hwf) Hinv Hb Hp) as (bops & -> & Hv & _).
  eexists. split; [done|]. by rewrite Hv, view_ops_app, (view_no_fs pre), view_put1.
Qed.
Lemma write_effect data size etag http : is_Some (compose_ino (ia_tag ino) (ia_next ino)) -> node_is_dir (tree_of m b p name) = false ->
  exists o ino' i delta, apply_write s b p name size etag (Inline data) http ts seq ino = Ok (o, ino') /\ ao_response o = RespNone
    /\ view_ops Fs (ao_ops o) m = bump_view m (<[entry_key b p name := to_vec (FsFile {| fr_ino := i; fr_size := size; fr_etag := etag;
         fr_mtime := ts; fr_content := Inline data; fr_seg_count := 0; fr_http := http |})]> m) b p delta ts
    /\ (ino' = ino \/ exists j, mint ino = Ok (j, ino')).
Proof.
  intros [j Hj] Hdir. destruct record_of as (r & Er & Hns & _ & Et). unfold apply_write. rewrite decide_False by apply Hname. rewrite Er.
  destruct (capture_shape s b p name seq ts Hwf) as (cops & [[oi oc] ot] & Hcap & Hc1 & _); [apply Hname|].
  assert (exists i ino' c, (match r with Some (FsFile existing) => Ok (fr_ino existing, false, ino)
            | _ => m <-? mint ino ;; Ok (m.1, true, m.2) end) = Ok (E := MetaStoreError) (i, c, ino') /\ (ino' = ino \/ exists j, mint ino = Ok (j, ino')))
    as (i & ino' & c & Ei & Hino).
  { unfold mint. rewrite Hj. destruct r as [[f| |]|]; cbn; eexists _, _, _; (split; [done|]); eauto. }
  destruct (put_view cops (FsFile {| fr_ino := i; fr_size := size; fr_etag := etag; fr_mtime := ts; fr_content := Inline data;
    fr_seg_count := 0; fr_http := http |}) (if c then 1 else 0) Hc1) as (ops & Eb & Hv).
  destruct r as [[f|d|d]|]; [|by rewrite Et in Hdir|by destruct (Hns d)|]; cbv beta iota zeta; [injection Ei as <- <- <-|rewrite Ei]; cbv beta iota zeta; rewrite Hcap;
    unfold pack_file, file_with; cbn [fr_content fr_ino fr_size fr_etag fr_mtime fr_http put_file_segments ContentHead_inline_account];
    rewrite app_nil_r; fold (entry_key b p name); rewrite Eb; eexists _, _, _, _; (split; [done|]); done.
Qed.
Lemma link_effect i : tree_of m b p name = None ->
  exists o, apply_mkdir_link s b p name i ts = Ok o /\ ao_response o = RespNone
    /\ view_ops Fs (ao_ops o) m = bump_view m (<[entry_key b p name := to_vec (FsDir {| de_ino := i |})]> m) b p 1 ts.
Proof.
  intros Hnone. destruct record_of as (r & Er & Hns & _ & Et). unfold apply_mkdir_link. rewrite decide_False by apply Hname. rewrite Er.
  destruct (put_view [] (FsDir {| de_ino := i |}) 1) as (ops & Eb & Hv); [constructor|].
  destruct r as [[f|d|d]|]; [by rewrite Hnone in Et..|by destruct (Hns d)|]. cbn -[bump_sentinel_child_delta hier_key] in *. fold (entry_key b p name).
  rewrite Eb. by eexists.
Qed.
Lemma unlink_effect :
  exists o, apply_unlink s b p name seq ts = Ok o
    /\ (view_ops Fs (ao_ops o) m = m /\ ((exists i, tree_of m b p name = Some (HDir i)) \/ m !! entry_key b p name = None)
        \/ view_ops Fs (ao_ops o) m = bump_view m (delete (entry_key b p name) m) b p (-1) ts /\ exists f, tree_of m b p name = Some (HFile f)).
Proof.
  destruct record_of as (r & Er & Hns & Hnone & Et). unfold apply_unlink. rewrite Er.
  destruct (capture_shape s b p name seq ts Hwf) as (cops & [[oi oc] ot] & Hcap & Hc1 & _); [apply Hname|].
  destruct r as [[f|d|d]|]; [|eexists; split; [done|]; left; cbn; eauto|by destruct (Hns d)|eexists; split; [done|]; left; cbn; split; [done|right; by apply Hnone]].
  cbv beta iota zeta. rewrite Hcap. cbv beta iota zeta. fold (entry_key b p name). destruct Hname as (Hb & Hp & _).
  destruct (bump_ok s b p (-1) ts (cops ++ [StoreOp_delete Fs (entry_key b p name)]) ino (proj1 Hwf) Hinv Hb Hp) as (bops & -> & Hv & _).
  eexists. split; [done|]. right. cbn [ao_ops]. split; [by rewrite Hv, view_ops_app, (view_no_fs cops), view_delete1|]. rewrite Et. by exists f.
Qed.
End Effects.

(** ** The laws *)

Local Abbreviation fs st := (ms_view (hp_store st) Fs).
(** What the laws ask of a partition. [po_root], that the root's inode is not one still to
    be minted, is true of the child of a split, whose inodes carry a tag, and of a
    bootstrap partition once its counter, which starts at 0, is past [ROOT_INO]; by then
    [po_linked] may be lost, since the second inode it mints is the root's
    ([fresh_partition_aliases_root]). *)
Record part_ok (n : nat) (st : HierPart) : Prop := {
  po_store : store_wf (hp_store st);
  po_inv : hier_inv (fs st) (hp_ino st);
  po_size : Z.of_nat (size (fs st)) + Z.of_nat n < 2 ^ 64 - 1;
  po_tag : ia_tag (hp_ino st) < 2 ^ 16;
  po_next : ia_next (hp_ino st) + Z.of_nat n <= 2 ^ 48;
  po_root : ~ future (hp_ino st) ROOT_INO;
  po_linked b : linked (tree_of (fs st) b);
  po_dirs b p name i : tree_of (fs st) b p name = Some (HDir i) -> is_u64 i /\ ~ future (hp_ino st) i }.

Lemma part_mints n st : part_ok (S n) st -> is_Some (compose_ino (ia_tag (hp_ino st)) (ia_next (hp_ino st))).
Proof.
  intros [_ Hinv _ Ht Hn _ _ _]. destruct (hi_ino _ _ Hinv) as [Hu H0]. rewrite compose_ino_spec by (done || apply Hu).
  destruct (Z.ltb_spec (ia_tag (hp_ino st)) (2 ^ 16)); [|lia]. destruct (Z.ltb_spec (ia_next (hp_ino st)) (2 ^ 48)); [by eexists|lia].
Qed.
Lemma part_dir_at n st b p name : part_ok n st -> name_ok b name -> dir_in (tree_of (fs st) b) p ->
  part_name b p name /\ dir_at (hp_ino st) b p name.
Proof.
  intros Hok (Hb & Hn & Hne) Hd.
  assert (is_u64 p /\ ~ future (hp_ino st) p) as [Hp Hf].
  { destruct Hd as [->|(q & m & E)]; [|by eapply (po_dirs _ _ Hok)]. split; [by vm_compute|apply (po_root _ _ Hok)]. }
  split; (split; [exact Hb|]); (split; [exact Hp|]); by split.
Qed.
(** The counter after an operation. *)
Definition moved (ino ino' : InoAllocator) : Prop := ino' = ino \/ exists j, mint ino = Ok (j, ino').
Lemma moved_future n st ino' : part_ok (S n) st -> moved (hp_ino st) ino' ->
  (forall i, future ino' i -> future (hp_ino st) i) /\ ia_tag ino' = ia_tag (hp_ino st) /\ ia_next ino' <= ia_next (hp_ino st) + 1.
Proof.
  intros Hok [->|[j E]]; [split; [done|]; split; [done|lia]|]. pose proof (part_mints _ _ Hok) as Hc. destruct (hi_ino _ _ (po_inv _ _ Hok)) as [Hu H0].
  destruct (mint_ok _ Hc Hu H0) as (i & ino'' & E' & _ & _ & _ & Hmono & _). rewrite E in E'. injection E' as -> ->. split; [done|].
  unfold mint in E. destruct Hc as [x Ex]. rewrite Ex in E. cbn in E. injection E as _ <-. cbn. split; [done|]. unfold wrap.
  unfold uint in Hu. pose proof (Z.mod_le (ia_next (hp_ino st) + 1) (2 ^ 64)). lia.
Qed.
(** One applied operation. *)
Lemma part_step n st op o ino' : part_ok (S n) st -> hier_op_ok (hp_ino st) op ->
  hier_apply (hp_store st) op (hp_seq st) (hp_ino st) = Ok (o, ino') -> moved (hp_ino st) ino' ->
  let m' := view_ops Fs (ao_ops o) (fs st) in
  (size m' <= S (size (fs st)))%nat -> (forall b, linked (tree_of m' b)) ->
  (forall b p name i, tree_of m' b p name = Some (HDir i) -> is_u64 i /\ ~ future ino' i) ->
  exists st', part_apply op st = (st', Ok (ao_response o)) /\ fs st' = m' /\ hp_ino st' = ino' /\ part_ok n st'.
Proof.
  intros Hok Hop E Hmv m' Hsz Hl Hd. destruct (moved_future n st ino' Hok Hmv) as (Hfut & Et & En). pose proof Hok as [Hwf Hinv Hs Ht Hn Hr _ _].
  destruct (hier_apply_ok (hp_store st) op (hp_seq st) (hp_ino st)) as (o1 & i1 & s' & E1 & Es & Ho & Hk & Hi); [apply Hwf|apply Hwf|done| |done| |].
  { unfold few_entries. lia. }
  { by eapply part_mints. }
  rewrite E in E1. injection E1 as <- <-. destruct (ms_apply_ok (hp_store st) (ao_ops o) (proj1 Hwf)) as (s1 & Es1 & _ & Hv).
  rewrite Es in Es1. injection Es1 as <-. unfold part_apply. rewrite E, Es. eexists. split; [done|]. cbn. rewrite (Hv Fs). split; [done|].
  split; [done|]. constructor; cbn; rewrite ?(Hv Fs); fold m'; [done|by rewrite Hv in Hi|lia|lia|lia| |done|done]. intros Hx. by apply Hr, Hfut.
Qed.

Lemma linked_ext (e e' : Z -> bytes -> option HierNode) : (forall p name, e' p name = e p name) -> linked e -> linked e'.
Proof. intros E [H1 H2]. split; [intros p name; rewrite E; apply H1|]. intros p name p' name' i. rewrite !E. apply H2. Qed.
Lemma linked_set (e : Z -> bytes -> option HierNode) p name v : linked e -> (forall i, v = Some (HDir i) -> unlinked e i) -> linked (tree_set e p name v).
Proof.
  intros [H1 H2] Hv. split.
  - intros q n. unfold tree_set. case_decide; [|apply H1]. intros E. by destruct (Hv _ E) as [? _].
  - intros q n q' n' i. unfold tree_set. repeat case_decide; simplify_eq; intros Eq Eq'; [done| | |by eapply H2].
    + destruct (Hv _ Eq) as (_ & _ & Hu). by apply Hu in Eq'.
    + destruct (Hv _ Eq') as (_ & _ & Hu). by apply Hu in Eq.
Qed.
(** One entry changed: the tree stays a tree. *)
Lemma step_trees n st m' ino' b p name o : part_ok n st -> (forall i, future ino' i -> future (hp_ino st) i) ->
  part_name b p name -> one_entry (fs st) m' b p name o ->
  (forall i, value_node o = Some (HDir i) -> unlinked (tree_of (fs st) b) i /\ is_u64 i /\ ~ future ino' i) ->
  (forall b, linked (tree_of m' b)) /\ forall b p name i, tree_of m' b p name = Some (HDir i) -> is_u64 i /\ ~ future ino' i.
Proof.
  intros Hok Hf Hn He Hv. destruct (tree_of_set _ _ _ _ _ _ Hn He) as [Hs Ho]. split.
  - intros b'. destruct (decide (b' = b)) as [->|Hb].
    + eapply linked_ext; [exact Hs|]. apply linked_set; [apply (po_linked _ _ Hok)|]. intros i Hi. by apply Hv.
    + eapply linked_ext; [intros; by apply Ho|]. apply (po_linked _ _ Hok).
  - intros b' q n' i. assert (tree_of (fs st) b' q n' = Some (HDir i) -> is_u64 i /\ ~ future ino' i) as Hold.
    { intros E. destruct (po_dirs _ _ Hok _ _ _ _ E). split; [done|]. by intros ?%Hf. }
    destruct (decide (b' = b)) as [->|Hb]; [|by rewrite Ho]. rewrite Hs. unfold tree_set. case_decide; [|done]. intros E. by destruct (Hv i E).
Qed.
Lemma insert_one_entry (m : gmap bytes bytes) b p name delta ts v :
  one_entry m (bump_view m (<[entry_key b p name := v]> m) b p delta ts) b p name (Some v).
Proof. apply bump_one_entry. intros k. case_decide as E; [subst; by rewrite lookup_insert_eq|by rewrite lookup_insert_ne]. Qed.
Lemma insert_size (m : gmap bytes bytes) b p name delta ts v :
  (size (bump_view m (<[entry_key b p name := v]> m) b p delta ts) <= S (size m))%nat.
Proof.
  rewrite bump_size; [|intros x Hx; destruct (decide (entry_key b p name = sent_key b p)) as [->|]; [rewrite lookup_insert_eq; by eexists|]; rewrite lookup_insert_ne by done; by eexists].
  destruct (m !! entry_key b p name) eqn:E; [rewrite map_size_insert_Some by (by eexists); lia|rewrite map_size_insert_None by done; lia].
Qed.
(** An entry is put. *)
Lemma part_put n st op o ino' b p name r delta ts : part_ok (S n) st -> hier_op_ok (hp_ino st) op -> part_name b p name ->
  hier_apply (hp_store st) op (hp_seq st) (hp_ino st) = Ok (o, ino') -> moved (hp_ino st) ino' ->
  view_ops Fs (ao_ops o) (fs st) = bump_view (fs st) (<[entry_key b p name := to_vec r]> (fs st)) b p delta ts ->
  (forall i, record_node r = Some (HDir i) -> unlinked (tree_of (fs st) b) i /\ is_u64 i /\ ~ future ino' i) ->
  exists st', part_apply op st = (st', Ok (ao_response o)) /\ part_ok n st'
    /\ forall q m, tree_of (fs st') b q m = tree_set (tree_of (fs st) b) p name (record_node r) q m.
Proof.
  intros Hok Hop Hn E Hmv Hv Hr. destruct (moved_future n st ino' Hok Hmv) as (Hf & _).
  assert (value_node (Some (to_vec r)) = record_node r) as Hval by (unfold value_node; cbn; by rewrite from_to).
  pose proof (insert_one_entry (fs st) b p name delta ts (to_vec r)) as Hone.
  destruct (step_trees _ st _ ino' b p name _ Hok Hf Hn Hone) as [Hl Hd]; [by rewrite Hval|].
  destruct (part_step n st op o ino' Hok Hop E Hmv) as (st' & E' & Hfs & _ & Hok'); rewrite ?Hv; [apply insert_size|done|done|].
  exists st'. split; [done|]. split; [done|]. rewrite Hfs, Hv, <- Hval. by apply tree_of_set.
Qed.
Lemma delete_one_entry (m : gmap bytes bytes) b p name delta ts :
  one_entry m (bump_view m (delete (entry_key b p name) m) b p delta ts) b p name None.
Proof. apply bump_one_entry. intros k. case_decide as E; [subst; by rewrite lookup_delete_eq|by rewrite lookup_delete_ne]. Qed.
Lemma delete_size (m : gmap bytes bytes) b p name delta ts : name <> [] ->
  (size (bump_view m (delete (entry_key b p name) m) b p delta ts) <= S (size m))%nat.
Proof.
  intros Hn. rewrite bump_size.
  - pose proof (map_subseteq_size _ _ (delete_subseteq m (entry_key b p name))). lia.
  - intros v Hv. rewrite lookup_delete_ne; [by eexists|by apply entry_key_ne_sent].
Qed.
(** Nothing of the tree changes. *)
Lemma part_keep n st op o ino' : part_ok (S n) st -> hier_op_ok (hp_ino st) op ->
  hier_apply (hp_store st) op (hp_seq st) (hp_ino st) = Ok (o, ino') -> moved (hp_ino st) ino' ->
  (size (view_ops Fs (ao_ops o) (fs st)) <= S (size (fs st)))%nat ->
  (forall b p name, name <> [] -> view_ops Fs (ao_ops o) (fs st) !! entry_key b p name = fs st !! entry_key b p name) ->
  exists st', part_apply op st = (st', Ok (ao_response o)) /\ part_ok n st' /\ hp_ino st' = ino'
    /\ forall b p name, tree_of (fs st') b p name = tree_of (fs st) b p name.
Proof.
  intros Hok Hop E Hmv Hsz Hv. destruct (moved_future n st ino' Hok Hmv) as (Hf & _).
  assert (forall b p name, tree_of (view_ops Fs (ao_ops o) (fs st)) b p name = tree_of (fs st) b p name) as Ht by (intros; by apply tree_of_ext).
  destruct (part_step n st op o ino' Hok Hop E Hmv Hsz) as (st' & E' & Hfs & Hi & Hok').
  - intros b. eapply linked_ext; [intros; apply Ht|]. apply (po_linked _ _ Hok).
  - intros b p name i. rewrite Ht. intros Hd. destruct (po_dirs _ _ Hok _ _ _ _ Hd). split; [done|]. by intros ?%Hf.
  - exists st'. split; [done|]. split; [done|]. split; [done|]. by rewrite Hfs.
Qed.
Lemma part_unlink n st b p name ts : part_ok (S n) st -> part_name b p name -> dir_at (hp_ino st) b p name ->
  exists st' r, part_apply (HUnlink b p name ts) st = (st', Ok r) /\ part_ok n st'
    /\ forall q m, tree_of (fs st') b q m
         = match tree_of (fs st) b p name with Some (HDir _) => tree_of (fs st) b q m | _ => tree_set (tree_of (fs st) b) p name None q m end.
Proof.
  intros Hok Hn Hat. destruct (unlink_effect (hp_store st) (hp_ino st) b p name (hp_seq st) ts (po_store _ _ Hok) (po_inv _ _ Hok) Hn) as (o & E & Hcase).
  assert (hier_apply (hp_store st) (HUnlink b p name ts) (hp_seq st) (hp_ino st) = Ok (o, hp_ino st)) as Ea by (cbn; by rewrite E).
  destruct Hcase as [[Hv Hwhy]|[Hv [f Hfile]]].
  - destruct (part_keep n st (HUnlink b p name ts) o (hp_ino st) Hok Hat Ea) as (st' & E' & Hok' & _ & Ht); [by left|rewrite Hv; lia|by rewrite Hv|].
    exists st', (ao_response o). split; [done|]. split; [done|]. intros q m. rewrite Ht. destruct Hwhy as [[i ->]|Hnone]; [done|].
    assert (tree_of (fs st) b p name = None) as Hno by (unfold tree_of; rewrite decide_True, Hnone; done). rewrite Hno.
    unfold tree_set. case_decide as Eq; [by injection Eq as -> ->|done].
  - destruct (step_trees _ st _ (hp_ino st) b p name None Hok ltac:(done) Hn (delete_one_entry (fs st) b p name (-1) ts)) as [Hl Hd]; [done|].
    destruct (part_step n st (HUnlink b p name ts) o (hp_ino st) Hok Hat Ea) as (st' & E' & Hfs & _ & Hok'); rewrite ?Hv;
      [by left|apply delete_size, Hn|done|done|].
    exists st', (ao_response o). split; [done|]. split; [done|]. rewrite Hfs, Hv, Hfile. apply (tree_of_set _ _ _ _ _ None); [done|apply delete_one_entry].
Qed.
Lemma part_sentinel n st b p name ts : part_ok (S n) st -> is_u64 b ->
  exists st' i, part_apply (HMkdirSentinel b p name ts) st = (st', Ok (MintedIno i)) /\ part_ok n st'
    /\ (is_u64 i /\ ~ future (hp_ino st') i /\ unlinked (tree_of (fs st') b) i)
    /\ forall b p name, tree_of (fs st') b p name = tree_of (fs st) b p name.
Proof.
  intros Hok Hb. pose proof (part_mints _ _ Hok) as Hc. destruct (hi_ino _ _ (po_inv _ _ Hok)) as [Hu H0].
  destruct (mint_ok _ Hc Hu H0) as (i & ino' & Em & Hfi & Hi & Hnf & _).
  destruct (fresh_dir_empty _ _ b i (po_inv _ _ Hok) Hb Hfi) as [Hs _].
  assert (exists o, hier_apply (hp_store st) (HMkdirSentinel b p name ts) (hp_seq st) (hp_ino st) = Ok (o, ino') /\ ao_response o = MintedIno i
    /\ exists v, view_ops Fs (ao_ops o) (fs st) = <[sent_key b i := v]> (fs st)) as (o & Ea & Hr & v & Hv).
  { cbn [hier_apply]. unfold apply_mkdir_sentinel. rewrite Em. cbv beta iota zeta. rewrite ms_get_ok by apply (po_store _ _ Hok).
    fold (sent_key b i). rewrite Hs. eexists. split; [done|]. split; [done|]. eexists. cbn [ao_ops ApplyOutcome_no_delta]. by rewrite view_put1. }
  destruct (part_keep n st (HMkdirSentinel b p name ts) o ino' Hok Hb Ea) as (st' & E' & Hok' & Hino & Ht).
  - right. by exists i.
  - rewrite Hv, map_size_insert_None by done. lia.
  - intros b' q m Hm. rewrite Hv, lookup_insert_ne; [done|]. intros Ek. symmetry in Ek. by apply entry_key_ne_sent in Ek.
  - exists st', i. rewrite Hr in E'. split; [done|]. split; [done|]. split; [|done]. split; [done|]. split; [by rewrite Hino|].
    split; [intros ->; by apply (po_root _ _ Hok)|]. split.
    + intros m. rewrite Ht. unfold tree_of. case_decide; [|done]. destruct (fs st !! entry_key b i m) eqn:Ex; [|done].
      by destruct (hi_future _ _ (po_inv _ _ Hok) b i _ _ Hb Hfi Ex (entry_key_prefix b i m)).
    + intros q m. rewrite Ht. intros Hd. by destruct (po_dirs _ _ Hok _ _ _ _ Hd).
Qed.
Lemma part_less n st : part_ok (S n) st -> part_ok n st.
Proof. intros [H1 H2 H3 H4 H5 H6 H7 H8]. constructor; try done; lia. Qed.
Lemma part_lookup n st b p name : part_ok n st -> part_name b p name ->
  lookup_ (hp_store st) b p name = Ok (node_record <$> tree_of (fs st) b p name).
Proof.
  intros Hok Hn. destruct (record_of (hp_store st) (hp_ino st) b p name (po_store _ _ Hok) (po_inv _ _ Hok) Hn) as (r & E & Hns & _ & Et).
  unfold lookup_. rewrite E, Et. destruct r as [[f|[i]|d]|]; [done|done|by destruct (Hns d)|done].
Qed.

#[export] Instance PartitionLaws : HierLaws HierPart.
Proof.
  refine (Build_HierLaws HierPart PartitionHier part_ok (fun st => tree_of (fs st))
    (fun st b i => is_u64 i /\ ~ future (hp_ino st) i /\ unlinked (tree_of (fs st) b) i) _ _ _ _ _ _ _ _).
  - apply part_less.
  - intros n st b Hok. apply (po_linked _ _ Hok).
  - intros n st b i _ Hf. apply Hf.
  - intros n st b p name Hok Hn Hd. destruct (part_dir_at n st b p name Hok Hn Hd) as [Hpn _]. exists st. cbn [hm_lookup PartitionHier].
    by rewrite (part_lookup n).
  - intros n st b p name ts Hok (Hb & _) _. destruct (part_sentinel n st b p name ts Hok Hb) as (st' & i & E & Hok' & Hf & Ht).
    exists st', i. cbn [hm_mkdir_sentinel PartitionHier]. by rewrite E.
  - intros n st b p name i ts Hok Hn Hd Hnone (Hi & Hnf & Hu). destruct (part_dir_at _ st b p name Hok Hn Hd) as [Hpn Hat].
    destruct (link_effect (hp_store st) (hp_ino st) b p name ts (po_store _ _ Hok) (po_inv _ _ Hok) Hpn i Hnone) as (o & E & Hr & Hv).
    destruct (part_put n st (HMkdirLink b p name i ts) o (hp_ino st) b p name _ 1 ts Hok Hat Hpn ltac:(cbn; by rewrite E) ltac:(by left) Hv)
      as (st' & E' & Hok' & Ht); [by intros ? [= <-]|].
    exists st'. cbn [hm_mkdir_link PartitionHier]. rewrite E', Hr. done.
  - intros n st call Hok Hn Hd He Hsl Hnd. destruct (part_dir_at _ st _ _ _ Hok Hn Hd) as [Hpn Hat].
    destruct (write_effect (hp_store st) (hp_ino st) _ _ _ (hp_seq st) (hw_ts_millis call) (po_store _ _ Hok) (po_inv _ _ Hok) Hpn
      (hw_inline_data call) (hw_size call) (hw_etag call)
      (decode_http_meta (default "" (chm_content_type (hw_http call))) (default "" (chm_content_encoding (hw_http call)))
         (default "" (chm_cache_control (hw_http call))) (chm_user (hw_http call))))
      as (o & ino' & i & delta & E & Hr & Hv & Hmv); [by eapply part_mints| |].
    { unfold node_is_dir. destruct (tree_of _ _ _ _) as [[?|j]|] eqn:Et; [done| |done]. by destruct (Hnd j). }
    assert (hier_apply (hp_store st) (part_write_op call) (hp_seq st) (hp_ino st) = Ok (o, ino')) as Ea
      by (unfold part_write_op; rewrite Hsl; exact E).
    destruct (part_put n st (part_write_op call) o ino' _ _ _ _ _ _ Hok Hat Hpn Ea Hmv Hv ltac:(done)) as (st' & E' & Hok' & Ht).
    exists st'. eexists. cbn [hm_write PartitionHier]. unfold etag16. rewrite He. cbn [Nat.eqb]. rewrite E'. unfold part_map, part_reason. cbn. rewrite Hr.
    split; [done|]. split; [done|]. split; [|exact Ht]. unfold file_of, ClientHttpMeta_from_view, file_to_head_view, head_view, http_kept. cbn.
    by rewrite !non_empty_default, sorted_user_map.
  - intros n st b p name ts Hok Hn Hd. destruct (part_dir_at _ st b p name Hok Hn Hd) as [Hpn Hat].
    destruct (part_unlink n st b p name ts Hok Hpn Hat) as (st' & r & E & Hok' & Ht). exists st'. eexists. cbn [hm_unlink PartitionHier]. by rewrite E.
Defined.
End Partition.

(** *** A put into an empty bucket *)

#[local] Instance ex_hash : Md5 := {| md5 := fun b => take 16 (b ++ replicate 16 0); md5_length := ex_digest_length |}.
Definition ex_part : @HierPart mem_store := {| hp_store := (∅ : MemEngine); hp_ino := ex_ino; hp_seq := 0 |}.
Definition ex_path : bytes := [100; 47; 97].
Definition ex_path' : bytes := [47; 100; 47; 47; 97; 47].
Definition ex_headers : ClientHttpMeta :=
  {| chm_content_type := Some "text/plain"; chm_content_encoding := None; chm_cache_control := Some ""; chm_user := ∅ |}.

Lemma ex_part_ok : part_ok 4 ex_part.
Proof.
  assert (forall b p name, tree_of ∅ b p name = None) as He by (intros; unfold tree_of; by case_decide).
  constructor.
  - split; [exact I|]. intros cf k v Hk. discriminate Hk.
  - apply empty_hier_inv; [vm_compute; split; congruence|vm_compute; congruence].
  - vm_compute. reflexivity.
  - vm_compute. reflexivity.
  - vm_compute. congruence.
  - apply not_future; vm_compute; congruence.
  - intros b. split; intros *; cbn; by rewrite He.
  - intros *. cbn. by rewrite He.
Qed.
(** The object is read under another spelling of its path; its directory is no object. *)
Lemma hier_put_get_witness :
  exists st', s3_put ex_hbucket ex_path [1; 2; 3] 7 ex_headers ex_part = (st', Ok (object_etag [1; 2; 3]))
    /\ (s3_get ex_hbucket ex_path' st').2
       = Ok (Some {| ho_body := [1; 2; 3]; ho_etag := object_etag [1; 2; 3]; ho_size := 3; ho_http := http_kept ex_headers; ho_mtime := 7 |})
    /\ (s3_get ex_hbucket [100] st').2 = Ok None.
Proof.
  destruct (hier_put_get (St := HierPart) 0 ex_part ex_hbucket ex_path [1; 2; 3] 7 ex_headers [[100]] [97]) as (st' & _ & Hput).
  - exact ex_part_ok.
  - vm_compute. split; congruence.
  - apply (bool_decide_unpack _). vm_compute. exact I.
  - vm_compute. reflexivity.
  - assert (conflicts (hl_tree ex_part ex_hbucket) [[100]] [97] = false) as Hc by (vm_compute; reflexivity). rewrite Hc in Hput.
    destruct Hput as [Hput Hreads]. exists st'. split; [exact Hput|]. split.
    + apply Hreads; [apply (bool_decide_unpack _); vm_compute; exact I|vm_compute; congruence|vm_compute; reflexivity].
    + destruct (Hreads [100]) as [_ Hother]; [apply (bool_decide_unpack _); vm_compute; exact I|vm_compute; congruence|].
      rewrite Hother; [vm_compute; reflexivity|]. apply (bool_decide_unpack _). vm_compute. exact I.
Defined.

(** On a bootstrap partition the counter starts at 0 and the second inode it mints, here
    that of directory "a", is the root's: after "x" and "a/y" were put, the key "y", which
    nothing was put under, reads the object of "a/y". *)
Definition ex_bootstrap : @HierPart mem_store := {| hp_store := (∅ : MemEngine); hp_ino := {| ia_tag := 0; ia_next := 0 |}; hp_seq := 0 |}.
Theorem fresh_partition_aliases_root :
  let st := (s3_put ex_hbucket [120] [1] 1 ex_headers ex_bootstrap).1 in
  let st' := (s3_put ex_hbucket [97; 47; 121] [2; 3] 2 ex_headers st).1 in
  (s3_get ex_hbucket [121] st).2 = Ok None
  /\ (s3_get ex_hbucket [121] st').2
     = Ok (Some {| ho_body := [2; 3]; ho_etag := object_etag [2; 3]; ho_size := 2; ho_http := http_kept ex_headers; ho_mtime := 2 |})
  /\ tree_of (ms_view (hp_store st') Fs) ex_hbucket ROOT_INO [97] = Some (HDir ROOT_INO).
Proof. vm_compute. split_and!; reflexivity. Qed.

(** Two puts that make the same directory at once: each has seen no entry and minted an
    inode; the second link is rejected, although the directory it wanted is there. *)
Definition ex_race (i1 i2 : Z) :=
  let '(st, r1) := hm_mkdir_sentinel ex_hbucket ROOT_INO [100] 1 ex_part in
  let '(st, r2) := hm_mkdir_sentinel ex_hbucket ROOT_INO [100] 1 st in
  let '(st, r3) := hm_mkdir_link ex_hbucket ROOT_INO [100] i2 1 st in
  let '(st, r4) := hm_mkdir_link ex_hbucket ROOT_INO [100] i1 1 st in
  ((r1, r2), (r3, r4), tree_of (ms_view (hp_store st) Fs) ex_hbucket ROOT_INO [100]).
Theorem concurrent_mkdir_rejected :
  let i1 := ex_dir in let i2 := ex_dir + 1 in
  ex_race i1 i2 = ((Ok i1, Ok i2), (Ok None, Ok (Some "name already links another directory"%string)), Some (HDir i2)).
Proof. vm_compute. reflexivity. Qed.
