(* ===== verification/HttpS3.v ===== *)
(** The S3 operations of a gateway (epoch-gateway: http.rs, auth.rs, the error mapping
    of error.rs) over the object service and the directories of a hierarchical bucket:
    authorization, the dispatch by namespace, and the answers. *)

From S2P Require Import Prelude Ids EcLayout Erasure Bitrot EcPipeline Rocks PdDb Client WriterSession Gateway MetaStore MetaKeys MetaNs MetaFlat MetaHier MetaSm MetaGc MetaNode MetaClient GwList ObjectService S3Compat.

(** ** Errors, times and tags *)

(** The codes the gateway answers; messages are left out. *)
Inductive S3Error : Set :=
| S3NoSuchBucket | S3AccessDenied | S3InternalError | S3IncompleteBody | S3NoSuchKey | S3NotImplemented | S3InvalidArgument | S3InvalidPart
| S3NoSuchUpload | S3EntityTooLarge | S3ServiceUnavailable | S3InsufficientStorage | S3InvalidRange | S3InvalidAccessKeyId.
Definition to_s3_error `{RS : ReedSolomon} (e : GatewayError) : S3Error :=
  match e with
  | GE_AdmissionTooLarge _ _ => S3EntityTooLarge
  | GE_DirFileConflict => S3InvalidArgument
  | GE_NoWritableChunk => S3ServiceUnavailable
  | GE_OutOfSpace => S3InsufficientStorage
  | GE_RangeNotSatisfiable _ => S3InvalidRange
  | GE_Meta _ => S3ServiceUnavailable
  | _ => S3InternalError
  end.
(** Seconds and nanoseconds since the epoch. *)
Abbreviation Timestamp := (Z * Z)%type (only parsing).
Definition stored_ts (now : Timestamp) (millis : Z) : Timestamp :=
  if millis <=? 0 then now else (millis / 1000, millis mod 1000 * 1000000).
Definition user_metadata (stored : UserMeta) : option UserMeta := if decide (stored = ∅) then None else Some stored.
Definition is_hier (b : BucketInfo) : bool := match bki_ns_mode b with NsHier => true | _ => false end.
Definition MAX_PUT_BYTES : Z := Z.shiftl 5 30.

(** [char::to_digit(16)] of a byte *)
Definition to_digit16 (c : Z) : option Z :=
  if (48 <=? c) && (c <=? 57) then Some (c - 48)
  else if (97 <=? c) && (c <=? 102) then Some (c - 87)
  else if (65 <=? c) && (c <=? 70) then Some (c - 55)
  else None.
Fixpoint trim_start (q : Z) (s : bytes) : bytes := match s with c :: s' => if c =? q then trim_start q s' else s | [] => [] end.
Definition trim_matches (q : Z) (s : bytes) : bytes := rev (trim_start q (rev (trim_start q s))).
(** At most [fuel] pairs of digits. *)
Fixpoint etag_pairs (fuel : nat) (s : bytes) : bytes :=
  match fuel, s with
  | S fuel, a :: b :: s => match to_digit16 a, to_digit16 b with Some h, Some l => h * 16 + l :: etag_pairs fuel s | _, _ => [] end
  | _, _ => []
  end.
Definition render_etag_bytes (etag : bytes) : bytes := etag_pairs 16 (trim_matches 34 etag).

(** [u128::to_string] and [str::parse::<u128>] *)
Fixpoint decimal (fuel : nat) (n : Z) : bytes :=
  match fuel with
  | O => []
  | S fuel => if n <? 10 then [48 + n] else decimal fuel (n / 10) ++ [48 + n mod 10]
  end.
Definition encode_upload_id (id : Z) : bytes := decimal 39 id.
Fixpoint parse_digits (acc : Z) (s : bytes) : option Z :=
  match s with
  | [] => Some acc
  | c :: s =>
      if (48 <=? c) && (c <=? 57)
      then let acc := acc * 10 + (c - 48) in if acc <? 2 ^ 128 then parse_digits acc s else None
      else None
  end.
Definition s3_decode_upload_id (s : bytes) : result S3Error Z :=
  match s with
  | [] => Err S3NoSuchUpload
  | c :: rest =>
      let digits := if c =? 43 then rest else s in
      match digits with [] => Err S3NoSuchUpload | _ => ok_or (parse_digits 0 digits) S3NoSuchUpload end
  end.

(** ** Answers *)

Record GetAnswer : Set := {
  ga_body : bytes; ga_content_length : Z; ga_content_range : option (ByteRange * Z); ga_etag : string; ga_last_modified : Timestamp;
  ga_content_type : option string; ga_content_encoding : option string; ga_cache_control : option string; ga_metadata : option UserMeta;
  ga_partial : bool }.
Record HeadAnswer : Set := {
  ha_content_length : Z; ha_etag : string; ha_last_modified : Timestamp; ha_content_type : option string; ha_content_encoding : option string;
  ha_cache_control : option string; ha_metadata : option UserMeta }.
(** A row's key, size, tag and time. *)
Record ListedObject : Set := { lo_key : bytes; lo_size : option Z; lo_etag : option string; lo_last_modified : Timestamp }.
Record ListAnswer : Set := {
  la_contents : list ListedObject; la_common_prefixes : list bytes; la_key_count : Z; la_max_keys : Z; la_truncated : bool; la_next_token : option bytes }.
Record DeletesAnswer : Set := { da_deleted : option (list bytes); da_errors : option (list bytes) }.

(** [String::from_utf8_lossy]: the continuation bytes a first byte asks for, with the
    bounds of the second byte; every maximal ill-formed piece becomes U+FFFD. *)
Definition utf8_width (b : Z) : option (nat * Z * Z) :=
  if b <? 128 then Some (0%nat, 0, 0)
  else if (194 <=? b) && (b <=? 223) then Some (1%nat, 128, 191)
  else if b =? 224 then Some (2%nat, 160, 191)
  else if b =? 237 then Some (2%nat, 128, 159)
  else if (225 <=? b) && (b <=? 239) then Some (2%nat, 128, 191)
  else if b =? 240 then Some (3%nat, 144, 191)
  else if (241 <=? b) && (b <=? 243) then Some (3%nat, 128, 191)
  else if b =? 244 then Some (3%nat, 128, 143)
  else None.
Fixpoint good_tail (n : nat) (lo hi : Z) (s : bytes) : nat :=
  match n, s with
  | S n, c :: s => if (lo <=? c) && (c <=? hi) then S (good_tail n 128 191 s) else 0%nat
  | _, _ => 0%nat
  end.
Fixpoint utf8_lossy (fuel : nat) (s : bytes) : bytes :=
  match fuel, s with
  | S fuel, b :: rest =>
      match utf8_width b with
      | None => 239 :: 191 :: 189 :: utf8_lossy fuel rest
      | Some (n, lo, hi) =>
          let good := good_tail n lo hi rest in
          (if decide (good = n) then b :: take n rest else [239; 191; 189]) ++ utf8_lossy fuel (drop good rest)
      end
  | _, _ => []
  end.
Definition from_utf8_lossy (s : bytes) : bytes := utf8_lossy (length s) s.

(** The batches of a flat listing ([list_flat] of GwList.v) over calls that change the
    caches of the caller. *)
Section Batches.
Context {St Entry Error : Type} (list_objects : bytes -> St -> St * result Error (list (bytes * Entry))) (prefix delimiter : bytes) (limit : nat).
Fixpoint batches_st (fuel : nat) (cursor : bytes) (rows : list (ListRow Entry)) (next_token : option bytes) (st : St)
    : St * result Error (@ListPage Entry) :=
  match fuel with
  | O => (st, Ok {| lp_rows := rows; lp_next_token := next_token |})
  | S fuel =>
      let remaining := (limit - length rows)%nat in
      match list_objects cursor st with
      | (st, Err e) => (st, Err e)
      | (st, Ok []) => (st, Ok {| lp_rows := rows; lp_next_token := None |})
      | (st, Ok entries) =>
          let batch_exhausted := (length entries <? limit)%nat in
          let keys := entries.*1 in
          let folded := fold keys prefix delimiter remaining in
          let rows := rows ++ omap (attach entries) (fd_rows folded) in
          let cursor := default (default [] (last keys)) (fd_resume_after folded) in
          if (limit <=? length rows)%nat then (st, Ok {| lp_rows := rows; lp_next_token := Some cursor |})
          else if batch_exhausted then (st, Ok {| lp_rows := rows; lp_next_token := None |})
          else batches_st fuel cursor rows (Some cursor) st
      end
  end.
(** When the answers do not depend on the caches this is the listing of GwList.v. *)
Lemma batches_st_pure (P : St -> Prop) (f : bytes -> result Error (list (bytes * Entry))) :
  (forall cursor st, P st -> P (list_objects cursor st).1 /\ (list_objects cursor st).2 = f cursor) ->
  forall fuel cursor rows next st, P st ->
  P (batches_st fuel cursor rows next st).1
  /\ (batches_st fuel cursor rows next st).2 = list_batches fuel f prefix delimiter limit cursor rows next.
Proof.
  intros Hf fuel. induction fuel as [|fuel IH]; intros cursor rows next st Hst; cbn; [done|].
  destruct (Hf cursor st Hst) as [H1 H2]. destruct (list_objects cursor st) as [st1 r]. cbn in H1, H2. rewrite <- H2.
  destruct r as [entries|e]; [|done]. destruct entries as [|x entries]; [done|]. case_match; [done|]. case_match; [done|]. by apply IH.
Qed.
End Batches.

(** ** The backend *)

Section Http.
Context `{RS : ReedSolomon} `{B3 : Blake3} `{Md5} {SocketAddr : Set} (parse_addr : string -> option SocketAddr).
Context `{MetaSerde} {MS : MetaStore} (blake3 : bytes -> bytes) {LogId Membership : Set} `{!SmSerde LogId Membership}.
Context (rvs : string -> Z -> RaftView (LogId := LogId))
  (get_route : PbNsMode -> Z -> bytes -> result ClientError (option MetaPartitionView)) (valid_endpoint : string -> bool).
Context (w : GwWorld) (cfg : GwConfig) (total_units : Z) (read : NodeId -> ShardId -> BlobId -> option (list Z)).

Record Backend : Type := { be_objects : @Service SocketAddr MS; be_buckets : gmap string BucketInfo; be_creds : gmap string CachedCredential }.
(** What the placement driver answers when the caches ask it, and the clock, at each
    use within one request. *)
Record Moment : Set := {
  mo_credentials : result ClientError (list CredentialView); mo_buckets : result ClientError (list BucketView); mo_millis : Z; mo_now : Timestamp }.
Context (at_ : nat -> Moment).

Definition B (A : Type) : Type := Backend -> Backend * result S3Error A.
Definition bret {A : Type} (a : A) : B A := fun be => (be, Ok a).
Definition bfail {A : Type} (e : S3Error) : B A := fun be => (be, Err e).
Definition bbind {A C : Type} (m : B A) (k : A -> B C) : B C := fun be => match m be with (be, Ok a) => k a be | (be, Err e) => (be, Err e) end.
Notation "x <-- m ;; k" := (bbind m (fun x => k)) (at level 100, m at next level, k at level 200, right associativity).
Definition pure {A : Type} (r : result S3Error A) : B A := fun be => (be, r).
Definition with_objects (be : Backend) (s : Service) : Backend := {| be_objects := s; be_buckets := be_buckets be; be_creds := be_creds be |}.

(** A call of the object service, of the path translation, of the metadata client;
    [map_err(to_s3_error)] of its error. *)
Definition s3_map_err {A : Type} (r : result GatewayError A) : result S3Error A := match r with Ok a => Ok a | Err e => Err (to_s3_error e) end.
Definition on_service {A : Type} (f : @Service SocketAddr MS -> @Service SocketAddr MS * result GatewayError A) : B A :=
  fun be => let '(s, r) := f (be_objects be) in (with_objects be s, s3_map_err r).
Definition hier_call {A : Type} (f : HierMeta (gmap string (@MetaNode MS) * Routes) -> G (St := gmap string (@MetaNode MS) * Routes) A)
    (s : @Service SocketAddr MS) : @Service SocketAddr MS * result GatewayError A :=
  let '(st, r) := f (ClusterHier (Membership := Membership) blake3 rvs (fun _ => get_route) valid_endpoint) (os_cluster s, os_routes s) in
  (with_meta s st.1 st.2, r).
Definition meta_call {A : Type} (f : gmap string (@MetaNode MS) -> Routes -> gmap string (@MetaNode MS) * Routes * result ClientError A)
    (s : @Service SocketAddr MS) : @Service SocketAddr MS * result GatewayError A :=
  let '(cluster, routes, r) := f (os_cluster s) (os_routes s) in
  (with_meta s cluster routes, match r with Ok a => Ok a | Err _ => meta_error end).

(** ** Authorization *)

Definition s3_authorize (now : Moment) (creds : option string) (bucket : string) : B unit :=
  match creds with
  | None => bfail S3AccessDenied
  | Some access_key => fun be =>
      let '(c, r) := CredentialCache_resolve (mo_credentials now) (be_creds be) access_key in
      ({| be_objects := be_objects be; be_buckets := be_buckets be; be_creds := c |},
       match r with
       | Ok (Some cred) => if CachedCredential_allows_bucket cred bucket then Ok tt else Err S3AccessDenied
       | Ok None => Err S3AccessDenied
       | Err _ => Err S3InternalError
       end)
  end.
Definition s3_bucket (now : Moment) (creds : option string) (name : string) : B BucketInfo :=
  _ <-- s3_authorize now creds name ;;
  fun be =>
    let '(c, r) := BucketCache_resolve (mo_buckets now) (be_buckets be) name in
    ({| be_objects := be_objects be; be_buckets := c; be_creds := be_creds be |},
     match r with Ok info => Ok info | Err (CE_NotFound _) => Err S3NoSuchBucket | Err _ => Err S3InternalError end).
(** The lookup of SigV4 verification (auth.rs). *)
Definition get_secret_key (now : Moment) (access_key : string) : B string := fun be =>
  let '(c, r) := CredentialCache_resolve (mo_credentials now) (be_creds be) access_key in
  ({| be_objects := be_objects be; be_buckets := be_buckets be; be_creds := c |},
   match r with Ok (Some cred) => Ok (cc_secret_key cred) | Ok None => Err S3InvalidAccessKeyId | Err _ => Err S3InternalError end).

(** ** Objects *)

(** A request body: absent, broken off, or its bytes. *)
Abbreviation ReqBody := (option (option bytes)) (only parsing).
Definition store_all_limited (body : ReqBody) : result S3Error bytes :=
  match body with
  | None => Ok []
  | Some None => Err S3IncompleteBody
  | Some (Some b) => if len b <=? MAX_PUT_BYTES then Ok b else Err S3IncompleteBody
  end.
Definition s3_put_object (creds : option string) (bucket : string) (key : bytes) (body : ReqBody) (http : ClientHttpMeta) : B string :=
  info <-- s3_bucket (at_ 0) creds bucket ;;
  body <-- pure (store_all_limited body) ;;
  etag <-- (if is_hier info
            then on_service (hier_call (fun HM => s3_put (HM := HM) (bki_bucket_id info) key body (mo_millis (at_ 0)) http))
            else on_service (fun s => service_put_object (Membership := Membership) parse_addr blake3 rvs get_route valid_endpoint w cfg total_units s
                               (bki_bucket_id info) key body (bki_inline_threshold info) (mo_millis (at_ 0)) http)) ;;
  bret (hex_string etag).
(** The answer to a read, from either namespace. *)
Definition get_answer_of (body : bytes) (window : option ByteRange) (size : Z) (etag : bytes) (mtime : Z) (http : ClientHttpMeta) : GetAnswer := {|
  ga_body := body; ga_content_length := u64_to_i64 (match window with Some win => byte_count win | None => size end);
  ga_content_range := (fun win => (win, size)) <$> window; ga_etag := hex_string etag; ga_last_modified := stored_ts (mo_now (at_ 0)) mtime;
  ga_content_type := chm_content_type http; ga_content_encoding := chm_content_encoding http; ga_cache_control := chm_cache_control http;
  ga_metadata := user_metadata (chm_user http); ga_partial := bool_decide (is_Some window) |}.
Definition hier_window (obj : HierObject) (range : option S3Range) : result GatewayError (option ByteRange) :=
  match range with
  | None => Ok None
  | Some range =>
      let spec := RangeSpec_from range in
      match resolve (ho_size obj) (rsp_first spec) (rsp_last spec) (rsp_suffix spec) with
      | Ok win => Ok (Some win)
      | Err _ => Err (GE_RangeNotSatisfiable (ho_size obj))
      end
  end.
Definition hier_answer (obj : HierObject) (range : option S3Range) : result GatewayError GetAnswer :=
  window <-? hier_window obj range ;;
  body <-? match window with
           | Some win => ok_or (get_range (br_start win) (br_end win + 1) (ho_body obj)) (GE_RangeNotSatisfiable (ho_size obj))
           | None => Ok (ho_body obj)
           end ;;
  Ok (get_answer_of body window (ho_size obj) (ho_etag obj) (ho_mtime obj) (ho_http obj)).
Definition s3_get_object (creds : option string) (bucket : string) (key : bytes) (range : option S3Range) : B GetAnswer :=
  info <-- s3_bucket (at_ 0) creds bucket ;;
  if is_hier info
  then obj <-- on_service (hier_call (fun HM => s3_get (HM := HM) (bki_bucket_id info) key)) ;;
       match obj with None => bfail S3NoSuchKey | Some obj => pure (s3_map_err (hier_answer obj range)) end
  else fetched <-- on_service (fun s => let '(s, _, r) := service_fetch parse_addr rvs get_route valid_endpoint w cfg read s (bki_bucket_id info) key
                                                            (RangeSpec_from <$> range) in (s, r)) ;;
       match fetched with
       | None => bfail S3NoSuchKey
       | Some f => bret (get_answer_of (fo_body f) (fo_range f) (fo_size f) (fo_etag f) (fo_mtime f) (fo_http f))
       end.
Definition s3_head_object (creds : option string) (bucket : string) (key : bytes) : B HeadAnswer :=
  info <-- s3_bucket (at_ 0) creds bucket ;;
  head <-- (if is_hier info
            then on_service (hier_call (fun HM => s3_head (HM := HM) (bki_bucket_id info) key))
            else on_service (meta_call (fun cluster routes => client_head_object rvs (fun _ => get_route) valid_endpoint cluster routes (bki_bucket_id info) key))) ;;
  match head with
  | None => bfail S3NoSuchKey
  | Some head =>
      let http := ClientHttpMeta_from_view head in
      bret {| ha_content_length := u64_to_i64 (hv_size head); ha_etag := hex_string (hv_etag head);
              ha_last_modified := stored_ts (mo_now (at_ 0)) (hv_mtime head); ha_content_type := chm_content_type http;
              ha_content_encoding := chm_content_encoding http; ha_cache_control := chm_cache_control http;
              ha_metadata := user_metadata (chm_user http) |}
  end.
(** One key of either namespace. *)
Definition delete_key (info : BucketInfo) (key : bytes) (ts_millis : Z) (s : @Service SocketAddr MS) : @Service SocketAddr MS * result GatewayError unit :=
  if is_hier info then hier_call (fun HM => s3_delete (HM := HM) (bki_bucket_id info) key ts_millis) s
  else service_delete_object (Membership := Membership) blake3 rvs get_route valid_endpoint s (bki_bucket_id info) key ts_millis.
Definition s3_delete_object (creds : option string) (bucket : string) (key : bytes) : B unit :=
  info <-- s3_bucket (at_ 0) creds bucket ;;
  on_service (delete_key info key (mo_millis (at_ 0))).
Fixpoint delete_loop (info : BucketInfo) (quiet : bool) (ts_millis : Z) (keys deleted errors : list bytes) (s : @Service SocketAddr MS)
    : @Service SocketAddr MS * (list bytes * list bytes) :=
  match keys with
  | [] => (s, (deleted, errors))
  | key :: keys =>
      match delete_key info key ts_millis s with
      | (s, Ok _) => delete_loop info quiet ts_millis keys (if quiet then deleted else deleted ++ [key]) errors s
      | (s, Err _) => delete_loop info quiet ts_millis keys deleted (errors ++ [key]) s
      end
  end.
Definition then_some {A} (l : list A) : option (list A) := match l with [] => None | _ => Some l end.
Definition s3_delete_objects (creds : option string) (bucket : string) (quiet : option bool) (keys : list bytes) : B DeletesAnswer :=
  info <-- s3_bucket (at_ 0) creds bucket ;;
  r <-- on_service (fun s => let '(s, r) := delete_loop info (default false quiet) (mo_millis (at_ 0)) keys [] [] s in (s, Ok r)) ;;
  bret {| da_deleted := then_some r.1; da_errors := then_some r.2 |}.
(** [None]: a copy source that is no bucket and key. *)
Definition s3_copy_object (creds : option string) (source : option (string * bytes)) (bucket : string) (key : bytes) : B (string * Timestamp) :=
  match source with
  | None => bfail S3NotImplemented
  | Some (src_bucket, src_key) =>
      src <-- s3_bucket (at_ 0) creds src_bucket ;;
      dst <-- s3_bucket (at_ 1) creds bucket ;;
      if is_hier src || is_hier dst then bfail S3NotImplemented
      else
        r <-- on_service (fun s => service_copy_object (Membership := Membership) parse_addr blake3 rvs get_route valid_endpoint w cfg total_units read s
                                     (bki_bucket_id src) src_key (bki_bucket_id dst) key (bki_inline_threshold dst) (mo_millis (at_ 1))) ;;
        match r with None => bfail S3NoSuchKey | Some etag => bret (hex_string etag, mo_now (at_ 1)) end
  end.
Definition s3_head_bucket (creds : option string) (bucket : string) : B unit :=
  _ <-- s3_bucket (at_ 0) creds bucket ;; bret tt.

(** ** Listings *)

Definition s3_limit (max_keys : option Z) : Z := Z.min (Z.max (default 1000 max_keys) 1) 1000.
Definition list_flat_call (bucket_id : Z) (prefix delimiter start_after : bytes) (limit : Z) (s : @Service SocketAddr MS)
    : @Service SocketAddr MS * result GatewayError (@ListPage (option ObjectHeadView)) :=
  batches_st (fun cursor => meta_call (fun cluster routes =>
      let '(cluster, routes, r) := client_list_objects rvs (fun _ => get_route) valid_endpoint cluster routes bucket_id prefix cursor limit in
      (cluster, routes, entries <-? r ;; Ok ((fun e => (e.1, Some e.2)) <$> entries))))
    prefix delimiter (Z.to_nat limit) MAX_BATCHES start_after [] None s.
Definition listed_object (row : ListRow (option ObjectHeadView)) : option ListedObject :=
  match row with
  | LObject (key, head) =>
      Some {| lo_key := from_utf8_lossy key; lo_size := (fun h => u64_to_i64 (hv_size h)) <$> head; lo_etag := (fun h => hex_string (hv_etag h)) <$> head;
              lo_last_modified := match head with Some h => stored_ts (mo_now (at_ 0)) (hv_mtime h) | None => mo_now (at_ 0) end |}
  | LPrefix _ => None
  end.
Definition listed_prefix (row : ListRow (option ObjectHeadView)) : option bytes :=
  match row with LPrefix p => Some (from_utf8_lossy p) | LObject _ => None end.
Definition list_answer (limit : Z) (page : @ListPage (option ObjectHeadView)) : ListAnswer :=
  let contents := omap listed_object (lp_rows page) in
  let common := omap listed_prefix (lp_rows page) in
  {| la_contents := contents; la_common_prefixes := common; la_key_count := len contents + len common; la_max_keys := limit;
     la_truncated := bool_decide (is_Some (lp_next_token page)); la_next_token := from_utf8_lossy <$> lp_next_token page |}.
Definition s3_list_objects_v2 (creds : option string) (bucket : string) (prefix delimiter continuation_token start_after : option bytes)
    (max_keys : option Z) : B ListAnswer :=
  info <-- s3_bucket (at_ 0) creds bucket ;;
  let prefix := default [] prefix in
  let delimiter := default [] delimiter in
  let start_after := default [] (match continuation_token with Some token => Some token | None => start_after end) in
  let limit := s3_limit max_keys in
  page <-- (if is_hier info
            then on_service (hier_call (fun HM => s3_list (HM := HM) (bki_bucket_id info) prefix start_after limit))
            else on_service (list_flat_call (bki_bucket_id info) prefix delimiter start_after limit)) ;;
  bret (list_answer limit page).

(** ** Multipart uploads *)

Definition reject_hier_multipart (info : BucketInfo) : result S3Error unit := if is_hier info then Err S3NotImplemented else Ok tt.
(** The upload id is the clock. *)
Definition s3_create_multipart_upload (creds : option string) (bucket : string) (key : bytes) : B bytes :=
  info <-- s3_bucket (at_ 0) creds bucket ;;
  _ <-- pure (reject_hier_multipart info) ;;
  let upload_id := mo_millis (at_ 0) mod 2 ^ 128 in
  _ <-- on_service (fun s => service_create_multipart (Membership := Membership) blake3 rvs get_route valid_endpoint s (bki_bucket_id info) key
                               upload_id (mo_millis (at_ 1))) ;;
  bret (encode_upload_id upload_id).
Definition s3_upload_part (creds : option string) (bucket : string) (key upload_id : bytes) (part_number : Z) (body : ReqBody) : B string :=
  info <-- s3_bucket (at_ 0) creds bucket ;;
  _ <-- pure (reject_hier_multipart info) ;;
  upload_id <-- pure (s3_decode_upload_id upload_id) ;;
  part_no <-- pure (if part_number <? 0 then Err S3InvalidArgument else Ok part_number) ;;
  body <-- pure (store_all_limited body) ;;
  etag <-- on_service (fun s => service_put_part (Membership := Membership) parse_addr blake3 rvs get_route valid_endpoint w cfg total_units s
                                  (bki_bucket_id info) key upload_id part_no body (mo_millis (at_ 0))) ;;
  bret (hex_string etag).
(** A listed part: number and tag, as far as the client gave them. *)
Fixpoint part_refs (parts : list (option Z * option bytes)) : result S3Error (list (Z * bytes)) :=
  match parts with
  | [] => Ok []
  | (number, etag) :: parts =>
      part_no <-? match number with Some n => if n <? 0 then Err S3InvalidPart else Ok n | None => Err S3InvalidPart end ;;
      rest <-? part_refs parts ;;
      Ok ((part_no, default [] (render_etag_bytes <$> etag)) :: rest)
  end.
Definition s3_complete_multipart_upload (creds : option string) (bucket : string) (key upload_id : bytes) (parts : option (list (option Z * option bytes)))
    : B unit :=
  info <-- s3_bucket (at_ 0) creds bucket ;;
  _ <-- pure (reject_hier_multipart info) ;;
  upload_id <-- pure (s3_decode_upload_id upload_id) ;;
  refs <-- pure (part_refs (default [] parts)) ;;
  on_service (fun s => service_complete_multipart (Membership := Membership) blake3 rvs get_route valid_endpoint s (bki_bucket_id info) key upload_id refs
                         (mo_millis (at_ 0))).
Definition s3_abort_multipart_upload (creds : option string) (bucket : string) (key upload_id : bytes) : B unit :=
  info <-- s3_bucket (at_ 0) creds bucket ;;
  _ <-- pure (reject_hier_multipart info) ;;
  upload_id <-- pure (s3_decode_upload_id upload_id) ;;
  on_service (fun s => service_abort_multipart (Membership := Membership) blake3 rvs get_route valid_endpoint s (bki_bucket_id info) key upload_id
                         (mo_millis (at_ 0))).

(** ** Requests *)

Inductive S3Request : Type :=
| RqPut (bucket : string) (key : bytes) (body : ReqBody) (http : ClientHttpMeta)
| RqGet (bucket : string) (key : bytes) (range : option S3Range)
| RqHead (bucket : string) (key : bytes)
| RqDelete (bucket : string) (key : bytes)
| RqDeletes (bucket : string) (quiet : option bool) (keys : list bytes)
| RqCopy (source : option (string * bytes)) (bucket : string) (key : bytes)
| RqList (bucket : string) (prefix delimiter continuation_token start_after : option bytes) (max_keys : option Z)
| RqHeadBucket (bucket : string)
| RqCreateUpload (bucket : string) (key : bytes)
| RqUploadPart (bucket : string) (key upload_id : bytes) (part_number : Z) (body : ReqBody)
| RqComplete (bucket : string) (key upload_id : bytes) (parts : option (list (option Z * option bytes)))
| RqAbort (bucket : string) (key upload_id : bytes).
Inductive S3Response : Type :=
| RsEtag (etag : string) | RsGet (a : GetAnswer) | RsHead (a : HeadAnswer) | RsDone | RsDeletes (a : DeletesAnswer)
| RsCopy (etag : string) (at_ : Timestamp) | RsList (a : ListAnswer) | RsUpload (id : bytes).
Definition answer_with {A : Type} (f : A -> S3Response) (m : B A) : B S3Response := a <-- m ;; bret (f a).
Definition s3_handle (creds : option string) (req : S3Request) : B S3Response :=
  match req with
  | RqPut bucket key body http => answer_with RsEtag (s3_put_object creds bucket key body http)
  | RqGet bucket key range => answer_with RsGet (s3_get_object creds bucket key range)
  | RqHead bucket key => answer_with RsHead (s3_head_object creds bucket key)
  | RqDelete bucket key => answer_with (fun _ => RsDone) (s3_delete_object creds bucket key)
  | RqDeletes bucket quiet keys => answer_with RsDeletes (s3_delete_objects creds bucket quiet keys)
  | RqCopy source bucket key => answer_with (fun r => RsCopy r.1 r.2) (s3_copy_object creds source bucket key)
  | RqList bucket prefix delimiter token start_after max_keys =>
      answer_with RsList (s3_list_objects_v2 creds bucket prefix delimiter token start_after max_keys)
  | RqHeadBucket bucket => answer_with (fun _ => RsDone) (s3_head_bucket creds bucket)
  | RqCreateUpload bucket key => answer_with RsUpload (s3_create_multipart_upload creds bucket key)
  | RqUploadPart bucket key id part_number body => answer_with RsEtag (s3_upload_part creds bucket key id part_number body)
  | RqComplete bucket key id parts => answer_with (fun _ => RsDone) (s3_complete_multipart_upload creds bucket key id parts)
  | RqAbort bucket key id => answer_with (fun _ => RsDone) (s3_abort_multipart_upload creds bucket key id)
  end.
Definition named_buckets (req : S3Request) : list string :=
  match req with
  | RqCopy source bucket _ => match source with Some (src, _) => [src; bucket] | None => [] end
  | RqPut bucket _ _ _ | RqGet bucket _ _ | RqHead bucket _ | RqDelete bucket _ | RqDeletes bucket _ _ | RqList bucket _ _ _ _ _
  | RqHeadBucket bucket | RqCreateUpload bucket _ | RqUploadPart bucket _ _ _ _ | RqComplete bucket _ _ _ | RqAbort bucket _ _ => [bucket]
  end.
End Http.

(** ** Proofs

    The S3 operations, proved: no request reads or changes anything the caller's
    credential does not allow; upload ids and part tags survive the trip through the
    client; and what the continuation token of a listing loses. *)

From S2P Require Import GatewayProps MetaSmProps.

(** ** Authorization *)

Section Auth.
Context `{RS : ReedSolomon} `{B3 : Blake3} `{Md5} {SocketAddr : Set} (parse_addr : string -> option SocketAddr).
Context `{MetaSerde} {MS : MetaStore} (blake3 : bytes -> bytes) {LogId Membership : Set} `{!SmSerde LogId Membership}.
Context (rvs : string -> Z -> RaftView (LogId := LogId))
  (get_route : PbNsMode -> Z -> bytes -> result ClientError (option MetaPartitionView)) (valid_endpoint : string -> bool).
Context (w : GwWorld) (cfg : GwConfig) (total_units : Z) (read : NodeId -> ShardId -> BlobId -> option (list Z)) (at_ : nat -> Moment).
Abbreviation Be := (@Backend SocketAddr MS).
Implicit Types (be : Be).

(** A credential of the access key that the gateway has cached or the placement driver
    answers during the request. *)
Definition credential_table (l : list CredentialView) : gmap string CachedCredential := (CredentialCache_refresh (Ok l) ∅).1.
Definition known be (access_key : string) (cred : CachedCredential) : Prop :=
  be_creds be !! access_key = Some cred
  \/ exists i l, mo_credentials (at_ i) = Ok l /\ credential_table l !! access_key = Some cred.
Definition may_use be (creds : option string) (name : string) : Prop :=
  exists access_key cred, creds = Some access_key /\ known be access_key cred /\ CachedCredential_allows_bucket cred name = true.

Lemma resolve_known be i access_key c r : CredentialCache_resolve (mo_credentials (at_ i)) (be_creds be) access_key = (c, r) ->
  (forall cred, r = Ok (Some cred) -> known be access_key cred)
  /\ (forall key cred, c !! key = Some cred -> be_creds be !! key = Some cred \/ exists i l, mo_credentials (at_ i) = Ok l /\ credential_table l !! key = Some cred).
Proof.
  unfold CredentialCache_resolve. destruct (be_creds be !! access_key) as [cred0|] eqn:Ec.
  - intros [= <- <-]. split; [intros cred [= <-]; by left|by left].
  - unfold CredentialCache_refresh. destruct (mo_credentials (at_ i)) as [l|e] eqn:El; intros [= <- <-].
    + split; [intros cred [= E]; right; by exists i, l|]. intros key cred E. right. by exists i, l.
    + split; [done|by left].
Qed.
(** The gate every operation passes. *)
Lemma bucket_gate be i creds name be' r : s3_bucket (at_ i) creds name be = (be', r) ->
  be_objects be' = be_objects be /\ (forall info, r = Ok info -> may_use be creds name)
  /\ forall access_key cred, known be' access_key cred -> known be access_key cred.
Proof.
  unfold s3_bucket, bbind, s3_authorize. destruct creds as [access_key|]; [|by intros [= <- <-]].
  destruct (CredentialCache_resolve (mo_credentials (at_ i)) (be_creds be) access_key) as [c r'] eqn:Ec.
  destruct (resolve_known be i access_key c r' Ec) as [Hr Hc].
  assert (forall b, let be1 := {| be_objects := be_objects be; be_buckets := b; be_creds := c |} in
            forall key cred, known be1 key cred -> known be key cred) as Hk.
  { intros b be1 key cred [E|E]; [|by right]. destruct (Hc key cred E); [by left|by right]. }
  destruct r' as [[cred|]|]; [|intros [= <- <-]; split; [done|]; split; [done|apply Hk]..].
  destruct (CachedCredential_allows_bucket cred name) eqn:Ea; [|intros [= <- <-]; split; [done|]; split; [done|apply Hk]].
  destruct (BucketCache_resolve _ _ _) as [b rb]. intros [= <- <-]. split; [done|]. split; [|apply Hk].
  intros info _. exists access_key, cred. split; [done|]. split; [by apply Hr|done].
Qed.
(** A cached credential that allows the bucket passes it. *)
Lemma bucket_cached be i access_key cred name be' r : be_creds be !! access_key = Some cred -> CachedCredential_allows_bucket cred name = true ->
  s3_bucket (at_ i) (Some access_key) name be = (be', r) -> be_creds be' = be_creds be /\ r <> Err S3AccessDenied.
Proof.
  intros Hc Ha. unfold s3_bucket, bbind, s3_authorize, CredentialCache_resolve. rewrite Hc, Ha. destruct (BucketCache_resolve _ _ _) as [b rb].
  intros [= <- <-]. split; [done|]. by destruct rb as [?|[]].
Qed.

(** Nothing but the gate denies access. *)
Definition no_deny {A : Type} (m : B (SocketAddr := SocketAddr) (MS := MS) A) : Prop := forall be, (m be).2 <> Err S3AccessDenied.
Lemma no_deny_ret {A : Type} (a : A) : no_deny (bret a).
Proof. done. Qed.
Lemma no_deny_fail {A : Type} e : e <> S3AccessDenied -> no_deny (A := A) (bfail e).
Proof. intros He be. cbn. congruence. Qed.
Lemma no_deny_pure {A : Type} (r : result S3Error A) : r <> Err S3AccessDenied -> no_deny (pure r).
Proof. by intros Hr be. Qed.
Lemma no_deny_service {A : Type} (f : @Service SocketAddr MS -> @Service SocketAddr MS * result GatewayError A) : no_deny (on_service f).
Proof. intros be. unfold on_service. destruct (f _) as [s [a|e]]; cbn; [done|]. by destruct e. Qed.
Lemma no_deny_bind {A C : Type} (m : B A) (k : A -> B C) : no_deny m -> (forall a, no_deny (k a)) -> no_deny (bbind m k).
Proof. intros Hm Hk be. specialize (Hm be). unfold bbind. destruct (m be) as [be1 [a|e]]; cbn in *; [apply Hk|congruence]. Qed.
Lemma map_err_no_deny {A : Type} (r : result GatewayError A) : s3_map_err r <> Err S3AccessDenied.
Proof. destruct r as [|[]]; done. Qed.
Lemma body_no_deny body : store_all_limited body <> Err S3AccessDenied.
Proof. destruct body as [[b|]|]; cbn; [by case_match|done..]. Qed.
Lemma multipart_no_deny info : reject_hier_multipart info <> Err S3AccessDenied.
Proof. unfold reject_hier_multipart. by case_match. Qed.
Lemma upload_no_deny s : s3_decode_upload_id s <> Err S3AccessDenied.
Proof. destruct s as [|c s]; cbn; [done|]. destruct (c =? 43); [destruct s; [done|]|]; by destruct (parse_digits _ _). Qed.
Lemma parts_no_deny parts : part_refs parts <> Err S3AccessDenied.
Proof.
  induction parts as [|[number etag] parts IH]; cbn; [done|]. destruct number as [n|]; [|done]. destruct (n <? 0); [done|].
  destruct (part_refs parts); [done|congruence].
Qed.
Create HintDb no_deny.
#[local] Hint Resolve no_deny_ret no_deny_pure no_deny_service map_err_no_deny body_no_deny multipart_no_deny upload_no_deny parts_no_deny : no_deny.
#[local] Hint Extern 1 (no_deny (bfail _)) => apply no_deny_fail; discriminate : no_deny.
#[local] Hint Extern 1 (no_deny (bbind _ _)) => apply no_deny_bind; [|intros ?] : no_deny.
#[local] Hint Extern 2 (no_deny (if _ then _ else _)) => case_match : no_deny.
#[local] Hint Extern 2 (no_deny (match _ with Some _ => _ | None => _ end)) => case_match : no_deny.
#[local] Hint Extern 3 (no_deny _) => progress cbv zeta : no_deny.
#[local] Hint Extern 1 ((if _ then _ else _) <> _) => case_match; discriminate : no_deny.

(** What a request gets without leave, and that leave is enough. *)
Definition gated {A : Type} (creds : option string) (names : list string) (m : B (SocketAddr := SocketAddr) (MS := MS) A) : Prop :=
  forall be be' r, m be = (be', r) ->
    ((exists a, r = Ok a) \/ be_objects be' <> be_objects be -> names <> [] /\ Forall (may_use be creds) names)
    /\ (Forall (fun name => exists access_key cred, creds = Some access_key /\ be_creds be !! access_key = Some cred
                              /\ CachedCredential_allows_bucket cred name = true) names -> r <> Err S3AccessDenied).
Lemma gated_one {A : Type} creds name (k : BucketInfo -> B A) : (forall info, no_deny (k info)) -> gated creds [name] (bbind (s3_bucket (at_ 0) creds name) k).
Proof.
  intros Hk be be' r. unfold bbind. destruct (s3_bucket (at_ 0) creds name be) as [be1 [info|e]] eqn:Eb.
  - destruct (bucket_gate be 0 creds name be1 _ Eb) as (Ho & Hu & _). intros E. split.
    + intros _. split; [done|]. constructor; [by eapply Hu|constructor].
    + intros _ Hd. apply (Hk info be1). by rewrite E.
  - destruct (bucket_gate be 0 creds name be1 _ Eb) as (Ho & _). intros [= <- <-]. split; [by intros [[a [=]]|?]|].
    intros [(ak & cred & -> & Hc & Ha) _]%Forall_cons Hd. destruct (bucket_cached be 0 ak cred name be1 _ Hc Ha Eb) as [_ Hn]. apply Hn. congruence.
Qed.
Lemma gated_two {A : Type} creds src dst (k : BucketInfo -> BucketInfo -> B A) : (forall a b, no_deny (k a b)) ->
  gated creds [src; dst] (bbind (s3_bucket (at_ 0) creds src) (fun a => bbind (s3_bucket (at_ 1) creds dst) (k a))).
Proof.
  intros Hk be be' r. unfold bbind at 1. destruct (s3_bucket (at_ 0) creds src be) as [be1 [info|e]] eqn:Eb;
    destruct (bucket_gate be 0 creds src be1 _ Eb) as (Ho & Hu & Hkn).
  - unfold bbind. destruct (s3_bucket (at_ 1) creds dst be1) as [be2 [info'|e]] eqn:Eb2; destruct (bucket_gate be1 1 creds dst be2 _ Eb2) as (Ho2 & Hu2 & _).
    + intros E. split.
      * intros _. split; [done|]. constructor; [by eapply Hu|]. constructor; [|constructor].
        destruct (Hu2 _ eq_refl) as (ak & cred & Ec & Hcr & Ha). exists ak, cred. split; [done|]. split; [by apply Hkn|done].
      * intros _ Hd. apply (Hk info info' be2). by rewrite E.
    + intros [= <- <-]. split; [intros [[a [=]]|Hne]; congruence|].
      intros [(ak & cred & -> & Hc & Ha) [(ak' & cred' & [= <-] & Hc' & Ha') _]%Forall_cons]%Forall_cons Hd.
      destruct (bucket_cached be 0 ak cred src be1 _ Hc Ha Eb) as [Hsame _]. rewrite <- Hsame in Hc'.
      destruct (bucket_cached be1 1 ak cred' dst be2 _ Hc' Ha' Eb2) as [_ Hn]. apply Hn. congruence.
  - intros [= <- <-]. split; [by intros [[a [=]]|?]|].
    intros [(ak & cred & -> & Hc & Ha) _]%Forall_cons Hd. destruct (bucket_cached be 0 ak cred src be1 _ Hc Ha Eb) as [_ Hn]. apply Hn. congruence.
Qed.
Lemma gated_answer {A : Type} creds names (f : A -> S3Response) (m : B A) : gated creds names m -> gated creds names (answer_with f m).
Proof.
  intros Hm be be' r. unfold answer_with, bbind, bret. destruct (m be) as [be1 [a|e]] eqn:E; intros [= <- <-]; destruct (Hm be be1 _ E) as [H1 H2].
  - split; [|done]. intros _. apply H1. left. by exists a.
  - split; [|intros Hl Hd; apply (H2 Hl); congruence]. intros [[a [=]]|Hne]; apply H1; by right.
Qed.

(** C8: authorization. A request that is answered, or that changes anything behind the
    gateway, names a bucket, and for every bucket it names (both of them for a copy) the
    caller is authenticated with an access key whose credential, as the gateway has it
    cached or the placement driver gives it, allows that bucket. Conversely a caller whose cached
    credential allows the buckets is not denied access. *)
Theorem s3_authorized creds req be be' r :
  s3_handle (Membership := Membership) parse_addr blake3 rvs get_route valid_endpoint w cfg total_units read at_ creds req be = (be', r) ->
  ((exists a, r = Ok a) \/ be_objects be' <> be_objects be -> named_buckets req <> [] /\ Forall (may_use be creds) (named_buckets req))
  /\ (Forall (fun name => exists access_key cred, creds = Some access_key /\ be_creds be !! access_key = Some cred
                            /\ CachedCredential_allows_bucket cred name = true) (named_buckets req) -> r <> Err S3AccessDenied).
Proof.
  destruct req; cbn [s3_handle named_buckets]; try (apply gated_answer, gated_one; intros info; auto 20 with no_deny).
  destruct source as [[src key']|]; [|intros [= <- <-]; split; [by intros [[a [=]]|?]|done]].
  apply gated_answer, gated_two. intros a b. auto 20 with no_deny.
Qed.
End Auth.

(** ** Upload ids and part tags *)

Lemma parse_digits_app acc s t : parse_digits acc (s ++ t) = (a ← parse_digits acc s; parse_digits a t).
Proof.
  revert acc. induction s as [|c s IH]; intros acc; cbn; [done|]. destruct (_ && _); [|done]. destruct (_ <? _); [apply IH|done].
Qed.
Lemma parse_digit acc n : 0 <= n < 10 -> acc * 10 + n < 2 ^ 128 -> parse_digits acc [48 + n] = Some (acc * 10 + n).
Proof.
  intros Hn Hb. cbn. destruct (Z.leb_spec 48 (48 + n)); [|lia]. destruct (Z.leb_spec (48 + n) 57); [|lia].
  replace (48 + n - 48) with n by lia. cbn [andb]. by destruct (Z.ltb_spec (acc * 10 + n) (2 ^ 128)); [|lia].
Qed.
Lemma decimal_ok fuel n : 0 <= n < 10 ^ Z.of_nat fuel -> n < 2 ^ 128 -> (0 < fuel)%nat ->
  parse_digits 0 (decimal fuel n) = Some n /\ exists c l, decimal fuel n = c :: l /\ 48 <= c <= 57.
Proof.
  revert n. induction fuel as [|fuel IH]; intros n Hn Hb Hf; [lia|]. cbn [decimal]. destruct (Z.ltb_spec n 10).
  - split; [apply (parse_digit 0 n); lia|]. exists (48 + n), []. split; [done|lia].
  - assert (0 < fuel)%nat as Hf'. { destruct fuel; [|lia]. cbn in Hn. lia. }
    assert (0 <= n / 10 < 10 ^ Z.of_nat fuel) as Hq.
    { split; [apply Z.div_pos; lia|]. apply Z.div_lt_upper_bound; [lia|]. rewrite Nat2Z.inj_succ, Z.pow_succ_r in Hn by lia. lia. }
    destruct (IH (n / 10) Hq ltac:(apply Z.div_lt_upper_bound; lia) Hf') as [E (c & l & El & Hc)]. split.
    + rewrite parse_digits_app, E. cbn [mbind option_bind]. rewrite parse_digit; [f_equal| |]; pose proof (Z.div_mod n 10); pose proof (Z.mod_pos_bound n 10); lia.
    + rewrite El. exists c, (l ++ [48 + n mod 10]). split; [done|lia].
Qed.
(** The id a client was given is the upload it names later. *)
Theorem upload_id_roundtrip id : 0 <= id < 2 ^ 128 -> s3_decode_upload_id (encode_upload_id id) = Ok id.
Proof.
  intros Hid. destruct (decimal_ok 39 id) as [E (c & l & El & Hc)]; [|lia|lia|].
  - split; [lia|]. assert (2 ^ 128 < 10 ^ Z.of_nat 39) by (vm_compute; reflexivity). lia.
  - unfold encode_upload_id, s3_decode_upload_id. rewrite El. destruct (Z.eqb_spec c 43); [lia|]. rewrite <- El, E. done.
Qed.

Fixpoint string_bytes (s : string) : bytes := match s with EmptyString => [] | String c s => Z.of_nat (Ascii.nat_of_ascii c) :: string_bytes s end.
Lemma hex_digit_back n : 0 <= n < 16 -> to_digit16 (Z.of_nat (Ascii.nat_of_ascii (hex_digit n))) = Some n /\ Z.of_nat (Ascii.nat_of_ascii (hex_digit n)) <> 34.
Proof.
  intros Hn. assert (n ∈ seqZ 0 16) as Hin by (apply elem_of_seqZ; lia).
  assert (Forall (fun n => to_digit16 (Z.of_nat (Ascii.nat_of_ascii (hex_digit n))) = Some n /\ Z.of_nat (Ascii.nat_of_ascii (hex_digit n)) <> 34) (seqZ 0 16)) as Hall
    by (repeat constructor; vm_compute; congruence).
  by eapply (proj1 (Forall_forall _ _) Hall).
Qed.
Lemma hex_no_quote d : is_bytes d -> Forall (fun c => c <> 34) (string_bytes (hex_string d)).
Proof.
  induction 1 as [|x d Hx Hd IH]; cbn [hex_string string_bytes]; [constructor|]. unfold is_byte in Hx.
  constructor; [apply hex_digit_back; split; [apply Z.div_pos; lia|apply Z.div_lt_upper_bound; lia]|].
  constructor; [apply hex_digit_back, Z.mod_pos_bound; lia|done].
Qed.
Lemma trim_start_clean s : Forall (fun c => c <> 34) s -> trim_start 34 s = s.
Proof. intros [|c s' Hc _]; [done|]. cbn. by destruct (Z.eqb_spec c 34). Qed.
Lemma trim_clean s : Forall (fun c => c <> 34) s -> trim_matches 34 s = s /\ trim_matches 34 (34 :: s ++ [34]) = s.
Proof.
  intros Hs. assert (Forall (fun c => c <> 34) (rev s)) as Hr by by apply Forall_rev. unfold trim_matches. split.
  - by rewrite (trim_start_clean s), (trim_start_clean (rev s)), rev_involutive.
  - cbn [trim_start Z.eqb Pos.eqb]. destruct s as [|c s']; [done|]. apply Forall_cons in Hs as [Hc Hs'].
    assert (trim_start 34 ((c :: s') ++ [34]) = (c :: s') ++ [34]) as ->. { cbn. by destruct (Z.eqb_spec c 34). }
    rewrite rev_app_distr. cbn [rev app trim_start Z.eqb Pos.eqb]. cbn [rev] in Hr. rewrite (trim_start_clean _ Hr). by rewrite rev_app_distr, rev_involutive.
Qed.
Lemma etag_pairs_hex d fuel : is_bytes d -> (length d <= fuel)%nat -> etag_pairs fuel (string_bytes (hex_string d)) = d.
Proof.
  intros Hd. revert fuel. induction Hd as [|x d Hx Hd IH]; intros fuel Hf; [by destruct fuel|]. destruct fuel as [|fuel]; cbn [length] in Hf; [lia|].
  unfold is_byte in Hx. cbn [hex_string string_bytes etag_pairs].
  destruct (hex_digit_back (x / 16)) as [-> _]; [split; [apply Z.div_pos; lia|apply Z.div_lt_upper_bound; lia]|].
  destruct (hex_digit_back (x mod 16)) as [-> _]; [apply Z.mod_pos_bound; lia|]. rewrite IH by lia. f_equal. pose proof (Z.div_mod x 16). lia.
Qed.
(** A part tag as the gateway gave it, quoted or not, is read back as the digest. *)
Theorem part_tag_roundtrip d : is_bytes d -> length d = 16%nat ->
  render_etag_bytes (string_bytes (hex_string d)) = d /\ render_etag_bytes (34 :: string_bytes (hex_string d) ++ [34]) = d.
Proof.
  intros Hd Hl. destruct (trim_clean _ (hex_no_quote d Hd)) as [E1 E2]. unfold render_etag_bytes. rewrite E1, E2, etag_pairs_hex by (done || lia). done.
Qed.
(** A tag that is no digest is read as what precedes its first other character, not as zeros. *)
Example part_tag_short : render_etag_bytes [97; 98; 99; 100; 45; 50] = [171; 205] /\ render_etag_bytes [] = [].
Proof. split; vm_compute; reflexivity. Qed.

(** ** The continuation token *)

(** Pages of one of two keys. *)
Definition two_keys : list (bytes * unit) := [([97; 194; 191; 49], tt); ([97; 195; 128], tt)].
Definition list_two (cursor : bytes) : result S3Error (list (bytes * unit)) :=
  Ok (take 1 (filter (fun e => lex_ltb cursor e.1 = true) two_keys)).
(** Text is kept as it is; the point a listing skips to after a group need not be text:
    the token the client gets is another one, and what lies between is never listed. *)
Example lossy_keeps_text : from_utf8_lossy [97; 194; 191; 226; 130; 172; 240; 159; 152; 128] = [97; 194; 191; 226; 130; 172; 240; 159; 152; 128].
Proof. vm_compute. reflexivity. Qed.
Theorem lossy_token_skips :
  exists token, list_flat list_two [] [194; 191] [] 1 = Ok {| lp_rows := [LPrefix [97; 194; 191]]; lp_next_token := Some token |}
    /\ list_flat list_two [] [194; 191] token 1 = Ok {| lp_rows := [LObject ([97; 195; 128], tt)]; lp_next_token := Some [97; 195; 128] |}
    /\ list_flat list_two [] [194; 191] (from_utf8_lossy token) 1 = Ok {| lp_rows := []; lp_next_token := None |}.
Proof. eexists. split; [vm_compute; reflexivity|]. split; vm_compute; reflexivity. Qed.

(** *** A caller that is allowed one bucket *)

#[local] Existing Instance ex_sm_serde.
#[local] Instance ex_tag : Md5 := {| md5 := fun b => take 16 (b ++ replicate 16 0); md5_length := ex_digest_length |}.
Definition ex_moment : Moment := {| mo_credentials := Ok []; mo_buckets := Ok []; mo_millis := 11; mo_now := (0, 0) |}.
Definition ex_backend : @Backend string mem_store := {|
  be_objects := ex_service;
  be_buckets := <["photos"%string := {| bki_bucket_id := 4; bki_ns_mode := NsFlat; bki_inline_threshold := 10; bki_codemode_id := 0 |}]>
                (<["other"%string := {| bki_bucket_id := 5; bki_ns_mode := NsFlat; bki_inline_threshold := 10; bki_codemode_id := 0 |}]> ∅);
  be_creds := <["key"%string := {| cc_secret_key := "secret"; cc_allowed_buckets := Some ["photos"%string] |}]> ∅ |}.
Definition ex_handle (req : S3Request) : @Backend string mem_store * result S3Error S3Response :=
  s3_handle (Membership := Z) Some id ex_rvs ex_get_route (fun _ => true) ex_world ex_cfg 16 (fun _ _ _ => None) (fun _ => ex_moment) (Some "key"%string) req ex_backend.
Definition ex_put_req : S3Request := RqPut "photos" [97] (Some (Some [1; 2; 3])) ex_http.
Definition ex_steal : S3Request := RqCopy (Some ("other"%string, [97])) "photos" [98].
(** A put into its bucket is answered; a copy out of another bucket is not. *)
Lemma s3_authorized_witness :
  (exists be' etag, ex_handle ex_put_req = (be', Ok (RsEtag etag)) /\ Forall (may_use (fun _ => ex_moment) ex_backend (Some "key"%string)) ["photos"%string])
  /\ exists be', ex_handle ex_steal = (be', Err S3AccessDenied).
Proof.
  split.
  - assert (match ex_handle ex_put_req with (_, Ok (RsEtag _)) => true | _ => false end = true) as Hok by (vm_compute; reflexivity).
    destruct (ex_handle ex_put_req) as [be' [[etag| | | | | | |]|]] eqn:E; try discriminate. exists be', etag. split; [done|].
    destruct (s3_authorized Some (Membership := Z) id ex_rvs ex_get_route (fun _ => true) ex_world ex_cfg 16 (fun _ _ _ => None) (fun _ => ex_moment)
      (Some "key"%string) ex_put_req ex_backend be' _ E) as [Hin _]. apply Hin. left. by eexists.
  - assert (match ex_handle ex_steal with (_, Err S3AccessDenied) => true | _ => false end = true) as Hok by (vm_compute; reflexivity).
    destruct (ex_handle ex_steal) as [be' [|[]]]; try discriminate. by exists be'.
Defined.
